(* ===== verification/_CoqProject ===== *)
-Q . S2P
Prelude.v
CoreTypes.v
VmStatus.v
Abilities.v
FileFormat.v
Errors.v
BinaryCommon.v
Uleb.v
Loader.v
Serializer.v
Deserializer.v
DeserializerTotal.v
Codecs.v
RoundTrip.v
Encodings.v
Views.v
BoundsChecker.v
InBounds.v
CheckedUnits.v
ControlFlowGraph.v
ControlFlow.v
Loops.v
StackUsage.v
AbsInt.v
LocalsSafety.v
Integers.v
RuntimeTypes.v
Heap.v
Values.v
Vectors.v
GlobalValues.v
HeapCounts.v
ValueTrees.v
Layouts.v
Slots.v
References.v
Frames.v
GlobalSlots.v
Checks.v
Duplication.v
SignatureChecker.v
SignatureRules.v
TypeSafety.v
TypedCode.v
TypedRuns.v
ModulePasses.v
AcquiresList.v
Graphs.v
StructDefs.v
InstantiationLoops.v
CyclicDependencies.v
Dependencies.v
Linking.v
BorrowGraph.v
BorrowSpec.v
ReferenceSafety.v
Bcs.v
BcsCodecs.v
MoveValues.v
MoveValueCodec.v
ValueCodec.v
Verifier.v
Gas.v
LoadedCode.v
Machine.v
Interpreter.v
Execution.v
Runs.v
Effects.v
TypeTags.v
Loading.v
Loads.v
DataCache.v
Runtime.v
Keys.v
Balances.v
Natives.v
Parser.v
Host.v
Upgrades.v
