(* ===== verification/Prelude.v ===== *)
(** * Verification of the Move virtual machine (sp-move-vm): root file

    The repository is a Move virtual machine in Rust for a Substrate host.  Code enters it
    as bytes.  A binary is deserialized into a module or a script, its indices are checked
    against its tables, and the bytecode verifier examines it.  The loader links what is
    verified against the modules of storage and keeps it in caches; the interpreter runs
    it on values, under a meter of gas; a data cache holds the resources that a
    transaction touches and gives its changes at the end.  The host keeps modules and
    resources in one flat storage, answers some resources from its own balances, and
    commits the effects of a transaction.  This library models that path in the order in
    which the program takes it, and proves what each step promises to the next.

    ** Files and the code they model

    Paths are under src/language, except for bcs, crypto, mvm and types, which are under src.

    Shared: [Prelude] (words, outcomes, loops, automation), [CoreTypes] (move-core/types:
    identifier.rs, account_address.rs, [ModuleId]), [VmStatus] (vm_status.rs), [Errors]
    (move-binary-format errors.rs).

    The binary format (move-binary-format): [Abilities] and [FileFormat] (file_format.rs);
    [BinaryCommon] (file_format_common.rs, cursor.rs); [Uleb]; [Loader], the monad of
    reads from a cursor; [Serializer], [Deserializer]; their theorems in
    [DeserializerTotal], [Codecs], [RoundTrip], [Encodings]; [Views] (access.rs,
    binary_views.rs); [BoundsChecker] (check_bounds.rs) with [InBounds] and
    [CheckedUnits]; [ControlFlowGraph] (control_flow_graph.rs).

    The bytecode verifier (bytecode-verifier, borrow-graph): [ControlFlow] with [Loops],
    [StackUsage], [AbsInt] (absint.rs) with its instances [LocalsSafety] and
    [ReferenceSafety]; [Duplication] (check_duplication.rs); [SignatureChecker]
    (signature.rs, instruction_consistency.rs) with [SignatureRules]; [TypeSafety] with
    [TypedCode] and [TypedRuns]; [ModulePasses] (friends.rs, script_signature.rs,
    ability_field_requirements.rs); [AcquiresList]; [StructDefs] and [InstantiationLoops]
    on the graphs of [Graphs]; [CyclicDependencies]; [Dependencies] with [Linking];
    [BorrowGraph] (paths.rs, references.rs, graph.rs) with [BorrowSpec]; [Verifier] (verifier.rs,
    code_unit_verifier.rs), the passes together.

    Values (move-vm/types, bcs, move-core/types value.rs): [Integers], [RuntimeTypes],
    [Heap], [Values], [Vectors], [GlobalValues]; their theorems in [HeapCounts],
    [ValueTrees], [Layouts], [Slots], [References], [Frames], [GlobalSlots], [Checks];
    [Bcs] with [BcsCodecs]; [MoveValues] with [MoveValueCodec]; [ValueCodec].

    The machine (move-vm/runtime, move-vm/types): [Gas] (gas_schedule.rs); [LoadedCode]
    (the caches and the resolver of loader.rs); [Machine] (stacks, frames, the trait
    [DataStore], sizes of values); [Interpreter] with [Execution] and [Runs];
    [Effects] (effects.rs); [TypeTags] (the type cache of loader.rs); [Loading] (loading
    and verification in loader.rs) with [Loads]; [DataCache] (data_cache.rs); [Runtime]
    (runtime.rs, session.rs); [Natives] (move-stdlib/src/natives, native_functions.rs,
    and what signatures use of crypto/crypto/src/ed25519.rs).

    The host (mvm): [Keys] (language_storage.rs, io/key.rs); [Parser] (parser.rs and
    transaction_argument.rs of move-core/types, texts of tags and addresses); [Balances] (io, and
    currency_info.rs, event.rs and addresses.rs of types); [Host] (mvm.rs, types.rs,
    error.rs, genesis.rs); [Upgrades] (normalized.rs and compatibility.rs of
    move-binary-format, abi.rs of mvm).

    ** How state and operations correspond

    An unsigned integer is an [N]; a conversion or an addition that can leave its type
    wraps or panics where it is written.  A fallible computation has a [result]: a value,
    an error of the source, a panic (failed index, unwrap or assertion), or exhausted
    fuel.  Bytes are numbers below 256; a [str] is the list of its bytes, in [Parser] of its
    characters.  Vectors are
    lists; a vector used as a stack is a list whose head is the top.

    A [&mut] argument is threaded: the buffer of the writer, the cursor of the [Loader]
    monad, the input and depth of the BCS deserializer, the context of the bounds checker.
    Where an error leaves a state that is seen later, the monad [Run] keeps the state when
    it fails: the gas of a failed execution, the caches after a failed load, the session
    after a failed call.  A failed operation on values leaves memory as it was before the
    operation.

    Containers of values are shared ([Rc] of a [RefCell]): the heap of [Heap] has a cell
    for each, with its data and its strong count; a drop that takes the last pointer frees
    what the cell holds.  [Arc] and the other shared pointers to constant data are what
    they point to.  A [BTreeMap] or [HashMap] whose order does not matter is a [gmap]; a
    [BTreeSet] that is iterated is a sorted list; where the order in which a hash map is
    iterated decides what is returned, that order is an argument.  Objects behind
    interior mutability (the storage of the host, its event handler, its balances, the
    caches of the loader) are states that their operations return anew.

    Interfaces are classes: an analysis and its laws ([AnalysisLaws], with two
    instances), a codec ([Codec]), the data store of the interpreter ([DataStore],
    implemented by the data cache), native functions ([NativeCalls],
    implemented by those of the standard library), what is stored
    ([MoveResolver], implemented by storage and by a session of the host), the graphs of
    petgraph with the laws of its documentation, the storage, events and balances of
    a host, of which only storage has laws ([StorageLaws], which finite maps satisfy),
    the crate hex, with laws that a conversion of digits satisfies ([HexLaws]), and
    the libraries of the native functions: hashes, curve operations, and 256-bit integers
    with their laws ([U256Laws]), which numbers that wrap satisfy.
    Where builds differ, the difference is an argument: [debug] for assertions,
    [overflow_checks] for arithmetic.

    ** What the theorems show

    - Binaries: modules and scripts that are written are read back
      ([serialize_module_roundtrip], [serialize_script_roundtrip]), ULEB128 integers are
      canonical, and arbitrary bytes end with a unit or an error, never a panic
      ([deserialize_compiled_module_total], [CompiledModule_deserialize_total]).
    - Bounds: the check accepts exactly the units in bounds ([verify_module_spec],
      [verify_script_spec]), with an error that names the fault; then accessors and
      abilities cannot fail.
    - Functions: control flow is structured ([control_flow_verify_structured]); the stack
      does not underflow and is balanced ([stack_usage_safe]); locals are full when they
      are read ([locals_safety_sound]); types of operands are right on every run
      ([type_safety_sound]); the borrow graph loses no borrow ([release_keeps_borrows],
      [factor_keeps_borrows], [join_covers]).  [verify_module_sound] has what all passes
      promise of an accepted module; of reference safety this is the certificate
      [borrows_checked], states of the borrow graph that the blocks lead from one to the
      other ([analyze_function_explored]).
    - Modules: signatures, struct recursion, instantiation loops, duplicates, acquires
      lists, friends and dependencies are checked exactly as declarative
      specifications say ([signature_verify_module_spec],
      [struct_defs_verify_module_spec], [loops_verify_module_spec],
      [dependencies_verify_links], [cyclic_verify_module_spec]).
    - Values: operations on the heap refine operations on the trees of data that the values
      denote ([write_ref_spec], [vector_ref_refines], [locals_refine_frame],
      [global_effect_is_current]); integer arithmetic is exact or an error
      ([integer_arithmetic_spec]); serialized values are canonical, and those of the
      machine are those of Move values ([move_value_canonical],
      [value_deserialize_refines], [value_round_trip]).
    - Execution: metered executions end ([execution_terminates]) within the limits of the
      stacks ([execution_limits]); the counter of verified code stays inside
      ([verified_code_counter]); gas never comes back.
    - Loading: what is cached was accepted and links ([cache_verified]); every request
      ends ([requests_end]); a module that cannot be linked leaves the cache as it was
      ([insert_atomic]); cached tags and layouts are those computed without a cache
      ([type_cache_correct]).
    - Transactions: change sets compose ([squash_applies]); the change set of a data
      cache gives every resource what the transaction sees in it ([effects_commit]); a
      bundle is published as a whole or not at all, checked against the loader's cache,
      which only grows from storage ([publish_bundle_spec], [grown]).
    - Native functions: each is found under its name ([all_natives_found]); those on
      vectors are operations on lists ([vector_natives_refine]); 256-bit arithmetic is
      exact or an error ([u256_arithmetic]); serialization returns the data of its
      argument ([to_bytes_spec]).
    - The host: no two items of storage share a key ([storage_keys_distinct]); tags are
      canonical ([struct_tag_canonical]); the resolver only reads ([resolver_invariant]);
      the operations on balances follow the change set on every ledger, whatever a host
      makes of them ([balances_follow_changes]); a commit stores what the
      change set says ([effects_committed]); scripts, packages and the initial state are
      all or nothing, from their sessions to what is stored ([script_all_or_nothing],
      [package_published], [init_storage_all_or_nothing]).
    - Texts: every text that is parsed is answered ([parsers_answer]), tags that are
      displayed are read back ([display_round_trip]), and numbers are read exactly
      ([parse_uint_spec]).
    - Upgrades: the compatibility check decides what it promises
      ([compatibility_check_spec]) and is a preorder ([full_compatibility_preorder]); what
      links against a module links against its compatible upgrades
      ([upgrade_keeps_links]); types of modules and type tags correspond
      ([type_tags_normalized]); interfaces say what normalization says
      ([module_abi_spec]), and requests for them are answered ([get_module_abi_answers]).

    Some theorems show where the code does not do what it means to: packing a vector
    confuses types ([vec_pack_confuses_types]); a struct tag of many levels panics
    ([resource_key_or_panic]).  Examples on small inputs show others: reference safety
    panics on harmless modules and accepts a reference to a removed element
    ([reference_safety_panics], [removed_element_accepted]); native functions without a
    price panic ([unmetered_natives_panic]); two modules of one name are published
    ([duplicate_modules_published]); a refused module stays cached
    ([cyclic_module_cached]); the bound on layouts depends on the cache
    ([layout_bound_cached]); coins that share a bridge lose payments
    ([shared_bridge_payment_lost]).

    ** Bounds and fuel

    Loops over a list recurse on it.  Loops that consume input have the remaining length as
    fuel; traversals of a token have its size; a ULEB128 integer of 32 bits has five
    rounds; the traversal of a control-flow graph has its number of blocks; the abstract
    interpreter has the blocks times the height of the domain.  Traversals of values have
    one more than the cells of the heap, drops the number of pointers.  Layouts have 257
    levels, one more than the bound that the code checks; type tags 502, two more than the
    containers that BCS enters.  The theorems on these definitions have no exhausted
    outcome as an excuse: that the fuel is enough is part of their proofs.

    Some fuel is an argument.  The loops of the interpreter end with any fuel above the
    internal gas that is left ([execution_terminates]); the loader with any fuel above
    the number of modules of storage, plus one ([requests_end]); the search for cyclic
    dependencies with any above the size of a set that contains the modules it can reach.
    The fuel of the reference-safety pass bounds the blocks it processes: a domain of
    borrow graphs has no bound that is proved here, so theorems about it say what an
    accepted function has.

    ** Not modelled

    - Digests, curve operations and 256-bit integers of other crates, the hash of scripts
      and what is stored are arguments.  The native functions of the feature [testing] and
      what debugging prints are left out.  The interpreter's theorems hold for every
      implementation of native functions.
    - That the references of verified code never dangle at run time is proved for the
      operations of the borrow graph, not for whole executions.
    - Typed views and layouts of binaries (views.rs, layout.rs): tools read them, the
      virtual machine does not.
    - Message texts, [Display] except of tags, debug printers, stack traces, logs and locks.
    - The wire format of transactions and packages of mvm, and the standard library that
      the default genesis embeds.
    - Keys and signing, script interfaces and error maps, on-chain configuration,
      vendored utilities, generators and test support. *)

From stdpp Require Export base tactics list numbers option strings gmap sets.
From Stdlib Require Export NArith Lia ZifyBool ZifyN ZifyNat.

#[global] Open Scope N_scope.
#[global] Set Default Goal Selector "!".

(** ** Machine words

    Rust's unsigned integers are values of [N] together with the width of
    their type; arithmetic that the source leaves unchecked wraps explicitly. *)

Definition u8_MAX : N := 2 ^ 8 - 1.
Definition u16_MAX : N := 2 ^ 16 - 1.
Definition u32_MAX : N := 2 ^ 32 - 1.
Definition u64_MAX : N := 2 ^ 64 - 1.
Definition u128_MAX : N := 2 ^ 128 - 1.

(** [usize] is the 64-bit one. *)
Definition usize_MAX : N := u64_MAX.

(** [x as uN] for a value of a wider type. *)
Definition wrap (bits x : N) : N := x mod 2 ^ bits.

(** [a.checked_add(b)] for the type whose largest value is [max]. *)
Definition checked_add (max a b : N) : option N :=
  if a + b <=? max then Some (a + b) else None.

(** Length of a Rust slice or vector, as the machine number the code uses. *)
Definition len {A} (l : list A) : N := N.of_nat (length l).

(** [l[i]] by a machine index; out of range is [None]. *)
Definition at_ {A} (l : list A) (i : N) : option A := l !! N.to_nat i.

Definition is_empty {A} (l : list A) : bool :=
  match l with [] => true | _ :: _ => false end.

(** ** Outcomes

    A Rust computation returns a value, returns an error, panics (an
    out-of-range slice, an [unwrap] of [None], an [unreachable!]), or, in the
    model only, exhausts the fuel of a loop. *)

Inductive result (E A : Type) : Type :=
| Ok (a : A)
| Err (e : E)
| Panic
| OutOfFuel.
Arguments Ok {E A} a.
Arguments Err {E A} e.
Arguments Panic {E A}.
Arguments OutOfFuel {E A}.

#[export] Instance result_ret E : MRet (result E) := λ A a, Ok a.
#[export] Instance result_bind E : MBind (result E) := λ A B k m,
  match m with
  | Ok a => k a
  | Err e => Err e
  | Panic => Panic
  | OutOfFuel => OutOfFuel
  end.
#[export] Instance result_fmap E : FMap (result E) := λ A B f m,
  m ≫= λ a, Ok (f a).

(** [r.map_err(|_| e)] *)
Definition map_err {E F A} (f : E → F) (r : result E A) : result F A :=
  match r with
  | Ok a => Ok a
  | Err e => Err (f e)
  | Panic => Panic
  | OutOfFuel => OutOfFuel
  end.

(** [o.ok_or(e)] and [o.unwrap()] *)
Definition ok_or {E A} (e : E) (o : option A) : result E A :=
  match o with Some a => Ok a | None => Err e end.
Definition unwrap {E A} (o : option A) : result E A :=
  match o with Some a => Ok a | None => Panic end.

(** [for x in l { acc = f(acc, x)?; }] *)
Fixpoint try_fold {E A B} (f : B → A → result E B) (l : list A) (b : B) : result E B :=
  match l with
  | [] => Ok b
  | x :: l => b' ← f b x; try_fold f l b'
  end.

(** [for x in l { f(x)?; }] *)
Definition for_each {E A} (f : A → result E unit) (l : list A) : result E unit :=
  try_fold (λ _ x, f x) l tt.

(** ** Computations that keep their state when they fail *)

Definition Run (S E A : Type) : Type := S → result E A * S.
#[export] Instance Run_ret {S E} : MRet (Run S E) := λ A a s, (Ok a, s).
#[export] Instance Run_bind {S E} : MBind (Run S E) := λ A B k m s,
  match m s with
  | (Ok a, s) => k a s
  | (Err e, s) => (Err e, s)
  | (Panic, s) => (Panic, s)
  | (OutOfFuel, s) => (OutOfFuel, s)
  end.
Definition run_lift {S E A} (r : result E A) : Run S E A := λ s, (r, s).
Definition run_get {S E A} (f : S → A) : Run S E A := λ s, (Ok (f s), s).
Definition run_modify {S E} (f : S → S) : Run S E unit := λ s, (Ok tt, f s).
(** [r.map_err(f)] *)
Definition run_map_err {S E F A} (f : E → F) (m : Run S E A) : Run S F A := λ s,
  let '(r, s) := m s in (map_err f r, s).
(** A computation's error as a value *)
Definition run_try {S E A} (m : Run S E A) : Run S E (result E A) := λ s,
  match m s with
  | (Ok a, s) => (Ok (Ok a), s)
  | (Err e, s) => (Ok (Err e), s)
  | (Panic, s) => (Panic, s)
  | (OutOfFuel, s) => (OutOfFuel, s)
  end.
(** [for x in l { f(x)?; }] *)
Fixpoint run_each {S E A} (f : A → Run S E unit) (l : list A) : Run S E unit :=
  match l with
  | [] => mret tt
  | x :: l => _ ← f x; run_each f l
  end.

Lemma run_bind_eq {S E A B} (m : Run S E A) (k : A → Run S E B) s :
  (m ≫= k) s = match m s with
               | (Ok a, s) => k a s
               | (Err e, s) => (Err e, s)
               | (Panic, s) => (Panic, s)
               | (OutOfFuel, s) => (OutOfFuel, s)
               end.
Proof. done. Qed.
Lemma run_bind_ok {S E A B} (m : Run S E A) (k : A → Run S E B) s a s' : m s = (Ok a, s') → (m ≫= k) s = k a s'.
Proof. intros Hm. by rewrite run_bind_eq, Hm. Qed.

(** What holds of a computation that returns, with a value or with an error *)
Definition run_spec {S E A} (m : Run S E A) (s : S) (Q : A → S → Prop) (R : E → S → Prop) : Prop :=
  match m s with
  | (Ok a, s) => Q a s
  | (Err e, s) => R e s
  | _ => True
  end.
Lemma run_spec_bind {S E A B} (m : Run S E A) (k : A → Run S E B) s Q R :
  run_spec m s (λ a s, run_spec (k a) s Q R) R → run_spec (m ≫= k) s Q R.
Proof. unfold run_spec, mbind, Run_bind. by destruct (m s) as [[] ?]. Qed.
Lemma run_spec_weaken {S E A} (m : Run S E A) s (Q Q' : A → S → Prop) (R R' : E → S → Prop) :
  run_spec m s Q R → (∀ a s, Q a s → Q' a s) → (∀ e s, R e s → R' e s) → run_spec m s Q' R'.
Proof. unfold run_spec. destruct (m s) as [[] ?]; auto. Qed.
Lemma run_spec_lift {S E A} (r : result E A) (s : S) (Q : A → S → Prop) (R : E → S → Prop) :
  (∀ a, r = Ok a → Q a s) → (∀ e, r = Err e → R e s) → run_spec (run_lift r) s Q R.
Proof. unfold run_spec, run_lift. destruct r; auto. Qed.
Lemma run_spec_map_err {S E F A} (f : E → F) (m : Run S E A) s Q R :
  run_spec m s Q (λ e s, R (f e) s) → run_spec (run_map_err f m) s Q R.
Proof. unfold run_spec, run_map_err. by destruct (m s) as [[] ?]. Qed.
(** A loop keeps an invariant on the number of elements that it has passed. *)
Lemma run_spec_each {S E A} (f : A → Run S E unit) (I : nat → S → Prop) (R : E → S → Prop) l s :
  I 0%nat s → (∀ i x s, l !! i = Some x → I i s → run_spec (f x) s (λ _, I (Datatypes.S i)) R) →
  run_spec (run_each f l) s (λ _, I (length l)) R.
Proof.
  revert I s. induction l as [|x l IH]; intros I s H0 Hf; [done|]. apply run_spec_bind.
  eapply run_spec_weaken; [by apply (Hf 0%nat x s)| |done]. intros [] s' HI.
  apply (IH (λ i, I (Datatypes.S i)) s' HI). intros i y s2 Hy. by apply (Hf (Datatypes.S i)).
Qed.

(** [l.iter().enumerate()] *)
Definition enumerate {A} (l : list A) : list (N * A) := imap (λ i x, (N.of_nat i, x)) l.

(** [debug_assert!(c)] of a build with or without debug assertions. *)
Definition debug_assert {E} (debug_assertions c : bool) : result E unit :=
  if debug_assertions && negb c then Panic else Ok tt.

(** The outcome is a value or an error of the program, not a panic. *)
Definition no_panic {E A} (r : result E A) : Prop :=
  match r with Ok _ | Err _ => True | Panic | OutOfFuel => False end.

Section ResultLemmas.
Context {E : Type}.

Lemma bind_Ok {A B} (m : result E A) (k : A → result E B) b :
  m ≫= k = Ok b ↔ ∃ a, m = Ok a ∧ k a = Ok b.
Proof. destruct m; split; naive_solver. Qed.

Lemma bind_no_panic {A B} (m : result E A) (k : A → result E B) :
  no_panic m → (∀ a, m = Ok a → no_panic (k a)) → no_panic (m ≫= k).
Proof. destruct m; simpl; auto. Qed.

Lemma ok_or_Ok {A} (e : E) (o : option A) a : ok_or e o = Ok a ↔ o = Some a.
Proof. destruct o; simpl; split; congruence. Qed.

Lemma map_err_Ok {F A} (f : F → E) (r : result F A) a :
  map_err f r = Ok a ↔ r = Ok a.
Proof. destruct r; simpl; split; congruence. Qed.

Lemma for_each_nil {A} (f : A → result E unit) : for_each f [] = Ok tt.
Proof. done. Qed.
Lemma for_each_cons {A} (f : A → result E unit) x l :
  for_each f (x :: l) = f x ≫= λ _, for_each f l.
Proof. unfold for_each. cbn [try_fold]. by destruct (f x) as [[]| | |]. Qed.

Lemma for_each_Ok {A} (f : A → result E unit) l :
  for_each f l = Ok tt ↔ Forall (λ x, f x = Ok tt) l.
Proof.
  induction l as [|x l IH]; [by rewrite for_each_nil|].
  rewrite for_each_cons, Forall_cons, <- IH, bind_Ok. split; [|naive_solver].
  intros ([] & ? & ?). auto.
Qed.

(** The first error ends the loop; the elements before it passed. *)
Lemma for_each_Err {A} (f : A → result E unit) l e :
  for_each f l = Err e ↔
  ∃ l1 x l2, l = l1 ++ x :: l2 ∧ Forall (λ y, f y = Ok tt) l1 ∧ f x = Err e.
Proof.
  induction l as [|x l IH].
  { rewrite for_each_nil. split; [done|]. by intros ([] & ? & ? & ? & _). }
  rewrite for_each_cons. destruct (f x) as [[]|e'| |] eqn:E1; simpl; [rewrite IH| | |].
  - split.
    + intros (l1 & y & l2 & -> & H1 & H2). exists (x :: l1), y, l2. auto using Forall_cons_2.
    + intros ([|z l1] & y & l2 & [= -> ->] & H1 & H2); [congruence|].
      apply Forall_cons in H1 as [_ H1]. eauto 10.
  - split; [intros [= ->]; by exists [], x, l|].
    intros ([|z l1] & y & l2 & [= -> ->] & H1 & H2); [congruence|].
    apply Forall_cons in H1 as [H1 _]. congruence.
  - split; [done|]. intros ([|z l1] & y & l2 & [= -> ->] & H1 & H2); [congruence|].
    apply Forall_cons in H1 as [H1 _]. congruence.
  - split; [done|]. intros ([|z l1] & y & l2 & [= -> ->] & H1 & H2); [congruence|].
    apply Forall_cons in H1 as [H1 _]. congruence.
Qed.

Lemma for_each_no_panic {A} (f : A → result E unit) l :
  Forall (λ x, no_panic (f x)) l → no_panic (for_each f l).
Proof.
  induction 1 as [|x l Hx _ IH]; [done|]. rewrite for_each_cons.
  by apply bind_no_panic.
Qed.

Lemma try_fold_app {A B} (f : B → A → result E B) l1 l2 b :
  try_fold f (l1 ++ l2) b = try_fold f l1 b ≫= try_fold f l2.
Proof.
  revert b; induction l1 as [|x l1 IH]; intros b; simpl; [done|].
  destruct (f b x); simpl; auto.
Qed.
End ResultLemmas.

(** ** Automation *)

(** Break every equation [... = Ok _] of the context along the binds, the
    conditionals and the matches of its left-hand side. *)
Ltac inv_ok_step :=
  match goal with
  | H : Ok _ = Ok _ |- _ => injection H as H
  | H : Err _ = Ok _ |- _ => discriminate H
  | H : Panic = Ok _ |- _ => discriminate H
  | H : OutOfFuel = Ok _ |- _ => discriminate H
  | H : _ ≫= _ = Ok _ |- _ =>
      let a := fresh "a" in let H1 := fresh "Hok" in let H2 := fresh "Hok" in
      apply bind_Ok in H as (a & H1 & H2)
  | H : ok_or _ _ = Ok _ |- _ => apply ok_or_Ok in H
  | H : map_err _ _ = Ok _ |- _ => apply map_err_Ok in H
  end.
Ltac inv_ok := repeat (inv_ok_step; simplify_eq/=).

(** The same, also splitting the [if]s that guard a result. *)
Ltac inv_if :=
  match goal with
  | H : (if ?b then _ else _) = Ok _ |- _ =>
      let E := fresh "E" in destruct b eqn:E; try discriminate H
  end.

Create HintDb move discriminated.

(** ** Lists and numbers *)

Lemma len_app {A} (l1 l2 : list A) : len (l1 ++ l2) = len l1 + len l2.
Proof. unfold len. rewrite length_app. lia. Qed.
Lemma len_cons {A} (x : A) l : len (x :: l) = 1 + len l.
Proof. unfold len. simpl length. lia. Qed.
Lemma len_nil {A} : len (@nil A) = 0.
Proof. done. Qed.
Lemma len_to_nat {A} (l : list A) : N.to_nat (len l) = length l.
Proof. unfold len. lia. Qed.
Lemma len_zero {A} (l : list A) : len l = 0 → l = [].
Proof. destruct l; [done|]. rewrite len_cons. lia. Qed.

Create HintDb len.
#[export] Hint Rewrite @len_app @len_cons @len_nil : len.

Lemma enumerate_Some {A} (l : list A) k o x :
  enumerate l !! k = Some (o, x) ↔ o = N.of_nat k ∧ l !! k = Some x.
Proof.
  unfold enumerate. rewrite list_lookup_imap, fmap_Some. naive_solver.
Qed.

(** Solve arithmetic over list lengths. *)
Ltac len_lia := autorewrite with len in *; unfold len in *; lia.
