(* ===== verification/CoreTypes.v ===== *)
(** * CoreTypes: identifiers, account addresses and module ids

    Models the parts of [language/move-core/types/src] every other component
    names things with: [identifier.rs], [account_address.rs] and [ModuleId] of
    [language_storage.rs].  A byte is an [N] below 256, a [str] the list of its
    UTF-8 bytes. *)

From S2P Require Import Prelude.

Definition u8 : Set := N.

(** The values a [Vec<u8>] can hold. *)
Definition bytes_ok (l : list u8) : Prop := Forall (λ b, b < 256) l.

(** ** Identifiers *)

Definition between (lo hi c : N) : bool := (lo <=? c) && (c <=? hi).

(** [is_valid_identifier_char]: ['_' | 'a'..='z' | 'A'..='Z' | '0'..='9'] *)
Definition is_valid_identifier_char (c : u8) : bool :=
  (c =? 95) || between 97 122 c || between 65 90 c || between 48 57 c.

(** [all_bytes_valid b start_offset] *)
Definition all_bytes_valid (b : list u8) (start_offset : nat) : bool :=
  forallb is_valid_identifier_char (drop start_offset b).

(** The bytes of ["<SELF>"]. *)
Definition self_bytes : list u8 := [60; 83; 69; 76; 70; 62].

(** [is_valid]: the branches in the order of the source's match. *)
Definition is_valid (b : list u8) : bool :=
  if decide (b = self_bytes) then true
  else match b with
       | c :: _ =>
           if between 97 122 c || between 65 90 c then all_bytes_valid b 1
           else if (c =? 95) && (1 <? len b) then all_bytes_valid b 1
           else false
       | [] => false
       end.

(** [core::str::from_utf8]: the well-formed byte sequences of UTF-8. *)
Definition cont (b : u8) : bool := between 128 191 b.

Fixpoint utf8_valid (l : list u8) : bool :=
  match l with
  | [] => true
  | a :: l =>
      if a <? 128 then utf8_valid l
      else if between 194 223 a then
        match l with b :: l => cont b && utf8_valid l | _ => false end
      else if between 224 239 a then
        match l with
        | b :: c :: l =>
            (if a =? 224 then between 160 191 b
             else if a =? 237 then between 128 159 b else cont b)
            && cont c && utf8_valid l
        | _ => false
        end
      else if between 240 244 a then
        match l with
        | b :: c :: d :: l =>
            (if a =? 240 then between 144 191 b
             else if a =? 244 then between 128 143 b else cont b)
            && cont c && cont d && utf8_valid l
        | _ => false
        end
      else false
  end.

(** [Identifier(Box<str>)], as its bytes. *)
Definition Identifier : Set := list u8.

(** [Identifier::new] *)
Definition Identifier_new (s : list u8) : option Identifier :=
  if is_valid s then Some s else None.

(** [Identifier::from_utf8] *)
Definition from_utf8 (vec : list u8) : option Identifier :=
  if utf8_valid vec then Identifier_new vec else None.

(** The type invariant of [Identifier]: built only by [Identifier_new]. *)
Definition Identifier_ok (s : Identifier) : Prop := is_valid s = true.

Lemma valid_char_ascii c : is_valid_identifier_char c = true → c < 128.
Proof. unfold is_valid_identifier_char, between. lia. Qed.

Lemma ascii_utf8 l : Forall (λ b, b < 128) l → utf8_valid l = true.
Proof.
  induction 1 as [|b l Hb _ IH]; [done|]. cbn [utf8_valid].
  by rewrite (proj2 (N.ltb_lt _ _) Hb).
Qed.

Lemma all_bytes_valid_ascii b n :
  all_bytes_valid b n = true → Forall (λ b, b < 128) (drop n b).
Proof.
  unfold all_bytes_valid. rewrite forallb_forall. intros H.
  apply Forall_forall. intros x Hx. apply valid_char_ascii, H.
  by apply list_elem_of_In.
Qed.

Lemma is_valid_ascii b : is_valid b = true → Forall (λ b, b < 128) b.
Proof.
  unfold is_valid. case_decide as Hself; [intros _; subst; repeat constructor; lia|].
  destruct b as [|c b]; [done|].
  destruct (between 97 122 c || between 65 90 c) eqn:E1.
  - intros H%all_bytes_valid_ascii. constructor; [unfold between in E1; simpl; lia|done].
  - destruct ((c =? 95) && (1 <? len (c :: b))) eqn:E2; [|done].
    intros H%all_bytes_valid_ascii. constructor; [simpl; lia|done].
Qed.

(** An identifier reads back from its own bytes. *)
Lemma from_utf8_ok s : Identifier_ok s → from_utf8 s = Some s.
Proof.
  unfold Identifier_ok, from_utf8, Identifier_new. intros H.
  by rewrite (ascii_utf8 _ (is_valid_ascii _ H)), H.
Qed.
Lemma from_utf8_inv v s : from_utf8 v = Some s → s = v ∧ Identifier_ok s.
Proof.
  unfold from_utf8, Identifier_new, Identifier_ok.
  destruct (utf8_valid v); [|done]. by destruct (is_valid v) eqn:E; intros [= <-].
Qed.
Lemma Identifier_ok_bytes s : Identifier_ok s → bytes_ok s.
Proof. intros H%is_valid_ascii. eapply Forall_impl; [done|]. simpl. lia. Qed.

(** ** Account addresses *)

(** [AccountAddress([u8; AccountAddress::LENGTH])] *)
Definition AccountAddress : Set := list u8.

(** [AccountAddress::LENGTH] *)
Definition ADDRESS_LENGTH : N := 32.

Definition AccountAddress_ok (a : AccountAddress) : Prop :=
  len a = ADDRESS_LENGTH ∧ bytes_ok a.

(** [AccountAddress::from_bytes]: a slice of exactly [LENGTH] bytes. *)
Definition from_bytes (bytes : list u8) : option AccountAddress :=
  if len bytes =? ADDRESS_LENGTH then Some bytes else None.

(** [AccountAddress::ZERO] *)
Definition ZERO : AccountAddress := replicate (N.to_nat ADDRESS_LENGTH) 0.

(** ** Module ids *)

(** [pub struct ModuleId] *)
Record ModuleId : Set := { mid_address : AccountAddress; mid_name : Identifier }.

#[export] Instance ModuleId_eq_dec : EqDecision ModuleId.
Proof. solve_decision. Defined.
