(* ===== verification/VmStatus.v ===== *)
(** * VmStatus: status codes and transaction outcomes

    Models [language/move-core/types/src/vm_status.rs]: the status codes of
    every component, their numbers, their classification and the decision to
    keep or discard a transaction. *)

From S2P Require Import Prelude CoreTypes.

(** [pub enum StatusCode] *)
Inductive StatusCode : Set :=
| UNKNOWN_VALIDATION_STATUS
| INVALID_SIGNATURE
| INVALID_AUTH_KEY
| SEQUENCE_NUMBER_TOO_OLD
| SEQUENCE_NUMBER_TOO_NEW
| INSUFFICIENT_BALANCE_FOR_TRANSACTION_FEE
| TRANSACTION_EXPIRED
| SENDING_ACCOUNT_DOES_NOT_EXIST
| REJECTED_WRITE_SET
| INVALID_WRITE_SET
| EXCEEDED_MAX_TRANSACTION_SIZE
| UNKNOWN_SCRIPT
| UNKNOWN_MODULE
| MAX_GAS_UNITS_EXCEEDS_MAX_GAS_UNITS_BOUND
| MAX_GAS_UNITS_BELOW_MIN_TRANSACTION_GAS_UNITS
| GAS_UNIT_PRICE_BELOW_MIN_BOUND
| GAS_UNIT_PRICE_ABOVE_MAX_BOUND
| INVALID_GAS_SPECIFIER
| SENDING_ACCOUNT_FROZEN
| UNABLE_TO_DESERIALIZE_ACCOUNT
| CURRENCY_INFO_DOES_NOT_EXIST
| INVALID_MODULE_PUBLISHER
| NO_ACCOUNT_ROLE
| BAD_CHAIN_ID
| SEQUENCE_NUMBER_TOO_BIG
| BAD_TRANSACTION_FEE_CURRENCY
| FEATURE_UNDER_GATING
| SECONDARY_KEYS_ADDRESSES_COUNT_MISMATCH
| SIGNERS_CONTAIN_DUPLICATES
| SEQUENCE_NONCE_INVALID
| UNKNOWN_VERIFICATION_ERROR
| INDEX_OUT_OF_BOUNDS
| INVALID_SIGNATURE_TOKEN
| RECURSIVE_STRUCT_DEFINITION
| FIELD_MISSING_TYPE_ABILITY
| INVALID_FALL_THROUGH
| NEGATIVE_STACK_SIZE_WITHIN_BLOCK
| INVALID_MAIN_FUNCTION_SIGNATURE
| DUPLICATE_ELEMENT
| INVALID_MODULE_HANDLE
| UNIMPLEMENTED_HANDLE
| LOOKUP_FAILED
| TYPE_MISMATCH
| MISSING_DEPENDENCY
| POP_WITHOUT_DROP_ABILITY
| BR_TYPE_MISMATCH_ERROR
| ABORT_TYPE_MISMATCH_ERROR
| STLOC_TYPE_MISMATCH_ERROR
| STLOC_UNSAFE_TO_DESTROY_ERROR
| UNSAFE_RET_LOCAL_OR_RESOURCE_STILL_BORROWED
| RET_TYPE_MISMATCH_ERROR
| RET_BORROWED_MUTABLE_REFERENCE_ERROR
| FREEZEREF_TYPE_MISMATCH_ERROR
| FREEZEREF_EXISTS_MUTABLE_BORROW_ERROR
| BORROWFIELD_TYPE_MISMATCH_ERROR
| BORROWFIELD_BAD_FIELD_ERROR
| BORROWFIELD_EXISTS_MUTABLE_BORROW_ERROR
| COPYLOC_UNAVAILABLE_ERROR
| COPYLOC_WITHOUT_COPY_ABILITY
| COPYLOC_EXISTS_BORROW_ERROR
| MOVELOC_UNAVAILABLE_ERROR
| MOVELOC_EXISTS_BORROW_ERROR
| BORROWLOC_REFERENCE_ERROR
| BORROWLOC_UNAVAILABLE_ERROR
| BORROWLOC_EXISTS_BORROW_ERROR
| CALL_TYPE_MISMATCH_ERROR
| CALL_BORROWED_MUTABLE_REFERENCE_ERROR
| PACK_TYPE_MISMATCH_ERROR
| UNPACK_TYPE_MISMATCH_ERROR
| READREF_TYPE_MISMATCH_ERROR
| READREF_WITHOUT_COPY_ABILITY
| READREF_EXISTS_MUTABLE_BORROW_ERROR
| WRITEREF_TYPE_MISMATCH_ERROR
| WRITEREF_WITHOUT_DROP_ABILITY
| WRITEREF_EXISTS_BORROW_ERROR
| WRITEREF_NO_MUTABLE_REFERENCE_ERROR
| INTEGER_OP_TYPE_MISMATCH_ERROR
| BOOLEAN_OP_TYPE_MISMATCH_ERROR
| EQUALITY_OP_TYPE_MISMATCH_ERROR
| EXISTS_WITHOUT_KEY_ABILITY_OR_BAD_ARGUMENT
| BORROWGLOBAL_TYPE_MISMATCH_ERROR
| BORROWGLOBAL_WITHOUT_KEY_ABILITY
| MOVEFROM_TYPE_MISMATCH_ERROR
| MOVEFROM_WITHOUT_KEY_ABILITY
| MOVETO_TYPE_MISMATCH_ERROR
| MOVETO_WITHOUT_KEY_ABILITY
| MODULE_ADDRESS_DOES_NOT_MATCH_SENDER
| NO_MODULE_HANDLES
| POSITIVE_STACK_SIZE_AT_BLOCK_END
| MISSING_ACQUIRES_ANNOTATION
| EXTRANEOUS_ACQUIRES_ANNOTATION
| DUPLICATE_ACQUIRES_ANNOTATION
| INVALID_ACQUIRES_ANNOTATION
| GLOBAL_REFERENCE_ERROR
| CONSTRAINT_NOT_SATISFIED
| NUMBER_OF_TYPE_ARGUMENTS_MISMATCH
| LOOP_IN_INSTANTIATION_GRAPH
| ZERO_SIZED_STRUCT
| LINKER_ERROR
| INVALID_CONSTANT_TYPE
| MALFORMED_CONSTANT_DATA
| EMPTY_CODE_UNIT
| INVALID_LOOP_SPLIT
| INVALID_LOOP_BREAK
| INVALID_LOOP_CONTINUE
| UNSAFE_RET_UNUSED_VALUES_WITHOUT_DROP
| TOO_MANY_LOCALS
| GENERIC_MEMBER_OPCODE_MISMATCH
| FUNCTION_RESOLUTION_FAILURE
| INVALID_OPERATION_IN_SCRIPT
| DUPLICATE_MODULE_NAME
| BACKWARD_INCOMPATIBLE_MODULE_UPDATE
| CYCLIC_MODULE_DEPENDENCY
| NUMBER_OF_ARGUMENTS_MISMATCH
| INVALID_PARAM_TYPE_FOR_DESERIALIZATION
| FAILED_TO_DESERIALIZE_ARGUMENT
| NUMBER_OF_SIGNER_ARGUMENTS_MISMATCH
| CALLED_SCRIPT_VISIBLE_FROM_NON_SCRIPT_VISIBLE
| EXECUTE_SCRIPT_FUNCTION_CALLED_ON_NON_SCRIPT_VISIBLE
| INVALID_FRIEND_DECL_WITH_SELF
| INVALID_FRIEND_DECL_WITH_MODULES_OUTSIDE_ACCOUNT_ADDRESS
| INVALID_FRIEND_DECL_WITH_MODULES_IN_DEPENDENCIES
| CYCLIC_MODULE_FRIENDSHIP
| INVALID_PHANTOM_TYPE_PARAM_POSITION
| VEC_UPDATE_EXISTS_MUTABLE_BORROW_ERROR
| VEC_BORROW_ELEMENT_EXISTS_MUTABLE_BORROW_ERROR
| UNKNOWN_INVARIANT_VIOLATION_ERROR
| EMPTY_VALUE_STACK
| PC_OVERFLOW
| VERIFICATION_ERROR
| STORAGE_ERROR
| INTERNAL_TYPE_ERROR
| EVENT_KEY_MISMATCH
| UNREACHABLE
| VM_STARTUP_FAILURE
| UNEXPECTED_ERROR_FROM_KNOWN_MOVE_FUNCTION
| VERIFIER_INVARIANT_VIOLATION
| UNEXPECTED_VERIFIER_ERROR
| UNEXPECTED_DESERIALIZATION_ERROR
| FAILED_TO_SERIALIZE_WRITE_SET_CHANGES
| FAILED_TO_DESERIALIZE_RESOURCE
| TYPE_RESOLUTION_FAILURE
| DUPLICATE_NATIVE_FUNCTION
| UNKNOWN_BINARY_ERROR
| MALFORMED
| BAD_MAGIC
| UNKNOWN_VERSION
| UNKNOWN_TABLE_TYPE
| UNKNOWN_SIGNATURE_TYPE
| UNKNOWN_SERIALIZED_TYPE
| UNKNOWN_OPCODE
| BAD_HEADER_TABLE
| UNEXPECTED_SIGNATURE_TYPE
| DUPLICATE_TABLE
| UNKNOWN_ABILITY
| UNKNOWN_NATIVE_STRUCT_FLAG
| BAD_U64
| BAD_U128
| VALUE_SERIALIZATION_ERROR
| VALUE_DESERIALIZATION_ERROR
| CODE_DESERIALIZATION_ERROR
| INVALID_FLAG_BITS
| UNKNOWN_RUNTIME_STATUS
| EXECUTED
| OUT_OF_GAS
| RESOURCE_DOES_NOT_EXIST
| RESOURCE_ALREADY_EXISTS
| MISSING_DATA
| DATA_FORMAT_ERROR
| ABORTED
| ARITHMETIC_ERROR
| EXECUTION_STACK_OVERFLOW
| CALL_STACK_OVERFLOW
| VM_MAX_TYPE_DEPTH_REACHED
| VM_MAX_VALUE_DEPTH_REACHED
| UNKNOWN_STATUS.

(** [impl From<StatusCode> for u64] *)
Definition status_to_u64 (s : StatusCode) : N :=
  match s with
  | UNKNOWN_VALIDATION_STATUS => 0
  | INVALID_SIGNATURE => 1
  | INVALID_AUTH_KEY => 2
  | SEQUENCE_NUMBER_TOO_OLD => 3
  | SEQUENCE_NUMBER_TOO_NEW => 4
  | INSUFFICIENT_BALANCE_FOR_TRANSACTION_FEE => 5
  | TRANSACTION_EXPIRED => 6
  | SENDING_ACCOUNT_DOES_NOT_EXIST => 7
  | REJECTED_WRITE_SET => 8
  | INVALID_WRITE_SET => 9
  | EXCEEDED_MAX_TRANSACTION_SIZE => 10
  | UNKNOWN_SCRIPT => 11
  | UNKNOWN_MODULE => 12
  | MAX_GAS_UNITS_EXCEEDS_MAX_GAS_UNITS_BOUND => 13
  | MAX_GAS_UNITS_BELOW_MIN_TRANSACTION_GAS_UNITS => 14
  | GAS_UNIT_PRICE_BELOW_MIN_BOUND => 15
  | GAS_UNIT_PRICE_ABOVE_MAX_BOUND => 16
  | INVALID_GAS_SPECIFIER => 17
  | SENDING_ACCOUNT_FROZEN => 18
  | UNABLE_TO_DESERIALIZE_ACCOUNT => 19
  | CURRENCY_INFO_DOES_NOT_EXIST => 20
  | INVALID_MODULE_PUBLISHER => 21
  | NO_ACCOUNT_ROLE => 22
  | BAD_CHAIN_ID => 23
  | SEQUENCE_NUMBER_TOO_BIG => 24
  | BAD_TRANSACTION_FEE_CURRENCY => 25
  | FEATURE_UNDER_GATING => 26
  | SECONDARY_KEYS_ADDRESSES_COUNT_MISMATCH => 27
  | SIGNERS_CONTAIN_DUPLICATES => 28
  | SEQUENCE_NONCE_INVALID => 29
  | UNKNOWN_VERIFICATION_ERROR => 1000
  | INDEX_OUT_OF_BOUNDS => 1001
  | INVALID_SIGNATURE_TOKEN => 1003
  | RECURSIVE_STRUCT_DEFINITION => 1005
  | FIELD_MISSING_TYPE_ABILITY => 1006
  | INVALID_FALL_THROUGH => 1007
  | NEGATIVE_STACK_SIZE_WITHIN_BLOCK => 1009
  | INVALID_MAIN_FUNCTION_SIGNATURE => 1011
  | DUPLICATE_ELEMENT => 1012
  | INVALID_MODULE_HANDLE => 1013
  | UNIMPLEMENTED_HANDLE => 1014
  | LOOKUP_FAILED => 1017
  | TYPE_MISMATCH => 1020
  | MISSING_DEPENDENCY => 1021
  | POP_WITHOUT_DROP_ABILITY => 1023
  | BR_TYPE_MISMATCH_ERROR => 1025
  | ABORT_TYPE_MISMATCH_ERROR => 1026
  | STLOC_TYPE_MISMATCH_ERROR => 1027
  | STLOC_UNSAFE_TO_DESTROY_ERROR => 1028
  | UNSAFE_RET_LOCAL_OR_RESOURCE_STILL_BORROWED => 1029
  | RET_TYPE_MISMATCH_ERROR => 1030
  | RET_BORROWED_MUTABLE_REFERENCE_ERROR => 1031
  | FREEZEREF_TYPE_MISMATCH_ERROR => 1032
  | FREEZEREF_EXISTS_MUTABLE_BORROW_ERROR => 1033
  | BORROWFIELD_TYPE_MISMATCH_ERROR => 1034
  | BORROWFIELD_BAD_FIELD_ERROR => 1035
  | BORROWFIELD_EXISTS_MUTABLE_BORROW_ERROR => 1036
  | COPYLOC_UNAVAILABLE_ERROR => 1037
  | COPYLOC_WITHOUT_COPY_ABILITY => 1038
  | COPYLOC_EXISTS_BORROW_ERROR => 1039
  | MOVELOC_UNAVAILABLE_ERROR => 1040
  | MOVELOC_EXISTS_BORROW_ERROR => 1041
  | BORROWLOC_REFERENCE_ERROR => 1042
  | BORROWLOC_UNAVAILABLE_ERROR => 1043
  | BORROWLOC_EXISTS_BORROW_ERROR => 1044
  | CALL_TYPE_MISMATCH_ERROR => 1045
  | CALL_BORROWED_MUTABLE_REFERENCE_ERROR => 1046
  | PACK_TYPE_MISMATCH_ERROR => 1047
  | UNPACK_TYPE_MISMATCH_ERROR => 1048
  | READREF_TYPE_MISMATCH_ERROR => 1049
  | READREF_WITHOUT_COPY_ABILITY => 1050
  | READREF_EXISTS_MUTABLE_BORROW_ERROR => 1051
  | WRITEREF_TYPE_MISMATCH_ERROR => 1052
  | WRITEREF_WITHOUT_DROP_ABILITY => 1053
  | WRITEREF_EXISTS_BORROW_ERROR => 1054
  | WRITEREF_NO_MUTABLE_REFERENCE_ERROR => 1055
  | INTEGER_OP_TYPE_MISMATCH_ERROR => 1056
  | BOOLEAN_OP_TYPE_MISMATCH_ERROR => 1057
  | EQUALITY_OP_TYPE_MISMATCH_ERROR => 1058
  | EXISTS_WITHOUT_KEY_ABILITY_OR_BAD_ARGUMENT => 1059
  | BORROWGLOBAL_TYPE_MISMATCH_ERROR => 1060
  | BORROWGLOBAL_WITHOUT_KEY_ABILITY => 1061
  | MOVEFROM_TYPE_MISMATCH_ERROR => 1062
  | MOVEFROM_WITHOUT_KEY_ABILITY => 1063
  | MOVETO_TYPE_MISMATCH_ERROR => 1064
  | MOVETO_WITHOUT_KEY_ABILITY => 1065
  | MODULE_ADDRESS_DOES_NOT_MATCH_SENDER => 1067
  | NO_MODULE_HANDLES => 1068
  | POSITIVE_STACK_SIZE_AT_BLOCK_END => 1069
  | MISSING_ACQUIRES_ANNOTATION => 1070
  | EXTRANEOUS_ACQUIRES_ANNOTATION => 1071
  | DUPLICATE_ACQUIRES_ANNOTATION => 1072
  | INVALID_ACQUIRES_ANNOTATION => 1073
  | GLOBAL_REFERENCE_ERROR => 1074
  | CONSTRAINT_NOT_SATISFIED => 1075
  | NUMBER_OF_TYPE_ARGUMENTS_MISMATCH => 1076
  | LOOP_IN_INSTANTIATION_GRAPH => 1077
  | ZERO_SIZED_STRUCT => 1080
  | LINKER_ERROR => 1081
  | INVALID_CONSTANT_TYPE => 1082
  | MALFORMED_CONSTANT_DATA => 1083
  | EMPTY_CODE_UNIT => 1084
  | INVALID_LOOP_SPLIT => 1085
  | INVALID_LOOP_BREAK => 1086
  | INVALID_LOOP_CONTINUE => 1087
  | UNSAFE_RET_UNUSED_VALUES_WITHOUT_DROP => 1088
  | TOO_MANY_LOCALS => 1089
  | GENERIC_MEMBER_OPCODE_MISMATCH => 1090
  | FUNCTION_RESOLUTION_FAILURE => 1091
  | INVALID_OPERATION_IN_SCRIPT => 1094
  | DUPLICATE_MODULE_NAME => 1095
  | BACKWARD_INCOMPATIBLE_MODULE_UPDATE => 1096
  | CYCLIC_MODULE_DEPENDENCY => 1097
  | NUMBER_OF_ARGUMENTS_MISMATCH => 1098
  | INVALID_PARAM_TYPE_FOR_DESERIALIZATION => 1099
  | FAILED_TO_DESERIALIZE_ARGUMENT => 1100
  | NUMBER_OF_SIGNER_ARGUMENTS_MISMATCH => 1101
  | CALLED_SCRIPT_VISIBLE_FROM_NON_SCRIPT_VISIBLE => 1102
  | EXECUTE_SCRIPT_FUNCTION_CALLED_ON_NON_SCRIPT_VISIBLE => 1103
  | INVALID_FRIEND_DECL_WITH_SELF => 1104
  | INVALID_FRIEND_DECL_WITH_MODULES_OUTSIDE_ACCOUNT_ADDRESS => 1105
  | INVALID_FRIEND_DECL_WITH_MODULES_IN_DEPENDENCIES => 1106
  | CYCLIC_MODULE_FRIENDSHIP => 1107
  | INVALID_PHANTOM_TYPE_PARAM_POSITION => 1108
  | VEC_UPDATE_EXISTS_MUTABLE_BORROW_ERROR => 1109
  | VEC_BORROW_ELEMENT_EXISTS_MUTABLE_BORROW_ERROR => 1110
  | UNKNOWN_INVARIANT_VIOLATION_ERROR => 2000
  | EMPTY_VALUE_STACK => 2003
  | PC_OVERFLOW => 2005
  | VERIFICATION_ERROR => 2006
  | STORAGE_ERROR => 2008
  | INTERNAL_TYPE_ERROR => 2009
  | EVENT_KEY_MISMATCH => 2010
  | UNREACHABLE => 2011
  | VM_STARTUP_FAILURE => 2012
  | UNEXPECTED_ERROR_FROM_KNOWN_MOVE_FUNCTION => 2015
  | VERIFIER_INVARIANT_VIOLATION => 2016
  | UNEXPECTED_VERIFIER_ERROR => 2017
  | UNEXPECTED_DESERIALIZATION_ERROR => 2018
  | FAILED_TO_SERIALIZE_WRITE_SET_CHANGES => 2019
  | FAILED_TO_DESERIALIZE_RESOURCE => 2020
  | TYPE_RESOLUTION_FAILURE => 2021
  | DUPLICATE_NATIVE_FUNCTION => 2022
  | UNKNOWN_BINARY_ERROR => 3000
  | MALFORMED => 3001
  | BAD_MAGIC => 3002
  | UNKNOWN_VERSION => 3003
  | UNKNOWN_TABLE_TYPE => 3004
  | UNKNOWN_SIGNATURE_TYPE => 3005
  | UNKNOWN_SERIALIZED_TYPE => 3006
  | UNKNOWN_OPCODE => 3007
  | BAD_HEADER_TABLE => 3008
  | UNEXPECTED_SIGNATURE_TYPE => 3009
  | DUPLICATE_TABLE => 3010
  | UNKNOWN_ABILITY => 3013
  | UNKNOWN_NATIVE_STRUCT_FLAG => 3014
  | BAD_U64 => 3019
  | BAD_U128 => 3020
  | VALUE_SERIALIZATION_ERROR => 3022
  | VALUE_DESERIALIZATION_ERROR => 3023
  | CODE_DESERIALIZATION_ERROR => 3024
  | INVALID_FLAG_BITS => 3025
  | UNKNOWN_RUNTIME_STATUS => 4000
  | EXECUTED => 4001
  | OUT_OF_GAS => 4002
  | RESOURCE_DOES_NOT_EXIST => 4003
  | RESOURCE_ALREADY_EXISTS => 4004
  | MISSING_DATA => 4008
  | DATA_FORMAT_ERROR => 4009
  | ABORTED => 4016
  | ARITHMETIC_ERROR => 4017
  | EXECUTION_STACK_OVERFLOW => 4020
  | CALL_STACK_OVERFLOW => 4021
  | VM_MAX_TYPE_DEPTH_REACHED => 4024
  | VM_MAX_VALUE_DEPTH_REACHED => 4025
  | UNKNOWN_STATUS => 18446744073709551615
  end.

(** [impl TryFrom<u64> for StatusCode] *)
Definition status_try_from (value : N) : option StatusCode :=
  match value with
  | 0 => Some UNKNOWN_VALIDATION_STATUS
  | 1 => Some INVALID_SIGNATURE
  | 2 => Some INVALID_AUTH_KEY
  | 3 => Some SEQUENCE_NUMBER_TOO_OLD
  | 4 => Some SEQUENCE_NUMBER_TOO_NEW
  | 5 => Some INSUFFICIENT_BALANCE_FOR_TRANSACTION_FEE
  | 6 => Some TRANSACTION_EXPIRED
  | 7 => Some SENDING_ACCOUNT_DOES_NOT_EXIST
  | 8 => Some REJECTED_WRITE_SET
  | 9 => Some INVALID_WRITE_SET
  | 10 => Some EXCEEDED_MAX_TRANSACTION_SIZE
  | 11 => Some UNKNOWN_SCRIPT
  | 12 => Some UNKNOWN_MODULE
  | 13 => Some MAX_GAS_UNITS_EXCEEDS_MAX_GAS_UNITS_BOUND
  | 14 => Some MAX_GAS_UNITS_BELOW_MIN_TRANSACTION_GAS_UNITS
  | 15 => Some GAS_UNIT_PRICE_BELOW_MIN_BOUND
  | 16 => Some GAS_UNIT_PRICE_ABOVE_MAX_BOUND
  | 17 => Some INVALID_GAS_SPECIFIER
  | 18 => Some SENDING_ACCOUNT_FROZEN
  | 19 => Some UNABLE_TO_DESERIALIZE_ACCOUNT
  | 20 => Some CURRENCY_INFO_DOES_NOT_EXIST
  | 21 => Some INVALID_MODULE_PUBLISHER
  | 22 => Some NO_ACCOUNT_ROLE
  | 23 => Some BAD_CHAIN_ID
  | 24 => Some SEQUENCE_NUMBER_TOO_BIG
  | 25 => Some BAD_TRANSACTION_FEE_CURRENCY
  | 26 => Some FEATURE_UNDER_GATING
  | 27 => Some SECONDARY_KEYS_ADDRESSES_COUNT_MISMATCH
  | 28 => Some SIGNERS_CONTAIN_DUPLICATES
  | 29 => Some SEQUENCE_NONCE_INVALID
  | 1000 => Some UNKNOWN_VERIFICATION_ERROR
  | 1001 => Some INDEX_OUT_OF_BOUNDS
  | 1003 => Some INVALID_SIGNATURE_TOKEN
  | 1005 => Some RECURSIVE_STRUCT_DEFINITION
  | 1006 => Some FIELD_MISSING_TYPE_ABILITY
  | 1007 => Some INVALID_FALL_THROUGH
  | 1009 => Some NEGATIVE_STACK_SIZE_WITHIN_BLOCK
  | 1011 => Some INVALID_MAIN_FUNCTION_SIGNATURE
  | 1012 => Some DUPLICATE_ELEMENT
  | 1013 => Some INVALID_MODULE_HANDLE
  | 1014 => Some UNIMPLEMENTED_HANDLE
  | 1017 => Some LOOKUP_FAILED
  | 1020 => Some TYPE_MISMATCH
  | 1021 => Some MISSING_DEPENDENCY
  | 1023 => Some POP_WITHOUT_DROP_ABILITY
  | 1025 => Some BR_TYPE_MISMATCH_ERROR
  | 1026 => Some ABORT_TYPE_MISMATCH_ERROR
  | 1027 => Some STLOC_TYPE_MISMATCH_ERROR
  | 1028 => Some STLOC_UNSAFE_TO_DESTROY_ERROR
  | 1029 => Some UNSAFE_RET_LOCAL_OR_RESOURCE_STILL_BORROWED
  | 1030 => Some RET_TYPE_MISMATCH_ERROR
  | 1031 => Some RET_BORROWED_MUTABLE_REFERENCE_ERROR
  | 1032 => Some FREEZEREF_TYPE_MISMATCH_ERROR
  | 1033 => Some FREEZEREF_EXISTS_MUTABLE_BORROW_ERROR
  | 1034 => Some BORROWFIELD_TYPE_MISMATCH_ERROR
  | 1035 => Some BORROWFIELD_BAD_FIELD_ERROR
  | 1036 => Some BORROWFIELD_EXISTS_MUTABLE_BORROW_ERROR
  | 1037 => Some COPYLOC_UNAVAILABLE_ERROR
  | 1038 => Some COPYLOC_WITHOUT_COPY_ABILITY
  | 1039 => Some COPYLOC_EXISTS_BORROW_ERROR
  | 1040 => Some MOVELOC_UNAVAILABLE_ERROR
  | 1041 => Some MOVELOC_EXISTS_BORROW_ERROR
  | 1042 => Some BORROWLOC_REFERENCE_ERROR
  | 1043 => Some BORROWLOC_UNAVAILABLE_ERROR
  | 1044 => Some BORROWLOC_EXISTS_BORROW_ERROR
  | 1045 => Some CALL_TYPE_MISMATCH_ERROR
  | 1046 => Some CALL_BORROWED_MUTABLE_REFERENCE_ERROR
  | 1047 => Some PACK_TYPE_MISMATCH_ERROR
  | 1048 => Some UNPACK_TYPE_MISMATCH_ERROR
  | 1049 => Some READREF_TYPE_MISMATCH_ERROR
  | 1050 => Some READREF_WITHOUT_COPY_ABILITY
  | 1051 => Some READREF_EXISTS_MUTABLE_BORROW_ERROR
  | 1052 => Some WRITEREF_TYPE_MISMATCH_ERROR
  | 1053 => Some WRITEREF_WITHOUT_DROP_ABILITY
  | 1054 => Some WRITEREF_EXISTS_BORROW_ERROR
  | 1055 => Some WRITEREF_NO_MUTABLE_REFERENCE_ERROR
  | 1056 => Some INTEGER_OP_TYPE_MISMATCH_ERROR
  | 1057 => Some BOOLEAN_OP_TYPE_MISMATCH_ERROR
  | 1058 => Some EQUALITY_OP_TYPE_MISMATCH_ERROR
  | 1059 => Some EXISTS_WITHOUT_KEY_ABILITY_OR_BAD_ARGUMENT
  | 1060 => Some BORROWGLOBAL_TYPE_MISMATCH_ERROR
  | 1061 => Some BORROWGLOBAL_WITHOUT_KEY_ABILITY
  | 1062 => Some MOVEFROM_TYPE_MISMATCH_ERROR
  | 1063 => Some MOVEFROM_WITHOUT_KEY_ABILITY
  | 1064 => Some MOVETO_TYPE_MISMATCH_ERROR
  | 1065 => Some MOVETO_WITHOUT_KEY_ABILITY
  | 1067 => Some MODULE_ADDRESS_DOES_NOT_MATCH_SENDER
  | 1068 => Some NO_MODULE_HANDLES
  | 1069 => Some POSITIVE_STACK_SIZE_AT_BLOCK_END
  | 1070 => Some MISSING_ACQUIRES_ANNOTATION
  | 1071 => Some EXTRANEOUS_ACQUIRES_ANNOTATION
  | 1072 => Some DUPLICATE_ACQUIRES_ANNOTATION
  | 1073 => Some INVALID_ACQUIRES_ANNOTATION
  | 1074 => Some GLOBAL_REFERENCE_ERROR
  | 1075 => Some CONSTRAINT_NOT_SATISFIED
  | 1076 => Some NUMBER_OF_TYPE_ARGUMENTS_MISMATCH
  | 1077 => Some LOOP_IN_INSTANTIATION_GRAPH
  | 1080 => Some ZERO_SIZED_STRUCT
  | 1081 => Some LINKER_ERROR
  | 1082 => Some INVALID_CONSTANT_TYPE
  | 1083 => Some MALFORMED_CONSTANT_DATA
  | 1084 => Some EMPTY_CODE_UNIT
  | 1085 => Some INVALID_LOOP_SPLIT
  | 1086 => Some INVALID_LOOP_BREAK
  | 1087 => Some INVALID_LOOP_CONTINUE
  | 1088 => Some UNSAFE_RET_UNUSED_VALUES_WITHOUT_DROP
  | 1089 => Some TOO_MANY_LOCALS
  | 1090 => Some GENERIC_MEMBER_OPCODE_MISMATCH
  | 1091 => Some FUNCTION_RESOLUTION_FAILURE
  | 1094 => Some INVALID_OPERATION_IN_SCRIPT
  | 1095 => Some DUPLICATE_MODULE_NAME
  | 1096 => Some BACKWARD_INCOMPATIBLE_MODULE_UPDATE
  | 1097 => Some CYCLIC_MODULE_DEPENDENCY
  | 1098 => Some NUMBER_OF_ARGUMENTS_MISMATCH
  | 1099 => Some INVALID_PARAM_TYPE_FOR_DESERIALIZATION
  | 1100 => Some FAILED_TO_DESERIALIZE_ARGUMENT
  | 1101 => Some NUMBER_OF_SIGNER_ARGUMENTS_MISMATCH
  | 1102 => Some CALLED_SCRIPT_VISIBLE_FROM_NON_SCRIPT_VISIBLE
  | 1103 => Some EXECUTE_SCRIPT_FUNCTION_CALLED_ON_NON_SCRIPT_VISIBLE
  | 1104 => Some INVALID_FRIEND_DECL_WITH_SELF
  | 1105 => Some INVALID_FRIEND_DECL_WITH_MODULES_OUTSIDE_ACCOUNT_ADDRESS
  | 1106 => Some INVALID_FRIEND_DECL_WITH_MODULES_IN_DEPENDENCIES
  | 1107 => Some CYCLIC_MODULE_FRIENDSHIP
  | 1108 => Some INVALID_PHANTOM_TYPE_PARAM_POSITION
  | 1109 => Some VEC_UPDATE_EXISTS_MUTABLE_BORROW_ERROR
  | 1110 => Some VEC_BORROW_ELEMENT_EXISTS_MUTABLE_BORROW_ERROR
  | 2000 => Some UNKNOWN_INVARIANT_VIOLATION_ERROR
  | 2003 => Some EMPTY_VALUE_STACK
  | 2005 => Some PC_OVERFLOW
  | 2006 => Some VERIFICATION_ERROR
  | 2008 => Some STORAGE_ERROR
  | 2009 => Some INTERNAL_TYPE_ERROR
  | 2010 => Some EVENT_KEY_MISMATCH
  | 2011 => Some UNREACHABLE
  | 2012 => Some VM_STARTUP_FAILURE
  | 2015 => Some UNEXPECTED_ERROR_FROM_KNOWN_MOVE_FUNCTION
  | 2016 => Some VERIFIER_INVARIANT_VIOLATION
  | 2017 => Some UNEXPECTED_VERIFIER_ERROR
  | 2018 => Some UNEXPECTED_DESERIALIZATION_ERROR
  | 2019 => Some FAILED_TO_SERIALIZE_WRITE_SET_CHANGES
  | 2020 => Some FAILED_TO_DESERIALIZE_RESOURCE
  | 2021 => Some TYPE_RESOLUTION_FAILURE
  | 2022 => Some DUPLICATE_NATIVE_FUNCTION
  | 3000 => Some UNKNOWN_BINARY_ERROR
  | 3001 => Some MALFORMED
  | 3002 => Some BAD_MAGIC
  | 3003 => Some UNKNOWN_VERSION
  | 3004 => Some UNKNOWN_TABLE_TYPE
  | 3005 => Some UNKNOWN_SIGNATURE_TYPE
  | 3006 => Some UNKNOWN_SERIALIZED_TYPE
  | 3007 => Some UNKNOWN_OPCODE
  | 3008 => Some BAD_HEADER_TABLE
  | 3009 => Some UNEXPECTED_SIGNATURE_TYPE
  | 3010 => Some DUPLICATE_TABLE
  | 3013 => Some UNKNOWN_ABILITY
  | 3014 => Some UNKNOWN_NATIVE_STRUCT_FLAG
  | 3019 => Some BAD_U64
  | 3020 => Some BAD_U128
  | 3022 => Some VALUE_SERIALIZATION_ERROR
  | 3023 => Some VALUE_DESERIALIZATION_ERROR
  | 3024 => Some CODE_DESERIALIZATION_ERROR
  | 3025 => Some INVALID_FLAG_BITS
  | 4000 => Some UNKNOWN_RUNTIME_STATUS
  | 4001 => Some EXECUTED
  | 4002 => Some OUT_OF_GAS
  | 4003 => Some RESOURCE_DOES_NOT_EXIST
  | 4004 => Some RESOURCE_ALREADY_EXISTS
  | 4008 => Some MISSING_DATA
  | 4009 => Some DATA_FORMAT_ERROR
  | 4016 => Some ABORTED
  | 4017 => Some ARITHMETIC_ERROR
  | 4020 => Some EXECUTION_STACK_OVERFLOW
  | 4021 => Some CALL_STACK_OVERFLOW
  | 4024 => Some VM_MAX_TYPE_DEPTH_REACHED
  | 4025 => Some VM_MAX_VALUE_DEPTH_REACHED
  | 18446744073709551615 => Some UNKNOWN_STATUS
  | _ => None
  end.
Lemma status_try_from_to (s : StatusCode) : status_try_from (status_to_u64 s) = Some s.
Proof. by destruct s. Qed.

#[export] Instance status_to_u64_inj : Inj (=) (=) status_to_u64.
Proof.
  intros x y H. apply (inj Some).
  by rewrite <- (status_try_from_to x), <- (status_try_from_to y), H.
Qed.
#[export] Instance StatusCode_eq_dec : EqDecision StatusCode :=
  λ x y, match decide (status_to_u64 x = status_to_u64 y) with
         | left H => left (inj status_to_u64 _ _ H)
         | right H => right (λ E, H (f_equal status_to_u64 E))
         end.

(** ** Classification *)

Definition VALIDATION_STATUS_MIN_CODE : N := 0.
Definition VALIDATION_STATUS_MAX_CODE : N := 999.
Definition VERIFICATION_STATUS_MIN_CODE : N := 1000.
Definition VERIFICATION_STATUS_MAX_CODE : N := 1999.
Definition INVARIANT_VIOLATION_STATUS_MIN_CODE : N := 2000.
Definition INVARIANT_VIOLATION_STATUS_MAX_CODE : N := 2999.
Definition DESERIALIZATION_STATUS_MIN_CODE : N := 3000.
Definition DESERIALIZATION_STATUS_MAX_CODE : N := 3999.
Definition EXECUTION_STATUS_MIN_CODE : N := 4000.
Definition EXECUTION_STATUS_MAX_CODE : N := 4999.

(** [pub enum StatusType] *)
Inductive StatusType : Set :=
| Validation | Verification | InvariantViolation | Deserialization | Execution | Unknown.

#[export] Instance StatusType_eq_dec : EqDecision StatusType.
Proof. solve_decision. Defined.

(** [StatusCode::status_type] *)
Definition status_type (self : StatusCode) : StatusType :=
  let n := status_to_u64 self in
  if (VALIDATION_STATUS_MIN_CODE <=? n) && (n <=? VALIDATION_STATUS_MAX_CODE)
  then Validation
  else if (VERIFICATION_STATUS_MIN_CODE <=? n) && (n <=? VERIFICATION_STATUS_MAX_CODE)
  then Verification
  else if (INVARIANT_VIOLATION_STATUS_MIN_CODE <=? n)
          && (n <=? INVARIANT_VIOLATION_STATUS_MAX_CODE)
  then InvariantViolation
  else if (DESERIALIZATION_STATUS_MIN_CODE <=? n) && (n <=? DESERIALIZATION_STATUS_MAX_CODE)
  then Deserialization
  else if (EXECUTION_STATUS_MIN_CODE <=? n) && (n <=? EXECUTION_STATUS_MAX_CODE)
  then Execution
  else Unknown.

(** ** Transaction outcomes *)

(** [pub enum AbortLocation] *)
Inductive AbortLocation : Set :=
| AbortModule (id : ModuleId)
| AbortScript.

(** [pub enum VMStatus] *)
Inductive VMStatus : Set :=
| VMExecuted
| VMError (code : StatusCode)
| VMMoveAbort (location : AbortLocation) (code : N)
| VMExecutionFailure (status_code : StatusCode) (location : AbortLocation)
    (function code_offset : N).

(** [pub enum KeptVMStatus] *)
Inductive KeptVMStatus : Set :=
| KeptExecuted
| KeptOutOfGas
| KeptMoveAbort (location : AbortLocation) (code : N)
| KeptExecutionFailure (location : AbortLocation) (function code_offset : N)
| KeptMiscellaneousError.

(** [VMStatus::status_code]; the three [debug_assert!]s of the [Error] case
    are checks of the debug build only and are not part of the model. *)
Definition status_code (self : VMStatus) : StatusCode :=
  match self with
  | VMExecuted => EXECUTED
  | VMMoveAbort _ _ => ABORTED
  | VMExecutionFailure status_code _ _ _ => status_code
  | VMError code => code
  end.

(** [VMStatus::move_abort_code] *)
Definition move_abort_code (self : VMStatus) : option N :=
  match self with
  | VMMoveAbort _ code => Some code
  | VMError _ | VMExecutionFailure _ _ _ _ | VMExecuted => None
  end.

(** [VMStatus::keep_or_discard]: [Ok] is kept, [Err] is discarded. *)
Definition keep_or_discard (self : VMStatus) : result StatusCode KeptVMStatus :=
  match self with
  | VMExecuted => Ok KeptExecuted
  | VMMoveAbort location code => Ok (KeptMoveAbort location code)
  | VMExecutionFailure OUT_OF_GAS _ _ _ | VMError OUT_OF_GAS => Ok KeptOutOfGas
  | VMExecutionFailure _ location function code_offset =>
      Ok (KeptExecutionFailure location function code_offset)
  | VMError code =>
      match status_type code with
      | Unknown => Err code
      | Validation => Err code
      | InvariantViolation => Err code
      | Verification => Ok KeptMiscellaneousError
      | Deserialization => Ok KeptMiscellaneousError
      | Execution => Ok (KeptExecutionFailure AbortScript 0 0)
      end
  end.

(** [KeptVMStatus::is_success] *)
Definition is_success (self : KeptVMStatus) : bool :=
  match self with KeptExecuted => true | _ => false end.

(** ** Properties *)

Definition discarded (t : StatusType) : Prop :=
  t = Unknown ∨ t = Validation ∨ t = InvariantViolation.

Lemma keep_or_discard_Error c :
  keep_or_discard (VMError c) =
  if decide (c = OUT_OF_GAS) then Ok KeptOutOfGas
  else match status_type c with
       | Unknown | Validation | InvariantViolation => Err c
       | Verification | Deserialization => Ok KeptMiscellaneousError
       | Execution => Ok (KeptExecutionFailure AbortScript 0 0)
       end.
Proof. by destruct c. Qed.

Lemma keep_or_discard_Failure c l f o :
  keep_or_discard (VMExecutionFailure c l f o) =
  if decide (c = OUT_OF_GAS) then Ok KeptOutOfGas
  else Ok (KeptExecutionFailure l f o).
Proof. by destruct c. Qed.

(** keep_or_discard keeps a status exactly as its code classifies it: executed and
    verification-kept statuses are kept, validation and invariant-violation statuses are
    discarded with their code. *)
Theorem keep_or_discard_classified (s : VMStatus) :
  (∀ k, keep_or_discard s = Ok k → (is_success k = true ↔ s = VMExecuted)) ∧
  (∀ c, keep_or_discard s = Err c ↔ s = VMError c ∧ discarded (status_type c)) ∧
  no_panic (keep_or_discard s).
Proof.
  assert (status_type OUT_OF_GAS = Execution) as Hgas by done.
  destruct s as [|c|l n|c l f o]; (split_and!; [intros k Hk|intros c'; split| ]);
    try rewrite keep_or_discard_Error in *; try rewrite keep_or_discard_Failure in *;
    try (case_decide as Hg; simplify_eq); try (destruct (status_type c) eqn:Ht);
    unfold discarded; naive_solver congruence.
Qed.
