(* ===== verification/Abilities.v ===== *)
(** * Abilities: what a type permits

    Models [Ability], [AbilitySet] and its iterator from
    [language/move-binary-format/src/file_format.rs].  An [AbilitySet] is its
    [u8] bit set, the operations are the bit operations of the source, and the
    theorems relate them to the set of abilities they stand for. *)

From S2P Require Import Prelude CoreTypes VmStatus.

(** ** Data and operations *)

(** [#[repr(u8)] pub enum Ability] *)
Inductive Ability : Set := Copy | Drop | Store | Key.

#[export] Instance Ability_eq_dec : EqDecision Ability.
Proof. solve_decision. Defined.

(** [ability as u8] *)
Definition ability_bit (a : Ability) : u8 :=
  match a with Copy => 1 | Drop => 2 | Store => 4 | Key => 8 end.

(** [Ability::from_u8] *)
Definition ability_from_u8 (u : u8) : option Ability :=
  match u with
  | 1 => Some Copy
  | 2 => Some Drop
  | 4 => Some Store
  | 8 => Some Key
  | _ => None
  end.

(** [pub struct AbilitySet(u8)] *)
Definition AbilitySet : Set := u8.

Definition EMPTY : AbilitySet := 0.
Definition PRIMITIVES : AbilitySet :=
  N.lor (N.lor (ability_bit Copy) (ability_bit Drop)) (ability_bit Store).
Definition REFERENCES : AbilitySet := N.lor (ability_bit Copy) (ability_bit Drop).
Definition SIGNER : AbilitySet := ability_bit Drop.
Definition VECTOR : AbilitySet :=
  N.lor (N.lor (ability_bit Copy) (ability_bit Drop)) (ability_bit Store).
Definition ALL : AbilitySet :=
  N.lor (N.lor (N.lor (ability_bit Copy) (ability_bit Drop)) (ability_bit Store))
        (ability_bit Key).

(** [impl BitOr<Ability> for AbilitySet] *)
Definition bitor (self : AbilitySet) (rhs : Ability) : AbilitySet :=
  N.lor self (ability_bit rhs).

(** [Ability::requires] *)
Definition requires (self : Ability) : Ability :=
  match self with Copy => Copy | Drop => Drop | Store => Store | Key => Store end.

(** [Ability::required_by] *)
Definition required_by (self : Ability) : AbilitySet :=
  match self with
  | Copy => bitor EMPTY Copy
  | Drop => bitor EMPTY Drop
  | Store => bitor (bitor EMPTY Store) Key
  | Key => EMPTY
  end.

Definition has_ability (self : AbilitySet) (ability : Ability) : bool :=
  let a := ability_bit ability in N.land a self =? a.
Definition has_copy (self : AbilitySet) : bool := has_ability self Copy.
Definition has_drop (self : AbilitySet) : bool := has_ability self Drop.
Definition has_store (self : AbilitySet) : bool := has_ability self Store.
Definition has_key (self : AbilitySet) : bool := has_ability self Key.

(** [!x] on a [u8] *)
Definition u8_not (x : u8) : u8 := N.lxor x u8_MAX.

Definition remove (self : AbilitySet) (ability : Ability) : AbilitySet :=
  N.land self (u8_not (ability_bit ability)).
Definition intersect (self other : AbilitySet) : AbilitySet := N.land self other.
Definition ability_union (self other : AbilitySet) : AbilitySet := N.lor self other.
Definition is_subset_bits (sub sup : u8) : bool := N.land sub sup =? sub.
Definition is_subset (self other : AbilitySet) : bool := is_subset_bits self other.

(** [AbilitySet::from_u8] and [into_u8] *)
Definition ability_set_from_u8 (byte : u8) : option AbilitySet :=
  if is_subset_bits byte ALL then Some byte else None.
Definition into_u8 (self : AbilitySet) : u8 := self.

(** [AbilitySetIterator { set, idx }] *)
Record AbilitySetIterator : Set := { it_set : AbilitySet; it_idx : u8 }.

(** [AbilitySetIterator::next]: [idx] doubles, so four rounds of the loop
    bring it past [0x8]; the fuel bounds the rounds of one call. *)
Fixpoint iter_next (fuel : nat) (self : AbilitySetIterator)
  : option Ability * AbilitySetIterator :=
  match fuel with
  | O => (None, self)
  | S fuel =>
      if it_idx self <=? 8 then
        let next := ability_from_u8 (N.land (it_set self) (it_idx self)) in
        let self := {| it_set := it_set self; it_idx := N.shiftl (it_idx self) 1 |} in
        match next with
        | Some a => (Some a, self)
        | None => iter_next fuel self
        end
      else (None, self)
  end.

(** [into_iter], drained: the abilities in the order the iterator yields them. *)
Fixpoint drain (fuel : nat) (self : AbilitySetIterator) : list Ability :=
  match fuel with
  | O => []
  | S fuel =>
      match iter_next 5 self with
      | (Some a, self) => a :: drain fuel self
      | (None, _) => []
      end
  end.
Definition into_iter (self : AbilitySet) : list Ability :=
  drain 5 {| it_set := self; it_idx := 1 |}.

(** [AbilitySet::polymorphic_abilities] *)
Definition polymorphic_abilities (declared_abilities : AbilitySet)
    (declared_phantom_parameters : list bool) (type_arguments : list AbilitySet)
  : result StatusCode AbilitySet :=
  if negb (len declared_phantom_parameters =? len type_arguments)
  then Err VERIFIER_INVARIANT_VIOLATION
  else
    Ok (foldl intersect declared_abilities
          ((λ p, foldl ability_union EMPTY (required_by <$> into_iter p.1)) <$>
           filter (λ p, p.2 = false)
             (zip type_arguments declared_phantom_parameters))).

(** ** The sets the bits stand for *)

(** The type invariant: only the four ability bits are set. *)
Definition AbilitySet_ok (s : AbilitySet) : Prop := s <= 15.

Lemma AbilitySet_ok_ind (P : AbilitySet → Prop) :
  P 0 → P 1 → P 2 → P 3 → P 4 → P 5 → P 6 → P 7 →
  P 8 → P 9 → P 10 → P 11 → P 12 → P 13 → P 14 → P 15 →
  ∀ s, AbilitySet_ok s → P s.
Proof.
  unfold AbilitySet_ok. intros * H0 H1 H2 H3 H4 H5 H6 H7 H8 H9 H10 H11 H12 H13 H14 H15 s Hs.
  assert (s = 0 ∨ s = 1 ∨ s = 2 ∨ s = 3 ∨ s = 4 ∨ s = 5 ∨ s = 6 ∨ s = 7 ∨
          s = 8 ∨ s = 9 ∨ s = 10 ∨ s = 11 ∨ s = 12 ∨ s = 13 ∨ s = 14 ∨ s = 15)
    as Hc by lia.
  naive_solver.
Qed.

Lemma has_ability_bit s a : has_ability s a = N.testbit s (N.log2 (ability_bit a)).
Proof.
  unfold has_ability. cbv zeta.
  assert (ability_bit a = 2 ^ N.log2 (ability_bit a)) as E by (by destruct a).
  rewrite E at 1 2. rewrite N.land_comm.
  apply Bool.eq_iff_eq_true. rewrite N.eqb_eq. split.
  - intros H. apply (f_equal (λ x, N.testbit x (N.log2 (ability_bit a)))) in H.
    by rewrite N.land_spec, N.pow2_bits_true, andb_true_r in H.
  - intros H. apply N.bits_inj. intros i. rewrite N.land_spec, N.pow2_bits_eqb.
    destruct (N.eqb_spec (N.log2 (ability_bit a)) i) as [<-|]; [by rewrite H|].
    by rewrite andb_false_r.
Qed.

Lemma has_ability_intersect s t a :
  has_ability (intersect s t) a = has_ability s a && has_ability t a.
Proof. unfold intersect. by rewrite !has_ability_bit, N.land_spec. Qed.

Lemma has_ability_union s t a :
  has_ability (ability_union s t) a = has_ability s a || has_ability t a.
Proof. unfold ability_union. by rewrite !has_ability_bit, N.lor_spec. Qed.

#[export] Hint Rewrite has_ability_intersect has_ability_union : abilities.

Lemma has_ability_fold_intersect l d a :
  has_ability (foldl intersect d l) a = has_ability d a && forallb (λ s, has_ability s a) l.
Proof.
  revert d; induction l as [|s l IH]; intros d; simpl; [by rewrite andb_true_r|].
  by rewrite IH, has_ability_intersect, andb_assoc.
Qed.

(** What one type argument contributes: the abilities it is enough for. *)
Lemma required_by_fold s a :
  AbilitySet_ok s →
  has_ability (foldl ability_union EMPTY (required_by <$> into_iter s)) a
  = has_ability s (requires a).
Proof. intros Hs. revert s Hs. by apply AbilitySet_ok_ind; destruct a. Qed.

Lemma into_iter_elem s a : AbilitySet_ok s → a ∈ into_iter s ↔ has_ability s a = true.
Proof.
  intros Hs. rewrite <- (bool_decide_eq_true (a ∈ into_iter s)).
  apply Bool.eq_iff_eq_true. revert s Hs. by apply AbilitySet_ok_ind; destruct a.
Qed.

(** ** Properties *)

(** polymorphic_abilities fails exactly when the numbers of phantom flags and type
    arguments differ; otherwise an ability is in the result exactly when it is declared
    and every non-phantom type argument has the ability that it requires. *)
Theorem polymorphic_abilities_spec declared phantoms args :
  Forall AbilitySet_ok args →
  (length phantoms ≠ length args →
     polymorphic_abilities declared phantoms args = Err VERIFIER_INVARIANT_VIOLATION) ∧
  (length phantoms = length args →
     ∃ r, polymorphic_abilities declared phantoms args = Ok r ∧
       ∀ a, has_ability r a = true ↔
         has_ability declared a = true ∧
         ∀ i s, args !! i = Some s → phantoms !! i = Some false →
           has_ability s (requires a) = true).
Proof.
  intros Hargs. unfold polymorphic_abilities. split; intros Hlen.
  { destruct (N.eqb_spec (len phantoms) (len args)); [unfold len in *; lia|done]. }
  destruct (N.eqb_spec (len phantoms) (len args)); [|unfold len in *; lia].
  eexists; split; [done|]. intros a.
  rewrite has_ability_fold_intersect, andb_true_iff, forallb_forall.
  apply and_iff_compat_l. split.
  - intros H i s Hi Hp.
    rewrite <- required_by_fold by (by eapply Forall_lookup_1).
    apply H, list_elem_of_In, list_elem_of_fmap. exists (s, false); split; [done|].
    apply list_elem_of_filter; split; [done|].
    apply list_elem_of_lookup. exists i. by apply lookup_zip_Some.
  - intros H x Hx%list_elem_of_In%list_elem_of_fmap.
    destruct Hx as ([s b] & -> & [Hb Hin]%list_elem_of_filter); simpl in *; subst.
    apply list_elem_of_lookup in Hin as [i [Hi Hp]%lookup_zip_Some].
    rewrite required_by_fold by (by eapply Forall_lookup_1). eauto.
Qed.

Lemma polymorphic_abilities_spec_witness :
  Forall AbilitySet_ok [PRIMITIVES; SIGNER] ∧
  ∃ r, polymorphic_abilities ALL [false; true] [PRIMITIVES; SIGNER] = Ok r ∧
       has_ability r Key = true ∧ has_ability r Copy = true.
Proof.
  assert (Forall AbilitySet_ok [PRIMITIVES; SIGNER]) as Hok by (repeat constructor; by vm_compute).
  split; [exact Hok|].
  destruct (polymorphic_abilities_spec ALL [false; true] [PRIMITIVES; SIGNER] Hok) as [_ H].
  destruct (H eq_refl) as (r & Hr & Hspec). exists r. split; [exact Hr|].
  split; apply Hspec; (split; [reflexivity|]);
    intros [|[|i]] s Hs Hp; simplify_eq/=; reflexivity.
Defined.

(** required_by is the converse of requires: x is required by exactly the abilities
    whose requirement is x. *)
Theorem requires_required_by (x y : Ability) :
  has_ability (required_by x) y = true ↔ requires y = x.
Proof. by destruct x, y. Qed.

(** A byte is accepted as an ability set, unchanged, exactly when it sets no bit but
    those of the four abilities. *)
Theorem ability_set_from_u8_spec (byte : u8) :
  (ability_set_from_u8 byte = Some byte ↔ AbilitySet_ok byte) ∧
  (ability_set_from_u8 byte = None ↔ ¬ AbilitySet_ok byte).
Proof.
  assert (is_subset_bits byte ALL = true ↔ AbilitySet_ok byte) as H.
  { unfold is_subset_bits, AbilitySet_ok. change ALL with (N.ones 4).
    rewrite N.eqb_eq, N.land_ones. split; [|intros; apply N.mod_small; simpl; lia].
    intros E. pose proof (N.mod_lt byte (2 ^ 4)). simpl in *. lia. }
  unfold ability_set_from_u8. destruct (is_subset_bits byte ALL); naive_solver.
Qed.
