(* ===== verification/FileFormat.v ===== *)
(** * FileFormat: the data of a compiled module

    Models [language/move-binary-format/src/file_format.rs]: indices, handles,
    definitions, signature tokens, bytecode instructions, [CompiledModule] and
    [CompiledScript], with the operations the file defines on them. *)

From S2P Require Import Prelude CoreTypes VmStatus Abilities.

(** ** Indices ([define_index!] and the type aliases) *)

Definition u16 : Set := N.
Definition u32 : Set := N.
Definition u64 : Set := N.
Definition u128 : Set := N.

Definition TableIndex : Set := u16.
Definition ModuleHandleIndex : Set := TableIndex.
Definition StructHandleIndex : Set := TableIndex.
Definition FunctionHandleIndex : Set := TableIndex.
Definition FieldHandleIndex : Set := TableIndex.
Definition StructDefInstantiationIndex : Set := TableIndex.
Definition FunctionInstantiationIndex : Set := TableIndex.
Definition FieldInstantiationIndex : Set := TableIndex.
Definition IdentifierIndex : Set := TableIndex.
Definition AddressIdentifierIndex : Set := TableIndex.
Definition ConstantPoolIndex : Set := TableIndex.
Definition SignatureIndex : Set := TableIndex.
Definition StructDefinitionIndex : Set := TableIndex.
Definition FunctionDefinitionIndex : Set := TableIndex.
Definition LocalIndex : Set := u8.
Definition MemberCount : Set := u16.
Definition CodeOffset : Set := u16.
Definition TypeParameterIndex : Set := u16.

(** ** Signature tokens *)

Module SignatureToken.
(** [pub enum SignatureToken] *)
Inductive SignatureToken : Set :=
| Bool
| U8
| U64
| U128
| Address
| Signer
| Vector (t : SignatureToken)
| Struct (i : StructHandleIndex)
| StructInstantiation (i : StructHandleIndex) (ts : list SignatureToken)
| Reference (t : SignatureToken)
| MutableReference (t : SignatureToken)
| TypeParameter (i : TypeParameterIndex).

(** Induction that reaches the arguments of a [StructInstantiation]. *)
Section Induction.
Context (P : SignatureToken → Prop).
Context (HBool : P Bool) (HU8 : P U8) (HU64 : P U64) (HU128 : P U128)
  (HAddress : P Address) (HSigner : P Signer)
  (HVector : ∀ t, P t → P (Vector t))
  (HStruct : ∀ i, P (Struct i))
  (HInst : ∀ i ts, Forall P ts → P (StructInstantiation i ts))
  (HRef : ∀ t, P t → P (Reference t))
  (HMut : ∀ t, P t → P (MutableReference t))
  (HTP : ∀ i, P (TypeParameter i)).

Fixpoint token_ind (t : SignatureToken) : P t :=
  match t with
  | Bool => HBool | U8 => HU8 | U64 => HU64 | U128 => HU128
  | Address => HAddress | Signer => HSigner
  | Vector t => HVector t (token_ind t)
  | Struct i => HStruct i
  | StructInstantiation i ts =>
      HInst i ts ((fix go l : Forall P l :=
        match l with
        | [] => Forall_nil_2 P
        | x :: l => Forall_cons_2 P x l (token_ind x) (go l)
        end) ts)
  | Reference t => HRef t (token_ind t)
  | MutableReference t => HMut t (token_ind t)
  | TypeParameter i => HTP i
  end.
End Induction.

(** [PartialEq] *)
Fixpoint eqb (a b : SignatureToken) {struct a} : bool :=
  match a, b with
  | Bool, Bool | U8, U8 | U64, U64 | U128, U128
  | Address, Address | Signer, Signer => true
  | Vector a, Vector b => eqb a b
  | Struct i, Struct j => i =? j
  | StructInstantiation i l, StructInstantiation j m =>
      (i =? j) && (fix go l m := match l, m with
                   | [], [] => true
                   | x :: l, y :: m => eqb x y && go l m
                   | _, _ => false
                   end) l m
  | Reference a, Reference b => eqb a b
  | MutableReference a, MutableReference b => eqb a b
  | TypeParameter i, TypeParameter j => i =? j
  | _, _ => false
  end.

Lemma eqb_eq a b : eqb a b = true ↔ a = b.
Proof.
  revert b; induction a as [| | | | | |a IH|i|i ts IH|a IH|a IH|i] using token_ind;
    intros [| | | | | |b|j|j us|b|b|j]; cbn; try (split; congruence);
    rewrite ?N.eqb_eq, ?IH; try (split; congruence).
  rewrite andb_true_iff, N.eqb_eq.
  assert ((fix go l m := match l, m with
                   | [], [] => true
                   | x :: l, y :: m => eqb x y && go l m
                   | _, _ => false
                   end) ts us = true ↔ ts = us) as ->.
  { revert us; induction IH as [|x ts Hx _ IHl]; intros [|y us]; try (split; congruence).
    rewrite andb_true_iff, Hx, IHl. split; [naive_solver|]. intros [= -> ->]; auto. }
  split; [naive_solver|]. intros [= -> ->]; auto.
Qed.

#[export] Instance eq_dec : EqDecision SignatureToken.
Proof.
  intros a b. destruct (eqb a b) eqn:E; [left|right].
  - by apply eqb_eq.
  - intros H%eqb_eq. congruence.
Defined.

(** Nodes of a token: the measure of its traversals. *)
Fixpoint size (t : SignatureToken) : nat :=
  match t with
  | Vector t | Reference t | MutableReference t => S (size t)
  | StructInstantiation _ ts => S (sum_list_with size ts)
  | _ => 1
  end.

(** Nodes on the longest path of a token. *)
Fixpoint depth (t : SignatureToken) : nat :=
  match t with
  | Vector t | Reference t | MutableReference t => S (depth t)
  | StructInstantiation _ ts => S (max_list_with depth ts)
  | _ => 1
  end.

(** One step of [SignatureTokenPreorderTraversalIterWithDepth::next] on its
    stack, whose top is the head of the list. *)
Definition next_with_depth (stack : list (SignatureToken * N))
  : option ((SignatureToken * N) * list (SignatureToken * N)) :=
  match stack with
  | (tok, depth) :: stack =>
      let stack :=
        match tok with
        | Reference inner_tok | MutableReference inner_tok | Vector inner_tok =>
            (inner_tok, depth + 1) :: stack
        | StructInstantiation _ inner_toks =>
            ((λ tok, (tok, depth + 1)) <$> inner_toks) ++ stack
        | Signer | Bool | Address | U8 | U64 | U128 | Struct _ | TypeParameter _ => stack
        end in
      Some ((tok, depth), stack)
  | [] => None
  end.

(** [for (token, depth) in token.preorder_traversal_with_depth() { f?; }] *)
Fixpoint preorder_loop {E B} (fuel : nat) (f : B → SignatureToken * N → result E B)
    (stack : list (SignatureToken * N)) (b : B) : result E B :=
  match fuel with
  | O => OutOfFuel
  | S fuel =>
      match next_with_depth stack with
      | None => Ok b
      | Some (x, stack) => b' ← f b x; preorder_loop fuel f stack b'
      end
  end.

(** The initial stack of [preorder_traversal_with_depth] is [vec![(self, 1)]];
    the loop runs once per node and once more to see the empty stack. *)
Definition for_preorder_with_depth {E B} (self : SignatureToken)
    (f : B → SignatureToken * N → result E B) (b : B) : result E B :=
  preorder_loop (S (size self)) f [(self, 1)] b.

(** [SignatureTokenPreorderTraversalIter::next] *)
Definition next (stack : list SignatureToken)
  : option (SignatureToken * list SignatureToken) :=
  match stack with
  | tok :: stack =>
      let stack :=
        match tok with
        | Reference inner_tok | MutableReference inner_tok | Vector inner_tok =>
            inner_tok :: stack
        | StructInstantiation _ inner_toks => inner_toks ++ stack
        | Signer | Bool | Address | U8 | U64 | U128 | Struct _ | TypeParameter _ => stack
        end in
      Some (tok, stack)
  | [] => None
  end.

(** [preorder_traversal().collect()] *)
Fixpoint preorder_collect (fuel : nat) (stack : list SignatureToken) : list SignatureToken :=
  match fuel with
  | O => []
  | S fuel =>
      match next stack with
      | None => []
      | Some (x, stack) => x :: preorder_collect fuel stack
      end
  end.
Definition preorder_traversal (self : SignatureToken) : list SignatureToken :=
  preorder_collect (S (size self)) [self].

(** [SignatureTokenKind] and [signature_token_kind] *)
Inductive SignatureTokenKind : Set := KValue | KReference | KMutableReference.
Definition signature_token_kind (self : SignatureToken) : SignatureTokenKind :=
  match self with
  | Reference _ => KReference
  | MutableReference _ => KMutableReference
  | Bool | U8 | U64 | U128 | Address | Signer | Struct _
  | StructInstantiation _ _ | Vector _ => KValue
  | TypeParameter _ => KValue
  end.

Definition is_integer (self : SignatureToken) : bool :=
  match self with
  | U8 | U64 | U128 => true
  | Bool | Address | Signer | Vector _ | Struct _ | StructInstantiation _ _
  | Reference _ | MutableReference _ | TypeParameter _ => false
  end.
Definition is_reference (self : SignatureToken) : bool :=
  match self with Reference _ | MutableReference _ => true | _ => false end.
Definition is_mutable_reference (self : SignatureToken) : bool :=
  match self with MutableReference _ => true | _ => false end.
Definition is_signer (self : SignatureToken) : bool :=
  match self with Signer => true | _ => false end.
Fixpoint is_valid_for_constant (self : SignatureToken) : bool :=
  match self with
  | Bool | U8 | U64 | U128 | Address => true
  | Vector inner => is_valid_for_constant inner
  | Signer | Struct _ | StructInstantiation _ _ | Reference _
  | MutableReference _ | TypeParameter _ => false
  end.
End SignatureToken.
Export (hints) SignatureToken.
Notation SignatureToken := SignatureToken.SignatureToken.

(** [pub struct Signature(pub Vec<SignatureToken>)] and [TypeSignature] *)
Definition Signature : Set := list SignatureToken.
Definition TypeSignature : Set := SignatureToken.

(** ** Bytecode *)

Module Bytecode.
(** [pub enum Bytecode] *)
Inductive Bytecode : Set :=
| Pop
| Ret
| BrTrue (a : CodeOffset)
| BrFalse (a : CodeOffset)
| Branch (a : CodeOffset)
| LdU8 (a : u8)
| LdU64 (a : u64)
| LdU128 (a : u128)
| CastU8
| CastU64
| CastU128
| LdConst (a : ConstantPoolIndex)
| LdTrue
| LdFalse
| CopyLoc (a : LocalIndex)
| MoveLoc (a : LocalIndex)
| StLoc (a : LocalIndex)
| Call (a : FunctionHandleIndex)
| CallGeneric (a : FunctionInstantiationIndex)
| Pack (a : StructDefinitionIndex)
| PackGeneric (a : StructDefInstantiationIndex)
| Unpack (a : StructDefinitionIndex)
| UnpackGeneric (a : StructDefInstantiationIndex)
| ReadRef
| WriteRef
| FreezeRef
| MutBorrowLoc (a : LocalIndex)
| ImmBorrowLoc (a : LocalIndex)
| MutBorrowField (a : FieldHandleIndex)
| MutBorrowFieldGeneric (a : FieldInstantiationIndex)
| ImmBorrowField (a : FieldHandleIndex)
| ImmBorrowFieldGeneric (a : FieldInstantiationIndex)
| MutBorrowGlobal (a : StructDefinitionIndex)
| MutBorrowGlobalGeneric (a : StructDefInstantiationIndex)
| ImmBorrowGlobal (a : StructDefinitionIndex)
| ImmBorrowGlobalGeneric (a : StructDefInstantiationIndex)
| Add
| Sub
| Mul
| Mod
| Div
| BitOr
| BitAnd
| Xor
| Or
| And
| Not
| Eq
| Neq
| Lt
| Gt
| Le
| Ge
| Abort
| Nop
| Exists (a : StructDefinitionIndex)
| ExistsGeneric (a : StructDefInstantiationIndex)
| MoveFrom (a : StructDefinitionIndex)
| MoveFromGeneric (a : StructDefInstantiationIndex)
| MoveTo (a : StructDefinitionIndex)
| MoveToGeneric (a : StructDefInstantiationIndex)
| Shl
| Shr
| VecPack (a : SignatureIndex) (n : u64)
| VecLen (a : SignatureIndex)
| VecImmBorrow (a : SignatureIndex)
| VecMutBorrow (a : SignatureIndex)
| VecPushBack (a : SignatureIndex)
| VecPopBack (a : SignatureIndex)
| VecUnpack (a : SignatureIndex) (n : u64)
| VecSwap (a : SignatureIndex).

Definition is_unconditional_branch (self : Bytecode) : bool :=
  match self with Ret | Abort | Branch _ => true | _ => false end.
Definition is_conditional_branch (self : Bytecode) : bool :=
  match self with BrFalse _ | BrTrue _ => true | _ => false end.
Definition is_branch (self : Bytecode) : bool :=
  is_conditional_branch self || is_unconditional_branch self.

(** [Bytecode::offset] *)
Definition offset (self : Bytecode) : option CodeOffset :=
  match self with
  | BrFalse offset | BrTrue offset | Branch offset => Some offset
  | _ => None
  end.

(** [Bytecode::get_successors]; the [checked_precondition!] is an [assert!]. *)
Definition get_successors {E} (pc : CodeOffset) (code : list Bytecode)
  : result E (list CodeOffset) :=
  if negb ((pc <=? u16_MAX - 2) && (pc <? len code)) then Panic else
  bytecode ← unwrap (at_ code pc);
  let v := match offset bytecode with Some offset => [offset] | None => [] end in
  let next_pc := pc + 1 in
  if wrap 16 (len code) <=? next_pc then Ok v else
  let v := if negb (is_unconditional_branch bytecode)
              && negb (bool_decide (next_pc ∈ v))
           then v ++ [next_pc] else v in
  match v with
  | [a; b] => if b <? a then Ok [b; a] else Ok v
  | _ => Ok v
  end.
End Bytecode.
Notation Bytecode := Bytecode.Bytecode.

(** ** Handles *)

Record ModuleHandle : Set := {
  mh_address : AddressIdentifierIndex;
  mh_name : IdentifierIndex }.

Record StructTypeParameter : Set := {
  stp_constraints : AbilitySet;
  stp_is_phantom : bool }.

Record StructHandle : Set := {
  sh_module : ModuleHandleIndex;
  sh_name : IdentifierIndex;
  sh_abilities : AbilitySet;
  sh_type_parameters : list StructTypeParameter }.

Definition type_param_constraints (self : StructHandle) : list AbilitySet :=
  stp_constraints <$> sh_type_parameters self.

Record FunctionHandle : Set := {
  fh_module : ModuleHandleIndex;
  fh_name : IdentifierIndex;
  fh_parameters : SignatureIndex;
  fh_return : SignatureIndex;
  fh_type_parameters : list AbilitySet }.

Record FieldHandle : Set := {
  fld_owner : StructDefinitionIndex;
  fld_field : MemberCount }.

(** ** Instantiations *)

Record StructDefInstantiation : Set := {
  sdi_def : StructDefinitionIndex;
  sdi_type_parameters : SignatureIndex }.

Record FunctionInstantiation : Set := {
  fi_handle : FunctionHandleIndex;
  fi_type_parameters : SignatureIndex }.

Record FieldInstantiation : Set := {
  fldi_handle : FieldHandleIndex;
  fldi_type_parameters : SignatureIndex }.

(** ** Definitions *)

Record FieldDefinition : Set := {
  fd_name : IdentifierIndex;
  fd_signature : TypeSignature }.

Inductive StructFieldInformation : Set :=
| Native
| Declared (fields : list FieldDefinition).

Record StructDefinition : Set := {
  sd_struct_handle : StructHandleIndex;
  sd_field_information : StructFieldInformation }.

(** [StructDefinition::declared_field_count]; [fields.len() as u16] wraps. *)
Definition declared_field_count (self : StructDefinition) : result StatusCode MemberCount :=
  match sd_field_information self with
  | Native => Err LINKER_ERROR
  | Declared fields => Ok (wrap 16 (len fields))
  end.

(** [StructDefinition::field] *)
Definition field (self : StructDefinition) (offset : N) : option FieldDefinition :=
  match sd_field_information self with
  | Native => None
  | Declared fields => at_ fields offset
  end.

(** [#[repr(u8)] pub enum Visibility] and its [TryFrom<u8>] *)
Inductive Visibility : Set := Private | Public | Script | Friend.
Definition visibility_to_u8 (v : Visibility) : u8 :=
  match v with Private => 0 | Public => 1 | Script => 2 | Friend => 3 end.
Definition visibility_try_from (v : u8) : option Visibility :=
  if v =? visibility_to_u8 Private then Some Private
  else if v =? visibility_to_u8 Public then Some Public
  else if v =? visibility_to_u8 Script then Some Script
  else if v =? visibility_to_u8 Friend then Some Friend
  else None.

Record Constant : Set := {
  const_type : SignatureToken;
  const_data : list u8 }.

Record CodeUnit : Set := {
  cu_locals : SignatureIndex;
  cu_code : list Bytecode }.

Record FunctionDefinition : Set := {
  fdef_function : FunctionHandleIndex;
  fdef_visibility : Visibility;
  fdef_acquires_global_resources : list StructDefinitionIndex;
  fdef_code : option CodeUnit }.

(** [FunctionDefinition::is_native] and [FunctionDefinition::NATIVE] *)
Definition is_native (self : FunctionDefinition) : bool :=
  match fdef_code self with None => true | Some _ => false end.
Definition NATIVE_FLAG : u8 := 2.

(** ** Compilation units *)

Record CompiledScript : Set := {
  s_version : u32;
  s_module_handles : list ModuleHandle;
  s_struct_handles : list StructHandle;
  s_function_handles : list FunctionHandle;
  s_function_instantiations : list FunctionInstantiation;
  s_signatures : list Signature;
  s_identifiers : list Identifier;
  s_address_identifiers : list AccountAddress;
  s_constant_pool : list Constant;
  s_type_parameters : list AbilitySet;
  s_parameters : SignatureIndex;
  s_code : CodeUnit }.

Record CompiledModule : Set := {
  m_version : u32;
  m_self_module_handle_idx : ModuleHandleIndex;
  m_module_handles : list ModuleHandle;
  m_struct_handles : list StructHandle;
  m_function_handles : list FunctionHandle;
  m_field_handles : list FieldHandle;
  m_friend_decls : list ModuleHandle;
  m_struct_def_instantiations : list StructDefInstantiation;
  m_function_instantiations : list FunctionInstantiation;
  m_field_instantiations : list FieldInstantiation;
  m_signatures : list Signature;
  m_identifiers : list Identifier;
  m_address_identifiers : list AccountAddress;
  m_constant_pool : list Constant;
  m_struct_defs : list StructDefinition;
  m_function_defs : list FunctionDefinition }.

(** ** Traversals

    The stack-driven iterators visit exactly the nodes of the recursive
    preorder, with the depth at which they occur. *)

Module Preorder.
Import SignatureToken.

(** The recursive preorder, each node with its depth. *)
Fixpoint preorder (t : SignatureToken) (d : N) : list (SignatureToken * N) :=
  (t, d) ::
  match t with
  | Vector u | Reference u | MutableReference u => preorder u (d + 1)
  | StructInstantiation _ ts => concat ((λ u, preorder u (d + 1)) <$> ts)
  | _ => []
  end.

Definition stack_nodes (stack : list (SignatureToken * N)) : list (SignatureToken * N) :=
  concat ((λ p, preorder p.1 p.2) <$> stack).
Definition stack_size (stack : list (SignatureToken * N)) : nat :=
  sum_list_with (size ∘ fst) stack.

Lemma size_pos t : (0 < size t)%nat.
Proof. destruct t; simpl; lia. Qed.

Lemma stack_nodes_app s1 s2 : stack_nodes (s1 ++ s2) = stack_nodes s1 ++ stack_nodes s2.
Proof. unfold stack_nodes. by rewrite fmap_app, concat_app. Qed.

(** One [next] yields the first node and leaves the others. *)
Lemma next_with_depth_spec t d stack :
  ∃ stack', next_with_depth ((t, d) :: stack) = Some ((t, d), stack') ∧
    stack_nodes ((t, d) :: stack) = (t, d) :: stack_nodes stack' ∧
    stack_size ((t, d) :: stack) = S (stack_size stack').
Proof.
  eexists; split; [reflexivity|].
  assert (∀ ts : list SignatureToken,
    stack_nodes ((λ u, (u, d + 1)) <$> ts) = concat ((λ u, preorder u (d + 1)) <$> ts) ∧
    stack_size ((λ u, (u, d + 1)) <$> ts) = sum_list_with size ts) as Hts.
  { intros ts. unfold stack_nodes, stack_size. rewrite <- list_fmap_compose.
    split; [done|]. induction ts; simpl; [done|]. by f_equal. }
  split; destruct t; try reflexivity.
  - rewrite stack_nodes_app, (proj1 (Hts ts)). reflexivity.
  - unfold stack_size in *. rewrite sum_list_with_app.
    rewrite (proj2 (Hts ts)). simpl. lia.
Qed.

Lemma preorder_loop_fold {E B} (f : B → SignatureToken * N → result E B) fuel stack b :
  (stack_size stack < fuel)%nat →
  preorder_loop fuel f stack b = try_fold f (stack_nodes stack) b.
Proof.
  revert stack b; induction fuel as [|fuel IH]; intros stack b Hf; [lia|].
  destruct stack as [|[t d] stack]; [done|].
  destruct (next_with_depth_spec t d stack) as (stack' & Hn & Hs & Hz).
  cbn [preorder_loop]. rewrite Hn, Hs. cbn [try_fold].
  destruct (f b (t, d)); simpl; [apply IH; lia|done..].
Qed.

Lemma for_preorder_fold {E B} (t : SignatureToken)
    (f : B → SignatureToken * N → result E B) (b : B) :
  for_preorder_with_depth t f b = try_fold f (preorder t 1) b.
Proof.
  unfold for_preorder_with_depth. rewrite preorder_loop_fold.
  - unfold stack_nodes. simpl. by rewrite app_nil_r.
  - unfold stack_size. simpl. lia.
Qed.

(** The stack-driven preorder traversal of a signature token visits exactly the nodes
    of the recursive preorder, in its order, each with the depth at which it occurs, and
    always ends. *)
Theorem for_preorder_with_depth_spec {E B} (t : SignatureToken)
    (f : B → SignatureToken * N → result E B) (b : B) :
  for_preorder_with_depth t f b = try_fold f (preorder t 1) b.
Proof. apply for_preorder_fold. Qed.

(** Forgetting the depth gives the other iterator. *)
Lemma preorder_collect_nodes fuel stack :
  (stack_size stack < fuel)%nat →
  preorder_collect fuel (stack.*1) = (stack_nodes stack).*1.
Proof.
  revert stack; induction fuel as [|fuel IH]; intros stack Hf; [lia|].
  destruct stack as [|[t d] stack]; [done|].
  destruct (next_with_depth_spec t d stack) as (stack' & Hn & Hs & Hz).
  rewrite Hs. cbn [preorder_collect fmap list_fmap fst].
  assert (next (t :: stack.*1) = Some (t, stack'.*1)) as Hnext.
  { injection Hn as <-. unfold next. f_equal. f_equal.
    destruct t; try reflexivity. rewrite fmap_app, <- list_fmap_compose. f_equal.
    symmetry. apply list_fmap_id. }
  rewrite Hnext. f_equal. apply IH. lia.
Qed.

Lemma preorder_traversal_spec t : preorder_traversal t = (preorder t 1).*1.
Proof.
  unfold preorder_traversal. change [t] with ([(t, 1)].*1).
  rewrite preorder_collect_nodes.
  - unfold stack_nodes. simpl. by rewrite app_nil_r.
  - unfold stack_size. simpl. lia.
Qed.

(** The deepest node visited is at the depth of the token. *)
Lemma preorder_depth t d n :
  Forall (λ p, p.2 <= n) (preorder t d) ↔ d + N.of_nat (depth t) <= n + 1.
Proof.
  revert d; induction t as [| | | | | |t IH|i|i ts IH|t IH|t IH|i] using token_ind;
    intros d; cbn [preorder depth]; rewrite Forall_cons; cbn [snd];
    rewrite ?Forall_nil, ?IH; try lia.
  rewrite Forall_concat, Forall_fmap.
  assert (Forall (Forall (λ p, p.2 <= n) ∘ (λ u, preorder u (d + 1))) ts ↔
          d + 1 + N.of_nat (max_list_with depth ts) <= n + 1 ∨ ts = []) as ->.
  { induction IH as [|u ts Hu _ IHl]; [naive_solver|].
    rewrite Forall_cons, IHl. cbn [max_list_with compose]. rewrite Hu.
    destruct ts; [simpl; split; [intros [? _]; left; lia|intros [|]; [split; [lia|by right]|done]]|].
    split; [intros [? [|]]; [left; lia|done]|].
    intros [|]; [split; [lia|left; lia]|done]. }
  destruct ts; [simpl; split; [lia|auto with lia]|]. split; [|intros; split; [lia|left; lia]].
  intros [? [|]]; [lia|done].
Qed.
End Preorder.
