(* ===== verification/Errors.v ===== *)
(** * Errors: the errors of the binary format, and the status they become

    Models [language/move-binary-format/src/errors.rs] and [IndexKind] of
    [lib.rs].  The [message] of an error is diagnostic text: no code reads it
    back, and it is left out. *)

From S2P Require Import Prelude CoreTypes VmStatus Abilities FileFormat.

(** [pub enum IndexKind] *)
Inductive IndexKind : Set :=
| KModuleHandle | KStructHandle | KFunctionHandle | KFieldHandle | KFriendDeclaration
| KFunctionInstantiation | KFieldInstantiation | KStructDefinition
| KStructDefInstantiation | KFunctionDefinition | KFieldDefinition | KSignature
| KIdentifier | KAddressIdentifier | KConstantPool | KLocalPool | KCodeDefinition
| KTypeParameter | KMemberCount.

(** [pub enum Location] *)
Inductive Location : Set := LUndefined | LScript | LModule (id : ModuleId).

(** [pub struct PartialVMError] *)
Record PartialVMError : Set := {
  pe_major_status : StatusCode;
  pe_sub_status : option u64;
  pe_indices : list (IndexKind * TableIndex);
  pe_offsets : list (FunctionDefinitionIndex * CodeOffset) }.

(** [pub struct VMError] *)
Record VMError : Set := {
  ve_major_status : StatusCode;
  ve_sub_status : option u64;
  ve_location : Location;
  ve_indices : list (IndexKind * TableIndex);
  ve_offsets : list (FunctionDefinitionIndex * CodeOffset) }.

(** ** [impl PartialVMError] *)

Definition PartialVMError_new (major_status : StatusCode) : PartialVMError :=
  {| pe_major_status := major_status; pe_sub_status := None;
     pe_indices := []; pe_offsets := [] |}.

Definition with_sub_status (debug_assertions : bool) (self : PartialVMError) (sub_status : u64)
  : result StatusCode PartialVMError :=
  _ ← debug_assert debug_assertions
        (match pe_sub_status self with None => true | Some _ => false end);
  Ok {| pe_major_status := pe_major_status self; pe_sub_status := Some sub_status;
        pe_indices := pe_indices self; pe_offsets := pe_offsets self |}.

Definition at_index (self : PartialVMError) (kind : IndexKind) (index : TableIndex)
  : PartialVMError :=
  {| pe_major_status := pe_major_status self; pe_sub_status := pe_sub_status self;
     pe_indices := pe_indices self ++ [(kind, index)]; pe_offsets := pe_offsets self |}.

Definition at_indices (self : PartialVMError)
    (additional_indices : list (IndexKind * TableIndex)) : PartialVMError :=
  {| pe_major_status := pe_major_status self; pe_sub_status := pe_sub_status self;
     pe_indices := pe_indices self ++ additional_indices; pe_offsets := pe_offsets self |}.

Definition at_code_offset (self : PartialVMError) (function : FunctionDefinitionIndex)
    (offset : CodeOffset) : PartialVMError :=
  {| pe_major_status := pe_major_status self; pe_sub_status := pe_sub_status self;
     pe_indices := pe_indices self; pe_offsets := pe_offsets self ++ [(function, offset)] |}.

Definition at_code_offsets (self : PartialVMError)
    (additional_offsets : list (FunctionDefinitionIndex * CodeOffset)) : PartialVMError :=
  {| pe_major_status := pe_major_status self; pe_sub_status := pe_sub_status self;
     pe_indices := pe_indices self; pe_offsets := pe_offsets self ++ additional_offsets |}.

(** [PartialVMError::finish] *)
Definition finish (self : PartialVMError) (location : Location) : VMError :=
  {| ve_major_status := pe_major_status self; ve_sub_status := pe_sub_status self;
     ve_location := location; ve_indices := pe_indices self; ve_offsets := pe_offsets self |}.

(** ** Constructors of common errors *)

Definition offset_out_of_bounds_error (status : StatusCode) (kind : IndexKind)
    (target_offset target_pool_len : N) (cur_function : FunctionDefinitionIndex)
    (cur_bytecode_offset : CodeOffset) : PartialVMError :=
  at_code_offset (PartialVMError_new status) cur_function cur_bytecode_offset.

Definition bounds_error (status : StatusCode) (kind : IndexKind) (idx : TableIndex) (len : N)
  : PartialVMError := at_index (PartialVMError_new status) kind idx.

Definition verification_error (status : StatusCode) (kind : IndexKind) (idx : TableIndex)
  : PartialVMError := at_index (PartialVMError_new status) kind idx.

(** ** From an error to a status *)

(** [VMError::into_vm_status]; [offsets.pop()] takes the last offset. *)
Definition into_vm_status (debug_assertions : bool) (self : VMError)
  : result StatusCode VMStatus :=
  match ve_major_status self, ve_sub_status self, ve_location self with
  | EXECUTED, sub_status, _ =>
      _ ← debug_assert debug_assertions
            (match sub_status with None => true | Some _ => false end);
      Ok VMExecuted
  | ABORTED, Some code, LScript => Ok (VMMoveAbort AbortScript code)
  | ABORTED, Some code, LModule id => Ok (VMMoveAbort (AbortModule id) code)
  | ABORTED, _, _ =>
      _ ← debug_assert debug_assertions false;
      Ok (VmStatus.VMError ABORTED)
  | major_status, _, location =>
      if decide (status_type major_status = Execution) then
        let at_location abort_location :=
          match last (ve_offsets self) with
          | None => Ok (VmStatus.VMError major_status)
          | Some (fdef_idx, code_offset) =>
              Ok (VMExecutionFailure major_status abort_location fdef_idx code_offset)
          end in
        match location with
        | LScript => at_location AbortScript
        | LModule id => at_location (AbortModule id)
        | LUndefined => Ok (VmStatus.VMError major_status)
        end
      else Ok (VmStatus.VMError major_status)
  end.

(** [vm_status_of_result] *)
Definition vm_status_of_result {T} (debug_assertions : bool) (r : result VMError T)
  : result StatusCode VMStatus :=
  match r with
  | Ok _ => Ok VMExecuted
  | Err err => into_vm_status debug_assertions err
  | Panic => Panic
  | OutOfFuel => OutOfFuel
  end.

(** ** Reasoning about errors *)

(** The outcome is a value, or an error that satisfies [P]. *)
Definition errs {A} (P : PartialVMError → Prop) (r : result PartialVMError A) : Prop :=
  match r with Ok _ => True | Err e => P e | Panic | OutOfFuel => False end.

Lemma errs_bind {A B} P (m : result PartialVMError A) (k : A → result PartialVMError B) :
  errs P m → (∀ a, m = Ok a → errs P (k a)) → errs P (m ≫= k).
Proof. destruct m; simpl; auto. Qed.
Lemma errs_for_each {A} P (f : A → result PartialVMError unit) l :
  (∀ x, x ∈ l → errs P (f x)) → errs P (for_each f l).
Proof.
  induction l as [|x l IH]; intros H; [done|]. rewrite for_each_cons.
  apply errs_bind; [apply H, list_elem_of_here|]. intros _ _.
  apply IH. intros y Hy. by apply H, list_elem_of_further.
Qed.
Lemma errs_weaken {A} (P Q : PartialVMError → Prop) (r : result PartialVMError A) :
  errs P r → (∀ e, P e → Q e) → errs Q r.
Proof. destruct r; simpl; auto. Qed.

Lemma errs_no_panic {A} P (r : result PartialVMError A) : errs P r → no_panic r.
Proof. by destruct r. Qed.

(** A loop that keeps an invariant on the number of elements it has passed *)
Lemma try_fold_errs {A B} P (f : B → A → result PartialVMError B) (I : nat → B → Prop) l b :
  I 0%nat b →
  (∀ i x b, l !! i = Some x → I i b →
    errs P (f b x) ∧ ∀ b', f b x = Ok b' → I (S i) b') →
  errs P (try_fold f l b).
Proof.
  revert I b; induction l as [|x l IH]; intros I b H0 Hstep; [done|]. cbn [try_fold].
  destruct (Hstep 0%nat x b eq_refl H0) as [He HI].
  apply errs_bind; [done|]. intros b' Hb'.
  apply (IH (λ i, I (S i))); [auto|]. intros i y c Hi HIc. by apply (Hstep (S i)).
Qed.

(** What every round of a loop that succeeds has established *)
Lemma try_fold_each {E A B} (f : B → A → result E B) (I : nat → B → Prop) (Q : nat → Prop) l b b' :
  I 0%nat b →
  (∀ i x b b', l !! i = Some x → I i b → f b x = Ok b' → I (S i) b' ∧ Q i) →
  try_fold f l b = Ok b' → ∀ i, (i < length l)%nat → Q i.
Proof.
  revert I Q b; induction l as [|x l IH]; intros I Q b H0 Hstep Hf i Hi; [simpl in Hi; lia|].
  cbn [try_fold] in Hf. apply bind_Ok in Hf as (b1 & Hb1 & Hf).
  destruct (Hstep 0%nat x b b1 eq_refl H0 Hb1) as [HI HQ].
  destruct i as [|i]; [done|].
  apply (IH (λ i, I (S i)) (λ i, Q (S i)) b1 HI); [|done|simpl in Hi; lia].
  intros j y c c' Hj. by apply (Hstep (S j)).
Qed.

(** ** Properties *)

(** The errors the debug build refuses to convert: a sub-status on a success,
    an abort without a code or without a place. *)
Definition malformed (e : VMError) : Prop :=
  (ve_major_status e = EXECUTED ∧ ve_sub_status e ≠ None) ∨
  (ve_major_status e = ABORTED ∧ (ve_sub_status e = None ∨ ve_location e = LUndefined)).

Lemma into_vm_status_other dbg e :
  ve_major_status e ≠ EXECUTED → ve_major_status e ≠ ABORTED →
  into_vm_status dbg e =
  if decide (status_type (ve_major_status e) = Execution) then
    match ve_location e, last (ve_offsets e) with
    | LScript, Some (f, o) => Ok (VMExecutionFailure (ve_major_status e) AbortScript f o)
    | LModule id, Some (f, o) =>
        Ok (VMExecutionFailure (ve_major_status e) (AbortModule id) f o)
    | _, _ => Ok (VmStatus.VMError (ve_major_status e))
    end
  else Ok (VmStatus.VMError (ve_major_status e)).
Proof.
  intros H1 H2. unfold into_vm_status.
  destruct (ve_major_status e) eqn:E; try done; case_decide; try done;
    destruct (ve_location e); try done; by destruct (last _) as [[]|].
Qed.

(** Converting an error to a status keeps its status code and reports the last code
    offset of an execution failure; it panics only in a debug build, on a success with a
    sub-status or an abort without a code or a place. *)
Theorem into_vm_status_spec (debug_assertions : bool) (e : VMError) :
  (debug_assertions = true ∧ malformed e ∧ into_vm_status debug_assertions e = Panic) ∨
  (¬ (debug_assertions = true ∧ malformed e) ∧
   ∃ s, into_vm_status debug_assertions e = Ok s ∧
     status_code s = ve_major_status e ∧
     (∀ c l f o, s = VMExecutionFailure c l f o → last (ve_offsets e) = Some (f, o))).
Proof.
  destruct (decide (ve_major_status e = EXECUTED)) as [H1|H1];
    [|destruct (decide (ve_major_status e = ABORTED)) as [H2|H2]].
  - unfold into_vm_status, malformed. rewrite H1.
    destruct (ve_sub_status e), debug_assertions; naive_solver.
  - unfold into_vm_status, malformed. rewrite H2.
    destruct (ve_sub_status e), (ve_location e), debug_assertions; naive_solver.
  - right. split; [unfold malformed; tauto|].
    rewrite into_vm_status_other by done. case_decide; [|naive_solver].
    destruct (ve_location e), (last (ve_offsets e)) as [[f o]|]; naive_solver.
Qed.
