(* ===== verification/BinaryCommon.v ===== *)
(** * BinaryCommon: bytes, cursors and the constants of the binary format

    Models [language/move-binary-format/src/file_format_common.rs] and
    [cursor.rs]: the limits and tags of the format, the checked output buffer
    [BinaryData], the ULEB128 codec, the input [Cursor] and its versioned
    wrappers.  The [from_u8] conversions of the tags, which the source keeps in
    [deserializer.rs], are here beside the tags. *)

From S2P Require Import Prelude CoreTypes VmStatus Abilities FileFormat.

(** ** Constants *)

Definition DIEM_MAGIC_SIZE : N := 4.
Definition DIEM_MAGIC : list u8 := [161; 28; 235; 11].

Definition TABLE_COUNT_MAX : N := 255.
Definition TABLE_OFFSET_MAX : N := 4294967295.
Definition TABLE_SIZE_MAX : N := 4294967295.
Definition TABLE_CONTENT_SIZE_MAX : N := 4294967295.
Definition TABLE_INDEX_MAX : N := 65535.
Definition SIGNATURE_INDEX_MAX : N := TABLE_INDEX_MAX.
Definition ADDRESS_INDEX_MAX : N := TABLE_INDEX_MAX.
Definition IDENTIFIER_INDEX_MAX : N := TABLE_INDEX_MAX.
Definition MODULE_HANDLE_INDEX_MAX : N := TABLE_INDEX_MAX.
Definition STRUCT_HANDLE_INDEX_MAX : N := TABLE_INDEX_MAX.
Definition STRUCT_DEF_INDEX_MAX : N := TABLE_INDEX_MAX.
Definition FUNCTION_HANDLE_INDEX_MAX : N := TABLE_INDEX_MAX.
Definition FUNCTION_INST_INDEX_MAX : N := TABLE_INDEX_MAX.
Definition FIELD_HANDLE_INDEX_MAX : N := TABLE_INDEX_MAX.
Definition FIELD_INST_INDEX_MAX : N := TABLE_INDEX_MAX.
Definition STRUCT_DEF_INST_INDEX_MAX : N := TABLE_INDEX_MAX.
Definition CONSTANT_INDEX_MAX : N := TABLE_INDEX_MAX.
Definition BYTECODE_COUNT_MAX : N := 65535.
Definition BYTECODE_INDEX_MAX : N := 65535.
Definition LOCAL_INDEX_MAX : N := 255.
Definition IDENTIFIER_SIZE_MAX : N := 65535.
Definition CONSTANT_SIZE_MAX : N := 65535.
Definition SIGNATURE_SIZE_MAX : N := 255.
Definition ACQUIRES_COUNT_MAX : N := 255.
Definition FIELD_COUNT_MAX : N := 255.
Definition FIELD_OFFSET_MAX : N := 255.
Definition TYPE_PARAMETER_COUNT_MAX : N := 255.
Definition TYPE_PARAMETER_INDEX_MAX : N := 65536.
Definition SIGNATURE_TOKEN_DEPTH_MAX : N := 256.

Definition VERSION_1 : N := 1.
Definition VERSION_2 : N := 2.
Definition VERSION_3 : N := 3.
Definition VERSION_4 : N := 4.
Definition VERSION_MAX : N := VERSION_4.

(** ** Tags *)

Module TableType.
Inductive TableType : Set :=
| MODULE_HANDLES
| STRUCT_HANDLES
| FUNCTION_HANDLES
| FUNCTION_INST
| SIGNATURES
| CONSTANT_POOL
| IDENTIFIERS
| ADDRESS_IDENTIFIERS
| STRUCT_DEFS
| STRUCT_DEF_INST
| FUNCTION_DEFS
| FIELD_HANDLE
| FIELD_INST
| FRIEND_DECLS.
End TableType.
Notation TableType := TableType.TableType.

(** The [#[repr(u8)]] discriminants. *)
Definition TableType_to_u8 (self : TableType) : u8 :=
  match self with
  | TableType.MODULE_HANDLES => 1
  | TableType.STRUCT_HANDLES => 2
  | TableType.FUNCTION_HANDLES => 3
  | TableType.FUNCTION_INST => 4
  | TableType.SIGNATURES => 5
  | TableType.CONSTANT_POOL => 6
  | TableType.IDENTIFIERS => 7
  | TableType.ADDRESS_IDENTIFIERS => 8
  | TableType.STRUCT_DEFS => 10
  | TableType.STRUCT_DEF_INST => 11
  | TableType.FUNCTION_DEFS => 12
  | TableType.FIELD_HANDLE => 13
  | TableType.FIELD_INST => 14
  | TableType.FRIEND_DECLS => 15
  end.

(** [TableType::from_u8] of [deserializer.rs] *)
Definition TableType_from_u8 (value : u8) : result StatusCode TableType :=
  match value with
  | 1 => Ok TableType.MODULE_HANDLES
  | 2 => Ok TableType.STRUCT_HANDLES
  | 3 => Ok TableType.FUNCTION_HANDLES
  | 4 => Ok TableType.FUNCTION_INST
  | 5 => Ok TableType.SIGNATURES
  | 6 => Ok TableType.CONSTANT_POOL
  | 7 => Ok TableType.IDENTIFIERS
  | 8 => Ok TableType.ADDRESS_IDENTIFIERS
  | 10 => Ok TableType.STRUCT_DEFS
  | 11 => Ok TableType.STRUCT_DEF_INST
  | 12 => Ok TableType.FUNCTION_DEFS
  | 13 => Ok TableType.FIELD_HANDLE
  | 14 => Ok TableType.FIELD_INST
  | 15 => Ok TableType.FRIEND_DECLS
  | _ => Err UNKNOWN_TABLE_TYPE
  end.

Lemma TableType_from_to_u8 (k : TableType) : TableType_from_u8 (TableType_to_u8 k) = Ok k.
Proof. by destruct k. Qed.

Module SerializedType.
Inductive SerializedType : Set :=
| BOOL
| U8
| U64
| U128
| ADDRESS
| REFERENCE
| MUTABLE_REFERENCE
| STRUCT
| TYPE_PARAMETER
| VECTOR
| STRUCT_INST
| SIGNER.
End SerializedType.
Notation SerializedType := SerializedType.SerializedType.

(** The [#[repr(u8)]] discriminants. *)
Definition SerializedType_to_u8 (self : SerializedType) : u8 :=
  match self with
  | SerializedType.BOOL => 1
  | SerializedType.U8 => 2
  | SerializedType.U64 => 3
  | SerializedType.U128 => 4
  | SerializedType.ADDRESS => 5
  | SerializedType.REFERENCE => 6
  | SerializedType.MUTABLE_REFERENCE => 7
  | SerializedType.STRUCT => 8
  | SerializedType.TYPE_PARAMETER => 9
  | SerializedType.VECTOR => 10
  | SerializedType.STRUCT_INST => 11
  | SerializedType.SIGNER => 12
  end.

(** [SerializedType::from_u8] of [deserializer.rs] *)
Definition SerializedType_from_u8 (value : u8) : result StatusCode SerializedType :=
  match value with
  | 1 => Ok SerializedType.BOOL
  | 2 => Ok SerializedType.U8
  | 3 => Ok SerializedType.U64
  | 4 => Ok SerializedType.U128
  | 5 => Ok SerializedType.ADDRESS
  | 6 => Ok SerializedType.REFERENCE
  | 7 => Ok SerializedType.MUTABLE_REFERENCE
  | 8 => Ok SerializedType.STRUCT
  | 9 => Ok SerializedType.TYPE_PARAMETER
  | 10 => Ok SerializedType.VECTOR
  | 11 => Ok SerializedType.STRUCT_INST
  | 12 => Ok SerializedType.SIGNER
  | _ => Err UNKNOWN_SERIALIZED_TYPE
  end.

Lemma SerializedType_from_to_u8 (k : SerializedType) : SerializedType_from_u8 (SerializedType_to_u8 k) = Ok k.
Proof. by destruct k. Qed.

Module SerializedNativeStructFlag.
Inductive SerializedNativeStructFlag : Set :=
| NATIVE
| DECLARED.
End SerializedNativeStructFlag.
Notation SerializedNativeStructFlag := SerializedNativeStructFlag.SerializedNativeStructFlag.

(** The [#[repr(u8)]] discriminants. *)
Definition SerializedNativeStructFlag_to_u8 (self : SerializedNativeStructFlag) : u8 :=
  match self with
  | SerializedNativeStructFlag.NATIVE => 1
  | SerializedNativeStructFlag.DECLARED => 2
  end.

(** [SerializedNativeStructFlag::from_u8] of [deserializer.rs] *)
Definition SerializedNativeStructFlag_from_u8 (value : u8) : result StatusCode SerializedNativeStructFlag :=
  match value with
  | 1 => Ok SerializedNativeStructFlag.NATIVE
  | 2 => Ok SerializedNativeStructFlag.DECLARED
  | _ => Err UNKNOWN_NATIVE_STRUCT_FLAG
  end.

Lemma SerializedNativeStructFlag_from_to_u8 (k : SerializedNativeStructFlag) : SerializedNativeStructFlag_from_u8 (SerializedNativeStructFlag_to_u8 k) = Ok k.
Proof. by destruct k. Qed.

Module Opcodes.
Inductive Opcodes : Set :=
| POP
| RET
| BR_TRUE
| BR_FALSE
| BRANCH
| LD_U64
| LD_CONST
| LD_TRUE
| LD_FALSE
| COPY_LOC
| MOVE_LOC
| ST_LOC
| MUT_BORROW_LOC
| IMM_BORROW_LOC
| MUT_BORROW_FIELD
| IMM_BORROW_FIELD
| CALL
| PACK
| UNPACK
| READ_REF
| WRITE_REF
| ADD
| SUB
| MUL
| MOD
| DIV
| BIT_OR
| BIT_AND
| XOR
| OR
| AND
| NOT
| EQ
| NEQ
| LT
| GT
| LE
| GE
| ABORT
| NOP
| EXISTS
| MUT_BORROW_GLOBAL
| IMM_BORROW_GLOBAL
| MOVE_FROM
| MOVE_TO
| FREEZE_REF
| SHL
| SHR
| LD_U8
| LD_U128
| CAST_U8
| CAST_U64
| CAST_U128
| MUT_BORROW_FIELD_GENERIC
| IMM_BORROW_FIELD_GENERIC
| CALL_GENERIC
| PACK_GENERIC
| UNPACK_GENERIC
| EXISTS_GENERIC
| MUT_BORROW_GLOBAL_GENERIC
| IMM_BORROW_GLOBAL_GENERIC
| MOVE_FROM_GENERIC
| MOVE_TO_GENERIC
| VEC_PACK
| VEC_LEN
| VEC_IMM_BORROW
| VEC_MUT_BORROW
| VEC_PUSH_BACK
| VEC_POP_BACK
| VEC_UNPACK
| VEC_SWAP.
End Opcodes.
Notation Opcodes := Opcodes.Opcodes.

(** The [#[repr(u8)]] discriminants. *)
Definition Opcodes_to_u8 (self : Opcodes) : u8 :=
  match self with
  | Opcodes.POP => 1
  | Opcodes.RET => 2
  | Opcodes.BR_TRUE => 3
  | Opcodes.BR_FALSE => 4
  | Opcodes.BRANCH => 5
  | Opcodes.LD_U64 => 6
  | Opcodes.LD_CONST => 7
  | Opcodes.LD_TRUE => 8
  | Opcodes.LD_FALSE => 9
  | Opcodes.COPY_LOC => 10
  | Opcodes.MOVE_LOC => 11
  | Opcodes.ST_LOC => 12
  | Opcodes.MUT_BORROW_LOC => 13
  | Opcodes.IMM_BORROW_LOC => 14
  | Opcodes.MUT_BORROW_FIELD => 15
  | Opcodes.IMM_BORROW_FIELD => 16
  | Opcodes.CALL => 17
  | Opcodes.PACK => 18
  | Opcodes.UNPACK => 19
  | Opcodes.READ_REF => 20
  | Opcodes.WRITE_REF => 21
  | Opcodes.ADD => 22
  | Opcodes.SUB => 23
  | Opcodes.MUL => 24
  | Opcodes.MOD => 25
  | Opcodes.DIV => 26
  | Opcodes.BIT_OR => 27
  | Opcodes.BIT_AND => 28
  | Opcodes.XOR => 29
  | Opcodes.OR => 30
  | Opcodes.AND => 31
  | Opcodes.NOT => 32
  | Opcodes.EQ => 33
  | Opcodes.NEQ => 34
  | Opcodes.LT => 35
  | Opcodes.GT => 36
  | Opcodes.LE => 37
  | Opcodes.GE => 38
  | Opcodes.ABORT => 39
  | Opcodes.NOP => 40
  | Opcodes.EXISTS => 41
  | Opcodes.MUT_BORROW_GLOBAL => 42
  | Opcodes.IMM_BORROW_GLOBAL => 43
  | Opcodes.MOVE_FROM => 44
  | Opcodes.MOVE_TO => 45
  | Opcodes.FREEZE_REF => 46
  | Opcodes.SHL => 47
  | Opcodes.SHR => 48
  | Opcodes.LD_U8 => 49
  | Opcodes.LD_U128 => 50
  | Opcodes.CAST_U8 => 51
  | Opcodes.CAST_U64 => 52
  | Opcodes.CAST_U128 => 53
  | Opcodes.MUT_BORROW_FIELD_GENERIC => 54
  | Opcodes.IMM_BORROW_FIELD_GENERIC => 55
  | Opcodes.CALL_GENERIC => 56
  | Opcodes.PACK_GENERIC => 57
  | Opcodes.UNPACK_GENERIC => 58
  | Opcodes.EXISTS_GENERIC => 59
  | Opcodes.MUT_BORROW_GLOBAL_GENERIC => 60
  | Opcodes.IMM_BORROW_GLOBAL_GENERIC => 61
  | Opcodes.MOVE_FROM_GENERIC => 62
  | Opcodes.MOVE_TO_GENERIC => 63
  | Opcodes.VEC_PACK => 64
  | Opcodes.VEC_LEN => 65
  | Opcodes.VEC_IMM_BORROW => 66
  | Opcodes.VEC_MUT_BORROW => 67
  | Opcodes.VEC_PUSH_BACK => 68
  | Opcodes.VEC_POP_BACK => 69
  | Opcodes.VEC_UNPACK => 70
  | Opcodes.VEC_SWAP => 71
  end.

(** [Opcodes::from_u8] of [deserializer.rs] *)
Definition Opcodes_from_u8 (value : u8) : result StatusCode Opcodes :=
  match value with
  | 1 => Ok Opcodes.POP
  | 2 => Ok Opcodes.RET
  | 3 => Ok Opcodes.BR_TRUE
  | 4 => Ok Opcodes.BR_FALSE
  | 5 => Ok Opcodes.BRANCH
  | 6 => Ok Opcodes.LD_U64
  | 7 => Ok Opcodes.LD_CONST
  | 8 => Ok Opcodes.LD_TRUE
  | 9 => Ok Opcodes.LD_FALSE
  | 10 => Ok Opcodes.COPY_LOC
  | 11 => Ok Opcodes.MOVE_LOC
  | 12 => Ok Opcodes.ST_LOC
  | 13 => Ok Opcodes.MUT_BORROW_LOC
  | 14 => Ok Opcodes.IMM_BORROW_LOC
  | 15 => Ok Opcodes.MUT_BORROW_FIELD
  | 16 => Ok Opcodes.IMM_BORROW_FIELD
  | 17 => Ok Opcodes.CALL
  | 18 => Ok Opcodes.PACK
  | 19 => Ok Opcodes.UNPACK
  | 20 => Ok Opcodes.READ_REF
  | 21 => Ok Opcodes.WRITE_REF
  | 22 => Ok Opcodes.ADD
  | 23 => Ok Opcodes.SUB
  | 24 => Ok Opcodes.MUL
  | 25 => Ok Opcodes.MOD
  | 26 => Ok Opcodes.DIV
  | 27 => Ok Opcodes.BIT_OR
  | 28 => Ok Opcodes.BIT_AND
  | 29 => Ok Opcodes.XOR
  | 30 => Ok Opcodes.OR
  | 31 => Ok Opcodes.AND
  | 32 => Ok Opcodes.NOT
  | 33 => Ok Opcodes.EQ
  | 34 => Ok Opcodes.NEQ
  | 35 => Ok Opcodes.LT
  | 36 => Ok Opcodes.GT
  | 37 => Ok Opcodes.LE
  | 38 => Ok Opcodes.GE
  | 39 => Ok Opcodes.ABORT
  | 40 => Ok Opcodes.NOP
  | 41 => Ok Opcodes.EXISTS
  | 42 => Ok Opcodes.MUT_BORROW_GLOBAL
  | 43 => Ok Opcodes.IMM_BORROW_GLOBAL
  | 44 => Ok Opcodes.MOVE_FROM
  | 45 => Ok Opcodes.MOVE_TO
  | 46 => Ok Opcodes.FREEZE_REF
  | 47 => Ok Opcodes.SHL
  | 48 => Ok Opcodes.SHR
  | 49 => Ok Opcodes.LD_U8
  | 50 => Ok Opcodes.LD_U128
  | 51 => Ok Opcodes.CAST_U8
  | 52 => Ok Opcodes.CAST_U64
  | 53 => Ok Opcodes.CAST_U128
  | 54 => Ok Opcodes.MUT_BORROW_FIELD_GENERIC
  | 55 => Ok Opcodes.IMM_BORROW_FIELD_GENERIC
  | 56 => Ok Opcodes.CALL_GENERIC
  | 57 => Ok Opcodes.PACK_GENERIC
  | 58 => Ok Opcodes.UNPACK_GENERIC
  | 59 => Ok Opcodes.EXISTS_GENERIC
  | 60 => Ok Opcodes.MUT_BORROW_GLOBAL_GENERIC
  | 61 => Ok Opcodes.IMM_BORROW_GLOBAL_GENERIC
  | 62 => Ok Opcodes.MOVE_FROM_GENERIC
  | 63 => Ok Opcodes.MOVE_TO_GENERIC
  | 64 => Ok Opcodes.VEC_PACK
  | 65 => Ok Opcodes.VEC_LEN
  | 66 => Ok Opcodes.VEC_IMM_BORROW
  | 67 => Ok Opcodes.VEC_MUT_BORROW
  | 68 => Ok Opcodes.VEC_PUSH_BACK
  | 69 => Ok Opcodes.VEC_POP_BACK
  | 70 => Ok Opcodes.VEC_UNPACK
  | 71 => Ok Opcodes.VEC_SWAP
  | _ => Err UNKNOWN_OPCODE
  end.

Lemma Opcodes_from_to_u8 (k : Opcodes) : Opcodes_from_u8 (Opcodes_to_u8 k) = Ok k.
Proof. by destruct k. Qed.


(** [instruction_key] *)
Definition instruction_key (instruction : Bytecode) : u8 :=
  Opcodes_to_u8
    match instruction with
    | Bytecode.Pop => Opcodes.POP
    | Bytecode.Ret => Opcodes.RET
    | Bytecode.BrTrue _ => Opcodes.BR_TRUE
    | Bytecode.BrFalse _ => Opcodes.BR_FALSE
    | Bytecode.Branch _ => Opcodes.BRANCH
    | Bytecode.LdU8 _ => Opcodes.LD_U8
    | Bytecode.LdU64 _ => Opcodes.LD_U64
    | Bytecode.LdU128 _ => Opcodes.LD_U128
    | Bytecode.CastU8 => Opcodes.CAST_U8
    | Bytecode.CastU64 => Opcodes.CAST_U64
    | Bytecode.CastU128 => Opcodes.CAST_U128
    | Bytecode.LdConst _ => Opcodes.LD_CONST
    | Bytecode.LdTrue => Opcodes.LD_TRUE
    | Bytecode.LdFalse => Opcodes.LD_FALSE
    | Bytecode.CopyLoc _ => Opcodes.COPY_LOC
    | Bytecode.MoveLoc _ => Opcodes.MOVE_LOC
    | Bytecode.StLoc _ => Opcodes.ST_LOC
    | Bytecode.Call _ => Opcodes.CALL
    | Bytecode.CallGeneric _ => Opcodes.CALL_GENERIC
    | Bytecode.Pack _ => Opcodes.PACK
    | Bytecode.PackGeneric _ => Opcodes.PACK_GENERIC
    | Bytecode.Unpack _ => Opcodes.UNPACK
    | Bytecode.UnpackGeneric _ => Opcodes.UNPACK_GENERIC
    | Bytecode.ReadRef => Opcodes.READ_REF
    | Bytecode.WriteRef => Opcodes.WRITE_REF
    | Bytecode.FreezeRef => Opcodes.FREEZE_REF
    | Bytecode.MutBorrowLoc _ => Opcodes.MUT_BORROW_LOC
    | Bytecode.ImmBorrowLoc _ => Opcodes.IMM_BORROW_LOC
    | Bytecode.MutBorrowField _ => Opcodes.MUT_BORROW_FIELD
    | Bytecode.MutBorrowFieldGeneric _ => Opcodes.MUT_BORROW_FIELD_GENERIC
    | Bytecode.ImmBorrowField _ => Opcodes.IMM_BORROW_FIELD
    | Bytecode.ImmBorrowFieldGeneric _ => Opcodes.IMM_BORROW_FIELD_GENERIC
    | Bytecode.MutBorrowGlobal _ => Opcodes.MUT_BORROW_GLOBAL
    | Bytecode.MutBorrowGlobalGeneric _ => Opcodes.MUT_BORROW_GLOBAL_GENERIC
    | Bytecode.ImmBorrowGlobal _ => Opcodes.IMM_BORROW_GLOBAL
    | Bytecode.ImmBorrowGlobalGeneric _ => Opcodes.IMM_BORROW_GLOBAL_GENERIC
    | Bytecode.Add => Opcodes.ADD
    | Bytecode.Sub => Opcodes.SUB
    | Bytecode.Mul => Opcodes.MUL
    | Bytecode.Mod => Opcodes.MOD
    | Bytecode.Div => Opcodes.DIV
    | Bytecode.BitOr => Opcodes.BIT_OR
    | Bytecode.BitAnd => Opcodes.BIT_AND
    | Bytecode.Xor => Opcodes.XOR
    | Bytecode.Shl => Opcodes.SHL
    | Bytecode.Shr => Opcodes.SHR
    | Bytecode.Or => Opcodes.OR
    | Bytecode.And => Opcodes.AND
    | Bytecode.Not => Opcodes.NOT
    | Bytecode.Eq => Opcodes.EQ
    | Bytecode.Neq => Opcodes.NEQ
    | Bytecode.Lt => Opcodes.LT
    | Bytecode.Gt => Opcodes.GT
    | Bytecode.Le => Opcodes.LE
    | Bytecode.Ge => Opcodes.GE
    | Bytecode.Abort => Opcodes.ABORT
    | Bytecode.Nop => Opcodes.NOP
    | Bytecode.Exists _ => Opcodes.EXISTS
    | Bytecode.ExistsGeneric _ => Opcodes.EXISTS_GENERIC
    | Bytecode.MoveFrom _ => Opcodes.MOVE_FROM
    | Bytecode.MoveFromGeneric _ => Opcodes.MOVE_FROM_GENERIC
    | Bytecode.MoveTo _ => Opcodes.MOVE_TO
    | Bytecode.MoveToGeneric _ => Opcodes.MOVE_TO_GENERIC
    | Bytecode.VecPack _ _ => Opcodes.VEC_PACK
    | Bytecode.VecLen _ => Opcodes.VEC_LEN
    | Bytecode.VecImmBorrow _ => Opcodes.VEC_IMM_BORROW
    | Bytecode.VecMutBorrow _ => Opcodes.VEC_MUT_BORROW
    | Bytecode.VecPushBack _ => Opcodes.VEC_PUSH_BACK
    | Bytecode.VecPopBack _ => Opcodes.VEC_POP_BACK
    | Bytecode.VecUnpack _ _ => Opcodes.VEC_UNPACK
    | Bytecode.VecSwap _ => Opcodes.VEC_SWAP
    end.


(** ** [BinaryData]

    The output buffer; [bail!] returns an [anyhow] error, of which the model
    keeps the reason. *)

Inductive AnyhowError : Set :=
| BinarySizeLimit
| UnexpectedEof
| InvalidUleb
| ValueExceedsMax (x max : N)
| MaxRecursionDepth
| CompilationUnitTooBig (index : N)
| TableContentTooBig (size : N).

Definition BinaryData : Set := list u8.
Definition Write : Set := result AnyhowError BinaryData.

(** [BinaryData::push] *)
Definition push (self : BinaryData) (item : u8) : Write :=
  match checked_add usize_MAX (len self) 1 with
  | Some _ => Ok (self ++ [item])
  | None => Err BinarySizeLimit
  end.

(** [BinaryData::extend] *)
Definition extend (self : BinaryData) (vec : list u8) : Write :=
  match checked_add usize_MAX (len self) (len vec) with
  | Some _ => Ok (self ++ vec)
  | None => Err BinarySizeLimit
  end.

(** [for byte in bytes { binary.push(byte)?; }] *)
Definition push_all (self : BinaryData) (bytes : list u8) : Write := try_fold push bytes self.

(** ** Little-endian integers *)

(** [value.to_le_bytes()] of an [n]-byte integer *)
Fixpoint to_le_bytes (n : nat) (value : N) : list u8 :=
  match n with
  | O => []
  | S n => wrap 8 value :: to_le_bytes n (N.shiftr value 8)
  end.

(** [from_le_bytes] *)
Fixpoint from_le_bytes (bytes : list u8) : N :=
  match bytes with
  | [] => 0
  | b :: bytes => N.lor b (N.shiftl (from_le_bytes bytes) 8)
  end.

Definition write_u16 (binary : BinaryData) (value : u16) : Write :=
  extend binary (to_le_bytes 2 value).
Definition write_u32 (binary : BinaryData) (value : u32) : Write :=
  extend binary (to_le_bytes 4 value).
Definition write_u64 (binary : BinaryData) (value : u64) : Write :=
  extend binary (to_le_bytes 8 value).
Definition write_u128 (binary : BinaryData) (value : u128) : Write :=
  extend binary (to_le_bytes 16 value).

(** [write_u64_as_uleb128]: seven bits leave [val] in each round of the loop,
    so ten rounds are enough for a [u64]. *)
Fixpoint write_uleb_loop (fuel : nat) (binary : BinaryData) (val : u64) : Write :=
  match fuel with
  | O => OutOfFuel
  | S fuel =>
      let cur := N.land val 127 in
      if negb (cur =? val) then
        binary ← push binary (wrap 8 (N.lor cur 128));
        write_uleb_loop fuel binary (N.shiftr val 7)
      else push binary (wrap 8 cur)
  end.
Definition write_u64_as_uleb128 (binary : BinaryData) (val : u64) : Write :=
  write_uleb_loop 10 binary val.

(** ** [Cursor] *)

Record Cursor : Set := { cur_inner : list u8; cur_pos : u64 }.

Definition Cursor_new (inner : list u8) : Cursor := {| cur_inner := inner; cur_pos := 0 |}.

(** [Cursor::fill_buf]: what is left to read. *)
Definition fill_buf (self : Cursor) : list u8 :=
  drop (N.to_nat (N.min (cur_pos self) (len (cur_inner self)))) (cur_inner self).

Definition seek (self : Cursor) (n : N) : Cursor :=
  {| cur_inner := cur_inner self; cur_pos := cur_pos self + n |}.

(** [Cursor::read] into a buffer of [n] zeros: the number of bytes read, the
    buffer afterwards and the advanced cursor.  It never fails. *)
Definition cursor_read (self : Cursor) (n : N) : (N * list u8) * Cursor :=
  let source := fill_buf self in
  let amt := N.min n (len source) in
  ((amt, take (N.to_nat amt) source ++ replicate (N.to_nat (n - amt)) 0), seek self amt).

(** [Cursor::read_exact] into a buffer of [n] bytes *)
Definition cursor_read_exact (self : Cursor) (n : N)
  : result AnyhowError (list u8 * Cursor) :=
  let source := fill_buf self in
  if len source <? n then Err UnexpectedEof
  else Ok (take (N.to_nat n) source, seek self n).

Definition read_u8 (cursor : Cursor) : result AnyhowError (u8 * Cursor) :=
  '(buf, cursor) ← cursor_read_exact cursor 1;
  b ← unwrap (at_ buf 0);
  Ok (b, cursor).

Definition read_u32 (cursor : Cursor) : result AnyhowError (u32 * Cursor) :=
  '(buf, cursor) ← cursor_read_exact cursor 4;
  Ok (from_le_bytes buf, cursor).

(** [x << shift] on a [u64]: a shift of the width or more panics. *)
Definition shl64 {E} (x shift : N) : result E N :=
  if shift <? 64 then Ok (wrap 64 (N.shiftl x shift)) else Panic.

(** [read_uleb128_as_u64]: [shift] grows by seven from zero and the loop stops
    when it passes 64, so ten rounds are enough. *)
Fixpoint read_uleb_loop (fuel : nat) (cursor : Cursor) (value shift : N)
  : result AnyhowError (u64 * Cursor) :=
  match fuel with
  | O => OutOfFuel
  | S fuel =>
      match read_u8 cursor with
      | Ok (byte, cursor) =>
          let cur := N.land byte 127 in
          shifted ← shl64 cur shift;
          if negb (N.shiftr shifted shift =? cur) then Err InvalidUleb else
          let value := N.lor value shifted in
          if N.land byte 128 =? 0 then
            if (0 <? shift) && (cur =? 0) then Err InvalidUleb else Ok (value, cursor)
          else
            let shift := shift + 7 in
            if 64 <? shift then Err InvalidUleb
            else read_uleb_loop fuel cursor value shift
      | Err _ => Err InvalidUleb
      | Panic => Panic
      | OutOfFuel => OutOfFuel
      end
  end.
Definition read_uleb128_as_u64 (cursor : Cursor) : result AnyhowError (u64 * Cursor) :=
  read_uleb_loop 11 cursor 0 0.

(** ** Versioned data *)

Record VersionedBinary : Set := { vb_version : u32; vb_binary : list u8 }.
Record VersionedCursor : Set := { vc_version : u32; vc_cursor : Cursor }.

(** [VersionedBinary::new] *)
Definition VersionedBinary_new (binary : list u8)
  : result StatusCode (VersionedBinary * Cursor) :=
  let '((count, magic), cursor) := cursor_read (Cursor_new binary) DIEM_MAGIC_SIZE in
  if negb (count =? DIEM_MAGIC_SIZE) || negb (bool_decide (magic = DIEM_MAGIC))
  then Err BAD_MAGIC else
  '(version, cursor) ← map_err (λ _, MALFORMED) (read_u32 cursor);
  if (version =? 0) || (VERSION_MAX <? version) then Err UNKNOWN_VERSION else
  Ok ({| vb_version := version; vb_binary := binary |}, cursor).

(** [&binary[start..end]]: out of range panics. *)
Definition slice_range {E} (binary : list u8) (start end_ : N) : result E (list u8) :=
  if (start <=? end_) && (end_ <=? len binary)
  then Ok (take (N.to_nat (end_ - start)) (drop (N.to_nat start) binary))
  else Panic.

(** [VersionedBinary::new_cursor] and [VersionedBinary::slice] *)
Definition new_cursor {E} (self : VersionedBinary) (start end_ : N)
  : result E VersionedCursor :=
  b ← slice_range (vb_binary self) start end_;
  Ok {| vc_version := vb_version self; vc_cursor := Cursor_new b |}.
Definition vb_slice {E} (self : VersionedBinary) (start end_ : N) : result E (list u8) :=
  slice_range (vb_binary self) start end_.

(** [VersionedCursor::new] *)
Definition VersionedCursor_new (binary : list u8) : result StatusCode VersionedCursor :=
  '(binary, cursor) ← VersionedBinary_new binary;
  Ok {| vc_version := vb_version binary; vc_cursor := cursor |}.

(** [VersionedCursor::position] *)
Definition position (self : VersionedCursor) : u64 := cur_pos (vc_cursor self).
