(* ===== verification/Uleb.v ===== *)
(** * Uleb: cursors and the ULEB128 codec

    What reading from a cursor consumes, and the theory of the integer codecs
    of [file_format_common.rs]: ULEB128 and little-endian words round-trip, and
    the reader accepts the canonical ULEB128 encoding only. *)

From S2P Require Import Prelude CoreTypes VmStatus Abilities FileFormat BinaryCommon.

(** ** Bit arithmetic *)

(** Linear arithmetic with the powers of two of the codecs evaluated. *)
Ltac pow_lia :=
  change (2 ^ 7) with 128 in *; change (2 ^ 8) with 256 in *;
  change (2 ^ 64) with 18446744073709551616 in *; lia.

Lemma land_low v n : N.land v (N.ones n) = v mod 2 ^ n.
Proof. apply N.land_ones. Qed.

Lemma lor_add a b s : a < 2 ^ s → N.lor a (N.shiftl b s) = a + b * 2 ^ s.
Proof.
  intros Ha. assert (N.land a (N.shiftl b s) = 0) as E.
  { apply N.bits_inj. intros i. rewrite N.land_spec, N.bits_0.
    destruct (N.lt_ge_cases i s) as [Hi|Hi].
    - by rewrite N.shiftl_spec_low, andb_false_r.
    - rewrite <- (N.mod_small a (2 ^ s)) by done.
      by rewrite N.mod_pow2_bits_high. }
  rewrite <- N.lxor_lor, <- N.add_nocarry_lxor by done.
  by rewrite N.shiftl_mul_pow2.
Qed.

Lemma pow2_pos n : 0 < 2 ^ n.
Proof. apply N.neq_0_lt_0, N.pow_nonzero. lia. Qed.

(** One round of the codec leaves seven bits less. *)
Lemma div128_lt n v : v < 2 ^ (7 * N.of_nat (S n)) → v / 128 < 2 ^ (7 * N.of_nat n).
Proof.
  intros Hv. apply N.Div0.div_lt_upper_bound. change 128 with (2 ^ 7).
  rewrite <- N.pow_add_r. eapply N.lt_le_trans; [exact Hv|].
  apply N.pow_le_mono_r; lia.
Qed.

(** ** What a read consumes *)

(** [c'] is [c] after reading the bytes [bs]. *)
Definition consumes (c : Cursor) (bs : list u8) (c' : Cursor) : Prop :=
  c' = seek c (len bs) ∧ fill_buf c = bs ++ fill_buf c'.

Lemma fill_buf_seek c n : n <= len (fill_buf c) → fill_buf (seek c n) = drop (N.to_nat n) (fill_buf c).
Proof.
  unfold fill_buf, len. rewrite length_drop. simpl. intros Hn.
  rewrite drop_drop. f_equal. lia.
Qed.

Lemma consumes_intro c bs tl : fill_buf c = bs ++ tl → consumes c bs (seek c (len bs)).
Proof.
  intros E. split; [done|]. rewrite fill_buf_seek by (rewrite E; len_lia).
  by rewrite E, len_to_nat, drop_app_length.
Qed.

Lemma consumes_rest c bs tl c' : fill_buf c = bs ++ tl → consumes c bs c' → fill_buf c' = tl.
Proof. intros E [_ E']. rewrite E in E'. by apply app_inv_head in E'. Qed.

Lemma seek_seek c n m : seek (seek c n) m = seek c (n + m).
Proof. unfold seek. simpl. f_equal. lia. Qed.

Lemma consumes_nil c : consumes c [] c.
Proof. split; [|done]. destruct c. unfold seek. simpl. f_equal. unfold len. simpl. lia. Qed.

Lemma consumes_trans c1 bs1 c2 bs2 c3 :
  consumes c1 bs1 c2 → consumes c2 bs2 c3 → consumes c1 (bs1 ++ bs2) c3.
Proof.
  intros [-> E1] [-> E2]. split.
  - by rewrite seek_seek, len_app.
  - by rewrite E1, E2, app_assoc.
Qed.

(** ** Primitive reads *)

Lemma cursor_read_exact_Ok c n bs c' :
  cursor_read_exact c n = Ok (bs, c') → consumes c bs c' ∧ len bs = n.
Proof.
  unfold cursor_read_exact. destruct (N.ltb_spec (len (fill_buf c)) n); [done|].
  intros [= <- <-].
  assert (len (take (N.to_nat n) (fill_buf c)) = n) as Hl
    by (unfold len in *; rewrite length_take; lia).
  split; [|done]. rewrite <- Hl at 2.
  eapply consumes_intro. symmetry. apply take_drop.
Qed.

Lemma cursor_read_exact_total c n : no_panic (cursor_read_exact c n).
Proof. unfold cursor_read_exact. by destruct (_ <? _). Qed.

Lemma cursor_read_exact_app c bs tl :
  fill_buf c = bs ++ tl → cursor_read_exact c (len bs) = Ok (bs, seek c (len bs)).
Proof.
  intros E. unfold cursor_read_exact. rewrite E, len_app.
  destruct (N.ltb_spec (len bs + len tl) (len bs)); [lia|].
  by rewrite len_to_nat, take_app_length.
Qed.

Lemma read_u8_cons c b tl : fill_buf c = b :: tl → read_u8 c = Ok (b, seek c 1).
Proof.
  intros E. unfold read_u8. change 1 with (len [b]) at 1.
  by erewrite cursor_read_exact_app by exact E.
Qed.
Lemma read_u8_nil c : fill_buf c = [] → read_u8 c = Err UnexpectedEof.
Proof. intros E. unfold read_u8, cursor_read_exact. by rewrite E. Qed.
Lemma read_u8_Ok c b c' : read_u8 c = Ok (b, c') → consumes c [b] c'.
Proof.
  destruct (fill_buf c) as [|x tl] eqn:E.
  - by rewrite read_u8_nil.
  - erewrite read_u8_cons by done. intros [= <- <-].
    by apply (consumes_intro c [x] tl).
Qed.
Lemma read_u8_total c : no_panic (read_u8 c).
Proof.
  destruct (fill_buf c) as [|x tl] eqn:E.
  - by rewrite read_u8_nil.
  - by erewrite read_u8_cons.
Qed.

(** ** Pushing bytes *)

Lemma push_Ok b x b' : push b x = Ok b' → b' = b ++ [x].
Proof. unfold push. destruct (checked_add _ _ _); congruence. Qed.
Lemma extend_Ok b l b' : extend b l = Ok b' → b' = b ++ l.
Proof. unfold extend. destruct (checked_add _ _ _); congruence. Qed.
Lemma push_all_Ok l b b' : push_all b l = Ok b' → b' = b ++ l.
Proof.
  unfold push_all. revert b; induction l as [|x l IH]; intros b; cbn [try_fold].
  - intros [= <-]. by rewrite app_nil_r.
  - intros (a & ->%push_Ok & H)%bind_Ok. rewrite (IH _ H). by rewrite <- app_assoc.
Qed.

(** Enough room: the buffer stays within [usize]. *)
Lemma push_room b x : len b + 1 <= usize_MAX → push b x = Ok (b ++ [x]).
Proof. unfold push, checked_add. intros ?. by destruct (N.leb_spec (len b + 1) usize_MAX); [|lia]. Qed.
Lemma extend_room b l : len b + len l <= usize_MAX → extend b l = Ok (b ++ l).
Proof. unfold extend, checked_add. intros ?. by destruct (N.leb_spec (len b + len l) usize_MAX); [|lia]. Qed.
Lemma push_all_room l b : len b + len l <= usize_MAX → push_all b l = Ok (b ++ l).
Proof.
  unfold push_all. revert b; induction l as [|x l IH]; intros b Hb; cbn [try_fold].
  - by rewrite app_nil_r.
  - rewrite push_room by len_lia. simpl. rewrite IH by len_lia. by rewrite <- app_assoc.
Qed.

(** ** Little-endian words *)

Lemma to_le_bytes_length n v : length (to_le_bytes n v) = n.
Proof. revert v; induction n; intros v; simpl; auto. Qed.

Lemma to_le_bytes_ok n v : bytes_ok (to_le_bytes n v).
Proof.
  revert v; induction n as [|n IH]; intros v; [constructor|]. cbn [to_le_bytes].
  constructor; [unfold wrap; by apply N.mod_lt|apply IH].
Qed.

Lemma from_to_le_bytes n v : v < 2 ^ (8 * N.of_nat n) → from_le_bytes (to_le_bytes n v) = v.
Proof.
  revert v; induction n as [|n IH]; intros v Hv.
  - simpl in *. lia.
  - cbn [to_le_bytes from_le_bytes]. rewrite IH.
    + unfold wrap. rewrite lor_add by (apply N.mod_lt; lia).
      rewrite N.shiftr_div_pow2. pose proof (N.div_mod v (2 ^ 8)). lia.
    + rewrite N.shiftr_div_pow2. apply N.Div0.div_lt_upper_bound.
      rewrite <- N.pow_add_r. eapply N.lt_le_trans; [exact Hv|].
      apply N.pow_le_mono_r; lia.
Qed.

(** ** ULEB128 *)

(** The canonical encoding. *)
Fixpoint uleb (n : nat) (v : N) : list u8 :=
  match n with
  | O => []
  | S n => if v <? 128 then [v] else (128 + v mod 128) :: uleb n (v / 128)
  end.
Definition uleb_bytes (v : u64) : list u8 := uleb 10 v.

Lemma write_uleb_loop_uleb n b v :
  v < 2 ^ (7 * N.of_nat n) → (0 < n)%nat →
  write_uleb_loop n b v = push_all b (uleb n v).
Proof.
  revert b v; induction n as [|n IH]; intros b v Hv Hn; [lia|].
  cbn [write_uleb_loop uleb]. change 127 with (N.ones 7). rewrite land_low.
  destruct (N.ltb_spec v 128) as [Hlt|Hge].
  - rewrite (N.mod_small v (2 ^ 7)) by pow_lia. rewrite N.eqb_refl. cbn [negb]. unfold wrap.
    rewrite N.mod_small by pow_lia. unfold push_all. cbn [try_fold]. by destruct (push b v).
  - change (2 ^ 7) with 128 in *. pose proof (N.mod_lt v 128 ltac:(done)).
    destruct (N.eqb_spec (v mod 128) v); [lia|]. simpl negb. cbn match.
    assert (wrap 8 (N.lor (v mod 128) 128) = 128 + v mod 128) as ->.
    { change 128 with (N.shiftl 1 7) at 2. rewrite lor_add by pow_lia.
      unfold wrap. rewrite N.mod_small; pow_lia. }
    unfold push_all. cbn [try_fold]. rewrite N.shiftr_div_pow2.
    destruct (push b _) as [b'| | |]; [|done..]. simpl.
    destruct n as [|n].
    { change (2 ^ (7 * N.of_nat 1)) with 128 in Hv. lia. }
    apply IH; [by apply div128_lt|lia].
Qed.

Lemma write_uleb_bytes b v : v <= u64_MAX → write_u64_as_uleb128 b v = push_all b (uleb_bytes v).
Proof.
  intros Hv. apply write_uleb_loop_uleb; [|lia].
  eapply N.le_lt_trans; [exact Hv|]. done.
Qed.

Lemma uleb_length n v : (0 < n)%nat → (1 <= length (uleb n v) <= n)%nat.
Proof.
  revert v; induction n as [|n IH]; intros v Hn; [lia|]. cbn [uleb].
  destruct (v <? 128); simpl; [lia|]. destruct n; [simpl; lia|].
  specialize (IH (v / 128)). lia.
Qed.
Lemma uleb_bytes_length v : 1 <= len (uleb_bytes v) <= 10.
Proof. unfold len, uleb_bytes. pose proof (uleb_length 10 v). lia. Qed.

Lemma uleb_ok n v : bytes_ok (uleb n v).
Proof.
  revert v; induction n as [|n IH]; intros v; cbn [uleb]; [constructor|].
  destruct (N.ltb_spec v 128); (constructor; [simpl|try apply IH; try constructor]).
  - lia.
  - pose proof (N.mod_lt v 128). lia.
Qed.

(** One round of the reader on a byte whose low seven bits are [cur]. *)
Lemma shl64_small {E} cur shift :
  cur < 128 → shift < 64 →
  shl64 (E := E) cur shift = Ok (wrap 64 (N.shiftl cur shift)) ∧
  (N.shiftr (wrap 64 (N.shiftl cur shift)) shift = cur ↔ cur * 2 ^ shift < 2 ^ 64).
Proof.
  intros Hc Hs. unfold shl64. rewrite (proj2 (N.ltb_lt _ _) Hs). split; [done|].
  unfold wrap. rewrite N.shiftl_mul_pow2, N.shiftr_div_pow2.
  pose proof (pow2_pos shift). split.
  - intros E'. rewrite <- E'. rewrite N.mul_comm.
    eapply N.le_lt_trans; [apply N.Div0.mul_div_le|]. by apply N.mod_lt.
  - intros Hlt. rewrite N.mod_small by done. apply N.div_mul. lia.
Qed.

Lemma read_uleb_loop_uleb n c tl v value shift rf :
  fill_buf c = uleb n v ++ tl →
  v < 2 ^ (7 * N.of_nat n) → (0 < n)%nat → (n <= rf)%nat →
  value < 2 ^ shift → v * 2 ^ shift < 2 ^ 64 → shift < 64 → (0 < shift → 0 < v) →
  read_uleb_loop rf c value shift = Ok (value + v * 2 ^ shift, seek c (len (uleb n v))).
Proof.
  revert c v value shift rf; induction n as [|n IH];
    intros c v value shift rf Hc Hv Hn Hrf Hval Hfit Hs Hpos; [lia|].
  destruct rf as [|rf]; [lia|]. cbn [read_uleb_loop uleb] in *.
  destruct (N.ltb_spec v 128) as [Hlt|Hge].
  - erewrite read_u8_cons by exact Hc. cbn match.
    change 127 with (N.ones 7). rewrite land_low, N.mod_small by done.
    destruct (shl64_small (E := AnyhowError) v shift Hlt Hs) as [-> Hsh]. simpl.
    rewrite (proj2 Hsh) by done. rewrite N.eqb_refl. simpl.
    assert (N.land v 128 = 0) as ->.
    { change 128 with (N.shiftl 1 7). rewrite N.land_comm.
      apply N.bits_inj. intros i. rewrite N.land_spec, N.bits_0.
      destruct (N.lt_ge_cases i 7) as [Hi|Hi]; [by rewrite N.shiftl_spec_low|].
      rewrite <- (N.mod_small v (2 ^ 7)) by done.
      by rewrite N.mod_pow2_bits_high, andb_false_r. }
    simpl. destruct (N.ltb_spec 0 shift), (N.eqb_spec v 0); simpl;
      try (exfalso; lia); unfold wrap;
      rewrite N.mod_small by (rewrite N.shiftl_mul_pow2; lia);
      by rewrite lor_add.
  - erewrite read_u8_cons by exact Hc. cbn match.
    pose proof (N.mod_lt v 128 ltac:(done)) as Hm.
    assert (N.land (128 + v mod 128) 127 = v mod 128) as ->.
    { change 127 with (N.ones 7). rewrite land_low.
      change (2 ^ 7) with 128. rewrite <- (N.mul_1_l 128) at 1.
      rewrite N.add_comm, N.Div0.mod_add. by apply N.mod_small. }
    destruct (shl64_small (E := AnyhowError) (v mod 128) shift Hm Hs) as [-> Hsh]. simpl.
    pose proof (N.Div0.mod_le v 128) as Hmle. pose proof (pow2_pos shift) as Hp.
    rewrite (proj2 Hsh) by (eapply N.le_lt_trans; [|exact Hfit]; apply N.mul_le_mono_r; lia).
    rewrite N.eqb_refl. simpl.
    assert (N.land (128 + v mod 128) 128 = 128) as ->.
    { rewrite N.add_comm. rewrite <- (N.mul_1_l 128) at 2.
      change 128 with (2 ^ 7) at 2. rewrite <- lor_add by done.
      rewrite N.land_comm. change 128 with (N.shiftl 1 7) at 1.
      apply N.bits_inj. intros i. rewrite N.land_spec, N.lor_spec.
      change (N.testbit 128 i) with (N.testbit (N.shiftl 1 7) i).
      by destruct (N.testbit (N.shiftl 1 7) i), (N.testbit (v mod 128) i). }
    simpl.
    pose proof (N.div_mod v 128 ltac:(done)) as Hdm.
    assert (1 <= v / 128) as Hq by (apply N.div_le_lower_bound; lia).
    assert (2 ^ (shift + 7) < 2 ^ 64) as Hs7.
    { eapply N.le_lt_trans; [|exact Hfit]. rewrite N.pow_add_r, N.mul_comm.
      apply N.mul_le_mono_r. change (2 ^ 7) with 128. lia. }
    apply N.pow_lt_mono_r_iff in Hs7; [|lia].
    destruct (N.ltb_spec 64 (shift + 7)); [lia|].
    assert (0 < n)%nat as Hn'.
    { destruct n; [|lia]. change (2 ^ (7 * N.of_nat 1)) with 128 in Hv. lia. }
    unfold wrap. rewrite N.mod_small.
    2:{ rewrite N.shiftl_mul_pow2. eapply N.le_lt_trans; [|exact Hfit].
        apply N.mul_le_mono_r. lia. }
    rewrite lor_add by done.
    rewrite (IH _ (v / 128)); try lia.
    + rewrite seek_seek, len_cons. do 2 f_equal.
      rewrite N.pow_add_r. change (2 ^ 7) with 128.
      rewrite Hdm at 3. lia.
    + rewrite fill_buf_seek by (rewrite Hc; len_lia). by rewrite Hc.
    + by apply div128_lt.
    + rewrite N.pow_add_r. change (2 ^ 7) with 128.
      assert (v mod 128 * 2 ^ shift <= 127 * 2 ^ shift) by (apply N.mul_le_mono_r; lia). lia.
    + rewrite N.pow_add_r. change (2 ^ 7) with 128.
      eapply N.le_lt_trans; [|exact Hfit].
      rewrite (N.mul_comm (2 ^ shift)), N.mul_assoc. apply N.mul_le_mono_r. lia.
Qed.

Lemma read_uleb_bytes c v tl :
  v <= u64_MAX → fill_buf c = uleb_bytes v ++ tl →
  read_uleb128_as_u64 c = Ok (v, seek c (len (uleb_bytes v))).
Proof.
  intros Hv Hc. unfold read_uleb128_as_u64.
  rewrite (read_uleb_loop_uleb 10 c tl v 0 0); try lia; try done.
  - do 2 f_equal. lia.
  - eapply N.le_lt_trans; [exact Hv|]. done.
  - rewrite N.mul_1_r. unfold u64_MAX in Hv. simpl in *. lia.
Qed.

(** What the reader accepts is a canonical encoding. *)
Lemma read_uleb_loop_canonical rf c value shift r c' :
  bytes_ok (fill_buf c) → value < 2 ^ shift →
  read_uleb_loop rf c value shift = Ok (r, c') →
  ∃ v n, r = value + v * 2 ^ shift ∧ r < 2 ^ 64 ∧ (0 < shift → 0 < v) ∧
    (n <= rf)%nat ∧ (0 < n)%nat ∧ v < 2 ^ (7 * N.of_nat n) ∧
    consumes c (uleb n v) c'.
Proof.
  revert c value shift; induction rf as [|rf IH]; intros c value shift Hb Hval; [done|].
  cbn [read_uleb_loop].
  destruct (read_u8 c) as [[byte c1]| | |] eqn:Hr; [|done..].
  pose proof (read_u8_Ok _ _ _ Hr) as Hcons.
  assert (byte < 256) as Hbyte.
  { destruct Hcons as [_ E]. rewrite E in Hb. by inversion Hb. }
  assert (bytes_ok (fill_buf c1)) as Hb1.
  { destruct Hcons as [_ E]. rewrite E in Hb. by inversion Hb. }
  remember (N.land byte 127) as cur eqn:Ecur.
  change 127 with (N.ones 7) in Ecur. rewrite land_low in Ecur. change (2 ^ 7) with 128 in Ecur.
  assert (cur < 128) as Hcur by (rewrite Ecur; by apply N.mod_lt).
  destruct (N.lt_ge_cases shift 64) as [Hs|Hs].
  2:{ unfold shl64. by destruct (N.ltb_spec shift 64); [lia|]. }
  destruct (shl64_small (E := AnyhowError) cur shift Hcur Hs) as [-> Hsh]. simpl.
  destruct (N.eqb_spec (N.shiftr (wrap 64 (N.shiftl cur shift)) shift) cur) as [E|]; [|done].
  simpl. apply Hsh in E as Hfit.
  unfold wrap. rewrite N.mod_small by (by rewrite N.shiftl_mul_pow2).
  rewrite lor_add by done.
  assert (value + cur * 2 ^ shift < 2 ^ 64 ∧ value + cur * 2 ^ shift < 2 ^ (shift + 7)) as [Hlt64 Hlt7].
  { pose proof (pow2_pos shift). rewrite N.pow_add_r. change (2 ^ 7) with 128.
    assert (cur * 2 ^ shift <= 127 * 2 ^ shift) by (apply N.mul_le_mono_r; lia).
    split; [|lia]. replace (2 ^ 64) with (2 ^ shift * 2 ^ (64 - shift)) in *
      by (rewrite <- N.pow_add_r; f_equal; lia).
    rewrite (N.mul_comm (2 ^ shift)) in *.
    apply N.mul_lt_mono_pos_r in Hfit; [|done].
    eapply N.lt_le_trans; [|apply N.mul_le_mono_r, N.le_succ_l, Hfit]. lia. }
  destruct (N.eqb_spec (N.land byte 128) 0) as [Hlast|Hmore].
  - assert (byte = cur) as ->.
    { rewrite Ecur. symmetry. apply N.mod_small.
      destruct (N.lt_ge_cases byte 128) as [|Hge]; [done|exfalso].
      apply (f_equal (λ x, N.testbit x 7)) in Hlast.
      rewrite N.land_spec in Hlast. change (N.testbit 128 7) with true in Hlast.
      rewrite andb_true_r, N.bits_0 in Hlast. apply N.testbit_false in Hlast.
      change (2 ^ 7) with 128 in Hlast.
      assert (byte / 128 = 1) as E1 by (symmetry; apply (N.div_unique _ _ _ (byte - 128)); lia).
      by rewrite E1 in Hlast. }
    destruct (N.ltb_spec 0 shift), (N.eqb_spec cur 0); simpl; try done;
      intros [= <- <-]; exists cur, 1%nat; cbn [uleb];
      rewrite (proj2 (N.ltb_lt _ _) Hcur); repeat split; try lia; try done;
      apply Hcons.
  - destruct (N.ltb_spec 64 (shift + 7)); [done|].
    intros (v & n & -> & Hr64 & Hpos & Hn & Hn0 & Hv & Hc')%IH; [|done|done].
    assert (128 <= byte) as Hge.
    { destruct (N.lt_ge_cases byte 128); [|done]. exfalso. apply Hmore.
      change 128 with (N.shiftl 1 7). rewrite N.land_comm.
      apply N.bits_inj. intros i. rewrite N.land_spec, N.bits_0.
      destruct (N.lt_ge_cases i 7) as [Hi|Hi]; [by rewrite N.shiftl_spec_low|].
      rewrite <- (N.mod_small byte (2 ^ 7)) by done.
      by rewrite N.mod_pow2_bits_high, andb_false_r. }
    assert (byte = 128 + cur) as Ebyte.
    { rewrite Ecur. rewrite (N.mod_eq byte 128) by done.
      assert (byte / 128 = 1) as -> by (symmetry; apply (N.div_unique _ _ _ (byte - 128)); lia).
      lia. }
    specialize (Hpos ltac:(lia)).
    exists (cur + 128 * v), (S n).
    assert ((cur + 128 * v) mod 128 = cur ∧ (cur + 128 * v) / 128 = v) as [Em Ed].
    { rewrite (N.mul_comm 128 v). rewrite N.Div0.mod_add, N.div_add by done.
      rewrite N.mod_small, N.div_small by done. lia. }
    repeat split; try lia.
    + rewrite N.pow_add_r. change (2 ^ 7) with 128. lia.
    + replace (7 * N.of_nat (S n)) with (7 + 7 * N.of_nat n) by lia.
      rewrite N.pow_add_r. change (2 ^ 7) with 128. lia.
    + cbn [uleb]. destruct (N.ltb_spec (cur + 128 * v) 128); [lia|].
      rewrite Em, Ed, <- Ebyte. apply (consumes_trans c [byte] c1); done.
    + cbn [uleb]. destruct (N.ltb_spec (cur + 128 * v) 128); [lia|].
      rewrite Em, Ed, <- Ebyte. apply (consumes_trans c [byte] c1 (uleb n v) c'); done.
Qed.

(** The fuel does not show in the encoding. *)
Lemma uleb_fuel n m v :
  v < 2 ^ (7 * N.of_nat n) → v < 2 ^ (7 * N.of_nat m) →
  (0 < n)%nat → (0 < m)%nat → uleb n v = uleb m v.
Proof.
  revert m v; induction n as [|n IH]; intros [|m] v Hn Hm Hn0 Hm0; [lia..|].
  cbn [uleb]. destruct (N.ltb_spec v 128); [done|].
  destruct n as [|n]; [change (2 ^ (7 * N.of_nat 1)) with 128 in *; lia|].
  destruct m as [|m]; [change (2 ^ (7 * N.of_nat 1)) with 128 in *; lia|].
  f_equal. apply IH; try lia; by apply div128_lt.
Qed.

Lemma read_uleb_loop_total rf c value k :
  k <= 9 → 10 <= k + N.of_nat rf → no_panic (read_uleb_loop rf c value (7 * k)).
Proof.
  revert c value k; induction rf as [|rf IH]; intros c value k Hk Hf; [lia|].
  cbn [read_uleb_loop]. pose proof (read_u8_total c) as Ht.
  destruct (read_u8 c) as [[byte c1]| | |]; try done.
  unfold shl64. destruct (N.ltb_spec (7 * k) 64); [|lia]. simpl.
  destruct (negb _); [done|]. destruct (_ =? 0); [by destruct (_ && _)|].
  destruct (N.ltb_spec 64 (7 * k + 7)) as [|Hle]; [done|].
  replace (7 * k + 7) with (7 * (k + 1)) by lia. apply IH; lia.
Qed.

Lemma read_uleb128_total c : no_panic (read_uleb128_as_u64 c).
Proof. apply (read_uleb_loop_total 11 c 0 0); lia. Qed.

(** ** Properties *)

(** Every u64 is written in one to ten ULEB128 bytes, from which the reader returns
    the same value and stops right after them. *)
Theorem uleb128_roundtrip (b : BinaryData) (v : u64) (b' : BinaryData) (c : Cursor) (tl : list u8) :
  v <= u64_MAX →
  write_u64_as_uleb128 b v = Ok b' →
  ∃ bs, b' = b ++ bs ∧ 1 <= len bs <= 10 ∧
    (fill_buf c = bs ++ tl →
     read_uleb128_as_u64 c = Ok (v, seek c (len bs)) ∧ fill_buf (seek c (len bs)) = tl).
Proof.
  intros Hv Hw. rewrite write_uleb_bytes in Hw by done. apply push_all_Ok in Hw as ->.
  exists (uleb_bytes v). split; [done|]. split; [apply uleb_bytes_length|].
  intros Hc. split; [by eapply read_uleb_bytes|].
  eapply consumes_rest; [done|]. by eapply consumes_intro.
Qed.

Lemma uleb128_roundtrip_witness :
  300 <= u64_MAX ∧ write_u64_as_uleb128 [7] 300 = Ok [7; 172; 2] ∧
  ∃ bs, [7; 172; 2] = [7] ++ bs ∧ 1 <= len bs <= 10 ∧
    (fill_buf (Cursor_new [172; 2; 9]) = bs ++ [9] →
     read_uleb128_as_u64 (Cursor_new [172; 2; 9]) = Ok (300, seek (Cursor_new [172; 2; 9]) (len bs))
     ∧ fill_buf (seek (Cursor_new [172; 2; 9]) (len bs)) = [9]).
Proof.
  split; [by vm_compute|]. split; [reflexivity|].
  apply (uleb128_roundtrip [7] 300 [7; 172; 2] (Cursor_new [172; 2; 9]) [9]);
    [by vm_compute|reflexivity].
Defined.

(** The ULEB128 reader accepts only canonical encodings: the bytes it consumes are
    the ones the writer produces for the value it returns. *)
Theorem uleb128_canonical (c c' : Cursor) (v : u64) (b : BinaryData) :
  bytes_ok (fill_buf c) →
  len b + 10 <= usize_MAX →
  read_uleb128_as_u64 c = Ok (v, c') →
  ∃ bs, v <= u64_MAX ∧ fill_buf c = bs ++ fill_buf c' ∧ cur_pos c' = cur_pos c + len bs ∧
    write_u64_as_uleb128 b v = Ok (b ++ bs).
Proof.
  intros Hb Hroom Hr. unfold read_uleb128_as_u64 in Hr.
  apply read_uleb_loop_canonical in Hr as (v' & n & -> & Hv & _ & Hn & Hn0 & Hvn & Hcons & Hrest);
    [|done|done].
  assert (0 + v' * 2 ^ 0 = v') as E by lia. rewrite E in *.
  assert (v' <= u64_MAX) as Hmax by (unfold u64_MAX; lia).
  assert (uleb n v' = uleb_bytes v') as Eu.
  { apply uleb_fuel; try done; [|lia]. eapply N.lt_le_trans; [exact Hv|]. done. }
  rewrite Eu in *. exists (uleb_bytes v'). split; [done|]. split; [done|].
  split; [by rewrite Hcons|].
  rewrite write_uleb_bytes by done. apply push_all_room.
  pose proof (uleb_bytes_length v'). lia.
Qed.

Lemma uleb128_canonical_witness :
  read_uleb128_as_u64 (Cursor_new [172; 2; 9])
    = Ok (300, {| cur_inner := [172; 2; 9]; cur_pos := 2 |}) ∧
  ∃ bs, 300 <= u64_MAX ∧
    fill_buf (Cursor_new [172; 2; 9]) = bs ++ fill_buf {| cur_inner := [172; 2; 9]; cur_pos := 2 |} ∧
    2 = 0 + len bs ∧ write_u64_as_uleb128 [] 300 = Ok ([] ++ bs).
Proof.
  split; [reflexivity|].
  apply (uleb128_canonical (Cursor_new [172; 2; 9]) {| cur_inner := [172; 2; 9]; cur_pos := 2 |} 300 []).
  - repeat (constructor; [by vm_compute|]). constructor.
  - by vm_compute.
  - reflexivity.
Defined.
