(* ===== verification/Loader.v ===== *)
(** * Loader: the cursor monad of the deserializer

    The state and error monad in which the deserializer is written, and the two
    judgements its theorems are proved with:
    - [total n l]: on every input, [l] returns or fails (it does not panic and
      its loops end), and when it returns it has read at least [n] bytes;
    - [loads l bs x]: on every input that starts with [bs], [l] reads exactly
      [bs] and returns [x].
    The class [Codec] is the contract between a writer of the serializer and a
    loader of the deserializer, and its lemmas combine codecs. *)

From S2P Require Import Prelude CoreTypes VmStatus Abilities FileFormat BinaryCommon Uleb.

(** ** The monad: a [&mut VersionedCursor] threaded through a fallible function *)

Definition Loader (A : Type) : Type :=
  VersionedCursor → result StatusCode (A * VersionedCursor).

#[export] Instance loader_ret : MRet Loader := λ A a c, Ok (a, c).
#[export] Instance loader_bind : MBind Loader := λ A B k l c,
  match l c with
  | Ok (a, c) => k a c
  | Err e => Err e
  | Panic => Panic
  | OutOfFuel => OutOfFuel
  end.

Definition fail {A} (e : StatusCode) : Loader A := λ _, Err e.
Definition panic {A} : Loader A := λ _, Panic.
Definition out_of_fuel {A} : Loader A := λ _, OutOfFuel.
Definition lift {A} (r : result StatusCode A) : Loader A := λ c,
  match r with
  | Ok a => Ok (a, c)
  | Err e => Err e
  | Panic => Panic
  | OutOfFuel => OutOfFuel
  end.
Definition get_version : Loader u32 := λ c, Ok (vc_version c, c).

(** A method of [Cursor] called through the versioned cursor, with
    [map_err(|_| e)]. *)
Definition on_cursor {A} (e : StatusCode) (r : Cursor → result AnyhowError (A * Cursor))
  : Loader A := λ c,
  match r (vc_cursor c) with
  | Ok (a, c') => Ok (a, {| vc_version := vc_version c; vc_cursor := c' |})
  | Err _ => Err e
  | Panic => Panic
  | OutOfFuel => OutOfFuel
  end.

(** [for _ in 0..n { v.push(l?) }] *)
Fixpoint load_n {A} (l : Loader A) (n : nat) : Loader (list A) :=
  match n with
  | O => mret []
  | S n => x ← l; xs ← load_n l n; mret (x :: xs)
  end.

(** [while cursor.position() < end { v.push(l?) }]; the fuel bounds the rounds. *)
Fixpoint load_while {A} (fuel : nat) (end_ : N) (l : Loader A) : Loader (list A) := λ c,
  match fuel with
  | O => OutOfFuel
  | S fuel =>
      if position c <? end_ then (x ← l; xs ← load_while fuel end_ l; mret (x :: xs)) c
      else Ok ([], c)
  end.

(** ** What a loader reads *)

Definition vrest (c : VersionedCursor) : list u8 := fill_buf (vc_cursor c).
(** How much is left to read: of the model only, to choose fuels. *)
Definition remaining : Loader nat := λ c, Ok (length (vrest c), c).
Definition vseek (c : VersionedCursor) (n : N) : VersionedCursor :=
  {| vc_version := vc_version c; vc_cursor := seek (vc_cursor c) n |}.

Definition vconsumes (c : VersionedCursor) (bs : list u8) (c' : VersionedCursor) : Prop :=
  c' = vseek c (len bs) ∧ vrest c = bs ++ vrest c'.

Lemma vconsumes_intro c bs tl : vrest c = bs ++ tl → vconsumes c bs (vseek c (len bs)).
Proof. intros E. split; [done|]. exact (proj2 (consumes_intro _ _ _ E)). Qed.
Lemma vconsumes_nil c : vconsumes c [] c.
Proof.
  pose proof (consumes_nil (vc_cursor c)) as [E _]. split; [|done].
  destruct c as [v c]. unfold vseek. simpl in *. by rewrite <- E.
Qed.
Lemma vconsumes_trans c1 bs1 c2 bs2 c3 :
  vconsumes c1 bs1 c2 → vconsumes c2 bs2 c3 → vconsumes c1 (bs1 ++ bs2) c3.
Proof.
  intros [-> E1] [-> E2]. split.
  - unfold vseek. simpl. by rewrite seek_seek, len_app.
  - by rewrite E1, E2, app_assoc.
Qed.
Lemma vrest_vseek c bs tl : vrest c = bs ++ tl → vrest (vseek c (len bs)) = tl.
Proof. intros E. destruct (vconsumes_intro c bs tl E) as [_ E']. rewrite E in E'. by apply app_inv_head in E'. Qed.

(** ** Totality *)

Definition total {A} (n : N) (l : Loader A) : Prop := ∀ c,
  match l c with
  | Ok (_, c') => ∃ bs, vconsumes c bs c' ∧ n <= len bs
  | Err _ => True
  | Panic | OutOfFuel => False
  end.

Lemma total_weaken {A} n m (l : Loader A) : total n l → m <= n → total m l.
Proof.
  intros H Hm c. specialize (H c). destruct (l c) as [[a c']| | |]; try done.
  destruct H as (bs & ? & ?). exists bs. split; [done|lia].
Qed.
Lemma total_0 {A} n (l : Loader A) : total n l → total 0 l.
Proof. intros H. eapply total_weaken; [exact H|lia]. Qed.

Lemma total_ret {A} (a : A) : total 0 (mret a).
Proof. intros c. exists []. split; [apply vconsumes_nil|len_lia]. Qed.
Lemma total_fail {A} n e : total n (fail e : Loader A).
Proof. by intros c. Qed.
Lemma total_lift {A} (r : result StatusCode A) : no_panic r → total 0 (lift r).
Proof.
  intros H c. unfold lift. destruct r; try done.
  exists []. split; [apply vconsumes_nil|len_lia].
Qed.
Lemma total_version : total 0 get_version.
Proof. intros c. exists []. split; [apply vconsumes_nil|len_lia]. Qed.

Lemma total_bind {A B} n m (l : Loader A) (k : A → Loader B) :
  total n l → (∀ a, total m (k a)) → total (n + m) (l ≫= k).
Proof.
  intros Hl Hk c. unfold mbind, loader_bind. specialize (Hl c).
  destruct (l c) as [[a c1]| | |]; try done. destruct Hl as (bs1 & Hc1 & Hn).
  specialize (Hk a c1). destruct (k a c1) as [[b c2]| | |]; try done.
  destruct Hk as (bs2 & Hc2 & Hm).
  exists (bs1 ++ bs2). split; [by eapply vconsumes_trans|]. rewrite len_app. lia.
Qed.
(** The consumption of the first loader is enough. *)
Lemma total_bind_l {A B} n (l : Loader A) (k : A → Loader B) :
  total n l → (∀ a, total 0 (k a)) → total n (l ≫= k).
Proof.
  intros Hl Hk. apply (total_weaken (n + 0)); [by apply total_bind|lia].
Qed.

Lemma total_if {A} n (b : bool) (l1 l2 : Loader A) :
  total n l1 → total n l2 → total n (if b then l1 else l2).
Proof. by destruct b. Qed.

Lemma total_on_cursor {A} e n (r : Cursor → result AnyhowError (A * Cursor)) :
  (∀ c, no_panic (r c)) →
  (∀ c a c', r c = Ok (a, c') → ∃ bs, consumes c bs c' ∧ n <= len bs) →
  total n (on_cursor e r).
Proof.
  intros Hp Hr c. unfold on_cursor. specialize (Hp (vc_cursor c)).
  destruct (r (vc_cursor c)) as [[a c']| | |] eqn:E; try done.
  destruct (Hr _ _ _ E) as (bs & [-> Hrest] & Hn). exists bs. by repeat split.
Qed.

Create HintDb total discriminated.
#[export] Hint Resolve total_ret total_fail total_version total_if : total.

Lemma load_n_total {A} (l : Loader A) n : total 0 l → total 0 (load_n l n).
Proof.
  intros Hl. induction n as [|n IH]; simpl; [apply total_ret|].
  apply total_bind_l; [done|]. intros x. apply total_bind_l; [done|]. intros xs. apply total_ret.
Qed.

Lemma position_vseek c n : position (vseek c n) = position c + n.
Proof. done. Qed.

Lemma load_while_total {A} (l : Loader A) fuel end_ c :
  total 1 l → end_ - position c < N.of_nat fuel →
  match load_while fuel end_ l c with
  | Ok (_, c') => ∃ bs, vconsumes c bs c'
  | Err _ => True
  | Panic | OutOfFuel => False
  end.
Proof.
  intros Hl. revert c; induction fuel as [|fuel IH]; intros c Hf; [lia|].
  cbn [load_while]. destruct (N.ltb_spec (position c) end_) as [Hlt|Hge].
  2:{ exists []. apply vconsumes_nil. }
  unfold mbind, loader_bind. specialize (Hl c).
  destruct (l c) as [[x c1]| | |]; try done. destruct Hl as (bs & Hc & Hbs).
  assert (position c1 = position c + len bs) as Hp by (by destruct Hc as [-> _]).
  specialize (IH c1 ltac:(lia)).
  destruct (load_while fuel end_ l c1) as [[xs c2]| | |]; try done.
  destruct IH as [bs2 Hc2]. eexists. by eapply vconsumes_trans.
Qed.

(** ** Round trips *)

Definition loads {A} (l : Loader A) (bs : list u8) (x : A) : Prop := ∀ c tl,
  vc_version c = VERSION_MAX → vrest c = bs ++ tl → l c = Ok (x, vseek c (len bs)).

Lemma loads_ret {A} (a : A) : loads (mret a) [] a.
Proof.
  intros c tl _ _. unfold mret, loader_ret. do 2 f_equal.
  by destruct (vconsumes_nil c) as [E _].
Qed.
Lemma loads_bind {A B} (l : Loader A) (k : A → Loader B) bs1 bs2 x y :
  loads l bs1 x → loads (k x) bs2 y → loads (l ≫= k) (bs1 ++ bs2) y.
Proof.
  intros Hl Hk c tl Hv Hr. unfold mbind, loader_bind.
  rewrite <- app_assoc in Hr. rewrite (Hl c (bs2 ++ tl) Hv Hr).
  rewrite (Hk _ tl); [|done|by apply vrest_vseek].
  do 2 f_equal. unfold vseek. simpl. by rewrite seek_seek, len_app.
Qed.
(** A step that reads nothing. *)
Lemma loads_pure {A B} (l : Loader A) (k : A → Loader B) bs x y :
  loads l [] x → loads (k x) bs y → loads (l ≫= k) bs y.
Proof. apply (loads_bind l k [] bs). Qed.
Lemma loads_last {A B} (l : Loader A) (k : A → Loader B) bs x y :
  loads l bs x → loads (k x) [] y → loads (l ≫= k) bs y.
Proof. intros Hl Hk. rewrite <- (app_nil_r bs). by eapply loads_bind. Qed.
Lemma loads_lift {A} (r : result StatusCode A) x : r = Ok x → loads (lift r) [] x.
Proof. intros ->. exact (loads_ret x). Qed.
Lemma loads_version : loads get_version [] VERSION_MAX.
Proof. intros c tl Hv Hr. unfold get_version. rewrite Hv. by apply loads_ret with tl. Qed.

Lemma loads_on_cursor {A} e (r : Cursor → result AnyhowError (A * Cursor)) bs x :
  (∀ c tl, fill_buf c = bs ++ tl → r c = Ok (x, seek c (len bs))) →
  loads (on_cursor e r) bs x.
Proof. intros H c tl Hv Hr. unfold on_cursor. by rewrite (H _ tl). Qed.

(** ** Codecs *)

(** [ser] and [load] agree on the values that satisfy [wf]: what one value adds
    to the buffer is not empty and reads back as that value. *)
Class Codec {A : Type} (ser : BinaryData → A → Write) (load : Loader A) (wf : A → Prop) : Prop :=
  codec_roundtrip : ∀ b x b', wf x → ser b x = Ok b' →
    ∃ bs, b' = b ++ bs ∧ bs ≠ [] ∧ loads load bs x.

(** The same without the requirement that something is written. *)
Class Codec0 {A : Type} (ser : BinaryData → A → Write) (load : Loader A) (wf : A → Prop) : Prop :=
  codec0_roundtrip : ∀ b x b', wf x → ser b x = Ok b' →
    ∃ bs, b' = b ++ bs ∧ loads load bs x.

#[export] Instance codec_codec0 {A} ser load (wf : A → Prop) :
  Codec ser load wf → Codec0 ser load wf.
Proof. intros H b x b' Hwf Hs. destruct (H b x b' Hwf Hs) as (bs & ? & _ & ?). eauto. Qed.

Section CodecLemmas.
Context {A : Type} (ser : BinaryData → A → Write) (load : Loader A) (wf : A → Prop).

(** A sequence without its length, read with [for _ in 0..n]. *)
Lemma codec_n `{!Codec0 ser load wf} l b b' :
  Forall wf l → try_fold ser l b = Ok b' →
  ∃ bs, b' = b ++ bs ∧ loads (load_n load (length l)) bs l.
Proof.
  intros Hwf. revert b; induction Hwf as [|x l Hx _ IH]; intros b; cbn [try_fold].
  - intros [= <-]. exists []. rewrite app_nil_r. split; [done|]. apply loads_ret.
  - intros (b1 & H1 & H2)%bind_Ok.
    destruct (codec0_roundtrip _ _ _ Hx H1) as (bs1 & -> & Hl1).
    destruct (IH _ H2) as (bs2 & -> & Hl2).
    exists (bs1 ++ bs2). rewrite app_assoc. split; [done|].
    eapply loads_bind; [done|]. eapply loads_last; [done|]. apply loads_ret.
Qed.

(** A sequence read until a position. *)
Lemma codec_while `{!Codec ser load wf} l b b' :
  Forall wf l → try_fold ser l b = Ok b' →
  ∃ bs, b' = b ++ bs ∧ len l <= len bs ∧ ∀ fuel c end_ tl,
    vc_version c = VERSION_MAX → vrest c = bs ++ tl → end_ = position c + len bs →
    (length l < fuel)%nat →
    load_while fuel end_ load c = Ok (l, vseek c (len bs)).
Proof.
  intros Hwf. revert b; induction Hwf as [|x l Hx _ IH]; intros b; cbn [try_fold].
  - intros [= <-]. exists []. rewrite app_nil_r. split; [done|]. split; [done|].
    intros [|fuel] c end_ tl Hv Hr -> Hf; [simpl in Hf; lia|]. cbn [load_while].
    rewrite len_nil, N.add_0_r, N.ltb_irrefl.
    by destruct (vconsumes_nil c) as [E _]; rewrite len_nil in E; rewrite <- E.
  - intros (b1 & H1 & H2)%bind_Ok.
    destruct (codec_roundtrip _ _ _ Hx H1) as (bs1 & -> & Hne & Hl1).
    destruct (IH _ H2) as (bs2 & -> & Hlen & Hl2).
    assert (0 < len bs1) as Hpos by (destruct bs1; [done|len_lia]).
    exists (bs1 ++ bs2). rewrite app_assoc. split; [done|]. split; [len_lia|].
    intros [|fuel] c end_ tl Hv Hr -> Hf; [simpl in Hf; lia|]. cbn [load_while].
    rewrite len_app. destruct (N.ltb_spec (position c) (position c + (len bs1 + len bs2))); [|lia].
    rewrite <- app_assoc in Hr. unfold mbind, loader_bind.
    rewrite (Hl1 c (bs2 ++ tl) Hv Hr).
    rewrite (Hl2 fuel _ _ tl); [|done|by apply vrest_vseek|rewrite position_vseek; lia|simpl in Hf; lia].
    unfold mret, loader_ret, vseek. simpl. by rewrite seek_seek.
Qed.
End CodecLemmas.
