(* ===== verification/Serializer.v ===== *)
(** * Serializer: modules and scripts to bytes

    Models [language/move-binary-format/src/serializer.rs]: every function
    extends the output buffer or fails.  A function that returns
    [Result<()>] with a [&mut BinaryData] is one from the buffer to a [Write]. *)

From S2P Require Import Prelude CoreTypes VmStatus Abilities FileFormat BinaryCommon.

(** ** Bounded integers *)

Definition write_as_uleb128 (binary : BinaryData) (x max : u64) : Write :=
  if max <? x then Err (ValueExceedsMax x max) else write_u64_as_uleb128 binary x.

Definition serialize_signature_index (binary : BinaryData) (idx : SignatureIndex) : Write :=
  write_as_uleb128 binary idx SIGNATURE_INDEX_MAX.
Definition serialize_module_handle_index (binary : BinaryData) (idx : ModuleHandleIndex) : Write :=
  write_as_uleb128 binary idx MODULE_HANDLE_INDEX_MAX.
Definition serialize_identifier_index (binary : BinaryData) (idx : IdentifierIndex) : Write :=
  write_as_uleb128 binary idx IDENTIFIER_INDEX_MAX.
Definition serialize_struct_handle_index (binary : BinaryData) (idx : StructHandleIndex) : Write :=
  write_as_uleb128 binary idx STRUCT_HANDLE_INDEX_MAX.
Definition serialize_address_identifier_index (binary : BinaryData) (idx : AddressIdentifierIndex) : Write :=
  write_as_uleb128 binary idx ADDRESS_INDEX_MAX.
Definition serialize_struct_def_index (binary : BinaryData) (idx : StructDefinitionIndex) : Write :=
  write_as_uleb128 binary idx STRUCT_DEF_INDEX_MAX.
Definition serialize_function_handle_index (binary : BinaryData) (idx : FunctionHandleIndex) : Write :=
  write_as_uleb128 binary idx FUNCTION_HANDLE_INDEX_MAX.
Definition serialize_field_handle_index (binary : BinaryData) (idx : FieldHandleIndex) : Write :=
  write_as_uleb128 binary idx FIELD_HANDLE_INDEX_MAX.
Definition serialize_field_inst_index (binary : BinaryData) (idx : FieldInstantiationIndex) : Write :=
  write_as_uleb128 binary idx FIELD_INST_INDEX_MAX.
Definition serialize_function_inst_index (binary : BinaryData) (idx : FunctionInstantiationIndex) : Write :=
  write_as_uleb128 binary idx FUNCTION_INST_INDEX_MAX.
Definition serialize_struct_def_inst_index (binary : BinaryData) (idx : StructDefInstantiationIndex) : Write :=
  write_as_uleb128 binary idx STRUCT_DEF_INST_INDEX_MAX.
Definition seiralize_table_offset (binary : BinaryData) (offset : u32) : Write :=
  write_as_uleb128 binary offset TABLE_OFFSET_MAX.
Definition serialize_table_size (binary : BinaryData) (size : u32) : Write :=
  write_as_uleb128 binary size TABLE_SIZE_MAX.
Definition serialize_constant_pool_index (binary : BinaryData) (idx : ConstantPoolIndex) : Write :=
  write_as_uleb128 binary idx CONSTANT_INDEX_MAX.
Definition serialize_bytecode_count (binary : BinaryData) (len : N) : Write :=
  write_as_uleb128 binary len BYTECODE_COUNT_MAX.
Definition serialize_identifier_size (binary : BinaryData) (len : N) : Write :=
  write_as_uleb128 binary len IDENTIFIER_SIZE_MAX.
Definition serialize_constant_size (binary : BinaryData) (len : N) : Write :=
  write_as_uleb128 binary len CONSTANT_SIZE_MAX.
Definition serialize_field_count (binary : BinaryData) (len : N) : Write :=
  write_as_uleb128 binary len FIELD_COUNT_MAX.
Definition serialize_field_offset (binary : BinaryData) (offset : u16) : Write :=
  write_as_uleb128 binary offset FIELD_OFFSET_MAX.
Definition serialize_acquires_count (binary : BinaryData) (len : N) : Write :=
  write_as_uleb128 binary len ACQUIRES_COUNT_MAX.
Definition serialize_signature_size (binary : BinaryData) (len : N) : Write :=
  write_as_uleb128 binary len SIGNATURE_SIZE_MAX.
Definition serialize_type_parameter_index (binary : BinaryData) (idx : u16) : Write :=
  write_as_uleb128 binary idx TYPE_PARAMETER_INDEX_MAX.
Definition serialize_type_parameter_count (binary : BinaryData) (len : N) : Write :=
  write_as_uleb128 binary len TYPE_PARAMETER_COUNT_MAX.
Definition serialize_bytecode_offset (binary : BinaryData) (offset : u16) : Write :=
  write_as_uleb128 binary offset BYTECODE_INDEX_MAX.
Definition serialize_table_count (binary : BinaryData) (len : u8) : Write :=
  write_as_uleb128 binary len TABLE_COUNT_MAX.
Definition serialize_local_index (binary : BinaryData) (idx : u8) : Write :=
  write_as_uleb128 binary idx LOCAL_INDEX_MAX.

(** ** Signature tokens *)

(** [serialize_signature_token_single_node_impl] *)
Definition serialize_signature_token_single_node_impl (binary : BinaryData)
    (token : SignatureToken) : Write :=
  let push_ty (t : SerializedType) := push binary (SerializedType_to_u8 t) in
  match token with
  | SignatureToken.Bool => push_ty SerializedType.BOOL
  | SignatureToken.U8 => push_ty SerializedType.U8
  | SignatureToken.U64 => push_ty SerializedType.U64
  | SignatureToken.U128 => push_ty SerializedType.U128
  | SignatureToken.Address => push_ty SerializedType.ADDRESS
  | SignatureToken.Signer => push_ty SerializedType.SIGNER
  | SignatureToken.Vector _ => push_ty SerializedType.VECTOR
  | SignatureToken.Struct idx =>
      binary ← push_ty SerializedType.STRUCT;
      serialize_struct_handle_index binary idx
  | SignatureToken.StructInstantiation idx type_params =>
      binary ← push_ty SerializedType.STRUCT_INST;
      binary ← serialize_struct_handle_index binary idx;
      serialize_signature_size binary (len type_params)
  | SignatureToken.Reference _ => push_ty SerializedType.REFERENCE
  | SignatureToken.MutableReference _ => push_ty SerializedType.MUTABLE_REFERENCE
  | SignatureToken.TypeParameter idx =>
      binary ← push_ty SerializedType.TYPE_PARAMETER;
      serialize_type_parameter_index binary idx
  end.

(** [serialize_signature_token] *)
Definition serialize_signature_token (binary : BinaryData) (token : SignatureToken) : Write :=
  SignatureToken.for_preorder_with_depth token (λ binary '(token, depth),
    if SIGNATURE_TOKEN_DEPTH_MAX <? depth then Err MaxRecursionDepth
    else serialize_signature_token_single_node_impl binary token) binary.

Definition serialize_signature_tokens (binary : BinaryData) (tokens : list SignatureToken) : Write :=
  binary ← serialize_signature_size binary (len tokens);
  try_fold serialize_signature_token tokens binary.
Definition serialize_signature (binary : BinaryData) (signature : Signature) : Write :=
  serialize_signature_tokens binary signature.

(** ** Abilities and type parameters *)

Definition serialize_ability_set (binary : BinaryData) (set : AbilitySet) : Write :=
  write_as_uleb128 binary (into_u8 set) (into_u8 ALL).
Definition serialize_ability_sets (binary : BinaryData) (sets : list AbilitySet) : Write :=
  binary ← serialize_type_parameter_count binary (len sets);
  try_fold serialize_ability_set sets binary.
Definition serialize_type_parameter (binary : BinaryData) (type_param : StructTypeParameter) : Write :=
  binary ← serialize_ability_set binary (stp_constraints type_param);
  write_as_uleb128 binary (if stp_is_phantom type_param then 1 else 0) 1.
Definition serialize_type_parameters (binary : BinaryData)
    (type_parameters : list StructTypeParameter) : Write :=
  binary ← serialize_type_parameter_count binary (len type_parameters);
  try_fold serialize_type_parameter type_parameters binary.

(** ** Table entries *)

Definition serialize_module_handle (binary : BinaryData) (module_handle : ModuleHandle) : Write :=
  binary ← serialize_address_identifier_index binary (mh_address module_handle);
  serialize_identifier_index binary (mh_name module_handle).
Definition serialize_struct_handle (binary : BinaryData) (struct_handle : StructHandle) : Write :=
  binary ← serialize_module_handle_index binary (sh_module struct_handle);
  binary ← serialize_identifier_index binary (sh_name struct_handle);
  binary ← serialize_ability_set binary (sh_abilities struct_handle);
  serialize_type_parameters binary (sh_type_parameters struct_handle).
Definition serialize_function_handle (binary : BinaryData) (function_handle : FunctionHandle) : Write :=
  binary ← serialize_module_handle_index binary (fh_module function_handle);
  binary ← serialize_identifier_index binary (fh_name function_handle);
  binary ← serialize_signature_index binary (fh_parameters function_handle);
  binary ← serialize_signature_index binary (fh_return function_handle);
  serialize_ability_sets binary (fh_type_parameters function_handle).
Definition serialize_function_instantiation (binary : BinaryData)
    (func_inst : FunctionInstantiation) : Write :=
  binary ← serialize_function_handle_index binary (fi_handle func_inst);
  serialize_signature_index binary (fi_type_parameters func_inst).
Definition serialize_identifier (binary : BinaryData) (string : Identifier) : Write :=
  binary ← serialize_identifier_size binary (len string);
  push_all binary string.
Definition serialize_address (binary : BinaryData) (address : AccountAddress) : Write :=
  push_all binary address.
Definition serialize_constant (binary : BinaryData) (constant : Constant) : Write :=
  binary ← serialize_signature_token binary (const_type constant);
  binary ← serialize_constant_size binary (len (const_data constant));
  push_all binary (const_data constant).
Definition serialize_field_definition (binary : BinaryData) (field_definition : FieldDefinition) : Write :=
  binary ← serialize_identifier_index binary (fd_name field_definition);
  serialize_signature_token binary (fd_signature field_definition).
Definition serialize_field_definitions (binary : BinaryData) (fields : list FieldDefinition) : Write :=
  binary ← serialize_field_count binary (len fields);
  try_fold serialize_field_definition fields binary.
Definition serialize_struct_definition (binary : BinaryData) (struct_definition : StructDefinition) : Write :=
  binary ← serialize_struct_handle_index binary (sd_struct_handle struct_definition);
  match sd_field_information struct_definition with
  | Native => push binary (SerializedNativeStructFlag_to_u8 SerializedNativeStructFlag.NATIVE)
  | Declared fields =>
      binary ← push binary (SerializedNativeStructFlag_to_u8 SerializedNativeStructFlag.DECLARED);
      serialize_field_definitions binary fields
  end.
Definition serialize_struct_def_instantiation (binary : BinaryData)
    (struct_inst : StructDefInstantiation) : Write :=
  binary ← serialize_struct_def_index binary (sdi_def struct_inst);
  serialize_signature_index binary (sdi_type_parameters struct_inst).
Definition serialize_field_handle (binary : BinaryData) (field_handle : FieldHandle) : Write :=
  binary ← serialize_struct_def_index binary (fld_owner field_handle);
  serialize_field_offset binary (fld_field field_handle).
Definition serialize_field_instantiation (binary : BinaryData)
    (field_inst : FieldInstantiation) : Write :=
  binary ← serialize_field_handle_index binary (fldi_handle field_inst);
  serialize_signature_index binary (fldi_type_parameters field_inst).
Definition serialize_acquires (binary : BinaryData) (indices : list StructDefinitionIndex) : Write :=
  binary ← serialize_acquires_count binary (len indices);
  try_fold serialize_struct_def_index indices binary.

(** ** Code *)

(** [serialize_instruction_inner] *)
Definition serialize_instruction_inner (binary : BinaryData) (opcode : Bytecode) : Write :=
  let push_op (op : Opcodes) := push binary (Opcodes_to_u8 op) in
  match opcode with
  | Bytecode.FreezeRef => push_op Opcodes.FREEZE_REF
  | Bytecode.Pop => push_op Opcodes.POP
  | Bytecode.Ret => push_op Opcodes.RET
  | Bytecode.BrTrue code_offset =>
      binary ← push_op Opcodes.BR_TRUE;
      serialize_bytecode_offset binary code_offset
  | Bytecode.BrFalse code_offset =>
      binary ← push_op Opcodes.BR_FALSE;
      serialize_bytecode_offset binary code_offset
  | Bytecode.Branch code_offset =>
      binary ← push_op Opcodes.BRANCH;
      serialize_bytecode_offset binary code_offset
  | Bytecode.LdU8 value =>
      binary ← push_op Opcodes.LD_U8;
      push binary value
  | Bytecode.LdU64 value =>
      binary ← push_op Opcodes.LD_U64;
      write_u64 binary value
  | Bytecode.LdU128 value =>
      binary ← push_op Opcodes.LD_U128;
      write_u128 binary value
  | Bytecode.CastU8 => push_op Opcodes.CAST_U8
  | Bytecode.CastU64 => push_op Opcodes.CAST_U64
  | Bytecode.CastU128 => push_op Opcodes.CAST_U128
  | Bytecode.LdConst const_idx =>
      binary ← push_op Opcodes.LD_CONST;
      serialize_constant_pool_index binary const_idx
  | Bytecode.LdTrue => push_op Opcodes.LD_TRUE
  | Bytecode.LdFalse => push_op Opcodes.LD_FALSE
  | Bytecode.CopyLoc local_idx =>
      binary ← push_op Opcodes.COPY_LOC;
      serialize_local_index binary local_idx
  | Bytecode.MoveLoc local_idx =>
      binary ← push_op Opcodes.MOVE_LOC;
      serialize_local_index binary local_idx
  | Bytecode.StLoc local_idx =>
      binary ← push_op Opcodes.ST_LOC;
      serialize_local_index binary local_idx
  | Bytecode.MutBorrowLoc local_idx =>
      binary ← push_op Opcodes.MUT_BORROW_LOC;
      serialize_local_index binary local_idx
  | Bytecode.ImmBorrowLoc local_idx =>
      binary ← push_op Opcodes.IMM_BORROW_LOC;
      serialize_local_index binary local_idx
  | Bytecode.MutBorrowField field_idx =>
      binary ← push_op Opcodes.MUT_BORROW_FIELD;
      serialize_field_handle_index binary field_idx
  | Bytecode.MutBorrowFieldGeneric field_idx =>
      binary ← push_op Opcodes.MUT_BORROW_FIELD_GENERIC;
      serialize_field_inst_index binary field_idx
  | Bytecode.ImmBorrowField field_idx =>
      binary ← push_op Opcodes.IMM_BORROW_FIELD;
      serialize_field_handle_index binary field_idx
  | Bytecode.ImmBorrowFieldGeneric field_idx =>
      binary ← push_op Opcodes.IMM_BORROW_FIELD_GENERIC;
      serialize_field_inst_index binary field_idx
  | Bytecode.Call method_idx =>
      binary ← push_op Opcodes.CALL;
      serialize_function_handle_index binary method_idx
  | Bytecode.Pack class_idx =>
      binary ← push_op Opcodes.PACK;
      serialize_struct_def_index binary class_idx
  | Bytecode.Unpack class_idx =>
      binary ← push_op Opcodes.UNPACK;
      serialize_struct_def_index binary class_idx
  | Bytecode.CallGeneric method_idx =>
      binary ← push_op Opcodes.CALL_GENERIC;
      serialize_function_inst_index binary method_idx
  | Bytecode.PackGeneric class_idx =>
      binary ← push_op Opcodes.PACK_GENERIC;
      serialize_struct_def_inst_index binary class_idx
  | Bytecode.UnpackGeneric class_idx =>
      binary ← push_op Opcodes.UNPACK_GENERIC;
      serialize_struct_def_inst_index binary class_idx
  | Bytecode.ReadRef => push_op Opcodes.READ_REF
  | Bytecode.WriteRef => push_op Opcodes.WRITE_REF
  | Bytecode.Add => push_op Opcodes.ADD
  | Bytecode.Sub => push_op Opcodes.SUB
  | Bytecode.Mul => push_op Opcodes.MUL
  | Bytecode.Mod => push_op Opcodes.MOD
  | Bytecode.Div => push_op Opcodes.DIV
  | Bytecode.BitOr => push_op Opcodes.BIT_OR
  | Bytecode.BitAnd => push_op Opcodes.BIT_AND
  | Bytecode.Xor => push_op Opcodes.XOR
  | Bytecode.Shl => push_op Opcodes.SHL
  | Bytecode.Shr => push_op Opcodes.SHR
  | Bytecode.Or => push_op Opcodes.OR
  | Bytecode.And => push_op Opcodes.AND
  | Bytecode.Not => push_op Opcodes.NOT
  | Bytecode.Eq => push_op Opcodes.EQ
  | Bytecode.Neq => push_op Opcodes.NEQ
  | Bytecode.Lt => push_op Opcodes.LT
  | Bytecode.Gt => push_op Opcodes.GT
  | Bytecode.Le => push_op Opcodes.LE
  | Bytecode.Ge => push_op Opcodes.GE
  | Bytecode.Abort => push_op Opcodes.ABORT
  | Bytecode.Nop => push_op Opcodes.NOP
  | Bytecode.Exists class_idx =>
      binary ← push_op Opcodes.EXISTS;
      serialize_struct_def_index binary class_idx
  | Bytecode.MutBorrowGlobal class_idx =>
      binary ← push_op Opcodes.MUT_BORROW_GLOBAL;
      serialize_struct_def_index binary class_idx
  | Bytecode.ImmBorrowGlobal class_idx =>
      binary ← push_op Opcodes.IMM_BORROW_GLOBAL;
      serialize_struct_def_index binary class_idx
  | Bytecode.MoveFrom class_idx =>
      binary ← push_op Opcodes.MOVE_FROM;
      serialize_struct_def_index binary class_idx
  | Bytecode.MoveTo class_idx =>
      binary ← push_op Opcodes.MOVE_TO;
      serialize_struct_def_index binary class_idx
  | Bytecode.ExistsGeneric class_idx =>
      binary ← push_op Opcodes.EXISTS_GENERIC;
      serialize_struct_def_inst_index binary class_idx
  | Bytecode.MutBorrowGlobalGeneric class_idx =>
      binary ← push_op Opcodes.MUT_BORROW_GLOBAL_GENERIC;
      serialize_struct_def_inst_index binary class_idx
  | Bytecode.ImmBorrowGlobalGeneric class_idx =>
      binary ← push_op Opcodes.IMM_BORROW_GLOBAL_GENERIC;
      serialize_struct_def_inst_index binary class_idx
  | Bytecode.MoveFromGeneric class_idx =>
      binary ← push_op Opcodes.MOVE_FROM_GENERIC;
      serialize_struct_def_inst_index binary class_idx
  | Bytecode.MoveToGeneric class_idx =>
      binary ← push_op Opcodes.MOVE_TO_GENERIC;
      serialize_struct_def_inst_index binary class_idx
  | Bytecode.VecPack sig_idx num =>
      binary ← push_op Opcodes.VEC_PACK;
      binary ← serialize_signature_index binary sig_idx;
      write_u64 binary num
  | Bytecode.VecLen sig_idx =>
      binary ← push_op Opcodes.VEC_LEN;
      serialize_signature_index binary sig_idx
  | Bytecode.VecImmBorrow sig_idx =>
      binary ← push_op Opcodes.VEC_IMM_BORROW;
      serialize_signature_index binary sig_idx
  | Bytecode.VecMutBorrow sig_idx =>
      binary ← push_op Opcodes.VEC_MUT_BORROW;
      serialize_signature_index binary sig_idx
  | Bytecode.VecPushBack sig_idx =>
      binary ← push_op Opcodes.VEC_PUSH_BACK;
      serialize_signature_index binary sig_idx
  | Bytecode.VecPopBack sig_idx =>
      binary ← push_op Opcodes.VEC_POP_BACK;
      serialize_signature_index binary sig_idx
  | Bytecode.VecUnpack sig_idx num =>
      binary ← push_op Opcodes.VEC_UNPACK;
      binary ← serialize_signature_index binary sig_idx;
      write_u64 binary num
  | Bytecode.VecSwap sig_idx =>
      binary ← push_op Opcodes.VEC_SWAP;
      serialize_signature_index binary sig_idx
  end.

Definition serialize_code (binary : BinaryData) (code : list Bytecode) : Write :=
  binary ← serialize_bytecode_count binary (len code);
  try_fold serialize_instruction_inner code binary.
Definition serialize_code_unit (binary : BinaryData) (code : CodeUnit) : Write :=
  binary ← serialize_signature_index binary (cu_locals code);
  serialize_code binary (cu_code code).

(** [serialize_function_definition] *)
Definition serialize_function_definition (binary : BinaryData)
    (function_definition : FunctionDefinition) : Write :=
  binary ← serialize_function_handle_index binary (fdef_function function_definition);
  binary ← push binary (visibility_to_u8 (fdef_visibility function_definition));
  binary ← push binary (if is_native function_definition then NATIVE_FLAG else 0);
  binary ← serialize_acquires binary (fdef_acquires_global_resources function_definition);
  match fdef_code function_definition with
  | Some code => serialize_code_unit binary code
  | None => Ok binary
  end.

(** ** Tables *)

(** [x += 1] on a [u8], whose overflow panics *)
Definition incr_u8 {E} (x : u8) : result E u8 :=
  match checked_add u8_MAX x 1 with Some y => Ok y | None => Panic end.

Definition check_index_in_binary (index : N) : result AnyhowError u32 :=
  if u32_MAX <? index then Err (CompilationUnitTooBig index) else Ok index.

(** [checked_calculate_table_size]; [checked_assume!] is an [assert!]. *)
Definition checked_calculate_table_size (binary : BinaryData) (start : u32)
  : result AnyhowError u32 :=
  offset ← check_index_in_binary (len binary);
  if offset <? start then Panic else Ok (offset - start).

Definition serialize_magic (binary : BinaryData) : Write := push_all binary DIEM_MAGIC.

Definition serialize_table_index (binary : BinaryData) (kind : TableType) (offset count : u32) : Write :=
  if negb (count =? 0) then
    binary ← push binary (TableType_to_u8 kind);
    binary ← seiralize_table_offset binary offset;
    serialize_table_size binary count
  else Ok binary.

(** [struct CommonSerializer] and [struct ModuleSerializer] *)
Record CommonSerializer : Set := {
  cs_major_version : u32;
  cs_table_count : u8;
  cs_module_handles : u32 * u32;
  cs_struct_handles : u32 * u32;
  cs_function_handles : u32 * u32;
  cs_function_instantiations : u32 * u32;
  cs_signatures : u32 * u32;
  cs_identifiers : u32 * u32;
  cs_address_identifiers : u32 * u32;
  cs_constant_pool : u32 * u32 }.

Record ModuleSerializer : Set := {
  ms_common : CommonSerializer;
  ms_struct_defs : u32 * u32;
  ms_struct_def_instantiations : u32 * u32;
  ms_function_defs : u32 * u32;
  ms_field_handles : u32 * u32;
  ms_field_instantiations : u32 * u32;
  ms_friend_decls : u32 * u32 }.

Definition cs_set_module_handles (self : CommonSerializer) (count : u8) (range : u32 * u32) : CommonSerializer :=
  {| cs_major_version := cs_major_version self;
     cs_table_count := count;
     cs_module_handles := range;
     cs_struct_handles := cs_struct_handles self;
     cs_function_handles := cs_function_handles self;
     cs_function_instantiations := cs_function_instantiations self;
     cs_signatures := cs_signatures self;
     cs_identifiers := cs_identifiers self;
     cs_address_identifiers := cs_address_identifiers self;
     cs_constant_pool := cs_constant_pool self |}.
Definition cs_set_struct_handles (self : CommonSerializer) (count : u8) (range : u32 * u32) : CommonSerializer :=
  {| cs_major_version := cs_major_version self;
     cs_table_count := count;
     cs_module_handles := cs_module_handles self;
     cs_struct_handles := range;
     cs_function_handles := cs_function_handles self;
     cs_function_instantiations := cs_function_instantiations self;
     cs_signatures := cs_signatures self;
     cs_identifiers := cs_identifiers self;
     cs_address_identifiers := cs_address_identifiers self;
     cs_constant_pool := cs_constant_pool self |}.
Definition cs_set_function_handles (self : CommonSerializer) (count : u8) (range : u32 * u32) : CommonSerializer :=
  {| cs_major_version := cs_major_version self;
     cs_table_count := count;
     cs_module_handles := cs_module_handles self;
     cs_struct_handles := cs_struct_handles self;
     cs_function_handles := range;
     cs_function_instantiations := cs_function_instantiations self;
     cs_signatures := cs_signatures self;
     cs_identifiers := cs_identifiers self;
     cs_address_identifiers := cs_address_identifiers self;
     cs_constant_pool := cs_constant_pool self |}.
Definition cs_set_function_instantiations (self : CommonSerializer) (count : u8) (range : u32 * u32) : CommonSerializer :=
  {| cs_major_version := cs_major_version self;
     cs_table_count := count;
     cs_module_handles := cs_module_handles self;
     cs_struct_handles := cs_struct_handles self;
     cs_function_handles := cs_function_handles self;
     cs_function_instantiations := range;
     cs_signatures := cs_signatures self;
     cs_identifiers := cs_identifiers self;
     cs_address_identifiers := cs_address_identifiers self;
     cs_constant_pool := cs_constant_pool self |}.
Definition cs_set_signatures (self : CommonSerializer) (count : u8) (range : u32 * u32) : CommonSerializer :=
  {| cs_major_version := cs_major_version self;
     cs_table_count := count;
     cs_module_handles := cs_module_handles self;
     cs_struct_handles := cs_struct_handles self;
     cs_function_handles := cs_function_handles self;
     cs_function_instantiations := cs_function_instantiations self;
     cs_signatures := range;
     cs_identifiers := cs_identifiers self;
     cs_address_identifiers := cs_address_identifiers self;
     cs_constant_pool := cs_constant_pool self |}.
Definition cs_set_identifiers (self : CommonSerializer) (count : u8) (range : u32 * u32) : CommonSerializer :=
  {| cs_major_version := cs_major_version self;
     cs_table_count := count;
     cs_module_handles := cs_module_handles self;
     cs_struct_handles := cs_struct_handles self;
     cs_function_handles := cs_function_handles self;
     cs_function_instantiations := cs_function_instantiations self;
     cs_signatures := cs_signatures self;
     cs_identifiers := range;
     cs_address_identifiers := cs_address_identifiers self;
     cs_constant_pool := cs_constant_pool self |}.
Definition cs_set_address_identifiers (self : CommonSerializer) (count : u8) (range : u32 * u32) : CommonSerializer :=
  {| cs_major_version := cs_major_version self;
     cs_table_count := count;
     cs_module_handles := cs_module_handles self;
     cs_struct_handles := cs_struct_handles self;
     cs_function_handles := cs_function_handles self;
     cs_function_instantiations := cs_function_instantiations self;
     cs_signatures := cs_signatures self;
     cs_identifiers := cs_identifiers self;
     cs_address_identifiers := range;
     cs_constant_pool := cs_constant_pool self |}.
Definition cs_set_constant_pool (self : CommonSerializer) (count : u8) (range : u32 * u32) : CommonSerializer :=
  {| cs_major_version := cs_major_version self;
     cs_table_count := count;
     cs_module_handles := cs_module_handles self;
     cs_struct_handles := cs_struct_handles self;
     cs_function_handles := cs_function_handles self;
     cs_function_instantiations := cs_function_instantiations self;
     cs_signatures := cs_signatures self;
     cs_identifiers := cs_identifiers self;
     cs_address_identifiers := cs_address_identifiers self;
     cs_constant_pool := range |}.
Definition cs_set_table_count (self : CommonSerializer) (count : u8) : CommonSerializer :=
  {| cs_major_version := cs_major_version self;
     cs_table_count := count;
     cs_module_handles := cs_module_handles self;
     cs_struct_handles := cs_struct_handles self;
     cs_function_handles := cs_function_handles self;
     cs_function_instantiations := cs_function_instantiations self;
     cs_signatures := cs_signatures self;
     cs_identifiers := cs_identifiers self;
     cs_address_identifiers := cs_address_identifiers self;
     cs_constant_pool := cs_constant_pool self |}.
Definition ms_set_struct_defs (self : ModuleSerializer) (count : u8) (range : u32 * u32) : ModuleSerializer :=
  {| ms_common := cs_set_table_count (ms_common self) count;
     ms_struct_defs := range;
     ms_struct_def_instantiations := ms_struct_def_instantiations self;
     ms_function_defs := ms_function_defs self;
     ms_field_handles := ms_field_handles self;
     ms_field_instantiations := ms_field_instantiations self;
     ms_friend_decls := ms_friend_decls self |}.
Definition ms_set_struct_def_instantiations (self : ModuleSerializer) (count : u8) (range : u32 * u32) : ModuleSerializer :=
  {| ms_common := cs_set_table_count (ms_common self) count;
     ms_struct_defs := ms_struct_defs self;
     ms_struct_def_instantiations := range;
     ms_function_defs := ms_function_defs self;
     ms_field_handles := ms_field_handles self;
     ms_field_instantiations := ms_field_instantiations self;
     ms_friend_decls := ms_friend_decls self |}.
Definition ms_set_function_defs (self : ModuleSerializer) (count : u8) (range : u32 * u32) : ModuleSerializer :=
  {| ms_common := cs_set_table_count (ms_common self) count;
     ms_struct_defs := ms_struct_defs self;
     ms_struct_def_instantiations := ms_struct_def_instantiations self;
     ms_function_defs := range;
     ms_field_handles := ms_field_handles self;
     ms_field_instantiations := ms_field_instantiations self;
     ms_friend_decls := ms_friend_decls self |}.
Definition ms_set_field_handles (self : ModuleSerializer) (count : u8) (range : u32 * u32) : ModuleSerializer :=
  {| ms_common := cs_set_table_count (ms_common self) count;
     ms_struct_defs := ms_struct_defs self;
     ms_struct_def_instantiations := ms_struct_def_instantiations self;
     ms_function_defs := ms_function_defs self;
     ms_field_handles := range;
     ms_field_instantiations := ms_field_instantiations self;
     ms_friend_decls := ms_friend_decls self |}.
Definition ms_set_field_instantiations (self : ModuleSerializer) (count : u8) (range : u32 * u32) : ModuleSerializer :=
  {| ms_common := cs_set_table_count (ms_common self) count;
     ms_struct_defs := ms_struct_defs self;
     ms_struct_def_instantiations := ms_struct_def_instantiations self;
     ms_function_defs := ms_function_defs self;
     ms_field_handles := ms_field_handles self;
     ms_field_instantiations := range;
     ms_friend_decls := ms_friend_decls self |}.
Definition ms_set_friend_decls (self : ModuleSerializer) (count : u8) (range : u32 * u32) : ModuleSerializer :=
  {| ms_common := cs_set_table_count (ms_common self) count;
     ms_struct_defs := ms_struct_defs self;
     ms_struct_def_instantiations := ms_struct_def_instantiations self;
     ms_function_defs := ms_function_defs self;
     ms_field_handles := ms_field_handles self;
     ms_field_instantiations := ms_field_instantiations self;
     ms_friend_decls := range |}.

Definition CommonSerializer_new (major_version : u32) : CommonSerializer :=
  {| cs_major_version := major_version;
     cs_table_count := 0;
     cs_module_handles := (0, 0);
     cs_struct_handles := (0, 0);
     cs_function_handles := (0, 0);
     cs_function_instantiations := (0, 0);
     cs_signatures := (0, 0);
     cs_identifiers := (0, 0);
     cs_address_identifiers := (0, 0);
     cs_constant_pool := (0, 0) |}.
Definition ms_set_common (self : ModuleSerializer) (common : CommonSerializer) : ModuleSerializer :=
  {| ms_common := common;
     ms_struct_defs := ms_struct_defs self;
     ms_struct_def_instantiations := ms_struct_def_instantiations self;
     ms_function_defs := ms_function_defs self;
     ms_field_handles := ms_field_handles self;
     ms_field_instantiations := ms_field_instantiations self;
     ms_friend_decls := ms_friend_decls self |}.

Definition ModuleSerializer_new (major_version : u32) : ModuleSerializer :=
  {| ms_common := CommonSerializer_new major_version;
     ms_struct_defs := (0, 0);
     ms_struct_def_instantiations := (0, 0);
     ms_function_defs := (0, 0);
     ms_field_handles := (0, 0);
     ms_field_instantiations := (0, 0);
     ms_friend_decls := (0, 0) |}.

(** The body the table functions share: the start, the entries, the size. *)
Definition serialize_table_contents {A} (item : BinaryData → A → Write) (binary : BinaryData)
    (items : list A) : result AnyhowError ((u32 * u32) * BinaryData) :=
  start ← check_index_in_binary (len binary);
  binary ← try_fold item items binary;
  size ← checked_calculate_table_size binary start;
  Ok ((start, size), binary).

Definition serialize_module_handles (self : CommonSerializer) (binary : BinaryData)
    (module_handles : list ModuleHandle) : result AnyhowError (CommonSerializer * BinaryData) :=
  if is_empty module_handles then Ok (self, binary) else
  table_count ← incr_u8 (cs_table_count self);
  '(range, binary) ← serialize_table_contents serialize_module_handle binary module_handles;
  Ok (cs_set_module_handles self table_count range, binary).
Definition serialize_struct_handles (self : CommonSerializer) (binary : BinaryData)
    (struct_handles : list StructHandle) : result AnyhowError (CommonSerializer * BinaryData) :=
  if is_empty struct_handles then Ok (self, binary) else
  table_count ← incr_u8 (cs_table_count self);
  '(range, binary) ← serialize_table_contents serialize_struct_handle binary struct_handles;
  Ok (cs_set_struct_handles self table_count range, binary).
Definition serialize_function_handles (self : CommonSerializer) (binary : BinaryData)
    (function_handles : list FunctionHandle) : result AnyhowError (CommonSerializer * BinaryData) :=
  if is_empty function_handles then Ok (self, binary) else
  table_count ← incr_u8 (cs_table_count self);
  '(range, binary) ← serialize_table_contents serialize_function_handle binary function_handles;
  Ok (cs_set_function_handles self table_count range, binary).
Definition serialize_function_instantiations (self : CommonSerializer) (binary : BinaryData)
    (function_instantiations : list FunctionInstantiation) : result AnyhowError (CommonSerializer * BinaryData) :=
  if is_empty function_instantiations then Ok (self, binary) else
  table_count ← incr_u8 (cs_table_count self);
  '(range, binary) ← serialize_table_contents serialize_function_instantiation binary function_instantiations;
  Ok (cs_set_function_instantiations self table_count range, binary).
Definition serialize_signatures (self : CommonSerializer) (binary : BinaryData)
    (signatures : list Signature) : result AnyhowError (CommonSerializer * BinaryData) :=
  if is_empty signatures then Ok (self, binary) else
  table_count ← incr_u8 (cs_table_count self);
  '(range, binary) ← serialize_table_contents serialize_signature binary signatures;
  Ok (cs_set_signatures self table_count range, binary).
Definition serialize_identifiers (self : CommonSerializer) (binary : BinaryData)
    (identifiers : list Identifier) : result AnyhowError (CommonSerializer * BinaryData) :=
  if is_empty identifiers then Ok (self, binary) else
  table_count ← incr_u8 (cs_table_count self);
  '(range, binary) ← serialize_table_contents serialize_identifier binary identifiers;
  Ok (cs_set_identifiers self table_count range, binary).
Definition serialize_address_identifiers (self : CommonSerializer) (binary : BinaryData)
    (address_identifiers : list AccountAddress) : result AnyhowError (CommonSerializer * BinaryData) :=
  if is_empty address_identifiers then Ok (self, binary) else
  table_count ← incr_u8 (cs_table_count self);
  '(range, binary) ← serialize_table_contents serialize_address binary address_identifiers;
  Ok (cs_set_address_identifiers self table_count range, binary).
Definition serialize_constants (self : CommonSerializer) (binary : BinaryData)
    (constant_pool : list Constant) : result AnyhowError (CommonSerializer * BinaryData) :=
  if is_empty constant_pool then Ok (self, binary) else
  table_count ← incr_u8 (cs_table_count self);
  '(range, binary) ← serialize_table_contents serialize_constant binary constant_pool;
  Ok (cs_set_constant_pool self table_count range, binary).

Definition serialize_struct_definitions (self : ModuleSerializer) (binary : BinaryData)
    (struct_definitions : list StructDefinition) : result AnyhowError (ModuleSerializer * BinaryData) :=
  if is_empty struct_definitions then Ok (self, binary) else
  let table_count := wrap 8 (cs_table_count (ms_common self) + 1) in
  '(range, binary) ← serialize_table_contents serialize_struct_definition binary struct_definitions;
  Ok (ms_set_struct_defs self table_count range, binary).
Definition serialize_struct_def_instantiations (self : ModuleSerializer) (binary : BinaryData)
    (struct_def_instantiations : list StructDefInstantiation) : result AnyhowError (ModuleSerializer * BinaryData) :=
  if is_empty struct_def_instantiations then Ok (self, binary) else
  let table_count := wrap 8 (cs_table_count (ms_common self) + 1) in
  '(range, binary) ← serialize_table_contents serialize_struct_def_instantiation binary struct_def_instantiations;
  Ok (ms_set_struct_def_instantiations self table_count range, binary).
Definition serialize_function_definitions (self : ModuleSerializer) (binary : BinaryData)
    (function_definitions : list FunctionDefinition) : result AnyhowError (ModuleSerializer * BinaryData) :=
  if is_empty function_definitions then Ok (self, binary) else
  let table_count := wrap 8 (cs_table_count (ms_common self) + 1) in
  '(range, binary) ← serialize_table_contents serialize_function_definition binary function_definitions;
  Ok (ms_set_function_defs self table_count range, binary).
Definition serialize_field_handles (self : ModuleSerializer) (binary : BinaryData)
    (field_handles : list FieldHandle) : result AnyhowError (ModuleSerializer * BinaryData) :=
  if is_empty field_handles then Ok (self, binary) else
  table_count ← incr_u8 (cs_table_count (ms_common self));
  '(range, binary) ← serialize_table_contents serialize_field_handle binary field_handles;
  Ok (ms_set_field_handles self table_count range, binary).
Definition serialize_field_instantiations (self : ModuleSerializer) (binary : BinaryData)
    (field_instantiations : list FieldInstantiation) : result AnyhowError (ModuleSerializer * BinaryData) :=
  if is_empty field_instantiations then Ok (self, binary) else
  table_count ← incr_u8 (cs_table_count (ms_common self));
  '(range, binary) ← serialize_table_contents serialize_field_instantiation binary field_instantiations;
  Ok (ms_set_field_instantiations self table_count range, binary).
Definition serialize_friend_declarations (self : ModuleSerializer) (binary : BinaryData)
    (friend_declarations : list ModuleHandle) : result AnyhowError (ModuleSerializer * BinaryData) :=
  if is_empty friend_declarations then Ok (self, binary) else
  let table_count := wrap 8 (cs_table_count (ms_common self) + 1) in
  '(range, binary) ← serialize_table_contents serialize_module_handle binary friend_declarations;
  Ok (ms_set_friend_decls self table_count range, binary).

(** [trait CommonTables]: the tables modules and scripts share *)
Class CommonTables (T : Type) : Type := {
  get_module_handles : T → list ModuleHandle;
  get_struct_handles : T → list StructHandle;
  get_function_handles : T → list FunctionHandle;
  get_function_instantiations : T → list FunctionInstantiation;
  get_identifiers : T → list Identifier;
  get_address_identifiers : T → list AccountAddress;
  get_constant_pool : T → list Constant;
  get_signatures : T → list Signature }.

#[export] Instance script_tables : CommonTables CompiledScript := {
  get_module_handles := s_module_handles;
  get_struct_handles := s_struct_handles;
  get_function_handles := s_function_handles;
  get_function_instantiations := s_function_instantiations;
  get_identifiers := s_identifiers;
  get_address_identifiers := s_address_identifiers;
  get_constant_pool := s_constant_pool;
  get_signatures := s_signatures }.
#[export] Instance module_tables : CommonTables CompiledModule := {
  get_module_handles := m_module_handles;
  get_struct_handles := m_struct_handles;
  get_function_handles := m_function_handles;
  get_function_instantiations := m_function_instantiations;
  get_identifiers := m_identifiers;
  get_address_identifiers := m_address_identifiers;
  get_constant_pool := m_constant_pool;
  get_signatures := m_signatures }.

Definition serialize_header (self : CommonSerializer) (binary : BinaryData) : Write :=
  binary ← serialize_magic binary;
  write_u32 binary (cs_major_version self).

(** [CommonSerializer::serialize_table_indices] *)
Definition serialize_common_table_indices (self : CommonSerializer) (binary : BinaryData) : Write :=
  binary ← serialize_table_count binary (cs_table_count self);
  binary ← serialize_table_index binary TableType.MODULE_HANDLES (cs_module_handles self).1 (cs_module_handles self).2;
  binary ← serialize_table_index binary TableType.STRUCT_HANDLES (cs_struct_handles self).1 (cs_struct_handles self).2;
  binary ← serialize_table_index binary TableType.FUNCTION_HANDLES (cs_function_handles self).1 (cs_function_handles self).2;
  binary ← serialize_table_index binary TableType.FUNCTION_INST (cs_function_instantiations self).1 (cs_function_instantiations self).2;
  binary ← serialize_table_index binary TableType.SIGNATURES (cs_signatures self).1 (cs_signatures self).2;
  binary ← serialize_table_index binary TableType.IDENTIFIERS (cs_identifiers self).1 (cs_identifiers self).2;
  binary ← serialize_table_index binary TableType.ADDRESS_IDENTIFIERS (cs_address_identifiers self).1 (cs_address_identifiers self).2;
  serialize_table_index binary TableType.CONSTANT_POOL (cs_constant_pool self).1 (cs_constant_pool self).2.

Definition serialize_common_tables `{CommonTables T} (self : CommonSerializer)
    (binary : BinaryData) (tables : T) : result AnyhowError (CommonSerializer * BinaryData) :=
  '(self, binary) ← serialize_module_handles self binary (get_module_handles tables);
  '(self, binary) ← serialize_struct_handles self binary (get_struct_handles tables);
  '(self, binary) ← serialize_function_handles self binary (get_function_handles tables);
  '(self, binary) ← serialize_function_instantiations self binary (get_function_instantiations tables);
  '(self, binary) ← serialize_signatures self binary (get_signatures tables);
  '(self, binary) ← serialize_identifiers self binary (get_identifiers tables);
  '(self, binary) ← serialize_address_identifiers self binary (get_address_identifiers tables);
  serialize_constants self binary (get_constant_pool tables).

(** [ModuleSerializer::serialize_tables] *)
Definition serialize_tables (self : ModuleSerializer) (binary : BinaryData)
    (module : CompiledModule) : result AnyhowError (ModuleSerializer * BinaryData) :=
  '(common, binary) ← serialize_common_tables (ms_common self) binary module;
  let self := ms_set_common self common in
  '(self, binary) ← serialize_struct_definitions self binary (m_struct_defs module);
  '(self, binary) ← serialize_struct_def_instantiations self binary (m_struct_def_instantiations module);
  '(self, binary) ← serialize_function_definitions self binary (m_function_defs module);
  '(self, binary) ← serialize_field_handles self binary (m_field_handles module);
  '(self, binary) ← serialize_field_instantiations self binary (m_field_instantiations module);
  serialize_friend_declarations self binary (m_friend_decls module).

(** [ModuleSerializer::serialize_table_indices] *)
Definition serialize_module_table_indices (self : ModuleSerializer) (binary : BinaryData) : Write :=
  binary ← serialize_common_table_indices (ms_common self) binary;
  binary ← serialize_table_index binary TableType.STRUCT_DEFS (ms_struct_defs self).1 (ms_struct_defs self).2;
  binary ← serialize_table_index binary TableType.STRUCT_DEF_INST (ms_struct_def_instantiations self).1 (ms_struct_def_instantiations self).2;
  binary ← serialize_table_index binary TableType.FUNCTION_DEFS (ms_function_defs self).1 (ms_function_defs self).2;
  binary ← serialize_table_index binary TableType.FIELD_HANDLE (ms_field_handles self).1 (ms_field_handles self).2;
  binary ← serialize_table_index binary TableType.FIELD_INST (ms_field_instantiations self).1 (ms_field_instantiations self).2;
  serialize_table_index binary TableType.FRIEND_DECLS (ms_friend_decls self).1 (ms_friend_decls self).2.

(** ** Entry points *)

(** [CompiledModule::serialize] into the vector [binary] *)
Definition serialize_module (self : CompiledModule) (binary : BinaryData) : Write :=
  '(ser, temp) ← serialize_tables (ModuleSerializer_new VERSION_MAX) [] self;
  if u32_MAX <? len temp then Err (TableContentTooBig (len temp)) else
  binary ← serialize_header (ms_common ser) binary;
  binary ← serialize_module_table_indices ser binary;
  binary ← extend binary temp;
  serialize_module_handle_index binary (m_self_module_handle_idx self).

(** [ScriptSerializer::serialize_main] *)
Definition serialize_main (binary : BinaryData) (script : CompiledScript) : Write :=
  binary ← serialize_ability_sets binary (s_type_parameters script);
  binary ← serialize_signature_index binary (s_parameters script);
  serialize_code_unit binary (s_code script).

(** [CompiledScript::serialize] into the vector [binary] *)
Definition serialize_script (self : CompiledScript) (binary : BinaryData) : Write :=
  '(ser, temp) ← serialize_common_tables (CommonSerializer_new VERSION_MAX) [] self;
  if TABLE_CONTENT_SIZE_MAX <? len temp then Err (TableContentTooBig (len temp)) else
  binary ← serialize_header ser binary;
  binary ← serialize_common_table_indices ser binary;
  binary ← extend binary temp;
  serialize_main binary self.
