(* ===== verification/Deserializer.v ===== *)
(** * Deserializer: bytes to modules and scripts

    Models [language/move-binary-format/src/deserializer.rs].  A function on a
    [&mut VersionedCursor] is a [Loader]; a function that fills a table of the
    unit under construction takes the entries it already has and returns them
    extended.  The messages of the errors are dropped, their status codes kept. *)

From S2P Require Import Prelude CoreTypes VmStatus Abilities FileFormat BinaryCommon Loader Serializer.

(** ** Tables *)

(** [struct Table] *)
Record Table : Set := { t_kind : TableType; t_offset : u32; t_count : u32 }.

#[export] Instance TableType_eq_dec : EqDecision TableType.
Proof. solve_decision. Defined.
#[export] Instance TableType_countable : Countable TableType.
Proof.
  refine (inj_countable TableType_to_u8
    (λ n, match TableType_from_u8 n with Ok k => Some k | _ => None end) _).
  by intros [].
Defined.

(** ** Reading integers *)

Definition vc_read_u8 (e : StatusCode) : Loader u8 := on_cursor e read_u8.

(** [VersionedCursor::read] into a buffer of [n] zeros; it never fails. *)
Definition vc_read (n : N) : Loader (N * list u8) := λ c,
  let '(r, cursor) := cursor_read (vc_cursor c) n in
  Ok (r, {| vc_version := vc_version c; vc_cursor := cursor |}).

Definition read_u64_internal : Loader u64 :=
  buf ← on_cursor BAD_U64 (λ c, cursor_read_exact c 8);
  mret (from_le_bytes buf).
Definition read_u128_internal : Loader u128 :=
  buf ← on_cursor BAD_U128 (λ c, cursor_read_exact c 16);
  mret (from_le_bytes buf).

(** [read_uleb_internal::<T>(cursor, max)], [T_max] the largest value of [T]. *)
Definition read_uleb_internal (T_max max : N) : Loader N :=
  x ← on_cursor MALFORMED read_uleb128_as_u64;
  if max <? x then fail MALFORMED else
  if T_max <? x then fail UNKNOWN_INVARIANT_VIOLATION_ERROR else mret x.

Definition load_signature_index : Loader SignatureIndex := read_uleb_internal u16_MAX SIGNATURE_INDEX_MAX.
Definition load_module_handle_index : Loader ModuleHandleIndex := read_uleb_internal u16_MAX MODULE_HANDLE_INDEX_MAX.
Definition load_identifier_index : Loader IdentifierIndex := read_uleb_internal u16_MAX IDENTIFIER_INDEX_MAX.
Definition load_struct_handle_index : Loader StructHandleIndex := read_uleb_internal u16_MAX STRUCT_HANDLE_INDEX_MAX.
Definition load_address_identifier_index : Loader AddressIdentifierIndex := read_uleb_internal u16_MAX ADDRESS_INDEX_MAX.
Definition load_struct_def_index : Loader StructDefinitionIndex := read_uleb_internal u16_MAX STRUCT_DEF_INDEX_MAX.
Definition load_function_handle_index : Loader FunctionHandleIndex := read_uleb_internal u16_MAX FUNCTION_HANDLE_INDEX_MAX.
Definition load_field_handle_index : Loader FieldHandleIndex := read_uleb_internal u16_MAX FIELD_HANDLE_INDEX_MAX.
Definition load_field_inst_index : Loader FieldInstantiationIndex := read_uleb_internal u16_MAX FIELD_INST_INDEX_MAX.
Definition load_function_inst_index : Loader FunctionInstantiationIndex := read_uleb_internal u16_MAX FUNCTION_INST_INDEX_MAX.
Definition load_struct_def_inst_index : Loader StructDefInstantiationIndex := read_uleb_internal u16_MAX STRUCT_DEF_INST_INDEX_MAX.
Definition load_constant_pool_index : Loader ConstantPoolIndex := read_uleb_internal u16_MAX CONSTANT_INDEX_MAX.
Definition load_bytecode_count : Loader N := read_uleb_internal usize_MAX BYTECODE_COUNT_MAX.
Definition load_bytecode_index : Loader u16 := read_uleb_internal u16_MAX BYTECODE_INDEX_MAX.
Definition load_acquires_count : Loader u64 := read_uleb_internal u64_MAX ACQUIRES_COUNT_MAX.
Definition load_field_count : Loader u64 := read_uleb_internal u64_MAX FIELD_COUNT_MAX.
Definition load_type_parameter_count : Loader N := read_uleb_internal usize_MAX TYPE_PARAMETER_COUNT_MAX.
Definition load_signature_size : Loader u64 := read_uleb_internal u64_MAX SIGNATURE_SIZE_MAX.
Definition load_constant_size : Loader N := read_uleb_internal usize_MAX CONSTANT_SIZE_MAX.
Definition load_identifier_size : Loader N := read_uleb_internal usize_MAX IDENTIFIER_SIZE_MAX.
Definition load_type_parameter_index : Loader u16 := read_uleb_internal u16_MAX TYPE_PARAMETER_INDEX_MAX.
Definition load_field_offset : Loader u16 := read_uleb_internal u16_MAX FIELD_OFFSET_MAX.
Definition load_table_count : Loader u8 := read_uleb_internal u8_MAX TABLE_COUNT_MAX.
Definition load_table_offset : Loader u32 := read_uleb_internal u32_MAX TABLE_OFFSET_MAX.
Definition load_table_size : Loader u32 := read_uleb_internal u32_MAX TABLE_SIZE_MAX.
Definition load_local_index : Loader u8 := read_uleb_internal u8_MAX LOCAL_INDEX_MAX.

(** ** Table headers *)

Definition read_table : Loader Table :=
  kind ← vc_read_u8 MALFORMED;
  table_offset ← load_table_offset;
  count ← load_table_size;
  kind ← lift (TableType_from_u8 kind);
  mret {| t_kind := kind; t_offset := table_offset; t_count := count |}.

Definition read_tables (table_count : u8) : Loader (list Table) :=
  load_n read_table (N.to_nat table_count).

(** [read_table_contents], that is [VersionedCursor::read_new_binary] *)
Definition read_table_contents (n : N) : Loader VersionedBinary := λ c,
  (buffer ← on_cursor MALFORMED (λ c, cursor_read_exact c n);
   mret {| vb_version := vc_version c; vb_binary := buffer |}) c.

(** [tables.sort_by(|t1, t2| t1.offset.cmp(&t2.offset))], a stable sort *)
Fixpoint insert_table (x : Table) (tables : list Table) : list Table :=
  match tables with
  | [] => [x]
  | y :: l => if t_offset x <=? t_offset y then x :: y :: l else y :: insert_table x l
  end.
Definition sort_tables (tables : list Table) : list Table := foldr insert_table [] tables.

(** The body of the loop of [check_tables], on the running offset and the kinds
    seen. *)
Definition check_table (binary_len : N) (st : u32 * gset TableType) (table : Table)
  : result StatusCode (u32 * gset TableType) :=
  let '(current_offset, table_types) := st in
  if negb (t_offset table =? current_offset) then Err BAD_HEADER_TABLE else
  if t_count table =? 0 then Err BAD_HEADER_TABLE else
  match checked_add u32_MAX current_offset (t_count table) with
  | None => Err BAD_HEADER_TABLE
  | Some current_offset =>
      if bool_decide (t_kind table ∈ table_types) then Err DUPLICATE_TABLE else
      if binary_len <? current_offset then Err BAD_HEADER_TABLE else
      Ok (current_offset, {[ t_kind table ]} ∪ table_types)
  end.
(** [check_tables]: the sorted tables and the length of their contents. *)
Definition check_tables (tables : list Table) (binary_len : N)
  : result StatusCode (list Table * u32) :=
  let tables := sort_tables tables in
  '(current_offset, _) ← try_fold (check_table binary_len) tables (0, ∅);
  Ok (tables, current_offset).

(** ** Signature tokens *)

(** [enum TypeBuilder] *)
Module TypeBuilder.
Inductive TypeBuilder : Set :=
| Saturated (tok : SignatureToken)
| Vector
| Reference
| MutableReference
| StructInst (sh_idx : StructHandleIndex) (arity : N) (ty_args : list SignatureToken).

(** [TypeBuilder::apply]; the other branch is [unreachable!]. *)
Definition apply {E} (self : TypeBuilder) (tok : SignatureToken) : result E TypeBuilder :=
  match self with
  | Vector => Ok (Saturated (SignatureToken.Vector tok))
  | Reference => Ok (Saturated (SignatureToken.Reference tok))
  | MutableReference => Ok (Saturated (SignatureToken.MutableReference tok))
  | StructInst sh_idx arity ty_args =>
      let ty_args := ty_args ++ [tok] in
      if arity <=? len ty_args
      then Ok (Saturated (SignatureToken.StructInstantiation sh_idx ty_args))
      else Ok (StructInst sh_idx arity ty_args)
  | Saturated _ => Panic
  end.

Definition is_saturated (self : TypeBuilder) : bool :=
  match self with Saturated _ => true | _ => false end.
(** [TypeBuilder::unwrap_saturated]; the other branch is [unreachable!]. *)
Definition unwrap_saturated {E} (self : TypeBuilder) : result E SignatureToken :=
  match self with Saturated tok => Ok tok | _ => Panic end.
End TypeBuilder.
Notation TypeBuilder := TypeBuilder.TypeBuilder.

(** The closure [read_next] *)
Definition read_next : Loader TypeBuilder :=
  byte ← vc_read_u8 MALFORMED;
  t ← lift (SerializedType_from_u8 byte);
  match t with
  | SerializedType.BOOL => mret (TypeBuilder.Saturated SignatureToken.Bool)
  | SerializedType.U8 => mret (TypeBuilder.Saturated SignatureToken.U8)
  | SerializedType.U64 => mret (TypeBuilder.Saturated SignatureToken.U64)
  | SerializedType.U128 => mret (TypeBuilder.Saturated SignatureToken.U128)
  | SerializedType.ADDRESS => mret (TypeBuilder.Saturated SignatureToken.Address)
  | SerializedType.SIGNER => mret (TypeBuilder.Saturated SignatureToken.Signer)
  | SerializedType.VECTOR => mret TypeBuilder.Vector
  | SerializedType.REFERENCE => mret TypeBuilder.Reference
  | SerializedType.MUTABLE_REFERENCE => mret TypeBuilder.MutableReference
  | SerializedType.STRUCT =>
      sh_idx ← load_struct_handle_index;
      mret (TypeBuilder.Saturated (SignatureToken.Struct sh_idx))
  | SerializedType.STRUCT_INST =>
      sh_idx ← load_struct_handle_index;
      arity ← load_type_parameter_count;
      mret (TypeBuilder.StructInst sh_idx arity [])
  | SerializedType.TYPE_PARAMETER =>
      idx ← load_type_parameter_index;
      mret (TypeBuilder.Saturated (SignatureToken.TypeParameter idx))
  end.

(** The loop of [load_signature_token] on its stack, whose top is the head of
    the list. *)
Fixpoint token_loop (fuel : nat) (stack : list TypeBuilder) : Loader SignatureToken :=
  match fuel with
  | O => out_of_fuel
  | S fuel =>
      if SIGNATURE_TOKEN_DEPTH_MAX <? len stack then fail MALFORMED else
      match stack with
      | [] => panic
      | top :: stack' =>
          if TypeBuilder.is_saturated top then
            tok ← lift (TypeBuilder.unwrap_saturated top);
            match stack' with
            | t :: stack'' =>
                t ← lift (TypeBuilder.apply t tok);
                token_loop fuel (t :: stack'')
            | [] => mret tok
            end
          else
            t ← read_next;
            token_loop fuel (t :: stack)
      end
  end.

(** [load_signature_token]: a round of the loop reads a byte or shortens the
    stack, which bounds the rounds by twice what is left to read. *)
Definition load_signature_token : Loader SignatureToken :=
  t ← read_next;
  match t with
  | TypeBuilder.Saturated tok => mret tok
  | t => n ← remaining; token_loop (2 * n + 2) [t]
  end.

Definition load_signature_tokens : Loader (list SignatureToken) :=
  len ← load_signature_size;
  load_n load_signature_token (N.to_nat len).

(** ** Abilities *)

Inductive AbilitySetPosition : Set :=
| FunctionTypeParameters
| StructTypeParameters
| PosStructHandle.

Inductive DeprecatedNominalResourceFlag : Set := NOMINAL_RESOURCE | NORMAL_STRUCT.
Definition DeprecatedNominalResourceFlag_from_u8 (value : u8)
  : result StatusCode DeprecatedNominalResourceFlag :=
  match value with
  | 1 => Ok NOMINAL_RESOURCE
  | 2 => Ok NORMAL_STRUCT
  | _ => Err UNKNOWN_ABILITY
  end.

Inductive DeprecatedKind : Set := KIND_ALL | KIND_COPYABLE | KIND_RESOURCE.
Definition DeprecatedKind_from_u8 (value : u8) : result StatusCode DeprecatedKind :=
  match value with
  | 1 => Ok KIND_ALL
  | 2 => Ok KIND_COPYABLE
  | 3 => Ok KIND_RESOURCE
  | _ => Err UNKNOWN_ABILITY
  end.

Definition load_ability_set (pos : AbilitySetPosition) : Loader AbilitySet :=
  version ← get_version;
  if version <? 2 then
    byte ← vc_read_u8 MALFORMED;
    match pos with
    | PosStructHandle =>
        flag ← lift (DeprecatedNominalResourceFlag_from_u8 byte);
        mret match flag with
             | NOMINAL_RESOURCE => bitor (bitor EMPTY Store) Key
             | NORMAL_STRUCT => bitor (bitor (bitor EMPTY Store) Copy) Drop
             end
    | FunctionTypeParameters | StructTypeParameters =>
        kind ← lift (DeprecatedKind_from_u8 byte);
        let set := match kind with
                   | KIND_ALL => EMPTY
                   | KIND_COPYABLE => bitor (bitor EMPTY Copy) Drop
                   | KIND_RESOURCE => bitor EMPTY Key
                   end in
        match pos with
        | PosStructHandle => panic
        | FunctionTypeParameters => mret (bitor set Store)
        | StructTypeParameters => mret set
        end
    end
  else
    u ← read_uleb_internal u8_MAX (into_u8 ALL);
    match ability_set_from_u8 u with
    | Some abilities => mret abilities
    | None => fail UNKNOWN_ABILITY
    end.

Definition load_ability_sets (pos : AbilitySetPosition) : Loader (list AbilitySet) :=
  len ← load_type_parameter_count;
  load_n (load_ability_set pos) (N.to_nat len).

Definition load_struct_type_parameter : Loader StructTypeParameter :=
  constraints ← load_ability_set StructTypeParameters;
  version ← get_version;
  is_phantom ← (if version <? VERSION_3 then mret false else
                byte ← read_uleb_internal u8_MAX 1;
                mret (negb (byte =? 0)));
  mret {| stp_constraints := constraints; stp_is_phantom := is_phantom |}.

Definition load_struct_type_parameters : Loader (list StructTypeParameter) :=
  len ← load_type_parameter_count;
  load_n load_struct_type_parameter (N.to_nat len).

(** ** Code *)

(** The opcodes [load_code] rejects before version 4 *)
Definition is_vector_opcode (opcode : Opcodes) : bool :=
  match opcode with
  | Opcodes.VEC_PACK | Opcodes.VEC_LEN | Opcodes.VEC_IMM_BORROW | Opcodes.VEC_MUT_BORROW
  | Opcodes.VEC_PUSH_BACK | Opcodes.VEC_POP_BACK | Opcodes.VEC_UNPACK | Opcodes.VEC_SWAP => true
  | _ => false
  end.

(** The conversion of [load_code]: an opcode and its operands *)
Definition load_operands (opcode : Opcodes) : Loader Bytecode :=
  match opcode with
  | Opcodes.POP => mret Bytecode.Pop
  | Opcodes.RET => mret Bytecode.Ret
  | Opcodes.BR_TRUE => i ← load_bytecode_index; mret (Bytecode.BrTrue i)
  | Opcodes.BR_FALSE => i ← load_bytecode_index; mret (Bytecode.BrFalse i)
  | Opcodes.BRANCH => i ← load_bytecode_index; mret (Bytecode.Branch i)
  | Opcodes.LD_U8 => value ← vc_read_u8 MALFORMED; mret (Bytecode.LdU8 value)
  | Opcodes.LD_U64 => value ← read_u64_internal; mret (Bytecode.LdU64 value)
  | Opcodes.LD_U128 => value ← read_u128_internal; mret (Bytecode.LdU128 value)
  | Opcodes.CAST_U8 => mret Bytecode.CastU8
  | Opcodes.CAST_U64 => mret Bytecode.CastU64
  | Opcodes.CAST_U128 => mret Bytecode.CastU128
  | Opcodes.LD_CONST => i ← load_constant_pool_index; mret (Bytecode.LdConst i)
  | Opcodes.LD_TRUE => mret Bytecode.LdTrue
  | Opcodes.LD_FALSE => mret Bytecode.LdFalse
  | Opcodes.COPY_LOC => i ← load_local_index; mret (Bytecode.CopyLoc i)
  | Opcodes.MOVE_LOC => i ← load_local_index; mret (Bytecode.MoveLoc i)
  | Opcodes.ST_LOC => i ← load_local_index; mret (Bytecode.StLoc i)
  | Opcodes.MUT_BORROW_LOC => i ← load_local_index; mret (Bytecode.MutBorrowLoc i)
  | Opcodes.IMM_BORROW_LOC => i ← load_local_index; mret (Bytecode.ImmBorrowLoc i)
  | Opcodes.MUT_BORROW_FIELD => i ← load_field_handle_index; mret (Bytecode.MutBorrowField i)
  | Opcodes.MUT_BORROW_FIELD_GENERIC => i ← load_field_inst_index; mret (Bytecode.MutBorrowFieldGeneric i)
  | Opcodes.IMM_BORROW_FIELD => i ← load_field_handle_index; mret (Bytecode.ImmBorrowField i)
  | Opcodes.IMM_BORROW_FIELD_GENERIC => i ← load_field_inst_index; mret (Bytecode.ImmBorrowFieldGeneric i)
  | Opcodes.CALL => i ← load_function_handle_index; mret (Bytecode.Call i)
  | Opcodes.CALL_GENERIC => i ← load_function_inst_index; mret (Bytecode.CallGeneric i)
  | Opcodes.PACK => i ← load_struct_def_index; mret (Bytecode.Pack i)
  | Opcodes.PACK_GENERIC => i ← load_struct_def_inst_index; mret (Bytecode.PackGeneric i)
  | Opcodes.UNPACK => i ← load_struct_def_index; mret (Bytecode.Unpack i)
  | Opcodes.UNPACK_GENERIC => i ← load_struct_def_inst_index; mret (Bytecode.UnpackGeneric i)
  | Opcodes.READ_REF => mret Bytecode.ReadRef
  | Opcodes.WRITE_REF => mret Bytecode.WriteRef
  | Opcodes.ADD => mret Bytecode.Add
  | Opcodes.SUB => mret Bytecode.Sub
  | Opcodes.MUL => mret Bytecode.Mul
  | Opcodes.MOD => mret Bytecode.Mod
  | Opcodes.DIV => mret Bytecode.Div
  | Opcodes.BIT_OR => mret Bytecode.BitOr
  | Opcodes.BIT_AND => mret Bytecode.BitAnd
  | Opcodes.XOR => mret Bytecode.Xor
  | Opcodes.SHL => mret Bytecode.Shl
  | Opcodes.SHR => mret Bytecode.Shr
  | Opcodes.OR => mret Bytecode.Or
  | Opcodes.AND => mret Bytecode.And
  | Opcodes.NOT => mret Bytecode.Not
  | Opcodes.EQ => mret Bytecode.Eq
  | Opcodes.NEQ => mret Bytecode.Neq
  | Opcodes.LT => mret Bytecode.Lt
  | Opcodes.GT => mret Bytecode.Gt
  | Opcodes.LE => mret Bytecode.Le
  | Opcodes.GE => mret Bytecode.Ge
  | Opcodes.ABORT => mret Bytecode.Abort
  | Opcodes.NOP => mret Bytecode.Nop
  | Opcodes.EXISTS => i ← load_struct_def_index; mret (Bytecode.Exists i)
  | Opcodes.EXISTS_GENERIC => i ← load_struct_def_inst_index; mret (Bytecode.ExistsGeneric i)
  | Opcodes.MUT_BORROW_GLOBAL => i ← load_struct_def_index; mret (Bytecode.MutBorrowGlobal i)
  | Opcodes.MUT_BORROW_GLOBAL_GENERIC => i ← load_struct_def_inst_index; mret (Bytecode.MutBorrowGlobalGeneric i)
  | Opcodes.IMM_BORROW_GLOBAL => i ← load_struct_def_index; mret (Bytecode.ImmBorrowGlobal i)
  | Opcodes.IMM_BORROW_GLOBAL_GENERIC => i ← load_struct_def_inst_index; mret (Bytecode.ImmBorrowGlobalGeneric i)
  | Opcodes.MOVE_FROM => i ← load_struct_def_index; mret (Bytecode.MoveFrom i)
  | Opcodes.MOVE_FROM_GENERIC => i ← load_struct_def_inst_index; mret (Bytecode.MoveFromGeneric i)
  | Opcodes.MOVE_TO => i ← load_struct_def_index; mret (Bytecode.MoveTo i)
  | Opcodes.MOVE_TO_GENERIC => i ← load_struct_def_inst_index; mret (Bytecode.MoveToGeneric i)
  | Opcodes.FREEZE_REF => mret Bytecode.FreezeRef
  | Opcodes.VEC_PACK => i ← load_signature_index; n ← read_u64_internal; mret (Bytecode.VecPack i n)
  | Opcodes.VEC_LEN => i ← load_signature_index; mret (Bytecode.VecLen i)
  | Opcodes.VEC_IMM_BORROW => i ← load_signature_index; mret (Bytecode.VecImmBorrow i)
  | Opcodes.VEC_MUT_BORROW => i ← load_signature_index; mret (Bytecode.VecMutBorrow i)
  | Opcodes.VEC_PUSH_BACK => i ← load_signature_index; mret (Bytecode.VecPushBack i)
  | Opcodes.VEC_POP_BACK => i ← load_signature_index; mret (Bytecode.VecPopBack i)
  | Opcodes.VEC_UNPACK => i ← load_signature_index; n ← read_u64_internal; mret (Bytecode.VecUnpack i n)
  | Opcodes.VEC_SWAP => i ← load_signature_index; mret (Bytecode.VecSwap i)
  end.

(** The body of the loop of [load_code] *)
Definition load_instruction : Loader Bytecode :=
  byte ← vc_read_u8 MALFORMED;
  opcode ← lift (Opcodes_from_u8 byte);
  version ← get_version;
  if is_vector_opcode opcode && (version <? VERSION_4) then fail MALFORMED
  else load_operands opcode.

(** [load_code]: [while code.len() < bytecode_count] pushes one each round. *)
Definition load_code : Loader (list Bytecode) :=
  bytecode_count ← load_bytecode_count;
  load_n load_instruction (N.to_nat bytecode_count).

Definition load_code_unit : Loader CodeUnit :=
  locals ← load_signature_index;
  code ← load_code;
  mret {| cu_locals := locals; cu_code := code |}.

(** ** Table entries: the bodies of the loops that read a table *)

Definition load_module_handle : Loader ModuleHandle :=
  address ← load_address_identifier_index;
  name ← load_identifier_index;
  mret {| mh_address := address; mh_name := name |}.

Definition load_struct_handle : Loader StructHandle :=
  module ← load_module_handle_index;
  name ← load_identifier_index;
  abilities ← load_ability_set PosStructHandle;
  type_parameters ← load_struct_type_parameters;
  mret {| sh_module := module; sh_name := name; sh_abilities := abilities;
          sh_type_parameters := type_parameters |}.

Definition load_function_handle : Loader FunctionHandle :=
  module ← load_module_handle_index;
  name ← load_identifier_index;
  parameters ← load_signature_index;
  return_ ← load_signature_index;
  type_parameters ← load_ability_sets FunctionTypeParameters;
  mret {| fh_module := module; fh_name := name; fh_parameters := parameters;
          fh_return := return_; fh_type_parameters := type_parameters |}.

Definition load_struct_instantiation : Loader StructDefInstantiation :=
  def ← load_struct_def_index;
  type_parameters ← load_signature_index;
  mret {| sdi_def := def; sdi_type_parameters := type_parameters |}.

Definition load_function_instantiation : Loader FunctionInstantiation :=
  handle ← load_function_handle_index;
  type_parameters ← load_signature_index;
  mret {| fi_handle := handle; fi_type_parameters := type_parameters |}.

Definition load_identifier : Loader Identifier :=
  size ← load_identifier_size;
  '(count, buffer) ← vc_read size;
  if negb (count =? size) then fail MALFORMED else
  lift (ok_or MALFORMED (from_utf8 buffer)).

Definition load_constant : Loader Constant :=
  type_ ← load_signature_token;
  size ← load_constant_size;
  '(count, data) ← vc_read size;
  if negb (count =? size) then fail MALFORMED else
  mret {| const_type := type_; const_data := data |}.

Definition load_field_def : Loader FieldDefinition :=
  name ← load_identifier_index;
  signature ← load_signature_token;
  mret {| fd_name := name; fd_signature := signature |}.

Definition load_field_defs : Loader (list FieldDefinition) :=
  field_count ← load_field_count;
  load_n load_field_def (N.to_nat field_count).

Definition load_struct_def : Loader StructDefinition :=
  struct_handle ← load_struct_handle_index;
  byte ← vc_read_u8 MALFORMED;
  field_information_flag ← lift (SerializedNativeStructFlag_from_u8 byte);
  field_information ←
    match field_information_flag with
    | SerializedNativeStructFlag.NATIVE => mret Native
    | SerializedNativeStructFlag.DECLARED => fields ← load_field_defs; mret (Declared fields)
    end;
  mret {| sd_struct_handle := struct_handle; sd_field_information := field_information |}.

Definition load_field_handle : Loader FieldHandle :=
  struct_idx ← load_struct_def_index;
  offset ← load_field_offset;
  mret {| fld_owner := struct_idx; fld_field := offset |}.

Definition load_field_instantiation : Loader FieldInstantiation :=
  handle ← load_field_handle_index;
  type_parameters ← load_signature_index;
  mret {| fldi_handle := handle; fldi_type_parameters := type_parameters |}.

Definition load_struct_definition_indices : Loader (list StructDefinitionIndex) :=
  len ← load_acquires_count;
  load_n load_struct_def_index (N.to_nat len).

Definition load_function_def : Loader FunctionDefinition :=
  function ← load_function_handle_index;
  flags ← vc_read_u8 MALFORMED;
  version ← get_version;
  '(visibility, extra_flags) ←
    (if version =? VERSION_1 then
       let is_public_bit := visibility_to_u8 Public in
       mret (if negb (N.land flags is_public_bit =? 0)
             then (Public, N.lxor flags is_public_bit)
             else (Private, flags))
     else
       vis ← lift (ok_or MALFORMED (visibility_try_from flags));
       extra_flags ← vc_read_u8 MALFORMED;
       mret (vis, extra_flags));
  acquires_global_resources ← load_struct_definition_indices;
  '(code_unit, extra_flags) ←
    (if negb (N.land extra_flags NATIVE_FLAG =? 0)
     then mret (None, N.lxor extra_flags NATIVE_FLAG)
     else code ← load_code_unit; mret (Some code, extra_flags));
  if negb (extra_flags =? 0) then fail INVALID_FLAG_BITS else
  mret {| fdef_function := function; fdef_visibility := visibility;
          fdef_acquires_global_resources := acquires_global_resources;
          fdef_code := code_unit |}.

(** ** Reading a table *)

(** [while cursor.position() < table.count { items.push(load_item(&mut cursor)?) }]
    on the slice of a table; every entry takes a byte or more, so [count + 1]
    rounds are enough. *)
Definition load_table {A} (load_item : Loader A) (binary : VersionedBinary) (table : Table)
    (items : list A) : result StatusCode (list A) :=
  let start := t_offset table in
  let end_ := start + t_count table in
  cursor ← new_cursor binary start end_;
  '(loaded, _) ← load_while (S (N.to_nat (t_count table))) (t_count table) load_item cursor;
  Ok (items ++ loaded).

(** [loop { if cursor.position() == end { break } items.push(load_item(..)?) }] *)
Fixpoint load_until {A} (fuel : nat) (end_ : N) (l : Loader A) : Loader (list A) := λ c,
  match fuel with
  | O => OutOfFuel
  | S fuel =>
      if position c =? end_ then Ok ([], c)
      else (x ← l; xs ← load_until fuel end_ l; mret (x :: xs)) c
  end.
Definition load_table_until {A} (load_item : Loader A) (binary : VersionedBinary) (table : Table)
    (items : list A) : result StatusCode (list A) :=
  let start := t_offset table in
  let end_ := start + t_count table in
  cursor ← new_cursor binary start end_;
  '(loaded, _) ← load_until (S (N.to_nat (t_count table))) (t_count table) load_item cursor;
  Ok (items ++ loaded).

Definition load_module_handles := load_table load_module_handle.
Definition load_struct_handles := load_table load_struct_handle.
Definition load_function_handles := load_table load_function_handle.
Definition load_struct_instantiations := load_table load_struct_instantiation.
Definition load_function_instantiations := load_table load_function_instantiation.
Definition load_identifiers := load_table load_identifier.
Definition load_constant_pool := load_table load_constant.
Definition load_signatures := load_table load_signature_tokens.
Definition load_struct_defs := load_table load_struct_def.
Definition load_function_defs := load_table load_function_def.
Definition load_field_handles := load_table_until load_field_handle.
Definition load_field_instantiations := load_table_until load_field_instantiation.

(** The loop of [load_address_identifiers] *)
Fixpoint load_addresses (n : nat) (binary : VersionedBinary) (start : N)
    (addresses : list AccountAddress) : result StatusCode (list AccountAddress) :=
  match n with
  | O => Ok addresses
  | S n =>
      let end_addr := start + ADDRESS_LENGTH in
      bytes ← vb_slice binary start end_addr;
      match from_bytes bytes with
      | None => Err MALFORMED
      | Some address => load_addresses n binary end_addr (addresses ++ [address])
      end
  end.
Definition load_address_identifiers (binary : VersionedBinary) (table : Table)
    (addresses : list AccountAddress) : result StatusCode (list AccountAddress) :=
  if negb (t_count table mod ADDRESS_LENGTH =? 0) then Err MALFORMED else
  load_addresses (N.to_nat (t_count table / ADDRESS_LENGTH)) binary (t_offset table) addresses.

(** ** Building a unit *)

(** [trait CommonTables]: its [get_X] return [&mut] tables, which the model
    reads with the getters of the serializer's trait and writes with [set_X]. *)
Class CommonTablesMut (T : Type) `{!CommonTables T} : Type := {
  set_module_handles : T → list ModuleHandle → T;
  set_struct_handles : T → list StructHandle → T;
  set_function_handles : T → list FunctionHandle → T;
  set_function_instantiations : T → list FunctionInstantiation → T;
  set_signatures : T → list Signature → T;
  set_identifiers : T → list Identifier → T;
  set_address_identifiers : T → list AccountAddress → T;
  set_constant_pool : T → list Constant → T }.

Definition s_set_module_handles (self : CompiledScript) (v : list ModuleHandle) : CompiledScript :=
  {| s_version := s_version self; s_module_handles := v;
     s_struct_handles := s_struct_handles self; s_function_handles := s_function_handles self;
     s_function_instantiations := s_function_instantiations self;
     s_signatures := s_signatures self; s_identifiers := s_identifiers self;
     s_address_identifiers := s_address_identifiers self;
     s_constant_pool := s_constant_pool self; s_type_parameters := s_type_parameters self;
     s_parameters := s_parameters self; s_code := s_code self |}.
Definition s_set_struct_handles (self : CompiledScript) (v : list StructHandle) : CompiledScript :=
  {| s_version := s_version self; s_module_handles := s_module_handles self;
     s_struct_handles := v; s_function_handles := s_function_handles self;
     s_function_instantiations := s_function_instantiations self;
     s_signatures := s_signatures self; s_identifiers := s_identifiers self;
     s_address_identifiers := s_address_identifiers self;
     s_constant_pool := s_constant_pool self; s_type_parameters := s_type_parameters self;
     s_parameters := s_parameters self; s_code := s_code self |}.
Definition s_set_function_handles (self : CompiledScript) (v : list FunctionHandle) : CompiledScript :=
  {| s_version := s_version self; s_module_handles := s_module_handles self;
     s_struct_handles := s_struct_handles self; s_function_handles := v;
     s_function_instantiations := s_function_instantiations self;
     s_signatures := s_signatures self; s_identifiers := s_identifiers self;
     s_address_identifiers := s_address_identifiers self;
     s_constant_pool := s_constant_pool self; s_type_parameters := s_type_parameters self;
     s_parameters := s_parameters self; s_code := s_code self |}.
Definition s_set_function_instantiations (self : CompiledScript) (v : list FunctionInstantiation) : CompiledScript :=
  {| s_version := s_version self; s_module_handles := s_module_handles self;
     s_struct_handles := s_struct_handles self; s_function_handles := s_function_handles self;
     s_function_instantiations := v; s_signatures := s_signatures self;
     s_identifiers := s_identifiers self; s_address_identifiers := s_address_identifiers self;
     s_constant_pool := s_constant_pool self; s_type_parameters := s_type_parameters self;
     s_parameters := s_parameters self; s_code := s_code self |}.
Definition s_set_signatures (self : CompiledScript) (v : list Signature) : CompiledScript :=
  {| s_version := s_version self; s_module_handles := s_module_handles self;
     s_struct_handles := s_struct_handles self; s_function_handles := s_function_handles self;
     s_function_instantiations := s_function_instantiations self; s_signatures := v;
     s_identifiers := s_identifiers self; s_address_identifiers := s_address_identifiers self;
     s_constant_pool := s_constant_pool self; s_type_parameters := s_type_parameters self;
     s_parameters := s_parameters self; s_code := s_code self |}.
Definition s_set_identifiers (self : CompiledScript) (v : list Identifier) : CompiledScript :=
  {| s_version := s_version self; s_module_handles := s_module_handles self;
     s_struct_handles := s_struct_handles self; s_function_handles := s_function_handles self;
     s_function_instantiations := s_function_instantiations self;
     s_signatures := s_signatures self; s_identifiers := v;
     s_address_identifiers := s_address_identifiers self;
     s_constant_pool := s_constant_pool self; s_type_parameters := s_type_parameters self;
     s_parameters := s_parameters self; s_code := s_code self |}.
Definition s_set_address_identifiers (self : CompiledScript) (v : list AccountAddress) : CompiledScript :=
  {| s_version := s_version self; s_module_handles := s_module_handles self;
     s_struct_handles := s_struct_handles self; s_function_handles := s_function_handles self;
     s_function_instantiations := s_function_instantiations self;
     s_signatures := s_signatures self; s_identifiers := s_identifiers self;
     s_address_identifiers := v; s_constant_pool := s_constant_pool self;
     s_type_parameters := s_type_parameters self; s_parameters := s_parameters self;
     s_code := s_code self |}.
Definition s_set_constant_pool (self : CompiledScript) (v : list Constant) : CompiledScript :=
  {| s_version := s_version self; s_module_handles := s_module_handles self;
     s_struct_handles := s_struct_handles self; s_function_handles := s_function_handles self;
     s_function_instantiations := s_function_instantiations self;
     s_signatures := s_signatures self; s_identifiers := s_identifiers self;
     s_address_identifiers := s_address_identifiers self; s_constant_pool := v;
     s_type_parameters := s_type_parameters self; s_parameters := s_parameters self;
     s_code := s_code self |}.
Definition m_set_module_handles (self : CompiledModule) (v : list ModuleHandle) : CompiledModule :=
  {| m_version := m_version self; m_self_module_handle_idx := m_self_module_handle_idx self;
     m_module_handles := v; m_struct_handles := m_struct_handles self;
     m_function_handles := m_function_handles self; m_field_handles := m_field_handles self;
     m_friend_decls := m_friend_decls self;
     m_struct_def_instantiations := m_struct_def_instantiations self;
     m_function_instantiations := m_function_instantiations self;
     m_field_instantiations := m_field_instantiations self; m_signatures := m_signatures self;
     m_identifiers := m_identifiers self; m_address_identifiers := m_address_identifiers self;
     m_constant_pool := m_constant_pool self; m_struct_defs := m_struct_defs self;
     m_function_defs := m_function_defs self |}.
Definition m_set_struct_handles (self : CompiledModule) (v : list StructHandle) : CompiledModule :=
  {| m_version := m_version self; m_self_module_handle_idx := m_self_module_handle_idx self;
     m_module_handles := m_module_handles self; m_struct_handles := v;
     m_function_handles := m_function_handles self; m_field_handles := m_field_handles self;
     m_friend_decls := m_friend_decls self;
     m_struct_def_instantiations := m_struct_def_instantiations self;
     m_function_instantiations := m_function_instantiations self;
     m_field_instantiations := m_field_instantiations self; m_signatures := m_signatures self;
     m_identifiers := m_identifiers self; m_address_identifiers := m_address_identifiers self;
     m_constant_pool := m_constant_pool self; m_struct_defs := m_struct_defs self;
     m_function_defs := m_function_defs self |}.
Definition m_set_function_handles (self : CompiledModule) (v : list FunctionHandle) : CompiledModule :=
  {| m_version := m_version self; m_self_module_handle_idx := m_self_module_handle_idx self;
     m_module_handles := m_module_handles self; m_struct_handles := m_struct_handles self;
     m_function_handles := v; m_field_handles := m_field_handles self;
     m_friend_decls := m_friend_decls self;
     m_struct_def_instantiations := m_struct_def_instantiations self;
     m_function_instantiations := m_function_instantiations self;
     m_field_instantiations := m_field_instantiations self; m_signatures := m_signatures self;
     m_identifiers := m_identifiers self; m_address_identifiers := m_address_identifiers self;
     m_constant_pool := m_constant_pool self; m_struct_defs := m_struct_defs self;
     m_function_defs := m_function_defs self |}.
Definition m_set_function_instantiations (self : CompiledModule) (v : list FunctionInstantiation) : CompiledModule :=
  {| m_version := m_version self; m_self_module_handle_idx := m_self_module_handle_idx self;
     m_module_handles := m_module_handles self; m_struct_handles := m_struct_handles self;
     m_function_handles := m_function_handles self; m_field_handles := m_field_handles self;
     m_friend_decls := m_friend_decls self;
     m_struct_def_instantiations := m_struct_def_instantiations self;
     m_function_instantiations := v; m_field_instantiations := m_field_instantiations self;
     m_signatures := m_signatures self; m_identifiers := m_identifiers self;
     m_address_identifiers := m_address_identifiers self;
     m_constant_pool := m_constant_pool self; m_struct_defs := m_struct_defs self;
     m_function_defs := m_function_defs self |}.
Definition m_set_signatures (self : CompiledModule) (v : list Signature) : CompiledModule :=
  {| m_version := m_version self; m_self_module_handle_idx := m_self_module_handle_idx self;
     m_module_handles := m_module_handles self; m_struct_handles := m_struct_handles self;
     m_function_handles := m_function_handles self; m_field_handles := m_field_handles self;
     m_friend_decls := m_friend_decls self;
     m_struct_def_instantiations := m_struct_def_instantiations self;
     m_function_instantiations := m_function_instantiations self;
     m_field_instantiations := m_field_instantiations self; m_signatures := v;
     m_identifiers := m_identifiers self; m_address_identifiers := m_address_identifiers self;
     m_constant_pool := m_constant_pool self; m_struct_defs := m_struct_defs self;
     m_function_defs := m_function_defs self |}.
Definition m_set_identifiers (self : CompiledModule) (v : list Identifier) : CompiledModule :=
  {| m_version := m_version self; m_self_module_handle_idx := m_self_module_handle_idx self;
     m_module_handles := m_module_handles self; m_struct_handles := m_struct_handles self;
     m_function_handles := m_function_handles self; m_field_handles := m_field_handles self;
     m_friend_decls := m_friend_decls self;
     m_struct_def_instantiations := m_struct_def_instantiations self;
     m_function_instantiations := m_function_instantiations self;
     m_field_instantiations := m_field_instantiations self; m_signatures := m_signatures self;
     m_identifiers := v; m_address_identifiers := m_address_identifiers self;
     m_constant_pool := m_constant_pool self; m_struct_defs := m_struct_defs self;
     m_function_defs := m_function_defs self |}.
Definition m_set_address_identifiers (self : CompiledModule) (v : list AccountAddress) : CompiledModule :=
  {| m_version := m_version self; m_self_module_handle_idx := m_self_module_handle_idx self;
     m_module_handles := m_module_handles self; m_struct_handles := m_struct_handles self;
     m_function_handles := m_function_handles self; m_field_handles := m_field_handles self;
     m_friend_decls := m_friend_decls self;
     m_struct_def_instantiations := m_struct_def_instantiations self;
     m_function_instantiations := m_function_instantiations self;
     m_field_instantiations := m_field_instantiations self; m_signatures := m_signatures self;
     m_identifiers := m_identifiers self; m_address_identifiers := v;
     m_constant_pool := m_constant_pool self; m_struct_defs := m_struct_defs self;
     m_function_defs := m_function_defs self |}.
Definition m_set_constant_pool (self : CompiledModule) (v : list Constant) : CompiledModule :=
  {| m_version := m_version self; m_self_module_handle_idx := m_self_module_handle_idx self;
     m_module_handles := m_module_handles self; m_struct_handles := m_struct_handles self;
     m_function_handles := m_function_handles self; m_field_handles := m_field_handles self;
     m_friend_decls := m_friend_decls self;
     m_struct_def_instantiations := m_struct_def_instantiations self;
     m_function_instantiations := m_function_instantiations self;
     m_field_instantiations := m_field_instantiations self; m_signatures := m_signatures self;
     m_identifiers := m_identifiers self; m_address_identifiers := m_address_identifiers self;
     m_constant_pool := v; m_struct_defs := m_struct_defs self;
     m_function_defs := m_function_defs self |}.
Definition m_set_struct_defs (self : CompiledModule) (v : list StructDefinition) : CompiledModule :=
  {| m_version := m_version self; m_self_module_handle_idx := m_self_module_handle_idx self;
     m_module_handles := m_module_handles self; m_struct_handles := m_struct_handles self;
     m_function_handles := m_function_handles self; m_field_handles := m_field_handles self;
     m_friend_decls := m_friend_decls self;
     m_struct_def_instantiations := m_struct_def_instantiations self;
     m_function_instantiations := m_function_instantiations self;
     m_field_instantiations := m_field_instantiations self; m_signatures := m_signatures self;
     m_identifiers := m_identifiers self; m_address_identifiers := m_address_identifiers self;
     m_constant_pool := m_constant_pool self; m_struct_defs := v;
     m_function_defs := m_function_defs self |}.
Definition m_set_struct_def_instantiations (self : CompiledModule) (v : list StructDefInstantiation) : CompiledModule :=
  {| m_version := m_version self; m_self_module_handle_idx := m_self_module_handle_idx self;
     m_module_handles := m_module_handles self; m_struct_handles := m_struct_handles self;
     m_function_handles := m_function_handles self; m_field_handles := m_field_handles self;
     m_friend_decls := m_friend_decls self; m_struct_def_instantiations := v;
     m_function_instantiations := m_function_instantiations self;
     m_field_instantiations := m_field_instantiations self; m_signatures := m_signatures self;
     m_identifiers := m_identifiers self; m_address_identifiers := m_address_identifiers self;
     m_constant_pool := m_constant_pool self; m_struct_defs := m_struct_defs self;
     m_function_defs := m_function_defs self |}.
Definition m_set_function_defs (self : CompiledModule) (v : list FunctionDefinition) : CompiledModule :=
  {| m_version := m_version self; m_self_module_handle_idx := m_self_module_handle_idx self;
     m_module_handles := m_module_handles self; m_struct_handles := m_struct_handles self;
     m_function_handles := m_function_handles self; m_field_handles := m_field_handles self;
     m_friend_decls := m_friend_decls self;
     m_struct_def_instantiations := m_struct_def_instantiations self;
     m_function_instantiations := m_function_instantiations self;
     m_field_instantiations := m_field_instantiations self; m_signatures := m_signatures self;
     m_identifiers := m_identifiers self; m_address_identifiers := m_address_identifiers self;
     m_constant_pool := m_constant_pool self; m_struct_defs := m_struct_defs self;
     m_function_defs := v |}.
Definition m_set_field_handles (self : CompiledModule) (v : list FieldHandle) : CompiledModule :=
  {| m_version := m_version self; m_self_module_handle_idx := m_self_module_handle_idx self;
     m_module_handles := m_module_handles self; m_struct_handles := m_struct_handles self;
     m_function_handles := m_function_handles self; m_field_handles := v;
     m_friend_decls := m_friend_decls self;
     m_struct_def_instantiations := m_struct_def_instantiations self;
     m_function_instantiations := m_function_instantiations self;
     m_field_instantiations := m_field_instantiations self; m_signatures := m_signatures self;
     m_identifiers := m_identifiers self; m_address_identifiers := m_address_identifiers self;
     m_constant_pool := m_constant_pool self; m_struct_defs := m_struct_defs self;
     m_function_defs := m_function_defs self |}.
Definition m_set_field_instantiations (self : CompiledModule) (v : list FieldInstantiation) : CompiledModule :=
  {| m_version := m_version self; m_self_module_handle_idx := m_self_module_handle_idx self;
     m_module_handles := m_module_handles self; m_struct_handles := m_struct_handles self;
     m_function_handles := m_function_handles self; m_field_handles := m_field_handles self;
     m_friend_decls := m_friend_decls self;
     m_struct_def_instantiations := m_struct_def_instantiations self;
     m_function_instantiations := m_function_instantiations self; m_field_instantiations := v;
     m_signatures := m_signatures self; m_identifiers := m_identifiers self;
     m_address_identifiers := m_address_identifiers self;
     m_constant_pool := m_constant_pool self; m_struct_defs := m_struct_defs self;
     m_function_defs := m_function_defs self |}.
Definition m_set_friend_decls (self : CompiledModule) (v : list ModuleHandle) : CompiledModule :=
  {| m_version := m_version self; m_self_module_handle_idx := m_self_module_handle_idx self;
     m_module_handles := m_module_handles self; m_struct_handles := m_struct_handles self;
     m_function_handles := m_function_handles self; m_field_handles := m_field_handles self;
     m_friend_decls := v; m_struct_def_instantiations := m_struct_def_instantiations self;
     m_function_instantiations := m_function_instantiations self;
     m_field_instantiations := m_field_instantiations self; m_signatures := m_signatures self;
     m_identifiers := m_identifiers self; m_address_identifiers := m_address_identifiers self;
     m_constant_pool := m_constant_pool self; m_struct_defs := m_struct_defs self;
     m_function_defs := m_function_defs self |}.
#[export] Instance script_tables_mut : CommonTablesMut CompiledScript := {
  set_module_handles := s_set_module_handles;
  set_struct_handles := s_set_struct_handles;
  set_function_handles := s_set_function_handles;
  set_function_instantiations := s_set_function_instantiations;
  set_signatures := s_set_signatures;
  set_identifiers := s_set_identifiers;
  set_address_identifiers := s_set_address_identifiers;
  set_constant_pool := s_set_constant_pool }.
#[export] Instance module_tables_mut : CommonTablesMut CompiledModule := {
  set_module_handles := m_set_module_handles;
  set_struct_handles := m_set_struct_handles;
  set_function_handles := m_set_function_handles;
  set_function_instantiations := m_set_function_instantiations;
  set_signatures := m_set_signatures;
  set_identifiers := m_set_identifiers;
  set_address_identifiers := m_set_address_identifiers;
  set_constant_pool := m_set_constant_pool }.

(** The body of the loop of [build_common_tables] *)
Definition build_common_table `{CommonTablesMut T} (binary : VersionedBinary) (common : T)
    (table : Table) : result StatusCode T :=
  match t_kind table with
  | TableType.MODULE_HANDLES =>
      v ← load_module_handles binary table (get_module_handles common); Ok (set_module_handles common v)
  | TableType.STRUCT_HANDLES =>
      v ← load_struct_handles binary table (get_struct_handles common); Ok (set_struct_handles common v)
  | TableType.FUNCTION_HANDLES =>
      v ← load_function_handles binary table (get_function_handles common); Ok (set_function_handles common v)
  | TableType.FUNCTION_INST =>
      v ← load_function_instantiations binary table (get_function_instantiations common); Ok (set_function_instantiations common v)
  | TableType.SIGNATURES =>
      v ← load_signatures binary table (get_signatures common); Ok (set_signatures common v)
  | TableType.CONSTANT_POOL =>
      v ← load_constant_pool binary table (get_constant_pool common); Ok (set_constant_pool common v)
  | TableType.IDENTIFIERS =>
      v ← load_identifiers binary table (get_identifiers common); Ok (set_identifiers common v)
  | TableType.ADDRESS_IDENTIFIERS =>
      v ← load_address_identifiers binary table (get_address_identifiers common); Ok (set_address_identifiers common v)
  | TableType.FUNCTION_DEFS | TableType.STRUCT_DEFS | TableType.STRUCT_DEF_INST
  | TableType.FIELD_HANDLE | TableType.FIELD_INST => Ok common
  | TableType.FRIEND_DECLS =>
      if vb_version binary <? VERSION_2 then Err MALFORMED else Ok common
  end.
Definition build_common_tables `{CommonTablesMut T} (binary : VersionedBinary)
    (tables : list Table) (common : T) : result StatusCode T :=
  try_fold (build_common_table binary) tables common.

(** The body of the loop of [build_module_tables] *)
Definition build_module_table (binary : VersionedBinary) (module : CompiledModule)
    (table : Table) : result StatusCode CompiledModule :=
  match t_kind table with
  | TableType.STRUCT_DEFS =>
      v ← load_struct_defs binary table (m_struct_defs module); Ok (m_set_struct_defs module v)
  | TableType.STRUCT_DEF_INST =>
      v ← load_struct_instantiations binary table (m_struct_def_instantiations module); Ok (m_set_struct_def_instantiations module v)
  | TableType.FUNCTION_DEFS =>
      v ← load_function_defs binary table (m_function_defs module); Ok (m_set_function_defs module v)
  | TableType.FIELD_HANDLE =>
      v ← load_field_handles binary table (m_field_handles module); Ok (m_set_field_handles module v)
  | TableType.FIELD_INST =>
      v ← load_field_instantiations binary table (m_field_instantiations module); Ok (m_set_field_instantiations module v)
  | TableType.FRIEND_DECLS =>
      v ← load_module_handles binary table (m_friend_decls module); Ok (m_set_friend_decls module v)
  | TableType.MODULE_HANDLES | TableType.STRUCT_HANDLES | TableType.FUNCTION_HANDLES
  | TableType.FUNCTION_INST | TableType.IDENTIFIERS | TableType.ADDRESS_IDENTIFIERS
  | TableType.CONSTANT_POOL | TableType.SIGNATURES => Ok module
  end.
Definition build_module_tables (binary : VersionedBinary) (tables : list Table)
    (module : CompiledModule) : result StatusCode CompiledModule :=
  try_fold (build_module_table binary) tables module.

(** [build_script_tables]: no table of a module *)
Definition build_script_table (script : CompiledScript) (table : Table)
  : result StatusCode CompiledScript :=
  match t_kind table with
  | TableType.MODULE_HANDLES | TableType.STRUCT_HANDLES | TableType.FUNCTION_HANDLES
  | TableType.FUNCTION_INST | TableType.SIGNATURES | TableType.IDENTIFIERS
  | TableType.ADDRESS_IDENTIFIERS | TableType.CONSTANT_POOL => Ok script
  | TableType.STRUCT_DEFS | TableType.STRUCT_DEF_INST | TableType.FUNCTION_DEFS
  | TableType.FIELD_INST | TableType.FIELD_HANDLE | TableType.FRIEND_DECLS => Err MALFORMED
  end.
Definition build_script_tables (tables : list Table) (script : CompiledScript)
  : result StatusCode CompiledScript :=
  try_fold build_script_table tables script.

Definition build_compiled_script (script : CompiledScript) (binary : VersionedBinary)
    (tables : list Table) : result StatusCode CompiledScript :=
  script ← build_common_tables binary tables script;
  build_script_tables tables script.
Definition build_compiled_module (module : CompiledModule) (binary : VersionedBinary)
    (tables : list Table) : result StatusCode CompiledModule :=
  module ← build_common_tables binary tables module;
  build_module_tables binary tables module.

(** A script and a module with no table ([..Default::default()]) *)
Definition script_default (version : u32) (type_parameters : list AbilitySet)
    (parameters : SignatureIndex) (code : CodeUnit) : CompiledScript :=
  {| s_version := version; s_module_handles := []; s_struct_handles := [];
     s_function_handles := []; s_function_instantiations := []; s_signatures := [];
     s_identifiers := []; s_address_identifiers := []; s_constant_pool := [];
     s_type_parameters := type_parameters; s_parameters := parameters; s_code := code |}.
Definition module_default (version : u32) (self_module_handle_idx : ModuleHandleIndex)
  : CompiledModule :=
  {| m_version := version; m_self_module_handle_idx := self_module_handle_idx;
     m_module_handles := []; m_struct_handles := []; m_function_handles := [];
     m_field_handles := []; m_friend_decls := []; m_struct_def_instantiations := [];
     m_function_instantiations := []; m_field_instantiations := []; m_signatures := [];
     m_identifiers := []; m_address_identifiers := []; m_constant_pool := [];
     m_struct_defs := []; m_function_defs := [] |}.

(** ** Entry points *)

(** What [deserialize_compiled_script] and [deserialize_compiled_module] begin
    with: the checked tables and their contents, the cursor after them. *)
Definition load_tables (binary_len : N) : Loader (list Table * VersionedBinary) :=
  table_count ← load_table_count;
  tables ← read_tables table_count;
  '(tables, content_len) ← lift (check_tables tables binary_len);
  table_contents ← read_table_contents content_len;
  mret (tables, table_contents).

Definition deserialize_compiled_script (binary : list u8) : result StatusCode CompiledScript :=
  cursor ← VersionedCursor_new binary;
  '(script, _) ←
    ('(tables, table_contents) ← load_tables (len binary);
     version ← get_version;
     type_parameters ← load_ability_sets FunctionTypeParameters;
     parameters ← load_signature_index;
     code ← load_code_unit;
     lift (build_compiled_script (script_default version type_parameters parameters code)
             table_contents tables)) cursor;
  Ok script.

Definition deserialize_compiled_module (binary : list u8) : result StatusCode CompiledModule :=
  cursor ← VersionedCursor_new binary;
  '(module, _) ←
    ('(tables, table_contents) ← load_tables (len binary);
     version ← get_version;
     self_module_handle_idx ← load_module_handle_index;
     lift (build_compiled_module (module_default version self_module_handle_idx)
             table_contents tables)) cursor;
  Ok module.
