(* ===== verification/DeserializerTotal.v ===== *)
(** * DeserializerTotal: the deserializer on arbitrary bytes

    Theorems about [Deserializer] for inputs nobody produced: it returns a unit
    or an error on every byte string, never a panic, and every loop ends; the
    tables it accepts tile the contents; the tokens it builds are within the
    depth limit; vector instructions need version 4. *)

From stdpp Require Import sorting.
From S2P Require Import Prelude CoreTypes VmStatus Abilities FileFormat BinaryCommon Uleb Loader Serializer Deserializer.

(** ** Integers and tags *)

Lemma read_uleb_loop_consumes rf c value shift r c' :
  read_uleb_loop rf c value shift = Ok (r, c') → ∃ bs, consumes c bs c' ∧ 1 <= len bs.
Proof.
  revert c value shift; induction rf as [|rf IH]; intros c value shift; [done|].
  cbn [read_uleb_loop]. destruct (read_u8 c) as [[byte c1]| | |] eqn:E1; try done.
  apply read_u8_Ok in E1.
  intros (shifted & _ & H)%bind_Ok. repeat case_match; simplify_eq.
  - exists [byte]. split; [done|]. len_lia.
  - destruct (IH _ _ _ H) as (bs & Hc & _). exists (byte :: bs).
    split; [by apply (consumes_trans c [byte] c1 bs)|len_lia].
Qed.

Lemma total_read_u8 e : total 1 (vc_read_u8 e).
Proof.
  apply total_on_cursor; [apply read_u8_total|]. intros c a c' H%read_u8_Ok.
  exists [a]. split; [done|len_lia].
Qed.
Lemma total_read_exact e n : total n (on_cursor e (λ c, cursor_read_exact c n)).
Proof.
  apply total_on_cursor; [intros; apply cursor_read_exact_total|].
  intros c a c' [H Hn]%cursor_read_exact_Ok. exists a. split; [done|lia].
Qed.
Lemma total_read_u64 : total 1 read_u64_internal.
Proof.
  apply (total_weaken 8); [|lia]. apply total_bind_l; [apply total_read_exact|].
  intros; apply total_ret.
Qed.
Lemma total_read_u128 : total 1 read_u128_internal.
Proof.
  apply (total_weaken 16); [|lia]. apply total_bind_l; [apply total_read_exact|].
  intros; apply total_ret.
Qed.
Lemma total_uleb T_max max : total 1 (read_uleb_internal T_max max).
Proof.
  apply total_bind_l.
  - apply total_on_cursor; [apply read_uleb128_total|].
    intros c a c' H. by apply read_uleb_loop_consumes in H.
  - intros x. repeat apply total_if; auto with total.
Qed.
Lemma vc_read_Ok n c amt buf c' :
  vc_read n c = Ok ((amt, buf), c') → ∃ bs, vconsumes c bs c' ∧ amt = len bs ∧
    (amt = n → buf = bs).
Proof.
  unfold vc_read, cursor_read. intros [= <- <- <-].
  set (amt := N.min n (len (fill_buf (vc_cursor c)))).
  exists (take (N.to_nat amt) (vrest c)).
  assert (len (take (N.to_nat amt) (vrest c)) = amt) as E.
  { unfold len, amt, vrest, len. rewrite length_take. lia. }
  split; [|split; [by rewrite E|]].
  - split; [unfold vseek; by rewrite E|]. unfold vrest. simpl.
    rewrite fill_buf_seek by (unfold amt; lia). by rewrite take_drop.
  - intros ->. by rewrite N.sub_diag, app_nil_r.
Qed.
Lemma total_vc_read n : total 0 (vc_read n).
Proof.
  intros c. destruct (vc_read n c) as [[[amt buf] c']| | |] eqn:E; try done.
  apply vc_read_Ok in E as (bs & H & _). exists bs. split; [done|lia].
Qed.

(** The conversions of tags fail, they do not panic. *)
Ltac no_panic_match := intros; repeat (case_match; try done); done.
Lemma TableType_total v : no_panic (TableType_from_u8 v).
Proof. unfold TableType_from_u8. no_panic_match. Qed.
Lemma SerializedType_total v : no_panic (SerializedType_from_u8 v).
Proof. unfold SerializedType_from_u8. no_panic_match. Qed.
Lemma NativeStructFlag_total v : no_panic (SerializedNativeStructFlag_from_u8 v).
Proof. unfold SerializedNativeStructFlag_from_u8. no_panic_match. Qed.
Lemma Opcodes_total v : no_panic (Opcodes_from_u8 v).
Proof. unfold Opcodes_from_u8. no_panic_match. Qed.
Lemma NominalResourceFlag_total v : no_panic (DeprecatedNominalResourceFlag_from_u8 v).
Proof. unfold DeprecatedNominalResourceFlag_from_u8. no_panic_match. Qed.
Lemma DeprecatedKind_total v : no_panic (DeprecatedKind_from_u8 v).
Proof. unfold DeprecatedKind_from_u8. no_panic_match. Qed.
Lemma ok_or_total {E A} (e : E) (o : option A) : no_panic (ok_or e o).
Proof. by destruct o. Qed.

#[export] Hint Resolve total_read_u8 total_read_u64 total_read_u128 total_uleb total_vc_read
  TableType_total SerializedType_total NativeStructFlag_total Opcodes_total
  NominalResourceFlag_total DeprecatedKind_total ok_or_total load_n_total total_lift : total.
#[export] Hint Extern 4 (total 0 _) => eapply (total_0 1) : total.

(** Follow the structure of a loader down to the ones that are known. *)
Ltac total_step :=
  match goal with
  | |- total _ (mret _) => apply total_ret
  | |- total _ (fail _) => apply total_fail
  | |- total _ get_version => apply total_version
  | |- total _ (if _ then _ else _) => apply total_if
  | |- total _ (_ ≫= _) => apply total_bind_l; [|intros]
  | |- total _ (match ?x with _ => _ end) => destruct x
  | |- total _ _ => solve [eauto with total]
  end.
Ltac total_tac := repeat total_step.

Lemma total_load_ability_set pos : total 1 (load_ability_set pos).
Proof.
  unfold load_ability_set. apply (total_weaken (0 + 1)); [|lia].
  apply total_bind; [apply total_version|]. intros version. total_tac.
Qed.
#[export] Hint Resolve total_load_ability_set : total.

Lemma total_load_ability_sets pos : total 1 (load_ability_sets pos).
Proof. unfold load_ability_sets, load_type_parameter_count. total_tac. Qed.
Lemma total_load_struct_type_parameters : total 1 load_struct_type_parameters.
Proof.
  unfold load_struct_type_parameters, load_type_parameter_count. total_tac.
  apply load_n_total. unfold load_struct_type_parameter. total_tac.
Qed.
#[export] Hint Resolve total_load_ability_sets total_load_struct_type_parameters : total.

(** ** Signature tokens *)

Lemma total_read_next : total 1 read_next.
Proof. unfold read_next, load_struct_handle_index, load_type_parameter_count,
  load_type_parameter_index. total_tac. Qed.

(** Below the top of the stack no builder is saturated. *)
Definition unsaturated (b : TypeBuilder) : Prop := TypeBuilder.is_saturated b = false.

Lemma apply_unsaturated {E} b tok :
  unsaturated b → ∃ b', TypeBuilder.apply (E := E) b tok = Ok b'.
Proof.
  destruct b; simpl; try done; intros _; [by eexists..|]. case_match; by eexists.
Qed.

Lemma vconsumes_length c bs c' :
  vconsumes c bs c' → len (vrest c) = len bs + len (vrest c').
Proof. intros [_ ->]. apply len_app. Qed.

Lemma token_loop_total fuel top stack c :
  Forall unsaturated stack →
  (2 * length (vrest c) + S (length stack) < fuel)%nat →
  match token_loop fuel (top :: stack) c with
  | Ok (_, c') => ∃ bs, vconsumes c bs c'
  | Err _ => True
  | Panic | OutOfFuel => False
  end.
Proof.
  revert top stack c; induction fuel as [|fuel IH]; intros top stack c Hs Hf; [lia|].
  cbn [token_loop]. destruct (_ <? _); [done|].
  destruct (TypeBuilder.is_saturated top) eqn:Esat.
  - destruct top as [tok| | | |]; try done. unfold mbind, loader_bind, lift at 1. simpl.
    destruct stack as [|t stack]; [exists []; apply vconsumes_nil|].
    inversion Hs as [|? ? Ht Hs']; subst.
    destruct (apply_unsaturated (E := StatusCode) t tok Ht) as [t' Ht']. unfold lift. rewrite Ht'.
    apply IH; [done|]. simpl in Hf. lia.
  - unfold mbind, loader_bind. pose proof (total_read_next c) as Hr.
    destruct (read_next c) as [[t c1]| | |]; try done. destruct Hr as (bs & Hc & Hbs).
    pose proof (vconsumes_length _ _ _ Hc) as Hl. unfold len in *.
    specialize (IH t (top :: stack) c1).
    destruct (token_loop fuel (t :: top :: stack) c1) as [[tok c2]| | |]; try done;
      try (apply IH; [by constructor|simpl; lia]).
    destruct IH as [bs2 Hc2]; [by constructor|simpl; lia|].
    eexists. by eapply vconsumes_trans.
Qed.

Lemma total_token_loop (t : TypeBuilder) :
  total 0 (n ← remaining; token_loop (2 * n + 2) [t]).
Proof.
  intros c. unfold mbind, loader_bind, remaining.
  pose proof (token_loop_total (2 * length (vrest c) + 2) t [] c) as H.
  destruct (token_loop _ _ _) as [[tok c']| | |]; try done;
    try (apply H; [constructor|simpl; lia]).
  destruct H as [bs Hc]; [constructor|simpl; lia|]. exists bs. split; [done|lia].
Qed.

Lemma total_load_signature_token : total 1 load_signature_token.
Proof.
  apply total_bind_l; [apply total_read_next|]. intros [tok| | | |].
  - apply total_ret.
  - apply total_token_loop.
  - apply total_token_loop.
  - apply total_token_loop.
  - apply total_token_loop.
Qed.
#[export] Hint Resolve total_load_signature_token : total.

(** A builder at height [p] of the stack holds tokens that leave room for the
    builders below it. *)
Definition depth_room (p : N) (b : TypeBuilder) : Prop :=
  match b with
  | TypeBuilder.Saturated tok =>
      p <= SIGNATURE_TOKEN_DEPTH_MAX →
      p + N.of_nat (SignatureToken.depth tok) <= SIGNATURE_TOKEN_DEPTH_MAX + 1
  | TypeBuilder.StructInst _ _ ty_args =>
      Forall (λ a, p + N.of_nat (SignatureToken.depth a) <= SIGNATURE_TOKEN_DEPTH_MAX) ty_args
  | _ => True
  end.
Fixpoint stack_room (stack : list TypeBuilder) : Prop :=
  match stack with
  | [] => True
  | b :: l => depth_room (len stack) b ∧ stack_room l
  end.

Lemma read_next_room p c t c' : read_next c = Ok (t, c') → depth_room p t.
Proof.
  unfold read_next, mbind, loader_bind, lift, mret, loader_ret. intros H.
  repeat (case_match; simplify_eq/=); try done; lia.
Qed.

Lemma apply_room {E} p b tok b' :
  depth_room p b → p + 1 + N.of_nat (SignatureToken.depth tok) <= SIGNATURE_TOKEN_DEPTH_MAX + 1 →
  TypeBuilder.apply (E := E) b tok = Ok b' → depth_room p b'.
Proof.
  intros Hb Ht. destruct b as [| | | |sh arity args]; simpl; try (intros [= <-]; simpl; lia).
  intros H. simpl in Hb.
  assert (Forall (λ a, p + N.of_nat (SignatureToken.depth a) <= SIGNATURE_TOKEN_DEPTH_MAX)
            (args ++ [tok])) as Hall.
  { apply Forall_app. split; [done|]. constructor; [lia|constructor]. }
  destruct (arity <=? _); injection H as <-; [|done]. simpl. intros Hp.
  assert (p + N.of_nat (max_list_with SignatureToken.depth (args ++ [tok]))
          <= SIGNATURE_TOKEN_DEPTH_MAX); [|lia].
  induction Hall as [|a l Ha _ IH]; simpl; [lia|]. lia.
Qed.

Lemma token_loop_depth fuel stack c tok c' :
  stack_room stack → token_loop fuel stack c = Ok (tok, c') →
  N.of_nat (SignatureToken.depth tok) <= SIGNATURE_TOKEN_DEPTH_MAX.
Proof.
  revert stack c; induction fuel as [|fuel IH]; intros stack c Hs; [done|].
  cbn [token_loop]. destruct (N.ltb_spec SIGNATURE_TOKEN_DEPTH_MAX (len stack)) as [|Hlen]; [done|].
  destruct stack as [|top stack]; [done|]. destruct Hs as [Htop Hs].
  destruct (TypeBuilder.is_saturated top) eqn:Esat.
  - destruct top as [tok'| | | |]; try done. unfold mbind, loader_bind, lift at 1. simpl.
    simpl in Htop. specialize (Htop Hlen). rewrite len_cons in *.
    destruct stack as [|t stack]; [intros [= <- <-]; len_lia|].
    unfold lift. destruct (TypeBuilder.apply t tok') as [t'| | |] eqn:Et; try done.
    apply IH. destruct Hs as [Ht Hs]. split; [|done].
    rewrite len_cons in *. eapply (apply_room _ t tok'); [exact Ht| |exact Et]. lia.
  - unfold mbind, loader_bind.
    destruct (read_next c) as [[t c1]| | |] eqn:Er; try done.
    apply IH. split; [by eapply read_next_room|]. by split.
Qed.

(** A signature token the deserializer accepts has at most SIGNATURE_TOKEN_DEPTH_MAX
    nested constructors, whatever bytes it was read from. *)
Theorem load_signature_token_depth (c c' : VersionedCursor) (tok : SignatureToken) :
  load_signature_token c = Ok (tok, c') →
  N.of_nat (SignatureToken.depth tok) <= SIGNATURE_TOKEN_DEPTH_MAX.
Proof.
  unfold load_signature_token. unfold mbind at 1, loader_bind at 1.
  destruct (read_next c) as [[t c1]| | |] eqn:Er; try done.
  pose proof (read_next_room 1 _ _ _ Er) as Ht.
  destruct t; [intros [= <- <-]; simpl in Ht; unfold SIGNATURE_TOKEN_DEPTH_MAX in *; lia|..];
    unfold mbind, loader_bind, remaining; apply token_loop_depth; by split.
Qed.

Lemma load_signature_token_depth_witness :
  load_signature_token {| vc_version := 4; vc_cursor := Cursor_new [10; 10; 2] |}
    = Ok (SignatureToken.Vector (SignatureToken.Vector SignatureToken.U8),
          {| vc_version := 4; vc_cursor := {| cur_inner := [10; 10; 2]; cur_pos := 3 |} |}) ∧
  3 <= SIGNATURE_TOKEN_DEPTH_MAX.
Proof.
  assert (load_signature_token {| vc_version := 4; vc_cursor := Cursor_new [10; 10; 2] |}
    = Ok (SignatureToken.Vector (SignatureToken.Vector SignatureToken.U8),
          {| vc_version := 4; vc_cursor := {| cur_inner := [10; 10; 2]; cur_pos := 3 |} |})) as H
    by (vm_compute; reflexivity).
  split; [exact H|]. exact (load_signature_token_depth _ _ _ H).
Defined.

(** ** Entries of tables *)

Lemma total_load_operands op : total 0 (load_operands op).
Proof.
  destruct op; unfold load_operands, load_bytecode_index, load_constant_pool_index,
    load_local_index, load_field_handle_index, load_field_inst_index, load_function_handle_index,
    load_function_inst_index, load_struct_def_index, load_struct_def_inst_index,
    load_signature_index; total_tac.
Qed.
Lemma total_load_instruction : total 1 load_instruction.
Proof. unfold load_instruction. total_tac. apply total_load_operands. Qed.
#[export] Hint Resolve total_load_instruction : total.
Lemma total_load_code_unit : total 1 load_code_unit.
Proof. unfold load_code_unit, load_signature_index, load_code, load_bytecode_count. total_tac. Qed.
#[export] Hint Resolve total_load_code_unit : total.

Lemma total_load_module_handle : total 1 load_module_handle.
Proof. unfold load_module_handle, load_address_identifier_index, load_identifier_index. total_tac. Qed.
Lemma total_load_struct_handle : total 1 load_struct_handle.
Proof. unfold load_struct_handle, load_module_handle_index, load_identifier_index. total_tac. Qed.
Lemma total_load_function_handle : total 1 load_function_handle.
Proof.
  unfold load_function_handle, load_module_handle_index, load_identifier_index,
    load_signature_index. total_tac.
Qed.
Lemma total_load_struct_instantiation : total 1 load_struct_instantiation.
Proof. unfold load_struct_instantiation, load_struct_def_index, load_signature_index. total_tac. Qed.
Lemma total_load_function_instantiation : total 1 load_function_instantiation.
Proof.
  unfold load_function_instantiation, load_function_handle_index, load_signature_index. total_tac.
Qed.
Lemma total_load_identifier : total 1 load_identifier.
Proof. unfold load_identifier, load_identifier_size. total_tac. Qed.
Lemma total_load_constant : total 1 load_constant.
Proof. unfold load_constant, load_constant_size. total_tac. Qed.
Lemma total_load_signature_tokens : total 1 load_signature_tokens.
Proof. unfold load_signature_tokens, load_signature_size. total_tac. Qed.
Lemma total_load_struct_def : total 1 load_struct_def.
Proof.
  unfold load_struct_def, load_struct_handle_index, load_field_defs, load_field_count.
  total_tac. apply load_n_total. unfold load_field_def, load_identifier_index. total_tac.
Qed.
Lemma total_load_field_handle : total 1 load_field_handle.
Proof. unfold load_field_handle, load_struct_def_index, load_field_offset. total_tac. Qed.
Lemma total_load_field_instantiation : total 1 load_field_instantiation.
Proof. unfold load_field_instantiation, load_field_handle_index, load_signature_index. total_tac. Qed.
Lemma total_load_function_def : total 1 load_function_def.
Proof.
  unfold load_function_def, load_function_handle_index, load_struct_definition_indices,
    load_acquires_count, load_struct_def_index. total_tac.
Qed.
#[export] Hint Resolve total_load_module_handle total_load_struct_handle total_load_function_handle
  total_load_struct_instantiation total_load_function_instantiation total_load_identifier
  total_load_constant total_load_signature_tokens total_load_struct_def total_load_field_handle
  total_load_field_instantiation total_load_function_def : total.

(** ** Tables *)

(** The contents of a table lie within the binary. *)
Definition table_within (n : N) (table : Table) : Prop := t_offset table + t_count table <= n.

Lemma slice_range_within {E} binary start end_ :
  start <= end_ → end_ <= len binary →
  ∃ s, slice_range (E := E) binary start end_ = Ok s ∧ len s = end_ - start.
Proof.
  intros H1 H2. unfold slice_range.
  rewrite (proj2 (N.leb_le _ _) H1), (proj2 (N.leb_le _ _) H2). eexists; split; [done|].
  unfold len in *. rewrite length_take, length_drop. lia.
Qed.

(** A cursor whose data ends at [end_]. *)
Definition ends_at (end_ : N) (c : VersionedCursor) : Prop :=
  position c + len (vrest c) = end_.

Lemma ends_at_vconsumes end_ c bs c' : vconsumes c bs c' → ends_at end_ c → ends_at end_ c'.
Proof.
  intros H. pose proof (vconsumes_length _ _ _ H). destruct H as [-> _].
  unfold ends_at. rewrite position_vseek. lia.
Qed.

Lemma new_cursor_within {E} binary start end_ :
  start <= end_ → end_ <= len (vb_binary binary) →
  ∃ c, new_cursor (E := E) binary start end_ = Ok c ∧ position c = 0 ∧ ends_at (end_ - start) c.
Proof.
  intros H1 H2. unfold new_cursor.
  destruct (slice_range_within (E := E) _ _ _ H1 H2) as (s & -> & Hs). eexists; split; [done|].
  split; [done|]. unfold ends_at, position, vrest, fill_buf. simpl.
  rewrite N.min_l by apply N.le_0_l. simpl. by rewrite N.add_0_l.
Qed.

(** Since the cursor cannot pass the end of its slice, the two loops agree. *)
Lemma load_until_while {A} (l : Loader A) fuel end_ c :
  total 1 l → ends_at end_ c → load_until fuel end_ l c = load_while fuel end_ l c.
Proof.
  intros Hl. revert c; induction fuel as [|fuel IH]; intros c Hc; [done|].
  cbn [load_until load_while]. unfold ends_at in Hc.
  destruct (N.eqb_spec (position c) end_), (N.ltb_spec (position c) end_); try lia; [done|].
  unfold mbind, loader_bind. specialize (Hl c).
  destruct (l c) as [[x c1]| | |]; try done. destruct Hl as (bs & Hbs & _).
  rewrite IH; [done|]. by eapply ends_at_vconsumes.
Qed.

Lemma load_table_total {A} (l : Loader A) binary table items :
  total 1 l → table_within (len (vb_binary binary)) table →
  no_panic (load_table l binary table items).
Proof.
  intros Hl Ht. unfold load_table.
  destruct (new_cursor_within (E := StatusCode) binary (t_offset table)
    (t_offset table + t_count table)) as (c & -> & Hp & _); [lia|done|].
  cbn [mbind result_bind].
  pose proof (load_while_total l (S (N.to_nat (t_count table))) (t_count table) c Hl) as H.
  rewrite Hp in H. specialize (H ltac:(lia)).
  by destruct (load_while _ _ _ _) as [[? ?]| | |].
Qed.
Lemma load_table_until_eq {A} (l : Loader A) binary table items :
  total 1 l → table_within (len (vb_binary binary)) table →
  load_table_until l binary table items = load_table l binary table items.
Proof.
  intros Hl Ht. unfold load_table_until, load_table.
  destruct (new_cursor_within (E := StatusCode) binary (t_offset table)
    (t_offset table + t_count table)) as (c & -> & _ & He); [lia|done|].
  cbn [mbind result_bind].
  rewrite load_until_while; [done..|]. by replace (t_count table) with
    (t_offset table + t_count table - t_offset table) by lia.
Qed.

Lemma load_addresses_total n binary start addresses :
  start + N.of_nat n * ADDRESS_LENGTH <= len (vb_binary binary) →
  no_panic (load_addresses n binary start addresses).
Proof.
  revert start addresses; induction n as [|n IH]; intros start addresses H; [done|].
  cbn [load_addresses]. unfold vb_slice.
  destruct (slice_range_within (E := StatusCode) (vb_binary binary) start (start + ADDRESS_LENGTH))
    as (s & -> & Hs); [lia|unfold ADDRESS_LENGTH in *; lia|]. simpl. unfold from_bytes.
  rewrite Hs. replace (start + ADDRESS_LENGTH - start) with ADDRESS_LENGTH by lia.
  simpl. apply IH. unfold ADDRESS_LENGTH in *. lia.
Qed.
Lemma load_address_identifiers_total binary table addresses :
  table_within (len (vb_binary binary)) table →
  no_panic (load_address_identifiers binary table addresses).
Proof.
  intros Ht. unfold load_address_identifiers, table_within in *. case_match; [done|].
  apply load_addresses_total. rewrite N2Nat.id.
  pose proof (N.Div0.mul_div_le (t_count table) ADDRESS_LENGTH). lia.
Qed.

(** *** [check_tables] *)

(** The tables, in order, cover the range from [off] to [end_] without gap or
    overlap. *)
Fixpoint tiles (off : N) (tables : list Table) (end_ : N) : Prop :=
  match tables with
  | [] => off = end_
  | t :: l => t_offset t = off ∧ 0 < t_count t ∧ tiles (off + t_count t) l end_
  end.

Lemma tiles_le off tables end_ : tiles off tables end_ → off <= end_.
Proof.
  revert off; induction tables as [|t l IH]; intros off; simpl; [lia|].
  intros (_ & _ & H%IH). lia.
Qed.
Lemma tiles_within off tables end_ : tiles off tables end_ → Forall (table_within end_) tables.
Proof.
  revert off; induction tables as [|t l IH]; intros off; simpl; [constructor|].
  intros (Ho & _ & H). constructor; [|by eapply IH].
  apply tiles_le in H. unfold table_within. lia.
Qed.

Lemma check_tables_fold binary_len tables off kinds end_ kinds' :
  off <= u32_MAX →
  try_fold (check_table binary_len) tables (off, kinds) = Ok (end_, kinds') ↔
  tiles off tables end_ ∧ NoDup (t_kind <$> tables) ∧
  (∀ k, k ∈ t_kind <$> tables → k ∉ kinds) ∧
  end_ <= u32_MAX ∧ (tables = [] ∨ end_ <= binary_len) ∧
  kinds' = foldl (λ s t, {[ t_kind t ]} ∪ s) kinds tables.
Proof.
  revert off kinds; induction tables as [|t l IH]; intros off kinds Hoff; cbn [try_fold tiles foldl].
  { split; [intros [= -> ->]|intros (-> & _ & _ & _ & _ & ->); done].
    repeat split; [constructor|by intros k ?%not_elem_of_nil|done|by left]. }
  rewrite bind_Ok. cbn [check_table fmap list_fmap]. rewrite NoDup_cons.
  assert (∀ e, tiles (off + t_count t) l e → off + t_count t <= e) as Hle
    by (intros e; apply tiles_le).
  split.
  - intros (st & Hst & H). revert Hst.
    destruct (N.eqb_spec (t_offset t) off) as [->|]; [|done]. simpl.
    destruct (N.eqb_spec (t_count t) 0); [done|]. unfold checked_add.
    destruct (N.leb_spec (off + t_count t) u32_MAX); [|done].
    case_bool_decide as Hk; [done|].
    destruct (N.ltb_spec binary_len (off + t_count t)); [done|]. intros [= <-].
    apply IH in H as (Ht & Hnd & Hks & He & Hb & ->); [|done].
    split; [auto with lia|]. split; [split; [|done]; intros Hin%Hks; set_solver|].
    split; [intros k [->|Hin]%elem_of_cons; [done|apply Hks in Hin; set_solver]|].
    split; [done|]. split; [right|done]. destruct Hb as [->|]; [simpl in Ht; lia|done].
  - intros ((Ho & Hc & Ht) & [Hk Hnd] & Hks & He & Hb & ->).
    pose proof (Hle _ Ht). eexists. split.
    + rewrite Ho, N.eqb_refl. simpl. destruct (N.eqb_spec (t_count t) 0); [lia|].
      unfold checked_add. destruct (N.leb_spec (off + t_count t) u32_MAX); [|lia].
      rewrite bool_decide_false by (apply Hks; set_solver).
      destruct (N.ltb_spec binary_len (off + t_count t)); [|reflexivity].
      destruct Hb; [done|lia].
    + apply IH; [lia|]. repeat split; try done.
      * intros k Hin [->%elem_of_singleton|Hk']%elem_of_union; [done|].
        apply (Hks k); [set_solver|done].
      * right. by destruct Hb.
Qed.

(** The sort of a list that tiles, in whatever order it is given. *)
Lemma insert_table_perm x l : insert_table x l ≡ₚ x :: l.
Proof.
  induction l as [|y l IH]; simpl; [done|]. case_match; [done|]. rewrite IH. constructor.
Qed.
Lemma sort_tables_perm l : sort_tables l ≡ₚ l.
Proof. induction l as [|x l IH]; simpl; [done|]. by rewrite insert_table_perm, IH. Qed.

Definition offset_le (t1 t2 : Table) : Prop := t_offset t1 <= t_offset t2.
Lemma insert_table_sorted x l :
  StronglySorted offset_le l → StronglySorted offset_le (insert_table x l).
Proof.
  induction 1 as [|y l Hl IH Hy]; simpl; [repeat constructor|].
  destruct (N.leb_spec (t_offset x) (t_offset y)).
  - constructor; [by constructor|]. constructor; [done|].
    eapply Forall_impl; [exact Hy|]. unfold offset_le. simpl. lia.
  - constructor; [done|]. rewrite insert_table_perm. constructor; [unfold offset_le; lia|done].
Qed.
Lemma sort_tables_sorted l : StronglySorted offset_le (sort_tables l).
Proof. induction l; simpl; [constructor|by apply insert_table_sorted]. Qed.

Lemma tiles_sorted off l end_ :
  tiles off l end_ → StronglySorted offset_le l ∧ Forall (λ t, off <= t_offset t) l ∧
    ∀ t1 t2, t1 ∈ l → t2 ∈ l → t_offset t1 = t_offset t2 → t1 = t2.
Proof.
  revert off; induction l as [|t l IH]; intros off; simpl.
  { intros _. repeat split; [constructor..|]. by intros ? ? ?%not_elem_of_nil. }
  intros (Ho & Hc & (Hs & Hf & Hu)%IH).
  assert (∀ u, u ∈ l → off < t_offset u) as Hlt.
  { intros u Hu'. eapply Forall_forall in Hf; [|exact Hu']. simpl in Hf. lia. }
  split; [|split].
  - constructor; [done|]. apply Forall_forall. intros u Hu'%Hlt. unfold offset_le. lia.
  - constructor; [lia|]. apply Forall_forall. intros u Hu'%Hlt. lia.
  - intros t1 t2 [->|H1]%elem_of_cons [->|H2]%elem_of_cons E; auto.
    + apply Hlt in H2. lia.
    + apply Hlt in H1. lia.
Qed.

Lemma sort_tables_tiles l ts off end_ : ts ≡ₚ l → tiles off ts end_ → sort_tables l = ts.
Proof.
  intros Hp Ht. destruct (tiles_sorted _ _ _ Ht) as (Hs & _ & Hu).
  apply (StronglySorted_unique_strong offset_le).
  - intros t1 t2 H1 H2. rewrite sort_tables_perm, <- Hp in H1. unfold offset_le.
    intros ? ?. apply Hu; [done..|lia].
  - apply sort_tables_sorted.
  - done.
  - by rewrite sort_tables_perm.
Qed.

(** check_tables accepts a list of table headers exactly when some order of them
    covers the contents from offset zero without gap or overlap, with non-empty tables of
    distinct kinds, within u32 and the binary; it then returns that order and the total
    length. *)
Theorem check_tables_spec (tables ts : list Table) (binary_len content_len : N) :
  check_tables tables binary_len = Ok (ts, content_len) ↔
  ts ≡ₚ tables ∧ tiles 0 ts content_len ∧ NoDup (t_kind <$> ts) ∧
  content_len <= u32_MAX ∧ (ts = [] ∨ content_len <= binary_len).
Proof.
  unfold check_tables. rewrite bind_Ok. split.
  - intros ([off kinds] & H & [= <- <-]). apply check_tables_fold in H; [|done].
    destruct H as (Ht & Hnd & _ & He & Hb & _). split; [apply sort_tables_perm|]. done.
  - intros (Hp & Ht & Hnd & He & Hb). rewrite (sort_tables_tiles _ _ _ _ Hp Ht).
    eexists (content_len, _). split; [|done].
    apply check_tables_fold; [done|]. by repeat split.
Qed.

(** A binary with two tables, given in the wrong order. *)
Example check_tables_sorts :
  check_tables [ {| t_kind := TableType.IDENTIFIERS; t_offset := 4; t_count := 3 |};
                 {| t_kind := TableType.SIGNATURES; t_offset := 0; t_count := 4 |} ] 20
  = Ok ([ {| t_kind := TableType.SIGNATURES; t_offset := 0; t_count := 4 |};
          {| t_kind := TableType.IDENTIFIERS; t_offset := 4; t_count := 3 |} ], 7).
Proof. vm_compute. reflexivity. Qed.

Lemma check_tables_total tables binary_len : no_panic (check_tables tables binary_len).
Proof.
  unfold check_tables. apply bind_no_panic; [|by intros [? ?]].
  generalize (0, ∅ : gset TableType) (sort_tables tables).
  intros st l; revert st; induction l as [|t l IH]; intros st; cbn [try_fold]; [done|].
  apply bind_no_panic; [|auto]. destruct st as [off kinds]. unfold check_table.
  repeat (case_match; try done).
Qed.

(** ** Units *)

Lemma try_fold_total {E A B} (f : B → A → result E B) (P : A → Prop) l b :
  Forall P l → (∀ b x, P x → no_panic (f b x)) → no_panic (try_fold f l b).
Proof.
  intros Hl Hf. revert b; induction Hl as [|x l Hx _ IH]; intros b; cbn [try_fold]; [done|].
  apply bind_no_panic; auto.
Qed.

Lemma build_common_table_total `{CommonTablesMut T} binary (common : T) table :
  table_within (len (vb_binary binary)) table →
  no_panic (build_common_table binary common table).
Proof.
  intros Ht. unfold build_common_table.
  destruct (t_kind table); try done;
    try (apply bind_no_panic; [|done]);
    try (apply load_table_total; [auto with total|done]).
  - by apply load_address_identifiers_total.
  - by case_match.
Qed.
Lemma build_module_table_total binary module table :
  table_within (len (vb_binary binary)) table →
  no_panic (build_module_table binary module table).
Proof.
  intros Ht. unfold build_module_table, load_field_handles, load_field_instantiations.
  destruct (t_kind table); try done; (apply bind_no_panic; [|done]);
    rewrite ?load_table_until_eq by auto with total;
    apply load_table_total; auto with total.
Qed.

(** What [load_tables] hands to the builders *)
Lemma load_tables_spec n c :
  match load_tables n c with
  | Ok ((tables, binary), _) => Forall (table_within (len (vb_binary binary))) tables
  | Err _ => True
  | Panic | OutOfFuel => False
  end.
Proof.
  unfold load_tables, mbind, loader_bind.
  assert (total 1 load_table_count) as Hc by apply total_uleb. specialize (Hc c).
  destruct (load_table_count c) as [[count c1]| | |]; try done.
  assert (total 0 (read_tables count)) as Ht.
  { apply load_n_total. unfold read_table, load_table_offset, load_table_size. total_tac. }
  specialize (Ht c1). destruct (read_tables count c1) as [[tables c2]| | |]; try done.
  unfold lift. pose proof (check_tables_total tables n) as Hk.
  destruct (check_tables tables n) as [[ts clen]| | |] eqn:Ek; try done.
  apply check_tables_spec in Ek as (_ & Htiles & _).
  unfold read_table_contents, mbind, loader_bind, on_cursor.
  pose proof (cursor_read_exact_total (vc_cursor c2) clen) as Hr.
  destruct (cursor_read_exact (vc_cursor c2) clen) as [[buf c3]| | |] eqn:Er; try done.
  apply cursor_read_exact_Ok in Er as [_ Hl]. simpl. rewrite Hl.
  by apply tiles_within in Htiles.
Qed.

Lemma VersionedCursor_new_total binary : no_panic (VersionedCursor_new binary).
Proof.
  unfold VersionedCursor_new, VersionedBinary_new.
  destruct (cursor_read _ _) as [[count magic] c]. case_match; [done|].
  unfold read_u32. destruct (cursor_read_exact c 4) as [[buf c']| | |] eqn:E; try done;
    [|by unfold cursor_read_exact in E; case_match..].
  simpl. by case_match.
Qed.

(** A loader that runs after the tables, on tables within their contents. *)
Lemma unit_total {A} (k : list Table → VersionedBinary → Loader A) n c :
  (∀ tables binary, Forall (table_within (len (vb_binary binary))) tables →
     total 0 (k tables binary)) →
  no_panic (('(tables, contents) ← load_tables n; k tables contents) c).
Proof.
  intros Hk. unfold mbind, loader_bind. pose proof (load_tables_spec n c) as Ht.
  destruct (load_tables n c) as [[[tables contents] c1]| | |]; try done.
  specialize (Hk _ _ Ht c1). by destruct (k tables contents c1) as [[a c2]| | |].
Qed.

Lemma no_panic_inv {E A} (r : result E A) :
  no_panic r → ∃ s : A + E, r = match s with inl a => Ok a | inr e => Err e end.
Proof. destruct r as [a|e| |]; intros H; [by exists (inl a)|by exists (inr e)|done..]. Qed.

Lemma deserialize_compiled_module_no_panic binary : no_panic (deserialize_compiled_module binary).
Proof.
  unfold deserialize_compiled_module.
  apply bind_no_panic; [apply VersionedCursor_new_total|]. intros c _.
  apply bind_no_panic; [|by intros [? ?]]. apply unit_total. intros tables contents Ht.
  unfold load_module_handle_index. total_tac. apply total_lift. unfold build_compiled_module.
  apply bind_no_panic; [|intros m _]; (eapply try_fold_total; [exact Ht|]); intros.
  - by apply build_common_table_total.
  - by apply build_module_table_total.
Qed.

(** C2. On every byte string the module deserializer returns a module or a status code: no
    slice is out of range, no unreachable branch is taken, no unwrap fails, and every loop
    ends within its fuel. *)
Theorem deserialize_compiled_module_total (binary : list u8) :
  ∃ r : CompiledModule + StatusCode,
    deserialize_compiled_module binary = match r with inl m => Ok m | inr e => Err e end.
Proof. apply no_panic_inv, deserialize_compiled_module_no_panic. Qed.

Lemma deserialize_compiled_script_no_panic binary : no_panic (deserialize_compiled_script binary).
Proof.
  unfold deserialize_compiled_script.
  apply bind_no_panic; [apply VersionedCursor_new_total|]. intros c _.
  apply bind_no_panic; [|by intros [? ?]]. apply unit_total. intros tables contents Ht.
  unfold load_signature_index. total_tac. apply total_lift. unfold build_compiled_script.
  apply bind_no_panic; [|intros m _]; (eapply try_fold_total; [exact Ht|]); intros.
  - by apply build_common_table_total.
  - unfold build_script_table. by case_match.
Qed.

(** On every byte string the script deserializer returns a script or a status code:
    it never panics and every loop ends within its fuel. *)
Theorem deserialize_compiled_script_total (binary : list u8) :
  ∃ r : CompiledScript + StatusCode,
    deserialize_compiled_script binary = match r with inl s => Ok s | inr e => Err e end.
Proof. apply no_panic_inv, deserialize_compiled_script_no_panic. Qed.

(** ** Versions *)

(** In a binary older than version 4 no vector instruction is ever loaded. *)
Theorem load_instruction_version (c c' : VersionedCursor) (i : Bytecode) :
  load_instruction c = Ok (i, c') →
  vc_version c < VERSION_4 →
  match i with
  | Bytecode.VecPack _ _ | Bytecode.VecLen _ | Bytecode.VecImmBorrow _ | Bytecode.VecMutBorrow _
  | Bytecode.VecPushBack _ | Bytecode.VecPopBack _ | Bytecode.VecUnpack _ _
  | Bytecode.VecSwap _ => False
  | _ => True
  end.
Proof.
  unfold load_instruction. unfold mbind at 1, loader_bind at 1.
  pose proof (total_read_u8 MALFORMED c) as Hr.
  destruct (vc_read_u8 MALFORMED c) as [[byte c1]| | |]; try done.
  destruct Hr as (bs & [-> _] & _).
  unfold mbind at 1, loader_bind at 1, lift.
  destruct (Opcodes_from_u8 byte) as [op| | |]; try done.
  unfold mbind at 1, loader_bind at 1, get_version. cbn [vseek vc_version].
  intros H Hv. apply N.ltb_lt in Hv. rewrite Hv in H.
  destruct op; simpl in H; try discriminate H;
    unfold mbind, loader_bind, mret, loader_ret in H; by repeat (case_match; simplify_eq/=).
Qed.

Lemma load_instruction_version_witness :
  load_instruction {| vc_version := 3; vc_cursor := Cursor_new [22] |}
    = Ok (Bytecode.Add, {| vc_version := 3; vc_cursor := {| cur_inner := [22]; cur_pos := 1 |} |})
  ∧ True.
Proof.
  assert (load_instruction {| vc_version := 3; vc_cursor := Cursor_new [22] |}
    = Ok (Bytecode.Add, {| vc_version := 3; vc_cursor := {| cur_inner := [22]; cur_pos := 1 |} |})) as H
    by (vm_compute; reflexivity).
  split; [exact H|]. by apply (load_instruction_version _ _ _ H).
Defined.
