(* ===== verification/Codecs.v ===== *)
(** * Codecs: what the serializer writes, the deserializer reads

    A [Codec] for every entry of every table: integers, abilities, signature
    tokens, instructions, handles and definitions.  [wf] says which values are
    encodable: mostly all of them, the serializer itself rejecting what does
    not fit. *)

From S2P Require Import Prelude CoreTypes VmStatus Abilities FileFormat BinaryCommon Uleb Loader Serializer Deserializer DeserializerTotal.

(** ** Automation *)

(** Turn every [ser b x = Ok b'] of a known codec into the bytes it adds; the
    side condition is left to [eauto]. *)
Ltac codec_step :=
  match goal with
  | H : push ?b _ = Ok ?b' |- _ => apply push_Ok in H; subst b'
  | H : push_all ?b _ = Ok ?b' |- _ => apply push_all_Ok in H; subst b'
  | H : extend ?b _ = Ok ?b' |- _ => apply extend_Ok in H; subst b'
  | H : ?ser _ _ = Ok ?b' |- _ =>
      let C := constr:(_ : Codec ser _ _) in
      let bs := fresh "bs" in let Hne := fresh "Hne" in let Hl := fresh "Hl" in
      apply (codec_roundtrip (Codec := C)) in H as (bs & -> & Hne & Hl);
        [|solve [eauto with codec]]
  end.
(** Assemble the bytes of the parts. *)
Ltac loads_step :=
  first
    [ apply loads_ret
    | eassumption
    | eapply loads_bind; [loads_step|]
    | eapply loads_last; [loads_step|] ].

Create HintDb codec discriminated.
#[export] Hint Extern 1 True => exact I : codec.

Lemma app_ne_l {A} (l1 l2 : list A) : l1 ≠ [] → l1 ++ l2 ≠ [].
Proof. by destruct l1. Qed.
#[export] Hint Resolve app_ne_l : codec.

(** ** Integers *)

Lemma loads_read_u8 e b : loads (vc_read_u8 e) [b] b.
Proof. apply loads_on_cursor. intros c tl H. by apply (read_u8_cons c b tl). Qed.

Lemma loads_read_exact e bs : loads (on_cursor e (λ c, cursor_read_exact c (len bs))) bs bs.
Proof. apply loads_on_cursor. intros c tl H. by apply (cursor_read_exact_app c bs tl). Qed.

Lemma loads_le n (l : Loader N) e v :
  l = (buf ← on_cursor e (λ c, cursor_read_exact c (N.of_nat n)); mret (from_le_bytes buf)) →
  v < 2 ^ (8 * N.of_nat n) → loads l (to_le_bytes n v) v.
Proof.
  intros -> Hv. apply (loads_last _ _ _ (to_le_bytes n v));
    [|rewrite (from_to_le_bytes n v Hv); apply loads_ret].
  assert (N.of_nat n = len (to_le_bytes n v)) as E
    by (unfold len; by rewrite to_le_bytes_length).
  rewrite E. apply loads_read_exact.
Qed.
Lemma loads_read_u64 v : v <= u64_MAX → loads read_u64_internal (to_le_bytes 8 v) v.
Proof. intros Hv. apply (loads_le 8 _ BAD_U64); [done|]. unfold u64_MAX in Hv. simpl in *. lia. Qed.
Lemma loads_read_u128 v : v <= u128_MAX → loads read_u128_internal (to_le_bytes 16 v) v.
Proof. intros Hv. apply (loads_le 16 _ BAD_U128); [done|]. unfold u128_MAX in Hv. simpl in *. lia. Qed.

Lemma loads_vc_read bs : loads (vc_read (len bs)) bs (len bs, bs).
Proof.
  intros c tl Hv Hr. unfold vc_read, cursor_read. unfold vrest in Hr. rewrite Hr.
  rewrite N.min_l by len_lia. rewrite len_to_nat, take_app_length, N.sub_diag. simpl.
  by rewrite app_nil_r.
Qed.

(** Every bounded integer of the format: [max] fits the type it is read into,
    except for type parameters. *)
Lemma codec_uleb T_max max :
  max <= u64_MAX →
  Codec (λ b x, write_as_uleb128 b x max) (read_uleb_internal T_max max) (λ x, x <= T_max).
Proof.
  intros Hmax b x b' Hx. unfold write_as_uleb128. destruct (N.ltb_spec max x); [done|].
  rewrite write_uleb_bytes by lia. intros ->%push_all_Ok.
  exists (uleb_bytes x). split; [done|]. split.
  { intros E. pose proof (uleb_bytes_length x) as Hl. rewrite E in Hl. rewrite len_nil in Hl. lia. }
  eapply loads_last.
  - apply loads_on_cursor. intros c tl Hc. by apply (read_uleb_bytes c x tl); [lia|].
  - destruct (N.ltb_spec max x); [lia|]. destruct (N.ltb_spec T_max x); [lia|]. apply loads_ret.
Qed.
Lemma codec_uleb_fits T_max max :
  max <= u64_MAX → max <= T_max →
  Codec (λ b x, write_as_uleb128 b x max) (read_uleb_internal T_max max) (λ _, True).
Proof.
  intros Hmax HT b x b' _ Hs. eapply (codec_uleb T_max max Hmax); [|exact Hs].
  revert Hs. unfold write_as_uleb128. destruct (N.ltb_spec max x); [done|]. lia.
Qed.
(** One codec per function, even where two functions have the same bound. *)
#[export] Typeclasses Opaque
  serialize_signature_index serialize_module_handle_index serialize_identifier_index
  serialize_struct_handle_index serialize_address_identifier_index serialize_struct_def_index
  serialize_function_handle_index serialize_field_handle_index serialize_field_inst_index
  serialize_function_inst_index serialize_struct_def_inst_index seiralize_table_offset
  serialize_table_size serialize_constant_pool_index serialize_bytecode_count
  serialize_identifier_size serialize_constant_size serialize_field_count serialize_field_offset
  serialize_acquires_count serialize_signature_size serialize_type_parameter_index
  serialize_type_parameter_count serialize_bytecode_offset serialize_table_count
  serialize_local_index serialize_ability_set.
Ltac uleb_tac := apply codec_uleb_fits; vm_compute; discriminate.

#[export] Instance codec_signature_index : Codec serialize_signature_index load_signature_index (λ _, True).
Proof. uleb_tac. Qed.
#[export] Instance codec_module_handle_index : Codec serialize_module_handle_index load_module_handle_index (λ _, True).
Proof. uleb_tac. Qed.
#[export] Instance codec_identifier_index : Codec serialize_identifier_index load_identifier_index (λ _, True).
Proof. uleb_tac. Qed.
#[export] Instance codec_struct_handle_index : Codec serialize_struct_handle_index load_struct_handle_index (λ _, True).
Proof. uleb_tac. Qed.
#[export] Instance codec_address_identifier_index :
  Codec serialize_address_identifier_index load_address_identifier_index (λ _, True).
Proof. uleb_tac. Qed.
#[export] Instance codec_struct_def_index : Codec serialize_struct_def_index load_struct_def_index (λ _, True).
Proof. uleb_tac. Qed.
#[export] Instance codec_function_handle_index :
  Codec serialize_function_handle_index load_function_handle_index (λ _, True).
Proof. uleb_tac. Qed.
#[export] Instance codec_field_handle_index : Codec serialize_field_handle_index load_field_handle_index (λ _, True).
Proof. uleb_tac. Qed.
#[export] Instance codec_field_inst_index : Codec serialize_field_inst_index load_field_inst_index (λ _, True).
Proof. uleb_tac. Qed.
#[export] Instance codec_function_inst_index :
  Codec serialize_function_inst_index load_function_inst_index (λ _, True).
Proof. uleb_tac. Qed.
#[export] Instance codec_struct_def_inst_index :
  Codec serialize_struct_def_inst_index load_struct_def_inst_index (λ _, True).
Proof. uleb_tac. Qed.
#[export] Instance codec_constant_pool_index : Codec serialize_constant_pool_index load_constant_pool_index (λ _, True).
Proof. uleb_tac. Qed.
#[export] Instance codec_table_offset : Codec seiralize_table_offset load_table_offset (λ _, True).
Proof. uleb_tac. Qed.
#[export] Instance codec_table_size : Codec serialize_table_size load_table_size (λ _, True).
Proof. uleb_tac. Qed.
#[export] Instance codec_bytecode_count : Codec serialize_bytecode_count load_bytecode_count (λ _, True).
Proof. uleb_tac. Qed.
#[export] Instance codec_identifier_size : Codec serialize_identifier_size load_identifier_size (λ _, True).
Proof. uleb_tac. Qed.
#[export] Instance codec_constant_size : Codec serialize_constant_size load_constant_size (λ _, True).
Proof. uleb_tac. Qed.
#[export] Instance codec_field_count : Codec serialize_field_count load_field_count (λ _, True).
Proof. uleb_tac. Qed.
#[export] Instance codec_field_offset : Codec serialize_field_offset load_field_offset (λ _, True).
Proof. uleb_tac. Qed.
#[export] Instance codec_acquires_count : Codec serialize_acquires_count load_acquires_count (λ _, True).
Proof. uleb_tac. Qed.
#[export] Instance codec_signature_size : Codec serialize_signature_size load_signature_size (λ _, True).
Proof. uleb_tac. Qed.
#[export] Instance codec_type_parameter_count :
  Codec serialize_type_parameter_count load_type_parameter_count (λ _, True).
Proof. uleb_tac. Qed.
#[export] Instance codec_bytecode_offset : Codec serialize_bytecode_offset load_bytecode_index (λ _, True).
Proof. uleb_tac. Qed.
#[export] Instance codec_table_count : Codec serialize_table_count load_table_count (λ _, True).
Proof. uleb_tac. Qed.
#[export] Instance codec_local_index : Codec serialize_local_index load_local_index (λ _, True).
Proof. uleb_tac. Qed.
#[export] Instance codec_type_parameter_index :
  Codec serialize_type_parameter_index load_type_parameter_index (λ i, i <= u16_MAX).
Proof. apply codec_uleb. vm_compute. discriminate. Qed.

(** ** Sequences with their length in front *)

Lemma codec_counted {A} (ser_len : BinaryData → N → Write) (load_len : Loader N)
    (ser : BinaryData → A → Write) (load : Loader A) (wf : A → Prop) :
  Codec ser_len load_len (λ _, True) → Codec0 ser load wf →
  Codec (λ b l, b ← ser_len b (len l); try_fold ser l b)
        (n ← load_len; load_n load (N.to_nat n)) (Forall wf).
Proof.
  intros Hlen Hser b l b' Hwf (b1 & H1 & H2)%bind_Ok.
  destruct (codec_roundtrip _ _ _ I H1) as (bs1 & -> & Hne & Hl1).
  destruct (codec_n _ _ _ _ _ _ Hwf H2) as (bs2 & -> & Hl2).
  exists (bs1 ++ bs2). rewrite app_assoc. split; [done|]. split; [by apply app_ne_l|].
  eapply loads_bind; [done|]. by rewrite len_to_nat.
Qed.

(** ** Abilities *)

#[export] Instance codec_ability_set pos :
  Codec serialize_ability_set (load_ability_set pos) AbilitySet_ok.
Proof.
  intros b s b' Hs H.
  eapply (codec_uleb u8_MAX (into_u8 ALL)) in H as (bs & -> & Hne & Hl);
    [|vm_compute; discriminate|unfold AbilitySet_ok, into_u8 in *; change u8_MAX with 255; simpl; lia].
  exists bs. split; [done|]. split; [done|]. unfold load_ability_set.
  eapply loads_pure; [apply loads_version|]. simpl. eapply loads_last; [exact Hl|].
  change (into_u8 s) with s.
  assert (ability_set_from_u8 s = Some s) as ->; [|apply loads_ret].
  clear -Hs. revert s Hs. by apply AbilitySet_ok_ind.
Qed.

#[export] Instance codec_ability_sets pos :
  Codec serialize_ability_sets (load_ability_sets pos) (Forall AbilitySet_ok).
Proof. apply codec_counted; apply _. Qed.

Definition type_parameter_ok (p : StructTypeParameter) : Prop := AbilitySet_ok (stp_constraints p).

#[export] Instance codec_type_parameter :
  Codec serialize_type_parameter load_struct_type_parameter type_parameter_ok.
Proof.
  intros b [s ph] b' Hwf (b1 & H1 & H2)%bind_Ok. simpl in *.
  eapply (codec_ability_set StructTypeParameters) in H1 as (bs1 & -> & Hne & Hl1); [|exact Hwf].
  eapply (codec_uleb u8_MAX 1) in H2 as (bs2 & -> & _ & Hl2);
    [|vm_compute; discriminate|change u8_MAX with 255; case_match; simpl; lia].
  exists (bs1 ++ bs2). rewrite app_assoc. split; [done|]. split; [by apply app_ne_l|].
  eapply loads_bind; [exact Hl1|]. eapply loads_pure; [apply loads_version|].
  simpl. eapply loads_last; [eapply loads_last; [exact Hl2|apply loads_ret]|].
  by destruct ph; apply loads_ret.
Qed.
#[export] Instance codec_type_parameters :
  Codec serialize_type_parameters load_struct_type_parameters (Forall type_parameter_ok).
Proof. apply codec_counted; apply _. Qed.

(** A tag byte and what it announces. *)
Lemma loads_tag {T A} e (from_u8 : u8 → result StatusCode T) byte tg (k : T → Loader A) bs x :
  from_u8 byte = Ok tg → loads (k tg) bs x →
  loads (byte ← vc_read_u8 e; t ← lift (from_u8 byte); k t) (byte :: bs) x.
Proof.
  intros Ht Hk. apply (loads_bind _ _ [byte] bs byte); [apply loads_read_u8|].
  eapply loads_pure; [by apply loads_lift|done].
Qed.

(** ** Signature tokens *)

Module TokenCodec.
Import SignatureToken.

(** The encodable tokens: an instantiation has an argument. *)
Fixpoint token_ok (t : SignatureToken) : Prop :=
  match t with
  | Vector t | Reference t | MutableReference t => token_ok t
  | StructInstantiation _ ts =>
      ts ≠ [] ∧ (fix go l := match l with [] => True | x :: l => token_ok x ∧ go l end) ts
  | TypeParameter i => i <= u16_MAX
  | _ => True
  end.
Lemma token_ok_inst i ts : token_ok (StructInstantiation i ts) ↔ ts ≠ [] ∧ Forall token_ok ts.
Proof.
  simpl. apply and_iff_compat_l. induction ts as [|x l IH]; [by split|].
  by rewrite Forall_cons, <- IH.
Qed.

(** The builder the deserializer starts a token with, and what follows it. *)
Definition builder (t : SignatureToken) : TypeBuilder :=
  match t with
  | Vector _ => TypeBuilder.Vector
  | Reference _ => TypeBuilder.Reference
  | MutableReference _ => TypeBuilder.MutableReference
  | StructInstantiation i ts => TypeBuilder.StructInst i (len ts) []
  | t => TypeBuilder.Saturated t
  end.
Definition children (t : SignatureToken) : list SignatureToken :=
  match t with
  | Vector u | Reference u | MutableReference u => [u]
  | StructInstantiation _ ts => ts
  | _ => []
  end.
Definition children_nodes (t : SignatureToken) (d : N) : list (SignatureToken * N) :=
  concat ((λ u, Preorder.preorder u (d + 1)) <$> children t).
Definition children_size (t : SignatureToken) : nat := sum_list_with size (children t).

Lemma preorder_children t d : Preorder.preorder t d = (t, d) :: children_nodes t d.
Proof. destruct t; unfold children_nodes; simpl; rewrite ?app_nil_r; done. Qed.
Lemma size_children t : size t = S (children_size t).
Proof. destruct t; unfold children_size; simpl; rewrite ?Nat.add_0_r; done. Qed.

(** What [serialize_signature_token] does with one node *)
Definition ser_node (binary : BinaryData) (p : SignatureToken * N) : Write :=
  let '(token, depth) := p in
  if SIGNATURE_TOKEN_DEPTH_MAX <? depth then Err MaxRecursionDepth
  else serialize_signature_token_single_node_impl binary token.

Lemma read_next_node b t b' :
  token_ok t → serialize_signature_token_single_node_impl b t = Ok b' →
  ∃ bs, b' = b ++ bs ∧ bs ≠ [] ∧ loads read_next bs (builder t).
Proof.
  destruct t as [| | | | | |u|i|i ts|u|u|i]; simpl; intros Hok H; inv_ok; repeat codec_step;
    (eexists; split; [rewrite <- ?app_assoc; reflexivity|]; split; [done|]);
    (eapply loads_tag; [reflexivity|]); try apply loads_ret.
  - eapply loads_last; [exact Hl|apply loads_ret].
  - eapply loads_bind; [exact Hl0|]. eapply loads_last; [exact Hl|apply loads_ret].
  - eapply loads_last; [exact Hl|apply loads_ret].
Qed.

(** One token on the stack of the loop: reading its node, its children ending
    up as the token, and applying it to the builder below. *)
Lemma token_loop_read fuel stack c tl bs t :
  stack ≠ [] → len stack <= SIGNATURE_TOKEN_DEPTH_MAX →
  match stack with b :: _ => unsaturated b | [] => False end →
  loads read_next bs t → vc_version c = VERSION_MAX → vrest c = bs ++ tl →
  token_loop (S fuel) stack c = token_loop fuel (t :: stack) (vseek c (len bs)).
Proof.
  intros Hne Hlen Htop Hl Hv Hr. destruct stack as [|b stack]; [done|].
  cbn [token_loop]. destruct (N.ltb_spec SIGNATURE_TOKEN_DEPTH_MAX (len (b :: stack))); [lia|].
  rewrite Htop. unfold mbind, loader_bind. by rewrite (Hl c tl Hv Hr).
Qed.
Lemma token_loop_apply fuel tok t t' stack c :
  len stack + 2 <= SIGNATURE_TOKEN_DEPTH_MAX →
  TypeBuilder.apply (E := StatusCode) t tok = Ok t' →
  token_loop (S fuel) (TypeBuilder.Saturated tok :: t :: stack) c = token_loop fuel (t' :: stack) c.
Proof.
  intros Hlen Ha. cbn [token_loop]. rewrite !len_cons.
  destruct (N.ltb_spec SIGNATURE_TOKEN_DEPTH_MAX (1 + (1 + len stack))); [lia|].
  simpl. unfold mbind, loader_bind, lift. simpl. by rewrite Ha.
Qed.

(** The children of [t], from the builder of [t] to [t]. *)
Definition children_load (t : SignatureToken) : Prop := ∀ d b b',
  token_ok t → try_fold ser_node (children_nodes t d) b = Ok b' →
  ∃ bs, b' = b ++ bs ∧ (children_size t <= length bs)%nat ∧
    ∀ stack fuel c tl, len stack + 1 = d →
      vc_version c = VERSION_MAX → vrest c = bs ++ tl →
      token_loop (2 * children_size t + fuel) (builder t :: stack) c =
      token_loop fuel (TypeBuilder.Saturated t :: stack) (vseek c (len bs)).

(** A child [t] above the builder [b0] it is applied to. *)
Lemma child_load t d b b' :
  children_load t → token_ok t →
  try_fold ser_node (Preorder.preorder t d) b = Ok b' →
  ∃ bs, b' = b ++ bs ∧ (size t <= length bs)%nat ∧
    ∀ b0 b1 stack fuel c tl, len stack + 2 = d → unsaturated b0 →
      TypeBuilder.apply (E := StatusCode) b0 t = Ok b1 →
      vc_version c = VERSION_MAX → vrest c = bs ++ tl →
      token_loop (2 * size t + fuel) (b0 :: stack) c =
      token_loop fuel (b1 :: stack) (vseek c (len bs)).
Proof.
  intros Hc Hok. rewrite preorder_children. cbn [try_fold].
  intros (b1 & Hn & Hch)%bind_Ok. unfold ser_node in Hn.
  destruct (N.ltb_spec SIGNATURE_TOKEN_DEPTH_MAX d) as [|Hd]; [done|].
  destruct (read_next_node _ _ _ Hok Hn) as (bs1 & -> & Hne & Hl1).
  destruct (Hc _ _ _ Hok Hch) as (bs2 & -> & Hsz & Hl2).
  exists (bs1 ++ bs2). rewrite app_assoc. split; [done|].
  rewrite size_children. split; [destruct bs1; [done|]; rewrite length_app; simpl; lia|].
  intros b0 b1' stack fuel c tl Hstack Hun Ha Hv Hr. rewrite <- app_assoc in Hr.
  replace (2 * S (children_size t) + fuel)%nat with (S (2 * children_size t + S fuel)) by lia.
  rewrite (token_loop_read _ _ _ (bs2 ++ tl) bs1 (builder t)); try done; [|rewrite len_cons; lia].
  rewrite (Hl2 _ _ _ tl); [|rewrite len_cons; lia|done|by apply vrest_vseek].
  rewrite (token_loop_apply _ _ b0 b1'); [|lia|done].
  f_equal. unfold vseek. simpl. by rewrite seek_seek, len_app.
Qed.

(** The arguments of an instantiation, the first [done] already there. *)
Lemma args_load i ts d b b' :
  Forall children_load ts → Forall token_ok ts →
  try_fold ser_node (concat ((λ u, Preorder.preorder u (d + 1)) <$> ts)) b = Ok b' →
  ∃ bs, b' = b ++ bs ∧ (sum_list_with size ts <= length bs)%nat ∧
    ∀ args stack fuel c tl, ts ≠ [] → len stack + 1 = d →
      vc_version c = VERSION_MAX → vrest c = bs ++ tl →
      token_loop (2 * sum_list_with size ts + fuel)
        (TypeBuilder.StructInst i (len args + len ts) args :: stack) c =
      token_loop fuel (TypeBuilder.Saturated (StructInstantiation i (args ++ ts)) :: stack)
        (vseek c (len bs)).
Proof.
  intros Hc. revert b; induction Hc as [|t ts Ht Hts IH]; intros b Hok; cbn [fmap list_fmap concat].
  { intros [= <-]. exists []. rewrite app_nil_r. split; [done|]. split; [simpl; lia|]. done. }
  inversion Hok as [|? ? Hok1 Hok2]; subst. rewrite try_fold_app.
  intros (b1 & H1 & H2)%bind_Ok.
  destruct (child_load _ _ _ _ Ht Hok1 H1) as (bs1 & -> & Hsz1 & Hl1).
  destruct (IH _ Hok2 H2) as (bs2 & -> & Hsz2 & Hl2).
  exists (bs1 ++ bs2). rewrite app_assoc. split; [done|].
  split; [rewrite length_app; simpl; lia|].
  intros args stack fuel c tl _ Hstack Hv Hr. rewrite <- app_assoc in Hr. cbn [sum_list_with].
  replace (2 * (size t + sum_list_with size ts) + fuel)%nat
    with (2 * size t + (2 * sum_list_with size ts + fuel))%nat by lia.
  assert (∀ bs, seek (seek (vc_cursor c) (len bs1)) bs = seek (vc_cursor c) (len bs1 + bs))
    as Hseek by (intros; apply seek_seek).
  destruct ts as [|t' ts].
  - erewrite (Hl1 _ _ _ _ _ (bs2 ++ tl)); [|lia|done| |done|done].
    2:{ simpl. rewrite len_app, !len_cons. rewrite N.leb_refl. reflexivity. }
    destruct bs2 as [|x bs2]; [by rewrite app_nil_r|].
    exfalso. cbn in H2. injection H2 as H2. apply (f_equal length) in H2.
    rewrite !length_app in H2. simpl in H2. lia.
  - erewrite (Hl1 _ (TypeBuilder.StructInst i (len (args ++ [t]) + len (t' :: ts)) (args ++ [t]))
      _ _ _ (bs2 ++ tl)); [|lia|done| |done|done].
    2:{ simpl. rewrite len_app, !len_cons, len_nil.
        destruct (N.leb_spec (len args + (1 + (1 + len ts))) (len args + (1 + 0))); [lia|].
        do 2 f_equal. lia. }
    rewrite (Hl2 _ _ _ _ tl); [|done|done|done|by apply vrest_vseek].
    rewrite <- app_assoc. f_equal. unfold vseek. simpl. by rewrite seek_seek, len_app.
Qed.

Lemma children_load_all t : children_load t.
Proof.
  assert (∀ k t u, children t = [u] → children_load u → builder t = k → unsaturated k →
    (token_ok t → token_ok u) →
    TypeBuilder.apply (E := StatusCode) k u = Ok (TypeBuilder.Saturated t) →
    children_load t) as Hone.
  { intros k t0 u Hch Hu Hb Hk Hok Ha d b b' Ht.
    unfold children_nodes, children_size. rewrite Hch. cbn [fmap list_fmap concat sum_list_with].
    rewrite app_nil_r, Nat.add_0_r. intros H.
    destruct (child_load _ _ _ _ Hu (Hok Ht) H) as (bs & -> & Hsz & Hl).
    exists bs. split; [done|]. split; [done|]. intros stack fuel c tl Hs Hv Hr.
    rewrite Hb. by apply (Hl _ _ _ _ _ tl); [lia|..]. }
  assert (∀ t, children t = [] → builder t = TypeBuilder.Saturated t → children_load t) as Hleaf.
  { intros t0 Hch Hb d b b' _. unfold children_nodes, children_size. rewrite Hch, Hb.
    intros [= <-]. exists []. rewrite app_nil_r. split; [done|]. split; [simpl; lia|].
    intros stack fuel c tl _ _ _. simpl. rewrite len_nil.
    destruct (vconsumes_nil c) as [E _]. by rewrite len_nil in E; rewrite <- E. }
  induction t as [| | | | | |u IH|i|i ts IH|u IH|u IH|i] using token_ind;
    try (by apply Hleaf); try (by eapply Hone).
  intros d b b' [Hne Hok]%token_ok_inst H. unfold children_nodes in H. simpl in H.
  destruct (args_load i _ _ _ _ IH Hok H) as (bs & -> & Hsz & Hl).
  exists bs. split; [done|]. split; [done|]. intros stack fuel c tl Hs Hv Hr.
  by apply (Hl [] _ _ _ tl).
Qed.

#[export] Instance codec_signature_token :
  Codec serialize_signature_token load_signature_token token_ok.
Proof.
  intros b t b' Hok H. unfold serialize_signature_token in H.
  rewrite Preorder.for_preorder_fold, preorder_children in H. cbn [try_fold] in H.
  apply bind_Ok in H as (b1 & Hn & Hch).
  change (serialize_signature_token_single_node_impl b t = Ok b1) in Hn.
  destruct (read_next_node _ _ _ Hok Hn) as (bs1 & -> & Hne & Hl1).
  destruct (children_load_all t _ _ _ Hok Hch) as (bs2 & -> & Hsz & Hl2).
  exists (bs1 ++ bs2). rewrite app_assoc. split; [done|]. split; [by apply app_ne_l|].
  unfold load_signature_token. eapply loads_bind; [exact Hl1|].
  assert (loads (n ← remaining; token_loop (2 * n + 2) [builder t]) bs2 t) as Hloop.
  { intros c tl Hv Hr. unfold mbind, loader_bind, remaining.
    assert (∃ k, (2 * length (vrest c) + 2 = 2 * children_size t + S k)%nat) as [k Hk].
    { exists (2 * length (vrest c) + 1 - 2 * children_size t)%nat.
      rewrite Hr, length_app. lia. }
    rewrite Hk. by rewrite (Hl2 [] (S k) c tl). }
  destruct t; try apply Hloop; simpl in *;
    unfold children_nodes in Hch; cbn in Hch; injection Hch as Hch; apply (f_equal length) in Hch;
    rewrite !length_app in Hch; (destruct bs2; [apply loads_ret|simpl in Hch; lia]).
Qed.
End TokenCodec.
Export (hints) TokenCodec.

(** ** Instructions *)

(** The operands that fit their types *)
Definition instruction_ok (i : Bytecode) : Prop :=
  match i with
  | Bytecode.LdU64 n | Bytecode.VecPack _ n | Bytecode.VecUnpack _ n => n <= u64_MAX
  | Bytecode.LdU128 n => n <= u128_MAX
  | _ => True
  end.

Lemma load_instruction_tag byte op bs i :
  Opcodes_from_u8 byte = Ok op →
  loads (load_operands op) bs i → loads load_instruction (byte :: bs) i.
Proof.
  intros Hop Hl. unfold load_instruction. eapply loads_tag; [exact Hop|].
  eapply loads_pure; [apply loads_version|].
  by replace (is_vector_opcode op && (VERSION_MAX <? VERSION_4)) with false by (by destruct op).
Qed.

#[export] Instance codec_instruction :
  Codec serialize_instruction_inner load_instruction instruction_ok.
Proof.
  intros b i b' Hok H. unfold serialize_instruction_inner in H.
  destruct i; simpl in Hok; inv_ok; unfold write_u64, write_u128 in *; repeat codec_step;
    (eexists; split; [rewrite <- ?app_assoc; reflexivity|]; split; [done|]);
    (eapply load_instruction_tag; [reflexivity|]); simpl load_operands; try apply loads_ret;
    try (eapply loads_last; [eassumption|apply loads_ret]).
  - eapply loads_last; [apply loads_read_u8|apply loads_ret].
  - eapply loads_last; [by apply loads_read_u64|apply loads_ret].
  - eapply loads_last; [by apply loads_read_u128|apply loads_ret].
  - eapply loads_bind; [eassumption|]. eapply loads_last; [by apply loads_read_u64|apply loads_ret].
  - eapply loads_bind; [eassumption|]. eapply loads_last; [by apply loads_read_u64|apply loads_ret].
Qed.

(** ** Entries of tables *)

(** Close a codec whose entry is a sequence of known parts. *)
Ltac loads_tac :=
  repeat first
    [ apply loads_ret
    | eapply loads_bind; [eassumption|]
    | eapply loads_last; [eassumption|] ].
Ltac codec_tac :=
  inv_ok; repeat codec_step;
  (eexists; split; [rewrite <- ?app_assoc; reflexivity|]; split; [eauto with codec|]); loads_tac.

#[export] Instance codec_module_handle : Codec serialize_module_handle load_module_handle (λ _, True).
Proof. intros b [] b' _ H. unfold serialize_module_handle in H. codec_tac. Qed.

Definition struct_handle_ok (h : StructHandle) : Prop :=
  AbilitySet_ok (sh_abilities h) ∧ Forall type_parameter_ok (sh_type_parameters h).
#[export] Typeclasses Opaque serialize_type_parameters serialize_ability_sets.
#[export] Instance codec_struct_handle : Codec serialize_struct_handle load_struct_handle struct_handle_ok.
Proof.
  intros b [] b' [Ha Hp] H. unfold serialize_struct_handle in H. simpl in *. inv_ok.
  repeat match goal with
  | H : serialize_ability_set _ _ = _ |- _ =>
      apply (codec_roundtrip (Codec := codec_ability_set PosStructHandle)) in H
        as (? & -> & ? & ?); [|exact Ha]
  end.
  codec_tac.
Qed.

Definition function_handle_ok (h : FunctionHandle) : Prop :=
  Forall AbilitySet_ok (fh_type_parameters h).
#[export] Instance codec_function_handle :
  Codec serialize_function_handle load_function_handle function_handle_ok.
Proof.
  intros b [] b' Ha H. unfold serialize_function_handle in H. unfold function_handle_ok in Ha.
  simpl in *. inv_ok.
  repeat match goal with
  | H : serialize_ability_sets _ _ = _ |- _ =>
      apply (codec_roundtrip (Codec := codec_ability_sets FunctionTypeParameters)) in H
        as (? & -> & ? & ?); [|exact Ha]
  end.
  codec_tac.
Qed.

#[export] Instance codec_function_instantiation :
  Codec serialize_function_instantiation load_function_instantiation (λ _, True).
Proof. intros b [] b' _ H. unfold serialize_function_instantiation in H. codec_tac. Qed.
#[export] Instance codec_struct_def_instantiation :
  Codec serialize_struct_def_instantiation load_struct_instantiation (λ _, True).
Proof. intros b [] b' _ H. unfold serialize_struct_def_instantiation in H. codec_tac. Qed.
#[export] Instance codec_field_handle : Codec serialize_field_handle load_field_handle (λ _, True).
Proof. intros b [] b' _ H. unfold serialize_field_handle in H. codec_tac. Qed.
#[export] Instance codec_field_instantiation :
  Codec serialize_field_instantiation load_field_instantiation (λ _, True).
Proof. intros b [] b' _ H. unfold serialize_field_instantiation in H. codec_tac. Qed.

#[export] Instance codec_identifier : Codec serialize_identifier load_identifier Identifier_ok.
Proof.
  intros b s b' Hs H. unfold serialize_identifier in H. codec_tac.
  eapply loads_last; [apply loads_vc_read|]. cbn beta iota. rewrite N.eqb_refl. simpl.
  rewrite (from_utf8_ok s Hs). apply loads_ret.
Qed.

Definition constant_ok (c : Constant) : Prop := TokenCodec.token_ok (const_type c).
#[export] Typeclasses Opaque serialize_signature_token serialize_signature.
#[export] Instance codec_constant : Codec serialize_constant load_constant constant_ok.
Proof.
  intros b [] b' Hc H. unfold serialize_constant in H. unfold constant_ok in Hc. simpl in *.
  codec_tac. eapply loads_last; [apply loads_vc_read|]. cbn beta iota. rewrite N.eqb_refl.
  apply loads_ret.
Qed.

#[export] Instance codec_signature :
  Codec serialize_signature load_signature_tokens (Forall TokenCodec.token_ok).
Proof. apply codec_counted; apply _. Qed.

Definition field_def_ok (f : FieldDefinition) : Prop := TokenCodec.token_ok (fd_signature f).
#[export] Instance codec_field_def : Codec serialize_field_definition load_field_def field_def_ok.
Proof.
  intros b [] b' Hc H. unfold serialize_field_definition in H. unfold field_def_ok in Hc.
  simpl in *. codec_tac.
Qed.
#[export] Instance codec_field_defs :
  Codec serialize_field_definitions load_field_defs (Forall field_def_ok).
Proof. apply codec_counted; apply _. Qed.

Definition struct_def_ok (d : StructDefinition) : Prop :=
  match sd_field_information d with Native => True | Declared fields => Forall field_def_ok fields end.
#[export] Typeclasses Opaque serialize_field_definitions serialize_acquires serialize_code
  serialize_code_unit.
#[export] Instance codec_struct_def : Codec serialize_struct_definition load_struct_def struct_def_ok.
Proof.
  intros b [sh [|fields]] b' Hc H; unfold serialize_struct_definition in H;
    unfold struct_def_ok in Hc; simpl in *; inv_ok; repeat codec_step;
    (eexists; split; [rewrite <- ?app_assoc; reflexivity|]; split; [eauto with codec|]);
    (eapply loads_bind; [eassumption|]).
  - eapply loads_tag; [reflexivity|]. cbn beta iota. eapply loads_last; apply loads_ret.
  - eapply loads_tag; [reflexivity|]. cbn beta iota.
    eapply loads_last; [eapply loads_last; [eassumption|apply loads_ret]|apply loads_ret].
Qed.

#[export] Instance codec_acquires :
  Codec serialize_acquires load_struct_definition_indices (Forall (λ _, True)).
Proof. apply codec_counted; apply _. Qed.
#[export] Instance codec_code : Codec serialize_code load_code (Forall instruction_ok).
Proof. apply codec_counted; apply _. Qed.

Definition code_unit_ok (c : CodeUnit) : Prop := Forall instruction_ok (cu_code c).
#[export] Instance codec_code_unit : Codec serialize_code_unit load_code_unit code_unit_ok.
Proof.
  intros b [] b' Hc H. unfold serialize_code_unit in H. unfold code_unit_ok in Hc.
  simpl in *. codec_tac.
Qed.

Definition function_def_ok (f : FunctionDefinition) : Prop :=
  match fdef_code f with Some c => code_unit_ok c | None => True end.

Lemma Forall_True {A} (l : list A) : Forall (λ _, True) l.
Proof. by apply Forall_forall. Qed.
#[export] Hint Resolve Forall_True : codec.

#[export] Instance codec_function_def :
  Codec serialize_function_definition load_function_def function_def_ok.
Proof.
  intros b [fh vis acq code] b' Hc H. unfold serialize_function_definition in H.
  unfold function_def_ok in Hc. simpl in *. inv_ok.
  repeat match goal with
  | H : match code with _ => _ end = Ok _ |- _ => revert H
  end.
  repeat codec_step. destruct code as [cu|]; intros H; inv_ok; repeat codec_step;
    (eexists; split; [rewrite <- ?app_assoc; reflexivity|]; split; [eauto with codec|]);
    unfold load_function_def.
  all: eapply loads_bind; [eassumption|].
  all: eapply (loads_bind _ _ [_]); [apply loads_read_u8|].
  all: eapply loads_pure; [apply loads_version|].
  all: simpl (VERSION_MAX =? VERSION_1); cbn iota.
  all: eapply (loads_bind _ _ [_]).
  all: try (eapply loads_pure; [by apply loads_lift; destruct vis|]).
  all: try (eapply loads_last; [apply loads_read_u8|apply loads_ret]).
  all: cbn iota.
  - eapply loads_bind; [eassumption|]. simpl. eapply loads_last.
    + eapply loads_last; [eassumption|apply loads_ret].
    + apply loads_ret.
  - eapply loads_last; [eassumption|]. simpl. eapply loads_last; apply loads_ret.
Qed.
