(* ===== verification/RoundTrip.v ===== *)
(** * RoundTrip: a serialized unit deserializes to itself

    The tables the serializer lays out are the ones the deserializer accepts
    and reads back, and with them modules and scripts. *)

From S2P Require Import Prelude CoreTypes VmStatus Abilities FileFormat BinaryCommon Uleb Loader Serializer Deserializer DeserializerTotal Codecs.

(** ** One table *)

(** [bs] are the bytes of [binary] from [off] on. *)
Definition located (binary : VersionedBinary) (off : N) (bs : list u8) : Prop :=
  vb_version binary = VERSION_MAX ∧
  ∃ pre post, vb_binary binary = pre ++ bs ++ post ∧ off = len pre.

(** The reader [R] finds in [bs] the entries [items]. *)
Definition reads {A} (R : VersionedBinary → Table → list A → result StatusCode (list A))
    (items : list A) (bs : list u8) : Prop :=
  (bs = [] → items = []) ∧
  ∀ binary off kind, located binary off bs →
    R binary {| t_kind := kind; t_offset := off; t_count := len bs |} [] = Ok items.

Lemma slice_located {E} binary off bs :
  located binary off bs → slice_range (E := E) (vb_binary binary) off (off + len bs) = Ok bs.
Proof.
  intros (_ & pre & post & -> & ->). unfold slice_range.
  rewrite (proj2 (N.leb_le _ _)) by lia. rewrite (proj2 (N.leb_le _ _)) by len_lia. simpl.
  rewrite len_to_nat, drop_app_length. replace (len pre + len bs - len pre) with (len bs) by lia.
  by rewrite len_to_nat, take_app_length.
Qed.

Lemma reads_codec {A} (ser : BinaryData → A → Write) (l : Loader A) (wf : A → Prop)
    `{!Codec ser l wf} items b b' :
  Forall wf items → try_fold ser items b = Ok b' →
  ∃ bs, b' = b ++ bs ∧ reads (load_table l) items bs.
Proof.
  intros Hwf H. destruct (codec_while _ _ _ _ _ _ Hwf H) as (bs & -> & Hlen & Hl).
  exists bs. split; [done|]. split.
  { intros ->. rewrite len_nil in Hlen. apply len_zero. lia. }
  intros binary off kind Hloc. unfold load_table. simpl t_offset. simpl t_count.
  unfold new_cursor. rewrite slice_located by done. cbn [mbind result_bind].
  destruct Hloc as (Hv & _).
  rewrite (Hl _ _ _ []); [done|done| |done|unfold len in *; lia].
  unfold vrest, fill_buf. simpl. by rewrite N.min_l, app_nil_r by lia.
Qed.
(** The tables read with the other loop *)
Lemma reads_until {A} (l : Loader A) items bs :
  total 1 l → reads (load_table l) items bs → reads (load_table_until l) items bs.
Proof.
  intros Hl [H1 H2]. split; [done|]. intros binary off kind Hloc.
  rewrite load_table_until_eq; [by apply H2|done|].
  destruct Hloc as (_ & pre & post & E & ->). unfold table_within. simpl. rewrite E. len_lia.
Qed.

Lemma load_addresses_reads items binary off acc :
  Forall AccountAddress_ok items → located binary off (concat items) →
  load_addresses (length items) binary off acc = Ok (acc ++ items).
Proof.
  revert off acc; induction items as [|a items IH]; intros off acc Hok Hloc.
  { by rewrite app_nil_r. }
  inversion Hok as [|? ? [Ha _] Hok']; subst. simpl in *.
  destruct Hloc as (Hv & pre & post & E & ->). unfold vb_slice.
  rewrite <- Ha, slice_located by (split; [done|]; exists pre, (concat items ++ post);
    by rewrite E, <- app_assoc).
  simpl. unfold from_bytes. rewrite Ha, N.eqb_refl, IH; [by rewrite <- app_assoc|done|].
  split; [done|]. exists (pre ++ a), post. rewrite E. split; [by rewrite <- !app_assoc|].
  by rewrite len_app, Ha.
Qed.
Lemma push_all_concat items b b' :
  try_fold serialize_address items b = Ok b' → b' = b ++ concat items.
Proof.
  revert b; induction items as [|a items IH]; intros b; cbn [try_fold].
  - intros [= <-]. by rewrite app_nil_r.
  - intros (b1 & ->%push_all_Ok & H)%bind_Ok. rewrite (IH _ H). simpl. by rewrite <- app_assoc.
Qed.
Lemma len_concat_addresses items :
  Forall AccountAddress_ok items → len (concat items) = N.of_nat (length items) * ADDRESS_LENGTH.
Proof.
  induction 1 as [|a items [Ha _] _ IH]; [done|]. simpl. rewrite len_app, Ha, IH.
  unfold ADDRESS_LENGTH. lia.
Qed.
Lemma reads_addresses items b b' :
  Forall AccountAddress_ok items → try_fold serialize_address items b = Ok b' →
  ∃ bs, b' = b ++ bs ∧ reads load_address_identifiers items bs.
Proof.
  intros Hok ->%push_all_concat. exists (concat items). split; [done|].
  pose proof (len_concat_addresses _ Hok) as Hl. split.
  { intros E. rewrite E in Hl. destruct items; [done|].
    unfold ADDRESS_LENGTH in Hl. rewrite len_nil in Hl. simpl length in Hl. lia. }
  intros binary off kind Hloc. unfold load_address_identifiers. simpl. rewrite Hl.
  rewrite N.Div0.mod_mul. simpl. rewrite N.div_mul by done. rewrite Nat2N.id.
  by apply load_addresses_reads.
Qed.

(** ** The layout of the tables *)

Definition table_count_of {A} (l : list A) : N := if is_empty l then 0 else 1.

(** The table header of the bytes [bs] at [off], and of a sequence of tables. *)
Definition seg_tables (kind : TableType) (off : N) (bs : list u8) : list Table :=
  if is_empty bs then [] else [ {| t_kind := kind; t_offset := off; t_count := len bs |} ].
Fixpoint layout (off : N) (segs : list (TableType * list u8)) : list Table :=
  match segs with
  | [] => []
  | (kind, bs) :: segs => seg_tables kind off bs ++ layout (off + len bs) segs
  end.
Definition contents (segs : list (TableType * list u8)) : list u8 := concat (segs.*2).

Lemma layout_tiles off segs : tiles off (layout off segs) (off + len (contents segs)).
Proof.
  revert off; induction segs as [|[k bs] segs IH]; intros off; unfold contents; simpl.
  - rewrite len_nil. lia.
  - rewrite len_app. specialize (IH (off + len bs)). unfold seg_tables.
    rewrite N.add_assoc. destruct bs as [|x bs]; simpl in *.
    + by rewrite len_nil, N.add_0_r in IH |- *.
    + split; [done|]. split; [len_lia|done].
Qed.
Lemma layout_kinds off segs : t_kind <$> layout off segs `sublist_of` segs.*1.
Proof.
  revert off; induction segs as [|[k bs] segs IH]; intros off; simpl; [constructor|].
  unfold seg_tables. destruct bs; simpl; [by constructor|by constructor].
Qed.

Lemma check_layout segs binary_len :
  NoDup segs.*1 → len (contents segs) <= u32_MAX → len (contents segs) <= binary_len →
  check_tables (layout 0 segs) binary_len = Ok (layout 0 segs, len (contents segs)).
Proof.
  intros Hnd Hu Hb. apply check_tables_spec. split; [done|].
  split; [apply layout_tiles|]. split; [|auto].
  eapply sublist_NoDup; [done|apply layout_kinds].
Qed.

(** *** The builders on a layout *)

Inductive steps {T} (f : T → Table → result StatusCode T) (binary : VersionedBinary)
  : list (TableType * list u8) → T → T → Prop :=
| steps_nil t : steps f binary [] t t
| steps_cons k bs segs t t1 t2 :
    (bs = [] → t1 = t) →
    (∀ off, located binary off bs →
       f t {| t_kind := k; t_offset := off; t_count := len bs |} = Ok t1) →
    steps f binary segs t1 t2 →
    steps f binary ((k, bs) :: segs) t t2.

Lemma steps_fold {T} (f : T → Table → result StatusCode T) binary segs t t' pre post :
  vb_version binary = VERSION_MAX → vb_binary binary = pre ++ contents segs ++ post →
  steps f binary segs t t' → try_fold f (layout (len pre) segs) t = Ok t'.
Proof.
  intros Hv Hb Hs. revert pre Hb. induction Hs as [t|k bs segs t t1 t2 He Hf Hs IH]; intros pre Hb;
    [done|]. unfold contents in *. simpl in *. rewrite <- app_assoc in Hb.
  rewrite try_fold_app.
  assert (try_fold f (seg_tables k (len pre) bs) t = Ok t1) as ->.
  { unfold seg_tables. destruct (is_empty bs) eqn:E; simpl.
    - destruct bs; [|done]. by rewrite He.
    - rewrite Hf; [done|]. split; [done|]. by exists pre, (contents segs ++ post). }
  simpl. rewrite <- len_app. apply IH. by rewrite Hb, <- !app_assoc.
Qed.

(** ** The serializer *)

(** The range a table function records for the bytes [bs] it wrote at [off]. *)
Definition range_of (old : u32 * u32) (off : N) (bs : list u8) : u32 * u32 :=
  if is_empty bs then old else (off, len bs).

Lemma table_contents_spec {A} (ser : BinaryData → A → Write) b items range b' :
  serialize_table_contents ser b items = Ok (range, b') →
  try_fold ser items b = Ok b' ∧ ∀ bs, b' = b ++ bs → range = (len b, len bs).
Proof.
  unfold serialize_table_contents, checked_calculate_table_size, check_index_in_binary.
  intros H. inv_ok. repeat inv_if. inv_ok. split; [done|]. intros bs ->.
  f_equal. len_lia.
Qed.

(** The body all the table functions have, for the serializer's state [S]. *)
Lemma table_function_spec {S A} (ser : BinaryData → A → Write) (set : S → u8 → u32 * u32 → S)
    (count : result AnyhowError u8) (old_count : u8) (old_range : u32 * u32) (self : S)
    (R : list A → list u8 → Prop) items b self' b' :
  (if is_empty items then Ok (self, b) else
   table_count ← count;
   '(range, binary) ← serialize_table_contents ser b items;
   Ok (set self table_count range, binary)) = Ok (self', b') →
  set self old_count old_range = self →
  (∀ b', try_fold ser items b = Ok b' → ∃ bs, b' = b ++ bs ∧ R items bs) →
  (∀ bs, R items bs → bs = [] → items = []) →
  (∀ n, count = Ok n → n = old_count + 1) →
  ∃ bs, b' = b ++ bs ∧ R items bs ∧
    self' = set self (old_count + table_count_of bs) (range_of old_range (len b) bs).
Proof.
  intros H Hset HR Hne Hcount. destruct items as [|x items]; simpl is_empty in H; cbn iota in H.
  - injection H as <- <-. destruct (HR b eq_refl) as (bs & E & Hbs).
    assert (bs = []) as -> by (by apply (app_inv_head b); rewrite app_nil_r).
    exists []. rewrite app_nil_r. split; [done|]. split; [done|].
    unfold table_count_of, range_of. simpl. by rewrite N.add_0_r.
  - apply bind_Ok in H as (n & ->%Hcount & H). apply bind_Ok in H as ([range b1] & H & [= <- <-]).
    apply table_contents_spec in H as [Hf Hr]. destruct (HR _ Hf) as (bs & -> & Hbs).
    exists bs. split; [done|]. split; [done|]. specialize (Hne _ Hbs). rewrite (Hr bs eq_refl).
    destruct bs; [naive_solver congruence|done].
Qed.

Lemma incr_u8_Ok {E} x n : incr_u8 (E := E) x = Ok n → n = x + 1.
Proof. unfold incr_u8, checked_add. case_match; intros; simplify_eq; by repeat (case_match; simplify_eq). Qed.

(** The lemma of one table function: [old] and [range] are what the state had,
    [set] how it is changed, [R] how the table is read. *)
Ltac table_function set count old range R codec :=
  intros;
  match goal with H : _ = Ok (?self', ?b') |- ∃ bs, ?b' = _ ∧ _ =>
    apply (table_function_spec _ set count old range _ R) in H;
      [exact H | match goal with |- _ = ?self => first [by destruct self as [[]] | by destruct self] end
      | intros ?; codec | by intros ? [? _]
      | first [ by intros ? ?%incr_u8_Ok
              | intros ? [= <-]; unfold wrap; apply N.mod_small; change (2 ^ 8) with 256;
                change u8_MAX with 255 in *; lia ] ]
  end.
Ltac by_codec := eapply reads_codec; first [apply _ | eassumption | apply Forall_True].

Lemma serialize_module_handles_spec (self : CommonSerializer) b items self' b' :
  serialize_module_handles self b items = Ok (self', b') →
  ∃ bs, b' = b ++ bs ∧ reads load_module_handles items bs ∧
    self' = cs_set_module_handles self (cs_table_count self + table_count_of bs)
              (range_of (cs_module_handles self) (len b) bs).
Proof.
  table_function cs_set_module_handles (incr_u8 (E := AnyhowError) (cs_table_count self)) (cs_table_count self) (cs_module_handles self)
    (reads load_module_handles) ltac:(by_codec).
Qed.
Lemma serialize_struct_handles_spec (self : CommonSerializer) b items self' b' :
  Forall struct_handle_ok items →
  serialize_struct_handles self b items = Ok (self', b') →
  ∃ bs, b' = b ++ bs ∧ reads load_struct_handles items bs ∧
    self' = cs_set_struct_handles self (cs_table_count self + table_count_of bs)
              (range_of (cs_struct_handles self) (len b) bs).
Proof.
  table_function cs_set_struct_handles (incr_u8 (E := AnyhowError) (cs_table_count self)) (cs_table_count self) (cs_struct_handles self)
    (reads load_struct_handles) ltac:(by_codec).
Qed.
Lemma serialize_function_handles_spec (self : CommonSerializer) b items self' b' :
  Forall function_handle_ok items →
  serialize_function_handles self b items = Ok (self', b') →
  ∃ bs, b' = b ++ bs ∧ reads load_function_handles items bs ∧
    self' = cs_set_function_handles self (cs_table_count self + table_count_of bs)
              (range_of (cs_function_handles self) (len b) bs).
Proof.
  table_function cs_set_function_handles (incr_u8 (E := AnyhowError) (cs_table_count self)) (cs_table_count self) (cs_function_handles self)
    (reads load_function_handles) ltac:(by_codec).
Qed.
Lemma serialize_function_instantiations_spec (self : CommonSerializer) b items self' b' :
  serialize_function_instantiations self b items = Ok (self', b') →
  ∃ bs, b' = b ++ bs ∧ reads load_function_instantiations items bs ∧
    self' = cs_set_function_instantiations self (cs_table_count self + table_count_of bs)
              (range_of (cs_function_instantiations self) (len b) bs).
Proof.
  table_function cs_set_function_instantiations (incr_u8 (E := AnyhowError) (cs_table_count self)) (cs_table_count self) (cs_function_instantiations self)
    (reads load_function_instantiations) ltac:(by_codec).
Qed.
Lemma serialize_signatures_spec (self : CommonSerializer) b items self' b' :
  Forall (Forall TokenCodec.token_ok) items →
  serialize_signatures self b items = Ok (self', b') →
  ∃ bs, b' = b ++ bs ∧ reads load_signatures items bs ∧
    self' = cs_set_signatures self (cs_table_count self + table_count_of bs)
              (range_of (cs_signatures self) (len b) bs).
Proof.
  table_function cs_set_signatures (incr_u8 (E := AnyhowError) (cs_table_count self)) (cs_table_count self) (cs_signatures self)
    (reads load_signatures) ltac:(by_codec).
Qed.
Lemma serialize_identifiers_spec (self : CommonSerializer) b items self' b' :
  Forall Identifier_ok items →
  serialize_identifiers self b items = Ok (self', b') →
  ∃ bs, b' = b ++ bs ∧ reads load_identifiers items bs ∧
    self' = cs_set_identifiers self (cs_table_count self + table_count_of bs)
              (range_of (cs_identifiers self) (len b) bs).
Proof.
  table_function cs_set_identifiers (incr_u8 (E := AnyhowError) (cs_table_count self)) (cs_table_count self) (cs_identifiers self)
    (reads load_identifiers) ltac:(by_codec).
Qed.
Lemma serialize_address_identifiers_spec (self : CommonSerializer) b items self' b' :
  Forall AccountAddress_ok items →
  serialize_address_identifiers self b items = Ok (self', b') →
  ∃ bs, b' = b ++ bs ∧ reads load_address_identifiers items bs ∧
    self' = cs_set_address_identifiers self (cs_table_count self + table_count_of bs)
              (range_of (cs_address_identifiers self) (len b) bs).
Proof.
  table_function cs_set_address_identifiers (incr_u8 (E := AnyhowError) (cs_table_count self)) (cs_table_count self) (cs_address_identifiers self)
    (reads load_address_identifiers) ltac:(by apply reads_addresses).
Qed.
Lemma serialize_constants_spec (self : CommonSerializer) b items self' b' :
  Forall constant_ok items →
  serialize_constants self b items = Ok (self', b') →
  ∃ bs, b' = b ++ bs ∧ reads load_constant_pool items bs ∧
    self' = cs_set_constant_pool self (cs_table_count self + table_count_of bs)
              (range_of (cs_constant_pool self) (len b) bs).
Proof.
  table_function cs_set_constant_pool (incr_u8 (E := AnyhowError) (cs_table_count self)) (cs_table_count self) (cs_constant_pool self)
    (reads load_constant_pool) ltac:(by_codec).
Qed.

(** The tables read until their end *)
Lemma reads_until_codec {A} (ser : BinaryData → A → Write) (l : Loader A) (wf : A → Prop)
    `{!Codec ser l wf} items b b' :
  total 1 l → Forall wf items → try_fold ser items b = Ok b' →
  ∃ bs, b' = b ++ bs ∧ reads (load_table_until l) items bs.
Proof.
  intros Hl Hwf H. destruct (reads_codec _ _ _ _ _ _ Hwf H) as (bs & -> & Hr).
  exists bs. split; [done|]. by apply reads_until.
Qed.
Ltac until_codec t := eapply reads_until_codec; first [apply t | apply _ | apply Forall_True].

Lemma serialize_struct_definitions_spec (self : ModuleSerializer) b items self' b' :
  Forall struct_def_ok items →
  cs_table_count (ms_common self) < u8_MAX →
  serialize_struct_definitions self b items = Ok (self', b') →
  ∃ bs, b' = b ++ bs ∧ reads load_struct_defs items bs ∧
    self' = ms_set_struct_defs self (cs_table_count (ms_common self) + table_count_of bs)
              (range_of (ms_struct_defs self) (len b) bs).
Proof.
  table_function ms_set_struct_defs (Ok (E := AnyhowError) (wrap 8 (cs_table_count (ms_common self) + 1))) (cs_table_count (ms_common self)) (ms_struct_defs self)
    (reads load_struct_defs) ltac:(by_codec).
Qed.
Lemma serialize_struct_def_instantiations_spec (self : ModuleSerializer) b items self' b' :
  cs_table_count (ms_common self) < u8_MAX →
  serialize_struct_def_instantiations self b items = Ok (self', b') →
  ∃ bs, b' = b ++ bs ∧ reads load_struct_instantiations items bs ∧
    self' = ms_set_struct_def_instantiations self (cs_table_count (ms_common self) + table_count_of bs)
              (range_of (ms_struct_def_instantiations self) (len b) bs).
Proof.
  table_function ms_set_struct_def_instantiations (Ok (E := AnyhowError) (wrap 8 (cs_table_count (ms_common self) + 1))) (cs_table_count (ms_common self)) (ms_struct_def_instantiations self)
    (reads load_struct_instantiations) ltac:(by_codec).
Qed.
Lemma serialize_function_definitions_spec (self : ModuleSerializer) b items self' b' :
  Forall function_def_ok items →
  cs_table_count (ms_common self) < u8_MAX →
  serialize_function_definitions self b items = Ok (self', b') →
  ∃ bs, b' = b ++ bs ∧ reads load_function_defs items bs ∧
    self' = ms_set_function_defs self (cs_table_count (ms_common self) + table_count_of bs)
              (range_of (ms_function_defs self) (len b) bs).
Proof.
  table_function ms_set_function_defs (Ok (E := AnyhowError) (wrap 8 (cs_table_count (ms_common self) + 1))) (cs_table_count (ms_common self)) (ms_function_defs self)
    (reads load_function_defs) ltac:(by_codec).
Qed.
Lemma serialize_field_handles_spec (self : ModuleSerializer) b items self' b' :
  serialize_field_handles self b items = Ok (self', b') →
  ∃ bs, b' = b ++ bs ∧ reads load_field_handles items bs ∧
    self' = ms_set_field_handles self (cs_table_count (ms_common self) + table_count_of bs)
              (range_of (ms_field_handles self) (len b) bs).
Proof.
  table_function ms_set_field_handles (incr_u8 (E := AnyhowError) (cs_table_count (ms_common self))) (cs_table_count (ms_common self)) (ms_field_handles self)
    (reads load_field_handles) ltac:(until_codec total_load_field_handle).
Qed.
Lemma serialize_field_instantiations_spec (self : ModuleSerializer) b items self' b' :
  serialize_field_instantiations self b items = Ok (self', b') →
  ∃ bs, b' = b ++ bs ∧ reads load_field_instantiations items bs ∧
    self' = ms_set_field_instantiations self (cs_table_count (ms_common self) + table_count_of bs)
              (range_of (ms_field_instantiations self) (len b) bs).
Proof.
  table_function ms_set_field_instantiations (incr_u8 (E := AnyhowError) (cs_table_count (ms_common self))) (cs_table_count (ms_common self)) (ms_field_instantiations self)
    (reads load_field_instantiations) ltac:(until_codec total_load_field_instantiation).
Qed.
Lemma serialize_friend_declarations_spec (self : ModuleSerializer) b items self' b' :
  cs_table_count (ms_common self) < u8_MAX →
  serialize_friend_declarations self b items = Ok (self', b') →
  ∃ bs, b' = b ++ bs ∧ reads load_module_handles items bs ∧
    self' = ms_set_friend_decls self (cs_table_count (ms_common self) + table_count_of bs)
              (range_of (ms_friend_decls self) (len b) bs).
Proof.
  table_function ms_set_friend_decls (Ok (E := AnyhowError) (wrap 8 (cs_table_count (ms_common self) + 1))) (cs_table_count (ms_common self)) (ms_friend_decls self)
    (reads load_module_handles) ltac:(by_codec).
Qed.

(** ** The headers of the tables *)

(** The ranges recorded for consecutive tables, and how many have a header. *)
Fixpoint ranges (off : N) (segs : list (TableType * list u8)) : list (u32 * u32) :=
  match segs with
  | [] => []
  | (_, bs) :: segs => range_of (0, 0) off bs :: ranges (off + len bs) segs
  end.
Fixpoint count_segs (segs : list (TableType * list u8)) : N :=
  match segs with [] => 0 | (_, bs) :: segs => table_count_of bs + count_segs segs end.

Lemma count_segs_le segs : count_segs segs <= len segs.
Proof.
  induction segs as [|[k bs] segs IH]; simpl; [done|]. rewrite len_cons.
  unfold table_count_of. case_match; lia.
Qed.
Lemma count_segs_app s1 s2 : count_segs (s1 ++ s2) = count_segs s1 + count_segs s2.
Proof. induction s1 as [|[k bs] s1 IH]; simpl; [done|]. rewrite IH. lia. Qed.
Lemma contents_app s1 s2 : contents (s1 ++ s2) = contents s1 ++ contents s2.
Proof. unfold contents. by rewrite fmap_app, concat_app. Qed.
Lemma ranges_app off s1 s2 :
  ranges off (s1 ++ s2) = ranges off s1 ++ ranges (off + len (contents s1)) s2.
Proof.
  revert off; induction s1 as [|[k bs] s1 IH]; intros off; simpl.
  - unfold contents. simpl. by rewrite len_nil, N.add_0_r.
  - rewrite IH. unfold contents. simpl. by rewrite len_app, N.add_assoc.
Qed.

Lemma load_n_app {A} (l : Loader A) n m bs1 bs2 xs ys :
  loads (load_n l n) bs1 xs → loads (load_n l m) bs2 ys →
  loads (load_n l (n + m)) (bs1 ++ bs2) (xs ++ ys).
Proof.
  intros H1 H2 c tl Hv Hr. rewrite <- app_assoc in Hr.
  specialize (H1 c (bs2 ++ tl) Hv Hr).
  specialize (H2 (vseek c (len bs1)) tl Hv (vrest_vseek _ _ _ Hr)).
  assert (vseek (vseek c (len bs1)) (len bs2) = vseek c (len (bs1 ++ bs2))) as E.
  { unfold vseek. simpl. by rewrite seek_seek, len_app. }
  rewrite E in H2. clear Hv Hr E. revert H1 H2.
  generalize (vseek c (len bs1)) (vseek c (len (bs1 ++ bs2))). clear. intros c1 c2.
  revert c xs; induction n as [|n IH]; intros c xs; simpl.
  - intros [= <- ->]. done.
  - unfold mbind, loader_bind. destruct (l c) as [[x c']| | |]; try done.
    destruct (load_n l n c') as [[xs' c'']| | |] eqn:E; try done.
    intros [= <- ->] H2. by rewrite (IH _ _ E H2).
Qed.

#[export] Typeclasses Opaque seiralize_table_offset serialize_table_size.
Lemma serialize_table_index_spec b k off bs b' :
  serialize_table_index b k (range_of (0, 0) off bs).1 (range_of (0, 0) off bs).2 = Ok b' →
  ∃ hs, b' = b ++ hs ∧
    loads (load_n read_table (N.to_nat (table_count_of bs))) hs (seg_tables k off bs).
Proof.
  unfold serialize_table_index, range_of, table_count_of, seg_tables.
  destruct bs as [|x bs]; simpl is_empty; cbn iota.
  - simpl. intros [= <-]. exists []. rewrite app_nil_r. split; [done|]. apply loads_ret.
  - cbn [fst snd]. destruct (N.eqb_spec (len (x :: bs)) 0); [len_lia|]. simpl. intros H. inv_ok.
    repeat codec_step. eexists. split; [by rewrite <- !app_assoc|].
    eapply loads_last; [|eapply loads_last; apply loads_ret].
    apply (loads_bind _ _ [_] _ (TableType_to_u8 k)); [apply loads_read_u8|].
    eapply loads_bind; [eassumption|]. eapply loads_last; [eassumption|].
    eapply loads_pure; [apply loads_lift, TableType_from_to_u8|]. apply loads_ret.
Qed.

Definition serialize_index (b : BinaryData) (p : TableType * (u32 * u32)) : Write :=
  serialize_table_index b p.1 p.2.1 p.2.2.
Lemma serialize_indices_spec segs off b b' :
  try_fold serialize_index (zip segs.*1 (ranges off segs)) b = Ok b' →
  ∃ hs, b' = b ++ hs ∧
    loads (load_n read_table (N.to_nat (count_segs segs))) hs (layout off segs).
Proof.
  revert off b; induction segs as [|[k bs] segs IH]; intros off b; cbn [fmap list_fmap fst ranges zip zip_with try_fold].
  - intros [= <-]. exists []. rewrite app_nil_r. split; [done|]. apply loads_ret.
  - intros (b1 & H1 & H2)%bind_Ok.
    apply serialize_table_index_spec in H1 as (hs1 & -> & Hl1).
    apply IH in H2 as (hs2 & -> & Hl2). exists (hs1 ++ hs2). rewrite app_assoc. split; [done|].
    simpl. rewrite N2Nat.inj_add. by apply load_n_app.
Qed.

(** *** Reading the tables back *)

Lemma load_tables_layout segs cb hs binary_len :
  loads load_table_count cb (count_segs segs) →
  loads (load_n read_table (N.to_nat (count_segs segs))) hs (layout 0 segs) →
  NoDup segs.*1 → len (contents segs) <= u32_MAX → len (contents segs) <= binary_len →
  loads (load_tables binary_len) (cb ++ hs ++ contents segs)
    (layout 0 segs, {| vb_version := VERSION_MAX; vb_binary := contents segs |}).
Proof.
  intros Hc Hh Hnd Hu Hb. unfold load_tables. eapply loads_bind; [exact Hc|].
  eapply loads_bind; [exact Hh|].
  eapply loads_pure; [apply loads_lift; by apply check_layout|]. cbn beta iota.
  eapply loads_last; [|apply loads_ret].
  intros c tl Hv Hr. unfold read_table_contents. rewrite Hv.
  pose proof (loads_read_exact MALFORMED (contents segs)) as Hl.
  exact (loads_last _ (λ buf, mret {| vb_version := VERSION_MAX; vb_binary := buf |}) _ _ _ Hl
    (loads_ret _) c tl Hv Hr).
Qed.

(** The header of the binary *)
Lemma header_cursor binary rest :
  extend (DIEM_MAGIC) (to_le_bytes 4 VERSION_MAX) = Ok binary →
  ∃ c, VersionedCursor_new (binary ++ rest) = Ok c ∧ vc_version c = VERSION_MAX ∧ vrest c = rest.
Proof.
  intros ->%extend_Ok. unfold VersionedCursor_new, VersionedBinary_new.
  assert (cursor_read (Cursor_new ((DIEM_MAGIC ++ to_le_bytes 4 VERSION_MAX) ++ rest)) DIEM_MAGIC_SIZE
    = ((4, DIEM_MAGIC), {| cur_inner := (DIEM_MAGIC ++ to_le_bytes 4 VERSION_MAX) ++ rest;
                           cur_pos := 4 |})) as ->.
  { unfold cursor_read, Cursor_new, fill_buf. simpl. unfold DIEM_MAGIC_SIZE.
    rewrite !len_cons. rewrite N.min_l by lia. reflexivity. }
  unfold read_u32.
  assert (cursor_read_exact {| cur_inner := (DIEM_MAGIC ++ to_le_bytes 4 VERSION_MAX) ++ rest;
                               cur_pos := 4 |} 4
    = Ok (to_le_bytes 4 VERSION_MAX, {| cur_inner := (DIEM_MAGIC ++ to_le_bytes 4 VERSION_MAX) ++ rest;
                               cur_pos := 8 |})) as ->.
  { refine (cursor_read_exact_app {| cur_inner := (DIEM_MAGIC ++ to_le_bytes 4 VERSION_MAX) ++ rest;
                                     cur_pos := 4 |} (to_le_bytes 4 VERSION_MAX) rest _).
    unfold fill_buf.
    cbn [cur_pos cur_inner]. rewrite N.min_l; [reflexivity|].
    rewrite !len_app. change (len DIEM_MAGIC) with 4. lia. }
  simpl. eexists. split; [reflexivity|]. split; [done|]. unfold vrest, fill_buf.
  cbn [vc_cursor cur_pos cur_inner]. rewrite N.min_l; [reflexivity|].
  simpl. rewrite !len_cons. lia.
Qed.

(** ** The tables modules and scripts share *)

Record CommonBytes : Set := {
  cb_module_handles : list u8;
  cb_struct_handles : list u8;
  cb_function_handles : list u8;
  cb_function_instantiations : list u8;
  cb_signatures : list u8;
  cb_identifiers : list u8;
  cb_address_identifiers : list u8;
  cb_constant_pool : list u8 }.

Definition common_segs (cb : CommonBytes) : list (TableType * list u8) :=
  [ (TableType.MODULE_HANDLES, cb_module_handles cb);
    (TableType.STRUCT_HANDLES, cb_struct_handles cb);
    (TableType.FUNCTION_HANDLES, cb_function_handles cb);
    (TableType.FUNCTION_INST, cb_function_instantiations cb);
    (TableType.SIGNATURES, cb_signatures cb);
    (TableType.IDENTIFIERS, cb_identifiers cb);
    (TableType.ADDRESS_IDENTIFIERS, cb_address_identifiers cb);
    (TableType.CONSTANT_POOL, cb_constant_pool cb) ].

Definition common_reads `{CommonTables T} (t : T) (cb : CommonBytes) : Prop :=
  reads load_module_handles (get_module_handles t) (cb_module_handles cb) ∧
  reads load_struct_handles (get_struct_handles t) (cb_struct_handles cb) ∧
  reads load_function_handles (get_function_handles t) (cb_function_handles cb) ∧
  reads load_function_instantiations (get_function_instantiations t) (cb_function_instantiations cb) ∧
  reads load_signatures (get_signatures t) (cb_signatures cb) ∧
  reads load_identifiers (get_identifiers t) (cb_identifiers cb) ∧
  reads load_address_identifiers (get_address_identifiers t) (cb_address_identifiers cb) ∧
  reads load_constant_pool (get_constant_pool t) (cb_constant_pool cb).

(** What the common tables must satisfy to be encodable *)
Definition common_ok `{CommonTables T} (t : T) : Prop :=
  Forall struct_handle_ok (get_struct_handles t) ∧
  Forall function_handle_ok (get_function_handles t) ∧
  Forall (Forall TokenCodec.token_ok) (get_signatures t) ∧
  Forall Identifier_ok (get_identifiers t) ∧
  Forall AccountAddress_ok (get_address_identifiers t) ∧
  Forall constant_ok (get_constant_pool t).

Definition cs_ranges (cs : CommonSerializer) : list (u32 * u32) :=
  [ cs_module_handles cs; cs_struct_handles cs; cs_function_handles cs;
    cs_function_instantiations cs; cs_signatures cs; cs_identifiers cs;
    cs_address_identifiers cs; cs_constant_pool cs ].

Lemma serialize_common_tables_spec `{CommonTables T} v (t : T) cs b :
  common_ok t → serialize_common_tables (CommonSerializer_new v) [] t = Ok (cs, b) →
  ∃ cb, b = contents (common_segs cb) ∧ common_reads t cb ∧ cs_major_version cs = v ∧
    cs_table_count cs = count_segs (common_segs cb) ∧ cs_ranges cs = ranges 0 (common_segs cb).
Proof.
  intros (Hsh & Hfh & Hsg & Hid & Had & Hcp). unfold serialize_common_tables. intros Hs.
  repeat match goal with
  | H : _ ≫= _ = Ok _ |- _ => apply bind_Ok in H as ([? ?] & ? & ?)
  end.
  repeat match goal with
  | H : serialize_module_handles _ _ _ = _ |- _ =>
      apply serialize_module_handles_spec in H as (b1 & -> & R1 & ->)
  | H : serialize_struct_handles _ _ _ = _ |- _ =>
      apply serialize_struct_handles_spec in H as (b2 & -> & R2 & ->); [|done]
  | H : serialize_function_handles _ _ _ = _ |- _ =>
      apply serialize_function_handles_spec in H as (b3 & -> & R3 & ->); [|done]
  | H : serialize_function_instantiations _ _ _ = _ |- _ =>
      apply serialize_function_instantiations_spec in H as (b4 & -> & R4 & ->)
  | H : serialize_signatures _ _ _ = _ |- _ =>
      apply serialize_signatures_spec in H as (b5 & -> & R5 & ->); [|done]
  | H : serialize_identifiers _ _ _ = _ |- _ =>
      apply serialize_identifiers_spec in H as (b6 & -> & R6 & ->); [|done]
  | H : serialize_address_identifiers _ _ _ = _ |- _ =>
      apply serialize_address_identifiers_spec in H as (b7 & -> & R7 & ->); [|done]
  | H : serialize_constants _ _ _ = _ |- _ =>
      apply serialize_constants_spec in H as (b8 & -> & R8 & ->); [|done]
  end.
  exists {| cb_module_handles := b1; cb_struct_handles := b2; cb_function_handles := b3;
            cb_function_instantiations := b4; cb_signatures := b5; cb_identifiers := b6;
            cb_address_identifiers := b7; cb_constant_pool := b8 |}.
  split; [unfold contents; simpl; by rewrite <- ?app_assoc, app_nil_r|].
  split; [exact (conj R1 (conj R2 (conj R3 (conj R4 (conj R5 (conj R6 (conj R7 R8)))))))|].
  split; [done|]. split; [simpl; lia|].
  unfold cs_ranges. simpl. rewrite !len_app, ?len_nil. reflexivity.
Qed.

Lemma serialize_common_table_indices_fold (cs : CommonSerializer) cb b b' :
  serialize_common_table_indices cs b = Ok b' →
  ∃ bs, loads load_table_count bs (cs_table_count cs) ∧
    try_fold serialize_index (zip (common_segs cb).*1 (cs_ranges cs)) (b ++ bs) = Ok b'.
Proof.
  intros H. unfold serialize_common_table_indices in H. apply bind_Ok in H as (b0 & H0 & H).
  apply (codec_roundtrip (Codec := codec_table_count)) in H0 as (bs & -> & _ & Hl); [|done].
  exists bs. split; [done|]. simpl. unfold serialize_index. cbn [fst snd].
  repeat (apply bind_Ok in H as (? & E & H); rewrite E; clear E; cbn [mbind result_bind]).
  by rewrite H.
Qed.

(** The headers of [segs] from the count on, written in one or two parts *)
Lemma indices_load segs b cbs b' :
  loads load_table_count cbs (count_segs segs) →
  try_fold serialize_index (zip segs.*1 (ranges 0 segs)) (b ++ cbs) = Ok b' →
  NoDup segs.*1 → len (contents segs) <= u32_MAX →
  ∃ hs, b' = b ++ hs ∧ ∀ n, len (contents segs) <= n →
    loads (load_tables n) (hs ++ contents segs)
      (layout 0 segs, {| vb_version := VERSION_MAX; vb_binary := contents segs |}).
Proof.
  intros Hc H Hnd Hu. apply serialize_indices_spec in H as (hs & -> & Hl).
  exists (cbs ++ hs). split; [by rewrite app_assoc|]. intros n Hn. rewrite <- app_assoc.
  by apply load_tables_layout.
Qed.

(** ** Scripts *)

Definition script_ok (s : CompiledScript) : Prop :=
  common_ok s ∧ Forall AbilitySet_ok (s_type_parameters s) ∧ code_unit_ok (s_code s).

(** The unit at the version the serializer writes, which is always the last *)
Definition s_at_version (s : CompiledScript) (v : u32) : CompiledScript :=
  {| s_version := v; s_module_handles := s_module_handles s; s_struct_handles := s_struct_handles s;
     s_function_handles := s_function_handles s;
     s_function_instantiations := s_function_instantiations s; s_signatures := s_signatures s;
     s_identifiers := s_identifiers s; s_address_identifiers := s_address_identifiers s;
     s_constant_pool := s_constant_pool s; s_type_parameters := s_type_parameters s;
     s_parameters := s_parameters s; s_code := s_code s |}.
Definition m_at_version (m : CompiledModule) (v : u32) : CompiledModule :=
  {| m_version := v; m_self_module_handle_idx := m_self_module_handle_idx m;
     m_module_handles := m_module_handles m; m_struct_handles := m_struct_handles m;
     m_function_handles := m_function_handles m; m_field_handles := m_field_handles m;
     m_friend_decls := m_friend_decls m;
     m_struct_def_instantiations := m_struct_def_instantiations m;
     m_function_instantiations := m_function_instantiations m;
     m_field_instantiations := m_field_instantiations m; m_signatures := m_signatures m;
     m_identifiers := m_identifiers m; m_address_identifiers := m_address_identifiers m;
     m_constant_pool := m_constant_pool m; m_struct_defs := m_struct_defs m;
     m_function_defs := m_function_defs m |}.

Lemma common_kinds_NoDup cb : NoDup (common_segs cb).*1.
Proof. simpl. apply (bool_decide_unpack _). vm_compute. exact I. Qed.

(** Reduce the getters and setters of the builders. *)
Ltac unit_cbv :=
  cbv [mbind result_bind script_tables module_tables script_tables_mut module_tables_mut
       get_module_handles get_struct_handles get_function_handles get_function_instantiations
       get_signatures get_identifiers get_address_identifiers get_constant_pool
       set_module_handles set_struct_handles set_function_handles set_function_instantiations
       set_signatures set_identifiers set_address_identifiers set_constant_pool
       s_set_module_handles s_set_struct_handles s_set_function_handles
       s_set_function_instantiations s_set_signatures s_set_identifiers
       s_set_address_identifiers s_set_constant_pool m_set_module_handles m_set_struct_handles
       m_set_function_handles m_set_function_instantiations m_set_signatures m_set_identifiers
       m_set_address_identifiers m_set_constant_pool m_set_struct_defs
       m_set_struct_def_instantiations m_set_function_defs m_set_field_handles
       m_set_field_instantiations m_set_friend_decls s_version s_module_handles s_struct_handles
       s_function_handles s_function_instantiations s_signatures s_identifiers
       s_address_identifiers s_constant_pool s_type_parameters s_parameters s_code m_version
       m_self_module_handle_idx m_module_handles m_struct_handles m_function_handles
       m_function_instantiations m_signatures m_identifiers m_address_identifiers
       m_constant_pool m_struct_defs m_struct_def_instantiations m_function_defs m_field_handles
       m_field_instantiations m_friend_decls].

(** Every segment of a layout is read by the [reads] of the context, or skipped. *)
Ltac steps_tac :=
  repeat (eapply steps_cons;
    [ | intros off Hloc; unfold build_common_table, build_module_table, build_script_table;
        simpl t_kind; cbn iota;
        first [ reflexivity
              | match goal with
                | R : reads ?l _ ?bs |- context [?l] =>
                    unit_cbv; rewrite (proj2 R _ _ _ Hloc); reflexivity
                end
              | by destruct Hloc as [-> _] ]
      | ]); [..|apply steps_nil];
  first [ done
        | match goal with
          | R : reads _ _ ?bs |- ?bs = [] → _ => intros E; rewrite (proj1 R E); reflexivity
          end ].

Lemma steps_all {T} (f : T → Table → result StatusCode T) segs t t' :
  steps f {| vb_version := VERSION_MAX; vb_binary := contents segs |} segs t t' →
  try_fold f (layout 0 segs) t = Ok t'.
Proof. by apply (steps_fold f _ segs t t' [] []); [|rewrite app_nil_r]. Qed.

Lemma build_script_layout s cb v :
  common_reads s cb →
  build_compiled_script
    (script_default v (s_type_parameters s) (s_parameters s) (s_code s))
    {| vb_version := VERSION_MAX; vb_binary := contents (common_segs cb) |}
    (layout 0 (common_segs cb)) = Ok (s_at_version s v).
Proof.
  intros (R1 & R2 & R3 & R4 & R5 & R6 & R7 & R8). unfold build_compiled_script.
  set (binary := {| vb_version := _; vb_binary := _ |}).
  assert (steps (build_common_table binary) binary (common_segs cb)
    (script_default v (s_type_parameters s) (s_parameters s) (s_code s)) (s_at_version s v)) as H1.
  { destruct s. unfold script_default, s_at_version, common_segs. simpl in *. steps_tac. }
  assert (steps build_script_table binary (common_segs cb) (s_at_version s v) (s_at_version s v)) as H2.
  { unfold common_segs. steps_tac. }
  unfold build_common_tables, build_script_tables.
  rewrite (steps_all _ _ _ _ H1). cbn [mbind result_bind]. exact (steps_all _ _ _ _ H2).
Qed.

(** The loaders of a unit after its header, on what the serializer wrote *)
Lemma after_header {A} (l : Loader A) binary header rest x :
  extend DIEM_MAGIC (to_le_bytes 4 VERSION_MAX) = Ok header → binary = header ++ rest →
  loads l rest x →
  (cursor ← VersionedCursor_new binary; '(a, _) ← l cursor; Ok a) = Ok x.
Proof.
  intros Hh -> Hl. destruct (header_cursor _ rest Hh) as (c & -> & Hv & Hr). simpl.
  rewrite (Hl c [] Hv); [done|]. by rewrite app_nil_r.
Qed.

Lemma serialize_header_spec cs b' :
  cs_major_version cs = VERSION_MAX → serialize_header cs [] = Ok b' →
  extend DIEM_MAGIC (to_le_bytes 4 VERSION_MAX) = Ok b'.
Proof.
  intros Hv H. unfold serialize_header, serialize_magic, write_u32 in H. inv_ok.
  apply push_all_Ok in Hok. subst. by rewrite Hv in Hok0.
Qed.

Lemma serialize_script_inverse (s : CompiledScript) (bytes : list u8) :
  script_ok s →
  serialize_script s [] = Ok bytes →
  deserialize_compiled_script bytes = Ok (s_at_version s VERSION_MAX).
Proof.
  intros (Hc & Hab & Hcode) H. unfold serialize_script in H.
  apply bind_Ok in H as ([cs temp] & Hcs & H).
  apply (serialize_common_tables_spec _ _ _ _ Hc) in Hcs as (cb & -> & Hr & Hv & Hn & Hrg).
  destruct (N.ltb_spec TABLE_CONTENT_SIZE_MAX (len (contents (common_segs cb)))) as [|Hsz]; [done|].
  apply bind_Ok in H as (header & Hh & H). apply bind_Ok in H as (b1 & Hi & H).
  apply bind_Ok in H as (b2 & ->%extend_Ok & H). unfold serialize_main in H. inv_ok.
  apply (serialize_header_spec _ _ Hv) in Hh.
  apply (serialize_common_table_indices_fold _ cb) in Hi as (cbs & Hlc & Hi).
  rewrite Hn in Hlc. rewrite Hrg in Hi.
  apply indices_load in Hi as (hs & -> & Hl0); [|done|apply common_kinds_NoDup|done].
  apply (codec_roundtrip (Codec := codec_ability_sets FunctionTypeParameters)) in Hok
    as (t1 & -> & _ & Hl1); [|done].
  apply (codec_roundtrip (Codec := codec_signature_index)) in Hok1 as (t2 & -> & _ & Hl2); [|done].
  apply (codec_roundtrip (Codec := codec_code_unit)) in Hok2 as (t3 & -> & _ & Hl3); [|done].
  eapply after_header; [exact Hh|by rewrite <- !app_assoc|]. rewrite app_assoc.
  eapply loads_bind; [apply Hl0; len_lia|]. cbn beta iota.
  eapply loads_pure; [apply loads_version|]. eapply loads_bind; [exact Hl1|].
  eapply loads_bind; [exact Hl2|]. eapply loads_last; [exact Hl3|].
  apply loads_lift. by apply build_script_layout.
Qed.

(** A well-formed compiled script that the serializer accepts deserializes, from the
    bytes written, to the same script at the version the serializer writes. *)
Theorem serialize_script_roundtrip (s : CompiledScript) (bytes : list u8) :
  script_ok s →
  serialize_script s [] = Ok bytes →
  deserialize_compiled_script bytes = Ok (s_at_version s VERSION_MAX).
Proof. apply serialize_script_inverse. Qed.

Definition sample_script : CompiledScript :=
  {| s_version := 4;
     s_module_handles := [ {| mh_address := 0; mh_name := 1 |} ];
     s_struct_handles := [];
     s_function_handles := [ {| fh_module := 0; fh_name := 0; fh_parameters := 1; fh_return := 0;
                                fh_type_parameters := [PRIMITIVES] |} ];
     s_function_instantiations := [];
     s_signatures := [ []; [SignatureToken.U64;
                            SignatureToken.Vector (SignatureToken.StructInstantiation 300
                              [SignatureToken.U8; SignatureToken.TypeParameter 0])] ];
     s_identifiers := [ [102; 111; 111]; [77] ];
     s_address_identifiers := [ ZERO ];
     s_constant_pool := [ {| const_type := SignatureToken.U8; const_data := [7] |} ];
     s_type_parameters := [ALL];
     s_parameters := 0;
     s_code := {| cu_locals := 0;
                  cu_code := [Bytecode.LdU64 1000; Bytecode.Call 0; Bytecode.Ret] |} |}.

Lemma serialize_script_roundtrip_witness :
  ∃ bytes, serialize_script sample_script [] = Ok bytes ∧
    deserialize_compiled_script bytes = Ok (s_at_version sample_script VERSION_MAX).
Proof.
  assert (script_ok sample_script) as Hok.
  { unfold script_ok, common_ok, code_unit_ok. simpl. unfold constant_ok, function_handle_ok.
    repeat (first [apply conj | apply Forall_nil_2 | apply Forall_cons_2]);
      try (by vm_compute); by repeat constructor. }
  eexists. split; [vm_compute; reflexivity|].
  apply (serialize_script_roundtrip _ _ Hok). vm_compute. reflexivity.
Defined.

(** ** Modules *)

Record ModuleBytes : Set := {
  mb_common : CommonBytes;
  mb_struct_defs : list u8;
  mb_struct_def_instantiations : list u8;
  mb_function_defs : list u8;
  mb_field_handles : list u8;
  mb_field_instantiations : list u8;
  mb_friend_decls : list u8 }.

Definition own_segs (mb : ModuleBytes) : list (TableType * list u8) :=
  [ (TableType.STRUCT_DEFS, mb_struct_defs mb);
    (TableType.STRUCT_DEF_INST, mb_struct_def_instantiations mb);
    (TableType.FUNCTION_DEFS, mb_function_defs mb);
    (TableType.FIELD_HANDLE, mb_field_handles mb);
    (TableType.FIELD_INST, mb_field_instantiations mb);
    (TableType.FRIEND_DECLS, mb_friend_decls mb) ].
Definition module_segs (mb : ModuleBytes) : list (TableType * list u8) :=
  common_segs (mb_common mb) ++ own_segs mb.

Definition module_reads (m : CompiledModule) (mb : ModuleBytes) : Prop :=
  common_reads m (mb_common mb) ∧
  reads load_struct_defs (m_struct_defs m) (mb_struct_defs mb) ∧
  reads load_struct_instantiations (m_struct_def_instantiations m) (mb_struct_def_instantiations mb) ∧
  reads load_function_defs (m_function_defs m) (mb_function_defs mb) ∧
  reads load_field_handles (m_field_handles m) (mb_field_handles mb) ∧
  reads load_field_instantiations (m_field_instantiations m) (mb_field_instantiations mb) ∧
  reads load_module_handles (m_friend_decls m) (mb_friend_decls mb).

Definition module_ok (m : CompiledModule) : Prop :=
  common_ok m ∧ Forall struct_def_ok (m_struct_defs m) ∧ Forall function_def_ok (m_function_defs m).

Definition ms_ranges (ms : ModuleSerializer) : list (u32 * u32) :=
  cs_ranges (ms_common ms) ++
  [ ms_struct_defs ms; ms_struct_def_instantiations ms; ms_function_defs ms; ms_field_handles ms;
    ms_field_instantiations ms; ms_friend_decls ms ].

Lemma table_count_of_le {A} (l : list A) : table_count_of l <= 1.
Proof. unfold table_count_of. case_match; lia. Qed.

Lemma serialize_tables_spec v (m : CompiledModule) ms b :
  module_ok m → serialize_tables (ModuleSerializer_new v) [] m = Ok (ms, b) →
  ∃ mb, b = contents (module_segs mb) ∧ module_reads m mb ∧ cs_major_version (ms_common ms) = v ∧
    cs_table_count (ms_common ms) = count_segs (module_segs mb) ∧
    ms_ranges ms = ranges 0 (module_segs mb).
Proof.
  intros (Hc & Hsd & Hfd) H. unfold serialize_tables in H.
  apply bind_Ok in H as ([cs bc] & Hcs & H).
  apply (serialize_common_tables_spec _ _ _ _ Hc) in Hcs as (cb & -> & Hr & Hv & Hn & Hrg).
  assert (count_segs (common_segs cb) <= 8) as H8 by apply (count_segs_le (common_segs cb)).
  apply bind_Ok in H as ([ms1 t1] & H1 & H). apply bind_Ok in H as ([ms2 t2] & H2 & H).
  apply bind_Ok in H as ([ms3 t3] & H3 & H). apply bind_Ok in H as ([ms4 t4] & H4 & H).
  apply bind_Ok in H as ([ms5 t5] & H5 & H6).
  assert (cs_table_count (ms_common (ms_set_common (ModuleSerializer_new v) cs)) <= 8) as Hn0
    by (simpl; lia).
  assert (∀ n k (bs : list u8), n <= k → k < 14 → n + table_count_of bs <= k + 1 ∧ n < u8_MAX) as Hstep.
  { intros n k bs ? ?. change u8_MAX with 255. pose proof (table_count_of_le bs). lia. }
  apply serialize_struct_definitions_spec in H1 as (b1 & -> & R1 & E1); [|done|by apply (Hstep _ 8 [])].
  assert (cs_table_count (ms_common ms1) <= 9) as Hn1
    by (rewrite E1; by apply (Hstep _ 8)).
  apply serialize_struct_def_instantiations_spec in H2 as (b2 & -> & R2 & E2); [|by apply (Hstep _ 9 [])].
  assert (cs_table_count (ms_common ms2) <= 10) as Hn2
    by (rewrite E2; by apply (Hstep _ 9)).
  apply serialize_function_definitions_spec in H3 as (b3 & -> & R3 & E3); [|done|by apply (Hstep _ 10 [])].
  assert (cs_table_count (ms_common ms3) <= 11) as Hn3
    by (rewrite E3; by apply (Hstep _ 10)).
  apply serialize_field_handles_spec in H4 as (b4 & -> & R4 & E4).
  assert (cs_table_count (ms_common ms4) <= 12) as Hn4
    by (rewrite E4; by apply (Hstep _ 11)).
  apply serialize_field_instantiations_spec in H5 as (b5 & -> & R5 & E5).
  assert (cs_table_count (ms_common ms5) <= 13) as Hn5
    by (rewrite E5; by apply (Hstep _ 12)).
  apply serialize_friend_declarations_spec in H6 as (b6 & -> & R6 & E6); [|by apply (Hstep _ 13 [])].
  exists {| mb_common := cb; mb_struct_defs := b1; mb_struct_def_instantiations := b2;
            mb_function_defs := b3; mb_field_handles := b4; mb_field_instantiations := b5;
            mb_friend_decls := b6 |}.
  unfold module_segs. rewrite contents_app, count_segs_app, ranges_app.
  split; [unfold contents; simpl; by rewrite <- ?app_assoc, ?app_nil_r|].
  split; [exact (conj Hr (conj R1 (conj R2 (conj R3 (conj R4 (conj R5 R6))))))|].
  clear Hn0 Hn1 Hn2 Hn3 Hn4 Hn5. subst ms ms5 ms4 ms3 ms2 ms1.
  split; [done|]. split; [cbn [mb_common]; rewrite <- Hn; simpl; lia|].
  unfold ms_ranges. f_equal; [exact Hrg|]. cbn -[len contents common_segs].
  rewrite !len_app, !N.add_0_l. reflexivity.
Qed.

Lemma module_kinds_NoDup mb : NoDup (module_segs mb).*1.
Proof. simpl. apply (bool_decide_unpack _). vm_compute. exact I. Qed.

Lemma build_module_layout m mb v :
  module_reads m mb →
  build_compiled_module (module_default v (m_self_module_handle_idx m))
    {| vb_version := VERSION_MAX; vb_binary := contents (module_segs mb) |}
    (layout 0 (module_segs mb)) = Ok (m_at_version m v).
Proof.
  intros ((R1 & R2 & R3 & R4 & R5 & R6 & R7 & R8) & R9 & R10 & R11 & R12 & R13 & R14).
  unfold build_compiled_module.
  set (binary := {| vb_version := _; vb_binary := _ |}).
  assert (∃ t, steps (build_common_table binary) binary (module_segs mb)
    (module_default v (m_self_module_handle_idx m)) t ∧
    steps (build_module_table binary) binary (module_segs mb) t (m_at_version m v)) as (t & H1 & H2).
  { destruct m. unfold module_default, m_at_version, module_segs, common_segs, own_segs. simpl in *.
    eexists. split; steps_tac. }
  unfold build_common_tables, build_module_tables.
  rewrite (steps_all _ _ _ _ H1). cbn [mbind result_bind]. exact (steps_all _ _ _ _ H2).
Qed.

Lemma serialize_module_table_indices_fold (ms : ModuleSerializer) mb b b' :
  serialize_module_table_indices ms b = Ok b' →
  ∃ bs, loads load_table_count bs (cs_table_count (ms_common ms)) ∧
    try_fold serialize_index (zip (module_segs mb).*1 (ms_ranges ms)) (b ++ bs) = Ok b'.
Proof.
  intros H. unfold serialize_module_table_indices in H. apply bind_Ok in H as (b0 & H0 & H).
  apply (serialize_common_table_indices_fold _ (mb_common mb)) in H0 as (bs & Hl & Hf).
  exists bs. split; [done|].
  assert (zip (module_segs mb).*1 (ms_ranges ms) =
    zip (common_segs (mb_common mb)).*1 (cs_ranges (ms_common ms)) ++
    zip (own_segs mb).*1 (drop 8 (ms_ranges ms))) as -> by reflexivity.
  rewrite try_fold_app, Hf. cbn [mbind result_bind].
  simpl. unfold serialize_index. cbn [fst snd].
  repeat (apply bind_Ok in H as (? & E & H); rewrite E; clear E; cbn [mbind result_bind]).
  by rewrite H.
Qed.

Lemma serialize_module_inverse (m : CompiledModule) (bytes : list u8) :
  module_ok m →
  serialize_module m [] = Ok bytes →
  deserialize_compiled_module bytes = Ok (m_at_version m VERSION_MAX).
Proof.
  intros Hok H. unfold serialize_module in H.
  apply bind_Ok in H as ([ms temp] & Hms & H).
  apply (serialize_tables_spec _ _ _ _ Hok) in Hms as (mb & -> & Hr & Hv & Hn & Hrg).
  destruct (N.ltb_spec u32_MAX (len (contents (module_segs mb)))) as [|Hsz]; [done|].
  apply bind_Ok in H as (header & Hh & H). apply bind_Ok in H as (b1 & Hi & H).
  apply bind_Ok in H as (b2 & ->%extend_Ok & H).
  apply (serialize_header_spec _ _ Hv) in Hh.
  apply (serialize_module_table_indices_fold _ mb) in Hi as (cbs & Hlc & Hi).
  rewrite Hn in Hlc. rewrite Hrg in Hi.
  apply indices_load in Hi as (hs & -> & Hl0); [|done|apply module_kinds_NoDup|done].
  apply (codec_roundtrip (Codec := codec_module_handle_index)) in H as (t1 & -> & _ & Hl1); [|done].
  eapply after_header; [exact Hh|by rewrite <- !app_assoc|]. rewrite app_assoc.
  eapply loads_bind; [apply Hl0; len_lia|]. cbn beta iota.
  eapply loads_pure; [apply loads_version|]. eapply loads_last; [exact Hl1|].
  apply loads_lift. by apply build_module_layout.
Qed.

(** C1. A well-formed compiled module that the serializer accepts deserializes, from the
    bytes written, to the same module at the version the serializer writes: every table,
    handle, definition, signature and instruction survives. *)
Theorem serialize_module_roundtrip (m : CompiledModule) (bytes : list u8) :
  module_ok m →
  serialize_module m [] = Ok bytes →
  deserialize_compiled_module bytes = Ok (m_at_version m VERSION_MAX).
Proof. apply serialize_module_inverse. Qed.

Definition sample_module : CompiledModule :=
  {| m_version := 4; m_self_module_handle_idx := 0;
     m_module_handles := [ {| mh_address := 0; mh_name := 1 |} ];
     m_struct_handles := [ {| sh_module := 0; sh_name := 2; sh_abilities := ALL;
                              sh_type_parameters := [ {| stp_constraints := EMPTY;
                                                         stp_is_phantom := true |} ] |} ];
     m_function_handles := [ {| fh_module := 0; fh_name := 0; fh_parameters := 1; fh_return := 0;
                                fh_type_parameters := [] |} ];
     m_field_handles := [ {| fld_owner := 0; fld_field := 0 |} ];
     m_friend_decls := [];
     m_struct_def_instantiations := [ {| sdi_def := 0; sdi_type_parameters := 1 |} ];
     m_function_instantiations := []; m_field_instantiations := [];
     m_signatures := [ []; [SignatureToken.U64] ];
     m_identifiers := [ [102; 111; 111]; [77]; [83] ];
     m_address_identifiers := [ ZERO ];
     m_constant_pool := [];
     m_struct_defs := [ {| sd_struct_handle := 0;
                           sd_field_information :=
                             Declared [ {| fd_name := 0; fd_signature := SignatureToken.U8 |} ] |} ];
     m_function_defs := [ {| fdef_function := 0; fdef_visibility := Public;
                             fdef_acquires_global_resources := [0];
                             fdef_code := Some {| cu_locals := 0;
                               cu_code := [Bytecode.VecPack 1 3; Bytecode.Pop; Bytecode.Ret] |} |};
                          {| fdef_function := 0; fdef_visibility := Script;
                             fdef_acquires_global_resources := []; fdef_code := None |} ] |}.

Lemma sample_module_ok : module_ok sample_module.
Proof.
  unfold module_ok, common_ok, struct_handle_ok, type_parameter_ok, function_handle_ok,
      struct_def_ok, field_def_ok, function_def_ok, code_unit_ok. simpl.
    repeat (first [apply conj | apply Forall_nil_2 | apply Forall_cons_2]);
      try (by vm_compute); by repeat constructor.
Qed.

Lemma serialize_module_roundtrip_witness :
  ∃ bytes, serialize_module sample_module [] = Ok bytes ∧
    deserialize_compiled_module bytes = Ok (m_at_version sample_module VERSION_MAX).
Proof.
  eexists. split; [vm_compute; reflexivity|].
  apply (serialize_module_roundtrip _ _ sample_module_ok). vm_compute. reflexivity.
Defined.
