(* ===== verification/Encodings.v ===== *)
(** * Encodings: signature tokens, instructions and the limits of the format

    The codecs of [Codecs] as statements about single tokens and instructions,
    which tokens the serializer accepts, and two encodings the format treats
    in a way its limits do not suggest: a type-parameter index of [2^16] and an
    instantiation without arguments. *)

From S2P Require Import Prelude CoreTypes VmStatus Abilities FileFormat BinaryCommon Uleb Loader Serializer Deserializer DeserializerTotal Codecs.

(** ** Round trips *)

(** The stack machine that deserializes a signature token inverts the preorder
    traversal that serializes it: an encodable token is read back from exactly the bytes
    written, and the cursor stops after them. *)
Theorem signature_token_roundtrip (b b' : BinaryData) (t : SignatureToken)
    (c : VersionedCursor) (tl : list u8) :
  TokenCodec.token_ok t →
  serialize_signature_token b t = Ok b' →
  ∃ bs, b' = b ++ bs ∧
    (vc_version c = VERSION_MAX → vrest c = bs ++ tl →
     load_signature_token c = Ok (t, vseek c (len bs)) ∧ vrest (vseek c (len bs)) = tl).
Proof.
  intros Ht Hs. destruct (codec_roundtrip _ _ _ Ht Hs) as (bs & -> & _ & Hl).
  exists bs. split; [done|]. intros Hv Hr. split; [by apply (Hl c tl)|by apply vrest_vseek].
Qed.

Definition sample_token : SignatureToken :=
  SignatureToken.StructInstantiation 3 [SignatureToken.U8; SignatureToken.Vector SignatureToken.Bool].
Definition sample_cursor : VersionedCursor :=
  {| vc_version := VERSION_MAX; vc_cursor := Cursor_new [11; 3; 2; 2; 10; 1; 99] |}.

Lemma signature_token_roundtrip_witness :
  TokenCodec.token_ok sample_token ∧
  serialize_signature_token [7] sample_token = Ok [7; 11; 3; 2; 2; 10; 1] ∧
  ∃ bs, [7; 11; 3; 2; 2; 10; 1] = [7] ++ bs ∧
    (vc_version sample_cursor = VERSION_MAX → vrest sample_cursor = bs ++ [99] →
     load_signature_token sample_cursor = Ok (sample_token, vseek sample_cursor (len bs)) ∧
     vrest (vseek sample_cursor (len bs)) = [99]).
Proof.
  assert (TokenCodec.token_ok sample_token) as Hok by (repeat split; done).
  assert (serialize_signature_token [7] sample_token = Ok [7; 11; 3; 2; 2; 10; 1]) as Hs
    by (vm_compute; reflexivity).
  split; [exact Hok|]. split; [exact Hs|].
  exact (signature_token_roundtrip [7] _ sample_token sample_cursor [99] Hok Hs).
Defined.

(** An instruction is its key followed by what its operands add. *)
Definition extends (w : BinaryData → Write) : Prop := ∀ b b', w b = Ok b' → ∃ bs, b' = b ++ bs.

Lemma extends_codec {A} (ser : BinaryData → A → Write) load `{!Codec ser load (λ _, True)} x :
  extends (λ b, ser b x).
Proof. intros b b' H. destruct (codec_roundtrip _ _ _ I H) as (bs & -> & _). eauto. Qed.
Lemma extends_bind w1 w2 : extends w1 → extends w2 → extends (λ b, w1 b ≫= w2).
Proof.
  intros H1 H2 b b' (b1 & (bs1 & ->)%H1 & (bs2 & ->)%H2)%bind_Ok.
  exists (bs1 ++ bs2). by rewrite app_assoc.
Qed.
Lemma extends_write n v : extends (λ b, extend b (to_le_bytes n v)).
Proof. intros b b' ->%extend_Ok. eauto. Qed.

Lemma extends_push_bind b k w b' :
  extends w → push b k ≫= w = Ok b' → ∃ bs, b' = b ++ k :: bs.
Proof.
  intros Hext (b1 & ->%push_Ok & (bs & ->)%Hext)%bind_Ok. exists bs. by rewrite <- app_assoc.
Qed.

Lemma instruction_key_first b i b' :
  serialize_instruction_inner b i = Ok b' →
  ∃ bs, b' = b ++ instruction_key i :: bs.
Proof.
  destruct i; cbv beta iota zeta delta [serialize_instruction_inner instruction_key];
    lazymatch goal with
    | |- push _ _ = _ → _ => intros ->%push_Ok; by exists []
    | |- _ => apply extends_push_bind
    end;
    lazymatch goal with
    | |- extends (λ b, push b _) => intros ? ? ->%push_Ok; by eauto
    | |- extends (λ b, write_u64 b _) => apply (extends_write 8)
    | |- extends (λ b, write_u128 b _) => apply (extends_write 16)
    | |- extends (λ b, serialize_signature_index b ?a ≫= _) =>
        apply (extends_bind (λ b, serialize_signature_index b a));
          [apply (extends_codec serialize_signature_index load_signature_index)
          |apply (extends_write 8)]
    | |- extends (λ b, ?ser b _) => apply (extends_codec ser _)
    end.
Qed.

(** Every bytecode instruction with operands that fit their types is written as its
    instruction key followed by its operands, and is read back from exactly those bytes. *)
Theorem instruction_roundtrip (b b' : BinaryData) (i : Bytecode) (c : VersionedCursor) (tl : list u8) :
  instruction_ok i →
  serialize_instruction_inner b i = Ok b' →
  ∃ bs, b' = b ++ instruction_key i :: bs ∧
    (vc_version c = VERSION_MAX → vrest c = instruction_key i :: bs ++ tl →
     load_instruction c = Ok (i, vseek c (1 + len bs)) ∧ vrest (vseek c (1 + len bs)) = tl).
Proof.
  intros Hi Hs. destruct (instruction_key_first _ _ _ Hs) as (bs & ->).
  destruct (codec_roundtrip (Codec := codec_instruction) _ _ _ Hi Hs) as (bs' & E & _ & Hl).
  apply app_inv_head in E. subst bs'. exists bs. split; [done|]. intros Hv Hr.
  rewrite <- len_cons with (x := instruction_key i).
  split; [by apply (Hl c tl)|by apply vrest_vseek].
Qed.

Lemma instruction_roundtrip_witness :
  instruction_ok (Bytecode.VecPack 300 2) ∧
  serialize_instruction_inner [] (Bytecode.VecPack 300 2)
    = Ok [64; 172; 2; 2; 0; 0; 0; 0; 0; 0; 0] ∧
  ∃ bs, [64; 172; 2; 2; 0; 0; 0; 0; 0; 0; 0] = [] ++ 64 :: bs ∧
    (vc_version sample_cursor = VERSION_MAX → vrest sample_cursor = 64 :: bs ++ [] →
     load_instruction sample_cursor = Ok (Bytecode.VecPack 300 2, vseek sample_cursor (1 + len bs)) ∧
     vrest (vseek sample_cursor (1 + len bs)) = []).
Proof.
  assert (instruction_ok (Bytecode.VecPack 300 2)) as Hok by (vm_compute; discriminate).
  assert (serialize_instruction_inner [] (Bytecode.VecPack 300 2)
    = Ok [64; 172; 2; 2; 0; 0; 0; 0; 0; 0; 0]) as Hs by (vm_compute; reflexivity).
  split; [exact Hok|]. split; [exact Hs|].
  exact (instruction_roundtrip [] _ _ sample_cursor [] Hok Hs).
Defined.

(** ** Which tokens the serializer accepts *)

(** The components of a node fit their limits. *)
Definition node_fits (t : SignatureToken) : Prop :=
  match t with
  | SignatureToken.Struct i => i <= STRUCT_HANDLE_INDEX_MAX
  | SignatureToken.StructInstantiation i ts =>
      i <= STRUCT_HANDLE_INDEX_MAX ∧ len ts <= SIGNATURE_SIZE_MAX
  | SignatureToken.TypeParameter i => i <= TYPE_PARAMETER_INDEX_MAX
  | _ => True
  end.
Definition token_fits (t : SignatureToken) : Prop :=
  Forall node_fits (SignatureToken.preorder_traversal t).

Lemma write_uleb_fits b x max :
  x <= max → max <= u64_MAX → len b + 10 <= usize_MAX →
  ∃ b', write_as_uleb128 b x max = Ok b' ∧ len b' <= len b + 10.
Proof.
  intros Hx Hmax Hb. unfold write_as_uleb128. destruct (N.ltb_spec max x); [lia|].
  rewrite write_uleb_bytes by lia. pose proof (uleb_bytes_length x).
  eexists. split; [apply push_all_room; lia|]. rewrite len_app. lia.
Qed.

Lemma serialize_node_fits b t :
  node_fits t → len b + 21 <= usize_MAX →
  ∃ b', serialize_signature_token_single_node_impl b t = Ok b' ∧ len b' <= len b + 21.
Proof.
  intros Ht Hb.
  assert (∀ x, push b x = Ok (b ++ [x]) ∧ len (b ++ [x]) = len b + 1) as Hp.
  { intros x. split; [apply push_room; lia|len_lia]. }
  assert (STRUCT_HANDLE_INDEX_MAX <= u64_MAX ∧ SIGNATURE_SIZE_MAX <= u64_MAX ∧
          TYPE_PARAMETER_INDEX_MAX <= u64_MAX) as (Hm1 & Hm2 & Hm3) by (repeat split; by vm_compute).
  unfold serialize_signature_token_single_node_impl.
  destruct t as [| | | | | |u|i|i ts|u|u|i]; simpl in Ht;
    match goal with |- context [push b ?x] => destruct (Hp x) as [-> Hl] end;
    cbn [mbind result_bind]; try (eexists; split; [reflexivity|lia]).
  - destruct (write_uleb_fits (b ++ [SerializedType_to_u8 SerializedType.STRUCT]) i _ Ht Hm1)
      as (b1 & H1 & Hl1); [lia|]. exists b1. split; [exact H1|lia].
  - destruct Ht as [Hi Hn].
    destruct (write_uleb_fits (b ++ [SerializedType_to_u8 SerializedType.STRUCT_INST]) i _ Hi Hm1)
      as (b1 & H1 & Hl1); [lia|]. unfold serialize_struct_handle_index. rewrite H1.
    destruct (write_uleb_fits b1 (len ts) _ Hn Hm2) as (b2 & H2 & Hl2); [lia|].
    exists b2. split; [exact H2|lia].
  - destruct (write_uleb_fits (b ++ [SerializedType_to_u8 SerializedType.TYPE_PARAMETER]) i _ Ht Hm3)
      as (b1 & H1 & Hl1); [lia|]. exists b1. split; [exact H1|lia].
Qed.

Lemma serialize_nodes_fit nodes b :
  Forall node_fits (nodes.*1) → len b + 21 * len nodes <= usize_MAX →
  (Forall (λ p, p.2 <= SIGNATURE_TOKEN_DEPTH_MAX) nodes →
     ∃ b', try_fold TokenCodec.ser_node nodes b = Ok b') ∧
  (¬ Forall (λ p, p.2 <= SIGNATURE_TOKEN_DEPTH_MAX) nodes →
     try_fold TokenCodec.ser_node nodes b = Err MaxRecursionDepth).
Proof.
  revert b; induction nodes as [|[t d] nodes IH]; intros b; cbn [fmap list_fmap try_fold fst].
  { intros _ _. split; [by eexists|]. intros []. constructor. }
  rewrite !Forall_cons, len_cons. intros [Ht Hts] Hb. cbn [TokenCodec.ser_node snd].
  destruct (N.ltb_spec SIGNATURE_TOKEN_DEPTH_MAX d) as [Hd|Hd].
  { split; [lia|done]. }
  destruct (serialize_node_fits b t Ht) as (b1 & -> & Hl); [lia|]. cbn [mbind result_bind].
  destruct (IH b1 Hts) as [IH1 IH2]; [lia|]. split; [by intros [_ ?]; apply IH1|].
  intros Hn. apply IH2. intros Hf. by apply Hn.
Qed.

(** For a token whose indices and counts fit the format and a buffer with room, the
    serializer succeeds exactly when the depth of the token is at most
    SIGNATURE_TOKEN_DEPTH_MAX, and otherwise fails with the recursion-depth error. *)
Theorem serialize_signature_token_accepts (b : BinaryData) (t : SignatureToken) :
  token_fits t →
  len b + 21 * len (SignatureToken.preorder_traversal t) <= usize_MAX →
  (N.of_nat (SignatureToken.depth t) <= SIGNATURE_TOKEN_DEPTH_MAX →
     ∃ b', serialize_signature_token b t = Ok b') ∧
  (SIGNATURE_TOKEN_DEPTH_MAX < N.of_nat (SignatureToken.depth t) →
     serialize_signature_token b t = Err MaxRecursionDepth).
Proof.
  unfold token_fits. rewrite Preorder.preorder_traversal_spec. intros Ht Hb.
  assert (len ((Preorder.preorder t 1).*1) = len (Preorder.preorder t 1)) as Hlen
    by (unfold len; by rewrite length_fmap).
  rewrite Hlen in Hb. unfold serialize_signature_token. rewrite Preorder.for_preorder_fold.
  destruct (serialize_nodes_fit _ b Ht Hb) as [H1 H2].
  rewrite Preorder.preorder_depth in H1, H2. split; intros Hd.
  - apply H1. lia.
  - apply H2. lia.
Qed.

Lemma serialize_signature_token_accepts_witness :
  token_fits sample_token ∧
  (N.of_nat (SignatureToken.depth sample_token) <= SIGNATURE_TOKEN_DEPTH_MAX →
     ∃ b', serialize_signature_token [] sample_token = Ok b').
Proof.
  assert (token_fits sample_token) as Hf by (repeat constructor; vm_compute; discriminate).
  split; [exact Hf|].
  apply (serialize_signature_token_accepts [] sample_token Hf). vm_compute. discriminate.
Defined.

(** ** The limits of the format *)

(** A type-parameter index is accepted up to u16::MAX, the value 65536 is reported as
    an unknown invariant violation and larger values as malformed: the limit of the format
    is one above the type it is read into. *)
Theorem load_type_parameter_index_spec (c : VersionedCursor) (x : u64) (cur : Cursor) :
  read_uleb128_as_u64 (vc_cursor c) = Ok (x, cur) →
  load_type_parameter_index c =
    if x <=? u16_MAX then Ok (x, {| vc_version := vc_version c; vc_cursor := cur |})
    else if x =? 65536 then Err UNKNOWN_INVARIANT_VIOLATION_ERROR
    else Err MALFORMED.
Proof.
  intros H. unfold load_type_parameter_index, read_uleb_internal, mbind, loader_bind, on_cursor.
  rewrite H. change u16_MAX with 65535. change TYPE_PARAMETER_INDEX_MAX with 65536.
  destruct (N.ltb_spec 65536 x), (N.leb_spec x 65535), (N.eqb_spec x 65536); try lia; try done.
  - destruct (N.ltb_spec 65535 x); [lia|done].
  - by destruct (N.ltb_spec 65535 x); [|lia].
Qed.

Lemma load_type_parameter_index_spec_witness :
  read_uleb128_as_u64 (Cursor_new [128; 128; 4])
    = Ok (65536, {| cur_inner := [128; 128; 4]; cur_pos := 3 |}) ∧
  load_type_parameter_index {| vc_version := 4; vc_cursor := Cursor_new [128; 128; 4] |}
    = Err UNKNOWN_INVARIANT_VIOLATION_ERROR.
Proof.
  assert (read_uleb128_as_u64 (Cursor_new [128; 128; 4])
    = Ok (65536, {| cur_inner := [128; 128; 4]; cur_pos := 3 |})) as H by (vm_compute; reflexivity).
  split; [exact H|].
  exact (load_type_parameter_index_spec
    {| vc_version := 4; vc_cursor := Cursor_new [128; 128; 4] |} _ _ H).
Defined.

(** The status of such a module belongs to the invariant violations of the
    virtual machine, although the module is just malformed input. *)
Example type_parameter_index_status :
  status_type UNKNOWN_INVARIANT_VIOLATION_ERROR = InvariantViolation.
Proof. reflexivity. Qed.

(** An instantiation without arguments is written with arity zero and then
    takes the next token as its argument: two encodings of one token. *)
Example empty_instantiation_ambiguous :
  serialize_signature_token [] (SignatureToken.StructInstantiation 0 []) = Ok [11; 0; 0] ∧
  load_signature_token {| vc_version := 4; vc_cursor := Cursor_new [11; 0; 0; 2] |} =
    Ok (SignatureToken.StructInstantiation 0 [SignatureToken.U8],
        {| vc_version := 4; vc_cursor := {| cur_inner := [11; 0; 0; 2]; cur_pos := 4 |} |}) ∧
  load_signature_token {| vc_version := 4; vc_cursor := Cursor_new [11; 0; 1; 2] |} =
    Ok (SignatureToken.StructInstantiation 0 [SignatureToken.U8],
        {| vc_version := 4; vc_cursor := {| cur_inner := [11; 0; 1; 2]; cur_pos := 4 |} |}).
Proof. split; [|split]; vm_compute; reflexivity. Qed.
