(* ===== verification/Views.v ===== *)
(** * Views: indexed access to the tables of a module or a script

    Models [language/move-binary-format/src/binary_views.rs] and the accessors
    of [access.rs] it forwards to: the tables behind a common view, the [_at]
    accessors, which panic out of range, and the abilities of a type. *)

From S2P Require Import Prelude CoreTypes VmStatus Abilities FileFormat.

(** [pub enum BinaryIndexedView] *)
Inductive BinaryIndexedView : Set :=
| VModule (module : CompiledModule)
| VScript (script : CompiledScript).

(** ** Tables *)

Definition view_module_handles (self : BinaryIndexedView) : list ModuleHandle :=
  match self with VModule m => m_module_handles m | VScript s => s_module_handles s end.
Definition view_struct_handles (self : BinaryIndexedView) : list StructHandle :=
  match self with VModule m => m_struct_handles m | VScript s => s_struct_handles s end.
Definition view_function_handles (self : BinaryIndexedView) : list FunctionHandle :=
  match self with VModule m => m_function_handles m | VScript s => s_function_handles s end.
Definition view_identifiers (self : BinaryIndexedView) : list Identifier :=
  match self with VModule m => m_identifiers m | VScript s => s_identifiers s end.
Definition view_address_identifiers (self : BinaryIndexedView) : list AccountAddress :=
  match self with VModule m => m_address_identifiers m | VScript s => s_address_identifiers s end.
Definition view_constant_pool (self : BinaryIndexedView) : list Constant :=
  match self with VModule m => m_constant_pool m | VScript s => s_constant_pool s end.
Definition view_signatures (self : BinaryIndexedView) : list Signature :=
  match self with VModule m => m_signatures m | VScript s => s_signatures s end.
Definition view_function_instantiations (self : BinaryIndexedView) : list FunctionInstantiation :=
  match self with VModule m => m_function_instantiations m | VScript s => s_function_instantiations s end.

(** The tables a script does not have *)
Definition view_field_handles (self : BinaryIndexedView) : option (list FieldHandle) :=
  match self with VModule m => Some (m_field_handles m) | VScript _ => None end.
Definition view_friend_decls (self : BinaryIndexedView) : option (list ModuleHandle) :=
  match self with VModule m => Some (m_friend_decls m) | VScript _ => None end.
Definition view_struct_instantiations (self : BinaryIndexedView) : option (list StructDefInstantiation) :=
  match self with VModule m => Some (m_struct_def_instantiations m) | VScript _ => None end.
Definition view_field_instantiations (self : BinaryIndexedView) : option (list FieldInstantiation) :=
  match self with VModule m => Some (m_field_instantiations m) | VScript _ => None end.
Definition view_struct_defs (self : BinaryIndexedView) : option (list StructDefinition) :=
  match self with VModule m => Some (m_struct_defs m) | VScript _ => None end.
Definition view_function_defs (self : BinaryIndexedView) : option (list FunctionDefinition) :=
  match self with VModule m => Some (m_function_defs m) | VScript _ => None end.

Definition view_self_handle_idx (self : BinaryIndexedView) : option ModuleHandleIndex :=
  match self with VModule m => Some (m_self_module_handle_idx m) | VScript _ => None end.
Definition view_version (self : BinaryIndexedView) : u32 :=
  match self with VModule m => m_version m | VScript s => s_version s end.

(** ** Access by index

    [assumed_postcondition!] is a [debug_assert!]: in the model, as in a debug
    build, a failed one panics too.  Only the accessors of [ModuleAccess] state
    postconditions. *)

Definition assumed_postcondition {E A} (c : bool) (a : A) : result E A :=
  if c then Ok a else Panic.

(** A postcondition that only the module's accessor asserts *)
Definition module_only (self : BinaryIndexedView) (c : bool) : bool :=
  match self with VModule _ => c | VScript _ => true end.

Definition in_table {A} (l : list A) (i : TableIndex) : bool := i <? len l.

Definition module_handle_at (self : BinaryIndexedView) (idx : ModuleHandleIndex)
  : result StatusCode ModuleHandle :=
  handle ← unwrap (at_ (view_module_handles self) idx);
  assumed_postcondition (module_only self
    (in_table (view_address_identifiers self) (mh_address handle)
     && in_table (view_identifiers self) (mh_name handle))) handle.
Definition struct_handle_at (self : BinaryIndexedView) (idx : StructHandleIndex)
  : result StatusCode StructHandle :=
  handle ← unwrap (at_ (view_struct_handles self) idx);
  assumed_postcondition (module_only self
    (in_table (view_module_handles self) (sh_module handle))) handle.
Definition function_handle_at (self : BinaryIndexedView) (idx : FunctionHandleIndex)
  : result StatusCode FunctionHandle :=
  handle ← unwrap (at_ (view_function_handles self) idx);
  assumed_postcondition (module_only self
    (in_table (view_signatures self) (fh_parameters handle)
     && in_table (view_signatures self) (fh_return handle))) handle.
Definition signature_at (self : BinaryIndexedView) (idx : SignatureIndex)
  : result StatusCode Signature := unwrap (at_ (view_signatures self) idx).
Definition identifier_at (self : BinaryIndexedView) (idx : IdentifierIndex)
  : result StatusCode Identifier := unwrap (at_ (view_identifiers self) idx).
Definition address_identifier_at (self : BinaryIndexedView) (idx : AddressIdentifierIndex)
  : result StatusCode AccountAddress := unwrap (at_ (view_address_identifiers self) idx).
Definition constant_at (self : BinaryIndexedView) (idx : ConstantPoolIndex)
  : result StatusCode Constant := unwrap (at_ (view_constant_pool self) idx).
Definition function_instantiation_at (self : BinaryIndexedView) (idx : FunctionInstantiationIndex)
  : result StatusCode FunctionInstantiation := unwrap (at_ (view_function_instantiations self) idx).

(** The accessors a script answers with an error *)
Definition field_handle_at (self : BinaryIndexedView) (idx : FieldHandleIndex)
  : result StatusCode FieldHandle :=
  match self with
  | VModule m =>
      handle ← unwrap (at_ (m_field_handles m) idx);
      assumed_postcondition (in_table (m_struct_defs m) (fld_owner handle)) handle
  | VScript _ => Err INVALID_OPERATION_IN_SCRIPT
  end.
Definition struct_instantiation_at (self : BinaryIndexedView) (idx : StructDefInstantiationIndex)
  : result StatusCode StructDefInstantiation :=
  match self with
  | VModule m => unwrap (at_ (m_struct_def_instantiations m) idx)
  | VScript _ => Err INVALID_OPERATION_IN_SCRIPT
  end.
Definition field_instantiation_at (self : BinaryIndexedView) (idx : FieldInstantiationIndex)
  : result StatusCode FieldInstantiation :=
  match self with
  | VModule m => unwrap (at_ (m_field_instantiations m) idx)
  | VScript _ => Err INVALID_OPERATION_IN_SCRIPT
  end.
Definition struct_def_at (self : BinaryIndexedView) (idx : StructDefinitionIndex)
  : result StatusCode StructDefinition :=
  match self with
  | VModule m => unwrap (at_ (m_struct_defs m) idx)
  | VScript _ => Err INVALID_OPERATION_IN_SCRIPT
  end.
Definition function_def_at (self : BinaryIndexedView) (idx : FunctionDefinitionIndex)
  : result StatusCode FunctionDefinition :=
  match self with
  | VModule m =>
      def ← unwrap (at_ (m_function_defs m) idx);
      assumed_postcondition (in_table (m_function_handles m) (fdef_function def)
        && match fdef_code def with
           | Some code => in_table (m_signatures m) (cu_locals code)
           | None => true
           end) def
  | VScript _ => Err INVALID_OPERATION_IN_SCRIPT
  end.

(** [module_id_for_handle] and [self_id] *)
Definition module_id_for_handle (self : BinaryIndexedView) (module_handle : ModuleHandle)
  : result StatusCode ModuleId :=
  address ← address_identifier_at self (mh_address module_handle);
  name ← identifier_at self (mh_name module_handle);
  Ok {| mid_address := address; mid_name := name |}.
Definition self_id (self : BinaryIndexedView) : result StatusCode (option ModuleId) :=
  match view_self_handle_idx self with
  | Some idx =>
      handle ← module_handle_at self idx;
      id ← module_id_for_handle self handle;
      Ok (Some id)
  | None => Ok None
  end.

(** ** Abilities of a type *)

(** [iter().map(f).collect::<Result<Vec<_>>>()] *)
Definition collect {E A B} (f : A → result E B) : list A → result E (list B) :=
  fix go l := match l with
  | [] => Ok []
  | x :: l => y ← f x; ys ← go l; Ok (y :: ys)
  end.

(** [BinaryIndexedView::abilities] *)
Fixpoint abilities (self : BinaryIndexedView) (ty : SignatureToken) (constraints : list AbilitySet)
  : result StatusCode AbilitySet :=
  match ty with
  | SignatureToken.Bool | SignatureToken.U8 | SignatureToken.U64 | SignatureToken.U128
  | SignatureToken.Address => Ok PRIMITIVES
  | SignatureToken.Reference _ | SignatureToken.MutableReference _ => Ok REFERENCES
  | SignatureToken.Signer => Ok SIGNER
  | SignatureToken.TypeParameter idx => unwrap (at_ constraints idx)
  | SignatureToken.Vector ty =>
      a ← abilities self ty constraints;
      polymorphic_abilities VECTOR [false] [a]
  | SignatureToken.Struct idx =>
      sh ← struct_handle_at self idx;
      Ok (sh_abilities sh)
  | SignatureToken.StructInstantiation idx type_args =>
      sh ← struct_handle_at self idx;
      let declared_abilities := sh_abilities sh in
      type_arguments ← collect (λ arg, abilities self arg constraints) type_args;
      polymorphic_abilities declared_abilities
        (stp_is_phantom <$> sh_type_parameters sh) type_arguments
  end.
