(* ===== verification/BoundsChecker.v ===== *)
(** * BoundsChecker: every index of a unit is in range

    Models [language/move-binary-format/src/check_bounds.rs] and the entry points
    [CompiledModule::deserialize] and [CompiledScript::deserialize] of
    [deserializer.rs] that run it.  An index is a number here, so the [KIND] of
    its type ([ModuleIndex::KIND]) is an argument of the checks. *)

From S2P Require Import Prelude CoreTypes VmStatus Abilities FileFormat Errors Deserializer Views.

Import SignatureToken Bytecode.

(** [enum BoundsCheckingContext] *)
Inductive BoundsCheckingContext : Set :=
| CModule
| CModuleFunction (i : FunctionDefinitionIndex)
| CScript.

(** [pub struct BoundsChecker] *)
Record BoundsChecker : Set := {
  view : BinaryIndexedView;
  context : BoundsCheckingContext }.

(** ** Checks of one index *)

Definition check_bounds_impl {T} (kind : IndexKind) (pool : list T) (idx : TableIndex)
  : result PartialVMError unit :=
  if len pool <=? idx
  then Err (bounds_error INDEX_OUT_OF_BOUNDS kind (wrap 16 idx) (len pool))
  else Ok tt.

Definition check_bounds_impl_opt {T} (kind : IndexKind) (pool : option (list T))
    (idx : TableIndex) : result PartialVMError unit :=
  match pool with
  | None => Ok tt
  | Some p => check_bounds_impl kind p idx
  end.

(** [if let Some(x) = o { f(x)? }] *)
Definition if_some {A} (o : option A) (f : A → result PartialVMError unit)
  : result PartialVMError unit :=
  match o with Some x => f x | None => Ok tt end.

(** [o.into_iter().flatten()] *)
Definition opt_list {A} (o : option (list A)) : list A :=
  match o with Some l => l | None => [] end.

(** The error of [self.offset_out_of_bounds(..)] *)
Definition offset_out_of_bounds (self : BoundsChecker) (status : StatusCode) (kind : IndexKind)
    (target_offset target_pool_len : N) (cur_bytecode_offset : CodeOffset) : PartialVMError :=
  match context self with
  | CModule => PartialVMError_new UNKNOWN_INVARIANT_VIOLATION_ERROR
  | CModuleFunction current_function_index =>
      offset_out_of_bounds_error status kind target_offset target_pool_len
        current_function_index cur_bytecode_offset
  | CScript => PartialVMError_new status
  end.

Definition check_code_unit_bounds_impl {T} (self : BoundsChecker) (kind : IndexKind)
    (pool : list T) (idx : TableIndex) (bytecode_offset : N) : result PartialVMError unit :=
  if len pool <=? idx
  then Err (offset_out_of_bounds self INDEX_OUT_OF_BOUNDS kind idx (len pool)
              (wrap 16 bytecode_offset))
  else Ok tt.

Definition check_code_unit_bounds_impl_opt {T} (self : BoundsChecker) (kind : IndexKind)
    (pool : option (list T)) (idx : TableIndex) (bytecode_offset : N)
  : result PartialVMError unit :=
  match pool with
  | None => Ok tt
  | Some p => check_code_unit_bounds_impl self kind p idx bytecode_offset
  end.

(** ** Types *)

(** The body of the loop of [check_type] *)
Definition check_type_node (self : BoundsChecker) (ty : SignatureToken)
  : result PartialVMError unit :=
  match ty with
  | Bool | U8 | U64 | U128 | Address | Signer | TypeParameter _ | Reference _
  | MutableReference _ | Vector _ => Ok tt
  | Struct idx =>
      _ ← check_bounds_impl KStructHandle (view_struct_handles (view self)) idx;
      if_some (at_ (view_struct_handles (view self)) idx) (λ sh,
        if negb (is_empty (sh_type_parameters sh))
        then Err (PartialVMError_new NUMBER_OF_TYPE_ARGUMENTS_MISMATCH)
        else Ok tt)
  | StructInstantiation idx type_params =>
      _ ← check_bounds_impl KStructHandle (view_struct_handles (view self)) idx;
      if_some (at_ (view_struct_handles (view self)) idx) (λ sh,
        if negb (len (sh_type_parameters sh) =? len type_params)
        then Err (PartialVMError_new NUMBER_OF_TYPE_ARGUMENTS_MISMATCH)
        else Ok tt)
  end.

Definition check_type (self : BoundsChecker) (ty : SignatureToken)
  : result PartialVMError unit :=
  for_each (check_type_node self) (preorder_traversal ty).

(** The body of the loop of [check_type_parameter] *)
Definition check_type_parameter_node (type_param_count : N) (ty : SignatureToken)
  : result PartialVMError unit :=
  match ty with
  | TypeParameter idx =>
      if type_param_count <=? idx
      then Err (bounds_error INDEX_OUT_OF_BOUNDS KTypeParameter idx type_param_count)
      else Ok tt
  | Bool | U8 | U64 | U128 | Address | Signer | Struct _ | Reference _
  | MutableReference _ | Vector _ | StructInstantiation _ _ => Ok tt
  end.

Definition check_type_parameter (ty : SignatureToken) (type_param_count : N)
  : result PartialVMError unit :=
  for_each (check_type_parameter_node type_param_count) (preorder_traversal ty).

(** [for ty in &sig.0 { self.check_type_parameter(ty, type_param_count)? }] *)
Definition check_type_parameters (sig : Signature) (type_param_count : N)
  : result PartialVMError unit :=
  for_each (λ ty, check_type_parameter ty type_param_count) sig.

(** ** Entries of the tables *)

Definition check_signature (self : BoundsChecker) (signature : Signature)
  : result PartialVMError unit := for_each (check_type self) signature.

Definition check_constant (self : BoundsChecker) (constant : Constant)
  : result PartialVMError unit := check_type self (const_type constant).

Definition check_module_handle (self : BoundsChecker) (module_handle : ModuleHandle)
  : result PartialVMError unit :=
  _ ← check_bounds_impl KAddressIdentifier (view_address_identifiers (view self))
        (mh_address module_handle);
  check_bounds_impl KIdentifier (view_identifiers (view self)) (mh_name module_handle).

Definition check_self_module_handle (self : BoundsChecker) : result PartialVMError unit :=
  match view_self_handle_idx (view self) with
  | Some idx => check_bounds_impl KModuleHandle (view_module_handles (view self)) idx
  | None => Ok tt
  end.

Definition check_struct_handle (self : BoundsChecker) (struct_handle : StructHandle)
  : result PartialVMError unit :=
  _ ← check_bounds_impl KModuleHandle (view_module_handles (view self))
        (sh_module struct_handle);
  check_bounds_impl KIdentifier (view_identifiers (view self)) (sh_name struct_handle).

Definition check_function_handle (self : BoundsChecker) (function_handle : FunctionHandle)
  : result PartialVMError unit :=
  let signatures := view_signatures (view self) in
  _ ← check_bounds_impl KModuleHandle (view_module_handles (view self))
        (fh_module function_handle);
  _ ← check_bounds_impl KIdentifier (view_identifiers (view self)) (fh_name function_handle);
  _ ← check_bounds_impl KSignature signatures (fh_parameters function_handle);
  _ ← check_bounds_impl KSignature signatures (fh_return function_handle);
  let type_param_count := len (fh_type_parameters function_handle) in
  _ ← if_some (at_ signatures (fh_parameters function_handle)) (λ sig,
        check_type_parameters sig type_param_count);
  if_some (at_ signatures (fh_return function_handle)) (λ sig,
    check_type_parameters sig type_param_count).

Definition check_field_handle (self : BoundsChecker) (field_handle : FieldHandle)
  : result PartialVMError unit :=
  _ ← check_bounds_impl_opt KStructDefinition (view_struct_defs (view self))
        (fld_owner field_handle);
  if_some (view_struct_defs (view self) ≫= λ d, at_ d (fld_owner field_handle))
    (λ struct_def,
      let fields_count :=
        match sd_field_information struct_def with
        | Native => 0
        | Declared fields => len fields
        end in
      if fields_count <=? fld_field field_handle
      then Err (bounds_error INDEX_OUT_OF_BOUNDS KMemberCount (fld_field field_handle)
                  fields_count)
      else Ok tt).

Definition check_struct_instantiation (self : BoundsChecker)
    (struct_instantiation : StructDefInstantiation) : result PartialVMError unit :=
  _ ← check_bounds_impl_opt KStructDefinition (view_struct_defs (view self))
        (sdi_def struct_instantiation);
  check_bounds_impl KSignature (view_signatures (view self))
    (sdi_type_parameters struct_instantiation).

Definition check_function_instantiation (self : BoundsChecker)
    (function_instantiation : FunctionInstantiation) : result PartialVMError unit :=
  _ ← check_bounds_impl KFunctionHandle (view_function_handles (view self))
        (fi_handle function_instantiation);
  check_bounds_impl KSignature (view_signatures (view self))
    (fi_type_parameters function_instantiation).

Definition check_field_instantiation (self : BoundsChecker)
    (field_instantiation : FieldInstantiation) : result PartialVMError unit :=
  _ ← check_bounds_impl_opt KFieldHandle (view_field_handles (view self))
        (fldi_handle field_instantiation);
  check_bounds_impl KSignature (view_signatures (view self))
    (fldi_type_parameters field_instantiation).

Definition check_struct_def (self : BoundsChecker) (struct_def : StructDefinition)
  : result PartialVMError unit :=
  _ ← check_bounds_impl KStructHandle (view_struct_handles (view self))
        (sd_struct_handle struct_def);
  match sd_field_information struct_def with
  | Native => Ok tt
  | Declared fields =>
      let type_param_count :=
        match at_ (view_struct_handles (view self)) (sd_struct_handle struct_def) with
        | Some sh => len (sh_type_parameters sh)
        | None => 0
        end in
      for_each (λ field,
        _ ← check_bounds_impl KIdentifier (view_identifiers (view self)) (fd_name field);
        _ ← check_type self (fd_signature field);
        check_type_parameter (fd_signature field) type_param_count) fields
  end.

(** ** Code *)

Definition get_locals (self : BoundsChecker) (code_unit : CodeUnit)
  : result PartialVMError (list SignatureToken) :=
  match at_ (view_signatures (view self)) (cu_locals code_unit) with
  | Some signature => Ok signature
  | None => Err (bounds_error INDEX_OUT_OF_BOUNDS KSignature (wrap 16 (cu_locals code_unit))
                   (len (view_signatures (view self))))
  end.

(** The type parameters of the signature at [idx], if there is one, against
    those of the function *)
Definition check_type_arguments (self : BoundsChecker) (idx : SignatureIndex)
    (type_param_count : N) : result PartialVMError unit :=
  if_some (at_ (view_signatures (view self)) idx) (λ sig,
    check_type_parameters sig type_param_count).

(** The body of the loop of [check_code] *)
Definition check_bytecode (self : BoundsChecker) (locals_count type_param_count code_len : N)
    (bytecode_offset : N) (bytecode : Bytecode) : result PartialVMError unit :=
  match bytecode with
  | LdConst idx =>
      check_code_unit_bounds_impl self KConstantPool (view_constant_pool (view self)) idx
        bytecode_offset
  | MutBorrowField idx | ImmBorrowField idx =>
      check_code_unit_bounds_impl_opt self KFieldHandle (view_field_handles (view self)) idx
        bytecode_offset
  | MutBorrowFieldGeneric idx | ImmBorrowFieldGeneric idx =>
      _ ← check_code_unit_bounds_impl_opt self KFieldInstantiation
            (view_field_instantiations (view self)) idx bytecode_offset;
      if_some (view_field_instantiations (view self) ≫= λ f, at_ f idx) (λ field_inst,
        check_type_arguments self (fldi_type_parameters field_inst) type_param_count)
  | Call idx =>
      check_code_unit_bounds_impl self KFunctionHandle (view_function_handles (view self)) idx
        bytecode_offset
  | CallGeneric idx =>
      _ ← check_code_unit_bounds_impl self KFunctionInstantiation
            (view_function_instantiations (view self)) idx bytecode_offset;
      if_some (at_ (view_function_instantiations (view self)) idx) (λ func_inst,
        check_type_arguments self (fi_type_parameters func_inst) type_param_count)
  | Pack idx | Unpack idx | Exists idx | ImmBorrowGlobal idx | MutBorrowGlobal idx
  | MoveFrom idx | MoveTo idx =>
      check_code_unit_bounds_impl_opt self KStructDefinition (view_struct_defs (view self)) idx
        bytecode_offset
  | PackGeneric idx | UnpackGeneric idx | ExistsGeneric idx | ImmBorrowGlobalGeneric idx
  | MutBorrowGlobalGeneric idx | MoveFromGeneric idx | MoveToGeneric idx =>
      _ ← check_code_unit_bounds_impl_opt self KStructDefInstantiation
            (view_struct_instantiations (view self)) idx bytecode_offset;
      if_some (view_struct_instantiations (view self) ≫= λ s, at_ s idx) (λ struct_inst,
        check_type_arguments self (sdi_type_parameters struct_inst) type_param_count)
  | BrTrue offset | BrFalse offset | Branch offset =>
      if code_len <=? offset
      then Err (offset_out_of_bounds self INDEX_OUT_OF_BOUNDS KCodeDefinition offset code_len
                  (wrap 16 bytecode_offset))
      else Ok tt
  | CopyLoc idx | MoveLoc idx | StLoc idx | MutBorrowLoc idx | ImmBorrowLoc idx =>
      if locals_count <=? idx
      then Err (offset_out_of_bounds self INDEX_OUT_OF_BOUNDS KLocalPool idx locals_count
                  (wrap 16 bytecode_offset))
      else Ok tt
  | VecPack idx _ | VecLen idx | VecImmBorrow idx | VecMutBorrow idx | VecPushBack idx
  | VecPopBack idx | VecUnpack idx _ | VecSwap idx =>
      _ ← check_code_unit_bounds_impl self KSignature (view_signatures (view self)) idx
            bytecode_offset;
      check_type_arguments self idx type_param_count
  | FreezeRef | Pop | Ret | LdU8 _ | LdU64 _ | LdU128 _ | CastU8 | CastU64 | CastU128
  | LdTrue | LdFalse | ReadRef | WriteRef | Add | Sub | Mul | Mod | Div | BitOr | BitAnd
  | Xor | Shl | Shr | Or | And | Not | Eq | Neq | Lt | Gt | Le | Ge | Abort | Nop => Ok tt
  end.

Definition check_code (self : BoundsChecker) (code_unit : CodeUnit)
    (type_parameters : list AbilitySet) (parameters : Signature)
  : result PartialVMError unit :=
  _ ← check_bounds_impl KSignature (view_signatures (view self)) (cu_locals code_unit);
  locals ← get_locals self code_unit;
  let locals_count := len locals + len parameters in
  let type_param_count := len type_parameters in
  _ ← for_each (λ local, check_type_parameter local type_param_count) locals;
  let code_len := len (cu_code code_unit) in
  for_each (λ p, check_bytecode self locals_count type_param_count code_len p.1 p.2)
    (enumerate (cu_code code_unit)).

(** ** Functions

    [check_function_def] writes the context, so it returns the checker. *)

Definition check_function_def (self : BoundsChecker) (function_def_idx : N)
    (function_def : FunctionDefinition) : result PartialVMError BoundsChecker :=
  let self := {| view := view self;
                 context := CModuleFunction (wrap 16 function_def_idx) |} in
  _ ← check_bounds_impl KFunctionHandle (view_function_handles (view self))
        (fdef_function function_def);
  _ ← for_each (check_bounds_impl_opt KStructDefinition (view_struct_defs (view self)))
        (fdef_acquires_global_resources function_def);
  match fdef_code function_def with
  | None => Ok self
  | Some code_unit =>
      function_handle ← unwrap (at_ (view_function_handles (view self))
                                   (fdef_function function_def));
      parameters ← unwrap (at_ (view_signatures (view self)) (fh_parameters function_handle));
      locals ← get_locals self code_unit;
      let locals_count := len locals + len parameters in
      if u8_MAX + 1 <? locals_count
      then Err (verification_error TOO_MANY_LOCALS KFunctionDefinition
                  (wrap 16 function_def_idx))
      else
        _ ← check_code self code_unit (fh_type_parameters function_handle) parameters;
        Ok self
  end.

Definition check_function_defs (self : BoundsChecker) : result PartialVMError BoundsChecker :=
  try_fold (λ self p, check_function_def self p.1 p.2)
    (enumerate (opt_list (view_function_defs (view self)))) self.

(** ** The whole unit *)

Definition check_signatures (self : BoundsChecker) : result PartialVMError unit :=
  for_each (check_signature self) (view_signatures (view self)).
Definition check_constants (self : BoundsChecker) : result PartialVMError unit :=
  for_each (check_constant self) (view_constant_pool (view self)).
Definition check_module_handles (self : BoundsChecker) : result PartialVMError unit :=
  for_each (check_module_handle self) (view_module_handles (view self)).
Definition check_struct_handles (self : BoundsChecker) : result PartialVMError unit :=
  for_each (check_struct_handle self) (view_struct_handles (view self)).
Definition check_function_handles (self : BoundsChecker) : result PartialVMError unit :=
  for_each (check_function_handle self) (view_function_handles (view self)).
Definition check_field_handles (self : BoundsChecker) : result PartialVMError unit :=
  for_each (check_field_handle self) (opt_list (view_field_handles (view self))).
Definition check_friend_decls (self : BoundsChecker) : result PartialVMError unit :=
  for_each (check_module_handle self) (opt_list (view_friend_decls (view self))).
Definition check_struct_instantiations (self : BoundsChecker) : result PartialVMError unit :=
  for_each (check_struct_instantiation self) (opt_list (view_struct_instantiations (view self))).
Definition check_function_instantiations (self : BoundsChecker) : result PartialVMError unit :=
  for_each (check_function_instantiation self) (view_function_instantiations (view self)).
Definition check_field_instantiations (self : BoundsChecker) : result PartialVMError unit :=
  for_each (check_field_instantiation self) (opt_list (view_field_instantiations (view self))).
Definition check_struct_defs (self : BoundsChecker) : result PartialVMError unit :=
  for_each (check_struct_def self) (opt_list (view_struct_defs (view self))).

Definition verify_impl (self : BoundsChecker) : result PartialVMError BoundsChecker :=
  _ ← check_signatures self;
  _ ← check_constants self;
  _ ← check_module_handles self;
  _ ← check_self_module_handle self;
  _ ← check_struct_handles self;
  _ ← check_function_handles self;
  _ ← check_field_handles self;
  _ ← check_friend_decls self;
  _ ← check_struct_instantiations self;
  _ ← check_function_instantiations self;
  _ ← check_field_instantiations self;
  _ ← check_struct_defs self;
  check_function_defs self.

Definition verify_script (script : CompiledScript) : result PartialVMError unit :=
  bounds_check ← verify_impl {| view := VScript script; context := CScript |};
  match at_ (s_signatures script) (s_parameters script) with
  | Some signature =>
      check_code bounds_check (s_code script) (s_type_parameters script) signature
  | None => Err (bounds_error INDEX_OUT_OF_BOUNDS KSignature (wrap 16 (s_parameters script))
                   (len (s_signatures script)))
  end.

Definition verify_module (module : CompiledModule) : result PartialVMError unit :=
  let bounds_check := {| view := VModule module; context := CModule |} in
  if is_empty (view_module_handles (view bounds_check))
  then Err (verification_error NO_MODULE_HANDLES KModuleHandle 0)
  else _ ← verify_impl bounds_check; Ok tt.

(** ** Checked deserialization *)

(** [CompiledScript::deserialize] and [CompiledModule::deserialize] *)
Definition CompiledScript_deserialize (binary : list u8)
  : result PartialVMError CompiledScript :=
  script ← map_err PartialVMError_new (deserialize_compiled_script binary);
  _ ← verify_script script;
  Ok script.
Definition CompiledModule_deserialize (binary : list u8)
  : result PartialVMError CompiledModule :=
  module ← map_err PartialVMError_new (deserialize_compiled_module binary);
  _ ← verify_module module;
  Ok module.
