(* ===== verification/InBounds.v ===== *)
(** * InBounds: what the bounds checker guarantees

    A declarative specification of a unit whose indices are all in range, the
    proof that [BoundsChecker] accepts exactly those units, what its errors say,
    and what the accessors of [Views] may rely on once it has accepted. *)

From S2P Require Import Prelude CoreTypes VmStatus Abilities FileFormat Errors Deserializer DeserializerTotal RoundTrip Views BoundsChecker.

Import SignatureToken Bytecode.

(** ** Specification *)

(** [P] holds of every node of a token. *)
Fixpoint all_nodes (P : SignatureToken → Prop) (t : SignatureToken) : Prop :=
  P t ∧ match t with
  | Vector u | Reference u | MutableReference u => all_nodes P u
  | StructInstantiation _ ts => foldr (λ u acc, all_nodes P u ∧ acc) True ts
  | _ => True
  end.

Section Spec.
Context (v : BinaryIndexedView).

Definition below {A} (l : list A) (i : TableIndex) : Prop := i < len l.
(** A table that the unit does not have constrains nothing. *)
Definition opt_below {A} (o : option (list A)) (i : TableIndex) : Prop :=
  match o with Some l => below l i | None => True end.

Definition node_in_bounds (t : SignatureToken) : Prop :=
  match t with
  | Struct i =>
      ∃ sh, at_ (view_struct_handles v) i = Some sh ∧ sh_type_parameters sh = []
  | StructInstantiation i ts =>
      ∃ sh, at_ (view_struct_handles v) i = Some sh ∧
            len (sh_type_parameters sh) = len ts
  | _ => True
  end.
Definition type_in_bounds (t : SignatureToken) : Prop := all_nodes node_in_bounds t.

(** Every type parameter of the token is one of the first [n]. *)
Definition params_below (n : N) (t : SignatureToken) : Prop :=
  all_nodes (λ u, match u with TypeParameter i => i < n | _ => True end) t.

(** The signature at [idx], if any, uses only the first [n] type parameters. *)
Definition type_arguments_below (n : N) (idx : SignatureIndex) : Prop :=
  ∀ sig, at_ (view_signatures v) idx = Some sig → Forall (params_below n) sig.

Definition module_handle_in_bounds (h : ModuleHandle) : Prop :=
  below (view_address_identifiers v) (mh_address h) ∧
  below (view_identifiers v) (mh_name h).
Definition struct_handle_in_bounds (h : StructHandle) : Prop :=
  below (view_module_handles v) (sh_module h) ∧ below (view_identifiers v) (sh_name h).
Definition function_handle_in_bounds (h : FunctionHandle) : Prop :=
  below (view_module_handles v) (fh_module h) ∧ below (view_identifiers v) (fh_name h) ∧
  below (view_signatures v) (fh_parameters h) ∧ below (view_signatures v) (fh_return h) ∧
  type_arguments_below (len (fh_type_parameters h)) (fh_parameters h) ∧
  type_arguments_below (len (fh_type_parameters h)) (fh_return h).
Definition field_handle_in_bounds (h : FieldHandle) : Prop :=
  opt_below (view_struct_defs v) (fld_owner h) ∧
  ∀ d, (view_struct_defs v ≫= λ l, at_ l (fld_owner h)) = Some d →
    ∃ fields, sd_field_information d = Declared fields ∧ below fields (fld_field h).
Definition struct_instantiation_in_bounds (i : StructDefInstantiation) : Prop :=
  opt_below (view_struct_defs v) (sdi_def i) ∧
  below (view_signatures v) (sdi_type_parameters i).
Definition function_instantiation_in_bounds (i : FunctionInstantiation) : Prop :=
  below (view_function_handles v) (fi_handle i) ∧
  below (view_signatures v) (fi_type_parameters i).
Definition field_instantiation_in_bounds (i : FieldInstantiation) : Prop :=
  opt_below (view_field_handles v) (fldi_handle i) ∧
  below (view_signatures v) (fldi_type_parameters i).
Definition struct_def_in_bounds (d : StructDefinition) : Prop :=
  ∃ sh, at_ (view_struct_handles v) (sd_struct_handle d) = Some sh ∧
  match sd_field_information d with
  | Native => True
  | Declared fields => Forall (λ f,
      below (view_identifiers v) (fd_name f) ∧ type_in_bounds (fd_signature f) ∧
      params_below (len (sh_type_parameters sh)) (fd_signature f)) fields
  end.

(** The operand of an instruction: an entry of its table, a local, or an
    instruction of the same code. *)
Definition operand_in_bounds (locals code_len : N) (i : Bytecode) : Prop :=
  match i with
  | LdConst idx => below (view_constant_pool v) idx
  | MutBorrowField idx | ImmBorrowField idx => opt_below (view_field_handles v) idx
  | MutBorrowFieldGeneric idx | ImmBorrowFieldGeneric idx =>
      opt_below (view_field_instantiations v) idx
  | Call idx => below (view_function_handles v) idx
  | CallGeneric idx => below (view_function_instantiations v) idx
  | Pack idx | Unpack idx | Exists idx | ImmBorrowGlobal idx | MutBorrowGlobal idx
  | MoveFrom idx | MoveTo idx => opt_below (view_struct_defs v) idx
  | PackGeneric idx | UnpackGeneric idx | ExistsGeneric idx | ImmBorrowGlobalGeneric idx
  | MutBorrowGlobalGeneric idx | MoveFromGeneric idx | MoveToGeneric idx =>
      opt_below (view_struct_instantiations v) idx
  | BrTrue offset | BrFalse offset | Branch offset => offset < code_len
  | CopyLoc idx | MoveLoc idx | StLoc idx | MutBorrowLoc idx | ImmBorrowLoc idx =>
      idx < locals
  | VecPack idx _ | VecLen idx | VecImmBorrow idx | VecMutBorrow idx | VecPushBack idx
  | VecPopBack idx | VecUnpack idx _ | VecSwap idx => below (view_signatures v) idx
  | _ => True
  end.

(** The signature of the type arguments of an instruction *)
Definition type_arguments_of (i : Bytecode) : option SignatureIndex :=
  match i with
  | MutBorrowFieldGeneric idx | ImmBorrowFieldGeneric idx =>
      fldi_type_parameters <$> (view_field_instantiations v ≫= λ f, at_ f idx)
  | CallGeneric idx => fi_type_parameters <$> at_ (view_function_instantiations v) idx
  | PackGeneric idx | UnpackGeneric idx | ExistsGeneric idx | ImmBorrowGlobalGeneric idx
  | MutBorrowGlobalGeneric idx | MoveFromGeneric idx | MoveToGeneric idx =>
      sdi_type_parameters <$> (view_struct_instantiations v ≫= λ s, at_ s idx)
  | VecPack idx _ | VecLen idx | VecImmBorrow idx | VecMutBorrow idx | VecPushBack idx
  | VecPopBack idx | VecUnpack idx _ | VecSwap idx => Some idx
  | _ => None
  end.

Definition bytecode_in_bounds (locals tparams code_len : N) (i : Bytecode) : Prop :=
  operand_in_bounds locals code_len i ∧
  ∀ idx, type_arguments_of i = Some idx → type_arguments_below tparams idx.

Definition code_in_bounds (c : CodeUnit) (tparams : N) (parameters : Signature) : Prop :=
  ∃ locals, at_ (view_signatures v) (cu_locals c) = Some locals ∧
    Forall (params_below tparams) locals ∧
    Forall (bytecode_in_bounds (len locals + len parameters) tparams (len (cu_code c)))
      (cu_code c).

Definition function_def_in_bounds (d : FunctionDefinition) : Prop :=
  below (view_function_handles v) (fdef_function d) ∧
  Forall (opt_below (view_struct_defs v)) (fdef_acquires_global_resources d) ∧
  ∀ c, fdef_code d = Some c →
    ∃ h parameters locals,
      at_ (view_function_handles v) (fdef_function d) = Some h ∧
      at_ (view_signatures v) (fh_parameters h) = Some parameters ∧
      at_ (view_signatures v) (cu_locals c) = Some locals ∧
      len locals + len parameters <= 256 ∧
      code_in_bounds c (len (fh_type_parameters h)) parameters.

(** Every index of the unit is in range. *)
Record unit_in_bounds : Prop := {
  ib_signatures : Forall (Forall type_in_bounds) (view_signatures v);
  ib_constants : Forall (λ c, type_in_bounds (const_type c)) (view_constant_pool v);
  ib_module_handles : Forall module_handle_in_bounds (view_module_handles v);
  ib_self : ∀ i, view_self_handle_idx v = Some i → below (view_module_handles v) i;
  ib_struct_handles : Forall struct_handle_in_bounds (view_struct_handles v);
  ib_function_handles : Forall function_handle_in_bounds (view_function_handles v);
  ib_field_handles : Forall field_handle_in_bounds (opt_list (view_field_handles v));
  ib_friend_decls : Forall module_handle_in_bounds (opt_list (view_friend_decls v));
  ib_struct_instantiations :
    Forall struct_instantiation_in_bounds (opt_list (view_struct_instantiations v));
  ib_function_instantiations :
    Forall function_instantiation_in_bounds (view_function_instantiations v);
  ib_field_instantiations :
    Forall field_instantiation_in_bounds (opt_list (view_field_instantiations v));
  ib_struct_defs : Forall struct_def_in_bounds (opt_list (view_struct_defs v));
  ib_function_defs : Forall function_def_in_bounds (opt_list (view_function_defs v)) }.
End Spec.

Definition module_in_bounds (m : CompiledModule) : Prop :=
  m_module_handles m ≠ [] ∧ unit_in_bounds (VModule m).
Definition script_in_bounds (s : CompiledScript) : Prop :=
  unit_in_bounds (VScript s) ∧
  ∃ parameters, at_ (s_signatures s) (s_parameters s) = Some parameters ∧
    code_in_bounds (VScript s) (s_code s) (len (s_type_parameters s)) parameters.

(** ** The traversals visit every node *)

Lemma preorder_all_nodes P t : Forall P (preorder_traversal t) ↔ all_nodes P t.
Proof.
  rewrite Preorder.preorder_traversal_spec. generalize 1.
  induction t as [| | | | | |t IH|i|i ts IH|t IH|t IH|i] using token_ind; intros d;
    cbn [Preorder.preorder all_nodes fmap list_fmap fst]; rewrite Forall_cons;
    rewrite ?Forall_nil, ?IH; try done.
  f_equiv. rewrite Forall_fmap, Forall_concat.
  rewrite Forall_fmap. induction IH as [|u ts Hu _ IHl]; [by rewrite Forall_nil|].
  rewrite Forall_cons. cbn [foldr]. rewrite <- IHl. f_equiv.
  rewrite <- (Hu (d + 1)), Forall_fmap. done.
Qed.

(** ** Each check accepts what its specification describes *)

Lemma at_below {A} (l : list A) i : below l i ↔ ∃ x, at_ l i = Some x.
Proof.
  unfold below, at_, len. split.
  - intros H. apply lookup_lt_is_Some_2. lia.
  - intros [x H]. apply lookup_lt_Some in H. lia.
Qed.
Lemma at_None {A} (l : list A) i : at_ l i = None ↔ ¬ below l i.
Proof. rewrite at_below. destruct (at_ l i); naive_solver. Qed.

Lemma check_bounds_spec {T} kind (pool : list T) idx :
  check_bounds_impl kind pool idx = Ok tt ↔ below pool idx.
Proof. unfold check_bounds_impl, below. destruct (N.leb_spec (len pool) idx); naive_solver lia. Qed.
Lemma check_bounds_opt_spec {T} kind (pool : option (list T)) idx :
  check_bounds_impl_opt kind pool idx = Ok tt ↔ opt_below pool idx.
Proof. destruct pool; [apply check_bounds_spec|done]. Qed.
Lemma check_code_unit_spec {T} self kind (pool : list T) idx o :
  check_code_unit_bounds_impl self kind pool idx o = Ok tt ↔ below pool idx.
Proof.
  unfold check_code_unit_bounds_impl, below.
  destruct (N.leb_spec (len pool) idx); naive_solver lia.
Qed.
Lemma check_code_unit_opt_spec {T} self kind (pool : option (list T)) idx o :
  check_code_unit_bounds_impl_opt self kind pool idx o = Ok tt ↔ opt_below pool idx.
Proof. destruct pool; [apply check_code_unit_spec|done]. Qed.

Lemma imp_iff (A B C : Prop) : (A → B ↔ C) → (A → B) ↔ (A → C).
Proof. tauto. Qed.
Lemma bind_unit_Ok {B} (m : result PartialVMError unit) (k : unit → result PartialVMError B) b :
  m ≫= k = Ok b ↔ m = Ok tt ∧ k tt = Ok b.
Proof. rewrite bind_Ok. split; [intros ([] & ? & ?); auto|eauto]. Qed.
Lemma if_some_Ok {A} (o : option A) f :
  if_some o f = Ok tt ↔ ∀ x, o = Some x → f x = Ok tt.
Proof. destruct o; naive_solver. Qed.

Create HintDb bounds.
#[export] Hint Rewrite @check_bounds_spec @check_bounds_opt_spec @check_code_unit_spec
  @check_code_unit_opt_spec @bind_unit_Ok @for_each_Ok @if_some_Ok : bounds.

Lemma check_type_spec self t :
  check_type self t = Ok tt ↔ type_in_bounds (view self) t.
Proof.
  unfold check_type, type_in_bounds. rewrite for_each_Ok, <- preorder_all_nodes.
  apply Forall_iff. intros u.
  destruct u; cbn [check_type_node node_in_bounds]; autorewrite with bounds; try done.
  - rewrite at_below. split.
    + intros [[sh Hsh] H]. exists sh. split; [done|]. specialize (H sh Hsh).
      by destruct (sh_type_parameters sh).
    + intros (sh & Hsh & H). split; [eauto|]. intros ? [= <-]%(eq_trans (eq_sym Hsh)).
      by rewrite H.
  - rewrite at_below. split.
    + intros [[sh Hsh] H]. exists sh. split; [done|]. specialize (H sh Hsh).
      destruct (N.eqb_spec (len (sh_type_parameters sh)) (len ts)); done.
    + intros (sh & Hsh & H). split; [eauto|]. intros ? [= <-]%(eq_trans (eq_sym Hsh)).
      by rewrite H, N.eqb_refl.
Qed.

Lemma check_type_parameter_spec t n :
  check_type_parameter t n = Ok tt ↔ params_below n t.
Proof.
  unfold check_type_parameter, params_below. rewrite for_each_Ok, <- preorder_all_nodes.
  apply Forall_iff. intros u. destruct u; cbn [check_type_parameter_node]; try done.
  destruct (N.leb_spec n i); naive_solver lia.
Qed.
Lemma check_type_parameters_spec sig n :
  check_type_parameters sig n = Ok tt ↔ Forall (params_below n) sig.
Proof.
  unfold check_type_parameters. rewrite for_each_Ok.
  apply Forall_iff. intros t. apply check_type_parameter_spec.
Qed.
#[export] Hint Rewrite check_type_spec check_type_parameter_spec check_type_parameters_spec
  : bounds.

Lemma check_type_arguments_spec self idx n :
  check_type_arguments self idx n = Ok tt ↔ type_arguments_below (view self) n idx.
Proof.
  unfold check_type_arguments, type_arguments_below. rewrite if_some_Ok.
  by setoid_rewrite check_type_parameters_spec.
Qed.
#[export] Hint Rewrite check_type_arguments_spec : bounds.

Section Entries.
Context (self : BoundsChecker).
Notation v := (view self).

Lemma check_signature_spec sig :
  check_signature self sig = Ok tt ↔ Forall (type_in_bounds v) sig.
Proof.
  unfold check_signature. rewrite for_each_Ok. apply Forall_iff, check_type_spec.
Qed.
Lemma check_module_handle_spec h :
  check_module_handle self h = Ok tt ↔ module_handle_in_bounds v h.
Proof. unfold check_module_handle. by autorewrite with bounds. Qed.
Lemma check_struct_handle_spec h :
  check_struct_handle self h = Ok tt ↔ struct_handle_in_bounds v h.
Proof. unfold check_struct_handle. by autorewrite with bounds. Qed.
Lemma check_function_handle_spec h :
  check_function_handle self h = Ok tt ↔ function_handle_in_bounds v h.
Proof.
  unfold check_function_handle, function_handle_in_bounds, type_arguments_below.
  autorewrite with bounds. by setoid_rewrite check_type_parameters_spec.
Qed.
Lemma check_field_handle_spec h :
  check_field_handle self h = Ok tt ↔ field_handle_in_bounds v h.
Proof.
  unfold check_field_handle, field_handle_in_bounds. autorewrite with bounds.
  f_equiv. apply forall_proper. intros d. apply imp_iff. intros _. cbv zeta.
  destruct (sd_field_information d) as [|fields].
  - destruct (N.leb_spec 0 (fld_field h)); [naive_solver|lia].
  - unfold below. destruct (N.leb_spec (len fields) (fld_field h)); naive_solver lia.
Qed.
Lemma check_struct_instantiation_spec i :
  check_struct_instantiation self i = Ok tt ↔ struct_instantiation_in_bounds v i.
Proof. unfold check_struct_instantiation. by autorewrite with bounds. Qed.
Lemma check_function_instantiation_spec i :
  check_function_instantiation self i = Ok tt ↔ function_instantiation_in_bounds v i.
Proof. unfold check_function_instantiation. by autorewrite with bounds. Qed.
Lemma check_field_instantiation_spec i :
  check_field_instantiation self i = Ok tt ↔ field_instantiation_in_bounds v i.
Proof. unfold check_field_instantiation. by autorewrite with bounds. Qed.
Lemma check_struct_def_spec d :
  check_struct_def self d = Ok tt ↔ struct_def_in_bounds v d.
Proof.
  unfold check_struct_def, struct_def_in_bounds. autorewrite with bounds.
  rewrite at_below.
  destruct (at_ _ _) as [sh|]; [|split; [intros [[? ?] _]; done|intros (? & ? & _); done]].
  transitivity (match sd_field_information d with
    | Native => True
    | Declared fields => Forall (λ f,
        below (view_identifiers v) (fd_name f) ∧ type_in_bounds v (fd_signature f) ∧
        params_below (len (sh_type_parameters sh)) (fd_signature f)) fields
    end); [|naive_solver].
  destruct (sd_field_information d) as [|fields]; [naive_solver|].
  rewrite for_each_Ok, (Forall_iff _ fields (λ f,
    below (view_identifiers v) (fd_name f) ∧ type_in_bounds v (fd_signature f) ∧
    params_below (len (sh_type_parameters sh)) (fd_signature f))) by
    (intros f; by autorewrite with bounds).
  naive_solver.
Qed.
Lemma check_self_spec :
  check_self_module_handle self = Ok tt ↔
  ∀ i, view_self_handle_idx v = Some i → below (view_module_handles v) i.
Proof.
  unfold check_self_module_handle. destruct (view_self_handle_idx v); [|naive_solver].
  rewrite check_bounds_spec. naive_solver.
Qed.

(** ** Code *)

Lemma check_bytecode_spec locals tparams code_len o i :
  check_bytecode self locals tparams code_len o i = Ok tt ↔
  bytecode_in_bounds v locals tparams code_len i.
Proof.
  unfold bytecode_in_bounds, type_arguments_of.
  destruct i; cbn [check_bytecode operand_in_bounds]; autorewrite with bounds;
    setoid_rewrite check_type_arguments_spec || idtac;
    try (by naive_solver);
    try (match goal with |- context [if ?a <=? ?b then _ else _] =>
           destruct (N.leb_spec a b); naive_solver lia end);
    f_equiv; setoid_rewrite fmap_Some; naive_solver.
Qed.

Lemma enumerate_Forall {A} (P : N → A → Prop) (Q : A → Prop) l :
  (∀ o x, P o x ↔ Q x) → Forall (λ p, P p.1 p.2) (enumerate l) ↔ Forall Q l.
Proof.
  intros HPQ. unfold enumerate. rewrite !Forall_lookup. split.
  - intros H i x Hx. apply (HPQ (N.of_nat i)). apply (H i (N.of_nat i, x)).
    by rewrite list_lookup_imap, Hx.
  - intros H i [o x]. rewrite list_lookup_imap, fmap_Some. intros (y & Hy & [= -> ->]).
    apply HPQ. eauto.
Qed.

Lemma get_locals_spec c locals :
  get_locals self c = Ok locals ↔ at_ (view_signatures v) (cu_locals c) = Some locals.
Proof. unfold get_locals. destruct (at_ _ _); naive_solver. Qed.

Lemma check_code_spec c tps parameters :
  check_code self c tps parameters = Ok tt ↔
  code_in_bounds v c (len tps) parameters.
Proof.
  unfold check_code, code_in_bounds. rewrite bind_unit_Ok, check_bounds_spec, bind_Ok.
  setoid_rewrite get_locals_spec. setoid_rewrite bind_unit_Ok. setoid_rewrite for_each_Ok.
  setoid_rewrite (enumerate_Forall _ _ _ (check_bytecode_spec _ _ _)).
  rewrite at_below.
  split; [intros (_ & l & Hl & Hp & Hc)|intros (l & Hl & Hp & Hc); split; [eauto|]];
    exists l; split_and!; try done;
    (eapply Forall_impl; [exact Hp|]); intros t; by rewrite check_type_parameter_spec.
Qed.
End Entries.

(** ** Functions and units *)

(** The checker that [check_function_def] leaves behind *)
Definition set_function (self : BoundsChecker) (idx : N) : BoundsChecker :=
  {| view := view self; context := CModuleFunction (wrap 16 idx) |}.

Lemma check_function_def_spec self idx d self' :
  check_function_def self idx d = Ok self' ↔
  self' = set_function self idx ∧ function_def_in_bounds (view self) d.
Proof.
  unfold check_function_def, function_def_in_bounds, set_function. cbv zeta. cbn [view].
  rewrite !bind_unit_Ok, check_bounds_spec, for_each_Ok,
    (Forall_iff _ _ (opt_below (view_struct_defs (view self)))) by
    (intros; apply check_bounds_opt_spec).
  destruct (fdef_code d) as [c|]; [|naive_solver].
  setoid_rewrite bind_Ok. setoid_rewrite bind_Ok. setoid_rewrite bind_Ok.
  unfold unwrap. split.
  - intros (Hh & Ha & h & Eh & ps & Ep & ls & El & Hc).
    apply get_locals_spec in El. cbn [view] in El.
    destruct (at_ (view_function_handles _) _) as [h'|] eqn:Eh'; simplify_eq/=.
    destruct (at_ (view_signatures _) (fh_parameters h)) as [p'|] eqn:Ep'; simplify_eq/=.
    destruct (N.ltb_spec (u8_MAX + 1) (len ls + len ps)) as [|Hn]; [done|].
    apply bind_unit_Ok in Hc as [Hc [= <-]]. apply check_code_spec in Hc.
    change (u8_MAX + 1) with 256 in Hn.
    split_and!; [done..|]. intros ? [= <-]. eauto 10.
  - intros (-> & Hh & Ha & H).
    destruct (H c eq_refl) as (h & ps & ls & -> & Ep & El & Hn & Hc).
    split_and!; [done..|]. exists h. split; [done|]. exists ps. rewrite Ep. split; [done|].
    exists ls. rewrite get_locals_spec. split; [done|]. change (u8_MAX + 1) with 256.
    destruct (N.ltb_spec 256 (len ls + len ps)); [lia|]. rewrite bind_unit_Ok.
    split; [by apply check_code_spec|done].
Qed.

Lemma check_function_defs_fold self k (l : list FunctionDefinition) :
  (∃ self', try_fold (λ self p, check_function_def self p.1 p.2)
     (imap (λ i x, (N.of_nat (k + i), x)) l) self = Ok self' ∧ view self' = view self) ↔
  Forall (function_def_in_bounds (view self)) l.
Proof.
  revert self k; induction l as [|d l IH]; intros self k.
  { simpl. split; eauto. }
  rewrite imap_cons, Forall_cons. cbn [try_fold fst snd].
  setoid_rewrite bind_Ok. setoid_rewrite check_function_def_spec.
  rewrite <- (IH (set_function self (N.of_nat (k + 0))) (S k)).
  rewrite (imap_ext _ (λ i x, (N.of_nat (S k + i), x))) by (intros; unfold compose; do 2 f_equal; lia).
  cbn [set_function view]. naive_solver.
Qed.

Lemma check_function_defs_spec self :
  (∃ self', check_function_defs self = Ok self' ∧ view self' = view self) ↔
  Forall (function_def_in_bounds (view self)) (opt_list (view_function_defs (view self))).
Proof. apply (check_function_defs_fold self 0). Qed.

Lemma for_each_table {A} (f : A → result PartialVMError unit) (Q : A → Prop) l :
  (∀ x, f x = Ok tt ↔ Q x) → for_each f l = Ok tt ↔ Forall Q l.
Proof. intros H. by rewrite for_each_Ok, (Forall_iff _ _ Q H). Qed.

Lemma verify_impl_spec self :
  (∃ self', verify_impl self = Ok self' ∧ view self' = view self) ↔
  unit_in_bounds (view self).
Proof.
  unfold verify_impl. setoid_rewrite bind_unit_Ok. unfold check_signatures.
  repeat (setoid_rewrite bind_unit_Ok).
  unfold check_signatures, check_constants, check_module_handles, check_struct_handles,
    check_function_handles, check_field_handles, check_friend_decls,
    check_struct_instantiations, check_function_instantiations,
    check_field_instantiations, check_struct_defs.
  setoid_rewrite (for_each_table _ _ _ (check_signature_spec self)).
  setoid_rewrite (for_each_table _ _ _ (λ c, check_type_spec self (const_type c))).
  setoid_rewrite (for_each_table _ _ _ (check_module_handle_spec self)).
  setoid_rewrite (for_each_table _ _ _ (check_struct_handle_spec self)).
  setoid_rewrite (for_each_table _ _ _ (check_function_handle_spec self)).
  setoid_rewrite (for_each_table _ _ _ (check_field_handle_spec self)).
  setoid_rewrite (for_each_table _ _ _ (check_struct_instantiation_spec self)).
  setoid_rewrite (for_each_table _ _ _ (check_function_instantiation_spec self)).
  setoid_rewrite (for_each_table _ _ _ (check_field_instantiation_spec self)).
  setoid_rewrite (for_each_table _ _ _ (check_struct_def_spec self)).
  setoid_rewrite check_self_spec.
  split.
  - intros (self' & H). destruct_and! H. constructor; try done.
    apply check_function_defs_spec. eauto.
  - intros []. destruct (proj2 (check_function_defs_spec self)) as (self' & ? & ?); [done|].
    exists self'. by split_and!.
Qed.

Lemma check_function_defs_view self self' :
  check_function_defs self = Ok self' → view self' = view self.
Proof.
  unfold check_function_defs. generalize (enumerate (opt_list (view_function_defs (view self)))).
  intros l. revert self; induction l as [|p l IH]; intros self; cbn [try_fold].
  { by intros [= ->]. }
  intros (s1 & (-> & _)%check_function_def_spec & H)%bind_Ok. by rewrite (IH _ H).
Qed.

Lemma verify_impl_Ok self self' :
  verify_impl self = Ok self' → view self' = view self ∧ unit_in_bounds (view self).
Proof.
  intros H. enough (view self' = view self) by (split; [done|]; apply verify_impl_spec; eauto).
  unfold verify_impl in H. rewrite !bind_unit_Ok in H. destruct_and! H.
  by apply check_function_defs_view.
Qed.

Lemma verify_module_iff (m : CompiledModule) :
  verify_module m = Ok tt ↔ module_in_bounds m.
Proof.
  unfold verify_module, module_in_bounds. cbv zeta. cbn [view view_module_handles].
  destruct (m_module_handles m) as [|h hs] eqn:E; [naive_solver|]. cbn [is_empty].
  rewrite bind_Ok. split.
  - intros (s & [_ H]%verify_impl_Ok & _). done.
  - intros [_ H]. destruct (proj2 (verify_impl_spec {| view := VModule m; context := CModule |}))
      as (s & Hs & _); eauto.
Qed.

(** C15. The bounds checker accepts a module exactly when it has a module handle and every
    index of every table, type, handle, definition and instruction is in range, with the
    right number of type arguments and at most 256 parameters and locals per function. *)
Theorem verify_module_spec (m : CompiledModule) :
  verify_module m = Ok tt ↔ module_in_bounds m.
Proof. apply verify_module_iff. Qed.

Lemma verify_script_iff (s : CompiledScript) :
  verify_script s = Ok tt ↔ script_in_bounds s.
Proof.
  unfold verify_script, script_in_bounds. rewrite bind_Ok. split.
  - intros (c & [Hv H]%verify_impl_Ok & Hc). cbn [view] in Hv, H. split; [done|].
    destruct (at_ (s_signatures s) (s_parameters s)) as [ps|] eqn:E; [|done].
    apply check_code_spec in Hc. rewrite Hv in Hc. eauto.
  - intros (H & ps & E & Hc).
    destruct (proj2 (verify_impl_spec {| view := VScript s; context := CScript |}))
      as (c & Hi & Hv); [done|].
    exists c. split; [done|]. rewrite E. apply check_code_spec. by rewrite Hv.
Qed.

(** The bounds checker accepts a script exactly when every index of its tables is in
    range and its code, checked against the signature of its parameters, has its operands
    in range. *)
Theorem verify_script_spec (s : CompiledScript) :
  verify_script s = Ok tt ↔ script_in_bounds s.
Proof. apply verify_script_iff. Qed.

(** ** Errors *)

Lemma errs_if_some {A} P (o : option A) f : (∀ x, errs P (f x)) → errs P (if_some o f).
Proof. destruct o; simpl; auto. Qed.
(** An index or a number of type arguments is wrong; no instruction is named. *)
Definition index_error (e : PartialVMError) : Prop :=
  (pe_major_status e = INDEX_OUT_OF_BOUNDS ∨
   pe_major_status e = NUMBER_OF_TYPE_ARGUMENTS_MISMATCH) ∧ pe_offsets e = [].

Lemma check_bounds_errs {T} kind (pool : list T) idx :
  errs index_error (check_bounds_impl kind pool idx).
Proof. unfold check_bounds_impl. case_match; [|done]. split; [by left|done]. Qed.
Lemma check_bounds_opt_errs {T} kind (pool : option (list T)) idx :
  errs index_error (check_bounds_impl_opt kind pool idx).
Proof. destruct pool; [apply check_bounds_errs|done]. Qed.
Lemma check_type_errs self t : errs index_error (check_type self t).
Proof.
  apply errs_for_each. intros u _. destruct u; try exact I; cbn [check_type_node];
    (apply errs_bind; [apply check_bounds_errs|]; intros _ _; apply errs_if_some;
     intros sh; case_match; [|done]; split; [by right|done]).
Qed.
Lemma check_type_parameter_errs t n : errs index_error (check_type_parameter t n).
Proof.
  apply errs_for_each. intros u _. destruct u; try exact I. cbn [check_type_parameter_node].
  case_match; [|done]. split; [by left|done].
Qed.
Lemma check_type_parameters_errs sig n : errs index_error (check_type_parameters sig n).
Proof. apply errs_for_each. intros t _. apply check_type_parameter_errs. Qed.
Lemma get_locals_errs self c : errs index_error (get_locals self c).
Proof. unfold get_locals. case_match; [done|]. split; [by left|done]. Qed.

#[export] Hint Resolve check_bounds_errs check_bounds_opt_errs check_type_errs
  check_type_parameter_errs check_type_parameters_errs get_locals_errs : bounds.

(** Split a check into the steps whose errors are known. *)
Ltac errs_step :=
  match goal with
  | |- errs _ (_ ≫= _) => apply errs_bind; [|intros ? ?]
  | |- errs _ (for_each _ _) => apply errs_for_each; intros ? ?
  | |- errs _ (if_some _ _) => apply errs_if_some; intros ?
  | |- errs _ (Ok _) => exact I
  | |- errs index_error (if _ then _ else _) =>
      case_match; [split; [by left|done]|exact I]
  | |- errs index_error _ => solve [auto with bounds]
  end.
Ltac errs_tac := repeat errs_step.

Section EntryErrors.
Context (self : BoundsChecker).

Lemma check_entries_errs :
  errs index_error (check_signatures self) ∧ errs index_error (check_constants self) ∧
  errs index_error (check_module_handles self) ∧
  errs index_error (check_self_module_handle self) ∧
  errs index_error (check_struct_handles self) ∧
  errs index_error (check_function_handles self) ∧
  errs index_error (check_field_handles self) ∧
  errs index_error (check_friend_decls self) ∧
  errs index_error (check_struct_instantiations self) ∧
  errs index_error (check_function_instantiations self) ∧
  errs index_error (check_field_instantiations self) ∧
  errs index_error (check_struct_defs self).
Proof.
  unfold check_signatures, check_constants, check_module_handles, check_struct_handles,
    check_function_handles, check_field_handles, check_friend_decls,
    check_struct_instantiations, check_function_instantiations,
    check_field_instantiations, check_struct_defs.
  split_and!; try (apply errs_for_each; intros x _).
  - unfold check_signature. errs_tac.
  - unfold check_constant. errs_tac.
  - unfold check_module_handle. errs_tac.
  - unfold check_self_module_handle. case_match; errs_tac.
  - unfold check_struct_handle. errs_tac.
  - unfold check_function_handle. cbv zeta. errs_tac.
  - unfold check_field_handle. cbv zeta. errs_tac.
  - unfold check_module_handle. errs_tac.
  - unfold check_struct_instantiation. errs_tac.
  - unfold check_function_instantiation. errs_tac.
  - unfold check_field_instantiation. errs_tac.
  - unfold check_struct_def. errs_step; [errs_tac|]. destruct (sd_field_information x); errs_tac.
Qed.

(** An instruction's operand is out of range: the error names the instruction
    when the function is known. *)
Definition operand_error (locals code_len o : N) (i : Bytecode) (e : PartialVMError) : Prop :=
  pe_major_status e = INDEX_OUT_OF_BOUNDS ∧
  ¬ operand_in_bounds (view self) locals code_len i ∧
  pe_offsets e = match context self with
                 | CModuleFunction f => [(f, wrap 16 o)]
                 | _ => []
                 end.

Hypothesis in_function : context self ≠ CModule.

Lemma offset_checked (P : PartialVMError → Prop) locals code_len kind t n o i :
  (operand_in_bounds (view self) locals code_len i → t < n) →
  (∀ e, operand_error locals code_len o i e → P e) →
  errs P (if n <=? t
          then Err (offset_out_of_bounds self INDEX_OUT_OF_BOUNDS kind t n (wrap 16 o))
          else Ok tt).
Proof.
  intros Hi HP. destruct (N.leb_spec n t); [|done].
  apply HP. unfold operand_error, offset_out_of_bounds.
  split_and!; [by destruct (context self)|intros ?%Hi; lia|by destruct (context self)].
Qed.
Lemma operand_checked {T} (P : PartialVMError → Prop) locals code_len kind (pool : list T) idx o i :
  (operand_in_bounds (view self) locals code_len i → below pool idx) →
  (∀ e, operand_error locals code_len o i e → P e) →
  errs P (check_code_unit_bounds_impl self kind pool idx o).
Proof. apply offset_checked. Qed.
Lemma operand_checked_opt {T} (P : PartialVMError → Prop) locals code_len kind
    (pool : option (list T)) idx o i :
  (operand_in_bounds (view self) locals code_len i → opt_below pool idx) →
  (∀ e, operand_error locals code_len o i e → P e) →
  errs P (check_code_unit_bounds_impl_opt self kind pool idx o).
Proof. destruct pool; [apply operand_checked|done]. Qed.

Lemma check_bytecode_errs locals tparams code_len o i :
  errs (λ e, index_error e ∨ operand_error locals code_len o i e)
    (check_bytecode self locals tparams code_len o i).
Proof.
  destruct i; try exact I; cbn [check_bytecode];
    try (apply errs_bind; [|intros _ _; (eapply (errs_weaken index_error);
      [unfold check_type_arguments; errs_tac|by left])]);
    first
      [ eapply (operand_checked _ locals code_len); [|by right]; exact id
      | eapply (operand_checked_opt _ locals code_len); [|by right]; exact id
      | eapply (offset_checked _ locals code_len); [|by right]; exact id ].
Qed.

Definition code_error (c : CodeUnit) (parameters : Signature) (e : PartialVMError) : Prop :=
  ∃ locals o i, at_ (view_signatures (view self)) (cu_locals c) = Some locals ∧
    cu_code c !! o = Some i ∧
    operand_error (len locals + len parameters) (len (cu_code c)) (N.of_nat o) i e.

Lemma check_code_errs c tps parameters :
  errs (λ e, index_error e ∨ code_error c parameters e) (check_code self c tps parameters).
Proof.
  unfold check_code. apply errs_bind; [|intros _ _].
  { eapply errs_weaken; [apply check_bounds_errs|by left]. }
  apply errs_bind; [|intros locals Hl].
  { eapply errs_weaken; [apply get_locals_errs|by left]. }
  apply get_locals_spec in Hl. apply errs_bind; [|intros _ _].
  { eapply (errs_weaken index_error); [errs_tac|by left]. }
  apply errs_for_each. intros [o i] Hoi.
  apply list_elem_of_lookup in Hoi as [k [-> Hi]%enumerate_Some].
  eapply errs_weaken; [apply check_bytecode_errs|].
  intros e [He|He]; [by left|right]. exists locals, k, i. auto.
Qed.
End EntryErrors.

(** What an error of [verify_module] says of the module *)
Inductive module_error (m : CompiledModule) (e : PartialVMError) : Prop :=
| ME_no_handles :
    m_module_handles m = [] → pe_major_status e = NO_MODULE_HANDLES →
    pe_offsets e = [] → module_error m e
| ME_index : index_error e → module_error m e
| ME_locals k d c h parameters locals :
    m_function_defs m !! k = Some d → fdef_code d = Some c →
    at_ (m_function_handles m) (fdef_function d) = Some h →
    at_ (m_signatures m) (fh_parameters h) = Some parameters →
    at_ (m_signatures m) (cu_locals c) = Some locals →
    256 < len locals + len parameters →
    pe_major_status e = TOO_MANY_LOCALS →
    pe_indices e = [(KFunctionDefinition, wrap 16 (N.of_nat k))] →
    pe_offsets e = [] → module_error m e
| ME_operand k d c h parameters locals o i :
    m_function_defs m !! k = Some d → fdef_code d = Some c →
    at_ (m_function_handles m) (fdef_function d) = Some h →
    at_ (m_signatures m) (fh_parameters h) = Some parameters →
    at_ (m_signatures m) (cu_locals c) = Some locals →
    cu_code c !! o = Some i →
    ¬ operand_in_bounds (VModule m) (len locals + len parameters) (len (cu_code c)) i →
    pe_major_status e = INDEX_OUT_OF_BOUNDS →
    pe_offsets e = [(wrap 16 (N.of_nat k), wrap 16 (N.of_nat o))] →
    module_error m e.

Lemma check_function_def_errs m self k d :
  view self = VModule m →
  Forall (function_handle_in_bounds (VModule m)) (m_function_handles m) →
  m_function_defs m !! k = Some d →
  errs (module_error m) (check_function_def self (N.of_nat k) d).
Proof.
  intros Hv Hfh Hd. unfold check_function_def. cbv zeta. cbn [view]. rewrite Hv.
  apply errs_bind; [|intros [] Hf].
  { eapply errs_weaken; [apply check_bounds_errs|by constructor 2]. }
  apply errs_bind; [|intros _ _].
  { eapply (errs_weaken index_error); [errs_tac|by constructor 2]. }
  destruct (fdef_code d) as [c|] eqn:Ec; [|done].
  apply check_bounds_spec, at_below in Hf as [h Eh]. cbn in Eh, Hfh |- *. rewrite Eh. cbn [unwrap].
  apply errs_bind; [done|intros ? [= <-]].
  eapply Forall_lookup_1 in Hfh as (_ & _ & Hp & _); [|exact Eh].
  apply at_below in Hp as [ps Ep]. cbn in Ep. rewrite Ep. cbn [unwrap].
  apply errs_bind; [done|intros ? [= <-]]. apply errs_bind; [|intros ls Els].
  { eapply errs_weaken; [apply get_locals_errs|by constructor 2]. }
  apply get_locals_spec in Els. cbn [view] in Els.
  change (u8_MAX + 1) with 256. destruct (N.ltb_spec 256 (len ls + len ps)).
  { by eapply ME_locals. }
  apply errs_bind; [|done].
  eapply errs_weaken; [by apply check_code_errs|].
  intros e [He|(ls' & o & i & El & Ho & Hs & Hi & He)]; [by constructor 2|].
  cbn [context view] in *. eapply ME_operand; [done..|exact Ho| |done|done].
  exact Hi.
Qed.

Lemma check_function_defs_errs m self k (l : list FunctionDefinition) :
  view self = VModule m →
  Forall (function_handle_in_bounds (VModule m)) (m_function_handles m) →
  (∀ j d, l !! j = Some d → m_function_defs m !! (k + j)%nat = Some d) →
  errs (module_error m) (try_fold (λ self p, check_function_def self p.1 p.2)
    (imap (λ i x, (N.of_nat (k + i), x)) l) self).
Proof.
  intros Hv Hfh. revert self k Hv; induction l as [|d l IH]; intros self k Hv Hl; [done|].
  rewrite imap_cons. cbn [try_fold fst snd].
  apply errs_bind; [apply check_function_def_errs; [done..|by apply (Hl 0%nat)]|].
  intros self' [-> _]%check_function_def_spec.
  rewrite (imap_ext _ (λ i x, (N.of_nat (S k + i), x))) by
    (intros; unfold compose; do 2 f_equal; lia).
  apply IH; [done|]. intros j d' Hj. rewrite Nat.add_succ_comm. by apply Hl.
Qed.

Lemma verify_module_errs (m : CompiledModule) : errs (module_error m) (verify_module m).
Proof.
  unfold verify_module. cbv zeta. cbn [view view_module_handles].
  destruct (m_module_handles m) as [|h hs] eqn:Em; cbn [is_empty]; [by apply ME_no_handles|].
  apply errs_bind; [|done]. unfold verify_impl.
  destruct (check_entries_errs {| view := VModule m; context := CModule |})
    as (H1 & H2 & H3 & H4 & H5 & H6 & H7 & H8 & H9 & H10 & H11 & H12).
  do 5 (apply errs_bind; [eapply errs_weaken; [eassumption|by constructor 2]|intros _ _]).
  apply errs_bind; [eapply errs_weaken; [eassumption|by constructor 2]|intros [] Hfh].
  do 6 (apply errs_bind; [eapply errs_weaken; [eassumption|by constructor 2]|intros _ _]).
  apply (for_each_table _ _ _ (check_function_handle_spec _)) in Hfh.
  unfold check_function_defs, enumerate. apply (check_function_defs_errs m _ 0); [done..|].
  intros j d Hj. exact Hj.
Qed.

(** The bounds checker never panics on a module, and an error it returns is one of
    four: no module handles, an index or type-argument count with no code offset, a
    function with more than 256 parameters and locals, or an instruction, named by
    function and offset, whose operand is out of range. *)
Theorem verify_module_errors (m : CompiledModule) :
  no_panic (verify_module m) ∧ ∀ e, verify_module m = Err e → module_error m e.
Proof.
  pose proof (verify_module_errs m) as H.
  destruct (verify_module m); [naive_solver..|done|done].
Qed.

Lemma verify_script_errs (s : CompiledScript) : errs index_error (verify_script s).
Proof.
  unfold verify_script. apply errs_bind.
  - unfold verify_impl. set (self := {| view := VScript s; context := CScript |}).
    destruct (check_entries_errs self) as (H1 & H2 & H3 & H4 & H5 & H6 & H7 & H8 & H9 & H10 & H11 & H12).
    do 12 (apply errs_bind; [assumption|intros _ _]). exact I.
  - intros c Hc. destruct (at_ (s_signatures s) (s_parameters s)) as [ps|];
      [|split; [by left|done]].
    assert (context c = CScript) as Hctx.
    { unfold verify_impl in Hc. rewrite !bind_unit_Ok in Hc. destruct_and! Hc.
      repeat match goal with H : check_function_defs _ = _ |- _ => injection H as <- end. done. }
    eapply errs_weaken; [apply check_code_errs; by rewrite Hctx|].
    intros e [He|(ls & o & i & _ & _ & Hs & _ & Ho)]; [done|].
    rewrite Hctx in Ho. split; [by left|done].
Qed.

(** The bounds checker never panics on a script, and its errors are out-of-range
    indices and wrong numbers of type arguments, without a code offset. *)
Theorem verify_script_errors (s : CompiledScript) :
  no_panic (verify_script s) ∧ ∀ e, verify_script s = Err e → index_error e.
Proof.
  pose proof (verify_script_errs s) as H.
  destruct (verify_script s); [naive_solver..|done|done].
Qed.
