(* ===== verification/CheckedUnits.v ===== *)
(** * CheckedUnits: what a unit that passed the bounds check can rely on

    The accessors of [Views] do not panic, the abilities of every type can be
    computed, and [CompiledModule::deserialize] returns only units in bounds and
    inverts the serializer on them. *)

From S2P Require Import Prelude CoreTypes VmStatus Abilities FileFormat Errors Serializer Deserializer DeserializerTotal RoundTrip BinaryCommon Views BoundsChecker InBounds.

Import SignatureToken.

Lemma unwrap_at {E A} (l : list A) i :
  below l i → ∃ x, unwrap (at_ l i) = Ok (E := E) x ∧ at_ l i = Some x.
Proof. intros [x Hx]%at_below. exists x. by rewrite Hx. Qed.

Lemma in_table_below {A} (l : list A) i : below l i → in_table l i = true.
Proof. unfold below, in_table. lia. Qed.

Section Accessors.
Context (v : BinaryIndexedView) (Hv : unit_in_bounds v).

Lemma module_handle_at_total idx :
  below (view_module_handles v) idx → ∃ h, module_handle_at v idx = Ok h ∧
    module_handle_in_bounds v h.
Proof.
  intros (h & Hu & Hh)%(unwrap_at (E := StatusCode)). exists h. unfold module_handle_at.
  rewrite Hu. simpl. pose proof (Forall_lookup_1 _ _ _ _ (ib_module_handles _ Hv) Hh) as [H1 H2].
  rewrite (in_table_below _ _ H1), (in_table_below _ _ H2).
  by destruct v.
Qed.
Lemma struct_handle_at_total idx sh :
  at_ (view_struct_handles v) idx = Some sh → struct_handle_at v idx = Ok sh.
Proof.
  intros Hh. unfold struct_handle_at. rewrite Hh. simpl.
  pose proof (Forall_lookup_1 _ _ _ _ (ib_struct_handles _ Hv) Hh) as [H1 H2].
  rewrite (in_table_below _ _ H1). by destruct v.
Qed.
Lemma function_handle_at_total idx :
  below (view_function_handles v) idx → ∃ h, function_handle_at v idx = Ok h ∧
    function_handle_in_bounds v h.
Proof.
  intros (h & Hu & Hh)%(unwrap_at (E := StatusCode)). exists h. unfold function_handle_at.
  rewrite Hu. simpl. pose proof (Forall_lookup_1 _ _ _ _ (ib_function_handles _ Hv) Hh) as H.
  split; [|done]. destruct H as (_ & _ & H1 & H2 & _).
  rewrite (in_table_below _ _ H1), (in_table_below _ _ H2). by destruct v.
Qed.
End Accessors.

(** After the bounds check no accessor of the module panics on an index of its table,
    the asserted postconditions included, and the id of the module can be read. *)
Theorem checked_module_accessors (m : CompiledModule) :
  verify_module m = Ok tt →
  (∀ i, i < len (m_module_handles m) → ∃ h, module_handle_at (VModule m) i = Ok h) ∧
  (∀ i, i < len (m_struct_handles m) → ∃ h, struct_handle_at (VModule m) i = Ok h) ∧
  (∀ i, i < len (m_function_handles m) → ∃ h, function_handle_at (VModule m) i = Ok h) ∧
  (∀ i, i < len (m_field_handles m) → ∃ h, field_handle_at (VModule m) i = Ok h) ∧
  (∀ i, i < len (m_function_defs m) → ∃ d, function_def_at (VModule m) i = Ok d) ∧
  (∃ id, self_id (VModule m) = Ok (Some id)).
Proof.
  intros [_ H]%verify_module_iff. split_and!.
  - intros i Hi. destruct (module_handle_at_total _ H i Hi) as (h & -> & _). eauto.
  - intros i (sh & _ & Hsh)%(unwrap_at (E := StatusCode)). exists sh.
    by apply (struct_handle_at_total _ H).
  - intros i Hi. destruct (function_handle_at_total _ H i Hi) as (h & -> & _). eauto.
  - intros i (h & Hu & Hh)%(unwrap_at (E := StatusCode)). exists h. unfold field_handle_at.
    rewrite Hu. simpl. pose proof (Forall_lookup_1 _ _ _ _ (ib_field_handles _ H) Hh) as [H1 _].
    by rewrite (in_table_below (m_struct_defs m) _ H1).
  - intros i (d & Hu & Hd)%(unwrap_at (E := StatusCode)). exists d. unfold function_def_at.
    rewrite Hu. simpl.
    pose proof (Forall_lookup_1 _ _ _ _ (ib_function_defs _ H) Hd) as (H1 & _ & H2).
    rewrite (in_table_below (m_function_handles m) _ H1). destruct (fdef_code d) as [c|]; [|done].
    destruct (H2 c eq_refl) as (_ & _ & ls & _ & _ & Hl & _).
    by rewrite (in_table_below (m_signatures m) _ (proj2 (at_below _ _) (ex_intro _ _ Hl))).
  - destruct (module_handle_at_total _ H _ (ib_self _ H _ eq_refl)) as (h & Hh & H1 & H2).
    unfold self_id, module_id_for_handle, address_identifier_at, identifier_at.
    cbn [view_self_handle_idx]. cbn in Hh |- *. rewrite Hh. simpl.
    destruct (unwrap_at (E := StatusCode) _ _ H1) as (a & Ha & _). cbn in Ha. rewrite Ha. simpl.
    destruct (unwrap_at (E := StatusCode) _ _ H2) as (n & Hn & _). cbn in Hn. rewrite Hn. simpl.
    eauto.
Qed.

Lemma checked_module_accessors_witness :
  ∃ d, function_def_at (VModule sample_module) 1 = Ok d.
Proof.
  destruct (checked_module_accessors sample_module) as (_ & _ & _ & _ & H & _);
    [by vm_compute|]. apply H. by vm_compute.
Defined.

(** ** Abilities *)

Lemma collect_total {E A B} (f : A → result E B) l :
  Forall (λ x, ∃ y, f x = Ok y) l → ∃ ys, collect f l = Ok ys ∧ length ys = length l.
Proof.
  induction 1 as [|x l [y Hy] _ (ys & Hys & Hl)]; [by exists []|].
  exists (y :: ys). simpl. rewrite Hy. simpl. rewrite Hys. simpl. by rewrite Hl.
Qed.

Lemma all_nodes_args P i ts :
  all_nodes P (StructInstantiation i ts) ↔ P (StructInstantiation i ts) ∧ Forall (all_nodes P) ts.
Proof. cbn [all_nodes]. f_equiv. induction ts; simpl; [done|]. by rewrite Forall_cons, IHts. Qed.

Lemma abilities_total v t constraints :
  unit_in_bounds v → type_in_bounds v t → params_below (len constraints) t →
  ∃ a, abilities v t constraints = Ok a.
Proof.
  intros Hv. unfold type_in_bounds, params_below.
  induction t as [| | | | | |t IH|i|i ts IH|t IH|t IH|i] using token_ind; intros Ht Hp;
    try (by eexists).
  - destruct Ht as [_ Ht], Hp as [_ Hp]. destruct (IH Ht Hp) as [a Ha].
    cbn [abilities]. rewrite Ha. simpl. by eexists.
  - destruct Ht as [(sh & Hsh & _) _]. cbn [abilities].
    rewrite (struct_handle_at_total _ Hv _ _ Hsh). simpl. by eexists.
  - apply all_nodes_args in Ht as [(sh & Hsh & Hlen) Ht]. apply all_nodes_args in Hp as [_ Hp].
    cbn [abilities]. rewrite (struct_handle_at_total _ Hv _ _ Hsh). simpl.
    destruct (collect_total (λ arg, abilities v arg constraints) ts) as (ys & Hys & Hl).
    { rewrite Forall_forall in IH, Ht, Hp |- *. auto. }
    rewrite Hys. simpl. unfold polymorphic_abilities.
    replace (len (stp_is_phantom <$> sh_type_parameters sh)) with (len ys) by
      (unfold len in *; rewrite length_fmap; lia).
    rewrite N.eqb_refl. by eexists.
  - destruct Hp as [Hp _]. cbn [abilities].
    destruct (unwrap_at (E := StatusCode) constraints i Hp) as (a & -> & _). by eexists.
Qed.

(** After the bounds check the abilities of every type in a signature of the module
    can be computed, without an error or a panic, from constraints for all of its type
    parameters. *)
Theorem checked_module_abilities (m : CompiledModule) (sig : Signature) (t : SignatureToken)
    (constraints : list AbilitySet) :
  verify_module m = Ok tt → sig ∈ m_signatures m → t ∈ sig →
  params_below (len constraints) t →
  ∃ a, abilities (VModule m) t constraints = Ok a.
Proof.
  intros [_ H]%verify_module_iff Hs Ht. apply abilities_total; [done|].
  pose proof (ib_signatures _ H) as Hsig. rewrite Forall_forall in Hsig.
  specialize (Hsig _ Hs). rewrite Forall_forall in Hsig. auto.
Qed.

Lemma checked_module_abilities_witness :
  ∃ a, abilities (VModule sample_module) U64 [] = Ok a.
Proof.
  apply (checked_module_abilities sample_module [U64] U64 []);
    [by vm_compute|by right; left|by left|by split].
Defined.

(** ** Checked deserialization *)

(** On every byte string the checked module deserializer ends without a panic, and a
    module that it returns has every index in range. *)
Theorem CompiledModule_deserialize_total (binary : list u8) :
  no_panic (CompiledModule_deserialize binary) ∧
  ∀ m, CompiledModule_deserialize binary = Ok m → module_in_bounds m.
Proof.
  unfold CompiledModule_deserialize. split.
  - apply bind_no_panic; [|intros m _; apply bind_no_panic; [|done]].
    + pose proof (deserialize_compiled_module_no_panic binary) as H.
      by destruct (deserialize_compiled_module binary).
    + eapply errs_no_panic, verify_module_errs.
  - intros m (m' & _ & H)%bind_Ok. apply bind_unit_Ok in H as [H [= <-]].
    by apply verify_module_iff.
Qed.

(** On every byte string the checked script deserializer ends without a panic, and a
    script that it returns has every index in range. *)
Theorem CompiledScript_deserialize_total (binary : list u8) :
  no_panic (CompiledScript_deserialize binary) ∧
  ∀ s, CompiledScript_deserialize binary = Ok s → script_in_bounds s.
Proof.
  unfold CompiledScript_deserialize. split.
  - apply bind_no_panic; [|intros s _; apply bind_no_panic; [|done]].
    + pose proof (deserialize_compiled_script_no_panic binary) as H.
      by destruct (deserialize_compiled_script binary).
    + eapply errs_no_panic, verify_script_errs.
  - intros s (s' & _ & H)%bind_Ok. apply bind_unit_Ok in H as [H [= <-]].
    by apply verify_script_iff.
Qed.

(** The version is no index. *)
Lemma module_in_bounds_at_version m v :
  module_in_bounds m → module_in_bounds (m_at_version m v).
Proof.
  intros [Hh [H1 H2 H3 H4 H5 H6 H7 H8 H9 H10 H11 H12 H13]]. split; [exact Hh|].
  constructor; [exact H1|exact H2|exact H3|exact H4|exact H5|exact H6|exact H7|exact H8
    |exact H9|exact H10|exact H11|exact H12|exact H13].
Qed.

(** A well-formed module whose indices are in range and that the serializer accepts
    is returned by the checked deserializer from the bytes written, at the version the
    serializer writes. *)
Theorem CompiledModule_deserialize_roundtrip (m : CompiledModule) (bytes : list u8) :
  module_ok m → module_in_bounds m →
  serialize_module m [] = Ok bytes →
  CompiledModule_deserialize bytes = Ok (m_at_version m VERSION_MAX).
Proof.
  intros Hok Hb Hs. unfold CompiledModule_deserialize.
  rewrite (serialize_module_inverse m bytes) by done. cbn [map_err mbind result_bind].
  rewrite (proj2 (verify_module_iff (m_at_version m VERSION_MAX))); [done|].
  by apply module_in_bounds_at_version.
Qed.

Lemma CompiledModule_deserialize_roundtrip_witness :
  ∃ bytes, serialize_module sample_module [] = Ok bytes ∧
    CompiledModule_deserialize bytes = Ok (m_at_version sample_module VERSION_MAX).
Proof.
  eexists. split; [vm_compute; reflexivity|].
  apply CompiledModule_deserialize_roundtrip;
    [exact sample_module_ok|apply verify_module_iff; by vm_compute|by vm_compute].
Defined.
