(* ===== verification/ControlFlowGraph.v ===== *)
(** * ControlFlowGraph: the basic blocks of a function body

    Models [language/move-binary-format/src/control_flow_graph.rs].  A code
    offset is a [u16]: [pc as CodeOffset] wraps, and an addition that leaves the
    type is a panic, as in a build with overflow checks; for code the
    deserializer can produce no such addition occurs. *)

From stdpp Require Import sorting.
From S2P Require Import Prelude CoreTypes VmStatus Abilities FileFormat.

Import Bytecode.

Definition BlockId : Set := CodeOffset.

(** [struct BasicBlock] *)
Record BasicBlock : Set := {
  bb_entry : CodeOffset;
  bb_exit : CodeOffset;
  bb_successors : list BlockId }.

(** [pub struct VMControlFlowGraph] *)
Record VMControlFlowGraph : Set := { cfg_blocks : gmap BlockId BasicBlock }.

Definition ENTRY_BLOCK_ID : BlockId := 0.

(** [pc + 1] on a [u16] *)
Definition succ_pc {E} (pc : CodeOffset) : result E CodeOffset :=
  if pc + 1 <=? u16_MAX then Ok (pc + 1) else Panic.

(** [0..n] *)
Definition range (n : N) : list N := N.of_nat <$> seq 0 (N.to_nat n).

(** ** Construction *)

Definition record_block_ids {E} (pc : CodeOffset) (code : list Bytecode)
    (block_ids : gset BlockId) : result E (gset BlockId) :=
  bytecode ← unwrap (at_ code pc);
  let block_ids := match offset bytecode with
                   | Some offset => {[ offset ]} ∪ block_ids
                   | None => block_ids
                   end in
  if is_branch bytecode then
    next ← succ_pc pc;
    if next <? wrap 16 (len code) then Ok ({[ next ]} ∪ block_ids) else Ok block_ids
  else Ok block_ids.

Definition is_end_of_block {E} (pc : CodeOffset) (code : list Bytecode)
    (block_ids : gset BlockId) : result E bool :=
  next ← succ_pc pc;
  Ok ((next =? wrap 16 (len code)) || bool_decide (next ∈ block_ids)).

(** One round of the loop that creates the blocks, on [cfg.blocks] and [entry] *)
Definition create_block {E} (code : list Bytecode) (block_ids : gset BlockId)
    (st : gmap BlockId BasicBlock * CodeOffset) (pc : N)
  : result E (gmap BlockId BasicBlock * CodeOffset) :=
  let '(blocks, entry) := st in
  let co_pc := wrap 16 pc in
  is_end ← is_end_of_block co_pc code block_ids;
  if is_end : bool then
    successors ← get_successors co_pc code;
    let bb := {| bb_entry := entry; bb_exit := co_pc; bb_successors := successors |} in
    entry' ← succ_pc co_pc;
    Ok (<[ entry := bb ]> blocks, entry')
  else Ok (blocks, entry).

(** [VMControlFlowGraph::new] *)
Definition VMControlFlowGraph_new {E} (code : list Bytecode) : result E VMControlFlowGraph :=
  block_ids ← try_fold (λ block_ids pc, record_block_ids (wrap 16 pc) code block_ids)
                (range (len code)) {[ ENTRY_BLOCK_ID ]};
  st ← try_fold (create_block code block_ids) (range (len code)) (∅, 0);
  if st.2 =? wrap 16 (len code) then Ok {| cfg_blocks := st.1 |} else Panic.

(** ** [impl ControlFlowGraph for VMControlFlowGraph] *)

Definition block_start {E} (self : VMControlFlowGraph) (block_id : BlockId) : result E CodeOffset :=
  bb ← unwrap (cfg_blocks self !! block_id); Ok (bb_entry bb).
Definition block_end {E} (self : VMControlFlowGraph) (block_id : BlockId) : result E CodeOffset :=
  bb ← unwrap (cfg_blocks self !! block_id); Ok (bb_exit bb).
Definition successors {E} (self : VMControlFlowGraph) (block_id : BlockId)
  : result E (list BlockId) :=
  bb ← unwrap (cfg_blocks self !! block_id); Ok (bb_successors bb).

(** [lo..=hi] *)
Definition range_inclusive (lo hi : N) : list N :=
  N.of_nat <$> seq (N.to_nat lo) (N.to_nat (hi + 1 - lo)).
Definition instr_indexes {E} (self : VMControlFlowGraph) (block_id : BlockId)
  : result E (list CodeOffset) :=
  lo ← block_start self block_id;
  hi ← block_end self block_id;
  Ok (range_inclusive lo hi).

(** The keys of a [BTreeMap] come out in ascending order. *)
Definition blocks (self : VMControlFlowGraph) : list BlockId :=
  merge_sort N.le (map_to_list (cfg_blocks self)).*1.
Definition num_blocks (self : VMControlFlowGraph) : u16 :=
  wrap 16 (N.of_nat (size (cfg_blocks self))).
Definition entry_block_id (self : VMControlFlowGraph) : BlockId := ENTRY_BLOCK_ID.

(** ** Traversal *)

(** [for block_id in successors.iter() { if !seen.contains(..) { .. } }] *)
Definition push_unseen (st : list BlockId * gset BlockId) (block_id : BlockId)
  : list BlockId * gset BlockId :=
  let '(ret, seen) := st in
  if bool_decide (block_id ∈ seen) then (ret, seen)
  else (ret ++ [block_id], {[ block_id ]} ∪ seen).

(** The [while] loop of [traverse_by] *)
Fixpoint traverse_loop {E} (fuel : nat) (self : VMControlFlowGraph) (ret : list BlockId)
    (index : N) (seen : gset BlockId) : result E (list BlockId) :=
  if index <? len ret then
    match fuel with
    | O => OutOfFuel
    | S fuel =>
        block_id ← unwrap (at_ ret index);
        succs ← successors self block_id;
        let st := foldl push_unseen (ret, seen) succs in
        traverse_loop fuel self st.1 (index + 1) st.2
    end
  else Ok ret.

(** The loop runs once for every block pushed, and no block is pushed twice. *)
Definition traverse_by {E} (self : VMControlFlowGraph) (block_id : BlockId)
  : result E (list BlockId) :=
  traverse_loop (S (size (cfg_blocks self))) self [block_id] 0 {[ block_id ]}.
Definition reachable_from {E} (self : VMControlFlowGraph) (block_id : BlockId)
  : result E (list BlockId) := traverse_by self block_id.

(** ** Specification *)

(** An offset at which a block starts: the first one, the target of a branch,
    or the instruction after a branch *)
Definition leader (code : list Bytecode) (x : N) : Prop :=
  x = 0 ∨ ∃ pc i, at_ code pc = Some i ∧
    (offset i = Some x ∨ (is_branch i = true ∧ x = pc + 1 ∧ x < len code)).

(** An offset at which a block ends *)
Definition ends_block (code : list Bytecode) (pc : N) : Prop :=
  pc + 1 = len code ∨ leader code (pc + 1).

Record block_ok (code : list Bytecode) (b : BlockId) (bb : BasicBlock) : Prop := {
  bo_entry : bb_entry bb = b;
  bo_leader : leader code b;
  bo_exit : b <= bb_exit bb ∧ bb_exit bb < len code;
  bo_ends : ends_block code (bb_exit bb);
  bo_straight : ∀ pc, b <= pc → pc < bb_exit bb → ¬ ends_block code pc;
  bo_successors : get_successors (E := StatusCode) (bb_exit bb) code = Ok (bb_successors bb) }.

(** Every branch of the code stays inside it. *)
Definition branches_in_bounds (code : list Bytecode) : Prop :=
  Forall (λ i, ∀ o, offset i = Some o → o < len code) code.

(** An edge of the graph *)
Definition edge (cfg : VMControlFlowGraph) (b b' : BlockId) : Prop :=
  ∃ bb, cfg_blocks cfg !! b = Some bb ∧ b' ∈ bb_successors bb.
Definition closed (cfg : VMControlFlowGraph) : Prop :=
  ∀ b b', edge cfg b b' → is_Some (cfg_blocks cfg !! b').

(** ** Ranges and loops *)

Lemma range_S n : range (n + 1) = range n ++ [n].
Proof.
  unfold range. replace (N.to_nat (n + 1)) with (S (N.to_nat n)) by lia.
  rewrite seq_S, fmap_app. simpl. by rewrite N2Nat.id.
Qed.

(** A loop over [0..n] keeps an invariant that each round carries one on. *)
Lemma try_fold_range {E B} (f : B → N → result E B) (I : N → B → Prop) n b :
  I 0 b →
  (∀ k b, k < n → I k b → ∃ b', f b k = Ok b' ∧ I (k + 1) b') →
  ∃ b', try_fold f (range n) b = Ok b' ∧ I n b'.
Proof.
  intros H0 Hstep.
  enough (∀ k, k <= n → ∃ b', try_fold f (range k) b = Ok b' ∧ I k b') as H by (apply H; lia).
  intros k. induction k as [|k IH] using N.peano_ind; intros Hk.
  { by exists b. }
  destruct IH as (b1 & H1 & I1); [lia|].
  destruct (Hstep k b1) as (b2 & H2 & I2); [lia|done|].
  exists b2. rewrite <- N.add_1_r, range_S, try_fold_app, H1. cbn. rewrite H2. done.
Qed.

Lemma succ_pc_Ok {E} pc : pc < 65535 → succ_pc (E := E) pc = Ok (pc + 1).
Proof.
  intros H. unfold succ_pc. change u16_MAX with 65535.
  by destruct (N.leb_spec (pc + 1) 65535); [|lia].
Qed.
Lemma wrap16 n : n <= 65535 → wrap 16 n = n.
Proof. intros H. unfold wrap. change (2 ^ 16) with 65536. apply N.mod_small. lia. Qed.

Lemma at_lt {A} (l : list A) i : i < len l → ∃ x, at_ l i = Some x.
Proof. intros H. apply lookup_lt_is_Some_2. unfold len in H. lia. Qed.
Lemma at_Some_lt {A} (l : list A) i x : at_ l i = Some x → i < len l.
Proof. intros H%lookup_lt_Some. unfold len. lia. Qed.

(** ** Construction *)

(** The block identifiers are the leaders. *)
Lemma record_block_ids_spec {E} pc code ids i :
  len code <= 65535 → at_ code pc = Some i →
  ∃ ids', record_block_ids (E := E) pc code ids = Ok ids' ∧
    ∀ x, x ∈ ids' ↔ x ∈ ids ∨ offset i = Some x ∨
                    (is_branch i = true ∧ x = pc + 1 ∧ x < len code).
Proof.
  intros Hn Hi. pose proof (at_Some_lt _ _ _ Hi) as Hpc.
  unfold record_block_ids. rewrite Hi. cbn [unwrap mbind result_bind]. cbv zeta.
  rewrite succ_pc_Ok, wrap16 by lia. cbn [mbind result_bind].
  destruct (is_branch i) eqn:Hb;
    [destruct (N.ltb_spec (pc + 1) (len code))|]; eexists; (split; [reflexivity|]);
    intros x; destruct (offset i) as [o|] eqn:Ho; set_unfold; naive_solver lia.
Qed.

Lemma leaders_spec {E} code :
  len code <= 65535 →
  ∃ ids, try_fold (λ ids pc, record_block_ids (E := E) (wrap 16 pc) code ids)
           (range (len code)) {[ ENTRY_BLOCK_ID ]} = Ok ids ∧
    ∀ x, x ∈ ids ↔ leader code x.
Proof.
  intros Hn.
  destruct (try_fold_range (λ ids pc, record_block_ids (E := E) (wrap 16 pc) code ids)
    (λ k ids, ∀ x, x ∈ ids ↔ x = 0 ∨ ∃ pc i, pc < k ∧ at_ code pc = Some i ∧
      (offset i = Some x ∨ (is_branch i = true ∧ x = pc + 1 ∧ x < len code)))
    (len code) {[ ENTRY_BLOCK_ID ]}) as (ids & Hf & H).
  - intros x. unfold ENTRY_BLOCK_ID. set_unfold. naive_solver lia.
  - intros k ids Hk IH. destruct (at_lt code k Hk) as [i Hi]. rewrite wrap16 by lia.
    destruct (record_block_ids_spec (E := E) k code ids i Hn Hi) as (ids' & H1 & H2).
    exists ids'. split; [done|]. intros x. rewrite H2, IH. split.
    + intros [[|(pc & j & ? & ?)]|Hx]; [by left|right; exists pc, j; split; [lia|done]|].
      right. exists k, i. split; [lia|done].
    + intros [|(pc & j & Hpc & Hj & Hx)]; [auto|].
      destruct (decide (pc = k)) as [->|]; [naive_solver|].
      left. right. exists pc, j. split; [lia|done].
  - exists ids. split; [done|]. intros x. rewrite H. unfold leader. split; [naive_solver|].
    intros [|(pc & i & Hi & Hx)]; [by left|right]. exists pc, i.
    split; [by eapply at_Some_lt|done].
Qed.

Lemma is_end_of_block_spec {E} pc code ids :
  len code <= 65535 → pc < len code → (∀ x, x ∈ ids ↔ leader code x) →
  ∃ b, is_end_of_block (E := E) pc code ids = Ok b ∧ (b = true ↔ ends_block code pc).
Proof.
  intros Hn Hpc Hids. unfold is_end_of_block. rewrite succ_pc_Ok, wrap16 by lia.
  eexists; split; [reflexivity|]. unfold ends_block.
  rewrite orb_true_iff, N.eqb_eq, bool_decide_eq_true. by rewrite Hids.
Qed.

(** The successors of an instruction: its target, and the next instruction
    unless it always branches *)
Lemma get_successors_spec {E} pc code i :
  len code <= 65534 → at_ code pc = Some i →
  ∃ succs, get_successors (E := E) pc code = Ok succs ∧
    ∀ x, x ∈ succs ↔ offset i = Some x ∨
      (is_unconditional_branch i = false ∧ x = pc + 1 ∧ x < len code).
Proof.
  intros Hn Hi. pose proof (at_Some_lt _ _ _ Hi) as Hpc.
  unfold get_successors. change (u16_MAX - 2) with 65533.
  destruct (N.leb_spec pc 65533); [|lia]. destruct (N.ltb_spec pc (len code)); [|lia].
  cbn [andb negb]. rewrite Hi. cbn [unwrap mbind result_bind]. cbv zeta. rewrite wrap16 by lia.
  destruct (N.leb_spec (len code) (pc + 1)) as [Hlast|Hlast].
  { eexists; split; [reflexivity|]. intros x.
    destruct (offset i) as [o|]; set_unfold; naive_solver lia. }
  destruct (is_unconditional_branch i) eqn:Hu, (offset i) as [o|] eqn:Ho; cbn [negb andb];
    try case_bool_decide as Hm; cbn [negb app];
    try match goal with |- context [if ?a <? ?b then _ else _] => destruct (a <? b) end;
    eexists; (split; [reflexivity|]); intros x; set_unfold; naive_solver lia.
Qed.

(** The state of the block loop before instruction [k] *)
Record create_inv (code : list Bytecode) (k : N)
    (st : gmap BlockId BasicBlock * CodeOffset) : Prop := {
  ci_le : st.2 <= k;
  ci_entry : st.2 = len code ∨ leader code st.2;
  ci_blocks : ∀ b bb, st.1 !! b = Some bb → block_ok code b bb ∧ bb_exit bb < st.2;
  ci_cover : ∀ pc, pc < st.2 →
    ∃ b bb, st.1 !! b = Some bb ∧ b <= pc ∧ pc <= bb_exit bb;
  ci_open : ∀ pc, st.2 <= pc → pc < k → ¬ ends_block code pc }.

Lemma create_block_inv code ids k st :
  len code <= 65534 → (∀ x, x ∈ ids ↔ leader code x) → k < len code →
  create_inv code k st →
  ∃ st', create_block (E := StatusCode) code ids st k = Ok st' ∧ create_inv code (k + 1) st'.
Proof.
  intros Hn Hids Hk [Hle Hen Hbl Hco Hop]. destruct st as [bs entry]. cbn [fst snd] in *.
  unfold create_block. rewrite wrap16 by lia. cbv zeta.
  destruct (is_end_of_block_spec (E := StatusCode) k code ids) as (e & -> & He);
    [lia|done..|]. cbn [mbind result_bind].
  destruct e.
  - pose proof (proj1 He eq_refl) as Hend. destruct (at_lt code k Hk) as [i Hi].
    destruct (get_successors_spec (E := StatusCode) k code i Hn Hi) as (succs & Hs & _).
    rewrite Hs. cbn [mbind result_bind]. rewrite succ_pc_Ok by lia. cbn [mbind result_bind].
    eexists; split; [reflexivity|]. constructor; cbn [fst snd].
    + lia.
    + unfold ends_block in Hend. naive_solver.
    + intros b bb Hb. destruct (decide (b = entry)) as [->|Hne].
      * rewrite lookup_insert_eq in Hb. injection Hb as <-. split; [|simpl; lia].
        constructor; cbn [bb_entry bb_exit bb_successors]; auto; [|lia..].
        destruct Hen; [lia|done].
      * rewrite lookup_insert_ne in Hb by done. destruct (Hbl b bb Hb). split; [done|lia].
    + intros pc Hpc. destruct (N.lt_ge_cases pc entry) as [Hlt|Hge].
      * destruct (Hco pc Hlt) as (b & bb & Hb & ? & ?). exists b, bb. split; [|done].
        rewrite lookup_insert_ne; [done|]. intros <-. lia.
      * exists entry. eexists. rewrite lookup_insert_eq. split; [reflexivity|]. simpl. lia.
    + intros pc. lia.
  - eexists; split; [reflexivity|]. constructor; cbn [fst snd]; try done; [lia|].
    intros pc H1 H2. destruct (decide (pc = k)) as [->|]; [|apply Hop; lia].
    intros H%He. done.
Qed.

(** What [new] returns on code of at most 65534 instructions *)
Record cfg_ok (code : list Bytecode) (cfg : VMControlFlowGraph) : Prop := {
  co_blocks : ∀ b bb, cfg_blocks cfg !! b = Some bb → block_ok code b bb;
  co_cover : ∀ pc, pc < len code →
    ∃ b bb, cfg_blocks cfg !! b = Some bb ∧ b <= pc ∧ pc <= bb_exit bb;
  co_disjoint : ∀ b1 b2 bb1 bb2 pc,
    cfg_blocks cfg !! b1 = Some bb1 → cfg_blocks cfg !! b2 = Some bb2 →
    b1 <= pc → pc <= bb_exit bb1 → b2 <= pc → pc <= bb_exit bb2 → b1 = b2;
  co_leaders : ∀ b, b < len code → (is_Some (cfg_blocks cfg !! b) ↔ leader code b);
  co_closed : branches_in_bounds code → closed cfg }.

Lemma leader_inside code b bb pc :
  block_ok code b bb → leader code pc → b < pc → ¬ pc <= bb_exit bb.
Proof.
  intros Hb Hl Hlt Hle. apply (bo_straight _ _ _ Hb (pc - 1)); [lia..|].
  right. by replace (pc - 1 + 1) with pc by lia.
Qed.

Lemma create_inv_cfg code st :
  len code <= 65534 → create_inv code (len code) st →
  st.2 = len code ∧ cfg_ok code {| cfg_blocks := st.1 |}.
Proof.
  intros Hn [Hle Hen Hbl Hco Hop].
  assert (st.2 = len code) as Hst.
  { destruct (N.lt_ge_cases st.2 (len code)); [|lia].
    exfalso. apply (Hop (len code - 1)); [lia..|]. left. lia. }
  rewrite Hst in *. split; [done|].
  assert (∀ b, b < len code → leader code b → is_Some (st.1 !! b)) as Hlead.
  { intros b Hb Hl. destruct (Hco b Hb) as (b' & bb & Hb' & H1 & H2).
    destruct (decide (b' = b)) as [->|]; [eauto|].
    destruct (Hbl _ _ Hb') as [Hok _]. exfalso. eapply leader_inside; eauto. lia. }
  constructor; cbn [cfg_blocks]; try done.
  - intros b bb Hb. apply (Hbl b bb Hb).
  - intros b1 b2 bb1 bb2 pc H1 H2 ????.
    destruct (Hbl _ _ H1) as [Ho1 _], (Hbl _ _ H2) as [Ho2 _].
    destruct (N.lt_trichotomy b1 b2) as [Hlt|[|Hlt]]; [|done|]; exfalso;
      [apply (leader_inside code b1 bb1 b2)|apply (leader_inside code b2 bb2 b1)];
      try done; try lia; by eapply bo_leader.
  - intros b Hb. split; [|by apply Hlead]. intros [bb H]. destruct (Hbl _ _ H) as [[] _]. done.
  - intros Hin b s (bb & Hb & Hs). cbn [cfg_blocks] in Hb.
    destruct (Hbl _ _ Hb) as [[_ _ [_ Hx] He _ Hsu] _].
    destruct (at_lt code _ Hx) as [i Hi].
    destruct (get_successors_spec (E := StatusCode) _ _ _ Hn Hi) as (succs & Hsu' & Hspec).
    rewrite Hsu in Hsu'. injection Hsu' as <-. apply Hspec in Hs as [Hs|(_ & -> & Hs)].
    + apply Hlead; [|right; eauto 6].
      pose proof (Forall_lookup_1 _ _ _ _ Hin Hi _ Hs). lia.
    + apply Hlead; [done|]. destruct He as [He|He]; [lia|done].
Qed.

(** Control passes from instruction [i] at [pc] to [pc']. *)
Definition passes_to (i : Bytecode) (pc pc' : N) : Prop :=
  offset i = Some pc' ∨ (is_unconditional_branch i = false ∧ pc' = pc + 1).

(** Inside a block control goes to the next instruction; at its end, to the start
    of one of its successors. *)
Lemma passes_to_cases code cfg b bb pc i pc' :
  len code <= 65534 → cfg_ok code cfg → cfg_blocks cfg !! b = Some bb →
  b <= pc → pc <= bb_exit bb → at_ code pc = Some i → passes_to i pc pc' → pc' < len code →
  (pc < bb_exit bb ∧ pc' = pc + 1) ∨
  (pc = bb_exit bb ∧ pc' ∈ bb_successors bb ∧ is_Some (cfg_blocks cfg !! pc')).
Proof.
  intros Hn Hcfg Hb H1 H2 Hi Hp Hlt. pose proof (co_blocks _ _ Hcfg b bb Hb) as Hok.
  destruct (decide (pc = bb_exit bb)) as [->|Hne]; [right|left].
  - destruct (get_successors_spec (E := StatusCode) _ _ _ Hn Hi) as (succs & Hs & Hspec).
    rewrite (bo_successors _ _ _ Hok) in Hs. injection Hs as <-.
    split_and!; [done|apply Hspec; destruct Hp as [|[? ->]]; naive_solver|].
    apply (co_leaders _ _ Hcfg pc' Hlt). destruct Hp as [Ho|[Hu ->]]; [by right; eauto 6|].
    destruct (bo_ends _ _ _ Hok) as [|Hl]; [lia|done].
  - split; [lia|]. destruct Hp as [Ho|[_ ->]]; [|done]. exfalso.
    apply (bo_straight _ _ _ Hok pc); [lia..|]. right. right. exists pc, i. split; [done|right].
    pose proof (bo_exit _ _ _ Hok). split_and!; [by destruct i|done|lia].
Qed.

Lemma new_ok code :
  len code <= 65534 →
  ∃ cfg, VMControlFlowGraph_new (E := StatusCode) code = Ok cfg ∧ cfg_ok code cfg.
Proof.
  intros Hn. unfold VMControlFlowGraph_new.
  destruct (leaders_spec (E := StatusCode) code) as (ids & Hf & Hids); [lia|].
  rewrite Hf. cbn [mbind result_bind].
  destruct (try_fold_range (create_block (E := StatusCode) code ids) (create_inv code)
    (len code) (∅, 0)) as (st & Hst & Hinv).
  - constructor; cbn [fst snd]; [lia|by right; left| |intros pc; lia|intros pc; lia].
    intros b bb. by rewrite lookup_empty.
  - intros k st Hk Hinv. by apply create_block_inv.
  - rewrite Hst. cbn [mbind result_bind].
    destruct (create_inv_cfg code st Hn Hinv) as [He Hok]. rewrite wrap16 by lia.
    match goal with |- context [?a =? ?b] => destruct (N.eqb_spec a b) as [_|Hne] end;
      [eauto|by destruct Hne].
Qed.

(** On code of at most 65534 instructions the control-flow graph is built without a
    panic: its blocks partition the code, start exactly at the leaders, contain no branch
    or branch target inside, carry the successors of their last instruction, and lead only
    to blocks when every branch stays in the code. *)
Theorem VMControlFlowGraph_new_spec (code : list Bytecode) :
  len code <= 65534 →
  ∃ cfg, VMControlFlowGraph_new (E := StatusCode) code = Ok cfg ∧ cfg_ok code cfg.
Proof. apply new_ok. Qed.

Definition sample_code : list Bytecode :=
  [LdTrue; BrTrue 4; LdU8 7; Bytecode.Pop; LdFalse; BrFalse 0; Ret].

Lemma VMControlFlowGraph_new_spec_witness :
  ∃ cfg, VMControlFlowGraph_new (E := StatusCode) sample_code = Ok cfg ∧
    cfg_ok sample_code cfg ∧ blocks cfg = [0; 2; 4; 6] ∧
    successors (E := StatusCode) cfg 4 = Ok [0; 6].
Proof.
  destruct (VMControlFlowGraph_new_spec sample_code) as (cfg & H & Hok); [by vm_compute|].
  exists cfg. split; [exact H|]. split; [exact Hok|].
  revert H. vm_compute. intros [= <-]. split; reflexivity.
Defined.

(** No block is made for an empty body. *)
Lemma new_nil : VMControlFlowGraph_new (E := StatusCode) [] = Ok {| cfg_blocks := ∅ |}.
Proof. reflexivity. Qed.

(** *** The largest function body the format allows *)

Definition ok_or_panic {E A} (r : result E A) : Prop :=
  match r with Ok _ | Panic => True | _ => False end.

Lemma ok_or_panic_bind {E A B} (m : result E A) (k : A → result E B) :
  ok_or_panic m → (∀ a, ok_or_panic (k a)) → ok_or_panic (m ≫= k).
Proof. destruct m; simpl; auto. Qed.

Lemma create_block_ok_or_panic {E} code ids st k :
  ok_or_panic (create_block (E := E) code ids st k).
Proof.
  destruct st as [bs entry]. unfold create_block, is_end_of_block, succ_pc, get_successors, unwrap.
  repeat first [apply ok_or_panic_bind; [|intros ?] | case_match | exact I].
Qed.

Lemma try_fold_ok_or_panic {E A B} (f : B → A → result E B) l b :
  (∀ b x, ok_or_panic (f b x)) → ok_or_panic (try_fold f l b).
Proof.
  intros H. revert b; induction l as [|x l IH]; intros b; [exact I|].
  cbn [try_fold]. by apply ok_or_panic_bind.
Qed.

Lemma create_last_block {E} code ids st :
  len code = 65535 → create_block (E := E) code ids st 65534 = Panic.
Proof.
  intros Hn. destruct st as [bs entry]. unfold create_block. rewrite wrap16 by lia. cbv zeta.
  unfold is_end_of_block. rewrite succ_pc_Ok, wrap16, Hn by lia.
  cbn [mbind result_bind]. change (65534 + 1 =? 65535) with true. cbn [orb].
  unfold get_successors. change (65534 <=? u16_MAX - 2) with false. done.
Qed.

(** Building the control-flow graph of a body of 65535 instructions, the largest that
    the binary format admits, panics: the precondition of get_successors excludes the last
    offset. *)
Theorem VMControlFlowGraph_new_panics (code : list Bytecode) :
  len code = u16_MAX → VMControlFlowGraph_new (E := StatusCode) code = Panic.
Proof.
  change u16_MAX with 65535. intros Hn. unfold VMControlFlowGraph_new.
  destruct (leaders_spec (E := StatusCode) code) as (ids & -> & _); [lia|].
  cbn [mbind result_bind].
  replace (len code) with (65534 + 1) at 1 by lia. rewrite range_S, try_fold_app.
  pose proof (try_fold_ok_or_panic (create_block (E := StatusCode) code ids) (range 65534) (∅, 0)
    (create_block_ok_or_panic code ids)) as H.
  destruct (try_fold _ (range 65534) _) as [st| | |]; [|done..].
  cbn. by rewrite create_last_block.
Qed.

Lemma VMControlFlowGraph_new_panics_witness :
  VMControlFlowGraph_new (E := StatusCode)
    (replicate (N.to_nat u16_MAX - 1) Nop ++ [Ret]) = Panic.
Proof.
  apply VMControlFlowGraph_new_panics.
  rewrite len_app. unfold len. rewrite length_replicate. cbn [length]. vm_compute. reflexivity.
Defined.

(** ** Traversal *)

Lemma push_unseen_fold (succs ret : list BlockId) (seen : gset BlockId) :
  NoDup ret → (∀ b, b ∈ seen ↔ b ∈ ret) →
  let st := foldl push_unseen (ret, seen) succs in
  NoDup st.1 ∧ (∀ b, b ∈ st.2 ↔ b ∈ st.1) ∧ (∃ new, st.1 = ret ++ new) ∧
  (∀ b, b ∈ st.1 ↔ b ∈ ret ∨ b ∈ succs).
Proof.
  revert ret seen; induction succs as [|s succs IH]; intros ret seen Hnd Hs; cbn [foldl].
  { cbv zeta. cbn [fst snd]. split_and!; [done|done|exists []; by rewrite app_nil_r|].
    set_unfold. naive_solver. }
  change (push_unseen (ret, seen) s) with
    (if bool_decide (s ∈ seen) then (ret, seen) else (ret ++ [s], {[ s ]} ∪ seen)).
  case_bool_decide as Hin.
  - destruct (IH ret seen Hnd Hs) as (H1 & H2 & H3 & H4). cbv zeta. split_and!; [done..|].
    intros b. rewrite H4. apply Hs in Hin. set_unfold. naive_solver.
  - destruct (IH (ret ++ [s]) ({[s]} ∪ seen)) as (H1 & H2 & [new H3] & H4).
    { apply NoDup_app. split_and!; [done| |apply NoDup_singleton].
      intros x Hx ->%list_elem_of_singleton. by apply Hin, Hs. }
    { intros b. specialize (Hs b). set_unfold. naive_solver. }
    cbv zeta. split_and!; [done|done|exists (s :: new)|]; [by rewrite H3, <- app_assoc|].
    intros b. rewrite H4. set_unfold. naive_solver.
Qed.

(** The blocks already pushed: reachable, without duplicates, those before the
    index with their successors *)
Record traverse_inv (cfg : VMControlFlowGraph) (root : BlockId) (ret : list BlockId)
    (index : N) (seen : gset BlockId) : Prop := {
  ti_index : index <= len ret;
  ti_NoDup : NoDup ret;
  ti_seen : ∀ b, b ∈ seen ↔ b ∈ ret;
  ti_root : root ∈ ret;
  ti_sound : ∀ b, b ∈ ret → rtc (edge cfg) root b;
  ti_keys : ∀ b, b ∈ ret → is_Some (cfg_blocks cfg !! b);
  ti_done : ∀ i b b', i < index → at_ ret i = Some b → edge cfg b b' → b' ∈ ret }.

Lemma at_app_l {A} (l1 l2 : list A) i : i < len l1 → at_ (l1 ++ l2) i = at_ l1 i.
Proof. intros H. apply lookup_app_l. unfold len in H. lia. Qed.

Lemma traverse_step cfg root ret index seen :
  closed cfg → traverse_inv cfg root ret index seen → index < len ret →
  ∃ b bb, at_ ret index = Some b ∧ cfg_blocks cfg !! b = Some bb ∧
    let st := foldl push_unseen (ret, seen) (bb_successors bb) in
    traverse_inv cfg root st.1 (index + 1) st.2.
Proof.
  intros Hcl [Hi Hnd Hs Hr Hso Hk Hd] Hlt. destruct (at_lt ret index Hlt) as [b Hb].
  assert (b ∈ ret) as Hbin by (apply list_elem_of_lookup; eauto).
  destruct (Hk b Hbin) as [bb Hbb]. exists b, bb. split_and!; [done..|].
  destruct (push_unseen_fold (bb_successors bb) ret seen Hnd Hs) as (H1 & H2 & [new H3] & H4).
  cbv zeta in *. set (st := foldl push_unseen (ret, seen) (bb_successors bb)) in *.
  assert (∀ b', edge cfg b b' ↔ b' ∈ bb_successors bb) as Hedge.
  { intros b'. unfold edge. rewrite Hbb. naive_solver. }
  constructor; try done.
  - rewrite H3. len_lia.
  - rewrite H4. by left.
  - intros b' [?|Hb']%H4; [by apply Hso|]. eapply rtc_r; [by apply Hso|]. by apply Hedge.
  - intros b' [?|Hb']%H4; [by apply Hk|]. apply (Hcl b). by apply Hedge.
  - intros i x b' Hix Hx Hxb. apply H4. rewrite H3, at_app_l in Hx by lia.
    destruct (decide (i = index)) as [->|].
    + rewrite Hb in Hx. injection Hx as <-. right. by apply Hedge.
    + left. apply (Hd i x b'); [lia|done..].
Qed.

Lemma keys_bound (cfg : VMControlFlowGraph) (ret : list BlockId) :
  NoDup ret → (∀ b, b ∈ ret → is_Some (cfg_blocks cfg !! b)) →
  (length ret <= size (cfg_blocks cfg))%nat.
Proof.
  intros Hnd Hk. rewrite <- size_dom, <- (size_list_to_set (C := gset BlockId)) by done.
  apply subseteq_size. intros b Hb%elem_of_list_to_set. apply elem_of_dom, Hk, Hb.
Qed.

(** When every block pushed has been visited, all the reachable ones are there. *)
Lemma traverse_end cfg root ret index seen b :
  traverse_inv cfg root ret index seen → len ret <= index →
  b ∈ ret ↔ rtc (edge cfg) root b.
Proof.
  intros [Hi Hnd Hs Hr Hso Hk Hd] Hge. split; [apply Hso|].
  revert b. apply rtc_ind_r; [done|]. intros b b' Hb Hbb' IH.
  apply list_elem_of_lookup in IH as [i Hbi].
  apply (Hd (N.of_nat i) b b'); [|unfold at_; by rewrite Nat2N.id|done].
  apply lookup_lt_Some in Hbi. unfold len in *. lia.
Qed.

Lemma traverse_loop_spec {E} cfg root fuel ret index seen :
  closed cfg → traverse_inv cfg root ret index seen →
  (size (cfg_blocks cfg) < fuel + N.to_nat index)%nat →
  ∃ r, traverse_loop (E := E) fuel cfg ret index seen = Ok r ∧
    NoDup r ∧ ∀ b, b ∈ r ↔ rtc (edge cfg) root b.
Proof.
  intros Hcl. revert ret index seen; induction fuel as [|fuel IH]; intros ret index seen Hinv Hf.
  all: cbn [traverse_loop]; destruct (N.ltb_spec index (len ret)) as [Hlt|Hge].
  - pose proof (keys_bound cfg ret (ti_NoDup _ _ _ _ _ Hinv) (ti_keys _ _ _ _ _ Hinv)).
    unfold len in Hlt. lia.
  - exists ret. split; [done|]. split; [apply Hinv|]. intros b. by eapply traverse_end.
  - destruct (traverse_step cfg root ret index seen Hcl Hinv Hlt) as (b & bb & Hb & Hbb & Hst).
    rewrite Hb. cbn [unwrap mbind result_bind]. unfold successors. rewrite Hbb.
    cbn [unwrap mbind result_bind]. apply IH; [done|lia].
  - exists ret. split; [done|]. split; [apply Hinv|]. intros b. by eapply traverse_end.
Qed.

(** In a closed control-flow graph the traversal from a block ends within its fuel
    and returns, without duplicates, exactly the blocks that can be reached from it. *)
Theorem reachable_from_spec (cfg : VMControlFlowGraph) (block_id : BlockId) :
  closed cfg → is_Some (cfg_blocks cfg !! block_id) →
  ∃ ret, reachable_from (E := StatusCode) cfg block_id = Ok ret ∧
    NoDup ret ∧ ∀ b, b ∈ ret ↔ rtc (edge cfg) block_id b.
Proof.
  intros Hcl Hk. apply traverse_loop_spec; [done| |lia].
  constructor; try done.
  - apply NoDup_singleton.
  - intros b. set_solver.
  - set_solver.
  - intros b ->%list_elem_of_singleton. apply rtc_refl.
  - by intros b ->%list_elem_of_singleton.
  - intros i b b' H. lia.
Qed.

Lemma reachable_from_spec_witness :
  ∃ cfg, VMControlFlowGraph_new (E := StatusCode) sample_code = Ok cfg ∧
    ∃ ret, reachable_from (E := StatusCode) cfg 0 = Ok ret ∧ NoDup ret ∧
      ∀ b, b ∈ ret ↔ rtc (edge cfg) 0 b.
Proof.
  destruct (new_ok sample_code) as (cfg & H & Hok); [by vm_compute|].
  exists cfg. split; [exact H|]. apply (reachable_from_spec cfg 0).
  - apply (co_closed _ _ Hok). repeat constructor; intros ? [= <-]; by vm_compute.
  - apply (co_leaders _ _ Hok); [by vm_compute|by left].
Defined.
