(* ===== verification/ControlFlow.v ===== *)
(** * ControlFlow: the verifier of jumps and loops

    Models [language/bytecode-verifier/src/control_flow.rs].  A vector used as a
    stack is a list whose head is its top; a [usize] counter that would go below
    zero is a panic. *)

From stdpp Require Import sorting.
From S2P Require Import Prelude CoreTypes VmStatus Abilities FileFormat Errors ControlFlowGraph.

Import Bytecode.

(** [enum Label] *)
Inductive Label : Set := Loop (last_continue : u16) | Code.

(** [struct ControlFlowVerifier] *)
Record ControlFlowVerifier : Set := {
  current_function : FunctionDefinitionIndex;
  code : list Bytecode }.

(** [idx.try_into().unwrap()] to a [CodeOffset] *)
Definition try_into_u16 {E} (idx : N) : result E CodeOffset :=
  if idx <=? u16_MAX then Ok idx else Panic.

(** [ControlFlowVerifier::error] *)
Definition error (self : ControlFlowVerifier) (status : StatusCode) (offset : CodeOffset)
  : PartialVMError :=
  at_code_offset (PartialVMError_new status) (current_function self) offset.

(** [labels[loop_idx as usize] = Label::Loop { last_continue }] *)
Definition loop_continue (labels : list Label) (loop_idx last_continue : CodeOffset)
  : result PartialVMError (list Label) :=
  if loop_idx <? len labels
  then Ok (<[ N.to_nat loop_idx := Loop last_continue ]> labels)
  else Panic.

Definition instruction_labels (context : ControlFlowVerifier)
  : result PartialVMError (list Label) :=
  try_fold (λ labels p,
    i ← try_into_u16 p.1;
    match p.2 with
    | Branch prev | BrTrue prev | BrFalse prev =>
        if prev <=? i then loop_continue labels prev i else Ok labels
    | _ => Ok labels
    end)
    (enumerate (code context)) (replicate (length (code context)) Code).

(** The loops entered and not left, innermost first, each with its last continue *)
Definition LoopStack : Set := list (CodeOffset * CodeOffset).

(** "Add loop to stack" and "Pop if last continue" of [check_code] *)
Definition push_loop (loop_stack : LoopStack) (i : CodeOffset) (label : Label) : LoopStack :=
  match label with
  | Loop last_continue => (i, last_continue) :: loop_stack
  | Code => loop_stack
  end.
Definition pop_loop (loop_stack : LoopStack) (i : CodeOffset) (instr : Bytecode)
  : result PartialVMError LoopStack :=
  match instr with
  | Branch j | BrTrue j | BrFalse j =>
      if j <=? i then
        top ← unwrap (head loop_stack);
        Ok (if i =? snd top then tail loop_stack else loop_stack)
      else Ok loop_stack
  | _ => Ok loop_stack
  end.

(** The body of the loop of [check_code] *)
Definition check_step
    (check : LoopStack → CodeOffset → Bytecode → result PartialVMError unit)
    (loop_stack : LoopStack) (p : (N * Bytecode) * Label) : result PartialVMError LoopStack :=
  let '((idx, instr), label) := p in
  i ← try_into_u16 idx;
  let loop_stack := push_loop loop_stack i label in
  _ ← check loop_stack i instr;
  pop_loop loop_stack i instr.

Definition check_code (context : ControlFlowVerifier) (labels : list Label)
    (check : LoopStack → CodeOffset → Bytecode → result PartialVMError unit)
  : result PartialVMError unit :=
  _ ← try_fold (check_step check) (zip (enumerate (code context)) labels) [];
  Ok tt.

Definition check_continues (context : ControlFlowVerifier) (labels : list Label)
  : result PartialVMError unit :=
  check_code context labels (λ loop_stack i instr,
    match instr with
    | Branch j | BrTrue j | BrFalse j =>
        if j <=? i then
          top ← unwrap (head loop_stack);
          let is_continue := j <=? i in
          if is_continue && negb (j =? fst top)
          then Err (error context INVALID_LOOP_CONTINUE i)
          else Ok tt
        else Ok tt
    | _ => Ok tt
    end).

Definition check_breaks (context : ControlFlowVerifier) (labels : list Label)
  : result PartialVMError unit :=
  check_code context labels (λ loop_stack i instr,
    match instr with
    | Branch j | BrTrue j | BrFalse j =>
        if i <? j then
          match head loop_stack with
          | Some (_, last_continue) =>
              if (last_continue <? j) && negb (j =? last_continue + 1)
              then Err (error context INVALID_LOOP_BREAK i)
              else Ok tt
          | None => Ok tt
          end
        else Ok tt
    | _ => Ok tt
    end).

(** The last continues of [count_loop_depth] *)
Definition last_continues (labels : list Label) : gset CodeOffset :=
  list_to_set (omap (λ label, match label with
                              | Loop last_continue => Some last_continue
                              | Code => None
                              end) labels).

Definition count_loop_depth (labels : list Label) : result PartialVMError (list N) :=
  st ← try_fold (λ st p,
         let '(count, counts) := st in
         let count := match p.2 with Loop _ => count + 1 | Code => count end in
         let counts := counts ++ [count] in
         idx ← try_into_u16 p.1;
         if bool_decide (idx ∈ last_continues labels) then
           if count =? 0 then Panic else Ok (count - 1, counts)
         else Ok (count, counts))
       (enumerate labels) (0, []);
  Ok (snd st).

Definition check_no_loop_splits (context : ControlFlowVerifier) (labels : list Label)
  : result PartialVMError unit :=
  let is_break (loop_stack : LoopStack) (jump_target : CodeOffset) : bool :=
    match head loop_stack with
    | None => false
    | Some (_, last_continue) => last_continue <? jump_target
    end in
  loop_depth ← count_loop_depth labels;
  check_code context labels (λ loop_stack i instr,
    match instr with
    | Branch j | BrTrue j | BrFalse j =>
        if (i <? j) && negb (is_break loop_stack j) then
          before_depth ← unwrap (at_ loop_depth i);
          label ← unwrap (at_ labels j);
          after_depth ←
            match label with
            | Loop _ =>
                d ← unwrap (at_ loop_depth j);
                if d =? 0 then Panic else Ok (d - 1)
            | Code => unwrap (at_ loop_depth j)
            end;
          if negb (before_depth =? after_depth)
          then Err (error context INVALID_LOOP_SPLIT i)
          else Ok tt
        else Ok tt
    | _ => Ok tt
    end).

Definition check_jumps (context : ControlFlowVerifier) (labels : list Label)
  : result PartialVMError unit :=
  _ ← check_continues context labels;
  _ ← check_breaks context labels;
  check_no_loop_splits context labels.

(** [pub fn verify] *)
Definition verify (current_function_opt : option FunctionDefinitionIndex) (code : CodeUnit)
  : result PartialVMError unit :=
  let current_function := default 0 current_function_opt in
  _ ← match last (cu_code code) with
      | None => Err (PartialVMError_new EMPTY_CODE_UNIT)
      | Some last =>
          if negb (is_unconditional_branch last)
          then Err (at_code_offset (PartialVMError_new INVALID_FALL_THROUGH) current_function
                      (wrap 16 (len (cu_code code) - 1)))
          else Ok tt
      end;
  let context := {| current_function := current_function; code := cu_code code |} in
  labels ← instruction_labels context;
  check_jumps context labels.
