(* ===== verification/Loops.v ===== *)
(** * Loops: what [ControlFlow.verify] guarantees

    Loops are read off the code alone: a loop starts at the target of a backward
    jump and extends to the last jump back to it.  The verifier never panics, and
    the code it accepts has properly nested loops that are entered only at their
    heads. *)

From stdpp Require Import sorting.
From S2P Require Import Prelude CoreTypes VmStatus Abilities FileFormat Errors ControlFlowGraph ControlFlow.

Import Bytecode.

(** ** Loops of a piece of code *)

Section Loops.
Context (code : list Bytecode).

(** Instruction [i] jumps back to [j], itself or an earlier instruction. *)
Definition back_jump (i j : N) : Prop :=
  ∃ instr, at_ code i = Some instr ∧ offset instr = Some j ∧ j <= i.
(** Instruction [i] jumps forward to [j]. *)
Definition forward_jump (i j : N) : Prop :=
  ∃ instr, at_ code i = Some instr ∧ offset instr = Some j ∧ i < j.

(** The loop headed by [k] whose last continue is [lc] *)
Definition is_loop (k lc : N) : Prop :=
  back_jump lc k ∧ ∀ i, back_jump i k → i <= lc.

(** Control may pass from instruction [i] to instruction [j]. *)
Definition flows (i j : N) : Prop :=
  ∃ instr, at_ code i = Some instr ∧
    (offset instr = Some j ∨ (is_unconditional_branch instr = false ∧ j = i + 1)).

(** Two loops are nested or apart. *)
Definition well_nested : Prop :=
  ∀ k1 lc1 k2 lc2, is_loop k1 lc1 → is_loop k2 lc2 → k1 < k2 → k2 <= lc1 → lc2 <= lc1.
(** Control reaches the inside of a loop only from within the loop. *)
Definition single_entry : Prop :=
  ∀ i j k lc, flows i j → is_loop k lc → k < j → j <= lc → k <= i ∧ i <= lc.

Lemma back_jump_fun i j j' : back_jump i j → back_jump i j' → j = j'.
Proof. intros (x & Hx & Ho & _) (y & Hy & Ho' & _). congruence. Qed.
Lemma is_loop_fun k lc lc' : is_loop k lc → is_loop k lc' → lc = lc'.
Proof. intros [H1 H2] [H1' H2']. specialize (H2 _ H1'). specialize (H2' _ H1). lia. Qed.
Lemma is_loop_le k lc : is_loop k lc → k <= lc ∧ lc < len code.
Proof. intros [(i & Hi%at_Some_lt & _ & H) _]. lia. Qed.
(** A last continue belongs to one loop. *)
Lemma is_loop_inj k k' lc : is_loop k lc → is_loop k' lc → k = k'.
Proof. intros [H _] [H' _]. by eapply back_jump_fun. Qed.
End Loops.

(** A backward jump of an instruction, as a test *)
Definition back_target (i : N) (instr : Bytecode) : option N :=
  match offset instr with
  | Some j => if j <=? i then Some j else None
  | None => None
  end.
Lemma back_target_spec code i instr j :
  at_ code i = Some instr → (back_target i instr = Some j ↔ back_jump code i j).
Proof.
  intros Hi. unfold back_target, back_jump. rewrite Hi.
  destruct (offset instr) as [o|] eqn:Ho; [|naive_solver congruence].
  destruct (N.leb_spec o i); split; try naive_solver; intros (x & Hx & Ho' & ?); simplify_eq; try lia; congruence.
Qed.

(** Every loop up to instruction [n] is known. *)
Definition is_loop_upto code (n k lc : N) : Prop :=
  lc < n ∧ back_jump code lc k ∧ ∀ i, i < n → back_jump code i k → i <= lc.

Lemma try_into_u16_Ok {E} i : i <= 65535 → try_into_u16 (E := E) i = Ok i.
Proof.
  intros H. unfold try_into_u16. change u16_MAX with 65535. by destruct (N.leb_spec i 65535); [|lia].
Qed.

(** A loop over the instructions of the code with their offsets *)
Lemma try_fold_enumerate {E A B} (f : B → N * A → result E B) (I : N → B → Prop) l b :
  I 0 b →
  (∀ i x b, at_ l i = Some x → I i b → ∃ b', f b (i, x) = Ok b' ∧ I (i + 1) b') →
  ∃ b', try_fold f (enumerate l) b = Ok b' ∧ I (len l) b'.
Proof.
  intros H0 Hstep. unfold enumerate.
  enough (∀ l2 l1 b, l = l1 ++ l2 → I (len l1) b →
    ∃ b', try_fold f (imap (λ i x, (N.of_nat (length l1 + i), x)) l2) b = Ok b' ∧ I (len l) b')
    as H by (by apply (H l [])).
  induction l2 as [|x l2 IH]; intros l1 b1 Hl HI.
  { subst. rewrite app_nil_r. by exists b1. }
  rewrite imap_cons. cbn [try_fold].
  destruct (Hstep (len l1) x b1) as (b2 & H2 & I2); [|done|].
  { subst. unfold at_, len. rewrite Nat2N.id. by apply list_lookup_middle. }
  replace (N.of_nat (length l1 + 0)) with (len l1) by (unfold len; lia).
  rewrite H2. cbn [mbind result_bind].
  destruct (IH (l1 ++ [x]) b2) as (b' & Hb' & ?).
  { by rewrite <- app_assoc. }
  { by rewrite len_app. }
  exists b'. split; [|done]. rewrite <- Hb'. f_equal. apply imap_ext.
  intros i y _. unfold compose. rewrite length_app. simpl. do 2 f_equal. lia.
Qed.

Lemma at_insert_eq {A} (l : list A) i x : i < len l → at_ (<[ N.to_nat i := x ]> l) i = Some x.
Proof. intros H. apply list_lookup_insert_eq. unfold len in H. lia. Qed.
Lemma at_insert_ne {A} (l : list A) i j x :
  i ≠ j → at_ (<[ N.to_nat i := x ]> l) j = at_ l j.
Proof. intros H. apply list_lookup_insert_ne. lia. Qed.

(** ** Labels *)

Definition labels_ok code (labels : list Label) : Prop :=
  len labels = len code ∧
  ∀ k lc, at_ labels k = Some (Loop lc) ↔ is_loop code k lc.

Lemma is_loop_upto_other code n k lc :
  ¬ back_jump code n k → is_loop_upto code (n + 1) k lc ↔ is_loop_upto code n k lc.
Proof.
  intros Hno. unfold is_loop_upto. split; intros (H1 & H2 & H3).
  - split_and!; [|done|intros i Hi; apply H3; lia].
    destruct (decide (lc = n)) as [->|]; [done|lia].
  - split_and!; [lia|done|]. intros i Hi Hb.
    destruct (decide (i = n)) as [->|]; [done|]. apply H3; [lia|done].
Qed.

(** The three jumps of the source's patterns are those with an offset. *)
Lemma match_jump {A} (instr : Bytecode) (f : N → A) (d : A) :
  match instr with Branch j | BrTrue j | BrFalse j => f j | _ => d end =
  match offset instr with Some j => f j | None => d end.
Proof. by destruct instr. Qed.

Lemma label_step code n instr labels :
  at_ code n = Some instr → len labels = len code →
  (∀ k lc, at_ labels k = Some (Loop lc) ↔ is_loop_upto code n k lc) →
  ∃ labels',
    match offset instr with
    | Some prev => if prev <=? n then loop_continue labels prev n else Ok labels
    | None => Ok labels
    end = Ok labels' ∧ len labels' = len code ∧
    ∀ k lc, at_ labels' k = Some (Loop lc) ↔ is_loop_upto code (n + 1) k lc.
Proof.
  intros Hi Hlen Hl. pose proof (at_Some_lt _ _ _ Hi) as Hlt.
  pose proof (back_target_spec code n instr) as Hb. unfold back_target in Hb.
  destruct (match offset instr with
            | Some prev => if prev <=? n then Some prev else None
            | None => None
            end) as [j|] eqn:Hj.
  - pose proof (proj1 (Hb j Hi) Hj) as Hjump.
    destruct (offset instr) as [o|]; [|done].
    destruct (N.leb_spec o n) as [Hle|]; [|done]. injection Hj as ->.
    unfold loop_continue. destruct (N.ltb_spec j (len labels)); [|lia].
    eexists; split; [reflexivity|]. split.
    { unfold len. by rewrite length_insert. }
    intros k lc. destruct (decide (k = j)) as [->|Hne].
    + rewrite at_insert_eq by done. unfold is_loop_upto. split.
      * intros [= <-]. split_and!; [lia|done|]. lia.
      * intros (H1 & H2 & H3). do 2 f_equal. assert (n <= lc) by (apply H3; [lia|done]). lia.
    + rewrite at_insert_ne by done. rewrite Hl, is_loop_upto_other; [done|].
      intros Hk. by apply Hne, (back_jump_fun code n).
  - exists labels. split; [|split; [done|]].
    + destruct (offset instr) as [o|]; [|done]. by destruct (o <=? n).
    + intros k lc. rewrite Hl, is_loop_upto_other; [done|]. intros Hk. pose proof (proj2 (Hb k Hi) Hk) as Hk'. by pose proof (eq_trans (eq_sym Hj) Hk').
Qed.

Lemma instruction_labels_spec context :
  len (code context) <= 65536 →
  ∃ labels, instruction_labels context = Ok labels ∧ labels_ok (code context) labels.
Proof.
  intros Hn. unfold instruction_labels.
  destruct (try_fold_enumerate (λ labels p,
    i ← try_into_u16 p.1;
    match p.2 with
    | Branch prev | BrTrue prev | BrFalse prev =>
        if prev <=? i then loop_continue labels prev i else Ok labels
    | _ => Ok labels
    end) (λ n labels, len labels = len (code context) ∧
      ∀ k lc, at_ labels k = Some (Loop lc) ↔ is_loop_upto (code context) n k lc)
    (code context) (replicate (length (code context)) Code)) as (labels & Hf & Hlen & Hl).
  - split; [unfold len; by rewrite length_replicate|].
    intros k lc. unfold is_loop_upto, at_. split; [|lia].
    intros [H _]%lookup_replicate. done.
  - intros i instr labels Hi [Hlen Hl]. pose proof (at_Some_lt _ _ _ Hi). cbn [fst snd].
    rewrite try_into_u16_Ok by lia. cbn [mbind result_bind]. rewrite match_jump.
    by apply label_step.
  - exists labels. split; [done|]. split; [done|]. intros k lc. rewrite Hl.
    unfold is_loop_upto, is_loop. split.
    + intros (H1 & H2 & H3). split; [done|]. intros i Hb. apply H3; [|done].
      destruct Hb as (? & ?%at_Some_lt & _). done.
    + intros [H1 H2]. split_and!; [|done|auto]. destruct H1 as (? & ?%at_Some_lt & _). done.
Qed.

(** ** The loop stack *)

Section Stack.
Context (code : list Bytecode).

Lemma back_jump_dec i j : Decision (back_jump code i j).
Proof.
  destruct (at_ code i) as [instr|] eqn:Hi.
  - destruct (decide (back_target i instr = Some j)) as [H|H]; [left|right];
      by rewrite <- (back_target_spec code i instr j Hi).
  - right. intros (? & ? & _). congruence.
Qed.

(** Every backward jump belongs to a loop. *)
Lemma loop_of_back_jump i j : back_jump code i j → ∃ lc, is_loop code j lc ∧ i <= lc.
Proof.
  intros Hb.
  enough (∀ n, i < n → ∃ lc, is_loop_upto code n j lc ∧ i <= lc) as H.
  { destruct (H (len code)) as (lc & (H1 & H2 & H3) & H4).
    { destruct Hb as (? & ?%at_Some_lt & _). done. }
    exists lc. split; [|done]. split; [done|]. intros i' Hb'. apply H3; [|done].
    destruct Hb' as (? & ?%at_Some_lt & _). done. }
  intros n. induction n as [|n IH] using N.peano_ind; [lia|]. intros Hi.
  rewrite <- N.add_1_r. destruct (back_jump_dec n j) as [Hn|Hn].
  - exists n. split; [|lia]. split_and!; [lia|done|lia].
  - destruct (decide (i = n)) as [->|]; [done|]. destruct IH as (lc & H & ?); [lia|].
    exists lc. split; [|done]. by apply is_loop_upto_other.
Qed.

(** The loops that may still be open before instruction [n]: all those that
    started earlier and continue from [n] on, innermost first *)
Definition stack_before (n : N) (S : LoopStack) : Prop :=
  StronglySorted (λ p q, q.1 < p.1) S ∧
  (∀ k lc, (k, lc) ∈ S → is_loop code k lc ∧ k < n) ∧
  (∀ k lc, is_loop code k lc → k < n → n <= lc → (k, lc) ∈ S).
(** The same once the loop that starts at [n] has been pushed *)
Definition stack_at (n : N) (S : LoopStack) : Prop :=
  StronglySorted (λ p q, q.1 < p.1) S ∧
  (∀ k lc, (k, lc) ∈ S → is_loop code k lc ∧ k <= n) ∧
  (∀ k lc, is_loop code k lc → k <= n → n <= lc → (k, lc) ∈ S).

Lemma push_loop_ok labels n S label :
  labels_ok code labels → at_ labels n = Some label →
  stack_before n S → stack_at n (push_loop S n label).
Proof.
  intros [_ Hl] Hn (Hs & Hin & Hall). destruct label as [lc|]; cbn [push_loop].
  - assert (is_loop code n lc) as Hloop by (by apply Hl).
    pose proof (is_loop_le _ _ _ Hloop). split_and!.
    + constructor; [done|]. apply Forall_forall. intros [k lc'] Hk. simpl.
      apply Hin in Hk as [_ ?]. done.
    + intros k lc' [[= -> ->]|Hk]%elem_of_cons; [split; [done|lia]|].
      apply Hin in Hk as [? ?]. split; [done|lia].
    + intros k lc' Hk ? ?. apply elem_of_cons.
      destruct (decide (k = n)) as [->|]; [|right; apply Hall; [done|lia|done]].
      left. f_equal. by eapply is_loop_fun.
  - split_and!; [done| |].
    + intros k lc Hk. apply Hin in Hk as [? ?]. split; [done|lia].
    + intros k lc Hk ? ?. apply Hall; [done| |done].
      destruct (decide (k = n)) as [->|]; [|lia]. apply Hl in Hk. congruence.
Qed.

Lemma stack_head n S j lc :
  stack_at n S → (j, lc) ∈ S → ∃ top, head S = Some top ∧ j <= top.1.
Proof.
  intros (Hs & _ & _) Hin. destruct S as [|top S]; [by apply not_elem_of_nil in Hin|].
  exists top. split; [done|]. apply elem_of_cons in Hin as [<-|Hin]; [done|].
  destruct top as [k lck].
  apply StronglySorted_inv in Hs as [_ Hs]. rewrite Forall_forall in Hs.
  specialize (Hs _ Hin). simpl in *. lia.
Qed.

Lemma back_jump_head n j S :
  back_jump code n j → stack_at n S → ∃ top, head S = Some top ∧ j <= top.1.
Proof.
  intros Hb HS. destruct (loop_of_back_jump n j Hb) as (lc & Hl & Hle).
  apply (stack_head n S j lc HS). destruct HS as (_ & _ & Hall).
  apply Hall; [done| |done]. by destruct Hb as (? & _ & _ & ?).
Qed.

Lemma stack_at_before n S : stack_at n S → stack_before (n + 1) S.
Proof.
  intros (Hs & Hin & Hall). split_and!; [done| |].
  - intros k lc Hk%Hin. destruct Hk. split; [done|lia].
  - intros k lc Hk ? ?. apply Hall; [done|lia..].
Qed.

Lemma pop_loop_ok n S instr :
  at_ code n = Some instr → stack_at n S →
  ∃ S', pop_loop S n instr = Ok S' ∧ stack_before (n + 1) S'.
Proof.
  intros Hi HS. unfold pop_loop. rewrite match_jump.
  pose proof (stack_at_before n S HS) as HSb.
  destruct (offset instr) as [j|] eqn:Ho; [|by exists S].
  destruct (N.leb_spec j n) as [Hle|]; [|by exists S].
  destruct (back_jump_head n j S) as (top & Htop & _); [by exists instr|done|].
  rewrite Htop. cbn [unwrap mbind result_bind]. eexists; split; [reflexivity|].
  match goal with |- context [?a =? ?b] => destruct (N.eqb_spec a b) as [Hlc|] end; [|done].
  destruct S as [|t S]; [done|]. injection Htop as ->.
  destruct HSb as (Hs & Hin & Hall). cbn [tail]. split_and!.
  - by apply StronglySorted_inv in Hs as [? _].
  - intros k lc Hk. apply Hin. by apply list_elem_of_further.
  - intros k lc Hk H1 H2. destruct top as [k' lc']. simpl in Hlc.
    apply Hall in Hk as [[= -> ->]|?]%elem_of_cons; [lia|done..].
Qed.
End Stack.

(** ** One pass over the code *)

Section Pass.
Context (context : ControlFlowVerifier) (labels : list Label).
Context (check : LoopStack → CodeOffset → Bytecode → result PartialVMError unit).
Context (Hlen : len (code context) <= 65536) (Hl : labels_ok (code context) labels).

Lemma zip_lookup i o instr label :
  zip (enumerate (code context)) labels !! i = Some ((o, instr), label) ↔
  o = N.of_nat i ∧ at_ (code context) o = Some instr ∧ at_ labels o = Some label.
Proof.
  unfold at_. rewrite lookup_zip_with_Some. split.
  - intros ([o' x] & l & [= -> ->] & [-> Hx]%enumerate_Some & Hy). rewrite Nat2N.id. naive_solver.
  - intros (-> & Hx & Hy). rewrite Nat2N.id in *. exists (N.of_nat i, instr), label.
    by rewrite enumerate_Some.
Qed.

(** The stack at instruction [i] depends on the code alone, not on the check. *)
Definition reached (i : nat) (S : LoopStack) : Prop :=
  try_fold (check_step (λ _ _ _, Ok tt)) (take i (zip (enumerate (code context)) labels)) []
  = Ok S.
Definition seen_at (i : N) (S : LoopStack) : Prop :=
  ∃ S0 label, reached (N.to_nat i) S0 ∧ at_ labels i = Some label ∧ S = push_loop S0 i label.

Lemma reached_step i p S S' :
  zip (enumerate (code context)) labels !! i = Some p → reached i S →
  check_step check S p = Ok S' → reached (Datatypes.S i) S'.
Proof.
  intros Hp HS Hc. unfold reached in *. rewrite (take_S_r _ _ p) by done.
  rewrite try_fold_app, HS. cbn [mbind result_bind try_fold].
  destruct p as [[o instr] label]. unfold check_step in *.
  apply bind_Ok in Hc as (o' & -> & Hc). cbv zeta in *. apply bind_Ok in Hc as (? & _ & Hc).
  cbn [mbind result_bind]. by rewrite Hc.
Qed.

Lemma pass_step i p S :
  zip (enumerate (code context)) labels !! i = Some p →
  stack_before (code context) (N.of_nat i) S →
  ∃ instr S1, at_ (code context) (N.of_nat i) = Some instr ∧
    stack_at (code context) (N.of_nat i) S1 ∧ (reached i S → seen_at (N.of_nat i) S1) ∧
    check_step check S p = (_ ← check S1 (N.of_nat i) instr; pop_loop S1 (N.of_nat i) instr).
Proof.
  destruct p as [[o instr] label]. rewrite zip_lookup.
  intros (-> & Hi & Hlab) HS. pose proof (at_Some_lt _ _ _ Hi).
  exists instr, (push_loop S (N.of_nat i) label). split_and!; [done| | |].
  - by eapply push_loop_ok.
  - intros Hr. exists S, label. by rewrite Nat2N.id.
  - unfold check_step. by rewrite try_into_u16_Ok by lia.
Qed.

Lemma stack_before_0 : stack_before (code context) 0 [].
Proof.
  split_and!; [constructor| |].
  - intros k lc []%elem_of_nil.
  - intros k lc _ ?. lia.
Qed.

Lemma pass_errs P :
  (∀ i instr S, at_ (code context) i = Some instr → stack_at (code context) i S →
    errs P (check S i instr)) →
  errs P (check_code context labels check).
Proof.
  intros Hc. unfold check_code. apply errs_bind; [|done].
  apply (try_fold_errs P _ (λ i S, stack_before (code context) (N.of_nat i) S));
    [apply stack_before_0|].
  intros i p S Hp HS. destruct (pass_step i p S Hp HS) as (instr & S1 & Hi & HSi & _ & ->).
  destruct (pop_loop_ok _ _ _ _ Hi HSi) as (S' & HS' & Hb). split.
  - apply errs_bind; [by apply Hc|]. intros ? _. by rewrite HS'.
  - intros b (? & _ & Hb')%bind_Ok. rewrite HS' in Hb'. injection Hb' as <-.
    by rewrite Nat2N.inj_succ, <- N.add_1_r.
Qed.

Lemma pass_Ok :
  check_code context labels check = Ok tt →
  ∀ i instr, at_ (code context) i = Some instr →
    ∃ S, stack_at (code context) i S ∧ seen_at i S ∧ check S i instr = Ok tt.
Proof.
  unfold check_code. intros (S' & Hf & _)%bind_Ok i instr Hi.
  pose proof (try_fold_each (check_step check)
    (λ i S, stack_before (code context) (N.of_nat i) S ∧ reached i S)
    (λ i, ∀ instr, at_ (code context) (N.of_nat i) = Some instr →
       ∃ S, stack_at (code context) (N.of_nat i) S ∧ seen_at (N.of_nat i) S ∧
         check S (N.of_nat i) instr = Ok tt)
    (zip (enumerate (code context)) labels) [] S' (conj stack_before_0 eq_refl)) as H.
  rewrite <- (N2Nat.id i) in Hi |- *. refine (H _ Hf (N.to_nat i) _ instr Hi).
  - clear Hi. intros j p S b Hp [HS Hr] Hb0.
    pose proof (reached_step j p S b Hp Hr Hb0) as Hr'.
    destruct (pass_step j p S Hp HS) as (x & S1 & Hj & HSj & Hseen & Hstep).
    rewrite Hstep in Hb0. destruct (pop_loop_ok _ _ _ _ Hj HSj) as (S'' & HS'' & Hb).
    apply bind_Ok in Hb0 as ([] & Hc & Hb'). rewrite HS'' in Hb'. injection Hb' as <-. split.
    + split; [by rewrite Nat2N.inj_succ, <- N.add_1_r|done].
    + intros instr' Hi'. rewrite Hj in Hi'. injection Hi' as <-. exists S1. auto.
  - rewrite length_zip_with. unfold enumerate. rewrite length_imap.
    destruct Hl as [Hll _]. apply at_Some_lt in Hi. unfold len in *. lia.
Qed.
End Pass.

Lemma seen_at_fun context labels i S S' :
  seen_at context labels i S → seen_at context labels i S' → S = S'.
Proof.
  unfold seen_at, reached. intros (S0 & l & H1 & H2 & ->) (S0' & l' & H1' & H2' & ->).
  congruence.
Qed.

(** ** Loop depth *)

Definition nsize (X : gset N) : N := N.of_nat (size X).
Lemma nsize_insert (X Y : gset N) n :
  n ∉ X → (∀ k, k ∈ Y ↔ k = n ∨ k ∈ X) → nsize Y = nsize X + 1.
Proof.
  intros Hn HY. replace Y with ({[ n ]} ∪ X) by set_solver.
  unfold nsize. rewrite size_union, size_singleton by set_solver. lia.
Qed.

Section Depth.
Context (code : list Bytecode) (labels : list Label) (Hl : labels_ok code labels).

Lemma elem_of_range n x : x ∈ range n ↔ x < n.
Proof.
  unfold range. rewrite list_elem_of_fmap. split.
  - intros (y & -> & Hy%elem_of_seq). lia.
  - intros H. exists (N.to_nat x). rewrite N2Nat.id, elem_of_seq. split; [done|lia].
Qed.

(** The heads of the loops that satisfy a test *)
Definition loops_where (f : N → N → bool) : gset N :=
  filter (λ k, match at_ labels k with Some (Loop lc) => f k lc | _ => false end = true)
    (list_to_set (range (len labels))).
Lemma elem_of_loops_where f k :
  k ∈ loops_where f ↔ ∃ lc, is_loop code k lc ∧ f k lc = true.
Proof.
  unfold loops_where. rewrite elem_of_filter, elem_of_list_to_set, elem_of_range.
  destruct Hl as [Hll Hlab]. split.
  - intros [H _]. destruct (at_ labels k) as [[lc|]|] eqn:E; [|done..].
    exists lc. by rewrite <- Hlab.
  - intros (lc & Hlc & Hf). pose proof (is_loop_le _ _ _ Hlc).
    apply Hlab in Hlc. rewrite Hlc. split; [done|lia].
Qed.

(** The loops around instruction [n], and those still open just before it *)
Definition loops_at (n : N) : gset N := loops_where (λ k lc, (k <=? n) && (n <=? lc)).
Definition loops_before (n : N) : gset N := loops_where (λ k lc, (k <? n) && (n <=? lc)).

Lemma elem_of_loops_at n k :
  k ∈ loops_at n ↔ ∃ lc, is_loop code k lc ∧ k <= n ∧ n <= lc.
Proof.
  unfold loops_at. rewrite elem_of_loops_where.
  split; intros (lc & H1 & H2); exists lc; (split; [done|lia]).
Qed.
Lemma elem_of_loops_before n k :
  k ∈ loops_before n ↔ ∃ lc, is_loop code k lc ∧ k < n ∧ n <= lc.
Proof.
  unfold loops_before. rewrite elem_of_loops_where.
  split; intros (lc & H1 & H2); exists lc; (split; [done|lia]).
Qed.

Lemma loops_enter n label :
  at_ labels n = Some label →
  nsize (loops_at n) =
  match label with Loop _ => nsize (loops_before n) + 1 | Code => nsize (loops_before n) end.
Proof.
  intros Hn. destruct Hl as [_ Hlab]. destruct label as [lc|].
  - apply Hlab in Hn. pose proof (is_loop_le _ _ _ Hn) as [Hle _]. apply (nsize_insert _ _ n).
    + rewrite elem_of_loops_before. intros (? & ? & ? & _). lia.
    + intros k. rewrite elem_of_loops_at, elem_of_loops_before. split.
      * intros (lc' & Hk & ? & ?). destruct (decide (k = n)); [by left|right].
        exists lc'. split; [done|lia].
      * intros [->|(lc' & Hk & ? & ?)]; [exists lc|exists lc']; (split; [done|lia]).
  - unfold nsize. do 2 f_equal. apply set_eq. intros k.
    rewrite elem_of_loops_at, elem_of_loops_before. split; intros (lc & Hk & ? & ?);
      exists lc; (split; [done|]); [|lia].
    destruct (decide (k = n)) as [->|]; [|lia]. apply Hlab in Hk. congruence.
Qed.

Lemma elem_of_last_continues n :
  n ∈ last_continues labels ↔ ∃ k, is_loop code k n.
Proof.
  unfold last_continues. rewrite elem_of_list_to_set, list_elem_of_omap.
  destruct Hl as [_ Hlab]. setoid_rewrite <- Hlab. unfold at_. split.
  - intros ([lc|] & [k Hk]%list_elem_of_lookup & [= ->]).
    exists (N.of_nat k). by rewrite Nat2N.id.
  - intros (k & Hk). exists (Loop n). split; [|done]. apply list_elem_of_lookup. eauto.
Qed.

Lemma loops_leave n :
  nsize (loops_at n) =
  if bool_decide (n ∈ last_continues labels)
  then nsize (loops_before (n + 1)) + 1 else nsize (loops_before (n + 1)).
Proof.
  case_bool_decide as Hn; rewrite elem_of_last_continues in Hn.
  - destruct Hn as [k Hk]. pose proof (is_loop_le _ _ _ Hk) as [Hle _].
    apply (nsize_insert _ _ k).
    + rewrite elem_of_loops_before. intros (lc & Hlc & _ & ?).
      pose proof (is_loop_fun _ _ _ _ Hk Hlc). lia.
    + intros k'. rewrite elem_of_loops_at, elem_of_loops_before. split.
      * intros (lc & Hlc & ? & ?). destruct (decide (lc = n)) as [->|].
        { left. by eapply is_loop_inj. }
        right. exists lc. split; [done|lia].
      * intros [->|(lc & Hlc & ? & ?)]; [exists n|exists lc]; (split; [done|lia]).
  - unfold nsize. do 2 f_equal. apply set_eq. intros k.
    rewrite elem_of_loops_at, elem_of_loops_before. split; intros (lc & Hk & ? & ?);
      exists lc; (split; [done|]); [|lia].
    destruct (decide (lc = n)) as [->|]; [|lia]. destruct Hn. by exists k.
Qed.

Lemma count_loop_depth_spec :
  len code <= 65536 →
  ∃ counts, count_loop_depth labels = Ok counts ∧
    ∀ n, n < len code → at_ counts n = Some (nsize (loops_at n)).
Proof.
  intros Hlen. unfold count_loop_depth.
  match goal with |- context [try_fold ?f _ _] => destruct (try_fold_enumerate f
    (λ n st, st.1 = nsize (loops_before n) ∧ len st.2 = n ∧
       ∀ m, m < n → at_ st.2 m = Some (nsize (loops_at m))) labels (0, []))
    as (st & Hf & _ & _ & H) end.
  - split_and!; [|done|intros m; lia]. simpl. unfold nsize.
    replace (loops_before 0) with (∅ : gset N); [by rewrite size_empty|].
    symmetry. apply set_eq. intros k. rewrite elem_of_loops_before.
    split; [|set_solver]. intros (? & _ & ? & _). lia.
  - intros n label [count counts] Hn (Hc & Hlc & Hall). cbn [fst snd] in *.
    assert (n < len code) by (destruct Hl as [<- _]; by eapply at_Some_lt).
    rewrite try_into_u16_Ok by lia. cbn [mbind result_bind].
    pose proof (loops_enter n label Hn) as He. rewrite <- Hc in He.
    replace (match label with Loop _ => count + 1 | Code => count end)
      with (nsize (loops_at n)) by (by rewrite He; destruct label).
    pose proof (loops_leave n) as Hleave.
    assert (∀ m, m < n + 1 →
      at_ (counts ++ [nsize (loops_at n)]) m = Some (nsize (loops_at m))) as Hall'.
    { intros m Hm. destruct (decide (m = n)) as [->|].
      - unfold at_. rewrite lookup_app_r by (unfold len in Hlc; lia).
        replace (N.to_nat n - length counts)%nat with 0%nat by (unfold len in Hlc; lia). done.
      - rewrite at_app_l by lia. apply Hall. lia. }
    assert (len (counts ++ [nsize (loops_at n)]) = n + 1) by (rewrite len_app; len_lia).
    repeat case_bool_decide; try done.
    + destruct (N.eqb_spec (nsize (loops_at n)) 0); [lia|].
      eexists; split; [reflexivity|]. cbn [fst snd]. split_and!; [lia|done..].
    + eexists; split; [reflexivity|]. cbn [fst snd]. split_and!; [lia|done..].
  - rewrite Hf. exists (snd st). split; [done|].
    destruct Hl as [<- _]. exact H.
Qed.
End Depth.

(** ** What the three passes establish *)

Section Checks.
Context (context : ControlFlowVerifier) (labels : list Label).
Context (Hlen : len (code context) <= 65536) (Hl : labels_ok (code context) labels).
Notation code := (code context).

(** The outcome of a control-flow check is never a panic. *)
Definition flow_error (e : PartialVMError) : Prop :=
  pe_major_status e ∈ [INVALID_LOOP_CONTINUE; INVALID_LOOP_BREAK; INVALID_LOOP_SPLIT] ∧
  ∃ i instr j, at_ code i = Some instr ∧ offset instr = Some j ∧
    pe_offsets e = [(current_function context, i)].

Lemma error_flow status i instr j :
  status ∈ [INVALID_LOOP_CONTINUE; INVALID_LOOP_BREAK; INVALID_LOOP_SPLIT] →
  at_ code i = Some instr → offset instr = Some j → flow_error (error context status i).
Proof. intros Hs Hi Hj. split; [done|]. by exists i, instr, j. Qed.

Lemma check_continues_errs : errs flow_error (check_continues context labels).
Proof.
  apply pass_errs; [done..|]. intros i instr S Hi HS. rewrite match_jump.
  destruct (offset instr) as [j|] eqn:Ho; [|done]. destruct (N.leb_spec j i); [|done].
  destruct (back_jump_head code i j S) as (top & -> & _); [by exists instr|done|].
  cbn [unwrap mbind result_bind andb]. case_match; [|done].
  eapply error_flow; [set_solver|done..].
Qed.
Lemma check_breaks_errs : errs flow_error (check_breaks context labels).
Proof.
  apply pass_errs; [done..|]. intros i instr S Hi HS. rewrite match_jump.
  destruct (offset instr) as [j|] eqn:Ho; [|done]. case_match; [|done].
  destruct (head S) as [[c lc]|]; [|done]. case_match; [|done].
  eapply error_flow; [set_solver|done..].
Qed.
Lemma check_no_loop_splits_errs :
  branches_in_bounds code → errs flow_error (check_no_loop_splits context labels).
Proof.
  intros Hbr. unfold check_no_loop_splits. cbv zeta.
  destruct (count_loop_depth_spec code labels Hl Hlen) as (depth & -> & Hd).
  cbn [mbind result_bind].
  apply pass_errs; [done..|]. intros i instr S Hi HS. rewrite match_jump.
  pose proof (at_Some_lt _ _ _ Hi) as Hlt.
  destruct (offset instr) as [j|] eqn:Ho; [|done]. case_match; [|done].
  pose proof (Forall_lookup_1 _ _ _ _ Hbr Hi j Ho) as Hj.
  rewrite (Hd i Hlt), (Hd j Hj). cbn [unwrap mbind result_bind].
  destruct (at_lt labels j) as [label Hlab]; [by destruct Hl as [-> _]|].
  rewrite Hlab. cbn [unwrap mbind result_bind].
  pose proof (loops_enter code labels Hl j label Hlab) as He. destruct label.
  - destruct (N.eqb_spec (nsize (loops_at labels j)) 0); [lia|]. cbn [mbind result_bind].
    match goal with |- errs _ (if ?b then _ else _) => destruct b end; [|done]. eapply error_flow; [set_solver|done..].
  - cbn [mbind result_bind]. match goal with |- errs _ (if ?b then _ else _) => destruct b end; [|done]. eapply error_flow; [set_solver|done..].
Qed.

Lemma check_continues_Ok :
  check_continues context labels = Ok tt → ∀ i j, back_jump code i j →
  ∃ S top, stack_at code i S ∧ head S = Some top ∧ top.1 = j.
Proof.
  intros Hc i j Hb. pose proof Hb as (instr & Hi & Ho & Hle).
  destruct (pass_Ok _ _ _ Hlen Hl Hc i instr Hi) as (S & HS & _ & Hck).
  rewrite match_jump, Ho in Hck. destruct (N.leb_spec j i); [|lia].
  destruct (back_jump_head code i j S Hb HS) as (top & Htop & _).
  exists S, top. split_and!; [done..|]. rewrite Htop in Hck.
  cbn [unwrap mbind result_bind andb] in Hck.
  match type of Hck with context [?a =? ?b] => destruct (N.eqb_spec a b) end; [done|].
  discriminate.
Qed.

Lemma check_continues_nested : check_continues context labels = Ok tt → well_nested code.
Proof.
  intros Hc k1 lc1 k2 lc2 H1 H2 Hlt Hle. destruct (N.le_gt_cases lc2 lc1) as [|Hgt]; [done|].
  destruct (check_continues_Ok Hc lc1 k1 (proj1 H1)) as (S & top & HS & Htop & Hk).
  destruct (stack_head code lc1 S k2 lc2 HS) as (top' & Htop' & ?).
  { destruct HS as (_ & _ & Hall). apply Hall; [done|lia|lia]. }
  rewrite Htop in Htop'. injection Htop' as <-. lia.
Qed.

Lemma check_breaks_Ok :
  check_breaks context labels = Ok tt → ∀ i j, forward_jump code i j →
  ∃ S, stack_at code i S ∧ seen_at context labels i S ∧ ∀ c lc, head S = Some (c, lc) → lc < j → j = lc + 1.
Proof.
  intros Hc i j (instr & Hi & Ho & Hlt).
  destruct (pass_Ok _ _ _ Hlen Hl Hc i instr Hi) as (S & HS & Hseen & Hck).
  exists S. split; [done|]. split; [done|]. intros c lc HcS Hlcj.
  rewrite match_jump, Ho, HcS in Hck. destruct (N.ltb_spec i j); [|lia].
  destruct (N.ltb_spec lc j); [|lia]. destruct (N.eqb_spec j (lc + 1)); [done|discriminate].
Qed.

(** The loops around the target of a jump, without the one it heads *)
Definition loops_into (j : N) : gset N := loops_at labels j ∖ {[ j ]}.

Lemma nsize_loops_into j label :
  at_ labels j = Some label →
  nsize (loops_into j) =
  match label with Loop _ => nsize (loops_at labels j) - 1 | Code => nsize (loops_at labels j) end.
Proof.
  intros Hj. destruct Hl as [_ Hlab]. destruct label as [lc|].
  - apply Hlab in Hj. pose proof (is_loop_le _ _ _ Hj) as [Hle _].
    rewrite (nsize_insert (loops_into j) (loops_at labels j) j); [lia|set_solver|].
    intros k. unfold loops_into. rewrite elem_of_difference, elem_of_singleton.
    destruct (decide (k = j)) as [->|]; [|naive_solver].
    split; [auto|]. intros _. apply (elem_of_loops_at code labels Hl). exists lc.
    split; [done|lia].
  - unfold loops_into. f_equal. apply set_eq. intros k.
    rewrite elem_of_difference, elem_of_singleton. split; [naive_solver|].
    intros Hk. split; [done|]. intros ->.
    apply (elem_of_loops_at code labels Hl) in Hk as (lc & Hk & _).
    apply Hlab in Hk. congruence.
Qed.

Lemma check_splits_Ok :
  check_no_loop_splits context labels = Ok tt → ∀ i j, forward_jump code i j →
  ∃ S, stack_at code i S ∧ seen_at context labels i S ∧
    ((∃ c lc, head S = Some (c, lc) ∧ lc < j) ∨
     nsize (loops_at labels i) = nsize (loops_into j)).
Proof.
  unfold check_no_loop_splits. cbv zeta.
  destruct (count_loop_depth_spec code labels Hl Hlen) as (depth & -> & Hd).
  cbn [mbind result_bind]. intros Hc i j (instr & Hi & Ho & Hlt).
  destruct (pass_Ok _ _ _ Hlen Hl Hc i instr Hi) as (S & HS & Hseen & Hck).
  exists S. split; [done|]. split; [done|]. pose proof (at_Some_lt _ _ _ Hi) as Hilt.
  rewrite match_jump, Ho in Hck. destruct (N.ltb_spec i j); [|lia]. cbn [andb] in Hck.
  destruct (match head S with Some (_, lc) => lc <? j | None => false end) eqn:Hbreak.
  { left. destruct (head S) as [[c lc]|]; [|done]. exists c, lc. split; [done|lia]. }
  right. cbn [negb] in Hck. rewrite (Hd i Hilt) in Hck. cbn [unwrap mbind result_bind] in Hck.
  destruct (at_ labels j) as [label|] eqn:Hlab; [|discriminate].
  assert (j < len code) as Hj by (destruct Hl as [<- _]; by eapply at_Some_lt).
  cbn [unwrap mbind result_bind] in Hck. rewrite (Hd j Hj) in Hck.
  rewrite (nsize_loops_into j label Hlab). destruct label; cbn [unwrap mbind result_bind] in Hck.
  - destruct (nsize (loops_at labels j) =? 0); [discriminate|]. cbn [mbind result_bind] in Hck.
    match type of Hck with context [?a =? ?b] => destruct (N.eqb_spec a b) end; [done|discriminate].
  - match type of Hck with context [?a =? ?b] => destruct (N.eqb_spec a b) end; [done|discriminate].
Qed.

Lemma break_dec (S : LoopStack) (j : N) :
  {∃ c l, head S = Some (c, l) ∧ l < j} + {¬ ∃ c l, head S = Some (c, l) ∧ l < j}.
Proof.
  destruct (head S) as [[c l]|]; [|right; by intros (? & ? & ? & _)].
  destruct (decide (l < j)); [left; eauto|right]. intros (? & ? & [= -> ->] & ?). done.
Qed.

(** When the innermost open loop reaches the target, so do all the others. *)
Lemma loops_at_into i j S :
  well_nested code → stack_at code i S → i < j →
  (∀ c lc, head S = Some (c, lc) → j <= lc) →
  loops_at labels i ⊆ loops_into j.
Proof.
  intros Hwn HS Hlt Htop k Hk. apply (elem_of_loops_at code labels Hl) in Hk as (lck & Hk & H1 & H2).
  unfold loops_into. rewrite elem_of_difference, elem_of_singleton.
  split; [|lia]. apply (elem_of_loops_at code labels Hl). exists lck. split; [done|]. split; [lia|].
  pose proof HS as (_ & Hin & Hall).
  destruct (stack_head code i S k lck HS) as ([c lc] & Hh & Hc); [by apply Hall|].
  simpl in Hc. specialize (Htop c lc Hh).
  destruct S as [|t S]; [done|]. injection Hh as ->.
  destruct (Hin c lc) as [Hloop Hci]; [by left|].
  destruct (decide (k = c)) as [->|].
  - by rewrite (is_loop_fun _ _ _ _ Hk Hloop).
  - enough (lc <= lck) by lia. apply (Hwn k lck c lc); [done..|lia|lia].
Qed.

Lemma forward_single_entry i j k lc :
  well_nested code →
  check_breaks context labels = Ok tt → check_no_loop_splits context labels = Ok tt →
  forward_jump code i j → is_loop code k lc → k < j → j <= lc → k <= i ∧ i <= lc.
Proof.
  intros Hwn Hbr Hsp Hf Hk H1 H2. assert (i < j) as Hij by (by destruct Hf as (_ & _ & _ & ?)).
  split; [|lia]. destruct (N.le_gt_cases k i) as [|Hki]; [done|exfalso].
  destruct (check_splits_Ok Hsp i j Hf) as (S & HS & Hs & Hcase).
  destruct (check_breaks_Ok Hbr i j Hf) as (S' & _ & Hs' & Hb).
  rewrite (seen_at_fun _ _ _ _ _ Hs' Hs) in Hb. clear S' Hs'.
  destruct (break_dec S j) as [(c & l & Hh & Hlt)|Hno].
  - pose proof (Hb c l Hh Hlt) as ->. destruct HS as (_ & Hin & _).
    destruct (Hin c l) as [Hloop Hc].
    { destruct S; [done|]. injection Hh as ->. by left. }
    pose proof (Hwn c l k lc Hloop Hk). lia.
  - destruct Hcase as [?|Heq]; [done|].
    assert (loops_at labels i ⊆ loops_into j) as Hsub.
    { apply (loops_at_into i j S); [done..|]. intros c l Hh.
      destruct (N.le_gt_cases j l); [done|]. destruct Hno. eauto. }
    apply set_subseteq_size_equiv in Hsub; [|unfold nsize in Heq; lia].
    assert (k ∈ loops_into j) as Hkj.
    { unfold loops_into. rewrite elem_of_difference, elem_of_singleton. split; [|lia].
      apply (elem_of_loops_at code labels Hl). exists lc. split; [done|lia]. }
    apply Hsub, (elem_of_loops_at code labels Hl) in Hkj as (? & _ & ? & _). lia.
Qed.
End Checks.

(** ** The verifier *)

(** What an error of [verify] says: the code is empty, its last instruction does
    not end it, or a jump breaks the structure of the loops. *)
Definition control_flow_error (f : FunctionDefinitionIndex) (c : CodeUnit) (e : PartialVMError)
  : Prop :=
  (cu_code c = [] ∧ pe_major_status e = EMPTY_CODE_UNIT) ∨
  (∃ l, last (cu_code c) = Some l ∧ is_unconditional_branch l = false ∧
     pe_major_status e = INVALID_FALL_THROUGH ∧
     pe_offsets e = [(f, wrap 16 (len (cu_code c) - 1))]) ∨
  flow_error {| current_function := f; code := cu_code c |} e.

Lemma verify_errs f c :
  len (cu_code c) <= 65536 → branches_in_bounds (cu_code c) →
  errs (control_flow_error (default 0 f) c) (verify f c).
Proof.
  intros Hn Hbr. unfold verify. cbv zeta. apply errs_bind; [|intros _ _].
  { destruct (last (cu_code c)) as [l|] eqn:Hlast.
    - destruct (is_unconditional_branch l) eqn:Hu; [done|]. right; left. by exists l.
    - left. by apply last_None in Hlast. }
  destruct (instruction_labels_spec {| current_function := default 0 f; code := cu_code c |})
    as (labels & -> & Hl); [done|]. cbn [mbind result_bind]. unfold check_jumps.
  apply errs_bind; [|intros _ _; apply errs_bind; [|intros _ _]].
  - eapply errs_weaken; [by apply check_continues_errs|]. intros e He. by right; right.
  - eapply errs_weaken; [by apply check_breaks_errs|]. intros e He. by right; right.
  - eapply errs_weaken; [by apply check_no_loop_splits_errs|]. intros e He. by right; right.
Qed.

(** On code whose branches stay inside it the control-flow verifier never panics,
    although it indexes labels, unwraps the loop stack and decrements counters, and its
    errors are an empty body, a fall-through at the last instruction, or a jump of the
    code that they name. *)
Theorem control_flow_verify_total (f : option FunctionDefinitionIndex) (c : CodeUnit) :
  len (cu_code c) <= u16_MAX + 1 → branches_in_bounds (cu_code c) →
  no_panic (verify f c) ∧
  ∀ e, verify f c = Err e → control_flow_error (default 0 f) c e.
Proof.
  intros Hn Hbr. pose proof (verify_errs f c Hn Hbr) as H. split; [by eapply errs_no_panic|].
  intros e He. by rewrite He in H.
Qed.

Definition loop_code : list Bytecode :=
  [LdTrue; BrFalse 4; Nop; Branch 0; Ret].
Definition split_code : list Bytecode :=
  [LdTrue; BrTrue 3; Nop; LdTrue; BrFalse 2; Ret].

Lemma split_code_in_bounds : branches_in_bounds split_code.
Proof. repeat constructor; intros ? [= <-]; by vm_compute. Qed.

Lemma control_flow_verify_total_witness :
  ∃ e, verify None {| cu_locals := 0; cu_code := split_code |} = Err e ∧
    control_flow_error 0 {| cu_locals := 0; cu_code := split_code |} e.
Proof.
  eexists. split; [vm_compute; reflexivity|].
  apply (control_flow_verify_total None {| cu_locals := 0; cu_code := split_code |});
    [by vm_compute|exact split_code_in_bounds|vm_compute; reflexivity].
Defined.

Lemma verify_structured (f : option FunctionDefinitionIndex) (c : CodeUnit) :
  len (cu_code c) <= u16_MAX + 1 →
  verify f c = Ok tt →
  (∃ l, last (cu_code c) = Some l ∧ is_unconditional_branch l = true) ∧
  well_nested (cu_code c) ∧ single_entry (cu_code c).
Proof.
  intros Hn. unfold verify. cbv zeta. intros ([] & Hlast & H)%bind_Ok.
  set (ctx := {| current_function := default 0 f; code := cu_code c |}) in *.
  destruct (instruction_labels_spec ctx) as (labels & Hi & Hl); [exact Hn|]. rewrite Hi in H. cbn [mbind result_bind] in H.
  unfold check_jumps in H. apply bind_Ok in H as ([] & Hc & H).
  apply bind_Ok in H as ([] & Hbr & Hsp).
  assert (well_nested (cu_code c)) as Hwn
    by (by apply (check_continues_nested ctx labels Hn Hl Hc)).
  split_and!; [|done|].
  - destruct (last (cu_code c)) as [l|]; [|done].
    destruct (is_unconditional_branch l) eqn:Hu; [eauto|done].
  - intros i j k lc (instr & Hi' & [Ho|[_ ->]]) Hk H1 H2; [|lia].
    destruct (N.le_gt_cases j i) as [Hle|Hlt].
    + destruct (loop_of_back_jump (cu_code c) i j) as (lcj & Hj & ?); [by exists instr|].
      pose proof (Hwn k lc j lcj Hk Hj H1 H2). lia.
    + apply (forward_single_entry ctx labels Hn Hl i j); try done. by exists instr.
Qed.

(** C14. Code that the control-flow verifier accepts ends in an unconditional branch, its
    loops (from the target of a backward jump to the last jump back to it) are nested or
    apart, and control passes into the inside of a loop only from within the loop, so a
    loop is entered only at its head. *)
Theorem control_flow_verify_structured (f : option FunctionDefinitionIndex) (c : CodeUnit) :
  len (cu_code c) <= u16_MAX + 1 →
  verify f c = Ok tt →
  (∃ l, last (cu_code c) = Some l ∧ is_unconditional_branch l = true) ∧
  well_nested (cu_code c) ∧ single_entry (cu_code c).
Proof. apply verify_structured. Qed.

Lemma control_flow_verify_structured_witness :
  single_entry loop_code ∧ is_loop loop_code 0 3.
Proof.
  split.
  - apply (control_flow_verify_structured None {| cu_locals := 0; cu_code := loop_code |});
      by vm_compute.
  - split; [by exists (Branch 0)|].
    intros i (instr & Hi & Ho & _). pose proof (at_Some_lt _ _ _ Hi) as Hlt.
    change (len loop_code) with 5 in Hlt. destruct (decide (i = 4)) as [->|]; [|lia].
    injection Hi as <-. discriminate.
Defined.
