(* ===== verification/StackUsage.v ===== *)
(** * StackUsage: the verifier of the operand stack

    Models [FunctionView] of [language/move-binary-format/src/binary_views.rs] and
    [language/bytecode-verifier/src/stack_usage_verifier.rs].  The height of the
    stack is a [u64] that the code increments without a check: [overflow_checks]
    says whether the build panics on overflow or wraps. *)

From stdpp Require Import sorting.
From S2P Require Import Prelude CoreTypes VmStatus Abilities FileFormat Errors Views BoundsChecker ControlFlowGraph ControlFlow.

Import Bytecode.

(** ** [pub struct FunctionView] *)

Record FunctionView : Set := {
  fv_index : option FunctionDefinitionIndex;
  fv_code : CodeUnit;
  fv_parameters : Signature;
  fv_return : Signature;
  fv_locals : Signature;
  fv_type_parameters : list AbilitySet;
  fv_cfg : VMControlFlowGraph }.

Definition EMPTY_SIGNATURE : Signature := [].

(** [FunctionView::function] *)
Definition function (module : CompiledModule) (index : FunctionDefinitionIndex)
    (code : CodeUnit) (function_handle : FunctionHandle) : result StatusCode FunctionView :=
  parameters ← signature_at (VModule module) (fh_parameters function_handle);
  return_ ← signature_at (VModule module) (fh_return function_handle);
  locals ← signature_at (VModule module) (cu_locals code);
  cfg ← VMControlFlowGraph_new (cu_code code);
  Ok {| fv_index := Some index; fv_code := code; fv_parameters := parameters;
        fv_return := return_; fv_locals := locals;
        fv_type_parameters := fh_type_parameters function_handle; fv_cfg := cfg |}.

(** [FunctionView::script] *)
Definition script (script : CompiledScript) : result StatusCode FunctionView :=
  let code := s_code script in
  parameters ← signature_at (VScript script) (s_parameters script);
  locals ← signature_at (VScript script) (cu_locals code);
  let type_parameters := s_type_parameters script in
  cfg ← VMControlFlowGraph_new (cu_code code);
  Ok {| fv_index := None; fv_code := code; fv_parameters := parameters;
        fv_return := EMPTY_SIGNATURE; fv_locals := locals;
        fv_type_parameters := type_parameters; fv_cfg := cfg |}.

(** ** [pub(crate) struct StackUsageVerifier] *)

Record StackUsageVerifier : Set := {
  resolver : BinaryIndexedView;
  current_function_opt : option FunctionDefinitionIndex;
  code : CodeUnit;
  return_ : Signature }.

(** [StackUsageVerifier::current_function] *)
Definition current_function (self : StackUsageVerifier) : FunctionDefinitionIndex :=
  default 0 (current_function_opt self).

(** [match &struct_definition.field_information { .. }], [as u64] *)
Definition field_count (struct_definition : StructDefinition) : u64 :=
  match sd_field_information struct_definition with
  | Native => 0
  | Declared fields => len fields
  end.

(** The pops and pushes of a call through the given handle *)
Definition call_effect (resolver : BinaryIndexedView) (function_handle : FunctionHandle)
  : result StatusCode (u64 * u64) :=
  parameters ← signature_at resolver (fh_parameters function_handle);
  return_ ← signature_at resolver (fh_return function_handle);
  Ok (len parameters, len return_).

Definition instruction_effect (self : StackUsageVerifier) (instruction : Bytecode)
  : result StatusCode (u64 * u64) :=
  match instruction with
  | Pop | BrTrue _ | BrFalse _ | StLoc _ | Abort => Ok (1, 0)
  | LdU8 _ | LdU64 _ | LdU128 _ | LdTrue | LdFalse | LdConst _ | CopyLoc _ | MoveLoc _
  | MutBorrowLoc _ | ImmBorrowLoc _ => Ok (0, 1)
  | Not | FreezeRef | ReadRef | Exists _ | ExistsGeneric _ | MutBorrowGlobal _
  | MutBorrowGlobalGeneric _ | ImmBorrowGlobal _ | ImmBorrowGlobalGeneric _
  | MutBorrowField _ | MutBorrowFieldGeneric _ | ImmBorrowField _ | ImmBorrowFieldGeneric _
  | MoveFrom _ | MoveFromGeneric _ | CastU8 | CastU64 | CastU128 | VecLen _ | VecPopBack _ =>
      Ok (1, 1)
  | Add | Sub | Mul | Mod | Div | BitOr | BitAnd | Xor | Shl | Shr | Or | And | Eq | Neq
  | Lt | Gt | Le | Ge => Ok (2, 1)
  | VecPack _ num => Ok (num, 1)
  | VecUnpack _ num => Ok (1, num)
  | VecImmBorrow _ | VecMutBorrow _ => Ok (2, 1)
  | MoveTo _ | MoveToGeneric _ | WriteRef | VecPushBack _ => Ok (2, 0)
  | VecSwap _ => Ok (3, 0)
  | Branch _ | Nop => Ok (0, 0)
  | Ret => Ok (len (return_ self), 0)
  | Call idx =>
      function_handle ← function_handle_at (resolver self) idx;
      call_effect (resolver self) function_handle
  | CallGeneric idx =>
      func_inst ← function_instantiation_at (resolver self) idx;
      function_handle ← function_handle_at (resolver self) (fi_handle func_inst);
      call_effect (resolver self) function_handle
  | Pack idx =>
      struct_definition ← struct_def_at (resolver self) idx;
      Ok (field_count struct_definition, 1)
  | PackGeneric idx =>
      struct_inst ← struct_instantiation_at (resolver self) idx;
      struct_definition ← struct_def_at (resolver self) (sdi_def struct_inst);
      Ok (field_count struct_definition, 1)
  | Unpack idx =>
      struct_definition ← struct_def_at (resolver self) idx;
      Ok (1, field_count struct_definition)
  | UnpackGeneric idx =>
      struct_inst ← struct_instantiation_at (resolver self) idx;
      struct_definition ← struct_def_at (resolver self) (sdi_def struct_inst);
      Ok (1, field_count struct_definition)
  end.

(** [a + b] on [u64] *)
Definition add_u64 {E} (overflow_checks : bool) (a b : u64) : result E u64 :=
  if a + b <=? u64_MAX then Ok (a + b)
  else if overflow_checks then Panic else Ok (wrap 64 (a + b)).

(** The body of the loop of [verify_block] *)
Definition verify_instruction (overflow_checks : bool) (self : StackUsageVerifier)
    (block_start : CodeOffset) (stack_size_increment : u64) (i : N)
  : result PartialVMError u64 :=
  instruction ← unwrap (at_ (cu_code (code self)) i);
  effect ← map_err PartialVMError_new (instruction_effect self instruction);
  let '(num_pops, num_pushes) := effect in
  if stack_size_increment <? num_pops
  then Err (at_code_offset (PartialVMError_new NEGATIVE_STACK_SIZE_WITHIN_BLOCK)
              (current_function self) block_start)
  else add_u64 overflow_checks (stack_size_increment - num_pops) num_pushes.

Definition verify_block (overflow_checks : bool) (self : StackUsageVerifier)
    (cfg : VMControlFlowGraph) (block_id : BlockId) : result PartialVMError unit :=
  block_start ← block_start cfg block_id;
  block_end ← block_end cfg block_id;
  stack_size_increment ← try_fold (verify_instruction overflow_checks self block_start)
                            (range_inclusive block_start block_end) 0;
  if stack_size_increment =? 0 then Ok tt
  else Err (at_code_offset (PartialVMError_new POSITIVE_STACK_SIZE_AT_BLOCK_END)
              (current_function self) block_start).

(** [StackUsageVerifier::verify] *)
Definition verifier_of (resolver : BinaryIndexedView) (function_view : FunctionView)
  : StackUsageVerifier :=
  {| resolver := resolver; current_function_opt := fv_index function_view;
     code := fv_code function_view; return_ := fv_return function_view |}.
Definition verify (overflow_checks : bool) (resolver : BinaryIndexedView)
    (function_view : FunctionView) : result PartialVMError unit :=
  let verifier := verifier_of resolver function_view in
  for_each (verify_block overflow_checks verifier (fv_cfg function_view))
    (blocks (fv_cfg function_view)).

(** ** Specification: the height of the stack as a natural number *)

Section Run.
Context (self : StackUsageVerifier).

Definition effect_at (pc : N) : option (N * N) :=
  i ← at_ (cu_code (code self)) pc;
  match instruction_effect self i with Ok e => Some e | _ => None end.

(** The height after [n] instructions from [pc]; [None] if one of them lacks
    operands *)
Fixpoint run (n : nat) (pc h : N) : option N :=
  match n with
  | O => Some h
  | S n =>
      '(num_pops, num_pushes) ← effect_at pc;
      if h <? num_pops then None else run n (pc + 1) (h - num_pops + num_pushes)
  end.

(** The pushes of [n] instructions from [pc] *)
Fixpoint pushes (n : nat) (pc : N) : N :=
  match n with
  | O => 0
  | S n => match effect_at pc with Some (_, p) => p | None => 0 end + pushes n (pc + 1)
  end.

Definition block_len (b : BlockId) (bb : BasicBlock) : nat := N.to_nat (bb_exit bb + 1 - b).

(** A block finds its operands and leaves the height as it was. *)
Definition balanced (b : BlockId) (bb : BasicBlock) : Prop := run (block_len b bb) b 0 = Some 0.

(** What execution may do: reach instruction [pc] with [h] operands on the stack *)
Inductive reach : N → N → Prop :=
| reach_start : reach 0 0
| reach_step pc h i num_pops num_pushes pc' :
    reach pc h → at_ (cu_code (code self)) pc = Some i →
    instruction_effect self i = Ok (num_pops, num_pushes) → num_pops <= h →
    passes_to i pc pc' →
    reach pc' (h - num_pops + num_pushes).
End Run.

(** ** The verifier computes the heights *)

Section Verify.
Context (self : StackUsageVerifier) (overflow_checks : bool) (s : CodeOffset).

Lemma verify_instruction_spec h i h' :
  (overflow_checks = true ∨
   ∀ num_pops num_pushes, effect_at self i = Some (num_pops, num_pushes) →
     h + num_pushes <= u64_MAX) →
  verify_instruction overflow_checks self s h i = Ok h' →
  ∃ num_pops num_pushes, effect_at self i = Some (num_pops, num_pushes) ∧
    num_pops <= h ∧ h' = h - num_pops + num_pushes.
Proof.
  intros Hfit H. unfold verify_instruction in H. unfold effect_at in *.
  apply bind_Ok in H as (instr & Hi & H). destruct (at_ _ i) as [x|]; [|done].
  injection Hi as ->. cbn [mbind option_bind] in *.
  apply bind_Ok in H as ([pops pshs] & He & H). apply map_err_Ok in He. rewrite He in *.
  destruct (N.ltb_spec h pops) as [|Hle]; [done|]. exists pops, pshs. split_and!; [done..|].
  unfold add_u64 in H. destruct (N.leb_spec (h - pops + pshs) u64_MAX) as [|Hov]; [naive_solver|].
  destruct Hfit as [->|Hfit]; [done|]. specialize (Hfit _ _ eq_refl). lia.
Qed.

Lemma verify_instruction_Ok h i num_pops num_pushes :
  effect_at self i = Some (num_pops, num_pushes) → num_pops <= h →
  h + num_pushes <= u64_MAX →
  verify_instruction overflow_checks self s h i = Ok (h - num_pops + num_pushes).
Proof.
  intros He Hle Hfit. unfold effect_at in He. unfold verify_instruction.
  destruct (at_ _ i) as [x|]; [|done]. cbn in He. cbn [unwrap mbind result_bind].
  destruct (instruction_effect self x) as [e| | |]; [|done..]. injection He as ->.
  cbn [map_err mbind result_bind]. destruct (N.ltb_spec h num_pops); [lia|].
  unfold add_u64. by destruct (N.leb_spec (h - num_pops + num_pushes) u64_MAX); [|lia].
Qed.

Lemma verify_loop_run n lo h h' :
  overflow_checks = true ∨ h + pushes self n (N.of_nat lo) <= u64_MAX →
  try_fold (verify_instruction overflow_checks self s) (N.of_nat <$> seq lo n) h = Ok h' →
  run self n (N.of_nat lo) h = Some h'.
Proof.
  revert lo h; induction n as [|n IH]; intros lo h Hfit.
  { intros [= ->]. done. }
  cbn [seq fmap list_fmap try_fold run pushes] in *. intros (h1 & H1 & H)%bind_Ok.
  apply verify_instruction_spec in H1 as (pops & pshs & He & Hle & ->).
  - rewrite He in *. cbn [mbind option_bind]. destruct (N.ltb_spec h pops); [lia|].
    replace (N.of_nat lo + 1) with (N.of_nat (S lo)) by lia.
    apply IH; [|done]. destruct Hfit as [|Hfit]; [by left|right].
    replace (N.of_nat (S lo)) with (N.of_nat lo + 1) by lia. lia.
  - destruct Hfit as [|Hfit]; [by left|right]. intros pops pshs He. rewrite He in Hfit. lia.
Qed.

Lemma run_verify_loop n lo h h' :
  h + pushes self n (N.of_nat lo) <= u64_MAX →
  run self n (N.of_nat lo) h = Some h' →
  try_fold (verify_instruction overflow_checks self s) (N.of_nat <$> seq lo n) h = Ok h'.
Proof.
  revert lo h; induction n as [|n IH]; intros lo h Hfit.
  { intros [= ->]. done. }
  cbn [seq fmap list_fmap try_fold run pushes] in *.
  destruct (effect_at self (N.of_nat lo)) as [[pops pshs]|] eqn:He; [|done].
  cbn [mbind option_bind]. destruct (N.ltb_spec h pops) as [|Hle]; [done|]. intros H.
  rewrite (verify_instruction_Ok _ _ pops pshs He) by lia. cbn [mbind result_bind].
  replace (N.of_nat lo + 1) with (N.of_nat (S lo)) in * by lia.
  apply IH; [lia|done].
Qed.
End Verify.

(** Every block pushes at most [u64::MAX] values in all. *)
Definition pushes_fit (self : StackUsageVerifier) (cfg : VMControlFlowGraph) : Prop :=
  ∀ b bb, cfg_blocks cfg !! b = Some bb → pushes self (block_len b bb) b <= u64_MAX.

(** What the graph of a piece of code has: blocks start at their key. *)
Definition entries_ok (cfg : VMControlFlowGraph) : Prop :=
  ∀ b bb, cfg_blocks cfg !! b = Some bb → bb_entry bb = b.

Lemma verify_block_balanced overflow_checks self cfg (b : BlockId) bb :
  cfg_blocks cfg !! b = Some bb → bb_entry bb = b →
  overflow_checks = true ∨ pushes self (block_len b bb) b <= u64_MAX →
  verify_block overflow_checks self cfg b = Ok tt → balanced self b bb.
Proof.
  intros Hb He Hfit H. unfold verify_block, block_start, block_end in H. rewrite Hb in H.
  cbn [unwrap mbind result_bind] in H. rewrite He in H. apply bind_Ok in H as (h & H & Hz).
  unfold range_inclusive in H.
  apply verify_loop_run in H; [|by rewrite N2Nat.id]. rewrite N2Nat.id in H.
  destruct (N.eqb_spec h 0) as [->|]; done.
Qed.
Lemma balanced_verify_block overflow_checks self cfg (b : BlockId) bb :
  cfg_blocks cfg !! b = Some bb → bb_entry bb = b →
  pushes self (block_len b bb) b <= u64_MAX →
  balanced self b bb → verify_block overflow_checks self cfg b = Ok tt.
Proof.
  intros Hb He Hfit H. unfold verify_block, block_start, block_end. rewrite Hb.
  cbn [unwrap mbind result_bind]. rewrite He. unfold range_inclusive.
  rewrite (run_verify_loop self overflow_checks b _ (N.to_nat b) 0 0); [done|..];
    by rewrite N2Nat.id.
Qed.

Lemma elem_of_blocks cfg b : b ∈ blocks cfg ↔ is_Some (cfg_blocks cfg !! b).
Proof.
  unfold blocks. rewrite merge_sort_Permutation, list_elem_of_fmap. split.
  - intros ([b' bb] & -> & H%elem_of_map_to_list). eauto.
  - intros [bb H]. exists (b, bb). by rewrite elem_of_map_to_list.
Qed.

Lemma verify_spec overflow_checks resolver fv :
  entries_ok (fv_cfg fv) → pushes_fit (verifier_of resolver fv) (fv_cfg fv) →
  verify overflow_checks resolver fv = Ok tt ↔
  ∀ b bb, cfg_blocks (fv_cfg fv) !! b = Some bb → balanced (verifier_of resolver fv) b bb.
Proof.
  intros He Hf. unfold verify. cbv zeta. rewrite for_each_Ok, Forall_forall.
  setoid_rewrite elem_of_blocks. split.
  - intros H b bb Hb. eapply verify_block_balanced; eauto.
  - intros H b [bb Hb]. eapply balanced_verify_block; eauto.
Qed.

(** When no block pushes more than u64::MAX values, the stack-usage verifier, with or
    without overflow checks in the build, accepts a function exactly when every block, run
    on natural-number heights, finds its operands and ends at the height it started with. *)
Theorem stack_usage_verify_spec (overflow_checks : bool) (resolver : BinaryIndexedView)
    (fv : FunctionView) :
  entries_ok (fv_cfg fv) → pushes_fit (verifier_of resolver fv) (fv_cfg fv) →
  verify overflow_checks resolver fv = Ok tt ↔
  ∀ b bb, cfg_blocks (fv_cfg fv) !! b = Some bb → balanced (verifier_of resolver fv) b bb.
Proof. apply verify_spec. Qed.

(** ** Balanced blocks make execution safe *)

(** One instruction on a height *)
Definition apply_effect (self : StackUsageVerifier) (pc h : N) : option N :=
  '(num_pops, num_pushes) ← effect_at self pc;
  if h <? num_pops then None else Some (h - num_pops + num_pushes).

Lemma run_S self n pc h :
  run self (S n) pc h =
  '(num_pops, num_pushes) ← effect_at self pc;
  if h <? num_pops then None else run self n (pc + 1) (h - num_pops + num_pushes).
Proof. done. Qed.

Lemma run_snoc self n pc h :
  run self (S n) pc h = run self n pc h ≫= apply_effect self (pc + N.of_nat n).
Proof.
  revert pc h; induction n as [|n IH]; intros pc h.
  - cbn [run mbind option_bind]. by rewrite N.add_0_r.
  - rewrite (run_S self (S n)), (run_S self n).
    destruct (effect_at self pc) as [[pops pshs]|]; [|done].
    cbn [mbind option_bind]. destruct (h <? pops); [done|]. rewrite IH.
    by replace (pc + 1 + N.of_nat n) with (pc + N.of_nat (S n)) by lia.
Qed.

Section Safety.
Context (self : StackUsageVerifier) (cfg : VMControlFlowGraph).
Notation instrs := (cu_code (code self)).
Context (Hlen : len instrs <= 65534) (Hcfg : cfg_ok instrs cfg).
Context (Hbal : ∀ b bb, cfg_blocks cfg !! b = Some bb → balanced self b bb).

(** The height that the block of [pc] gives it *)
Definition height_at (pc h : N) : Prop :=
  ∃ b bb, cfg_blocks cfg !! b = Some bb ∧ b <= pc ∧ pc <= bb_exit bb ∧
    run self (N.to_nat (pc - b)) b 0 = Some h.

Lemma height_at_fun pc h h' : height_at pc h → height_at pc h' → h = h'.
Proof.
  intros (b & bb & Hb & H1 & H2 & Hr) (b' & bb' & Hb' & H1' & H2' & Hr').
  assert (b' = b) as -> by (by apply (co_disjoint _ _ Hcfg b' b bb' bb pc)).
  congruence.
Qed.

(** A prefix of a run that succeeds succeeds. *)
Lemma run_prefix n m pc h h' :
  (m <= n)%nat → run self n pc h = Some h' → is_Some (run self m pc h).
Proof.
  intros Hle. revert h'. induction Hle as [|n Hle IH]; intros h' H; [eauto|].
  rewrite run_snoc in H. destruct (run self n pc h); [eauto|done].
Qed.

Lemma height_at_effect pc h :
  height_at pc h →
  ∃ num_pops num_pushes, effect_at self pc = Some (num_pops, num_pushes) ∧ num_pops <= h ∧
    ∃ b bb, cfg_blocks cfg !! b = Some bb ∧ b <= pc ∧ pc <= bb_exit bb ∧
      run self (N.to_nat (pc + 1 - b)) b 0 = Some (h - num_pops + num_pushes) ∧
      (pc = bb_exit bb → h - num_pops + num_pushes = 0).
Proof.
  intros (b & bb & Hb & H1 & H2 & Hr). pose proof (Hbal b bb Hb) as Hbb.
  unfold balanced, block_len in Hbb.
  destruct (run_prefix (N.to_nat (bb_exit bb + 1 - b)) (N.to_nat (pc + 1 - b)) b 0 0)
    as [h1 H]; [lia|done|].
  pose proof H as Hs. replace (N.to_nat (pc + 1 - b)) with (S (N.to_nat (pc - b))) in Hs by lia.
  rewrite run_snoc, Hr in Hs. cbn [mbind option_bind] in Hs.
  replace (b + N.of_nat (N.to_nat (pc - b))) with pc in Hs by lia.
  unfold apply_effect in Hs. destruct (effect_at self pc) as [[pops pshs]|]; [|done].
  cbn [mbind option_bind] in Hs. destruct (N.ltb_spec h pops); [done|]. injection Hs as <-.
  exists pops, pshs. split_and!; [done..|]. exists b, bb. split_and!; [done..|].
  intros ->. rewrite Hbb in H. congruence.
Qed.

Lemma reach_height pc h : reach self pc h → pc < len instrs → height_at pc h.
Proof.
  induction 1 as [|pc h i pops pshs pc' Hr IH Hi He Hle Hflow]; intros Hlt.
  { destruct (co_cover _ _ Hcfg 0 Hlt) as (b & bb & Hb & H1 & H2).
    assert (b = 0) as -> by lia. exists 0, bb. by split_and!. }
  pose proof (at_Some_lt _ _ _ Hi) as Hpc.
  destruct (height_at_effect pc h (IH Hpc)) as
    (pops' & pshs' & He' & Hle' & b & bb & Hb & H1 & H2 & Hrun & Hexit).
  unfold effect_at in He'. rewrite Hi in He'. cbn [mbind option_bind] in He'.
  rewrite He in He'. injection He' as <- <-.
  destruct (passes_to_cases instrs cfg b bb pc i pc') as [[Hin ->]|(Hx & _ & [bb' Hb'])];
    try done.
  - exists b, bb. split_and!; [done|lia|lia|done].
  - rewrite (Hexit Hx). exists pc', bb'.
    pose proof (bo_exit _ _ _ (co_blocks _ _ Hcfg pc' bb' Hb')) as [Hx' _].
    rewrite N.sub_diag. by split_and!.
Qed.

Lemma reach_safe pc h :
  reach self pc h → pc < len instrs →
  (∃ num_pops num_pushes, effect_at self pc = Some (num_pops, num_pushes) ∧ num_pops <= h) ∧
  (∀ h', reach self pc h' → h' = h) ∧
  (at_ instrs pc = Some Ret → h = len (return_ self)).
Proof.
  intros Hr Hlt. pose proof (reach_height pc h Hr Hlt) as Hh.
  destruct (height_at_effect pc h Hh) as
    (pops & pshs & He & Hle & b & bb & Hb & H1 & H2 & Hrun & Hexit).
  split_and!; [eauto| |].
  - intros h' Hr'. eapply height_at_fun; [by apply reach_height|done].
  - intros Hret. unfold effect_at in He. rewrite Hret in He. injection He as <- <-.
    enough (pc = bb_exit bb) as Hx by (specialize (Hexit Hx); lia).
    destruct (decide (pc = bb_exit bb)) as [|Hne]; [done|]. exfalso.
    pose proof (co_blocks _ _ Hcfg b bb Hb) as Hok. pose proof (bo_exit _ _ _ Hok).
    apply (bo_straight _ _ _ Hok pc); [lia..|]. right. right. exists pc, Ret.
    split; [done|right]. split_and!; [done..|lia].
Qed.
End Safety.

(** C16. In code whose blocks the stack-usage verifier accepts, and none of whose blocks
    pushes more than a u64 counts, an execution that reaches an instruction finds the
    operands it pops, the height of the stack there does not depend on the path, and at a
    return it is the number of values returned. *)
Theorem stack_usage_safe (overflow_checks : bool) (resolver : BinaryIndexedView)
    (fv : FunctionView) (pc h : N) :
  let self := verifier_of resolver fv in
  let instrs := cu_code (fv_code fv) in
  len instrs <= 65534 → cfg_ok instrs (fv_cfg fv) → pushes_fit self (fv_cfg fv) →
  verify overflow_checks resolver fv = Ok tt →
  reach self pc h → pc < len instrs →
  (∃ num_pops num_pushes, effect_at self pc = Some (num_pops, num_pushes) ∧ num_pops <= h) ∧
  (∀ h', reach self pc h' → h' = h) ∧
  (at_ instrs pc = Some Ret → h = len (fv_return fv)).
Proof.
  cbv zeta. intros Hlen Hcfg Hfit Hv.
  apply (reach_safe (verifier_of resolver fv) (fv_cfg fv)).
  - exact Hlen.
  - exact Hcfg.
  - apply (verify_spec overflow_checks resolver fv); [|done|done].
    intros b bb Hb. apply (co_blocks _ _ Hcfg b bb Hb).
Qed.

(** ** Examples *)

Definition script_with (code : list Bytecode) : CompiledScript :=
  {| s_version := 4; s_module_handles := []; s_struct_handles := []; s_function_handles := [];
     s_function_instantiations := []; s_signatures := [ []; [SignatureToken.U8] ];
     s_identifiers := []; s_address_identifiers := [];
     s_constant_pool := [ {| const_type := SignatureToken.Vector SignatureToken.U8;
                             const_data := [0] |} ];
     s_type_parameters := []; s_parameters := 0;
     s_code := {| cu_locals := 0; cu_code := code |} |}.

Definition sample_view (cfg : VMControlFlowGraph) : FunctionView :=
  {| fv_index := None; fv_code := s_code (script_with sample_code); fv_parameters := [];
     fv_return := []; fv_locals := []; fv_type_parameters := []; fv_cfg := cfg |}.

Lemma sample_view_ok :
  ∃ cfg, script (script_with sample_code) = Ok (sample_view cfg) ∧ cfg_ok sample_code cfg ∧
    entries_ok cfg ∧
    pushes_fit (verifier_of (VScript (script_with sample_code)) (sample_view cfg)) cfg ∧
    verify true (VScript (script_with sample_code)) (sample_view cfg) = Ok tt.
Proof.
  destruct (new_ok sample_code) as (cfg & H & Hok); [by vm_compute|]. exists cfg.
  split; [unfold script; simpl; by rewrite H|]. split; [done|].
  split; [intros b bb Hb; apply (co_blocks _ _ Hok b bb Hb)|].
  clear Hok. vm_compute in H. injection H as <-.
  split; [|vm_compute; reflexivity].
  enough (map_Forall (λ b bb, pushes (verifier_of (VScript (script_with sample_code))
    (sample_view {| cfg_blocks := ∅ |})) (block_len b bb) b <= u64_MAX) (cfg_blocks _)) as Hm
    by exact Hm.
  apply (bool_decide_unpack _). vm_compute. exact I.
Qed.

Lemma stack_usage_verify_spec_witness :
  ∃ fv, script (script_with sample_code) = Ok fv ∧
    ∀ b bb, cfg_blocks (fv_cfg fv) !! b = Some bb →
      balanced (verifier_of (VScript (script_with sample_code)) fv) b bb.
Proof.
  destruct sample_view_ok as (cfg & Hs & _ & He & Hf & Hv). exists (sample_view cfg).
  split; [exact Hs|]. apply (stack_usage_verify_spec true); [exact He|exact Hf|exact Hv].
Defined.

Lemma stack_usage_safe_witness :
  ∃ fv, script (script_with sample_code) = Ok fv ∧
    ∀ h', reach (verifier_of (VScript (script_with sample_code)) fv) 1 h' → h' = 1.
Proof.
  destruct sample_view_ok as (cfg & Hs & Hc & He & Hf & Hv). exists (sample_view cfg).
  split; [exact Hs|].
  apply (stack_usage_safe true (VScript (script_with sample_code)) (sample_view cfg) 1 1);
    [by vm_compute|exact Hc|exact Hf|exact Hv| |by vm_compute].
  eapply (reach_step _ 0 0 LdTrue 0 1); [constructor|reflexivity|reflexivity|lia|by right].
Defined.

(** A script that unpacks a vector into [u64::MAX] values and pushes one more *)
Definition overflow_code : list Bytecode :=
  [LdConst 0; VecUnpack 1 u64_MAX; LdTrue; Ret].
Definition overflow_script : CompiledScript := script_with overflow_code.

(** Without overflow checks the stack height of the verifier wraps: a script in
    bounds and with valid control flow, which unpacks a vector into u64::MAX values and
    pushes one more, is accepted although its execution reaches the return with 2^64
    values on the stack; with overflow checks the verifier panics. *)
Theorem stack_usage_wraps :
  ∃ fv, script overflow_script = Ok fv ∧
    verify_script overflow_script = Ok tt ∧
    ControlFlow.verify (fv_index fv) (fv_code fv) = Ok tt ∧
    verify false (VScript overflow_script) fv = Ok tt ∧
    verify true (VScript overflow_script) fv = Panic ∧
    fv_return fv = [] ∧ at_ overflow_code 3 = Some Ret ∧
    reach (verifier_of (VScript overflow_script) fv) 3 (2 ^ 64).
Proof.
  eexists. split; [vm_compute; reflexivity|].
  do 4 (split; [vm_compute; reflexivity|]). do 2 (split; [reflexivity|]).
  match goal with |- reach ?V _ _ =>
    assert (reach V 1 1) as H1;
      [|assert (reach V 2 u64_MAX) as H2] end.
  - apply (reach_step _ 0 0 (LdConst 0) 0 1);
      [constructor|reflexivity|reflexivity|lia|by right].
  - apply (reach_step _ 1 1 (VecUnpack 1 u64_MAX) 1 u64_MAX);
      [done|reflexivity|reflexivity|lia|by right].
  - apply (reach_step _ 2 u64_MAX LdTrue 0 1); [done|reflexivity|reflexivity|lia|by right].
Qed.
