(* ===== verification/AbsInt.v ===== *)
(** * AbsInt: the abstract interpreter of the bytecode verifier

    Models [language/bytecode-verifier/src/absint.rs].  The traits are classes: an
    abstract domain with its join, and the transfer functions of an analysis.  The
    theorems are proved against the laws that an analysis gives for them: what the
    interpreter returns is a post-fixpoint, and it ends when the domain has finite
    height. *)

From stdpp Require Import sorting.
From S2P Require Import Prelude CoreTypes VmStatus Abilities FileFormat Errors Views ControlFlowGraph StackUsage.

(** [pub(crate) enum JoinResult] *)
Inductive JoinResult : Set := Changed | Unchanged.

(** [pub(crate) trait AbstractDomain]; [join] updates its first argument. *)
Class AbstractDomain (State : Type) : Type := {
  join : State → State → result StatusCode (State * JoinResult) }.

(** [pub(crate) trait TransferFunctions]; [execute] updates the analysis and the
    state it is given. *)
Class TransferFunctions (Self State AnalysisError : Type) : Type := {
  execute : Self → State → Bytecode → CodeOffset → CodeOffset →
            Self * result AnalysisError State }.

(** [pub(crate) enum BlockPostcondition] *)
Inductive BlockPostcondition (AnalysisError : Type) : Type :=
| Unprocessed
| Success
| Error (e : AnalysisError).
Arguments Unprocessed {AnalysisError}.
Arguments Success {AnalysisError}.
Arguments Error {AnalysisError} e.

(** [pub(crate) struct BlockInvariant] *)
Record BlockInvariant (State AnalysisError : Type) : Type := BlockInvariant_new {
  bi_pre : State;
  bi_post : BlockPostcondition AnalysisError }.
Arguments BlockInvariant_new {State AnalysisError}.
Arguments bi_pre {State AnalysisError}.
Arguments bi_post {State AnalysisError}.

(** [pub(crate) type InvariantMap] *)
Notation InvariantMap State AnalysisError :=
  (gmap BlockId (BlockInvariant State AnalysisError)).

(** ** [pub(crate) trait AbstractInterpreter] *)

Section AbstractInterpreter.
Context {Self State AnalysisError : Type}.
Context `{HD : AbstractDomain State} `{HT : TransferFunctions Self State AnalysisError}.

(** The loop of [execute_block] *)
Fixpoint execute_instrs (self : Self) (state_acc : State) (code : list Bytecode)
    (block_end : CodeOffset) (offsets : list CodeOffset) : Self * result AnalysisError State :=
  match offsets with
  | [] => (self, Ok state_acc)
  | offset :: offsets =>
      match at_ code offset with
      | None => (self, Panic)
      | Some instr =>
          let '(self, r) := execute self state_acc instr offset block_end in
          match r with
          | Ok state_acc => execute_instrs self state_acc code block_end offsets
          | _ => (self, r)
          end
      end
  end.

Definition execute_block (self : Self) (block_id : BlockId) (pre_state : State)
    (function_view : FunctionView) : Self * result AnalysisError State :=
  match cfg_blocks (fv_cfg function_view) !! block_id with
  | None => (self, Panic)
  | Some bb =>
      execute_instrs self pre_state (cu_code (fv_code function_view)) (bb_exit bb)
        (range_inclusive (bb_entry bb) (bb_exit bb))
  end.

(** "propagate postcondition of this block to successor blocks", for one of them;
    the work list is a stack whose top is the head. *)
Definition propagate (post_state : State)
    (st : InvariantMap State AnalysisError * list BlockId) (next_block_id : BlockId)
  : result StatusCode (InvariantMap State AnalysisError * list BlockId) :=
  let '(inv_map, work_list) := st in
  match inv_map !! next_block_id with
  | Some next_block_invariant =>
      joined ← join (bi_pre next_block_invariant) post_state;
      match snd joined with
      | Unchanged => Ok (inv_map, work_list)
      | Changed =>
          Ok (<[ next_block_id :=
                   BlockInvariant_new (fst joined) (bi_post next_block_invariant) ]> inv_map,
              next_block_id :: work_list)
      end
  | None =>
      Ok (<[ next_block_id := BlockInvariant_new post_state Success ]> inv_map,
          next_block_id :: work_list)
  end.

(** [while let Some(block_id) = work_list.pop()] *)
Fixpoint analyze_loop (fuel : nat) (self : Self) (inv_map : InvariantMap State AnalysisError)
    (work_list : list BlockId) (function_view : FunctionView)
  : result StatusCode (Self * InvariantMap State AnalysisError) :=
  match work_list with
  | [] => Ok (self, inv_map)
  | block_id :: work_list =>
      match fuel with
      | O => OutOfFuel
      | S fuel =>
          match inv_map !! block_id with
          | None => Panic
          | Some block_invariant =>
              let pre_state := bi_pre block_invariant in
              let '(self, r) := execute_block self block_id pre_state function_view in
              match r with
              | Err e =>
                  analyze_loop fuel self
                    (<[ block_id := BlockInvariant_new pre_state (Error e) ]> inv_map)
                    work_list function_view
              | Ok post_state =>
                  let inv_map :=
                    <[ block_id := BlockInvariant_new pre_state Success ]> inv_map in
                  succs ← successors (fv_cfg function_view) block_id;
                  st ← try_fold (propagate post_state) succs (inv_map, work_list);
                  analyze_loop fuel self (fst st) (snd st) function_view
              | Panic => Panic
              | OutOfFuel => OutOfFuel
              end
          end
      end
  end.

(** [analyze_function], with the number of blocks it may process *)
Definition analyze_function (fuel : nat) (self : Self) (initial_state : State)
    (function_view : FunctionView)
  : result StatusCode (Self * InvariantMap State AnalysisError) :=
  let entry_block_id := entry_block_id (fv_cfg function_view) in
  let work_list := [entry_block_id] in
  let inv_map := {[ entry_block_id := BlockInvariant_new initial_state Unprocessed ]} in
  analyze_loop fuel self inv_map work_list function_view.
End AbstractInterpreter.

(** ** What the loop establishes for every analysis

    Without any law: the map that the loop ends with holds the initial state at the entry,
    and the postcondition of each block that succeeded has been taken in by the
    preconditions of its successors.  [I] is what the analysis keeps of [self]. *)

(** [a] is [post] or the outcome of joins that took it in. *)
Inductive absorbs {State : Type} `{AbstractDomain State} (post : State) : State → Prop :=
| absorbs_self : absorbs post post
| absorbs_unchanged a c : join a post = Ok (c, Unchanged) → absorbs post a
| absorbs_changed a c : join a post = Ok (c, Changed) → absorbs post c
| absorbs_later a p c : absorbs post a → join a p = Ok (c, Changed) → absorbs post c.

Section Explored.
Context {Self State AnalysisError : Type} `{HD : AbstractDomain State}
  `{HT : TransferFunctions Self State AnalysisError}.
Context (fv : FunctionView) (I : Self → Prop).
Notation Map := (InvariantMap State AnalysisError).

Definition taken_in (m : Map) (post : State) (b : BlockId) : Prop :=
  ∃ inv, m !! b = Some inv ∧ absorbs post (bi_pre inv).
(** A block whose run succeeded, and whose successors know how it ended *)
Definition block_done (m : Map) (b : BlockId) (inv : BlockInvariant State AnalysisError) : Prop :=
  ∃ self post bb, I self ∧ snd (execute_block self b (bi_pre inv) fv) = Ok post ∧
    cfg_blocks (fv_cfg fv) !! b = Some bb ∧ Forall (taken_in m post) (bb_successors bb).
Record explored (initial : State) (m : Map) : Prop := {
  ex_entry : taken_in m initial (entry_block_id (fv_cfg fv));
  ex_blocks b inv : m !! b = Some inv → (∃ e, bi_post inv = Error e) ∨ block_done m b inv }.

Context (I_execute : ∀ self a i o l, I self → I (fst (execute self a i o l))).

Lemma execute_instrs_keeps self a code last offsets :
  I self → I (fst (execute_instrs self a code last offsets)).
Proof.
  revert self a; induction offsets as [|o os IH]; intros self a HI; [done|]. cbn [execute_instrs].
  destruct (at_ code o) as [i|]; [|done]. pose proof (I_execute self a i o last HI) as Hs.
  destruct (execute self a i o last) as [s [a'|e| |]]; [by apply IH|done..].
Qed.
Lemma execute_block_keeps self b a : I self → I (fst (execute_block self b a fv)).
Proof. intros HI. unfold execute_block. case_match; [by apply execute_instrs_keeps|done]. Qed.

(** Each precondition took in what it was before. *)
Definition above (m m' : Map) : Prop :=
  ∀ b inv, m !! b = Some inv → ∃ inv', m' !! b = Some inv' ∧
    ∀ p, absorbs p (bi_pre inv) → absorbs p (bi_pre inv').
#[local] Instance above_preorder : PreOrder above.
Proof.
  split.
  - intros m b inv Hb. eauto.
  - intros m1 m2 m3 H12 H23 b inv Hb. destruct (H12 b inv Hb) as (i2 & H2 & A2).
    destruct (H23 b i2 H2) as (i3 & H3 & A3). exists i3. split; [done|auto].
Qed.
Lemma taken_in_above m m' post b : above m m' → taken_in m post b → taken_in m' post b.
Proof. intros Ha (inv & Hb & Hp). destruct (Ha b inv Hb) as (inv' & Hb' & Hq). exists inv'. auto. Qed.
Lemma block_done_above m m' b inv : above m m' → block_done m b inv → block_done m' b inv.
Proof.
  intros Ha (self & post & bb & HI & Hx & Hs & Hf). exists self, post, bb. split_and!; [done..|].
  eapply Forall_impl; [exact Hf|]. intros s. by apply taken_in_above.
Qed.

Lemma insert_above (m : Map) b inv inv' :
  m !! b = Some inv → (∀ p, absorbs p (bi_pre inv) → absorbs p (bi_pre inv')) → above m (<[ b := inv' ]> m).
Proof.
  intros Hb Hp s i Hs. destruct (decide (s = b)) as [->|Hne].
  - exists inv'. rewrite lookup_insert_eq. split; [done|]. by simplify_eq.
  - exists i. by rewrite lookup_insert_ne.
Qed.

(** Blocks that do not wait on the work list are settled, but for [extra]. *)
Definition settled_but (m : Map) (wl : list BlockId) (extra : BlockId → BlockInvariant State AnalysisError → Prop) : Prop :=
  ∀ b inv, m !! b = Some inv → b ∈ wl ∨ extra b inv ∨ (∃ e, bi_post inv = Error e) ∨ block_done m b inv.

Lemma propagate_above post m wl s m' wl' extra :
  propagate post (m, wl) s = Ok (m', wl') →
  above m m' ∧ taken_in m' post s ∧ (settled_but m wl extra → settled_but m' wl' extra) ∧
  (∀ b, b ∈ wl → b ∈ wl').
Proof.
  unfold propagate. destruct (m !! s) as [inv|] eqn:Hs.
  - intros H. apply bind_Ok in H as ([c []] & Hj & H); cbn [fst snd] in H; simplify_eq.
    + assert (above m (<[ s := BlockInvariant_new c (bi_post inv) ]> m)) as Hab.
      { eapply insert_above; [done|]. intros p Hp. by eapply absorbs_later. }
      split_and!; [done| | |intros b Hb; by right].
      * exists (BlockInvariant_new c (bi_post inv)). rewrite lookup_insert_eq. split; [done|].
        by eapply absorbs_changed.
      * intros Hset b i Hb. destruct (decide (b = s)) as [->|Hne]; [left; by left|].
        rewrite lookup_insert_ne in Hb by done. destruct (Hset b i Hb) as [?|[?|[?|Hd]]];
          [left; by right|by right; left|by right; right; left|].
        right; right; right. by eapply block_done_above.
    + split_and!; [done| |done|done]. exists inv. split; [done|]. by eapply absorbs_unchanged.
  - intros H. simplify_eq. set (m' := <[ s := _ ]> m).
    assert (above m m') as Hab.
    { intros b i Hb. exists i. split; [|done]. unfold m'. rewrite lookup_insert_ne; [done|congruence]. }
    split_and!; [done| | |intros b Hb; by right].
    + eexists. unfold m'. rewrite lookup_insert_eq. split; [reflexivity|]. apply absorbs_self.
    + intros Hset b i Hb. destruct (decide (b = s)) as [->|Hne]; [left; by left|].
      unfold m' in Hb. rewrite lookup_insert_ne in Hb by done. destruct (Hset b i Hb) as [?|[?|[?|Hd]]];
        [left; by right|by right; left|by right; right; left|].
      right; right; right. by eapply block_done_above.
Qed.

Lemma propagate_list_above post succs m wl m' wl' extra :
  try_fold (propagate post) succs (m, wl) = Ok (m', wl') →
  above m m' ∧ Forall (taken_in m' post) succs ∧ (settled_but m wl extra → settled_but m' wl' extra).
Proof.
  revert m wl; induction succs as [|s succs IH]; intros m wl.
  { cbn. intros [= -> ->]. by split_and!. }
  cbn [try_fold]. intros H. apply bind_Ok in H as ([m1 wl1] & H1 & H2).
  destruct (propagate_above _ _ _ _ _ _ extra H1) as (A1 & T1 & S1 & _).
  destruct (IH _ _ H2) as (A2 & T2 & S2). split_and!; [by etrans| |auto].
  constructor; [by eapply taken_in_above|done].
Qed.

Lemma analyze_loop_explored fuel self m wl initial self' m' :
  I self → taken_in m initial (entry_block_id (fv_cfg fv)) → settled_but m wl (λ _ _, False) →
  analyze_loop fuel self m wl fv = Ok (self', m') → explored initial m'.
Proof.
  revert self m wl; induction fuel as [|fuel IH]; intros self m wl HI Hen Hset; destruct wl as [|b wl].
  1,3: intros [= <- <-]; split; [done|]; intros b inv Hb;
    destruct (Hset b inv Hb) as [[]%not_elem_of_nil|[[]|H]]; exact H.
  { done. }
  cbn [analyze_loop]. destruct (m !! b) as [inv|] eqn:Hb; [|done]. cbv zeta.
  pose proof (execute_block_keeps self b (bi_pre inv) HI) as HI'.
  destruct (execute_block self b (bi_pre inv) fv) as [self1 [post|e| |]] eqn:Hx; cbn in HI'; try done.
  - set (m1 := <[ b := BlockInvariant_new (bi_pre inv) Success ]> m).
    assert (above m m1) as Hab by (by eapply insert_above).
    assert (settled_but m1 wl (λ x i, x = b ∧ bi_pre i = bi_pre inv)) as Hset1.
    { intros x i Hi. destruct (decide (x = b)) as [->|Hne].
      { unfold m1 in Hi. rewrite lookup_insert_eq in Hi. injection Hi as <-. by right; left. }
      unfold m1 in Hi. rewrite lookup_insert_ne in Hi by done.
      destruct (Hset x i Hi) as [[?|?]%elem_of_cons|[[]|[?|Hd]]]; [done|by left|by right; right; left|].
      right; right; right. by eapply block_done_above. }
    intros H. apply bind_Ok in H as (succs & Hsu & H). unfold successors in Hsu.
    destruct (cfg_blocks (fv_cfg fv) !! b) as [bb|] eqn:Hbb; [|done]. cbn in Hsu. injection Hsu as <-. apply bind_Ok in H as ([m2 wl2] & Hf & H).
    destruct (propagate_list_above _ _ _ _ _ _ (λ x i, x = b ∧ bi_pre i = bi_pre inv) Hf) as (A2 & T2 & S2).
    assert (above m m2) as Hab2 by (by etrans).
    refine (IH _ _ _ HI' (taken_in_above _ _ _ _ Hab2 Hen) _ H).
    intros x i Hi. destruct (S2 Hset1 x i Hi) as [?|[[-> Hpre]|?]]; [by left| |by right; right].
    right; right; right. exists self, post, bb. rewrite Hpre, Hx. by split_and!.
  - set (m1 := <[ b := BlockInvariant_new (bi_pre inv) (Error e) ]> m).
    assert (above m m1) as Hab by (by eapply insert_above).
    apply (IH _ _ _ HI' (taken_in_above _ _ _ _ Hab Hen)).
    intros x i Hi. destruct (decide (x = b)) as [->|Hne].
    + unfold m1 in Hi. rewrite lookup_insert_eq in Hi. injection Hi as <-. right; right; left. by exists e.
    + unfold m1 in Hi. rewrite lookup_insert_ne in Hi by done.
      destruct (Hset x i Hi) as [[?|?]%elem_of_cons|[[]|[?|Hd]]]; [done|by left|by right; right; left|].
      right; right; right. by eapply block_done_above.
Qed.

Lemma analyze_function_explored fuel self initial self' m :
  I self → analyze_function fuel self initial fv = Ok (self', m) → explored initial m.
Proof.
  intros HI. apply analyze_loop_explored; [done| |].
  - eexists. rewrite lookup_singleton_eq. split; [reflexivity|]. apply absorbs_self.
  - intros b inv [<- _]%lookup_singleton_Some. left. by left.
Qed.
End Explored.


(** ** Laws of an analysis

    What an analysis owes the interpreter: an order that its join bounds, a
    height that a changed state loses, a result that does not depend on what the analysis
    keeps in [self], and errors that are [allowed]. *)
Class AnalysisLaws {Self State AnalysisError : Type} `{AbstractDomain State}
    `{TransferFunctions Self State AnalysisError}
    (le : relation State) (wf : State → Prop) (height : State → nat) (max_height : nat)
    (allowed : AnalysisError → Prop) (code : list Bytecode) : Prop := {
  al_preorder :: PreOrder le;
  al_join : ∀ a b, wf a → wf b → ∃ c r, join a b = Ok (c, r) ∧ wf c ∧ le a c ∧ le b c ∧
    match r with Unchanged => c = a | Changed => (height c < height a)%nat end;
  al_height : ∀ a, wf a → (height a <= max_height)%nat;
  al_self : ∀ s s' a i o l, snd (execute s a i o l) = snd (execute s' a i o l);
  al_execute : ∀ s a i o l, wf a → at_ code o = Some i →
    match snd (execute s a i o l) with Ok a' => wf a' | Err e => allowed e | _ => False end }.

Section Interpreter.
Context {Self State AnalysisError : Type} `{HD : AbstractDomain State}
  `{HT : TransferFunctions Self State AnalysisError}.
Context (fv : FunctionView).
Notation code := (cu_code (fv_code fv)).
Notation cfg := (fv_cfg fv).
Context (le : relation State) (wf : State → Prop) (height : State → nat) (max_height : nat)
  (allowed : AnalysisError → Prop).
Context `{HL : !AnalysisLaws le wf height max_height allowed code}.
Context (Hcfg : cfg_ok code cfg) (Hclosed : closed cfg).
Notation Map := (InvariantMap State AnalysisError).

(** The instructions of a block run without a panic and keep well-formedness. *)
Lemma execute_instrs_wf self a last offsets :
  wf a → Forall (λ o, o < len code) offsets →
  match snd (execute_instrs self a code last offsets) with
  | Ok a' => wf a' | Err e => allowed e | _ => False end.
Proof.
  intros Ha Ho. revert self a Ha. induction Ho as [|o offsets Ho _ IH]; intros self a Ha; [done|].
  cbn [execute_instrs]. destruct (at_lt code o Ho) as [i Hi]. rewrite Hi.
  pose proof (al_execute self a i o last Ha Hi) as Hx.
  destruct (execute self a i o last) as [self' [a'|e| |]]; simpl in *; [by apply IH|done..].
Qed.

Lemma execute_instrs_self self self' a last offsets :
  snd (execute_instrs self a code last offsets) = snd (execute_instrs self' a code last offsets).
Proof.
  revert self self' a; induction offsets as [|o offsets IH]; intros self self' a; [done|].
  cbn [execute_instrs]. destruct (at_ code o) as [i|]; [|done].
  pose proof (al_self self self' a i o last) as Hx.
  destruct (execute self a i o last) as [s1 r1], (execute self' a i o last) as [s2 r2].
  simpl in Hx. subst r2. destruct r1; simpl; [apply IH|done..].
Qed.

Lemma elem_of_range_inclusive lo hi x : x ∈ range_inclusive lo hi ↔ lo <= x ∧ x <= hi.
Proof.
  unfold range_inclusive. rewrite list_elem_of_fmap. split.
  - intros (n & -> & Hn%elem_of_seq). lia.
  - intros H. exists (N.to_nat x). rewrite N2Nat.id, elem_of_seq. split; [done|lia].
Qed.

Lemma execute_block_wf self (b : BlockId) a :
  is_Some (cfg_blocks cfg !! b) → wf a →
  match snd (execute_block self b a fv) with
  | Ok a' => wf a' | Err e => allowed e | _ => False end.
Proof.
  intros [bb Hb] Ha. unfold execute_block. rewrite Hb. apply execute_instrs_wf; [done|].
  apply Forall_forall. intros o [_ Ho]%elem_of_range_inclusive.
  pose proof (bo_exit _ _ _ (co_blocks _ _ Hcfg b bb Hb)). lia.
Qed.

Lemma execute_block_self self self' b a :
  snd (execute_block self b a fv) = snd (execute_block self' b a fv).
Proof. unfold execute_block. destruct (cfg_blocks cfg !! b); [apply execute_instrs_self|done]. Qed.

(** ** Potential

    What is left to do: a block not reached yet may be queued once more than its
    state can lose height. *)
Definition block_potential (m : Map) (b : BlockId) : nat :=
  match m !! b with Some inv => height (bi_pre inv) | None => S max_height end.
Definition keys : list BlockId := (map_to_list (cfg_blocks cfg)).*1.
Definition potential (m : Map) (wl : list BlockId) : nat :=
  length wl + sum_list_with (block_potential m) keys.

Lemma elem_of_keys b : b ∈ keys ↔ is_Some (cfg_blocks cfg !! b).
Proof.
  unfold keys. rewrite list_elem_of_fmap. split.
  - intros ([b' bb] & -> & H%elem_of_map_to_list). eauto.
  - intros [bb H]. exists (b, bb). by rewrite elem_of_map_to_list.
Qed.

Lemma sum_update {A} (f g : A → nat) (l : list A) x :
  NoDup l → x ∈ l → (∀ y, y ≠ x → f y = g y) →
  (sum_list_with f l + g x = sum_list_with g l + f x)%nat.
Proof.
  intros Hnd Hx Heq. induction Hnd as [|y l Hy Hnd IH]; [by apply not_elem_of_nil in Hx|].
  cbn [sum_list_with]. apply elem_of_cons in Hx as [<-|Hx].
  - assert (sum_list_with f l = sum_list_with g l) as ->; [|lia].
    clear IH Hnd. induction l as [|z l IH]; [done|]. cbn [sum_list_with].
    apply not_elem_of_cons in Hy as [Hz Hy]. rewrite (Heq z), IH; [done..|congruence].
  - rewrite (Heq y) by (intros ->; done). specialize (IH Hx). lia.
Qed.

Lemma potential_insert m wl b inv :
  is_Some (cfg_blocks cfg !! b) →
  (potential (<[ b := inv ]> m) wl + block_potential m b =
   potential m wl + height (bi_pre inv))%nat.
Proof.
  intros Hb. unfold potential.
  pose proof (sum_update (block_potential (<[ b := inv ]> m)) (block_potential m) keys b) as H.
  assert (block_potential (<[ b := inv ]> m) b = height (bi_pre inv)) as Hx.
  { unfold block_potential. by rewrite lookup_insert_eq. }
  rewrite Hx in H. rewrite <- Nat.add_assoc, H; [lia| | |].
  - apply NoDup_fst_map_to_list.
  - by apply elem_of_keys.
  - intros y Hy. unfold block_potential. by rewrite lookup_insert_ne.
Qed.

(** ** One block *)

Definition map_ok (m : Map) : Prop :=
  ∀ b inv, m !! b = Some inv → is_Some (cfg_blocks cfg !! b) ∧ wf (bi_pre inv) ∧
    ∀ e, bi_post inv = Error e → allowed e.

(** Propagating [post] only raises states, queues what it raises, and never adds
    to the potential. *)
Record propagated (post : State) (succs : list BlockId) (m : Map) (wl : list BlockId)
    (m' : Map) (wl' : list BlockId) : Prop := {
  pr_ok : map_ok m';
  pr_raise : ∀ b inv, m !! b = Some inv → ∃ inv', m' !! b = Some inv' ∧
    le (bi_pre inv) (bi_pre inv') ∧ (inv' = inv ∨ b ∈ wl');
  pr_old : ∀ b inv', m' !! b = Some inv' → m !! b = None → b ∈ wl';
  pr_wl : ∀ b, b ∈ wl → b ∈ wl';
  pr_dom : ∀ b, b ∈ wl' → b ∈ wl ∨ is_Some (m' !! b);
  pr_succs : ∀ b, b ∈ succs → ∃ inv', m' !! b = Some inv' ∧ le post (bi_pre inv');
  pr_potential : (potential m' wl' <= potential m wl)%nat }.

Lemma propagate_step post m wl s :
  wf post → map_ok m → is_Some (cfg_blocks cfg !! s) →
  ∃ m' wl', propagate post (m, wl) s = Ok (m', wl') ∧ propagated post [s] m wl m' wl'.
Proof.
  intros Hp Hm Hs. unfold propagate. destruct (m !! s) as [inv|] eqn:Hinv.
  - destruct (Hm s inv Hinv) as (_ & Hwf & Herr).
    destruct (al_join (bi_pre inv) post Hwf Hp) as (c & r & Hj & Hc & Hle1 & Hle2 & Hr).
    rewrite Hj. cbn [mbind result_bind fst snd]. destruct r.
    + eexists _, _; split; [reflexivity|]. constructor.
      * intros b inv' Hb. destruct (decide (b = s)) as [->|].
        { rewrite lookup_insert_eq in Hb. injection Hb as <-. done. }
        rewrite lookup_insert_ne in Hb by done. eauto.
      * intros b i Hb. destruct (decide (b = s)) as [->|].
        { rewrite Hinv in Hb. injection Hb as <-. eexists. rewrite lookup_insert_eq.
          split; [reflexivity|]. split; [done|]. right. by left. }
        exists i. rewrite lookup_insert_ne by done. split_and!; [done| |by left]. reflexivity.
      * intros b i Hb Hnone. destruct (decide (b = s)) as [->|]; [by left|].
        rewrite lookup_insert_ne in Hb by done. congruence.
      * intros b Hb. by right.
      * intros b [->|Hb]%elem_of_cons; [right|by left]. rewrite lookup_insert_eq. eauto.
      * intros b ->%list_elem_of_singleton. eexists. rewrite lookup_insert_eq.
        split; [reflexivity|done].
      * pose proof (potential_insert m (s :: wl) s (BlockInvariant_new c (bi_post inv)) Hs) as H.
        cbn [bi_pre] in H.
        unfold block_potential in H. rewrite Hinv in H. unfold potential in *. simpl in *. lia.
    + subst c. eexists _, _; split; [reflexivity|]. constructor; [done| | |done| | |done].
      * intros b i Hb. exists i. split_and!; [done|reflexivity|by left].
      * intros b i Hb Hnone. congruence.
      * intros b Hb. by left.
      * intros b ->%list_elem_of_singleton. eauto.
  - eexists _, _; split; [reflexivity|]. constructor.
    + intros b inv' Hb. destruct (decide (b = s)) as [->|].
      { rewrite lookup_insert_eq in Hb. injection Hb as <-. done. }
      rewrite lookup_insert_ne in Hb by done. eauto.
    + intros b i Hb. destruct (decide (b = s)) as [->|]; [congruence|].
      exists i. rewrite lookup_insert_ne by done. split_and!; [done|reflexivity|by left].
    + intros b i Hb Hnone. destruct (decide (b = s)) as [->|]; [by left|].
      rewrite lookup_insert_ne in Hb by done. congruence.
    + intros b Hb. by right.
    + intros b [->|Hb]%elem_of_cons; [right|by left]. rewrite lookup_insert_eq. eauto.
    + intros b ->%list_elem_of_singleton. eexists. rewrite lookup_insert_eq.
      split; [reflexivity|]. reflexivity.
    + pose proof (potential_insert m (s :: wl) s (BlockInvariant_new post Success) Hs) as H.
      pose proof (al_height post Hp). cbn [bi_pre] in H.
      unfold block_potential in H. rewrite Hinv in H. unfold potential in *. simpl in *. lia.
Qed.

Lemma propagated_trans post s1 s2 m wl m1 wl1 m2 wl2 :
  propagated post s1 m wl m1 wl1 → propagated post s2 m1 wl1 m2 wl2 →
  propagated post (s1 ++ s2) m wl m2 wl2.
Proof.
  intros [O1 R1 N1 W1 D1 S1 P1] [O2 R2 N2 W2 D2 S2 P2]. constructor; [done| | |auto| | |lia].
  - intros b inv Hb. destruct (R1 b inv Hb) as (i1 & H1 & L1 & C1).
    destruct (R2 b i1 H1) as (i2 & H2 & L2 & C2). exists i2. split; [done|].
    split; [by etrans|]. destruct C2 as [->|]; [|by right].
    destruct C1 as [->|]; [by left|right; auto].
  - intros b inv Hb Hn. destruct (m1 !! b) as [i1|] eqn:H1; [|eauto].
    eauto.
  - intros b [Hb|Hb]%D2; [|by right]. apply D1 in Hb as [Hb|[i1 Hb]]; [by left|right].
    destruct (R2 b i1 Hb) as (i2 & H2 & _). eauto.
  - intros b [Hb|Hb]%elem_of_app; [|by apply S2].
    destruct (S1 b Hb) as (i1 & H1 & L1). destruct (R2 b i1 H1) as (i2 & H2 & L2 & _).
    exists i2. split; [done|by etrans].
Qed.

Lemma propagate_all post m wl succs :
  wf post → map_ok m → (∀ s, s ∈ succs → is_Some (cfg_blocks cfg !! s)) →
  ∃ m' wl', try_fold (propagate post) succs (m, wl) = Ok (m', wl') ∧
    propagated post succs m wl m' wl'.
Proof.
  intros Hp. revert m wl; induction succs as [|s succs IH]; intros m wl Hm Hs.
  - exists m, wl. split; [done|]. constructor; [done| | |done|by left| |done].
    + intros b inv Hb. exists inv. split_and!; [done|reflexivity|by left].
    + intros b inv Hb Hn. congruence.
    + intros b Hb. by apply not_elem_of_nil in Hb.
  - destruct (propagate_step post m wl s Hp Hm) as (m1 & wl1 & H1 & Hp1).
    { apply Hs. by left. }
    destruct (IH m1 wl1) as (m2 & wl2 & H2 & Hp2).
    { apply (pr_ok _ _ _ _ _ _ Hp1). }
    { intros x Hx. apply Hs. by right. }
    exists m2, wl2. split; [cbn [try_fold]; by rewrite H1|].
    by apply (propagated_trans post [s] succs _ _ m1 wl1).
Qed.

(** ** The fixpoint *)

Context (initial : State) (Hinit : wf initial).

(** A block whose analysis failed, or whose result its successors account for *)
Definition settled (m : Map) (b : BlockId) (inv : BlockInvariant State AnalysisError) : Prop :=
  (∃ e, bi_post inv = Error e) ∨
  ∃ post bb, (∀ self, snd (execute_block self b (bi_pre inv) fv) = Ok post) ∧
    cfg_blocks cfg !! b = Some bb ∧
    ∀ s, s ∈ bb_successors bb → ∃ inv', m !! s = Some inv' ∧ le post (bi_pre inv').

Definition covers (m : Map) : Prop :=
  ∃ inv, m !! entry_block_id cfg = Some inv ∧ le initial (bi_pre inv).

(** The map that the interpreter returns *)
Record post_fixpoint (m : Map) : Prop := {
  pf_ok : map_ok m;
  pf_entry : covers m;
  pf_settled : ∀ b inv, m !! b = Some inv → settled m b inv }.

Record loop_inv (m : Map) (wl : list BlockId) : Prop := {
  li_ok : map_ok m;
  li_entry : covers m;
  li_wl : ∀ b, b ∈ wl → is_Some (m !! b);
  li_settled : ∀ b inv, m !! b = Some inv → b ∉ wl → settled m b inv }.

Lemma settled_raise m m' b inv :
  (∀ s i, m !! s = Some i → ∃ i', m' !! s = Some i' ∧ le (bi_pre i) (bi_pre i')) →
  settled m b inv → settled m' b inv.
Proof.
  intros Hr [He|(post & bb & Hx & Hb & Hs)]; [by left|right].
  exists post, bb. split_and!; [done..|]. intros s (i & Hi & Hle)%Hs.
  destruct (Hr s i Hi) as (i' & Hi' & Hle'). exists i'. split; [done|by etrans].
Qed.

(** Recording the outcome of a block changes no precondition. *)
Lemma insert_post_raise (m : Map) b (inv : BlockInvariant State AnalysisError) p :
  m !! b = Some inv → ∀ s i, m !! s = Some i →
  ∃ i', <[ b := BlockInvariant_new (bi_pre inv) p ]> m !! s = Some i' ∧
    le (bi_pre i) (bi_pre i') ∧ (s = b ∨ i' = i).
Proof.
  intros Hb s i Hs. destruct (decide (s = b)) as [->|].
  - rewrite Hs in Hb. injection Hb as ->. eexists. rewrite lookup_insert_eq.
    split; [reflexivity|]. split; [done|by left].
  - exists i. rewrite lookup_insert_ne by done. split_and!; [done|reflexivity|by right].
Qed.

Lemma insert_post_ok (m : Map) b (inv : BlockInvariant State AnalysisError) p :
  map_ok m → m !! b = Some inv → (∀ e, p = Error e → allowed e) →
  map_ok (<[ b := BlockInvariant_new (bi_pre inv) p ]> m).
Proof.
  intros Hm Hb Hp s i Hs. destruct (decide (s = b)) as [->|].
  - rewrite lookup_insert_eq in Hs. injection Hs as <-.
    destruct (Hm b inv Hb) as (? & ? & _). by split_and!.
  - rewrite lookup_insert_ne in Hs by done. apply (Hm s i Hs).
Qed.

Lemma insert_post_potential (m : Map) wl b (inv : BlockInvariant State AnalysisError) p :
  map_ok m → m !! b = Some inv →
  potential (<[ b := BlockInvariant_new (bi_pre inv) p ]> m) wl = potential m wl.
Proof.
  intros Hm Hb. destruct (Hm b inv Hb) as [Hk _].
  pose proof (potential_insert m wl b (BlockInvariant_new (bi_pre inv) p) Hk) as H.
  unfold block_potential in H. rewrite Hb in H. cbn [bi_pre] in H. lia.
Qed.

Lemma insert_post_entry (m : Map) b (inv : BlockInvariant State AnalysisError) p :
  m !! b = Some inv → covers m → covers (<[ b := BlockInvariant_new (bi_pre inv) p ]> m).
Proof.
  intros Hb (i & Hi & Hle). destruct (insert_post_raise m b inv p Hb _ i Hi) as (i' & Hi' & ? & _).
  exists i'. split; [done|by etrans].
Qed.

Lemma loop_inv_error m wl b inv e :
  loop_inv m (b :: wl) → m !! b = Some inv → allowed e →
  loop_inv (<[ b := BlockInvariant_new (bi_pre inv) (Error e) ]> m) wl.
Proof.
  intros [Hok Hen Hwl Hs] Hb He. constructor.
  - apply insert_post_ok; [done..|]. by intros e' [= <-].
  - by apply insert_post_entry.
  - intros x Hx. destruct (decide (x = b)) as [->|]; [rewrite lookup_insert_eq; eauto|].
    rewrite lookup_insert_ne by done. apply Hwl. by right.
  - intros x i Hx Hn. destruct (decide (x = b)) as [->|Hne].
    + rewrite lookup_insert_eq in Hx. injection Hx as <-. left. by exists e.
    + rewrite lookup_insert_ne in Hx by done. apply (settled_raise m).
      * intros s j Hj. destruct (insert_post_raise m b inv (Error e) Hb s j Hj) as (j' & ? & ? & _).
        eauto.
      * apply Hs; [done|]. by rewrite not_elem_of_cons.
Qed.

Lemma loop_inv_success m wl b inv post bb m' wl' :
  loop_inv m (b :: wl) → m !! b = Some inv →
  (∀ self, snd (execute_block self b (bi_pre inv) fv) = Ok post) →
  cfg_blocks cfg !! b = Some bb →
  propagated post (bb_successors bb)
    (<[ b := BlockInvariant_new (bi_pre inv) Success ]> m) wl m' wl' →
  loop_inv m' wl'.
Proof.
  intros [Hok Hen Hwl Hs] Hb Hx Hbb [O R N W D S _].
  set (m1 := <[ b := BlockInvariant_new (bi_pre inv) Success ]> m) in *.
  assert (∀ s i, m !! s = Some i → ∃ i', m' !! s = Some i' ∧ le (bi_pre i) (bi_pre i')) as Hraise.
  { intros s i Hi. destruct (insert_post_raise m b inv Success Hb s i Hi) as (i1 & H1 & L1 & _).
    destruct (R s i1 H1) as (i2 & H2 & L2 & _). exists i2. split; [done|by etrans]. }
  constructor; [done| | |].
  - destruct Hen as (i & Hi & Hle). destruct (Hraise _ i Hi) as (i' & Hi' & ?).
    exists i'. split; [done|by etrans].
  - intros x [Hx'|Hx']%D; [|done]. destruct (Hwl x) as [i Hi]; [by right|].
    destruct (Hraise x i Hi) as (i' & Hi' & _). eauto.
  - intros x i Hi Hn. destruct (m1 !! x) as [i1|] eqn:H1; [|by destruct Hn; eapply N].
    destruct (R x i1 H1) as (i2 & H2 & _ & [->|Hin]); [|done].
    rewrite Hi in H2. injection H2 as ->. unfold m1 in H1.
    destruct (decide (x = b)) as [->|Hne].
    + rewrite lookup_insert_eq in H1. injection H1 as <-. right. exists post, bb.
      split_and!; [done..|exact S].
    + rewrite lookup_insert_ne in H1 by done. apply (settled_raise m); [done|].
      apply Hs; [done|]. rewrite not_elem_of_cons. split; [done|]. intros ?. by apply Hn, W.
Qed.

Lemma analyze_loop_spec fuel self m wl :
  loop_inv m wl → (potential m wl <= fuel)%nat →
  ∃ self' m', analyze_loop fuel self m wl fv = Ok (self', m') ∧ post_fixpoint m'.
Proof.
  revert self m wl; induction fuel as [|fuel IH]; intros self m wl Hinv Hf.
  all: destruct wl as [|b wl].
  1,3: exists self, m; (split; [done|]); destruct Hinv as [? ? _ Hs];
    (constructor; [done..|]); intros b inv Hb; apply Hs; [done|apply not_elem_of_nil].
  - unfold potential in Hf. simpl in Hf. lia.
  - destruct (li_wl _ _ Hinv b) as [inv Hb]; [by left|].
    pose proof (li_ok _ _ Hinv) as Hok. destruct (Hok b inv Hb) as (Hk & Hwf & _).
    cbn [analyze_loop]. rewrite Hb. cbv zeta.
    pose proof (execute_block_wf self b (bi_pre inv) Hk Hwf) as Hx.
    assert (∀ s, snd (execute_block s b (bi_pre inv) fv) =
                 snd (execute_block self b (bi_pre inv) fv)) as Hself
      by (intros; apply execute_block_self).
    destruct (execute_block self b (bi_pre inv) fv) as [self1 [post|e| |]]; simpl in Hx, Hself;
      [|apply IH; [by eapply loop_inv_error|]|done..].
    + unfold successors. destruct Hk as [bb Hbb]. rewrite Hbb. cbn [unwrap mbind result_bind].
      destruct (propagate_all post (<[ b := BlockInvariant_new (bi_pre inv) Success ]> m) wl
        (bb_successors bb)) as (m' & wl' & Hp & Hpr).
      { done. }
      { by apply insert_post_ok. }
      { intros s Hs. apply (Hclosed b s). by exists bb. }
      rewrite Hp. cbn [mbind result_bind fst snd]. apply IH; [by eapply loop_inv_success|].
      pose proof (pr_potential _ _ _ _ _ _ Hpr) as Hpot.
      rewrite insert_post_potential in Hpot by done. unfold potential in *. simpl in Hf. lia.
    + rewrite insert_post_potential by done. unfold potential in *. simpl in Hf. lia.
Qed.

Lemma analyze_function_fixpoint fuel self :
  is_Some (cfg_blocks cfg !! entry_block_id cfg) →
  (size (cfg_blocks cfg) * S max_height <= fuel)%nat →
  ∃ self' m, analyze_function fuel self initial fv = Ok (self', m) ∧ post_fixpoint m.
Proof.
  intros Hk Hf. unfold analyze_function. cbv zeta. apply analyze_loop_spec.
  - constructor.
    + intros b inv [<- <-]%lookup_singleton_Some. done.
    + eexists. rewrite lookup_singleton_eq. split; [reflexivity|]. reflexivity.
    + intros b ->%list_elem_of_singleton. rewrite lookup_singleton_eq. eauto.
    + intros b inv [<- _]%lookup_singleton_Some Hn. destruct Hn. by left.
  - rewrite <- insert_empty.
    pose proof (potential_insert ∅ [entry_block_id cfg] _
      (BlockInvariant_new initial Unprocessed) Hk) as H.
    unfold block_potential in H. rewrite lookup_empty in H. cbn [bi_pre] in H.
    assert (potential ∅ [entry_block_id cfg] = 1 + size (cfg_blocks cfg) * S max_height)%nat as Hp.
    { unfold potential. cbn [length]. f_equal.
      assert (length keys = size (cfg_blocks cfg)) as <-
        by (unfold keys; by rewrite length_fmap, length_map_to_list).
      induction keys as [|k ks IHk]; [done|]. cbn [sum_list_with length]. rewrite IHk.
      unfold block_potential at 1. rewrite lookup_empty. lia. }
    pose proof (al_height initial Hinit). lia.
Qed.
End Interpreter.

(** ** Soundness

    A concrete step on states of type [C] that the transfer functions describe:
    if no block of the fixpoint failed, every step that an execution comes to can
    be taken. *)
Section Soundness.
Context {Self State AnalysisError : Type} `{HD : AbstractDomain State}
  `{HT : TransferFunctions Self State AnalysisError}.
Context (fv : FunctionView) {C : Type} (cstep : Bytecode → C → option C).
Notation code := (cu_code (fv_code fv)).
Notation cfg := (fv_cfg fv).

(** The instructions that an execution may come to, with the state it has there *)
Inductive reaches (start : C) : N → C → Prop :=
| reaches_start : reaches start 0 start
| reaches_step pc c i c' pc' :
    reaches start pc c → at_ code pc = Some i → cstep i c = Some c' → passes_to i pc pc' →
    reaches start pc' c'.

Context (le : relation State) (wf : State → Prop) (height : State → nat) (max_height : nat)
  (allowed : AnalysisError → Prop).
Context `{HL : !AnalysisLaws le wf height max_height allowed code}.
Context (Hlen : len code <= 65534) (Hcfg : cfg_ok code cfg).
Context (γ : State → C → Prop) (γ_le : ∀ a b c, le a b → γ a c → γ b c).
Context (γ_execute : ∀ s a i o l a' c, wf a → at_ code o = Some i →
  snd (execute s a i o l) = Ok a' → γ a c → ∃ c', cstep i c = Some c' ∧ γ a' c').
Context (initial : State) (m : InvariantMap State AnalysisError).
Context (Hfix : post_fixpoint fv le wf allowed initial m).
Context (Hno : ∀ b inv e, m !! b = Some inv → bi_post inv ≠ Error e).

Lemma execute_instrs_app self self' a last os os' :
  snd (execute_instrs self a code last (os ++ os')) =
  match snd (execute_instrs self a code last os) with
  | Ok a' => snd (execute_instrs self' a' code last os')
  | r => r
  end.
Proof.
  revert self a; induction os as [|x os IH]; intros self a.
  { apply (execute_instrs_self fv le wf height max_height allowed). }
  change ((x :: os) ++ os') with (x :: (os ++ os')). unfold execute_instrs at 1 2.
  fold (execute_instrs (Self := Self) (State := State) (AnalysisError := AnalysisError)).
  destruct (at_ code x) as [i|]; [|done].
  destruct (execute self a i x last) as [s1 [a1|e| |]]; [apply IH|done..].
Qed.

(** The state that the analysis has at [pc], inside its block *)
Definition described (pc : N) (c : C) : Prop :=
  ∃ (b : BlockId) bb inv a, cfg_blocks cfg !! b = Some bb ∧ b <= pc ∧ pc <= bb_exit bb ∧
    m !! b = Some inv ∧ wf a ∧ γ a c ∧
    ∀ self, snd (execute_instrs self (bi_pre inv) code (bb_exit bb)
      (N.of_nat <$> seq (N.to_nat b) (N.to_nat (pc - b)))) = Ok a.

Lemma described_start (b : BlockId) bb inv c :
  cfg_blocks cfg !! b = Some bb → m !! b = Some inv → γ (bi_pre inv) c → described b c.
Proof.
  intros Hb Hm Hc. exists b, bb, inv, (bi_pre inv).
  pose proof (bo_exit _ _ _ (co_blocks _ _ Hcfg b bb Hb)) as [Hx _].
  destruct (pf_ok _ _ _ _ _ _ Hfix b inv Hm) as (_ & Hwf & _).
  split_and!; [done|lia|done|done|done|done|]. intros self. by rewrite N.sub_diag.
Qed.
(** Running one instruction of a list *)
Lemma execute_instrs_cons self a last o os r i :
  at_ code o = Some i →
  snd (execute_instrs self a code last (o :: os)) = Ok r →
  ∃ a', snd (execute self a i o last) = Ok a' ∧
    ∀ self', snd (execute_instrs self' a' code last os) = Ok r.
Proof.
  intros Hi. cbn [execute_instrs]. rewrite Hi.
  destruct (execute self a i o last) as [s1 [a1|e| |]]; simpl; [|done..].
  intros H. exists a1. split; [done|]. intros self'. rewrite <- H.
  apply (execute_instrs_self fv le wf height max_height allowed).
Qed.

(** The offsets of a block, split at [pc] *)
Lemma block_offsets (b : BlockId) (pc last : N) :
  b <= pc → pc <= last →
  range_inclusive b last =
  (N.of_nat <$> seq (N.to_nat b) (N.to_nat (pc - b))) ++
  pc :: (N.of_nat <$> seq (S (N.to_nat pc)) (N.to_nat (last - pc))).
Proof.
  intros H1 H2. unfold range_inclusive.
  replace (N.to_nat (last + 1 - b)) with (N.to_nat (pc - b) + S (N.to_nat (last - pc)))%nat by lia.
  rewrite seq_app, fmap_app. f_equal. cbn [seq fmap list_fmap].
  replace (N.to_nat b + N.to_nat (pc - b))%nat with (N.to_nat pc) by lia.
  by rewrite N2Nat.id.
Qed.

Lemma described_step (self0 : Self) pc i c :
  described pc c → at_ code pc = Some i →
  ∃ c', cstep i c = Some c' ∧
    ∀ pc', passes_to i pc pc' → pc' < len code → described pc' c'.
Proof.
  intros (b & bb & inv & a & Hb & H1 & H2 & Hm & Hwf & Hc & Hrun) Hi.
  pose proof (co_blocks _ _ Hcfg b bb Hb) as Hok.
  destruct (pf_settled _ _ _ _ _ _ Hfix b inv Hm) as [[e He]|(post & bb' & Hx & Hb' & Hs)];
    [by edestruct Hno|]. rewrite Hb in Hb'. injection Hb' as <-.
  specialize (Hx self0). unfold execute_block in Hx. rewrite Hb in Hx.
  rewrite (bo_entry _ _ _ Hok), (block_offsets b pc (bb_exit bb) H1 H2) in Hx.
  rewrite (execute_instrs_app self0 self0), Hrun in Hx.
  destruct (execute_instrs_cons _ _ _ _ _ _ _ Hi Hx) as (a' & Ha' & Hrest).
  pose proof (al_execute self0 a i pc (bb_exit bb) Hwf Hi) as Hwf'. rewrite Ha' in Hwf'.
  destruct (γ_execute _ _ _ _ _ _ _ Hwf Hi Ha' Hc) as (c' & Hc' & Hγ).
  exists c'. split; [done|]. intros pc' Hp Hlt.
  destruct (passes_to_cases code cfg b bb pc i pc') as [[Hin ->]|(Hexit & Hsucc & [bb' Hb'])];
    try done.
  - exists b, bb, inv, a'. split_and!; [done|lia|lia|done|done|done|]. intros self.
    replace (N.to_nat (pc + 1 - b)) with (N.to_nat (pc - b) + 1)%nat by lia.
    rewrite seq_app, fmap_app, (execute_instrs_app self self0), Hrun.
    replace (N.to_nat b + N.to_nat (pc - b))%nat with (N.to_nat pc) by lia.
    cbn [seq fmap list_fmap]. rewrite N2Nat.id. cbn [execute_instrs]. rewrite Hi.
    destruct (execute self0 a i pc (bb_exit bb)) as [s1 r1]. simpl in Ha'. by subst r1.
  - specialize (Hrest self0). rewrite Hexit, N.sub_diag in Hrest. injection Hrest as ->.
    destruct (Hs pc' Hsucc) as (inv' & Hm' & Hle).
    eapply described_start; [exact Hb'|exact Hm'|]. by eapply γ_le.
Qed.

Lemma reaches_described (self0 : Self) start pc c :
  γ initial start → is_Some (cfg_blocks cfg !! 0) →
  reaches start pc c → pc < len code → described pc c.
Proof.
  intros Hstart [bb Hb]. induction 1 as [|pc c i c' pc' Hr IH Hi Hstep Hp]; intros Hlt.
  - destruct (pf_entry _ _ _ _ _ _ Hfix) as (inv & Hm & Hle).
    apply (described_start 0 bb inv); [done|done|]. by eapply γ_le.
  - pose proof (at_Some_lt _ _ _ Hi) as Hpc.
    destruct (described_step self0 pc i c (IH Hpc) Hi) as (c'' & Hc'' & Hall).
    rewrite Hstep in Hc''. injection Hc'' as <-. by apply Hall.
Qed.

Lemma interpreter_sound (self0 : Self) start pc c :
  γ initial start → is_Some (cfg_blocks cfg !! 0) →
  reaches start pc c → pc < len code →
  ∃ i c', at_ code pc = Some i ∧ cstep i c = Some c'.
Proof.
  intros Hstart Hk Hr Hlt. destruct (at_lt code pc Hlt) as [i Hi].
  destruct (described_step self0 pc i c) as (c' & Hc' & _); [|done|eauto].
  by eapply reaches_described.
Qed.
End Soundness.
