(* ===== verification/LocalsSafety.v ===== *)
(** * LocalsSafety: locals are assigned before they are used

    Models [language/bytecode-verifier/src/locals_safety], the state, its join and
    the transfer functions, run by the interpreter of [AbsInt].  The soundness
    theorem relates it to the locals of an execution, each full or empty. *)

From stdpp Require Import sorting.
From S2P Require Import Prelude CoreTypes VmStatus Abilities FileFormat Errors DeserializerTotal RoundTrip Views BoundsChecker InBounds CheckedUnits ControlFlowGraph ControlFlow StackUsage AbsInt.

Import Bytecode.

(** ** [abstract_state.rs] *)

(** [pub(crate) enum LocalState] *)
Inductive LocalState : Set := Unavailable | MaybeAvailable | Available.

#[export] Instance LocalState_eq_dec : EqDecision LocalState.
Proof. solve_decision. Defined.

(** [pub(crate) struct AbstractState] *)
Record AbstractState : Set := {
  as_current_function : option FunctionDefinitionIndex;
  all_local_abilities : list AbilitySet;
  local_states : list LocalState }.

(** [AbstractState::new] *)
Definition AbstractState_new (resolver : BinaryIndexedView) (function_view : FunctionView)
  : result PartialVMError AbstractState :=
  let num_args := length (fv_parameters function_view) in
  let num_locals := (num_args + length (fv_locals function_view))%nat in
  let local_states :=
    (λ i, if (i <? num_args)%nat then Available else Unavailable) <$> seq 0 num_locals in
  all_local_abilities ← map_err PartialVMError_new
    (collect (λ st, abilities resolver st (fv_type_parameters function_view))
      (fv_parameters function_view ++ fv_locals function_view));
  Ok {| as_current_function := fv_index function_view;
        local_states := local_states; all_local_abilities := all_local_abilities |}.

Definition local_abilities (self : AbstractState) (idx : LocalIndex)
  : result PartialVMError AbilitySet := unwrap (at_ (all_local_abilities self) idx).
Definition local_state (self : AbstractState) (idx : LocalIndex)
  : result PartialVMError LocalState := unwrap (at_ (local_states self) idx).

(** [self.local_states[idx as usize] = state] *)
Definition set_local (self : AbstractState) (idx : LocalIndex) (state : LocalState)
  : result PartialVMError AbstractState :=
  if idx <? len (local_states self)
  then Ok {| as_current_function := as_current_function self;
             all_local_abilities := all_local_abilities self;
             local_states := <[ N.to_nat idx := state ]> (local_states self) |}
  else Panic.
Definition set_available (self : AbstractState) (idx : LocalIndex)
  : result PartialVMError AbstractState := set_local self idx Available.
(** The [checked_precondition!] is an [assert!]. *)
Definition set_unavailable (self : AbstractState) (idx : LocalIndex)
  : result PartialVMError AbstractState :=
  state ← local_state self idx;
  if bool_decide (state = Available) then set_local self idx Unavailable else Panic.

(** [AbstractState::error] *)
Definition error (self : AbstractState) (status : StatusCode) (offset : CodeOffset)
  : PartialVMError :=
  at_code_offset (PartialVMError_new status) (default 0 (as_current_function self)) offset.

(** The match of [join_] *)
Definition join_local (self_state other_state : LocalState) : LocalState :=
  match self_state, other_state with
  | Unavailable, Unavailable => Unavailable
  | MaybeAvailable, Unavailable | Unavailable, MaybeAvailable
  | MaybeAvailable, MaybeAvailable | MaybeAvailable, Available
  | Available, MaybeAvailable | Unavailable, Available
  | Available, Unavailable => MaybeAvailable
  | Available, Available => Available
  end.

Definition join_ (self other : AbstractState) : result StatusCode AbstractState :=
  if bool_decide (as_current_function self = as_current_function other)
     && (len (all_local_abilities self) =? len (all_local_abilities other))
     && (len (local_states self) =? len (local_states other))
  then Ok {| as_current_function := as_current_function self;
             all_local_abilities := all_local_abilities self;
             local_states := zip_with join_local (local_states self) (local_states other) |}
  else Panic.

(** [AbstractState::join] *)
Definition join_state (self state : AbstractState)
  : result StatusCode (AbstractState * JoinResult) :=
  joined ← join_ self state;
  if negb (len (local_states self) =? len (local_states joined)) then Panic else
  let locals_unchanged :=
    forallb (λ p, bool_decide (p.1 = p.2)) (zip (local_states self) (local_states joined)) in
  if locals_unchanged then Ok (self, Unchanged) else Ok (joined, Changed).

#[export] Instance AbstractState_domain : AbstractDomain AbstractState := { join := join_state }.

(** ** [mod.rs] *)

(** The loop of the [Ret] case of [execute_inner] *)
Definition check_ret (state : AbstractState) (offset : CodeOffset)
  : result PartialVMError unit :=
  if negb (len (local_states state) =? len (all_local_abilities state)) then Panic else
  for_each (λ p : LocalState * AbilitySet,
    match p.1 with
    | MaybeAvailable | Available =>
        if negb (has_drop p.2)
        then Err (error state UNSAFE_RET_UNUSED_VALUES_WITHOUT_DROP offset)
        else Ok tt
    | Unavailable => Ok tt
    end) (zip (local_states state) (all_local_abilities state)).

Definition execute_inner (state : AbstractState) (bytecode : Bytecode) (offset : CodeOffset)
  : result PartialVMError AbstractState :=
  match bytecode with
  | StLoc idx =>
      s ← local_state state idx;
      match s with
      | MaybeAvailable | Available =>
          abilities ← local_abilities state idx;
          if negb (has_drop abilities)
          then Err (error state STLOC_UNSAFE_TO_DESTROY_ERROR offset)
          else set_available state idx
      | Unavailable => set_available state idx
      end
  | MoveLoc idx =>
      s ← local_state state idx;
      match s with
      | MaybeAvailable | Unavailable => Err (error state MOVELOC_UNAVAILABLE_ERROR offset)
      | Available => set_unavailable state idx
      end
  | CopyLoc idx =>
      s ← local_state state idx;
      match s with
      | MaybeAvailable | Unavailable => Err (error state COPYLOC_UNAVAILABLE_ERROR offset)
      | Available => Ok state
      end
  | MutBorrowLoc idx | ImmBorrowLoc idx =>
      s ← local_state state idx;
      match s with
      | Unavailable | MaybeAvailable => Err (error state BORROWLOC_UNAVAILABLE_ERROR offset)
      | Available => Ok state
      end
  | Ret => _ ← check_ret state offset; Ok state
  | Pop | BrTrue _ | BrFalse _ | Abort | Branch _ | Nop | FreezeRef | MutBorrowField _
  | MutBorrowFieldGeneric _ | ImmBorrowField _ | ImmBorrowFieldGeneric _ | LdU8 _ | LdU64 _
  | LdU128 _ | LdConst _ | LdTrue | LdFalse | Call _ | CallGeneric _ | Pack _ | PackGeneric _
  | Unpack _ | UnpackGeneric _ | ReadRef | WriteRef | CastU8 | CastU64 | CastU128 | Add | Sub
  | Mul | Mod | Div | BitOr | BitAnd | Xor | Shl | Shr | Or | And | Not | Eq | Neq | Lt | Gt
  | Le | Ge | MutBorrowGlobal _ | MutBorrowGlobalGeneric _ | ImmBorrowGlobal _
  | ImmBorrowGlobalGeneric _ | Exists _ | ExistsGeneric _ | MoveFrom _ | MoveFromGeneric _
  | MoveTo _ | MoveToGeneric _ | VecPack _ _ | VecLen _ | VecImmBorrow _ | VecMutBorrow _
  | VecPushBack _ | VecPopBack _ | VecUnpack _ _ | VecSwap _ => Ok state
  end.

(** [struct LocalsSafetyAnalysis()] *)
Definition LocalsSafetyAnalysis : Set := unit.

#[export] Instance LocalsSafety_transfer
  : TransferFunctions LocalsSafetyAnalysis AbstractState PartialVMError :=
  { execute self state bytecode index _last_index := (self, execute_inner state bytecode index) }.

(** The number of blocks the interpreter processes at most: a block is queued
    when it is reached and each time one of its locals becomes [MaybeAvailable]. *)
Definition analysis_fuel (state : AbstractState) (function_view : FunctionView) : nat :=
  size (cfg_blocks (fv_cfg function_view)) * S (length (local_states state)).

(** [pub(crate) fn verify]; the invariants come out of the [BTreeMap] in the order
    of their blocks. *)
Definition verify (resolver : BinaryIndexedView) (function_view : FunctionView)
  : result PartialVMError unit :=
  initial_state ← AbstractState_new resolver function_view;
  analysis ← map_err PartialVMError_new
    (analyze_function (Self := LocalsSafetyAnalysis) (AnalysisError := PartialVMError)
       (analysis_fuel initial_state function_view) tt initial_state function_view);
  let inv_map := snd analysis in
  for_each (λ block_id : BlockId,
    match inv_map !! block_id with
    | Some invariant =>
        match bi_post invariant with
        | Error err => Err err
        | Unprocessed | Success => Ok tt
        end
    | None => Ok tt
    end) (merge_sort N.le (map_to_list inv_map).*1).

(** ** Specification: the locals of an execution, full or empty *)

Definition Locals : Set := list bool.

(** One instruction on the locals; [None] if it reads an empty local, or loses a
    value that may not be dropped. *)
Definition local_step (local_abilities : list AbilitySet) (i : Bytecode) (locals : Locals)
  : option Locals :=
  match i with
  | StLoc idx =>
      full ← at_ locals idx;
      ability ← at_ local_abilities idx;
      if full && negb (has_drop ability) then None
      else Some (<[ N.to_nat idx := true ]> locals)
  | MoveLoc idx =>
      full ← at_ locals idx;
      if full : bool then Some (<[ N.to_nat idx := false ]> locals) else None
  | CopyLoc idx | MutBorrowLoc idx | ImmBorrowLoc idx =>
      full ← at_ locals idx;
      if full : bool then Some locals else None
  | Ret =>
      if forallb (λ p, negb p.1 || has_drop p.2) (zip locals local_abilities)
      then Some locals else None
  | _ => Some locals
  end.

(** The locals at the start: the parameters are full. *)
Definition initial_locals (fv : FunctionView) : Locals :=
  replicate (length (fv_parameters fv)) true ++ replicate (length (fv_locals fv)) false.

(** The local an instruction names *)
Definition local_of (i : Bytecode) : option LocalIndex :=
  match i with
  | CopyLoc idx | MoveLoc idx | StLoc idx | MutBorrowLoc idx | ImmBorrowLoc idx => Some idx
  | _ => None
  end.
Definition locals_in_range (n : N) (code : list Bytecode) : Prop :=
  Forall (λ i, ∀ idx, local_of i = Some idx → idx < n) code.

(** The error an instruction may be rejected with *)
Definition status_of (i : Bytecode) : option StatusCode :=
  match i with
  | StLoc _ => Some STLOC_UNSAFE_TO_DESTROY_ERROR
  | MoveLoc _ => Some MOVELOC_UNAVAILABLE_ERROR
  | CopyLoc _ => Some COPYLOC_UNAVAILABLE_ERROR
  | MutBorrowLoc _ | ImmBorrowLoc _ => Some BORROWLOC_UNAVAILABLE_ERROR
  | Ret => Some UNSAFE_RET_UNUSED_VALUES_WITHOUT_DROP
  | _ => None
  end.
(** An error that names an instruction of the function, with a reason for it *)
Definition locals_error (f : option FunctionDefinitionIndex) (code : list Bytecode)
    (e : PartialVMError) : Prop :=
  ∃ o i status, at_ code o = Some i ∧ status_of i = Some status ∧
    e = at_code_offset (PartialVMError_new status) (default 0 f) o.

(** ** The domain *)

Definition ls_le (x y : LocalState) : Prop := x = y ∨ y = MaybeAvailable.

#[export] Instance ls_le_preorder : PreOrder ls_le.
Proof.
  split; [intros x; by left|].
  intros x y z [] []; subst; first [by left | by right].
Qed.

Definition state_le (a b : AbstractState) : Prop :=
  as_current_function a = as_current_function b ∧
  all_local_abilities a = all_local_abilities b ∧
  Forall2 ls_le (local_states a) (local_states b).

#[export] Instance state_le_preorder : PreOrder state_le.
Proof.
  split.
  - intros a. split_and!; reflexivity.
  - intros a b c (H1 & H2 & H3) (H1' & H2' & H3'). split_and!; by etrans.
Qed.

(** Locals that a later join cannot change any more *)
Definition height (a : AbstractState) : nat :=
  length (filter (λ s, s ≠ MaybeAvailable) (local_states a)).

(** The states of one function *)
Definition state_wf (f : option FunctionDefinitionIndex) (abil : list AbilitySet)
    (a : AbstractState) : Prop :=
  as_current_function a = f ∧ all_local_abilities a = abil ∧
  length (local_states a) = length abil.

Lemma join_local_spec x y :
  ls_le x (join_local x y) ∧ ls_le y (join_local x y) ∧
  (x ≠ join_local x y → x ≠ MaybeAvailable ∧ join_local x y = MaybeAvailable).
Proof. unfold ls_le. destruct x, y; simpl; naive_solver. Qed.

Lemma join_locals_le xs ys :
  length xs = length ys →
  Forall2 ls_le xs (zip_with join_local xs ys) ∧ Forall2 ls_le ys (zip_with join_local xs ys).
Proof.
  revert ys; induction xs as [|x xs IH]; intros [|y ys] Hlen; try done.
  destruct (IH ys) as [H1 H2]; [simpl in Hlen; lia|].
  destruct (join_local_spec x y) as (? & ? & _). by split; constructor.
Qed.

Definition undecided (xs : list LocalState) : nat := length (filter (λ s, s ≠ MaybeAvailable) xs).

Lemma join_locals_changed xs ys :
  length xs = length ys →
  if forallb (λ p, bool_decide (p.1 = p.2)) (zip xs (zip_with join_local xs ys))
  then zip_with join_local xs ys = xs
  else (undecided (zip_with join_local xs ys) < undecided xs)%nat.
Proof.
  unfold undecided.
  enough (length xs = length ys →
    (undecided (zip_with join_local xs ys) <= undecided xs)%nat ∧
    if forallb (λ p, bool_decide (p.1 = p.2)) (zip xs (zip_with join_local xs ys))
    then zip_with join_local xs ys = xs
    else (undecided (zip_with join_local xs ys) < undecided xs)%nat) as H
    by (intros Hlen; apply (H Hlen)).
  unfold undecided.
  revert ys; induction xs as [|x xs IH]; intros [|y ys] Hlen; try done.
  destruct (IH ys) as [H1 H2]; [simpl in Hlen; lia|]. clear IH.
  destruct (join_local_spec x y) as (_ & _ & Hx).
  cbn [zip_with zip forallb fst snd]. rewrite !filter_cons.
  destruct (decide (x = join_local x y)) as [He|Hne].
  - rewrite <- He. rewrite bool_decide_true by done. cbn [andb].
    destruct (forallb _ _); [rewrite H2|]; case_decide; simpl; split; try done; lia.
  - destruct (Hx Hne) as [Hm ->]. rewrite bool_decide_false by done. cbn [andb].
    rewrite (decide_True (P := x ≠ MaybeAvailable)) by done.
    rewrite decide_False by (intros Hn; by apply Hn). simpl. lia.
Qed.

Lemma join_state_spec f abil a b :
  state_wf f abil a → state_wf f abil b →
  ∃ c r, join_state a b = Ok (c, r) ∧ state_wf f abil c ∧ state_le a c ∧ state_le b c ∧
    match r with Unchanged => c = a | Changed => (height c < height a)%nat end.
Proof.
  intros (Ha1 & Ha2 & Ha3) (Hb1 & Hb2 & Hb3). unfold join_state, join_.
  rewrite bool_decide_true by congruence.
  assert (len (all_local_abilities a) = len (all_local_abilities b)) as -> by congruence.
  assert (length (local_states a) = length (local_states b)) as Hlen by congruence.
  assert (len (local_states a) = len (local_states b)) as -> by (unfold len; congruence).
  rewrite !N.eqb_refl. cbn [andb mbind result_bind local_states].
  set (js := zip_with join_local (local_states a) (local_states b)).
  assert (length js = length (local_states b)) as Hjs by (unfold js; rewrite length_zip_with; lia).
  replace (len (local_states b) =? len js) with true by (unfold len; lia). cbn [negb].
  destruct (join_locals_le _ _ Hlen) as [L1 L2]. pose proof (join_locals_changed _ _ Hlen) as Hc.
  fold js in L1, L2, Hc. destruct (forallb _ _).
  - exists a, Unchanged. rewrite Hc in L2. unfold state_wf, state_le.
    split_and!; try done; congruence.
  - eexists _, Changed. split; [reflexivity|]. unfold state_wf, state_le.
    split_and!; cbn [as_current_function all_local_abilities local_states];
      first [done | congruence | exact Hc].
Qed.

(** ** The transfer functions *)

Definition local_holds (s : LocalState) (full : bool) : Prop :=
  match s with
  | Available => full = true
  | Unavailable => full = false
  | MaybeAvailable => True
  end.
(** The locals that an abstract state describes *)
Definition describes (a : AbstractState) (locals : Locals) : Prop :=
  Forall2 local_holds (local_states a) locals.

Lemma describes_le a b locals : state_le a b → describes a locals → describes b locals.
Proof.
  unfold describes. intros (_ & _ & Hle). revert locals.
  induction Hle as [|x y xs ys Hxy _ IH]; intros locals H; [done|].
  inversion H; subst. constructor; [|auto]. by destruct Hxy as [<-| ->].
Qed.

Lemma describes_at a locals idx s :
  describes a locals → at_ (local_states a) idx = Some s →
  ∃ full, at_ locals idx = Some full ∧ local_holds s full.
Proof. intros H Hs. eapply Forall2_lookup_l in Hs as (full & ? & ?); [|exact H]. eauto. Qed.

Lemma set_local_spec a idx s a' :
  set_local a idx s = Ok a' →
  as_current_function a' = as_current_function a ∧
  all_local_abilities a' = all_local_abilities a ∧
  local_states a' = <[ N.to_nat idx := s ]> (local_states a).
Proof. unfold set_local. case_match; [|done]. by intros [= <-]. Qed.

Lemma describes_set a a' locals idx s full :
  describes a locals → set_local a idx s = Ok a' → local_holds s full →
  describes a' (<[ N.to_nat idx := full ]> locals).
Proof.
  unfold describes. intros H (_ & _ & ->)%set_local_spec Hs. by apply Forall2_insert.
Qed.

Lemma set_local_total f abil a idx s :
  state_wf f abil a → idx < len abil → ∃ a', set_local a idx s = Ok a' ∧ state_wf f abil a'.
Proof.
  intros (H1 & H2 & H3) Hidx. unfold set_local.
  destruct (N.ltb_spec idx (len (local_states a))); [|unfold len in *; lia].
  eexists; split; [reflexivity|].
  split_and!; cbn [as_current_function all_local_abilities local_states]; try done.
  by rewrite length_insert.
Qed.

Lemma check_ret_errs state offset :
  length (local_states state) = length (all_local_abilities state) →
  match check_ret state offset with
  | Ok _ => True
  | Err e => e = error state UNSAFE_RET_UNUSED_VALUES_WITHOUT_DROP offset
  | _ => False
  end.
Proof.
  intros Hlen. unfold check_ret.
  replace (len (local_states state) =? len (all_local_abilities state)) with true
    by (unfold len; lia).
  cbn [negb].
  match goal with |- match ?r with _ => _ end =>
    enough (errs (eq (error state UNSAFE_RET_UNUSED_VALUES_WITHOUT_DROP offset)) r) by (by destruct r)
  end.
  apply errs_for_each. intros [s ab] _. simpl. by repeat case_match.
Qed.

Lemma execute_inner_wf f abil a code i o :
  state_wf f abil a → at_ code o = Some i → (∀ idx, local_of i = Some idx → idx < len abil) →
  match execute_inner a i o with
  | Ok a' => state_wf f abil a' | Err e => locals_error f code e | _ => False end.
Proof.
  intros Ha Hi Hidx. pose proof Ha as (H1 & H2 & H3).
  assert (∀ idx, local_of i = Some idx →
    (∃ s, local_state a idx = Ok s) ∧ (∃ ab, local_abilities a idx = Ok ab)) as Hget.
  { intros idx Hl. specialize (Hidx idx Hl). unfold local_state, local_abilities. rewrite H2.
    destruct (at_lt (local_states a) idx) as [s ->]; [unfold len in *; lia|].
    destruct (at_lt abil idx Hidx) as [ab ->]. eauto. }
  assert (∀ status, status_of i = Some status → locals_error f code (error a status o)) as Herr.
  { intros status Hs. exists o, i, status. unfold error. by rewrite H1. }
  destruct i; try exact Ha; cbn [execute_inner local_of status_of] in *;
    try (destruct (Hget _ eq_refl) as [[s Hs] [ab Hab]]; rewrite Hs; cbn [mbind result_bind]).
  - pose proof (check_ret_errs a o) as Hr. rewrite H2 in Hr. specialize (Hr H3).
    destruct (check_ret a o); [exact Ha|subst; by apply Herr|done..].
  - destruct s; auto.
  - destruct s; [auto..|]. unfold set_unavailable. rewrite Hs. cbn [mbind result_bind].
    rewrite bool_decide_true by done.
    destruct (set_local_total f abil a _ Unavailable Ha (Hidx _ eq_refl)) as (a' & -> & ?). done.
  - destruct (set_local_total f abil a _ Available Ha (Hidx _ eq_refl)) as (a' & Hset & ?).
    unfold set_available. rewrite Hset, Hab. cbn [mbind result_bind].
    destruct s; [done|destruct (has_drop ab); simpl; auto..].
  - destruct s; auto.
  - destruct s; auto.
Qed.

Lemma check_ret_locals a o locals :
  check_ret a o = Ok tt → describes a locals →
  forallb (λ p, negb p.1 || has_drop p.2) (zip locals (all_local_abilities a)) = true.
Proof.
  unfold check_ret, describes. destruct (negb _); [done|]. rewrite for_each_Ok.
  generalize (all_local_abilities a). intros abil Hf Hd. revert abil Hf.
  induction Hd as [|s full ss ls Hs _ IH]; intros [|ab abil] Hf; try done.
  change (zip (?x :: ?xs) (?y :: ?ys)) with ((x, y) :: zip xs ys) in *.
  apply Forall_cons in Hf as [Hab Hf]. cbn [forallb fst snd].
  rewrite (IH abil Hf), andb_true_r. simpl in Hab. destruct s; simpl in Hs; subst; [done|..];
    destruct (has_drop ab); [by rewrite orb_true_r|done|by rewrite orb_true_r|done].
Qed.

Lemma execute_inner_sound f abil a i o a' locals :
  state_wf f abil a → execute_inner a i o = Ok a' → describes a locals →
  ∃ locals', local_step abil i locals = Some locals' ∧ describes a' locals'.
Proof.
  intros (H1 & H2 & H3) Hx Hd.
  assert (∀ idx s, local_state a idx = Ok s →
    ∃ full, at_ locals idx = Some full ∧ local_holds s full) as Hget.
  { intros idx s Hs. unfold local_state in Hs. destruct (at_ _ idx) as [s'|] eqn:E; [|done].
    injection Hs as ->. by eapply describes_at. }
  destruct i; cbn [execute_inner] in Hx; try (injection Hx as <-; by exists locals).
  - apply bind_Ok in Hx as ([] & Hr & [= <-]). exists locals. split; [|done].
    cbn [local_step]. rewrite <- H2. by rewrite (check_ret_locals a o locals Hr Hd).
  - apply bind_Ok in Hx as (s & Hs & Hx). destruct (Hget _ _ Hs) as (full & Hf & Hh).
    destruct s; try done. injection Hx as <-. simpl in Hh. subst full.
    exists locals. cbn [local_step]. by rewrite Hf.
  - apply bind_Ok in Hx as (s & Hs & Hx). destruct (Hget _ _ Hs) as (full & Hf & Hh).
    destruct s; try done. simpl in Hh. subst full. unfold set_unavailable in Hx.
    rewrite Hs in Hx. cbn [mbind result_bind] in Hx. rewrite bool_decide_true in Hx by done.
    eexists. cbn [local_step]. rewrite Hf. split; [reflexivity|]. by eapply describes_set.
  - apply bind_Ok in Hx as (s & Hs & Hx). destruct (Hget _ _ Hs) as (full & Hf & Hh).
    assert (∃ ab, at_ abil a0 = Some ab) as [ab Hab].
    { apply at_lt. unfold local_state in Hs. destruct (at_ (local_states a) a0) eqn:E; [|done].
      apply at_Some_lt in E. unfold len in *. lia. }
    cbn [local_step]. rewrite Hf, Hab. cbn [mbind option_bind].
    assert (full && negb (has_drop ab) = false ∧ set_available a a0 = Ok a') as [-> Hset].
    { unfold local_abilities in Hx. rewrite H2, Hab in Hx. cbn [unwrap mbind result_bind] in Hx.
      destruct s; simpl in Hh; subst; [done| |]; destruct (has_drop ab); try done;
        by rewrite andb_false_r. }
    eexists. split; [reflexivity|]. by eapply describes_set.
  - apply bind_Ok in Hx as (s & Hs & Hx). destruct (Hget _ _ Hs) as (full & Hf & Hh).
    destruct s; try done. injection Hx as <-. simpl in Hh. subst full.
    exists locals. cbn [local_step]. by rewrite Hf.
  - apply bind_Ok in Hx as (s & Hs & Hx). destruct (Hget _ _ Hs) as (full & Hf & Hh).
    destruct s; try done. injection Hx as <-. simpl in Hh. subst full.
    exists locals. cbn [local_step]. by rewrite Hf.
Qed.

(** ** The functions the analysis is run on

    A function of a module, or the main function of a script, of a unit that
    passed the bounds check.  That check leaves out the type parameters in the
    types of a script's parameters. *)
Definition checked_function (resolver : BinaryIndexedView) (fv : FunctionView) : Prop :=
  match resolver with
  | VModule m =>
      verify_module m = Ok tt ∧ ∃ index d h c, d ∈ m_function_defs m ∧ fdef_code d = Some c ∧
        at_ (m_function_handles m) (fdef_function d) = Some h ∧ function m index c h = Ok fv
  | VScript s =>
      verify_script s = Ok tt ∧ script s = Ok fv ∧
      Forall (params_below (len (s_type_parameters s))) (fv_parameters fv)
  end.

(** What the analysis needs of them *)
Record ready (resolver : BinaryIndexedView) (fv : FunctionView) : Prop := {
  rd_cfg : cfg_ok (cu_code (fv_code fv)) (fv_cfg fv);
  rd_closed : closed (fv_cfg fv);
  rd_entry : is_Some (cfg_blocks (fv_cfg fv) !! ENTRY_BLOCK_ID);
  rd_locals : locals_in_range (len (fv_parameters fv ++ fv_locals fv)) (cu_code (fv_code fv));
  rd_abilities : Forall (λ t, ∃ a, abilities resolver t (fv_type_parameters fv) = Ok a)
    (fv_parameters fv ++ fv_locals fv) }.

Lemma types_have_abilities v sig idx (constraints : list AbilitySet) :
  unit_in_bounds v → at_ (view_signatures v) idx = Some sig →
  Forall (params_below (len constraints)) sig →
  Forall (λ t, ∃ a, abilities v t constraints = Ok a) sig.
Proof.
  intros Hv Hs Hp. pose proof (Forall_lookup_1 _ _ _ _ (ib_signatures _ Hv) Hs) as Ht.
  rewrite Forall_forall in Hp, Ht |- *. intros t Hin. apply abilities_total; auto.
Qed.

Lemma in_bounds_operands v locals tparams code :
  Forall (bytecode_in_bounds v locals tparams (len code)) code →
  branches_in_bounds code ∧ locals_in_range locals code.
Proof.
  intros H. split; eapply Forall_impl; try exact H; intros i [Ho _] x Hx.
  - destruct i; try done; injection Hx as ->; exact Ho.
  - destruct i; try done; injection Hx as ->; exact Ho.
Qed.

Lemma ready_code v fv parameters :
  unit_in_bounds v → code_in_bounds v (fv_code fv) (len (fv_type_parameters fv)) parameters →
  fv_parameters fv = parameters → at_ (view_signatures v) (cu_locals (fv_code fv)) = Some (fv_locals fv) →
  Forall (λ t, ∃ a, abilities v t (fv_type_parameters fv) = Ok a) parameters →
  VMControlFlowGraph_new (E := StatusCode) (cu_code (fv_code fv)) = Ok (fv_cfg fv) →
  0 < len (cu_code (fv_code fv)) → len (cu_code (fv_code fv)) <= 65534 → ready v fv.
Proof.
  intros Hv (ls & Hls & Hpb & Hcode) Hps Hlocals Hab Hnew Hpos Hlen.
  rewrite Hlocals in Hls. injection Hls as <-. subst parameters.
  destruct (in_bounds_operands _ _ _ _ Hcode) as [Hbr Hrange].
  destruct (new_ok (cu_code (fv_code fv)) Hlen) as (cfg & Hcfg & Hok).
  rewrite Hcfg in Hnew. injection Hnew as ->. constructor; [done| | | |].
  - by apply (co_closed _ _ Hok).
  - apply (co_leaders _ _ Hok 0); [done|by left].
  - rewrite len_app, N.add_comm. exact Hrange.
  - apply Forall_app. split; [done|]. by eapply types_have_abilities.
Qed.

Lemma checked_function_ready resolver fv :
  checked_function resolver fv →
  0 < len (cu_code (fv_code fv)) → len (cu_code (fv_code fv)) <= 65534 → ready resolver fv.
Proof.
  destruct resolver as [m|s]; unfold checked_function.
  - intros ([_ Hm]%verify_module_iff & index & d & h & c & Hd & Hc & Hh & Hf).
    pose proof (proj1 (Forall_forall _ _) (ib_function_defs _ Hm) d Hd) as (_ & _ & Hcode).
    destruct (Hcode c Hc) as (h' & ps & ls & Hh' & Hps & Hls & _ & Hin). cbn in Hh'.
    rewrite Hh in Hh'. injection Hh' as <-.
    unfold function, signature_at in Hf. rewrite Hls, Hps in Hf. cbn [unwrap mbind result_bind] in Hf.
    apply bind_Ok in Hf as (ret & _ & (cfg & Hcfg & [= <-])%bind_Ok).
    apply (ready_code _ _ ps); try done. cbn [fv_type_parameters].
    pose proof (Forall_lookup_1 _ _ _ _ (ib_function_handles _ Hm) Hh) as (_ & _ & _ & _ & Hp & _).
    eapply types_have_abilities; [done|exact Hps|]. by apply Hp.
  - intros ((Hs & ps & Hps & Hin)%verify_script_iff & Hf & Hpb).
    unfold script, signature_at in Hf. cbn [view_signatures] in Hf. rewrite Hps in Hf.
    cbn [unwrap mbind result_bind] in Hf.
    apply bind_Ok in Hf as (ls & Hls & (cfg & Hcfg & [= <-])%bind_Ok).
    destruct (at_ (s_signatures s) (cu_locals (s_code s))) as [ls'|] eqn:E; [|done].
    injection Hls as ->.
    apply (ready_code _ _ ps); try done. cbn [fv_type_parameters fv_parameters] in *.
    by eapply types_have_abilities.
Qed.

(** ** The analysis *)

Section Analysis.
Context (resolver : BinaryIndexedView) (fv : FunctionView) (Hready : ready resolver fv).
Notation code := (cu_code (fv_code fv)).

Lemma initial_state :
  ∃ st, AbstractState_new resolver fv = Ok st ∧ as_current_function st = fv_index fv ∧
    len (all_local_abilities st) = len (fv_parameters fv ++ fv_locals fv) ∧
    state_wf (fv_index fv) (all_local_abilities st) st ∧ describes st (initial_locals fv).
Proof.
  unfold AbstractState_new. cbv zeta.
  destruct (collect_total _ _ (rd_abilities _ _ Hready)) as (abil & -> & Hlen).
  eexists; split; [reflexivity|]. cbn [as_current_function all_local_abilities local_states].
  split_and!; [done|by unfold len; rewrite Hlen| |].
  - unfold state_wf. cbn [as_current_function all_local_abilities local_states].
    by rewrite Hlen, length_fmap, length_seq, length_app.
  - unfold describes, initial_locals. cbn [local_states].
    rewrite seq_app, fmap_app. apply Forall2_app; apply Forall2_fmap_l, Forall2_replicate_r;
      try apply length_seq; apply Forall_forall; intros i Hi%elem_of_seq;
      unfold flip, compose; cbv beta;
      destruct (Nat.ltb_spec i (length (fv_parameters fv))); simpl; try done; lia.
Qed.

Lemma undecided_le xs : (undecided xs <= length xs)%nat.
Proof. unfold undecided. apply length_filter. Qed.

Lemma locals_laws abil :
  len abil = len (fv_parameters fv ++ fv_locals fv) →
  AnalysisLaws (Self := LocalsSafetyAnalysis) (AnalysisError := PartialVMError)
    state_le (state_wf (fv_index fv) abil) height (length abil)
    (locals_error (fv_index fv) code) code.
Proof.
  intros Hlen. constructor.
  - apply _.
  - intros a b. apply join_state_spec.
  - intros a (_ & _ & <-). apply undecided_le.
  - done.
  - intros s a i o l Ha Hi. apply (execute_inner_wf (fv_index fv) abil); [done..|].
    intros idx Hidx. rewrite Hlen.
    by apply (Forall_lookup_1 _ _ _ _ (rd_locals _ _ Hready) Hi).
Qed.

Lemma analysis_fixpoint st :
  len (all_local_abilities st) = len (fv_parameters fv ++ fv_locals fv) →
  state_wf (fv_index fv) (all_local_abilities st) st →
  ∃ m, analyze_function (Self := LocalsSafetyAnalysis) (AnalysisError := PartialVMError)
      (analysis_fuel st fv) tt st fv = Ok (tt, m) ∧
    post_fixpoint (Self := LocalsSafetyAnalysis) fv state_le
      (state_wf (fv_index fv) (all_local_abilities st)) (locals_error (fv_index fv) code) st m.
Proof.
  intros Hlen Hwf. pose proof (locals_laws _ Hlen) as HL.
  destruct (analyze_function_fixpoint fv _ _ _ _ _ (rd_cfg _ _ Hready) (rd_closed _ _ Hready)
    st Hwf (analysis_fuel st fv) tt) as ([] & m & Hm & Hp); [apply (rd_entry _ _ Hready)| |eauto].
  destruct Hwf as (_ & _ & Hl). unfold analysis_fuel. by rewrite Hl.
Qed.

Lemma locals_errs : errs (locals_error (fv_index fv) code) (verify resolver fv).
Proof.
  destruct initial_state as (st & Hst & _ & Hlen & Hwf & _).
  destruct (analysis_fixpoint st Hlen Hwf) as (m & Hm & Hfix).
  unfold verify. rewrite Hst. cbn [mbind result_bind]. rewrite Hm.
  cbn [map_err mbind result_bind snd]. apply errs_for_each. intros b _.
  destruct (m !! b) as [inv|] eqn:Hb; [|done].
  destruct (pf_ok _ _ _ _ _ _ Hfix b inv Hb) as (_ & _ & He).
  destruct (bi_post inv) as [| |e]; [done..|]. by apply He.
Qed.

Lemma locals_sound st pc locals :
  len code <= 65534 → AbstractState_new resolver fv = Ok st → verify resolver fv = Ok tt →
  reaches fv (local_step (all_local_abilities st)) (initial_locals fv) pc locals → pc < len code →
  ∃ i locals', at_ code pc = Some i ∧
    local_step (all_local_abilities st) i locals = Some locals'.
Proof.
  intros Hcode Hst Hv Hr Hpc.
  destruct initial_state as (st' & Hst' & _ & Hlen & Hwf & Hd).
  rewrite Hst in Hst'. injection Hst' as <-.
  destruct (analysis_fixpoint st Hlen Hwf) as (m & Hm & Hfix).
  unfold verify in Hv. rewrite Hst in Hv. cbn [mbind result_bind] in Hv. rewrite Hm in Hv.
  cbn [map_err mbind result_bind snd] in Hv. rewrite for_each_Ok, Forall_forall in Hv.
  pose proof (locals_laws _ Hlen) as HL.
  eapply (interpreter_sound (Self := LocalsSafetyAnalysis) fv
    (local_step (all_local_abilities st)) _ _ _ _ _ Hcode (rd_cfg _ _ Hready) describes
    describes_le); [|exact Hfix| |exact tt|exact Hd|apply (rd_entry _ _ Hready)|exact Hr|done].
  - intros s a i o l a' c Ha _ Hx.
    exact (execute_inner_sound _ _ _ _ _ _ _ Ha Hx).
  - intros b inv e Hb He. specialize (Hv b). rewrite Hb, He in Hv. enough (Err e = Ok tt) by done.
    apply Hv. rewrite merge_sort_Permutation. apply list_elem_of_fmap. exists (b, inv).
    by rewrite elem_of_map_to_list.
Qed.
End Analysis.

(** ** Properties *)

(** C19. In a function of a unit that passed the bounds check, which the locals-safety
    pass accepts, every execution from the start can take each instruction that it comes
    to: no local is read or borrowed while it is empty, and no value without the drop
    ability is overwritten or left in a local at a return. *)
Theorem locals_safety_sound (resolver : BinaryIndexedView) (fv : FunctionView)
    (st : AbstractState) (pc : N) (locals : Locals) :
  let code := cu_code (fv_code fv) in
  checked_function resolver fv → 0 < len code → len code <= 65534 →
  AbstractState_new resolver fv = Ok st → verify resolver fv = Ok tt →
  reaches fv (local_step (all_local_abilities st)) (initial_locals fv) pc locals →
  pc < len code →
  ∃ i locals', at_ code pc = Some i ∧
    local_step (all_local_abilities st) i locals = Some locals'.
Proof.
  cbv zeta. intros Hc Hpos Hlen. pose proof (checked_function_ready _ _ Hc Hpos Hlen) as Hr.
  by apply (locals_sound _ _ Hr).
Qed.

(** On a function of a unit that passed the bounds check the locals-safety pass ends
    within its fuel, without a panic although it indexes locals and blocks and asserts
    preconditions, and an error it returns names an instruction of the code with the
    reason that fits it. *)
Theorem locals_safety_total (resolver : BinaryIndexedView) (fv : FunctionView) :
  checked_function resolver fv →
  0 < len (cu_code (fv_code fv)) → len (cu_code (fv_code fv)) <= 65534 →
  no_panic (verify resolver fv) ∧
  ∀ e, verify resolver fv = Err e → locals_error (fv_index fv) (cu_code (fv_code fv)) e.
Proof.
  intros Hc Hpos Hlen.
  pose proof (locals_errs _ _ (checked_function_ready _ _ Hc Hpos Hlen)) as H.
  split; [by eapply errs_no_panic|]. intros e He. by rewrite He in H.
Qed.

(** A script that stores a [u8] in one branch and leaves a flag in the other *)
Definition locals_code : list Bytecode :=
  [LdTrue; BrFalse 4; LdU8 7; StLoc 1; LdU8 3; StLoc 0; MoveLoc 0; Bytecode.Pop; Ret].

Definition locals_script (type_parameters : list AbilitySet) (parameters : Signature)
    (code : list Bytecode) : CompiledScript :=
  {| s_version := 4; s_module_handles := []; s_struct_handles := []; s_function_handles := [];
     s_function_instantiations := []; s_identifiers := []; s_address_identifiers := [];
     s_signatures := [parameters; [SignatureToken.U8; SignatureToken.U8]];
     s_constant_pool := []; s_type_parameters := type_parameters; s_parameters := 0;
     s_code := {| cu_locals := 1; cu_code := code |} |}.

Definition good_script : CompiledScript := locals_script [] [] locals_code.

Lemma locals_safety_sound_witness :
  ∃ fv st, script good_script = Ok fv ∧ AbstractState_new (VScript good_script) fv = Ok st ∧
    ∃ locals', local_step (all_local_abilities st) (StLoc 0) [false; false] = Some locals'.
Proof.
  assert (∃ fv, script good_script = Ok fv) as [fv Hfv] by (eexists; vm_compute; reflexivity).
  pose proof Hfv as Hc. vm_compute in Hc. injection Hc as Hc.
  assert (∃ st, AbstractState_new (VScript good_script) fv = Ok st) as [st Hst]
    by (subst fv; eexists; vm_compute; reflexivity).
  exists fv, st. split; [exact Hfv|]. split; [exact Hst|].
  assert (all_local_abilities st = [PRIMITIVES; PRIMITIVES]) as Hab
    by (subst fv; vm_compute in Hst; by injection Hst as <-).
  destruct (locals_safety_sound (VScript good_script) fv st 5 [false; false])
    as (i & l & Hi & Hl).
  - split; [by vm_compute|]. split; [exact Hfv|]. subst fv. constructor.
  - by subst fv.
  - by subst fv.
  - exact Hst.
  - subst fv. by vm_compute.
  - rewrite Hab. subst fv.
    apply (reaches_step _ _ _ 4 [false; false] (LdU8 3)); [|done|done|by right].
    apply (reaches_step _ _ _ 1 [false; false] (BrFalse 4)); [|done|done|by left].
    apply (reaches_step _ _ _ 0 [false; false] LdTrue); [|done|done|by right].
    apply reaches_start.
  - by subst fv.
  - subst fv. injection Hi as <-. by exists l.
Defined.

Lemma locals_safety_total_witness :
  ∃ fv, script good_script = Ok fv ∧ no_panic (verify (VScript good_script) fv).
Proof.
  assert (∃ fv, script good_script = Ok fv) as [fv Hfv] by (eexists; vm_compute; reflexivity).
  exists fv. split; [exact Hfv|]. pose proof Hfv as Hc. vm_compute in Hc. injection Hc as Hc.
  apply locals_safety_total.
  - split; [by vm_compute|]. split; [exact Hfv|]. subst fv. constructor.
  - by subst fv.
  - by subst fv.
Defined.

(** A script without type parameters, whose parameter has the type [TypeParameter(0)] *)
Definition type_parameter_script : CompiledScript :=
  locals_script [] [SignatureToken.TypeParameter 0] [Ret].

(** A script without type parameters whose parameter has the type TypeParameter(0)
    passes the bounds check, the control-flow verifier and the stack-usage verifier, and
    makes the locals-safety pass panic when it looks up the abilities of the parameter. *)
Theorem locals_safety_script_panics :
  ∃ fv, script type_parameter_script = Ok fv ∧
    verify_script type_parameter_script = Ok tt ∧
    ControlFlow.verify (fv_index fv) (fv_code fv) = Ok tt ∧
    StackUsage.verify true (VScript type_parameter_script) fv = Ok tt ∧
    verify (VScript type_parameter_script) fv = Panic.
Proof.
  eexists. split; [vm_compute; reflexivity|]. split_and!; vm_compute; reflexivity.
Qed.
