(* ===== verification/Integers.v ===== *)
(** * Integers: the integer values of the virtual machine

    Models [IntegerValue] of [language/move-vm/types/src/values/values_impl.rs]: its
    arithmetic, bit operations, shifts, comparisons and casts, and proves them equal
    to operations on numbers that are in range or an error. *)

From S2P Require Import Prelude CoreTypes VmStatus Abilities FileFormat Errors.

(** [checked_sub], [checked_mul], [checked_div] and [checked_rem] of an unsigned type
    whose largest value is [max]; [checked_add] is in [Prelude]. *)
Definition checked_sub (a b : N) : option N := if b <=? a then Some (a - b) else None.
Definition checked_mul (max a b : N) : option N := if a * b <=? max then Some (a * b) else None.
Definition checked_div (a b : N) : option N := if b =? 0 then None else Some (a / b).
Definition checked_rem (a b : N) : option N := if b =? 0 then None else Some (a mod b).

(** [x << n] of a type of [bits] bits; the bits shifted out are lost. *)
Definition shift_left (bits x n : N) : N := wrap bits (N.shiftl x n).

Definition internal_type_error {A} : result PartialVMError A :=
  Err (PartialVMError_new INTERNAL_TYPE_ERROR).
Definition arithmetic_error : PartialVMError := PartialVMError_new ARITHMETIC_ERROR.

Module IntegerValue.

(** [pub enum IntegerValue] *)
Inductive IntegerValue : Set := U8 (x : u8) | U64 (x : u64) | U128 (x : u128).

#[export] Instance IntegerValue_eq_dec : EqDecision IntegerValue.
Proof. solve_decision. Defined.

(** ** [VMValueCast] for [IntegerValue] *)

Definition value_as_u8 (self : IntegerValue) : result PartialVMError u8 :=
  match self with U8 x => Ok x | _ => internal_type_error end.
Definition value_as_u64 (self : IntegerValue) : result PartialVMError u64 :=
  match self with U64 x => Ok x | _ => internal_type_error end.
Definition value_as_u128 (self : IntegerValue) : result PartialVMError u128 :=
  match self with U128 x => Ok x | _ => internal_type_error end.

(** ** Integer operations *)

Definition add_checked (self other : IntegerValue) : result PartialVMError IntegerValue :=
  match self, other with
  | U8 l, U8 r => ok_or arithmetic_error (U8 <$> checked_add u8_MAX l r)
  | U64 l, U64 r => ok_or arithmetic_error (U64 <$> checked_add u64_MAX l r)
  | U128 l, U128 r => ok_or arithmetic_error (U128 <$> checked_add u128_MAX l r)
  | _, _ => internal_type_error
  end.

Definition sub_checked (self other : IntegerValue) : result PartialVMError IntegerValue :=
  match self, other with
  | U8 l, U8 r => ok_or arithmetic_error (U8 <$> checked_sub l r)
  | U64 l, U64 r => ok_or arithmetic_error (U64 <$> checked_sub l r)
  | U128 l, U128 r => ok_or arithmetic_error (U128 <$> checked_sub l r)
  | _, _ => internal_type_error
  end.

Definition mul_checked (self other : IntegerValue) : result PartialVMError IntegerValue :=
  match self, other with
  | U8 l, U8 r => ok_or arithmetic_error (U8 <$> checked_mul u8_MAX l r)
  | U64 l, U64 r => ok_or arithmetic_error (U64 <$> checked_mul u64_MAX l r)
  | U128 l, U128 r => ok_or arithmetic_error (U128 <$> checked_mul u128_MAX l r)
  | _, _ => internal_type_error
  end.

Definition div_checked (self other : IntegerValue) : result PartialVMError IntegerValue :=
  match self, other with
  | U8 l, U8 r => ok_or arithmetic_error (U8 <$> checked_div l r)
  | U64 l, U64 r => ok_or arithmetic_error (U64 <$> checked_div l r)
  | U128 l, U128 r => ok_or arithmetic_error (U128 <$> checked_div l r)
  | _, _ => internal_type_error
  end.

Definition rem_checked (self other : IntegerValue) : result PartialVMError IntegerValue :=
  match self, other with
  | U8 l, U8 r => ok_or arithmetic_error (U8 <$> checked_rem l r)
  | U64 l, U64 r => ok_or arithmetic_error (U64 <$> checked_rem l r)
  | U128 l, U128 r => ok_or arithmetic_error (U128 <$> checked_rem l r)
  | _, _ => internal_type_error
  end.

Definition bit_or (self other : IntegerValue) : result PartialVMError IntegerValue :=
  match self, other with
  | U8 l, U8 r => Ok (U8 (N.lor l r))
  | U64 l, U64 r => Ok (U64 (N.lor l r))
  | U128 l, U128 r => Ok (U128 (N.lor l r))
  | _, _ => internal_type_error
  end.

Definition bit_and (self other : IntegerValue) : result PartialVMError IntegerValue :=
  match self, other with
  | U8 l, U8 r => Ok (U8 (N.land l r))
  | U64 l, U64 r => Ok (U64 (N.land l r))
  | U128 l, U128 r => Ok (U128 (N.land l r))
  | _, _ => internal_type_error
  end.

Definition bit_xor (self other : IntegerValue) : result PartialVMError IntegerValue :=
  match self, other with
  | U8 l, U8 r => Ok (U8 (N.lxor l r))
  | U64 l, U64 r => Ok (U64 (N.lxor l r))
  | U128 l, U128 r => Ok (U128 (N.lxor l r))
  | _, _ => internal_type_error
  end.

Definition shl_checked (self : IntegerValue) (n_bits : u8) : result PartialVMError IntegerValue :=
  match self with
  | U8 x => if 8 <=? n_bits then Err arithmetic_error else Ok (U8 (shift_left 8 x n_bits))
  | U64 x => if 64 <=? n_bits then Err arithmetic_error else Ok (U64 (shift_left 64 x n_bits))
  | U128 x => if 128 <=? n_bits then Err arithmetic_error else Ok (U128 (shift_left 128 x n_bits))
  end.

Definition shr_checked (self : IntegerValue) (n_bits : u8) : result PartialVMError IntegerValue :=
  match self with
  | U8 x => if 8 <=? n_bits then Err arithmetic_error else Ok (U8 (N.shiftr x n_bits))
  | U64 x => if 64 <=? n_bits then Err arithmetic_error else Ok (U64 (N.shiftr x n_bits))
  | U128 x => if 128 <=? n_bits then Err arithmetic_error else Ok (U128 (N.shiftr x n_bits))
  end.

Definition lt (self other : IntegerValue) : result PartialVMError bool :=
  match self, other with
  | U8 l, U8 r | U64 l, U64 r | U128 l, U128 r => Ok (l <? r)
  | _, _ => internal_type_error
  end.
Definition le (self other : IntegerValue) : result PartialVMError bool :=
  match self, other with
  | U8 l, U8 r | U64 l, U64 r | U128 l, U128 r => Ok (l <=? r)
  | _, _ => internal_type_error
  end.
Definition gt (self other : IntegerValue) : result PartialVMError bool :=
  match self, other with
  | U8 l, U8 r | U64 l, U64 r | U128 l, U128 r => Ok (r <? l)
  | _, _ => internal_type_error
  end.
Definition ge (self other : IntegerValue) : result PartialVMError bool :=
  match self, other with
  | U8 l, U8 r | U64 l, U64 r | U128 l, U128 r => Ok (r <=? l)
  | _, _ => internal_type_error
  end.

Definition cast_u8 (self : IntegerValue) : result PartialVMError u8 :=
  match self with
  | U8 x => Ok x
  | U64 x | U128 x => if u8_MAX <? x then Err arithmetic_error else Ok (wrap 8 x)
  end.
Definition cast_u64 (self : IntegerValue) : result PartialVMError u64 :=
  match self with
  | U8 x | U64 x => Ok x
  | U128 x => if u64_MAX <? x then Err arithmetic_error else Ok (wrap 64 x)
  end.
Definition cast_u128 (self : IntegerValue) : result PartialVMError u128 :=
  match self with U8 x | U64 x | U128 x => Ok x end.
End IntegerValue.

Import IntegerValue.

(** ** Specification *)

Definition bits (i : IntegerValue) : N :=
  match i with U8 _ => 8 | U64 _ => 64 | U128 _ => 128 end.
Definition value (i : IntegerValue) : N := match i with U8 x | U64 x | U128 x => x end.
Definition integer_ok (i : IntegerValue) : Prop := value i < 2 ^ bits i.

(** The integer of the type of [i] with the value [x] *)
Definition with_value (i : IntegerValue) (x : N) : IntegerValue :=
  match i with U8 _ => U8 x | U64 _ => U64 x | U128 _ => U128 x end.

(** An operation on two integers: their types must agree, and the number [x], if the
    operation is defined, must fit their type. *)
Definition exact (l r : IntegerValue) (x : option N) : result PartialVMError IntegerValue :=
  if negb (bits l =? bits r) then internal_type_error else
  match x with
  | Some x => if x <? 2 ^ bits l then Ok (with_value l x) else Err arithmetic_error
  | None => Err arithmetic_error
  end.
Definition compared (l r : IntegerValue) (b : bool) : result PartialVMError bool :=
  if negb (bits l =? bits r) then internal_type_error else Ok b.

Lemma exact_ok l r x i : exact l r x = Ok i → integer_ok i ∧ bits i = bits l.
Proof.
  unfold exact, integer_ok. destruct (negb _); [done|]. destruct x as [x|]; [|done].
  destruct (N.ltb_spec x (2 ^ bits l)); [|done]. intros [= <-]. by destruct l.
Qed.

Lemma checked_le x w : (x <=? 2 ^ w - 1) = (x <? 2 ^ w).
Proof. pose proof (N.pow_nonzero 2 w). lia. Qed.

Lemma ok_or_if {E} {A} (e : E) (c : bool) (f : N → A) (x : N) :
  ok_or e (f <$> (if c then Some x else None)) = if c then Ok (f x) else Err e.
Proof. by destruct c. Qed.

(** A quotient or a remainder is not larger than the dividend. *)
Lemma div_in_range a b w : a < 2 ^ w → a / b < 2 ^ w.
Proof.
  intros H. destruct (N.eq_dec b 0) as [->|Hb]; [by rewrite N.div_0_r; lia|].
  pose proof (N.div_le_upper_bound a b a Hb). nia.
Qed.
Lemma mod_in_range a b w : a < 2 ^ w → a mod b < 2 ^ w.
Proof. intros H. pose proof (N.Div0.mod_le a b). lia. Qed.

(** A number is below a power of two when it has no bits from there on. *)
Lemma below_pow2 x w : x < 2 ^ w ↔ ∀ k, w <= k → N.testbit x k = false.
Proof.
  split.
  - intros Hx k Hk. destruct (N.eq_dec x 0) as [->|Hz]; [apply N.bits_0|].
    apply N.bits_above_log2. apply N.lt_le_trans with w; [|done].
    apply N.log2_lt_pow2; lia.
  - intros H. destruct (N.eq_dec x 0) as [->|Hz]; [pose proof (N.pow_nonzero 2 w); lia|].
    apply N.log2_lt_pow2; [lia|]. destruct (N.lt_ge_cases (N.log2 x) w) as [|Hge]; [done|].
    specialize (H _ Hge). by rewrite N.bit_log2 in H.
Qed.
Lemma lor_in_range a b w : a < 2 ^ w → b < 2 ^ w → N.lor a b < 2 ^ w.
Proof. rewrite !below_pow2. intros Ha Hb k Hk. by rewrite N.lor_spec, Ha, Hb. Qed.
Lemma land_in_range a b w : a < 2 ^ w → b < 2 ^ w → N.land a b < 2 ^ w.
Proof. rewrite !below_pow2. intros Ha Hb k Hk. by rewrite N.land_spec, Ha, Hb. Qed.
Lemma lxor_in_range a b w : a < 2 ^ w → b < 2 ^ w → N.lxor a b < 2 ^ w.
Proof. rewrite !below_pow2. intros Ha Hb k Hk. by rewrite N.lxor_spec, Ha, Hb. Qed.

Create HintDb in_range discriminated.
#[export] Hint Resolve div_in_range mod_in_range lor_in_range land_in_range lxor_in_range
  : in_range.

(** One case of a binary operation: expose the guards of both sides, and decide them. *)
Ltac solve_exact :=
  unfold add_checked, sub_checked, mul_checked, div_checked, rem_checked, bit_or, bit_and, bit_xor,
    shl_checked, shr_checked, lt, le, gt, ge, cast_u8, cast_u64, cast_u128;
  unfold exact, compared, checked_add, checked_sub, checked_mul, checked_div, checked_rem,
    integer_ok, u8_MAX, u64_MAX, u128_MAX in *; cbn [bits value with_value N.eqb Pos.eqb negb] in *;
  rewrite ?checked_le, ?ok_or_if; try done;
  repeat match goal with
  | |- context [if ?b then _ else _] =>
      let E := fresh "E" in destruct b eqn:E; cbn [ok_or fmap option_fmap option_map]; try done
  end;
  try (exfalso; match goal with
  | E : (?x <? 2 ^ ?w) = false |- _ => enough (x < 2 ^ w) by lia
  end; solve [lia | eauto with in_range]).

(** C38. Arithmetic on two integers of one width is exact: it returns the value of the
    operation on numbers when that is in range and there is no division by zero, and an
    arithmetic error otherwise; integers of different widths are a type error. *)
Theorem integer_arithmetic_spec (l r : IntegerValue) :
  integer_ok l → integer_ok r →
  add_checked l r = exact l r (Some (value l + value r)) ∧
  sub_checked l r = exact l r (if value r <=? value l then Some (value l - value r) else None) ∧
  mul_checked l r = exact l r (Some (value l * value r)) ∧
  div_checked l r = exact l r (if value r =? 0 then None else Some (value l / value r)) ∧
  rem_checked l r = exact l r (if value r =? 0 then None else Some (value l mod value r)) ∧
  ∀ x i, exact l r x = Ok i → integer_ok i ∧ bits i = bits l.
Proof.
  intros Hl Hr. split_and!; [..|intros x i; apply exact_ok]; destruct l, r; solve_exact.
Qed.

(** A cast checks the range first, so it keeps the number. *)
Lemma narrow {E} (e : E) w x :
  (if 2 ^ w - 1 <? x then Err e else Ok (wrap w x)) = if x <? 2 ^ w then Ok x else Err e.
Proof.
  pose proof (N.pow_nonzero 2 w). unfold wrap.
  destruct (N.ltb_spec (2 ^ w - 1) x), (N.ltb_spec x (2 ^ w)); try lia; [done|].
  by rewrite N.mod_small.
Qed.
Lemma widen {E} (e : E) v w x : x < 2 ^ v → v <= w → Ok x = if x <? 2 ^ w then Ok x else Err e.
Proof.
  intros Hx Hw. pose proof (N.pow_le_mono_r 2 v w). destruct (N.ltb_spec x (2 ^ w)); [done|lia].
Qed.

(** Bit operations, shifts and casts work on the numbers, too. *)
Theorem integer_bits_spec (l r : IntegerValue) (n : u8) :
  integer_ok l → integer_ok r →
  bit_or l r = exact l r (Some (N.lor (value l) (value r))) ∧
  bit_and l r = exact l r (Some (N.land (value l) (value r))) ∧
  bit_xor l r = exact l r (Some (N.lxor (value l) (value r))) ∧
  shl_checked l n = (if bits l <=? n then Err arithmetic_error
                     else Ok (with_value l ((value l * 2 ^ n) mod 2 ^ bits l))) ∧
  shr_checked l n = (if bits l <=? n then Err arithmetic_error
                     else Ok (with_value l (value l / 2 ^ n))) ∧
  lt l r = compared l r (value l <? value r) ∧ le l r = compared l r (value l <=? value r) ∧
  gt l r = compared l r (value r <? value l) ∧ ge l r = compared l r (value r <=? value l) ∧
  cast_u8 l = (if value l <? 2 ^ 8 then Ok (value l) else Err arithmetic_error) ∧
  cast_u64 l = (if value l <? 2 ^ 64 then Ok (value l) else Err arithmetic_error) ∧
  cast_u128 l = Ok (value l).
Proof.
  intros Hl Hr. rewrite <- N.shiftl_mul_pow2, <- N.shiftr_div_pow2.
  split_and!; try (destruct l, r; solve_exact; fail).
  - destruct l; [by apply (widen _ 8)|apply narrow..].
  - destruct l; [by apply (widen _ 8)|by apply (widen _ 64)|apply narrow].
Qed.

Lemma integer_arithmetic_spec_witness :
  add_checked (U8 200) (U8 100) = Err arithmetic_error ∧
  add_checked (U8 200) (U8 55) = Ok (U8 255) ∧ mul_checked (U64 3) (U64 5) = Ok (U64 15) ∧
  sub_checked (U128 3) (U64 2) = internal_type_error ∧ div_checked (U8 7) (U8 0) = Err arithmetic_error.
Proof.
  assert (∀ l r, integer_ok l → integer_ok r → add_checked l r = exact l r (Some (value l + value r)))
    as Hadd by (intros l r Hl Hr; by apply integer_arithmetic_spec).
  split_and!; [rewrite Hadd by done; reflexivity..| | |]; reflexivity.
Defined.

Lemma integer_bits_spec_witness :
  shl_checked (U8 255) 4 = Ok (U8 240) ∧ shr_checked (U8 255) 4 = Ok (U8 15) ∧
  cast_u8 (U8 255) = Ok 255.
Proof.
  destruct (integer_bits_spec (U8 255) (U8 1) 4) as (_ & _ & _ & Hl & Hr & _ & _ & _ & _ & Hc & _);
    [done..|].
  rewrite Hl, Hr, Hc. split_and!; reflexivity.
Defined.
