(* ===== verification/RuntimeTypes.v ===== *)
(** * RuntimeTypes: the types of running code

    Models [language/move-vm/types/src/loaded_data/runtime_types.rs]: [Type], whose
    structs are indices into the loader's cache, and the substitution of its type
    parameters, which bounds the depth of what it builds. *)

From S2P Require Import Prelude CoreTypes VmStatus Abilities FileFormat Errors Views.

Module RuntimeType.

(** [pub enum Type] *)
Inductive Type_ : Set :=
| Bool | U8 | U64 | U128 | Address | Signer
| Vector (t : Type_)
| Struct (idx : N)
| StructInstantiation (idx : N) (instantiation : list Type_)
| Reference (t : Type_)
| MutableReference (t : Type_)
| TyParam (idx : N).

Section Induction.
Context (P : Type_ → Prop).
Context (HBool : P Bool) (HU8 : P U8) (HU64 : P U64) (HU128 : P U128) (HAddress : P Address)
  (HSigner : P Signer) (HVector : ∀ t, P t → P (Vector t)) (HStruct : ∀ i, P (Struct i))
  (HInst : ∀ i ts, Forall P ts → P (StructInstantiation i ts))
  (HRef : ∀ t, P t → P (Reference t)) (HMut : ∀ t, P t → P (MutableReference t))
  (HParam : ∀ i, P (TyParam i)).

Fixpoint type_ind (t : Type_) : P t :=
  match t with
  | Bool => HBool | U8 => HU8 | U64 => HU64 | U128 => HU128
  | Address => HAddress | Signer => HSigner
  | Vector t => HVector t (type_ind t)
  | Struct i => HStruct i
  | StructInstantiation i ts => HInst i ts (list_ind (Forall P) (Forall_nil_2 P)
      (λ x l, Forall_cons_2 P x l (type_ind x)) ts)
  | Reference t => HRef t (type_ind t)
  | MutableReference t => HMut t (type_ind t)
  | TyParam i => HParam i
  end.
End Induction.
End RuntimeType.

Import RuntimeType.

(** [pub struct StructType] *)
Record StructType : Set := {
  st_fields : list Type_;
  st_abilities : AbilitySet;
  st_type_parameters : list StructTypeParameter;
  st_name : Identifier;
  st_module : ModuleId;
  st_struct_def : StructDefinitionIndex }.

(** [StructType::type_param_constraints] *)
Definition type_param_constraints (self : StructType) : list AbilitySet :=
  stp_constraints <$> st_type_parameters self.

Definition TYPE_DEPTH_MAX : N := 256.

(** [Type::apply_subst] *)
Fixpoint apply_subst (subst : N → N → result PartialVMError Type_) (self : Type_) (depth : N)
  : result PartialVMError Type_ :=
  if TYPE_DEPTH_MAX <? depth then Err (PartialVMError_new VM_MAX_TYPE_DEPTH_REACHED) else
  match self with
  | TyParam idx => subst idx depth
  | Bool => Ok Bool
  | U8 => Ok U8
  | U64 => Ok U64
  | U128 => Ok U128
  | Address => Ok Address
  | Signer => Ok Signer
  | Vector ty => Vector <$> apply_subst subst ty (depth + 1)
  | Reference ty => Reference <$> apply_subst subst ty (depth + 1)
  | MutableReference ty => MutableReference <$> apply_subst subst ty (depth + 1)
  | Struct def_idx => Ok (Struct def_idx)
  | StructInstantiation def_idx instantiation =>
      inst ← collect (λ ty, apply_subst subst ty (depth + 1)) instantiation;
      Ok (StructInstantiation def_idx inst)
  end.

(** [Type::clone_impl] *)
Definition clone_impl (self : Type_) (depth : N) : result PartialVMError Type_ :=
  apply_subst (λ idx _, Ok (TyParam idx)) self depth.

(** [Type::subst] *)
Definition subst (self : Type_) (ty_args : list Type_) : result PartialVMError Type_ :=
  apply_subst (λ idx depth,
    match at_ ty_args idx with
    | Some ty => clone_impl ty depth
    | None => Err (PartialVMError_new UNKNOWN_INVARIANT_VIOLATION_ERROR)
    end) self 1.

(** ** Specification: simultaneous substitution and the height of a type *)

Fixpoint substitute (ty_args : list Type_) (t : Type_) : Type_ :=
  match t with
  | TyParam idx => default (TyParam idx) (at_ ty_args idx)
  | Vector t => Vector (substitute ty_args t)
  | Reference t => Reference (substitute ty_args t)
  | MutableReference t => MutableReference (substitute ty_args t)
  | StructInstantiation i ts => StructInstantiation i (substitute ty_args <$> ts)
  | t => t
  end.

(** Every parameter of the type satisfies [p]. *)
Fixpoint params_all (p : N → bool) (t : Type_) : bool :=
  match t with
  | TyParam idx => p idx
  | Vector t | Reference t | MutableReference t => params_all p t
  | StructInstantiation _ ts => forallb (params_all p) ts
  | _ => true
  end.

Fixpoint height (t : Type_) : N :=
  match t with
  | Vector t | Reference t | MutableReference t => 1 + height t
  | StructInstantiation _ ts => 1 + foldr (λ u m, N.max (height u) m) 0 ts
  | _ => 1
  end.

Definition depth_error : PartialVMError := PartialVMError_new VM_MAX_TYPE_DEPTH_REACHED.
Definition unbound_error : PartialVMError :=
  PartialVMError_new UNKNOWN_INVARIANT_VIOLATION_ERROR.

(** A loop whose elements succeed or fail by a test, with one error *)
Lemma collect_if {E A B} (f : A → result E B) (p : A → bool) (g : A → B) (e : E) l :
  Forall (λ x, f x = if p x then Ok (g x) else Err e) l →
  collect f l = if forallb p l then Ok (g <$> l) else Err e.
Proof.
  induction 1 as [|x l Hx _ IH]; [done|]. cbn [collect forallb fmap list_fmap]. rewrite Hx, IH.
  destruct (p x); [|done]. simpl. by destruct (forallb p l).
Qed.

Lemma heights_le (g : Type_ → Type_) d ts :
  forallb (λ t, d + 1 + height (g t) <=? 257) ts && (d <=? 256) =
  (d + (1 + foldr (λ u m, N.max (height u) m) 0 (g <$> ts)) <=? 257).
Proof.
  induction ts as [|t ts IH]; [simpl; lia|]. cbn [forallb foldr fmap list_fmap].
  rewrite <- andb_assoc, IH. lia.
Qed.

Lemma height_pos t : 1 <= height t.
Proof. destruct t; simpl; lia. Qed.

(** What a traversal that builds [t] from depth [d] on returns *)
Definition within (d : N) (t : Type_) : result PartialVMError Type_ :=
  if d + height t <=? 257 then Ok t else Err depth_error.

Lemma within_map (f : Type_ → Type_) d t :
  height (f t) = 1 + height t →
  (if TYPE_DEPTH_MAX <? d then Err depth_error else f <$> within (d + 1) t) = within d (f t).
Proof.
  intros Hf. unfold within, TYPE_DEPTH_MAX. rewrite Hf.
  destruct (N.ltb_spec 256 d), (N.leb_spec (d + 1 + height t) 257),
    (N.leb_spec (d + (1 + height t)) 257); try lia; done.
Qed.

Lemma within_leaf d t :
  height t = 1 → (if TYPE_DEPTH_MAX <? d then Err depth_error else Ok t) = within d t.
Proof.
  intros Hf. unfold within, TYPE_DEPTH_MAX. rewrite Hf.
  destruct (N.ltb_spec 256 d), (N.leb_spec (d + 1) 257); try lia; done.
Qed.

Lemma within_inst d i (g : Type_ → Type_) (f : Type_ → result PartialVMError Type_) ts :
  Forall (λ t, f t = within (d + 1) (g t)) ts →
  (if TYPE_DEPTH_MAX <? d then Err depth_error
   else inst ← collect f ts; Ok (StructInstantiation i inst)) =
  within d (StructInstantiation i (g <$> ts)).
Proof.
  intros H. rewrite (collect_if _ (λ t, d + 1 + height (g t) <=? 257) g depth_error _ H).
  unfold within, TYPE_DEPTH_MAX. cbn [height]. rewrite <- heights_le.
  destruct (N.ltb_spec 256 d), (N.leb_spec d 256); try lia;
    [by rewrite andb_false_r|rewrite andb_true_r]. by destruct (forallb _ _).
Qed.

Lemma apply_subst_within f args p t d :
  (∀ idx d, p idx = true → d <= 256 → f idx d = within d (default (TyParam idx) (at_ args idx))) →
  params_all p t = true → apply_subst f t d = within d (substitute args t).
Proof.
  intros Hf. revert d. induction t as [| | | | | |t IH|i|i ts IH|t IH|t IH|i] using type_ind;
    intros d Hp; cbn [apply_subst params_all] in *; try by apply within_leaf.
  - rewrite IH by done. exact (within_map Vector _ _ eq_refl).
  - change (substitute args (StructInstantiation i ts))
      with (StructInstantiation i (substitute args <$> ts)).
    apply within_inst. rewrite Forall_forall in IH |- *. intros t Ht. apply IH; [done|].
    rewrite forallb_forall in Hp. by apply Hp, list_elem_of_In.
  - rewrite IH by done. exact (within_map Reference _ _ eq_refl).
  - rewrite IH by done. exact (within_map MutableReference _ _ eq_refl).
  - unfold TYPE_DEPTH_MAX. destruct (N.ltb_spec 256 d) as [Hd|Hd]; [|by apply Hf].
    unfold within. destruct (N.leb_spec (d + height (substitute args (TyParam i))) 257) as [Hle|];
      [|done]. pose proof (height_pos (substitute args (TyParam i))). lia.
Qed.

Lemma substitute_nil t : substitute [] t = t ∧ params_all (λ _, true) t = true.
Proof.
  induction t as [| | | | | |t [IH1 IH2]|i|i ts IH|t [IH1 IH2]|t [IH1 IH2]|i] using type_ind;
    cbn [substitute params_all]; rewrite ?IH1; try done.
  rewrite Forall_forall in IH. split.
  - f_equal. induction ts as [|t ts IHts]; [done|]. cbn [fmap list_fmap]. f_equal.
    + apply IH. by left.
    + apply IHts. intros x Hx. apply IH. by right.
  - apply forallb_forall. intros t Ht. apply IH. by apply list_elem_of_In.
Qed.

Lemma clone_impl_within t d : clone_impl t d = within d t.
Proof.
  destruct (substitute_nil t) as [Hs Hp]. unfold clone_impl.
  rewrite (apply_subst_within _ [] (λ _, true)); [by rewrite Hs| |done].
  intros idx d' _ Hd. unfold within. simpl. destruct (N.leb_spec (d' + 1) 257); [done|lia].
Qed.

Lemma collect_errs {A B} (P : PartialVMError → Prop) (f : A → result PartialVMError B) l :
  Forall (λ x, errs P (f x)) l → errs P (collect f l).
Proof.
  induction 1 as [|x l Hx _ IH]; [done|]. cbn [collect].
  apply errs_bind; [done|]. intros y _. by apply errs_bind.
Qed.

Lemma apply_subst_errs P f t d :
  P depth_error → (∀ idx d, errs P (f idx d)) → errs P (apply_subst f t d).
Proof.
  intros Hd Hf. revert d. induction t as [| | | | | |t IH|i|i ts IH|t IH|t IH|i] using type_ind;
    intros d; cbn [apply_subst]; case_match; simpl; try done.
  - specialize (IH (d + 1)). by destruct (apply_subst f t (d + 1)).
  - apply errs_bind; [|done]. apply collect_errs. eapply Forall_impl; [exact IH|]. by intros t Ht.
  - specialize (IH (d + 1)). by destruct (apply_subst f t (d + 1)).
  - specialize (IH (d + 1)). by destruct (apply_subst f t (d + 1)).
Qed.

(** A parameter without an argument is reached, or the depth is exceeded before it. *)
Lemma apply_subst_unbound f p t d :
  (∀ idx d, p idx = false → ∃ e, f idx d = Err e) → params_all p t = false →
  ∀ r, apply_subst f t d ≠ Ok r.
Proof.
  intros Hf. revert d. induction t as [| | | | | |t IH|i|i ts IH|t IH|t IH|i] using type_ind;
    intros d Hp r; cbn [apply_subst params_all] in *; try done; destruct (_ <? d); try done.
  - intros (u & Hu & _)%bind_Ok. by eapply IH.
  - intros (us & Hu & _)%bind_Ok. revert us Hu.
    induction IH as [|t ts Ht _ IHts]; intros us; [done|]. cbn [forallb collect] in *.
    intros (y & Hy & (ys & Hys & _)%bind_Ok)%bind_Ok.
    destruct (params_all p t) eqn:E; [by eapply IHts|]. by eapply Ht.
  - intros (u & Hu & _)%bind_Ok. by eapply IH.
  - intros (u & Hu & _)%bind_Ok. by eapply IH.
  - destruct (Hf i d Hp) as [e ->]. done.
Qed.

(** Substituting the type parameters of a runtime type gives the type with every
    parameter replaced, when each has an argument and nothing is nested deeper than the
    limit; otherwise the error of the check that fails. *)
Theorem subst_spec (t : Type_) (ty_args : list Type_) :
  (params_all (λ idx, idx <? len ty_args) t = true →
   subst t ty_args = if height (substitute ty_args t) <=? TYPE_DEPTH_MAX
                     then Ok (substitute ty_args t) else Err depth_error) ∧
  (params_all (λ idx, idx <? len ty_args) t = false →
   subst t ty_args = Err depth_error ∨ subst t ty_args = Err unbound_error).
Proof.
  split; intros Hp; unfold subst.
  - rewrite (apply_subst_within _ ty_args (λ idx, idx <? len ty_args)); [|clear Hp|done].
    + unfold within, TYPE_DEPTH_MAX.
      destruct (N.leb_spec (1 + height (substitute ty_args t)) 257),
        (N.leb_spec (height (substitute ty_args t)) 256); try lia; done.
    + intros idx d Hidx _. unfold at_ in *.
      destruct (lookup_lt_is_Some_2 ty_args (N.to_nat idx)) as [u Hu]; [unfold len in *; lia|].
      rewrite Hu. apply clone_impl_within.
  - set (f := λ idx depth, _).
    assert (errs (λ e, e = depth_error ∨ e = unbound_error) (apply_subst f t 1)) as He.
    { apply apply_subst_errs; [by left|]. intros idx d. unfold f.
      destruct (at_ ty_args idx) as [u|]; [|by right].
      rewrite clone_impl_within. unfold within. destruct (_ <=? _); [done|by left]. }
    assert (∀ r, apply_subst f t 1 ≠ Ok r) as Hn.
    { apply (apply_subst_unbound f (λ idx, idx <? len ty_args)); [|done]. intros idx d Hidx.
      exists unbound_error. unfold f, at_. by rewrite lookup_ge_None_2 by (unfold len in *; lia). }
    destruct (apply_subst f t 1) as [u|e| |]; [by edestruct Hn| |done..].
    destruct He as [-> | ->]; auto.
Qed.

Lemma subst_spec_witness :
  subst (Vector (StructInstantiation 3 [TyParam 1; U8])) [Bool; Vector Address] =
    Ok (Vector (StructInstantiation 3 [Vector Address; U8])) ∧
  (subst (TyParam 2) [Bool] = Err depth_error ∨ subst (TyParam 2) [Bool] = Err unbound_error).
Proof.
  destruct (subst_spec (Vector (StructInstantiation 3 [TyParam 1; U8])) [Bool; Vector Address])
    as [H _].
  destruct (subst_spec (TyParam 2) [Bool]) as [_ H'].
  split; [by rewrite H|by apply H'].
Defined.
