(* ===== verification/Heap.v ===== *)
(** * Heap: the values of the virtual machine and the memory they share

    Models the internal types of
    [language/move-vm/types/src/values/values_impl.rs].  A container lives in an
    [Rc<RefCell<_>>]: it is a pointer into a heap of cells, each with its strong
    count, so that values that share a container share its cell.  A value that goes
    out of scope in the source is dropped explicitly here; the cells that nobody
    points to any more are released with everything they own. *)

From S2P Require Import Prelude CoreTypes VmStatus Abilities FileFormat Errors.

(** ** Values *)

(** A pointer of type [Rc<_>] *)
Definition loc : Set := N.

(** [enum Container] *)
Inductive Container : Set :=
| Locals (r : loc)
| Vec (r : loc)
| Struct (r : loc)
| VecU8 (r : loc)
| VecU64 (r : loc)
| VecU128 (r : loc)
| VecBool (r : loc)
| VecAddress (r : loc).

(** [enum ContainerRef] *)
Inductive ContainerRef : Set :=
| Local (container : Container)
| Global (status : loc) (container : Container).

(** [enum GlobalDataStatus] *)
Inductive GlobalDataStatus : Set := Clean | Dirty.

(** [struct IndexedRef] *)
Record IndexedRef : Set := { ir_idx : N; ir_container_ref : ContainerRef }.

(** [enum ValueImpl] *)
Inductive ValueImpl : Set :=
| Invalid
| VU8 (x : u8)
| VU64 (x : u64)
| VU128 (x : u128)
| VBool (b : bool)
| VAddress (a : AccountAddress)
| VContainer (c : Container)
| VContainerRef (r : ContainerRef)
| VIndexedRef (r : IndexedRef).

(** [enum ReferenceImpl] *)
Inductive ReferenceImpl : Set := RIndexedRef (r : IndexedRef) | RContainerRef (r : ContainerRef).

#[export] Instance Container_eq_dec : EqDecision Container.
Proof. solve_decision. Defined.
#[export] Instance ContainerRef_eq_dec : EqDecision ContainerRef.
Proof. solve_decision. Defined.
#[export] Instance GlobalDataStatus_eq_dec : EqDecision GlobalDataStatus.
Proof. solve_decision. Defined.
#[export] Instance IndexedRef_eq_dec : EqDecision IndexedRef.
Proof. solve_decision. Defined.
#[export] Instance ValueImpl_eq_dec : EqDecision ValueImpl.
Proof. solve_decision. Defined.

(** ** Cells *)

(** What an [Rc<RefCell<_>>] of the source holds *)
Inductive Content : Set :=
| CValues (vs : list ValueImpl)
| CU8 (xs : list u8)
| CU64 (xs : list u64)
| CU128 (xs : list u128)
| CBool (bs : list bool)
| CAddress (xs : list AccountAddress)
| CStatus (s : GlobalDataStatus).

(** The content of a pointer of a type [Rc<RefCell<T>>]; the types of the source rule
    out a cell with another content. *)
Record Kind (T : Type) : Type := { get : Content → option T; put : T → Content }.
Arguments get {T} k c.
Arguments put {T} k x.

Definition values : Kind (list ValueImpl) :=
  {| get c := match c with CValues vs => Some vs | _ => None end; put := CValues |}.
Definition u8s : Kind (list u8) :=
  {| get c := match c with CU8 xs => Some xs | _ => None end; put := CU8 |}.
Definition u64s : Kind (list u64) :=
  {| get c := match c with CU64 xs => Some xs | _ => None end; put := CU64 |}.
Definition u128s : Kind (list u128) :=
  {| get c := match c with CU128 xs => Some xs | _ => None end; put := CU128 |}.
Definition bools : Kind (list bool) :=
  {| get c := match c with CBool bs => Some bs | _ => None end; put := CBool |}.
Definition addresses : Kind (list AccountAddress) :=
  {| get c := match c with CAddress xs => Some xs | _ => None end; put := CAddress |}.
Definition statuses : Kind GlobalDataStatus :=
  {| get c := match c with CStatus s => Some s | _ => None end; put := CStatus |}.

(** The pointer of a container, and the pointers that a value owns *)
Definition container_loc (c : Container) : loc :=
  match c with
  | Locals r | Vec r | Struct r | VecU8 r | VecU64 r | VecU128 r | VecBool r | VecAddress r => r
  end.
Definition ref_pointers (r : ContainerRef) : list loc :=
  match r with
  | Local c => [container_loc c]
  | Global status c => [status; container_loc c]
  end.
Definition pointers (v : ValueImpl) : list loc :=
  match v with
  | VContainer c => [container_loc c]
  | VContainerRef r => ref_pointers r
  | VIndexedRef r => ref_pointers (ir_container_ref r)
  | _ => []
  end.
Definition content_pointers (c : Content) : list loc :=
  match c with CValues vs => vs ≫= pointers | _ => [] end.

(** ** The heap *)

Record Cell : Set := { strong : N; content : Content }.
Record Heap : Set := { cells : gmap loc Cell; next_loc : loc }.

(** A computation that uses the heap *)
Definition HeapM (A : Type) : Type := Heap → result PartialVMError (A * Heap).

#[export] Instance HeapM_ret : MRet HeapM := λ A a h, Ok (a, h).
#[export] Instance HeapM_bind : MBind HeapM := λ A B k m h,
  match m h with
  | Ok (a, h) => k a h
  | Err e => Err e
  | Panic => Panic
  | OutOfFuel => OutOfFuel
  end.

#[export] Instance HeapM_fmap : FMap HeapM := λ A B f m, x ← m; mret (f x).

Definition lift {A} (r : result PartialVMError A) : HeapM A := λ h,
  match r with
  | Ok a => Ok (a, h)
  | Err e => Err e
  | Panic => Panic
  | OutOfFuel => OutOfFuel
  end.
Definition fail {A} (s : StatusCode) : HeapM A := lift (Err (PartialVMError_new s)).

(** [iter().map(f).collect::<PartialVMResult<_>>()] *)
Definition collect_heap {A B} (f : A → HeapM B) : list A → HeapM (list B) :=
  fix go l := match l with
  | [] => mret []
  | x :: l => y ← f x; ys ← go l; mret (y :: ys)
  end.

Definition set_cell (l : loc) (c : Cell) (h : Heap) : Heap :=
  {| cells := <[ l := c ]> (cells h); next_loc := next_loc h |}.

Definition remove_cell (l : loc) (h : Heap) : Heap :=
  {| cells := delete l (cells h); next_loc := next_loc h |}.
Definition modify (f : Heap → Heap) : HeapM unit := λ h, Ok (tt, f h).

(** [Rc::new(RefCell::new(c))] *)
Definition rc_new (c : Content) : HeapM loc := λ h,
  Ok (next_loc h, {| cells := <[ next_loc h := {| strong := 1; content := c |} ]> (cells h);
                     next_loc := next_loc h + 1 |}).

Definition lookup_cell (l : loc) : HeapM Cell := λ h,
  match cells h !! l with Some c => Ok (c, h) | None => Panic end.

(** [Rc::clone(r)] *)
Definition rc_clone (r : loc) : HeapM loc :=
  c ← lookup_cell r;
  _ ← modify (set_cell r {| strong := strong c + 1; content := content c |});
  mret r.

(** [Rc::strong_count(r)] *)
Definition strong_count (r : loc) : HeapM N := c ← lookup_cell r; mret (strong c).

(** [r.borrow()] *)
Definition borrow {T} (k : Kind T) (r : loc) : HeapM T :=
  c ← lookup_cell r;
  lift (unwrap (get k (content c))).

(** Assigning through [r.borrow_mut()]; the old content is not dropped here. *)
Definition replace {T} (k : Kind T) (r : loc) (x : T) : HeapM unit :=
  c ← lookup_cell r;
  modify (set_cell r {| strong := strong c; content := put k x |}).

(** [Drop]: a pointer that goes out of scope gives up its share of the cell; the last
    one releases the cell, whose content goes out of scope with it. *)
Fixpoint drop_loop (fuel : nat) (rs : list loc) (h : Heap) : result PartialVMError (unit * Heap) :=
  match rs with
  | [] => Ok (tt, h)
  | r :: rs =>
      match fuel with
      | O => OutOfFuel
      | S fuel =>
          match cells h !! r with
          | None => Panic
          | Some c =>
              if strong c <=? 1
              then drop_loop fuel (content_pointers (content c) ++ rs)
                     (remove_cell r h)
              else drop_loop fuel rs
                     (set_cell r {| strong := strong c - 1; content := content c |} h)
          end
      end
  end.

(** Pointers in the cells *)
Definition heap_pointers (h : Heap) : nat :=
  map_fold (λ _ c n, (length (content_pointers (content c)) + n)%nat) O (cells h).

Definition drop_pointers (rs : list loc) : HeapM unit := λ h,
  drop_loop (length rs + heap_pointers h) rs h.
Definition drop_value (v : ValueImpl) : HeapM unit := drop_pointers (pointers v).
Definition drop_content (c : Content) : HeapM unit := drop_pointers (content_pointers c).

(** [take_unique_ownership]; [Rc::try_unwrap] succeeds on the only pointer. *)
Definition take_unique_ownership {T} (k : Kind T) (r : loc) : HeapM T :=
  c ← lookup_cell r;
  if strong c =? 1
  then x ← lift (unwrap (get k (content c)));
       _ ← modify (remove_cell r);
       mret x
  else fail UNKNOWN_INVARIANT_VIOLATION_ERROR.
