(* ===== verification/Values.v ===== *)
(** * Values: the operations on values, references, locals and vectors

    Models the public operations of
    [language/move-vm/types/src/values/values_impl.rs]: copying, comparing, reading
    and writing through references, borrowing, the locals of a frame, casts, structs
    and vectors.  The wrappers [Value], [Reference], [StructRef], [VectorRef] and
    [SignerRef] of the source are the types they wrap. *)

From S2P Require Import Prelude CoreTypes VmStatus Abilities FileFormat Errors Views Integers RuntimeTypes Heap.

(** ** Containers and primitive elements *)

(** The element type of a specialized vector: its cells, and the value of an element *)
Record Prim (T : Type) : Type := {
  cells_of : Kind (list T);
  of_value : ValueImpl → option T;
  to_value : T → ValueImpl }.
Arguments cells_of {T} p.
Arguments of_value {T} p v.
Arguments to_value {T} p x.

Definition prim_u8 : Prim u8 :=
  {| cells_of := u8s; of_value v := match v with VU8 x => Some x | _ => None end;
     to_value := VU8 |}.
Definition prim_u64 : Prim u64 :=
  {| cells_of := u64s; of_value v := match v with VU64 x => Some x | _ => None end;
     to_value := VU64 |}.
Definition prim_u128 : Prim u128 :=
  {| cells_of := u128s; of_value v := match v with VU128 x => Some x | _ => None end;
     to_value := VU128 |}.
Definition prim_bool : Prim bool :=
  {| cells_of := bools; of_value v := match v with VBool b => Some b | _ => None end;
     to_value := VBool |}.
Definition prim_address : Prim AccountAddress :=
  {| cells_of := addresses; of_value v := match v with VAddress a => Some a | _ => None end;
     to_value := VAddress |}.

(** [ValueImpl::as_value_ref], and [VMValueCast] to a primitive type *)
Definition value_as {T} (p : Prim T) (v : ValueImpl) : result PartialVMError T :=
  ok_or (PartialVMError_new INTERNAL_TYPE_ERROR) (of_value p v).

(** [r.borrow()[idx]] *)
Definition index {T} (k : Kind (list T)) (r : loc) (idx : N) : HeapM T :=
  xs ← borrow k r;
  lift (unwrap (at_ xs idx)).

(** [Container::len] *)
Definition container_len (self : Container) : HeapM N :=
  match self with
  | Locals r | Struct r | Vec r => len <$> borrow values r
  | VecU8 r => len <$> borrow u8s r
  | VecU64 r => len <$> borrow u64s r
  | VecU128 r => len <$> borrow u128s r
  | VecBool r => len <$> borrow bools r
  | VecAddress r => len <$> borrow addresses r
  end.

(** [Container::rc_count] *)
Definition rc_count (self : Container) : HeapM N := strong_count (container_loc self).

(** [Container::signer] *)
Definition container_signer (x : AccountAddress) : HeapM Container :=
  Struct <$> rc_new (CValues [VAddress x]).

(** [ContainerRef::container] *)
Definition ref_container (self : ContainerRef) : Container :=
  match self with Local container | Global _ container => container end.

(** [ContainerRef::mark_dirty] *)
Definition mark_dirty (self : ContainerRef) : HeapM unit :=
  match self with
  | Global status _ => replace statuses status Dirty
  | Local _ => mret tt
  end.

Definition drop_ref (self : ContainerRef) : HeapM unit := drop_pointers (ref_pointers self).

(** ** Copy *)

(** [Container::copy_by_ref] *)
Definition copy_by_ref (self : Container) : HeapM Container :=
  _ ← rc_clone (container_loc self);
  mret self.

(** [ContainerRef::copy_value] *)
Definition copy_container_ref (self : ContainerRef) : HeapM ContainerRef :=
  match self with
  | Local container => Local <$> copy_by_ref container
  | Global status container =>
      status ← rc_clone status;
      container ← copy_by_ref container;
      mret (Global status container)
  end.

(** [IndexedRef::copy_value] *)
Definition copy_indexed_ref (self : IndexedRef) : HeapM IndexedRef :=
  container_ref ← copy_container_ref (ir_container_ref self);
  mret {| ir_idx := ir_idx self; ir_container_ref := container_ref |}.

(** [Container::copy_value], given [ValueImpl::copy_value] *)
Definition copy_container (copy_value : ValueImpl → HeapM ValueImpl) (self : Container)
  : HeapM Container :=
  match self with
  | Vec r => vs ← borrow values r; vs ← collect_heap copy_value vs; Vec <$> rc_new (CValues vs)
  | Struct r => vs ← borrow values r; vs ← collect_heap copy_value vs; Struct <$> rc_new (CValues vs)
  | VecU8 r => xs ← borrow u8s r; VecU8 <$> rc_new (CU8 xs)
  | VecU64 r => xs ← borrow u64s r; VecU64 <$> rc_new (CU64 xs)
  | VecU128 r => xs ← borrow u128s r; VecU128 <$> rc_new (CU128 xs)
  | VecBool r => xs ← borrow bools r; VecBool <$> rc_new (CBool xs)
  | VecAddress r => xs ← borrow addresses r; VecAddress <$> rc_new (CAddress xs)
  | Locals _ => fail UNKNOWN_INVARIANT_VIOLATION_ERROR
  end.

(** [ValueImpl::copy_value]; the fuel bounds the nesting of the containers. *)
Fixpoint copy_impl (fuel : nat) (self : ValueImpl) : HeapM ValueImpl :=
  match fuel with
  | O => λ _, OutOfFuel
  | S fuel =>
      match self with
      | Invalid => mret Invalid
      | VU8 x => mret (VU8 x)
      | VU64 x => mret (VU64 x)
      | VU128 x => mret (VU128 x)
      | VBool x => mret (VBool x)
      | VAddress x => mret (VAddress x)
      | VContainerRef r => VContainerRef <$> copy_container_ref r
      | VIndexedRef r => VIndexedRef <$> copy_indexed_ref r
      | VContainer c => VContainer <$> copy_container (copy_impl fuel) c
      end
  end.

(** Containers nest no deeper than there are cells. *)
Definition heap_fuel (h : Heap) : nat := S (size (cells h)).
Definition copy_value (self : ValueImpl) : HeapM ValueImpl := λ h, copy_impl (heap_fuel h) self h.
Definition copy_container_value (self : Container) : HeapM Container := λ h,
  copy_container (copy_impl (heap_fuel h)) self h.

(** ** Equality *)

(** The loop over two lists of equal length *)
Fixpoint equal_values (equals : ValueImpl → ValueImpl → HeapM bool) (l r : list ValueImpl)
  : HeapM bool :=
  match l, r with
  | v1 :: l, v2 :: r => b ← equals v1 v2; if b : bool then equal_values equals l r else mret false
  | _, _ => mret true
  end.

Definition equal_prims {T} `{EqDecision T} (p : Prim T) (l r : loc) : HeapM bool :=
  xs ← borrow (cells_of p) l; ys ← borrow (cells_of p) r; mret (bool_decide (xs = ys)).

(** [Container::equals] *)
Definition container_equals (equals : ValueImpl → ValueImpl → HeapM bool) (self other : Container)
  : HeapM bool :=
  match self, other with
  | Vec l, Vec r | Struct l, Struct r =>
      l ← borrow values l;
      r ← borrow values r;
      if negb (len l =? len r) then mret false else equal_values equals l r
  | VecU8 l, VecU8 r => equal_prims prim_u8 l r
  | VecU64 l, VecU64 r => equal_prims prim_u64 l r
  | VecU128 l, VecU128 r => equal_prims prim_u128 l r
  | VecBool l, VecBool r => equal_prims prim_bool l r
  | VecAddress l, VecAddress r => equal_prims prim_address l r
  | _, _ => fail INTERNAL_TYPE_ERROR
  end.

(** Elements of two specialized vectors, and of one and a generic container *)
Definition equal_elems {T} `{EqDecision T} (p : Prim T) (r1 : loc) (i1 : N) (r2 : loc) (i2 : N)
  : HeapM bool :=
  x ← index (cells_of p) r1 i1; y ← index (cells_of p) r2 i2; mret (bool_decide (x = y)).
Definition equal_elem_generic {T} `{EqDecision T} (p : Prim T)
    (r1 : loc) (i1 : N) (r2 : loc) (i2 : N) : HeapM bool :=
  v ← index values r1 i1; x ← lift (value_as p v);
  y ← index (cells_of p) r2 i2; mret (bool_decide (x = y)).
Definition equal_generic_elem {T} `{EqDecision T} (p : Prim T)
    (r1 : loc) (i1 : N) (r2 : loc) (i2 : N) : HeapM bool :=
  x ← index (cells_of p) r1 i1;
  v ← index values r2 i2; y ← lift (value_as p v); mret (bool_decide (x = y)).

(** [IndexedRef::equals] *)
Definition indexed_equals (equals : ValueImpl → ValueImpl → HeapM bool) (self other : IndexedRef)
  : HeapM bool :=
  let i1 := ir_idx self in
  let i2 := ir_idx other in
  match ref_container (ir_container_ref self), ref_container (ir_container_ref other) with
  | (Vec r1 | Struct r1 | Locals r1), (Vec r2 | Struct r2 | Locals r2) =>
      v1 ← index values r1 i1; v2 ← index values r2 i2; equals v1 v2
  | VecU8 r1, VecU8 r2 => equal_elems prim_u8 r1 i1 r2 i2
  | VecU64 r1, VecU64 r2 => equal_elems prim_u64 r1 i1 r2 i2
  | VecU128 r1, VecU128 r2 => equal_elems prim_u128 r1 i1 r2 i2
  | VecBool r1, VecBool r2 => equal_elems prim_bool r1 i1 r2 i2
  | VecAddress r1, VecAddress r2 => equal_elems prim_address r1 i1 r2 i2
  | (Locals r1 | Struct r1), VecU8 r2 => equal_elem_generic prim_u8 r1 i1 r2 i2
  | VecU8 r1, (Locals r2 | Struct r2) => equal_generic_elem prim_u8 r1 i1 r2 i2
  | (Locals r1 | Struct r1), VecU64 r2 => equal_elem_generic prim_u64 r1 i1 r2 i2
  | VecU64 r1, (Locals r2 | Struct r2) => equal_generic_elem prim_u64 r1 i1 r2 i2
  | (Locals r1 | Struct r1), VecU128 r2 => equal_elem_generic prim_u128 r1 i1 r2 i2
  | VecU128 r1, (Locals r2 | Struct r2) => equal_generic_elem prim_u128 r1 i1 r2 i2
  | (Locals r1 | Struct r1), VecBool r2 => equal_elem_generic prim_bool r1 i1 r2 i2
  | VecBool r1, (Locals r2 | Struct r2) => equal_generic_elem prim_bool r1 i1 r2 i2
  | (Locals r1 | Struct r1), VecAddress r2 => equal_elem_generic prim_address r1 i1 r2 i2
  | VecAddress r1, (Locals r2 | Struct r2) => equal_generic_elem prim_address r1 i1 r2 i2
  | _, _ => fail INTERNAL_TYPE_ERROR
  end.

(** [ValueImpl::equals] *)
Fixpoint equals_impl (fuel : nat) (self other : ValueImpl) : HeapM bool :=
  match fuel with
  | O => λ _, OutOfFuel
  | S fuel =>
      match self, other with
      | VU8 l, VU8 r | VU64 l, VU64 r | VU128 l, VU128 r => mret (l =? r)
      | VBool l, VBool r => mret (Bool.eqb l r)
      | VAddress l, VAddress r => mret (bool_decide (l = r))
      | VContainer l, VContainer r => container_equals (equals_impl fuel) l r
      | VContainerRef l, VContainerRef r =>
          container_equals (equals_impl fuel) (ref_container l) (ref_container r)
      | VIndexedRef l, VIndexedRef r => indexed_equals (equals_impl fuel) l r
      | _, _ => fail INTERNAL_TYPE_ERROR
      end
  end.
Definition equals (self other : ValueImpl) : HeapM bool := λ h,
  equals_impl (S (heap_fuel h)) self other h.

(** ** Read ref *)

(** [ContainerRef::read_ref]; the reference is consumed. *)
Definition container_read_ref (self : ContainerRef) : HeapM ValueImpl :=
  v ← VContainer <$> copy_container_value (ref_container self);
  _ ← drop_ref self;
  mret v.

(** [IndexedRef::read_ref] *)
Definition indexed_read_ref (self : IndexedRef) : HeapM ValueImpl :=
  let idx := ir_idx self in
  v ← match ref_container (ir_container_ref self) with
      | Locals r | Vec r | Struct r => v ← index values r idx; copy_value v
      | VecU8 r => VU8 <$> index u8s r idx
      | VecU64 r => VU64 <$> index u64s r idx
      | VecU128 r => VU128 <$> index u128s r idx
      | VecBool r => VBool <$> index bools r idx
      | VecAddress r => VAddress <$> index addresses r idx
      end;
  _ ← drop_ref (ir_container_ref self);
  mret v.

(** [ReferenceImpl::read_ref] *)
Definition read_ref (self : ReferenceImpl) : HeapM ValueImpl :=
  match self with
  | RContainerRef r => container_read_ref r
  | RIndexedRef r => indexed_read_ref r
  end.

(** ** Write ref *)

(** The macro [assign] of [ContainerRef::write_ref]: the old content is dropped. *)
Definition assign {T} (k : Kind T) (r1 r : loc) : HeapM unit :=
  x ← take_unique_ownership k r;
  old ← borrow k r1;
  _ ← replace k r1 x;
  drop_content (put k old).

(** [ContainerRef::write_ref] *)
Definition container_write_ref (self : ContainerRef) (v : ValueImpl) : HeapM unit :=
  match v with
  | VContainer c =>
      _ ← match ref_container self, c with
          | Struct r1, Struct r => assign values r1 r
          | Vec r1, Vec r => assign values r1 r
          | VecU8 r1, VecU8 r => assign u8s r1 r
          | VecU64 r1, VecU64 r => assign u64s r1 r
          | VecU128 r1, VecU128 r => assign u128s r1 r
          | VecBool r1, VecBool r => assign bools r1 r
          | VecAddress r1, VecAddress r => assign addresses r1 r
          | _, _ => fail UNKNOWN_INVARIANT_VIOLATION_ERROR
          end;
      _ ← mark_dirty self;
      drop_ref self
  | _ => fail UNKNOWN_INVARIANT_VIOLATION_ERROR
  end.

(** [r.borrow_mut()[idx] = x]; the old element is not dropped here. *)
Definition set_index {T} (k : Kind (list T)) (r : loc) (idx : N) (x : T) : HeapM T :=
  xs ← borrow k r;
  old ← lift (unwrap (at_ xs idx));
  _ ← replace k r (<[ N.to_nat idx := x ]> xs);
  mret old.

(** [IndexedRef::write_ref] *)
Definition indexed_write_ref (self : IndexedRef) (x : ValueImpl) : HeapM unit :=
  let idx := ir_idx self in
  match x with
  | VIndexedRef _ | VContainerRef _ | Invalid | VContainer _ =>
      fail UNKNOWN_INVARIANT_VIOLATION_ERROR
  | _ =>
      _ ← match ref_container (ir_container_ref self), x with
          | (Locals r | Vec r | Struct r), _ => old ← set_index values r idx x; drop_value old
          | VecU8 r, VU8 x => _ ← set_index u8s r idx x; mret tt
          | VecU64 r, VU64 x => _ ← set_index u64s r idx x; mret tt
          | VecU128 r, VU128 x => _ ← set_index u128s r idx x; mret tt
          | VecBool r, VBool x => _ ← set_index bools r idx x; mret tt
          | VecAddress r, VAddress x => _ ← set_index addresses r idx x; mret tt
          | _, _ => fail INTERNAL_TYPE_ERROR
          end;
      _ ← mark_dirty (ir_container_ref self);
      drop_ref (ir_container_ref self)
  end.

(** [ReferenceImpl::write_ref] *)
Definition write_ref (self : ReferenceImpl) (x : ValueImpl) : HeapM unit :=
  match self with
  | RContainerRef r => container_write_ref r x
  | RIndexedRef r => indexed_write_ref r x
  end.

(** ** Borrows *)

(** [ContainerRef::borrow_elem] *)
Definition borrow_elem (self : ContainerRef) (idx : N) : HeapM ValueImpl :=
  len ← container_len (ref_container self);
  if len <=? idx then fail UNKNOWN_INVARIANT_VIOLATION_ERROR else
  let indexed :=
    container_ref ← copy_container_ref self;
    mret (VIndexedRef {| ir_idx := idx; ir_container_ref := container_ref |}) in
  match ref_container self with
  | Locals r | Vec r | Struct r =>
      v ← index values r idx;
      match v with
      | VContainer container =>
          match self with
          | Local _ => VContainerRef ∘ Local <$> copy_by_ref container
          | Global status _ =>
              status ← rc_clone status;
              VContainerRef ∘ Global status <$> copy_by_ref container
          end
      | _ => indexed
      end
  | VecU8 _ | VecU64 _ | VecU128 _ | VecAddress _ | VecBool _ => indexed
  end.

(** [StructRef::borrow_field], [SignerRef::borrow_signer] *)
Definition borrow_field (self : ContainerRef) (idx : N) : HeapM ValueImpl := borrow_elem self idx.
Definition borrow_signer (self : ContainerRef) : HeapM ValueImpl := borrow_elem self 0.

(** [Locals::borrow_loc]; the locals of a frame are a cell of values. *)
Definition borrow_loc (self : loc) (idx : N) : HeapM ValueImpl :=
  v ← borrow values self;
  if len v <=? idx then fail UNKNOWN_INVARIANT_VIOLATION_ERROR else
  x ← lift (unwrap (at_ v idx));
  match x with
  | VContainer c => VContainerRef ∘ Local <$> copy_by_ref c
  | VU8 _ | VU64 _ | VU128 _ | VBool _ | VAddress _ =>
      r ← rc_clone self;
      mret (VIndexedRef {| ir_idx := idx; ir_container_ref := Local (Locals r) |})
  | VContainerRef _ | Invalid | VIndexedRef _ => fail UNKNOWN_INVARIANT_VIOLATION_ERROR
  end.

(** ** Locals *)

(** [Locals::new] *)
Definition locals_new (n : N) : HeapM loc := rc_new (CValues (replicate (N.to_nat n) Invalid)).

(** [Locals::copy_loc] *)
Definition copy_loc (self : loc) (idx : N) : HeapM ValueImpl :=
  v ← borrow values self;
  match at_ v idx with
  | Some Invalid => fail UNKNOWN_INVARIANT_VIOLATION_ERROR
  | Some v => copy_value v
  | None => fail VERIFIER_INVARIANT_VIOLATION
  end.

(** [Locals::swap_loc] *)
Definition swap_loc (self : loc) (idx : N) (x : ValueImpl) : HeapM ValueImpl :=
  vs ← borrow values self;
  match at_ vs idx with
  | Some v =>
      dangling ← match v with
                 | VContainer c => n ← rc_count c; mret (1 <? n)
                 | _ => mret false
                 end;
      if dangling : bool then fail UNKNOWN_INVARIANT_VIOLATION_ERROR
      else _ ← replace values self (<[ N.to_nat idx := x ]> vs); mret v
  | None => fail VERIFIER_INVARIANT_VIOLATION
  end.

(** [Locals::move_loc] *)
Definition move_loc (self : loc) (idx : N) : HeapM ValueImpl :=
  v ← swap_loc self idx Invalid;
  match v with
  | Invalid => fail UNKNOWN_INVARIANT_VIOLATION_ERROR
  | v => mret v
  end.

(** [Locals::store_loc] *)
Definition store_loc (self : loc) (idx : N) (x : ValueImpl) : HeapM unit :=
  old ← swap_loc self idx x;
  drop_value old.

(** ** Constructors *)

Definition value_signer (x : AccountAddress) : HeapM ValueImpl := VContainer <$> container_signer x.
Definition signer_reference (x : AccountAddress) : HeapM ValueImpl :=
  VContainerRef ∘ Local <$> container_signer x.
(** [Value::struct_]; a [Struct] of the source is the list of its fields. *)
Definition struct_ (fields : list ValueImpl) : HeapM ValueImpl :=
  VContainer ∘ Struct <$> rc_new (CValues fields).
Definition vector_u8 (xs : list u8) : HeapM ValueImpl := VContainer ∘ VecU8 <$> rc_new (CU8 xs).
Definition vector_u64 (xs : list u64) : HeapM ValueImpl := VContainer ∘ VecU64 <$> rc_new (CU64 xs).
Definition vector_u128 (xs : list u128) : HeapM ValueImpl :=
  VContainer ∘ VecU128 <$> rc_new (CU128 xs).
Definition vector_bool (bs : list bool) : HeapM ValueImpl := VContainer ∘ VecBool <$> rc_new (CBool bs).
Definition vector_address (xs : list AccountAddress) : HeapM ValueImpl :=
  VContainer ∘ VecAddress <$> rc_new (CAddress xs).

(** ** Casts *)

Definition cast_error {A} : HeapM A := fail INTERNAL_TYPE_ERROR.

(** [VMValueCast<IntegerValue>], and [IntegerValue::into_value] *)
Definition value_as_integer (v : ValueImpl) : HeapM IntegerValue.IntegerValue :=
  match v with
  | VU8 x => mret (IntegerValue.U8 x)
  | VU64 x => mret (IntegerValue.U64 x)
  | VU128 x => mret (IntegerValue.U128 x)
  | _ => cast_error
  end.
Definition into_value (self : IntegerValue.IntegerValue) : ValueImpl :=
  match self with
  | IntegerValue.U8 x => VU8 x
  | IntegerValue.U64 x => VU64 x
  | IntegerValue.U128 x => VU128 x
  end.

Definition value_as_reference (v : ValueImpl) : HeapM ReferenceImpl :=
  match v with
  | VContainerRef r => mret (RContainerRef r)
  | VIndexedRef r => mret (RIndexedRef r)
  | _ => cast_error
  end.
(** [VMValueCast<Container>] and [VMValueCast<Vector>] *)
Definition value_as_container (v : ValueImpl) : HeapM Container :=
  match v with VContainer c => mret c | _ => cast_error end.
(** [VMValueCast] to [ContainerRef], [StructRef], [SignerRef] and [VectorRef] *)
Definition value_as_container_ref (v : ValueImpl) : HeapM ContainerRef :=
  match v with VContainerRef r => mret r | _ => cast_error end.
Definition value_as_struct (v : ValueImpl) : HeapM (list ValueImpl) :=
  match v with VContainer (Struct r) => take_unique_ownership values r | _ => cast_error end.
Definition value_as_bytes (v : ValueImpl) : HeapM (list u8) :=
  match v with VContainer (VecU8 r) => take_unique_ownership u8s r | _ => cast_error end.

(** [Struct::pack] and [Struct::unpack] *)
Definition struct_pack (vals : list ValueImpl) : list ValueImpl := vals.
Definition struct_unpack (self : list ValueImpl) : HeapM (list ValueImpl) := mret self.
