(* ===== verification/Vectors.v ===== *)
(** * Vectors: the built-in vectors of the virtual machine

    Models [VectorRef] and [Vector] of
    [language/move-vm/types/src/values/values_impl.rs].  The element type of the
    instruction must agree with the layout of the container. *)

From S2P Require Import Prelude CoreTypes VmStatus Abilities FileFormat Errors Views Integers RuntimeTypes Heap Values.

(** [sub_status::NFE_VECTOR_ERROR_BASE] and the errors after it *)
Definition NFE_VECTOR_ERROR_BASE : u64 := 0.
Definition INDEX_OUT_OF_BOUNDS : u64 := NFE_VECTOR_ERROR_BASE + 1.
Definition POP_EMPTY_VEC : u64 := NFE_VECTOR_ERROR_BASE + 2.
Definition VEC_UNPACK_PARITY_MISMATCH : u64 := NFE_VECTOR_ERROR_BASE + 3.

(** [PartialVMError::new(StatusCode::ABORTED).with_sub_status(sub_status)] *)
Definition aborted {A} (sub_status : u64) : HeapM A :=
  lift match with_sub_status true (PartialVMError_new ABORTED) sub_status with
       | Ok e => Err e
       | _ => Panic
       end.

Definition unreachable {A} : HeapM A := λ _, Panic.

Definition check_elem_layout (ty : RuntimeType.Type_) (v : Container) : result PartialVMError unit :=
  match ty, v with
  | RuntimeType.U8, VecU8 _ | RuntimeType.U64, VecU64 _ | RuntimeType.U128, VecU128 _
  | RuntimeType.Bool, VecBool _ | RuntimeType.Address, VecAddress _
  | RuntimeType.Signer, Struct _ => Ok tt
  | RuntimeType.Vector _, Vec _ => Ok tt
  | RuntimeType.Struct _, Vec _ | RuntimeType.Signer, Vec _
  | RuntimeType.StructInstantiation _ _, Vec _ => Ok tt
  | RuntimeType.Reference _, _ | RuntimeType.MutableReference _, _ | RuntimeType.TyParam _, _ =>
      Err (PartialVMError_new UNKNOWN_INVARIANT_VIOLATION_ERROR)
  | _, _ => Err (PartialVMError_new UNKNOWN_INVARIANT_VIOLATION_ERROR)
  end.

(** ** [VectorRef]; its methods borrow the reference. *)

(** [VectorRef::len] *)
Definition vector_len (self : ContainerRef) (type_param : RuntimeType.Type_) : HeapM ValueImpl :=
  let c := ref_container self in
  _ ← lift (check_elem_layout type_param c);
  n ← match c with
      | VecU8 r => len <$> borrow u8s r
      | VecU64 r => len <$> borrow u64s r
      | VecU128 r => len <$> borrow u128s r
      | VecBool r => len <$> borrow bools r
      | VecAddress r => len <$> borrow addresses r
      | Vec r => len <$> borrow values r
      | Locals _ | Struct _ => unreachable
      end;
  mret (VU64 (wrap 64 n)).

(** [r.borrow_mut().push(x)] *)
Definition push {T} (k : Kind (list T)) (r : loc) (x : T) : HeapM unit :=
  xs ← borrow k r;
  replace k r (xs ++ [x]).
Definition push_prim {T} (p : Prim T) (r : loc) (e : ValueImpl) : HeapM unit :=
  x ← lift (value_as p e);
  push (cells_of p) r x.

(** [VectorRef::push_back] *)
Definition push_back (self : ContainerRef) (e : ValueImpl) (type_param : RuntimeType.Type_)
  : HeapM unit :=
  let c := ref_container self in
  _ ← lift (check_elem_layout type_param c);
  _ ← match c with
      | VecU8 r => push_prim prim_u8 r e
      | VecU64 r => push_prim prim_u64 r e
      | VecU128 r => push_prim prim_u128 r e
      | VecBool r => push_prim prim_bool r e
      | VecAddress r => push_prim prim_address r e
      | Vec r => push values r e
      | Locals _ | Struct _ => unreachable
      end;
  mark_dirty self.

(** [VectorRef::borrow_elem] *)
Definition vector_borrow_elem (self : ContainerRef) (idx : N) (type_param : RuntimeType.Type_)
  : HeapM ValueImpl :=
  let c := ref_container self in
  _ ← lift (check_elem_layout type_param c);
  n ← container_len c;
  if n <=? idx then aborted INDEX_OUT_OF_BOUNDS else borrow_elem self idx.

(** [r.borrow_mut().pop()], and the macro [err_pop_empty_vec] *)
Definition pop_cell {T} (k : Kind (list T)) (r : loc) : HeapM T :=
  xs ← borrow k r;
  match last xs with
  | Some x => _ ← replace k r (removelast xs); mret x
  | None => aborted POP_EMPTY_VEC
  end.

(** [VectorRef::pop] *)
Definition pop (self : ContainerRef) (type_param : RuntimeType.Type_) : HeapM ValueImpl :=
  let c := ref_container self in
  _ ← lift (check_elem_layout type_param c);
  res ← match c with
        | VecU8 r => VU8 <$> pop_cell u8s r
        | VecU64 r => VU64 <$> pop_cell u64s r
        | VecU128 r => VU128 <$> pop_cell u128s r
        | VecBool r => VBool <$> pop_cell bools r
        | VecAddress r => VAddress <$> pop_cell addresses r
        | Vec r => pop_cell values r
        | Locals _ | Struct _ => unreachable
        end;
  _ ← mark_dirty self;
  mret res.

(** [v.swap(idx1, idx2)] *)
Definition swap_list {T} (xs : list T) (idx1 idx2 : N) : list T :=
  match at_ xs idx1, at_ xs idx2 with
  | Some x, Some y => <[ N.to_nat idx1 := y ]> (<[ N.to_nat idx2 := x ]> xs)
  | _, _ => xs
  end.

(** The macro [swap] *)
Definition swap_cell {T} (k : Kind (list T)) (r : loc) (idx1 idx2 : N) : HeapM unit :=
  v ← borrow k r;
  if (len v <=? idx1) || (len v <=? idx2) then aborted INDEX_OUT_OF_BOUNDS
  else replace k r (swap_list v idx1 idx2).

(** [VectorRef::swap] *)
Definition swap (self : ContainerRef) (idx1 idx2 : N) (type_param : RuntimeType.Type_) : HeapM unit :=
  let c := ref_container self in
  _ ← lift (check_elem_layout type_param c);
  _ ← match c with
      | VecU8 r => swap_cell u8s r idx1 idx2
      | VecU64 r => swap_cell u64s r idx1 idx2
      | VecU128 r => swap_cell u128s r idx1 idx2
      | VecBool r => swap_cell bools r idx1 idx2
      | VecAddress r => swap_cell addresses r idx1 idx2
      | Vec r => swap_cell values r idx1 idx2
      | Locals _ | Struct _ => unreachable
      end;
  mark_dirty self.

(** ** [Vector] *)

(** [Vector::pack] *)
Definition vector_pack (type_param : RuntimeType.Type_) (elements : list ValueImpl) : HeapM ValueImpl :=
  match type_param with
  | RuntimeType.U8 => xs ← lift (collect (value_as prim_u8) elements); vector_u8 xs
  | RuntimeType.U64 => xs ← lift (collect (value_as prim_u64) elements); vector_u64 xs
  | RuntimeType.U128 => xs ← lift (collect (value_as prim_u128) elements); vector_u128 xs
  | RuntimeType.Bool => bs ← lift (collect (value_as prim_bool) elements); vector_bool bs
  | RuntimeType.Address => xs ← lift (collect (value_as prim_address) elements); vector_address xs
  | RuntimeType.Signer | RuntimeType.Vector _ | RuntimeType.Struct _
  | RuntimeType.StructInstantiation _ _ => VContainer ∘ Vec <$> rc_new (CValues elements)
  | RuntimeType.Reference _ | RuntimeType.MutableReference _ | RuntimeType.TyParam _ =>
      fail UNKNOWN_INVARIANT_VIOLATION_ERROR
  end.

(** [Vector::empty] *)
Definition vector_empty (type_param : RuntimeType.Type_) : HeapM ValueImpl := vector_pack type_param [].

(** [Vector::unpack] *)
Definition vector_unpack (self : Container) (type_param : RuntimeType.Type_) (expected_num : u64)
  : HeapM (list ValueImpl) :=
  _ ← lift (check_elem_layout type_param self);
  elements ← match self with
             | VecU8 r => fmap VU8 <$> take_unique_ownership u8s r
             | VecU64 r => fmap VU64 <$> take_unique_ownership u64s r
             | VecU128 r => fmap VU128 <$> take_unique_ownership u128s r
             | VecBool r => fmap VBool <$> take_unique_ownership bools r
             | VecAddress r => fmap VAddress <$> take_unique_ownership addresses r
             | Vec r => take_unique_ownership values r
             | Locals _ | Struct _ => unreachable
             end;
  if expected_num =? len elements then mret elements
  else aborted VEC_UNPACK_PARITY_MISMATCH.

(** [Vector::destroy_empty] *)
Definition destroy_empty (self : Container) (type_param : RuntimeType.Type_) : HeapM unit :=
  _ ← vector_unpack self type_param 0;
  mret tt.
