(* ===== verification/GlobalValues.v ===== *)
(** * GlobalValues: a slot of global storage that can hold a resource

    Models [GlobalValueImpl] of
    [language/move-vm/types/src/values/values_impl.rs]. *)

From S2P Require Import Prelude CoreTypes VmStatus Abilities FileFormat Errors Integers Heap Values.

(** [enum GlobalValueImpl] *)
Inductive GlobalValueImpl : Set :=
| None_
| Fresh (fields : loc)
| Cached (fields : loc) (status : loc)
| Deleted.

(** [pub enum GlobalValueEffect] *)
Inductive GlobalValueEffect (T : Type) : Type :=
| EffectNone
| EffectDeleted
| EffectChanged (x : T).
Arguments EffectNone {T}.
Arguments EffectDeleted {T}.
Arguments EffectChanged {T} x.

(** [GlobalValueImpl::cached] *)
Definition cached (val : ValueImpl) (status : GlobalDataStatus) : HeapM GlobalValueImpl :=
  match val with
  | VContainer (Struct fields) =>
      status ← rc_new (CStatus status);
      mret (Cached fields status)
  | _ => fail UNKNOWN_INVARIANT_VIOLATION_ERROR
  end.

(** [GlobalValueImpl::fresh] *)
Definition fresh_ (val : ValueImpl) : HeapM GlobalValueImpl :=
  match val with
  | VContainer (Struct fields) => mret (Fresh fields)
  | _ => fail UNKNOWN_INVARIANT_VIOLATION_ERROR
  end.

(** [GlobalValueImpl::move_from]: the slot after the move, and the resource; the
    status of a cached slot is dropped. *)
Definition move_from (self : GlobalValueImpl) : HeapM (GlobalValueImpl * ValueImpl) :=
  st ← match self with
       | None_ | Deleted => fail MISSING_DATA
       | Fresh fields => mret (None_, fields)
       | Cached fields status => _ ← drop_pointers [status]; mret (Deleted, fields)
       end;
  let '(self, fields) := st : GlobalValueImpl * loc in
  n ← strong_count fields;
  if negb (n =? 1) then fail UNKNOWN_INVARIANT_VIOLATION_ERROR
  else mret (self, VContainer (Struct fields)).

(** [GlobalValueImpl::move_to] *)
Definition move_to (self : GlobalValueImpl) (val : ValueImpl) : HeapM GlobalValueImpl :=
  match self with
  | Fresh _ | Cached _ _ => fail RESOURCE_ALREADY_EXISTS
  | None_ => fresh_ val
  | Deleted => cached val Dirty
  end.

(** [GlobalValueImpl::exists] *)
Definition exists_ (self : GlobalValueImpl) : bool :=
  match self with Fresh _ | Cached _ _ => true | None_ | Deleted => false end.

(** [GlobalValueImpl::borrow_global] *)
Definition borrow_global (self : GlobalValueImpl) : HeapM ValueImpl :=
  match self with
  | None_ | Deleted => fail MISSING_DATA
  | Fresh fields => fields ← rc_clone fields; mret (VContainerRef (Local (Struct fields)))
  | Cached fields status =>
      fields ← rc_clone fields;
      status ← rc_clone status;
      mret (VContainerRef (Global status (Struct fields)))
  end.

(** [GlobalValueImpl::into_effect]; the slot is consumed, and what the effect does not
    take over of it is dropped. *)
Definition into_effect (self : GlobalValueImpl) : HeapM (GlobalValueEffect ValueImpl) :=
  match self with
  | None_ => mret EffectNone
  | Deleted => mret EffectDeleted
  | Fresh fields => mret (EffectChanged (VContainer (Struct fields)))
  | Cached fields status =>
      s ← borrow statuses status;
      match s with
      | Dirty => _ ← drop_pointers [status]; mret (EffectChanged (VContainer (Struct fields)))
      | Clean => _ ← drop_pointers [fields; status]; mret EffectNone
      end
  end.

(** [GlobalValueImpl::is_mutated] *)
Definition is_mutated (self : GlobalValueImpl) : HeapM bool :=
  match self with
  | None_ => mret false
  | Deleted => mret true
  | Fresh _ => mret true
  | Cached _ status =>
      s ← borrow statuses status;
      mret match s with Dirty => true | Clean => false end
  end.

(** [GlobalValue::none] and [GlobalValue::cached] *)
Definition global_none : GlobalValueImpl := None_.
Definition global_cached (val : ValueImpl) : HeapM GlobalValueImpl := cached val Clean.
