(* ===== verification/HeapCounts.v ===== *)
(** * HeapCounts: strong counts are numbers of pointers

    The invariant of the heap of [Heap]: the strong count of a cell is the number of
    pointers to it, from the values that the machine holds and from other cells, and
    no pointer dangles.  The operations on cells keep it, and dropping pointers ends,
    releases only cells, and changes no content. *)

From S2P Require Import Prelude CoreTypes VmStatus Abilities FileFormat Errors Heap.

(** ** Occurrences of a pointer *)

Definition occ (l : loc) (rs : list loc) : nat := length (filter (l =.) rs).

Lemma occ_nil l : occ l [] = 0%nat.
Proof. done. Qed.
Lemma occ_cons l r rs : occ l (r :: rs) = ((if decide (l = r) then 1 else 0) + occ l rs)%nat.
Proof. unfold occ. rewrite filter_cons. by destruct (decide (l = r)). Qed.
Lemma occ_app l rs rs' : occ l (rs ++ rs') = (occ l rs + occ l rs')%nat.
Proof. unfold occ. by rewrite filter_app, length_app. Qed.
Lemma occ_elem l rs : (0 < occ l rs)%nat ↔ l ∈ rs.
Proof.
  unfold occ. split.
  - intros H. destruct (filter _ _) as [|x xs] eqn:E; [simpl in H; lia|].
    assert (x ∈ filter (l =.) rs) as [<- Hx]%list_elem_of_filter by (rewrite E; by left). done.
  - intros H. assert (l ∈ filter (l =.) rs) as Hx by by apply list_elem_of_filter.
    destruct (filter _ _); [by apply not_elem_of_nil in Hx|simpl; lia].
Qed.
#[export] Instance occ_perm l : Proper ((≡ₚ) ==> eq) (occ l).
Proof. intros rs rs' H. unfold occ. by rewrite H. Qed.

Create HintDb occ.
#[export] Hint Rewrite occ_nil occ_cons occ_app : occ.

(** Pointers to [l] in the cells of a heap *)
Definition heap_occ (m : gmap loc Cell) (l : loc) : nat :=
  map_fold (λ _ c n, (occ l (content_pointers (content c)) + n)%nat) O m.

Section Fold.
Context (f : Cell → nat).
Notation total m := (map_fold (λ _ c n, (f c + n)%nat) O m).

Lemma total_insert (m : gmap loc Cell) k c :
  m !! k = None → total (<[ k := c ]> m) = (f c + total m)%nat.
Proof. intros H. apply (map_fold_insert_L (λ _ c n, (f c + n)%nat)); [intros; lia|done]. Qed.
Lemma total_delete (m : gmap loc Cell) k c :
  m !! k = Some c → total m = (f c + total (delete k m))%nat.
Proof. intros H. apply (map_fold_delete_L (λ _ c n, (f c + n)%nat)); [intros; lia|done]. Qed.
Lemma total_replace (m : gmap loc Cell) k c c' :
  m !! k = Some c → (total (<[ k := c' ]> m) + f c = total m + f c')%nat.
Proof.
  intros H. rewrite (total_delete m k c H), <- insert_delete_eq, total_insert by
    apply lookup_delete_eq. lia.
Qed.
End Fold.

Lemma heap_occ_elem m l k c : m !! k = Some c → l ∈ content_pointers (content c) → (0 < heap_occ m l)%nat.
Proof.
  intros Hk Hl%occ_elem. unfold heap_occ.
  rewrite (total_delete (λ c, occ l (content_pointers (content c))) _ _ _ Hk). lia.
Qed.

(** ** The invariant *)

Definition strong_of (h : Heap) (l : loc) : N :=
  match cells h !! l with Some c => strong c | None => 0 end.

Record counted (h : Heap) (rs : list loc) : Prop := {
  ct_count : ∀ l, strong_of h l = N.of_nat (occ l rs + heap_occ (cells h) l);
  ct_live : ∀ l c, cells h !! l = Some c → 0 < strong c;
  ct_fresh : ∀ l c, cells h !! l = Some c → l < next_loc h }.

#[export] Instance counted_perm h : Proper ((≡ₚ) ==> iff) (counted h).
Proof.
  intros rs rs' H. split; intros [Hc Hl Hf]; constructor; try done; intros l; rewrite Hc; by rewrite H.
Qed.

Definition contents (h : Heap) : gmap loc Content := content <$> cells h.

Lemma contents_lookup h l : contents h !! l = content <$> (cells h !! l).
Proof. apply lookup_fmap. Qed.
Lemma contents_Some h l x : contents h !! l = Some x ↔ ∃ c, cells h !! l = Some c ∧ content c = x.
Proof. rewrite contents_lookup, fmap_Some. naive_solver. Qed.

Lemma counted_root h rs l : counted h rs → l ∈ rs → ∃ c, cells h !! l = Some c.
Proof.
  intros H Hl%occ_elem. pose proof (ct_count _ _ H l) as Hs. unfold strong_of in Hs.
  destruct (cells h !! l) as [c|]; [eauto|lia].
Qed.
Lemma counted_cell h rs l k x :
  counted h rs → contents h !! k = Some x → l ∈ content_pointers x → ∃ c, cells h !! l = Some c.
Proof.
  intros H (c & Hk & <-)%contents_Some Hl. pose proof (heap_occ_elem _ _ _ _ Hk Hl).
  pose proof (ct_count _ _ H l) as Hs. unfold strong_of in Hs.
  destruct (cells h !! l) as [c'|]; [eauto|lia].
Qed.

Lemma strong_set h r c l :
  strong_of (set_cell r c h) l = if decide (l = r) then strong c else strong_of h l.
Proof.
  unfold strong_of, set_cell. cbn [cells]. destruct (decide (l = r)) as [->|].
  - by rewrite lookup_insert_eq.
  - by rewrite lookup_insert_ne.
Qed.
Lemma strong_remove h r l :
  strong_of (remove_cell r h) l = if decide (l = r) then 0 else strong_of h l.
Proof.
  unfold strong_of, remove_cell. cbn [cells]. destruct (decide (l = r)) as [->|].
  - by rewrite lookup_delete_eq.
  - by rewrite lookup_delete_ne.
Qed.

Lemma heap_occ_set h r c c' l :
  cells h !! r = Some c →
  (heap_occ (cells (set_cell r c' h)) l + occ l (content_pointers (content c)) =
   heap_occ (cells h) l + occ l (content_pointers (content c')))%nat.
Proof. intros H. apply (total_replace (λ c, occ l (content_pointers (content c))) _ _ _ c' H). Qed.
Lemma heap_occ_remove h r c l :
  cells h !! r = Some c →
  heap_occ (cells h) l = (occ l (content_pointers (content c)) + heap_occ (cells (remove_cell r h)) l)%nat.
Proof. intros H. apply (total_delete (λ c, occ l (content_pointers (content c))) _ _ _ H). Qed.

(** A cell that is replaced, by one with a positive count *)
Lemma counted_set h rs rs' r c c' :
  counted h rs → cells h !! r = Some c → 0 < strong c' →
  (∀ l, (if decide (l = r) then strong c' else strong_of h l) + N.of_nat (occ l rs) +
        N.of_nat (occ l (content_pointers (content c))) =
        strong_of h l + N.of_nat (occ l rs') + N.of_nat (occ l (content_pointers (content c')))) →
  counted (set_cell r c' h) rs'.
Proof.
  intros [Hc Hl Hf] Hr Hpos H. constructor.
  - intros l. rewrite strong_set. pose proof (heap_occ_set h r c c' l Hr) as Ho.
    specialize (H l). specialize (Hc l). lia.
  - intros l x. unfold set_cell. cbn [cells]. intros [[_ <-]|[_ Hx]]%lookup_insert_Some; eauto.
  - intros l x. unfold set_cell. cbn [cells next_loc].
    intros [[<- _]|[_ Hx]]%lookup_insert_Some; eauto.
Qed.

Lemma strong_cell h r c : cells h !! r = Some c → strong_of h r = strong c.
Proof. intros H. unfold strong_of. by rewrite H. Qed.

Lemma counted_new h rs x :
  counted h (content_pointers x ++ rs) →
  ∃ l h', rc_new x h = Ok (l, h') ∧ counted h' (l :: rs) ∧ cells h !! l = None ∧
    contents h' = <[ l := x ]> (contents h) ∧ next_loc h' = l + 1 ∧ next_loc h = l.
Proof.
  intros [Hc Hl Hf]. set (l := next_loc h).
  assert (cells h !! l = None) as Hn.
  { destruct (cells h !! l) as [c|] eqn:E; [|done]. apply Hf in E. unfold l in E. lia. }
  eexists l, _. split; [reflexivity|]. split_and!; [|done| |done|done].
  - constructor; cbn [cells next_loc].
    + intros k. unfold strong_of, heap_occ. cbn [cells].
      rewrite (total_insert (λ c, occ k (content_pointers (content c))) _ _ _ Hn). cbn [content].
      pose proof (Hc k) as Hk. unfold strong_of, heap_occ in Hk. rewrite occ_app in Hk.
      rewrite occ_cons. destruct (decide (k = l)) as [->|].
      * rewrite lookup_insert_eq. rewrite Hn in Hk. cbn [strong]. lia.
      * rewrite lookup_insert_ne by done. lia.
    + intros k c [[_ <-]|[_ Hk]]%lookup_insert_Some; [done|eauto].
    + intros k c [[<- _]|[_ Hk]]%lookup_insert_Some; [lia|]. apply Hf in Hk. lia.
  - unfold contents. cbn [cells]. by rewrite fmap_insert.
Qed.

Lemma contents_set h r c c' :
  cells h !! r = Some c → content c' = content c → contents (set_cell r c' h) = contents h.
Proof.
  intros Hr Hc. unfold contents, set_cell. cbn [cells]. rewrite fmap_insert, Hc.
  apply insert_id. by rewrite lookup_fmap, Hr.
Qed.

Lemma counted_clone h rs r :
  counted h rs → r ∈ rs ∨ (∃ k x, contents h !! k = Some x ∧ r ∈ content_pointers x) →
  ∃ h', rc_clone r h = Ok (r, h') ∧ counted h' (r :: rs) ∧ contents h' = contents h ∧
    next_loc h' = next_loc h.
Proof.
  intros H Hr. assert (∃ c, cells h !! r = Some c) as [c Hc].
  { destruct Hr as [Hr|(k & x & Hk & Hr)]; [by eapply counted_root|by eapply counted_cell]. }
  unfold rc_clone, lookup_cell, mbind, HeapM_bind. rewrite Hc. eexists. split; [reflexivity|].
  split_and!; [|by apply (contents_set h r c)|done].
  apply (counted_set h rs _ r c); [done|done|simpl; lia|]. intros l. cbn [strong content].
  rewrite occ_cons. destruct (decide (l = r)) as [->|]; [|lia]. rewrite (strong_cell _ _ _ Hc). lia.
Qed.

Lemma counted_replace {T} (k : Kind T) h rs r x y :
  contents h !! r = Some y → counted h (content_pointers (put k x) ++ rs) →
  ∃ h', replace k r x h = Ok (tt, h') ∧ counted h' (content_pointers y ++ rs) ∧
    contents h' = <[ r := put k x ]> (contents h) ∧ next_loc h' = next_loc h.
Proof.
  intros (c & Hr & <-)%contents_Some H. unfold replace, lookup_cell, mbind, HeapM_bind. rewrite Hr.
  eexists. split; [reflexivity|]. split_and!; [| |done].
  - eapply (counted_set h _ _ r c); [exact H|done|exact (ct_live _ _ H _ _ Hr)|].
    intros l. cbn [strong content]. rewrite !occ_app.
    destruct (decide (l = r)) as [->|]; [|lia]. rewrite (strong_cell _ _ _ Hr). lia.
  - unfold contents, set_cell. cbn [cells]. by rewrite fmap_insert.
Qed.

Lemma counted_take {T} (k : Kind T) h rs r x :
  contents h !! r = Some (put k x) → get k (put k x) = Some x → counted h (r :: rs) →
  (strong_of h r = 1 → ∃ h', take_unique_ownership k r h = Ok (x, h') ∧
     counted h' (content_pointers (put k x) ++ rs) ∧ contents h' = delete r (contents h) ∧
     next_loc h' = next_loc h) ∧
  (strong_of h r ≠ 1 → take_unique_ownership k r h =
     Err (PartialVMError_new UNKNOWN_INVARIANT_VIOLATION_ERROR)).
Proof.
  intros (c & Hr & Hx)%contents_Some Hg H. rewrite (strong_cell _ _ _ Hr).
  unfold take_unique_ownership, lookup_cell, mbind, HeapM_bind. rewrite Hr.
  destruct (N.eqb_spec (strong c) 1) as [H1|H1]; [|done]. split; [intros _|done].
  rewrite Hx, Hg. cbn. eexists. split; [reflexivity|]. destruct H as [Hc Hl Hf].
  assert (∀ l, strong_of (remove_cell r h) l =
    N.of_nat (occ l (content_pointers (put k x) ++ rs) + heap_occ (cells (remove_cell r h)) l)) as Hn.
  { intros l. rewrite strong_remove. pose proof (heap_occ_remove h r c l Hr) as Ho.
    specialize (Hc l). rewrite Hx in Ho. rewrite occ_cons in Hc. rewrite occ_app.
    destruct (decide (l = r)) as [->|]; [|lia]. rewrite (strong_cell _ _ _ Hr) in Hc. lia. }
  split_and!; [|by unfold contents, remove_cell; cbn [cells]; rewrite fmap_delete|done].
  constructor; [done|..]; unfold remove_cell; cbn [cells next_loc];
    intros l c' [_ Hl']%lookup_delete_Some; eauto.
Qed.

(** ** Dropping *)

Lemma heap_pointers_remove h r c :
  cells h !! r = Some c →
  heap_pointers h = (length (content_pointers (content c)) + heap_pointers (remove_cell r h))%nat.
Proof. intros H. apply (total_delete (λ c, length (content_pointers (content c))) _ _ _ H). Qed.
Lemma heap_pointers_set h r c c' :
  cells h !! r = Some c → content c' = content c → heap_pointers (set_cell r c' h) = heap_pointers h.
Proof.
  intros H Hc. pose proof (total_replace (λ c, length (content_pointers (content c))) _ _ _ c' H) as Ht.
  unfold heap_pointers, set_cell. cbn [cells]. cbv beta in Ht. rewrite Hc in Ht. lia.
Qed.

Lemma counted_drop fuel rs h ks :
  counted h (rs ++ ks) → (length rs + heap_pointers h <= fuel)%nat →
  ∃ h', drop_loop fuel rs h = Ok (tt, h') ∧ counted h' ks ∧ contents h' ⊆ contents h ∧
    next_loc h' = next_loc h.
Proof.
  revert rs h; induction fuel as [|fuel IH]; intros [|r rs] h H Hf; try (simpl in Hf; lia).
  1,2: by exists h.
  cbn [drop_loop]. destruct (counted_root _ _ r H) as [c Hr]; [by left|]. rewrite Hr.
  pose proof (ct_count _ _ H r) as Hs. rewrite (strong_cell _ _ _ Hr) in Hs.
  pose proof (ct_live _ _ H _ _ Hr) as Hpos. cbn [app] in H, Hs. rewrite occ_cons in Hs.
  rewrite decide_True in Hs by done. destruct (N.leb_spec (strong c) 1) as [H1|H1].
  - destruct (counted_take {| get := Some; put := id |} h (rs ++ ks) r (content c))
      as [(h' & Ht & Hc' & Hm & Hnl) _]; [by apply contents_Some; eauto|done|done|
      by rewrite (strong_cell _ _ _ Hr); lia|].
    unfold take_unique_ownership, lookup_cell, mbind, HeapM_bind in Ht. rewrite Hr in Ht.
    replace (strong c =? 1) with true in Ht by lia. cbn in Ht. injection Ht as <-.
    destruct (IH (content_pointers (content c) ++ rs) (remove_cell r h)) as (h2 & -> & H2 & H3 & H4).
    + by rewrite <- app_assoc.
    + rewrite length_app. rewrite (heap_pointers_remove _ _ _ Hr) in Hf. simpl in Hf. lia.
    + exists h2. split_and!; [done|done| |done]. etrans; [done|]. rewrite Hm. apply delete_subseteq.
  - destruct (IH rs (set_cell r {| strong := strong c - 1; content := content c |} h))
      as (h2 & -> & H2 & H3 & H4).
    + eapply (counted_set h _ _ r c); [exact H|done|simpl; lia|]. intros l. cbn [strong content].
      rewrite occ_cons. destruct (decide (l = r)) as [->|]; [|lia].
      rewrite (strong_cell _ _ _ Hr). lia.
    + rewrite (heap_pointers_set _ _ c) by done. simpl in Hf. lia.
    + exists h2. split_and!; [done|done| |done]. by rewrite (contents_set _ _ c) in H3.
Qed.

Lemma counted_drop_pointers rs h ks :
  counted h (rs ++ ks) →
  ∃ h', drop_pointers rs h = Ok (tt, h') ∧ counted h' ks ∧ contents h' ⊆ contents h ∧
    next_loc h' = next_loc h.
Proof. intros H. unfold drop_pointers. by apply counted_drop. Qed.

(** ** Deciding the invariant *)

Definition check_counted (h : Heap) (rs : list loc) : bool :=
  forallb (λ '(l, c), (strong c =? N.of_nat (occ l rs + heap_occ (cells h) l)) &&
    (0 <? strong c) && (l <? next_loc h) &&
    forallb (λ r, bool_decide (is_Some (cells h !! r))) (content_pointers (content c)))
    (map_to_list (cells h)) &&
  forallb (λ r, bool_decide (is_Some (cells h !! r))) rs.

Lemma heap_occ_zero (m : gmap loc Cell) l :
  (∀ k c, m !! k = Some c → l ∉ content_pointers (content c)) → heap_occ m l = 0%nat.
Proof.
  induction m as [|k c m Hk IH] using map_ind; intros H; [done|].
  unfold heap_occ. rewrite (total_insert (λ c, occ l (content_pointers (content c))) _ _ _ Hk).
  fold (heap_occ m l). rewrite IH.
  - destruct (occ l (content_pointers (content c))) eqn:E; [done|]. exfalso.
    apply (H k c); [by apply lookup_insert_eq|]. apply occ_elem. lia.
  - intros k' c' Hk'. apply (H k'). rewrite lookup_insert_ne; [done|]. intros ->. congruence.
Qed.

Lemma check_counted_sound h rs : check_counted h rs = true → counted h rs.
Proof.
  unfold check_counted. rewrite andb_true_iff, !forallb_forall. intros [Hc Hr].
  assert (∀ l c, cells h !! l = Some c →
    strong c = N.of_nat (occ l rs + heap_occ (cells h) l) ∧ 0 < strong c ∧ l < next_loc h ∧
    ∀ r, r ∈ content_pointers (content c) → is_Some (cells h !! r)) as H.
  { intros l c Hl. specialize (Hc (l, c)). cbn in Hc. rewrite !andb_true_iff, forallb_forall in Hc.
    destruct Hc as [[[H1 H2] H3] H4]; [by apply list_elem_of_In, elem_of_map_to_list|].
    split_and!; [lia|lia|lia|]. intros r Hin. apply list_elem_of_In in Hin.
    by apply H4, bool_decide_eq_true in Hin. }
  constructor; [|naive_solver..]. intros l. unfold strong_of.
  destruct (cells h !! l) as [c|] eqn:E; [naive_solver|].
  rewrite heap_occ_zero.
  - destruct (occ l rs) eqn:Ho; [done|]. exfalso.
    assert (l ∈ rs) as Hin by (apply occ_elem; lia). apply list_elem_of_In in Hin.
    apply Hr, bool_decide_eq_true in Hin as [c Hin]. congruence.
  - intros k c Hk Hin. apply (H _ _ Hk) in Hin as [c' Hin]. congruence.
Qed.
