(* ===== verification/ValueTrees.v ===== *)
(** * ValueTrees: what a value denotes, and copying values

    The data a value stands for, read out of the heap as a tree, and the locations it
    is made of.  Copying builds a value of the same tree from cells of its own. *)

From S2P Require Import Prelude CoreTypes VmStatus Abilities FileFormat Errors Views Integers RuntimeTypes Heap Values HeapCounts.

(** ** Trees *)

Inductive tree : Set :=
| TU8 (x : u8) | TU64 (x : u64) | TU128 (x : u128) | TBool (b : bool) | TAddress (a : AccountAddress)
| TVec (ts : list tree) | TStruct (ts : list tree)
| TVecU8 (xs : list u8) | TVecU64 (xs : list u64) | TVecU128 (xs : list u128)
| TVecBool (bs : list bool) | TVecAddress (xs : list AccountAddress).

(** The tree of a value without references, up to a depth *)
Fixpoint read_tree (n : nat) (m : gmap loc Content) (v : ValueImpl) : option tree :=
  match n with
  | O => None
  | S n =>
      match v with
      | VU8 x => Some (TU8 x)
      | VU64 x => Some (TU64 x)
      | VU128 x => Some (TU128 x)
      | VBool b => Some (TBool b)
      | VAddress a => Some (TAddress a)
      | VContainer c =>
          match c, m !! container_loc c with
          | Vec _, Some (CValues vs) => TVec <$> mapM (read_tree n m) vs
          | Struct _, Some (CValues vs) => TStruct <$> mapM (read_tree n m) vs
          | VecU8 _, Some (CU8 xs) => Some (TVecU8 xs)
          | VecU64 _, Some (CU64 xs) => Some (TVecU64 xs)
          | VecU128 _, Some (CU128 xs) => Some (TVecU128 xs)
          | VecBool _, Some (CBool bs) => Some (TVecBool bs)
          | VecAddress _, Some (CAddress xs) => Some (TVecAddress xs)
          | _, _ => None
          end
      | _ => None
      end
  end.

(** The cells that hold the data of a value, up to a depth *)
Fixpoint footprint (n : nat) (m : gmap loc Content) (v : ValueImpl) : list loc :=
  match n, v with
  | S n, VContainer c =>
      container_loc c ::
      match m !! container_loc c with
      | Some (CValues vs) => vs ≫= footprint n m
      | _ => []
      end
  | _, _ => []
  end.

(** The value [v] has the data [t] in the heap [h]. *)
Definition denotes (h : Heap) (v : ValueImpl) (t : tree) : Prop :=
  ∃ n, read_tree n (contents h) v = Some t.

(** ** Reading *)

(** A container that denotes a tree: a generic one, with its elements, or a specialized one *)
Lemma read_container n m c t :
  read_tree (S n) m (VContainer c) = Some t →
  (∃ x, m !! container_loc c = Some x ∧ (∀ vs, x ≠ CValues vs) ∧
     ∀ n' m', m' !! container_loc c = Some x → read_tree (S n') m' (VContainer c) = Some t) ∨
  (∃ vs ts mk, m !! container_loc c = Some (CValues vs) ∧ mapM (read_tree n m) vs = Some ts ∧
     t = mk ts ∧ (c = Vec (container_loc c) ∧ mk = TVec ∨ c = Struct (container_loc c) ∧ mk = TStruct) ∧
     ∀ n' m' vs' ts', m' !! container_loc c = Some (CValues vs') →
       mapM (read_tree n' m') vs' = Some ts' →
       read_tree (S n') m' (VContainer c) = Some (mk ts')).
Proof.
  cbn [read_tree].
  destruct c; cbn [container_loc]; destruct (m !! r) as [[]|] eqn:E; try done;
    intros Ht; try (left; injection Ht as <-; eexists; split; [reflexivity|]; split; [done|];
                    by intros n' m' ->).
  - right. apply fmap_Some in Ht as (ts & Hts & ->). exists vs, ts, TVec.
    split_and!; [done..|by left|]. by intros n' m' vs' ts' -> ->.
  - right. apply fmap_Some in Ht as (ts & Hts & ->). exists vs, ts, TStruct.
    split_and!; [done..|by right|]. by intros n' m' vs' ts' -> ->.
Qed.

(** Only the cells of the footprint matter. *)
Lemma read_frame n m m' v t :
  (∀ l, l ∈ footprint n m v → m' !! l = m !! l) → read_tree n m v = Some t →
  ∀ n', (n <= n')%nat → read_tree n' m' v = Some t ∧ footprint n' m' v = footprint n m v.
Proof.
  revert v t; induction n as [|n IH]; intros v t Hm Ht [|n'] Hn; try done; [lia|].
  destruct v; try done. apply read_container in Ht as
    [(x & Hx & Hg & Hr)|(vs & ts & mk & Hx & Hts & -> & _ & Hr)].
  - cbn [footprint] in *. assert (m' !! container_loc c = Some x) as Hx'.
    { rewrite <- Hx. apply Hm. by left. }
    split; [by apply Hr|]. rewrite Hx, Hx'. by destruct x; try (by edestruct Hg).
  - cbn [footprint] in *. assert (m' !! container_loc c = Some (CValues vs)) as Hx'.
    { rewrite <- Hx. apply Hm. by left. }
    rewrite Hx in *. rewrite Hx'. apply mapM_Some in Hts.
    assert (Forall2 (λ v t, read_tree n' m' v = Some t) vs ts ∧
            (vs ≫= footprint n' m') = (vs ≫= footprint n m)) as [Hts' ->].
    { assert (∀ l, l ∈ vs ≫= footprint n m → m' !! l = m !! l) as Hm'
        by (intros l Hl; apply Hm; by right).
      clear -IH Hts Hm' Hn. induction Hts as [|v t vs ts Hv _ IHts]; [done|].
      destruct IHts as [H1 H2].
      { intros l Hl. apply Hm'. change ((v :: vs) ≫= footprint n m) with
          (footprint n m v ++ (vs ≫= footprint n m)). apply elem_of_app. by right. }
      destruct (IH v t) with (n' := n') as [H3 H4]; [|done|lia|].
      { intros l Hl. apply Hm'. change ((v :: vs) ≫= footprint n m) with
          (footprint n m v ++ (vs ≫= footprint n m)). apply elem_of_app. by left. }
      split; [by constructor|].
      change ((v :: vs) ≫= footprint n' m') with (footprint n' m' v ++ (vs ≫= footprint n' m')).
      by rewrite H2, H4. }
    split; [|done]. apply (Hr _ _ vs); [done|]. by apply mapM_Some.
Qed.

Lemma read_footprint n m v t l :
  read_tree n m v = Some t → l ∈ footprint n m v → is_Some (m !! l).
Proof.
  revert v t; induction n as [|n IH]; intros v t Ht Hl; [by apply not_elem_of_nil in Hl|].
  destruct v; try (by apply not_elem_of_nil in Hl).
  apply read_container in Ht as [(x & Hx & Hg & Hr)|(vs & ts & mk & Hx & Hts & -> & _ & Hr)];
    cbn [footprint] in Hl; rewrite Hx in Hl; apply elem_of_cons in Hl as [->|Hl]; eauto.
  - destruct x; try (by apply not_elem_of_nil in Hl). by edestruct Hg.
  - apply list_elem_of_bind in Hl as (v & Hl & Hv). apply mapM_Some in Hts.
    apply list_elem_of_lookup in Hv as [i Hv]. eapply Forall2_lookup_l in Hts as (t & _ & Ht); eauto.
Qed.

Lemma read_mono n n' m m' v t :
  m ⊆ m' → (n <= n')%nat → read_tree n m v = Some t →
  read_tree n' m' v = Some t ∧ footprint n' m' v = footprint n m v.
Proof.
  intros Hm Hn Ht. apply read_frame; [|done..]. intros l Hl.
  destruct (read_footprint _ _ _ _ _ Ht Hl) as [x Hx]. rewrite Hx. by eapply lookup_weaken.
Qed.

Lemma denotes_fun h v t t' : denotes h v t → denotes h v t' → t = t'.
Proof.
  intros [n Hn] [n' Hn'].
  destruct (read_mono n (n + n') (contents h) (contents h) v t) as [H1 _]; [done|lia|done|].
  destruct (read_mono n' (n + n') (contents h) (contents h) v t') as [H2 _]; [done|lia|done|]. congruence.
Qed.

(** ** Containers nest no deeper than there are cells *)

Fixpoint tree_size (t : tree) : nat :=
  match t with
  | TVec ts | TStruct ts => S (foldr (λ t n, (tree_size t + n)%nat) O ts)
  | _ => 1
  end.
Definition trees_size (ts : list tree) : nat := foldr (λ t n, (tree_size t + n)%nat) O ts.

Lemma trees_size_elem t ts : t ∈ ts → (tree_size t <= trees_size ts)%nat.
Proof. induction 1 as [t ts|t u ts _ IH]; cbn [trees_size foldr]; [lia|]. unfold trees_size in IH. lia. Qed.

Lemma footprint_size n m v t l vs :
  read_tree n m v = Some t → l ∈ footprint n m v → m !! l = Some (CValues vs) →
  ∃ n' ts, (n' < n)%nat ∧ mapM (read_tree n' m) vs = Some ts ∧ (S (trees_size ts) <= tree_size t)%nat.
Proof.
  revert v t; induction n as [|n IH]; intros v t Ht Hl Hvs; [by apply not_elem_of_nil in Hl|].
  destruct v; try (by apply not_elem_of_nil in Hl).
  apply read_container in Ht as [(x & Hx & Hg & Hr)|(us & ts & mk & Hx & Hts & -> & Hmk & Hr)];
    cbn [footprint] in Hl; rewrite Hx in Hl; apply elem_of_cons in Hl as [->|Hl].
  - rewrite Hvs in Hx. injection Hx as <-. by edestruct Hg.
  - destruct x; try (by apply not_elem_of_nil in Hl). by edestruct Hg.
  - rewrite Hvs in Hx. injection Hx as <-. exists n, ts. split_and!; [lia|done|].
    by destruct Hmk as [[_ ->]|[_ ->]].
  - apply list_elem_of_bind in Hl as (v & Hl & Hv). pose proof Hts as Hts'%mapM_Some.
    apply list_elem_of_lookup in Hv as [i Hv].
    destruct (Forall2_lookup_l _ _ _ _ _ Hts' Hv) as (t & Hi & Ht).
    destruct (IH v t Ht Hl Hvs) as (n' & us' & Hn & Hus & Hle). exists n', us'.
    split_and!; [lia|done|].
    assert (tree_size t <= trees_size ts)%nat by (apply trees_size_elem, list_elem_of_lookup; eauto).
    destruct Hmk as [[_ ->]|[_ ->]]; cbn [tree_size]; fold (trees_size ts); lia.
Qed.

(** A container is not part of its elements. *)
Lemma footprint_acyclic n m l vs ts v :
  m !! l = Some (CValues vs) → mapM (read_tree n m) vs = Some ts → v ∈ vs →
  l ∉ footprint n m v.
Proof.
  intros Hl Hts Hv Hin. pose proof Hts as Hts'%mapM_Some.
  apply list_elem_of_lookup in Hv as [i Hv].
  destruct (Forall2_lookup_l _ _ _ _ _ Hts' Hv) as (t & Hi & Ht).
  destruct (footprint_size _ _ _ _ _ _ Ht Hin Hl) as (n' & ts' & Hn & Hts2 & Hle).
  assert (ts' = ts) as ->.
  { apply mapM_Some in Hts2. clear -Hts' Hts2 Hn. revert ts Hts'.
    induction Hts2 as [|u t' us ts' Hu _ IH]; intros ts Hts; inversion Hts as [|? t2 ? ts2 Hu2 Hts2]; subst;
      [done|]. f_equal; [|by apply IH].
    destruct (read_mono n' n m m u t') as [Hu' _]; [done|lia|done|]. congruence. }
  assert (tree_size t <= trees_size ts)%nat by (apply trees_size_elem, list_elem_of_lookup; eauto).
  lia.
Qed.

Lemma read_bound n m v t :
  read_tree n m v = Some t → read_tree (S (size m)) m v = Some t.
Proof.
  remember (size m) as s eqn:Hs. revert n m v t Hs.
  induction s as [|s IH]; intros n m v t Hs Ht; (destruct n as [|n]; [done|]).
  all: destruct v; try exact Ht.
  all: apply read_container in Ht as [(x & Hx & Hg & Hr)|(vs & ts & mk & Hx & Hts & -> & _ & Hr)];
    [by apply Hr|].
  - symmetry in Hs. apply map_size_empty_inv in Hs. subst m. by rewrite lookup_empty in Hx.
  - apply (Hr _ _ vs); [done|]. pose proof Hts as Hts'%mapM_Some. apply mapM_Some.
    rewrite Forall2_same_length_lookup in Hts' |- *. destruct Hts' as [Hlen Hts'].
    split; [done|]. intros i v t Hv Hi. specialize (Hts' i v t Hv Hi).
    set (l := container_loc c) in *.
    assert (read_tree (S s) (delete l m) v = Some t) as Hd.
    { apply (IH n); [rewrite map_size_delete_Some by eauto; lia|].
      apply (read_frame n m); [|done|done]. intros k Hk. rewrite lookup_delete_ne; [done|].
      intros <-. eapply (footprint_acyclic n m l vs ts v); [done|done| |done].
      apply list_elem_of_lookup. eauto. }
    by apply (read_mono (S s) (S s) (delete l m) m); [apply delete_subseteq|lia|].
Qed.

(** ** Copying *)

(** The state after building [v] from cells of its own, in the heap [h] *)
Record built (n : nat) (h : Heap) (R : list loc) (v : ValueImpl) (t : tree) (h' : Heap) : Prop := {
  bt_counted : counted h' (pointers v ++ R);
  bt_contents : contents h ⊆ contents h';
  bt_next : next_loc h <= next_loc h';
  bt_tree : read_tree n (contents h') v = Some t;
  bt_own : ∀ l, l ∈ footprint n (contents h') v → next_loc h <= l }.

Definition built_list (n : nat) (h : Heap) (R : list loc) (vs : list ValueImpl) (ts : list tree)
    (h' : Heap) : Prop :=
  counted h' ((vs ≫= pointers) ++ R) ∧ contents h ⊆ contents h' ∧ next_loc h <= next_loc h' ∧
  mapM (read_tree n (contents h')) vs = Some ts ∧
  ∀ l, l ∈ vs ≫= footprint n (contents h') → next_loc h <= l.

Lemma heap_bind {A B} (m : HeapM A) (k : A → HeapM B) h a h' :
  m h = Ok (a, h') → (m ≫= k) h = k a h'.
Proof. intros H. unfold mbind, HeapM_bind. by rewrite H. Qed.
Lemma heap_fmap {A B} (f : A → B) (m : HeapM A) h a h' :
  m h = Ok (a, h') → (f <$> m) h = Ok (f a, h').
Proof. intros H. unfold fmap, HeapM_fmap. by rewrite (heap_bind _ _ _ _ _ H). Qed.
Lemma borrow_Ok {T} (k : Kind T) h r x :
  contents h !! r = Some (put k x) → get k (put k x) = Some x → borrow k r h = Ok (x, h).
Proof.
  intros (c & Hr & Hx)%contents_Some Hg. unfold borrow, lookup_cell, mbind, HeapM_bind.
  by rewrite Hr, Hx, Hg.
Qed.

Lemma built_mono n n' h R v t h' : (n <= n')%nat → built n h R v t h' → built n' h R v t h'.
Proof.
  intros Hn [C M N T O]. destruct (read_mono n n' (contents h') (contents h') v t) as [T' F]; [done..|].
  by constructor; [..|rewrite F].
Qed.
Lemma footprints_mono n n' m m' vs ts :
  m ⊆ m' → (n <= n')%nat → Forall2 (λ v t, read_tree n m v = Some t) vs ts →
  Forall2 (λ v t, read_tree n' m' v = Some t) vs ts ∧ (vs ≫= footprint n' m') = (vs ≫= footprint n m).
Proof.
  intros Hm Hn. induction 1 as [|v t vs ts Hv _ [IH1 IH2]]; [done|].
  destruct (read_mono n n' m m' v t) as [T F]; [done..|]. split; [by constructor|].
  change (footprint n' m' v ++ (vs ≫= footprint n' m') = footprint n m v ++ (vs ≫= footprint n m)). by rewrite F, IH2.
Qed.
Lemma built_list_mono n n' h R vs ts h' : (n <= n')%nat → built_list n h R vs ts h' → built_list n' h R vs ts h'.
Proof.
  intros Hn (C & M & N & T & O). apply mapM_Some in T.
  destruct (footprints_mono n n' (contents h') (contents h') vs ts) as [T' F]; [done..|].
  split_and!; [done..|by apply mapM_Some|by rewrite F].
Qed.
Lemma built_nil n h R : counted h R → built_list n h R [] [] h.
Proof. intros H. split_and!; [done|done|done|done|]. intros l Hl. by apply not_elem_of_nil in Hl. Qed.
Lemma built_cons n h R v t h1 vs ts h2 :
  built n h R v t h1 → built_list n h1 (pointers v ++ R) vs ts h2 → built_list n h R (v :: vs) (t :: ts) h2.
Proof.
  intros [C1 M1 N1 T1 O1] (C2 & M2 & N2 & T2 & O2).
  destruct (read_mono n n (contents h1) (contents h2) v t) as [T3 F3]; [done|done|done|].
  split_and!.
  - cbn. rewrite <- app_assoc. eapply counted_perm; [|exact C2].
    by rewrite !app_assoc, (Permutation_app_comm (pointers v)).
  - by etrans.
  - lia.
  - apply mapM_Some. constructor; [done|]. by apply mapM_Some.
  - intros l. cbn. rewrite elem_of_app. intros [Hl|Hl].
    + apply O1. by rewrite <- F3.
    + specialize (O2 l Hl). lia.
Qed.

Lemma collect_copy n (copy : ValueImpl → HeapM ValueImpl) :
  (∀ v t h R, read_tree n (contents h) v = Some t → counted h R →
     ∃ v' h', copy v h = Ok (v', h') ∧ built n h R v' t h') →
  ∀ vs ts h R, mapM (read_tree n (contents h)) vs = Some ts → counted h R →
  ∃ vs' h', collect_heap copy vs h = Ok (vs', h') ∧ built_list n h R vs' ts h'.
Proof.
  intros Hcopy vs. induction vs as [|v vs IH]; intros ts h R Hts H.
  - injection Hts as <-. exists [], h. split; [done|]. by apply built_nil.
  - apply mapM_Some in Hts. inversion Hts as [|? t ? us Hv Hts']; subst. clear Hts.
    destruct (Hcopy v t h R Hv H) as (v' & h1 & Hc & Hb).
    destruct (IH us h1 (pointers v' ++ R)) as (vs' & h2 & Hcs & Hbs).
    { apply mapM_Some. eapply Forall2_impl; [exact Hts'|]. intros u t' Hu.
      by apply (read_mono n n (contents h)); [apply Hb|..]. }
    { apply Hb. }
    exists (v' :: vs'), h2. split; [|by eapply built_cons].
    cbn [collect_heap]. rewrite (heap_bind _ _ _ _ _ Hc). by rewrite (heap_bind _ _ _ _ _ Hcs).
Qed.

(** A new container, around elements that are new already *)
Lemma built_new n h R h1 x c t :
  counted h1 (content_pointers x ++ R) → contents h ⊆ contents h1 → next_loc h <= next_loc h1 →
  (∀ l, container_loc (c l) = l) →
  (∀ m' l, m' !! l = Some x → contents h1 ⊆ m' → read_tree n m' (VContainer (c l)) = Some t) →
  (∀ m' l k, m' !! l = Some x → contents h1 ⊆ m' → k ∈ footprint n m' (VContainer (c l)) →
     k = l ∨ next_loc h <= k) →
  ∃ l h', rc_new x h1 = Ok (l, h') ∧ built n h R (VContainer (c l)) t h'.
Proof.
  intros H Hm Hn Hc Ht Hf. destruct (counted_new h1 R x H) as (l & h' & Hnew & C & Hl & M & N & L).
  assert (contents h1 !! l = None) as Hl' by (by rewrite contents_lookup, Hl).
  exists l, h'. split; [done|]. constructor.
  - cbn. by rewrite Hc.
  - rewrite M. etrans; [done|]. by apply insert_subseteq.
  - lia.
  - apply Ht; rewrite M; [by rewrite lookup_insert_eq|by apply insert_subseteq].
  - intros k Hk. apply Hf in Hk as [-> |]; [lia|done|by rewrite M, lookup_insert_eq|].
    rewrite M. by apply insert_subseteq.
Qed.

Lemma built_values n h R h1 vs ts (c : loc → Container) mk :
  built_list n h R vs ts h1 → (∀ l, container_loc (c l) = l) →
  (c = Vec ∧ mk = TVec ∨ c = Struct ∧ mk = TStruct) →
  ∃ l h', rc_new (CValues vs) h1 = Ok (l, h') ∧ built (S n) h R (VContainer (c l)) (mk ts) h'.
Proof.
  intros (C & M & N & T & O) Hc Hmk. apply (built_new _ _ _ h1 (CValues vs)); try done.
  - intros m' l Hl Hm'. assert (mapM (read_tree n m') vs = Some ts) as Hts.
    { apply mapM_Some in T. apply mapM_Some. eapply Forall2_impl; [exact T|]. intros v t Hv.
      by apply (read_mono n n (contents h1)). }
    destruct Hmk as [[-> ->]|[-> ->]]; cbn [read_tree container_loc]; by rewrite Hl, Hts.
  - intros m' l k Hl Hm'. cbn [footprint]. rewrite Hc, Hl. intros [->|Hk]%elem_of_cons; [by left|].
    right. apply O. apply list_elem_of_bind in Hk as (v & Hk & Hv). apply list_elem_of_bind.
    exists v. split; [|done]. apply mapM_Some in T. apply list_elem_of_lookup in Hv as [i Hv].
    destruct (Forall2_lookup_l _ _ _ _ _ T Hv) as (t & _ & Ht).
    by destruct (read_mono n n _ m' _ _ Hm' (le_n _) Ht) as [_ <-].
Qed.

Lemma built_prim n h R x t (c : loc → Container) :
  counted h R → (∀ l, container_loc (c l) = l) → (∀ vs, x ≠ CValues vs) →
  (∀ m' l, m' !! l = Some x → read_tree (S n) m' (VContainer (c l)) = Some t) →
  ∃ l h', rc_new x h = Ok (l, h') ∧ built (S n) h R (VContainer (c l)) t h'.
Proof.
  intros H Hc Hx Ht.
  assert (content_pointers x = []) as Hp by (destruct x; try done; by edestruct Hx).
  apply (built_new _ _ _ h x c t); [by rewrite Hp|done|done|done|by auto|].
  intros m' l k Hl _. cbn [footprint]. rewrite Hc, Hl. intros [->|Hk]%elem_of_cons; [by left|].
  exfalso. destruct x; try (by apply not_elem_of_nil in Hk). by edestruct Hx.
Qed.

(** The case of a specialized vector *)
Lemma copy_prim {T} (k : Kind T) (c : loc → Container) n h R r x t :
  contents h !! r = Some (put k x) → get k (put k x) = Some x → counted h R →
  (∀ l, container_loc (c l) = l) → (∀ vs, put k x ≠ CValues vs) →
  (∀ m l, m !! l = Some (put k x) → read_tree (S n) m (VContainer (c l)) = Some t) →
  ∃ h' c', (xs ← borrow k r; c <$> rc_new (put k xs)) h = Ok (c', h') ∧
    built (S n) h R (VContainer c') t h'.
Proof.
  intros E Hg H Hc Hx Ht. rewrite (heap_bind _ _ _ _ _ (borrow_Ok k _ _ _ E Hg)).
  destruct (built_prim n h R (put k x) t c) as (l & h' & Hn & Hb); [done..|].
  exists h', (c l). split; [by apply heap_fmap|done].
Qed.

Lemma copy_built n v t h R fuel :
  read_tree n (contents h) v = Some t → counted h R → (n <= fuel)%nat →
  ∃ v' h', copy_impl fuel v h = Ok (v', h') ∧ built n h R v' t h'.
Proof.
  revert v t h R fuel; induction n as [|n IH]; intros v t h R [|fuel] Ht H Hf; try done; [lia|].
  assert (∀ v', pointers v' = [] → (∀ m, footprint (S n) m v' = []) →
    (∀ m, read_tree (S n) m v' = Some t) →
    ∃ v'' h', (mret v' : HeapM ValueImpl) h = Ok (v'', h') ∧ built (S n) h R v'' t h') as Hleaf.
  { intros v' Hp Hfp Hv'. exists v', h. split; [done|]. constructor; [by rewrite Hp|done|done|done|].
    intros l. rewrite Hfp. intros Hl. by apply not_elem_of_nil in Hl. }
  destruct v; try done; try (injection Ht as <-; by apply Hleaf). clear Hleaf.
  assert (∀ vs ts, mapM (read_tree n (contents h)) vs = Some ts →
    ∃ vs' h', collect_heap (copy_impl fuel) vs h = Ok (vs', h') ∧ built_list n h R vs' ts h') as Hvs.
  { intros vs ts Hts. apply (collect_copy n); [|done|done]. intros. apply IH; [done..|lia]. }
  assert (∀ c' : HeapM Container, (∃ l c, (c' h : result _ _) = Ok (c, l) ∧
      built (S n) h R (VContainer c) t l) →
    ∃ v' h', (VContainer <$> c') h = Ok (v', h') ∧ built (S n) h R v' t h') as Hmap.
  { intros c' (l & c0 & Hc & Hb). exists (VContainer c0), l. split; [|done]. by apply heap_fmap. }
  cbn [copy_impl]. apply Hmap. clear Hmap. unfold copy_container. cbn [read_tree] in Ht.
  destruct c; cbn [container_loc] in Ht; destruct (contents h !! r) as [[]|] eqn:E; try done.
  1: apply fmap_Some in Ht as (ts & Hts & ->);
    rewrite (heap_bind _ _ _ _ _ (borrow_Ok values _ _ _ E eq_refl));
    destruct (Hvs _ _ Hts) as (vs' & h1 & Hc & Hb); rewrite (heap_bind _ _ _ _ _ Hc);
    destruct (built_values _ _ _ _ _ _ Vec TVec Hb) as (l & h' & Hn & Hb');
    [done|by left|].
  2: apply fmap_Some in Ht as (ts & Hts & ->);
    rewrite (heap_bind _ _ _ _ _ (borrow_Ok values _ _ _ E eq_refl));
    destruct (Hvs _ _ Hts) as (vs' & h1 & Hc & Hb); rewrite (heap_bind _ _ _ _ _ Hc);
    destruct (built_values _ _ _ _ _ _ Struct TStruct Hb) as (l & h' & Hn & Hb');
    [done|by right|].
  1,2: exists h'; eexists; split; [by apply heap_fmap|done].
  - injection Ht as <-. apply (copy_prim u8s VecU8 n _ _ _ _ _ E); try done. by intros m l Hl; cbn; rewrite Hl.
  - injection Ht as <-. apply (copy_prim u64s VecU64 n _ _ _ _ _ E); try done. by intros m l Hl; cbn; rewrite Hl.
  - injection Ht as <-. apply (copy_prim u128s VecU128 n _ _ _ _ _ E); try done. by intros m l Hl; cbn; rewrite Hl.
  - injection Ht as <-. apply (copy_prim bools VecBool n _ _ _ _ _ E); try done. by intros m l Hl; cbn; rewrite Hl.
  - injection Ht as <-. apply (copy_prim addresses VecAddress n _ _ _ _ _ E); try done. by intros m l Hl; cbn; rewrite Hl.
Qed.

Lemma size_contents h : size (contents h) = size (cells h).
Proof. apply map_size_fmap. Qed.

Lemma copy_value_built h v t R :
  denotes h v t → counted h R →
  ∃ n v' h', copy_value v h = Ok (v', h') ∧ built n h R v' t h'.
Proof.
  intros [n Ht%read_bound] H. rewrite size_contents in Ht. exists (heap_fuel h).
  by apply (copy_built (heap_fuel h)).
Qed.

(** Copying a value that holds data, however its containers are nested, ends and
    gives a value of the same data made of new cells only, so that no change of an old
    cell can change the copy; every strong count stays the number of pointers. *)
Theorem copy_value_spec (h : Heap) (v : ValueImpl) (t : tree) (R : list loc) :
  denotes h v t → counted h R →
  ∃ v' h', copy_value v h = Ok (v', h') ∧ counted h' (pointers v' ++ R) ∧
    denotes h' v' t ∧ contents h ⊆ contents h' ∧
    ∀ h'', (∀ l, next_loc h <= l → contents h'' !! l = contents h' !! l) → denotes h'' v' t.
Proof.
  intros Ht H. destruct (copy_value_built h v t R Ht H) as (n & v' & h' & Hc & [C M N T O]).
  exists v', h'. split_and!; [done|done|by exists n|done|].
  intros h'' Hl. exists n. apply (read_frame n (contents h')); [|done|done].
  intros l Hin. by apply Hl, O.
Qed.

(** A struct of a number and a vector of bytes *)
Definition sample_heap : Heap :=
  {| cells := {[ 0 := {| strong := 1; content := CValues [VU64 7; VContainer (VecU8 1)] |};
                 1 := {| strong := 1; content := CU8 [1; 2] |} ]};
     next_loc := 2 |}.
Definition sample_value : ValueImpl := VContainer (Struct 0).

Example copy_value_spec_witness :
  ∃ v' h', copy_value sample_value sample_heap = Ok (v', h') ∧ v' = VContainer (Struct 3) ∧
    denotes h' v' (TStruct [TU64 7; TVecU8 [1; 2]]).
Proof.
  destruct (copy_value_spec sample_heap sample_value (TStruct [TU64 7; TVecU8 [1; 2]]) [0])
    as (v' & h' & H & _ & Ht & _).
  - exists 2%nat. vm_compute. reflexivity.
  - apply check_counted_sound. vm_compute. reflexivity.
  - exists v', h'. split_and!; [exact H| |exact Ht]. vm_compute in H. by injection H as <- _.
Defined.
