(* ===== verification/Layouts.v ===== *)
(** * Layouts: typed data, and the equality of values of one layout

    Models [MoveTypeLayout] and [MoveStructLayout] of
    [language/move-core/types/src/value.rs], says which trees have a layout, and
    proves that comparing two values of a layout decides the equality of their data. *)

From S2P Require Import Prelude CoreTypes VmStatus Abilities FileFormat Errors Views Integers RuntimeTypes Heap Values HeapCounts ValueTrees.

(** [pub enum MoveTypeLayout] and [pub enum MoveStructLayout] *)
Inductive MoveTypeLayout : Set :=
| LBool | LU8 | LU64 | LU128 | LAddress
| LVector (layout : MoveTypeLayout)
| LStruct (layout : MoveStructLayout)
| LSigner
with MoveStructLayout : Set :=
| Runtime (types : list MoveTypeLayout)
| WithFields (types : list (Identifier * MoveTypeLayout)).

(** [MoveStructLayout::fields] *)
Definition layout_fields {E} (self : MoveStructLayout) : result E (list MoveTypeLayout) :=
  match self with Runtime types => Ok types | WithFields _ => Panic end.

(** The data of a type: specialized vectors for the primitive types, the other vectors
    and the structs generic, a signer the struct of its address *)
Fixpoint has_layout (t : tree) (l : MoveTypeLayout) {struct t} : bool :=
  match l, t with
  | LBool, TBool _ | LU8, TU8 _ | LU64, TU64 _ | LU128, TU128 _ | LAddress, TAddress _ => true
  | LSigner, TStruct [TAddress _] => true
  | LVector LU8, TVecU8 _ | LVector LU64, TVecU64 _ | LVector LU128, TVecU128 _
  | LVector LBool, TVecBool _ | LVector LAddress, TVecAddress _ => true
  | LVector (LU8 | LU64 | LU128 | LBool | LAddress), _ => false
  | LVector l, TVec ts => forallb (λ t, has_layout t l) ts
  | LStruct (Runtime ls), TStruct ts =>
      (fix go (ts : list tree) (ls : list MoveTypeLayout) : bool :=
         match ts, ls with
         | [], [] => true
         | t :: ts, l :: ls => has_layout t l && go ts ls
         | _, _ => false
         end) ts ls
  | _, _ => false
  end.

(** Trees that can be compared: no position has two kinds of data. *)
Fixpoint comparable (t u : tree) {struct t} : bool :=
  match t, u with
  | TU8 _, TU8 _ | TU64 _, TU64 _ | TU128 _, TU128 _ | TBool _, TBool _ | TAddress _, TAddress _
  | TVecU8 _, TVecU8 _ | TVecU64 _, TVecU64 _ | TVecU128 _, TVecU128 _ | TVecBool _, TVecBool _
  | TVecAddress _, TVecAddress _ => true
  | TVec ts, TVec us | TStruct ts, TStruct us =>
      (fix go (ts us : list tree) : bool :=
         match ts, us with
         | t :: ts, u :: us => comparable t u && go ts us
         | _, _ => true
         end) ts us
  | _, _ => false
  end.

Section TreeInduction.
Context (P : tree → Prop).
Context (H1 : ∀ x, P (TU8 x)) (H2 : ∀ x, P (TU64 x)) (H3 : ∀ x, P (TU128 x)) (H4 : ∀ b, P (TBool b))
  (H5 : ∀ a, P (TAddress a)) (HVec : ∀ ts, Forall P ts → P (TVec ts))
  (HStruct : ∀ ts, Forall P ts → P (TStruct ts)) (H6 : ∀ xs, P (TVecU8 xs))
  (H7 : ∀ xs, P (TVecU64 xs)) (H8 : ∀ xs, P (TVecU128 xs)) (H9 : ∀ bs, P (TVecBool bs))
  (H10 : ∀ xs, P (TVecAddress xs)).
Fixpoint tree_nested_ind (t : tree) : P t :=
  match t with
  | TU8 x => H1 x | TU64 x => H2 x | TU128 x => H3 x | TBool b => H4 b | TAddress a => H5 a
  | TVec ts => HVec ts (list_ind (Forall P) (Forall_nil_2 P)
      (λ x l, Forall_cons_2 P x l (tree_nested_ind x)) ts)
  | TStruct ts => HStruct ts (list_ind (Forall P) (Forall_nil_2 P)
      (λ x l, Forall_cons_2 P x l (tree_nested_ind x)) ts)
  | TVecU8 xs => H6 xs | TVecU64 xs => H7 xs | TVecU128 xs => H8 xs | TVecBool bs => H9 bs
  | TVecAddress xs => H10 xs
  end.
End TreeInduction.

Lemma comparable_go ts us :
  comparable (TVec ts) (TVec us) = forallb (λ p, comparable p.1 p.2) (zip ts us) ∧
  comparable (TStruct ts) (TStruct us) = forallb (λ p, comparable p.1 p.2) (zip ts us).
Proof.
  cbn [comparable]. split; revert us; induction ts as [|t ts IH]; intros [|u us]; try done;
    cbn; by rewrite IH.
Qed.

Lemma has_layout_struct ts ls :
  has_layout (TStruct ts) (LStruct (Runtime ls)) = true ↔ Forall2 (λ t l, has_layout t l = true) ts ls.
Proof.
  cbn [has_layout]. revert ls; induction ts as [|t ts IH]; intros [|l ls];
    try (split; [done|by inversion 1]).
  rewrite andb_true_iff, IH. split; [by intros []; constructor|by inversion 1].
Qed.

(** Data of one layout can be compared. *)
Lemma layout_comparable t u l :
  has_layout t l = true → has_layout u l = true → comparable t u = true.
Proof.
  revert u l. induction t as [| | | | |ts IH|ts IH| | | | |] using tree_nested_ind; intros u l Ht Hu.
  6: { destruct l as [| | | | |l'|[]|]; try done.
    assert (∃ us, u = TVec us ∧ forallb (λ t, has_layout t l') us = true) as (us & -> & Hus).
    { destruct l'; try done; destruct u; try done; by eexists. }
    assert (forallb (λ t, has_layout t l') ts = true) as Hts by (by destruct l').
    destruct (comparable_go ts us) as [-> _]. clear Ht Hu. revert us Hus.
    induction IH as [|t ts IHt _ IHts]; intros [|u us] Hus; try done.
    cbn in *. apply andb_true_iff in Hts as [Ht Hts], Hus as [Hu Hus].
    rewrite (IHt u l') by done. by apply IHts. }
  6: { destruct l as [| | | | |l'|[ls|]|]; try done.
    - destruct l'; by destruct u.
    - destruct u as [| | | | | |us| | | | |]; try done.
      apply has_layout_struct in Ht, Hu. destruct (comparable_go ts us) as [_ ->].
      revert us ls Ht Hu. induction IH as [|t ts IHt _ IHts]; intros us ls Ht Hu; [done|].
      inversion Ht as [|? l ? ls' Hl Hls]; subst. inversion Hu as [|u ? us' ? Hul Huls]; subst.
      cbn. rewrite (IHt u l) by done. by apply (IHts us' ls').
    - destruct ts as [|[] []]; try done. by destruct u as [| | | | | |[|[] []]| | | | |]. }
  all: destruct l as [| | | | |[]|[]|]; try done; by destruct u.
Qed.

(** ** Equality *)

(** A value by the form of its data *)
Lemma read_kind n m v t :
  read_tree (S n) m v = Some t →
  match t with
  | TU8 x => v = VU8 x
  | TU64 x => v = VU64 x
  | TU128 x => v = VU128 x
  | TBool b => v = VBool b
  | TAddress a => v = VAddress a
  | TVec ts => ∃ r vs, v = VContainer (Vec r) ∧ m !! r = Some (CValues vs) ∧
      mapM (read_tree n m) vs = Some ts
  | TStruct ts => ∃ r vs, v = VContainer (Struct r) ∧ m !! r = Some (CValues vs) ∧
      mapM (read_tree n m) vs = Some ts
  | TVecU8 xs => ∃ r, v = VContainer (VecU8 r) ∧ m !! r = Some (CU8 xs)
  | TVecU64 xs => ∃ r, v = VContainer (VecU64 r) ∧ m !! r = Some (CU64 xs)
  | TVecU128 xs => ∃ r, v = VContainer (VecU128 r) ∧ m !! r = Some (CU128 xs)
  | TVecBool bs => ∃ r, v = VContainer (VecBool r) ∧ m !! r = Some (CBool bs)
  | TVecAddress xs => ∃ r, v = VContainer (VecAddress r) ∧ m !! r = Some (CAddress xs)
  end.
Proof.
  destruct v; try (by intros [= <-]). cbn [read_tree].
  destruct c; cbn [container_loc]; destruct (m !! r) as [[]|] eqn:E; try done; intros H;
    try (apply fmap_Some in H as (ts & H & ->); by eauto 6); injection H as <-; by eauto.
Qed.

Lemma equal_values_spec (f : ValueImpl → ValueImpl → HeapM bool) n m h vs us ts ss :
  (∀ v u t s, read_tree n m v = Some t → read_tree n m u = Some s → comparable t s = true →
     ∃ b, f v u h = Ok (b, h) ∧ (b = true ↔ t = s)) →
  mapM (read_tree n m) vs = Some ts → mapM (read_tree n m) us = Some ss →
  length vs = length us → forallb (λ p, comparable p.1 p.2) (zip ts ss) = true →
  ∃ b, equal_values f vs us h = Ok (b, h) ∧ (b = true ↔ ts = ss).
Proof.
  intros Hf Hts%mapM_Some Hss%mapM_Some. revert us ss Hss.
  induction Hts as [|v t vs ts Hv _ IH]; intros us ss Hss Hlen Hc.
  { destruct Hss; [|done]. by exists true. }
  destruct Hss as [|u s us ss Hu Hss]; [done|]. cbn in Hc. apply andb_true_iff in Hc as [Hc Hcs].
  destruct (Hf v u t s Hv Hu Hc) as (b & Hb & Hbs). cbn [equal_values].
  rewrite (heap_bind _ _ _ _ _ Hb). destruct b.
  - destruct (IH us ss Hss) as (b & Hb' & Hbs'); [simpl in Hlen; lia|done|].
    exists b. split; [done|]. rewrite Hbs'. assert (t = s) as -> by by apply Hbs. naive_solver.
  - exists false. split; [done|]. split; [done|]. intros [= -> _]. by apply Hbs.
Qed.

Lemma equal_prims_spec {T} `{EqDecision T} (p : Prim T) h l r xs ys :
  contents h !! l = Some (put (cells_of p) xs) → contents h !! r = Some (put (cells_of p) ys) →
  get (cells_of p) (put (cells_of p) xs) = Some xs → get (cells_of p) (put (cells_of p) ys) = Some ys →
  equal_prims p l r h = Ok (bool_decide (xs = ys), h).
Proof.
  intros Hl Hr Hx Hy. unfold equal_prims. rewrite (heap_bind _ _ _ _ _ (borrow_Ok _ _ _ _ Hl Hx)).
  by rewrite (heap_bind _ _ _ _ _ (borrow_Ok _ _ _ _ Hr Hy)).
Qed.

Lemma equal_lists_spec (f : ValueImpl → ValueImpl → HeapM bool) n h l r vs us ts ss :
  (∀ v u t s, read_tree n (contents h) v = Some t → read_tree n (contents h) u = Some s →
     comparable t s = true → ∃ b, f v u h = Ok (b, h) ∧ (b = true ↔ t = s)) →
  contents h !! l = Some (CValues vs) → contents h !! r = Some (CValues us) →
  mapM (read_tree n (contents h)) vs = Some ts → mapM (read_tree n (contents h)) us = Some ss →
  forallb (λ p, comparable p.1 p.2) (zip ts ss) = true →
  ∃ b, (vs ← borrow values l; us ← borrow values r;
        if negb (len vs =? len us) then mret false else equal_values f vs us) h = Ok (b, h) ∧
    (b = true ↔ ts = ss).
Proof.
  intros Hf Hl Hr Hts Hss Hc.
  rewrite (heap_bind _ _ _ _ _ (borrow_Ok values _ _ _ Hl eq_refl)).
  rewrite (heap_bind _ _ _ _ _ (borrow_Ok values _ _ _ Hr eq_refl)).
  destruct (N.eqb_spec (len vs) (len us)) as [Hlen|Hlen]; cbn [negb].
  - apply (equal_values_spec f n (contents h)); try done. unfold len in Hlen. lia.
  - exists false. split; [done|]. split; [done|]. intros ->. exfalso. apply Hlen. unfold len. f_equal.
    apply mapM_Some in Hts, Hss. by rewrite (Forall2_length _ _ _ Hts), (Forall2_length _ _ _ Hss).
Qed.

Lemma equals_impl_spec n h fuel v u t s :
  read_tree n (contents h) v = Some t → read_tree n (contents h) u = Some s →
  comparable t s = true → (n <= fuel)%nat →
  ∃ b, equals_impl fuel v u h = Ok (b, h) ∧ (b = true ↔ t = s).
Proof.
  revert v u t s fuel; induction n as [|n IH]; intros v u t s [|fuel] Ht Hs Hc Hf; try done; [lia|].
  assert (∀ v u t s, read_tree n (contents h) v = Some t → read_tree n (contents h) u = Some s →
    comparable t s = true → ∃ b, equals_impl fuel v u h = Ok (b, h) ∧ (b = true ↔ t = s)) as IH'
    by (intros; apply IH; [done..|lia]).
  apply read_kind in Ht, Hs. destruct t as [| | | | |ts|ts| | | | |], s as [| | | | |ss|ss| | | | |];
    try done; cbn [equals_impl].
  1-5: subst; eexists; (split; [reflexivity|]); rewrite ?N.eqb_eq, ?bool_decide_eq_true, ?Bool.eqb_true_iff;
    naive_solver.
  1: destruct (comparable_go ts ss) as [Hg _].
  2: destruct (comparable_go ts ss) as [_ Hg].
  1,2: rewrite Hg in Hc; destruct Ht as (l & vs & -> & Hl & Hvs), Hs as (r & us & -> & Hr & Hus);
    cbn [equals_impl container_equals];
    destruct (equal_lists_spec _ n h l r _ _ _ _ IH' Hl Hr Hvs Hus Hc) as (b & Hb & Hbs);
    exists b; (split; [exact Hb|]); rewrite Hbs; naive_solver.
  all: destruct Ht as (l & -> & Hl), Hs as (r & -> & Hr); cbn [equals_impl container_equals];
    eexists; (split; [by eapply equal_prims_spec|]); rewrite bool_decide_eq_true; naive_solver.
Qed.

(** Comparing two values of the same layout ends without an error and returns true
    exactly when their data are equal. *)
Theorem equals_spec (h : Heap) (v u : ValueImpl) (t s : tree) (l : MoveTypeLayout) :
  denotes h v t → denotes h u s → has_layout t l = true → has_layout s l = true →
  ∃ b, equals v u h = Ok (b, h) ∧ (b = true ↔ t = s).
Proof.
  intros [n Hn%read_bound] [n' Hn'%read_bound] Ht Hs. rewrite size_contents in Hn, Hn'.
  apply (equals_impl_spec (heap_fuel h)); [done|done|by apply (layout_comparable t s l)|].
  unfold heap_fuel. lia.
Qed.

Example equals_spec_witness :
  ∃ b, equals sample_value sample_value sample_heap = Ok (b, sample_heap) ∧ b = true.
Proof.
  assert (denotes sample_heap sample_value (TStruct [TU64 7; TVecU8 [1; 2]])) as Hd.
  { exists 2%nat. vm_compute. reflexivity. }
  destruct (equals_spec sample_heap sample_value sample_value _ _
    (LStruct (Runtime [LU64; LVector LU8])) Hd Hd eq_refl eq_refl) as (b & H & Hb).
  exists b. split; [exact H|by apply Hb].
Defined.
