(* ===== verification/Slots.v ===== *)
(** * Slots: vectors and references as lists of values

    Every container of [Heap] is a list of values, its slots.  The operations of
    vectors are operations on the slots, writing through a reference replaces one and
    reading copies it, and a write through a reference to global storage marks the
    resource dirty. *)

From S2P Require Import Prelude CoreTypes VmStatus Abilities FileFormat Errors Views Integers RuntimeTypes Heap Values Vectors HeapCounts ValueTrees.

(** ** Slots *)

(** The elements of a generic container *)
Definition prim_values : Prim ValueImpl :=
  {| cells_of := values; of_value := Some; to_value := id |}.

Definition with_prim {X} (c : Container) (k : ∀ T, Prim T → X) : X :=
  match c with
  | Locals _ | Vec _ | Struct _ => k _ prim_values
  | VecU8 _ => k _ prim_u8
  | VecU64 _ => k _ prim_u64
  | VecU128 _ => k _ prim_u128
  | VecBool _ => k _ prim_bool
  | VecAddress _ => k _ prim_address
  end.

(** The values in a cell of a kind *)
Definition slots_as {T} (p : Prim T) (m : gmap loc Content) (r : loc) : option (list ValueImpl) :=
  match m !! r with
  | Some c => match get (cells_of p) c with Some xs => Some (to_value p <$> xs) | None => None end
  | None => None
  end.
Definition slots (m : gmap loc Content) (c : Container) : option (list ValueImpl) :=
  with_prim c (λ T p, slots_as p m (container_loc c)).
(** A container may hold a value. *)
Definition fits (c : Container) (v : ValueImpl) : Prop :=
  with_prim c (λ T p, is_Some (of_value p v)).

Class PrimLaws {T} (p : Prim T) : Prop := {
  get_put : ∀ c xs, get (cells_of p) c = Some xs ↔ c = put (cells_of p) xs;
  of_to : ∀ v x, of_value p v = Some x ↔ v = to_value p x;
  put_pointers : ∀ xs, content_pointers (put (cells_of p) xs) = (to_value p <$> xs) ≫= pointers;
  put_status : ∀ xs s, put (cells_of p) xs ≠ CStatus s }.

Lemma no_pointers {T} (f : T → ValueImpl) xs :
  (∀ x, pointers (f x) = []) → (f <$> xs) ≫= pointers = [].
Proof. intros H. induction xs as [|x xs IH]; [done|]. cbn. by rewrite H. Qed.

#[export] Instance prim_values_laws : PrimLaws prim_values.
Proof.
  constructor; [by intros []; naive_solver|by intros v x; cbn; naive_solver| |done].
  intros xs. cbn. by rewrite list_fmap_id.
Qed.
Ltac prim_laws :=
  constructor; [by intros []; naive_solver|by intros []; cbn; naive_solver|
    by intros xs; rewrite no_pointers|done].
#[export] Instance prim_u8_laws : PrimLaws prim_u8.
Proof. prim_laws. Qed.
#[export] Instance prim_u64_laws : PrimLaws prim_u64.
Proof. prim_laws. Qed.
#[export] Instance prim_u128_laws : PrimLaws prim_u128.
Proof. prim_laws. Qed.
#[export] Instance prim_bool_laws : PrimLaws prim_bool.
Proof. prim_laws. Qed.
#[export] Instance prim_address_laws : PrimLaws prim_address.
Proof. prim_laws. Qed.

(** ** Reference to a container *)

Definition is_dirty (m : gmap loc Content) (self : ContainerRef) : Prop :=
  match self with Local _ => True | Global s _ => m !! s = Some (CStatus Dirty) end.
Definition has_status (m : gmap loc Content) (self : ContainerRef) : Prop :=
  match self with Local _ => True | Global s _ => ∃ x, m !! s = Some (CStatus x) end.

(** The container of [self] has got the slots [vs], and nothing else has changed. *)
Record updated (h : Heap) (self : ContainerRef) (vs : list ValueImpl) (R : list loc) (h' : Heap)
  : Prop := {
  up_counted : counted h' R;
  up_slots : slots (contents h') (ref_container self) = Some vs;
  up_dirty : is_dirty (contents h') self;
  up_frame : ∀ l, l ∉ ref_pointers self → contents h' !! l = contents h !! l;
  up_next : next_loc h' = next_loc h }.

Lemma counted_update {T} (k : Kind T) h rs rs' r x y :
  contents h !! r = Some y → counted h rs →
  rs ++ content_pointers y ≡ₚ rs' ++ content_pointers (put k x) →
  ∃ h', replace k r x h = Ok (tt, h') ∧ counted h' rs' ∧
    contents h' = <[ r := put k x ]> (contents h) ∧ next_loc h' = next_loc h.
Proof.
  intros (c & Hr & <-)%contents_Some H Hp. unfold replace, lookup_cell, mbind, HeapM_bind. rewrite Hr.
  eexists. split; [reflexivity|]. split_and!; [| |done].
  - eapply (counted_set h rs rs' r c); [exact H|done|exact (ct_live _ _ H _ _ Hr)|].
    intros l. cbn [strong content]. pose proof (occ_perm l _ _ Hp) as Ho.
    rewrite !occ_app in Ho. destruct (decide (l = r)) as [->|]; [|lia].
    rewrite (strong_cell _ _ _ Hr). lia.
  - unfold contents, set_cell. cbn [cells]. by rewrite fmap_insert.
Qed.

Lemma mark_dirty_spec h self R :
  has_status (contents h) self → counted h R →
  ∃ h', mark_dirty self h = Ok (tt, h') ∧ counted h' R ∧ is_dirty (contents h') self ∧
    next_loc h' = next_loc h ∧
    ∀ l, (∀ s c, self = Global s c → l ≠ s) → contents h' !! l = contents h !! l.
Proof.
  destruct self as [c|s c]; cbn [has_status mark_dirty is_dirty].
  - intros _ H. by exists h.
  - intros [x Hs] H. destruct (counted_update statuses h R R s Dirty _ Hs H) as (h' & -> & C & M & N).
    { done. }
    exists h'. split_and!; [done|done|by rewrite M, lookup_insert_eq|done|].
    intros l Hl. rewrite M, lookup_insert_ne; [done|]. by apply not_eq_sym, (Hl s c).
Qed.

Lemma lift_bind {A B} (m : result PartialVMError A) (k : A → HeapM B) a h :
  m = Ok a → (lift m ≫= k) h = k a h.
Proof. by intros ->. Qed.

Section Element.
Context {T : Type} (p : Prim T) `{!PrimLaws p}.

Lemma slots_as_Some m r vs :
  slots_as p m r = Some vs ↔ ∃ xs, m !! r = Some (put (cells_of p) xs) ∧ vs = to_value p <$> xs.
Proof.
  unfold slots_as. split.
  - destruct (m !! r) as [c|]; [|done]. destruct (get _ c) as [xs|] eqn:E; [|done].
    intros [= <-]. apply get_put in E as ->. eauto.
  - intros (xs & -> & ->). destruct (get _ _) as [ys|] eqn:E.
    + assert (get (cells_of p) (put (cells_of p) xs) = Some xs) as E' by by apply get_put. congruence.
    + assert (get (cells_of p) (put (cells_of p) xs) = Some xs) as E' by by apply get_put. congruence.
Qed.

Lemma borrow_prim h r xs :
  contents h !! r = Some (put (cells_of p) xs) → borrow (cells_of p) r h = Ok (xs, h).
Proof. intros H. apply (borrow_Ok _ _ _ _ H). by apply get_put. Qed.

(** A container whose cell is replaced, and marked dirty *)
Lemma replace_updated (self : ContainerRef) h R R' r xs ys :
  container_loc (ref_container self) = r →
  (∀ m, slots m (ref_container self) = slots_as p m r) →
  contents h !! r = Some (put (cells_of p) xs) → counted h R →
  R ++ ((to_value p <$> xs) ≫= pointers) ≡ₚ R' ++ ((to_value p <$> ys) ≫= pointers) →
  has_status (contents h) self →
  ∃ h1 h', replace (cells_of p) r ys h = Ok (tt, h1) ∧ mark_dirty self h1 = Ok (tt, h') ∧
    updated h self (to_value p <$> ys) R' h'.
Proof.
  intros Hr Hs Hxs H Hp Hst.
  destruct (counted_update (cells_of p) h R R' r ys _ Hxs H) as (h1 & Hh1 & C1 & M1 & N1).
  { by rewrite !put_pointers. }
  assert (∀ s c, self = Global s c → s ≠ r) as Hne.
  { intros s c -> ->. destruct Hst as [x Hx]. rewrite Hx in Hxs. injection Hxs as Hxs.
    by apply (put_status xs x). }
  destruct (mark_dirty_spec h1 self R') as (h' & Hh' & C & D & N & F); [|done|].
  { destruct self as [c|s c]; [done|]. destruct Hst as [x Hx]. exists x. rewrite M1.
    rewrite lookup_insert_ne; [done|]. apply not_eq_sym. by eapply Hne. }
  exists h1, h'. split_and!; [done|done|]. constructor; [done| |done| |congruence].
  - rewrite Hs. apply slots_as_Some. exists ys. split; [|done]. rewrite F, M1 by
      (intros s c Hsc; apply not_eq_sym; by eapply Hne). by rewrite lookup_insert_eq.
  - intros l Hl. rewrite F, M1.
    + apply lookup_insert_ne. intros ->. apply Hl. subst. destruct self; cbn; [by left|right; by left].
    + intros s c -> ->. apply Hl. by left.
Qed.

Lemma push_spec self h R r vs e :
  container_loc (ref_container self) = r → (∀ m, slots m (ref_container self) = slots_as p m r) →
  slots_as p (contents h) r = Some vs → is_Some (of_value p e) → counted h (pointers e ++ R) →
  has_status (contents h) self →
  ∃ h', (push_prim p r e ≫= λ _, mark_dirty self) h = Ok (tt, h') ∧ updated h self (vs ++ [e]) R h'.
Proof.
  intros Hr Hs (xs & Hxs & ->)%slots_as_Some [x He] H Hst.
  destruct (replace_updated self h _ R r xs (xs ++ [x]) Hr Hs Hxs H) as (h1 & h' & H1 & H2 & U); [|done|].
  { apply of_to in He as ->. rewrite fmap_app, bind_app. cbn. rewrite app_nil_r.
    by rewrite <- app_assoc, (Permutation_app_comm (pointers _)), app_assoc. }
  exists h'. split.
  - unfold push_prim. unfold mbind at 1, HeapM_bind at 1. rewrite (lift_bind _ _ x).
    2: { unfold value_as. by rewrite He. }
    unfold push. rewrite (heap_bind _ _ _ _ _ (borrow_prim _ _ _ Hxs)). by rewrite H1.
  - apply of_to in He as ->. by rewrite fmap_app in U.
Qed.

Lemma last_split {A} (xs : list A) x : last xs = Some x → xs = removelast xs ++ [x].
Proof.
  intros H. destruct xs as [|a xs] using rev_ind; [done|].
  rewrite last_snoc in H. injection H as ->. by rewrite removelast_last.
Qed.

Lemma pop_spec self h R r vs v :
  container_loc (ref_container self) = r → (∀ m, slots m (ref_container self) = slots_as p m r) →
  slots_as p (contents h) r = Some (vs ++ [v]) → counted h R → has_status (contents h) self →
  ∃ x h1 h', pop_cell (cells_of p) r h = Ok (x, h1) ∧ to_value p x = v ∧
    mark_dirty self h1 = Ok (tt, h') ∧ updated h self vs (pointers v ++ R) h'.
Proof.
  intros Hr Hs (xs & Hxs & Hvs)%slots_as_Some H Hst.
  destruct xs as [|x xs _] using rev_ind; [by destruct vs|].
  rewrite fmap_app in Hvs. apply app_inj_tail in Hvs as [-> ->].
  destruct (replace_updated self h _ (pointers (to_value p x) ++ R) r _ xs Hr Hs Hxs H)
    as (h1 & h' & H1 & H2 & U); [|done|].
  { rewrite fmap_app, bind_app. cbn. rewrite app_nil_r.
    by rewrite (Permutation_app_comm (pointers _)), <- app_assoc, (Permutation_app_comm (pointers _)). }
  exists x, h1, h'. split_and!; [|done|done|done].
  unfold pop_cell. rewrite (heap_bind _ _ _ _ _ (borrow_prim _ _ _ Hxs)). rewrite last_snoc.
  rewrite removelast_last. by rewrite (heap_bind _ _ _ _ _ H1).
Qed.

Lemma pop_empty h r :
  slots_as p (contents h) r = Some [] → pop_cell (cells_of p) r h = aborted POP_EMPTY_VEC h.
Proof.
  intros (xs & Hxs & Hvs)%slots_as_Some. destruct xs; [|done]. unfold pop_cell.
  by rewrite (heap_bind _ _ _ _ _ (borrow_prim _ _ _ Hxs)).
Qed.

Lemma insert_perm {A} (xs : list A) i x y :
  xs !! i = Some x → x :: <[ i := y ]> xs ≡ₚ y :: xs.
Proof.
  revert i; induction xs as [|z xs IH]; intros [|i] H; try done; cbn in *.
  - injection H as ->. constructor.
  - etrans; [apply Permutation_swap|]. etrans; [|apply Permutation_swap]. constructor. by apply IH.
Qed.
Lemma swap_perm {A} (xs : list A) i j x y :
  xs !! i = Some x → xs !! j = Some y → <[ i := y ]> (<[ j := x ]> xs) ≡ₚ xs.
Proof.
  intros Hi Hj. pose proof (insert_perm xs j y x Hj) as H1.
  assert (<[ j := x ]> xs !! i = Some x) as Hi'.
  { destruct (decide (i = j)) as [->|]; [|by rewrite list_lookup_insert_ne].
    apply list_lookup_insert_eq. by eapply lookup_lt_Some. }
  pose proof (insert_perm _ i x y Hi') as H2. rewrite H1 in H2. by apply Permutation_cons_inv in H2.
Qed.

Lemma swap_spec self h R r vs i j v w :
  container_loc (ref_container self) = r → (∀ m, slots m (ref_container self) = slots_as p m r) →
  slots_as p (contents h) r = Some vs → at_ vs i = Some v → at_ vs j = Some w → counted h R →
  has_status (contents h) self →
  ∃ h', (swap_cell (cells_of p) r i j ≫= λ _, mark_dirty self) h = Ok (tt, h') ∧
    updated h self (<[ N.to_nat i := w ]> (<[ N.to_nat j := v ]> vs)) R h'.
Proof.
  intros Hr Hs (xs & Hxs & ->)%slots_as_Some Hi Hj H Hst. unfold at_ in *.
  rewrite list_lookup_fmap in Hi, Hj. apply fmap_Some in Hi as (x & Hi & ->), Hj as (y & Hj & ->).
  destruct (replace_updated self h _ R r _ (<[ N.to_nat i := y ]> (<[ N.to_nat j := x ]> xs)) Hr Hs Hxs H)
    as (h1 & h' & H1 & H2 & U); [by rewrite swap_perm|done|].
  exists h'. split; [|by rewrite !list_fmap_insert in U].
  unfold mbind at 1, HeapM_bind at 1, swap_cell.
  rewrite (heap_bind _ _ _ _ _ (borrow_prim _ _ _ Hxs)).
  pose proof (lookup_lt_Some _ _ _ Hi). pose proof (lookup_lt_Some _ _ _ Hj).
  replace (_ || _) with false.
  2: { symmetry. apply orb_false_iff. unfold len. split; apply N.leb_gt; lia. }
  unfold swap_list, at_. rewrite Hi, Hj. by rewrite H1.
Qed.

Lemma swap_abort self h r vs i j :
  slots_as p (contents h) r = Some vs → len vs <= i ∨ len vs <= j →
  (swap_cell (cells_of p) r i j ≫= λ _, mark_dirty self) h = aborted INDEX_OUT_OF_BOUNDS h.
Proof.
  intros (xs & Hxs & ->)%slots_as_Some Hij. unfold mbind, HeapM_bind at 1, swap_cell.
  rewrite (heap_bind _ _ _ _ _ (borrow_prim _ _ _ Hxs)).
  replace (_ || _) with true; [done|]. symmetry. apply orb_true_iff. unfold len in *.
  rewrite length_fmap in Hij. destruct Hij; [left|right]; by apply N.leb_le.
Qed.

Lemma len_spec h r vs :
  slots_as p (contents h) r = Some vs → (len <$> borrow (cells_of p) r) h = Ok (len vs, h).
Proof.
  intros (xs & Hxs & ->)%slots_as_Some. rewrite (heap_fmap _ _ _ _ _ (borrow_prim _ _ _ Hxs)).
  unfold len. by rewrite length_fmap.
Qed.

Lemma index_spec h r vs i v :
  slots_as p (contents h) r = Some vs → at_ vs i = Some v →
  ∃ x, index (cells_of p) r i h = Ok (x, h) ∧ v = to_value p x.
Proof.
  intros (xs & Hxs & ->)%slots_as_Some Hi. unfold at_ in *. rewrite list_lookup_fmap in Hi.
  apply fmap_Some in Hi as (x & Hi & ->). exists x. split; [|done]. unfold index.
  rewrite (heap_bind _ _ _ _ _ (borrow_prim _ _ _ Hxs)). unfold at_. by rewrite Hi.
Qed.
End Element.

(** ** Vectors *)

Definition is_vector (c : Container) : Prop :=
  match c with Locals _ | Struct _ => False | _ => True end.

Definition aborted_error (sub_status : u64) : PartialVMError :=
  {| pe_major_status := ABORTED; pe_sub_status := Some sub_status; pe_indices := []; pe_offsets := [] |}.

(** A reference to the slot [idx] of [self], which holds [v] *)
Definition elem_ref (self : ContainerRef) (idx : N) (v : ValueImpl) : ValueImpl :=
  match v with
  | VContainer c =>
      VContainerRef match self with Local _ => Local c | Global s _ => Global s c end
  | _ => VIndexedRef {| ir_idx := idx; ir_container_ref := self |}
  end.

(** The pointers of a reference are cells that are held. *)
Lemma clone_held h R l : counted h R → l ∈ R →
  ∃ h', rc_clone l h = Ok (l, h') ∧ counted h' (l :: R) ∧ contents h' = contents h ∧ next_loc h' = next_loc h.
Proof. intros H Hl. apply (counted_clone h R l H). by left. Qed.

Lemma container_len_spec h c vs :
  slots (contents h) c = Some vs → container_len c h = Ok (len vs, h).
Proof.
  destruct c; cbn [container_len]; intros H;
    [apply (len_spec prim_values)|apply (len_spec prim_values)|apply (len_spec prim_values)|
     apply (len_spec prim_u8)|apply (len_spec prim_u64)|apply (len_spec prim_u128)|
     apply (len_spec prim_bool)|apply (len_spec prim_address)]; exact H.
Qed.

Lemma copy_container_ref_spec h self R :
  counted h R → ref_pointers self ⊆ R →
  ∃ h', copy_container_ref self h = Ok (self, h') ∧ counted h' (ref_pointers self ++ R) ∧
    contents h' = contents h ∧ next_loc h' = next_loc h.
Proof.
  intros H Hs. destruct self as [c|s c]; cbn [copy_container_ref ref_pointers] in *.
  - destruct (clone_held h R (container_loc c)) as (h' & E & C & M & N); [done|apply Hs; by left|].
    exists h'. split_and!; [|done|done|done]. apply heap_fmap. unfold copy_by_ref.
    by rewrite (heap_bind _ _ _ _ _ E).
  - destruct (clone_held h R s) as (h1 & E1 & C1 & M1 & N1); [done|apply Hs; by left|].
    destruct (clone_held h1 (s :: R) (container_loc c)) as (h' & E & C & M & N); [done|right; apply Hs; right; by left|].
    exists h'. split_and!; [|by rewrite Permutation_swap|congruence|congruence].
    rewrite (heap_bind _ _ _ _ _ E1). unfold copy_by_ref. unfold mbind at 1, HeapM_bind at 1.
    by rewrite (heap_bind _ _ _ _ _ E).
Qed.

Lemma slots_pointers m c vs v l :
  slots m c = Some vs → v ∈ vs → l ∈ pointers v →
  ∃ x, m !! container_loc c = Some x ∧ l ∈ content_pointers x.
Proof.
  assert (∀ T (p : Prim T), PrimLaws p → slots_as p m (container_loc c) = Some vs → v ∈ vs →
    l ∈ pointers v → ∃ x, m !! container_loc c = Some x ∧ l ∈ content_pointers x) as H.
  { intros T p Hp Hs Hv Hl. apply (slots_as_Some p) in Hs as (xs & Hx & ->). exists (put (cells_of p) xs).
    split; [done|]. rewrite put_pointers. apply list_elem_of_bind. eauto. }
  destruct c; intros Hs Hv Hl;
    [apply (H _ prim_values _ Hs Hv Hl)|apply (H _ prim_values _ Hs Hv Hl)|
     apply (H _ prim_values _ Hs Hv Hl)|apply (H _ prim_u8 _ Hs Hv Hl)|apply (H _ prim_u64 _ Hs Hv Hl)|
     apply (H _ prim_u128 _ Hs Hv Hl)|apply (H _ prim_bool _ Hs Hv Hl)|
     apply (H _ prim_address _ Hs Hv Hl)].
Qed.

Lemma at_elem {A} (xs : list A) i x : at_ xs i = Some x → x ∈ xs.
Proof. intros H. apply list_elem_of_lookup. by exists (N.to_nat i). Qed.
Lemma at_index_lt {A} (xs : list A) i x : at_ xs i = Some x → i < len xs.
Proof. intros H%lookup_lt_Some. unfold len. lia. Qed.

Lemma borrow_elem_generic self h R vs idx v :
  slots (contents h) (ref_container self) = Some vs → at_ vs idx = Some v → counted h R →
  ref_pointers self ⊆ R →
  ∃ h', (match v with
         | VContainer container =>
             match self with
             | Local _ => VContainerRef ∘ Local <$> copy_by_ref container
             | Global status _ =>
                 status ← rc_clone status;
                 VContainerRef ∘ Global status <$> copy_by_ref container
             end
         | _ => container_ref ← copy_container_ref self;
                mret (VIndexedRef {| ir_idx := idx; ir_container_ref := container_ref |})
         end : HeapM ValueImpl) h = Ok (elem_ref self idx v, h') ∧
    counted h' (pointers (elem_ref self idx v) ++ R) ∧ contents h' = contents h.
Proof.
  intros Hs Hv H Hin.
  assert (∀ c, v = VContainer c → ∃ k x, contents h !! k = Some x ∧ container_loc c ∈ content_pointers x) as Hc.
  { intros c ->. destruct (slots_pointers _ _ _ _ (container_loc c) Hs (at_elem _ _ _ Hv)) as (x & Hx & Hl);
      [by left|]. eauto. }
  destruct (copy_container_ref_spec h self R H Hin) as (h1 & E1 & C1 & M1 & N1).
  destruct v; try (exists h1; split; [by rewrite (heap_bind _ _ _ _ _ E1)|done]). clear E1 C1 M1 N1 h1.
  specialize (Hc _ eq_refl). destruct self as [d|s d].
  - destruct (counted_clone h R (container_loc c) H) as (h' & E & C & M & N); [by right|].
    exists h'. split; [|done]. apply (heap_fmap (VContainerRef ∘ Local)). unfold copy_by_ref.
    by rewrite (heap_bind _ _ _ _ _ E).
  - destruct (clone_held h R s) as (h1 & E1 & C1 & M1 & N1); [done|apply Hin; by left|].
    destruct (counted_clone h1 (s :: R) (container_loc c) C1) as (h' & E & C & M & N).
    { right. by rewrite M1. }
    exists h'. split_and!; [|by cbn; rewrite Permutation_swap|congruence].
    rewrite (heap_bind _ _ _ _ _ E1). apply (heap_fmap (VContainerRef ∘ Global s)). unfold copy_by_ref.
    by rewrite (heap_bind _ _ _ _ _ E).
Qed.

Lemma index_values_spec h c r vs idx v :
  (∀ m, slots m c = slots_as prim_values m r) → slots (contents h) c = Some vs →
  at_ vs idx = Some v → index values r idx h = Ok (v, h).
Proof.
  intros Hc Hs Hv. rewrite Hc in Hs. by destruct (index_spec prim_values h r vs idx v Hs Hv) as (x & E & ->).
Qed.

Lemma borrow_elem_spec self h R vs idx v :
  slots (contents h) (ref_container self) = Some vs → at_ vs idx = Some v → counted h R →
  ref_pointers self ⊆ R →
  ∃ h', borrow_elem self idx h = Ok (elem_ref self idx v, h') ∧
    counted h' (pointers (elem_ref self idx v) ++ R) ∧ contents h' = contents h.
Proof.
  intros Hs Hv H Hin. pose proof (borrow_elem_generic self h R vs idx v Hs Hv H Hin) as Hg.
  unfold borrow_elem. rewrite (heap_bind _ _ _ _ _ (container_len_spec _ _ _ Hs)).
  pose proof (at_index_lt _ _ _ Hv). replace (len vs <=? idx) with false by lia.
  destruct (ref_container self) eqn:Hc; cbv zeta.
  1-3: rewrite (heap_bind _ _ _ _ _ (index_values_spec h (ref_container self) r vs idx v
         ltac:(by rewrite Hc) ltac:(by rewrite Hc) Hv)); by destruct v.
  all: assert (∀ c, v ≠ VContainer c) as Hn by
    (intros c ->; revert Hs; cbn; unfold slots_as; destruct (_ !! r) as [x|]; [|done];
     destruct x; cbn; try done; intros [= <-]; unfold at_ in Hv; rewrite list_lookup_fmap in Hv;
     by apply fmap_Some in Hv as (y & _ & Hv)).
  all: destruct v; try exact Hg; by edestruct Hn.
Qed.

Lemma borrow_elem_abort self h vs idx ty :
  slots (contents h) (ref_container self) = Some vs → len vs <= idx →
  check_elem_layout ty (ref_container self) = Ok () →
  vector_borrow_elem self idx ty h = Err (aborted_error INDEX_OUT_OF_BOUNDS).
Proof.
  intros Hs Hi Hc. unfold vector_borrow_elem. rewrite (lift_bind _ _ () _ Hc).
  rewrite (heap_bind _ _ _ _ _ (container_len_spec _ _ _ Hs)). by replace (len vs <=? idx) with true by lia.
Qed.

(** What the references to a vector implement: the operations of a list *)
Record vector_refines (h : Heap) (self : ContainerRef) (ty : RuntimeType.Type_) (vs : list ValueImpl)
    (R : list loc) : Prop := {
  vr_len : vector_len self ty h = Ok (VU64 (wrap 64 (len vs)), h);
  vr_push : ∀ e R', R ≡ₚ pointers e ++ R' → fits (ref_container self) e →
    ∃ h', push_back self e ty h = Ok ((), h') ∧ updated h self (vs ++ [e]) R' h';
  vr_pop : ∀ vs' v, vs = vs' ++ [v] →
    ∃ h', pop self ty h = Ok (v, h') ∧ updated h self vs' (pointers v ++ R) h';
  vr_pop_empty : vs = [] → pop self ty h = Err (aborted_error POP_EMPTY_VEC);
  vr_swap : ∀ i j v w, at_ vs i = Some v → at_ vs j = Some w →
    ∃ h', swap self i j ty h = Ok ((), h') ∧
      updated h self (<[ N.to_nat i := w ]> (<[ N.to_nat j := v ]> vs)) R h';
  vr_swap_bounds : ∀ i j, len vs <= i ∨ len vs <= j →
    swap self i j ty h = Err (aborted_error INDEX_OUT_OF_BOUNDS);
  vr_borrow : ∀ i v, at_ vs i = Some v → ref_pointers self ⊆ R →
    ∃ h', vector_borrow_elem self i ty h = Ok (elem_ref self i v, h') ∧
      counted h' (pointers (elem_ref self i v) ++ R) ∧ contents h' = contents h;
  vr_borrow_bounds : ∀ i, len vs <= i →
    vector_borrow_elem self i ty h = Err (aborted_error INDEX_OUT_OF_BOUNDS) }.

Lemma push_back_spec h self ty vs R e :
  slots (contents h) (ref_container self) = Some vs → is_vector (ref_container self) →
  check_elem_layout ty (ref_container self) = Ok () → counted h (pointers e ++ R) →
  has_status (contents h) self → fits (ref_container self) e →
  ∃ h', push_back self e ty h = Ok ((), h') ∧ updated h self (vs ++ [e]) R h'.
Proof.
  intros Hs Hv Hc H Hst He. unfold push_back. rewrite (lift_bind _ _ () _ Hc).
  destruct (ref_container self) eqn:E; try done.
  - apply (push_spec prim_values self h R r); by rewrite ?E.
  - apply (push_spec prim_u8 self h R r); by rewrite ?E.
  - apply (push_spec prim_u64 self h R r); by rewrite ?E.
  - apply (push_spec prim_u128 self h R r); by rewrite ?E.
  - apply (push_spec prim_bool self h R r); by rewrite ?E.
  - apply (push_spec prim_address self h R r); by rewrite ?E.
Qed.

Lemma pop_prim {T} (p : Prim T) `{!PrimLaws p} self h R r vs v (m : HeapM ValueImpl) :
  container_loc (ref_container self) = r → (∀ m, slots m (ref_container self) = slots_as p m r) →
  slots_as p (contents h) r = Some (vs ++ [v]) → counted h R → has_status (contents h) self →
  (∀ x h1, pop_cell (cells_of p) r h = Ok (x, h1) → m h = Ok (to_value p x, h1)) →
  ∃ h', (res ← m; _ ← mark_dirty self; mret res) h = Ok (v, h') ∧ updated h self vs (pointers v ++ R) h'.
Proof.
  intros Hr Hs Hxs H Hst Hm.
  destruct (pop_spec p self h R r vs v Hr Hs Hxs H Hst) as (x & h1 & h' & H1 & <- & H2 & U).
  exists h'. split; [|done]. rewrite (heap_bind _ _ _ _ _ (Hm _ _ H1)). by rewrite (heap_bind _ _ _ _ _ H2).
Qed.

Lemma pop_vector_spec h self ty vs R v :
  slots (contents h) (ref_container self) = Some (vs ++ [v]) → is_vector (ref_container self) →
  check_elem_layout ty (ref_container self) = Ok () → counted h R → has_status (contents h) self →
  ∃ h', pop self ty h = Ok (v, h') ∧ updated h self vs (pointers v ++ R) h'.
Proof.
  intros Hs Hv Hc H Hst. unfold pop. rewrite (lift_bind _ _ () _ Hc).
  destruct (ref_container self) eqn:E; try done.
  - apply (pop_prim prim_values self h R r); rewrite ?E; try done.
  - apply (pop_prim prim_u8 self h R r); rewrite ?E; try done. intros. by apply heap_fmap.
  - apply (pop_prim prim_u64 self h R r); rewrite ?E; try done. intros. by apply heap_fmap.
  - apply (pop_prim prim_u128 self h R r); rewrite ?E; try done. intros. by apply heap_fmap.
  - apply (pop_prim prim_bool self h R r); rewrite ?E; try done. intros. by apply heap_fmap.
  - apply (pop_prim prim_address self h R r); rewrite ?E; try done. intros. by apply heap_fmap.
Qed.

Lemma pop_vector_empty h self ty :
  slots (contents h) (ref_container self) = Some [] → is_vector (ref_container self) →
  check_elem_layout ty (ref_container self) = Ok () →
  pop self ty h = Err (aborted_error POP_EMPTY_VEC).
Proof.
  intros Hs Hv Hc. unfold pop. rewrite (lift_bind _ _ () _ Hc). destruct (ref_container self); try done.
  all: unfold mbind at 1, HeapM_bind at 1, fmap, HeapM_fmap, mbind, HeapM_bind at 1.
  - by rewrite (pop_empty prim_values).
  - by rewrite (pop_empty prim_u8).
  - by rewrite (pop_empty prim_u64).
  - by rewrite (pop_empty prim_u128).
  - by rewrite (pop_empty prim_bool).
  - by rewrite (pop_empty prim_address).
Qed.

Lemma swap_vector_spec h self ty vs R i j v w :
  slots (contents h) (ref_container self) = Some vs → is_vector (ref_container self) →
  check_elem_layout ty (ref_container self) = Ok () → counted h R → has_status (contents h) self →
  at_ vs i = Some v → at_ vs j = Some w →
  ∃ h', swap self i j ty h = Ok ((), h') ∧
    updated h self (<[ N.to_nat i := w ]> (<[ N.to_nat j := v ]> vs)) R h'.
Proof.
  intros Hs Hv Hc H Hst Hi Hj. unfold swap. rewrite (lift_bind _ _ () _ Hc).
  destruct (ref_container self) eqn:E; try done.
  - apply (swap_spec prim_values self h R r vs); by rewrite ?E.
  - apply (swap_spec prim_u8 self h R r vs); by rewrite ?E.
  - apply (swap_spec prim_u64 self h R r vs); by rewrite ?E.
  - apply (swap_spec prim_u128 self h R r vs); by rewrite ?E.
  - apply (swap_spec prim_bool self h R r vs); by rewrite ?E.
  - apply (swap_spec prim_address self h R r vs); by rewrite ?E.
Qed.

Lemma swap_vector_abort h self ty vs i j :
  slots (contents h) (ref_container self) = Some vs → is_vector (ref_container self) →
  check_elem_layout ty (ref_container self) = Ok () → len vs <= i ∨ len vs <= j →
  swap self i j ty h = Err (aborted_error INDEX_OUT_OF_BOUNDS).
Proof.
  intros Hs Hv Hc Hij. unfold swap. rewrite (lift_bind _ _ () _ Hc).
  destruct (ref_container self) eqn:E; try done.
  - by apply (swap_abort prim_values self h r vs).
  - by apply (swap_abort prim_u8 self h r vs).
  - by apply (swap_abort prim_u64 self h r vs).
  - by apply (swap_abort prim_u128 self h r vs).
  - by apply (swap_abort prim_bool self h r vs).
  - by apply (swap_abort prim_address self h r vs).
Qed.

Lemma vector_len_spec h self ty vs :
  slots (contents h) (ref_container self) = Some vs → is_vector (ref_container self) →
  check_elem_layout ty (ref_container self) = Ok () →
  vector_len self ty h = Ok (VU64 (wrap 64 (len vs)), h).
Proof.
  intros Hs Hv Hc. unfold vector_len. rewrite (lift_bind _ _ () _ Hc).
  destruct (ref_container self) eqn:E; try done.
  - by rewrite (heap_bind _ _ _ _ _ (len_spec prim_values _ _ _ Hs)).
  - by rewrite (heap_bind _ _ _ _ _ (len_spec prim_u8 _ _ _ Hs)).
  - by rewrite (heap_bind _ _ _ _ _ (len_spec prim_u64 _ _ _ Hs)).
  - by rewrite (heap_bind _ _ _ _ _ (len_spec prim_u128 _ _ _ Hs)).
  - by rewrite (heap_bind _ _ _ _ _ (len_spec prim_bool _ _ _ Hs)).
  - by rewrite (heap_bind _ _ _ _ _ (len_spec prim_address _ _ _ Hs)).
Qed.

(** The operations on a reference to a vector are operations on a list, for generic
    and for specialized vectors alike: length, push, pop, swap and borrowing an element,
    which abort with the code of the error on an empty vector or an index out of bounds,
    mark a resource dirty when they change the vector, and keep the strong counts. *)
Theorem vector_ref_refines (h : Heap) (self : ContainerRef) (ty : RuntimeType.Type_)
    (vs : list ValueImpl) (R : list loc) :
  slots (contents h) (ref_container self) = Some vs → is_vector (ref_container self) →
  check_elem_layout ty (ref_container self) = Ok () → counted h R → has_status (contents h) self →
  vector_refines h self ty vs R.
Proof.
  intros Hs Hv Hc H Hst. constructor.
  - by apply vector_len_spec.
  - intros e R' Hp He. rewrite Hp in H. by apply push_back_spec.
  - intros vs' v ->. by apply pop_vector_spec.
  - intros ->. by apply pop_vector_empty.
  - intros i j v w Hi Hj. by apply (swap_vector_spec h self ty vs R i j).
  - intros i j Hij. by apply (swap_vector_abort h self ty vs).
  - intros i v Hi Hin. unfold vector_borrow_elem. rewrite (lift_bind _ _ () _ Hc).
    rewrite (heap_bind _ _ _ _ _ (container_len_spec _ _ _ Hs)). pose proof (at_index_lt _ _ _ Hi).
    replace (len vs <=? i) with false by lia. by apply (borrow_elem_spec self h R vs).
  - intros i Hi. by apply (borrow_elem_abort self h vs).
Qed.

(** A reference to a vector of two bytes that nobody else holds *)
Definition vector_heap : Heap :=
  {| cells := {[ 0 := {| strong := 1; content := CU8 [1; 2] |} ]}; next_loc := 1 |}.

Example vector_ref_refines_witness :
  vector_refines vector_heap (Local (VecU8 0)) RuntimeType.U8 [VU8 1; VU8 2] [0] ∧
  (∃ h', push_back (Local (VecU8 0)) (VU8 3) RuntimeType.U8 vector_heap = Ok ((), h') ∧
     slots (contents h') (VecU8 0) = Some [VU8 1; VU8 2; VU8 3]) ∧
  pop (Local (VecU8 0)) RuntimeType.U8 vector_heap ≠ Err (aborted_error POP_EMPTY_VEC).
Proof.
  assert (vector_refines vector_heap (Local (VecU8 0)) RuntimeType.U8 [VU8 1; VU8 2] [0]) as H.
  { apply vector_ref_refines; [reflexivity|exact I|reflexivity| |exact I].
    apply check_counted_sound. vm_compute. reflexivity. }
  split; [exact H|]. split.
  - destruct (vr_push _ _ _ _ _ H (VU8 3) [0]) as (h' & E & U); [reflexivity|by exists 3|].
    exists h'. split; [exact E|exact (up_slots _ _ _ _ _ U)].
  - destruct (vr_pop _ _ _ _ _ H [VU8 1] (VU8 2) eq_refl) as (h' & E & _). rewrite E. discriminate.
Defined.
