(* ===== verification/References.v ===== *)
(** * References: a write through a reference is what a later read sees

    The value that a reference of [Heap] points to, and the theorems on [read_ref] and
    [write_ref] of [language/move-vm/types/src/values/values_impl.rs]: reading copies
    the data, writing changes the data that the owner holds, and marks a resource of
    global storage dirty. *)

From S2P Require Import Prelude CoreTypes VmStatus Abilities FileFormat Errors Views Integers RuntimeTypes Heap Values Vectors HeapCounts ValueTrees Slots.

(** ** Data of cells that are kept *)

Lemma read_live n m h' R v t :
  counted h' R → contents h' ⊆ m → (∀ l, l ∈ pointers v → is_Some (cells h' !! l)) →
  read_tree n m v = Some t → read_tree n (contents h') v = Some t.
Proof.
  intros H Hm. revert v t; induction n as [|n IH]; intros v t Hv Ht; [done|].
  destruct v; try exact Ht. destruct (Hv (container_loc c)) as [cell Hc]; [by left|].
  assert (contents h' !! container_loc c = Some (content cell)) as Hc' by (apply contents_Some; eauto).
  pose proof (lookup_weaken _ _ _ _ Hc' Hm) as Hc0.
  apply read_container in Ht as [(x & Hx & Hg & Hr)|(vs & ts & mk & Hx & Hts & -> & _ & Hr)].
  - apply Hr. congruence.
  - apply (Hr _ _ vs); [congruence|]. apply mapM_Some. apply mapM_Some in Hts.
    assert (∀ v, v ∈ vs → ∀ l, l ∈ pointers v → is_Some (cells h' !! l)) as Hvs.
    { intros v Hin l Hl. destruct (counted_cell h' R l (container_loc c) (CValues vs) H) as [c' Hc2].
      - congruence.
      - apply list_elem_of_bind. eauto.
      - eauto. }
    clear -IH Hts Hvs. induction Hts as [|v t vs ts Hv _ IHts]; constructor.
    + apply IH; [|done]. apply Hvs. by left.
    + apply IHts. intros u Hu. apply Hvs. by right.
Qed.

Lemma denotes_live h h' R v t :
  counted h' (pointers v ++ R) → contents h' ⊆ contents h → denotes h v t → denotes h' v t.
Proof.
  intros H Hm [n Hn]. exists n. apply (read_live n (contents h) h' (pointers v ++ R)); try done.
  intros l Hl. eapply counted_root; [exact H|]. apply elem_of_app. by left.
Qed.

(** What is held is kept, as it is. *)
Lemma held_kept m h' R l x :
  counted h' R → l ∈ R → contents h' ⊆ m → m !! l = Some x → contents h' !! l = Some x.
Proof.
  intros H Hl Hm Hx. destruct (counted_root _ _ _ H Hl) as [c Hc].
  assert (contents h' !! l = Some (content c)) as Hc' by (apply contents_Some; eauto).
  rewrite (lookup_weaken _ _ _ _ Hc' Hm) in Hx. congruence.
Qed.

(** ** What a reference points to *)

Definition reference_base (r : ReferenceImpl) : ContainerRef :=
  match r with RContainerRef r => r | RIndexedRef r => ir_container_ref r end.
Definition reference_pointers (r : ReferenceImpl) : list loc := ref_pointers (reference_base r).
Definition target (m : gmap loc Content) (r : ReferenceImpl) : option ValueImpl :=
  match r with
  | RContainerRef r => Some (VContainer (ref_container r))
  | RIndexedRef r =>
      match slots m (ref_container (ir_container_ref r)) with
      | Some vs => at_ vs (ir_idx r)
      | None => None
      end
  end.

(** The result of an operation that drops what it consumes: the roots [R] are left, and
    the old cells that are left have their contents. *)
Record left_with (h : Heap) (R : list loc) (h' : Heap) : Prop := {
  lw_counted : counted h' R;
  lw_old : ∀ l x y, contents h !! l = Some x → contents h' !! l = Some y → x = y }.

(** [read_ref] *)

Lemma copy_then_drop h t self R (copy : HeapM ValueImpl) :
  counted h (ref_pointers self ++ R) →
  (∃ n v' h', copy h = Ok (v', h') ∧ built n h (ref_pointers self ++ R) v' t h') →
  ∃ v' h', (v ← copy; _ ← drop_ref self; mret v) h = Ok (v', h') ∧
    left_with h (pointers v' ++ R) h' ∧ denotes h' v' t.
Proof.
  intros H (n & v' & h1 & E & [C M N T O]).
  destruct (counted_drop_pointers (ref_pointers self) h1 (pointers v' ++ R)) as (h' & D & C' & M' & N').
  { by rewrite !app_assoc, (Permutation_app_comm (ref_pointers self)), <- app_assoc. }
  exists v', h'. split_and!.
  - rewrite (heap_bind _ _ _ _ _ E). unfold drop_ref. by rewrite (heap_bind _ _ _ _ _ D).
  - constructor; [done|]. intros l x y Hx Hy. pose proof (lookup_weaken _ _ _ _ Hy M') as Hy1.
    rewrite (lookup_weaken _ _ _ _ Hx M) in Hy1. congruence.
  - apply (denotes_live h1 h' R); [done|done|by exists n].
Qed.

Lemma copy_leaf h v t :
  denotes h v t → pointers v = [] → copy_value v h = Ok (v, h).
Proof. intros [[|n] Hn] Hp; [done|]. by destruct v. Qed.

(** The slots of a specialized vector are numbers, booleans or addresses. *)
Lemma index_copy {T} (p : Prim T) `{!PrimLaws p} h r vs i v t :
  slots_as p (contents h) r = Some vs → at_ vs i = Some v → denotes h v t →
  (∀ x, pointers (to_value p x) = []) →
  (to_value p <$> index (cells_of p) r i) h = copy_value v h.
Proof.
  intros Hs Hv Ht Hp. destruct (index_spec p h r vs i v Hs Hv) as (x & E & ->).
  rewrite (heap_fmap _ _ _ _ _ E). symmetry. by eapply copy_leaf.
Qed.

Lemma read_ref_reads (h : Heap) (r : ReferenceImpl) (v : ValueImpl) (t : tree) (R : list loc) :
  target (contents h) r = Some v → denotes h v t → counted h (reference_pointers r ++ R) →
  ∃ v' h', read_ref r h = Ok (v', h') ∧ left_with h (pointers v' ++ R) h' ∧ denotes h' v' t.
Proof.
  intros Hv Ht H. destruct r as [r|r]; cbn [read_ref reference_pointers reference_base target] in *.
  - destruct (slots _ _) as [vs|] eqn:Hs; [|done]. unfold indexed_read_ref. cbv zeta.
    apply (copy_then_drop h t); [done|].
    destruct (copy_value_built h v t _ Ht H) as (n & v' & h' & E' & B). exists n, v', h'.
    split; [|exact B]. rewrite <- E'. clear E' B.
    destruct (ref_container (ir_container_ref r)) eqn:E.
    1-3: by rewrite (heap_bind _ _ _ _ _ (index_values_spec h (ref_container (ir_container_ref r)) r0 vs _ v
           ltac:(by rewrite E) ltac:(by rewrite E) Hv)).
    + by apply (index_copy prim_u8 h r0 vs _ v t).
    + by apply (index_copy prim_u64 h r0 vs _ v t).
    + by apply (index_copy prim_u128 h r0 vs _ v t).
    + by apply (index_copy prim_bool h r0 vs _ v t).
    + by apply (index_copy prim_address h r0 vs _ v t).
  - injection Hv as <-. unfold container_read_ref. apply (copy_then_drop h t); [done|].
    destruct Ht as [n Hn%read_bound]. rewrite size_contents in Hn.
    destruct (copy_built _ _ _ h _ (S (heap_fuel h)) Hn H) as (v' & h' & E & B); [unfold heap_fuel; lia|].
    by exists (S (size (cells h))), v', h'.
Qed.

(** ** [write_ref] *)

Definition mark (self : ContainerRef) (m : gmap loc Content) : gmap loc Content :=
  match self with Local _ => m | Global s _ => <[ s := CStatus Dirty ]> m end.

Lemma container_in_ref self : container_loc (ref_container self) ∈ ref_pointers self.
Proof. destruct self; [by left|by right; left]. Qed.

(** The end of a write: the mark, and the reference that goes out of scope *)
Lemma finish_write self h R m :
  counted h (ref_pointers self ++ R) → contents h ⊆ m → has_status m self →
  ∃ h', (_ ← mark_dirty self; drop_ref self) h = Ok ((), h') ∧ counted h' R ∧
    contents h' ⊆ mark self m.
Proof.
  intros H Hm Hst.
  assert (∃ h1, mark_dirty self h = Ok ((), h1) ∧ counted h1 (ref_pointers self ++ R) ∧
    contents h1 ⊆ mark self m) as (h1 & E1 & C1 & M1).
  { destruct self as [c|s c]; [by exists h|]. destruct Hst as [x Hs].
    set (rs := ref_pointers (Global s c) ++ R) in *.
    destruct (counted_update statuses h rs rs s Dirty (CStatus x))
      as (h1 & E & C & M & N); [|done..|].
    - by eapply held_kept; [exact H|by left| |].
    - exists h1. split_and!; [exact E|done|]. rewrite M. by apply insert_mono. }
  destruct (counted_drop_pointers _ _ _ C1) as (h' & E & C & M & _).
  exists h'. split_and!; [|done|by etrans]. by rewrite (heap_bind _ _ _ _ _ E1).
Qed.

Section Assign.
Context {T : Type} (p : Prim T) `{!PrimLaws p}.

Lemma assign_spec self h R r xs ys :
  contents h !! container_loc (ref_container self) = Some (put (cells_of p) xs) →
  contents h !! r = Some (put (cells_of p) ys) → strong_of h r = 1 →
  counted h (r :: ref_pointers self ++ R) →
  ∃ h', assign (cells_of p) (container_loc (ref_container self)) r h = Ok ((), h') ∧
    counted h' (ref_pointers self ++ R) ∧ container_loc (ref_container self) ≠ r ∧
    contents h' ⊆ <[ container_loc (ref_container self) := put (cells_of p) ys ]> (delete r (contents h)).
Proof.
  set (r1 := container_loc (ref_container self)). intros Hr1 Hr H1 H.
  assert (r1 ≠ r) as Hne.
  { intros <-. pose proof (ct_count _ _ H r1) as Hc. rewrite H1, occ_cons, decide_True in Hc by done.
    assert (0 < occ r1 (ref_pointers self ++ R))%nat; [|lia].
    apply occ_elem, elem_of_app. left. apply container_in_ref. }
  destruct (counted_take (cells_of p) h (ref_pointers self ++ R) r ys Hr) as [(h1 & E1 & C1 & M1 & N1) _];
    [by apply get_put|done|done|].
  destruct (counted_update (cells_of p) h1 (content_pointers (put (cells_of p) ys) ++ ref_pointers self ++ R) (content_pointers (put (cells_of p) xs) ++ ref_pointers self ++ R)
    r1 ys (put (cells_of p) xs)) as (h2 & E2 & C2 & M2 & N2).
  { by rewrite M1, lookup_delete_ne. }
  { exact C1. }
  { by rewrite (Permutation_app_comm (content_pointers (put (cells_of p) ys))), <- app_assoc,
      (Permutation_app_comm (content_pointers (put (cells_of p) ys))), app_assoc,
      (Permutation_app_comm (ref_pointers self ++ R)). }
  destruct (counted_drop_pointers _ _ _ C2) as (h3 & E3 & C3 & M3 & N3).
  exists h3. split_and!; [|done|done|by rewrite <- M1, <- M2].
  unfold assign. rewrite (heap_bind _ _ _ _ _ E1).
  rewrite (heap_bind _ _ _ _ _ (borrow_prim p h1 r1 xs ltac:(by rewrite M1, lookup_delete_ne))).
  by rewrite (heap_bind _ _ _ _ _ E2).
Qed.
End Assign.

Definition same_shape (c1 c : Container) : bool :=
  match c1, c with
  | Struct _, Struct _ | Vec _, Vec _ | VecU8 _, VecU8 _ | VecU64 _, VecU64 _ | VecU128 _, VecU128 _
  | VecBool _, VecBool _ | VecAddress _, VecAddress _ => true
  | _, _ => false
  end.

Lemma read_same_shape n m m' c c1 x :
  same_shape c1 c = true → m !! container_loc c = Some x → m' !! container_loc c1 = Some x →
  (∀ vs ts, x = CValues vs → mapM (read_tree n m) vs = Some ts → mapM (read_tree n m') vs = Some ts) →
  ∀ t, read_tree (S n) m (VContainer c) = Some t → read_tree (S n) m' (VContainer c1) = Some t.
Proof.
  intros Hs Hc Hc1 Hx t. destruct c1, c; try done; cbn [read_tree container_loc] in *; rewrite Hc, Hc1;
    destruct x; try done; intros (ts & Hts & ->)%fmap_Some; by rewrite (Hx _ _ eq_refl Hts).
Qed.

(** Cells of data are not status cells. *)
Lemma footprint_status n m v t l s :
  read_tree n m v = Some t → l ∈ footprint n m v → m !! l ≠ Some (CStatus s).
Proof.
  revert v t; induction n as [|n IH]; intros v t Ht Hl Hm; [by apply not_elem_of_nil in Hl|].
  destruct v; try (by apply not_elem_of_nil in Hl).
  cbn [footprint] in Hl. apply elem_of_cons in Hl as [->|Hl].
  - destruct c; cbn [read_tree container_loc] in *; [done|..]; by rewrite Hm in Ht.
  - destruct (m !! container_loc c) as [[]|] eqn:Hx; try (by apply not_elem_of_nil in Hl).
    apply read_container in Ht as [(x & Hx' & Hg & _)|(us & ts & mk & Hx' & Hts & -> & _)].
    { rewrite Hx in Hx'. injection Hx' as <-. by edestruct Hg. }
    rewrite Hx in Hx'. injection Hx' as <-. apply list_elem_of_bind in Hl as (v & Hl & Hv).
    apply mapM_Some in Hts. apply list_elem_of_lookup in Hv as [i Hv].
    destruct (Forall2_lookup_l _ _ _ _ _ Hts Hv) as (t & _ & Ht). by apply (IH v t).
Qed.

Lemma read_moved n m self c x t :
  same_shape (ref_container self) c = true → m !! container_loc c = Some x →
  read_tree n m (VContainer c) = Some t →
  container_loc (ref_container self) ∉ footprint n m (VContainer c) → has_status m self →
  (∀ st, m !! container_loc (ref_container self) ≠ Some (CStatus st)) →
  read_tree n (mark self (<[ container_loc (ref_container self) := x ]> (delete (container_loc c) m)))
    (VContainer (ref_container self)) = Some t.
Proof.
  intros Hs Hx Ht Hn Hst Hr1. destruct n as [|n]; [done|].
  set (r1 := container_loc (ref_container self)) in *. set (m' := <[ r1 := x ]> _).
  assert (∀ l, (∀ st, m !! l ≠ Some (CStatus st)) → mark self m' !! l = m' !! l) as Hmark.
  { intros l Hl. destruct self as [|s c']; [done|]. destruct Hst as [st' Hst]. cbn.
    apply lookup_insert_ne. intros ->. by destruct (Hl st'). }
  apply (read_same_shape n m _ c (ref_container self) x); [done|done| |..|done].
  - rewrite Hmark by done. apply lookup_insert_eq.
  - intros vs ts -> Hts.
    apply mapM_Some in Hts as Hts'. apply mapM_Some. rewrite Forall2_same_length_lookup in Hts' |- *.
    destruct Hts' as [Hlen Hts']. split; [done|]. intros i v t' Hv Hi.
    assert (v ∈ vs) as Hin by (apply list_elem_of_lookup; eauto).
    apply (read_frame n m); [|by eapply Hts'|done]. intros l Hl. rewrite Hmark.
    + unfold m'. rewrite lookup_insert_ne, lookup_delete_ne; [done|..].
      * intros <-. by apply (footprint_acyclic n m (container_loc c) vs ts v).
      * intros <-. apply Hn. cbn [footprint]. right. rewrite Hx. apply list_elem_of_bind. eauto.
    + intros st. by eapply footprint_status; [by eapply Hts'|].
Qed.

(** The value that a write takes has a cell of its own, of the kind of the target; a
    reference to a slot takes a number, a boolean or an address. *)
Definition writable (h : Heap) (r : ReferenceImpl) (x : ValueImpl) : Prop :=
  match r, x with
  | RContainerRef r, VContainer c =>
      same_shape (ref_container r) c = true ∧ strong_of h (container_loc c) = 1
  | RIndexedRef r, (VU8 _ | VU64 _ | VU128 _ | VBool _ | VAddress _) => fits (ref_container (ir_container_ref r)) x
  | _, _ => False
  end.

(** The contents after a write through a reference *)
Definition written (h : Heap) (r : ReferenceImpl) (h' : Heap) : Prop :=
  ∀ l x, l ∉ reference_pointers r → contents h' !! l = Some x → contents h !! l = Some x.

Lemma slots_status m c vs st : slots m c = Some vs → m !! container_loc c ≠ Some (CStatus st).
Proof. by destruct c; cbn; unfold slots_as; intros H Hm; rewrite Hm in H. Qed.

(** The write of the container in the cell [r] through a container reference *)
Lemma container_written {T} (p : Prim T) `{!PrimLaws p} self h R c xs ys n t :
  contents h !! container_loc (ref_container self) = Some (put (cells_of p) xs) →
  contents h !! container_loc c = Some (put (cells_of p) ys) →
  same_shape (ref_container self) c = true → read_tree n (contents h) (VContainer c) = Some t →
  strong_of h (container_loc c) = 1 →
  container_loc (ref_container self) ∉ footprint n (contents h) (VContainer c) →
  counted h (container_loc c :: ref_pointers self ++ R) → ref_pointers self ⊆ R →
  has_status (contents h) self →
  ∃ h', (_ ← assign (cells_of p) (container_loc (ref_container self)) (container_loc c);
         _ ← mark_dirty self; drop_ref self) h = Ok ((), h') ∧
    counted h' R ∧ denotes h' (VContainer (ref_container self)) t ∧ is_dirty (contents h') self ∧
    written h (RContainerRef self) h'.
Proof.
  set (r1 := container_loc (ref_container self)). set (r := container_loc c).
  intros Hr1 Hr Hsh Ht H1 Hn H HR Hst.
  destruct (assign_spec p self h R r xs ys Hr1 Hr H1 H) as (h1 & E1 & C1 & Hne & M1). fold r1 in E1, M1, Hne.
  set (m1 := <[ r1 := put (cells_of p) ys ]> (delete r (contents h))) in *.
  assert (has_status m1 self) as Hst1.
  { destruct self as [|s c']; [done|]. destruct Hst as [st Hst]. exists st. unfold m1.
    rewrite lookup_insert_ne, lookup_delete_ne; [done|..];
      intros Heq; rewrite <- Heq in Hst; first
        [rewrite Hst in Hr; injection Hr as Hr; by apply (put_status ys st)
        |rewrite Hst in Hr1; injection Hr1 as Hr1; by apply (put_status xs st)]. }
  destruct (finish_write self h1 R m1 C1 M1 Hst1) as (h' & E & C & M).
  exists h'. split_and!; [by rewrite (heap_bind _ _ _ _ _ E1)|done|..].
  - exists n. eapply read_live; [exact C|exact M|..].
    + intros l [->|Hl]%elem_of_cons; [|by apply not_elem_of_nil in Hl].
      eapply counted_root; [exact C|]. apply HR, container_in_ref.
    + apply read_moved; try done. intros st Hs. unfold r1 in Hr1. rewrite Hs in Hr1. injection Hr1 as Hr1.
      by apply (put_status xs st).
  - destruct self as [|s c']; [done|]. cbn. eapply held_kept; [exact C|apply HR; by left|exact M|].
    apply lookup_insert_eq.
  - intros l x Hl Hx. cbn in Hl. pose proof (lookup_weaken _ _ _ _ Hx M) as Hx1.
    assert (m1 !! l = Some x) as Hx2.
    { destruct self as [|s c']; [done|]. cbn in Hx1. rewrite lookup_insert_ne in Hx1; [done|].
      intros <-. apply Hl. by left. }
    unfold m1 in Hx2. rewrite lookup_insert_ne in Hx2.
    + by apply lookup_delete_Some in Hx2 as [_ Hx2].
    + intros Heq. apply Hl. rewrite <- Heq. apply container_in_ref.
Qed.

Section Indexed.
Context {T : Type} (p : Prim T) `{!PrimLaws p}.

Lemma set_index_spec h RR r i xs old y :
  contents h !! r = Some (put (cells_of p) xs) → at_ xs i = Some old →
  counted h (pointers (to_value p y) ++ RR) →
  ∃ h', set_index (cells_of p) r i y h = Ok (old, h') ∧ counted h' (pointers (to_value p old) ++ RR) ∧
    contents h' = <[ r := put (cells_of p) (<[ N.to_nat i := y ]> xs) ]> (contents h).
Proof.
  intros Hr Hi H.
  destruct (counted_update (cells_of p) h (pointers (to_value p y) ++ RR) (pointers (to_value p old) ++ RR)
    r (<[ N.to_nat i := y ]> xs) (put (cells_of p) xs)) as (h' & E & C & M & _); [done|done|..].
  { rewrite !put_pointers. pose proof (insert_perm _ _ _ y Hi) as Hp.
    apply (fmap_Permutation (to_value p)), (bind_Permutation pointers) in Hp. cbn in Hp.
    rewrite <- !app_assoc, !(Permutation_app_comm RR), !app_assoc. by rewrite Hp. }
  exists h'. split_and!; [|done|done]. unfold set_index.
  rewrite (heap_bind _ _ _ _ _ (borrow_prim p _ _ _ Hr)). rewrite (lift_bind _ _ old).
  - by rewrite (heap_bind _ _ _ _ _ E).
  - by rewrite Hi.
Qed.

Lemma indexed_written self h R i vs y :
  (∀ m, slots m (ref_container self) = slots_as p m (container_loc (ref_container self))) →
  slots (contents h) (ref_container self) = Some vs → i < len vs →
  pointers (to_value p y) = [] → counted h (ref_pointers self ++ R) → ref_pointers self ⊆ R →
  has_status (contents h) self →
  ∃ old h1 h2 h', set_index (cells_of p) (container_loc (ref_container self)) i y h = Ok (old, h1) ∧
    drop_value (to_value p old) h1 = Ok ((), h2) ∧
    (_ ← mark_dirty self; drop_ref self) h2 = Ok ((), h') ∧ counted h' R ∧
    slots (contents h') (ref_container self) = Some (<[ N.to_nat i := to_value p y ]> vs) ∧
    is_dirty (contents h') self ∧
    ∀ l x, l ∉ ref_pointers self → contents h' !! l = Some x → contents h !! l = Some x.
Proof.
  set (r1 := container_loc (ref_container self)). intros Hsl Hs Hi Hy H HR Hst.
  rewrite Hsl in Hs. apply (slots_as_Some p) in Hs as (xs & Hxs & ->). fold r1 in Hxs.
  destruct (lookup_lt_is_Some_2 xs (N.to_nat i)) as [old Hold].
  { unfold len in Hi. rewrite length_fmap in Hi. lia. }
  destruct (set_index_spec h (ref_pointers self ++ R) r1 i xs old y Hxs Hold) as (h1 & E1 & C1 & M1).
  { by rewrite Hy. }
  destruct (counted_drop_pointers _ _ _ C1) as (h2 & E2 & C2 & M2 & _).
  assert (∀ s c, self = Global s c → s ≠ r1) as Hne.
  { intros s c -> Heq. rewrite <- Heq in Hxs. destruct Hst as [st Hst]. rewrite Hst in Hxs. injection Hxs as Hxs.
    by apply (put_status xs st). }
  destruct (finish_write self h2 R (contents h1) C2 M2) as (h' & E & C & M).
  { destruct self as [|s c]; [done|]. destruct Hst as [st Hst]. exists st.
    rewrite M1, lookup_insert_ne; [done|]. apply not_eq_sym. by eapply Hne. }
  exists old, h1, h2, h'. split_and!; [done|done|done|done|..].
  - rewrite Hsl. apply (slots_as_Some p). exists (<[ N.to_nat i := y ]> xs).
    split; [|by rewrite list_fmap_insert]. fold r1.
    eapply held_kept; [exact C|apply HR, container_in_ref|exact M|]. fold r1.
    destruct self as [|s c]; cbn [mark]; [by rewrite M1, lookup_insert_eq|].
    rewrite lookup_insert_ne by (by eapply Hne). by rewrite M1, lookup_insert_eq.
  - destruct self as [|s c]; [done|]. cbn. eapply held_kept; [exact C|apply HR; by left|exact M|].
    apply lookup_insert_eq.
  - intros l x Hl Hx. pose proof (lookup_weaken _ _ _ _ Hx M) as Hx1.
    assert (contents h1 !! l = Some x) as Hx2.
    { destruct self as [|s c]; [done|]. cbn in Hx1. rewrite lookup_insert_ne in Hx1; [done|].
      intros Heq. apply Hl. rewrite Heq. by left. }
    rewrite M1, lookup_insert_ne in Hx2; [done|].
    intros Heq. apply Hl. rewrite <- Heq. apply container_in_ref.
Qed.
End Indexed.

Lemma drop_nil h : drop_pointers [] h = Ok ((), h).
Proof. unfold drop_pointers. by destruct (_ + _)%nat. Qed.

Lemma leaf_denotes h h' v t : pointers v = [] → denotes h v t → denotes h' v t.
Proof. intros Hp [[|n] Hn]; [done|]. exists (S n). by destruct v. Qed.

(** The writes of a slot: the old element of a specialized vector owns nothing. *)
Lemma indexed_write_prim {T} (p : Prim T) `{!PrimLaws p} r h R vs y (m : HeapM ()) :
  (∀ x, pointers (to_value p x) = []) →
  (∀ m, slots m (ref_container (ir_container_ref r)) =
     slots_as p m (container_loc (ref_container (ir_container_ref r)))) →
  slots (contents h) (ref_container (ir_container_ref r)) = Some vs → ir_idx r < len vs →
  counted h (ref_pointers (ir_container_ref r) ++ R) → ref_pointers (ir_container_ref r) ⊆ R →
  has_status (contents h) (ir_container_ref r) →
  m = (_ ← set_index (cells_of p) (container_loc (ref_container (ir_container_ref r))) (ir_idx r) y; mret ()) →
  ∃ h', (_ ← m; _ ← mark_dirty (ir_container_ref r); drop_ref (ir_container_ref r)) h = Ok ((), h') ∧
    counted h' R ∧ target (contents h') (RIndexedRef r) = Some (to_value p y) ∧
    is_dirty (contents h') (ir_container_ref r) ∧ written h (RIndexedRef r) h'.
Proof.
  intros Hp Hsl Hs Hi H HR Hst ->.
  destruct (indexed_written p _ h R (ir_idx r) vs y Hsl Hs Hi (Hp y) H HR Hst)
    as (old & h1 & h2 & h' & E1 & E2 & E & C & S & D & F).
  unfold drop_value in E2. rewrite Hp, drop_nil in E2. injection E2 as <-.
  exists h'. split_and!; [|done| |done|done].
  - unfold mbind at 1, HeapM_bind at 1. by rewrite (heap_bind _ _ _ _ _ E1).
  - cbn [target]. rewrite S. unfold at_. apply list_lookup_insert_eq. unfold len in Hi. lia.
Qed.

Lemma indexed_write_generic r h R vs x :
  (∀ m, slots m (ref_container (ir_container_ref r)) =
     slots_as prim_values m (container_loc (ref_container (ir_container_ref r)))) →
  slots (contents h) (ref_container (ir_container_ref r)) = Some vs → ir_idx r < len vs →
  pointers x = [] →
  counted h (ref_pointers (ir_container_ref r) ++ R) → ref_pointers (ir_container_ref r) ⊆ R →
  has_status (contents h) (ir_container_ref r) →
  ∃ h', (_ ← (old ← set_index values (container_loc (ref_container (ir_container_ref r))) (ir_idx r) x; drop_value old);
         _ ← mark_dirty (ir_container_ref r); drop_ref (ir_container_ref r)) h = Ok ((), h') ∧
    counted h' R ∧ target (contents h') (RIndexedRef r) = Some x ∧
    is_dirty (contents h') (ir_container_ref r) ∧ written h (RIndexedRef r) h'.
Proof.
  intros Hsl Hs Hi Hp H HR Hst.
  destruct (indexed_written prim_values _ h R (ir_idx r) vs x Hsl Hs Hi Hp H HR Hst)
    as (old & h1 & h2 & h' & E1 & E2 & E & C & S & D & F).
  exists h'. split_and!; [|done| |done|done].
  - unfold mbind at 1, HeapM_bind at 1. rewrite (heap_bind _ _ _ _ _ E1). cbn in E2. by rewrite E2.
  - cbn [target]. rewrite S. unfold at_. apply list_lookup_insert_eq. unfold len in Hi. lia.
Qed.

Lemma indexed_write_spec r h R vs x :
  slots (contents h) (ref_container (ir_container_ref r)) = Some vs → ir_idx r < len vs →
  writable h (RIndexedRef r) x → counted h (ref_pointers (ir_container_ref r) ++ R) →
  ref_pointers (ir_container_ref r) ⊆ R → has_status (contents h) (ir_container_ref r) →
  ∃ h', indexed_write_ref r x h = Ok ((), h') ∧ counted h' R ∧
    target (contents h') (RIndexedRef r) = Some x ∧ is_dirty (contents h') (ir_container_ref r) ∧
    written h (RIndexedRef r) h'.
Proof.
  intros Hs Hi Hw H HR Hst. assert (pointers x = []) as Hx by (by destruct x).
  pose proof (indexed_write_generic r h R vs x) as Hg.
  assert (∀ T (p : Prim T) (_ : PrimLaws p) y, _) as Hp by
    (intros T p Hl y; exact (indexed_write_prim p r h R vs y)).
  unfold indexed_write_ref. cbv zeta. cbn [writable] in Hw.
  destruct (ref_container (ir_container_ref r)) eqn:E; cbn [fits with_prim] in Hw.
  1-3: specialize (Hg ltac:(done) Hs Hi Hx H HR Hst); destruct x; try done; exact Hg.
  all: destruct x; try done; try (by destruct Hw).
  - by apply (Hp _ prim_u8 _ x).
  - by apply (Hp _ prim_u64 _ x).
  - by apply (Hp _ prim_u128 _ x).
  - by apply (Hp _ prim_bool _ b).
  - by apply (Hp _ prim_address _ a).
Qed.

Lemma container_write_spec self h R c vs n t :
  slots (contents h) (ref_container self) = Some vs → read_tree n (contents h) (VContainer c) = Some t →
  writable h (RContainerRef self) (VContainer c) →
  container_loc (ref_container self) ∉ footprint n (contents h) (VContainer c) →
  counted h (container_loc c :: ref_pointers self ++ R) → ref_pointers self ⊆ R →
  has_status (contents h) self →
  ∃ h', container_write_ref self (VContainer c) h = Ok ((), h') ∧ counted h' R ∧
    denotes h' (VContainer (ref_container self)) t ∧ is_dirty (contents h') self ∧
    written h (RContainerRef self) h'.
Proof.
  intros Hs Ht [Hsh H1] Hn H HR Hst.
  assert (∀ T (p : Prim T) (_ : PrimLaws p) xs ys, _) as Hp by
    (intros T p Hl xs ys; exact (container_written p self h R c xs ys n t)).
  unfold container_write_ref.
  destruct (ref_container self) eqn:E; destruct c; try done; cbn [container_loc] in *;
    (destruct n as [|n]; [done|]); pose proof Ht as Ht'; cbn [read_tree container_loc] in Ht';
    destruct (contents h !! r0) as [[]|] eqn:E2; try done.
  1,2: apply (slots_as_Some prim_values) in Hs as (xs & Hxs & _); by apply (Hp _ prim_values _ xs vs0).
  - apply (slots_as_Some prim_u8) in Hs as (xs' & Hxs & _). by apply (Hp _ prim_u8 _ xs' xs).
  - apply (slots_as_Some prim_u64) in Hs as (xs' & Hxs & _). by apply (Hp _ prim_u64 _ xs' xs).
  - apply (slots_as_Some prim_u128) in Hs as (xs' & Hxs & _). by apply (Hp _ prim_u128 _ xs' xs).
  - apply (slots_as_Some prim_bool) in Hs as (xs' & Hxs & _). by apply (Hp _ prim_bool _ xs' bs).
  - apply (slots_as_Some prim_address) in Hs as (xs' & Hxs & _). by apply (Hp _ prim_address _ xs' xs).
Qed.

(** C24. Writing a value through a reference to a container or to a slot of one succeeds,
    consumes the value and the reference, leaves what the owner holds with the data that
    was written, marks a resource of global storage dirty and changes no other cell;
    strong counts stay the numbers of pointers. *)
Theorem write_ref_spec (h : Heap) (r : ReferenceImpl) (v x : ValueImpl) (t : tree) (R : list loc) :
  target (contents h) r = Some v → slots (contents h) (ref_container (reference_base r)) ≠ None →
  denotes h x t → writable h r x →
  (∀ n, container_loc (ref_container (reference_base r)) ∉ footprint n (contents h) x) →
  counted h (pointers x ++ reference_pointers r ++ R) → reference_pointers r ⊆ R →
  has_status (contents h) (reference_base r) →
  ∃ h' v', write_ref r x h = Ok ((), h') ∧ counted h' R ∧
    target (contents h') r = Some v' ∧ denotes h' v' t ∧
    is_dirty (contents h') (reference_base r) ∧ written h r h'.
Proof.
  intros Hv Hsl Ht Hw Hn H HR Hst. destruct (slots _ _) as [vs|] eqn:Hs; [|done]. clear Hsl.
  destruct r as [r|self]; cbn [reference_base target reference_pointers write_ref] in *.
  - rewrite Hs in Hv. apply at_index_lt in Hv.
    assert (pointers x = []) as Hp by (by destruct x). rewrite Hp in H.
    destruct (indexed_write_spec r h R vs x) as (h' & E & C & T & D & W); try done.
    exists h', x. split_and!; try done. by eapply leaf_denotes.
  - injection Hv as <-. destruct x; try done. destruct Ht as [n Hn'].
    destruct (container_write_spec self h R c vs n t) as (h' & E & C & D & W & F); try done.
    exists h', (VContainer (ref_container self)). by split_and!.
Qed.

(** A resource of global storage (cell 0, status in cell 1) that the slot holds, a
    reference to its field and one to itself, and a new value for it *)
Definition resource_heap : Heap :=
  {| cells := {[ 0 := {| strong := 2; content := CValues [VU64 7] |};
                 1 := {| strong := 2; content := CStatus Clean |} ]};
     next_loc := 2 |}.
Definition field_reference : ReferenceImpl :=
  RIndexedRef {| ir_idx := 0; ir_container_ref := Global 1 (Struct 0) |}.

Example write_ref_spec_witness :
  ∃ h' v', write_ref field_reference (VU64 8) resource_heap = Ok ((), h') ∧
    target (contents h') field_reference = Some v' ∧ denotes h' v' (TU64 8) ∧
    contents h' !! 1 = Some (CStatus Dirty).
Proof.
  destruct (write_ref_spec resource_heap field_reference (VU64 7) (VU64 8) (TU64 8) [1; 0])
    as (h' & v' & E & _ & T & Dn & D & _).
  - reflexivity.
  - discriminate.
  - by exists 1%nat.
  - by eexists.
  - intros [|n]; apply not_elem_of_nil.
  - apply check_counted_sound. vm_compute. reflexivity.
  - done.
  - by exists Clean.
  - exists h', v'. by split_and!.
Defined.
