(* ===== verification/Frames.v ===== *)
(** * Frames: the locals of a function as a list of values

    The operations of [Locals] of
    [language/move-vm/types/src/values/values_impl.rs] on the list of the values of a
    frame: moving empties a local, storing drops the old value, neither gives away a
    container that is borrowed, and borrowing points to the local. *)

From S2P Require Import Prelude CoreTypes VmStatus Abilities FileFormat Errors Views Integers RuntimeTypes Heap Values Vectors HeapCounts ValueTrees Slots References.

Definition invariant_error {A} : result PartialVMError A :=
  Err (PartialVMError_new UNKNOWN_INVARIANT_VIOLATION_ERROR).
Definition verifier_error {A} : result PartialVMError A :=
  Err (PartialVMError_new VERIFIER_INVARIANT_VIOLATION).

(** A container that somebody else points to *)
Definition is_borrowed (h : Heap) (v : ValueImpl) : bool :=
  match v with VContainer c => 1 <? strong_of h (container_loc c) | _ => false end.

(** The locals in the cell [self] become [vs], and nothing else changes. *)
Definition frame_set (h : Heap) (self : loc) (vs : list ValueImpl) (R : list loc) (h' : Heap) : Prop :=
  counted h' R ∧ contents h' = <[ self := CValues vs ]> (contents h).

(** As [frame_set], after a value has been dropped: of the other cells some are gone. *)
Definition frame_left (h : Heap) (self : loc) (vs : list ValueImpl) (R : list loc) (h' : Heap) : Prop :=
  counted h' R ∧ contents h' !! self = Some (CValues vs) ∧
  contents h' ⊆ <[ self := CValues vs ]> (contents h).

Record frame_refines (h : Heap) (self : loc) (vs : list ValueImpl) (R : list loc) : Prop := {
  fr_copy : ∀ i v t, at_ vs i = Some v → v ≠ Invalid → denotes h v t →
    ∃ v' h', copy_loc self i h = Ok (v', h') ∧ counted h' (pointers v' ++ R) ∧ denotes h' v' t ∧
      contents h ⊆ contents h';
  fr_move : ∀ i v, at_ vs i = Some v → v ≠ Invalid → is_borrowed h v = false →
    ∃ h', move_loc self i h = Ok (v, h') ∧
      frame_set h self (<[ N.to_nat i := Invalid ]> vs) (pointers v ++ R) h';
  fr_store : ∀ i v x R', at_ vs i = Some v → is_borrowed h v = false → R ≡ₚ pointers x ++ R' →
    self ∈ R' →
    ∃ h', store_loc self i x h = Ok ((), h') ∧ frame_left h self (<[ N.to_nat i := x ]> vs) R' h';
  fr_borrow : ∀ i v, at_ vs i = Some v →
    match v with VU8 _ | VU64 _ | VU128 _ | VBool _ | VAddress _ | VContainer _ => True | _ => False end →
    ∃ r h', borrow_loc self i h = Ok (elem_ref (Local (Locals self)) i v, h') ∧
      value_as_reference (elem_ref (Local (Locals self)) i v) h' = Ok (r, h') ∧
      counted h' (reference_pointers r ++ R) ∧ contents h' = contents h ∧
      target (contents h') r = Some v;
  fr_empty : ∀ i, at_ vs i = Some Invalid →
    copy_loc self i h = invariant_error ∧ move_loc self i h = invariant_error ∧
    borrow_loc self i h = invariant_error;
  fr_borrowed : ∀ i v x, at_ vs i = Some v → is_borrowed h v = true →
    move_loc self i h = invariant_error ∧ store_loc self i x h = invariant_error;
  fr_bounds : ∀ i x, len vs <= i →
    copy_loc self i h = verifier_error ∧ move_loc self i h = verifier_error ∧
    store_loc self i x h = verifier_error ∧ borrow_loc self i h = invariant_error }.

Section Frame.
Context (h : Heap) (self : loc) (vs : list ValueImpl) (R : list loc).
Context (Hvs : contents h !! self = Some (CValues vs)) (HR : self ∈ R) (H : counted h R).

Lemma borrow_frame : borrow values self h = Ok (vs, h).
Proof. by apply borrow_Ok. Qed.

Lemma local_live i c : at_ vs i = Some (VContainer c) → ∃ cell, cells h !! container_loc c = Some cell.
Proof.
  intros Hi. eapply counted_cell; [exact H|exact Hvs|]. apply list_elem_of_bind.
  exists (VContainer c). split; [by left|by eapply at_elem].
Qed.

Lemma dangling_spec i v : at_ vs i = Some v →
  (match v with
   | VContainer c => n ← rc_count c; mret (1 <? n)
   | _ => mret false
   end : HeapM bool) h = Ok (is_borrowed h v, h).
Proof.
  intros Hi. destruct v; try done. destruct (local_live i c Hi) as [cell Hc].
  unfold is_borrowed. rewrite (strong_cell _ _ _ Hc). unfold rc_count, strong_count, lookup_cell.
  unfold mbind, HeapM_bind, mret, HeapM_ret. by rewrite Hc.
Qed.

Lemma swap_loc_spec R' i v x :
  at_ vs i = Some v → is_borrowed h v = false → R ≡ₚ pointers x ++ R' →
  ∃ h', swap_loc self i x h = Ok (v, h') ∧
    frame_set h self (<[ N.to_nat i := x ]> vs) (pointers v ++ R') h'.
Proof.
  intros Hi Hb Hp. unfold swap_loc. rewrite (heap_bind _ _ _ _ _ borrow_frame), Hi.
  rewrite (heap_bind _ _ _ _ _ (dangling_spec i v Hi)), Hb.
  destruct (counted_update values h R (pointers v ++ R') self (<[ N.to_nat i := x ]> vs) (CValues vs))
    as (h' & E & C & M & _); [done|done|..].
  { cbn. pose proof (insert_perm _ _ _ x Hi) as Hq. apply (bind_Permutation pointers) in Hq. cbn in Hq.
    rewrite Hp. rewrite <- !app_assoc, !(Permutation_app_comm R'), !app_assoc. by rewrite Hq. }
  exists h'. split; [|done]. by rewrite (heap_bind _ _ _ _ _ E).
Qed.

Lemma swap_loc_errors i x :
  (∀ v, at_ vs i = Some v → is_borrowed h v = true → swap_loc self i x h = invariant_error) ∧
  (len vs <= i → swap_loc self i x h = verifier_error).
Proof.
  unfold swap_loc. rewrite (heap_bind _ _ _ _ _ borrow_frame). split.
  - intros v Hi Hb. rewrite Hi. by rewrite (heap_bind _ _ _ _ _ (dangling_spec i v Hi)), Hb.
  - intros Hi. unfold at_. by rewrite lookup_ge_None_2 by (unfold len in Hi; lia).
Qed.

Lemma move_loc_spec i v :
  at_ vs i = Some v → is_borrowed h v = false →
  ∃ h', move_loc self i h = (if decide (v = Invalid) then invariant_error else Ok (v, h')) ∧
    frame_set h self (<[ N.to_nat i := Invalid ]> vs) (pointers v ++ R) h'.
Proof.
  intros Hi Hb. destruct (swap_loc_spec R i v Invalid Hi Hb) as (h' & E & F); [done|].
  exists h'. split; [|done]. unfold move_loc. rewrite (heap_bind _ _ _ _ _ E). by destruct v.
Qed.

Lemma copy_loc_spec i v t :
  at_ vs i = Some v → v ≠ Invalid → denotes h v t →
  ∃ v' h', copy_loc self i h = Ok (v', h') ∧ counted h' (pointers v' ++ R) ∧ denotes h' v' t ∧
    contents h ⊆ contents h'.
Proof.
  intros Hi Hv Ht. destruct (copy_value_built h v t R Ht H) as (n & v' & h' & E & [C M N T O]).
  exists v', h'. split_and!; [|done|by exists n|done]. unfold copy_loc.
  rewrite (heap_bind _ _ _ _ _ borrow_frame), Hi. by destruct v.
Qed.

Lemma store_loc_spec i v x R' :
  at_ vs i = Some v → is_borrowed h v = false → R ≡ₚ pointers x ++ R' → self ∈ R' →
  ∃ h', store_loc self i x h = Ok ((), h') ∧ frame_left h self (<[ N.to_nat i := x ]> vs) R' h'.
Proof.
  intros Hi Hb Hp Hin. destruct (swap_loc_spec R' i v x Hi Hb Hp) as (h1 & E & C & M).
  destruct (counted_drop_pointers _ _ _ C) as (h' & E' & C' & M' & _).
  exists h'. split; [unfold store_loc; by rewrite (heap_bind _ _ _ _ _ E)|].
  rewrite M in M'. split_and!; [done| |done]. eapply held_kept; [exact C'|done|exact M'|apply lookup_insert_eq].
Qed.

Lemma borrow_loc_spec i v :
  at_ vs i = Some v →
  match v with VU8 _ | VU64 _ | VU128 _ | VBool _ | VAddress _ | VContainer _ => True | _ => False end →
  ∃ r h', borrow_loc self i h = Ok (elem_ref (Local (Locals self)) i v, h') ∧
    value_as_reference (elem_ref (Local (Locals self)) i v) h' = Ok (r, h') ∧
    counted h' (reference_pointers r ++ R) ∧ contents h' = contents h ∧
    target (contents h') r = Some v.
Proof.
  intros Hi Hv. pose proof (at_index_lt _ _ _ Hi).
  assert (∀ h', contents h' = contents h →
    target (contents h') (RIndexedRef {| ir_idx := i; ir_container_ref := Local (Locals self) |}) = Some v) as Ht.
  { intros h' M. cbn. unfold slots_as. rewrite M, Hvs. cbn. by rewrite list_fmap_id. }
  destruct (clone_held h R self H HR) as (h1 & E1 & C1 & M1 & _).
  unfold borrow_loc. rewrite (heap_bind _ _ _ _ _ borrow_frame).
  replace (len vs <=? i) with false by lia. rewrite (lift_bind _ _ v) by (by rewrite Hi).
  destruct v; try done.
  1-5: eexists _, h1; split_and!; [by rewrite (heap_bind _ _ _ _ _ E1)|reflexivity|done|done|by apply Ht].
  destruct (counted_clone h R (container_loc c) H) as (h' & E & C & M & _).
  { right. exists self, (CValues vs). split; [done|]. apply list_elem_of_bind.
    exists (VContainer c). split; [by left|by eapply at_elem]. }
  exists (RContainerRef (Local c)), h'. split_and!; [|reflexivity|done|done|done].
  apply (heap_fmap (VContainerRef ∘ Local)). unfold copy_by_ref. by rewrite (heap_bind _ _ _ _ _ E).
Qed.

Lemma frame_empty i : at_ vs i = Some Invalid →
  copy_loc self i h = invariant_error ∧ move_loc self i h = invariant_error ∧
  borrow_loc self i h = invariant_error.
Proof.
  intros Hi. pose proof (at_index_lt _ _ _ Hi). split_and!.
  - unfold copy_loc. by rewrite (heap_bind _ _ _ _ _ borrow_frame), Hi.
  - by destruct (move_loc_spec i Invalid Hi eq_refl) as (h' & -> & _).
  - unfold borrow_loc. rewrite (heap_bind _ _ _ _ _ borrow_frame).
    replace (len vs <=? i) with false by lia. by rewrite (lift_bind _ _ Invalid) by (by rewrite Hi).
Qed.

Lemma move_store_error i x e :
  swap_loc self i Invalid h = Err e → swap_loc self i x h = Err e →
  move_loc self i h = Err e ∧ store_loc self i x h = Err e.
Proof.
  intros E1 E2. unfold move_loc, store_loc, mbind, HeapM_bind. by rewrite E1, E2.
Qed.

Lemma frame_bounds i x : len vs <= i →
  copy_loc self i h = verifier_error ∧ move_loc self i h = verifier_error ∧
  store_loc self i x h = verifier_error ∧ borrow_loc self i h = invariant_error.
Proof.
  intros Hi. destruct (swap_loc_errors i Invalid) as [_ E1], (swap_loc_errors i x) as [_ E2].
  destruct (move_store_error i x _ (E1 Hi) (E2 Hi)) as [Em Es]. split_and!; [|done|done|].
  - unfold copy_loc. rewrite (heap_bind _ _ _ _ _ borrow_frame). unfold at_.
    by rewrite lookup_ge_None_2 by (unfold len in Hi; lia).
  - unfold borrow_loc. rewrite (heap_bind _ _ _ _ _ borrow_frame).
    by replace (len vs <=? i) with true by lia.
Qed.
End Frame.

(** The locals of a frame are a list of values: a move gives the value and empties
    the local, a store drops the old value, neither gives away a container that somebody
    else points to, a copy gives equal data from new cells, a borrow points to the local,
    and an empty local or an index out of bounds is an error. *)
Theorem locals_refine_frame (h : Heap) (self : loc) (vs : list ValueImpl) (R : list loc) :
  contents h !! self = Some (CValues vs) → self ∈ R → counted h R → frame_refines h self vs R.
Proof.
  intros Hvs HR H. constructor.
  - intros i v t. by apply copy_loc_spec.
  - intros i v Hi Hv Hb. destruct (move_loc_spec h self vs R Hvs H i v Hi Hb) as (h' & E & F).
    exists h'. by rewrite decide_False in E by done.
  - intros i v x R'. by apply store_loc_spec.
  - intros i v. by apply borrow_loc_spec.
  - intros i Hi. by apply (frame_empty h self vs R).
  - intros i v x Hi Hb.
    destruct (swap_loc_errors h self vs R Hvs H i Invalid) as [E1 _], (swap_loc_errors h self vs R Hvs H i x) as [E2 _].
    by apply move_store_error; [apply (E1 v)|apply (E2 v)].
  - intros i x Hi. by apply (frame_bounds h self vs R).
Qed.

(** A frame of a number, a borrowed struct and an empty local *)
Definition frame_heap : Heap :=
  {| cells := {[ 0 := {| strong := 1; content := CValues [VU8 3; VContainer (Struct 1); Invalid] |};
                 1 := {| strong := 2; content := CValues [VU64 7] |} ]};
     next_loc := 2 |}.

Example locals_refine_frame_witness :
  (∃ h', move_loc 0 0 frame_heap = Ok (VU8 3, h') ∧
     contents h' !! 0 = Some (CValues [Invalid; VContainer (Struct 1); Invalid])) ∧
  move_loc 0 1 frame_heap = invariant_error ∧ move_loc 0 2 frame_heap = invariant_error ∧
  move_loc 0 3 frame_heap = verifier_error.
Proof.
  assert (frame_refines frame_heap 0 [VU8 3; VContainer (Struct 1); Invalid] [1; 0]) as F.
  { apply locals_refine_frame; [reflexivity|by right; left|].
    apply check_counted_sound. vm_compute. reflexivity. }
  split_and!.
  - destruct (fr_move _ _ _ _ F 0 (VU8 3)) as (h' & E & _ & M); [done..|].
    exists h'. split; [exact E|]. rewrite M. by rewrite lookup_insert_eq.
  - by apply (fr_borrowed _ _ _ _ F 1 (VContainer (Struct 1)) Invalid).
  - by apply (fr_empty _ _ _ _ F 2).
  - by apply (fr_bounds _ _ _ _ F 3 Invalid).
Defined.
