(* ===== verification/GlobalSlots.v ===== *)
(** * GlobalSlots: the effect of a slot of global storage is its current value

    The slot of [GlobalValues] follows, through any sequence of publishing, taking,
    borrowing and writing through references, the value that a program sees in global
    storage, and the effect that the virtual machine returns at the end turns what was
    stored into that value. *)

From S2P Require Import Prelude CoreTypes VmStatus Abilities FileFormat Errors Views Integers RuntimeTypes Heap Values Vectors GlobalValues HeapCounts ValueTrees Slots References.

Definition slot_pointers (g : GlobalValueImpl) : list loc :=
  match g with
  | None_ | Deleted => []
  | Fresh fields => [fields]
  | Cached fields status => [fields; status]
  end.

(** What the effect does to the resource in storage *)
Definition apply_effect (stored : option tree) (e : GlobalValueEffect tree) : option tree :=
  match e with EffectNone => stored | EffectDeleted => None | EffectChanged t => Some t end.
Definition effect_denotes (h : Heap) (e : GlobalValueEffect ValueImpl) (t : GlobalValueEffect tree) : Prop :=
  match e, t with
  | EffectNone, EffectNone | EffectDeleted, EffectDeleted => True
  | EffectChanged v, EffectChanged t => denotes h v t
  | _, _ => False
  end.
Definition effect_pointers (e : GlobalValueEffect ValueImpl) : list loc :=
  match e with EffectChanged v => pointers v | _ => [] end.

(** The slot of a resource that was [stored], and is [current] now *)
Definition slot_rel (h : Heap) (g : GlobalValueImpl) (stored current : option tree) : Prop :=
  match g with
  | None_ => stored = None ∧ current = None
  | Deleted => stored ≠ None ∧ current = None
  | Fresh fields => stored = None ∧ ∃ t, current = Some t ∧ denotes h (VContainer (Struct fields)) t
  | Cached fields status => stored ≠ None ∧
      ∃ t s, current = Some t ∧ denotes h (VContainer (Struct fields)) t ∧
        contents h !! status = Some (CStatus s) ∧ (s = Clean → stored = Some t)
  end.

(** A reference that was borrowed from the slot, or from such a reference *)
Definition from_slot (g : GlobalValueImpl) (r : ContainerRef) : Prop :=
  match g, r with
  | Fresh _, Local _ => True
  | Cached _ status, Global status' _ => status' = status
  | _, _ => False
  end.

(** The writes to a resource: through a reference, or a change of a vector in it *)
Inductive writes (self : ContainerRef) : HeapM () → Prop :=
| writes_ref r x : reference_base r = self → writes self (write_ref r x)
| writes_push e ty : writes self (push_back self e ty)
| writes_pop ty : writes self (_ ← pop self ty; mret ())
| writes_swap i j ty : writes self (swap self i j ty).

(** ** A write leaves no clean mark *)

Lemma drop_loop_subset fuel rs h h' : drop_loop fuel rs h = Ok ((), h') → contents h' ⊆ contents h.
Proof.
  revert rs h; induction fuel as [|fuel IH]; intros [|r rs] h; cbn [drop_loop]; try (by intros [= <-]).
  destruct (cells h !! r) as [c|] eqn:Hr; [|done]. destruct (strong c <=? 1); intros E%IH.
  - etrans; [exact E|]. unfold contents, remove_cell. cbn [cells]. rewrite fmap_delete. apply delete_subseteq.
  - by rewrite (contents_set h r c) in E.
Qed.

Lemma heap_bind_Ok {A B} (m : HeapM A) (k : A → HeapM B) h b h' :
  (m ≫= k) h = Ok (b, h') → ∃ a h1, m h = Ok (a, h1) ∧ k a h1 = Ok (b, h').
Proof. unfold mbind, HeapM_bind. destruct (m h) as [[a h1]| | |]; try done. eauto. Qed.

Definition marked (h : Heap) (s : loc) : Prop := ∀ x, contents h !! s = Some x → x = CStatus Dirty.

Lemma mark_dirty_marks h s c h' : mark_dirty (Global s c) h = Ok ((), h') → marked h' s.
Proof.
  cbn. unfold replace, lookup_cell, mbind, HeapM_bind. destruct (cells h !! s) as [x|]; [|done].
  intros [= <-]. unfold marked, contents, set_cell. cbn [cells].
  rewrite lookup_fmap, lookup_insert_eq. by intros y [= <-].
Qed.

Lemma mark_and_drop h s c h' : (_ ← mark_dirty (Global s c); drop_ref (Global s c)) h = Ok ((), h') → marked h' s.
Proof.
  intros (_u & h1 & E1 & E2)%heap_bind_Ok. destruct _u. apply mark_dirty_marks in E1. intros y Hs. apply E1.
  eapply lookup_weaken; [exact Hs|]. by eapply drop_loop_subset.
Qed.

Lemma write_ref_marks r x s c h h' :
  reference_base r = Global s c → write_ref r x h = Ok ((), h') → marked h' s.
Proof.
  intros Hb. destruct r as [r|r]; cbn [write_ref reference_base] in *.
  - unfold indexed_write_ref. rewrite Hb. destruct x; try done;
      intros (_u & h1 & _ & E)%heap_bind_Ok; by apply mark_and_drop in E.
  - subst r. unfold container_write_ref. destruct x; try done.
    intros (_u & h1 & _ & E)%heap_bind_Ok. by apply mark_and_drop in E.
Qed.

Lemma writes_marks s c m h h' : writes (Global s c) m → m h = Ok ((), h') → marked h' s.
Proof.
  intros [r x Hr|e ty|ty|i j ty] E.
  - by eapply write_ref_marks.
  - unfold push_back in E. apply heap_bind_Ok in E as (? & h1 & _ & E). apply heap_bind_Ok in E as (? & h2 & _ & E).
    by apply mark_dirty_marks in E.
  - apply heap_bind_Ok in E as (? & h1 & E & [= <-]). unfold pop in E.
    apply heap_bind_Ok in E as (? & h2 & _ & E). apply heap_bind_Ok in E as (? & h3 & _ & E).
    apply heap_bind_Ok in E as ([] & h4 & E & [= _ <-]). by apply mark_dirty_marks in E.
  - unfold swap in E. apply heap_bind_Ok in E as (? & h1 & _ & E). apply heap_bind_Ok in E as (? & h2 & _ & E).
    by apply mark_dirty_marks in E.
Qed.

(** ** Runs of a slot *)

Definition slot_counted (h : Heap) (g : GlobalValueImpl) : Prop := ∃ R, counted h (slot_pointers g ++ R).

(** The states of a slot after a sequence of operations, with what a program sees in
    it: [stored] is what storage holds. *)
Inductive slot_run (stored : option tree) : Heap → GlobalValueImpl → option tree → Prop :=
| run_none h :
    stored = None → slot_run stored h global_none None
| run_cached h h' v t g :
    stored = Some t → denotes h v t → (∃ R, counted h (pointers v ++ R)) →
    global_cached v h = Ok (g, h') → slot_run stored h' g (Some t)
| run_move_to h h' g g' v t current :
    slot_run stored h g current → denotes h v t → (∃ R, counted h (pointers v ++ slot_pointers g ++ R)) →
    move_to g v h = Ok (g', h') → slot_run stored h' g' (Some t)
| run_move_from h h' g g' v current :
    slot_run stored h g current → slot_counted h g → move_from g h = Ok ((g', v), h') →
    slot_run stored h' g' None
| run_write h h' g self m current fields t :
    slot_run stored h g current → from_slot g self → writes self m → m h = Ok ((), h') →
    slot_counted h' g → head (slot_pointers g) = Some fields →
    denotes h' (VContainer (Struct fields)) t → slot_run stored h' g (Some t)
| run_other h h' g current :
    slot_run stored h g current → 
    (∀ fields t, head (slot_pointers g) = Some fields → denotes h (VContainer (Struct fields)) t →
       denotes h' (VContainer (Struct fields)) t) →
    (∀ fields status, g = Cached fields status → contents h' !! status = contents h !! status) →
    slot_run stored h' g current.

Lemma cached_rel h h' v t g s stored R :
  denotes h v t → counted h (pointers v ++ R) → stored ≠ None → (s = Clean → stored = Some t) →
  cached v s h = Ok (g, h') → slot_rel h' g stored (Some t).
Proof.
  intros [n Hn] H Hst Hs. unfold cached. destruct v as [| | | | | |[]| |]; try done.
  intros (l & h1 & E & [= <- <-])%heap_bind_Ok. cbn [slot_rel].
  destruct (counted_new h _ (CStatus s) H) as (l' & h2 & E' & C & Hl & M & _).
  rewrite E in E'. injection E' as <- <-. split; [done|]. exists t, s.
  split_and!; [done| |by rewrite M, lookup_insert_eq|done].
  exists n. destruct (read_mono n n (contents h) (contents h1) (VContainer (Struct r)) t) as [Hr _];
    [|done..]. rewrite M. apply insert_subseteq. by rewrite contents_lookup, Hl.
Qed.

Lemma move_from_rel h h' g g' v stored current R :
  slot_rel h g stored current → counted h (slot_pointers g ++ R) → move_from g h = Ok ((g', v), h') →
  ∃ t, current = Some t ∧ denotes h' v t ∧ slot_rel h' g' stored None ∧ counted h' (pointers v ++ R).
Proof.
  intros Hg H E. unfold move_from in E. destruct g as [|fields|fields status|]; try done;
    apply heap_bind_Ok in E as ([g1 f1] & h1 & E1 & E); cbn in E1.
  - injection E1 as <- <- <-. destruct Hg as (Hst & t & Ht & Hd).
    apply heap_bind_Ok in E as (n & h2 & E2 & E). unfold strong_count in E2.
    apply heap_bind_Ok in E2 as (c & h3 & E2 & [= <- <-]). unfold lookup_cell in E2.
    destruct (cells h !! fields) as [c'|]; [|done]. injection E2 as <- <-.
    destruct (negb _); [done|]. injection E as <- <- <-. exists t. by split_and!.
  - apply heap_bind_Ok in E1 as ([] & h4 & E1 & [= <- <- <-]).
    destruct Hg as (Hst & t & s & Ht & Hd & Hs & _).
    destruct (counted_drop_pointers [status] h (fields :: R)) as (h5 & E5 & C5 & M5 & _).
    { cbn in H. cbn. by rewrite Permutation_swap. }
    rewrite E1 in E5. injection E5 as <-. 
    apply heap_bind_Ok in E as (n & h2 & E2 & E). unfold strong_count in E2.
    apply heap_bind_Ok in E2 as (c & h3 & E2 & [= <- <-]). unfold lookup_cell in E2.
    destruct (cells h4 !! fields) as [c'|]; [|done]. injection E2 as <- <-.
    destruct (negb _); [done|]. injection E as <- <- <-. exists t. split_and!; try done.
    by apply (denotes_live h h4 R).
Qed.

Lemma slot_run_rel stored h g current : slot_run stored h g current → slot_rel h g stored current.
Proof.
  induction 1 as [h Hs|h h' v t g Hs Hd (R & H) E|h h' g g' v t current _ IH Hd (R & H) E|
    h h' g g' v current _ IH (R & H) E|h h' g self m current fields t _ IH Hf Hw E (R & H) Hg Hd|
    h h' g current _ IH Hd Hst].
  - done.
  - apply (cached_rel h h' v t g Clean stored R Hd H); [congruence|by intros _|exact E].
  - destruct g as [|fields|fields status|]; try done.
    + cbn in E. unfold fresh_ in E. destruct v as [| | | | | |[]| |]; try done. injection E as <- <-.
      destruct IH as [IH _]. split; [done|]. by exists t.
    + apply (cached_rel h h' v t g' Dirty stored (slot_pointers Deleted ++ R) Hd H); [apply IH|done|exact E].
  - by destruct (move_from_rel h h' g g' v stored current R) as (t & _ & _ & Hr & _).
  - destruct g as [|f|f status|]; try done; injection Hg as ->.
    + destruct IH as (Hst & _). split; [done|]. by exists t.
    + destruct IH as (Hst & _). split; [done|]. destruct self as [|s c]; [done|]. cbn in Hf. subst s.
      apply (writes_marks status c) in E; [|done].
      destruct (counted_root h' _ status H) as [cell Hcell]; [cbn; right; by left|].
      assert (contents h' !! status = Some (content cell)) as Hcs by (apply contents_Some; eauto).
      exists t, Dirty. by rewrite Hcs, (E _ Hcs).
  - destruct g as [|f|f status|]; try done; cbn [slot_rel] in *.
    + destruct IH as (Hs & t & -> & Ht). split; [done|]. exists t. split; [done|]. by apply Hd.
    + destruct IH as (Hs & t & s & -> & Ht & Hc & Hcl). split; [done|]. exists t, s.
      split_and!; [done|by apply Hd|by erewrite Hst|done].
Qed.

(** ** The effect *)

Definition tree_of_effect (e : GlobalValueEffect tree) : bool := 
  match e with EffectNone => false | _ => true end.

Lemma into_effect_spec h g stored current R :
  slot_rel h g stored current → counted h (slot_pointers g ++ R) →
  ∃ e te h', into_effect g h = Ok (e, h') ∧ counted h' (effect_pointers e ++ R) ∧
    effect_denotes h' e te ∧ apply_effect stored te = current ∧
    is_mutated g h = Ok (tree_of_effect te, h).
Proof.
  intros Hg H. destruct g as [|f|f s|]; cbn [slot_rel] in Hg.
  - destruct Hg as [-> ->]. by exists EffectNone, EffectNone, h.
  - destruct Hg as (_ & t & -> & Ht). by exists (EffectChanged (VContainer (Struct f))), (EffectChanged t), h.
  - destruct Hg as (_ & t & st & -> & Ht & Hs & Hcl). pose proof (borrow_Ok statuses h s st Hs eq_refl) as Hb.
    cbn [into_effect is_mutated slot_pointers] in *. rewrite !(heap_bind _ _ _ _ _ Hb). destruct st.
    + destruct (counted_drop_pointers _ _ _ H) as (h' & E & C & M & _).
      exists EffectNone, EffectNone, h'. rewrite (heap_bind _ _ _ _ _ E). split_and!; try done. by apply Hcl.
    + destruct (counted_drop_pointers [s] h (f :: R)) as (h' & E & C & M & _).
      { cbn. by rewrite Permutation_swap. }
      exists (EffectChanged (VContainer (Struct f))), (EffectChanged t), h'.
      rewrite (heap_bind _ _ _ _ _ E). split_and!; try done. by apply (denotes_live h h' R).
  - destruct Hg as [_ ->]. by exists EffectDeleted, EffectDeleted, h.
Qed.

(** C22. After any sequence of loading, publishing, taking, borrowing and writing through
    references (and whatever else leaves the resource alone), the effect of a slot of
    global storage, applied to what was stored, gives the resource that the program sees
    in it; is_mutated tells whether there is an effect, and exists whether there is a
    resource. *)
Theorem global_effect_is_current (stored current : option tree) (h : Heap) (g : GlobalValueImpl) (R : list loc) :
  slot_run stored h g current → counted h (slot_pointers g ++ R) →
  exists_ g = bool_decide (is_Some current) ∧
  ∃ e te h', into_effect g h = Ok (e, h') ∧ counted h' (effect_pointers e ++ R) ∧
    effect_denotes h' e te ∧ apply_effect stored te = current ∧
    is_mutated g h = Ok (tree_of_effect te, h).
Proof.
  intros Hr%slot_run_rel H. split; [|by apply into_effect_spec].
  destruct g; cbn in *; destruct_and?; subst; try done; by naive_solver.
Qed.

(** A stored resource: loaded into a slot, then its field is written through a reference *)
Definition stored_heap : Heap :=
  {| cells := {[ 0 := {| strong := 1; content := CValues [VU64 7] |} ]}; next_loc := 1 |}.
Definition cached_heap : Heap :=
  {| cells := {[ 0 := {| strong := 1; content := CValues [VU64 7] |};
                 1 := {| strong := 1; content := CStatus Clean |} ]}; next_loc := 2 |}.
Definition written_heap : Heap :=
  {| cells := {[ 0 := {| strong := 1; content := CValues [VU64 8] |};
                 1 := {| strong := 1; content := CStatus Dirty |} ]}; next_loc := 2 |}.

Example global_effect_is_current_witness :
  let stored := Some (TStruct [TU64 7]) in
  slot_run stored written_heap (Cached 0 1) (Some (TStruct [TU64 8])) ∧
  ∃ e te h', into_effect (Cached 0 1) written_heap = Ok (e, h') ∧
    apply_effect stored te = Some (TStruct [TU64 8]).
Proof.
  cbv zeta.
  assert (slot_run (Some (TStruct [TU64 7])) written_heap (Cached 0 1) (Some (TStruct [TU64 8]))) as Hr.
  { apply (run_write _ resource_heap _ _ (Global 1 (Struct 0)) (write_ref field_reference (VU64 8))
      (Some (TStruct [TU64 7])) 0).
    - apply (run_other _ cached_heap).
      + apply (run_cached _ stored_heap _ (VContainer (Struct 0)) (TStruct [TU64 7])).
        * reflexivity.
        * exists 2%nat. vm_compute. reflexivity.
        * exists []. apply check_counted_sound. vm_compute. reflexivity.
        * vm_compute. reflexivity.
      + intros f t _ [n Hn]. exists n. exact Hn.
      + intros f s [= <- <-]. reflexivity.
    - reflexivity.
    - by constructor.
    - vm_compute. reflexivity.
    - exists []. apply check_counted_sound. vm_compute. reflexivity.
    - reflexivity.
    - exists 2%nat. vm_compute. reflexivity. }
  split; [exact Hr|].
  destruct (global_effect_is_current _ _ _ _ [] Hr) as (_ & e & te & h' & E & _ & _ & Ha & _).
  - apply check_counted_sound. vm_compute. reflexivity.
  - by exists e, te, h'.
Defined.
