(* ===== verification/Checks.v ===== *)
(** * Checks: checks that decide a property

    A pass of the verifier is a sequence of checks, each of which ends without a panic
    and succeeds exactly when the unit has some property; these lemmas compose them. *)

From S2P Require Import Prelude.

Section Decides.
Context {E : Type}.

(** The check ends without a panic and succeeds exactly when [P] holds. *)
Definition decides (r : result E unit) (P : Prop) : Prop := no_panic r ∧ (r = Ok tt ↔ P).

Lemma decides_ok (P : Prop) : P → decides (Ok tt) P.
Proof. by split. Qed.
Lemma decides_err e (P : Prop) : ¬ P → decides (Err e) P.
Proof. by split. Qed.
Lemma decides_iff r (P Q : Prop) : (P ↔ Q) → decides r P → decides r Q.
Proof. unfold decides. by intros <-. Qed.
Lemma decides_if (b : bool) e : decides (if b then Err e else Ok tt) (b = false).
Proof. destruct b; [by apply decides_err|by apply decides_ok]. Qed.
Lemma decides_if_not (b : bool) e : decides (if b then Ok tt else Err e) (b = true).
Proof. destruct b; [by apply decides_ok|by apply decides_err]. Qed.
Lemma decides_guard (b : bool) e k (Q : Prop) :
  (b = false → decides k Q) → decides (if b then Err e else k) (b = false ∧ Q).
Proof.
  destruct b; [intros _; apply decides_err; by intros []|]. intros H. eapply decides_iff; [|by apply H].
  naive_solver.
Qed.

Lemma decides_bind r k (P Q : Prop) :
  decides r P → (P → decides k Q) → decides (r ≫= λ _, k) (P ∧ Q).
Proof.
  intros [Hn Hr] Hk. destruct r as [[]|e| |]; try done.
  - destruct (Hk (proj1 Hr eq_refl)) as [Hn' Hr']. split; [done|]. cbn. rewrite Hr'. naive_solver.
  - apply decides_err. intros [HP _]. by apply Hr in HP.
Qed.
Lemma decides_Ok_bind {A} (r : result E A) k a (P : Prop) :
  r = Ok a → decides (k a) P → decides (r ≫= k) P.
Proof. by intros ->. Qed.

Lemma decides_for_each {A} (f : A → result E unit) (Q : A → Prop) l :
  (∀ x, x ∈ l → decides (f x) (Q x)) → decides (for_each f l) (Forall Q l).
Proof.
  intros H. split.
  - apply for_each_no_panic, Forall_forall. intros x Hx. apply (H x Hx).
  - rewrite for_each_Ok, !Forall_forall. split; intros Hl x Hx; by apply (H x Hx), Hl.
Qed.
Lemma elem_of_enumerate {A} (l : list A) i x : (i, x) ∈ enumerate l ↔ at_ l i = Some x.
Proof.
  unfold enumerate. rewrite elem_of_lookup_imap. unfold at_. split.
  - intros (j & y & [= -> ->] & Hj). by rewrite Nat2N.id.
  - intros Hx. exists (N.to_nat i), x. by rewrite N2Nat.id.
Qed.
Lemma decides_enumerate {A} (f : N * A → result E unit) (Q : A → Prop) l :
  (∀ i x, at_ l i = Some x → decides (f (i, x)) (Q x)) → decides (for_each f (enumerate l)) (Forall Q l).
Proof.
  intros H. pose proof (elem_of_enumerate l) as He.
  eapply decides_iff; [|apply (decides_for_each _ (λ p : N * A, Q p.2))].
  - rewrite !Forall_forall. split.
    + intros Hl x [i Hx]%list_elem_of_lookup. apply (Hl (N.of_nat i, x)), He. unfold at_. by rewrite Nat2N.id.
    + intros Hl [i x] Hx%He. cbn. apply Hl, list_elem_of_lookup. by exists (N.to_nat i).
  - intros [i x] Hx%He. by apply H.
Qed.
End Decides.

Lemma decides_map_err {E F} (g : E → F) r (P : Prop) : decides r P → decides (map_err g r) P.
Proof. unfold decides. destruct r as [[]| | |]; cbn; intros [Hn H]; split; try done; rewrite <- H; split; congruence. Qed.

#[export] Instance decides_proper {E} : Proper (eq ==> iff ==> iff) (@decides E).
Proof. intros r ? <- P Q HPQ. unfold decides. by rewrite HPQ. Qed.
