(* ===== verification/Duplication.v ===== *)
(** * Duplication: the entries of a unit are distinct

    Models [language/bytecode-verifier/src/check_duplication.rs] and proves that it
    accepts the units in bounds whose tables hold no entry twice, whose definitions
    belong to the module, and whose own handles are all defined. *)

From S2P Require Import Prelude CoreTypes VmStatus Abilities FileFormat Errors Deserializer RoundTrip Views BoundsChecker InBounds CheckedUnits.

#[export] Instance ModuleHandle_eq_dec : EqDecision ModuleHandle.
Proof. solve_decision. Defined.
#[export] Instance Constant_eq_dec : EqDecision Constant.
Proof. solve_decision. Defined.
#[export] Instance FieldHandle_eq_dec : EqDecision FieldHandle.
Proof. solve_decision. Defined.
#[export] Instance StructDefInstantiation_eq_dec : EqDecision StructDefInstantiation.
Proof. solve_decision. Defined.
#[export] Instance FunctionInstantiation_eq_dec : EqDecision FunctionInstantiation.
Proof. solve_decision. Defined.
#[export] Instance FieldInstantiation_eq_dec : EqDecision FieldInstantiation.
Proof. solve_decision. Defined.

(** ** The checks *)

(** [Self::first_duplicate_element]; [uniq] is the set of the elements seen. *)
Fixpoint first_duplicate_from {A} `{EqDecision A} (uniq : list A) (i : N) (iter : list A)
  : option TableIndex :=
  match iter with
  | [] => None
  | x :: iter =>
      if bool_decide (x ∈ uniq) then Some (wrap 16 i) else first_duplicate_from (x :: uniq) (i + 1) iter
  end.
Definition first_duplicate_element {A} `{EqDecision A} (iter : list A) : option TableIndex :=
  first_duplicate_from [] 0 iter.

(** [match o { Some(idx) => Err(verification_error(status, kind, idx)), None => Ok(()) }] *)
Definition reject (status : StatusCode) (kind : IndexKind) (o : option TableIndex)
  : result PartialVMError unit :=
  match o with Some idx => Err (verification_error status kind idx) | None => Ok tt end.

(** [iter.position(f)] of a predicate that may panic, [as TableIndex] *)
Fixpoint position_from {A} (f : A → result StatusCode bool) (i : N) (l : list A)
  : result PartialVMError (option TableIndex) :=
  match l with
  | [] => Ok None
  | x :: l => b ← map_err PartialVMError_new (f x);
              if b : bool then Ok (Some (wrap 16 i)) else position_from f (i + 1) l
  end.
Definition position {A} (f : A → result StatusCode bool) (l : list A)
  : result PartialVMError (option TableIndex) := position_from f 0 l.

Definition check_identifiers (identifiers : list Identifier) : result PartialVMError unit :=
  reject DUPLICATE_ELEMENT KIdentifier (first_duplicate_element identifiers).
Definition check_address_identifiers (address_identifiers : list AccountAddress)
  : result PartialVMError unit :=
  reject DUPLICATE_ELEMENT KAddressIdentifier (first_duplicate_element address_identifiers).
Definition check_constants (constant_pool : list Constant) : result PartialVMError unit :=
  reject DUPLICATE_ELEMENT KConstantPool (first_duplicate_element constant_pool).
Definition check_signatures (signatures : list Signature) : result PartialVMError unit :=
  reject DUPLICATE_ELEMENT KSignature (first_duplicate_element signatures).
Definition check_module_handles (module_handles : list ModuleHandle) : result PartialVMError unit :=
  reject DUPLICATE_ELEMENT KModuleHandle (first_duplicate_element module_handles).
Definition check_struct_handles (struct_handles : list StructHandle) : result PartialVMError unit :=
  reject DUPLICATE_ELEMENT KStructHandle
    (first_duplicate_element ((λ x, (sh_module x, sh_name x)) <$> struct_handles)).
Definition check_function_instantiations (function_instantiations : list FunctionInstantiation)
  : result PartialVMError unit :=
  reject DUPLICATE_ELEMENT KFunctionInstantiation (first_duplicate_element function_instantiations).
Definition check_function_handles (function_handles : list FunctionHandle)
  : result PartialVMError unit :=
  reject DUPLICATE_ELEMENT KFunctionHandle
    (first_duplicate_element ((λ x, (fh_module x, fh_name x)) <$> function_handles)).

(** ** Module only *)

Definition check_field_handles (module : CompiledModule) : result PartialVMError unit :=
  reject DUPLICATE_ELEMENT KFieldHandle (first_duplicate_element (m_field_handles module)).
Definition check_struct_instantiations (module : CompiledModule) : result PartialVMError unit :=
  reject DUPLICATE_ELEMENT KStructDefInstantiation
    (first_duplicate_element (m_struct_def_instantiations module)).
Definition check_field_instantiations (module : CompiledModule) : result PartialVMError unit :=
  reject DUPLICATE_ELEMENT KFieldInstantiation
    (first_duplicate_element (m_field_instantiations module)).

(** The fields of one struct of [check_struct_definitions] *)
Definition check_fields_of (p : N * StructDefinition) : result PartialVMError unit :=
  let '(struct_idx, struct_def) := p in
  match sd_field_information struct_def with
  | Native => Ok tt
  | Declared fields =>
      if is_empty fields
      then Err (verification_error ZERO_SIZED_STRUCT KStructDefinition (wrap 16 struct_idx))
      else reject DUPLICATE_ELEMENT KFieldDefinition (first_duplicate_element (fd_name <$> fields))
  end.

(** [(0..n)] *)
Definition indices (n : N) : list N := N.of_nat <$> seq 0 (N.to_nat n).

Definition check_struct_definitions (module : CompiledModule) : result PartialVMError unit :=
  let view := VModule module in
  _ ← reject DUPLICATE_ELEMENT KStructDefinition
        (first_duplicate_element (sd_struct_handle <$> m_struct_defs module));
  _ ← for_each check_fields_of (enumerate (m_struct_defs module));
  foreign ← position (λ x,
              sh ← struct_handle_at view (sd_struct_handle x);
              Ok (negb (sh_module sh =? m_self_module_handle_idx module))) (m_struct_defs module);
  _ ← reject INVALID_MODULE_HANDLE KStructDefinition foreign;
  let implemented_struct_handles := sd_struct_handle <$> m_struct_defs module in
  missing ← position (λ x,
              let y := wrap 16 x in
              sh ← struct_handle_at view y;
              Ok ((sh_module sh =? m_self_module_handle_idx module)
                  && negb (bool_decide (y ∈ implemented_struct_handles))))
              (indices (len (m_struct_handles module)));
  reject UNIMPLEMENTED_HANDLE KStructHandle missing.

(** The acquires of one function of [check_function_defintions] *)
Definition check_acquires_of (p : N * FunctionDefinition) : result PartialVMError unit :=
  let '(idx, function_def) := p in
  match first_duplicate_element (fdef_acquires_global_resources function_def) with
  | Some _ => Err (verification_error DUPLICATE_ACQUIRES_ANNOTATION KFunctionDefinition (wrap 16 idx))
  | None => Ok tt
  end.

Definition check_function_defintions (module : CompiledModule) : result PartialVMError unit :=
  let view := VModule module in
  _ ← reject DUPLICATE_ELEMENT KFunctionDefinition
        (first_duplicate_element (fdef_function <$> m_function_defs module));
  _ ← for_each check_acquires_of (enumerate (m_function_defs module));
  foreign ← position (λ x,
              fh ← function_handle_at view (fdef_function x);
              Ok (negb (fh_module fh =? m_self_module_handle_idx module))) (m_function_defs module);
  _ ← reject INVALID_MODULE_HANDLE KFunctionDefinition foreign;
  let implemented_function_handles := fdef_function <$> m_function_defs module in
  missing ← position (λ x,
              let y := wrap 16 x in
              fh ← function_handle_at view y;
              Ok ((fh_module fh =? m_self_module_handle_idx module)
                  && negb (bool_decide (y ∈ implemented_function_handles))))
              (indices (len (m_function_handles module)));
  reject UNIMPLEMENTED_HANDLE KFunctionHandle missing.

(** [verify_module_impl] and [verify_script_impl] *)
Definition duplication_verify_module (module : CompiledModule) : result PartialVMError unit :=
  _ ← check_identifiers (m_identifiers module);
  _ ← check_address_identifiers (m_address_identifiers module);
  _ ← check_constants (m_constant_pool module);
  _ ← check_signatures (m_signatures module);
  _ ← check_module_handles (m_module_handles module);
  _ ← check_module_handles (m_friend_decls module);
  _ ← check_struct_handles (m_struct_handles module);
  _ ← check_function_handles (m_function_handles module);
  _ ← check_function_instantiations (m_function_instantiations module);
  _ ← check_field_handles module;
  _ ← check_field_instantiations module;
  _ ← check_function_defintions module;
  _ ← check_struct_definitions module;
  check_struct_instantiations module.
Definition duplication_verify_script (script : CompiledScript) : result PartialVMError unit :=
  _ ← check_identifiers (s_identifiers script);
  _ ← check_address_identifiers (s_address_identifiers script);
  _ ← check_constants (s_constant_pool script);
  _ ← check_signatures (s_signatures script);
  _ ← check_module_handles (s_module_handles script);
  _ ← check_struct_handles (s_struct_handles script);
  _ ← check_function_handles (s_function_handles script);
  check_function_instantiations (s_function_instantiations script).

(** ** Specification *)

(** A module whose tables are free of duplicates and whose definitions are its own *)
Record distinct_module (m : CompiledModule) : Prop := {
  dm_identifiers : NoDup (m_identifiers m);
  dm_address_identifiers : NoDup (m_address_identifiers m);
  dm_constants : NoDup (m_constant_pool m);
  dm_signatures : NoDup (m_signatures m);
  dm_module_handles : NoDup (m_module_handles m);
  dm_friends : NoDup (m_friend_decls m);
  dm_struct_handles : NoDup ((λ h, (sh_module h, sh_name h)) <$> m_struct_handles m);
  dm_function_handles : NoDup ((λ h, (fh_module h, fh_name h)) <$> m_function_handles m);
  dm_function_instantiations : NoDup (m_function_instantiations m);
  dm_field_handles : NoDup (m_field_handles m);
  dm_field_instantiations : NoDup (m_field_instantiations m);
  dm_struct_instantiations : NoDup (m_struct_def_instantiations m);
  dm_function_defs : NoDup (fdef_function <$> m_function_defs m);
  dm_acquires : Forall (λ d, NoDup (fdef_acquires_global_resources d)) (m_function_defs m);
  dm_struct_defs : NoDup (sd_struct_handle <$> m_struct_defs m);
  dm_fields : Forall (λ d, ∀ fs, sd_field_information d = Declared fs →
    fs ≠ [] ∧ NoDup (fd_name <$> fs)) (m_struct_defs m);
  (** a struct or function of the module is defined, and only those are *)
  dm_structs_own : ∀ i h, at_ (m_struct_handles m) i = Some h →
    (sh_module h = m_self_module_handle_idx m ↔ i ∈ sd_struct_handle <$> m_struct_defs m);
  dm_functions_own : ∀ i h, at_ (m_function_handles m) i = Some h →
    (fh_module h = m_self_module_handle_idx m ↔ i ∈ fdef_function <$> m_function_defs m) }.

Lemma first_duplicate_spec {A} `{EqDecision A} (uniq : list A) i l :
  NoDup uniq → first_duplicate_from uniq i l = None ↔ NoDup (l ++ uniq).
Proof.
  revert uniq i; induction l as [|x l IH]; intros uniq i Hu; [done|]. cbn [first_duplicate_from].
  case_bool_decide as Hx.
  - split; [done|]. cbn. rewrite NoDup_cons, elem_of_app. tauto.
  - rewrite IH by (by constructor). by rewrite <- Permutation_middle.
Qed.
Lemma reject_first_duplicate {A} `{EqDecision A} status kind (l : list A) :
  reject status kind (first_duplicate_element l) = Ok tt ↔ NoDup l.
Proof.
  unfold first_duplicate_element. pose proof (first_duplicate_spec [] 0 l (NoDup_nil_2)) as H.
  rewrite app_nil_r in H. rewrite <- H. unfold reject. by destruct (first_duplicate_from [] 0 l).
Qed.
Lemma reject_no_panic status kind o : no_panic (reject status kind o).
Proof. by destruct o. Qed.

Lemma position_spec {A} (f : A → result StatusCode bool) (P : A → bool) l :
  (∀ x, x ∈ l → f x = Ok (P x)) →
  ∃ o, position f l = Ok o ∧ ∀ status kind, reject status kind o = Ok tt ↔ Forall (λ x, P x = false) l.
Proof.
  unfold position. generalize 0. induction l as [|x l IH]; intros i H.
  - exists None. split; [done|]. intros status kind. by split.
  - cbn [position_from]. rewrite H by by left. cbn [map_err mbind result_bind].
    destruct (P x) eqn:Hx.
    + eexists. split; [done|]. intros status kind. rewrite Forall_cons. split; [done|].
      intros [Hx' _]. congruence.
    + destruct (IH (i + 1)) as (o & Ho & Hs); [intros y Hy; apply H; by right|].
      exists o. split; [done|]. intros status kind. rewrite Forall_cons, Hs. naive_solver.
Qed.

Lemma enumerate_for_each {A} (f : N * A → result PartialVMError unit) (Q : A → Prop) l :
  (∀ i x, f (i, x) = Ok tt ↔ Q x) → for_each f (enumerate l) = Ok tt ↔ Forall Q l.
Proof.
  intros H. rewrite for_each_Ok. unfold enumerate. rewrite Forall_lookup, Forall_lookup.
  setoid_rewrite list_lookup_imap. split.
  - intros Hl i x Hx. apply (H (N.of_nat i)). apply (Hl i). by rewrite Hx.
  - intros Hl i p Hp. destruct (l !! i) as [x|] eqn:Hx; [|done]. injection Hp as <-. apply H. eauto.
Qed.

Lemma function_handle_at_Some v idx fh :
  unit_in_bounds v → at_ (view_function_handles v) idx = Some fh → function_handle_at v idx = Ok fh.
Proof.
  intros Hv Hh. destruct (function_handle_at_total _ Hv idx) as (h & Hf & _).
  { apply at_below. eauto. }
  rewrite Hf. unfold function_handle_at in Hf. rewrite Hh in Hf. cbn in Hf.
  unfold assumed_postcondition in Hf. destruct (module_only _ _); [by injection Hf as ->|done].
Qed.

Section Own.
(** The handles of a table, their modules, and the handles that the definitions define *)
Context {A : Type} (handles : list A) (owner : A → ModuleHandleIndex) (self : ModuleHandleIndex).
Context (get : N → result StatusCode A) (defined : list N).
Context (Hget : ∀ i h, at_ handles i = Some h → get i = Ok h) (Hdef : Forall (below handles) defined)
  (Hlen : len handles <= 65536).

Lemma own_spec :
  ∃ o1 o2, position (λ x, h ← get x; Ok (negb (owner h =? self))) defined = Ok o1 ∧
    position (λ x, let y := wrap 16 x in h ← get y;
      Ok ((owner h =? self) && negb (bool_decide (y ∈ defined)))) (indices (len handles)) = Ok o2 ∧
    ∀ s1 k1 s2 k2, reject s1 k1 o1 = Ok tt ∧ reject s2 k2 o2 = Ok tt ↔
      ∀ i h, at_ handles i = Some h → (owner h = self ↔ i ∈ defined).
Proof.
  set (own i := match at_ handles i with Some h => owner h =? self | None => false end).
  assert (∀ i, below handles i → ∃ h, at_ handles i = Some h ∧ get i = Ok h) as Hb.
  { intros i [h Hh]%at_below. eauto. }
  destruct (position_spec (λ x, h ← get x; Ok (negb (owner h =? self))) (λ i, negb (own i)) defined)
    as (o1 & H1 & S1).
  { intros i Hi. destruct (Hb i) as (h & Hh & Hg); [by eapply Forall_forall|].
    rewrite Hg. unfold own. by rewrite Hh. }
  destruct (position_spec (λ x, let y := wrap 16 x in h ← get y;
      Ok ((owner h =? self) && negb (bool_decide (y ∈ defined))))
    (λ i, own i && negb (bool_decide (i ∈ defined))) (indices (len handles))) as (o2 & H2 & S2).
  { intros i Hi. unfold indices in Hi. apply list_elem_of_fmap in Hi as (k & -> & Hk%elem_of_seq).
    rewrite len_to_nat in Hk. assert (below handles (N.of_nat k)) as Hlt by (unfold below, len; lia).
    assert (wrap 16 (N.of_nat k) = N.of_nat k) as Hw.
    { unfold wrap. apply N.mod_small. unfold below in Hlt. lia. }
    cbv zeta. rewrite Hw. destruct (Hb _ Hlt) as (h & Hh & Hg). rewrite Hg. unfold own. by rewrite Hh. }
  exists o1, o2. split_and!; [done|done|]. intros s1 k1 s2 k2. rewrite S1, S2, !Forall_forall.
  rewrite Forall_forall in Hdef. split.
  - intros [Ho Hm] i h Hh. specialize (Ho i). specialize (Hm i). unfold own in Ho, Hm. rewrite Hh in Ho, Hm.
    split.
    + intros Heq. apply N.eqb_eq in Heq. rewrite Heq in Hm. cbn in Hm.
      destruct (decide (i ∈ defined)) as [|Hn]; [done|]. exfalso. rewrite bool_decide_false in Hm by done.
      enough (true = false) by done. apply Hm. unfold indices. apply list_elem_of_fmap.
      exists (N.to_nat i). split; [lia|]. apply elem_of_seq. apply lookup_lt_Some in Hh. rewrite len_to_nat. lia.
    + intros Hi. apply N.eqb_eq. by destruct (owner h =? self); [|specialize (Ho Hi)].
  - intros H. split.
    + intros i Hi. destruct (Hb i (Hdef i Hi)) as (h & Hh & _). unfold own. rewrite Hh.
      apply negb_false_iff, N.eqb_eq. by apply (H i h Hh).
    + intros i Hi. unfold own. destruct (at_ handles i) as [h|] eqn:Hh; [|done].
      destruct (N.eqb_spec (owner h) self) as [He|]; [|done]. cbn.
      rewrite bool_decide_true; [done|]. by apply (H i h Hh).
Qed.
End Own.

Lemma position_fmap {A B} (f : B → result StatusCode bool) (g : A → B) i l :
  position_from (λ x, f (g x)) i l = position_from f i (g <$> l).
Proof.
  revert i; induction l as [|x l IH]; intros i; [done|]. cbn.
  destruct (map_err _ (f (g x))) as [b| | |]; try done. cbn. by destruct b.
Qed.

Definition tables_fit (m : CompiledModule) : Prop :=
  len (m_struct_handles m) <= 65536 ∧ len (m_function_handles m) <= 65536.

Lemma check_struct_definitions_spec m :
  module_in_bounds m → tables_fit m →
  no_panic (check_struct_definitions m) ∧
  (check_struct_definitions m = Ok tt ↔
   NoDup (sd_struct_handle <$> m_struct_defs m) ∧
   Forall (λ d, ∀ fs, sd_field_information d = Declared fs → fs ≠ [] ∧ NoDup (fd_name <$> fs)) (m_struct_defs m) ∧
   ∀ i h, at_ (m_struct_handles m) i = Some h →
     (sh_module h = m_self_module_handle_idx m ↔ i ∈ sd_struct_handle <$> m_struct_defs m)).
Proof.
  intros [_ Hm] [Hfit _].
  assert (Forall (below (m_struct_handles m)) (sd_struct_handle <$> m_struct_defs m)) as Hd.
  { rewrite Forall_fmap. eapply Forall_impl; [exact (ib_struct_defs _ Hm)|].
    intros d (sh & Hsh & _). apply at_below. eauto. }
  destruct (own_spec (m_struct_handles m) sh_module (m_self_module_handle_idx m)
    (struct_handle_at (VModule m)) _ (struct_handle_at_total _ Hm) Hd Hfit) as (o1 & o2 & H1 & H2 & Ho).
  unfold check_struct_definitions. cbv zeta.
  replace (position _ (m_struct_defs m)) with (Ok (E := PartialVMError) o1) by
    (symmetry; rewrite <- H1; apply (position_fmap (λ x, h ← struct_handle_at (VModule m) x;
       Ok (negb (sh_module h =? m_self_module_handle_idx m))) sd_struct_handle)).
  replace (position _ (indices _)) with (Ok (E := PartialVMError) o2) by (symmetry; exact H2).
  assert (∀ i d, check_fields_of (i, d) = Ok tt ↔ ∀ fs, sd_field_information d = Declared fs →
    fs ≠ [] ∧ NoDup (fd_name <$> fs)) as Hf.
  { intros i d. unfold check_fields_of. destruct (sd_field_information d) as [|fs]; [by split|].
    destruct fs as [|f fs]; [split; [done|]; intros H; by destruct (H [] eq_refl)|].
    cbn [is_empty]. rewrite reject_first_duplicate. split; [intros H fs' [= <-]; done|].
    intros H. by apply (H (f :: fs)). }
  split.
  - apply bind_no_panic; [apply reject_no_panic|intros _ _]. apply bind_no_panic.
    { apply for_each_no_panic, Forall_forall. intros [i d] _. unfold check_fields_of.
      destruct (sd_field_information d) as [|fs]; [done|]. destruct (is_empty fs); [done|apply reject_no_panic]. }
    intros _ _. cbn. apply bind_no_panic; [apply reject_no_panic|intros _ _]. apply reject_no_panic.
  - rewrite bind_unit_Ok, reject_first_duplicate, bind_unit_Ok, (enumerate_for_each _ _ _ Hf).
    cbn [mbind result_bind]. rewrite bind_unit_Ok. by rewrite Ho.
Qed.

Lemma check_function_defintions_spec m :
  module_in_bounds m → tables_fit m →
  no_panic (check_function_defintions m) ∧
  (check_function_defintions m = Ok tt ↔
   NoDup (fdef_function <$> m_function_defs m) ∧
   Forall (λ d, NoDup (fdef_acquires_global_resources d)) (m_function_defs m) ∧
   ∀ i h, at_ (m_function_handles m) i = Some h →
     (fh_module h = m_self_module_handle_idx m ↔ i ∈ fdef_function <$> m_function_defs m)).
Proof.
  intros [_ Hm] [_ Hfit].
  assert (Forall (below (m_function_handles m)) (fdef_function <$> m_function_defs m)) as Hd.
  { rewrite Forall_fmap. eapply Forall_impl; [exact (ib_function_defs _ Hm)|]. by intros d (H & _). }
  destruct (own_spec (m_function_handles m) fh_module (m_self_module_handle_idx m)
    (function_handle_at (VModule m)) _ (λ i h, function_handle_at_Some _ i h Hm) Hd Hfit)
    as (o1 & o2 & H1 & H2 & Ho).
  unfold check_function_defintions. cbv zeta.
  replace (position _ (m_function_defs m)) with (Ok (E := PartialVMError) o1) by
    (symmetry; rewrite <- H1; apply (position_fmap (λ x, h ← function_handle_at (VModule m) x;
       Ok (negb (fh_module h =? m_self_module_handle_idx m))) fdef_function)).
  replace (position _ (indices _)) with (Ok (E := PartialVMError) o2) by (symmetry; exact H2).
  assert (∀ i d, check_acquires_of (i, d) = Ok tt ↔ NoDup (fdef_acquires_global_resources d)) as Hf.
  { intros i d. unfold check_acquires_of.
    rewrite <- (reject_first_duplicate DUPLICATE_ELEMENT KFunctionDefinition (fdef_acquires_global_resources d)).
    by destruct (first_duplicate_element _). }
  split.
  - apply bind_no_panic; [apply reject_no_panic|intros _ _]. apply bind_no_panic.
    { apply for_each_no_panic, Forall_forall. intros [i d] _. unfold check_acquires_of. by case_match. }
    intros _ _. cbn. apply bind_no_panic; [apply reject_no_panic|intros _ _]. apply reject_no_panic.
  - rewrite bind_unit_Ok, reject_first_duplicate, bind_unit_Ok, (enumerate_for_each _ _ _ Hf).
    cbn [mbind result_bind]. rewrite bind_unit_Ok. by rewrite Ho.
Qed.

Lemma duplication_module_iff (m : CompiledModule) :
  module_in_bounds m → tables_fit m →
  duplication_verify_module m = Ok tt ↔ distinct_module m.
Proof.
  intros Hm Hfit. destruct (check_struct_definitions_spec m Hm Hfit) as [_ Hs].
  destruct (check_function_defintions_spec m Hm Hfit) as [_ Hf]. unfold duplication_verify_module.
  rewrite !bind_unit_Ok, Hs, Hf. unfold check_identifiers, check_address_identifiers, check_constants,
    check_signatures, check_module_handles, check_struct_handles, check_function_handles,
    check_function_instantiations, check_field_handles, check_field_instantiations,
    check_struct_instantiations. rewrite !reject_first_duplicate. split.
  - intros H. destruct_and!. by constructor.
  - intros []. by split_and!.
Qed.

(** On a module in bounds the duplication checker ends without a panic and accepts
    exactly the modules whose tables have no duplicates, whose definitions have distinct
    handles of the module itself, whose structs have at least one field with distinct
    names, and whose handles of the module are all defined. *)
Theorem duplication_verify_module_spec (m : CompiledModule) :
  module_in_bounds m → tables_fit m →
  no_panic (duplication_verify_module m) ∧
  (duplication_verify_module m = Ok tt ↔ distinct_module m).
Proof.
  intros Hm Hfit. split; [|by apply duplication_module_iff].
  unfold duplication_verify_module.
  do 11 (apply bind_no_panic; [apply reject_no_panic|intros _ _]).
  apply bind_no_panic; [by apply check_function_defintions_spec|intros _ _].
  apply bind_no_panic; [by apply check_struct_definitions_spec|intros _ _]. apply reject_no_panic.
Qed.

Lemma duplication_verify_module_spec_witness :
  no_panic (duplication_verify_module sample_module) ∧
  (duplication_verify_module sample_module = Ok tt ↔ distinct_module sample_module).
Proof.
  apply duplication_verify_module_spec; [apply verify_module_iff; by vm_compute|by split; vm_compute].
Defined.
