(* ===== verification/SignatureChecker.v ===== *)
(** * SignatureChecker: the types in signatures, fields and type arguments

    Models [language/bytecode-verifier/src/signature.rs]: references only at the top of
    a signature, type arguments that satisfy the constraints of their parameters, and
    phantom parameters in phantom positions.  Then [instruction_consistency.rs]: the
    generic form of an instruction takes a generic struct, field or function, the other
    form one without type parameters. *)

From S2P Require Import Prelude CoreTypes VmStatus Abilities FileFormat Errors Views BoundsChecker.

Import SignatureToken Bytecode.

(** [r?] of a result without the context of a [PartialVMError] *)
Definition partial {A} (r : result StatusCode A) : result PartialVMError A :=
  map_err PartialVMError_new r.

(** ** Types *)

(** [check_signature_token] and [check_signature_tokens] *)
Fixpoint check_signature_token (ty : SignatureToken) : result PartialVMError unit :=
  match ty with
  | U8 | U64 | U128 | Bool | Address | Signer | Struct _ | TypeParameter _ => Ok tt
  | Reference _ | MutableReference _ => Err (PartialVMError_new INVALID_SIGNATURE_TOKEN)
  | Vector ty => check_signature_token ty
  | StructInstantiation _ type_arguments =>
      (fix go (tys : list SignatureToken) : result PartialVMError unit :=
         match tys with
         | [] => Ok tt
         | ty :: tys => _ ← check_signature_token ty; go tys
         end) type_arguments
  end.
Definition check_signature_tokens (tys : list SignatureToken) : result PartialVMError unit :=
  for_each check_signature_token tys.

Section Checker.
Context (resolver : BinaryIndexedView).

(** [check_signature] *)
Definition check_signature (idx : SignatureIndex) : result PartialVMError unit :=
  tokens ← partial (signature_at resolver idx);
  for_each (λ token,
    match token with
    | Reference inner | MutableReference inner => check_signature_token inner
    | _ => check_signature_token token
    end) tokens.

(** [check_generic_instance] *)
Definition check_generic_instance (type_arguments : list SignatureToken)
    (constraints : list AbilitySet) (global_abilities : list AbilitySet)
  : result PartialVMError unit :=
  if negb (len type_arguments =? len constraints)
  then Err (PartialVMError_new NUMBER_OF_TYPE_ARGUMENTS_MISMATCH)
  else for_each (λ p : AbilitySet * SignatureToken,
    given ← partial (abilities resolver p.2 global_abilities);
    if negb (is_subset p.1 given) then Err (PartialVMError_new CONSTRAINT_NOT_SATISFIED)
    else Ok tt) (zip constraints type_arguments).

(** [check_type_instantiation] and [check_instantiation] *)
Definition check_type_instantiation (ty : SignatureToken) (type_parameters : list AbilitySet)
  : result PartialVMError unit :=
  match ty with
  | StructInstantiation idx type_arguments =>
      sh ← partial (struct_handle_at resolver idx);
      check_generic_instance type_arguments (type_param_constraints sh) type_parameters
  | _ => Ok tt
  end.
Definition check_instantiation (idx : SignatureIndex) (type_parameters : list AbilitySet)
  : result PartialVMError unit :=
  tokens ← partial (signature_at resolver idx);
  for_each (λ ty, check_type_instantiation ty type_parameters) tokens.

(** [check_phantom_params] *)
Fixpoint check_phantom_params (ty : SignatureToken) (is_phantom_pos : bool)
    (type_parameters : list StructTypeParameter) : result PartialVMError unit :=
  match ty with
  | Vector ty => check_phantom_params ty false type_parameters
  | StructInstantiation idx type_arguments =>
      sh ← partial (struct_handle_at resolver idx);
      (fix go (i : N) (tys : list SignatureToken) : result PartialVMError unit :=
         match tys with
         | [] => Ok tt
         | ty :: tys =>
             param ← unwrap (at_ (sh_type_parameters sh) i);
             _ ← check_phantom_params ty (stp_is_phantom param) type_parameters;
             go (i + 1) tys
         end) 0 type_arguments
  | TypeParameter idx =>
      param ← unwrap (at_ type_parameters idx);
      if stp_is_phantom param && negb is_phantom_pos
      then Err (PartialVMError_new INVALID_PHANTOM_TYPE_PARAM_POSITION) else Ok tt
  | Struct _ | Reference _ | MutableReference _ | Bool | U8 | U64 | U128 | Address | Signer => Ok tt
  end.

(** ** Code *)

(** The check of one instruction of [verify_code] *)
Definition check_instruction (type_parameters : list AbilitySet) (instr : Bytecode)
  : result PartialVMError unit :=
  match instr with
  | CallGeneric idx =>
      func_inst ← partial (function_instantiation_at resolver idx);
      func_handle ← partial (function_handle_at resolver (fi_handle func_inst));
      type_arguments ← partial (signature_at resolver (fi_type_parameters func_inst));
      _ ← check_signature_tokens type_arguments;
      check_generic_instance type_arguments (fh_type_parameters func_handle) type_parameters
  | PackGeneric idx | UnpackGeneric idx | ExistsGeneric idx | MoveFromGeneric idx
  | MoveToGeneric idx | ImmBorrowGlobalGeneric idx | MutBorrowGlobalGeneric idx =>
      struct_inst ← partial (struct_instantiation_at resolver idx);
      struct_def ← partial (struct_def_at resolver (sdi_def struct_inst));
      struct_handle ← partial (struct_handle_at resolver (sd_struct_handle struct_def));
      type_arguments ← partial (signature_at resolver (sdi_type_parameters struct_inst));
      _ ← check_signature_tokens type_arguments;
      check_generic_instance type_arguments (type_param_constraints struct_handle) type_parameters
  | ImmBorrowFieldGeneric idx | MutBorrowFieldGeneric idx =>
      field_inst ← partial (field_instantiation_at resolver idx);
      field_handle ← partial (field_handle_at resolver (fldi_handle field_inst));
      struct_def ← partial (struct_def_at resolver (fld_owner field_handle));
      struct_handle ← partial (struct_handle_at resolver (sd_struct_handle struct_def));
      type_arguments ← partial (signature_at resolver (fldi_type_parameters field_inst));
      _ ← check_signature_tokens type_arguments;
      check_generic_instance type_arguments (type_param_constraints struct_handle) type_parameters
  | VecPack idx _ | VecLen idx | VecImmBorrow idx | VecMutBorrow idx | VecPushBack idx
  | VecPopBack idx | VecUnpack idx _ | VecSwap idx =>
      type_arguments ← partial (signature_at resolver idx);
      if negb (len type_arguments =? 1)
      then Err (PartialVMError_new NUMBER_OF_TYPE_ARGUMENTS_MISMATCH)
      else check_signature_tokens type_arguments
  | Pop | Ret | Branch _ | BrTrue _ | BrFalse _ | LdU8 _ | LdU64 _ | LdU128 _ | LdConst _
  | CastU8 | CastU64 | CastU128 | LdTrue | LdFalse | Call _ | Pack _ | Unpack _ | ReadRef
  | WriteRef | FreezeRef | Add | Sub | Mul | Mod | Div | BitOr | BitAnd | Xor | Shl | Shr | Or
  | And | Not | Eq | Neq | Lt | Gt | Le | Ge | CopyLoc _ | MoveLoc _ | StLoc _
  | MutBorrowLoc _ | ImmBorrowLoc _ | MutBorrowField _ | ImmBorrowField _ | MutBorrowGlobal _
  | ImmBorrowGlobal _ | Exists _ | MoveTo _ | MoveFrom _ | Abort | Nop => Ok tt
  end.

(** [verify_code] *)
Definition verify_code (code : CodeUnit) (type_parameters : list AbilitySet)
  : result PartialVMError unit :=
  _ ← check_signature (cu_locals code);
  _ ← check_instantiation (cu_locals code) type_parameters;
  for_each (check_instruction type_parameters) (cu_code code).

(** [verify_code_units] *)
Definition verify_code_units (function_defs : list FunctionDefinition) : result PartialVMError unit :=
  for_each (λ p : N * FunctionDefinition,
    match fdef_code p.2 with
    | None => Ok tt
    | Some code =>
        func_handle ← partial (function_handle_at resolver (fdef_function p.2));
        map_err (λ err, at_index (at_index err KSignature (cu_locals code))
                          KFunctionDefinition (wrap 16 p.1))
          (verify_code code (fh_type_parameters func_handle))
    end) (enumerate function_defs).

(** ** Tables *)

(** [verify_signature_pool] *)
Definition verify_signature_pool (signatures : list Signature) : result PartialVMError unit :=
  for_each (λ i, check_signature (wrap 16 i)) (N.of_nat <$> seq 0 (length signatures)).

(** [verify_function_signatures] *)
Definition verify_function_signatures (function_handles : list FunctionHandle)
  : result PartialVMError unit :=
  for_each (λ p : N * FunctionHandle,
    let '(idx, fh) := p in
    let err_handler := map_err (λ err, at_index (at_index err KSignature (wrap 16 idx))
                                         KFunctionHandle (wrap 16 idx)) in
    _ ← err_handler (check_signature (fh_return fh));
    _ ← err_handler (check_instantiation (fh_return fh) (fh_type_parameters fh));
    _ ← err_handler (check_signature (fh_parameters fh));
    err_handler (check_instantiation (fh_parameters fh) (fh_type_parameters fh)))
    (enumerate function_handles).

(** The fields of one struct of [verify_fields] *)
Definition verify_fields_of (struct_def_idx : N) (struct_handle : StructHandle)
    (fields : list FieldDefinition) : result PartialVMError unit :=
  for_each (λ p : N * FieldDefinition,
    let '(field_offset, field_def) := p in
    let err_handler := map_err (λ err, at_index (at_index err KFieldDefinition (wrap 16 field_offset))
                                         KStructDefinition (wrap 16 struct_def_idx)) in
    _ ← err_handler (check_signature_token (fd_signature field_def));
    _ ← err_handler (check_type_instantiation (fd_signature field_def)
                       (type_param_constraints struct_handle));
    err_handler (check_phantom_params (fd_signature field_def) false
                   (sh_type_parameters struct_handle)))
    (enumerate fields).

(** [verify_fields] *)
Definition verify_fields (struct_defs : list StructDefinition) : result PartialVMError unit :=
  for_each (λ p : N * StructDefinition,
    match sd_field_information p.2 with
    | Native => Ok tt
    | Declared fields =>
        struct_handle ← partial (struct_handle_at resolver (sd_struct_handle p.2));
        verify_fields_of p.1 struct_handle fields
    end) (enumerate struct_defs).
End Checker.

(** [SignatureChecker::verify_module_impl] and [verify_script_impl] *)
Definition signature_verify_module (module : CompiledModule) : result PartialVMError unit :=
  let resolver := VModule module in
  _ ← verify_signature_pool resolver (m_signatures module);
  _ ← verify_function_signatures resolver (m_function_handles module);
  _ ← verify_fields resolver (m_struct_defs module);
  verify_code_units resolver (m_function_defs module).
Definition signature_verify_script (script : CompiledScript) : result PartialVMError unit :=
  let resolver := VScript script in
  _ ← verify_signature_pool resolver (s_signatures script);
  _ ← verify_function_signatures resolver (s_function_handles script);
  verify_code resolver (s_code script) (s_type_parameters script).

Import Bytecode.

(** [pub struct InstructionConsistency] *)
Record InstructionConsistency : Set := {
  ic_resolver : BinaryIndexedView;
  ic_current_function : option FunctionDefinitionIndex }.

Section Checker.
Context (self : InstructionConsistency).

(** [current_function] *)
Definition ic_current : FunctionDefinitionIndex := default 0 (ic_current_function self).

Definition mismatch (offset : N) : PartialVMError :=
  at_code_offset (PartialVMError_new GENERIC_MEMBER_OPCODE_MISMATCH) ic_current (wrap 16 offset).

Definition check_type_op (offset : N) (struct_def_index : StructDefinitionIndex) (generic : bool)
  : result PartialVMError unit :=
  struct_def ← partial (struct_def_at (ic_resolver self) struct_def_index);
  struct_handle ← partial (struct_handle_at (ic_resolver self) (sd_struct_handle struct_def));
  if Bool.eqb (is_empty (sh_type_parameters struct_handle)) generic
  then Err (mismatch offset) else Ok tt.

Definition check_field_op (offset : N) (field_handle_index : FieldHandleIndex) (generic : bool)
  : result PartialVMError unit :=
  field_handle ← partial (field_handle_at (ic_resolver self) field_handle_index);
  check_type_op offset (fld_owner field_handle) generic.

Definition check_function_op (offset : N) (func_handle_index : FunctionHandleIndex) (generic : bool)
  : result PartialVMError unit :=
  function_handle ← partial (function_handle_at (ic_resolver self) func_handle_index);
  if Bool.eqb (is_empty (fh_type_parameters function_handle)) generic
  then Err (mismatch offset) else Ok tt.

(** The body of the loop of [check_instructions] *)
Definition check_instruction_form (p : N * Bytecode) : result PartialVMError unit :=
  let '(offset, instr) := p in
  match instr with
  | MutBorrowField field_handle_index | ImmBorrowField field_handle_index =>
      check_field_op offset field_handle_index false
  | MutBorrowFieldGeneric field_inst_index | ImmBorrowFieldGeneric field_inst_index =>
      field_inst ← partial (field_instantiation_at (ic_resolver self) field_inst_index);
      check_field_op offset (fldi_handle field_inst) true
  | Call idx => check_function_op offset idx false
  | CallGeneric idx =>
      func_inst ← partial (function_instantiation_at (ic_resolver self) idx);
      check_function_op offset (fi_handle func_inst) true
  | Pack idx | Unpack idx | MutBorrowGlobal idx | ImmBorrowGlobal idx | Exists idx | MoveFrom idx
  | MoveTo idx => check_type_op offset idx false
  | PackGeneric idx | UnpackGeneric idx | MutBorrowGlobalGeneric idx | ImmBorrowGlobalGeneric idx
  | ExistsGeneric idx | MoveFromGeneric idx | MoveToGeneric idx =>
      struct_inst ← partial (struct_instantiation_at (ic_resolver self) idx);
      check_type_op offset (sdi_def struct_inst) true
  | FreezeRef | Pop | Ret | Branch _ | BrTrue _ | BrFalse _ | LdU8 _ | LdU64 _ | LdU128 _
  | LdConst _ | CastU8 | CastU64 | CastU128 | LdTrue | LdFalse | ReadRef | WriteRef | Add | Sub
  | Mul | Mod | Div | BitOr | BitAnd | Xor | Shl | Shr | Or | And | Not | Eq | Neq | Lt | Gt
  | Le | Ge | CopyLoc _ | MoveLoc _ | StLoc _ | MutBorrowLoc _ | ImmBorrowLoc _ | VecPack _ _
  | VecLen _ | VecImmBorrow _ | VecMutBorrow _ | VecPushBack _ | VecPopBack _ | VecUnpack _ _
  | VecSwap _ | Abort | Nop => Ok tt
  end.

(** [check_instructions] *)
Definition check_instructions (code : CodeUnit) : result PartialVMError unit :=
  for_each check_instruction_form (enumerate (cu_code code)).
End Checker.

(** [verify_module_impl] and [verify_script_impl] *)
Definition consistency_verify_module (module : CompiledModule) : result PartialVMError unit :=
  for_each (λ p : N * FunctionDefinition,
    match fdef_code p.2 with
    | None => Ok tt
    | Some code =>
        check_instructions {| ic_resolver := VModule module; ic_current_function := Some (wrap 16 p.1) |} code
    end) (enumerate (m_function_defs module)).
Definition consistency_verify_script (script : CompiledScript) : result PartialVMError unit :=
  check_instructions {| ic_resolver := VScript script; ic_current_function := None |} (s_code script).
