(* ===== verification/SignatureRules.v ===== *)
(** * SignatureRules: what the signature checker guarantees

    A declarative specification of well-formed types, and the proof that on a module in
    bounds [SignatureChecker] ends without a panic and accepts exactly the modules whose
    types are well formed.  Type arguments inside other types are not part of it: the
    checker compares only the arguments of the outermost type with their constraints. *)

From S2P Require Import Prelude Checks CoreTypes VmStatus Abilities FileFormat Errors Deserializer RoundTrip Views BoundsChecker InBounds CheckedUnits Duplication SignatureChecker.

Import SignatureToken Bytecode.

(** ** Specification *)

Section Spec.
Context (v : BinaryIndexedView).

(** No reference occurs in the type. *)
Definition no_references (t : SignatureToken) : Prop := all_nodes (λ u, is_reference u = false) t.
(** The type may be a reference, to a type without references. *)
Definition reference_at_top (t : SignatureToken) : Prop :=
  match t with Reference t | MutableReference t => no_references t | t => no_references t end.

(** The type arguments have the abilities that their constraints ask for. *)
Definition satisfies (globals constraints : list AbilitySet) (args : list SignatureToken) : Prop :=
  Forall2 (λ c t, ∃ a, abilities v t globals = Ok a ∧ is_subset c a = true) constraints args.
Definition instance_ok (globals : list AbilitySet) (t : SignatureToken) : Prop :=
  ∀ i ts sh, t = StructInstantiation i ts → at_ (view_struct_handles v) i = Some sh →
    satisfies globals (type_param_constraints sh) ts.

(** [strict pos t p]: type parameter [p] occurs outside of phantom positions in [t],
    which itself is in a phantom position if [pos]. *)
Inductive strict : bool → SignatureToken → TypeParameterIndex → Prop :=
| strict_param p : strict false (TypeParameter p) p
| strict_vector pos t p : strict false t p → strict pos (Vector t) p
| strict_inst pos i ts sh j t sp p :
    at_ (view_struct_handles v) i = Some sh → at_ ts j = Some t →
    at_ (sh_type_parameters sh) j = Some sp → strict (stp_is_phantom sp) t p →
    strict pos (StructInstantiation i ts) p.
Definition phantoms_ok (params : list StructTypeParameter) (pos : bool) (t : SignatureToken) : Prop :=
  ∀ p sp, strict pos t p → at_ params p = Some sp → stp_is_phantom sp = false.

(** The constraints of the type parameters of the member that an instruction uses *)
Definition member_constraints (i : Bytecode) (cs : list AbilitySet) : Prop :=
  match i with
  | CallGeneric idx =>
      ∃ fi h, at_ (view_function_instantiations v) idx = Some fi ∧
        at_ (view_function_handles v) (fi_handle fi) = Some h ∧ cs = fh_type_parameters h
  | PackGeneric idx | UnpackGeneric idx | ExistsGeneric idx | MoveFromGeneric idx
  | MoveToGeneric idx | ImmBorrowGlobalGeneric idx | MutBorrowGlobalGeneric idx =>
      ∃ si d sh, struct_instantiation_at v idx = Ok si ∧ struct_def_at v (sdi_def si) = Ok d ∧
        at_ (view_struct_handles v) (sd_struct_handle d) = Some sh ∧ cs = type_param_constraints sh
  | ImmBorrowFieldGeneric idx | MutBorrowFieldGeneric idx =>
      ∃ fi fh d sh, field_instantiation_at v idx = Ok fi ∧ field_handle_at v (fldi_handle fi) = Ok fh ∧
        struct_def_at v (fld_owner fh) = Ok d ∧
        at_ (view_struct_handles v) (sd_struct_handle d) = Some sh ∧ cs = type_param_constraints sh
  | _ => False
  end.
Definition is_vector_op (i : Bytecode) : bool :=
  match i with
  | VecPack _ _ | VecLen _ | VecImmBorrow _ | VecMutBorrow _ | VecPushBack _ | VecPopBack _
  | VecUnpack _ _ | VecSwap _ => true
  | _ => false
  end.
(** The type arguments of an instruction are types without references, one for a vector
    instruction and otherwise what the member asks for. *)
Definition instruction_types_ok (globals : list AbilitySet) (i : Bytecode) : Prop :=
  ∀ idx args, type_arguments_of v i = Some idx → at_ (view_signatures v) idx = Some args →
    (is_vector_op i = true → len args = 1) ∧ Forall no_references args ∧
    ∀ cs, member_constraints i cs → satisfies globals cs args.
Definition code_types_ok (globals : list AbilitySet) (c : CodeUnit) : Prop :=
  ∀ locals, at_ (view_signatures v) (cu_locals c) = Some locals →
    Forall reference_at_top locals ∧ Forall (instance_ok globals) locals ∧
    Forall (instruction_types_ok globals) (cu_code c).
Definition signature_types_ok (globals : list AbilitySet) (idx : SignatureIndex) : Prop :=
  ∀ ts, at_ (view_signatures v) idx = Some ts →
    Forall reference_at_top ts ∧ Forall (instance_ok globals) ts.
Definition handle_types_ok (h : FunctionHandle) : Prop :=
  signature_types_ok (fh_type_parameters h) (fh_return h) ∧
  signature_types_ok (fh_type_parameters h) (fh_parameters h).
Definition field_types_ok (d : StructDefinition) : Prop :=
  ∀ sh fields, at_ (view_struct_handles v) (sd_struct_handle d) = Some sh →
    sd_field_information d = Declared fields →
    Forall (λ f, no_references (fd_signature f) ∧
      instance_ok (type_param_constraints sh) (fd_signature f) ∧
      phantoms_ok (sh_type_parameters sh) false (fd_signature f)) fields.
Definition body_types_ok (d : FunctionDefinition) : Prop :=
  ∀ c h, fdef_code d = Some c → at_ (view_function_handles v) (fdef_function d) = Some h →
    code_types_ok (fh_type_parameters h) c.
End Spec.

(** The types of a module are well formed. *)
Record module_types_ok (m : CompiledModule) : Prop := {
  mt_pool : Forall (Forall reference_at_top) (m_signatures m);
  mt_handles : Forall (handle_types_ok (VModule m)) (m_function_handles m);
  mt_fields : Forall (field_types_ok (VModule m)) (m_struct_defs m);
  mt_code : Forall (body_types_ok (VModule m)) (m_function_defs m) }.

(** ** The checks decide the specification *)

Lemma signature_token_decides t : decides (check_signature_token t) (no_references t).
Proof.
  unfold no_references. induction t as [| | | | | |t IH|i|i ts IH|t IH|t IH|i] using token_ind;
    try (by apply decides_ok); try (by apply decides_err; intros []).
  - eapply decides_iff; [|exact IH]. cbn. naive_solver.
  - cbn [check_signature_token]. eapply (decides_iff _ (Forall (all_nodes (λ u, is_reference u = false)) ts)).
    { rewrite all_nodes_args. naive_solver. }
    induction IH as [|t ts Ht _ IHts]; [by apply decides_ok|].
    eapply decides_iff; [by rewrite Forall_cons|]. by apply decides_bind.
Qed.
Lemma signature_tokens_decides ts : decides (check_signature_tokens ts) (Forall no_references ts).
Proof. apply decides_for_each. intros t _. apply signature_token_decides. Qed.

Section Decide.
Context (v : BinaryIndexedView) (Hv : unit_in_bounds v).

Lemma signature_at_Some idx ts : at_ (view_signatures v) idx = Some ts → signature_at v idx = Ok ts.
Proof. unfold signature_at. by intros ->. Qed.

Lemma signature_decides idx ts :
  at_ (view_signatures v) idx = Some ts → decides (check_signature v idx) (Forall reference_at_top ts).
Proof.
  intros Hts. unfold check_signature. rewrite (signature_at_Some _ _ Hts). cbn [partial map_err mbind result_bind].
  apply decides_for_each. intros t _. destruct t; apply signature_token_decides.
Qed.

Lemma generic_instance_decides args constraints globals :
  Forall (type_in_bounds v) args → Forall (params_below (len globals)) args →
  decides (check_generic_instance v args constraints globals) (satisfies v globals constraints args).
Proof.
  intros Hb Hp. unfold check_generic_instance, satisfies. case_match eqn:Hn.
  { apply decides_err. intros H%Forall2_length. unfold len in Hn. lia. }
  assert (length constraints = length args) as Hl by (unfold len in Hn; lia). clear Hn.
  revert constraints Hl. induction Hb as [|t args Ht _ IH]; intros [|c constraints] Hl; try done.
  apply Forall_cons in Hp as [Hpt Hp]. cbn [zip zip_with]. rewrite for_each_cons.
  eapply decides_iff; [by rewrite Forall2_cons|]. apply decides_bind; [|intros _; apply IH; [done|by injection Hl]].
  destruct (abilities_total v t globals Hv Ht Hpt) as [a Ha]. cbn [fst snd]. rewrite Ha.
  cbn [partial map_err mbind result_bind]. destruct (is_subset c a) eqn:Hs.
  - apply decides_ok. eauto.
  - apply decides_err. intros (a' & [= <-] & Hs'). congruence.
Qed.

Lemma type_in_bounds_args i ts :
  type_in_bounds v (StructInstantiation i ts) →
  Forall (type_in_bounds v) ts ∧
  ∃ sh, at_ (view_struct_handles v) i = Some sh ∧ len (sh_type_parameters sh) = len ts.
Proof. unfold type_in_bounds. rewrite all_nodes_args. by intros [H Hts]. Qed.
Lemma params_below_args n i ts : params_below n (StructInstantiation i ts) → Forall (params_below n) ts.
Proof. unfold params_below. rewrite all_nodes_args. by intros [_ H]. Qed.

Lemma type_instantiation_decides t globals :
  type_in_bounds v t → params_below (len globals) t →
  decides (check_type_instantiation v t globals) (instance_ok v globals t).
Proof.
  intros Hb Hp. unfold check_type_instantiation, instance_ok. destruct t; try (apply decides_ok; congruence).
  apply type_in_bounds_args in Hb as (Hb & sh & Hsh & _). apply params_below_args in Hp.
  rewrite (struct_handle_at_total _ Hv _ _ Hsh). cbn [partial map_err mbind result_bind].
  eapply decides_iff; [|by apply generic_instance_decides]. split; [|naive_solver].
  intros H i' ts' sh' [= <- <-] Hsh'. congruence.
Qed.
Lemma instantiation_decides idx ts globals :
  at_ (view_signatures v) idx = Some ts → Forall (params_below (len globals)) ts →
  decides (check_instantiation v idx globals) (Forall (instance_ok v globals) ts).
Proof.
  intros Hts Hp. unfold check_instantiation. rewrite (signature_at_Some _ _ Hts).
  cbn [partial map_err mbind result_bind]. apply decides_for_each. intros t Ht.
  pose proof (Forall_lookup_1 _ _ _ _ (ib_signatures _ Hv) Hts) as Hb. rewrite Forall_forall in Hb, Hp.
  apply type_instantiation_decides; auto.
Qed.

Lemma phantom_decides t pos params :
  type_in_bounds v t → params_below (len params) t →
  decides (check_phantom_params v t pos params) (phantoms_ok v params pos t).
Proof.
  revert pos. induction t as [| | | | | |t IH|i|i ts IH|t _|t _|p] using token_ind; intros pos Hb Hp;
    try (apply decides_ok; intros ? ? H; by inversion H).
  - cbn [check_phantom_params]. eapply decides_iff; [|apply IH; [apply Hb|apply Hp]].
    unfold phantoms_ok. split; intros H q sp Hs; [inversion Hs; subst; by apply H|].
    apply H. by constructor.
  - apply type_in_bounds_args in Hb as (Hb & sh & Hsh & Hlen). apply params_below_args in Hp.
    cbn [check_phantom_params]. rewrite (struct_handle_at_total _ Hv _ _ Hsh). cbn [partial map_err mbind result_bind].
    apply (decides_iff _ (∀ j u sp, at_ ts j = Some u → at_ (sh_type_parameters sh) (0 + j) = Some sp →
      phantoms_ok v params (stp_is_phantom sp) u)).
    { split.
      - intros H q sp' Hs Hat. inversion Hs as [| |? ? ? sh' j u sp ? Hsh' Hu Hsp Hs']; subst.
        rewrite Hsh in Hsh'. injection Hsh' as <-. by apply (H j u sp Hu Hsp q).
      - intros H j u sp Hu Hsp q sp' Hs Hat. by apply (H q); [eapply strict_inst|]. }
    assert (0 + len ts <= len (sh_type_parameters sh)) as Hle by lia. clear Hlen.
    revert Hle. generalize 0. induction IH as [|u ts Hu _ IHts]; intros k Hle.
    { apply decides_ok. intros j u sp Hj. by destruct (N.to_nat j) eqn:E in Hj; unfold at_ in Hj; rewrite E in Hj. }
    apply Forall_cons in Hb as [Hbu Hb], Hp as [Hpu Hp]. rewrite len_cons in Hle.
    destruct (unwrap_at (E := PartialVMError) (sh_type_parameters sh) k) as (sp & Hun & Hsp); [unfold below; lia|].
    rewrite Hun. cbn [mbind result_bind].
    eapply decides_iff; [|apply decides_bind; [by apply Hu|intros _; apply (IHts Hb Hp (k + 1)); lia]]. split.
    + intros [H0 H] j u' sp' Hj Hsp'. destruct (decide (j = 0)) as [->|Hne].
      * injection Hj as <-. rewrite N.add_0_r, Hsp in Hsp'. by injection Hsp' as <-.
      * apply (H (j - 1) u' sp').
        -- revert Hj. unfold at_. by replace (N.to_nat j) with (S (N.to_nat (j - 1))) by lia.
        -- by replace (k + 1 + (j - 1)) with (k + j) by lia.
    + intros H. split; [apply (H 0 u sp); [done|by rewrite N.add_0_r]|].
      intros j u' sp' Hj Hsp'. apply (H (j + 1) u' sp').
      * unfold at_. by replace (N.to_nat (j + 1)) with (S (N.to_nat j)) by lia.
      * by replace (k + (j + 1)) with (k + 1 + j) by lia.
  - cbn [check_phantom_params]. destruct Hp as [Hp _].
    destruct (unwrap_at (E := PartialVMError) params p Hp) as (sp & -> & Hsp). cbn [mbind result_bind].
    eapply decides_iff; [|apply decides_if]. unfold phantoms_ok. split.
    + intros H q sp' Hs Hat. inversion Hs; subst. rewrite Hsp in Hat. injection Hat as <-.
      by rewrite andb_true_r in H.
    + intros H. destruct pos; [by rewrite andb_false_r|]. rewrite andb_true_r. by apply (H p); [constructor|].
Qed.
End Decide.

(** ** Modules *)

Section Module.
Context (m : CompiledModule) (Hm : unit_in_bounds (VModule m)).
Notation v := (VModule m).

Lemma struct_instantiation_below idx :
  below (m_struct_def_instantiations m) idx → ∃ si d sh args,
    at_ (m_struct_def_instantiations m) idx = Some si ∧ at_ (m_struct_defs m) (sdi_def si) = Some d ∧
    at_ (m_struct_handles m) (sd_struct_handle d) = Some sh ∧ at_ (m_signatures m) (sdi_type_parameters si) = Some args.
Proof.
  intros [si Hsi]%at_below. destruct (Forall_lookup_1 _ _ _ _ (ib_struct_instantiations _ Hm) Hsi) as [[d Hd]%at_below [a Ha]%at_below].
  destruct (Forall_lookup_1 _ _ _ _ (ib_struct_defs _ Hm) Hd) as (sh & Hsh & _). eauto 10.
Qed.
Lemma field_handle_below idx :
  below (m_field_handles m) idx → ∃ fh d sh, at_ (m_field_handles m) idx = Some fh ∧ field_handle_at v idx = Ok fh ∧
    at_ (m_struct_defs m) (fld_owner fh) = Some d ∧ at_ (m_struct_handles m) (sd_struct_handle d) = Some sh.
Proof.
  intros [fh Hfh]%at_below. pose proof (Forall_lookup_1 _ _ _ _ (ib_field_handles _ Hm) Hfh) as [Ho _].
  destruct (proj1 (at_below _ _) Ho) as [d Hd]. destruct (Forall_lookup_1 _ _ _ _ (ib_struct_defs _ Hm) Hd) as (sh & Hsh & _).
  exists fh, d, sh. split_and!; try done. unfold field_handle_at. rewrite Hfh. cbn.
  by rewrite (in_table_below (m_struct_defs m) _ Ho).
Qed.

Lemma arguments_decide idx args constraints globals :
  at_ (m_signatures m) idx = Some args → Forall (params_below (len globals)) args →
  decides (check_signature_tokens args ≫= λ _, check_generic_instance v args constraints globals)
    (Forall no_references args ∧ satisfies v globals constraints args).
Proof.
  intros Ha Hp. apply decides_bind; [apply signature_tokens_decides|intros _].
  apply generic_instance_decides; [done| |done]. exact (Forall_lookup_1 _ _ _ _ (ib_signatures _ Hm) Ha).
Qed.

(** The check of the type arguments of a member of known constraints *)
Lemma member_decides i idx args constraints globals :
  type_arguments_of v i = Some idx → is_vector_op i = false →
  at_ (m_signatures m) idx = Some args → type_arguments_below v (len globals) idx →
  (∀ cs, member_constraints v i cs ↔ cs = constraints) →
  decides (check_signature_tokens args ≫= λ _, check_generic_instance v args constraints globals)
    (instruction_types_ok v globals i).
Proof.
  intros Hi Hv Ha Hp Hc. eapply decides_iff; [|apply (arguments_decide idx); [done|by apply Hp]].
  unfold instruction_types_ok. rewrite Hi, Hv. split.
  - intros [Hr Hs] ? ? [= <-] Ha'. assert (args0 = args) as -> by (cbn in *; congruence). split_and!; [done..|].
    by intros cs ->%Hc.
  - intros H. destruct (H _ _ eq_refl Ha) as (_ & Hr & Hs). split; [done|]. by apply Hs, Hc.
Qed.
Lemma vector_decides i idx globals :
  type_arguments_of v i = Some idx → is_vector_op i = true → (∀ cs, ¬ member_constraints v i cs) →
  below (m_signatures m) idx →
  decides (type_arguments ← partial (signature_at v idx);
    if negb (len type_arguments =? 1) then Err (PartialVMError_new NUMBER_OF_TYPE_ARGUMENTS_MISMATCH)
    else check_signature_tokens type_arguments) (instruction_types_ok v globals i).
Proof.
  intros Hi Hv Hc [args Ha]%at_below. rewrite (signature_at_Some v _ _ Ha). cbn [partial map_err mbind result_bind].
  eapply decides_iff; [|apply decides_guard; intros _; apply signature_tokens_decides].
  unfold instruction_types_ok. rewrite Hi, Hv, negb_false_iff, N.eqb_eq. split.
  - intros [Hl Hr] ? ? [= <-] Ha'. assert (args0 = args) as -> by (cbn in *; congruence). split_and!; [done..|].
    by intros cs H%Hc.
  - intros H. destruct (H _ _ eq_refl Ha) as (Hl & Hr & _). auto.
Qed.

(** What the tables hold at the operand of a generic instruction *)
Lemma function_instantiation_below idx :
  below (m_function_instantiations m) idx → ∃ fi h args,
    at_ (m_function_instantiations m) idx = Some fi ∧ at_ (m_function_handles m) (fi_handle fi) = Some h ∧
    at_ (m_signatures m) (fi_type_parameters fi) = Some args.
Proof.
  intros [fi Hfi]%at_below.
  destruct (Forall_lookup_1 _ _ _ _ (ib_function_instantiations _ Hm) Hfi) as [[h Hh]%at_below [args Ha]%at_below].
  eauto 10.
Qed.
Lemma field_instantiation_below idx :
  below (m_field_instantiations m) idx → ∃ fi fh d sh args,
    at_ (m_field_instantiations m) idx = Some fi ∧ field_handle_at v (fldi_handle fi) = Ok fh ∧
    at_ (m_struct_defs m) (fld_owner fh) = Some d ∧ at_ (m_struct_handles m) (sd_struct_handle d) = Some sh ∧
    at_ (m_signatures m) (fldi_type_parameters fi) = Some args.
Proof.
  intros [fi Hfi]%at_below.
  destruct (Forall_lookup_1 _ _ _ _ (ib_field_instantiations _ Hm) Hfi) as [Hb [args Ha]%at_below].
  destruct (field_handle_below _ Hb) as (fh & d & sh & _ & Hfh & Hd & Hsh). by exists fi, fh, d, sh, args.
Qed.

Ltac known := repeat (match goal with
  | H : ?x = Ok _ |- context [?x] => rewrite H
  end; cbn [partial map_err mbind result_bind]).

(** Two results of one look-up are equal. *)
Ltac same H1 H2 := rewrite H2 in H1; injection H1 as <-.

Lemma call_decides idx globals :
  below (m_function_instantiations m) idx →
  (∀ i, type_arguments_of v (CallGeneric idx) = Some i → type_arguments_below v (len globals) i) →
  decides (check_instruction v globals (CallGeneric idx)) (instruction_types_ok v globals (CallGeneric idx)).
Proof.
  intros (fi & h & args & Hfi & Hh & Ha)%function_instantiation_below Ht.
  assert (type_arguments_of v (CallGeneric idx) = Some (fi_type_parameters fi)) as Hi by (cbn; by rewrite Hfi).
  pose proof (function_handle_at_Some v _ _ Hm Hh) as Hfh. pose proof (signature_at_Some v _ _ Ha) as Hs.
  assert (function_instantiation_at v idx = Ok fi) as Hf by (unfold function_instantiation_at; cbn; by rewrite Hfi).
  cbn [check_instruction]. known. apply (member_decides _ _ _ _ _ Hi); [done|done|by apply Ht|].
  cbn. rewrite Hfi. naive_solver.
Qed.
Lemma struct_decides i idx globals :
  i ∈ [PackGeneric idx; UnpackGeneric idx; ExistsGeneric idx; MoveFromGeneric idx; MoveToGeneric idx;
       ImmBorrowGlobalGeneric idx; MutBorrowGlobalGeneric idx] →
  below (m_struct_def_instantiations m) idx →
  (∀ j, type_arguments_of v i = Some j → type_arguments_below v (len globals) j) →
  decides (check_instruction v globals i) (instruction_types_ok v globals i).
Proof.
  intros Hin (si & d & sh & args & Hsi & Hd & Hsh & Ha)%struct_instantiation_below Ht.
  assert (type_arguments_of v i = Some (sdi_type_parameters si)) as Hi.
  { repeat (apply elem_of_cons in Hin as [->|Hin]; [cbn; by rewrite Hsi|]). by apply not_elem_of_nil in Hin. }
  pose proof (struct_handle_at_total v Hm _ _ Hsh) as Hst. pose proof (signature_at_Some v _ _ Ha) as Hs.
  assert (struct_instantiation_at v idx = Ok si) as Hf by (cbn; by rewrite Hsi).
  assert (struct_def_at v (sdi_def si) = Ok d) as Hdf by (cbn; by rewrite Hd).
  assert (∀ cs, member_constraints v i cs ↔ cs = type_param_constraints sh) as Hc.
  { intros cs. replace (member_constraints v i cs) with (member_constraints v (PackGeneric idx) cs) by
      (repeat (apply elem_of_cons in Hin as [->|Hin]; [done|]); by apply not_elem_of_nil in Hin).
    cbn [member_constraints view_struct_handles]. split; [|intros ->; eauto 10]. intros (? & ? & ? & H1 & H2 & H3 & ->).
    by same H1 Hf; same H2 Hdf; same H3 Hsh. }
  repeat (apply elem_of_cons in Hin as [->|Hin];
    [cbn [check_instruction]; known; by apply (member_decides _ _ _ _ _ Hi); [|done|apply Ht|]|]).
  by apply not_elem_of_nil in Hin.
Qed.
Lemma field_decides i idx globals :
  i ∈ [ImmBorrowFieldGeneric idx; MutBorrowFieldGeneric idx] →
  below (m_field_instantiations m) idx →
  (∀ j, type_arguments_of v i = Some j → type_arguments_below v (len globals) j) →
  decides (check_instruction v globals i) (instruction_types_ok v globals i).
Proof.
  intros Hin (fi & fh & d & sh & args & Hfi & Hfh & Hd & Hsh & Ha)%field_instantiation_below Ht.
  assert (type_arguments_of v i = Some (fldi_type_parameters fi)) as Hi.
  { repeat (apply elem_of_cons in Hin as [->|Hin]; [cbn; by rewrite Hfi|]). by apply not_elem_of_nil in Hin. }
  pose proof (struct_handle_at_total v Hm _ _ Hsh) as Hst. pose proof (signature_at_Some v _ _ Ha) as Hs.
  assert (field_instantiation_at v idx = Ok fi) as Hf by (cbn; by rewrite Hfi).
  assert (struct_def_at v (fld_owner fh) = Ok d) as Hdf by (cbn; by rewrite Hd).
  assert (∀ cs, member_constraints v i cs ↔ cs = type_param_constraints sh) as Hc.
  { intros cs. replace (member_constraints v i cs) with (member_constraints v (ImmBorrowFieldGeneric idx) cs) by
      (repeat (apply elem_of_cons in Hin as [->|Hin]; [done|]); by apply not_elem_of_nil in Hin).
    cbn [member_constraints view_struct_handles]. split; [|intros ->; eauto 10]. intros (? & ? & ? & ? & H1 & H0 & H2 & H3 & ->).
    by same H1 Hf; same H0 Hfh; same H2 Hdf; same H3 Hsh. }
  repeat (apply elem_of_cons in Hin as [->|Hin];
    [cbn [check_instruction]; known; by apply (member_decides _ _ _ _ _ Hi); [|done|apply Ht|]|]).
  by apply not_elem_of_nil in Hin.
Qed.

Lemma instruction_decides locals code_len globals i :
  bytecode_in_bounds v locals (len globals) code_len i →
  decides (check_instruction v globals i) (instruction_types_ok v globals i).
Proof.
  intros [Ho Ht].
  destruct i; try (apply decides_ok; intros ? ? Hn; discriminate Hn);
    cbn [operand_in_bounds opt_below view_field_instantiations view_struct_instantiations
      view_function_instantiations view_signatures] in Ho;
    try (apply vector_decides; [done|done|by intros ? []|done]);
    try (by apply call_decides).
  all: try (apply (field_decides _ a); [by repeat (first [by left|right])|done|done]).
  all: apply (struct_decides _ a); [by repeat (first [by left|right])|done|done].
Qed.

Lemma code_decides c globals parameters :
  code_in_bounds v c (len globals) parameters →
  decides (verify_code v c globals) (code_types_ok v globals c).
Proof.
  intros (locals & Hl & Hp & Hc). unfold verify_code.
  eapply decides_iff; [|apply decides_bind; [by apply signature_decides|intros _];
    apply decides_bind; [by apply (instantiation_decides v Hm)|intros _];
    apply decides_for_each; intros i Hi; eapply (instruction_decides _ _ globals)].
  - unfold code_types_ok. split; [|intros H; by apply H]. intros H l Hl'. rewrite Hl in Hl'. by injection Hl' as <-.
  - rewrite Forall_forall in Hc. by apply Hc.
Qed.

Lemma handle_decides idx h :
  function_handle_in_bounds v h →
  decides (let err_handler := map_err (λ err, at_index (at_index err KSignature (wrap 16 idx)) KFunctionHandle (wrap 16 idx)) in
    _ ← err_handler (check_signature v (fh_return h));
    _ ← err_handler (check_instantiation v (fh_return h) (fh_type_parameters h));
    _ ← err_handler (check_signature v (fh_parameters h));
    err_handler (check_instantiation v (fh_parameters h) (fh_type_parameters h))) (handle_types_ok v h).
Proof.
  intros (_ & _ & [ps Hps]%at_below & [rs Hrs]%at_below & Hp & Hr). cbv zeta.
  eapply decides_iff; [|apply decides_bind; [by apply decides_map_err, signature_decides|intros _];
    apply decides_bind; [by apply decides_map_err, (instantiation_decides v Hm), Hr|intros _];
    apply decides_bind; [by apply decides_map_err, signature_decides|intros _];
    by apply decides_map_err, (instantiation_decides v Hm), Hp].
  unfold handle_types_ok, signature_types_ok. split.
  - intros (H1 & H2 & H3 & H4). split; intros ts Hts; split; congruence.
  - intros [H1 H2]. destruct (H1 _ Hrs), (H2 _ Hps). auto.
Qed.

Lemma fields_decide idx d :
  struct_def_in_bounds v d →
  decides (match sd_field_information d with
    | Native => Ok tt
    | Declared fields =>
        struct_handle ← partial (struct_handle_at v (sd_struct_handle d));
        verify_fields_of v idx struct_handle fields
    end) (field_types_ok v d).
Proof.
  intros (sh & Hsh & Hf). unfold field_types_ok. destruct (sd_field_information d) as [|fields]; [by apply decides_ok|].
  rewrite (struct_handle_at_total v Hm _ _ Hsh). cbn [partial map_err mbind result_bind].
  eapply decides_iff; [|apply decides_enumerate; intros i f Hi; cbv zeta;
    destruct (Forall_lookup_1 _ _ _ _ Hf Hi) as (_ & Hb & Hp);
    apply decides_bind; [apply decides_map_err, signature_token_decides|intros _];
    apply decides_bind; [apply decides_map_err, (type_instantiation_decides v Hm)|intros _]].
  - split; [|naive_solver]. intros H sh' fs' Hsh' [= <-]. rewrite Hsh in Hsh'. injection Hsh' as <-. exact H.
  - done.
  - unfold type_param_constraints. unfold len. rewrite length_fmap. done.
  - by apply decides_map_err, phantom_decides.
Qed.

Lemma body_decides idx d :
  function_def_in_bounds v d →
  decides (match fdef_code d with
    | None => Ok tt
    | Some code =>
        func_handle ← partial (function_handle_at v (fdef_function d));
        map_err (λ err, at_index (at_index err KSignature (cu_locals code)) KFunctionDefinition (wrap 16 idx))
          (verify_code v code (fh_type_parameters func_handle))
    end) (body_types_ok v d).
Proof.
  intros (_ & _ & Hc). unfold body_types_ok. destruct (fdef_code d) as [c|]; [|by apply decides_ok].
  destruct (Hc c eq_refl) as (h & ps & ls & Hh & Hps & Hls & _ & Hin).
  rewrite (function_handle_at_Some v _ _ Hm Hh). cbn [partial map_err mbind result_bind].
  eapply decides_iff; [|by eapply decides_map_err, code_decides]. split; [|naive_solver].
  intros H c' h' [= <-] Hh'. rewrite Hh in Hh'. by injection Hh' as <-.
Qed.

Lemma pool_decides :
  len (m_signatures m) <= 65536 →
  decides (verify_signature_pool v (m_signatures m)) (Forall (Forall reference_at_top) (m_signatures m)).
Proof.
  intros Hn. apply (decides_iff _ (Forall (λ i, ∀ ts, at_ (m_signatures m) i = Some ts → Forall reference_at_top ts)
    (N.of_nat <$> seq 0 (length (m_signatures m))))).
  - rewrite Forall_fmap, Forall_seq, Forall_lookup. cbn. unfold at_. setoid_rewrite Nat2N.id. split.
    + intros H i ts Hi. apply (H i); [|done]. apply lookup_lt_Some in Hi. split; [lia|exact Hi].
    + intros H i _ ts. apply H.
  - apply decides_for_each. intros i (k & -> & Hk%elem_of_seq)%list_elem_of_fmap. unfold len in Hn.
    assert (wrap 16 (N.of_nat k) = N.of_nat k) as -> by (apply N.mod_small; lia).
    destruct (lookup_lt_is_Some_2 (m_signatures m) k) as [ts Hts]; [lia|].
    assert (at_ (m_signatures m) (N.of_nat k) = Some ts) as Hat by (unfold at_; by rewrite Nat2N.id).
    eapply decides_iff; [|by apply signature_decides]. split; [intros H ts' Hts'; congruence|auto].
Qed.

Lemma signature_module_decides :
  len (m_signatures m) <= 65536 → decides (signature_verify_module m) (module_types_ok m).
Proof.
  intros Hn. unfold signature_verify_module. cbv zeta.
  eapply decides_iff; [|apply decides_bind; [by apply pool_decides|intros _];
    apply decides_bind; [apply (decides_enumerate _ (handle_types_ok v)); intros i h Hh; apply (handle_decides i)|intros _];
    [|apply decides_bind; [apply (decides_enumerate _ (field_types_ok v)); intros i d Hd; apply (fields_decide i)|intros _];
      [|apply (decides_enumerate _ (body_types_ok v)); intros i d Hd; apply (body_decides i)]]].
  - split; [intros (? & ? & ? & ?); by constructor|by intros []].
  - exact (Forall_lookup_1 _ _ _ _ (ib_function_handles _ Hm) Hh).
  - exact (Forall_lookup_1 _ _ _ _ (ib_struct_defs _ Hm) Hd).
  - exact (Forall_lookup_1 _ _ _ _ (ib_function_defs _ Hm) Hd).
Qed.
End Module.



(** ** Type arguments below the top of a type

    Struct 0 asks for an argument that can be copied; struct 1 has no ability. *)

Definition nested_handle (parameters : SignatureIndex) : FunctionHandle :=
  {| fh_module := 0; fh_name := 0; fh_parameters := parameters; fh_return := 0; fh_type_parameters := [] |}.
Definition nested_module (parameter : SignatureToken) : CompiledModule :=
  {| m_version := 4; m_self_module_handle_idx := 0;
     m_module_handles := [ {| mh_address := 0; mh_name := 1 |} ];
     m_struct_handles :=
       [ {| sh_module := 0; sh_name := 1; sh_abilities := EMPTY;
            sh_type_parameters := [ {| stp_constraints := ability_bit Copy; stp_is_phantom := false |} ] |};
         {| sh_module := 0; sh_name := 2; sh_abilities := EMPTY; sh_type_parameters := [] |} ];
     m_function_handles := [ nested_handle 1 ]; m_field_handles := []; m_friend_decls := [];
     m_struct_def_instantiations := []; m_function_instantiations := []; m_field_instantiations := [];
     m_signatures := [ []; [parameter] ];
     m_identifiers := [ [102; 111; 111]; [77]; [83] ];
     m_address_identifiers := [ ZERO ]; m_constant_pool := [];
     m_struct_defs :=
       [ {| sd_struct_handle := 0;
            sd_field_information := Declared [ {| fd_name := 0; fd_signature := TypeParameter 0 |} ] |};
         {| sd_struct_handle := 1;
            sd_field_information := Declared [ {| fd_name := 0; fd_signature := U64 |} ] |} ];
     m_function_defs :=
       [ {| fdef_function := 0; fdef_visibility := Public; fdef_acquires_global_resources := [];
            fdef_code := None |} ] |}.
Definition ill_instantiated : SignatureToken := StructInstantiation 0 [Struct 1].

(** The signature checker rejects a parameter whose type is a struct with a type
    argument that lacks a required ability, but accepts the module when that type is the
    element of a vector or behind a reference. *)
Theorem signature_nested_unchecked :
  (∀ a, abilities (VModule (nested_module ill_instantiated)) (Struct 1) [] = Ok a → has_copy a = false) ∧
  signature_verify_module (nested_module ill_instantiated)
    = Err (at_index (at_index (PartialVMError_new CONSTRAINT_NOT_SATISFIED) KSignature 0) KFunctionHandle 0) ∧
  Forall (λ t, BoundsChecker.verify_module (nested_module t) = Ok tt ∧ duplication_verify_module (nested_module t) = Ok tt ∧
      signature_verify_module (nested_module t) = Ok tt)
    [Vector ill_instantiated; Reference ill_instantiated; MutableReference ill_instantiated].
Proof.
  split; [|split].
  - intros a H. vm_compute in H. by injection H as <-.
  - by vm_compute.
  - repeat (apply Forall_cons; split; [split_and!; by vm_compute|]). by apply Forall_nil.
Qed.

(** ** Instruction forms

    The generic form of an instruction goes with a member that has type parameters, the
    plain form with one that has none. *)

Section Forms.
Context (v : BinaryIndexedView).

Definition parameters_match {A} (generic : bool) (params : list A) : Prop :=
  if generic then params ≠ [] else params = [].
Definition type_matches (generic : bool) (idx : StructDefinitionIndex) : Prop :=
  ∃ d sh, struct_def_at v idx = Ok d ∧ at_ (view_struct_handles v) (sd_struct_handle d) = Some sh ∧
    parameters_match generic (sh_type_parameters sh).
Definition field_matches (generic : bool) (idx : FieldHandleIndex) : Prop :=
  ∃ fh, field_handle_at v idx = Ok fh ∧ type_matches generic (fld_owner fh).
Definition function_matches (generic : bool) (idx : FunctionHandleIndex) : Prop :=
  ∃ h, at_ (view_function_handles v) idx = Some h ∧ parameters_match generic (fh_type_parameters h).

Definition form_ok (i : Bytecode) : Prop :=
  match i with
  | MutBorrowField idx | ImmBorrowField idx => field_matches false idx
  | MutBorrowFieldGeneric idx | ImmBorrowFieldGeneric idx =>
      ∃ fi, field_instantiation_at v idx = Ok fi ∧ field_matches true (fldi_handle fi)
  | Call idx => function_matches false idx
  | CallGeneric idx =>
      ∃ fi, function_instantiation_at v idx = Ok fi ∧ function_matches true (fi_handle fi)
  | Pack idx | Unpack idx | MutBorrowGlobal idx | ImmBorrowGlobal idx | Exists idx | MoveFrom idx
  | MoveTo idx => type_matches false idx
  | PackGeneric idx | UnpackGeneric idx | MutBorrowGlobalGeneric idx | ImmBorrowGlobalGeneric idx
  | ExistsGeneric idx | MoveFromGeneric idx | MoveToGeneric idx =>
      ∃ si, struct_instantiation_at v idx = Ok si ∧ type_matches true (sdi_def si)
  | _ => True
  end.

Lemma mismatch_Ok {A} (generic : bool) (params : list A) (e : PartialVMError) :
  (if Bool.eqb (is_empty params) generic then Err e else Ok tt) = Ok tt → parameters_match generic params.
Proof. by destruct params, generic. Qed.
Lemma handle_at_Some {A} (l : list A) idx (c : A → bool) h :
  (handle ← unwrap (at_ l idx); assumed_postcondition (E := StatusCode) (c handle) handle) = Ok h → at_ l idx = Some h.
Proof. destruct (at_ l idx) as [x|]; [|done]. cbn. unfold assumed_postcondition. destruct (c x); [by intros [= ->]|done]. Qed.

Lemma check_type_op_matches ic offset idx generic :
  ic_resolver ic = v → check_type_op ic offset idx generic = Ok tt → type_matches generic idx.
Proof.
  intros He H. unfold check_type_op in H. rewrite He in H. apply bind_Ok in H as (d & Hd%map_err_Ok & H).
  apply bind_Ok in H as (sh & Hsh%map_err_Ok%handle_at_Some & H). exists d, sh. split_and!; [done..|by eapply mismatch_Ok].
Qed.
Lemma check_field_op_matches ic offset idx generic :
  ic_resolver ic = v → check_field_op ic offset idx generic = Ok tt → field_matches generic idx.
Proof.
  intros He H. unfold check_field_op in H. rewrite He in H. apply bind_Ok in H as (fh & Hf%map_err_Ok & H).
  exists fh. split; [done|by eapply check_type_op_matches].
Qed.
Lemma check_function_op_matches ic offset idx generic :
  ic_resolver ic = v → check_function_op ic offset idx generic = Ok tt → function_matches generic idx.
Proof.
  intros He H. unfold check_function_op in H. rewrite He in H. apply bind_Ok in H as (h & Hh%map_err_Ok%handle_at_Some & H).
  exists h. split; [done|by eapply mismatch_Ok].
Qed.
Lemma check_instruction_form_ok ic offset i :
  ic_resolver ic = v → check_instruction_form ic (offset, i) = Ok tt → form_ok i.
Proof.
  intros He H. destruct i; try done; cbn [check_instruction_form] in H.
  all: try (by eapply check_field_op_matches); try (by eapply check_function_op_matches); try (by eapply check_type_op_matches).
  all: rewrite He in H; apply bind_Ok in H as (x & Hx%map_err_Ok & H); exists x.
  all: split; [exact Hx|]; by first [eapply check_field_op_matches|eapply check_function_op_matches|eapply check_type_op_matches].
Qed.
Lemma check_instructions_ok ic code : ic_resolver ic = v → check_instructions ic code = Ok tt → Forall form_ok (cu_code code).
Proof.
  intros He H. unfold check_instructions in H. rewrite for_each_Ok, Forall_forall in H.
  apply Forall_lookup. intros k i Hk. eapply (check_instruction_form_ok ic (N.of_nat k)); [done|].
  apply H, list_elem_of_lookup. exists k. by apply enumerate_Some.
Qed.
End Forms.

Lemma consistency_module_forms m def c :
  consistency_verify_module m = Ok tt → def ∈ m_function_defs m → fdef_code def = Some c → Forall (form_ok (VModule m)) (cu_code c).
Proof.
  intros H Hin Hc. unfold consistency_verify_module in H. rewrite for_each_Ok, Forall_forall in H.
  apply list_elem_of_lookup in Hin as [k Hk].
  assert ((N.of_nat k, def) ∈ enumerate (m_function_defs m)) as He by (apply list_elem_of_lookup; exists k; by apply enumerate_Some).
  specialize (H _ He). cbn in H. rewrite Hc in H. eapply check_instructions_ok; [|exact H]; done.
Qed.
