(* ===== verification/TypeSafety.v ===== *)
(** * TypeSafety: the types of the operands of every instruction

    Models [language/bytecode-verifier/src/type_safety.rs]: the stack of types that each
    block of a function builds up and takes down, from the first block to the last.
    The stack is a list whose head is the top. *)

From S2P Require Import Prelude CoreTypes VmStatus Abilities FileFormat Errors Views BoundsChecker ControlFlowGraph ControlFlow StackUsage SignatureChecker.

Import SignatureToken Bytecode.

(** ** Types *)

(** [materialize_type] *)
Definition materialize_type (struct_handle : StructHandleIndex) (type_args : Signature)
  : SignatureToken :=
  if is_empty type_args then Struct struct_handle else StructInstantiation struct_handle type_args.

(** [instantiate]; a type parameter without an argument is an index out of range. *)
Fixpoint instantiate (token : SignatureToken) (subst : Signature)
  : result PartialVMError SignatureToken :=
  match token with
  | Bool => Ok Bool
  | U8 => Ok U8
  | U64 => Ok U64
  | U128 => Ok U128
  | Address => Ok Address
  | Signer => Ok Signer
  | Vector ty => ty ← instantiate ty subst; Ok (Vector ty)
  | Struct idx => Ok (Struct idx)
  | StructInstantiation idx struct_type_args =>
      args ← collect (λ ty, instantiate ty subst) struct_type_args;
      Ok (StructInstantiation idx args)
  | Reference ty => ty ← instantiate ty subst; Ok (Reference ty)
  | MutableReference ty => ty ← instantiate ty subst; Ok (MutableReference ty)
  | TypeParameter idx => unwrap (at_ subst idx)
  end.

(** [get_vector_element_type] *)
Definition get_vector_element_type (vector_ref_ty : SignatureToken) (mut_ref_only : bool)
  : option SignatureToken :=
  match vector_ref_ty with
  | Reference referred_type =>
      if mut_ref_only then None
      else match referred_type with Vector element_type => Some element_type | _ => None end
  | MutableReference referred_type =>
      match referred_type with Vector element_type => Some element_type | _ => None end
  | _ => None
  end.

(** ** [struct TypeSafetyChecker] *)

Record TypeSafetyChecker : Set := {
  ts_resolver : BinaryIndexedView;
  ts_function_view : FunctionView }.

Notation stack := (list SignatureToken) (only parsing).

(** [verifier.stack.pop().unwrap()] *)
Definition pop_type (s : stack) : result PartialVMError (SignatureToken * stack) :=
  match s with [] => Panic | ty :: s => Ok (ty, s) end.

(** [if c { return Err(..) }] *)
Definition ensure (c : bool) (e : PartialVMError) : result PartialVMError unit :=
  if c then Ok tt else Err e.

Section Checker.
Context (verifier : TypeSafetyChecker).
Notation resolver := (ts_resolver verifier).
Notation fv := (ts_function_view verifier).

(** [Locals::local_at] *)
Definition local_at (i : LocalIndex) : result PartialVMError SignatureToken :=
  let param_count := len (fv_parameters fv) in
  if i <? param_count then unwrap (at_ (fv_parameters fv) i)
  else unwrap (at_ (fv_locals fv) (i - param_count)).

(** [TypeSafetyChecker::abilities] *)
Definition type_abilities (t : SignatureToken) : result PartialVMError AbilitySet :=
  partial (abilities resolver t (fv_type_parameters fv)).

(** [TypeSafetyChecker::error] *)
Definition type_error (status : StatusCode) (offset : CodeOffset) : PartialVMError :=
  at_code_offset (PartialVMError_new status) (default 0 (fv_index fv)) offset.

(** Popping operands that must have the given types, the last one first *)
Fixpoint pop_types (offset : CodeOffset) (status : StatusCode) (expected : list (result PartialVMError SignatureToken))
    (s : stack) : result PartialVMError stack :=
  match expected with
  | [] => Ok s
  | ty :: expected =>
      '(arg, s) ← pop_type s;
      ty ← ty;
      if bool_decide (arg = ty) then pop_types offset status expected s
      else Err (type_error status offset)
  end.

Definition push_types (types : list SignatureToken) (s : stack) : stack := reverse types ++ s.

(** [borrow_field] *)
Definition ts_borrow_field (offset : CodeOffset) (mut_ : bool) (field_handle_index : FieldHandleIndex)
    (type_args : Signature) (s : stack) : result PartialVMError stack :=
  '(operand, s) ← pop_type s;
  if mut_ && negb (is_mutable_reference operand)
  then Err (type_error BORROWFIELD_TYPE_MISMATCH_ERROR offset) else
  field_handle ← partial (field_handle_at resolver field_handle_index);
  struct_def ← partial (struct_def_at resolver (fld_owner field_handle));
  let expected_type := materialize_type (sd_struct_handle struct_def) type_args in
  _ ← ensure match operand with
             | Reference inner | MutableReference inner => bool_decide (expected_type = inner)
             | _ => false
             end (type_error BORROWFIELD_TYPE_MISMATCH_ERROR offset);
  match sd_field_information struct_def with
  | Native => Err (type_error BORROWFIELD_BAD_FIELD_ERROR offset)
  | Declared fields =>
      field_def ← unwrap (at_ fields (fld_field field_handle));
      field_type ← instantiate (fd_signature field_def) type_args;
      Ok ((if mut_ then MutableReference field_type else Reference field_type) :: s)
  end.

(** [borrow_loc] *)
Definition ts_borrow_loc (offset : CodeOffset) (mut_ : bool) (idx : LocalIndex) (s : stack)
  : result PartialVMError stack :=
  loc_signature ← local_at idx;
  if is_reference loc_signature then Err (type_error BORROWLOC_REFERENCE_ERROR offset)
  else Ok ((if mut_ then MutableReference loc_signature else Reference loc_signature) :: s).

(** [borrow_global] *)
Definition ts_borrow_global (offset : CodeOffset) (mut_ : bool) (idx : StructDefinitionIndex)
    (type_args : Signature) (s : stack) : result PartialVMError stack :=
  '(operand, s) ← pop_type s;
  _ ← ensure (bool_decide (operand = Address)) (type_error BORROWGLOBAL_TYPE_MISMATCH_ERROR offset);
  struct_def ← partial (struct_def_at resolver idx);
  let struct_type := materialize_type (sd_struct_handle struct_def) type_args in
  a ← type_abilities struct_type;
  _ ← ensure (has_key a) (type_error BORROWGLOBAL_WITHOUT_KEY_ABILITY offset);
  Ok ((if mut_ then MutableReference struct_type else Reference struct_type) :: s).

(** [call] *)
Definition ts_call (offset : CodeOffset) (function_handle : FunctionHandle) (type_actuals : Signature)
    (s : stack) : result PartialVMError stack :=
  parameters ← partial (signature_at resolver (fh_parameters function_handle));
  s ← pop_types offset CALL_TYPE_MISMATCH_ERROR
        ((λ parameter, instantiate parameter type_actuals) <$> reverse parameters) s;
  return_ ← partial (signature_at resolver (fh_return function_handle));
  types ← collect (λ return_type, instantiate return_type type_actuals) return_;
  Ok (push_types types s).

(** [type_fields_signature] *)
Definition type_fields_signature (offset : CodeOffset) (struct_def : StructDefinition)
    (type_args : Signature) : result PartialVMError Signature :=
  match sd_field_information struct_def with
  | Native => Err (type_error PACK_TYPE_MISMATCH_ERROR offset)
  | Declared fields => collect (λ field_def, instantiate (fd_signature field_def) type_args) fields
  end.

(** [pack] *)
Definition ts_pack (offset : CodeOffset) (struct_def : StructDefinition) (type_args : Signature)
    (s : stack) : result PartialVMError stack :=
  let struct_type := materialize_type (sd_struct_handle struct_def) type_args in
  field_sig ← type_fields_signature offset struct_def type_args;
  s ← pop_types offset PACK_TYPE_MISMATCH_ERROR (Ok <$> reverse field_sig) s;
  Ok (struct_type :: s).

(** [unpack] *)
Definition ts_unpack (offset : CodeOffset) (struct_def : StructDefinition) (type_args : Signature)
    (s : stack) : result PartialVMError stack :=
  let struct_type := materialize_type (sd_struct_handle struct_def) type_args in
  '(arg, s) ← pop_type s;
  _ ← ensure (bool_decide (arg = struct_type)) (type_error UNPACK_TYPE_MISMATCH_ERROR offset);
  field_sig ← type_fields_signature offset struct_def type_args;
  Ok (push_types field_sig s).

(** [exists] *)
Definition ts_exists (offset : CodeOffset) (struct_def : StructDefinition) (type_args : Signature)
    (s : stack) : result PartialVMError stack :=
  let struct_type := materialize_type (sd_struct_handle struct_def) type_args in
  a ← type_abilities struct_type;
  _ ← ensure (has_key a) (type_error EXISTS_WITHOUT_KEY_ABILITY_OR_BAD_ARGUMENT offset);
  '(operand, s) ← pop_type s;
  _ ← ensure (bool_decide (operand = Address))
        (type_error EXISTS_WITHOUT_KEY_ABILITY_OR_BAD_ARGUMENT offset);
  Ok (Bool :: s).

(** [move_from] *)
Definition ts_move_from (offset : CodeOffset) (struct_def : StructDefinition) (type_args : Signature)
    (s : stack) : result PartialVMError stack :=
  let struct_type := materialize_type (sd_struct_handle struct_def) type_args in
  a ← type_abilities struct_type;
  _ ← ensure (has_key a) (type_error MOVEFROM_WITHOUT_KEY_ABILITY offset);
  '(operand, s) ← pop_type s;
  _ ← ensure (bool_decide (operand = Address)) (type_error MOVEFROM_TYPE_MISMATCH_ERROR offset);
  Ok (struct_type :: s).

(** [move_to] *)
Definition ts_move_to (offset : CodeOffset) (struct_def : StructDefinition) (type_args : Signature)
    (s : stack) : result PartialVMError stack :=
  let struct_type := materialize_type (sd_struct_handle struct_def) type_args in
  a ← type_abilities struct_type;
  _ ← ensure (has_key a) (type_error MOVETO_WITHOUT_KEY_ABILITY offset);
  '(key_struct_operand, s) ← pop_type s;
  '(signer_reference_operand, s) ← pop_type s;
  _ ← ensure (bool_decide (key_struct_operand = struct_type))
        (type_error MOVETO_TYPE_MISMATCH_ERROR offset);
  match signer_reference_operand with
  | Reference Signer => Ok s
  | _ => Err (type_error MOVETO_TYPE_MISMATCH_ERROR offset)
  end.

(** A reference to a vector of the declared element type *)
Definition is_vector_of (operand_vec declared_element_type : SignatureToken) (mut_ref_only : bool) : bool :=
  bool_decide (get_vector_element_type operand_vec mut_ref_only = Some declared_element_type).

(** [borrow_vector_element] *)
Definition borrow_vector_element (declared_element_type : SignatureToken) (offset : CodeOffset)
    (mut_ref_only : bool) (s : stack) : result PartialVMError stack :=
  '(operand_idx, s) ← pop_type s;
  '(operand_vec, s) ← pop_type s;
  _ ← ensure (bool_decide (operand_idx = U64)) (type_error TYPE_MISMATCH offset);
  _ ← ensure (is_vector_of operand_vec declared_element_type mut_ref_only)
        (type_error TYPE_MISMATCH offset);
  Ok ((if mut_ref_only then MutableReference declared_element_type
       else Reference declared_element_type) :: s).

(** The element type that a vector instruction declares *)
Definition declared_element (idx : SignatureIndex) : result PartialVMError SignatureToken :=
  sig ← partial (signature_at resolver idx);
  unwrap (at_ sig 0).

Definition cast_to (ty : SignatureToken) (offset : CodeOffset) (s : stack) : result PartialVMError stack :=
  '(operand, s) ← pop_type s;
  _ ← ensure (is_integer operand) (type_error INTEGER_OP_TYPE_MISMATCH_ERROR offset);
  Ok (ty :: s).

(** The definition and the type arguments of an instantiated struct *)
Definition instance_of (idx : StructDefInstantiationIndex) : result PartialVMError (StructDefinition * Signature) :=
  struct_inst ← partial (struct_instantiation_at resolver idx);
  struct_def ← partial (struct_def_at resolver (sdi_def struct_inst));
  type_args ← partial (signature_at resolver (sdi_type_parameters struct_inst));
  Ok (struct_def, type_args).

(** [verify_instr] *)
Definition verify_instr (bytecode : Bytecode) (offset : CodeOffset) (s : stack)
  : result PartialVMError stack :=
  match bytecode with
  | Pop =>
      '(operand, s) ← pop_type s;
      a ← type_abilities operand;
      _ ← ensure (has_drop a) (type_error POP_WITHOUT_DROP_ABILITY offset);
      Ok s
  | BrTrue _ | BrFalse _ =>
      '(operand, s) ← pop_type s;
      _ ← ensure (bool_decide (operand = Bool)) (type_error BR_TYPE_MISMATCH_ERROR offset);
      Ok s
  | StLoc idx =>
      '(operand, s) ← pop_type s;
      ty ← local_at idx;
      _ ← ensure (bool_decide (operand = ty)) (type_error STLOC_TYPE_MISMATCH_ERROR offset);
      Ok s
  | Abort =>
      '(operand, s) ← pop_type s;
      _ ← ensure (bool_decide (operand = U64)) (type_error ABORT_TYPE_MISMATCH_ERROR offset);
      Ok s
  | Ret => pop_types offset RET_TYPE_MISMATCH_ERROR (Ok <$> reverse (fv_return fv)) s
  | Branch _ | Nop => Ok s
  | FreezeRef =>
      '(operand, s) ← pop_type s;
      match operand with
      | MutableReference inner => Ok (Reference inner :: s)
      | _ => Err (type_error FREEZEREF_TYPE_MISMATCH_ERROR offset)
      end
  | MutBorrowField field_handle_index => ts_borrow_field offset true field_handle_index [] s
  | MutBorrowFieldGeneric field_inst_index =>
      field_inst ← partial (field_instantiation_at resolver field_inst_index);
      type_inst ← partial (signature_at resolver (fldi_type_parameters field_inst));
      ts_borrow_field offset true (fldi_handle field_inst) type_inst s
  | ImmBorrowField field_handle_index => ts_borrow_field offset false field_handle_index [] s
  | ImmBorrowFieldGeneric field_inst_index =>
      field_inst ← partial (field_instantiation_at resolver field_inst_index);
      type_inst ← partial (signature_at resolver (fldi_type_parameters field_inst));
      ts_borrow_field offset false (fldi_handle field_inst) type_inst s
  | LdU8 _ => Ok (U8 :: s)
  | LdU64 _ => Ok (U64 :: s)
  | LdU128 _ => Ok (U128 :: s)
  | LdConst idx => c ← partial (constant_at resolver idx); Ok (const_type c :: s)
  | LdTrue | LdFalse => Ok (Bool :: s)
  | CopyLoc idx =>
      local_signature ← local_at idx;
      a ← type_abilities local_signature;
      _ ← ensure (has_copy a) (type_error COPYLOC_WITHOUT_COPY_ABILITY offset);
      Ok (local_signature :: s)
  | MoveLoc idx => local_signature ← local_at idx; Ok (local_signature :: s)
  | MutBorrowLoc idx => ts_borrow_loc offset true idx s
  | ImmBorrowLoc idx => ts_borrow_loc offset false idx s
  | Call idx =>
      function_handle ← partial (function_handle_at resolver idx);
      ts_call offset function_handle [] s
  | CallGeneric idx =>
      func_inst ← partial (function_instantiation_at resolver idx);
      func_handle ← partial (function_handle_at resolver (fi_handle func_inst));
      type_args ← partial (signature_at resolver (fi_type_parameters func_inst));
      ts_call offset func_handle type_args s
  | Pack idx => struct_definition ← partial (struct_def_at resolver idx); ts_pack offset struct_definition [] s
  | PackGeneric idx => '(struct_def, type_args) ← instance_of idx; ts_pack offset struct_def type_args s
  | Unpack idx => struct_definition ← partial (struct_def_at resolver idx); ts_unpack offset struct_definition [] s
  | UnpackGeneric idx => '(struct_def, type_args) ← instance_of idx; ts_unpack offset struct_def type_args s
  | ReadRef =>
      '(operand, s) ← pop_type s;
      match operand with
      | Reference inner | MutableReference inner =>
          a ← type_abilities inner;
          _ ← ensure (has_copy a) (type_error READREF_WITHOUT_COPY_ABILITY offset);
          Ok (inner :: s)
      | _ => Err (type_error READREF_TYPE_MISMATCH_ERROR offset)
      end
  | WriteRef =>
      '(ref_operand, s) ← pop_type s;
      '(val_operand, s) ← pop_type s;
      match ref_operand with
      | MutableReference ref_inner_signature =>
          a ← type_abilities ref_inner_signature;
          _ ← ensure (has_drop a) (type_error WRITEREF_WITHOUT_DROP_ABILITY offset);
          _ ← ensure (bool_decide (val_operand = ref_inner_signature))
                (type_error WRITEREF_TYPE_MISMATCH_ERROR offset);
          Ok s
      | _ => Err (type_error WRITEREF_NO_MUTABLE_REFERENCE_ERROR offset)
      end
  | CastU8 => cast_to U8 offset s
  | CastU64 => cast_to U64 offset s
  | CastU128 => cast_to U128 offset s
  | Add | Sub | Mul | Mod | Div | BitOr | BitAnd | Xor =>
      '(operand1, s) ← pop_type s;
      '(operand2, s) ← pop_type s;
      if is_integer operand1 && bool_decide (operand1 = operand2) then Ok (operand1 :: s)
      else Err (type_error INTEGER_OP_TYPE_MISMATCH_ERROR offset)
  | Shl | Shr =>
      '(operand1, s) ← pop_type s;
      '(operand2, s) ← pop_type s;
      if is_integer operand2 && bool_decide (operand1 = U8) then Ok (operand2 :: s)
      else Err (type_error INTEGER_OP_TYPE_MISMATCH_ERROR offset)
  | Or | And =>
      '(operand1, s) ← pop_type s;
      '(operand2, s) ← pop_type s;
      if bool_decide (operand1 = Bool) && bool_decide (operand2 = Bool) then Ok (Bool :: s)
      else Err (type_error BOOLEAN_OP_TYPE_MISMATCH_ERROR offset)
  | Not =>
      '(operand, s) ← pop_type s;
      if bool_decide (operand = Bool) then Ok (Bool :: s)
      else Err (type_error BOOLEAN_OP_TYPE_MISMATCH_ERROR offset)
  | Eq | Neq =>
      '(operand1, s) ← pop_type s;
      '(operand2, s) ← pop_type s;
      a ← type_abilities operand1;
      if has_drop a && bool_decide (operand1 = operand2) then Ok (Bool :: s)
      else Err (type_error EQUALITY_OP_TYPE_MISMATCH_ERROR offset)
  | Lt | Gt | Le | Ge =>
      '(operand1, s) ← pop_type s;
      '(operand2, s) ← pop_type s;
      if is_integer operand1 && bool_decide (operand1 = operand2) then Ok (Bool :: s)
      else Err (type_error INTEGER_OP_TYPE_MISMATCH_ERROR offset)
  | MutBorrowGlobal idx => ts_borrow_global offset true idx [] s
  | MutBorrowGlobalGeneric idx =>
      struct_inst ← partial (struct_instantiation_at resolver idx);
      type_inst ← partial (signature_at resolver (sdi_type_parameters struct_inst));
      ts_borrow_global offset true (sdi_def struct_inst) type_inst s
  | ImmBorrowGlobal idx => ts_borrow_global offset false idx [] s
  | ImmBorrowGlobalGeneric idx =>
      struct_inst ← partial (struct_instantiation_at resolver idx);
      type_inst ← partial (signature_at resolver (sdi_type_parameters struct_inst));
      ts_borrow_global offset false (sdi_def struct_inst) type_inst s
  | Exists idx => struct_def ← partial (struct_def_at resolver idx); ts_exists offset struct_def [] s
  | ExistsGeneric idx => '(struct_def, type_args) ← instance_of idx; ts_exists offset struct_def type_args s
  | MoveFrom idx => struct_def ← partial (struct_def_at resolver idx); ts_move_from offset struct_def [] s
  | MoveFromGeneric idx => '(struct_def, type_args) ← instance_of idx; ts_move_from offset struct_def type_args s
  | MoveTo idx => struct_def ← partial (struct_def_at resolver idx); ts_move_to offset struct_def [] s
  | MoveToGeneric idx => '(struct_def, type_args) ← instance_of idx; ts_move_to offset struct_def type_args s
  | VecPack idx num =>
      element_type ← declared_element idx;
      if len s <? num then Panic
      else Ok (Vector element_type :: drop (N.to_nat num) s)
  | VecLen idx =>
      '(operand, s) ← pop_type s;
      declared_element_type ← declared_element idx;
      _ ← ensure (is_vector_of operand declared_element_type false) (type_error TYPE_MISMATCH offset);
      Ok (U64 :: s)
  | VecImmBorrow idx =>
      declared_element_type ← declared_element idx;
      borrow_vector_element declared_element_type offset false s
  | VecMutBorrow idx =>
      declared_element_type ← declared_element idx;
      borrow_vector_element declared_element_type offset true s
  | VecPushBack idx =>
      '(operand_elem, s) ← pop_type s;
      '(operand_vec, s) ← pop_type s;
      declared_element_type ← declared_element idx;
      _ ← ensure (bool_decide (declared_element_type = operand_elem)) (type_error TYPE_MISMATCH offset);
      _ ← ensure (is_vector_of operand_vec declared_element_type true) (type_error TYPE_MISMATCH offset);
      Ok s
  | VecPopBack idx =>
      '(operand_vec, s) ← pop_type s;
      declared_element_type ← declared_element idx;
      _ ← ensure (is_vector_of operand_vec declared_element_type true) (type_error TYPE_MISMATCH offset);
      Ok (declared_element_type :: s)
  | VecUnpack idx num =>
      '(operand_vec, s) ← pop_type s;
      declared_element_type ← declared_element idx;
      _ ← ensure (bool_decide (operand_vec = Vector declared_element_type)) (type_error TYPE_MISMATCH offset);
      Ok (replicate (N.to_nat num) declared_element_type ++ s)
  | VecSwap idx =>
      '(operand_idx2, s) ← pop_type s;
      '(operand_idx1, s) ← pop_type s;
      '(operand_vec, s) ← pop_type s;
      _ ← ensure (bool_decide (operand_idx1 = U64) && bool_decide (operand_idx2 = U64))
            (type_error TYPE_MISMATCH offset);
      declared_element_type ← declared_element idx;
      _ ← ensure (is_vector_of operand_vec declared_element_type true) (type_error TYPE_MISMATCH offset);
      Ok s
  end.

(** The body of the inner loop of [verify] *)
Definition verify_at (s : stack) (offset : N) : result PartialVMError stack :=
  instr ← unwrap (at_ (cu_code (fv_code fv)) offset);
  verify_instr instr offset s.

(** The inner loop, over [instr_indexes] of a block *)
Definition verify_type_block (s : stack) (block_id : BlockId) : result PartialVMError stack :=
  offsets ← instr_indexes (fv_cfg fv) block_id;
  try_fold verify_at offsets s.
End Checker.

(** [type_safety::verify] *)
Definition type_verify (resolver : BinaryIndexedView) (function_view : FunctionView)
  : result PartialVMError unit :=
  let verifier := {| ts_resolver := resolver; ts_function_view := function_view |} in
  _ ← try_fold (verify_type_block verifier) (blocks (fv_cfg function_view)) [];
  Ok tt.
