(* ===== verification/TypedCode.v ===== *)
(** * TypedCode: the type system that the type-safety pass checks

    Declarative typing rules for instructions, and the proof that [verify_instr] of
    [TypeSafety] applies exactly these rules, except that it lets [VecPack] take
    operands of any types. *)

From S2P Require Import Prelude CoreTypes VmStatus Abilities FileFormat Errors RoundTrip Views BoundsChecker InBounds CheckedUnits ControlFlowGraph ControlFlow StackUsage SignatureChecker TypeSafety.

Import SignatureToken Bytecode.

(** ** Substitution *)

Fixpoint subst_type (args : list SignatureToken) (t : SignatureToken) : SignatureToken :=
  match t with
  | Vector t => Vector (subst_type args t)
  | StructInstantiation i ts => StructInstantiation i (subst_type args <$> ts)
  | Reference t => Reference (subst_type args t)
  | MutableReference t => MutableReference (subst_type args t)
  | TypeParameter i => default (TypeParameter i) (at_ args i)
  | t => t
  end.

Lemma collect_Ok {E A B} (f : A → result E B) l ys :
  collect f l = Ok ys ↔ Forall2 (λ x y, f x = Ok y) l ys.
Proof.
  revert ys; induction l as [|x l IH]; intros ys.
  - split; [by intros [= <-]|by inversion 1].
  - cbn. rewrite bind_Ok. setoid_rewrite bind_Ok. split.
    + intros (y & Hy & zs & Hzs & [= <-]). constructor; [done|by apply IH].
    + inversion 1; subst. eexists. split; [done|]. eexists. split; [by apply IH|done].
Qed.
Lemma collect_fmap {E A B} (f : A → result E B) (g : A → B) l ys :
  Forall (λ x, ∀ y, f x = Ok y → y = g x) l → collect f l = Ok ys → ys = g <$> l.
Proof.
  intros H Hc%collect_Ok. induction Hc as [|x y l ys Hx _ IH]; [done|].
  apply Forall_cons in H as [Hf H]. cbn. by rewrite (Hf _ Hx), IH.
Qed.

Lemma instantiate_subst t args t' : instantiate t args = Ok t' → t' = subst_type args t.
Proof.
  revert t'. induction t as [| | | | | |t IH|i|i ts IH|t IH|t IH|i] using token_ind; intros t' H;
    try (by injection H as <-); cbn [instantiate] in H.
  - apply bind_Ok in H as (u & Hu & [= <-]). cbn. f_equal. by apply IH.
  - apply bind_Ok in H as (us & Hu & [= <-]). cbn. f_equal.
    by apply (collect_fmap (λ ty, instantiate ty args) (subst_type args)).
  - apply bind_Ok in H as (u & Hu & [= <-]). cbn. f_equal. by apply IH.
  - apply bind_Ok in H as (u & Hu & [= <-]). cbn. f_equal. by apply IH.
  - cbn. destruct (at_ args i); [by injection H as ->|done].
Qed.

Lemma instantiate_total t args :
  params_below (len args) t → instantiate t args = Ok (subst_type args t).
Proof.
  unfold params_below. induction t as [| | | | | |t IH|i|i ts IH|t IH|t IH|i] using token_ind; intros H;
    try done; cbn [instantiate subst_type].
  - destruct H as [_ H]. by rewrite IH.
  - apply all_nodes_args in H as [_ H].
    enough (collect (λ ty, instantiate ty args) ts = Ok (subst_type args <$> ts)) as -> by done.
    apply collect_Ok. apply Forall2_fmap_r. rewrite Forall_forall in IH, H.
    apply Forall_Forall2_diag, Forall_forall. auto.
  - destruct H as [_ H]. by rewrite IH.
  - destruct H as [_ H]. by rewrite IH.
  - destruct H as [H _]. by destruct (unwrap_at (E := PartialVMError) args i H) as (a & Ha & Hat); rewrite Hat.
Qed.

(** ** The rules *)

Section Rules.
Context (resolver : BinaryIndexedView) (fv : FunctionView).

Definition local_type (i : LocalIndex) : option SignatureToken := at_ (fv_parameters fv ++ fv_locals fv) i.
Definition has (ability : AbilitySet → bool) (t : SignatureToken) : Prop :=
  ∃ a, abilities resolver t (fv_type_parameters fv) = Ok a ∧ ability a = true.
Definition ref (mut_ : bool) : SignatureToken → SignatureToken := if mut_ then MutableReference else Reference.

(** The struct and the type arguments of an instruction on structs *)
Definition struct_of (i : Bytecode) (d : StructDefinition) (args : Signature) : Prop :=
  match i with
  | Pack idx | Unpack idx | Exists idx | MoveFrom idx | MoveTo idx | ImmBorrowGlobal idx
  | MutBorrowGlobal idx => struct_def_at resolver idx = Ok d ∧ args = []
  | PackGeneric idx | UnpackGeneric idx | ExistsGeneric idx | MoveFromGeneric idx | MoveToGeneric idx
  | ImmBorrowGlobalGeneric idx | MutBorrowGlobalGeneric idx =>
      ∃ inst, struct_instantiation_at resolver idx = Ok inst ∧
        struct_def_at resolver (sdi_def inst) = Ok d ∧
        signature_at resolver (sdi_type_parameters inst) = Ok args
  | _ => False
  end.
(** The struct, the type of the field and the type arguments of a field borrow *)
Definition field_of (i : Bytecode) (d : StructDefinition) (t : SignatureToken) (args : Signature) : Prop :=
  ∃ h, match i with
       | MutBorrowField idx | ImmBorrowField idx => field_handle_at resolver idx = Ok h ∧ args = []
       | MutBorrowFieldGeneric idx | ImmBorrowFieldGeneric idx =>
           ∃ inst, field_instantiation_at resolver idx = Ok inst ∧
             field_handle_at resolver (fldi_handle inst) = Ok h ∧
             signature_at resolver (fldi_type_parameters inst) = Ok args
       | _ => False
       end ∧
       struct_def_at resolver (fld_owner h) = Ok d ∧
       ∃ fields f, sd_field_information d = Declared fields ∧ at_ fields (fld_field h) = Some f ∧
         instantiate (fd_signature f) args = Ok t.
(** The types of the parameters and results of a call *)
Definition callee_of (i : Bytecode) (params results : list SignatureToken) : Prop :=
  ∃ h args ps rs,
    match i with
    | Call idx => function_handle_at resolver idx = Ok h ∧ args = []
    | CallGeneric idx =>
        ∃ inst, function_instantiation_at resolver idx = Ok inst ∧
          function_handle_at resolver (fi_handle inst) = Ok h ∧
          signature_at resolver (fi_type_parameters inst) = Ok args
    | _ => False
    end ∧
    signature_at resolver (fh_parameters h) = Ok ps ∧ signature_at resolver (fh_return h) = Ok rs ∧
    Forall2 (λ t u, instantiate t args = Ok u) ps params ∧
    Forall2 (λ t u, instantiate t args = Ok u) rs results.
Definition fields_of (d : StructDefinition) (args : Signature) (ts : list SignatureToken) : Prop :=
  ∃ fields, sd_field_information d = Declared fields ∧
    Forall2 (λ f t, instantiate (fd_signature f) args = Ok t) fields ts.
(** The element type of a vector instruction *)
Definition element_of (idx : SignatureIndex) (t : SignatureToken) : Prop :=
  ∃ sig, signature_at resolver idx = Ok sig ∧ at_ sig 0 = Some t.
Definition struct_type (d : StructDefinition) (args : Signature) : SignatureToken :=
  materialize_type (sd_struct_handle d) args.

(** [typed i consumed produced]: the instruction takes operands of the types [consumed]
    off the stack, the top one first, and leaves results of the types [produced]. *)
Inductive typed : Bytecode → list SignatureToken → list SignatureToken → Prop :=
| t_pop t : has has_drop t → typed Pop [t] []
| t_br_true a : typed (BrTrue a) [Bool] []
| t_br_false a : typed (BrFalse a) [Bool] []
| t_branch a : typed (Branch a) [] []
| t_nop : typed Nop [] []
| t_abort : typed Abort [U64] []
| t_ret : typed Ret (reverse (fv_return fv)) []
| t_st_loc i t : local_type i = Some t → typed (StLoc i) [t] []
| t_copy_loc i t : local_type i = Some t → has has_copy t → typed (CopyLoc i) [] [t]
| t_move_loc i t : local_type i = Some t → typed (MoveLoc i) [] [t]
| t_imm_borrow_loc i t : local_type i = Some t → is_reference t = false → typed (ImmBorrowLoc i) [] [Reference t]
| t_mut_borrow_loc i t : local_type i = Some t → is_reference t = false → typed (MutBorrowLoc i) [] [MutableReference t]
| t_ld_u8 x : typed (LdU8 x) [] [U8]
| t_ld_u64 x : typed (LdU64 x) [] [U64]
| t_ld_u128 x : typed (LdU128 x) [] [U128]
| t_ld_true : typed LdTrue [] [Bool]
| t_ld_false : typed LdFalse [] [Bool]
| t_ld_const idx c : constant_at resolver idx = Ok c → typed (LdConst idx) [] [const_type c]
| t_cast i t u : (i, u) ∈ [(CastU8, U8); (CastU64, U64); (CastU128, U128)] → is_integer t = true → typed i [t] [u]
| t_arith i t : i ∈ [Add; Sub; Mul; Mod; Div; BitOr; BitAnd; Xor] → is_integer t = true → typed i [t; t] [t]
| t_shift i t : i ∈ [Shl; Shr] → is_integer t = true → typed i [U8; t] [t]
| t_logic i : i ∈ [Or; And] → typed i [Bool; Bool] [Bool]
| t_not : typed Not [Bool] [Bool]
| t_equal i t : i ∈ [Eq; Neq] → has has_drop t → typed i [t; t] [Bool]
| t_compare i t : i ∈ [Lt; Gt; Le; Ge] → is_integer t = true → typed i [t; t] [Bool]
| t_freeze t : typed FreezeRef [MutableReference t] [Reference t]
| t_read_ref m t : has has_copy t → typed ReadRef [ref m t] [t]
| t_write_ref t : has has_drop t → typed WriteRef [MutableReference t; t] []
| t_imm_borrow_field i m d t args : (∃ x, i = ImmBorrowField x ∨ i = ImmBorrowFieldGeneric x) →
    field_of i d t args → typed i [ref m (struct_type d args)] [Reference t]
| t_mut_borrow_field i d t args : (∃ x, i = MutBorrowField x ∨ i = MutBorrowFieldGeneric x) →
    field_of i d t args → typed i [MutableReference (struct_type d args)] [MutableReference t]
| t_call i params results : callee_of i params results → typed i (reverse params) (reverse results)
| t_pack i d args ts : (∃ x, i = Pack x ∨ i = PackGeneric x) → struct_of i d args →
    fields_of d args ts → typed i (reverse ts) [struct_type d args]
| t_unpack i d args ts : (∃ x, i = Unpack x ∨ i = UnpackGeneric x) → struct_of i d args →
    fields_of d args ts → typed i [struct_type d args] (reverse ts)
| t_exists i d args : (∃ x, i = Exists x ∨ i = ExistsGeneric x) → struct_of i d args →
    has has_key (struct_type d args) → typed i [Address] [Bool]
| t_move_from i d args : (∃ x, i = MoveFrom x ∨ i = MoveFromGeneric x) → struct_of i d args →
    has has_key (struct_type d args) → typed i [Address] [struct_type d args]
| t_move_to i d args : (∃ x, i = MoveTo x ∨ i = MoveToGeneric x) → struct_of i d args →
    has has_key (struct_type d args) → typed i [struct_type d args; Reference Signer] []
| t_imm_borrow_global i d args : (∃ x, i = ImmBorrowGlobal x ∨ i = ImmBorrowGlobalGeneric x) →
    struct_of i d args → has has_key (struct_type d args) → typed i [Address] [Reference (struct_type d args)]
| t_mut_borrow_global i d args : (∃ x, i = MutBorrowGlobal x ∨ i = MutBorrowGlobalGeneric x) →
    struct_of i d args → has has_key (struct_type d args) → typed i [Address] [MutableReference (struct_type d args)]
| t_vec_pack idx n t : element_of idx t → typed (VecPack idx n) (replicate (N.to_nat n) t) [Vector t]
| t_vec_unpack idx n t : element_of idx t → typed (VecUnpack idx n) [Vector t] (replicate (N.to_nat n) t)
| t_vec_len idx m t : element_of idx t → typed (VecLen idx) [ref m (Vector t)] [U64]
| t_vec_imm_borrow idx m t : element_of idx t → typed (VecImmBorrow idx) [U64; ref m (Vector t)] [Reference t]
| t_vec_mut_borrow idx t : element_of idx t →
    typed (VecMutBorrow idx) [U64; MutableReference (Vector t)] [MutableReference t]
| t_vec_push_back idx t : element_of idx t → typed (VecPushBack idx) [t; MutableReference (Vector t)] []
| t_vec_pop_back idx t : element_of idx t → typed (VecPopBack idx) [MutableReference (Vector t)] [t]
| t_vec_swap idx t : element_of idx t → typed (VecSwap idx) [U64; U64; MutableReference (Vector t)] [].

Definition is_vec_pack (i : Bytecode) : bool := match i with VecPack _ _ => true | _ => false end.
(** The rules of the pass: a vector is packed from operands of any types. *)
Definition accepted (i : Bytecode) (consumed produced : list SignatureToken) : Prop :=
  match i with
  | VecPack idx n => ∃ t, element_of idx t ∧ len consumed = n ∧ produced = [Vector t]
  | _ => typed i consumed produced
  end.

Lemma typed_accepted i consumed produced : typed i consumed produced → accepted i consumed produced.
Proof.
  intros H. destruct i; try exact H. inversion H; subst; try (naive_solver);
    try (by (match goal with H : _ ∈ _ |- _ => repeat (apply elem_of_cons in H as [H|H]; [done|]); by apply not_elem_of_nil in H end));
    try (destruct H0 as (? & ? & ? & ? & ? & _); done).
  exists t. split_and!; [done| |done]. unfold len. rewrite length_replicate. lia.
Qed.
End Rules.

(** ** The pass applies the rules *)

Lemma pop_type_Ok s t s' : pop_type s = Ok (t, s') ↔ s = t :: s'.
Proof. destruct s; naive_solver. Qed.
Lemma ensure_Ok c e u : ensure c e = Ok u ↔ c = true.
Proof. destruct c, u; naive_solver. Qed.
Lemma partial_Ok {A} (r : result StatusCode A) a : partial r = Ok a ↔ r = Ok a.
Proof. apply map_err_Ok. Qed.
Lemma unwrap_Ok {E A} (o : option A) a : unwrap (E := E) o = Ok a ↔ o = Some a.
Proof. destruct o; naive_solver. Qed.

Section Pass.
Context (resolver : BinaryIndexedView) (fv : FunctionView).
Notation v := {| ts_resolver := resolver; ts_function_view := fv |}.

Lemma pop_types_Ok o st exps s s' :
  pop_types v o st exps s = Ok s' ↔ ∃ ts, Forall2 (λ e t, e = Ok t) exps ts ∧ s = ts ++ s'.
Proof.
  revert s; induction exps as [|e exps IH]; intros s; cbn [pop_types].
  - split; [intros [= ->]; by exists []|]. intros (ts & H & ->). by inversion H.
  - rewrite bind_Ok. split.
    + intros ([t s1] & ->%pop_type_Ok & (u & -> & H)%bind_Ok). case_bool_decide; [|done]. subst u.
      apply IH in H as (ts & Hts & ->). exists (t :: ts). split; [by constructor|done].
    + intros (ts & H & ->). inversion H as [|? t ? ts' -> Hts]; subst. exists (t, ts' ++ s').
      split; [done|]. cbn. rewrite bool_decide_true by done. apply IH. eauto.
Qed.

Lemma local_at_Ok i t : local_at v i = Ok t ↔ local_type fv i = Some t.
Proof.
  unfold local_at, local_type. cbv zeta. cbn [ts_function_view]. unfold at_.
  destruct (N.ltb_spec i (len (fv_parameters fv))) as [H|H]; rewrite unwrap_Ok; unfold len in *.
  - by rewrite lookup_app_l by lia.
  - rewrite lookup_app_r by lia. f_equiv. f_equal. lia.
Qed.

Lemma type_abilities_Ok t a : type_abilities v t = Ok a ↔ abilities resolver t (fv_type_parameters fv) = Ok a.
Proof. apply partial_Ok. Qed.

Lemma declared_element_Ok idx t : declared_element v idx = Ok t ↔ element_of resolver idx t.
Proof.
  unfold declared_element, element_of. rewrite bind_Ok. cbn [ts_resolver].
  setoid_rewrite partial_Ok. by setoid_rewrite unwrap_Ok.
Qed.

Lemma is_vector_of_spec t e m :
  is_vector_of t e m = true ↔ ∃ b, t = ref b (Vector e) ∧ (m = true → b = true).
Proof.
  unfold is_vector_of. rewrite bool_decide_eq_true. split.
  - destruct t; cbn; try done.
    + destruct m; [done|]. destruct t; try done. intros [= ->]. by exists false.
    + destruct t; try done. intros [= ->]. by exists true.
  - intros ([] & -> & Hm); [done|]. destruct m; [by specialize (Hm eq_refl)|done].
Qed.

Lemma instance_of_Ok idx d args :
  instance_of v idx = Ok (d, args) ↔ ∃ inst, struct_instantiation_at resolver idx = Ok inst ∧
    struct_def_at resolver (sdi_def inst) = Ok d ∧ signature_at resolver (sdi_type_parameters inst) = Ok args.
Proof.
  unfold instance_of. cbn [ts_resolver]. rewrite bind_Ok. setoid_rewrite bind_Ok. setoid_rewrite bind_Ok.
  setoid_rewrite partial_Ok. split.
  - intros (i & Hi & d' & Hd & a' & Ha & [= -> ->]). eauto.
  - intros (i & Hi & Hd & Ha). eauto 10.
Qed.

Lemma bool_decide_Ok (P : Prop) `{Decision P} : bool_decide P = true ↔ P.
Proof. apply bool_decide_eq_true. Qed.

Lemma type_fields_Ok o d args ts : type_fields_signature v o d args = Ok ts ↔ fields_of d args ts.
Proof.
  unfold type_fields_signature, fields_of. destruct (sd_field_information d) as [|fields].
  - split; [done|]. by intros (? & ? & _).
  - etrans; [apply (collect_Ok _ fields ts)|]. naive_solver.
Qed.

Lemma pop_known o st ts s s' :
  pop_types v o st (Ok <$> reverse ts) s = Ok s' ↔ s = reverse ts ++ s'.
Proof.
  rewrite pop_types_Ok. generalize (reverse ts). intros us. split.
  - intros (xs & Hx & ->). f_equal. apply Forall2_fmap_l in Hx.
    induction Hx as [|u x us xs [= ->] _ IH]; [done|]. by rewrite IH.
  - intros ->. exists us. split; [|done]. apply Forall2_fmap_l. by apply Forall_Forall2_diag, Forall_forall.
Qed.
End Pass.

Ltac ts_inv :=
  repeat match goal with
  | H : _ ≫= _ = Ok _ |- _ => apply bind_Ok in H as (? & ? & ?)
  | H : pop_type _ = Ok ?p |- _ => destruct p; apply pop_type_Ok in H
  | H : ensure _ _ = Ok _ |- _ => apply ensure_Ok in H
  | H : partial _ = Ok _ |- _ => apply partial_Ok in H
  | H : local_at _ _ = Ok _ |- _ => apply local_at_Ok in H
  | H : type_abilities _ _ = Ok _ |- _ => apply type_abilities_Ok in H
  | H : declared_element _ _ = Ok _ |- _ => apply declared_element_Ok in H
  | H : is_vector_of _ _ _ = true |- _ => apply is_vector_of_spec in H as (? & ? & ?)
  | H : instance_of _ _ = Ok ?p |- _ => destruct p; apply instance_of_Ok in H as (? & ? & ? & ?)
  | H : type_fields_signature _ _ _ _ = Ok _ |- _ => apply type_fields_Ok in H
  | H : unwrap _ = Ok _ |- _ => apply unwrap_Ok in H
  | H : bool_decide _ = true |- _ => apply bool_decide_Ok in H
  | H : (let '(_, _) := _ in _) = Ok _ |- _ => progress cbn in H
  | H : _ && _ = true |- _ => apply andb_true_iff in H as [? ?]
  | H : (if ?b then _ else _) = Ok _ |- _ => destruct b eqn:?; [|done]
  | H : (if ?b then _ else _) = Ok _ |- _ => destruct b eqn:?; [done|]
  | H : Ok _ = Ok _ |- _ => injection H as H
  end; subst.

Section Sound.
Context (resolver : BinaryIndexedView) (fv : FunctionView).
Notation v := {| ts_resolver := resolver; ts_function_view := fv |}.
Notation accepted := (accepted resolver fv).
Notation typed := (typed resolver fv).

Definition applies (i : Bytecode) (s s' : list SignatureToken) : Prop :=
  ∃ consumed produced rest, accepted i consumed produced ∧ s = consumed ++ rest ∧ s' = produced ++ rest.

Lemma applies_intro i cs ps rest : accepted i cs ps → applies i (cs ++ rest) (ps ++ rest).
Proof. intros H. by exists cs, ps, rest. Qed.

Lemma borrow_field_inv o m h args s s' :
  ts_borrow_field v o m h args s = Ok s' →
  ∃ b d t rest, s = ref b (struct_type d args) :: rest ∧ s' = ref m t :: rest ∧ (m = true → b = true) ∧
    ∃ fh, field_handle_at resolver h = Ok fh ∧ struct_def_at resolver (fld_owner fh) = Ok d ∧
    ∃ fields f, sd_field_information d = Declared fields ∧ at_ fields (fld_field fh) = Some f ∧
      instantiate (fd_signature f) args = Ok t.
Proof.
  unfold ts_borrow_field. intros H. ts_inv. destruct (m && _) eqn:Hm; [done|]. ts_inv.
  destruct (sd_field_information _) as [|fields] eqn:Hf; [done|]. ts_inv.
  destruct s0; try done; ts_inv; [exists false|exists true];
    (eexists _, _, _; split_and!; [reflexivity|by destruct m|by destruct m|]; eauto 10).
Qed.

Lemma borrow_global_inv o m idx args s s' :
  ts_borrow_global v o m idx args s = Ok s' →
  ∃ d rest, s = Address :: rest ∧ s' = ref m (struct_type d args) :: rest ∧
    struct_def_at resolver idx = Ok d ∧ has resolver fv has_key (struct_type d args).
Proof.
  unfold ts_borrow_global. intros H. ts_inv. eexists _, _. split_and!; [reflexivity|by destruct m|done|].
  by eexists.
Qed.

Lemma pop_instantiated o st args ps s s' :
  pop_types v o st ((λ p, instantiate p args) <$> reverse ps) s = Ok s' →
  ∃ params, Forall2 (λ t u, instantiate t args = Ok u) ps params ∧ s = reverse params ++ s'.
Proof.
  intros (ts & H & ->)%pop_types_Ok. apply Forall2_fmap_l in H. exists (reverse ts). split.
  - rewrite <- (reverse_involutive ps). by apply Forall2_reverse.
  - by rewrite reverse_involutive.
Qed.

Lemma call_inv o h args s s' :
  ts_call v o h args s = Ok s' →
  ∃ ps rs params results rest, signature_at resolver (fh_parameters h) = Ok ps ∧
    signature_at resolver (fh_return h) = Ok rs ∧
    Forall2 (λ t u, instantiate t args = Ok u) ps params ∧
    Forall2 (λ t u, instantiate t args = Ok u) rs results ∧
    s = reverse params ++ rest ∧ s' = reverse results ++ rest.
Proof.
  unfold ts_call. intros H. ts_inv.
  match goal with H : pop_types _ _ _ _ _ = Ok _ |- _ => apply pop_instantiated in H as (params & Hp & ->) end.
  match goal with H : collect _ _ = Ok _ |- _ => apply collect_Ok in H end.
  eexists _, _, params, _, _. by split_and!.
Qed.

Lemma pack_inv o d args s s' :
  ts_pack v o d args s = Ok s' →
  ∃ ts rest, fields_of d args ts ∧ s = reverse ts ++ rest ∧ s' = struct_type d args :: rest.
Proof. unfold ts_pack. intros H. ts_inv. rewrite pop_known in *. subst. eauto 10. Qed.
Lemma unpack_inv o d args s s' :
  ts_unpack v o d args s = Ok s' →
  ∃ ts rest, fields_of d args ts ∧ s = struct_type d args :: rest ∧ s' = reverse ts ++ rest.
Proof. unfold ts_unpack. intros H. ts_inv. eauto 10. Qed.
Lemma exists_inv o d args s s' :
  ts_exists v o d args s = Ok s' →
  ∃ rest, has resolver fv has_key (struct_type d args) ∧ s = Address :: rest ∧ s' = Bool :: rest.
Proof. unfold ts_exists. intros H. ts_inv. eexists. split_and!; [by eexists|done..]. Qed.
Lemma move_from_inv o d args s s' :
  ts_move_from v o d args s = Ok s' →
  ∃ rest, has resolver fv has_key (struct_type d args) ∧ s = Address :: rest ∧ s' = struct_type d args :: rest.
Proof. unfold ts_move_from. intros H. ts_inv. eexists. split_and!; [by eexists|done..]. Qed.
Lemma move_to_inv o d args s s' :
  ts_move_to v o d args s = Ok s' →
  has resolver fv has_key (struct_type d args) ∧ s = struct_type d args :: Reference Signer :: s'.
Proof.
  unfold ts_move_to. intros H. ts_inv.
  repeat match goal with H : match ?t with _ => _ end = Ok _ |- _ => destruct t; try done end.
  ts_inv. split; [by eexists|done].
Qed.

Ltac in_list := by repeat (first [by left|right]).

(** Closing a goal by the rule of the instruction *)
Ltac by_rule :=
  lazymatch goal with
  | |- applies _ ?s ?s => apply (applies_intro _ [] []); by constructor
  | |- applies _ (?a :: ?b :: ?c :: ?s) ?s => apply (applies_intro _ [a; b; c] [])
  | |- applies _ (?a :: ?b :: ?s) (?x :: ?s) => apply (applies_intro _ [a; b] [x])
  | |- applies _ (?a :: ?b :: ?s) ?s => apply (applies_intro _ [a; b] [])
  | |- applies _ (?a :: ?s) (?x :: ?s) => apply (applies_intro _ [a] [x])
  | |- applies _ (?a :: ?s) ?s => apply (applies_intro _ [a] [])
  | |- applies _ ?s (?x :: ?s) => apply (applies_intro _ [] [x])
  end.
Ltac have_ability := eexists; split; eassumption.

Lemma verify_simple i o s s' :
  match i with
  | Call _ | CallGeneric _ | Pack _ | PackGeneric _ | Unpack _ | UnpackGeneric _
  | MutBorrowField _ | MutBorrowFieldGeneric _ | ImmBorrowField _ | ImmBorrowFieldGeneric _
  | MutBorrowGlobal _ | MutBorrowGlobalGeneric _ | ImmBorrowGlobal _ | ImmBorrowGlobalGeneric _
  | Exists _ | ExistsGeneric _ | MoveFrom _ | MoveFromGeneric _ | MoveTo _ | MoveToGeneric _
  | VecPack _ _ | VecUnpack _ _ | VecLen _ | VecImmBorrow _ | VecMutBorrow _ | VecPushBack _
  | VecPopBack _ | VecSwap _ => False
  | _ => True
  end → verify_instr v i o s = Ok s' → applies i s s'.
Proof.
  intros Hi H. destruct i; try done; clear Hi; cbn [verify_instr] in H; unfold cast_to, ts_borrow_loc in H.
  all: ts_inv.
  all: try (by_rule; by constructor).
  all: try (by_rule; first
    [apply t_cast; [in_list|done]|apply t_arith; [in_list|done]|apply t_shift; [in_list|done]
    |apply t_logic; in_list|apply t_compare; [in_list|done]|apply t_equal; [in_list|have_ability]]).
  - by_rule. apply t_pop. have_ability.
  - apply pop_known in H. subst s. apply (applies_intro _ _ [] s'). apply t_ret.
  - by_rule. apply t_copy_loc; [done|have_ability].
  - destruct s0; try done; ts_inv; [apply (applies_intro _ [ref false _] [_])|apply (applies_intro _ [ref true _] [_])];
      apply t_read_ref; have_ability.
  - destruct s0; try done; ts_inv. by_rule. apply t_write_ref. have_ability.
  - destruct s0; try done; ts_inv. by_rule. apply t_freeze.
  - apply (applies_intro _ [Bool] [Bool]), t_not.
Qed.

Lemma verify_vector i o s s' :
  match i with
  | VecPack _ _ | VecUnpack _ _ | VecLen _ | VecImmBorrow _ | VecMutBorrow _ | VecPushBack _
  | VecPopBack _ | VecSwap _ => True
  | _ => False
  end → verify_instr v i o s = Ok s' → applies i s s'.
Proof.
  intros Hi H. destruct i; try done; clear Hi; cbn [verify_instr] in H; unfold borrow_vector_element in H; ts_inv.
  - rename select (_ <? _ = false) into Hn.
    exists (take (N.to_nat n) s), [Vector x], (drop (N.to_nat n) s).
    split_and!; [|by rewrite take_drop|done]. exists x. split_and!; [done| |done].
    unfold len in *. rewrite length_take. lia.
  - by_rule. by eapply t_vec_len.
  - by_rule. by apply t_vec_imm_borrow.
  - rename select (true = true → _) into Hb. rewrite (Hb eq_refl). by_rule. by apply t_vec_mut_borrow.
  - rename select (true = true → _) into Hb. rewrite (Hb eq_refl). by_rule. by apply t_vec_push_back.
  - rename select (true = true → _) into Hb. rewrite (Hb eq_refl). by_rule. by apply t_vec_pop_back.
  - apply (applies_intro _ [Vector x] (replicate (N.to_nat n) x)). by apply t_vec_unpack.
  - rename select (true = true → _) into Hb. rewrite (Hb eq_refl). by_rule. by apply t_vec_swap.
Qed.

Lemma verify_instr_applies i o s s' : verify_instr v i o s = Ok s' → applies i s s'.
Proof.
  intros H. destruct i; try (by apply (verify_simple _ o)); try (by apply (verify_vector _ o)).
  all: cbn [verify_instr] in H; ts_inv; cbn [ts_resolver] in *.
  1,2: match goal with H : ts_call _ _ _ _ _ = Ok _ |- _ =>
         apply call_inv in H as (ps & rs & params & results & rest & Hps & Hrs & Hp & Hr & -> & ->) end;
       apply applies_intro, t_call; eexists _, _, ps, rs; split; [by eauto|done].
  1,2: match goal with H : ts_pack _ _ _ _ _ = Ok _ |- _ => apply pack_inv in H as (ts & rest & Hf & -> & ->) end;
       apply (applies_intro _ (reverse ts) [_]); eapply t_pack; [by eauto|cbn; by eauto|done].
  1,2: match goal with H : ts_unpack _ _ _ _ _ = Ok _ |- _ => apply unpack_inv in H as (ts & rest & Hf & -> & ->) end;
       apply (applies_intro _ [_] (reverse ts)); eapply t_unpack; [by eauto|cbn; by eauto|done].
  1-4: match goal with H : ts_borrow_field _ _ _ _ _ _ = Ok _ |- _ =>
         apply borrow_field_inv in H as (b & d & t & rest & -> & -> & Hm & fh & Hfh & Hd & Hfs) end.
  1,2: rewrite (Hm eq_refl); apply (applies_intro _ [_] [_]); eapply t_mut_borrow_field; [by eauto|];
       exists fh; split; [by eauto|done].
  1,2: apply (applies_intro _ [_] [_]); eapply t_imm_borrow_field; [by eauto|];
       exists fh; split; [by eauto|done].
  1-4: match goal with H : ts_borrow_global _ _ _ _ _ _ = Ok _ |- _ =>
         apply borrow_global_inv in H as (d & rest & -> & -> & Hd & Hk) end;
       apply (applies_intro _ [_] [_]).
  1,2: eapply t_mut_borrow_global; [by eauto|cbn; by eauto|done].
  1,2: eapply t_imm_borrow_global; [by eauto|cbn; by eauto|done].
  1,2: match goal with H : ts_exists _ _ _ _ _ = Ok _ |- _ => apply exists_inv in H as (rest & Hk & -> & ->) end;
       apply (applies_intro _ [_] [_]); eapply t_exists; [by eauto|cbn; by eauto|done].
  1,2: match goal with H : ts_move_from _ _ _ _ _ = Ok _ |- _ => apply move_from_inv in H as (rest & Hk & -> & ->) end;
       apply (applies_intro _ [_] [_]); eapply t_move_from; [by eauto|cbn; by eauto|done].
  1,2: match goal with H : ts_move_to _ _ _ _ _ = Ok _ |- _ => apply move_to_inv in H as (Hk & ->) end;
       apply (applies_intro _ [_; _] []); eapply t_move_to; [by eauto|cbn; by eauto|done].
Qed.
End Sound.

(** ** Every rule is applied *)

Ltac member :=
  repeat match goal with
  | H : _ ∈ _ :: _ |- _ => apply elem_of_cons in H as [H|H]; [simplify_eq|]
  | H : _ ∈ [] |- _ => by apply not_elem_of_nil in H
  end.

(** Opens the premises of a rule *)
Ltac rule_split :=
  repeat match goal with H : _ ∧ _ |- _ => destruct H | H : ∃ _, _ |- _ => destruct H end; simplify_eq.
Ltac rule_cases :=
  repeat match goal with
  | H : ∃ _, _ |- _ => destruct H
  | H : _ ∨ _ |- _ => destruct H
  | H : callee_of _ _ _ _ |- _ => destruct H as (h & args & cps & crs & Hc & Hps & Hrs & Hp & Hr)
  | H : field_of _ _ _ _ _ |- _ => destruct H as (fh & Hc & Hd & fields & f & Hf & Hat & Ht)
  end; simplify_eq; try member.

Section Complete.
Context (resolver : BinaryIndexedView) (fv : FunctionView).
Notation v := {| ts_resolver := resolver; ts_function_view := fv |}.
Notation accepted := (accepted resolver fv).
Notation applies := (applies resolver fv).

Lemma local_type_at i t : local_type fv i = Some t → local_at v i = Ok t.
Proof. apply local_at_Ok. Qed.
Lemma declared_at idx t : element_of resolver idx t → declared_element v idx = Ok t.
Proof. apply declared_element_Ok. Qed.
Lemma is_vector_ref b t m : (m = true → b = true) → is_vector_of (ref b (Vector t)) t m = true.
Proof. intros H. apply is_vector_of_spec. eauto. Qed.
Lemma is_vector_mut_ref t m : is_vector_of (MutableReference (Vector t)) t m = true.
Proof. by apply (is_vector_ref true). Qed.
Lemma bool_decide_refl (t : SignatureToken) : bool_decide (t = t) = true.
Proof. by apply bool_decide_Ok. Qed.
Lemma fields_Ok o d args ts : fields_of d args ts → type_fields_signature v o d args = Ok ts.
Proof. apply type_fields_Ok. Qed.
Lemma pop_reverse o st ts s : pop_types v o st (Ok <$> reverse ts) (reverse ts ++ s) = Ok s.
Proof. by apply pop_known. Qed.
Lemma instance_Ok idx inst d args :
  struct_instantiation_at resolver idx = Ok inst → struct_def_at resolver (sdi_def inst) = Ok d →
  signature_at resolver (sdi_type_parameters inst) = Ok args → instance_of v idx = Ok (d, args).
Proof. intros. apply instance_of_Ok. eauto. Qed.

Lemma call_Ok o h args ps rs params results rest :
  signature_at resolver (fh_parameters h) = Ok ps → signature_at resolver (fh_return h) = Ok rs →
  Forall2 (λ t u, instantiate t args = Ok u) ps params →
  Forall2 (λ t u, instantiate t args = Ok u) rs results →
  ts_call v o h args (reverse params ++ rest) = Ok (reverse results ++ rest).
Proof.
  intros Hps Hrs Hp Hr. unfold ts_call. cbn [ts_resolver]. rewrite Hps. cbn.
  assert (pop_types v o CALL_TYPE_MISMATCH_ERROR ((λ p, instantiate p args) <$> reverse ps)
            (reverse params ++ rest) = Ok rest) as ->.
  { apply pop_types_Ok. exists (reverse params). split; [|done]. apply Forall2_fmap_l. by apply Forall2_reverse. }
  cbn. rewrite Hrs. cbn. by apply collect_Ok in Hr as ->.
Qed.
Lemma borrow_field_Ok o (m b : bool) h fh d fields f args t s :
  (m = true → b = true) → field_handle_at resolver h = Ok fh → struct_def_at resolver (fld_owner fh) = Ok d →
  sd_field_information d = Declared fields → at_ fields (fld_field fh) = Some f →
  instantiate (fd_signature f) args = Ok t →
  ts_borrow_field v o m h args (ref b (struct_type d args) :: s) = Ok (ref m t :: s).
Proof.
  intros Hm Hh Hd Hf Hat Ht. unfold ts_borrow_field. cbn [pop_type mbind result_bind].
  replace (m && negb (is_mutable_reference (ref b (struct_type d args)))) with false
    by (destruct m, b; naive_solver).
  cbn [ts_resolver]. rewrite Hh. cbn. rewrite Hd. cbn. fold (struct_type d args).
  destruct b; cbn; rewrite bool_decide_refl; cbn; rewrite Hf; cbn; rewrite Hat; cbn; rewrite Ht; by destruct m.
Qed.

(** Evaluates the checks of an instruction with what its rule provides *)
Ltac checks :=
  repeat progress (cbn [mbind result_bind ensure partial map_err pop_type bool_decide is_integer andb app unwrap ts_resolver] in *;
    try match goal with
    | H : has _ _ _ _ |- _ => destruct H as (? & ? & ?)
    | H : local_type _ _ = Some _ |- _ => apply local_type_at in H
    | H : element_of _ _ _ |- _ => apply declared_at in H
    | H : abilities _ _ _ = Ok _ |- _ => apply type_abilities_Ok in H
    | H : ?x = Ok _ |- context [?x] => rewrite H
    | H : ?x = true |- context [?x] => rewrite H
    | H : ?x = false |- context [?x] => rewrite H
    | |- _ => rewrite bool_decide_refl
    | |- _ => rewrite is_vector_ref by done
    | |- _ => rewrite is_vector_mut_ref
    | H : fields_of _ _ _ |- _ => rewrite (fields_Ok _ _ _ _ H)
    | |- _ => rewrite pop_reverse
    end).
Lemma accepted_verify i o cs ps s : accepted i cs ps → verify_instr v i o (cs ++ s) = Ok (ps ++ s).
Proof.
  intros H. destruct (is_vec_pack i) eqn:Hi.
  { destruct i; try done. destruct H as (t & Ht & <- & ->). cbn [verify_instr]. checks.
    unfold len. rewrite length_app. case_match; [lia|]. by rewrite Nat2N.id, drop_app_length. }
  assert (typed resolver fv i cs ps) as T by (by destruct i). clear H. destruct T;
    rule_cases; cbn [verify_instr struct_of] in *;
    unfold cast_to, ts_borrow_loc, borrow_vector_element, ts_borrow_global, ts_exists, ts_move_from, ts_move_to, ts_pack, ts_unpack, instance_of, struct_type in *;
    rule_split;
    try (by checks).
  - destruct m; cbn [ref]; by checks.
  - by apply (borrow_field_Ok o false m x fh d fields f [] t).
  - checks. by apply (borrow_field_Ok o false m _ fh d fields f args t).
  - by apply (borrow_field_Ok o true true x fh d fields f [] t).
  - checks. by apply (borrow_field_Ok o true true _ fh d fields f args t).
  - destruct i; try done; cbn [verify_instr]; simplify_eq;
      rule_split; checks;
      by apply (call_Ok _ _ _ cps crs).
Qed.

Lemma verify_instr_iff i o s s' : verify_instr v i o s = Ok s' ↔ applies i s s'.
Proof.
  split; [apply verify_instr_applies|]. intros (cs & ps & rest & H & -> & ->). by apply accepted_verify.
Qed.
End Complete.

(** An instruction passes the type checker exactly when a declarative typing rule
    applies to the types on top of the stack, which it replaces with those of the results;
    the exception is VecPack, which takes operands of any types. *)
Theorem type_safety_rules (resolver : BinaryIndexedView) (fv : FunctionView) (i : Bytecode)
    (offset : CodeOffset) (s s' : list SignatureToken) :
  verify_instr {| ts_resolver := resolver; ts_function_view := fv |} i offset s = Ok s' ↔
  ∃ consumed produced rest, s = consumed ++ rest ∧ s' = produced ++ rest ∧
    match i with
    | VecPack idx n => ∃ t, element_of resolver idx t ∧ len consumed = n ∧ produced = [Vector t]
    | _ => typed resolver fv i consumed produced
    end.
Proof. rewrite verify_instr_iff. unfold applies, accepted. naive_solver. Qed.
