(* ===== verification/TypedRuns.v ===== *)
(** * TypedRuns: executions of code that the type-safety pass accepts

    Code without [VecPack] that the pass accepts runs on operands of the right types, the
    same on every path.  With [VecPack], whose operands the pass does not compare with the
    declared element type, a function that every check accepts turns a struct into another. *)

From stdpp Require Import sorting.
From S2P Require Import Prelude CoreTypes VmStatus Abilities FileFormat Errors RoundTrip Views BoundsChecker ControlFlowGraph ControlFlow StackUsage LocalsSafety Duplication SignatureChecker TypeSafety TypedCode.

Import SignatureToken Bytecode.

(** ** The types of the operands during execution *)

Section TypedSafety.
Context (resolver : BinaryIndexedView) (fv : FunctionView).
Notation v := {| ts_resolver := resolver; ts_function_view := fv |}.
Notation self := (verifier_of resolver fv).
Notation cfg := (fv_cfg fv).
Notation instrs := (cu_code (fv_code fv)).

(** Instruction [i] takes the stack of types [s] to [s']. *)
Definition typed_step (i : Bytecode) (s s' : list SignatureToken) : Prop :=
  ∃ consumed produced rest, typed resolver fv i consumed produced ∧
    s = consumed ++ rest ∧ s' = produced ++ rest.

(** What execution may do: reach instruction [pc] with operands of the types [s], the
    top one first *)
Inductive types_at : N → list SignatureToken → Prop :=
| ta_start : types_at 0 []
| ta_step pc s i s' pc' :
    types_at pc s → at_ instrs pc = Some i → typed_step i s s' → passes_to i pc pc' →
    types_at pc' s'.

Lemma typed_step_applies i s s' : typed_step i s s' → applies resolver fv i s s'.
Proof. intros (cs & ps & rest & H & -> & ->). exists cs, ps, rest. split; [by apply typed_accepted|done]. Qed.
Lemma applies_typed_step i s s' : is_vec_pack i = false → applies resolver fv i s s' → typed_step i s s'.
Proof. intros Hi (cs & ps & rest & H & -> & ->). exists cs, ps, rest. split; [by destruct i|done]. Qed.

Lemma fields_count d args ts : fields_of d args ts → field_count d = N.of_nat (length ts).
Proof. intros (fields & Hf & H). unfold field_count. rewrite Hf. unfold len. by rewrite (Forall2_length _ _ _ H). Qed.

Ltac evaluate :=
  repeat (match goal with H : ?x = Ok _ |- context [?x] => rewrite H end; cbn [mbind result_bind]);
  unfold len; rewrite ?length_reverse, ?length_replicate, ?N2Nat.id.

(** The rules consume and produce as many operands as the stack-usage verifier counts. *)
Lemma accepted_effect i cs ps : accepted resolver fv i cs ps → instruction_effect self i = Ok (len cs, len ps).
Proof.
  intros H. destruct (is_vec_pack i) eqn:Hi.
  { destruct i; try done. by destruct H as (t & _ & <- & ->). }
  assert (typed resolver fv i cs ps) as T by (by destruct i). clear H.
  destruct T; rule_cases; cbn [instruction_effect struct_of StackUsage.resolver StackUsage.return_ verifier_of] in *;
    rule_split; try done; evaluate; try done.
  2-5: evaluate; by rewrite (fields_count _ _ _ H1).
  destruct i; try done; cbn [instruction_effect StackUsage.resolver verifier_of]; rule_split; unfold call_effect; evaluate; by rewrite <- (Forall2_length _ _ _ Hp), <- (Forall2_length _ _ _ Hr).
Qed.

Context (Hlen : len instrs <= 65534) (Hcfg : cfg_ok instrs cfg).
Context (Hbal : ∀ b bb, cfg_blocks cfg !! b = Some bb → balanced self b bb).

(** The types that the pass computes before instruction [b + n] of the block that
    starts at [b] *)
Definition types_after (b : N) (n : nat) : result PartialVMError (list SignatureToken) :=
  try_fold (verify_at v) (N.of_nat <$> seq (N.to_nat b) n) [].

Lemma types_after_S b n :
  types_after b (S n) = types_after b n ≫= λ s, verify_at v s (b + N.of_nat n).
Proof.
  unfold types_after. rewrite seq_S, fmap_app, try_fold_app.
  destruct (try_fold _ _ _) as [s| | |]; try done. cbn [fmap list_fmap try_fold mbind result_bind].
  replace (N.of_nat (N.to_nat b + n)) with (b + N.of_nat n) by lia. by destruct (verify_at _ _ _).
Qed.

Lemma verify_at_Ok s o s' :
  verify_at v s o = Ok s' ↔ ∃ i, at_ instrs o = Some i ∧ verify_instr v i o s = Ok s'.
Proof.
  unfold verify_at. cbn [ts_function_view]. destruct (at_ instrs o) as [i|]; cbn; [|by split; [|intros (? & ? & _)]].
  naive_solver.
Qed.

(** The stack of types has the height that the stack-usage verifier computes. *)
Lemma types_after_run b n s : types_after b n = Ok s → run self n b 0 = Some (len s).
Proof.
  revert s; induction n as [|n IH]; intros s'; [by intros [= <-]|].
  rewrite types_after_S, run_snoc. intros (s & Hs & (i & Hi & H)%verify_at_Ok)%bind_Ok.
  rewrite (IH _ Hs). cbn [mbind option_bind]. apply verify_instr_iff in H as (cs & ps & rest & H & -> & ->).
  apply accepted_effect in H. unfold apply_effect, effect_at. cbn [code verifier_of]. rewrite Hi. cbn [mbind option_bind].
  rewrite H. cbn [mbind option_bind]. rewrite !len_app. case_match; [lia|]. f_equal. lia.
Qed.

(** Every block starts and ends with an empty stack. *)
Lemma verify_type_block_Ok b bb s :
  cfg_blocks cfg !! b = Some bb →
  verify_type_block v [] b = Ok s → s = [] ∧ types_after b (block_len b bb) = Ok [].
Proof.
  intros Hb. unfold verify_type_block, instr_indexes, block_start, block_end. cbn [ts_function_view]. rewrite Hb.
  cbn [unwrap mbind result_bind]. rewrite (bo_entry _ _ _ (co_blocks _ _ Hcfg b bb Hb)).
  intros H. change (types_after b (block_len b bb) = Ok s) in H.
  pose proof (types_after_run _ _ _ H) as Hr. rewrite (Hbal b bb Hb) in Hr. injection Hr as Hz.
  symmetry in Hz. apply len_zero in Hz. by subst s.
Qed.
Lemma type_verify_blocks bs s :
  Forall (λ b, is_Some (cfg_blocks cfg !! b)) bs → try_fold (verify_type_block v) bs [] = Ok s →
  Forall (λ b, verify_type_block v [] b = Ok []) bs.
Proof.
  induction 1 as [|b bs [bb Hb] _ IH]; [constructor|]. cbn [try_fold]. intros (s1 & H1 & H)%bind_Ok.
  destruct (verify_type_block_Ok _ _ _ Hb H1) as [-> _]. constructor; [done|by apply IH].
Qed.

Context (Hver : type_verify resolver fv = Ok tt).

Lemma block_types b bb : cfg_blocks cfg !! b = Some bb → types_after b (block_len b bb) = Ok [].
Proof.
  intros Hb. apply bind_Ok in Hver as (s & H & _). apply type_verify_blocks in H.
  - rewrite Forall_forall in H. by apply (verify_type_block_Ok b bb []), H, elem_of_blocks.
  - apply Forall_forall. intros b'. apply elem_of_blocks.
Qed.

(** The stack of types that the block of [pc] gives it *)
Definition block_type_at (pc : N) (s : list SignatureToken) : Prop :=
  ∃ b bb, cfg_blocks cfg !! b = Some bb ∧ b <= pc ∧ pc <= bb_exit bb ∧
    types_after b (N.to_nat (pc - b)) = Ok s.

Lemma types_after_prefix b n m s :
  (m <= n)%nat → types_after b n = Ok s → ∃ s', types_after b m = Ok s'.
Proof.
  intros Hle. revert s. induction Hle as [|n Hle IH]; intros s H; [eauto|].
  rewrite types_after_S in H. apply bind_Ok in H as (s' & H & _). by apply IH in H.
Qed.

Lemma block_type_step pc s :
  block_type_at pc s →
  ∃ i s', at_ instrs pc = Some i ∧ verify_instr v i pc s = Ok s' ∧
    ∃ b bb, cfg_blocks cfg !! b = Some bb ∧ b <= pc ∧ pc <= bb_exit bb ∧
      types_after b (N.to_nat (pc + 1 - b)) = Ok s' ∧ (pc = bb_exit bb → s' = []).
Proof.
  intros (b & bb & Hb & H1 & H2 & Hs). pose proof (block_types b bb Hb) as Hbb. unfold block_len in Hbb.
  destruct (types_after_prefix b (N.to_nat (bb_exit bb + 1 - b)) (N.to_nat (pc + 1 - b)) []) as [s' Hs'];
    [lia|done|].
  pose proof Hs' as H. replace (N.to_nat (pc + 1 - b)) with (S (N.to_nat (pc - b))) in H by lia.
  rewrite types_after_S, Hs in H. cbn [mbind result_bind] in H.
  replace (b + N.of_nat (N.to_nat (pc - b))) with pc in H by lia.
  apply verify_at_Ok in H as (i & Hi & H). exists i, s'. split_and!; [done..|]. exists b, bb.
  split_and!; [done..|]. intros ->. congruence.
Qed.

Lemma types_at_block pc s : types_at pc s → pc < len instrs → block_type_at pc s.
Proof.
  induction 1 as [|pc s i s' pc' Hr IH Hi Hs Hflow]; intros Hlt.
  { destruct (co_cover _ _ Hcfg 0 Hlt) as (b & bb & Hb & H1 & H2).
    assert (b = 0) as -> by lia. exists 0, bb. by split_and!. }
  pose proof (at_Some_lt _ _ _ Hi) as Hpc.
  destruct (block_type_step pc s (IH Hpc)) as (i' & s1 & Hi' & Hv & b & bb & Hb & H1 & H2 & Hrun & Hexit).
  rewrite Hi in Hi'. injection Hi' as <-.
  apply typed_step_applies, (verify_instr_iff _ _ _ pc) in Hs. rewrite Hv in Hs. injection Hs as ->.
  destruct (passes_to_cases instrs cfg b bb pc i pc') as [[Hin ->]|(Hx & _ & [bb' Hb'])]; try done.
  - exists b, bb. split_and!; [done|lia|lia|done].
  - rewrite (Hexit Hx). exists pc', bb'.
    pose proof (bo_exit _ _ _ (co_blocks _ _ Hcfg pc' bb' Hb')) as [Hx' _].
    rewrite N.sub_diag. by split_and!.
Qed.

Lemma block_type_fun pc s s' : block_type_at pc s → block_type_at pc s' → s = s'.
Proof.
  intros (b & bb & Hb & H1 & H2 & Hr) (b' & bb' & Hb' & H1' & H2' & Hr').
  assert (b' = b) as -> by (by apply (co_disjoint _ _ Hcfg b' b bb' bb pc)). congruence.
Qed.

Lemma typed_ret cs ps : typed resolver fv Ret cs ps → cs = reverse (fv_return fv).
Proof. intros T. inversion T; subst; rule_cases; done. Qed.

Lemma typed_vec_pack idx n cs ps :
  typed resolver fv (VecPack idx n) cs ps → ∃ t, element_of resolver idx t ∧ cs = replicate (N.to_nat n) t.
Proof. intros T. inversion T; subst; rule_cases; eauto. done. Qed.

Lemma types_at_safe pc s i :
  types_at pc s → at_ instrs pc = Some i → is_vec_pack i = false →
  (∃ s', typed_step i s s') ∧ (∀ s', types_at pc s' → s' = s) ∧ (i = Ret → s = reverse (fv_return fv)).
Proof.
  intros Hr Hi Hv. pose proof (at_Some_lt _ _ _ Hi) as Hlt. pose proof (types_at_block pc s Hr Hlt) as Hb.
  destruct (block_type_step pc s Hb) as (i' & s' & Hi' & Hs & b & bb & Hbb & H1 & H2 & Hrun & Hexit).
  rewrite Hi in Hi'. injection Hi' as <-. apply verify_instr_iff in Hs. split_and!.
  - exists s'. by apply applies_typed_step.
  - intros s1 H. eapply block_type_fun; [by apply types_at_block|done].
  - intros ->. assert (pc = bb_exit bb) as Hx.
    { destruct (decide (pc = bb_exit bb)) as [|Hne]; [done|]. exfalso.
      pose proof (co_blocks _ _ Hcfg b bb Hbb) as Hok. pose proof (bo_exit _ _ _ Hok).
      apply (bo_straight _ _ _ Hok pc); [lia..|]. right. right. exists pc, Ret.
      split; [done|right]. split_and!; [done..|lia]. }
    rewrite (Hexit Hx) in Hs. destruct Hs as (cs & ps & rest & T & -> & He).
    symmetry in He. apply app_nil in He as [-> ->]. rewrite app_nil_r.
    by apply typed_ret in T.
Qed.
End TypedSafety.

(** C13. In a function without VecPack that the stack-usage and type-safety passes accept,
    and none of whose blocks pushes more than a u64 counts, an execution that starts on an
    empty stack of types can take every instruction that it comes to: its operands have
    the types that the typing rule of the instruction asks for, the types on the stack do
    not depend on the path, and at a return they are the result types. *)
Theorem type_safety_sound (overflow_checks : bool) (resolver : BinaryIndexedView) (fv : FunctionView)
    (pc : N) (s : list SignatureToken) (i : Bytecode) :
  let self := verifier_of resolver fv in
  let instrs := cu_code (fv_code fv) in
  len instrs <= 65534 → cfg_ok instrs (fv_cfg fv) → pushes_fit self (fv_cfg fv) →
  StackUsage.verify overflow_checks resolver fv = Ok tt → type_verify resolver fv = Ok tt →
  Forall (λ i, is_vec_pack i = false) instrs →
  types_at resolver fv pc s → at_ instrs pc = Some i →
  (∃ s', typed_step resolver fv i s s') ∧ (∀ s', types_at resolver fv pc s' → s' = s) ∧
  (i = Ret → s = reverse (fv_return fv)).
Proof.
  cbv zeta. intros Hlen Hcfg Hfit Hst Hty Hv Hr Hi. eapply types_at_safe; try done.
  - apply (verify_spec overflow_checks resolver fv); [|done|done].
    intros b bb Hb. apply (co_blocks _ _ Hcfg b bb Hb).
  - by apply (Forall_lookup_1 _ _ _ _ Hv Hi).
Qed.

Lemma type_safety_sound_witness :
  ∃ fv, script (script_with sample_code) = Ok fv ∧
    ∃ s', typed_step (VScript (script_with sample_code)) fv (BrTrue 4) [Bool] s'.
Proof.
  destruct sample_view_ok as (cfg & Hs & Hc & He & Hf & Hv). exists (sample_view cfg). split; [exact Hs|].
  refine (proj1 (type_safety_sound true (VScript (script_with sample_code)) (sample_view cfg) 1 [Bool] (BrTrue 4)
    _ Hc Hf Hv _ _ _ _)).
  - by vm_compute.
  - vm_compute in Hs. injection Hs as Hs. subst cfg. by vm_compute.
  - repeat constructor.
  - apply (ta_step _ _ 0 [] LdTrue [Bool]); [constructor|done| |by right].
    exists [], [Bool], []. by split; [constructor|].
  - done.
Defined.

(** ** A function that turns a struct into another

    Struct 0 has no ability, struct 1 has them all; the function packs its parameter, of
    type struct 0, as a vector of struct 1 and unpacks it. *)

Definition confusing_code : list Bytecode := [MoveLoc 0; VecPack 2 1; VecUnpack 2 1; Ret].
Definition confusing_unit : CodeUnit := {| cu_locals := 0; cu_code := confusing_code |}.
Definition confusing_handle : FunctionHandle :=
  {| fh_module := 0; fh_name := 0; fh_parameters := 1; fh_return := 2; fh_type_parameters := [] |}.
Definition confusing_module : CompiledModule :=
  {| m_version := 4; m_self_module_handle_idx := 0;
     m_module_handles := [ {| mh_address := 0; mh_name := 1 |} ];
     m_struct_handles :=
       [ {| sh_module := 0; sh_name := 1; sh_abilities := EMPTY; sh_type_parameters := [] |};
         {| sh_module := 0; sh_name := 2; sh_abilities := ALL; sh_type_parameters := [] |} ];
     m_function_handles := [ confusing_handle ]; m_field_handles := []; m_friend_decls := [];
     m_struct_def_instantiations := []; m_function_instantiations := []; m_field_instantiations := [];
     m_signatures := [ []; [Struct 0]; [Struct 1] ];
     m_identifiers := [ [102; 111; 111]; [77]; [83] ];
     m_address_identifiers := [ ZERO ]; m_constant_pool := [];
     m_struct_defs :=
       [ {| sd_struct_handle := 0;
            sd_field_information := Declared [ {| fd_name := 0; fd_signature := Bool |} ] |};
         {| sd_struct_handle := 1;
            sd_field_information := Declared [ {| fd_name := 0; fd_signature := U64 |} ] |} ];
     m_function_defs :=
       [ {| fdef_function := 0; fdef_visibility := Public; fdef_acquires_global_resources := [];
            fdef_code := Some confusing_unit |} ] |}.

(** C39. A module passes the bounds, duplication, signature, consistency, control-flow,
    stack-usage, type-safety and locals-safety checks although a function packs a value of
    one struct type into a vector of another and returns it as that type: no typing rule
    applies to its VecPack. *)
Theorem vec_pack_confuses_types :
  let resolver := VModule confusing_module in
  BoundsChecker.verify_module confusing_module = Ok tt ∧
  duplication_verify_module confusing_module = Ok tt ∧
  signature_verify_module confusing_module = Ok tt ∧
  consistency_verify_module confusing_module = Ok tt ∧
  ∃ fv, function confusing_module 0 confusing_unit confusing_handle = Ok fv ∧
    ControlFlow.verify (fv_index fv) (fv_code fv) = Ok tt ∧
    StackUsage.verify true resolver fv = Ok tt ∧
    type_verify resolver fv = Ok tt ∧
    LocalsSafety.verify resolver fv = Ok tt ∧
    fv_parameters fv = [Struct 0] ∧ fv_return fv = [Struct 1] ∧
    types_at resolver fv 1 [Struct 0] ∧ at_ confusing_code 1 = Some (VecPack 2 1) ∧
    ∀ s', ¬ typed_step resolver fv (VecPack 2 1) [Struct 0] s'.
Proof.
  cbv zeta. do 4 (split; [by vm_compute|]). eexists. split; [vm_compute; reflexivity|].
  do 4 (split; [by vm_compute|]). split_and!; try done.
  - apply (ta_step _ _ 0 [] (MoveLoc 0) [Struct 0] 1); [constructor|done| |by right].
    exists [], [Struct 0], []. by split; [constructor|].
  - intros s' (cs & ps & rest & T & Hs & _). apply typed_vec_pack in T as (t & He & ->).
    destruct He as (sig & Hsig & Ht). vm_compute in Hsig. injection Hsig as <-. injection Ht as <-. discriminate Hs.
Qed.
