(* ===== verification/ModulePasses.v ===== *)
(** * ModulePasses: friends, entry-point signatures and field abilities

    Models [friends.rs], [script_signature.rs] and [ability_field_requirements.rs] of
    [language/bytecode-verifier/src], and the location that the passes give their errors. *)

From S2P Require Import Prelude Checks CoreTypes VmStatus Abilities FileFormat Errors BinaryCommon Deserializer RoundTrip Views BoundsChecker InBounds CheckedUnits Duplication SignatureChecker SignatureRules.

Import SignatureToken.

(** ** Locations *)

(** [.map_err(|e| e.finish(Location::Module(module.self_id())))] *)
Definition in_module {A} (module : CompiledModule) (r : result PartialVMError A) : result VMError A :=
  match r with
  | Ok a => Ok a
  | Err e => match self_id (VModule module) with
             | Ok (Some id) => Err (finish e (LModule id))
             | _ => Panic
             end
  | Panic => Panic
  | OutOfFuel => OutOfFuel
  end.
(** [.map_err(|e| e.finish(Location::Script))] *)
Definition in_script {A} (r : result PartialVMError A) : result VMError A :=
  map_err (λ e, finish e LScript) r.

(** ** [friends.rs] *)

(** [iter.any(f)] and [iter.find(f)] of a predicate that may panic *)
Fixpoint any {A} (f : A → result StatusCode bool) (l : list A) : result PartialVMError bool :=
  match l with
  | [] => Ok false
  | x :: l => b ← partial (f x); if b : bool then Ok true else any f l
  end.
Fixpoint find {A} (f : A → result StatusCode bool) (l : list A) : result PartialVMError (option A) :=
  match l with
  | [] => Ok None
  | x :: l => b ← partial (f x); if b : bool then Ok (Some x) else find f l
  end.

(** [verify_module_impl] *)
Definition friends_verify_module (module : CompiledModule) : result PartialVMError unit :=
  self_handle ← partial (module_handle_at (VModule module) (m_self_module_handle_idx module));
  if bool_decide (self_handle ∈ m_friend_decls module)
  then Err (PartialVMError_new INVALID_FRIEND_DECL_WITH_SELF) else
  handle ← partial (module_handle_at (VModule module) (m_self_module_handle_idx module));
  self_address ← partial (address_identifier_at (VModule module) (mh_address handle));
  has_external_friend ← any (λ handle,
    address ← address_identifier_at (VModule module) (mh_address handle);
    Ok (bool_decide (address ≠ self_address))) (m_friend_decls module);
  if has_external_friend : bool
  then Err (PartialVMError_new INVALID_FRIEND_DECL_WITH_MODULES_OUTSIDE_ACCOUNT_ADDRESS)
  else Ok tt.

(** ** [script_signature.rs] *)

(** [iter.skip_while(f)] *)
Fixpoint skip_while {A} (f : A → bool) (l : list A) : list A :=
  match l with
  | [] => []
  | x :: l => if f x then skip_while f l else x :: l
  end.

Definition is_signer_reference (typ : SignatureToken) : bool :=
  match typ with Reference Signer => true | _ => false end.

(** [verify_main_signature_impl] *)
Definition verify_main_signature_impl (resolver : BinaryIndexedView) (parameters : SignatureIndex)
    (return_type_opt : option SignatureIndex) : result PartialVMError unit :=
  arguments ← partial (signature_at resolver parameters);
  let all_args_have_valid_type :=
    if view_version resolver <=? VERSION_1
    then forallb is_valid_for_constant (skip_while is_signer_reference arguments)
    else forallb is_valid_for_constant (skip_while is_signer arguments) in
  has_valid_return_type ← match return_type_opt with
                          | Some idx => sig ← partial (signature_at resolver idx); Ok (is_empty sig)
                          | None => Ok true
                          end;
  if negb all_args_have_valid_type || negb has_valid_return_type
  then Err (PartialVMError_new INVALID_MAIN_FUNCTION_SIGNATURE)
  else Ok tt.

(** [verify_script] and [verify_module_script_function] *)
Definition main_verify_script (script : CompiledScript) : result VMError unit :=
  in_script (verify_main_signature_impl (VScript script) (s_parameters script) None).
Definition verify_module_script_function (module : CompiledModule) (name : Identifier)
  : result VMError unit :=
  let resolver := VModule module in
  fdef_opt ← in_module module (find (λ p : N * FunctionDefinition,
    h ← function_handle_at resolver (fdef_function p.2);
    id ← identifier_at resolver (fh_name h);
    Ok (bool_decide (id = name))) (enumerate (m_function_defs module)));
  match fdef_opt with
  | None => in_module module (Err (PartialVMError_new VERIFICATION_ERROR))
  | Some (idx, fdef) =>
      match fdef_visibility fdef with
      | Script =>
          in_module module (
            fhandle ← partial (function_handle_at resolver (fdef_function fdef));
            map_err (λ e, at_index e KFunctionDefinition (wrap 16 idx))
              (verify_main_signature_impl resolver (fh_parameters fhandle) (Some (fh_return fhandle))))
      | Private | Friend | Public =>
          in_module module (Err (at_index
            (PartialVMError_new EXECUTE_SCRIPT_FUNCTION_CALLED_ON_NON_SCRIPT_VISIBLE)
            KFunctionDefinition (wrap 16 idx)))
      end
  end.

(** ** [ability_field_requirements.rs] *)

(** The fields of one struct *)
Definition check_field_abilities (view : BinaryIndexedView) (idx : N) (required_abilities : AbilitySet)
    (type_parameter_abilities : list AbilitySet) (fields : list FieldDefinition)
  : result PartialVMError unit :=
  for_each (λ field,
    field_abilities ← partial (abilities view (fd_signature field) type_parameter_abilities);
    if negb (is_subset required_abilities field_abilities)
    then Err (verification_error FIELD_MISSING_TYPE_ABILITY KStructDefinition (wrap 16 idx))
    else Ok tt) fields.

(** [verify_module_impl] *)
Definition field_abilities_verify_module (module : CompiledModule) : result PartialVMError unit :=
  let view := VModule module in
  for_each (λ p : N * StructDefinition,
    let '(idx, struct_def) := p in
    sh ← partial (struct_handle_at view (sd_struct_handle struct_def));
    match sd_field_information struct_def with
    | Native => Ok tt
    | Declared fields =>
        let required_abilities :=
          foldl bitor EMPTY (requires <$> into_iter (sh_abilities sh)) in
        let type_parameter_abilities := (λ _, ALL) <$> sh_type_parameters sh in
        check_field_abilities view idx required_abilities type_parameter_abilities fields
    end) (enumerate (m_struct_defs module)).

(** ** Specification *)

(** The friends of the module are other modules of its account. *)
Definition friends_ok (m : CompiledModule) : Prop :=
  ∀ self, at_ (m_module_handles m) (m_self_module_handle_idx m) = Some self →
    self ∉ m_friend_decls m ∧
    Forall (λ f, at_ (m_address_identifiers m) (mh_address f) = at_ (m_address_identifiers m) (mh_address self))
      (m_friend_decls m).

(** An entry point takes signers first and then values that a transaction can carry, and
    returns nothing. *)
Definition entry_point (version : N) (parameters : Signature) (return_ : option Signature) : Prop :=
  let signer := if version <=? VERSION_1 then Reference Signer else Signer in
  (∃ n values, parameters = replicate n signer ++ values ∧ Forall (λ t, is_valid_for_constant t = true) values) ∧
  ∀ r, return_ = Some r → r = [].

(** The fields of a struct have what the abilities of the struct require, when its type
    arguments have all abilities. *)
Definition field_supports (m : CompiledModule) (sh : StructHandle) (f : FieldDefinition) : Prop :=
  ∃ a, abilities (VModule m) (fd_signature f) ((λ _, ALL) <$> sh_type_parameters sh) = Ok a ∧
    ∀ b, has_ability (sh_abilities sh) b = true → has_ability a (requires b) = true.
Definition fields_support (m : CompiledModule) (d : StructDefinition) : Prop :=
  ∀ sh fields, at_ (m_struct_handles m) (sd_struct_handle d) = Some sh →
    sd_field_information d = Declared fields → Forall (field_supports m sh) fields.

(** ** The passes decide it *)

Section Module.
Context (m : CompiledModule) (Hm : unit_in_bounds (VModule m)).
Notation v := (VModule m).

Lemma self_id_total : ∃ id, self_id v = Ok (Some id).
Proof.
  destruct (module_handle_at_total _ Hm _ (ib_self _ Hm _ eq_refl)) as (h & Hh & H1 & H2).
  unfold self_id, module_id_for_handle, address_identifier_at, identifier_at.
  cbn [view_self_handle_idx]. cbn in Hh |- *. rewrite Hh. simpl.
  destruct (unwrap_at (E := StatusCode) _ _ H1) as (a & Ha & _). cbn in Ha. rewrite Ha. simpl.
  destruct (unwrap_at (E := StatusCode) _ _ H2) as (n & Hn & _). cbn in Hn. rewrite Hn. simpl. eauto.
Qed.
Lemma in_module_Ok {A} (r : result PartialVMError A) a : in_module m r = Ok a ↔ r = Ok a.
Proof. destruct self_id_total as [id Hid]. destruct r; simpl; rewrite ?Hid; split; congruence. Qed.
Lemma in_module_no_panic {A} (r : result PartialVMError A) : no_panic r → no_panic (in_module m r).
Proof. destruct self_id_total as [id Hid]. destruct r; simpl; by rewrite ?Hid. Qed.
Lemma decides_in_module r (P : Prop) : decides r P → decides (in_module m r) P.
Proof. intros [Hn H]. split; [by apply in_module_no_panic|]. by rewrite in_module_Ok. Qed.

Lemma module_handle_at_Some idx h : at_ (m_module_handles m) idx = Some h → module_handle_at v idx = Ok h.
Proof.
  intros Hh. destruct (module_handle_at_total _ Hm idx) as (h' & Hh' & _); [apply at_below; eauto|].
  rewrite Hh'. unfold module_handle_at in Hh'. cbn in Hh'. rewrite Hh in Hh'. cbn in Hh'.
  unfold assumed_postcondition in Hh'. by destruct (_ && _).
Qed.

Lemma any_spec {A} (f : A → result StatusCode bool) (P : A → bool) l :
  Forall (λ x, f x = Ok (P x)) l → any f l = Ok (existsb P l).
Proof.
  induction 1 as [|x l Hx _ IH]; [done|]. cbn [any existsb]. rewrite Hx. cbn. by destruct (P x).
Qed.
Lemma find_spec {A} (f : A → result StatusCode bool) (P : A → bool) l :
  Forall (λ x, f x = Ok (P x)) l → find f l = Ok (List.find P l).
Proof.
  induction 1 as [|x l Hx _ IH]; [done|]. cbn [find List.find]. rewrite Hx. cbn. by destruct (P x).
Qed.

Lemma friends_decides : decides (friends_verify_module m) (friends_ok m).
Proof.
  unfold friends_verify_module, friends_ok.
  destruct (proj1 (at_below _ _) (ib_self _ Hm _ eq_refl)) as [self Hs].
  pose proof (Forall_lookup_1 _ _ _ _ (ib_module_handles _ Hm) Hs) as [[a Ha]%at_below _]. cbn in Hs, Ha.
  rewrite (module_handle_at_Some _ _ Hs). cbn [partial map_err mbind result_bind].
  assert (address_identifier_at v (mh_address self) = Ok a) as -> by (unfold address_identifier_at; cbn; by rewrite Ha).
  cbn [partial map_err mbind result_bind].
  rewrite (any_spec _ (λ f, bool_decide (at_ (m_address_identifiers m) (mh_address f) ≠ Some a))).
  - cbn [mbind result_bind]. rewrite Hs. eapply decides_iff; [|apply decides_guard; intros _; apply decides_if].
    rewrite bool_decide_eq_false. split.
    + intros [Hn He] ? [= <-]. split; [done|]. rewrite Ha, Forall_forall. intros f Hf.
      destruct (decide (at_ (m_address_identifiers m) (mh_address f) = Some a)) as [|Hne]; [done|].
      enough (false = true) by done. rewrite <- He. apply existsb_exists. exists f.
      split; [by apply list_elem_of_In|by apply bool_decide_eq_true].
    + intros H. destruct (H _ eq_refl) as [Hn Hf]. split; [done|]. apply not_true_iff_false. intros He.
      apply existsb_exists in He as (f & Hin%list_elem_of_In & Hne%bool_decide_eq_true).
      rewrite Forall_forall in Hf. apply Hne. rewrite <- Ha. by apply Hf.
  - pose proof (ib_friend_decls _ Hm) as Hf. cbn in Hf. eapply Forall_impl; [exact Hf|]. intros f [Hb _].
    destruct (proj1 (at_below _ _) Hb) as [b Hb']. cbn in Hb'. unfold address_identifier_at. cbn. rewrite Hb'. cbn.
    f_equal. apply bool_decide_ext. naive_solver.
Qed.
End Module.

Lemma skip_while_forallb {A} (f P : A → bool) l :
  forallb P (skip_while f l) = true ↔
  ∃ l1 l2, l = l1 ++ l2 ∧ Forall (λ x, f x = true) l1 ∧ Forall (λ x, P x = true) l2.
Proof.
  induction l as [|x l IH]; cbn [skip_while].
  - split; [|done]. intros _. exists [], []. by split_and!.
  - destruct (f x) eqn:Hx.
    + rewrite IH. split.
      * intros (l1 & l2 & -> & H1 & H2). exists (x :: l1), l2. split_and!; [done|by constructor|done].
      * intros ([|y l1] & l2 & Hl & H1 & H2).
        -- cbn in Hl. subst l2. apply Forall_cons in H2 as [_ H2]. exists [], l. by split_and!.
        -- injection Hl as <- ->. apply Forall_cons in H1 as [_ H1]. eauto.
    + rewrite forallb_forall. setoid_rewrite <- list_elem_of_In. rewrite <- Forall_forall. split.
      * intros H. exists [], (x :: l). by split_and!.
      * intros ([|y l1] & l2 & Hl & H1 & H2); [by cbn in Hl; subst l2|].
        injection Hl as <- ->. apply Forall_cons in H1 as [H1 _]. congruence.
Qed.
Lemma Forall_replicate_eq {A} (f : A → bool) (x : A) l :
  (∀ y, f y = true ↔ y = x) → Forall (λ y, f y = true) l ↔ ∃ n, l = replicate n x.
Proof.
  intros Hf. split.
  - induction 1 as [|y l Hy%Hf _ [n ->]]; [by exists 0%nat|]. exists (S n). by subst.
  - intros [n ->]. apply Forall_replicate. by apply Hf.
Qed.
Lemma is_signer_spec t : is_signer t = true ↔ t = Signer.
Proof. destruct t; naive_solver. Qed.
Lemma is_signer_reference_spec t : is_signer_reference t = true ↔ t = Reference Signer.
Proof. destruct t as [| | | | | | | | |t| |]; try naive_solver. destruct t; naive_solver. Qed.

Lemma main_signature_decides v parameters return_type_opt ps rs :
  at_ (view_signatures v) parameters = Some ps →
  (∀ idx, return_type_opt = Some idx → at_ (view_signatures v) idx = rs ∧ is_Some rs) →
  (return_type_opt = None → rs = None) →
  decides (verify_main_signature_impl v parameters return_type_opt) (entry_point (view_version v) ps rs).
Proof.
  intros Hps Hrs Hnone. unfold verify_main_signature_impl. rewrite (signature_at_Some v _ _ Hps). cbn [partial map_err mbind result_bind].
  assert (∃ b, (match return_type_opt with Some idx => partial (signature_at v idx) ≫= λ sig : Signature, Ok (is_empty sig) | None => Ok true end)
    = Ok (E := PartialVMError) b ∧ (b = true ↔ ∀ r, rs = Some r → r = [])) as (b & Hr & Hb).
  { destruct return_type_opt as [idx|].
    - destruct (Hrs _ eq_refl) as [Hat [r ->]]. rewrite (signature_at_Some v _ _ Hat). cbn. eexists. split; [done|].
      destruct r; naive_solver.
    - rewrite Hnone by done. exists true. by split. }
  eapply decides_Ok_bind; [exact Hr|].
  eapply decides_iff; [|apply decides_if]. rewrite orb_false_iff, !negb_false_iff, Hb. unfold entry_point. f_equiv.
  destruct (view_version v <=? VERSION_1); rewrite skip_while_forallb;
    setoid_rewrite (Forall_replicate_eq _ _ _ is_signer_reference_spec) || setoid_rewrite (Forall_replicate_eq _ _ _ is_signer_spec);
    naive_solver.
Qed.

(** ** Abilities of fields *)

Lemma is_subset_spec c s :
  AbilitySet_ok c → is_subset c s = true ↔ ∀ b, has_ability c b = true → has_ability s b = true.
Proof.
  intros Hc. unfold is_subset, is_subset_bits. rewrite N.eqb_eq. setoid_rewrite has_ability_bit. split.
  - intros H b Hb. rewrite <- H, N.land_spec in Hb. by apply andb_true_iff in Hb as [_ Hb].
  - intros H. apply N.bits_inj. intros i. rewrite N.land_spec.
    destruct (N.testbit c i) eqn:Hi; [|done]. rewrite andb_true_l.
    assert (i < 4) as Hlt.
    { destruct (N.lt_ge_cases i 4) as [|Hge]; [done|]. rewrite N.bits_above_log2 in Hi; [done|].
      unfold AbilitySet_ok in Hc. pose proof (N.log2_le_mono c 15 ltac:(lia)) as Hl. cbn in Hl. lia. }
    assert (i = 0 ∨ i = 1 ∨ i = 2 ∨ i = 3) as [->|[->|[->| ->]]] by lia;
      [by apply (H Copy)|by apply (H Drop)|by apply (H Store)|by apply (H Key)].
Qed.
Lemma required_spec s b :
  AbilitySet_ok s →
  has_ability (foldl bitor EMPTY (requires <$> into_iter s)) b = true ↔
  ∃ a, has_ability s a = true ∧ requires a = b.
Proof.
  revert s. apply AbilitySet_ok_ind; destruct b;
    (split; [intros H; first [discriminate H|by exists Copy|by exists Drop|by exists Store|by exists Key]
            |intros ([] & H1 & H2); first [discriminate H1|discriminate H2|reflexivity]]).
Qed.
Lemma required_ok s : AbilitySet_ok s → AbilitySet_ok (foldl bitor EMPTY (requires <$> into_iter s)).
Proof. revert s. by apply AbilitySet_ok_ind. Qed.

Lemma fields_decides m :
  unit_in_bounds (VModule m) → Forall (λ sh, AbilitySet_ok (sh_abilities sh)) (m_struct_handles m) →
  decides (field_abilities_verify_module m) (Forall (fields_support m) (m_struct_defs m)).
Proof.
  intros Hm Hok. apply (decides_enumerate _ (fields_support m)). intros i d Hd.
  destruct (Forall_lookup_1 _ _ _ _ (ib_struct_defs _ Hm) Hd) as (sh & Hsh & Hf).
  unfold fields_support. rewrite (struct_handle_at_total _ Hm _ _ Hsh). cbn [partial map_err mbind result_bind].
  cbn [view_struct_handles] in Hsh. pose proof (Forall_lookup_1 _ _ _ _ Hok Hsh) as Hsok. cbn in Hsok.
  destruct (sd_field_information d) as [|fields]; [by apply decides_ok|]. unfold check_field_abilities.
  eapply decides_iff; [|apply (decides_for_each _ (field_supports m sh)); intros f Hin].
  - split; [|naive_solver]. intros H sh' fs Hsh' [= <-]. rewrite Hsh in Hsh'. injection Hsh' as <-. exact H.
  - unfold field_supports. rewrite Forall_forall in Hf. destruct (Hf f Hin) as (_ & Hb & Hp).
    destruct (abilities_total (VModule m) (fd_signature f) ((λ _, ALL) <$> sh_type_parameters sh) Hm Hb) as [a Ha].
    { unfold len. by rewrite length_fmap. }
    rewrite Ha. cbn [partial map_err mbind result_bind]. eapply decides_iff; [|apply decides_if].
    rewrite negb_false_iff, is_subset_spec by by apply required_ok.
    setoid_rewrite (required_spec _ _ Hsok). naive_solver.
Qed.

(** ** Maps from the keys of a table to its indices *)

(** Keys are inserted in order; with distinct keys each finds its entry. *)
Lemma index_map_Some {A} (key : A → N) (l : list A) (h i : N) :
  len l <= 65536 → NoDup (key <$> l) →
  foldl (λ (map : gmap N N) p, <[ key p.2 := wrap 16 p.1 ]> map) ∅ (enumerate l) !! h = Some i ↔
  ∃ d, at_ l i = Some d ∧ key d = h.
Proof.
  unfold enumerate, at_.
  enough (∀ (l : list A) k (map : gmap N N), N.of_nat k + len l <= 65536 → NoDup (key <$> l) →
    (∀ d, d ∈ l → map !! key d = None) →
    foldl (λ map p, <[ key p.2 := wrap 16 p.1 ]> map) map (imap (λ n d, (N.of_nat (k + n), d)) l) !! h = Some i ↔
    map !! h = Some i ∨ ∃ n d, l !! n = Some d ∧ i = N.of_nat (k + n) ∧ key d = h) as H.
  { intros Hlen Hdup. rewrite (H l 0%nat); [|lia|done|by intros]. rewrite lookup_empty. split.
    - intros [|(n & d & Hn & -> & Hd)]; [done|]. exists d. by rewrite Nat2N.id.
    - intros (d & Hd & Hh). right. exists (N.to_nat i), d. split_and!; [done|lia|done]. }
  clear l. induction l as [|x l IH]; intros k map Hk Hnd Hnone.
  { cbn. split; [by left|]. intros [|(n & d & Hn & _)]; done. }
  cbn [fmap list_fmap] in Hnd. apply NoDup_cons in Hnd as [Hx Hnd]. rewrite imap_cons. cbn [foldl fst snd].
  rewrite (imap_ext _ (λ n d, (N.of_nat (S k + n), d))) by (intros; cbn; do 2 f_equal; lia).
  rewrite len_cons in Hk. rewrite IH; [|lia|done|].
  2: { intros y Hy. rewrite lookup_insert_ne; [apply Hnone; by right|]. intros Heq. apply Hx. rewrite Heq. by apply list_elem_of_fmap_2. }
  assert (wrap 16 (N.of_nat (k + 0)) = N.of_nat k) as -> by (unfold wrap; rewrite N.mod_small; lia).
  destruct (decide (key x = h)) as [<-|Hne].
  - rewrite lookup_insert, decide_True by done. rewrite (Hnone x) by by left. split.
    + intros [[= <-]|(n & d & Hn & _ & Hd)]; [right; exists 0%nat, x; split_and!; [done|lia|done]|].
      exfalso. apply Hx. rewrite <- Hd. apply list_elem_of_fmap_2. by eapply list_elem_of_lookup_2.
    + intros [|([|n] & d & Hn & -> & Hd)]; [done|left; f_equal; lia|].
      exfalso. apply Hx. rewrite <- Hd. apply list_elem_of_fmap_2. by eapply list_elem_of_lookup_2.
  - rewrite lookup_insert_ne by done. split.
    + intros [|(n & d & Hn & -> & Hd)]; [by left|right]. exists (S n), d. split_and!; [done|lia|done].
    + intros [|([|n] & d & Hn & -> & Hd)]; [by left|by injection Hn as ->|right]. exists n, d. split_and!; [done|lia|done].
Qed.

(** ** The passes *)

(** On a module in bounds the friend check accepts exactly when no friend is the
    module itself or lives at another address, and the field check exactly when the fields
    of every struct have the abilities that those of the struct require; neither panics. *)
Theorem module_passes_spec (m : CompiledModule) :
  BoundsChecker.verify_module m = Ok tt →
  Forall (λ sh, AbilitySet_ok (sh_abilities sh)) (m_struct_handles m) →
  decides (in_module m (friends_verify_module m)) (friends_ok m) ∧
  decides (in_module m (field_abilities_verify_module m)) (Forall (fields_support m) (m_struct_defs m)).
Proof.
  intros [_ Hm]%verify_module_iff Hok.
  split; apply decides_in_module; [done|by apply friends_decides|done|by apply fields_decides].
Qed.

Lemma module_passes_spec_witness :
  decides (in_module sample_module (friends_verify_module sample_module)) (friends_ok sample_module).
Proof. refine (proj1 (module_passes_spec sample_module _ _)); [by vm_compute|by repeat constructor]. Defined.

(** The entry points of scripts and of modules *)
Theorem main_verify_script_spec (s : CompiledScript) (parameters : Signature) :
  at_ (s_signatures s) (s_parameters s) = Some parameters →
  decides (main_verify_script s) (entry_point (s_version s) parameters None).
Proof. intros Hp. apply decides_map_err. by apply (main_signature_decides (VScript s) _ None parameters None). Qed.

Lemma main_verify_script_spec_witness :
  decides (main_verify_script sample_script) (entry_point 4 [] None).
Proof. apply (main_verify_script_spec sample_script []). reflexivity. Defined.

(** ** Script functions of modules *)

Lemma find_enumerate {A} (P : A → bool) l i x :
  List.find (λ p : N * A, P p.2) (enumerate l) = Some (i, x) ↔
  at_ l i = Some x ∧ P x = true ∧ ∀ j y, j < i → at_ l j = Some y → P y = false.
Proof.
  assert (∀ k, List.find (λ p : N * A, P p.2) (imap (λ n y, (N.of_nat (k + n), y)) l) = Some (i, x) ↔
    ∃ n, i = N.of_nat (k + n) ∧ l !! n = Some x ∧ P x = true ∧ ∀ j y, (j < n)%nat → l !! j = Some y → P y = false) as H.
  { induction l as [|z l IH]; intros k.
    - cbn. split; [done|]. by intros (n & _ & H & _).
    - rewrite imap_cons. cbn [List.find snd]. destruct (P z) eqn:Hz.
      + split.
        * intros [= <- <-]. exists 0%nat. split_and!; try done. lia.
        * intros (n & -> & Hn & Hx & Hmin). destruct n as [|n]; [by injection Hn as ->|].
          specialize (Hmin 0%nat z ltac:(lia) eq_refl). congruence.
      + rewrite (imap_ext _ (λ n y, (N.of_nat (S k + n), y))) by (intros; cbn; do 2 f_equal; lia).
        rewrite IH. split.
        * intros (n & -> & Hn & Hx & Hmin). exists (S n). split_and!; [lia|done|done|].
          intros [|j] y Hj Hy; [by injection Hy as ->|]. apply (Hmin j); [lia|done].
        * intros (n & -> & Hn & Hx & Hmin). destruct n as [|n]; [injection Hn as ->; congruence|].
          exists n. split_and!; [lia|done|done|]. intros j y Hj Hy. apply (Hmin (S j)); [lia|done]. }
  specialize (H 0%nat). unfold enumerate. rewrite H. unfold at_. split.
  - intros (n & -> & Hn & Hx & Hmin). rewrite Nat2N.id. split_and!; [done|done|].
    intros j y Hj. apply Hmin. lia.
  - intros (Hi & Hx & Hmin). exists (N.to_nat i). split_and!; [lia|done|done|].
    intros j y Hj Hy. apply (Hmin (N.of_nat j)); [lia|by rewrite Nat2N.id].
Qed.

Section ScriptFunction.
Context (m : CompiledModule) (Hm : unit_in_bounds (VModule m)) (name : Identifier).
Notation v := (VModule m).

Definition has_name (d : FunctionDefinition) : bool :=
  match at_ (m_function_handles m) (fdef_function d) with
  | Some h => bool_decide (at_ (m_identifiers m) (fh_name h) = Some name)
  | None => false
  end.
(** [d] is the first definition of that name. *)
Definition first_named (i : N) (d : FunctionDefinition) : Prop :=
  at_ (m_function_defs m) i = Some d ∧ has_name d = true ∧
  ∀ j d', j < i → at_ (m_function_defs m) j = Some d' → has_name d' = false.

Definition script_function_ok : Prop :=
  ∃ i d h ps rs, first_named i d ∧ fdef_visibility d = Script ∧
    at_ (m_function_handles m) (fdef_function d) = Some h ∧
    at_ (m_signatures m) (fh_parameters h) = Some ps ∧ at_ (m_signatures m) (fh_return h) = Some rs ∧
    entry_point (m_version m) ps (Some rs).

Lemma script_function_decides : decides (verify_module_script_function m name) script_function_ok.
Proof.
  unfold verify_module_script_function. cbv zeta.
  assert (∀ i d, at_ (m_function_defs m) i = Some d → ∃ h, at_ (m_function_handles m) (fdef_function d) = Some h ∧
    function_handle_at v (fdef_function d) = Ok h ∧ function_handle_in_bounds v h) as Hdef.
  { intros i d Hd. destruct (Forall_lookup_1 _ _ _ _ (ib_function_defs _ Hm) Hd) as [[h Hh]%at_below _].
    exists h. split_and!; [done|by apply function_handle_at_Some|].
    exact (Forall_lookup_1 _ _ _ _ (ib_function_handles _ Hm) Hh). }
  rewrite (find_spec _ (λ p : N * FunctionDefinition, has_name p.2)).
  2: { apply Forall_forall. intros [i d] Hin. unfold enumerate in Hin.
    apply elem_of_lookup_imap in Hin as (j & y & [= -> ->] & Hy).
    destruct (Hdef (N.of_nat j) y) as (h & Hh & Hf & _ & Hn & _); [unfold at_; by rewrite Nat2N.id|].
    cbn [snd]. rewrite Hf. cbn [mbind result_bind]. unfold has_name. rewrite Hh.
    destruct (proj1 (at_below _ _) Hn) as [id Hid]. cbn in Hid. unfold identifier_at. cbn. rewrite Hid. cbn.
    f_equal. apply bool_decide_ext. naive_solver. }
  change (in_module m (Ok (E := PartialVMError) ?o)) with (Ok (E := VMError) o).
  destruct (List.find _ _) as [[i d]|] eqn:Hfind; cbn [mbind result_bind].
  - apply (find_enumerate has_name) in Hfind. change (first_named i d) in Hfind.
    assert (script_function_ok ↔ fdef_visibility d = Script ∧ ∃ h ps rs,
      at_ (m_function_handles m) (fdef_function d) = Some h ∧ at_ (m_signatures m) (fh_parameters h) = Some ps ∧
      at_ (m_signatures m) (fh_return h) = Some rs ∧ entry_point (m_version m) ps (Some rs)) as ->.
    { split; [|intros (Hv & h & ps & rs & ?); by exists i, d, h, ps, rs].
      intros (i' & d' & h & ps & rs & Hf & Hv & Hr). assert (i' = i ∧ d' = d) as [-> ->]; [|eauto 10].
      destruct Hf as (H1 & H2 & H3), Hfind as (H1' & H2' & H3').
      assert (i' = i) as ->; [|split; congruence].
      destruct (N.lt_trichotomy i i') as [Hlt|[|Hlt]]; [|done|];
        [specialize (H3 _ _ Hlt H1')|specialize (H3' _ _ Hlt H1)]; congruence. }
    destruct (fdef_visibility d) eqn:Hv; try (apply decides_in_module; [done|]; apply decides_err; intros [[=] _]).
    apply decides_in_module; [done|]. destruct (Hdef _ _ (proj1 Hfind)) as (h & Hh & Hf & _ & _ & [ps Hps]%at_below & [rs Hrs]%at_below & _).
    rewrite Hf. cbn [partial map_err mbind result_bind]. apply decides_map_err.
    eapply decides_iff; [|apply (main_signature_decides v _ _ ps (Some rs)); [done| |done]].
    + split; [intros H; split; [done|]; by exists h, ps, rs|]. intros (_ & h' & ps' & rs' & Hh' & Hps' & Hrs' & H).
      cbn in *. congruence.
    + intros idx [= <-]. by split.
  - apply decides_in_module; [done|]. apply decides_err. intros (i & d & h & ps & rs & Hf & _).
    apply (find_enumerate has_name) in Hf. cbn in *. congruence.
Qed.
End ScriptFunction.

(** The entry-point check of a module in bounds never panics and accepts a name
    exactly when the first function of that name has script visibility, takes signers
    followed by constant-like values and returns nothing. *)
Theorem verify_module_script_function_spec (m : CompiledModule) (name : Identifier) :
  BoundsChecker.verify_module m = Ok tt →
  decides (verify_module_script_function m name) (script_function_ok m name).
Proof. intros [_ Hm]%verify_module_iff. by apply script_function_decides. Qed.

Lemma verify_module_script_function_spec_witness :
  decides (verify_module_script_function sample_module [102; 111; 111]) (script_function_ok sample_module [102; 111; 111]).
Proof. apply verify_module_script_function_spec. by vm_compute. Defined.
