(* ===== verification/AcquiresList.v ===== *)
(** * AcquiresList: the resources that a function acquires

    Models [language/bytecode-verifier/src/acquires_list_verifier.rs]: the annotation of
    a function lists exactly the resources of the module that its code, or a function of
    the module that it calls, takes out of global storage. *)

From stdpp Require Import sorting.
From S2P Require Import Prelude Checks CoreTypes VmStatus Abilities FileFormat Errors Deserializer RoundTrip Views BoundsChecker InBounds CheckedUnits Duplication SignatureChecker ModulePasses.

Import Bytecode.

(** [pub(crate) struct AcquiresVerifier] *)
Record AcquiresVerifier : Set := {
  av_module : CompiledModule;
  av_current_function : FunctionDefinitionIndex;
  av_annotated_acquires : gset StructDefinitionIndex;
  av_actual_acquires : gset StructDefinitionIndex;
  av_handle_to_def : gmap FunctionHandleIndex FunctionDefinition }.

Definition av_set_actual (self : AcquiresVerifier) (s : gset StructDefinitionIndex) : AcquiresVerifier :=
  {| av_module := av_module self; av_current_function := av_current_function self;
     av_annotated_acquires := av_annotated_acquires self; av_actual_acquires := s;
     av_handle_to_def := av_handle_to_def self |}.

Definition av_error (self : AcquiresVerifier) (status : StatusCode) (offset : CodeOffset) : PartialVMError :=
  at_code_offset (PartialVMError_new status) (av_current_function self) offset.

Definition function_acquired_resources (self : AcquiresVerifier) (function_handle : FunctionHandle)
    (fh_idx : FunctionHandleIndex) : gset StructDefinitionIndex :=
  if negb (fh_module function_handle =? m_self_module_handle_idx (av_module self)) then ∅
  else match av_handle_to_def self !! fh_idx with
       | Some func_def => list_to_set (fdef_acquires_global_resources func_def)
       | None => ∅
       end.

Definition struct_acquire (self : AcquiresVerifier) (sd_idx : StructDefinitionIndex) (offset : CodeOffset)
  : result PartialVMError AcquiresVerifier :=
  if bool_decide (sd_idx ∈ av_annotated_acquires self)
  then Ok (av_set_actual self ({[ sd_idx ]} ∪ av_actual_acquires self))
  else Err (av_error self MISSING_ACQUIRES_ANNOTATION offset).

(** The elements of a [BTreeSet], in order *)
Definition ascending (s : gset StructDefinitionIndex) : list StructDefinitionIndex := merge_sort N.le (elements s).

Definition call_acquire (self : AcquiresVerifier) (fh_idx : FunctionHandleIndex) (offset : CodeOffset)
  : result PartialVMError AcquiresVerifier :=
  function_handle ← partial (function_handle_at (VModule (av_module self)) fh_idx);
  let function_acquired_resources := function_acquired_resources self function_handle fh_idx in
  _ ← for_each (λ acquired_resource,
        if negb (bool_decide (acquired_resource ∈ av_annotated_acquires self))
        then Err (av_error self MISSING_ACQUIRES_ANNOTATION offset) else Ok tt)
        (ascending function_acquired_resources);
  Ok (av_set_actual self (av_actual_acquires self ∪ function_acquired_resources)).

(** [verify_instruction] *)
Definition acquires_verify_instruction (self : AcquiresVerifier) (p : N * Bytecode)
  : result PartialVMError AcquiresVerifier :=
  let '(i, instruction) := p in
  let offset := wrap 16 i in
  match instruction with
  | Call idx => call_acquire self idx offset
  | CallGeneric idx =>
      fi ← partial (function_instantiation_at (VModule (av_module self)) idx);
      call_acquire self (fi_handle fi) offset
  | MoveFrom idx | MutBorrowGlobal idx | ImmBorrowGlobal idx => struct_acquire self idx offset
  | MoveFromGeneric idx | MutBorrowGlobalGeneric idx | ImmBorrowGlobalGeneric idx =>
      si ← partial (struct_instantiation_at (VModule (av_module self)) idx);
      struct_acquire self (sdi_def si) offset
  | _ => Ok self
  end.

(** The check of one annotation *)
Definition check_annotation (verifier : AcquiresVerifier) (annotation : StructDefinitionIndex)
  : result PartialVMError unit :=
  let module := av_module verifier in
  if negb (bool_decide (annotation ∈ av_actual_acquires verifier))
  then Err (PartialVMError_new EXTRANEOUS_ACQUIRES_ANNOTATION) else
  struct_def ← unwrap (at_ (m_struct_defs module) annotation);
  struct_handle ← partial (struct_handle_at (VModule module) (sd_struct_handle struct_def));
  if negb (has_key (sh_abilities struct_handle))
  then Err (PartialVMError_new INVALID_ACQUIRES_ANNOTATION) else Ok tt.

(** [handle_to_def]; later definitions replace earlier ones. *)
Definition handle_to_def (module : CompiledModule) : gmap FunctionHandleIndex FunctionDefinition :=
  foldl (λ map func_def, <[ fdef_function func_def := func_def ]> map) ∅ (m_function_defs module).

(** [AcquiresVerifier::verify] *)
Definition acquires_verify (module : CompiledModule) (index : FunctionDefinitionIndex)
    (function_definition : FunctionDefinition) : result PartialVMError unit :=
  let verifier := {| av_module := module; av_current_function := index;
    av_annotated_acquires := list_to_set (fdef_acquires_global_resources function_definition);
    av_actual_acquires := ∅; av_handle_to_def := handle_to_def module |} in
  code ← unwrap (fdef_code function_definition);
  verifier ← try_fold acquires_verify_instruction (enumerate (cu_code code)) verifier;
  for_each (check_annotation verifier) (ascending (av_annotated_acquires verifier)).

(** ** Specification *)

Section Spec.
Context (m : CompiledModule).

(** Instruction [i] takes resource [d] of the module out of global storage, itself or by a
    call of a function of the module that is annotated with it. *)
Definition calls (h_idx : FunctionHandleIndex) (d : StructDefinitionIndex) : Prop :=
  ∃ h def, at_ (m_function_handles m) h_idx = Some h ∧ fh_module h = m_self_module_handle_idx m ∧
    def ∈ m_function_defs m ∧ fdef_function def = h_idx ∧ d ∈ fdef_acquires_global_resources def.
Definition acquires (i : Bytecode) (d : StructDefinitionIndex) : Prop :=
  match i with
  | Call idx => calls idx d
  | CallGeneric idx => ∃ fi, at_ (m_function_instantiations m) idx = Some fi ∧ calls (fi_handle fi) d
  | MoveFrom idx | MutBorrowGlobal idx | ImmBorrowGlobal idx => d = idx
  | MoveFromGeneric idx | MutBorrowGlobalGeneric idx | ImmBorrowGlobalGeneric idx =>
      ∃ si, at_ (m_struct_def_instantiations m) idx = Some si ∧ d = sdi_def si
  | _ => False
  end.
(** The annotation lists exactly the resources acquired, and they are resources. *)
Definition annotation_ok (def : FunctionDefinition) : Prop :=
  ∀ c, fdef_code def = Some c → ∀ d,
    (d ∈ fdef_acquires_global_resources def ↔ ∃ i, i ∈ cu_code c ∧ acquires i d) ∧
    (d ∈ fdef_acquires_global_resources def →
     ∃ sd sh, at_ (m_struct_defs m) d = Some sd ∧ at_ (m_struct_handles m) (sd_struct_handle sd) = Some sh ∧
       has_key (sh_abilities sh) = true).
End Spec.

Lemma elem_of_ascending s d : d ∈ ascending s ↔ d ∈ s.
Proof. unfold ascending. by rewrite merge_sort_Permutation, elem_of_elements. Qed.

Section Verify.
Context (m : CompiledModule) (Hm : unit_in_bounds (VModule m)).
Context (Hdup : NoDup (fdef_function <$> m_function_defs m)).
Context (index : FunctionDefinitionIndex) (A : gset StructDefinitionIndex).
Notation verifier S := {| av_module := m; av_current_function := index; av_annotated_acquires := A;
  av_actual_acquires := S; av_handle_to_def := handle_to_def m |}.

Lemma handle_to_def_Some (h : FunctionHandleIndex) d :
  handle_to_def m !! h = Some d ↔ d ∈ m_function_defs m ∧ fdef_function d = h.
Proof.
  unfold handle_to_def.
  enough (∀ (l : list FunctionDefinition) (map : gmap FunctionHandleIndex FunctionDefinition), NoDup (fdef_function <$> l) →
    (∀ x, x ∈ l → map !! fdef_function x = None) →
    foldl (λ map func_def, <[ fdef_function func_def := func_def ]> map) map l !! h = Some d ↔
    map !! h = Some d ∨ d ∈ l ∧ fdef_function d = h) as H.
  { rewrite H by done. rewrite lookup_empty. naive_solver. }
  clear Hdup. induction l as [|x l IH]; intros map Hnd Hnone.
  { cbn. split; [by left|]. intros [|[[]%not_elem_of_nil _]]; done. }
  cbn [fmap list_fmap] in Hnd. apply NoDup_cons in Hnd as [Hx Hnd]. cbn [foldl]. rewrite IH; [|done|].
  - rewrite elem_of_cons. destruct (decide (fdef_function x = h)) as [<-|Hne].
    + rewrite lookup_insert. rewrite decide_True by done. rewrite (Hnone x) by by left. split; [naive_solver|].
      intros [|[[->|Hin] Hf]]; [done|by left|]. right. split; done.
    + rewrite lookup_insert_ne by done. naive_solver.
  - intros y Hy. rewrite lookup_insert_ne; [apply Hnone; by right|].
    intros Heq. apply Hx. rewrite Heq. by apply list_elem_of_fmap_2.
Qed.

Lemma acquired_spec S (h_idx : FunctionHandleIndex) h d :
  at_ (m_function_handles m) h_idx = Some h →
  d ∈ function_acquired_resources (verifier S) h h_idx ↔ calls m h_idx d.
Proof.
  intros Hh. unfold function_acquired_resources, calls. cbn [av_module av_handle_to_def].
  destruct (N.eqb_spec (fh_module h) (m_self_module_handle_idx m)) as [He|Hne]; cbn.
  - destruct (handle_to_def m !! h_idx) as [def|] eqn:Hd.
    + etrans; [apply elem_of_list_to_set|]. pose proof Hd as [Hin Hf]%handle_to_def_Some. split; [eauto 10|].
      intros (h' & def' & _ & _ & Hin' & Hf' & H). assert (handle_to_def m !! h_idx = Some def') as Hd' by by apply handle_to_def_Some.
      rewrite Hd in Hd'. by injection Hd' as <-.
    + split; [set_solver|]. intros (h' & def' & _ & _ & Hin' & Hf' & H). exfalso.
      assert (handle_to_def m !! h_idx = Some def') as Hd' by by apply handle_to_def_Some. congruence.
  - split; [set_solver|]. intros (h' & def' & Hh' & Hs & _). congruence.
Qed.

(** One instruction adds what it acquires, if all of it is annotated. *)
Definition adds (P : StructDefinitionIndex → Prop) (S : gset StructDefinitionIndex)
    (r : result PartialVMError AcquiresVerifier) : Prop :=
  (∃ S', r = Ok (verifier S') ∧ (∀ d, d ∈ S' ↔ d ∈ S ∨ P d) ∧ ∀ d, P d → d ∈ A) ∨
  (∃ e d, r = Err e ∧ P d ∧ d ∉ A).

Lemma struct_adds S d offset : adds (λ d', d' = d) S (struct_acquire (verifier S) d offset).
Proof.
  unfold struct_acquire. cbn. case_bool_decide.
  - left. eexists. split; [done|]. split; set_solver.
  - right. eauto.
Qed.
Lemma call_adds S (h_idx : FunctionHandleIndex) offset :
  below (m_function_handles m) h_idx → adds (calls m h_idx) S (call_acquire (verifier S) h_idx offset).
Proof.
  intros [h Hh]%at_below. unfold call_acquire. cbn [av_module].
  rewrite (function_handle_at_Some (VModule m) _ _ Hm Hh). cbn [partial map_err mbind result_bind]. cbv zeta.
  set (R := function_acquired_resources (verifier S) h h_idx).
  assert (∀ d, d ∈ R ↔ calls m h_idx d) as HR by (intros; by apply acquired_spec).
  destruct (for_each _ (ascending R)) as [[]|e| |] eqn:Hf.
  - left. eexists. split; [done|]. split; [set_solver|]. intros d Hd%HR%elem_of_ascending.
    rewrite for_each_Ok, Forall_forall in Hf. specialize (Hf d Hd). cbn in Hf. by case_bool_decide.
  - right. apply for_each_Err in Hf as (l1 & d & l2 & Hl & _ & He). exists e, d. split; [done|]. split.
    + apply HR, elem_of_ascending. rewrite Hl. set_solver.
    + cbn in He. by case_bool_decide.
  - assert (no_panic (E := PartialVMError) (A := unit) Panic); [|done]. rewrite <- Hf. apply for_each_no_panic, Forall_forall.
    intros d _. by case_match.
  - assert (no_panic (E := PartialVMError) (A := unit) OutOfFuel); [|done]. rewrite <- Hf. apply for_each_no_panic, Forall_forall.
    intros d _. by case_match.
Qed.
Lemma adds_iff P Q S r : (∀ d, P d ↔ Q d) → adds P S r → adds Q S r.
Proof. intros H [(S' & -> & H1 & H2)|(e & d & -> & H1 & H2)]; [left|right]; naive_solver. Qed.

Lemma instruction_adds locals code_len tparams S i x :
  bytecode_in_bounds (VModule m) locals tparams code_len x →
  adds (acquires m x) S (acquires_verify_instruction (verifier S) (i, x)).
Proof.
  intros [Ho _]. unfold acquires_verify_instruction. cbn [av_module].
  destruct x; cbn [operand_in_bounds opt_below view_struct_instantiations view_function_instantiations] in Ho;
    try (left; exists S; split; [done|]; split; [intros d; cbn; tauto|by intros d []]);
    cbn [acquires]; try apply struct_adds; try (by apply call_adds).
  1: { destruct (proj1 (at_below _ _) Ho) as [fi Hfi]. unfold function_instantiation_at. cbn [view_function_instantiations].
    pose proof (Forall_lookup_1 _ _ _ _ (ib_function_instantiations _ Hm) Hfi) as [Hb _]. cbn in Hb.
    rewrite Hfi. cbn [unwrap partial map_err mbind result_bind]. eapply adds_iff; [|by apply call_adds]. naive_solver. }
  all: destruct (proj1 (at_below _ _) Ho) as [si Hsi]; cbn [struct_instantiation_at]; rewrite Hsi;
    cbn [unwrap partial map_err mbind result_bind]; (eapply adds_iff; [|apply struct_adds]); naive_solver.
Qed.

Lemma code_adds locals code_len tparams (code : list Bytecode) S k :
  Forall (bytecode_in_bounds (VModule m) locals tparams code_len) code →
  adds (λ d, ∃ x, x ∈ code ∧ acquires m x d) S
    (try_fold acquires_verify_instruction (imap (λ n x, (N.of_nat (k + n), x)) code) (verifier S)).
Proof.
  intros H. revert S k. induction H as [|x code Hx _ IH]; intros S k.
  { left. exists S. split; [done|]. split; [set_solver|]. intros d (x & [] %not_elem_of_nil & _). }
  rewrite imap_cons. cbn [try_fold].
  rewrite (imap_ext _ (λ n y, (N.of_nat (Datatypes.S k + n), y))) by (intros; cbn; do 2 f_equal; lia).
  destruct (instruction_adds _ _ _ S (N.of_nat (k + 0)) x Hx) as [(S' & Hr & H1 & H2)|(e & d & Hr & H1 & H2)]; rewrite Hr.
  2: { right. exists e, d. split; [done|]. split; [|done]. exists x. split; [by left|done]. }
  cbn [mbind result_bind].
  destruct (IH S' (Datatypes.S k)) as [(S2 & Hr2 & H3 & H4)|(e & d & Hr2 & H3 & H4)]; rewrite Hr2.
  - left. exists S2. split; [done|]. setoid_rewrite elem_of_cons. split.
    + intros d. rewrite H3, H1. split; [|naive_solver]. intros [[|]|(y & ? & ?)]; naive_solver.
    + intros d (y & [->|Hy] & Hd); naive_solver.
  - right. exists e, d. split; [done|]. split; [|done]. destruct H3 as (y & ? & ?). exists y. split; [by right|done].
Qed.
End Verify.

Lemma acquires_decides m index def c :
  unit_in_bounds (VModule m) → NoDup (fdef_function <$> m_function_defs m) →
  def ∈ m_function_defs m → fdef_code def = Some c →
  decides (acquires_verify m index def) (annotation_ok m def).
Proof.
  intros Hm Hdup Hin Hc. unfold acquires_verify. rewrite Hc. cbn [unwrap mbind result_bind].
  set (A := list_to_set (fdef_acquires_global_resources def) : gset StructDefinitionIndex).
  pose proof (ib_function_defs _ Hm) as Hdefs. cbn in Hdefs. rewrite Forall_forall in Hdefs.
  destruct (Hdefs _ Hin) as (_ & Hacq & Hcode).
  destruct (Hcode c Hc) as (h & ps & ls & _ & _ & _ & _ & (locals & _ & _ & Hb)).
  assert (∀ d, d ∈ A ↔ d ∈ fdef_acquires_global_resources def) as HA by (intros; apply elem_of_list_to_set).
  assert (annotation_ok m def ↔ ∀ d, (d ∈ A ↔ ∃ i, i ∈ cu_code c ∧ acquires m i d) ∧
    (d ∈ A → ∃ sd sh, at_ (m_struct_defs m) d = Some sd ∧ at_ (m_struct_handles m) (sd_struct_handle sd) = Some sh ∧
       has_key (sh_abilities sh) = true)) as ->.
  { unfold annotation_ok. setoid_rewrite HA. rewrite Hc. split; [|intros H c' [= <-]; exact H]. intros H. by apply H. }
  destruct (code_adds m Hm Hdup index A _ _ _ _ ∅ 0 Hb) as [(S & Hr & H1 & H2)|(e & d & Hr & H1 & H2)];
    cbn [Nat.add] in Hr; change (imap _ (cu_code c)) with (enumerate (cu_code c)) in Hr; rewrite Hr; cbn [mbind result_bind].
  2: { apply decides_err. intros H. by apply H2, H. }
  cbn [av_annotated_acquires].
  eapply decides_iff; [|apply (decides_for_each _ (λ d, d ∈ S ∧ ∃ sd sh, at_ (m_struct_defs m) d = Some sd ∧
    at_ (m_struct_handles m) (sd_struct_handle sd) = Some sh ∧ has_key (sh_abilities sh) = true))].
  - rewrite Forall_forall. setoid_rewrite elem_of_ascending. setoid_rewrite H1. setoid_rewrite elem_of_empty. split.
    + intros H d. split; [split|].
      * intros Hd. by destruct (H d Hd) as [[[]|] _].
      * intros Hd. by apply H2.
      * intros Hd. apply (H d Hd).
    + intros H d Hd. destruct (H d) as [H3 H4]. split; [right; by apply H3|by apply H4].
  - intros d Hd%elem_of_ascending%HA. unfold check_annotation. cbn [av_actual_acquires av_module].
    rewrite Forall_forall in Hacq. pose proof (Hacq _ Hd) as [sd Hsd]%at_below. cbn in Hsd.
    destruct (Forall_lookup_1 _ _ _ _ (ib_struct_defs _ Hm) Hsd) as (sh & Hsh & _).
    rewrite Hsd. cbn [unwrap mbind result_bind]. rewrite (struct_handle_at_total _ Hm _ _ Hsh).
    cbn [partial map_err mbind result_bind]. cbn in Hsh.
    eapply decides_iff; [|apply decides_guard; intros _; apply decides_if].
    rewrite negb_false_iff, bool_decide_eq_true, negb_false_iff. naive_solver.
Qed.

(** For a function of a module in bounds and without duplicates the check of the
    acquires annotation never panics and accepts exactly when the annotation lists the
    resources that the code takes out of global storage, itself or by calls of functions
    of the module, and each of them has the key ability. *)
Theorem acquires_verify_spec (m : CompiledModule) (index : FunctionDefinitionIndex)
    (def : FunctionDefinition) (c : CodeUnit) :
  BoundsChecker.verify_module m = Ok tt → duplication_verify_module m = Ok tt → tables_fit m →
  def ∈ m_function_defs m → fdef_code def = Some c →
  decides (acquires_verify m index def) (annotation_ok m def).
Proof.
  intros Hb%verify_module_iff Hd Hfit. apply duplication_module_iff in Hd; [|done|done].
  apply acquires_decides; [apply Hb|apply Hd].
Qed.

Definition acquiring_module : CompiledModule :=
  {| m_version := 4; m_self_module_handle_idx := 0;
     m_module_handles := [ {| mh_address := 0; mh_name := 1 |} ];
     m_struct_handles := [ {| sh_module := 0; sh_name := 1; sh_abilities := ALL; sh_type_parameters := [] |} ];
     m_function_handles := [ {| fh_module := 0; fh_name := 0; fh_parameters := 0; fh_return := 0; fh_type_parameters := [] |} ];
     m_field_handles := []; m_friend_decls := []; m_struct_def_instantiations := [];
     m_function_instantiations := []; m_field_instantiations := [];
     m_signatures := [ []; [SignatureToken.Address] ];
     m_identifiers := [ [102; 111; 111]; [77] ]; m_address_identifiers := [ ZERO ];
     m_constant_pool := [ {| const_type := SignatureToken.Address; const_data := ZERO |} ];
     m_struct_defs := [ {| sd_struct_handle := 0;
       sd_field_information := Declared [ {| fd_name := 0; fd_signature := SignatureToken.U64 |} ] |} ];
     m_function_defs := [ {| fdef_function := 0; fdef_visibility := Public; fdef_acquires_global_resources := [0];
       fdef_code := Some {| cu_locals := 0; cu_code := [LdConst 0; MoveFrom 0; Pop; Call 0; Ret] |} |} ] |}.

Lemma acquires_verify_spec_witness :
  ∃ def c, fdef_code def = Some c ∧ decides (acquires_verify acquiring_module 0 def) (annotation_ok acquiring_module def).
Proof.
  eexists _, _. split; [|eapply (acquires_verify_spec acquiring_module 0);
    [by vm_compute|by vm_compute|split; by vm_compute|by left|]]; reflexivity.
Defined.
