(* ===== verification/Graphs.v ===== *)
(** * Graphs: the graph library that the verifier calls

    Two passes of the verifier use the third-party library petgraph: its graphs with
    their strongly connected components, and its topological sort.  Both are interfaces
    here, with what their documentation promises as laws; plain lists of arcs and a
    decision of reachability implement them. *)

From S2P Require Import Prelude.

(** ** Interfaces *)

Section Interfaces.
Local Open Scope nat_scope.

(** [petgraph::Graph] with nodes of type [V] and weights of type [W]; [edges] gives the
    targets and the weights of the arcs that leave a node. *)
Class Graph (G V W : Type) : Type := {
  Graph_new : G;
  add_node : G → V → nat * G;
  add_edge : G → nat → nat → W → G;
  edges : G → nat → list (nat * W);
  tarjan_scc : G → list (list nat) }.

(** What a graph holds, and that the components partition its nodes into the classes of
    nodes that reach each other *)
Class GraphLaws (G V W : Type) `{Graph G V W} : Type := {
  graph_nodes : G → list V;
  graph_arcs : G → list (nat * nat * W);
  new_nodes : graph_nodes Graph_new = [];
  new_arcs : graph_arcs Graph_new = [];
  add_node_index g n : (add_node g n).1 = length (graph_nodes g);
  add_node_nodes g n : graph_nodes (add_node g n).2 = graph_nodes g ++ [n];
  add_node_arcs g n : graph_arcs (add_node g n).2 = graph_arcs g;
  add_edge_nodes g a b w : a < length (graph_nodes g) → b < length (graph_nodes g) →
    graph_nodes (add_edge g a b w) = graph_nodes g;
  add_edge_arcs g a b w x : a < length (graph_nodes g) → b < length (graph_nodes g) →
    x ∈ graph_arcs (add_edge g a b w) ↔ x = (a, b, w) ∨ x ∈ graph_arcs g;
  edges_arcs g a b w : (b, w) ∈ edges g a ↔ (a, b, w) ∈ graph_arcs g;
  tarjan_covers g a : a < length (graph_nodes g) → ∃ c, c ∈ tarjan_scc g ∧ a ∈ c;
  tarjan_classes g c a b : c ∈ tarjan_scc g → a ∈ c →
    b ∈ c ↔ b < length (graph_nodes g) ∧
      rtc (λ x y, ∃ w, (x, y, w) ∈ graph_arcs g) a b ∧ rtc (λ x y, ∃ w, (x, y, w) ∈ graph_arcs g) b a }.

(** [petgraph::algo::toposort] of the graph with the given arcs: a node on a cycle, or an
    order of the nodes *)
Class Toposort (V : Type) : Type := { toposort : list (V * V) → V + list V }.
Class ToposortLaws (V : Type) `{Toposort V} : Type := {
  toposort_cycle arcs a : toposort arcs = inl a → tc (λ x y, (x, y) ∈ arcs) a a;
  toposort_order arcs l a : toposort arcs = inr l → ¬ tc (λ x y, (x, y) ∈ arcs) a a }.
End Interfaces.

(** ** Deciding reachability *)

Section Closure.
Context {V : Type} `{EqDecision V} (arcs : list (V * V)).
Notation R := (λ x y, (x, y) ∈ arcs).

(** A path from [a] to [b] whose nodes in between are in [l] *)
Fixpoint reaches_via (l : list V) (a b : V) : bool :=
  match l with
  | [] => bool_decide ((a, b) ∈ arcs)
  | x :: l => reaches_via l a b || (reaches_via l a x && reaches_via l x b)
  end.

Inductive path_via (l : list V) : V → V → Prop :=
| pv_arc a b : R a b → path_via l a b
| pv_step a x b : R a x → x ∈ l → path_via l x b → path_via l a b.

Lemma path_via_trans l a x b : path_via l a x → x ∈ l → path_via l x b → path_via l a b.
Proof. intros H Hx. induction H as [a x H|a y x H Hy _ IH]; intros Hb; [by eapply pv_step|]. eapply pv_step; eauto. Qed.
Lemma path_via_mono l l' a b : (∀ x, x ∈ l → x ∈ l') → path_via l a b → path_via l' a b.
Proof. intros Hl. induction 1; [by constructor|]. eapply pv_step; eauto. Qed.

Lemma path_via_split x l a b :
  path_via (x :: l) a b → path_via l a b ∨ path_via l a x ∧ path_via l x b.
Proof.
  induction 1 as [a b H|a y b H Hy _ IH]; [left; by constructor|].
  apply elem_of_cons in Hy as [->|Hy].
  - right. split; [by constructor|]. destruct IH as [|[_ ?]]; done.
  - destruct IH as [IH|[IH1 IH2]]; [left|right; split; [|done]]; by eapply pv_step.
Qed.

Lemma reaches_via_spec l a b : reaches_via l a b = true ↔ path_via l a b.
Proof.
  revert a b; induction l as [|x l IH]; intros a b; cbn [reaches_via].
  - rewrite bool_decide_eq_true. split; [by constructor|]. inversion 1 as [|? ? ? _ Hn]; [done|].
    by apply not_elem_of_nil in Hn.
  - rewrite orb_true_iff, andb_true_iff, !IH. split.
    + assert (∀ y, y ∈ l → y ∈ x :: l) as Hl by (by right).
      intros [H|[H1 H2]]; [by eapply path_via_mono|].
      eapply path_via_trans; [by eapply path_via_mono|by left|by eapply path_via_mono].
    + apply path_via_split.
Qed.

Definition reachable (a b : V) : bool := reaches_via arcs.*1 a b.
Lemma reachable_spec a b : reachable a b = true ↔ tc R a b.
Proof.
  unfold reachable. rewrite reaches_via_spec. split.
  - induction 1; [by apply tc_once|]. by eapply tc_l.
  - induction 1 as [a b H|a x b H Hx IH]; [by constructor|]. apply (pv_step _ a x b); [done| |done].
    apply list_elem_of_fmap. inversion Hx as [? ? Hy|? y ? Hy _]; subst; eexists (x, _); (split; [|exact Hy]); done.
Qed.
End Closure.

(** ** Implementations *)

Definition list_toposort {V} `{EqDecision V} : Toposort V := {|
  toposort arcs :=
    match List.find (λ a, reachable arcs a a) arcs.*1 with Some a => inl a | None => inr [] end |}.
Lemma list_toposort_laws {V} `{EqDecision V} : @ToposortLaws V list_toposort.
Proof.
  split; cbn; intros arcs.
  - intros a. destruct (List.find _ _) as [b|] eqn:Hf; [|done]. intros [= <-].
    apply find_some in Hf as [_ Hf]. by apply reachable_spec.
  - intros l a. destruct (List.find _ _) as [b|] eqn:Hf; [done|]. intros _ Ha.
    assert (a ∈ arcs.*1) as Hin.
    { apply list_elem_of_fmap. inversion Ha as [? ? Hy|? y ? Hy _]; subst; eexists (a, _); (split; [|exact Hy]); done. }
    apply list_elem_of_In in Hin. pose proof (find_none _ _ Hf _ Hin) as Hn. cbn in Hn.
    apply reachable_spec in Ha. congruence.
Qed.

Section ListGraph.
Context {V W : Type} `{EqDecision V}.
Local Open Scope nat_scope.

Definition list_graph : Type := list V * list (nat * nat * W).
Definition arcs_of (g : list_graph) : list (nat * nat) := (λ x : nat * nat * W, (x.1.1, x.1.2)) <$> g.2.
Definition mutual (g : list_graph) (a b : nat) : bool :=
  bool_decide (a = b) || (reachable (arcs_of g) a b && reachable (arcs_of g) b a).

Definition list_graph_ops : Graph list_graph V W := {|
  Graph_new := ([], []);
  add_node g n := (length g.1, (g.1 ++ [n], g.2));
  add_edge g a b w := (g.1, (a, b, w) :: g.2);
  edges g a := (λ x : nat * nat * W, (x.1.2, x.2)) <$> filter (λ x : nat * nat * W, x.1.1 = a) g.2;
  tarjan_scc g := (λ a, filter (λ b, mutual g a b = true) (seq 0 (length g.1))) <$> seq 0 (length g.1) |}.

Lemma elem_of_arcs_of g a b : (a, b) ∈ arcs_of g ↔ ∃ w, (a, b, w) ∈ g.2.
Proof.
  unfold arcs_of. rewrite list_elem_of_fmap. split.
  - intros ([[x y] w] & [= -> ->] & H). eauto.
  - intros [w H]. by exists (a, b, w).
Qed.
Lemma mutual_spec g a b :
  mutual g a b = true ↔ rtc (λ x y, ∃ w, (x, y, w) ∈ g.2) a b ∧ rtc (λ x y, ∃ w, (x, y, w) ∈ g.2) b a.
Proof.
  unfold mutual. rewrite orb_true_iff, andb_true_iff, bool_decide_eq_true, !reachable_spec.
  assert (∀ x y, tc (λ x y, (x, y) ∈ arcs_of g) x y ↔ tc (λ x y, ∃ w, (x, y, w) ∈ g.2) x y) as Htc.
  { intros x y. split; induction 1; try (by apply tc_once, elem_of_arcs_of); eapply tc_l; try done; by apply elem_of_arcs_of. }
  rewrite !Htc. split.
  - intros [->|[H1 H2]]; [done|]. split; by apply tc_rtc.
  - intros [H1 H2]. destruct (decide (a = b)) as [|Hne]; [by left|right].
    apply rtc_tc in H1 as [|H1], H2 as [|H2]; congruence || done.
Qed.

Lemma list_graph_laws : @GraphLaws list_graph V W list_graph_ops.
Proof.
  refine (@Build_GraphLaws _ _ _ list_graph_ops fst snd _ _ _ _ _ _ _ _ _ _); try done.
  - intros g a b w x _ _. cbn. apply elem_of_cons.
  - intros g a b w. cbn. rewrite list_elem_of_fmap. split.
    + intros ([[x y] w'] & [= -> ->] & [He Hin]%list_elem_of_filter). cbn in He. by subst.
    + intros H. exists (a, b, w). split; [done|]. by apply list_elem_of_filter.
  - intros g a Ha. eexists. split; [apply list_elem_of_fmap; exists a; split; [done|apply elem_of_seq; cbn in Ha; lia]|].
    apply list_elem_of_filter. split; [|apply elem_of_seq; cbn in Ha; lia]. by apply mutual_spec.
  - intros g c a b (x & -> & Hx)%list_elem_of_fmap [Ha _]%list_elem_of_filter.
    rewrite list_elem_of_filter, elem_of_seq. apply mutual_spec in Ha as [H1 H2]. rewrite mutual_spec. cbn. split.
    + intros [[H3 H4] ?]. split_and!; [lia|by etrans|by etrans].
    + intros (? & H3 & H4). split_and!; [by etrans|by etrans|lia|lia].
Qed.
End ListGraph.
Arguments list_graph : clear implicits.
