(* ===== verification/StructDefs.v ===== *)
(** * StructDefs: structs do not contain themselves

    Models [language/bytecode-verifier/src/struct_defs.rs]: the graph of the structs of a
    module and of the structs that their fields hold, and its check for cycles. *)

From S2P Require Import Prelude Checks Graphs CoreTypes VmStatus Abilities FileFormat Errors Deserializer RoundTrip Views BoundsChecker InBounds CheckedUnits Duplication SignatureChecker SignatureRules ModulePasses.

Import SignatureToken.

(** [StructDefGraphBuilder::new]; later definitions replace earlier ones. *)
Definition struct_handle_to_def (module : CompiledModule) : gmap StructHandleIndex StructDefinitionIndex :=
  foldl (λ map p, <[ sd_struct_handle p.2 := wrap 16 p.1 ]> map) ∅ (enumerate (m_struct_defs module)).

Notation Neighbors := (gmap StructDefinitionIndex (gset StructDefinitionIndex)).

(** [neighbors.entry(cur_idx).or_insert_with(BTreeSet::new).insert(idx)] *)
Definition insert_neighbor (neighbors : Neighbors) (cur_idx idx : StructDefinitionIndex) : Neighbors :=
  <[ cur_idx := {[ idx ]} ∪ default ∅ (neighbors !! cur_idx) ]> neighbors.

Section Builder.
Context (handle_to_def : gmap StructHandleIndex StructDefinitionIndex) (cur_idx : StructDefinitionIndex).

(** The struct of a token, if it is defined in the module *)
Definition add_struct (neighbors : Neighbors) (sh_idx : StructHandleIndex) : Neighbors :=
  match handle_to_def !! sh_idx with
  | Some struct_def_idx => insert_neighbor neighbors cur_idx struct_def_idx
  | None => neighbors
  end.

(** [add_signature_token] *)
Fixpoint add_signature_token (neighbors : Neighbors) (token : SignatureToken)
  : result PartialVMError Neighbors :=
  match token with
  | Bool | U8 | U64 | U128 | Address | Signer | TypeParameter _ => Ok neighbors
  | Reference _ | MutableReference _ => Err (PartialVMError_new UNKNOWN_INVARIANT_VIOLATION_ERROR)
  | Vector inner => add_signature_token neighbors inner
  | Struct sh_idx => Ok (add_struct neighbors sh_idx)
  | StructInstantiation sh_idx inners =>
      (fix go (inners : list SignatureToken) (neighbors : Neighbors) : result PartialVMError Neighbors :=
         match inners with
         | [] => Ok neighbors
         | t :: inners => neighbors ← add_signature_token neighbors t; go inners neighbors
         end) inners (add_struct neighbors sh_idx)
  end.
End Builder.

(** [add_struct_defs] *)
Definition add_struct_defs (module : CompiledModule) (neighbors : Neighbors) (idx : StructDefinitionIndex)
  : result PartialVMError Neighbors :=
  struct_def ← partial (struct_def_at (VModule module) idx);
  match sd_field_information struct_def with
  | Native => Ok neighbors
  | Declared fields =>
      try_fold (λ neighbors field,
        add_signature_token (struct_handle_to_def module) idx neighbors (fd_signature field)) fields neighbors
  end.

(** [build]: the arcs of the graph *)
Definition build (module : CompiledModule)
  : result PartialVMError (list (StructDefinitionIndex * StructDefinitionIndex)) :=
  neighbors ← try_fold (add_struct_defs module) (wrap 16 <$> indices (len (m_struct_defs module))) ∅;
  Ok (flat_map (λ p : StructDefinitionIndex * gset StructDefinitionIndex, (λ child, (p.1, child)) <$> elements p.2)
    (map_to_list neighbors)).

(** [RecursiveStructDefChecker::verify_module_impl] *)
Definition struct_defs_verify_module `{Toposort StructDefinitionIndex} (module : CompiledModule)
  : result PartialVMError unit :=
  graph ← build module;
  match toposort graph with
  | inr _ => Ok tt
  | inl node_id => Err (verification_error RECURSIVE_STRUCT_DEFINITION KStructDefinition node_id)
  end.

(** ** Specification *)

(** Struct [h] occurs in the type. *)
Fixpoint occurs_in (h : StructHandleIndex) (t : SignatureToken) : Prop :=
  match t with
  | Vector t | Reference t | MutableReference t => occurs_in h t
  | Struct i => i = h
  | StructInstantiation i ts => i = h ∨ foldr (λ u acc, occurs_in h u ∨ acc) False ts
  | _ => False
  end.
(** A field of struct [a] of the module holds struct [b] of the module, as such or as a
    type argument or element. *)
Definition holds (m : CompiledModule) (a b : StructDefinitionIndex) : Prop :=
  ∃ da db fields f, at_ (m_struct_defs m) a = Some da ∧ at_ (m_struct_defs m) b = Some db ∧
    sd_field_information da = Declared fields ∧ f ∈ fields ∧
    occurs_in (sd_struct_handle db) (fd_signature f).

(** ** The graph *)

Definition arc (neighbors : Neighbors) (a b : StructDefinitionIndex) : Prop :=
  ∃ s, neighbors !! a = Some s ∧ b ∈ s.

Lemma arc_insert nb cur i a b : arc (insert_neighbor nb cur i) a b ↔ arc nb a b ∨ a = cur ∧ b = i.
Proof.
  unfold arc, insert_neighbor. destruct (decide (a = cur)) as [->|Hne].
  - rewrite lookup_insert, decide_True by done. split.
    + intros (s & [= <-] & H). destruct (nb !! cur) as [s|]; cbn in H; [|set_solver].
      apply elem_of_union in H as [H|H]; [right; set_solver|left; eauto].
    + intros H. eexists. split; [done|]. destruct H as [(s & -> & H)|[_ ->]]; cbn; set_solver.
  - rewrite lookup_insert_ne by done. naive_solver.
Qed.

Section Tokens.
Context (handle_to_def : gmap StructHandleIndex StructDefinitionIndex) (cur : StructDefinitionIndex).

Definition adds_arcs (P : StructHandleIndex → Prop) (nb : Neighbors) (r : result PartialVMError Neighbors) : Prop :=
  ∃ nb', r = Ok nb' ∧ ∀ a b, arc nb' a b ↔
    arc nb a b ∨ a = cur ∧ ∃ h, handle_to_def !! h = Some b ∧ P h.

Lemma add_struct_arcs nb h : adds_arcs (λ h', h = h') nb (Ok (add_struct handle_to_def cur nb h)).
Proof.
  eexists. split; [done|]. intros a b. unfold add_struct. destruct (handle_to_def !! h) as [d|] eqn:Hd.
  - rewrite arc_insert. split; [intros [|[-> ->]]; eauto 6|]. intros [|(-> & h' & Hh & <-)]; [by left|right]. naive_solver.
  - split; [by left|]. intros [|(_ & h' & Hh & <-)]; [done|]. congruence.
Qed.
Lemma adds_iff' P Q nb r : (∀ h, P h ↔ Q h) → adds_arcs P nb r → adds_arcs Q nb r.
Proof. intros H (nb' & -> & Hn). exists nb'. split; [done|]. intros a b. rewrite Hn. by setoid_rewrite H. Qed.
Lemma adds_bind P Q nb r k :
  adds_arcs P nb r → (∀ nb', adds_arcs Q nb' (k nb')) → adds_arcs (λ h, P h ∨ Q h) nb (r ≫= k).
Proof.
  intros (nb1 & -> & H1) Hk. destruct (Hk nb1) as (nb2 & Hr & H2). exists nb2. split; [done|].
  intros a b. rewrite H2, H1. naive_solver.
Qed.
Lemma adds_after P Q nb nb1 r :
  adds_arcs P nb (Ok nb1) → adds_arcs Q nb1 r → adds_arcs (λ h, P h ∨ Q h) nb r.
Proof. intros (nb' & [= <-] & H1) (nb2 & -> & H2). exists nb2. split; [done|]. intros a b. rewrite H2, H1. naive_solver. Qed.
Lemma adds_nothing nb : adds_arcs (λ _, False) nb (Ok nb).
Proof. exists nb. split; [done|]. naive_solver. Qed.

Lemma token_arcs t nb :
  no_references t → adds_arcs (λ h, occurs_in h t) nb (add_signature_token handle_to_def cur nb t).
Proof.
  unfold no_references. revert nb.
  induction t as [| | | | | |t IH|i|i ts IH|t IH|t IH|i] using token_ind; intros nb H;
    try (by apply adds_nothing); try (by destruct H).
  - apply IH, H.
  - apply add_struct_arcs.
  - apply all_nodes_args in H as [_ H]. cbn [add_signature_token occurs_in].
    eapply adds_after; [apply add_struct_arcs|]. generalize (add_struct handle_to_def cur nb i). clear nb. revert H. induction IH as [|t ts Ht _ IHts]; intros H nb.
    { apply adds_nothing. }
    apply Forall_cons in H as [Hr H]. cbn [foldr]. apply adds_bind; [by apply Ht|]. by apply IHts.
Qed.

Lemma fields_arcs (fields : list FieldDefinition) nb :
  Forall (λ f, no_references (fd_signature f)) fields →
  adds_arcs (λ h, ∃ f, f ∈ fields ∧ occurs_in h (fd_signature f)) nb
    (try_fold (λ neighbors field, add_signature_token handle_to_def cur neighbors (fd_signature field)) fields nb).
Proof.
  intros H. revert nb. induction H as [|f fields Hf _ IH]; intros nb; cbn [try_fold].
  - eapply adds_iff'; [|apply adds_nothing]. intros h. split; [done|]. intros (f & []%not_elem_of_nil & _).
  - eapply adds_iff'; [|apply adds_bind; [by apply token_arcs|exact IH]]. intros h. setoid_rewrite elem_of_cons. naive_solver.
Qed.
End Tokens.

Section Module.
Context (m : CompiledModule) (Hlen : len (m_struct_defs m) <= 65536).
Context (Hdup : NoDup (sd_struct_handle <$> m_struct_defs m)).
Context (Href : Forall (λ d, ∀ fields, sd_field_information d = Declared fields →
  Forall (λ f, no_references (fd_signature f)) fields) (m_struct_defs m)).

Lemma struct_handle_to_def_Some (h : StructHandleIndex) (i : StructDefinitionIndex) :
  struct_handle_to_def m !! h = Some i ↔ ∃ d, at_ (m_struct_defs m) i = Some d ∧ sd_struct_handle d = h.
Proof. by apply (index_map_Some sd_struct_handle). Qed.

(** The arcs out of the first structs *)
Lemma defs_arcs (idxs : list StructDefinitionIndex) nb :
  Forall (below (m_struct_defs m)) idxs →
  ∃ nb', try_fold (add_struct_defs m) idxs nb = Ok nb' ∧
    ∀ a b, arc nb' a b ↔ arc nb a b ∨ a ∈ idxs ∧ holds m a b.
Proof.
  intros H. revert nb. induction H as [|i idxs [d Hd]%at_below _ IH]; intros nb; cbn [try_fold].
  { exists nb. split; [done|]. intros a b. split; [by left|]. intros [|[[]%not_elem_of_nil _]]; done. }
  assert (∃ nb1, add_struct_defs m nb i = Ok nb1 ∧ ∀ a b, arc nb1 a b ↔ arc nb a b ∨ a = i ∧ holds m i b) as (nb1 & -> & H1).
  { unfold add_struct_defs. cbn [struct_def_at]. rewrite Hd. cbn [unwrap partial map_err mbind result_bind].
    pose proof (Forall_lookup_1 _ _ _ _ Href Hd) as Hf. cbn in Hf.
    destruct (sd_field_information d) as [|fields] eqn:Hi.
    - exists nb. split; [done|]. intros a b. split; [by left|]. intros [|(_ & d' & _ & fs & _ & Hd' & _ & Hfs & _)]; [done|]. congruence.
    - destruct (fields_arcs (struct_handle_to_def m) i fields nb (Hf _ eq_refl)) as (nb1 & Hr & Ha).
      exists nb1. split; [done|]. intros a b. rewrite Ha. setoid_rewrite struct_handle_to_def_Some. unfold holds. split.
      + intros [|(-> & h & (d' & Hd' & <-) & f & Hin & Ho)]; [by left|right]. split; [done|]. exists d, d', fields, f. by split_and!.
      + intros [|(-> & d1 & d2 & fs & f & Hd1 & Hd2 & Hfs & Hin & Ho)]; [by left|right]. split; [done|].
        exists (sd_struct_handle d2). split; [eauto|]. exists f. split; [|done]. congruence. }
  cbn [mbind result_bind]. destruct (IH nb1) as (nb' & -> & H'). exists nb'. split; [done|].
  intros a b. rewrite H', H1, elem_of_cons. naive_solver.
Qed.

Lemma build_spec : ∃ arcs, build m = Ok arcs ∧ ∀ a b, (a, b) ∈ arcs ↔ holds m a b.
Proof.
  unfold build.
  assert (wrap 16 <$> indices (len (m_struct_defs m)) = indices (len (m_struct_defs m))) as ->.
  { unfold indices. rewrite <- list_fmap_compose. apply list_fmap_ext. intros i k Hk.
    apply lookup_seq in Hk as [-> Hk]. cbn. rewrite len_to_nat in Hk. unfold wrap. apply N.mod_small. unfold len in Hlen. lia. }
  assert (∀ a, a ∈ indices (len (m_struct_defs m)) ↔ below (m_struct_defs m) a) as Hi.
  { intros a. unfold indices, below. rewrite list_elem_of_fmap. setoid_rewrite elem_of_seq. split.
    - intros (k & -> & Hk). rewrite len_to_nat in Hk. unfold len. lia.
    - intros H. exists (N.to_nat a). rewrite len_to_nat. unfold len in H. split; lia. }
  destruct (defs_arcs (indices (len (m_struct_defs m))) ∅) as (nb & -> & H).
  { apply Forall_forall. intros a. apply Hi. }
  eexists. split; [done|]. intros a b. rewrite list_elem_of_In, in_flat_map. setoid_rewrite <- list_elem_of_In.
  transitivity (arc nb a b).
  - unfold arc. split.
    + intros ([x s] & Hin%elem_of_map_to_list & (y & [= -> ->] & Hy%elem_of_elements)%list_elem_of_fmap). eauto.
    + intros (s & Hs & Hb). exists (a, s). split; [by apply elem_of_map_to_list|]. apply list_elem_of_fmap. exists b.
      split; [done|]. by apply elem_of_elements.
  - rewrite H, Hi. split; [|intros Hh; right; split; [|done]; destruct Hh as (d & _ & _ & _ & Hd & _); apply at_below; eauto].
    intros [(s & Hs & _)|[_ Hh]]; [by rewrite lookup_empty in Hs|done].
Qed.

Lemma struct_defs_decides `{ToposortLaws StructDefinitionIndex} :
  decides (struct_defs_verify_module m) (∀ a, ¬ tc (holds m) a a).
Proof.
  unfold struct_defs_verify_module. destruct build_spec as (arcs & -> & Harcs). cbn [mbind result_bind].
  assert (∀ a b, tc (λ x y, (x, y) ∈ arcs) a b ↔ tc (holds m) a b) as Htc.
  { intros a b. split; (induction 1; [by apply tc_once, Harcs|by eapply tc_l; [apply Harcs|]]). }
  case_match eqn:Ht.
  - rename t into a. apply decides_err. intros Hn. by apply (Hn a), Htc, toposort_cycle.
  - apply decides_ok. intros a Ha. eapply toposort_order; [done|]. by apply Htc.
Qed.
End Module.

Lemma fields_have_no_references (m : CompiledModule) :
  unit_in_bounds (VModule m) → module_types_ok m →
  Forall (λ d, ∀ fields, sd_field_information d = Declared fields →
    Forall (λ f, no_references (fd_signature f)) fields) (m_struct_defs m).
Proof.
  intros Hb Hs. apply Forall_forall. intros d Hin fields Hf.
  pose proof (mt_fields _ Hs) as Hfields. rewrite Forall_forall in Hfields.
  pose proof (ib_struct_defs _ Hb) as Hdefs. cbn in Hdefs. rewrite Forall_forall in Hdefs.
  destruct (Hdefs _ Hin) as (sh & Hsh & _). eapply Forall_impl; [by apply (Hfields _ Hin sh fields)|]. by intros f (? & _).
Qed.

(** After the bounds, duplication and signature checks the recursion check of struct
    definitions never panics and accepts exactly when no struct of the module holds
    itself, directly or through fields, elements and type arguments, given a topological
    sort that finds a cycle exactly when there is one. *)
Theorem struct_defs_verify_module_spec `{ToposortLaws StructDefinitionIndex} (m : CompiledModule) :
  BoundsChecker.verify_module m = Ok tt → duplication_verify_module m = Ok tt → signature_verify_module m = Ok tt →
  tables_fit m → len (m_signatures m) <= 65536 → len (m_struct_defs m) <= 65536 →
  decides (struct_defs_verify_module m) (∀ a, ¬ tc (holds m) a a).
Proof.
  intros Hb%verify_module_iff Hd Hs Hfit Hsig Hlen. apply duplication_module_iff in Hd; [|done|done].
  apply (signature_module_decides m (proj2 Hb) Hsig) in Hs.
  apply struct_defs_decides; [done|apply Hd| |done]. by apply (fields_have_no_references m (proj2 Hb)).
Qed.

Lemma struct_defs_verify_module_spec_witness :
  decides (@struct_defs_verify_module list_toposort (nested_module U64)) (∀ a, ¬ tc (holds (nested_module U64)) a a).
Proof.
  apply (@struct_defs_verify_module_spec list_toposort list_toposort_laws); by vm_compute.
Defined.
