(* ===== verification/InstantiationLoops.v ===== *)
(** * InstantiationLoops: generic calls do not build larger and larger types

    Models [language/bytecode-verifier/src/instantiation_loops.rs]: the graph of the type
    parameters of the generic functions of a module, whose arcs say what a call
    instantiates with what, and its check for a cycle that builds a larger type.

    The checker numbers the callers among the functions that are not native but the
    callees among all functions: with a native function before them it can miss a loop. *)

From S2P Require Import Prelude Checks Graphs CoreTypes VmStatus Abilities FileFormat Errors Deserializer RoundTrip Views BoundsChecker InBounds CheckedUnits Duplication SignatureChecker SignatureRules ModulePasses.

Import SignatureToken Bytecode.

(** [struct Node] and [enum Edge] *)
Definition Node : Set := FunctionDefinitionIndex * TypeParameterIndex.
Inductive Edge : Set := Identity | TyConApp (ty : SignatureToken).

#[export] Instance Node_eq_dec : EqDecision Node.
Proof. unfold Node. apply _. Defined.
#[export] Instance Node_countable : Countable Node.
Proof. unfold Node. apply _. Defined.

Section Checker.
Context {G : Type} `{Graph G Node Edge}.

(** [pub struct InstantiationLoopChecker] *)
Record InstantiationLoopChecker : Type := {
  ilc_module : CompiledModule;
  ilc_graph : G;
  ilc_node_map : gmap Node nat;
  ilc_func_handle_def_map : gmap FunctionHandleIndex FunctionDefinitionIndex }.

Definition ilc_set (self : InstantiationLoopChecker) (graph : G) (node_map : gmap Node nat) : InstantiationLoopChecker :=
  {| ilc_module := ilc_module self; ilc_graph := graph; ilc_node_map := node_map;
     ilc_func_handle_def_map := ilc_func_handle_def_map self |}.

(** [InstantiationLoopChecker::new]; later definitions replace earlier ones. *)
Definition func_handle_def_map (module : CompiledModule) : gmap FunctionHandleIndex FunctionDefinitionIndex :=
  foldl (λ map p, <[ fdef_function p.2 := wrap 16 p.1 ]> map) ∅ (enumerate (m_function_defs module)).
Definition InstantiationLoopChecker_new (module : CompiledModule) : InstantiationLoopChecker :=
  {| ilc_module := module; ilc_graph := Graph_new; ilc_node_map := ∅;
     ilc_func_handle_def_map := func_handle_def_map module |}.

Definition get_or_add_node (self : InstantiationLoopChecker) (node : Node) : nat * InstantiationLoopChecker :=
  match ilc_node_map self !! node with
  | Some idx => (idx, self)
  | None =>
      let '(idx, graph) := add_node (ilc_graph self) node in
      (idx, ilc_set self graph (<[ node := idx ]> (ilc_node_map self)))
  end.

(** [extract_type_parameters] *)
Fixpoint extract_type_parameters (ty : SignatureToken) : gset TypeParameterIndex :=
  match ty with
  | Bool | Address | U8 | U64 | U128 | Signer | Struct _ => ∅
  | TypeParameter idx => {[ idx ]}
  | Vector ty | Reference ty | MutableReference ty => extract_type_parameters ty
  | StructInstantiation _ tys =>
      foldr (λ ty type_params, extract_type_parameters ty ∪ type_params) ∅ tys
  end.

Definition ilc_add_edge (self : InstantiationLoopChecker) (node_from node_to : Node) (edge : Edge)
  : InstantiationLoopChecker :=
  let '(node_from_idx, self) := get_or_add_node self node_from in
  let '(node_to_idx, self) := get_or_add_node self node_to in
  ilc_set self (add_edge (ilc_graph self) node_from_idx node_to_idx edge) (ilc_node_map self).

(** The arcs for one type argument *)
Definition build_graph_actual (caller_idx callee_idx : FunctionDefinitionIndex)
    (self : InstantiationLoopChecker) (p : N * SignatureToken) : InstantiationLoopChecker :=
  let '(i, ty) := p in
  let formal_idx := wrap 16 i in
  match ty with
  | TypeParameter actual_idx => ilc_add_edge self (caller_idx, actual_idx) (callee_idx, formal_idx) Identity
  | _ =>
      foldl (λ self type_param,
        ilc_add_edge self (caller_idx, type_param) (callee_idx, formal_idx) (TyConApp ty))
        self (elements (extract_type_parameters ty))
  end.
Definition build_graph_call (self : InstantiationLoopChecker) (caller_idx callee_idx : FunctionDefinitionIndex)
    (type_actuals_idx : SignatureIndex) : result PartialVMError InstantiationLoopChecker :=
  type_actuals ← partial (signature_at (VModule (ilc_module self)) type_actuals_idx);
  Ok (foldl (build_graph_actual caller_idx callee_idx) self (enumerate type_actuals)).

Definition build_graph_instr (caller_idx : FunctionDefinitionIndex) (self : InstantiationLoopChecker) (instr : Bytecode)
  : result PartialVMError InstantiationLoopChecker :=
  match instr with
  | CallGeneric callee_inst_idx =>
      callee_si ← partial (function_instantiation_at (VModule (ilc_module self)) callee_inst_idx);
      match ilc_func_handle_def_map self !! fi_handle callee_si with
      | Some callee_idx => build_graph_call self caller_idx callee_idx (fi_type_parameters callee_si)
      | None => Ok self
      end
  | _ => Ok self
  end.
Definition build_graph_function_def (self : InstantiationLoopChecker) (caller_idx : FunctionDefinitionIndex)
    (caller_def : FunctionDefinition) : result PartialVMError InstantiationLoopChecker :=
  match fdef_code caller_def with
  | Some code => try_fold (build_graph_instr caller_idx) (cu_code code) self
  | None => Ok self
  end.
Definition build_graph (self : InstantiationLoopChecker) : result PartialVMError InstantiationLoopChecker :=
  try_fold (λ self p, build_graph_function_def self (wrap 16 p.1) p.2)
    (enumerate (filter (λ def, is_native def = false) (m_function_defs (ilc_module self)))) self.

Definition is_ty_con_app (edge : Edge) : bool := match edge with Identity => false | TyConApp _ => true end.

(** [find_non_trivial_components] *)
Definition find_non_trivial_components (self : InstantiationLoopChecker) : list (list nat * list Edge) :=
  omap (λ nodes,
    let component := flat_map (λ node_idx,
      snd <$> filter (λ edge : nat * Edge, edge.1 ∈ nodes) (edges (ilc_graph self) node_idx)) nodes in
    if existsb is_ty_con_app component then Some (nodes, component) else None)
    (tarjan_scc (ilc_graph self)).

(** [verify_module_impl] *)
Definition loops_verify_module (module : CompiledModule) : result PartialVMError unit :=
  checker ← build_graph (InstantiationLoopChecker_new module);
  match last (find_non_trivial_components checker) with
  | None => Ok tt
  | Some _ => Err (PartialVMError_new LOOP_IN_INSTANTIATION_GRAPH)
  end.
End Checker.
Arguments InstantiationLoopChecker : clear implicits.

(** ** Specification *)

(** The type parameter occurs in the type. *)
Fixpoint mentions (p : TypeParameterIndex) (t : SignatureToken) : Prop :=
  match t with
  | TypeParameter i => i = p
  | Vector t | Reference t | MutableReference t => mentions p t
  | StructInstantiation _ ts => foldr (λ u acc, mentions p u ∨ acc) False ts
  | _ => False
  end.

Section Spec.
Context (m : CompiledModule).

(** Code [c] calls function [g] with an argument for parameter [q] of [g] that is
    parameter [p] of its own, or is built from it. *)
Definition instantiates (c : CodeUnit) (p : TypeParameterIndex) (g : FunctionDefinitionIndex)
    (q : TypeParameterIndex) (ty : SignatureToken) : Prop :=
  ∃ idx fi d args, CallGeneric idx ∈ cu_code c ∧ at_ (m_function_instantiations m) idx = Some fi ∧
    at_ (m_function_defs m) g = Some d ∧ fdef_function d = fi_handle fi ∧
    at_ (m_signatures m) (fi_type_parameters fi) = Some args ∧ at_ args q = Some ty ∧ mentions p ty.
Definition edge_of (ty : SignatureToken) : Edge :=
  match ty with TypeParameter _ => Identity | ty => TyConApp ty end.

(** An arc of the graph, where [callers] numbers the functions with code *)
Definition inst_arc (callers : list FunctionDefinition) (a b : Node) (w : Edge) : Prop :=
  ∃ d c ty, at_ callers a.1 = Some d ∧ fdef_code d = Some c ∧ instantiates c a.2 b.1 b.2 ty ∧ w = edge_of ty.
(** A cycle of calls that instantiates a parameter with a larger type each time round *)
Definition growing_loop (callers : list FunctionDefinition) : Prop :=
  ∃ a b ty, inst_arc callers a b (TyConApp ty) ∧ rtc (λ x y, ∃ w, inst_arc callers x y w) b a.
End Spec.

(** ** The checker builds the graph of the specification *)

Section Build.
Context {G : Type} `{GraphLaws G Node Edge}.
Notation Checker := (InstantiationLoopChecker G).
Notation arcs := (Node → Node → Edge → Prop).

(** The graph of the checker has the arcs [P]. *)
Record represents (st : Checker) (P : arcs) : Prop := {
  rp_map n i : ilc_node_map st !! n = Some i ↔ graph_nodes (ilc_graph st) !! i = Some n;
  rp_arcs i j w : (i, j, w) ∈ graph_arcs (ilc_graph st) ↔
    ∃ a b, graph_nodes (ilc_graph st) !! i = Some a ∧ graph_nodes (ilc_graph st) !! j = Some b ∧ P a b w;
  rp_nodes a b w : P a b w → is_Some (ilc_node_map st !! a) ∧ is_Some (ilc_node_map st !! b) }.

Definition same_unit (st st' : Checker) : Prop :=
  ilc_module st' = ilc_module st ∧ ilc_func_handle_def_map st' = ilc_func_handle_def_map st.
(** The state afterwards has the arcs [Q] as well. *)
Definition adds_to (Q : arcs) (st st' : Checker) : Prop :=
  same_unit st st' ∧ ∀ P, represents st P → represents st' (λ a b w, P a b w ∨ Q a b w).

Lemma represents_iff st P Q : (∀ a b w, P a b w ↔ Q a b w) → represents st P → represents st Q.
Proof.
  intros Hi [H1 H2 H3]. split; [done| |].
  - intros i j w. rewrite H2. by setoid_rewrite Hi.
  - intros a b w HQ. by eapply H3, Hi.
Qed.
Lemma adds_to_iff P Q st st' : (∀ a b w, P a b w ↔ Q a b w) → adds_to P st st' → adds_to Q st st'.
Proof.
  intros Hi [Hs Ha]. split; [done|]. intros R HR. eapply represents_iff; [|by apply Ha]. cbn. naive_solver.
Qed.
Lemma adds_to_nothing st : adds_to (λ _ _ _, False) st st.
Proof. split; [done|]. intros P. apply represents_iff. naive_solver. Qed.
Lemma adds_to_trans P Q st st1 st2 :
  adds_to P st st1 → adds_to Q st1 st2 → adds_to (λ a b w, P a b w ∨ Q a b w) st st2.
Proof.
  intros [[H1 H2] Ha] [[H3 H4] Hb]. split; [split; congruence|]. intros R HR.
  eapply represents_iff; [|apply Hb, Ha, HR]. cbn. naive_solver.
Qed.

Lemma adds_to_foldl {A} (f : Checker → A → Checker) (Q : A → arcs) (l : list A) st :
  (∀ x st, x ∈ l → adds_to (Q x) st (f st x)) →
  adds_to (λ a b w, ∃ x, x ∈ l ∧ Q x a b w) st (foldl f st l).
Proof.
  revert st; induction l as [|x l IH]; intros st Hf; cbn [foldl].
  - eapply adds_to_iff; [|apply adds_to_nothing]. cbn. intros a b w. split; [done|]. by intros (x & []%not_elem_of_nil & _).
  - eapply adds_to_iff; [|eapply adds_to_trans; [apply Hf; by left|apply IH; intros; apply Hf; by right]].
    intros a b w. cbn. setoid_rewrite elem_of_cons. naive_solver.
Qed.
Lemma adds_to_try_fold {A} (f : Checker → A → result PartialVMError Checker) (Q : A → arcs) (l : list A) st :
  (∀ x st', x ∈ l → same_unit st st' → ∃ st2, f st' x = Ok st2 ∧ adds_to (Q x) st' st2) →
  ∃ st', try_fold f l st = Ok st' ∧ adds_to (λ a b w, ∃ x, x ∈ l ∧ Q x a b w) st st'.
Proof.
  revert st; induction l as [|x l IH]; intros st Hf; cbn [try_fold].
  - exists st. split; [done|]. eapply adds_to_iff; [|apply adds_to_nothing]. cbn. intros a b w. split; [done|].
    by intros (x & []%not_elem_of_nil & _).
  - destruct (Hf x st) as (st1 & -> & H1); [by left|done|]. cbn [mbind result_bind].
    destruct (IH st1) as (st2 & -> & H2).
    { intros y st' Hy [Hs1 Hs2]. apply Hf; [by right|]. destruct H1 as [[Hs3 Hs4] _]. split; congruence. }
    exists st2. split; [done|]. eapply adds_to_iff; [|by eapply adds_to_trans].
    intros a b w. cbn. setoid_rewrite elem_of_cons. naive_solver.
Qed.

(** A node that is found or added *)
Lemma get_or_add_node_spec st n i st' :
  get_or_add_node st n = (i, st') →
  same_unit st st' ∧ ∀ P, represents st P → represents st' P ∧
    graph_nodes (ilc_graph st') !! i = Some n ∧
    ∀ j x, graph_nodes (ilc_graph st) !! j = Some x → graph_nodes (ilc_graph st') !! j = Some x.
Proof.
  unfold get_or_add_node. destruct (ilc_node_map st !! n) as [k|] eqn:Hk.
  { intros [= <- <-]. split; [done|]. intros P HP. split_and!; [done| |done]. by apply HP. }
  pose proof (add_node_index (ilc_graph st) n) as Hidx. pose proof (add_node_nodes (ilc_graph st) n) as Hn.
  pose proof (add_node_arcs (ilc_graph st) n) as Ha. destruct (add_node (ilc_graph st) n) as [k g]. cbn in *.
  intros [= <- <-]. split; [done|]. intros P [H1 H2 H3]. unfold ilc_set. cbn.
  assert (∀ j x, graph_nodes (ilc_graph st) !! j = Some x → graph_nodes g !! j = Some x) as Hext.
  { intros j x Hj. rewrite Hn. by apply lookup_app_l_Some. }
  assert (graph_nodes g !! k = Some n) as Hkn.
  { rewrite Hn, Hidx, lookup_app_r by lia. by rewrite Nat.sub_diag. }
  assert (∀ j x, graph_nodes g !! j = Some x ↔ graph_nodes (ilc_graph st) !! j = Some x ∨ j = k ∧ x = n) as Hnodes.
  { intros j x. rewrite Hn, lookup_app_Some. f_equiv. rewrite Hidx, list_lookup_singleton_Some. split.
    - intros [? [? ->]]. split; [lia|done].
    - intros [-> ->]. split; [lia|]. by rewrite Nat.sub_diag. }
  split_and!; [|done|done]. split; cbn.
  - intros x j. rewrite Hnodes. destruct (decide (x = n)) as [->|Hne].
    + rewrite lookup_insert, decide_True by done. split; [intros [= ->]; by right|].
      intros [Hj|[-> _]]; [|done]. apply H1 in Hj. congruence.
    + rewrite lookup_insert_ne by done. rewrite H1. naive_solver.
  - intros a b w. rewrite Ha, H2. setoid_rewrite Hnodes. split; [naive_solver|].
    intros (x & y & Hx & Hy & HP). destruct (H3 _ _ _ HP) as [[i1 Hi1] [i2 Hi2]].
    destruct Hx as [Hx|[-> ->]]; [|congruence]. destruct Hy as [Hy|[-> ->]]; [|congruence]. eauto.
  - intros a b w HP. destruct (H3 _ _ _ HP) as [Hs1 Hs2].
    split; apply lookup_insert_is_Some'; by right.
Qed.

Lemma add_edge_adds st a b w :
  adds_to (λ a' b' w', a' = a ∧ b' = b ∧ w' = w) st (ilc_add_edge st a b w).
Proof.
  unfold ilc_add_edge. destruct (get_or_add_node st a) as [i st1] eqn:Ha.
  destruct (get_or_add_node st1 b) as [j st2] eqn:Hb.
  destruct (get_or_add_node_spec _ _ _ _ Ha) as [[S1 S2] HA]. destruct (get_or_add_node_spec _ _ _ _ Hb) as [[S3 S4] HB].
  split; [split; cbn; congruence|]. intros P HP. destruct (HA P HP) as (HP1 & Hi & _).
  destruct (HB P HP1) as ([H1 H2 H3] & Hj & Hext). apply Hext in Hi. clear HA HB HP1 Hext.
  pose proof (lookup_lt_Some _ _ _ Hi) as Hil. pose proof (lookup_lt_Some _ _ _ Hj) as Hjl.
  split; cbn; rewrite ?add_edge_nodes by done.
  - done.
  - intros x y u. rewrite add_edge_arcs by done. rewrite H2. split.
    + intros [[= -> -> ->]|(a' & b' & Hx & Hy & HQ)]; [exists a, b|exists a', b']; split_and!; try done; [by right|by left].
    + intros (a' & b' & Hx & Hy & [HQ|(-> & -> & ->)]); [right; eauto|left].
      apply H1 in Hx, Hy, Hi, Hj. congruence.
  - intros a' b' w' [HQ|(-> & -> & ->)]; [by eapply H3|]. split; eexists; by apply H1.
Qed.

(** The arcs of one type argument, of a call and of the functions of the module *)
Lemma mentions_extract p t : p ∈ extract_type_parameters t ↔ mentions p t.
Proof.
  induction t as [| | | | | |t IH|i|i ts IH|t IH|t IH|i] using token_ind; cbn [extract_type_parameters mentions];
    try done; try (by split; [set_solver|]); [|set_solver].
  induction IH as [|t ts Ht _ IHts]; cbn [foldr]; [set_solver|]. rewrite elem_of_union. naive_solver.
Qed.

Definition actual_arc (caller callee : FunctionDefinitionIndex) (q : N) (ty : SignatureToken) : arcs :=
  λ a b w, ∃ p, mentions p ty ∧ a = (caller, p) ∧ b = (callee, q) ∧ w = edge_of ty.
Lemma actual_adds st caller callee i ty :
  i < 65536 → adds_to (actual_arc caller callee i ty) st (build_graph_actual caller callee st (i, ty)).
Proof.
  intros Hi. unfold build_graph_actual.
  assert (wrap 16 i = i) as -> by (unfold wrap; apply N.mod_small; lia). unfold actual_arc.
  destruct ty as [| | | | | |t|k|k ts|t|t|k]; try (
    (eapply adds_to_iff; [|apply adds_to_foldl; intros x st' _; apply add_edge_adds]);
    intros a b w; cbn beta; setoid_rewrite elem_of_elements; setoid_rewrite mentions_extract; cbn [edge_of]; naive_solver).
  eapply adds_to_iff; [|apply add_edge_adds]. intros a b w. cbn. naive_solver.
Qed.

Section Unit.
Context (m : CompiledModule) (Hm : unit_in_bounds (VModule m)).
Context (Hdup : NoDup (fdef_function <$> m_function_defs m)) (Hlen : len (m_function_defs m) <= 65536).
Context (Hsigs : Forall (λ sig : Signature, len sig <= 65536) (m_signatures m)).
Notation in_unit st := (ilc_module st = m ∧ ilc_func_handle_def_map st = func_handle_def_map m).

Lemma call_adds_arcs st caller callee idx args :
  in_unit st → at_ (m_signatures m) idx = Some args →
  ∃ st', build_graph_call st caller callee idx = Ok st' ∧
    adds_to (λ a b w, ∃ q ty, at_ args q = Some ty ∧ actual_arc caller callee q ty a b w) st st'.
Proof.
  intros [Hst _] Ha. unfold build_graph_call. rewrite Hst, (signature_at_Some (VModule m) _ _ Ha).
  cbn [partial map_err mbind result_bind]. eexists. split; [done|].
  pose proof (Forall_lookup_1 _ _ _ _ Hsigs Ha) as Hl. cbn in Hl.
  eapply adds_to_iff; [|apply (adds_to_foldl _ (λ p, actual_arc caller callee p.1 p.2))].
  - intros a b w. cbn beta. split.
    + intros ([q ty] & Hq%elem_of_enumerate & Hact). eauto.
    + intros (q & ty & Hq & Hact). exists (q, ty). by rewrite elem_of_enumerate.
  - intros [q ty] st' Hq%elem_of_enumerate. apply actual_adds.
    assert (below args q) as Hb by (apply at_below; eauto). unfold below in Hb. lia.
Qed.

(** The arcs of one instruction of caller number [f] *)
Definition instr_arc (f : FunctionDefinitionIndex) (i : Bytecode) : arcs := λ a b w,
  ∃ c ty, cu_code c = [i] ∧ a.1 = f ∧ instantiates m c a.2 b.1 b.2 ty ∧ w = edge_of ty.

Lemma instr_adds_arcs st f locals code_len tparams i :
  in_unit st → bytecode_in_bounds (VModule m) locals tparams code_len i →
  ∃ st', build_graph_instr f st i = Ok st' ∧ adds_to (instr_arc f i) st st'.
Proof.
  intros Hst [Ho _].
  assert (∀ i, (∀ idx, i ≠ CallGeneric idx) → adds_to (instr_arc f i) st st) as Hno.
  { intros j Hj. eapply adds_to_iff; [|apply adds_to_nothing]. intros a b w. split; [done|].
    intros (c & ty & Hc & _ & (idx & _ & _ & _ & Hin & _) & _). rewrite Hc in Hin.
    apply list_elem_of_singleton in Hin. by apply (Hj idx). }
  destruct i; try (exists st; split; [done|]; by apply Hno). clear Hno.
  cbn [operand_in_bounds view_function_instantiations] in Ho. destruct (proj1 (at_below _ _) Ho) as [fi Hfi].
  destruct (Forall_lookup_1 _ _ _ _ (ib_function_instantiations _ Hm) Hfi) as [_ [args Ha]%at_below]. cbn in Hfi, Ha.
  unfold build_graph_instr. destruct Hst as [Hst1 Hst2]. rewrite Hst1, Hst2. unfold function_instantiation_at. cbn [view_function_instantiations].
  rewrite Hfi. cbn [unwrap partial map_err mbind result_bind].
  assert (∀ g, func_handle_def_map m !! fi_handle fi = Some g ↔ ∃ d, at_ (m_function_defs m) g = Some d ∧ fdef_function d = fi_handle fi) as Hmap
    by (intros g; by apply (index_map_Some fdef_function)).
  destruct (func_handle_def_map m !! fi_handle fi) as [g|].
  - destruct (call_adds_arcs st f g _ args (conj Hst1 Hst2) Ha) as (st' & Hr & Had). exists st'. split; [done|].
    destruct (proj1 (Hmap g) eq_refl) as (d & Hd & Hfd).
    eapply adds_to_iff; [|exact Had]. intros [xf xp] [yg yq] w. unfold instr_arc, actual_arc. cbn [fst snd]. split.
    + intros (q & ty & Hq & p & Hp & [= -> ->] & [= -> ->] & ->). exists {| cu_locals := 0; cu_code := [CallGeneric a] |}, ty.
      split_and!; try done. exists a, fi, d, args. split_and!; try done. by left.
    + intros (c & ty & Hc & Hx & (idx & fi' & d' & args' & Hin & Hfi' & Hd' & Hfd' & Ha' & Hq & Hp) & ->).
      rewrite Hc in Hin. apply list_elem_of_singleton in Hin. injection Hin as ->. rewrite Hfi in Hfi'. injection Hfi' as <-.
      rewrite Ha in Ha'. injection Ha' as <-. exists yq, ty. split; [done|]. exists xp.
      assert (Some g = Some yg) as [= ->] by (apply Hmap; eauto). by subst.
  - exists st. split; [done|]. eapply adds_to_iff; [|apply adds_to_nothing]. intros x y w. split; [done|].
    intros (c & ty & Hc & _ & (idx & fi' & d' & args' & Hin & Hfi' & Hd' & Hfd' & _) & _).
    rewrite Hc in Hin. apply list_elem_of_singleton in Hin. injection Hin as ->. rewrite Hfi in Hfi'. injection Hfi' as <-.
    assert (None = Some y.1) by (apply Hmap; eauto). done.
Qed.

Lemma def_adds_arcs st f d :
  in_unit st → d ∈ m_function_defs m →
  ∃ st', build_graph_function_def st f d = Ok st' ∧
    adds_to (λ a b w, ∃ c ty, a.1 = f ∧ fdef_code d = Some c ∧ instantiates m c a.2 b.1 b.2 ty ∧ w = edge_of ty) st st'.
Proof.
  intros Hst Hin. unfold build_graph_function_def. pose proof (ib_function_defs _ Hm) as Hdefs. cbn in Hdefs.
  rewrite Forall_forall in Hdefs. destruct (Hdefs _ Hin) as (_ & _ & Hcode). destruct (fdef_code d) as [c|].
  2: { exists st. split; [done|]. eapply adds_to_iff; [|apply adds_to_nothing]. intros a b w. split; [done|]. by intros (? & ? & ? & ? & _). }
  destruct (Hcode c eq_refl) as (? & ? & ? & _ & _ & _ & _ & (? & _ & _ & Hb)). rewrite Forall_forall in Hb.
  destruct (adds_to_try_fold (build_graph_instr f) (instr_arc f) (cu_code c) st) as (st' & Hr & Had).
  { intros i st' Hi [H1 H2]. eapply instr_adds_arcs; [|by apply Hb]. destruct Hst. split; congruence. }
  exists st'. split; [done|]. eapply adds_to_iff; [|exact Had]. intros a b w. unfold instr_arc. cbn beta. split.
  - intros (i & Hi & c' & ty & Hc' & Ha & (idx & fi & d' & args & Hx & Hrest) & ->). exists c, ty. split_and!; try done.
    exists idx, fi, d', args. rewrite Hc' in Hx. apply list_elem_of_singleton in Hx. subst i. by split.
  - intros (c' & ty & Ha & [= <-] & (idx & fi & d' & args & Hx & Hrest) & ->). exists (CallGeneric idx). split; [done|].
    exists {| cu_locals := 0; cu_code := [CallGeneric idx] |}, ty. split_and!; try done. exists idx, fi, d', args. split; [by left|done].
Qed.

Notation callers := (filter (λ def, is_native def = false) (m_function_defs m)).
Lemma build_graph_spec :
  ∃ st, build_graph (InstantiationLoopChecker_new m) = Ok st ∧ represents st (inst_arc m callers).
Proof.
  unfold build_graph. cbn [InstantiationLoopChecker_new ilc_module].
  destruct (adds_to_try_fold (λ self p, build_graph_function_def self (wrap 16 p.1) p.2)
    (λ p a b w, ∃ c ty, a.1 = p.1 ∧ fdef_code p.2 = Some c ∧ instantiates m c a.2 b.1 b.2 ty ∧ w = edge_of ty)
    (enumerate callers) (InstantiationLoopChecker_new m)) as (st & Hr & [_ Had]).
  { intros [f d] st' Hf%elem_of_enumerate [H1 H2]. cbn [fst snd].
    assert (wrap 16 f = f) as ->.
    { unfold wrap. apply N.mod_small. assert (below callers f) as Hb by (apply at_below; eauto).
      unfold below, len in Hb, Hlen.
      pose proof (length_filter (λ def, is_native def = false) (m_function_defs m)). lia. }
    apply def_adds_arcs; [by split|]. apply list_elem_of_lookup_2 in Hf. by apply list_elem_of_filter in Hf as [_ ?]. }
  exists st. split; [done|].
  assert (represents (InstantiationLoopChecker_new m) (λ _ _ _, False)) as Hnew.
  { split; cbn.
    - intros n i. by rewrite lookup_empty, new_nodes.
    - intros i j w. rewrite new_arcs. split; [intros []%not_elem_of_nil|]. by intros (? & ? & _ & _ & []).
    - by intros. }
  eapply represents_iff; [|by apply Had]. intros a b w. unfold inst_arc. cbn beta. split.
  - intros [[]|([f d] & Hf%elem_of_enumerate & c & ty & Ha & Hc & Hi & ->)]. exists d, c, ty. cbn in *. by rewrite Ha.
  - intros (d & c & ty & Hd & Hc & Hi & ->). right. exists (a.1, d). rewrite elem_of_enumerate. eauto 10.
Qed.

(** A component with a constructing arc is a growing loop. *)
Lemma components_spec st P :
  represents st P →
  last (find_non_trivial_components st) = None ↔
  ¬ ∃ a b ty, P a b (TyConApp ty) ∧ rtc (λ x y, ∃ w, P x y w) b a.
Proof.
  intros HP. rewrite last_None. set (g := ilc_graph st).
  assert (∀ i j, rtc (λ x y, ∃ w, (x, y, w) ∈ graph_arcs g) i j → ∀ a, graph_nodes g !! i = Some a →
    ∃ b, graph_nodes g !! j = Some b ∧ rtc (λ x y, ∃ w, P x y w) a b) as Hfwd.
  { induction 1 as [i|i k j [w Hw] _ IH]; intros a Ha; [by exists a|].
    apply (rp_arcs _ _ HP) in Hw as (a' & b & Ha' & Hb & Hab). fold g in Ha'. rewrite Ha in Ha'. injection Ha' as <-.
    destruct (IH b Hb) as (c & Hc & Hbc). exists c. split; [done|]. eapply rtc_l; eauto. }
  assert (∀ a b, rtc (λ x y, ∃ w, P x y w) a b → ∀ i, graph_nodes g !! i = Some a →
    ∃ j, graph_nodes g !! j = Some b ∧ rtc (λ x y, ∃ w, (x, y, w) ∈ graph_arcs g) i j) as Hbwd.
  { induction 1 as [a|a c b [w Hw] _ IH]; intros i Hi; [by exists i|].
    destruct (rp_nodes _ _ HP _ _ _ Hw) as [_ [k Hk]]. apply (rp_map _ _ HP) in Hk.
    destruct (IH k Hk) as (j & Hj & Hkj). exists j. split; [done|]. eapply rtc_l; [|exact Hkj]. exists w.
    apply (rp_arcs _ _ HP). eauto. }
  assert (∀ nodes, nodes ∈ tarjan_scc g →
    existsb is_ty_con_app (flat_map (λ node_idx, snd <$> filter (λ edge : nat * Edge, edge.1 ∈ nodes) (edges g node_idx)) nodes) = true ↔
    ∃ i j ty, i ∈ nodes ∧ j ∈ nodes ∧ (i, j, TyConApp ty) ∈ graph_arcs g) as Hex.
  { intros nodes _. rewrite existsb_exists. setoid_rewrite in_flat_map. split.
    - intros (w & (i & Hi%list_elem_of_In & Hw%list_elem_of_In) & Hc).
      apply list_elem_of_fmap in Hw as ([j w'] & -> & [Hj Hedge]%list_elem_of_filter). cbn in *.
      destruct w' as [|ty]; [done|]. exists i, j, ty. by rewrite <- edges_arcs.
    - intros (i & j & ty & Hi & Hj & Harc). exists (TyConApp ty). split; [|done]. exists i. split; [by apply list_elem_of_In|].
      apply list_elem_of_In, list_elem_of_fmap. exists (j, TyConApp ty). split; [done|]. apply list_elem_of_filter.
      split; [done|]. by apply edges_arcs. }
  split.
  - intros Hnil (a & b & ty & Hab & Hba). destruct (rp_nodes _ _ HP _ _ _ Hab) as [[i Hi] [j Hj]]. apply (rp_map _ _ HP) in Hi, Hj.
    fold g in Hi, Hj. assert ((i, j, TyConApp ty) ∈ graph_arcs g) as Harc by (apply (rp_arcs _ _ HP); eauto).
    destruct (Hbwd _ _ Hba j Hj) as (i' & Hi' & Hji).
    assert (i' = i) as ->. { apply (rp_map _ _ HP) in Hi, Hi'. congruence. }
    destruct (tarjan_covers g i) as (nodes & Hn & Hin); [by eapply lookup_lt_Some|].
    assert (j ∈ nodes) as Hjn.
    { apply (tarjan_classes g nodes i j Hn Hin). split_and!; [by eapply lookup_lt_Some| |done]. eapply rtc_l; [by eexists|done]. }
    assert (∃ x, x ∈ find_non_trivial_components st) as [x Hx]; [|rewrite Hnil in Hx; by apply not_elem_of_nil in Hx].
    unfold find_non_trivial_components. eexists. apply list_elem_of_omap. exists nodes. split; [done|]. cbv zeta.
    fold g. rewrite (proj2 (Hex nodes Hn)) by eauto 10. done.
  - intros Hno. destruct (find_non_trivial_components st) as [|x l] eqn:Hf; [done|]. exfalso. apply Hno.
    assert (x ∈ find_non_trivial_components st) as Hx by (rewrite Hf; by left).
    unfold find_non_trivial_components in Hx. apply list_elem_of_omap in Hx as (nodes & Hn & Hx). cbv zeta in Hx. fold g in Hx, Hn.
    destruct (existsb _ _) eqn:He; [|done]. apply (Hex nodes Hn) in He as (i & j & ty & Hi & Hj & Harc).
    apply (tarjan_classes g nodes i j Hn Hi) in Hj as (_ & _ & Hji).
    apply (rp_arcs _ _ HP) in Harc as (a & b & Ha & Hb & Hab). destruct (Hfwd _ _ Hji b Hb) as (a' & Ha' & Hba).
    fold g in Ha. rewrite Ha in Ha'. injection Ha' as <-. eauto.
Qed.

Lemma loops_decide : decides (loops_verify_module (G := G) m) (¬ growing_loop m callers).
Proof.
  unfold loops_verify_module. destruct build_graph_spec as (st & -> & HP). cbn [mbind result_bind].
  pose proof (components_spec st _ HP) as Hc. destruct (last (find_non_trivial_components st)) as [x|].
  - apply decides_err. intros Hno. by apply Hc in Hno.
  - apply decides_ok. by apply Hc.
Qed.
Lemma loops_outcome :
  loops_verify_module (G := G) m = Ok tt ∨
  loops_verify_module (G := G) m = Err (PartialVMError_new LOOP_IN_INSTANTIATION_GRAPH).
Proof.
  unfold loops_verify_module. destruct build_graph_spec as (st & -> & _). cbn [mbind result_bind].
  destruct (last _); [by right|by left].
Qed.
End Unit.
End Build.

(** In a module in bounds and without native functions the check for instantiation
    loops never panics and accepts exactly when no cycle of generic calls instantiates a
    type parameter with a type built from itself, given a graph library with correct
    strongly connected components. *)
Theorem loops_verify_module_spec {G : Type} `{GraphLaws G Node Edge} (m : CompiledModule) :
  BoundsChecker.verify_module m = Ok tt → duplication_verify_module m = Ok tt → tables_fit m →
  len (m_function_defs m) <= 65536 → Forall (λ sig : Signature, len sig <= 65536) (m_signatures m) →
  Forall (λ def, is_native def = false) (m_function_defs m) →
  decides (loops_verify_module (G := G) m) (¬ growing_loop m (m_function_defs m)).
Proof.
  intros Hb%verify_module_iff Hd Hfit Hlen Hsigs Hnat. apply duplication_module_iff in Hd; [|done|done].
  assert (filter (λ def, is_native def = false) (m_function_defs m) = m_function_defs m) as He.
  { clear -Hnat. induction Hnat as [|d l Hd _ IH]; [done|]. by rewrite filter_cons_True, IH. }
  pose proof (loops_decide (G := G) m (proj2 Hb) (dm_function_defs _ Hd) Hlen Hsigs) as Hl. by rewrite He in Hl.
Qed.

(** ** A native function hides a loop

    A generic function calls itself with a vector of its type argument. *)

Definition looping_code : CodeUnit := {| cu_locals := 0; cu_code := [CallGeneric 0; Ret] |}.
Definition looping_module (native : bool) : CompiledModule :=
  let handle name := {| fh_module := 0; fh_name := name; fh_parameters := 0; fh_return := 0; fh_type_parameters := [EMPTY] |} in
  let def h code := {| fdef_function := h; fdef_visibility := Public; fdef_acquires_global_resources := []; fdef_code := code |} in
  {| m_version := 4; m_self_module_handle_idx := 0;
     m_module_handles := [ {| mh_address := 0; mh_name := 2 |} ]; m_struct_handles := [];
     m_function_handles := if native then [handle 0; handle 1] else [handle 0];
     m_field_handles := []; m_friend_decls := []; m_struct_def_instantiations := [];
     m_function_instantiations := [ {| fi_handle := 0; fi_type_parameters := 1 |} ];
     m_field_instantiations := []; m_signatures := [ []; [Vector (TypeParameter 0)] ];
     m_identifiers := [ [102]; [103]; [77] ]; m_address_identifiers := [ ZERO ];
     m_constant_pool := []; m_struct_defs := [];
     m_function_defs := if native then [def 1 None; def 0 (Some looping_code)] else [def 0 (Some looping_code)] |}.

Lemma looping_module_grows native : growing_loop (looping_module native) (m_function_defs (looping_module native)).
Proof.
  set (f := if native then 1 else 0).
  assert (inst_arc (looping_module native) (m_function_defs (looping_module native)) (f, 0) (f, 0) (TyConApp (Vector (TypeParameter 0)))) as Ha.
  { destruct native; (eexists _, looping_code, (Vector (TypeParameter 0)); split_and!; [reflexivity|reflexivity| |reflexivity];
      eexists 0, _, _, _; split; [by left|]; split_and!; reflexivity). }
  exists (f, 0), (f, 0), (Vector (TypeParameter 0)). by split; [|apply rtc_refl].
Qed.

Lemma looping_module_decides {G : Type} `{GraphLaws G Node Edge} native :
  let m := looping_module native in
  decides (loops_verify_module (G := G) m) (¬ growing_loop m (filter (λ def, is_native def = false) (m_function_defs m))) ∧
  (loops_verify_module (G := G) m = Ok tt ∨
   loops_verify_module (G := G) m = Err (PartialVMError_new LOOP_IN_INSTANTIATION_GRAPH)).
Proof.
  cbv zeta. assert (unit_in_bounds (VModule (looping_module native))) as Hb.
  { apply (verify_module_iff (looping_module native)). by destruct native; vm_compute. }
  assert (NoDup (fdef_function <$> m_function_defs (looping_module native))) as Hd.
  { destruct native; repeat constructor; set_solver. }
  assert (len (m_function_defs (looping_module native)) <= 65536) as Hl by (by destruct native; vm_compute).
  assert (Forall (λ sig : Signature, len sig <= 65536) (m_signatures (looping_module native))) as Hs.
  { by destruct native; repeat constructor; vm_compute. }
  split; [by apply loops_decide|by apply loops_outcome].
Qed.
Lemma one_entry {A} (x y : A) i : at_ [x] i = Some y → i = 0 ∧ x = y.
Proof. unfold at_. destruct (N.to_nat i) as [|[|n]] eqn:Hn; [|done..]. intros [= <-]. split; [lia|done]. Qed.

(** A module with a growing cycle of generic calls is accepted by the check for
    instantiation loops when a native function is defined before the caller, because
    callers are numbered without the native functions and callees with them. *)
Theorem native_function_hides_loop {G : Type} `{GraphLaws G Node Edge} :
  let m := looping_module true in
  growing_loop m (m_function_defs m) ∧
  BoundsChecker.verify_module m = Ok tt ∧ duplication_verify_module m = Ok tt ∧
  signature_verify_module m = Ok tt ∧
  loops_verify_module (G := G) m = Ok tt ∧
  loops_verify_module (G := G) (looping_module false) = Err (PartialVMError_new LOOP_IN_INSTANTIATION_GRAPH).
Proof.
  cbv zeta. split; [apply looping_module_grows|]. do 3 (split; [by vm_compute|]).
  destruct (looping_module_decides (G := G) true) as [[_ Ht] _], (looping_module_decides (G := G) false) as [[_ Hf] Ho].
  split.
  - apply Ht. intros ([af ap] & [bf bp] & ty & (d & c & t & Hd & Hc & (idx & fi & d' & args & _ & Hfi & Hd' & Hfd & _) & _) & Hba).
    cbn [fst snd] in *. apply one_entry in Hfi as [_ <-]. apply one_entry in Hd as [-> _].
    assert (bf = 1) as ->.
    { unfold at_ in Hd'. destruct (N.to_nat bf) as [|[|n]] eqn:Hn; [|lia|by destruct n]. injection Hd' as <-. done. }
    inversion Hba as [|? ? ? (w & d2 & c2 & t2 & Hd2 & _)]; subst. cbn [fst] in Hd2. by apply one_entry in Hd2 as [? _].
  - destruct Ho as [Ho|]; [|done]. apply Hf in Ho. destruct Ho. apply (looping_module_grows false).
Qed.

Lemma loops_verify_module_spec_witness :
  decides (@loops_verify_module _ list_graph_ops (looping_module false))
    (¬ growing_loop (looping_module false) (m_function_defs (looping_module false))).
Proof.
  apply (@loops_verify_module_spec _ list_graph_ops list_graph_laws);
    [by vm_compute|by vm_compute|by vm_compute|by vm_compute|by repeat constructor; vm_compute|by repeat constructor].
Defined.
Lemma native_function_hides_loop_witness :
  @loops_verify_module _ list_graph_ops (looping_module true) = Ok tt.
Proof. apply (@native_function_hides_loop _ list_graph_ops list_graph_laws). Defined.
