(* ===== verification/CyclicDependencies.v ===== *)
(** * CyclicDependencies: modules do not depend on themselves

    Models [language/bytecode-verifier/src/cyclic_dependencies.rs]: the search of the
    modules that a module depends on, or befriends, for the module itself.  What other
    modules depend on comes from the caller's functions [imm_deps] and [imm_friends]. *)

From S2P Require Import Prelude Checks CoreTypes VmStatus Abilities FileFormat Errors Deserializer RoundTrip Views BoundsChecker InBounds CheckedUnits Duplication SignatureChecker ModulePasses.

#[export] Instance ModuleId_countable : Countable ModuleId.
Proof.
  apply (inj_countable' (λ id : ModuleId, (mid_address id : list N, mid_name id : list N))
    (λ p, {| mid_address := p.1; mid_name := p.2 |})). by intros [].
Defined.

(** ** Accessors of [ModuleAccess] *)

(** [self_handle] *)
Definition self_handle (module : CompiledModule) : result StatusCode ModuleHandle :=
  handle ← module_handle_at (VModule module) (m_self_module_handle_idx module);
  assumed_postcondition (in_table (m_address_identifiers module) (mh_address handle)
    && in_table (m_identifiers module) (mh_name handle)) handle.
Definition immediate_dependencies (module : CompiledModule) : result StatusCode (list ModuleId) :=
  self_handle ← self_handle module;
  collect (module_id_for_handle (VModule module))
    (filter (λ handle, handle ≠ self_handle) (m_module_handles module)).
Definition immediate_friends (module : CompiledModule) : result StatusCode (list ModuleId) :=
  collect (module_id_for_handle (VModule module)) (m_friend_decls module).

(** ** The search *)

Section Search.
Context (target_module_id : ModuleId) (immediate_nexts : ModuleId → result PartialVMError (list ModuleId)).

(** [collect_all_with_cycle_detection_recursive]; the fuel bounds the depth of the calls. *)
Fixpoint collect_all_recursive (fuel : nat) (cursor_module_id : ModuleId) (visited_modules : gset ModuleId)
  : result PartialVMError (bool * gset ModuleId) :=
  match fuel with
  | O => OutOfFuel
  | S fuel =>
      if bool_decide (cursor_module_id = target_module_id) then Ok (true, visited_modules)
      else if bool_decide (cursor_module_id ∈ visited_modules) then Ok (false, visited_modules)
      else
        nexts ← immediate_nexts cursor_module_id;
        (fix go (nexts : list ModuleId) (visited_modules : gset ModuleId) : result PartialVMError (bool * gset ModuleId) :=
           match nexts with
           | [] => Ok (false, visited_modules)
           | next :: nexts =>
               '(found, visited_modules) ← collect_all_recursive fuel next visited_modules;
               if found : bool then Ok (true, visited_modules) else go nexts visited_modules
           end) nexts ({[ cursor_module_id ]} ∪ visited_modules)
  end.

(** [collect_all_with_cycle_detection] *)
Definition collect_all_with_cycle_detection (fuel : nat) (items_to_explore : list ModuleId)
    (error_on_cycle : StatusCode) : result PartialVMError (gset ModuleId) :=
  try_fold (λ visited_modules item,
    '(found, visited_modules) ← collect_all_recursive fuel item visited_modules;
    if found : bool then Err (PartialVMError_new error_on_cycle) else Ok visited_modules)
    items_to_explore ∅.
End Search.

(** [verify_module_impl] *)
Definition cyclic_verify_module (fuel : nat) (module : CompiledModule)
    (imm_deps imm_friends : ModuleId → result PartialVMError (list ModuleId)) : result PartialVMError unit :=
  self_handle ← partial (module_handle_at (VModule module) (m_self_module_handle_idx module));
  self_id ← partial (module_id_for_handle (VModule module) self_handle);
  dependencies ← partial (immediate_dependencies module);
  all_deps ← collect_all_with_cycle_detection self_id imm_deps fuel dependencies CYCLIC_MODULE_DEPENDENCY;
  friends ← partial (immediate_friends module);
  all_friends ← collect_all_with_cycle_detection self_id imm_friends fuel friends CYCLIC_MODULE_FRIENDSHIP;
  if bool_decide (all_deps ∩ all_friends = ∅) then Ok tt
  else Err (PartialVMError_new INVALID_FRIEND_DECL_WITH_MODULES_IN_DEPENDENCIES).

(** ** What the search finds *)

Section Correct.
Context (target : ModuleId) (next_ids : ModuleId → result PartialVMError (list ModuleId)).

(** The next modules of a module *)
Definition next_of (x y : ModuleId) : Prop := ∃ l, next_ids x = Ok l ∧ y ∈ l.

(** The modules of [U], which the functions know, are closed under [next_of]. *)
Definition known (U : gset ModuleId) : Prop :=
  ∀ x, x ∈ U → x ≠ target → ∃ l, next_ids x = Ok l ∧ ∀ y, y ∈ l → y ∈ U.

(** What a search from [x] leaves: either the target is reached, or the modules visited
    in it are reached, are not the target, and have all their next modules visited. *)
Definition searched (U : gset ModuleId) (from : ModuleId → Prop) (V : gset ModuleId) (r : result PartialVMError (bool * gset ModuleId)) : Prop :=
  (∃ V', r = Ok (true, V') ∧ ∃ x, from x ∧ rtc next_of x target) ∨
  (∃ V', r = Ok (false, V') ∧ V ⊆ V' ∧ V' ⊆ U ∧ (∀ x, from x → x ∈ V') ∧
    ∀ x, x ∈ V' → x ∉ V → x ≠ target ∧ (∃ y, from y ∧ rtc next_of y x) ∧ ∀ y, next_of x y → y ∈ V').

Lemma search_spec U fuel x V :
  known U → V ⊆ U → x ∈ U → target ∉ V → (size (U ∖ V) < fuel)%nat →
  searched U (λ y, y = x) V (collect_all_recursive target next_ids fuel x V).
Proof.
  intros HU. revert x V. induction fuel as [|fuel IH]; intros x V HV Hx Ht Hf; [lia|]. cbn [collect_all_recursive].
  case_bool_decide as Heq.
  { left. eexists. split; [done|]. exists x. split; [done|]. by rewrite Heq. }
  case_bool_decide as Hin.
  { right. eexists. split; [done|]. split_and!; [done|done|by intros ? ->|]. by intros y Hy Hn. }
  destruct (HU x Hx Heq) as (l & Hl & Hcl). rewrite Hl. cbn [mbind result_bind].
  assert (∀ y, next_of x y ↔ y ∈ l) as Hnx.
  { intros y. unfold next_of. rewrite Hl. naive_solver. }
  set (V0 := {[ x ]} ∪ V).
  assert (∀ l' W, V0 ⊆ W → W ⊆ U → target ∉ W → (∀ y, y ∈ l' → y ∈ l) →
    searched U (λ y, y ∈ l') W ((fix go (nexts : list ModuleId) (visited_modules : gset ModuleId) : result PartialVMError (bool * gset ModuleId) :=
           match nexts with
           | [] => Ok (false, visited_modules)
           | next :: nexts' =>
               '(found, visited_modules) ← collect_all_recursive target next_ids fuel next visited_modules;
               if found : bool then Ok (true, visited_modules) else go nexts' visited_modules
           end) l' W)) as Hgo.
  { induction l' as [|y l' IHl]; intros W HW0 HWU HWt Hsub.
    - right. eexists. split; [done|]. split_and!; [done|done|by intros ? []%not_elem_of_nil|]. by intros y Hy Hn.
    - assert (size (U ∖ W) < fuel)%nat as Hsz.
      { enough (size (U ∖ W) < size (U ∖ V))%nat by lia. apply subset_size. split; [set_solver|].
        intros Hs. assert (x ∈ U ∖ V) as Hxd by set_solver. apply Hs in Hxd. set_solver. }
      destruct (IH y W HWU) as [(V' & -> & z & -> & Hr)|(V' & -> & HWV & HVU & Hy & Hnew)]; [by apply Hcl, Hsub; left|done|done| |];
        cbn [mbind result_bind].
      + left. eexists. split; [done|]. exists y. split; [by left|done].
      + destruct (IHl V') as [(V2 & -> & z & Hz & Hr)|(V2 & -> & HV2 & HVU2 & Hall & Hnew2)]; [set_solver|done| |by intros; apply Hsub; right| |].
        * intros Htin. destruct (decide (target ∈ W)); [done|]. by destruct (Hnew target).
        * left. eexists. split; [done|]. exists z. split; [by right|done].
        * right. eexists. split; [done|]. split_and!; [set_solver|done| |].
          -- intros z [->|Hz]%elem_of_cons; [apply HV2, Hy; done|by apply Hall].
          -- intros z Hz Hn. destruct (decide (z ∈ V')) as [HzV|HzV].
             ++ destruct (Hnew z HzV Hn) as (H1 & (w & -> & Hr) & H3). split_and!; [done|exists y; split; [by left|done]|].
                intros u Hu. by apply HV2, H3.
             ++ destruct (Hnew2 z Hz HzV) as (H1 & (w & Hw & Hr) & H3). split_and!; [done|exists w; split; [by right|done]|done]. }
  destruct (Hgo l V0) as [(V' & -> & y & Hy & Hr)|(V' & -> & HV0 & HVU & Hall & Hnew)]; [done|set_solver|set_solver|done| |].
  - left. eexists. split; [done|]. exists x. split; [done|]. eapply rtc_l; [by apply Hnx|done].
  - right. eexists. split; [done|]. split_and!; [set_solver|done|intros ? ->; set_solver|].
    intros z Hz Hn. destruct (decide (z = x)) as [->|Hne].
    + split_and!; [done|exists x; by split|]. intros y Hy. by apply Hall, Hnx.
    + destruct (Hnew z Hz) as (H1 & (w & Hw & Hr) & H3); [set_solver|]. split_and!; [done| |done].
      exists x. split; [done|]. eapply rtc_l; [by apply Hnx|done].
Qed.

(** A module is reached from [x] by a path that does not go on from the target. *)
Lemma collect_spec U fuel items e :
  known U → (∀ y, y ∈ items → y ∈ U) → (size U < fuel)%nat →
  (collect_all_with_cycle_detection target next_ids fuel items e = Err (PartialVMError_new e) ∧
   ∃ x, x ∈ items ∧ rtc next_of x target) ∨
  (∃ V, collect_all_with_cycle_detection target next_ids fuel items e = Ok V ∧
   ∀ x, x ∈ V ↔ ∃ y, y ∈ items ∧ rtc next_of y x) ∧ ¬ (∃ x, x ∈ items ∧ rtc next_of x target).
Proof.
  intros HU Hitems Hf. unfold collect_all_with_cycle_detection.
  enough (∀ l (V : gset ModuleId), V ⊆ U → target ∉ V → (∀ y, y ∈ l → y ∈ U) →
    (∀ x y, x ∈ V → next_of x y → y ∈ V) →
    (try_fold (λ visited_modules item,
      '(found, visited_modules) ← collect_all_recursive target next_ids fuel item visited_modules;
      if found : bool then Err (PartialVMError_new e) else Ok visited_modules) l V = Err (PartialVMError_new e) ∧
      ∃ x, x ∈ l ∧ rtc next_of x target) ∨
    (∃ V', try_fold (λ visited_modules item,
      '(found, visited_modules) ← collect_all_recursive target next_ids fuel item visited_modules;
      if found : bool then Err (PartialVMError_new e) else Ok visited_modules) l V = Ok V' ∧
      target ∉ V' ∧ (∀ x y, x ∈ V' → next_of x y → y ∈ V') ∧ V ⊆ V' ∧ (∀ x, x ∈ l → x ∈ V') ∧
      ∀ x, x ∈ V' → x ∈ V ∨ ∃ y, y ∈ l ∧ rtc next_of y x)) as H.
  { destruct (H items ∅) as [Hr|(V' & Hr & Ht & Hcl & _ & Hl & Hx)]; [set_solver|set_solver|done|set_solver|by left|right].
    assert (∀ y x, rtc next_of y x → y ∈ V' → x ∈ V') as Hrtc.
    { induction 1 as [|a b c Hab _ IH]; [done|]. intros Ha. apply IH. by eapply Hcl. }
    split; [|intros (x & Hin & Hr'); apply Ht; by eapply Hrtc, Hl].
    exists V'. split; [done|]. intros x. split; [|intros (y & Hy & Hyx); by eapply Hrtc, Hl].
    intros [Hn|]%Hx; [set_solver|done]. }
  clear Hitems items. induction l as [|x l IH]; intros V HV Ht Hl Hcl.
  { right. exists V. cbn [try_fold]. split_and!; try done; [by intros ? []%not_elem_of_nil|by left]. }
  cbn [try_fold]. destruct (search_spec U fuel x V) as [(V1 & -> & z & -> & Hr)|(V1 & -> & HV1 & HU1 & Hx & Hnew)];
    [done|done|by apply Hl; left|done| | |].
  { enough (size (U ∖ V) ≤ size U)%nat by lia. apply subseteq_size. set_solver. }
  { left. cbn. split; [done|]. exists x. split; [by left|done]. }
  cbn [mbind result_bind].
  assert (∀ a b, a ∈ V1 → next_of a b → b ∈ V1) as Hcl1.
  { intros a b Ha Hab. destruct (decide (a ∈ V)) as [Hin|Hn]; [by eapply HV1, Hcl|]. by apply (Hnew a). }
  destruct (IH V1) as [[Hr (z & Hz & Hzt)]|(V2 & Hr & Ht2 & Hcl2 & HV2 & Hl2 & Hx2)]; [done| |by intros; apply Hl; right|done| |].
  - intros Hin. destruct (decide (target ∈ V)); [done|]. by destruct (Hnew target).
  - left. split; [done|]. exists z. split; [by right|done].
  - right. exists V2. split_and!; [done|done|done|set_solver| |].
    + intros z [->|Hz]%elem_of_cons; [by apply HV2, Hx|by apply Hl2].
    + intros z [Hz|(y & Hy & Hyz)]%Hx2; [|right; exists y; split; [by right|done]].
      destruct (decide (z ∈ V)) as [|Hn]; [by left|right]. destruct (Hnew z Hz Hn) as (_ & (y & -> & Hr') & _).
      exists x. split; [by left|done].
Qed.
End Correct.

(** ** The pass *)

(** [x] is one of [items] or reached from one of them. *)
Definition reached (next_ids : ModuleId → result PartialVMError (list ModuleId)) (items : list ModuleId)
    (x : ModuleId) : Prop := ∃ y, y ∈ items ∧ rtc (next_of next_ids) y x.

Section Module.
Context (m : CompiledModule) (Hm : unit_in_bounds (VModule m)).

Lemma module_ids_total (l : list ModuleHandle) :
  Forall (module_handle_in_bounds (VModule m)) l → ∃ ids, collect (module_id_for_handle (VModule m)) l = Ok ids.
Proof.
  intros Hl. edestruct (collect_total (module_id_for_handle (VModule m)) l) as (ids & H & _); [|by exists ids].
  eapply Forall_impl; [exact Hl|]. intros h [[a Ha]%at_below [n Hn]%at_below].
  unfold module_id_for_handle, address_identifier_at, identifier_at. rewrite Ha. cbn. cbn in Hn. rewrite Hn. cbn. eauto.
Qed.
Lemma self_handle_total : ∃ h id, module_handle_at (VModule m) (m_self_module_handle_idx m) = Ok h ∧
  self_handle m = Ok h ∧ module_id_for_handle (VModule m) h = Ok id.
Proof.
  destruct (module_handle_at_total _ Hm _ (ib_self _ Hm _ eq_refl)) as (h & Hh & H1 & H2). cbn in Hh.
  destruct (module_ids_total [h]) as [ids Hids]; [by repeat constructor|]. cbn in Hids.
  destruct (module_id_for_handle (VModule m) h) as [id| | |] eqn:Hid; try done.
  exists h, id. split_and!; [done| |done]. unfold self_handle. rewrite Hh. cbn.
  by rewrite (in_table_below (m_address_identifiers m) _ H1), (in_table_below (m_identifiers m) _ H2).
Qed.
Lemma immediate_total : ∃ deps friends, immediate_dependencies m = Ok deps ∧ immediate_friends m = Ok friends.
Proof.
  destruct self_handle_total as (h & id & _ & Hs & _). unfold immediate_dependencies, immediate_friends. rewrite Hs.
  cbn [mbind result_bind].
  destruct (module_ids_total (filter (λ handle, handle ≠ h) (m_module_handles m))) as [deps Hd].
  { pose proof (ib_module_handles _ Hm) as Hh. cbn in Hh. rewrite Forall_forall in Hh |- *.
    intros x [_ Hx]%list_elem_of_filter. by apply Hh. }
  destruct (module_ids_total (m_friend_decls m)) as [friends Hf]; [exact (ib_friend_decls _ Hm)|]. eauto.
Qed.
End Module.

(** On a module in bounds the search for cyclic dependencies ends within a fuel above
    the number of known modules and without a panic, and accepts exactly when the module
    does not depend on itself, is not its own friend through others, and no module is
    reached both as a dependency and as a friend. *)
Theorem cyclic_verify_module_spec (m : CompiledModule)
    (imm_deps imm_friends : ModuleId → result PartialVMError (list ModuleId)) :
  BoundsChecker.verify_module m = Ok tt →
  ∃ id deps friends, self_id (VModule m) = Ok (Some id) ∧ immediate_dependencies m = Ok deps ∧
    immediate_friends m = Ok friends ∧
    ∀ U fuel, known id imm_deps U → known id imm_friends U → (∀ x, x ∈ deps ++ friends → x ∈ U) → (size U < fuel)%nat →
    decides (cyclic_verify_module fuel m imm_deps imm_friends)
      (¬ reached imm_deps deps id ∧ ¬ reached imm_friends friends id ∧
       ∀ x, ¬ (reached imm_deps deps x ∧ reached imm_friends friends x)).
Proof.
  intros [_ Hm]%verify_module_iff. destruct (self_handle_total m Hm) as (h & id & Hh & _ & Hid).
  destruct (immediate_total m Hm) as (deps & friends & Hd & Hf). exists id, deps, friends.
  split; [unfold self_id; cbn [view_self_handle_idx]; by rewrite Hh; cbn; rewrite Hid|]. split_and!; [done..|].
  intros U fuel Hkd Hkf HU Hfuel. setoid_rewrite elem_of_app in HU. unfold cyclic_verify_module.
  rewrite Hh. cbn [partial map_err mbind result_bind]. rewrite Hid. cbn [partial map_err mbind result_bind].
  rewrite Hd. cbn [partial map_err mbind result_bind].
  destruct (collect_spec id imm_deps U fuel deps CYCLIC_MODULE_DEPENDENCY) as [[-> Hr]|[(D & -> & HD) Hnd]];
    [done|by intros; apply HU; left|done|by apply decides_err; intros [Hn _]|].
  cbn [mbind result_bind]. rewrite Hf. cbn [partial map_err mbind result_bind].
  destruct (collect_spec id imm_friends U fuel friends CYCLIC_MODULE_FRIENDSHIP) as [[-> Hr]|[(F & -> & HF) Hnf]];
    [done|by intros; apply HU; right|done|by apply decides_err; intros (_ & Hn & _)|].
  cbn [mbind result_bind]. eapply decides_iff; [|apply decides_if_not]. rewrite bool_decide_eq_true. unfold reached.
  setoid_rewrite <- HD. setoid_rewrite <- HF. split; [|intros (_ & _ & H); set_solver].
  intros H. split_and!; [by rewrite HD|by rewrite HF|set_solver].
Qed.

Lemma cyclic_verify_module_spec_witness :
  ∃ id, self_id (VModule sample_module) = Ok (Some id) ∧
    decides (cyclic_verify_module 1 sample_module (λ _, Ok []) (λ _, Ok []))
      (¬ reached (λ _, Ok []) [] id ∧ ¬ reached (λ _, Ok []) [] id ∧
       ∀ x, ¬ (reached (λ _, Ok []) [] x ∧ reached (λ _, Ok []) [] x)).
Proof.
  destruct (cyclic_verify_module_spec sample_module (λ _, Ok []) (λ _, Ok [])) as (id & deps & friends & Hid & Hd & Hf & H);
    [by vm_compute|].
  assert (deps = []) as -> by (vm_compute in Hd; by injection Hd as <-).
  assert (friends = []) as -> by (vm_compute in Hf; by injection Hf as <-).
  exists id. split; [exact Hid|]. apply (H ∅).
  - by intros x []%not_elem_of_empty.
  - by intros x []%not_elem_of_empty.
  - by intros x []%not_elem_of_nil.
  - vm_compute. lia.
Defined.
