(* ===== verification/Dependencies.v ===== *)
(** * Dependencies: a unit links against the modules it imports

    Models [language/bytecode-verifier/src/dependencies.rs]: every module, struct and
    function that a unit imports is defined by one of the given modules in a compatible
    way, and functions with script visibility are called from such functions only. *)

From S2P Require Import Prelude Checks CoreTypes VmStatus Abilities FileFormat Errors Deserializer RoundTrip Views BoundsChecker InBounds CheckedUnits Duplication SignatureChecker ModulePasses CyclicDependencies.

Import SignatureToken Bytecode.

(** ** [struct Context] *)

Record Context_ : Type := {
  dc_resolver : BinaryIndexedView;
  dc_dependency_map : gmap ModuleId CompiledModule;
  dc_struct_id_to_handle_map : gmap (ModuleId * list N) StructHandleIndex;
  dc_func_id_to_handle_map : gmap (ModuleId * list N) FunctionHandleIndex;
  dc_function_visibilities : gmap FunctionHandleIndex Visibility }.

(** [m.self_id()] of a module *)
Definition module_self_id (m : CompiledModule) : result PartialVMError ModuleId :=
  id ← partial (self_id (VModule m));
  unwrap id.

(** The dependencies by their ids; later modules replace earlier ones of the same id. *)
Definition dependency_map_of (self_module : option ModuleId) (dependencies : list CompiledModule)
  : result PartialVMError (gmap ModuleId CompiledModule) :=
  try_fold (λ map d,
    id ← module_self_id d;
    Ok (if bool_decide (Some id ≠ self_module) then <[ id := d ]> map else map)) dependencies ∅.

(** What one dependency adds: the handles of its structs, the visibilities of its
    functions, and the handles of the functions that the unit may call *)
Notation Names A := (gmap (ModuleId * list N) A).
Definition add_struct_names (module_id : ModuleId) (module : CompiledModule) (names : Names StructHandleIndex)
  : result PartialVMError (Names StructHandleIndex) :=
  try_fold (λ names struct_def,
    struct_handle ← partial (struct_handle_at (VModule module) (sd_struct_handle struct_def));
    struct_name ← partial (identifier_at (VModule module) (sh_name struct_handle));
    Ok (<[ (module_id, struct_name) := sd_struct_handle struct_def ]> names)) (m_struct_defs module) names.
Definition may_be_called (self_module : option ModuleId) (friend_module_ids : list ModuleId) (visibility : Visibility) : bool :=
  match visibility with
  | Public | Script => true
  | Friend => match self_module with Some self_id => bool_decide (self_id ∈ friend_module_ids) | None => false end
  | Private => false
  end.
Definition add_function_names (self_module : option ModuleId) (module_id : ModuleId) (module : CompiledModule)
    (acc : Names Visibility * Names FunctionHandleIndex)
  : result PartialVMError (Names Visibility * Names FunctionHandleIndex) :=
  friend_module_ids ← partial (immediate_friends module);
  try_fold (λ acc func_def,
    let '(dependency_visibilities, func_id_to_handle_map) := acc in
    func_handle ← partial (function_handle_at (VModule module) (fdef_function func_def));
    func_name ← partial (identifier_at (VModule module) (fh_name func_handle));
    Ok (<[ (module_id, func_name) := fdef_visibility func_def ]> dependency_visibilities,
        if may_be_called self_module friend_module_ids (fdef_visibility func_def)
        then <[ (module_id, func_name) := fdef_function func_def ]> func_id_to_handle_map
        else func_id_to_handle_map)) (m_function_defs module) acc.

(** The module that a function handle names and the name of the function *)
Definition function_id (resolver : BinaryIndexedView) (function_handle : FunctionHandle)
  : result PartialVMError (ModuleId * list N) :=
  module_handle ← partial (module_handle_at resolver (fh_module function_handle));
  owner_module_id ← partial (module_id_for_handle resolver module_handle);
  function_name ← partial (identifier_at resolver (fh_name function_handle));
  Ok (owner_module_id, function_name).

(** The visibilities of the function handles of the unit *)
Definition function_visibilities_of (resolver : BinaryIndexedView) (dependency_visibilities : Names Visibility)
  : result PartialVMError (gmap FunctionHandleIndex Visibility) :=
  let own := foldl (λ map function_def, <[ fdef_function function_def := fdef_visibility function_def ]> map) ∅
    (match resolver with VModule m => m_function_defs m | VScript _ => [] end) in
  try_fold (λ map p,
    let '(idx, function_handle) := p in
    if bool_decide (Some (fh_module function_handle) = view_self_handle_idx resolver) then Ok map else
    id ← function_id resolver function_handle;
    match dependency_visibilities !! id with
    | None => Ok map
    | Some vis => Ok (<[ wrap 16 idx := vis ]> map)
    end) (enumerate (view_function_handles resolver)) own.

(** [Context::new] *)
Definition Context_new (resolver : BinaryIndexedView) (dependencies : list CompiledModule)
  : result PartialVMError Context_ :=
  self_module ← partial (self_id resolver);
  dependency_map ← dependency_map_of self_module dependencies;
  struct_names ← try_fold (λ names p, add_struct_names p.1 p.2 names) (map_to_list dependency_map) ∅;
  function_names ← try_fold (λ acc p, add_function_names self_module p.1 p.2 acc) (map_to_list dependency_map) (∅, ∅);
  visibilities ← function_visibilities_of resolver function_names.1;
  Ok {| dc_resolver := resolver; dc_dependency_map := dependency_map;
        dc_struct_id_to_handle_map := struct_names; dc_func_id_to_handle_map := function_names.2;
        dc_function_visibilities := visibilities |}.

(** ** The checks *)

Definition compatible_struct_abilities (local defined : AbilitySet) : bool := is_subset local defined.
Definition compatible_type_parameter_constraints (local defined : AbilitySet) : bool := is_subset defined local.
Definition compatible_type_parameter_phantom_decl (local defined : StructTypeParameter) : bool :=
  negb (stp_is_phantom local) || stp_is_phantom defined.
Definition compatible_fun_type_parameters (local defined : list AbilitySet) : bool :=
  (len local =? len defined) &&
  forallb (λ p, compatible_type_parameter_constraints p.1 p.2) (zip local defined).
Definition compatible_struct_type_parameters (local defined : list StructTypeParameter) : bool :=
  (len local =? len defined) &&
  forallb (λ p, compatible_type_parameter_phantom_decl p.1 p.2 &&
    compatible_type_parameter_constraints (stp_constraints p.1) (stp_constraints p.2)) (zip local defined).

(** [verify_imported_modules] *)
Definition verify_imported_modules (context : Context_) : result PartialVMError unit :=
  let self_module := view_self_handle_idx (dc_resolver context) in
  for_each (λ p : N * ModuleHandle,
    module_id ← partial (module_id_for_handle (dc_resolver context) p.2);
    if bool_decide (Some (wrap 16 p.1) ≠ self_module) && negb (bool_decide (is_Some (dc_dependency_map context !! module_id)))
    then Err (verification_error MISSING_DEPENDENCY KModuleHandle (wrap 16 p.1)) else Ok tt)
    (enumerate (view_module_handles (dc_resolver context))).

(** The module and the name of a struct handle *)
Definition struct_id (resolver : BinaryIndexedView) (struct_handle : StructHandle)
  : result PartialVMError (ModuleId * list N) :=
  module_handle ← partial (module_handle_at resolver (sh_module struct_handle));
  module_id ← partial (module_id_for_handle resolver module_handle);
  struct_name ← partial (identifier_at resolver (sh_name struct_handle));
  Ok (module_id, struct_name).

(** [verify_imported_structs] *)
Definition verify_imported_struct (context : Context_) (p : N * StructHandle) : result PartialVMError unit :=
  let '(idx, struct_handle) := p in
  if bool_decide (Some (sh_module struct_handle) = view_self_handle_idx (dc_resolver context)) then Ok tt else
  module_handle ← partial (module_handle_at (dc_resolver context) (sh_module struct_handle));
  owner_module_id ← partial (module_id_for_handle (dc_resolver context) module_handle);
  owner_module ← unwrap (dc_dependency_map context !! owner_module_id);
  struct_name ← partial (identifier_at (dc_resolver context) (sh_name struct_handle));
  match dc_struct_id_to_handle_map context !! (owner_module_id, struct_name) with
  | Some def_idx =>
      def_handle ← partial (struct_handle_at (VModule owner_module) def_idx);
      if negb (compatible_struct_abilities (sh_abilities struct_handle) (sh_abilities def_handle))
         || negb (compatible_struct_type_parameters (sh_type_parameters struct_handle) (sh_type_parameters def_handle))
      then Err (verification_error TYPE_MISMATCH KStructHandle (wrap 16 idx)) else Ok tt
  | None => Err (verification_error LOOKUP_FAILED KStructHandle (wrap 16 idx))
  end.
Definition verify_imported_structs (context : Context_) : result PartialVMError unit :=
  for_each (verify_imported_struct context) (enumerate (view_struct_handles (dc_resolver context))).

(** [compare_structs] *)
Definition compare_structs (resolver : BinaryIndexedView) (def_module : CompiledModule)
    (idx1 idx2 : StructHandleIndex) : result PartialVMError unit :=
  struct_handle ← partial (struct_handle_at resolver idx1);
  id ← struct_id resolver struct_handle;
  def_struct_handle ← partial (struct_handle_at (VModule def_module) idx2);
  def_id ← struct_id (VModule def_module) def_struct_handle;
  if bool_decide (id ≠ def_id) then Err (PartialVMError_new TYPE_MISMATCH) else Ok tt.

(** [compare_types] and [compare_cross_module_signatures] *)
Section Compare.
Context (resolver : BinaryIndexedView) (def_module : CompiledModule).

Fixpoint compare_types (handle_type def_type : SignatureToken) {struct handle_type} : result PartialVMError unit :=
  match handle_type, def_type with
  | Bool, Bool | U8, U8 | U64, U64 | U128, U128 | Address, Address | Signer, Signer => Ok tt
  | Vector ty1, Vector ty2 => compare_types ty1 ty2
  | Struct idx1, Struct idx2 => compare_structs resolver def_module idx1 idx2
  | StructInstantiation idx1 inst1, StructInstantiation idx2 inst2 =>
      _ ← compare_structs resolver def_module idx1 idx2;
      if negb (len inst1 =? len inst2) then Err (PartialVMError_new TYPE_MISMATCH) else
      (fix go (inst1 inst2 : list SignatureToken) : result PartialVMError unit :=
         match inst1, inst2 with
         | ty1 :: inst1, ty2 :: inst2 => _ ← compare_types ty1 ty2; go inst1 inst2
         | _, _ => Ok tt
         end) inst1 inst2
  | Reference ty1, Reference ty2 | MutableReference ty1, MutableReference ty2 => compare_types ty1 ty2
  | TypeParameter idx1, TypeParameter idx2 =>
      if negb (idx1 =? idx2) then Err (PartialVMError_new TYPE_MISMATCH) else Ok tt
  | _, _ => Err (PartialVMError_new TYPE_MISMATCH)
  end.
Definition compare_cross_module_signatures (handle_sig def_sig : list SignatureToken) : result PartialVMError unit :=
  if negb (len handle_sig =? len def_sig) then Err (PartialVMError_new TYPE_MISMATCH)
  else for_each (λ p, compare_types p.1 p.2) (zip handle_sig def_sig).
End Compare.

(** [verify_imported_functions] *)
Definition verify_imported_function (context : Context_) (p : N * FunctionHandle) : result PartialVMError unit :=
  let '(idx, function_handle) := p in
  let resolver := dc_resolver context in
  let at_handle := map_err (λ e, at_index e KFunctionHandle (wrap 16 idx)) in
  if bool_decide (Some (fh_module function_handle) = view_self_handle_idx resolver) then Ok tt else
  module_handle ← partial (module_handle_at resolver (fh_module function_handle));
  owner_module_id ← partial (module_id_for_handle resolver module_handle);
  function_name ← partial (identifier_at resolver (fh_name function_handle));
  owner_module ← unwrap (dc_dependency_map context !! owner_module_id);
  match dc_func_id_to_handle_map context !! (owner_module_id, function_name) with
  | Some def_idx =>
      def_handle ← partial (function_handle_at (VModule owner_module) def_idx);
      if negb (compatible_fun_type_parameters (fh_type_parameters function_handle) (fh_type_parameters def_handle))
      then Err (verification_error TYPE_MISMATCH KFunctionHandle (wrap 16 idx)) else
      handle_params ← partial (signature_at resolver (fh_parameters function_handle));
      def_params ← partial (signature_at (VModule owner_module) (fh_parameters def_handle));
      _ ← at_handle (compare_cross_module_signatures resolver owner_module handle_params def_params);
      handle_return ← partial (signature_at resolver (fh_return function_handle));
      def_return ← partial (signature_at (VModule owner_module) (fh_return def_handle));
      at_handle (compare_cross_module_signatures resolver owner_module handle_return def_return)
  | None => Err (verification_error LOOKUP_FAILED KFunctionHandle (wrap 16 idx))
  end.
Definition verify_imported_functions (context : Context_) : result PartialVMError unit :=
  for_each (verify_imported_function context) (enumerate (view_function_handles (dc_resolver context))).

(** [verify_script_visibility_usage] *)
Definition verify_call_visibility (context : Context_) (current_visibility : Visibility)
    (fdef_idx : FunctionDefinitionIndex) (p : N * Bytecode) : result PartialVMError unit :=
  let '(idx, instr) := p in
  fhandle_idx ← match instr with
                | Call fhandle_idx => Ok (Some fhandle_idx)
                | CallGeneric finst_idx =>
                    finst ← partial (function_instantiation_at (dc_resolver context) finst_idx);
                    Ok (Some (fi_handle finst))
                | _ => Ok None
                end;
  match fhandle_idx with
  | None => Ok tt
  | Some fhandle_idx =>
      fhandle_vis ← unwrap (dc_function_visibilities context !! fhandle_idx);
      match current_visibility, fhandle_vis with
      | Script, Script => Ok tt
      | _, Script => Err (at_code_offset (PartialVMError_new CALLED_SCRIPT_VISIBLE_FROM_NON_SCRIPT_VISIBLE)
                            fdef_idx (wrap 16 idx))
      | _, _ => Ok tt
      end
  end.
Definition verify_script_visibility_usage (context : Context_) (current_visibility : Visibility)
    (fdef_idx : FunctionDefinitionIndex) (code : list Bytecode) : result PartialVMError unit :=
  for_each (verify_call_visibility context current_visibility fdef_idx) (enumerate code).

(** [verify_all_script_visibility_usage] *)
Definition verify_all_script_visibility_usage (context : Context_) : result PartialVMError unit :=
  match dc_resolver context with
  | VModule m =>
      for_each (λ p : N * FunctionDefinition,
        match fdef_code p.2 with
        | None => Ok tt
        | Some code => verify_script_visibility_usage context (fdef_visibility p.2) (wrap 16 p.1) (cu_code code)
        end) (enumerate (m_function_defs m))
  | VScript s => verify_script_visibility_usage context Script 0 (cu_code (s_code s))
  end.

(** [verify_module_impl] and [verify_script_impl] *)
Definition dependencies_verify (resolver : BinaryIndexedView) (dependencies : list CompiledModule)
  : result PartialVMError unit :=
  context ← Context_new resolver dependencies;
  _ ← verify_imported_modules context;
  _ ← verify_imported_structs context;
  _ ← verify_imported_functions context;
  verify_all_script_visibility_usage context.
Definition dependencies_verify_module (module : CompiledModule) (dependencies : list CompiledModule)
  : result VMError unit := in_module module (dependencies_verify (VModule module) dependencies).
Definition dependencies_verify_script (script : CompiledScript) (dependencies : list CompiledModule)
  : result VMError unit := in_script (dependencies_verify (VScript script) dependencies).
