(* ===== verification/Linking.v ===== *)
(** * Linking: what the dependency pass guarantees

    Types of different units are compared by their meaning: a struct type stands for the
    module and the name of the struct, whatever its index in the unit.  A unit that
    passes the dependency pass imports nothing that its dependencies do not define. *)

From S2P Require Import Prelude Checks CoreTypes VmStatus Abilities FileFormat Errors Deserializer RoundTrip Views BoundsChecker InBounds CheckedUnits Duplication SignatureChecker ModulePasses CyclicDependencies Dependencies.

Import SignatureToken Bytecode.

(** ** Types by name *)

(** A type without the indices of the unit that it is written in *)
Inductive NamedType : Type :=
| TBase (t : SignatureToken)
| TStruct (id : ModuleId * list N) (type_arguments : option (list NamedType))
| TVector (t : NamedType)
| TReference (mutable : bool) (t : NamedType).

Definition struct_id_at (v : BinaryIndexedView) (idx : StructHandleIndex) : option (ModuleId * list N) :=
  match (sh ← struct_handle_at v idx; map_err (λ _, UNKNOWN_STATUS) (struct_id v sh)) with
  | Ok id => Some id
  | _ => None
  end.

Fixpoint named (v : BinaryIndexedView) (t : SignatureToken) : option NamedType :=
  match t with
  | Vector t => TVector <$> named v t
  | Reference t => TReference false <$> named v t
  | MutableReference t => TReference true <$> named v t
  | Struct idx => (λ id, TStruct id None) <$> struct_id_at v idx
  | StructInstantiation idx ts =>
      id ← struct_id_at v idx;
      ts ← mapM (named v) ts;
      Some (TStruct id (Some ts))
  | t => Some (TBase t)
  end.

Lemma partial_iff {A} (r : result StatusCode A) a : partial r = Ok a ↔ r = Ok a.
Proof. apply map_err_Ok. Qed.

Lemma struct_id_at_Some v idx id :
  struct_id_at v idx = Some id ↔ ∃ sh, struct_handle_at v idx = Ok sh ∧ struct_id v sh = Ok id.
Proof.
  unfold struct_id_at. split.
  - destruct (_ ≫= _) eqn:H; [|done..]. intros [= <-]. by inv_ok; eauto.
  - intros (sh & -> & H). cbn. by rewrite H.
Qed.

(** Two types of which one is the name of a struct in both units *)
Definition same_name (v w : BinaryIndexedView) (t1 t2 : SignatureToken) : Prop :=
  ∃ t, named v t1 = Some t ∧ named w t2 = Some t.
Definition same_names (v w : BinaryIndexedView) (ts1 ts2 : list SignatureToken) : Prop := Forall2 (same_name v w) ts1 ts2.

Section Compare.
Context (v : BinaryIndexedView) (m : CompiledModule).
Notation w := (VModule m).

Lemma compare_structs_spec i j :
  compare_structs v m i j = Ok tt ↔ ∃ id, struct_id_at v i = Some id ∧ struct_id_at w j = Some id.
Proof.
  unfold compare_structs. setoid_rewrite struct_id_at_Some. split.
  - intros H. inv_ok. rewrite !partial_iff in *. case_bool_decide as Hid; [done|]. subst. eauto 10.
  - intros (id & (sh & -> & Hs) & sh' & Hw & Hs'). cbn. rewrite Hs. cbn. rewrite Hw. cbn. rewrite Hs'. cbn.
    by rewrite bool_decide_eq_false_2 by (intros H; by apply H).
Qed.

(** The loop of [compare_types] over the type arguments *)
Lemma compare_instantiations inst1 inst2 :
  ((fix go (inst1 inst2 : list SignatureToken) : result PartialVMError unit :=
      match inst1, inst2 with
      | ty1 :: inst1, ty2 :: inst2 => _ ← compare_types v m ty1 ty2; go inst1 inst2
      | _, _ => Ok tt
      end) inst1 inst2) = for_each (λ p, compare_types v m p.1 p.2) (zip inst1 inst2).
Proof.
  revert inst2. induction inst1 as [|t1 inst1 IH]; intros [|t2 inst2]; [done..|].
  rewrite IH. cbn [zip]. by rewrite for_each_cons.
Qed.
Lemma compare_signatures_unfold ts1 ts2 :
  compare_cross_module_signatures v m ts1 ts2 = Ok tt ↔
  Forall2 (λ t1 t2, compare_types v m t1 t2 = Ok tt) ts1 ts2.
Proof.
  unfold compare_cross_module_signatures. rewrite Forall2_same_length_lookup. destruct (len ts1 =? len ts2) eqn:Hl; cbn [negb].
  - apply N.eqb_eq in Hl. unfold len in Hl. assert (length ts1 = length ts2) as Hl' by lia.
    rewrite for_each_Ok, Forall_lookup. split.
    + intros H. split; [done|]. intros i t1 t2 H1 H2. apply (H i (t1, t2)). by apply lookup_zip_Some.
    + intros [_ H] i [t1 t2] [H1 H2]%lookup_zip_Some. by apply (H i).
  - split; [done|]. intros [H _]. apply N.eqb_neq in Hl. unfold len in Hl. lia.
Qed.

Lemma same_names_mapM ts1 ts2 :
  same_names v w ts1 ts2 ↔ ∃ us, mapM (named v) ts1 = Some us ∧ mapM (named w) ts2 = Some us.
Proof.
  unfold same_names. setoid_rewrite mapM_Some. split.
  - induction 1 as [|t1 t2 ts1 ts2 (u & H1 & H2) _ (us & IH1 & IH2)]; [by exists []|].
    exists (u :: us). split; by constructor.
  - intros (us & H1 & H2). revert ts2 H2. induction H1 as [|t1 u ts1 us Hu _ IH]; intros ts2 H2; inversion H2; subst.
    + constructor.
    + constructor; [by exists u|by apply IH].
Qed.

(** A step of the comparison under a constructor of types *)
Lemma same_name_under t1 t2 s1 s2 (f : NamedType → NamedType) :
  Inj (=) (=) f → named v s1 = f <$> named v t1 → named w s2 = f <$> named w t2 →
  (same_name v w s1 s2 ↔ same_name v w t1 t2).
Proof.
  intros Hf H1 H2. unfold same_name. rewrite H1, H2. setoid_rewrite fmap_Some. split.
  - intros (u & (x & Hx & ->) & y & Hy & Heq%Hf). subst. eauto.
  - intros (x & Hx & Hy). eauto 10.
Qed.

Lemma compare_types_spec t1 t2 : compare_types v m t1 t2 = Ok tt ↔ same_name v w t1 t2.
Proof.
  revert t2. induction t1 as [| | | | | |t1 IH|i|i ts1 IH|t1 IH|t1 IH|i] using token_ind;
    intros t2; destruct t2 as [| | | | | |t2|j|j ts2|t2|t2|j]; cbn [compare_types];
    try (split; [done|]; unfold same_name; cbn [named]; intros (u & H1 & H2);
         simplify_option_eq; congruence);
    try (split; [intros _; eexists; split; reflexivity|done]).
  - rewrite IH. symmetry. by apply (same_name_under _ _ _ _ TVector); [intros ?? [=]|..].
  - rewrite compare_structs_spec. unfold same_name. cbn [named]. setoid_rewrite fmap_Some. naive_solver.
  - rewrite compare_instantiations. split.
    + intros H. apply bind_Ok in H as ([] & (id & H1 & H2)%compare_structs_spec & H).
      assert (compare_cross_module_signatures v m ts1 ts2 = Ok tt) as Hc.
      { unfold compare_cross_module_signatures. by destruct (len ts1 =? len ts2). }
      apply compare_signatures_unfold in Hc.
      assert (same_names v w ts1 ts2) as (us & Hu1 & Hu2)%same_names_mapM.
      { apply Forall2_same_length_lookup in Hc as [Hl Hc]. apply Forall2_same_length_lookup. split; [done|].
        intros k x y Hx Hy. apply (Forall_lookup_1 _ _ _ _ IH Hx). by eapply Hc. }
      exists (TStruct id (Some us)). cbn [named]. rewrite H1, H2. cbn. by rewrite Hu1, Hu2.
    + intros (u & H1 & H2). cbn [named] in H1, H2. simplify_option_eq.
      assert (same_names v w ts1 ts2) as Hs by (apply same_names_mapM; eauto).
      assert (compare_cross_module_signatures v m ts1 ts2 = Ok tt) as Hc.
      { apply compare_signatures_unfold, Forall2_same_length_lookup.
        apply Forall2_same_length_lookup in Hs as [Hl Hs]. split; [done|].
        intros k x y Hx Hy. apply (Forall_lookup_1 _ _ _ _ IH Hx). by eapply Hs. }
      rewrite (proj2 (compare_structs_spec i j)) by eauto. unfold compare_cross_module_signatures in Hc.
      cbn. by destruct (len ts1 =? len ts2).
  - rewrite IH. symmetry. by apply (same_name_under _ _ _ _ (TReference false)); [intros ?? [=]|..].
  - rewrite IH. symmetry. by apply (same_name_under _ _ _ _ (TReference true)); [intros ?? [=]|..].
  - destruct (i =? j) eqn:E; cbn [negb].
    + apply N.eqb_eq in E as ->. split; [|done]. intros _. by eexists.
    + apply N.eqb_neq in E. split; [done|]. intros (u & [= <-] & [=]). done.
Qed.
End Compare.

Lemma compare_signatures_iff v m ts1 ts2 :
  compare_cross_module_signatures v m ts1 ts2 = Ok tt ↔ same_names v (VModule m) ts1 ts2.
Proof.
  rewrite compare_signatures_unfold. unfold same_names.
  split; intros H; (eapply Forall2_impl; [exact H|]); intros t1 t2; by rewrite compare_types_spec.
Qed.

(** Comparing a type of the unit with a type of a dependency succeeds exactly when
    both can be resolved and are the same type once struct handles are replaced by module
    and struct names. *)
Theorem compare_types_iff (v : BinaryIndexedView) (m : CompiledModule) (handle_type def_type : SignatureToken) :
  compare_types v m handle_type def_type = Ok tt ↔
  ∃ t, named v handle_type = Some t ∧ named (VModule m) def_type = Some t.
Proof. apply compare_types_spec. Qed.

(** ** Linked units *)

Section Linked.
Context (v : BinaryIndexedView) (deps : list CompiledModule).

Definition foreign (idx : ModuleHandleIndex) : Prop := Some idx ≠ view_self_handle_idx v.
(** [dm] is one of the dependencies, not the unit itself, and has the id [id]. *)
Definition dependency (id : ModuleId) (dm : CompiledModule) : Prop :=
  dm ∈ deps ∧ module_self_id dm = Ok id ∧ self_id v ≠ Ok (Some id).

(** A definition of a struct or a function of [dm] by its name *)
Definition struct_of (dm : CompiledModule) (name : list N) (dsh : StructHandle) : Prop :=
  ∃ d, d ∈ m_struct_defs dm ∧ struct_handle_at (VModule dm) (sd_struct_handle d) = Ok dsh ∧
    identifier_at (VModule dm) (sh_name dsh) = Ok name.
Definition function_of (dm : CompiledModule) (name : list N) (vis : Visibility) (dfh : FunctionHandle) : Prop :=
  ∃ d, d ∈ m_function_defs dm ∧ fdef_visibility d = vis ∧ function_handle_at (VModule dm) (fdef_function d) = Ok dfh ∧
    identifier_at (VModule dm) (fh_name dfh) = Ok name.

(** The unit uses the struct with no more than its abilities and constraints. *)
Definition linked_struct (sh : StructHandle) : Prop :=
  ∃ id dm dsh, struct_id v sh = Ok id ∧ dependency id.1 dm ∧ struct_of dm id.2 dsh ∧
    is_subset (sh_abilities sh) (sh_abilities dsh) = true ∧
    Forall2 (λ local defined, (stp_is_phantom local = true → stp_is_phantom defined = true) ∧
      is_subset (stp_constraints defined) (stp_constraints local) = true)
      (sh_type_parameters sh) (sh_type_parameters dsh).

(** The function is visible to the unit and has the types that the unit gives it. *)
Definition visible (dm : CompiledModule) (vis : Visibility) : Prop :=
  vis = Public ∨ vis = Script ∨
  vis = Friend ∧ ∃ self friends, self_id v = Ok (Some self) ∧ immediate_friends dm = Ok friends ∧ self ∈ friends.
Definition linked_function (h : FunctionHandle) : Prop :=
  ∃ id dm vis dfh ps rs dps drs, function_id v h = Ok id ∧ dependency id.1 dm ∧
    function_of dm id.2 vis dfh ∧ visible dm vis ∧
    Forall2 (λ local defined, is_subset defined local = true) (fh_type_parameters h) (fh_type_parameters dfh) ∧
    signature_at v (fh_parameters h) = Ok ps ∧ signature_at (VModule dm) (fh_parameters dfh) = Ok dps ∧
    same_names v (VModule dm) ps dps ∧
    signature_at v (fh_return h) = Ok rs ∧ signature_at (VModule dm) (fh_return dfh) = Ok drs ∧
    same_names v (VModule dm) rs drs.

Definition own_function_defs : list FunctionDefinition :=
  match v with VModule m => m_function_defs m | VScript _ => [] end.
(** [vis] is the visibility of the function that the handle at [idx] refers to. *)
Definition visibility_of (idx : FunctionHandleIndex) (vis : Visibility) : Prop :=
  (∃ d, d ∈ own_function_defs ∧ fdef_function d = idx ∧ fdef_visibility d = vis) ∨
  (∃ i h id dm dfh, at_ (view_function_handles v) i = Some h ∧ wrap 16 i = idx ∧ foreign (fh_module h) ∧
     function_id v h = Ok id ∧ dependency id.1 dm ∧ function_of dm id.2 vis dfh).

(** The handle that an instruction calls *)
Definition callee (i : Bytecode) : result StatusCode (option FunctionHandleIndex) :=
  match i with
  | Call idx => Ok (Some idx)
  | CallGeneric idx => finst ← function_instantiation_at v idx; Ok (Some (fi_handle finst))
  | _ => Ok None
  end.
(** A body with the visibility [vis] calls script functions only if it is one itself. *)
Definition calls_allowed (vis : Visibility) (code : list Bytecode) : Prop :=
  ∀ i idx, i ∈ code → callee i = Ok (Some idx) →
    ∃ vis', visibility_of idx vis' ∧ (vis' = Script → vis = Script).

Record linked : Prop := {
  linked_modules : ∀ i h, at_ (view_module_handles v) i = Some h → foreign (wrap 16 i) →
    ∃ id dm, module_id_for_handle v h = Ok id ∧ dependency id dm;
  linked_structs : Forall (λ sh, foreign (sh_module sh) → linked_struct sh) (view_struct_handles v);
  linked_functions : Forall (λ h, foreign (fh_module h) → linked_function h) (view_function_handles v);
  linked_calls : match v with
    | VModule m => Forall (λ d, ∀ c, fdef_code d = Some c → calls_allowed (fdef_visibility d) (cu_code c)) (m_function_defs m)
    | VScript s => calls_allowed Script (cu_code (s_code s))
    end }.
End Linked.

(** ** The pass finds the links *)

Lemma try_fold_inv {E A B} (I : B → Prop) (f : B → A → result E B) l b b' :
  (∀ x c c', x ∈ l → I c → f c x = Ok c' → I c') → I b → try_fold f l b = Ok b' → I b'.
Proof.
  revert b. induction l as [|x l IH]; cbn [try_fold]; intros b Hf Hb H; [by injection H as <-|].
  apply bind_Ok in H as (c & Hc & H). eapply (IH c); [|by eapply Hf; [left|..]|done].
  intros y c1 c2 Hy. apply Hf. by right.
Qed.
Ltac ok_lookups := cbv beta zeta in *; inv_ok; rewrite ?partial_iff in *.

Section Sound.
Context (v : BinaryIndexedView) (deps : list CompiledModule).

Lemma dependency_map_sound self map id dm :
  self_id v = Ok self → dependency_map_of self deps = Ok map → map !! id = Some dm → dependency v deps id dm.
Proof.
  intros Hself Hmap. revert id dm.
  eapply (try_fold_inv (λ map : gmap _ _, ∀ id dm, map !! id = Some dm → dependency v deps id dm)); [| |exact Hmap];
    [|intros id dm; by rewrite lookup_empty].
  intros d map1 map2 Hd IH H. ok_lookups. case_bool_decide as Hne; [|done].
  intros id dm [[-> ->]|[_ ?]]%lookup_insert_Some; [|by apply IH]. unfold dependency. rewrite Hself. naive_solver.
Qed.

Section Names.
Context (map : gmap ModuleId CompiledModule).

(** The names of structs and functions come from the dependencies of the map. *)
Definition struct_names_ok (names : gmap (ModuleId * list N) StructHandleIndex) : Prop :=
  ∀ k i, names !! k = Some i → ∃ dm d dsh, map !! k.1 = Some dm ∧ d ∈ m_struct_defs dm ∧ sd_struct_handle d = i ∧
    struct_handle_at (VModule dm) i = Ok dsh ∧ identifier_at (VModule dm) (sh_name dsh) = Ok k.2.
Definition defines_function (k : ModuleId * list N) (dm : CompiledModule) (d : FunctionDefinition) : Prop :=
  ∃ dfh, map !! k.1 = Some dm ∧ d ∈ m_function_defs dm ∧
    function_handle_at (VModule dm) (fdef_function d) = Ok dfh ∧ identifier_at (VModule dm) (fh_name dfh) = Ok k.2.
Definition function_names_ok (names : gmap (ModuleId * list N) Visibility * gmap (ModuleId * list N) FunctionHandleIndex) : Prop :=
  (∀ k vis, names.1 !! k = Some vis → ∃ dm d, defines_function k dm d ∧ fdef_visibility d = vis) ∧
  (∀ k i, names.2 !! k = Some i → ∃ dm d, defines_function k dm d ∧ fdef_function d = i ∧ visible v dm (fdef_visibility d)).

Lemma may_be_called_spec self dm friends vis :
  self_id v = Ok self → immediate_friends dm = Ok friends → may_be_called self friends vis = true → visible v dm vis.
Proof.
  unfold may_be_called, visible. intros Hs Hf. destruct vis; [done|auto..|].
  destruct self as [self|]; [|done]. rewrite bool_decide_eq_true. eauto 10.
Qed.
Lemma add_struct_names_ok id dm names names' :
  map !! id = Some dm → struct_names_ok names → add_struct_names id dm names = Ok names' → struct_names_ok names'.
Proof.
  intros Hdm Hn. apply try_fold_inv; [|done]. intros d c c' Hd IH H. ok_lookups.
  intros k i [[<- <-]|[_ ?]]%lookup_insert_Some; [|by apply IH]. by exists dm, d, a.
Qed.
Lemma add_function_names_ok self id dm names names' :
  self_id v = Ok self → map !! id = Some dm → function_names_ok names →
  add_function_names self id dm names = Ok names' → function_names_ok names'.
Proof.
  intros Hs Hdm Hn H. unfold add_function_names in H. apply bind_Ok in H as (friends & Hf%partial_iff & H).
  revert H. apply try_fold_inv; [|done]. intros d [c1 c2] c' Hd [IH1 IH2] H. ok_lookups.
  assert (∀ k, (id, a0) = k → defines_function k dm d) as Hdef by (intros ? <-; by exists a).
  split; cbn [fst snd].
  - intros k vis [[Hk <-]|[_ ?]]%lookup_insert_Some; [|by apply IH1]. exists dm, d. auto.
  - intros k i. destruct (may_be_called _ _ _) eqn:Hm; [|apply IH2].
    intros [[Hk <-]|[_ ?]]%lookup_insert_Some; [|by apply IH2]. exists dm, d. split_and!; [auto|done|].
    by eapply may_be_called_spec.
Qed.
End Names.

Lemma function_visibilities_sound map names vis idx x :
  (∀ id dm, map !! id = Some dm → dependency v deps id dm) → function_names_ok map names →
  function_visibilities_of v names.1 = Ok vis → vis !! idx = Some x → visibility_of v deps idx x.
Proof.
  intros Hmap [Hnames _] H. unfold function_visibilities_of in H. revert idx x. cbv zeta in H.
  eapply (try_fold_inv (λ vis : gmap _ _, ∀ idx x, vis !! idx = Some x → visibility_of v deps idx x)); [| |exact H].
  - intros [i h] c c' Hin%elem_of_enumerate IH Hstep. case_bool_decide as Hown; [by injection Hstep as <-|].
    ok_lookups. destruct (names.1 !! a) as [y|] eqn:Hy; injection Hok0 as <-; [|done].
    intros idx x [[<- <-]|[_ ?]]%lookup_insert_Some; [|by apply IH]. right.
    destruct (Hnames _ _ Hy) as (dm & d & (dfh & Hdm & Hd & Hh & Hn) & Hv).
    exists i, h, a, dm, dfh. split_and!; [done|done|done|done|by apply Hmap|]. by exists d.
  - fold (own_function_defs v).
    assert (∀ l (c : gmap FunctionHandleIndex Visibility), (∀ idx x, c !! idx = Some x → visibility_of v deps idx x) → (∀ d, d ∈ l → d ∈ own_function_defs v) →
      ∀ idx x, foldl (λ map d, <[ fdef_function d := fdef_visibility d ]> map) c l !! idx = Some x → visibility_of v deps idx x) as Hfold.
    { induction l as [|d l IH]; intros c Hc Hl idx x; [apply Hc|]. cbn [foldl]. apply IH; [|intros; apply Hl; by right].
      intros idx' x' [[<- <-]|[_ ?]]%lookup_insert_Some; [|by apply Hc]. left. exists d. split_and!; [|done..]. apply Hl. by left. }
    apply Hfold; [|done]. intros idx x. by rewrite lookup_empty.
Qed.

(** What the fields of the context hold *)
Record context_ok (c : Context_) : Prop := {
  co_resolver : dc_resolver c = v;
  co_dependencies : ∀ id dm, dc_dependency_map c !! id = Some dm → dependency v deps id dm;
  co_structs : struct_names_ok (dc_dependency_map c) (dc_struct_id_to_handle_map c);
  co_functions : ∃ vis, function_names_ok (dc_dependency_map c) (vis, dc_func_id_to_handle_map c);
  co_visibilities : ∀ idx x, dc_function_visibilities c !! idx = Some x → visibility_of v deps idx x }.

Lemma Context_new_ok c : Context_new v deps = Ok c → context_ok c.
Proof.
  intros H. unfold Context_new in H.
  apply bind_Ok in H as (self & Hself%partial_iff & H). apply bind_Ok in H as (map & Hmap & H).
  apply bind_Ok in H as (structs & Hs & H). apply bind_Ok in H as (funs & Hf & H).
  apply bind_Ok in H as (vis & Hv & [= <-]).
  pose proof (λ id dm, dependency_map_sound _ _ id dm Hself Hmap) as Hdep.
  assert (struct_names_ok map structs) as Hs'.
  { revert Hs. apply try_fold_inv; [|intros k i; by rewrite lookup_empty].
    intros [id dm] x x' Hin%elem_of_map_to_list Hx. by apply add_struct_names_ok. }
  assert (function_names_ok map funs) as Hf'.
  { revert Hf. apply try_fold_inv; [|split; intros k i; cbn; by rewrite lookup_empty].
    intros [id dm] x x' Hin%elem_of_map_to_list Hx. by eapply add_function_names_ok. }
  split; cbn; [done|done|done| |].
  - exists funs.1. by destruct funs.
  - intros idx x. by eapply function_visibilities_sound.
Qed.

Lemma fun_parameters_spec l1 l2 : compatible_fun_type_parameters l1 l2 = true →
  Forall2 (λ local defined, is_subset defined local = true) l1 l2.
Proof.
  unfold compatible_fun_type_parameters. rewrite andb_true_iff, N.eqb_eq. unfold len. intros [Hl H].
  apply Forall2_same_length_lookup. split; [lia|]. intros i x y Hx Hy. rewrite forallb_forall in H.
  apply (H (x, y)), list_elem_of_In, (list_elem_of_lookup_2 _ i), lookup_zip_Some. done.
Qed.
Lemma struct_parameters_spec l1 l2 : compatible_struct_type_parameters l1 l2 = true →
  Forall2 (λ local defined, (stp_is_phantom local = true → stp_is_phantom defined = true) ∧
    is_subset (stp_constraints defined) (stp_constraints local) = true) l1 l2.
Proof.
  unfold compatible_struct_type_parameters. rewrite andb_true_iff, N.eqb_eq. unfold len. intros [Hl H].
  apply Forall2_same_length_lookup. split; [lia|]. intros i x y Hx Hy. rewrite forallb_forall in H.
  assert ((x, y) ∈ zip l1 l2) as Hin%list_elem_of_In by (by apply (list_elem_of_lookup_2 _ i), lookup_zip_Some).
  apply H, andb_true_iff in Hin as [Hp Hc]. split; [|done]. cbn in Hp. unfold compatible_type_parameter_phantom_decl in Hp.
  by destruct (stp_is_phantom x).
Qed.

Lemma imported_struct_sound c i sh :
  context_ok c → verify_imported_struct c (i, sh) = Ok tt → foreign v (sh_module sh) → linked_struct v deps sh.
Proof.
  intros Hc H Hf. unfold verify_imported_struct in H. rewrite (co_resolver _ Hc) in H.
  rewrite bool_decide_eq_false_2 in H by done.
  apply bind_Ok in H as (mh & Hmh & H). apply bind_Ok in H as (id & Hid & H). apply bind_Ok in H as (dm & Hdm & H).
  apply bind_Ok in H as (name & Hname & H). rewrite partial_iff in *.
  destruct (dc_dependency_map c !! id) as [dm'|] eqn:Hd; [injection Hdm as ->|done].
  destruct (dc_struct_id_to_handle_map c !! _) as [j|] eqn:Hj; [|done].
  apply bind_Ok in H as (dsh & Hdsh%partial_iff & H). inv_if. apply orb_false_iff in E as [Ha%negb_false_iff Hp%negb_false_iff].
  destruct (co_structs _ Hc _ _ Hj) as (dm' & d & dsh' & Hd' & Hin & <- & Hh & Hn).
  cbn in Hd', Hn. assert (dm' = dm) as -> by congruence. assert (dsh' = dsh) as -> by congruence.
  exists (id, name), dm, dsh. split; [|split; [|split; [|split]]].
  - unfold struct_id. by rewrite Hmh; cbn; rewrite Hid; cbn; rewrite Hname.
  - by apply (co_dependencies _ Hc).
  - by exists d.
  - done.
  - by apply struct_parameters_spec.
Qed.

Lemma imported_function_sound c i h :
  context_ok c → verify_imported_function c (i, h) = Ok tt → foreign v (fh_module h) → linked_function v deps h.
Proof.
  intros Hc H Hf. unfold verify_imported_function in H. cbv zeta in H. rewrite (co_resolver _ Hc) in H.
  rewrite bool_decide_eq_false_2 in H by done.
  apply bind_Ok in H as (mh & Hmh & H). apply bind_Ok in H as (id & Hid & H). apply bind_Ok in H as (name & Hname & H).
  apply bind_Ok in H as (dm & Hdm & H). rewrite partial_iff in *.
  destruct (dc_dependency_map c !! id) as [dm'|] eqn:Hd; [injection Hdm as ->|done].
  destruct (dc_func_id_to_handle_map c !! _) as [j|] eqn:Hj; [|done].
  apply bind_Ok in H as (dfh & Hdfh%partial_iff & H). inv_if. apply negb_false_iff in E.
  apply bind_Ok in H as (ps & Hps%partial_iff & H). apply bind_Ok in H as (dps & Hdps%partial_iff & H).
  apply bind_Ok in H as ([] & Hp%map_err_Ok%compare_signatures_iff & H).
  apply bind_Ok in H as (rs & Hrs%partial_iff & H). apply bind_Ok in H as (drs & Hdrs%partial_iff & H).
  apply map_err_Ok, compare_signatures_iff in H.
  destruct (co_functions _ Hc) as (vis & _ & Hfun).
  destruct (Hfun _ _ Hj) as (dm' & d & (dfh' & Hd' & Hin & Hh & Hn) & <- & Hv).
  cbn in Hd', Hn. assert (dm' = dm) as -> by congruence. assert (dfh' = dfh) as -> by congruence.
  exists (id, name), dm, (fdef_visibility d), dfh, ps, rs, dps, drs.
  split; [|split; [|split; [|split; [|split]]]]; [| | |done| |by split_and!].
  - unfold function_id. by rewrite Hmh; cbn; rewrite Hid; cbn; rewrite Hname.
  - by apply (co_dependencies _ Hc).
  - by exists d.
  - by apply fun_parameters_spec.
Qed.

Lemma calls_sound c vis k code :
  context_ok c → verify_script_visibility_usage c vis k code = Ok tt → calls_allowed v deps vis code.
Proof.
  unfold verify_script_visibility_usage. rewrite for_each_Ok, Forall_forall. intros Hc H i idx Hin Hi.
  apply list_elem_of_lookup in Hin as [n Hn].
  specialize (H (N.of_nat n, i) (proj2 (elem_of_enumerate _ _ _) ltac:(unfold at_; by rewrite Nat2N.id))).
  unfold verify_call_visibility in H. rewrite (co_resolver _ Hc) in H.
  apply bind_Ok in H as (o & Ho & H).
  assert (o = Some idx) as ->.
  { destruct i; cbn in Hi; inv_ok; try done. rewrite partial_iff in *. congruence. }
  apply bind_Ok in H as (vis' & Hv & H). exists vis'.
  destruct (dc_function_visibilities c !! idx) as [vis2|] eqn:Hvis; [injection Hv as ->|done].
  split; [by eapply co_visibilities|]. intros ->. by destruct vis.
Qed.

End Sound.

Lemma dependencies_sound v deps : dependencies_verify v deps = Ok tt → linked v deps.
Proof.
  intros H. unfold dependencies_verify in H. apply bind_Ok in H as (c & Hc%Context_new_ok & H).
  apply bind_Ok in H as ([] & Hm & H). apply bind_Ok in H as ([] & Hs & H). apply bind_Ok in H as ([] & Hf & H).
  pose proof (co_resolver _ _ _ Hc) as Hv. unfold verify_imported_modules, verify_imported_structs, verify_imported_functions in *.
  cbv zeta in Hm. rewrite Hv in *. rewrite for_each_Ok, Forall_forall in Hm.
  rewrite for_each_Ok, Forall_forall in Hs. rewrite for_each_Ok, Forall_forall in Hf. split.
  - intros i h Hi Hn. apply elem_of_enumerate, Hm in Hi. cbn [fst snd] in Hi.
    apply bind_Ok in Hi as (id & Hid%partial_iff & Hi). inv_if.
    rewrite bool_decide_eq_true_2 in E by done. apply negb_false_iff, bool_decide_eq_true in E as [dm Hdm].
    exists id, dm. split; [done|]. by apply (co_dependencies _ _ _ Hc).
  - apply Forall_forall. intros sh [i Hi]%list_elem_of_lookup. eapply imported_struct_sound; [done|].
    apply (Hs (N.of_nat i, sh)), elem_of_enumerate. unfold at_. by rewrite Nat2N.id.
  - apply Forall_forall. intros h [i Hi]%list_elem_of_lookup. eapply imported_function_sound; [done|].
    apply (Hf (N.of_nat i, h)), elem_of_enumerate. unfold at_. by rewrite Nat2N.id.
  - unfold verify_all_script_visibility_usage in H. rewrite Hv in H. destruct v as [m|s].
    + rewrite for_each_Ok, Forall_forall in H. apply Forall_forall. intros d [i Hi]%list_elem_of_lookup code Hcode.
      specialize (H (N.of_nat i, d) (proj2 (elem_of_enumerate _ _ _) ltac:(unfold at_; by rewrite Nat2N.id))).
      cbn [snd] in H. rewrite Hcode in H. by eapply calls_sound.
    + by eapply calls_sound.
Qed.

(** C23. A unit that passes the dependency check imports only what the given modules
    define: every imported struct and function has a definition of its name in its module,
    with at least its abilities, at most its constraints and the same types by name, is
    visible to the unit, and functions with script visibility are called only from scripts
    and such functions. *)
Theorem dependencies_verify_links (v : BinaryIndexedView) (deps : list CompiledModule) :
  dependencies_verify v deps = Ok tt → linked v deps.
Proof. apply dependencies_sound. Qed.

(** A module that uses the struct and the function of [sample_module] *)
Definition client_module : CompiledModule :=
  {| m_version := 4; m_self_module_handle_idx := 0;
     m_module_handles := [ {| mh_address := 0; mh_name := 0 |}; {| mh_address := 0; mh_name := 1 |} ];
     m_struct_handles := [ {| sh_module := 1; sh_name := 3; sh_abilities := EMPTY;
                              sh_type_parameters := [ {| stp_constraints := EMPTY; stp_is_phantom := false |} ] |} ];
     m_function_handles := [ {| fh_module := 0; fh_name := 4; fh_parameters := 0; fh_return := 0; fh_type_parameters := [] |};
                             {| fh_module := 1; fh_name := 2; fh_parameters := 1; fh_return := 0; fh_type_parameters := [] |} ];
     m_field_handles := []; m_friend_decls := []; m_struct_def_instantiations := [];
     m_function_instantiations := []; m_field_instantiations := [];
     m_signatures := [ []; [SignatureToken.U64] ];
     m_identifiers := [ [66]; [77]; [102; 111; 111]; [83]; [103] ];
     m_address_identifiers := [ ZERO ];
     m_constant_pool := []; m_struct_defs := [];
     m_function_defs := [ {| fdef_function := 0; fdef_visibility := Script; fdef_acquires_global_resources := [];
       fdef_code := Some {| cu_locals := 0; cu_code := [Bytecode.LdU64 1; Bytecode.Call 1; Bytecode.Ret] |} |} ] |}.
Lemma dependencies_verify_links_witness : linked (VModule client_module) [sample_module].
Proof. apply dependencies_verify_links. by vm_compute. Defined.
