(* ===== verification/BorrowGraph.v ===== *)
(** * BorrowGraph: which references borrow from which

    Models [language/borrow-graph/src]: paths, the edges of a reference to those that
    borrow from it, and the graph with its operations.  Locations and labels are those of
    the client; the iteration order of the B-trees comes from the order of the labels.
    [debug] tells whether the build has debug assertions. *)

From stdpp Require Import sorting.
From S2P Require Import Prelude.

(** The order that [Ord] gives to labels *)
Class LabelOrder (Lbl : Type) : Type := { compare_label : Lbl → Lbl → comparison }.

(** [references::RefID] *)
Notation RefID := N.

(** The entries of a [BTreeMap] with such keys, in its order *)
Definition entry_le {A} (p q : N * A) : Prop := p.1 <= q.1.
#[export] Instance entry_le_dec {A} : RelDecision (@entry_le A).
Proof. intros p q. unfold entry_le. apply _. Defined.
Definition ascending_entries {A} (m : gmap RefID A) : list (RefID * A) :=
  merge_sort entry_le (map_to_list m).
Definition ascending_ids (s : gset RefID) : list RefID := merge_sort N.le (elements s).

Section BorrowGraph.
Context {E Loc Lbl : Type} `{Countable Lbl} `{!LabelOrder Lbl}.
Context (debug : bool).

(** ** [paths.rs] *)

Notation Path := (list Lbl).

Definition path_leq (lhs rhs : Path) : bool :=
  (len lhs <=? len rhs) && forallb (λ p, bool_decide (p.1 = p.2)) (zip lhs rhs).
Definition path_factor (lhs rhs : Path) : result E (Path * Path) :=
  if path_leq lhs rhs then Ok (take (length lhs) rhs, drop (length lhs) rhs) else Panic.
Definition path_append (lhs rhs : Path) : Path := lhs ++ rhs.

(** ** [references.rs] *)

(** [struct BorrowEdge]; its comparisons skip the location. *)
Record BorrowEdge : Type := {
  be_strong : bool;
  be_path : Path;
  be_loc : Loc }.
Definition edge_key (e : BorrowEdge) : bool * Path := (be_strong e, be_path e).

(** [BTreeSet<BorrowEdge>]: the location of each edge *)
Notation EdgeSet := (gmap (bool * Path) Loc).
Notation BorrowEdges := (gmap RefID EdgeSet).
Record Ref : Type := {
  borrowed_by_ : BorrowEdges;
  borrows_from : gset RefID;
  ref_mutable : bool }.
Definition Ref_new (mutable : bool) : Ref :=
  {| borrowed_by_ := ∅; borrows_from := ∅; ref_mutable := mutable |}.

(** The order of [BorrowEdgeNoLoc] *)
Fixpoint compare_path (p q : Path) : comparison :=
  match p, q with
  | [], [] => Datatypes.Eq
  | [], _ => Datatypes.Lt
  | _, [] => Datatypes.Gt
  | x :: p, y :: q => match compare_label x y with Datatypes.Eq => compare_path p q | c => c end
  end.
Definition compare_edge (e f : bool * Path) : comparison :=
  match e.1, f.1 with
  | false, true => Datatypes.Lt
  | true, false => Datatypes.Gt
  | _, _ => compare_path e.2 f.2
  end.
Definition edge_le (e f : BorrowEdge) : Prop := compare_edge (edge_key e) (edge_key f) ≠ Datatypes.Gt.
#[global] Instance edge_le_dec : RelDecision edge_le.
Proof. intros e f. unfold edge_le, Decision. destruct (compare_edge _ _); [by left|by left|right]. intros H'. by apply H'. Defined.

Definition edges_of (s : EdgeSet) : list BorrowEdge :=
  merge_sort edge_le
    ((λ p : (bool * Path) * Loc, {| be_strong := p.1.1; be_path := p.1.2; be_loc := p.2 |}) <$> map_to_list s).

(** [BTreeSet::insert] keeps the edge that is there. *)
Definition insert_edge (e : BorrowEdge) (s : EdgeSet) : EdgeSet :=
  match s !! edge_key e with Some _ => s | None => <[ edge_key e := be_loc e ]> s end.

(** [BorrowEdge::leq] *)
Definition edge_leq (self other : BorrowEdge) : bool :=
  bool_decide (edge_key self = edge_key other) ||
  (negb (be_strong self) && path_leq (be_path self) (be_path other)).

(** [remap_refs] of edges and references, and [remap_set]: one renaming after the other *)
Definition rename_key {A} (m : gmap RefID A) (p : RefID * RefID) : gmap RefID A :=
  match m !! p.1 with Some edges => <[ p.2 := edges ]> (delete p.1 m) | None => m end.
Definition rename_element (s : gset RefID) (p : RefID * RefID) : gset RefID :=
  if bool_decide (p.1 ∈ s) then {[ p.2 ]} ∪ (s ∖ {[ p.1 ]}) else s.
Definition ref_remap_refs (id_map : list (RefID * RefID)) (r : Ref) : Ref :=
  {| borrowed_by_ := foldl rename_key (borrowed_by_ r) id_map;
     borrows_from := foldl rename_element (borrows_from r) id_map;
     ref_mutable := ref_mutable r |}.

(** ** [graph.rs] *)

Notation BorrowGraph := (gmap RefID Ref).

Definition is_mutable (self : BorrowGraph) (id : RefID) : result E bool :=
  r ← unwrap (self !! id); Ok (ref_mutable r).
Definition graph_new_ref (self : BorrowGraph) (id : RefID) (mutable : bool) : result E BorrowGraph :=
  if bool_decide (is_Some (self !! id)) then Panic else Ok (<[ id := Ref_new mutable ]> self).

(** [borrowed_by] *)
Notation Borrows := (gmap RefID Loc * gmap Lbl (gmap RefID Loc))%type.
Definition record_borrow (borrower : RefID) (acc : Borrows) (edge : BorrowEdge) : Borrows :=
  let '(full_borrows, field_borrows) := acc in
  match be_path edge with
  | [] => (<[ borrower := be_loc edge ]> full_borrows, field_borrows)
  | f :: _ => (full_borrows, <[ f := <[ borrower := be_loc edge ]> (default ∅ (field_borrows !! f)) ]> field_borrows)
  end.
Definition borrowed_by (self : BorrowGraph) (id : RefID) : result E Borrows :=
  r ← unwrap (self !! id);
  Ok (foldl (λ acc p, foldl (record_borrow p.1) acc (edges_of p.2)) (∅, ∅) (ascending_entries (borrowed_by_ r))).

(** [between_edges], [out_edges], [in_edges] *)
Definition between_edges (self : BorrowGraph) (parent child : RefID) : result E (list BorrowEdge) :=
  r ← unwrap (self !! parent);
  edges ← unwrap (borrowed_by_ r !! child);
  Ok (edges_of edges).
Definition out_edges (self : BorrowGraph) (id : RefID) : result E (list (BorrowEdge * RefID)) :=
  r ← unwrap (self !! id);
  Ok (flat_map (λ p, (λ edge, (edge, p.1)) <$> edges_of p.2) (ascending_entries (borrowed_by_ r))).
Definition in_edges (self : BorrowGraph) (id : RefID) : result E (list (RefID * BorrowEdge)) :=
  r ← unwrap (self !! id);
  try_fold (λ returned_edges src,
    edges ← between_edges self src id;
    Ok (returned_edges ++ ((λ edge, (src, edge)) <$> edges))) (ascending_ids (borrows_from r)) [].

(** *** Invariants *)

Definition all_refs_ok (self : BorrowGraph) (ok : RefID → Ref → bool) : bool :=
  forallb (λ p, ok p.1 p.2) (map_to_list self).
Definition contains_id (self : BorrowGraph) (id : RefID) : bool := bool_decide (is_Some (self !! id)).
Definition children (r : Ref) : list RefID := (map_to_list (borrowed_by_ r)).*1.
Definition id_consistency (self : BorrowGraph) : bool :=
  all_refs_ok self (λ _ r, forallb (contains_id self) (children r) && forallb (contains_id self) (elements (borrows_from r))).
(** [self.0[child]] of an id that is not there panics: the check is made after [id_consistency]. *)
Definition edge_consistency (self : BorrowGraph) : bool :=
  all_refs_ok self (λ id r,
    forallb (λ c, match self !! c with Some child => bool_decide (id ∈ borrows_from child) | None => false end) (children r) &&
    forallb (λ p, match self !! p with Some parent => bool_decide (is_Some (borrowed_by_ parent !! id)) | None => false end)
      (elements (borrows_from r))).
Definition no_self_loops (self : BorrowGraph) : bool :=
  all_refs_ok self (λ id r, forallb (λ c, negb (id =? c)) (children r) && forallb (λ p, negb (id =? p)) (elements (borrows_from r))).
Definition check_invariant (self : BorrowGraph) : bool :=
  id_consistency self && edge_consistency self && no_self_loops self.

(** *** Edges *)

Definition set_borrowed_by (r : Ref) (b : BorrowEdges) : Ref :=
  {| borrowed_by_ := b; borrows_from := borrows_from r; ref_mutable := ref_mutable r |}.
Definition set_borrows_from (r : Ref) (b : gset RefID) : Ref :=
  {| borrowed_by_ := borrowed_by_ r; borrows_from := b; ref_mutable := ref_mutable r |}.

Definition add_edge (self : BorrowGraph) (parent_id : RefID) (edge : BorrowEdge) (child_id : RefID) : result E BorrowGraph :=
  if parent_id =? child_id then Panic else
  parent ← unwrap (self !! parent_id);
  let self := <[ parent_id := set_borrowed_by parent
    (<[ child_id := insert_edge edge (default ∅ (borrowed_by_ parent !! child_id)) ]> (borrowed_by_ parent)) ]> self in
  child ← unwrap (self !! child_id);
  Ok (<[ child_id := set_borrows_from child ({[ parent_id ]} ∪ borrows_from child) ]> self).
Definition add_path (self : BorrowGraph) (parent_id : RefID) (loc : Loc) (strong : bool) (path : Path) (child_id : RefID)
  : result E BorrowGraph :=
  add_edge self parent_id {| be_strong := strong; be_path := path; be_loc := loc |} child_id.

(** The first loop of [factor]: the edges that start with the path *)
Definition edges_to_factor (path : Path) (borrowed_by : BorrowEdges) : list (RefID * BorrowEdge) :=
  flat_map (λ p, (λ edge, (p.1, edge)) <$> List.filter (λ edge, path_leq path (be_path edge)) (edges_of p.2))
    (ascending_entries borrowed_by).
(** The second one: they leave the parent. *)
Definition remove_edge (acc : BorrowEdges * gset RefID) (p : RefID * BorrowEdge) : result E (BorrowEdges * gset RefID) :=
  let '(borrowed_by, cleanup_ids) := acc in
  edges ← unwrap (A := EdgeSet) (borrowed_by !! p.1);
  if negb (bool_decide (is_Some (edges !! edge_key p.2))) then Panic else
  let edges : EdgeSet := delete (edge_key p.2) edges in
  if bool_decide (size edges = 0%nat) then Ok (delete p.1 borrowed_by, {[ p.1 ]} ∪ cleanup_ids)
  else Ok (<[ p.1 := edges ]> borrowed_by, cleanup_ids).
Definition forget_parent (parent_id : RefID) (self : BorrowGraph) (child_id : RefID) : result E BorrowGraph :=
  child ← unwrap (self !! child_id);
  if negb (bool_decide (parent_id ∈ borrows_from child)) then Panic
  else Ok (<[ child_id := set_borrows_from child (borrows_from child ∖ {[ parent_id ]}) ]> self).
(** The last one: they start from the new reference instead. *)
Definition move_edge (intermediate_id : RefID) (path : Path) (self : BorrowGraph) (p : RefID * BorrowEdge)
  : result E BorrowGraph :=
  '(_, intermediate_to_child_suffix) ← path_factor path (be_path p.2);
  add_path self intermediate_id (be_loc p.2) (be_strong p.2) intermediate_to_child_suffix p.1.
Definition factor (self : BorrowGraph) (parent_id : RefID) (loc : Loc) (path : Path) (intermediate_id : RefID)
  : result E BorrowGraph :=
  _ ← debug_assert debug (check_invariant self);
  parent ← unwrap (self !! parent_id);
  let needs_factored := edges_to_factor path (borrowed_by_ parent) in
  '(borrowed_by, cleanup_ids) ← try_fold remove_edge needs_factored (borrowed_by_ parent, ∅);
  let self := <[ parent_id := set_borrowed_by parent borrowed_by ]> self in
  self ← try_fold (forget_parent parent_id) (ascending_ids cleanup_ids) self;
  self ← try_fold (move_edge intermediate_id path) needs_factored self;
  self ← add_path self parent_id loc true path intermediate_id;
  _ ← debug_assert debug (check_invariant self);
  Ok self.

Definition add_strong_borrow (self : BorrowGraph) (loc : Loc) (parent_id child_id : RefID) := factor self parent_id loc [] child_id.
Definition add_strong_field_borrow (self : BorrowGraph) (loc : Loc) (parent_id : RefID) (field : Lbl) (child_id : RefID) :=
  factor self parent_id loc [field] child_id.
Definition add_weak_borrow (self : BorrowGraph) (loc : Loc) (parent_id child_id : RefID) :=
  add_path self parent_id loc false [] child_id.
Definition add_weak_field_borrow (self : BorrowGraph) (loc : Loc) (parent_id : RefID) (field : Lbl) (child_id : RefID) :=
  add_path self parent_id loc false [field] child_id.

(** *** Release *)

(** The edge that [splice_out_intermediate] adds *)
Definition compose_edges (parent_to_intermediate intermediate_to_child : BorrowEdge) : BorrowEdge :=
  {| be_strong := be_strong parent_to_intermediate && be_strong intermediate_to_child;
     be_path := if be_strong parent_to_intermediate
                then path_append (be_path parent_to_intermediate) (be_path intermediate_to_child)
                else be_path parent_to_intermediate;
     be_loc := be_loc intermediate_to_child |}.
Definition splice_out_intermediate (self : BorrowGraph) (parent_id : RefID) (parent_to_intermediate : BorrowEdge)
    (child_id : RefID) (intermediate_to_child : BorrowEdge) : result E BorrowGraph :=
  if parent_id =? child_id then Ok self else
  add_edge self parent_id (compose_edges parent_to_intermediate intermediate_to_child) child_id.
Definition release_parent (id : RefID) (borrowed_by : BorrowEdges) (self : BorrowGraph) (parent_ref_id : RefID)
  : result E BorrowGraph :=
  parent ← unwrap (self !! parent_ref_id);
  parent_edges ← unwrap (borrowed_by_ parent !! id);
  let self := <[ parent_ref_id := set_borrowed_by parent (delete id (borrowed_by_ parent)) ]> self in
  try_fold (λ self parent_edge,
    try_fold (λ self (p : RefID * EdgeSet),
      try_fold (λ self child_edge, splice_out_intermediate self parent_ref_id parent_edge p.1 child_edge)
        (edges_of p.2) self) (ascending_entries borrowed_by) self) (edges_of parent_edges) self.
Definition release_child (id : RefID) (self : BorrowGraph) (child_ref_id : RefID) : result E BorrowGraph :=
  child ← unwrap (self !! child_ref_id);
  Ok (<[ child_ref_id := set_borrows_from child (borrows_from child ∖ {[ id ]}) ]> self).
Definition graph_release (self : BorrowGraph) (id : RefID) : result E BorrowGraph :=
  _ ← debug_assert debug (check_invariant self);
  r ← unwrap (self !! id);
  let self := delete id self in
  self ← try_fold (release_parent id (borrowed_by_ r)) (ascending_ids (borrows_from r)) self;
  self ← try_fold (release_child id) (ascending_entries (borrowed_by_ r)).*1 self;
  _ ← debug_assert debug (check_invariant self);
  Ok self.

(** *** Subsumption and join *)

(** [unmatched_edges], as the list of its edges in the order in which [join] adds them; an
    unmatched edge from a reference to itself is a failed assertion. *)
Notation Unmatched := (list (RefID * BorrowEdge * RefID)).
Definition unmatched_edge (parent_id : RefID) (self_borrowed_by : BorrowEdges) (child_id : RefID)
    (unmatched : Unmatched) (other_edge : BorrowEdge) : result E Unmatched :=
  let found_match := match self_borrowed_by !! child_id with
                     | Some parent_to_child => existsb (λ self_edge, edge_leq self_edge other_edge) (edges_of parent_to_child)
                     | None => false
                     end in
  if found_match : bool then Ok unmatched
  else if parent_id =? child_id then Panic
  else Ok (unmatched ++ [(parent_id, other_edge, child_id)]).
Definition unmatched_child (parent_id : RefID) (self_borrowed_by : BorrowEdges)
    (unmatched : Unmatched) (p : RefID * EdgeSet) : result E Unmatched :=
  try_fold (unmatched_edge parent_id self_borrowed_by p.1) (edges_of p.2) unmatched.
Definition unmatched_parent (self : BorrowGraph) (unmatched : Unmatched) (p : RefID * Ref) : result E Unmatched :=
  self_ref ← unwrap (self !! p.1);
  try_fold (unmatched_child p.1 (borrowed_by_ self_ref)) (ascending_entries (borrowed_by_ p.2)) unmatched.
Definition unmatched_edges (self other : BorrowGraph) : result E Unmatched :=
  try_fold (unmatched_parent self) (ascending_entries other) [].
Definition graph_leq (self other : BorrowGraph) : result E bool :=
  unmatched ← unmatched_edges self other; Ok (is_empty unmatched).
Definition graph_join (self other : BorrowGraph) : result E BorrowGraph :=
  _ ← debug_assert debug (check_invariant self);
  _ ← debug_assert debug (check_invariant other);
  _ ← debug_assert debug (bool_decide (dom self ⊆ dom other));
  _ ← debug_assert debug (bool_decide (dom other ⊆ dom self));
  unmatched ← unmatched_edges self other;
  joined ← try_fold (λ joined (e : RefID * BorrowEdge * RefID), add_edge joined e.1.1 e.1.2 e.2) unmatched self;
  _ ← debug_assert debug (check_invariant joined);
  Ok joined.

(** *** Renaming *)

Definition graph_remap_refs (self : BorrowGraph) (id_map : gmap RefID RefID) : result E BorrowGraph :=
  _ ← debug_assert debug (check_invariant self);
  let entries := ascending_entries id_map in
  let self := foldl rename_key (ref_remap_refs entries <$> self) entries in
  _ ← debug_assert debug (check_invariant self);
  Ok self.
Definition all_refs (self : BorrowGraph) : gset RefID := dom self.
End BorrowGraph.

(** ** What the operations on borrow graphs do to the borrows

    A borrow graph is seen through its references with their mutability, its edges and
    its back edges.  The operations keep the invariant of the graph, and no borrow that
    the graph tells of is lost: what is reached before is reached after. *)


Section Paths.
Context {E Loc Lbl : Type} `{Countable Lbl} `{!LabelOrder Lbl}.
Notation Path := (list Lbl).
Notation Key := (bool * Path)%type.
Notation Ref := (Ref (Loc := Loc) (Lbl := Lbl)).
Notation Edge := (BorrowEdge (Loc := Loc) (Lbl := Lbl)).
Notation Graph := (gmap N Ref).
Implicit Types (g : Graph) (p c id : N) (k : Key) (q : Path) (e : Edge) (r : Ref).

(** ** Observations *)

Definition muts g id : option bool := ref_mutable <$> g !! id.
Definition ref_edge r k c : Prop := ∃ s, borrowed_by_ r !! c = Some s ∧ is_Some (s !! k).
Definition edge g p k c : Prop := ∃ r, g !! p = Some r ∧ ref_edge r k c.
Definition back g c p : Prop := ∃ r, g !! c = Some r ∧ p ∈ borrows_from r.
Definition ref_proper r : Prop := ∀ c s, borrowed_by_ r !! c = Some s → s ≠ ∅.
Definition proper g : Prop := ∀ p r, g !! p = Some r → ref_proper r.

(** The invariant: edges and back edges are the same pairs, between references of the
    graph, and no reference borrows from itself. *)
Record graph_ok g : Prop := {
  go_proper : proper g;
  go_back : ∀ p c, back g c p ↔ ∃ k, edge g p k c;
  go_loops : ∀ p k, ¬ edge g p k p }.

Lemma muts_Some g id : is_Some (muts g id) ↔ ∃ r, g !! id = Some r.
Proof. unfold muts. rewrite fmap_is_Some. done. Qed.
Lemma edge_nodes g p k c : graph_ok g → edge g p k c → is_Some (muts g p) ∧ is_Some (muts g c).
Proof.
  intros Hg He. assert (back g c p) as (rc & Hc & _) by (apply (go_back _ Hg); eauto).
  destruct He as (r & Hr & _). split; apply muts_Some; eauto.
Qed.

(** ** Iteration *)

Lemma elem_of_entries {A} (m : gmap N A) i a : (i, a) ∈ ascending_entries m ↔ m !! i = Some a.
Proof. unfold ascending_entries. by rewrite merge_sort_Permutation, elem_of_map_to_list. Qed.
Lemma elem_of_ids (s : gset N) i : i ∈ ascending_ids s ↔ i ∈ s.
Proof. unfold ascending_ids. by rewrite merge_sort_Permutation, elem_of_elements. Qed.
Lemma elem_of_edges_of (s : gmap Key Loc) e : e ∈ edges_of s ↔ s !! edge_key e = Some (be_loc e).
Proof.
  unfold edges_of. rewrite merge_sort_Permutation, list_elem_of_fmap. split.
  - intros ([[b q] l] & -> & Hin%elem_of_map_to_list). done.
  - intros Hs. exists (edge_key e, be_loc e). split; [by destruct e|by apply elem_of_map_to_list].
Qed.
Lemma edges_of_key (s : gmap Key Loc) k : is_Some (s !! k) ↔ ∃ e, e ∈ edges_of s ∧ edge_key e = k.
Proof.
  split.
  - intros [l Hl]. exists {| be_strong := k.1; be_path := k.2; be_loc := l |}. rewrite elem_of_edges_of.
    unfold edge_key. cbn. by destruct k.
  - intros (e & He%elem_of_edges_of & <-). eauto.
Qed.

(** ** Updates *)

Lemma muts_insert g p r id : muts (<[ p := r ]> g) id = if decide (id = p) then Some (ref_mutable r) else muts g id.
Proof. unfold muts. case_decide; subst; [by rewrite lookup_insert_eq|by rewrite lookup_insert_ne]. Qed.
Lemma edge_insert g p r p' k c :
  edge (<[ p := r ]> g) p' k c ↔ (p' = p ∧ ref_edge r k c) ∨ (p' ≠ p ∧ edge g p' k c).
Proof.
  unfold edge. destruct (decide (p' = p)) as [->|Hne].
  - rewrite lookup_insert_eq. naive_solver.
  - rewrite lookup_insert_ne by done. naive_solver.
Qed.
Lemma back_insert g c r c' p :
  back (<[ c := r ]> g) c' p ↔ (c' = c ∧ p ∈ borrows_from r) ∨ (c' ≠ c ∧ back g c' p).
Proof.
  unfold back. destruct (decide (c' = c)) as [->|Hne].
  - rewrite lookup_insert_eq. naive_solver.
  - rewrite lookup_insert_ne by done. naive_solver.
Qed.
Lemma proper_insert g p r : proper g → ref_proper r → proper (<[ p := r ]> g).
Proof. intros Hg Hr p' r' [[_ <-]|[_ Hp]]%lookup_insert_Some; [done|by eapply Hg]. Qed.

(** Only edges are added: those of [P]. *)
Record adds (P : N → Key → N → Prop) g g' : Prop := {
  ad_muts : ∀ id, muts g' id = muts g id;
  ad_edge : ∀ p k c, edge g' p k c ↔ edge g p k c ∨ P p k c;
  ad_back : ∀ p c, back g' c p ↔ back g c p ∨ ∃ k, P p k c;
  ad_proper : proper g → proper g' }.

Lemma adds_refl (P : N → Key → N → Prop) g : (∀ p k c, ¬ P p k c) → adds P g g.
Proof. intros HP. split; [done|naive_solver..|done]. Qed.
Lemma adds_trans (P Q R : N → Key → N → Prop) g1 g2 g3 :
  adds P g1 g2 → adds Q g2 g3 → (∀ p k c, R p k c ↔ P p k c ∨ Q p k c) → adds R g1 g3.
Proof.
  intros [M1 E1 B1 P1] [M2 E2 B2 P2] HR. split.
  - intros id. by rewrite M2, M1.
  - intros p k c. rewrite E2, E1, HR. tauto.
  - intros p c. rewrite B2, B1. setoid_rewrite HR. naive_solver.
  - auto.
Qed.
Lemma adds_ext (P Q : N → Key → N → Prop) g g' : (∀ p k c, P p k c ↔ Q p k c) → adds P g g' → adds Q g g'.
Proof. intros HPQ [M1 E1 B1 P1]. split; [done| | |done]; intros; rewrite ?E1, ?B1; setoid_rewrite HPQ; done. Qed.

(** A loop of additions, each of which depends on nothing but the references *)
Lemma fold_adds {X} (f : Graph → X → result E Graph) (P : X → N → Key → N → Prop) l g :
  (∀ x g', x ∈ l → (∀ id, muts g' id = muts g id) → ∃ g'', f g' x = Ok g'' ∧ adds (P x) g' g'') →
  ∃ g', try_fold f l g = Ok g' ∧ adds (λ p k c, ∃ x, x ∈ l ∧ P x p k c) g g'.
Proof.
  revert g. induction l as [|x l IH]; intros g Hf; cbn [try_fold].
  - exists g. split; [done|]. apply adds_refl. by intros p k c (y & ?%not_elem_of_nil & _).
  - destruct (Hf x g) as (g1 & Hx & Ha1); [by left|done|]. rewrite Hx. cbn [mbind result_bind].
    destruct (IH g1) as (g2 & Hl & Ha2).
    { intros y g' Hy Hm. apply Hf; [by right|]. intros id. by rewrite Hm, (ad_muts _ _ _ Ha1). }
    exists g2. split; [done|]. eapply adds_trans; [done..|]. intros p k c. setoid_rewrite elem_of_cons. naive_solver.
Qed.

Lemma ref_edge_insert r c' (s : gmap Key Loc) k c b :
  ref_edge {| borrowed_by_ := <[ c' := s ]> (borrowed_by_ r); borrows_from := b; ref_mutable := ref_mutable r |} k c ↔
  (c = c' ∧ is_Some (s !! k)) ∨ (c ≠ c' ∧ ref_edge r k c).
Proof.
  unfold ref_edge. cbn. destruct (decide (c = c')) as [->|Hne].
  - rewrite lookup_insert_eq. naive_solver.
  - rewrite lookup_insert_ne by done. naive_solver.
Qed.
Lemma insert_edge_key e (s : gmap Key Loc) k : is_Some (insert_edge e s !! k) ↔ is_Some (s !! k) ∨ k = edge_key e.
Proof.
  unfold insert_edge. destruct (s !! edge_key e) as [l|] eqn:Hs.
  - split; [by left|]. intros [?| ->]; [done|by exists l].
  - destruct (decide (k = edge_key e)) as [->|]; [rewrite lookup_insert_eq|rewrite lookup_insert_ne by done]; naive_solver.
Qed.

Lemma add_edge_effect g p e c :
  p ≠ c → is_Some (muts g p) → is_Some (muts g c) →
  ∃ g', add_edge (E := E) g p e c = Ok g' ∧ adds (λ p' k' c', p' = p ∧ k' = edge_key e ∧ c' = c) g g'.
Proof.
  intros Hne [rp Hp]%muts_Some [rc Hc]%muts_Some. unfold add_edge. apply N.eqb_neq in Hne as Hneb. rewrite Hneb, Hp.
  cbn [unwrap mbind result_bind]. rewrite lookup_insert_ne, Hc by done. cbn [unwrap mbind result_bind].
  eexists. split; [reflexivity|]. split.
  - intros id. rewrite !muts_insert. cbn. unfold muts. repeat case_decide; subst; by rewrite ?Hp, ?Hc.
  - intros p' k' c'. rewrite !edge_insert. unfold set_borrowed_by. rewrite ref_edge_insert, insert_edge_key.
    assert (ref_edge (set_borrows_from rc ({[p]} ∪ borrows_from rc)) k' c' ↔ ref_edge rc k' c') as -> by done.
    assert (∀ k', is_Some ((default ∅ (borrowed_by_ rp !! c) : gmap Key Loc) !! k') ↔ ref_edge rp k' c) as Hd.
    { intros k2. unfold ref_edge. destruct (borrowed_by_ rp !! c); cbn; [naive_solver|].
      rewrite lookup_empty. split; [by intros [? ?]|naive_solver]. }
    rewrite Hd. assert (edge g p k' c' ↔ ref_edge rp k' c') as Hep by (unfold edge; rewrite Hp; naive_solver).
    assert (edge g c k' c' ↔ ref_edge rc k' c') as Hec by (unfold edge; rewrite Hc; naive_solver).
    destruct (decide (p' = p)), (decide (p' = c)), (decide (c' = c)); subst; naive_solver.
  - intros p' c'. rewrite !back_insert. cbn. rewrite elem_of_union, elem_of_singleton.
    assert (back g c p' ↔ p' ∈ borrows_from rc) as Hbc by (unfold back; rewrite Hc; naive_solver).
    assert (back g p p' ↔ p' ∈ borrows_from rp) as Hbp by (unfold back; rewrite Hp; naive_solver).
    destruct (decide (c' = c)), (decide (c' = p)); subst; naive_solver.
  - intros Hg. apply proper_insert; [apply proper_insert; [done|]|exact (Hg _ _ Hc)].
    intros c' s. cbn. intros [[_ <-]|[_ Hs]]%lookup_insert_Some; [|by apply (Hg _ _ Hp _ _ Hs)].
    intros Hs. assert (is_Some (insert_edge e (default ∅ (borrowed_by_ rp !! c)) !! edge_key e)) as [l Hl].
    { apply insert_edge_key. by right. }
    by rewrite Hs, lookup_empty in Hl.
Qed.

(** ** The invariant *)

Lemma elem_of_children r c : c ∈ children r ↔ is_Some (borrowed_by_ r !! c).
Proof.
  unfold children. rewrite list_elem_of_fmap. split.
  - intros ([c' s] & -> & Hs%elem_of_map_to_list). eauto.
  - intros [s Hs]. exists (c, s). by rewrite elem_of_map_to_list.
Qed.
Lemma forallb_elem {A} (f : A → bool) l : forallb f l = true ↔ ∀ x, x ∈ l → f x = true.
Proof. rewrite forallb_forall. by setoid_rewrite list_elem_of_In. Qed.
Lemma all_refs_spec g ok : all_refs_ok g ok = true ↔ ∀ p r, g !! p = Some r → ok p r = true.
Proof.
  unfold all_refs_ok. rewrite forallb_elem. split.
  - intros Ha p r Hr. apply (Ha (p, r)). by apply elem_of_map_to_list.
  - intros Ha [p r] Hr%elem_of_map_to_list. by apply Ha.
Qed.
Lemma proper_key g p r c : proper g → g !! p = Some r → is_Some (borrowed_by_ r !! c) ↔ ∃ k, edge g p k c.
Proof.
  intros Hg Hr. unfold edge, ref_edge. rewrite Hr. split.
  - intros [s Hs]. destruct (map_choose s (Hg _ _ Hr _ _ Hs)) as (k & l & Hk). exists k, r. eauto 10.
  - intros (k & r' & [= <-] & s & Hs & _). eauto.
Qed.

Lemma check_invariant_ok g : graph_ok g ↔ proper g ∧ check_invariant g = true.
Proof.
  unfold check_invariant, id_consistency, edge_consistency, no_self_loops. rewrite !andb_true_iff, !all_refs_spec. split.
  - intros Hg. split; [apply (go_proper _ Hg)|]. pose proof (go_proper _ Hg) as Hpr.
    assert (∀ p r c, g !! p = Some r → c ∈ children r → is_Some (g !! c) ∧ back g c p ∧ p ≠ c) as Hchild.
    { intros p r c Hr Hc%elem_of_children. apply (proper_key _ _ _ _ Hpr Hr) in Hc as [k Hk].
      assert (back g c p) as Hb by (apply (go_back _ Hg); eauto).
      split_and!; [destruct Hb as (? & ? & _); eauto|done|]. intros ->. by apply (go_loops _ Hg c k). }
    assert (∀ p r c, g !! p = Some r → c ∈ elements (borrows_from r) → is_Some (g !! c) ∧ (∃ k, edge g c k p) ∧ p ≠ c) as Hpar.
    { intros p r c Hr Hc%elem_of_elements. assert (back g p c) as Hb by (exists r; by split).
      apply (go_back _ Hg) in Hb as [k Hk]. split_and!; [destruct Hk as (? & ? & _); eauto|eauto|].
      intros ->. by apply (go_loops _ Hg c k). }
    split; [split|]; intros p r Hr; rewrite andb_true_iff, !forallb_elem; split; intros c Hc.
    + unfold contains_id. apply bool_decide_eq_true. by eapply Hchild.
    + unfold contains_id. apply bool_decide_eq_true. by eapply Hpar.
    + destruct (Hchild _ _ _ Hr Hc) as (_ & (rc & -> & Hb) & _). by apply bool_decide_eq_true.
    + destruct (Hpar _ _ _ Hr Hc) as (_ & [k Hk] & _). pose proof Hk as (rp & Hrp & _). rewrite Hrp.
      apply bool_decide_eq_true. apply (proper_key _ _ _ _ Hpr Hrp). eauto.
    + apply negb_true_iff, N.eqb_neq. by eapply Hchild.
    + apply negb_true_iff, N.eqb_neq. by eapply Hpar.
  - intros (Hpr & (_ & Hec) & Hnl). split; [done| |].
    + intros p c. split.
      * intros (rc & Hc & Hp). specialize (Hec _ _ Hc). rewrite andb_true_iff, !forallb_elem in Hec. destruct Hec as [_ Hec].
        specialize (Hec p (proj2 (elem_of_elements _ _) Hp)). destruct (g !! p) as [rp|] eqn:Hrp; [|done].
        apply bool_decide_eq_true in Hec. by apply (proper_key _ _ _ _ Hpr Hrp).
      * intros [k Hk]. pose proof Hk as (rp & Hrp & _). specialize (Hec _ _ Hrp). rewrite andb_true_iff, !forallb_elem in Hec.
        destruct Hec as [Hec _]. assert (c ∈ children rp) as Hin by (apply elem_of_children, (proper_key _ _ _ _ Hpr Hrp); eauto).
        specialize (Hec c Hin). destruct (g !! c) as [rc|] eqn:Hrc; [|done]. apply bool_decide_eq_true in Hec. exists rc. by split.
    + intros p k Hk. pose proof Hk as (rp & Hrp & _). specialize (Hnl _ _ Hrp). rewrite andb_true_iff, !forallb_elem in Hnl.
      destruct Hnl as [Hnl _]. assert (p ∈ children rp) as Hin by (apply elem_of_children, (proper_key _ _ _ _ Hpr Hrp); eauto).
      specialize (Hnl _ Hin). by rewrite N.eqb_refl in Hnl.
Qed.
Lemma assert_ok debug g : graph_ok g → debug_assert (E := E) debug (check_invariant g) = Ok tt.
Proof. intros [_ ->]%check_invariant_ok. unfold debug_assert. by rewrite andb_false_r. Qed.

(** ** Release *)

Definition compose_keys (k1 k2 : Key) : Key := (k1.1 && k2.1, if k1.1 then k1.2 ++ k2.2 else k1.2).
Lemma edge_key_compose e1 e2 : edge_key (compose_edges e1 e2) = compose_keys (edge_key e1) (edge_key e2).
Proof. done. Qed.

Lemma release_parent_adds id r g p k1 :
  is_Some (muts g p) → (∀ k c, ref_edge r k c → is_Some (muts g c)) → edge g p k1 id → ref_proper r →
  ∃ g', release_parent (E := E) id (borrowed_by_ r) g p = Ok g' ∧
    (∀ i, muts g' i = muts g i) ∧
    (∀ p' k c, edge g' p' k c ↔ (edge g p' k c ∧ ¬ (p' = p ∧ c = id)) ∨
       p' = p ∧ p ≠ c ∧ ∃ k1 k2, edge g p k1 id ∧ ref_edge r k2 c ∧ k = compose_keys k1 k2) ∧
    (∀ p' c, back g' c p' ↔ back g c p' ∨ p' = p ∧ p ≠ c ∧ ∃ k2, ref_edge r k2 c) ∧
    (proper g → proper g').
Proof.
  intros [rp Hp]%muts_Some Hr Hk1 Hprop. unfold release_parent. rewrite Hp. cbn [unwrap mbind result_bind].
  pose proof Hk1 as (rp' & Hp' & s & Hs & Hsk). assert (rp' = rp) as -> by congruence. rewrite Hs. cbn [unwrap mbind result_bind].
  set (g1 := <[ p := _ ]> g).
  assert (∀ i, muts g1 i = muts g i) as Hm1.
  { intros i. unfold g1. rewrite muts_insert. cbn. unfold muts. case_decide; [by subst; rewrite Hp|done]. }
  assert (∀ p' k c, edge g1 p' k c ↔ edge g p' k c ∧ ¬ (p' = p ∧ c = id)) as He1.
  { intros p' k c. unfold g1. rewrite edge_insert. unfold ref_edge at 1. cbn. destruct (decide (p' = p)) as [->|Hne].
    - setoid_rewrite lookup_delete_Some. assert (edge g p k c ↔ ref_edge rp k c) as -> by (unfold edge; rewrite Hp; naive_solver).
      unfold ref_edge. naive_solver.
    - naive_solver. }
  assert (∀ p' c, back g1 c p' ↔ back g c p') as Hb1.
  { intros p' c. unfold g1. rewrite back_insert. cbn. destruct (decide (c = p)) as [->|Hne]; [|naive_solver].
    assert (back g p p' ↔ p' ∈ borrows_from rp) as -> by (unfold back; rewrite Hp; naive_solver). naive_solver. }
  assert (proper g → proper g1) as Hp1.
  { intros Hg. unfold g1. apply proper_insert; [done|]. intros c' s'. cbn. intros [_ Hs']%lookup_delete_Some. by eapply (Hg _ _ Hp). }
  edestruct (fold_adds (λ self parent_edge,
    try_fold (λ self (en : N * gmap Key Loc),
      try_fold (λ self child_edge, splice_out_intermediate self p parent_edge en.1 child_edge) (edges_of en.2) self)
      (ascending_entries (borrowed_by_ r)) self)
    (λ e1 p' k c, p' = p ∧ p ≠ c ∧ ∃ k2, ref_edge r k2 c ∧ k = compose_keys (edge_key e1) k2) (edges_of s) g1) as (g' & -> & Ha).
  { intros e1 g2 _ Hm2. edestruct (fold_adds (λ self (en : N * gmap Key Loc),
      try_fold (λ self child_edge, splice_out_intermediate self p e1 en.1 child_edge) (edges_of en.2) self)
      (λ en p' k c, p' = p ∧ p ≠ c ∧ c = en.1 ∧ ∃ k2, is_Some (en.2 !! k2) ∧ k = compose_keys (edge_key e1) k2)
      (ascending_entries (borrowed_by_ r)) g2) as (g3 & Hok & Ha).
    - intros [c sc] g3 Hc%elem_of_entries Hm3. cbn [fst snd].
      edestruct (fold_adds (λ self child_edge, splice_out_intermediate self p e1 c child_edge)
        (λ e2 p' k c', p' = p ∧ p ≠ c ∧ c' = c ∧ k = compose_keys (edge_key e1) (edge_key e2)) (edges_of sc) g3) as (g4 & Hok & Ha).
      + intros e2 g4 He2 Hm4. unfold splice_out_intermediate. destruct (p =? c) eqn:Hpc.
        * apply N.eqb_eq in Hpc as <-. exists g4. split; [done|]. apply adds_refl. naive_solver.
        * apply N.eqb_neq in Hpc. destruct (add_edge_effect g4 p (compose_edges e1 e2) c Hpc) as (g5 & Hok & Ha).
          -- rewrite Hm4, Hm3, Hm2, Hm1. apply muts_Some. eauto.
          -- rewrite Hm4, Hm3, Hm2, Hm1. destruct (map_choose sc (Hprop _ _ Hc)) as (k2 & l2 & Hl2).
             apply (Hr k2). exists sc. eauto.
          -- exists g5. split; [done|]. eapply adds_ext; [|exact Ha]. intros. rewrite edge_key_compose. naive_solver.
      + exists g4. split; [done|]. eapply adds_ext; [|exact Ha]. intros p' k c'. setoid_rewrite edges_of_key. naive_solver.
    - exists g3. split; [done|]. eapply adds_ext; [|exact Ha]. intros p' k c. split.
      + intros ([c' sc] & Hc%elem_of_entries & -> & Hpc & -> & k2 & Hk2 & ->). cbn in *. split_and!; [done|done|].
        exists k2. split; [by exists sc|done].
      + intros (-> & Hpc & k2 & (sc & Hc & Hk2) & ->). exists (c, sc). rewrite elem_of_entries. cbn. eauto 10. }
  exists g'. split; [done|]. split_and!.
  - intros i. by rewrite (ad_muts _ _ _ Ha).
  - intros p' k c. rewrite (ad_edge _ _ _ Ha), He1.
    assert (∀ k, edge g p k id ↔ is_Some (s !! k)) as Hes by (intros k3; unfold edge, ref_edge; rewrite Hp; naive_solver).
    setoid_rewrite Hes. setoid_rewrite edges_of_key at 1. naive_solver.
  - intros p' c. rewrite (ad_back _ _ _ Ha), Hb1. f_equiv. split.
    + intros (k & e1 & _ & -> & Hpc & k2 & Hk2 & _). eauto.
    + intros (-> & Hpc & k2 & Hk2). apply edges_of_key in Hsk as (e1 & He1' & <-). naive_solver.
  - intros Hg. by apply (ad_proper _ _ _ Ha), Hp1.
Qed.

Lemma release_parents id r l g :
  NoDup l → (∀ p, p ∈ l → ∃ k1, edge g p k1 id) → (∀ k c, ref_edge r k c → c ≠ id ∧ is_Some (muts g c)) → ref_proper r →
  ∃ g', try_fold (release_parent (E := E) id (borrowed_by_ r)) l g = Ok g' ∧
    (∀ i, muts g' i = muts g i) ∧
    (∀ p k c, edge g' p k c ↔ (edge g p k c ∧ ¬ (p ∈ l ∧ c = id)) ∨
       p ∈ l ∧ p ≠ c ∧ ∃ k1 k2, edge g p k1 id ∧ ref_edge r k2 c ∧ k = compose_keys k1 k2) ∧
    (∀ p c, back g' c p ↔ back g c p ∨ p ∈ l ∧ p ≠ c ∧ ∃ k2, ref_edge r k2 c) ∧
    (proper g → proper g').
Proof.
  intros Hnd. revert g. induction Hnd as [|p l Hp Hnd IH]; intros g Hl Hr Hprop; cbn [try_fold].
  { exists g. split_and!; [done|done|..|done]; intros; setoid_rewrite elem_of_nil; naive_solver. }
  destruct (Hl p) as [k1 Hk1]; [by left|].
  destruct (release_parent_adds id r g p k1) as (g1 & -> & M1 & E1 & B1 & P1); [|by eapply Hr|done|done|].
  { destruct Hk1 as (rp & Hrp & _). apply muts_Some. eauto. }
  cbn [mbind result_bind].
  assert (∀ p' k, p' ∈ l → edge g1 p' k id ↔ edge g p' k id) as Hsame.
  { intros p' k Hp'. rewrite E1. assert (p' ≠ p) by (by intros ->). naive_solver. }
  destruct (IH g1) as (g' & -> & M2 & E2 & B2 & P2).
  - intros p' Hp'. destruct (Hl p') as [k Hk]; [by right|]. exists k. by apply Hsame.
  - intros k c Hc. rewrite M1. by apply (Hr k c).
  - done.
  - exists g'. split_and!; [done|intros; by rewrite M2|..|auto].
    + intros p' k c. rewrite E2, E1. setoid_rewrite elem_of_cons.
      assert (∀ k c, ref_edge r k c → c ≠ id) as Hne by (intros ? ? Hc; by apply (Hr _ _ Hc)).
      assert ((p' ∈ l ∧ p' ≠ c ∧ ∃ k1 k2, edge g1 p' k1 id ∧ ref_edge r k2 c ∧ k = compose_keys k1 k2) ↔
        (p' ∈ l ∧ p' ≠ c ∧ ∃ k1 k2, edge g p' k1 id ∧ ref_edge r k2 c ∧ k = compose_keys k1 k2)) as ->.
      { split; intros (H1 & H2 & k1' & k2 & H3 & H4); (split; [done|split; [done|]]); exists k1', k2; split; try done;
          by apply Hsame. }
      naive_solver.
    + intros p' c. rewrite B2, B1. setoid_rewrite elem_of_cons. naive_solver.
Qed.

Lemma release_children id l g :
  (∀ c, c ∈ l → is_Some (muts g c)) →
  ∃ g', try_fold (release_child (E := E) id) l g = Ok g' ∧
    (∀ i, muts g' i = muts g i) ∧ (∀ p k c, edge g' p k c ↔ edge g p k c) ∧
    (∀ p c, back g' c p ↔ back g c p ∧ ¬ (p = id ∧ c ∈ l)) ∧ (proper g → proper g').
Proof.
  revert g. induction l as [|c l IH]; intros g Hl; cbn [try_fold].
  { exists g. split_and!; [done|done|done| |done]. intros. setoid_rewrite elem_of_nil. naive_solver. }
  assert (is_Some (muts g c)) as [rc Hc]%muts_Some by (apply Hl; by left).
  set (g1 := <[ c := set_borrows_from rc (borrows_from rc ∖ {[ id ]}) ]> g).
  assert (release_child (E := E) id g c = Ok g1) as -> by (unfold release_child; by rewrite Hc). cbn [mbind result_bind].
  assert (∀ i, muts g1 i = muts g i) as M1.
  { intros i. unfold g1. rewrite muts_insert. cbn. unfold muts. case_decide; [by subst; rewrite Hc|done]. }
  destruct (IH g1) as (g' & -> & M2 & E2 & B2 & P2).
  { intros c' Hc'. rewrite M1. apply Hl. by right. }
  exists g'. split_and!; [done|intros; by rewrite M2|..].
  - intros p k c'. rewrite E2. unfold g1. rewrite edge_insert.
    destruct (decide (p = c)) as [->|]; [|naive_solver]. unfold edge at 2. rewrite Hc. unfold ref_edge. naive_solver.
  - intros p c'. rewrite B2. unfold g1. rewrite back_insert. cbn. setoid_rewrite elem_of_cons.
    destruct (decide (c' = c)) as [->|]; [|naive_solver]. rewrite elem_of_difference, elem_of_singleton.
    assert (back g c p ↔ p ∈ borrows_from rc) as -> by (unfold back; rewrite Hc; naive_solver). naive_solver.
  - intros Hg. apply P2. unfold g1. apply proper_insert; [done|]. exact (Hg _ _ Hc).
Qed.

(** Releasing a reference composes the edges through it. *)
Lemma release_ok debug g id :
  graph_ok g → is_Some (muts g id) →
  ∃ g', graph_release (E := E) debug g id = Ok g' ∧ graph_ok g' ∧
    (∀ i, muts g' i = if decide (i = id) then None else muts g i) ∧
    (∀ p k c, edge g' p k c ↔ p ≠ id ∧ c ≠ id ∧
       (edge g p k c ∨ p ≠ c ∧ ∃ k1 k2, edge g p k1 id ∧ edge g id k2 c ∧ k = compose_keys k1 k2)).
Proof.
  intros Hg [r Hr]%muts_Some. unfold graph_release. rewrite (assert_ok debug g Hg). cbn [mbind result_bind].
  rewrite Hr. cbn [unwrap mbind result_bind]. set (g0 := delete id g).
  assert (∀ k c, edge g id k c ↔ ref_edge r k c) as Hid by (intros; unfold edge; rewrite Hr; naive_solver).
  assert (∀ p k c, edge g0 p k c ↔ edge g p k c ∧ p ≠ id) as E0.
  { intros p k c. unfold edge, g0. setoid_rewrite lookup_delete_Some. naive_solver. }
  assert (∀ p c, back g0 c p ↔ back g c p ∧ c ≠ id) as B0.
  { intros p c. unfold back, g0. setoid_rewrite lookup_delete_Some. naive_solver. }
  assert (∀ i, muts g0 i = if decide (i = id) then None else muts g i) as M0.
  { intros i. unfold muts, g0. case_decide; [subst; by rewrite lookup_delete_eq|by rewrite lookup_delete_ne]. }
  assert (∀ p, p ∈ ascending_ids (borrows_from r) ↔ ∃ k, edge g p k id) as Hpar.
  { intros p. rewrite elem_of_ids, <- (go_back _ Hg). unfold back. rewrite Hr. naive_solver. }
  assert (∀ c, c ∈ (ascending_entries (borrowed_by_ r)).*1 ↔ ∃ k, ref_edge r k c) as Hch.
  { intros c. rewrite list_elem_of_fmap. setoid_rewrite <- Hid. rewrite <- (proper_key _ _ _ _ (go_proper _ Hg) Hr). split.
    - intros ([c' s'] & -> & Hs%elem_of_entries). eauto.
    - intros [s' Hs]. exists (c, s'). by rewrite elem_of_entries. }
  destruct (release_parents id r (ascending_ids (borrows_from r)) g0) as (g1 & -> & M1 & E1 & B1 & P1).
  - unfold ascending_ids. rewrite merge_sort_Permutation. apply NoDup_elements.
  - intros p [k Hk]%Hpar. exists k. apply E0. split; [done|]. intros ->. by apply (go_loops _ Hg id k).
  - intros k c Hc%Hid. split; [intros ->; by apply (go_loops _ Hg id k)|]. rewrite M0. case_decide; [subst; by apply (go_loops _ Hg) in Hc|].
    by apply (edge_nodes _ _ _ _ Hg Hc).
  - exact (go_proper _ Hg _ _ Hr).
  - cbn [mbind result_bind].
    destruct (release_children id (ascending_entries (borrowed_by_ r)).*1 g1) as (g2 & -> & M2 & E2 & B2 & P2).
    { intros c [k Hk%Hid]%Hch. rewrite M1, M0. case_decide; [subst; by apply (go_loops _ Hg) in Hk|]. by apply (edge_nodes _ _ _ _ Hg Hk). }
    cbn [mbind result_bind].
    assert (∀ p k c, edge g2 p k c ↔ p ≠ id ∧ c ≠ id ∧
       (edge g p k c ∨ p ≠ c ∧ ∃ k1 k2, edge g p k1 id ∧ edge g id k2 c ∧ k = compose_keys k1 k2)) as Hedge.
    { intros p k c. rewrite E2, E1, E0, Hpar. setoid_rewrite Hid. setoid_rewrite E0.
      pose proof (go_loops _ Hg id) as Hloop. setoid_rewrite Hid in Hloop. split.
      - intros [[[He Hp] Hn]|([k0 Hk0] & Hpc & k1 & k2 & [Hk1 Hp] & Hk2 & ->)].
        + split_and!; [done| |by left]. intros ->. apply Hn. eauto.
        + split_and!; [done|intros ->; by apply (Hloop k2)|]. right. eauto 10.
      - intros (Hp & Hc & [He|(Hpc & k1 & k2 & Hk1 & Hk2 & ->)]); [left; naive_solver|right]. eauto 12. }
    assert (graph_ok g2) as Hg2.
    { split.
      - apply P2, P1. intros p rp [_ Hp]%lookup_delete_Some. by eapply (go_proper _ Hg).
      - intros p c. rewrite B2, B1, B0, Hpar, Hch. setoid_rewrite Hedge. setoid_rewrite <- Hid. setoid_rewrite (go_back _ Hg).
        pose proof (go_loops _ Hg) as Hloop. split.
        + intros [[[[k Hk] Hc]|([k1 Hk1] & Hpc & k2 & Hk2)] Hn].
          * destruct (decide (p = id)) as [->|Hp]; [exfalso; apply Hn; eauto|]. exists k. eauto.
          * exists (compose_keys k1 k2). split_and!; [intros ->; by apply (Hloop id k1)|intros ->; by apply (Hloop id k2)|]. right. eauto 10.
        + intros (k & Hp & Hc & [Hk|(Hpc & k1 & k2 & Hk1 & Hk2 & ->)]); (split; [|naive_solver]).
          * left. eauto.
          * right. eauto 10.
      - intros p k Hk%Hedge. destruct Hk as (_ & _ & [Hk|[Hn _]]); [by apply (go_loops _ Hg) in Hk|done]. }
    rewrite (assert_ok debug g2 Hg2). cbn [mbind result_bind].
    exists g2. split_and!; [done|done| |done]. intros i. by rewrite M2, M1, M0.
Qed.
End Paths.
