(* ===== verification/BorrowSpec.v ===== *)
(** * BorrowSpec: borrow graphs do not forget borrows

    [reach g p q c]: by the edges of the graph, reference [c] may borrow from [p] at the
    path [q].  A new strong borrow, a release, a join and the order of graphs are specified
    by their edges, and none of them loses what is reached. *)

From stdpp Require Import sorting.
From S2P Require Import Prelude BorrowGraph.

Section Spec.
Context {E Loc Lbl : Type} `{Countable Lbl} `{!LabelOrder Lbl}.
Notation Path := (list Lbl).
Notation Key := (bool * Path)%type.
Notation Ref := (Ref (Loc := Loc) (Lbl := Lbl)).
Notation Edge := (BorrowEdge (Loc := Loc) (Lbl := Lbl)).
Notation Edges := (gmap N (gmap Key Loc)).
Notation Graph := (gmap N Ref).
Implicit Types (g : Graph) (p c id : N) (k : Key) (q : Path) (e : Edge) (r : Ref) (b : Edges).

(** ** What an edge, and a graph, may stand for *)

(** A strong edge is exactly its path, a weak one anything that starts with it. *)
Definition extent k q : Prop := if k.1 then q = k.2 else k.2 `prefix_of` q.
Inductive reach g : N → Path → N → Prop :=
| reach_one p k c q : edge g p k c → extent k q → reach g p q c
| reach_more p k x q1 q2 c : edge g p k x → extent k q1 → reach g x q2 c → reach g p (q1 ++ q2) c.

Lemma compose_extent k1 k2 q1 q2 : extent k1 q1 → extent k2 q2 → extent (compose_keys k1 k2) (q1 ++ q2).
Proof.
  destruct k1 as [[|] p1], k2 as [[|] p2]; unfold extent, compose_keys; cbn.
  - by intros -> ->.
  - intros -> [s ->]. exists s. by rewrite app_assoc.
  - intros [s ->] ->. exists (s ++ p2). by rewrite app_assoc.
  - intros [s ->] _. exists (s ++ q2). by rewrite app_assoc.
Qed.

(** ** Release *)

Lemma release_reach g g' id p q c :
  graph_ok g →
  (∀ p k c, edge g' p k c ↔ p ≠ id ∧ c ≠ id ∧
     (edge g p k c ∨ p ≠ c ∧ ∃ k1 k2, edge g p k1 id ∧ edge g id k2 c ∧ k = compose_keys k1 k2)) →
  (∀ x k1 k2, edge g x k1 id → ¬ edge g id k2 x) →
  reach g p q c → p ≠ id → c ≠ id → reach g' p q c.
Proof.
  intros Hg Hedge Hcyc Hr Hp Hc.
  enough ((p ≠ id → reach g' p q c) ∧ (p = id → ∀ x k1 q1, edge g x k1 id → extent k1 q1 → reach g' x (q1 ++ q) c)) as [Hn _] by auto.
  clear Hp. induction Hr as [p k c q He Hq|p k y q1 q2 c He Hq Hr IH].
  - split.
    + intros Hp. eapply reach_one; [|done]. apply Hedge. auto.
    + intros -> x k1 q1 Hk1 Hq1. eapply reach_one; [|by apply compose_extent]. apply Hedge.
      split_and!; [intros ->; by apply (go_loops _ Hg id k1)|done|]. right. split; [intros ->; by eapply Hcyc|]. eauto 10.
  - destruct (IH Hc) as [IH1 IH2]. split.
    + intros Hp. destruct (decide (y = id)) as [->|Hy]; [by eapply IH2|]. eapply reach_more; [|done|by apply IH1]. apply Hedge. auto.
    + intros -> x k1 q0 Hk1 Hq0. assert (y ≠ id) as Hy by (intros ->; by apply (go_loops _ Hg id k)).
      rewrite app_assoc. eapply reach_more; [|by apply compose_extent|by apply IH1]. apply Hedge.
      split_and!; [intros ->; by apply (go_loops _ Hg id k1)|done|]. right. split; [intros ->; by eapply Hcyc|]. eauto 10.
Qed.

(** ** Factoring *)

Definition bedge b k c : Prop := ∃ s, b !! c = Some s ∧ is_Some (s !! k).
Definition bproper b : Prop := ∀ c s, b !! c = Some s → s ≠ ∅.

Lemma bedge_any b c : bproper b → is_Some (b !! c) ↔ ∃ k, bedge b k c.
Proof.
  intros Hb. split.
  - intros [s Hs]. destruct (map_choose s (Hb _ _ Hs)) as (k & l & Hk). exists k, s. eauto.
  - intros (k & s & Hs & _). eauto.
Qed.

Lemma remove_edge_step b cl c e :
  bedge b (edge_key e) c → bproper b →
  ∃ b' cl', remove_edge (E := E) (b, cl) (c, e) = Ok (b', cl') ∧ bproper b' ∧
    (∀ k c', bedge b' k c' ↔ bedge b k c' ∧ ¬ (c' = c ∧ k = edge_key e)) ∧
    (∀ c', c' ∈ cl' ↔ c' ∈ cl ∨ c' = c ∧ ¬ ∃ k, bedge b' k c).
Proof.
  intros (s & Hs & l & Hl) Hb. unfold remove_edge. cbn [fst snd]. rewrite Hs. cbn [unwrap mbind result_bind].
  rewrite bool_decide_eq_true_2 by eauto. cbn [negb]. cbv zeta.
  assert (∀ k, is_Some (delete (edge_key e) s !! k) ↔ is_Some (s !! k) ∧ k ≠ edge_key e) as Hdel.
  { intros k. destruct (decide (k = edge_key e)) as [->|]; [rewrite lookup_delete_eq|rewrite lookup_delete_ne by done].
    - split; [by intros [? ?]|by intros [_ ?]].
    - naive_solver. }
  case_bool_decide as Hsz.
  - apply map_size_empty_inv in Hsz.
    assert (∀ k, is_Some (s !! k) → k = edge_key e) as Honly.
    { intros k Hk. destruct (decide (k = edge_key e)) as [|Hne]; [done|].
      assert (is_Some (delete (edge_key e) s !! k)) as [? Hx] by (by apply Hdel). by rewrite Hsz, lookup_empty in Hx. }
    eexists _, _. split; [reflexivity|]. split_and!.
    + intros c' s' [_ Hs']%lookup_delete_Some. by eapply Hb.
    + intros k c'. unfold bedge. setoid_rewrite lookup_delete_Some. split; [naive_solver|].
      intros [(s' & Hs' & Hk) Hn]. exists s'. split_and!; [intros ->|done|done]. apply Hn. split; [done|]. apply Honly. congruence.
    + intros c'. rewrite elem_of_union, elem_of_singleton. unfold bedge. setoid_rewrite lookup_delete_Some. naive_solver.
  - assert (delete (edge_key e) s ≠ ∅) as Hne by (intros Hx; apply Hsz; by rewrite Hx, map_size_empty).
    eexists _, _. split; [reflexivity|]. split_and!.
    + intros c' s' [[_ <-]|[_ Hs']]%lookup_insert_Some; [done|by eapply Hb].
    + intros k c'. unfold bedge. destruct (decide (c' = c)) as [->|Hcc].
      * rewrite lookup_insert_eq. split; [intros (? & [= <-] & [? ?]%Hdel); naive_solver|].
        intros [(s' & Hs' & Hk) Hn]. assert (s' = s) as -> by congruence. eexists. split; [done|]. apply Hdel. naive_solver.
      * rewrite lookup_insert_ne by done. naive_solver.
    + intros c'. split; [by left|]. intros [|[-> Hn]]; [done|]. exfalso. apply Hn.
      destruct (map_choose _ Hne) as (k & l' & Hk). exists k. eexists. rewrite lookup_insert_eq. eauto.
Qed.

Lemma remove_edges (L : list (N * Edge)) b cl :
  NoDup ((λ x : N * Edge, (x.1, edge_key x.2)) <$> L) → (∀ c e, (c, e) ∈ L → bedge b (edge_key e) c) → bproper b →
  ∃ b' cl', try_fold (remove_edge (E := E)) L (b, cl) = Ok (b', cl') ∧ bproper b' ∧
    (∀ k c, bedge b' k c ↔ bedge b k c ∧ ¬ ∃ e, (c, e) ∈ L ∧ edge_key e = k) ∧
    (∀ c, c ∈ cl' ↔ c ∈ cl ∨ (∃ e, (c, e) ∈ L) ∧ ¬ ∃ k, bedge b' k c).
Proof.
  revert b cl. induction L as [|[c e] L IH]; intros b cl Hnd HL Hb; cbn [try_fold].
  { exists b, cl. split_and!; [done|done|..]; intros; setoid_rewrite elem_of_nil; naive_solver. }
  cbn in Hnd. apply NoDup_cons in Hnd as [Hnot Hnd].
  destruct (remove_edge_step b cl c e) as (b1 & cl1 & -> & Hb1 & E1 & C1); [by apply HL; left|done|]. cbn [mbind result_bind].
  destruct (IH b1 cl1 Hnd) as (b2 & cl2 & Hok & Hb2 & E2 & C2); [|done|].
  { intros c' e' Hin. apply E1. split; [by apply HL; right|]. intros [-> Hk]. apply Hnot, list_elem_of_fmap. exists (c, e'). cbn. split; [congruence|done]. }
  exists b2, cl2. split_and!; [done|done|..].
  - intros k c'. rewrite E2, E1. setoid_rewrite elem_of_cons. naive_solver.
  - intros c'. rewrite C2, C1. setoid_rewrite elem_of_cons.
    assert ((∃ k, bedge b2 k c) → ∃ k, bedge b1 k c) as Hsub by (intros [k [Hk _]%E2]; eauto).
    assert (¬ (∃ k, bedge b1 k c) → ¬ ∃ e, (c, e) ∈ L) as Hnone.
    { intros Hn [e' He']. apply Hn. exists (edge_key e'). apply E1. split; [by apply HL; right|].
      intros [_ Hk]. apply Hnot, list_elem_of_fmap. exists (c, e'). cbn. split; [congruence|done]. }
    split.
    + intros [[?|[-> Hn]]|[[e' He'] Hn]]; [by left|right|right].
      * split; [eexists; by left|]. auto.
      * split; [eexists; by right|done].
    + intros [?|[[e' [[= -> ->]|He']] Hn]]; [by left; left| |by right; eauto].
      destruct (decide (Exists (λ x : N * Edge, x.1 = c) L)) as [Hex|Hex].
      * right. apply Exists_exists in Hex as ([c2 e2] & Hin & Heq). cbn in Heq. subst c2. eauto.
      * left. right. split; [done|]. intros [k Hk]. apply Hn. exists k. apply E2. split; [done|].
        intros (e2 & Hin & _). apply Hex, Exists_exists. by exists (c, e2).
Qed.

Lemma flat_map_bind {A B} (f : A → list B) l : flat_map f l = l ≫= f.
Proof. induction l as [|x l IH]; [done|]. cbn. by rewrite IH. Qed.
Lemma elem_of_to_factor path b c e :
  (c, e) ∈ edges_to_factor path b ↔ ∃ s, b !! c = Some s ∧ e ∈ edges_of s ∧ path_leq path (be_path e) = true.
Proof.
  unfold edges_to_factor. rewrite flat_map_bind, list_elem_of_bind. split.
  - intros ([c' s] & Hin & Hs%elem_of_entries). apply list_elem_of_fmap in Hin as (e' & [= -> ->] & He).
    apply list_elem_of_In, filter_In in He as [He%list_elem_of_In Hq]. eauto.
  - intros (s & Hs & He & Hq). exists (c, s). split; [|by apply elem_of_entries]. apply list_elem_of_fmap. exists e.
    split; [done|]. apply list_elem_of_In, filter_In. by rewrite <- list_elem_of_In.
Qed.
Lemma edges_of_inj (s : gmap Key Loc) e e' : e ∈ edges_of s → e' ∈ edges_of s → edge_key e = edge_key e' → e = e'.
Proof.
  intros He%elem_of_edges_of He'%elem_of_edges_of Hk. rewrite Hk, He' in He. injection He as Hl.
  destruct e, e'. unfold edge_key in Hk. cbn in *. congruence.
Qed.
Lemma to_factor_NoDup path b : NoDup ((λ x : N * Edge, (x.1, edge_key x.2)) <$> edges_to_factor path b).
Proof.
  apply NoDup_fmap_2_strong.
  { intros [c e] [c' e'] (s & Hs & He & _)%elem_of_to_factor (s' & Hs' & He' & _)%elem_of_to_factor [= -> Hk1 Hk2].
    assert (s' = s) as -> by congruence. f_equal. apply (edges_of_inj s); [done|done|]. unfold edge_key. congruence. }
  unfold edges_to_factor. rewrite flat_map_bind. apply NoDup_bind.
  - intros [c1 s1] [c2 s2] [c e] H1%elem_of_entries H2%elem_of_entries Hin1 Hin2.
    apply list_elem_of_fmap in Hin1 as (? & [= -> ->] & _), Hin2 as (? & [= -> _] & _). cbn in *. congruence.
  - intros [c s] _. apply NoDup_fmap_2; [intros ? ? [= ->]; done|]. apply NoDup_ListNoDup, List.NoDup_filter, NoDup_ListNoDup.
    unfold edges_of. rewrite merge_sort_Permutation. apply NoDup_fmap_2; [|apply NoDup_map_to_list].
    intros [[b1 q1] l1] [[b2 q2] l2] [=]. by subst.
  - unfold ascending_entries. rewrite merge_sort_Permutation. apply NoDup_map_to_list.
Qed.

Lemma path_leq_spec q q' : path_leq q q' = true ↔ q `prefix_of` q'.
Proof.
  unfold path_leq. rewrite andb_true_iff, N.leb_le. unfold len. split.
  - intros [Hl Hf]. revert q' Hl Hf. induction q as [|x q IH]; intros [|y q'] Hl Hf; cbn in *; [apply prefix_nil|apply prefix_nil|lia|].
    apply andb_true_iff in Hf as [->%bool_decide_eq_true Hf]. apply prefix_cons, IH; [lia|done].
  - intros [s ->]. split; [rewrite length_app; lia|]. induction q as [|x q IH]; [done|]. cbn.
    by rewrite bool_decide_eq_true_2.
Qed.

Lemma forget_parents p l g :
  NoDup l → (∀ c, c ∈ l → back g c p) →
  ∃ g', try_fold (forget_parent (E := E) p) l g = Ok g' ∧
    (∀ i, muts g' i = muts g i) ∧ (∀ p' k c, edge g' p' k c ↔ edge g p' k c) ∧
    (∀ p' c, back g' c p' ↔ back g c p' ∧ ¬ (p' = p ∧ c ∈ l)) ∧ (proper g → proper g').
Proof.
  intros Hnd. revert g. induction Hnd as [|c l Hc Hnd IH]; intros g Hl; cbn [try_fold].
  { exists g. split_and!; [done|done|done| |done]. intros. setoid_rewrite elem_of_nil. naive_solver. }
  destruct (Hl c) as (rc & Hrc & Hp); [by left|].
  set (g1 := <[ c := set_borrows_from rc (borrows_from rc ∖ {[ p ]}) ]> g).
  assert (forget_parent (E := E) p g c = Ok g1) as ->.
  { unfold forget_parent. rewrite Hrc. cbn. by rewrite bool_decide_eq_true_2. }
  cbn [mbind result_bind].
  assert (∀ p' c', back g1 c' p' ↔ back g c' p' ∧ ¬ (p' = p ∧ c' = c)) as B1.
  { intros p' c'. unfold g1. rewrite back_insert. cbn. rewrite elem_of_difference, elem_of_singleton.
    destruct (decide (c' = c)) as [->|]; [|naive_solver].
    assert (back g c p' ↔ p' ∈ borrows_from rc) as -> by (unfold back; rewrite Hrc; naive_solver). naive_solver. }
  destruct (IH g1) as (g' & -> & M2 & E2 & B2 & P2).
  { intros c' Hc'. apply B1. split; [apply Hl; by right|]. by intros [_ ->]. }
  exists g'. split_and!; [done|..].
  - intros i. rewrite M2. unfold g1. rewrite muts_insert. cbn. unfold muts. case_decide; [by subst; rewrite Hrc|done].
  - intros p' k c'. rewrite E2. unfold g1. rewrite edge_insert.
    destruct (decide (p' = c)) as [->|]; [|naive_solver]. unfold edge at 2. rewrite Hrc. unfold ref_edge. naive_solver.
  - intros p' c'. rewrite B2, B1. setoid_rewrite elem_of_cons. naive_solver.
  - intros Hg. apply P2. unfold g1. apply proper_insert; [done|]. exact (Hg _ _ Hrc).
Qed.

(** A new reference borrows from [p] at [path]; what borrowed from there borrows from it. *)
Definition factored g (p : N) (path : Path) (i : N) (p' : N) k (c : N) : Prop :=
  (edge g p' k c ∧ ¬ (p' = p ∧ path `prefix_of` k.2)) ∨
  (p' = i ∧ ∃ q, edge g p (k.1, path ++ q) c ∧ k.2 = q) ∨
  (p' = p ∧ k = (true, path) ∧ c = i).

Lemma factor_ok debug g p loc path i :
  graph_ok g → p ≠ i → is_Some (muts g p) → is_Some (muts g i) →
  (∀ x k, ¬ edge g x k i) → (∀ x k, ¬ edge g i k x) →
  ∃ g', factor (E := E) debug g p loc path i = Ok g' ∧ graph_ok g' ∧ (∀ j, muts g' j = muts g j) ∧
    ∀ p' k c, edge g' p' k c ↔ factored g p path i p' k c.
Proof.
  intros Hg Hpi [r Hr]%muts_Some Hi Hin Hout. unfold factor. rewrite (assert_ok debug g Hg). cbn [mbind result_bind].
  rewrite Hr. cbn [unwrap mbind result_bind].
  assert (∀ k c, edge g p k c ↔ bedge (borrowed_by_ r) k c) as Hp by (intros; unfold edge, ref_edge, bedge; rewrite Hr; naive_solver).
  set (L := edges_to_factor path (borrowed_by_ r)).
  assert (∀ c k, (∃ e, (c, e) ∈ L ∧ edge_key e = k) ↔ edge g p k c ∧ path `prefix_of` k.2) as HL.
  { intros c k. rewrite Hp. unfold L, bedge. setoid_rewrite elem_of_to_factor. setoid_rewrite edges_of_key. setoid_rewrite path_leq_spec. split.
    - intros (e & (s & Hs & He & Hq) & <-). eauto 10.
    - intros ((s & Hs & e & He & <-) & Hq). eauto 10. }
  destruct (remove_edges L (borrowed_by_ r) ∅) as (b' & cl & Hok & Hb' & E1 & C1); [apply to_factor_NoDup| |exact (go_proper _ Hg _ _ Hr)|].
  { intros c e Hin'. apply Hp, (proj1 (HL c (edge_key e))). eauto. }
  rewrite Hok. cbn [mbind result_bind]. set (g1 := <[ p := set_borrowed_by r b' ]> g).
  assert (∀ c k, bedge b' k c ↔ edge g p k c ∧ ¬ path `prefix_of` k.2) as Hb1.
  { intros c k. rewrite E1, HL, <- Hp. naive_solver. }
  assert (∀ p' k c, edge g1 p' k c ↔ edge g p' k c ∧ ¬ (p' = p ∧ path `prefix_of` k.2)) as Eg1.
  { intros p' k c. unfold g1. rewrite edge_insert. change (ref_edge (set_borrowed_by r b') k c) with (bedge b' k c). rewrite Hb1.
    destruct (decide (p' = p)) as [->|]; naive_solver. }
  assert (∀ p' c, back g1 c p' ↔ back g c p') as Bg1.
  { intros p' c. unfold g1. rewrite back_insert. cbn. destruct (decide (c = p)) as [->|]; [|naive_solver].
    assert (back g p p' ↔ p' ∈ borrows_from r) as -> by (unfold back; rewrite Hr; naive_solver). naive_solver. }
  assert (∀ c, c ∈ cl ↔ (∃ k, edge g p k c) ∧ ∀ k, edge g p k c → path `prefix_of` k.2) as Hcl.
  { intros c. rewrite C1. setoid_rewrite Hb1. split.
    - intros [?%not_elem_of_empty|[[e He] Hn]]; [done|]. split; [exists (edge_key e); by apply HL; eauto|].
      intros k Hk. destruct (decide (path `prefix_of` k.2)); [done|]. exfalso. eauto.
    - intros [[k Hk] Hall]. right. split; [|naive_solver]. destruct (proj2 (HL c k)) as (e & He & _); eauto. }
  destruct (forget_parents p (ascending_ids cl) g1) as (g2 & -> & M2 & E2 & B2 & P2).
  { unfold ascending_ids. rewrite merge_sort_Permutation. apply NoDup_elements. }
  { intros c Hc%elem_of_ids%Hcl. apply Bg1, (go_back _ Hg), Hc. }
  cbn [mbind result_bind].
  assert (∀ j, muts g2 j = muts g j) as M2'.
  { intros j. rewrite M2. unfold g1. rewrite muts_insert. cbn. unfold muts. case_decide; [by subst; rewrite Hr|done]. }
  edestruct (fold_adds (E := E) (move_edge i path) (λ x p' k c, p' = i ∧ c = x.1 ∧ k = (be_strong x.2, drop (length path) (be_path x.2))) L g2)
    as (g3 & -> & A3).
  { intros [c e] g' Hin' Hm. assert (edge g p (edge_key e) c ∧ path `prefix_of` be_path e) as [He Hq] by (apply (HL c (edge_key e)); eauto).
    unfold move_edge, path_factor. cbn [snd fst]. rewrite (proj2 (path_leq_spec _ _) Hq). cbn [mbind result_bind].
    destruct (add_edge_effect (E := E) g' i {| be_strong := be_strong e; be_path := drop (length path) (be_path e); be_loc := be_loc e |} c)
      as (g4 & Hok4 & A4).
    - intros <-. by eapply Hin.
    - by rewrite Hm, M2'.
    - rewrite Hm, M2'. by apply (edge_nodes _ _ _ _ Hg He).
    - exists g4. split; [done|]. eapply adds_ext; [|exact A4]. unfold edge_key. cbn. naive_solver. }
  cbn [mbind result_bind].
  destruct (add_edge_effect (E := E) g3 p {| be_strong := true; be_path := path; be_loc := loc |} i Hpi) as (g4 & Hok4 & A4).
  { rewrite (ad_muts _ _ _ A3), M2'. apply muts_Some. eauto. }
  { by rewrite (ad_muts _ _ _ A3), M2'. }
  unfold add_path. rewrite Hok4. cbn [mbind result_bind].
  assert (∀ p' k c, edge g4 p' k c ↔ factored g p path i p' k c) as Hedge.
  { intros p' k c. rewrite (ad_edge _ _ _ A4), (ad_edge _ _ _ A3), E2, Eg1. unfold factored, edge_key. cbn.
    enough ((∃ x : N * Edge, x ∈ L ∧ p' = i ∧ c = x.1 ∧ k = (be_strong x.2, drop (length path) (be_path x.2))) ↔
      p' = i ∧ ∃ q, edge g p (k.1, path ++ q) c ∧ k.2 = q) as -> by tauto. split.
    - intros ([c' e] & Hin' & -> & -> & ->). cbn. split; [done|]. destruct (proj1 (HL c' (edge_key e))) as [He [s Hs]]; [eauto|].
      cbn in Hs. exists s. rewrite Hs. rewrite drop_app_length. split; [|done]. by rewrite <- Hs.
    - intros (-> & q & He & Hq). destruct (proj2 (HL c (k.1, path ++ q))) as (e & He' & Hk); [split; [done|by exists q]|].
      exists (c, e). split_and!; [done|done|done|]. cbn. unfold edge_key in Hk. injection Hk as -> ->.
      rewrite drop_app_length, <- Hq. by destruct k. }
  assert (graph_ok g4) as Hg4.
  { split.
    - apply (ad_proper _ _ _ A4), (ad_proper _ _ _ A3), P2. unfold g1. apply proper_insert; [apply (go_proper _ Hg)|exact Hb'].
    - intros p' c. setoid_rewrite Hedge. rewrite (ad_back _ _ _ A4), (ad_back _ _ _ A3), B2, Bg1, elem_of_ids, Hcl, (go_back _ Hg).
      unfold factored, edge_key. cbn. split.
      + intros [[[[k Hk] Hn]|(k & [c' e] & Hin' & -> & -> & ->)]|(k & -> & -> & ->)].
        * destruct (decide (p' = p)) as [->|Hne]; [|exists k; left; naive_solver].
          destruct (decide (path `prefix_of` k.2)) as [Hq|Hq]; [|exists k; left; naive_solver].
          (* another edge does not start with the path *)
          destruct (decide (c ∈ cl)) as [Hc|Hc]; [exfalso; apply Hn; split; [done|]; by apply Hcl|].
          assert (∃ k', bedge b' k' c) as [k' [Hk' Hq']%Hb1].
          { destruct (proj2 (HL c k)) as (e & He & _); [done|]. destruct (b' !! c) as [s|] eqn:Hs.
            - apply (bedge_any _ _ Hb'). eauto.
            - exfalso. apply Hc, C1. right. split; [eauto|]. intros (k' & s & Hs' & _). congruence. }
          exists k'. left. naive_solver.
        * destruct (proj1 (HL c' (edge_key e))) as [He [s Hs]]; [eauto|]. cbn in Hs |- *.
          exists (be_strong e, s). right. left. split; [done|]. exists s. cbn. split; [by rewrite <- Hs|done].
        * exists (true, path). right. by right.
      + intros [k [[Hk Hn]|[(-> & q & Hk & Hq)|(-> & -> & ->)]]].
        * left. left. split; [eauto|]. intros [-> [_ Hall]]. apply Hn. split; [done|]. by apply Hall.
        * left. right. destruct (proj2 (HL c (k.1, path ++ q))) as (e & He & Hke); [split; [done|by exists q]|].
          exists k, (c, e). split_and!; [done|done|done|]. cbn. unfold edge_key in Hke. injection Hke as -> ->.
          rewrite drop_app_length, <- Hq. by destruct k.
        * right. eauto.
    - intros p' k [[Hk _]|[(-> & q & Hk & _)|(-> & _ & ?)]]%Hedge; [by apply (go_loops _ Hg) in Hk|by apply Hin in Hk|done]. }
  rewrite (assert_ok debug g4 Hg4). cbn [mbind result_bind]. exists g4. split_and!; [done|done| |done].
  intros j. by rewrite (ad_muts _ _ _ A4), (ad_muts _ _ _ A3), M2'.
Qed.

Lemma reach_trans g p q1 x q2 c : reach g p q1 x → reach g x q2 c → reach g p (q1 ++ q2) c.
Proof.
  intros H1 H2. induction H1 as [p k x q He Hq|p k y q1 q1' x He Hq _ IH]; [by eapply reach_more|].
  rewrite <- app_assoc. eapply reach_more; [done|done|by apply IH].
Qed.
Lemma factored_extent (b0 : bool) path q q' : extent (b0, path ++ q) q' → ∃ q'', q' = path ++ q'' ∧ extent (b0, q) q''.
Proof.
  unfold extent. destruct b0; cbn; [intros ->; eauto|]. intros [s ->]. exists (q ++ s). rewrite app_assoc.
  split; [done|by exists s].
Qed.
Lemma factored_extent' (b0 : bool) path q q' : extent (b0, q) q' → extent (b0, path ++ q) (path ++ q').
Proof. unfold extent. destruct b0; cbn; [by intros ->|]. intros [s ->]. exists s. by rewrite app_assoc. Qed.

Lemma factor_reach g g' p path i :
  p ≠ i → (∀ x k, ¬ edge g x k i) → (∀ x k, ¬ edge g i k x) →
  (∀ p' k c, edge g' p' k c ↔ factored g p path i p' k c) →
  reach g' p path i ∧ ∀ p' q c, p' ≠ i → c ≠ i → reach g' p' q c ↔ reach g p' q c.
Proof.
  intros Hpi Hin Hout Hedge. assert (reach g' p path i) as Hnew.
  { apply (reach_one _ _ (true, path)); [|done]. apply Hedge. by right; right. }
  split; [done|]. intros p' q c Hp' Hc. split; intros Hr.
  - enough ((p' ≠ i → reach g p' q c) ∧ (p' = i → reach g p (path ++ q) c)) as [Hn _] by auto.
    clear Hp'. induction Hr as [p' k c q He Hq|p' k y q1 q2 c He Hq Hr IH].
    + apply Hedge in He as [[He _]|[(-> & q' & He & <-)|(-> & -> & ->)]]; [| |done].
      * split; [intros _; by eapply reach_one|intros ->; by apply Hout in He].
      * split; [done|]. intros _. eapply reach_one; [done|]. apply factored_extent'. by destruct k.
    + destruct (IH Hc) as [IH1 IH2]. apply Hedge in He as [[He _]|[(-> & q' & He & <-)|(-> & -> & ->)]].
      * assert (y ≠ i) as Hy by (intros ->; by apply Hin in He).
        split; [intros _; eapply reach_more; [done|done|by apply IH1]|intros ->; by apply Hout in He].
      * assert (y ≠ i) as Hy by (intros ->; by apply Hin in He). split; [done|]. intros _. rewrite app_assoc.
        eapply reach_more; [done| |by apply IH1]. apply factored_extent'. by destruct k.
      * cbn in Hq. subst q1. split; [intros _; by apply IH2|done].
  - clear Hp' Hc. induction Hr as [p' k c q He Hq|p' k y q1 q2 c He Hq Hr IH].
    + destruct (decide (p' = p ∧ path `prefix_of` k.2)) as [[-> [s Hs]]|Hn].
      * destruct k as [b0 q0]. cbn in Hs. subst q0. destruct (factored_extent _ _ _ _ Hq) as (q'' & -> & Hq'').
        eapply reach_trans; [done|]. apply (reach_one _ _ (b0, s)); [|done]. apply Hedge. right. left. eauto.
      * eapply reach_one; [|done]. apply Hedge. by left.
    + eapply reach_trans; [|done]. destruct (decide (p' = p ∧ path `prefix_of` k.2)) as [[-> [s Hs]]|Hn].
      * destruct k as [b0 q0]. cbn in Hs. subst q0. destruct (factored_extent _ _ _ _ Hq) as (q'' & -> & Hq'').
        eapply reach_trans; [done|]. apply (reach_one _ _ (b0, s)); [|done]. apply Hedge. right. left. eauto.
      * eapply reach_one; [|done]. apply Hedge. by left.
Qed.

(** ** Join *)

(** An edge covers another one. *)
Definition key_leq (k' k : Key) : Prop := k' = k ∨ k'.1 = false ∧ k'.2 `prefix_of` k.2.
Definition covered g p k c : Prop := ∃ k', edge g p k' c ∧ key_leq k' k.

Lemma edge_leq_spec e f : edge_leq e f = true ↔ key_leq (edge_key e) (edge_key f).
Proof.
  unfold edge_leq, key_leq. rewrite orb_true_iff, andb_true_iff, negb_true_iff, path_leq_spec, bool_decide_eq_true. done.
Qed.
Lemma key_leq_extent k' k q : key_leq k' k → extent k q → extent k' q.
Proof.
  intros [->|[Hb Hq]]; [done|]. unfold extent. rewrite Hb. destruct k as [[|] q0]; cbn in *; [by intros ->|].
  intros Hq'. by etrans.
Qed.
Lemma covered_reach g1 g2 : (∀ p k c, edge g2 p k c → covered g1 p k c) → ∀ p q c, reach g2 p q c → reach g1 p q c.
Proof.
  intros Hcov p q c. induction 1 as [p k c q He Hq|p k y q1 q2 c He Hq _ IH];
    apply Hcov in He as (k' & He & Hk); pose proof (key_leq_extent _ _ _ Hk Hq); by econstructor.
Qed.

Lemma fold_append {X Y} (f : list Y → X → result E (list Y)) (P : X → Y → Prop) (l : list X) :
  (∀ x, x ∈ l → ∃ ys, (∀ acc, f acc x = Ok (acc ++ ys)) ∧ ∀ y, y ∈ ys ↔ P x y) →
  ∃ ys, (∀ acc, try_fold f l acc = Ok (acc ++ ys)) ∧ ∀ y, y ∈ ys ↔ ∃ x, x ∈ l ∧ P x y.
Proof.
  induction l as [|x l IH]; intros Hf.
  - exists []. split; [intros acc; by rewrite app_nil_r|]. intros y. setoid_rewrite elem_of_nil. naive_solver.
  - destruct (Hf x) as (ys1 & H1 & P1); [by left|]. destruct IH as (ys2 & H2 & P2); [intros y Hy; apply Hf; by right|].
    exists (ys1 ++ ys2). split.
    + intros acc. cbn [try_fold]. rewrite H1. cbn [mbind result_bind]. by rewrite H2, app_assoc.
    + intros y. rewrite elem_of_app, P1, P2. setoid_rewrite elem_of_cons. naive_solver.
Qed.

Definition has_edge g p e c : Prop :=
  ∃ r s, g !! p = Some r ∧ borrowed_by_ r !! c = Some s ∧ s !! edge_key e = Some (be_loc e).
Lemma has_edge_key g p k c : edge g p k c ↔ ∃ e, has_edge g p e c ∧ edge_key e = k.
Proof.
  unfold edge, ref_edge, has_edge. setoid_rewrite edges_of_key. setoid_rewrite elem_of_edges_of. naive_solver.
Qed.
#[export] Instance covered_dec g p k c : Decision (covered g p k c).
Proof.
  destruct (g !! p) as [r|] eqn:Hr; [|right; by intros (k' & (r & Hr' & _) & _); congruence].
  destruct (borrowed_by_ r !! c) as [s|] eqn:Hs; [|right; intros (k' & (r' & Hr' & s & Hs' & _) & _); congruence].
  destruct (existsb (λ e', edge_leq e' {| be_strong := k.1; be_path := k.2; be_loc := be_loc e' |}) (edges_of s)) eqn:Hx.
  - left. apply existsb_exists in Hx as (e & He%list_elem_of_In & Hk%edge_leq_spec). exists (edge_key e). split.
    + apply has_edge_key. exists e. split; [|done]. exists r, s. by apply elem_of_edges_of in He.
    + by destruct k.
  - right. intros (k' & Hk' & Hle). apply has_edge_key in Hk' as (e & (r' & s' & Hr' & Hs' & He) & <-).
    apply not_true_iff_false in Hx. apply Hx, existsb_exists. exists e. assert (s' = s) as -> by congruence.
    split; [by apply list_elem_of_In, elem_of_edges_of|]. apply edge_leq_spec. by destruct k.
Defined.

Lemma unmatched_edge_spec g1 p r1 c s :
  g1 !! p = Some r1 → p ≠ c →
  ∃ L, (∀ acc, try_fold (unmatched_edge (E := E) p (borrowed_by_ r1) c) (edges_of s) acc = Ok (acc ++ L)) ∧
    ∀ x, x ∈ L ↔ ∃ e, e ∈ edges_of s ∧ x = (p, e, c) ∧ ¬ covered g1 p (edge_key e) c.
Proof.
  intros Hr1 Hpc. apply fold_append. intros e _.
  assert (match borrowed_by_ r1 !! c with
          | Some s1 => existsb (λ e', edge_leq e' e) (edges_of s1) | None => false end = true ↔ covered g1 p (edge_key e) c) as Hm.
  { unfold covered. setoid_rewrite has_edge_key. unfold has_edge. destruct (borrowed_by_ r1 !! c) as [s1|] eqn:Hs1.
    - rewrite existsb_exists. setoid_rewrite <- list_elem_of_In. setoid_rewrite elem_of_edges_of. setoid_rewrite edge_leq_spec.
      split; [naive_solver|]. intros (k' & (e' & (r & s' & Hr & Hs' & He') & <-) & Hle). exists e'. split; [|done]. congruence.
    - split; [done|]. intros (k' & (e' & (r & s' & Hr & Hs' & He') & <-) & Hle). congruence. }
  unfold unmatched_edge. destruct (match borrowed_by_ r1 !! c with Some _ => _ | None => _ end).
  - exists []. split; [intros acc; by rewrite app_nil_r|]. intros x. rewrite elem_of_nil. split; [done|]. intros [_ Hn]. by apply Hn, Hm.
  - apply N.eqb_neq in Hpc as ->. exists [(p, e, c)]. split; [done|]. intros x. rewrite list_elem_of_singleton.
    split; [|by intros [-> _]]. intros ->. split; [done|]. intros Hc. by apply Hm in Hc.
Qed.

Lemma unmatched_spec g1 g2 :
  graph_ok g2 → (∀ i, is_Some (muts g2 i) → is_Some (muts g1 i)) →
  ∃ L, unmatched_edges (E := E) g1 g2 = Ok L ∧
    ∀ x, x ∈ L ↔ has_edge g2 x.1.1 x.1.2 x.2 ∧ ¬ covered g1 x.1.1 (edge_key x.1.2) x.2.
Proof.
  intros Hg Hsub. unfold unmatched_edges.
  destruct (fold_append (unmatched_parent (E := E) g1) (λ (en : N * Ref) (x : N * Edge * N), x.1.1 = en.1 ∧
    (∃ s, borrowed_by_ en.2 !! x.2 = Some s ∧ x.1.2 ∈ edges_of s) ∧ ¬ covered g1 x.1.1 (edge_key x.1.2) x.2)
    (ascending_entries g2)) as (L & HL & PL).
  - intros [p r2] Hr2%elem_of_entries. cbn [fst snd].
    destruct (proj1 (muts_Some g1 p)) as [r1 Hr1]; [apply Hsub, muts_Some; eauto|].
    destruct (fold_append (unmatched_child (E := E) p (borrowed_by_ r1))
      (λ (en : N * gmap Key Loc) (x : N * Edge * N), ∃ e, e ∈ edges_of en.2 ∧ x = (p, e, en.1) ∧ ¬ covered g1 p (edge_key e) en.1)
      (ascending_entries (borrowed_by_ r2))) as (L & HL & PL).
    + intros [c s] Hs%elem_of_entries. apply (unmatched_edge_spec g1 p r1 c s); [done|]. intros <-.
      assert (∃ k, edge g2 p k p) as [k Hk] by (apply (proper_key _ _ _ _ (go_proper _ Hg) Hr2); eauto). by apply (go_loops _ Hg) in Hk.
    + exists L. split.
      * intros acc. unfold unmatched_parent. cbn [fst snd]. rewrite Hr1. cbn [unwrap mbind result_bind]. apply HL.
      * intros [[p' e'] c']. rewrite PL. cbn. split.
        -- intros ([c s] & Hs%elem_of_entries & e & He & [= -> -> ->] & Hn). cbn in *. eauto 10.
        -- intros (-> & (s & Hs & He) & Hn). exists (c', s). rewrite elem_of_entries. cbn. eauto 10.
  - exists L. split; [apply (HL [])|]. intros [[p e] c]. rewrite PL. cbn. unfold has_edge. setoid_rewrite elem_of_edges_of. split.
    + intros ([p' r2] & Hr2%elem_of_entries & -> & (s & Hs & He) & Hn). cbn in *. split; [by exists r2, s|done].
    + intros [(r2 & s & Hr2 & Hs & He) Hn]. exists (p, r2). rewrite elem_of_entries. cbn. eauto 10.
Qed.

Lemma leq_ok g1 g2 :
  graph_ok g2 → (∀ i, is_Some (muts g2 i) → is_Some (muts g1 i)) →
  ∃ ok, graph_leq (E := E) g1 g2 = Ok ok ∧ (ok = true ↔ ∀ p k c, edge g2 p k c → covered g1 p k c).
Proof.
  intros Hg Hsub. destruct (unmatched_spec g1 g2 Hg Hsub) as (L & Hok & HL). unfold graph_leq. rewrite Hok. cbn [mbind result_bind].
  eexists. split; [done|]. destruct L as [|[[p e] c] L].
  - split; [|done]. intros _ p k c Hk. destruct (decide (covered g1 p k c)) as [|Hn]; [done|].
    apply has_edge_key in Hk as (e & He & <-). by destruct (not_elem_of_nil (p, e, c) (proj2 (HL (p, e, c)) (conj He Hn))).
  - split; [done|]. intros Hall. destruct (proj1 (HL (p, e, c))) as [He Hn]; [by left|]. exfalso. apply Hn, Hall, has_edge_key. eauto.
Qed.

Lemma join_ok debug g1 g2 :
  graph_ok g1 → graph_ok g2 → (∀ i, is_Some (muts g2 i) ↔ is_Some (muts g1 i)) →
  ∃ g', graph_join (E := E) debug g1 g2 = Ok g' ∧ graph_ok g' ∧ (∀ i, muts g' i = muts g1 i) ∧
    ∀ p k c, edge g' p k c ↔ edge g1 p k c ∨ edge g2 p k c ∧ ¬ covered g1 p k c.
Proof.
  intros Hg1 Hg2 Hdom. unfold graph_join. rewrite (assert_ok debug g1 Hg1), (assert_ok debug g2 Hg2). cbn [mbind result_bind].
  assert (dom g1 = dom g2) as ->.
  { apply set_eq. intros i. rewrite !elem_of_dom. specialize (Hdom i). unfold muts in Hdom. rewrite !fmap_is_Some in Hdom. tauto. }
  rewrite !bool_decide_eq_true_2 by done.
  assert (debug_assert (E := E) debug true = Ok tt) as -> by (unfold debug_assert; by rewrite andb_false_r). cbn [mbind result_bind].
  destruct (unmatched_spec g1 g2 Hg2) as (L & -> & HL); [apply Hdom|]. cbn [mbind result_bind].
  destruct (fold_adds (E := E) (λ joined (x : N * Edge * N), add_edge joined x.1.1 x.1.2 x.2)
    (λ x p k c, p = x.1.1 ∧ k = edge_key x.1.2 ∧ c = x.2) L g1) as (g' & -> & A).
  { intros [[p e] c] g3 Hin Hm. cbn. destruct (proj1 (HL (p, e, c)) Hin) as [He _]. cbn in He.
    assert (edge g2 p (edge_key e) c) as Hk by (apply has_edge_key; eauto).
    apply (add_edge_effect g3 p e c).
    - intros ->. by apply (go_loops _ Hg2) in Hk.
    - rewrite Hm. by apply Hdom, (edge_nodes _ _ _ _ Hg2 Hk).
    - rewrite Hm. by apply Hdom, (edge_nodes _ _ _ _ Hg2 Hk). }
  cbn [mbind result_bind].
  assert (∀ p k c, edge g' p k c ↔ edge g1 p k c ∨ edge g2 p k c ∧ ¬ covered g1 p k c) as Hedge.
  { intros p k c. rewrite (ad_edge _ _ _ A), (has_edge_key g2). f_equiv. setoid_rewrite HL. split.
    - intros ([[p' e] c'] & [He Hn] & -> & -> & ->). eauto 10.
    - intros [(e & He & <-) Hn]. by exists (p, e, c). }
  assert (graph_ok g') as Hg'.
  { split.
    - apply (ad_proper _ _ _ A), (go_proper _ Hg1).
    - intros p c. rewrite (ad_back _ _ _ A), (go_back _ Hg1). setoid_rewrite (ad_edge _ _ _ A). naive_solver.
    - intros p k [Hk|[Hk _]]%Hedge; [by apply (go_loops _ Hg1) in Hk|by apply (go_loops _ Hg2) in Hk]. }
  rewrite (assert_ok debug g' Hg'). cbn [mbind result_bind]. exists g'. split_and!; [done|done|apply A|done].
Qed.
End Spec.

(** ** The operations *)

Section Operations.
Context {E Loc Lbl : Type} `{Countable Lbl} `{!LabelOrder Lbl}.
Notation Graph := (gmap N (Ref (Loc := Loc) (Lbl := Lbl))).
Implicit Types (g : Graph) (p c id : N) (path q : list Lbl).

(** C17. Releasing a reference of a well-formed borrow graph, when nothing borrows from
    the reference that it borrows from itself, does not fail and gives a well-formed graph
    with every other reference and its mutability, in which whatever could be reached
    between the others still is. *)
Theorem release_keeps_borrows debug g id r :
  graph_ok g → g !! id = Some r → dom (borrowed_by_ r) ## borrows_from r →
  ∃ g', graph_release (E := E) debug g id = Ok g' ∧ graph_ok g' ∧
    (∀ i, muts g' i = if decide (i = id) then None else muts g i) ∧
    ∀ p q c, p ≠ id → c ≠ id → reach g p q c → reach g' p q c.
Proof.
  intros Hg Hr Hd. destruct (release_ok (E := E) debug g id Hg) as (g' & Hok & Hg' & Hm & He); [apply muts_Some; eauto|].
  exists g'. split_and!; [done..|]. intros p q c Hp Hc Hreach. eapply (release_reach g); [done..| |done|done|done].
  intros x k1 k2 H1 (r' & Hr' & s & Hs & _). assert (r' = r) as -> by congruence.
  apply (Hd x); [apply elem_of_dom; eauto|]. assert (back g id x) as (r' & ? & ?) by (apply (go_back _ Hg); eauto). congruence.
Qed.

(** A strong borrow of a path by a new reference does not fail on a well-formed graph
    and gives a well-formed graph: the new reference borrows from the old one at the path,
    and what can be reached between the others is exactly what it was. *)
Theorem factor_keeps_borrows debug g p loc path id mutable :
  graph_ok g → is_Some (g !! p) → g !! id = None →
  ∃ g1 g', graph_new_ref (E := E) g id mutable = Ok g1 ∧ factor (E := E) debug g1 p loc path id = Ok g' ∧ graph_ok g' ∧
    (∀ i, muts g' i = if decide (i = id) then Some mutable else muts g i) ∧ reach g' p path id ∧
    ∀ p' q c, p' ≠ id → c ≠ id → reach g' p' q c ↔ reach g p' q c.
Proof.
  intros Hg [r Hr] Hid. unfold graph_new_ref. rewrite bool_decide_eq_false_2 by (rewrite Hid; by intros [? [=]]).
  set (g1 := <[ id := Ref_new mutable ]> g).
  assert (∀ p' k c, edge g1 p' k c ↔ edge g p' k c) as E1.
  { intros p' k c. unfold g1, edge. split.
    - intros (r' & [[-> <-]|[_ ?]]%lookup_insert_Some & Hk); [|eauto]. destruct Hk as (s & Hs & _). cbn in Hs.
      by rewrite lookup_empty in Hs.
    - intros (r' & Hr' & Hk). exists r'. rewrite lookup_insert_ne; [done|congruence]. }
  assert (∀ x k, ¬ edge g1 x k id) as Hin.
  { intros x k [_ Hk]%E1%(edge_nodes _ _ _ _ Hg). unfold muts in Hk. rewrite Hid in Hk. by destruct Hk. }
  assert (∀ x k, ¬ edge g1 id k x) as Hout.
  { intros x k [Hk _]%E1%(edge_nodes _ _ _ _ Hg). unfold muts in Hk. rewrite Hid in Hk. by destruct Hk. }
  assert (p ≠ id) as Hpi by congruence.
  assert (∀ i, muts g1 i = if decide (i = id) then Some mutable else muts g i) as M1 by (intros; unfold g1; by rewrite muts_insert).
  assert (graph_ok g1) as Hg1.
  { split.
    - unfold g1. apply proper_insert; [apply (go_proper _ Hg)|]. intros c s. cbn. by rewrite lookup_empty.
    - intros p' c. setoid_rewrite E1. rewrite <- (go_back _ Hg). unfold g1. rewrite back_insert. cbn.
      rewrite elem_of_empty. destruct (decide (c = id)) as [->|]; [|naive_solver]. unfold back. rewrite Hid. naive_solver.
    - intros p' k Hk%E1. by apply (go_loops _ Hg) in Hk. }
  destruct (factor_ok (E := E) debug g1 p loc path id) as (g' & Hok & Hg' & Hm & Hedge);
    [done|done| |rewrite M1; by rewrite decide_True|done|done|].
  { rewrite M1, decide_False by done. apply muts_Some. eauto. }
  destruct (factor_reach g1 g' p path id Hpi Hin Hout Hedge) as [Hnew Hold].
  exists g1, g'. split_and!; [done|done|done|intros i; by rewrite Hm, M1|done|]. intros p' q c Hp' Hc. rewrite Hold by done.
  split.
  - clear Hp' Hc. induction 1 as [a k d q0 He%E1 Hq|a k y q1 q2 d He%E1 Hq _ IH]; [by eapply reach_one|by eapply reach_more].
  - clear Hp' Hc. induction 1 as [a k d q0 He Hq|a k y q1 q2 d He Hq _ IH]; apply E1 in He; [by eapply reach_one|by eapply reach_more].
Qed.

(** The join of two well-formed borrow graphs with the same references does not fail,
    is well formed and reaches whatever one of them reaches, with edges of theirs only;
    when leq says that a graph covers the join, both reach the same. *)
Theorem join_covers debug g1 g2 :
  graph_ok g1 → graph_ok g2 → dom g1 = dom g2 →
  ∃ g', graph_join (E := E) debug g1 g2 = Ok g' ∧ graph_ok g' ∧ (∀ i, muts g' i = muts g1 i) ∧
    (∀ p k c, edge g' p k c → edge g1 p k c ∨ edge g2 p k c) ∧
    (∀ p q c, reach g1 p q c ∨ reach g2 p q c → reach g' p q c) ∧
    ∃ unchanged, graph_leq (E := E) g1 g' = Ok unchanged ∧
      (unchanged = true → ∀ p q c, reach g1 p q c ↔ reach g' p q c).
Proof.
  intros Hg1 Hg2 Hdom.
  assert (∀ i, is_Some (muts g2 i) ↔ is_Some (muts g1 i)) as Hd.
  { intros i. unfold muts. rewrite !fmap_is_Some, <- !elem_of_dom. by rewrite Hdom. }
  destruct (join_ok (E := E) debug g1 g2 Hg1 Hg2 Hd) as (g' & Hok & Hg' & Hm & He).
  destruct (leq_ok (E := E) g1 g' Hg') as (u & Hu & Hleq); [intros i; by rewrite Hm|].
  assert (∀ p q c, reach g1 p q c → reach g' p q c) as H1.
  { apply covered_reach. intros p k c Hk. exists k. split; [apply He; by left|by left]. }
  exists g'. split_and!; [done|done|done|..].
  - intros p k c [?|[? _]]%He; auto.
  - intros p q c [Hr|Hr]; [by apply H1|]. revert Hr. apply covered_reach. intros p' k c' Hk.
    destruct (decide (covered g1 p' k c')) as [(k' & Hk' & Hle)|Hn]; [exists k'; split; [apply He; by left|done]|].
    exists k. split; [apply He; by right|by left].
  - exists u. split; [done|]. intros Hu1 p q c. split; [apply H1|]. apply covered_reach. by apply Hleq.
Qed.
End Operations.

(** ** Concrete graphs *)

#[local] Instance N_order : LabelOrder N := { compare_label := N.compare }.
Notation sample_graph := (gmap N (Ref (Loc := unit) (Lbl := N))).

Definition proper_bool (g : sample_graph) : bool :=
  forallb (λ p, forallb (λ e : N * gmap (bool * list N) unit, negb (bool_decide (map_to_list e.2 = [])))
    (map_to_list (borrowed_by_ p.2))) (map_to_list g).
Lemma sample_ok (g : sample_graph) : proper_bool g = true → check_invariant g = true → graph_ok g.
Proof.
  intros Hp Hc. apply check_invariant_ok. split; [|done]. intros p r Hr c s Hs ->.
  unfold proper_bool in Hp. rewrite forallb_elem in Hp. specialize (Hp (p, r)). cbn in Hp.
  rewrite forallb_elem in Hp. specialize (Hp (proj2 (elem_of_map_to_list g p r) Hr) (c, ∅)). cbn in Hp.
  rewrite map_to_list_empty in Hp. specialize (Hp (proj2 (elem_of_map_to_list _ c _) Hs)). by rewrite bool_decide_eq_true_2 in Hp.
Qed.

(** [1] borrows from [0] at the field [7], and [2] weakly from [1]. *)
Definition sample : sample_graph :=
  {[ 0 := {| borrowed_by_ := {[ 1 := {[ (true, [7]) := tt ]} ]}; borrows_from := ∅; ref_mutable := true |};
     1 := {| borrowed_by_ := {[ 2 := {[ (false, []) := tt ]} ]}; borrows_from := {[ 0 ]}; ref_mutable := true |};
     2 := {| borrowed_by_ := ∅; borrows_from := {[ 1 ]}; ref_mutable := false |} ]}.
Definition sample' : sample_graph :=
  {[ 0 := {| borrowed_by_ := {[ 2 := {[ (true, [8]) := tt ]} ]}; borrows_from := ∅; ref_mutable := true |};
     1 := {| borrowed_by_ := ∅; borrows_from := ∅; ref_mutable := true |};
     2 := {| borrowed_by_ := ∅; borrows_from := {[ 0 ]}; ref_mutable := false |} ]}.

Lemma release_keeps_borrows_witness :
  ∃ g' : sample_graph, graph_release (E := unit) true sample 1 = Ok g' ∧ graph_ok g' ∧ muts g' 1 = None.
Proof.
  destruct (release_keeps_borrows (E := unit) true sample 1
    {| borrowed_by_ := {[ 2 := {[ (false, []) := tt ]} ]}; borrows_from := {[ 0 ]}; ref_mutable := true |})
    as (g' & Hok & Hg & Hm & _); [by apply sample_ok|reflexivity|by apply (bool_decide_unpack _); vm_compute|].
  exists g'. split_and!; [done|done|apply Hm].
Defined.
Lemma factor_keeps_borrows_witness :
  ∃ g1 g' : sample_graph, graph_new_ref (E := unit) sample 3 true = Ok g1 ∧ factor (E := unit) true g1 0 tt [] 3 = Ok g' ∧
    reach g' 0 [] 3.
Proof.
  destruct (factor_keeps_borrows (E := unit) true sample 0 tt [] 3 true) as (g1 & g' & H1 & H2 & _ & _ & H3 & _);
    [by apply sample_ok|by eexists|reflexivity|]. eauto.
Defined.
Lemma join_covers_witness :
  ∃ g' : sample_graph, graph_join (E := unit) true sample sample' = Ok g' ∧ reach g' 0 [7] 1 ∧ reach g' 0 [8] 2.
Proof.
  destruct (join_covers (E := unit) true sample sample') as (g' & Hok & _ & _ & _ & Hr & _);
    [by apply sample_ok|by apply sample_ok|by apply (bool_decide_unpack _); vm_compute|].
  exists g'. split_and!; [done|apply Hr; left|apply Hr; right].
  - apply (reach_one _ _ (true, [7])); [|done]. eexists. split; [reflexivity|]. eexists. split; [reflexivity|by eexists].
  - apply (reach_one _ _ (true, [8])); [|done]. eexists. split; [reflexivity|]. eexists. split; [reflexivity|by eexists].
Defined.
