(* ===== verification/ReferenceSafety.v ===== *)
(** * ReferenceSafety: no reference dangles and no borrowed value changes

    Models [language/bytecode-verifier/src/reference_safety]: the abstract state with its
    borrow graph, the transfer functions on the analysis' stack of values, and the pass,
    run by the interpreter of [AbsInt].  [debug] tells whether the build has debug
    assertions, and the fuel bounds the blocks that are processed. *)

From stdpp Require Import sorting.
From S2P Require Import Prelude CoreTypes VmStatus Abilities FileFormat Errors Views BoundsChecker ControlFlowGraph StackUsage AbsInt SignatureChecker BorrowGraph.

Import SignatureToken Bytecode.

(** ** [abstract_state.rs] *)

(** [enum AbstractValue] and [enum Label], with the derived order *)
Inductive AbstractValue : Set := AReference (id : RefID) | NonReference.
#[export] Instance AbstractValue_eq_dec : EqDecision AbstractValue.
Proof. solve_decision. Defined.
Definition is_value (self : AbstractValue) : bool :=
  match self with AReference _ => false | NonReference => true end.
Definition ref_id (self : AbstractValue) : option RefID :=
  match self with AReference id => Some id | NonReference => None end.

#[export] Instance FunctionHandle_eq_dec : EqDecision FunctionHandle.
Proof. solve_decision. Defined.

Inductive Label : Set :=
| LLocal (i : LocalIndex)
| LGlobal (i : StructDefinitionIndex)
| LField (i : FieldHandleIndex).
#[export] Instance Label_eq_dec : EqDecision Label.
Proof. solve_decision. Defined.
#[export] Instance Label_countable : Countable Label.
Proof.
  apply (inj_countable' (λ l, match l with LLocal i => (0, i) | LGlobal i => (1, i) | LField i => (2, i) end : N * N)
    (λ p, if p.1 =? 0 then LLocal p.2 else if p.1 =? 1 then LGlobal p.2 else LField p.2)). by intros [].
Defined.
#[export] Instance Label_order : LabelOrder Label := {
  compare_label x y :=
    match x, y with
    | LLocal i, LLocal j | LGlobal i, LGlobal j | LField i, LField j => i ?= j
    | LLocal _, _ | LGlobal _, LField _ => Datatypes.Lt
    | _, _ => Datatypes.Gt
    end }.

Notation Graph := (gmap RefID (Ref (Loc := unit) (Lbl := Label))).

(** [struct AbstractState] *)
Record AbstractState : Type := {
  rs_current_function : option FunctionDefinitionIndex;
  rs_locals : gmap LocalIndex AbstractValue;
  rs_borrow_graph : Graph;
  rs_num_locals : N;
  rs_next_id : N }.

Definition set_locals (self : AbstractState) (locals : gmap LocalIndex AbstractValue) : AbstractState :=
  {| rs_current_function := rs_current_function self; rs_locals := locals; rs_borrow_graph := rs_borrow_graph self;
     rs_num_locals := rs_num_locals self; rs_next_id := rs_next_id self |}.
Definition set_graph (self : AbstractState) (graph : Graph) : AbstractState :=
  {| rs_current_function := rs_current_function self; rs_locals := rs_locals self; rs_borrow_graph := graph;
     rs_num_locals := rs_num_locals self; rs_next_id := rs_next_id self |}.
Definition frame_root (self : AbstractState) : RefID := rs_num_locals self.
Definition is_canonical (self : AbstractState) : bool :=
  (rs_num_locals self + 1 =? rs_next_id self) &&
  forallb (λ p : LocalIndex * AbstractValue, match ref_id p.2 with Some id => p.1 =? id | None => true end)
    (map_to_list (rs_locals self)).
Definition error (self : AbstractState) (status : StatusCode) (offset : CodeOffset) : PartialVMError :=
  at_code_offset (PartialVMError_new status) (default 0 (rs_current_function self)) offset.

(** [assert!(c)], which [checked_verify!] and [checked_precondition!] are *)
Definition assert_ {E} (c : bool) : result E unit := if c then Ok tt else Panic.

Section State.
Context {E : Type} (debug : bool).

(** The parameters of [AbstractState::new] *)
Definition add_parameter (state : AbstractState) (p : N * SignatureToken) : result E AbstractState :=
  let '(param_idx, param_ty) := p in
  if is_reference param_ty then
    graph ← graph_new_ref (rs_borrow_graph state) param_idx (is_mutable_reference param_ty);
    Ok (set_locals (set_graph state graph) (<[ wrap 8 param_idx := AReference param_idx ]> (rs_locals state)))
  else Ok (set_locals state (<[ wrap 8 param_idx := NonReference ]> (rs_locals state))).
Definition AbstractState_new (function_view : FunctionView) : result E AbstractState :=
  let num_locals := len (fv_parameters function_view) + len (fv_locals function_view) in
  let state := {| rs_current_function := fv_index function_view; rs_locals := ∅; rs_borrow_graph := ∅;
                  rs_num_locals := num_locals; rs_next_id := num_locals + 1 |} in
  state ← try_fold add_parameter (enumerate (fv_parameters function_view)) state;
  graph ← graph_new_ref (rs_borrow_graph state) (frame_root state) true;
  let state := set_graph state graph in
  _ ← assert_ (is_canonical state);
  Ok state.

(** *** References *)

Definition new_ref (self : AbstractState) (mut_ : bool) : result E (RefID * AbstractState) :=
  let id := rs_next_id self in
  graph ← graph_new_ref (rs_borrow_graph self) id mut_;
  Ok (id, {| rs_current_function := rs_current_function self; rs_locals := rs_locals self; rs_borrow_graph := graph;
             rs_num_locals := rs_num_locals self; rs_next_id := id + 1 |}).
Definition value_for (self : AbstractState) (s : SignatureToken) : result E (AbstractValue * AbstractState) :=
  match s with
  | Reference _ => '(id, self) ← new_ref self false; Ok (AReference id, self)
  | MutableReference _ => '(id, self) ← new_ref self true; Ok (AReference id, self)
  | _ => Ok (NonReference, self)
  end.
Definition with_graph (self : AbstractState) (graph : result E Graph) : result E AbstractState :=
  graph ← graph; Ok (set_graph self graph).
Definition add_copy (self : AbstractState) (parent child : RefID) : result E AbstractState :=
  with_graph self (add_strong_borrow debug (rs_borrow_graph self) tt parent child).
Definition add_borrow (self : AbstractState) (parent child : RefID) : result E AbstractState :=
  with_graph self (add_weak_borrow (rs_borrow_graph self) tt parent child).
Definition add_field_borrow (self : AbstractState) (parent : RefID) (field : FieldHandleIndex) (child : RefID) : result E AbstractState :=
  with_graph self (add_strong_field_borrow debug (rs_borrow_graph self) tt parent (LField field) child).
Definition add_local_borrow (self : AbstractState) (local : LocalIndex) (id : RefID) : result E AbstractState :=
  with_graph self (add_strong_field_borrow debug (rs_borrow_graph self) tt (frame_root self) (LLocal local) id).
Definition add_resource_borrow (self : AbstractState) (resource : StructDefinitionIndex) (id : RefID) : result E AbstractState :=
  with_graph self (add_weak_field_borrow (rs_borrow_graph self) tt (frame_root self) (LGlobal resource) id).
Definition release (self : AbstractState) (id : RefID) : result E AbstractState :=
  with_graph self (graph_release debug (rs_borrow_graph self) id).

(** *** Predicates *)

Definition has_full_borrows (self : AbstractState) (id : RefID) : result E bool :=
  borrows ← borrowed_by (rs_borrow_graph self) id;
  Ok (negb (bool_decide (base.size borrows.1 = 0%nat))).
Definition has_consistent_borrows (self : AbstractState) (id : RefID) (label_opt : option Label) : result E bool :=
  borrows ← borrowed_by (rs_borrow_graph self) id;
  let '(full_borrows, field_borrows) := borrows in
  let non_empty (borrows : gmap RefID unit) := negb (bool_decide (base.size borrows = 0%nat)) in
  Ok (non_empty full_borrows ||
      match label_opt with
      | None => existsb (λ p : Label * gmap RefID unit, non_empty p.2) (map_to_list field_borrows)
      | Some label => match field_borrows !! label with Some borrows => non_empty borrows | None => false end
      end).
(** [!self.all_immutable(borrows)] *)
Definition some_mutable (self : AbstractState) (borrows : gmap RefID unit) : result E bool :=
  try_fold (λ found (p : RefID * unit), if found : bool then Ok true else is_mutable (rs_borrow_graph self) p.1)
    (ascending_entries borrows) false.
Definition has_consistent_mutable_borrows (self : AbstractState) (id : RefID) (label_opt : option Label) : result E bool :=
  borrows ← borrowed_by (rs_borrow_graph self) id;
  let '(full_borrows, field_borrows) := borrows in
  full ← some_mutable self full_borrows;
  if full : bool then Ok true else
  match label_opt with
  | None => try_fold (λ found (p : Label * gmap RefID unit), if found : bool then Ok true else some_mutable self p.2)
              (map_to_list field_borrows) false
  | Some label => match field_borrows !! label with Some borrows => some_mutable self borrows | None => Ok false end
  end.
Definition is_writable (self : AbstractState) (id : RefID) : result E bool :=
  mutable ← is_mutable (rs_borrow_graph self) id;
  _ ← assert_ mutable;
  b ← has_consistent_borrows self id None; Ok (negb b).
Definition is_freezable (self : AbstractState) (id : RefID) (at_field_opt : option FieldHandleIndex) : result E bool :=
  mutable ← is_mutable (rs_borrow_graph self) id;
  _ ← assert_ mutable;
  b ← has_consistent_mutable_borrows self id (LField <$> at_field_opt); Ok (negb b).
Definition is_readable (self : AbstractState) (id : RefID) (at_field_opt : option FieldHandleIndex) : result E bool :=
  mutable ← is_mutable (rs_borrow_graph self) id;
  if mutable : bool then is_freezable self id at_field_opt else Ok true.
Definition is_local_borrowed (self : AbstractState) (idx : LocalIndex) : result E bool :=
  has_consistent_borrows self (frame_root self) (Some (LLocal idx)).
Definition is_local_mutably_borrowed (self : AbstractState) (idx : LocalIndex) : result E bool :=
  has_consistent_mutable_borrows self (frame_root self) (Some (LLocal idx)).
Definition is_global_borrowed (self : AbstractState) (resource : StructDefinitionIndex) : result E bool :=
  has_consistent_borrows self (frame_root self) (Some (LGlobal resource)).
Definition is_global_mutably_borrowed (self : AbstractState) (resource : StructDefinitionIndex) : result E bool :=
  has_consistent_mutable_borrows self (frame_root self) (Some (LGlobal resource)).
Definition is_frame_safe_to_destroy (self : AbstractState) : result E bool :=
  b ← has_consistent_borrows self (frame_root self) None; Ok (negb b).
End State.

(** *** Instructions *)

Section Instructions.
Context (debug : bool).
Notation Outcome A := (result PartialVMError A).
Implicit Types (self : AbstractState) (offset : CodeOffset).

(** [if c { return Err(self.error(status, offset)) }] *)
Definition reject_if self (c : bool) (status : StatusCode) offset : Outcome unit :=
  if c then Err (error self status offset) else Ok tt.

Definition release_value self (value : AbstractValue) : Outcome AbstractState :=
  match value with AReference id => release debug self id | NonReference => Ok self end.
Definition copy_loc self offset (local : LocalIndex) : Outcome (AbstractValue * AbstractState) :=
  value ← unwrap (rs_locals self !! local);
  match value with
  | AReference id =>
      mutable ← is_mutable (rs_borrow_graph self) id;
      '(new_id, self) ← new_ref self mutable;
      self ← add_copy debug self id new_id;
      Ok (AReference new_id, self)
  | NonReference =>
      borrowed ← is_local_mutably_borrowed self local;
      _ ← reject_if self borrowed COPYLOC_EXISTS_BORROW_ERROR offset;
      Ok (NonReference, self)
  end.
Definition move_loc self offset (local : LocalIndex) : Outcome (AbstractValue * AbstractState) :=
  value ← unwrap (rs_locals self !! local);
  let self := set_locals self (delete local (rs_locals self)) in
  match value with
  | AReference id => Ok (AReference id, self)
  | NonReference =>
      borrowed ← is_local_borrowed self local;
      _ ← reject_if self borrowed MOVELOC_EXISTS_BORROW_ERROR offset;
      Ok (NonReference, self)
  end.
Definition st_loc self offset (local : LocalIndex) (new_value : AbstractValue) : Outcome AbstractState :=
  let old_value := rs_locals self !! local in
  let self := set_locals self (<[ local := new_value ]> (rs_locals self)) in
  match old_value with
  | None => Ok self
  | Some (AReference id) => release debug self id
  | Some NonReference =>
      borrowed ← is_local_borrowed self local;
      _ ← reject_if self borrowed STLOC_UNSAFE_TO_DESTROY_ERROR offset;
      Ok self
  end.
Definition freeze_ref self offset (id : RefID) : Outcome (AbstractValue * AbstractState) :=
  freezable ← is_freezable self id None;
  _ ← reject_if self (negb freezable) FREEZEREF_EXISTS_MUTABLE_BORROW_ERROR offset;
  '(frozen_id, self) ← new_ref self false;
  self ← add_copy debug self id frozen_id;
  self ← release debug self id;
  Ok (AReference frozen_id, self).
Definition rs_comparison self offset (v1 v2 : AbstractValue) : Outcome (AbstractValue * AbstractState) :=
  match v1, v2 with
  | AReference id1, AReference id2 =>
      readable1 ← is_readable self id1 None;
      readable ← (if negb readable1 then Ok false else is_readable self id2 None);
      _ ← reject_if self (negb readable) READREF_EXISTS_MUTABLE_BORROW_ERROR offset;
      self ← release debug self id1;
      self ← release debug self id2;
      Ok (NonReference, self)
  | v1, v2 => _ ← assert_ (is_value v1); _ ← assert_ (is_value v2); Ok (NonReference, self)
  end.
Definition rs_read_ref self offset (id : RefID) : Outcome (AbstractValue * AbstractState) :=
  readable ← is_readable self id None;
  _ ← reject_if self (negb readable) READREF_EXISTS_MUTABLE_BORROW_ERROR offset;
  self ← release debug self id;
  Ok (NonReference, self).
Definition rs_write_ref self offset (id : RefID) : Outcome AbstractState :=
  writable ← is_writable self id;
  _ ← reject_if self (negb writable) WRITEREF_EXISTS_BORROW_ERROR offset;
  release debug self id.
Definition borrow_loc self offset (mut_ : bool) (local : LocalIndex) : Outcome (AbstractValue * AbstractState) :=
  borrowed ← (if mut_ then Ok false else is_local_mutably_borrowed self local);
  _ ← reject_if self borrowed BORROWLOC_EXISTS_BORROW_ERROR offset;
  '(new_id, self) ← new_ref self mut_;
  self ← add_local_borrow debug self local new_id;
  Ok (AReference new_id, self).
Definition borrow_field self offset (mut_ : bool) (id : RefID) (field : FieldHandleIndex) : Outcome (AbstractValue * AbstractState) :=
  is_mut_borrow_with_full_borrows ← (if mut_ then has_full_borrows self id else Ok false);
  rejected ← (if is_mut_borrow_with_full_borrows : bool then Ok true
              else if mut_ then Ok false else readable ← is_readable self id (Some field); Ok (negb readable));
  _ ← reject_if self rejected BORROWFIELD_EXISTS_MUTABLE_BORROW_ERROR offset;
  '(field_borrow_id, self) ← new_ref self mut_;
  self ← add_field_borrow debug self id field field_borrow_id;
  self ← release debug self id;
  Ok (AReference field_borrow_id, self).
Definition borrow_global self offset (mut_ : bool) (resource : StructDefinitionIndex) : Outcome (AbstractValue * AbstractState) :=
  borrowed ← (if mut_ then is_global_borrowed self resource else Ok false);
  rejected ← (if borrowed : bool then Ok true else is_global_mutably_borrowed self resource);
  _ ← reject_if self rejected GLOBAL_REFERENCE_ERROR offset;
  '(new_id, self) ← new_ref self mut_;
  self ← add_resource_borrow self resource new_id;
  Ok (AReference new_id, self).
Definition rs_move_from self offset (resource : StructDefinitionIndex) : Outcome (AbstractValue * AbstractState) :=
  borrowed ← is_global_borrowed self resource;
  _ ← reject_if self borrowed GLOBAL_REFERENCE_ERROR offset;
  Ok (NonReference, self).
Definition vector_op self offset (vector : AbstractValue) (mut_ : bool) : Outcome AbstractState :=
  id ← unwrap (ref_id vector);
  writable ← (if mut_ then is_writable self id else Ok true);
  _ ← reject_if self (negb writable) VEC_UPDATE_EXISTS_MUTABLE_BORROW_ERROR offset;
  release debug self id.
Definition vector_element_borrow self offset (vector : AbstractValue) (mut_ : bool) : Outcome (AbstractValue * AbstractState) :=
  vec_id ← unwrap (ref_id vector);
  writable ← (if mut_ then is_writable self vec_id else Ok true);
  _ ← reject_if self (negb writable) VEC_BORROW_ELEMENT_EXISTS_MUTABLE_BORROW_ERROR offset;
  '(elem_id, self) ← new_ref self mut_;
  self ← add_borrow self vec_id elem_id;
  self ← release debug self vec_id;
  Ok (AReference elem_id, self).

(** [call]: the references among the arguments, all and the mutable ones, then the values
    returned, which borrow from them *)
Definition reference_arguments self offset (arguments : list AbstractValue) : Outcome (gset RefID * gset RefID) :=
  try_fold (λ acc id,
    let '(all_references, mutable_references) := acc in
    mutable ← is_mutable (rs_borrow_graph self) id;
    if mutable : bool then
      writable ← is_writable self id;
      _ ← reject_if self (negb writable) CALL_BORROWED_MUTABLE_REFERENCE_ERROR offset;
      Ok ({[ id ]} ∪ all_references, {[ id ]} ∪ mutable_references)
    else Ok ({[ id ]} ∪ all_references, mutable_references)) (omap ref_id arguments) (∅, ∅).
Definition returned_reference self (mut_ : bool) (parents : gset RefID) : Outcome (AbstractValue * AbstractState) :=
  '(id, self) ← new_ref self mut_;
  self ← try_fold (λ self parent, add_borrow self parent id) (ascending_ids parents) self;
  Ok (AReference id, self).
Definition returned_value (all_references mutable_references : gset RefID)
    (acc : list AbstractValue * AbstractState) (return_type : SignatureToken) : Outcome (list AbstractValue * AbstractState) :=
  let '(values, self) := acc in
  '(value, self) ← match return_type with
                   | MutableReference _ => returned_reference self true mutable_references
                   | Reference _ => returned_reference self false all_references
                   | _ => Ok (NonReference, self)
                   end;
  Ok (values ++ [value], self).
Definition call self offset (arguments : list AbstractValue) (acquired_resources : gset StructDefinitionIndex) (return_ : Signature)
  : Outcome (list AbstractValue * AbstractState) :=
  _ ← for_each (λ acquired_resource,
        borrowed ← is_global_borrowed self acquired_resource;
        reject_if self borrowed GLOBAL_REFERENCE_ERROR offset) (ascending_ids acquired_resources);
  '(all_references, mutable_references) ← reference_arguments self offset arguments;
  '(return_values, self) ← try_fold (returned_value all_references mutable_references) return_ ([], self);
  self ← try_fold (release debug) (ascending_ids all_references) self;
  Ok (return_values, self).

(** [ret] *)
Definition ret self offset (values : list AbstractValue) : Outcome AbstractState :=
  let released : gset RefID := list_to_set (omap ref_id (map_to_list (rs_locals self)).*2) in
  self ← try_fold (release debug) (ascending_ids released) self;
  safe ← is_frame_safe_to_destroy self;
  _ ← reject_if self (negb safe) UNSAFE_RET_LOCAL_OR_RESOURCE_STILL_BORROWED offset;
  _ ← for_each (λ id,
        mutable ← is_mutable (rs_borrow_graph self) id;
        if negb mutable then Ok tt else
        writable ← is_writable self id;
        reject_if self (negb writable) RET_BORROWED_MUTABLE_REFERENCE_ERROR offset) (omap ref_id values);
  Ok self.

(** *** Canonical states and joins *)

Definition construct_canonical_state self : Outcome AbstractState :=
  let '(id_map, locals) :=
    foldl (λ (acc : gmap RefID RefID * gmap LocalIndex AbstractValue) (p : LocalIndex * AbstractValue),
      let '(id_map, locals) := acc in
      match p.2 with
      | AReference old_id => (<[ old_id := p.1 ]> id_map, <[ p.1 := AReference p.1 ]> locals)
      | NonReference => (id_map, <[ p.1 := NonReference ]> locals)
      end) ({[ frame_root self := frame_root self ]}, ∅) (ascending_entries (rs_locals self)) in
  _ ← assert_ (base.size (rs_locals self) =? base.size locals)%nat;
  borrow_graph ← graph_remap_refs debug (rs_borrow_graph self) id_map;
  let canonical_state :=
    {| rs_current_function := rs_current_function self; rs_locals := locals; rs_borrow_graph := borrow_graph;
       rs_num_locals := rs_num_locals self; rs_next_id := rs_num_locals self + 1 |} in
  _ ← assert_ (is_canonical canonical_state);
  Ok canonical_state.
End Instructions.

Section Join.
Context (debug : bool).
Notation Outcome A := (result StatusCode A).
Implicit Types (self : AbstractState).

(** [self.num_locals as LocalIndex] keeps the lower eight bits. *)
Definition iter_locals self : list LocalIndex := N.of_nat <$> seq 0 (N.to_nat (wrap 8 (rs_num_locals self))).
Definition release_opt (graph : Graph) (v : AbstractValue) : Outcome Graph :=
  match v with AReference id => graph_release debug graph id | NonReference => Ok graph end.
(** One local of [join_] *)
Definition join_one self other (acc : gmap LocalIndex AbstractValue * Graph * Graph) (local : LocalIndex)
  : Outcome (gmap LocalIndex AbstractValue * Graph * Graph) :=
  let '(locals, self_graph, other_graph) := acc in
  match rs_locals self !! local, rs_locals other !! local with
  | None, None => Ok acc
  | Some v, None => self_graph ← release_opt self_graph v; Ok (locals, self_graph, other_graph)
  | None, Some v => other_graph ← release_opt other_graph v; Ok (locals, self_graph, other_graph)
  | Some v1, Some v2 =>
      _ ← assert_ (bool_decide (v1 = v2));
      _ ← assert_ (negb (bool_decide (is_Some (locals !! local))));
      Ok (<[ local := v1 ]> locals, self_graph, other_graph)
  end.
Definition join_ self other : Outcome AbstractState :=
  _ ← assert_ (bool_decide (rs_current_function self = rs_current_function other));
  _ ← assert_ (is_canonical self && is_canonical other);
  _ ← assert_ (rs_next_id self =? rs_next_id other);
  _ ← assert_ (rs_num_locals self =? rs_num_locals other);
  '(locals, self_graph, other_graph) ←
    try_fold (join_one self other) (iter_locals self) (∅, rs_borrow_graph self, rs_borrow_graph other);
  borrow_graph ← graph_join debug self_graph other_graph;
  Ok {| rs_current_function := rs_current_function self; rs_locals := locals; rs_borrow_graph := borrow_graph;
        rs_num_locals := rs_num_locals self; rs_next_id := rs_next_id self |}.
(** [AbstractDomain::join] *)
Definition join_state self state : Outcome (AbstractState * JoinResult) :=
  joined ← join_ self state;
  _ ← assert_ (is_canonical joined);
  _ ← assert_ (rs_num_locals self =? rs_num_locals joined);
  let locals_unchanged := forallb (λ idx, bool_decide (rs_locals self !! idx = rs_locals joined !! idx)) (iter_locals self) in
  borrow_graph_unchanged ← graph_leq (rs_borrow_graph self) (rs_borrow_graph joined);
  if locals_unchanged && borrow_graph_unchanged then Ok (self, Unchanged) else Ok (joined, Changed).
End Join.

(** ** [mod.rs] *)

(** [struct ReferenceSafetyAnalysis]; the stack is a list whose head is the top. *)
Record ReferenceSafetyAnalysis : Type := {
  ra_resolver : BinaryIndexedView;
  ra_function_view : FunctionView;
  ra_name_def_map : gmap IdentifierIndex FunctionDefinitionIndex;
  ra_stack : list AbstractValue }.

(** A computation on the stack and the state: what it leaves on the stack stays there when
    it ends with an error. *)
Definition M (A : Type) : Type :=
  list AbstractValue → AbstractState → list AbstractValue * result PartialVMError (A * AbstractState).
#[export] Instance M_ret : MRet M := λ A a stack state, (stack, Ok (a, state)).
#[export] Instance M_bind : MBind M := λ A B k m stack state,
  let '(stack, r) := m stack state in
  match r with
  | Ok (a, state) => k a stack state
  | Err e => (stack, Err e)
  | Panic => (stack, Panic)
  | OutOfFuel => (stack, OutOfFuel)
  end.
Definition pop : M AbstractValue := λ stack state,
  match stack with [] => ([], Panic) | value :: stack => (stack, Ok (value, state)) end.
Definition push (value : AbstractValue) : M unit := λ stack state, (value :: stack, Ok (tt, state)).
Definition check {A} (r : result PartialVMError A) : M A := λ stack state, (stack, a ← r; Ok (a, state)).
Definition on_state {A} (f : AbstractState → result PartialVMError (A * AbstractState)) : M A := λ stack state, (stack, f state).
Definition on_state_ (f : AbstractState → result PartialVMError AbstractState) : M unit := λ stack state,
  (stack, state ← f state; Ok (tt, state)).
Definition pop_ref : M RefID := value ← pop; check (unwrap (ref_id value)).
(** [checked_verify!(verifier.stack.pop().unwrap().is_value())] *)
Definition pop_value : M unit := value ← pop; check (assert_ (is_value value)).
Definition pops {A} (m : M A) (n : nat) : M (list A) :=
  Nat.iter n (λ rest, a ← m; l ← rest; mret (a :: l)) (mret []).
Definition pushes (values : list AbstractValue) : M unit := foldr (λ v rest, _ ← push v; rest) (mret tt) values.

Section Transfer.
Context (debug : bool) (verifier : ReferenceSafetyAnalysis).
Notation resolver := (ra_resolver verifier).

Definition call_handle (offset : CodeOffset) (function_handle : FunctionHandle) : M unit :=
  parameters ← check (partial (signature_at resolver (fh_parameters function_handle)));
  arguments ← pops pop (length parameters);
  acquired_resources ← match ra_name_def_map verifier !! fh_name function_handle with
    | Some idx =>
        func_def ← check (partial (function_def_at resolver idx));
        fh ← check (partial (function_handle_at resolver (fdef_function func_def)));
        mret (if bool_decide (function_handle = fh)
              then list_to_set (fdef_acquires_global_resources func_def) else ∅ : gset StructDefinitionIndex)
    | None => mret (∅ : gset StructDefinitionIndex)
    end;
  return_ ← check (partial (signature_at resolver (fh_return function_handle)));
  values ← on_state (λ state, call debug state offset arguments acquired_resources return_);
  pushes values.

Definition num_fields (struct_def : StructDefinition) : nat :=
  match sd_field_information struct_def with Native => 0 | Declared fields => length fields end.
Definition rs_pack (struct_def : StructDefinition) : M unit :=
  _ ← pops pop_value (num_fields struct_def);
  push NonReference.
Definition rs_unpack (struct_def : StructDefinition) : M unit :=
  _ ← pop_value;
  pushes (replicate (num_fields struct_def) NonReference).
Definition vec_element_type (idx : SignatureIndex) : M SignatureToken :=
  sig ← check (partial (signature_at resolver idx));
  match at_ sig 0 with
  | Some ty => mret ty
  | None => check (Err (PartialVMError_new VERIFIER_INVARIANT_VIOLATION))
  end.
Definition push_value_for (ty : SignatureToken) : M unit :=
  value ← on_state (λ state, value_for state ty); push value.

Definition execute_inner (bytecode : Bytecode) (offset : CodeOffset) : M unit :=
  match bytecode with
  | Pop => value ← pop; on_state_ (λ state, release_value debug state value)
  | CopyLoc local => value ← on_state (λ state, copy_loc debug state offset local); push value
  | MoveLoc local => value ← on_state (λ state, move_loc state offset local); push value
  | StLoc local => value ← pop; on_state_ (λ state, st_loc debug state offset local value)
  | FreezeRef => id ← pop_ref; frozen ← on_state (λ state, freeze_ref debug state offset id); push frozen
  | Eq | Neq =>
      v1 ← pop;
      v2 ← pop;
      value ← on_state (λ state, rs_comparison debug state offset v1 v2); push value
  | ReadRef => id ← pop_ref; value ← on_state (λ state, rs_read_ref debug state offset id); push value
  | WriteRef =>
      id ← pop_ref;
      _ ← pop_value;
      on_state_ (λ state, rs_write_ref debug state offset id)
  | MutBorrowLoc local => value ← on_state (λ state, borrow_loc debug state offset true local); push value
  | ImmBorrowLoc local => value ← on_state (λ state, borrow_loc debug state offset false local); push value
  | MutBorrowField field_handle_index =>
      id ← pop_ref;
      value ← on_state (λ state, borrow_field debug state offset true id field_handle_index); push value
  | MutBorrowFieldGeneric field_inst_index =>
      field_inst ← check (partial (field_instantiation_at resolver field_inst_index));
      id ← pop_ref;
      value ← on_state (λ state, borrow_field debug state offset true id (fldi_handle field_inst)); push value
  | ImmBorrowField field_handle_index =>
      id ← pop_ref;
      value ← on_state (λ state, borrow_field debug state offset false id field_handle_index); push value
  | ImmBorrowFieldGeneric field_inst_index =>
      field_inst ← check (partial (field_instantiation_at resolver field_inst_index));
      id ← pop_ref;
      value ← on_state (λ state, borrow_field debug state offset false id (fldi_handle field_inst)); push value
  | MutBorrowGlobal idx =>
      _ ← pop_value;
      value ← on_state (λ state, borrow_global state offset true idx); push value
  | MutBorrowGlobalGeneric idx =>
      _ ← pop_value;
      struct_inst ← check (partial (struct_instantiation_at resolver idx));
      value ← on_state (λ state, borrow_global state offset true (sdi_def struct_inst)); push value
  | ImmBorrowGlobal idx =>
      _ ← pop_value;
      value ← on_state (λ state, borrow_global state offset false idx); push value
  | ImmBorrowGlobalGeneric idx =>
      _ ← pop_value;
      struct_inst ← check (partial (struct_instantiation_at resolver idx));
      value ← on_state (λ state, borrow_global state offset false (sdi_def struct_inst)); push value
  | MoveFrom idx =>
      _ ← pop_value;
      value ← on_state (λ state, rs_move_from state offset idx); push value
  | MoveFromGeneric idx =>
      _ ← pop_value;
      struct_inst ← check (partial (struct_instantiation_at resolver idx));
      value ← on_state (λ state, rs_move_from state offset (sdi_def struct_inst)); push value
  | Call idx =>
      function_handle ← check (partial (function_handle_at resolver idx));
      call_handle offset function_handle
  | CallGeneric idx =>
      func_inst ← check (partial (function_instantiation_at resolver idx));
      function_handle ← check (partial (function_handle_at resolver (fi_handle func_inst)));
      call_handle offset function_handle
  | Ret =>
      return_values ← pops pop (length (fv_return (ra_function_view verifier)));
      on_state_ (λ state, ret debug state offset (reverse return_values))
  | Branch _ | Nop | CastU8 | CastU64 | CastU128 | Not | Exists _ | ExistsGeneric _ => mret tt
  | BrTrue _ | BrFalse _ | Abort => pop_value
  | MoveTo _ | MoveToGeneric _ =>
      _ ← pop_value;
      value ← pop;
      on_state_ (λ state, release_value debug state value)
  | LdTrue | LdFalse => push_value_for Bool
  | LdU8 _ => push_value_for U8
  | LdU64 _ => push_value_for U64
  | LdU128 _ => push_value_for U128
  | LdConst idx =>
      constant ← check (partial (constant_at resolver idx));
      push_value_for (const_type constant)
  | Add | Sub | Mul | Mod | Div | BitOr | BitAnd | Xor | Shl | Shr | Or | And | Lt | Gt | Le | Ge =>
      _ ← pop_value;
      _ ← pop_value;
      push NonReference
  | Pack idx => struct_def ← check (partial (struct_def_at resolver idx)); rs_pack struct_def
  | PackGeneric idx =>
      struct_inst ← check (partial (struct_instantiation_at resolver idx));
      struct_def ← check (partial (struct_def_at resolver (sdi_def struct_inst))); rs_pack struct_def
  | Unpack idx => struct_def ← check (partial (struct_def_at resolver idx)); rs_unpack struct_def
  | UnpackGeneric idx =>
      struct_inst ← check (partial (struct_instantiation_at resolver idx));
      struct_def ← check (partial (struct_def_at resolver (sdi_def struct_inst))); rs_unpack struct_def
  | VecPack idx num =>
      _ ← pops pop_value (N.to_nat num);
      element_type ← vec_element_type idx;
      push_value_for (Vector element_type)
  | VecLen _ =>
      vec_ref ← pop;
      _ ← on_state_ (λ state, vector_op debug state offset vec_ref false);
      push_value_for U64
  | VecImmBorrow _ =>
      _ ← pop_value;
      vec_ref ← pop;
      elem_ref ← on_state (λ state, vector_element_borrow debug state offset vec_ref false); push elem_ref
  | VecMutBorrow _ =>
      _ ← pop_value;
      vec_ref ← pop;
      elem_ref ← on_state (λ state, vector_element_borrow debug state offset vec_ref true); push elem_ref
  | VecPushBack _ =>
      _ ← pop_value;
      vec_ref ← pop;
      on_state_ (λ state, vector_op debug state offset vec_ref true)
  | VecPopBack idx =>
      vec_ref ← pop;
      _ ← on_state_ (λ state, vector_op debug state offset vec_ref true);
      element_type ← vec_element_type idx;
      push_value_for element_type
  | VecUnpack idx num =>
      _ ← pop_value;
      element_type ← vec_element_type idx;
      Nat.iter (N.to_nat num) (λ rest, _ ← push_value_for element_type; rest) (mret tt)
  | VecSwap _ =>
      _ ← pop_value;
      _ ← pop_value;
      vec_ref ← pop;
      on_state_ (λ state, vector_op debug state offset vec_ref true)
  end.

(** [TransferFunctions::execute] *)
Definition rs_execute (state : AbstractState) (bytecode : Bytecode) (index last_index : CodeOffset)
  : ReferenceSafetyAnalysis * result PartialVMError AbstractState :=
  let '(stack, r) := execute_inner bytecode index (ra_stack verifier) state in
  let verifier := {| ra_resolver := resolver; ra_function_view := ra_function_view verifier;
                     ra_name_def_map := ra_name_def_map verifier; ra_stack := stack |} in
  (verifier,
   '(_, state) ← r;
   if index =? last_index then
     _ ← assert_ (is_empty stack);
     construct_canonical_state debug state
   else Ok state).
End Transfer.

Section Verify.
Context (debug : bool).
#[local] Instance AbstractState_domain : AbstractDomain AbstractState := { join := join_state debug }.
#[local] Instance ReferenceSafety_transfer : TransferFunctions ReferenceSafetyAnalysis AbstractState PartialVMError :=
  { execute self := rs_execute debug self }.

(** [pub(crate) fn verify], with the number of blocks that it may process *)
Definition verify (fuel : nat) (resolver : BinaryIndexedView) (function_view : FunctionView)
    (name_def_map : gmap IdentifierIndex FunctionDefinitionIndex) : result PartialVMError unit :=
  initial_state ← AbstractState_new function_view;
  let verifier := {| ra_resolver := resolver; ra_function_view := function_view;
                     ra_name_def_map := name_def_map; ra_stack := [] |} in
  analysis ← map_err PartialVMError_new
    (analyze_function (AnalysisError := PartialVMError) fuel verifier initial_state function_view);
  let inv_map := snd analysis in
  for_each (λ block_id : BlockId,
    match inv_map !! block_id with
    | Some invariant =>
        match bi_post invariant with
        | Error err => Err err
        | Unprocessed | Success => Ok tt
        end
    | None => Ok tt
    end) (merge_sort N.le (map_to_list inv_map).*1).

(** ** What the pass establishes

    A certificate: borrow states for the blocks, the first one for the entry, from each of
    which the block runs without an error of the analysis to a state that the states of its
    successors have taken in.  The stack that the analysis starts a block with is not
    always empty: an error found earlier may have left values on it. *)
Definition checks (resolver : BinaryIndexedView) (function_view : FunctionView)
    (name_def_map : gmap IdentifierIndex FunctionDefinitionIndex) (self : ReferenceSafetyAnalysis) : Prop :=
  ra_resolver self = resolver ∧ ra_function_view self = function_view ∧ ra_name_def_map self = name_def_map.
Definition borrows_checked (resolver : BinaryIndexedView) (function_view : FunctionView)
    (name_def_map : gmap IdentifierIndex FunctionDefinitionIndex) : Prop :=
  ∃ initial (pre : gmap BlockId AbstractState), AbstractState_new (E := PartialVMError) function_view = Ok initial ∧
    (∃ state, pre !! entry_block_id (fv_cfg function_view) = Some state ∧ absorbs initial state) ∧
    ∀ b state, pre !! b = Some state → ∃ self post bb, checks resolver function_view name_def_map self ∧
      snd (execute_block self b state function_view) = Ok post ∧
      cfg_blocks (fv_cfg function_view) !! b = Some bb ∧
      Forall (λ s, ∃ state', pre !! s = Some state' ∧ absorbs post state') (bb_successors bb).

Lemma verify_checks_borrows fuel resolver function_view name_def_map :
  verify fuel resolver function_view name_def_map = Ok tt → borrows_checked resolver function_view name_def_map.
Proof.
  intros H. unfold verify in H. apply bind_Ok in H as (initial & Hi & H).
  apply bind_Ok in H as ([self m] & Hm%map_err_Ok & H). cbn [snd] in H.
  apply (analyze_function_explored function_view (checks resolver function_view name_def_map)) in Hm as [He Hb]; cycle 1.
  { intros v a i o l (<- & <- & <-). cbn. unfold rs_execute. by destruct (execute_inner _ _ _ _ _ _). }
  { done. }
  exists initial, (bi_pre <$> m). split_and!; [done| |].
  - destruct He as (inv & Hin & Ha). exists (bi_pre inv). by rewrite lookup_fmap, Hin.
  - intros b state Hs. rewrite lookup_fmap in Hs. destruct (m !! b) as [inv|] eqn:Hinv; [|done]. injection Hs as <-.
    destruct (Hb b inv Hinv) as [[e Herr]|(v & post & bb & Hc & Hx & Hbb & Hf)].
    + exfalso. rewrite for_each_Ok, Forall_forall in H. specialize (H b). rewrite Hinv, Herr in H.
      assert (b ∈ merge_sort N.le (map_to_list m).*1) as Hin; [|by specialize (H Hin)].
      rewrite merge_sort_Permutation, list_elem_of_fmap. exists (b, inv). by rewrite elem_of_map_to_list.
    + exists v, post, bb. split_and!; [done..|]. eapply Forall_impl; [exact Hf|].
      intros s (i & Hs & Ha). exists (bi_pre i). by rewrite lookup_fmap, Hs.
Qed.
End Verify.
