(* ===== verification/Bcs.v ===== *)
(** * Bcs: the canonical serialization format

    Models [bcs/src/de.rs] and [bcs/src/ser.rs]: the deserializer over its input and the
    depth that is left, and the serializer over its output, with the operations of serde's
    data model.  What serde's visitors and seeds do besides reading, such as allocating
    values, is a state [S] that the deserializer threads. *)

From Stdlib Require Import String.
From S2P Require Import Prelude CoreTypes FileFormat BinaryCommon.


(** [enum Error]; messages are left out. *)
Inductive BcsError : Set :=
| Eof
| Io
| ExceededMaxLen (len : N)
| ExceededContainerDepthLimit (name : string)
| ExpectedBoolean
| ExpectedMapKey
| ExpectedMapValue
| NonCanonicalMap
| ExpectedOption
| Custom
| MissingLen
| NotSupported (name : string)
| RemainingInput
| Utf8
| NonCanonicalUleb128Encoding
| IntegerOverflowDuringUleb128Decoding.

Definition MAX_SEQUENCE_LENGTH : N := N.shiftl 1 31 - 1.
Definition MAX_CONTAINER_DEPTH : N := 500.

(** ** [de.rs] *)

(** [struct Deserializer] *)
Record Deserializer : Set := { input : list u8; max_remaining_depth : N }.

(** A computation that reads, and may change a state of its own *)
Definition De (S A : Type) : Type := Deserializer → S → result BcsError (A * Deserializer * S).
#[export] Instance De_ret {S} : MRet (De S) := λ A a d s, Ok (a, d, s).
#[export] Instance De_bind {S} : MBind (De S) := λ A B k m d s,
  '(a, d, s) ← m d s; k a d s.

Section Deserializer.
Context {S : Type}.
Notation De := (De S).

Definition de_error {A} (e : BcsError) : De A := λ _ _, Err e.
Definition de_lift {A} (r : result BcsError A) : De A := λ d s, a ← r; Ok (a, d, s).

Definition peek : De u8 := λ d s,
  match input d with byte :: _ => Ok (byte, d, s) | [] => Err Eof end.
(** [self.input = &self.input[n..]] *)
Definition advance (n : nat) : De unit := λ d s,
  Ok (tt, {| input := drop n (input d); max_remaining_depth := max_remaining_depth d |}, s).
Definition next : De u8 := byte ← peek; _ ← advance 1; mret byte.
Definition parse_bool : De bool :=
  byte ← next;
  match byte with 0 => mret false | 1 => mret true | _ => de_error ExpectedBoolean end.
(** The bytes that [fill_slice] puts into a slice of length [n] *)
Fixpoint fill_slice (n : nat) : De (list u8) :=
  match n with
  | O => mret []
  | Datatypes.S n => byte ← next; bytes ← fill_slice n; mret (byte :: bytes)
  end.
Definition parse_u8 : De u8 := next.
Definition parse_u16 : De u16 := le_bytes ← fill_slice 2; mret (from_le_bytes le_bytes).
Definition parse_u32 : De u32 := le_bytes ← fill_slice 4; mret (from_le_bytes le_bytes).
Definition parse_u64 : De u64 := le_bytes ← fill_slice 8; mret (from_le_bytes le_bytes).
Definition parse_u128 : De u128 := le_bytes ← fill_slice 16; mret (from_le_bytes le_bytes).

Fixpoint uleb128_loop (shifts : list N) (value : u64) : De u32 :=
  match shifts with
  | [] => de_error IntegerOverflowDuringUleb128Decoding
  | shift :: shifts =>
      byte ← next;
      let digit := N.land byte 127 in
      let value := N.lor value (N.shiftl digit shift) in
      if digit =? byte then
        if (0 <? shift) && (digit =? 0) then de_error NonCanonicalUleb128Encoding
        else if value <=? u32_MAX then mret value
        else de_error IntegerOverflowDuringUleb128Decoding
      else uleb128_loop shifts value
  end.
Definition parse_u32_from_uleb128 : De u32 := uleb128_loop [0; 7; 14; 21; 28] 0.
Definition parse_length : De N :=
  len ← parse_u32_from_uleb128;
  if MAX_SEQUENCE_LENGTH <? len then de_error (ExceededMaxLen len) else mret len.
(** [self.input.get(..len).ok_or(Error::Eof)] *)
Definition get_slice (length : N) : De (list u8) := λ d s,
  if length <=? len (input d) then Ok (take (N.to_nat length) (input d), d, s) else Err Eof.
Definition parse_bytes : De (list u8) :=
  length ← parse_length;
  slice ← get_slice length;
  _ ← advance (N.to_nat length);
  mret slice.
Definition parse_string : De (list u8) :=
  slice ← parse_bytes;
  if utf8_valid slice then mret slice else de_error Utf8.

Definition enter_named_container (name : string) : De unit := λ d s,
  if max_remaining_depth d =? 0 then Err (ExceededContainerDepthLimit name)
  else Ok (tt, {| input := input d; max_remaining_depth := max_remaining_depth d - 1 |}, s).
Definition leave_named_container : De unit := λ d s,
  Ok (tt, {| input := input d; max_remaining_depth := max_remaining_depth d + 1 |}, s).
(** [enter; let r = ...; leave; r]; an error ends the whole deserialization. *)
Definition named_container {V} (name : string) (body : De V) : De V :=
  _ ← enter_named_container name;
  r ← body;
  _ ← leave_named_container;
  mret r.

(** *** [SeqAccess] and [MapAccess] *)

(** [SeqDeserializer] is the number of elements that remain. *)
Definition next_element_seed {T} (seed : De T) (remaining : N) : De (option T * N) :=
  if remaining =? 0 then mret (None, remaining)
  else value ← seed; mret (Some value, remaining - 1).

(** [while let Some(elem) = seq.next_element_seed(seed)?], and one element for each seed
    of a list ([invalid_length] when they run out) *)
Fixpoint while_elements {T} (fuel : nat) (seed : De T) (remaining : N) : De (list T) :=
  match fuel with
  | O => λ _ _, OutOfFuel
  | Datatypes.S fuel =>
      '(elem, remaining) ← next_element_seed seed remaining;
      match elem with
      | Some elem => elems ← while_elements fuel seed remaining; mret (elem :: elems)
      | None => mret []
      end
  end.
Fixpoint visit_fields {T} (seeds : list (De T)) (remaining : N) : De (list T) :=
  match seeds with
  | [] => mret []
  | seed :: seeds =>
      '(elem, remaining) ← next_element_seed seed remaining;
      match elem with
      | Some elem => elems ← visit_fields seeds remaining; mret (elem :: elems)
      | None => de_error Custom
      end
  end.

(** [struct MapDeserializer] *)
Record MapDeserializer : Set := { map_remaining : N; previous_key_bytes : option (list u8) }.
(** [<] on byte slices *)
Fixpoint bytes_lt (l r : list u8) : bool :=
  match l, r with
  | [], [] => false
  | [], _ :: _ => true
  | _ :: _, [] => false
  | x :: l, y :: r => (x <? y) || (x =? y) && bytes_lt l r
  end.
Definition next_key_seed {K} (seed : De K) (self : MapDeserializer) : De (option K * MapDeserializer) :=
  if map_remaining self =? 0 then mret (None, self)
  else λ d s,
    '(key_value, d', s) ← seed d s;
    let key_len := (length (input d) - length (input d'))%nat in
    let key_bytes := take key_len (input d) in
    let in_order := match previous_key_bytes self with
                    | Some previous => bytes_lt previous key_bytes
                    | None => true
                    end in
    if in_order : bool
    then Ok ((Some key_value, {| map_remaining := map_remaining self - 1; previous_key_bytes := Some key_bytes |}), d', s)
    else Err NonCanonicalMap.
Definition next_value_seed {V} (seed : De V) : De V := seed.

(** *** [Deserializer], given the methods of a visitor *)

Definition deserialize_bool {V} (visit_bool : bool → De V) : De V := b ← parse_bool; visit_bool b.
Definition deserialize_u8 {V} (visit_u8 : u8 → De V) : De V := x ← parse_u8; visit_u8 x.
Definition deserialize_u16 {V} (visit_u16 : u16 → De V) : De V := x ← parse_u16; visit_u16 x.
Definition deserialize_u32 {V} (visit_u32 : u32 → De V) : De V := x ← parse_u32; visit_u32 x.
Definition deserialize_u64 {V} (visit_u64 : u64 → De V) : De V := x ← parse_u64; visit_u64 x.
Definition deserialize_u128 {V} (visit_u128 : u128 → De V) : De V := x ← parse_u128; visit_u128 x.
Definition deserialize_str {V} (visit_borrowed_str : list u8 → De V) : De V := s ← parse_string; visit_borrowed_str s.
Definition deserialize_bytes {V} (visit_borrowed_bytes : list u8 → De V) : De V := b ← parse_bytes; visit_borrowed_bytes b.
Definition deserialize_option {V} (visit_none : De V) (visit_some : De V) : De V :=
  byte ← next;
  match byte with 0 => visit_none | 1 => visit_some | _ => de_error ExpectedOption end.
Definition deserialize_unit {V} (visit_unit : De V) : De V := visit_unit.
Definition deserialize_unit_struct {V} (name : string) (visit_unit : De V) : De V :=
  named_container name (deserialize_unit visit_unit).
Definition deserialize_newtype_struct {V} (name : string) (visit_newtype_struct : De V) : De V :=
  named_container name visit_newtype_struct.
Definition deserialize_seq {V} (visit_seq : N → De V) : De V := len ← parse_length; visit_seq len.
Definition deserialize_tuple {V} (len : N) (visit_seq : N → De V) : De V := visit_seq len.
Definition deserialize_tuple_struct {V} (name : string) (len : N) (visit_seq : N → De V) : De V :=
  named_container name (visit_seq len).
Definition deserialize_map {V} (visit_map : MapDeserializer → De V) : De V :=
  len ← parse_length; visit_map {| map_remaining := len; previous_key_bytes := None |}.
Definition deserialize_struct {V} (name : string) (fields : N) (visit_seq : N → De V) : De V :=
  named_container name (visit_seq fields).
(** The variant goes to the seed, and the visitor goes on with what the seed returns. *)
Definition deserialize_enum {V W} (name : string) (seed : u32 → result BcsError W) (visit : W → De V) : De V :=
  named_container name (variant_index ← parse_u32_from_uleb128; w ← de_lift (seed variant_index); visit w).
Definition deserialize_any {V} : De V := de_error (NotSupported "deserialize_any").

(** [from_bytes_seed], [Deserializer::end] *)
Definition de_end : De unit := λ d s, match input d with [] => Ok (tt, d, s) | _ :: _ => Err RemainingInput end.
Definition from_bytes_seed {T} (seed : De T) (bytes : list u8) (s : S) : result BcsError (T * S) :=
  let deserializer := {| input := bytes; max_remaining_depth := MAX_CONTAINER_DEPTH |} in
  '(t, _, s) ← (t ← seed; _ ← de_end; mret t) deserializer s;
  Ok (t, s).
End Deserializer.

(** ** [ser.rs] *)

(** [struct Serializer], and a value's [serialize], which leaves the output *)
Record Serializer : Set := { output : list u8; ser_depth : N }.
Definition Serialize : Type := Serializer → result BcsError (list u8).
Definition extend_output (self : Serializer) (bytes : list u8) : Serializer :=
  {| output := output self ++ bytes; ser_depth := ser_depth self |}.

(** The loop of [output_u32_as_uleb128]; five rounds are enough for a [u32]. *)
Fixpoint output_uleb_loop (rounds : nat) (value : u32) (self : Serializer) : result BcsError Serializer :=
  if 128 <=? value then
    match rounds with
    | O => OutOfFuel
    | S rounds =>
        let byte := wrap 8 (N.land value 127) in
        output_uleb_loop rounds (N.shiftr value 7) (extend_output self [N.lor byte 128])
    end
  else Ok (extend_output self [wrap 8 value]).
Definition output_u32_as_uleb128 (value : u32) (self : Serializer) : result BcsError Serializer :=
  output_uleb_loop 5 value self.
Definition output_variant_index (v : u32) (self : Serializer) : result BcsError Serializer := output_u32_as_uleb128 v self.
Definition output_seq_len (len : N) (self : Serializer) : result BcsError Serializer :=
  if MAX_SEQUENCE_LENGTH <? len then Err (ExceededMaxLen len) else output_u32_as_uleb128 (wrap 32 len) self.
Definition ser_enter_named_container (name : string) (self : Serializer) : result BcsError Serializer :=
  if ser_depth self =? 0 then Err (ExceededContainerDepthLimit name)
  else Ok {| output := output self; ser_depth := ser_depth self - 1 |}.

Definition serialize_u8 (v : u8) : Serialize := λ self, Ok (output (extend_output self [v])).
Definition serialize_bool (v : bool) : Serialize := serialize_u8 (if v then 1 else 0).
Definition serialize_u16 (v : u16) : Serialize := λ self, Ok (output (extend_output self (to_le_bytes 2 v))).
Definition serialize_u32 (v : u32) : Serialize := λ self, Ok (output (extend_output self (to_le_bytes 4 v))).
Definition serialize_u64 (v : u64) : Serialize := λ self, Ok (output (extend_output self (to_le_bytes 8 v))).
Definition serialize_u128 (v : u128) : Serialize := λ self, Ok (output (extend_output self (to_le_bytes 16 v))).
Definition serialize_bytes (v : list u8) : Serialize := λ self,
  self ← output_seq_len (len v) self; Ok (output (extend_output self v)).
Definition serialize_str (v : list u8) : Serialize := serialize_bytes v.
Definition serialize_none : Serialize := serialize_u8 0.
Definition serialize_some (value : Serialize) : Serialize := λ self, value (extend_output self [1]).
Definition serialize_unit : Serialize := λ self, Ok (output self).
Definition serialize_unit_struct (name : string) : Serialize := λ self,
  self ← ser_enter_named_container name self; serialize_unit self.
Definition serialize_unit_variant (variant_index : u32) : Serialize := λ self,
  self ← output_variant_index variant_index self; Ok (output self).
Definition serialize_newtype_struct (name : string) (value : Serialize) : Serialize := λ self,
  self ← ser_enter_named_container name self; value self.
Definition serialize_newtype_variant (name : string) (variant_index : u32) (value : Serialize) : Serialize := λ self,
  self ← ser_enter_named_container name self;
  self ← output_variant_index variant_index self;
  value self.

(** The compound serializers: a start, the elements, and the output at the end *)
Definition serialize_seq (len : option N) (self : Serializer) : result BcsError Serializer :=
  match len with Some len => output_seq_len len self | None => Err MissingLen end.
Definition serialize_tuple (len : N) (self : Serializer) : result BcsError Serializer := Ok self.
Definition serialize_struct (name : string) (len : N) (self : Serializer) : result BcsError Serializer :=
  ser_enter_named_container name self.
Definition serialize_struct_variant (name : string) (variant_index : u32) (len : N) (self : Serializer)
  : result BcsError Serializer :=
  self ← ser_enter_named_container name self; output_variant_index variant_index self.
Definition serialize_element (value : Serialize) (self : Serializer) : result BcsError Serializer :=
  output ← value {| output := output self; ser_depth := ser_depth self |};
  Ok {| output := output; ser_depth := ser_depth self |}.

(** *** [MapSerializer] *)

Record MapSerializer : Set := {
  map_serializer : Serializer;
  entries : list (list u8 * list u8);
  next_key : option (list u8) }.
Definition serialize_map (self : Serializer) : result BcsError MapSerializer :=
  Ok {| map_serializer := self; entries := []; next_key := None |}.
Definition serialize_key (key : Serialize) (self : MapSerializer) : result BcsError MapSerializer :=
  match next_key self with
  | Some _ => Err ExpectedMapValue
  | None =>
      output ← key {| output := []; ser_depth := ser_depth (map_serializer self) |};
      Ok {| map_serializer := map_serializer self; entries := entries self; next_key := Some output |}
  end.
Definition serialize_value (value : Serialize) (self : MapSerializer) : result BcsError MapSerializer :=
  match next_key self with
  | Some key =>
      output ← value {| output := []; ser_depth := ser_depth (map_serializer self) |};
      Ok {| map_serializer := map_serializer self; entries := entries self ++ [(key, output)]; next_key := None |}
  | None => Err ExpectedMapKey
  end.
(** The stable [sort_by] and [dedup_by] on the keys *)
Fixpoint insert_entry (e : list u8 * list u8) (l : list (list u8 * list u8)) : list (list u8 * list u8) :=
  match l with
  | [] => [e]
  | e' :: l => if bytes_lt e'.1 e.1 then e' :: insert_entry e l else e :: e' :: l
  end.
Definition sort_entries (l : list (list u8 * list u8)) : list (list u8 * list u8) := foldr insert_entry [] l.
Fixpoint dedup_after (kept : list u8 * list u8) (l : list (list u8 * list u8)) : list (list u8 * list u8) :=
  match l with
  | [] => [kept]
  | e :: l => if bool_decide (e.1 = kept.1) then dedup_after kept l else kept :: dedup_after e l
  end.
Definition dedup_entries (l : list (list u8 * list u8)) : list (list u8 * list u8) :=
  match l with [] => [] | e :: l => dedup_after e l end.
Definition map_end (self : MapSerializer) : result BcsError (list u8) :=
  match next_key self with
  | Some _ => Err ExpectedMapValue
  | None =>
      let entries := dedup_entries (sort_entries (entries self)) in
      s ← output_seq_len (len entries) (map_serializer self);
      Ok (output (extend_output s (flat_map (λ e, e.1 ++ e.2) entries)))
  end.

(** [to_bytes] *)
Definition to_bytes (value : Serialize) : result BcsError (list u8) :=
  value {| output := []; ser_depth := MAX_CONTAINER_DEPTH |}.
