(* ===== verification/BcsCodecs.v ===== *)
(** * BcsCodecs: what the canonical format reads is exactly what it writes

    [parses m P]: the computation [m] accepts the byte strings of [P] and no others, and
    never fails otherwise than with an error; the laws of the operations of [Bcs] with
    respect to it, and of the serializer with respect to the same byte strings. *)

From Stdlib Require Import String.
From S2P Require Import Prelude CoreTypes FileFormat BinaryCommon Uleb Bcs.

(** A parser and its language, with room for [r] named containers *)
Record parses {S A} (r : N) (m : De S A) (P : A → list u8 → Prop) : Prop := {
  ps_sound d s a d' s' : bytes_ok (input d) → m d s = Ok (a, d', s') →
    s' = s ∧ max_remaining_depth d' = max_remaining_depth d ∧ ∃ bs, input d = bs ++ input d' ∧ P a bs;
  ps_complete a bs rest k s : P a bs → r <= k →
    m {| input := bs ++ rest; max_remaining_depth := k |} s = Ok (a, {| input := rest; max_remaining_depth := k |}, s);
  ps_total d s : bytes_ok (input d) → no_panic (m d s) }.

(** A serializer of [bs], with room for [r] named containers *)
Definition writes (r : N) (v : Serialize) (bs : list u8) : Prop :=
  ∀ out k, r <= k → v {| output := out; ser_depth := k |} = Ok (out ++ bs).

Section Codecs.
Context {S : Type} (r : N).
Notation De := (De S).
Notation parses := (parses (S := S) r).

Lemma parses_ret {A} (a : A) : parses (mret a : De A) (λ a' bs, a' = a ∧ bs = []).
Proof. split; [|by intros a' bs rest k s [-> ->]|done]. intros d s a' d' s' _ [= <- <- <-]. split_and!; [done..|]. by exists []. Qed.
Lemma parses_ext {A} (m : De A) P Q : parses m P → (∀ a bs, P a bs ↔ Q a bs) → parses m Q.
Proof.
  intros [H1 H2 H3] HPQ. split; [|by intros a bs rest k s HQ%HPQ; apply H2|done].
  intros d s a d' s' Hd Hm. destruct (H1 _ _ _ _ _ Hd Hm) as (? & ? & bs & ? & ?%HPQ). eauto.
Qed.
Lemma bytes_ok_app l l' : bytes_ok (l ++ l') ↔ bytes_ok l ∧ bytes_ok l'.
Proof. apply Forall_app. Qed.
Lemma parses_bind {A B} (m : De A) (f : A → De B) P (Q : A → B → list u8 → Prop) :
  parses m P → (∀ a bs, P a bs → parses (f a) (Q a)) →
  parses (m ≫= f) (λ b bs, ∃ a bs1 bs2, bs = bs1 ++ bs2 ∧ P a bs1 ∧ Q a b bs2).
Proof.
  intros [M1 M2 M3] Hf. unfold mbind, De_bind. split.
  - intros d s b d' s' Hd ([[a d1] s1] & H1 & H2)%bind_Ok.
    destruct (M1 _ _ _ _ _ Hd H1) as (-> & E1 & bs1 & Hbs1 & HP). rewrite Hbs1 in Hd. apply bytes_ok_app in Hd as [_ Hd].
    destruct (ps_sound _ _ _ (Hf _ _ HP) _ _ _ _ _ Hd H2) as (-> & E2 & bs2 & Hbs2 & HQ).
    split_and!; [done|congruence|]. exists (bs1 ++ bs2). rewrite Hbs1, Hbs2, app_assoc. eauto 10.
  - intros b bs rest k s (a & bs1 & bs2 & -> & HP & HQ) Hk. rewrite <- app_assoc, (M2 a) by done. cbn.
    by apply (ps_complete _ _ _ (Hf _ _ HP)).
  - intros d s Hd. apply bind_no_panic; [by apply M3|]. intros [[a d1] s1] H1.
    destruct (M1 _ _ _ _ _ Hd H1) as (-> & E1 & bs1 & Hbs1 & HP). rewrite Hbs1 in Hd. apply bytes_ok_app in Hd as [_ Hd].
    by apply (ps_total _ _ _ (Hf _ _ HP)).
Qed.
Lemma parses_bind_ret {A B} (m : De A) (f : A → B) P :
  parses m P → parses (x ← m; mret (f x)) (λ b bs, ∃ a, b = f a ∧ P a bs).
Proof.
  intros Hm. eapply parses_ext; [apply (parses_bind m _ P (λ a b bs, b = f a ∧ bs = [])); [done|]|].
  - intros a bs _. apply parses_ret.
  - intros b bs. split; [|intros (a & -> & HP); exists a, bs, []; by rewrite app_nil_r].
    intros (a & bs1 & bs2 & -> & HP & -> & ->). rewrite app_nil_r. eauto.
Qed.

(** ** Bytes and integers *)

Lemma le_bytes_from (l : list u8) :
  bytes_ok l → l = to_le_bytes (length l) (from_le_bytes l) ∧ from_le_bytes l < 2 ^ (8 * N.of_nat (length l)).
Proof.
  induction 1 as [|x l Hx Hl [IH1 IH2]]; [done|]. cbn [from_le_bytes length to_le_bytes].
  rewrite lor_add by done. rewrite N.shiftr_div_pow2. change (2 ^ 8) with 256 in *. unfold wrap. change (2 ^ 8) with 256.
  rewrite N.Div0.mod_add, N.mod_small by done. rewrite N.div_add by done. rewrite (N.div_small x) by done.
  rewrite N.add_0_l. split; [congruence|]. rewrite Nat2N.inj_succ, N.mul_succ_r, N.pow_add_r. change (2 ^ 8) with 256.
  revert IH2. generalize (2 ^ (8 * N.of_nat (length l))). intros p Hp. nia.
Qed.

Lemma parses_next : parses next (λ x bs, bs = [x] ∧ x < 256).
Proof.
  split.
  - intros [l k] s x d' s' Hd. destruct l as [|y l]; [done|]. intros [= <- <- <-]. split_and!; [done..|].
    exists [y]. by apply Forall_cons in Hd as [? _].
  - by intros x bs rest k s [-> _] _.
  - by intros [[|y l] k] s _.
Qed.
Lemma parses_fill_slice n : parses (fill_slice n) (λ l bs, bs = l ∧ length l = n ∧ bytes_ok l).
Proof.
  induction n as [|n IH]; cbn [fill_slice].
  - eapply parses_ext; [apply parses_ret|]. intros l bs. split; [intros [-> ->]; split_and!; [done..|constructor]|].
    intros (-> & ?%nil_length_inv & _). by subst.
  - eapply parses_ext; [apply parses_bind; [apply parses_next|intros x bs _; apply parses_bind_ret, IH]|].
    intros l bs. cbn. split.
    + intros (x & bs1 & bs2 & -> & [-> Hx] & l' & -> & -> & <- & Hl). split_and!; [done..|by constructor].
    + intros (-> & Hn & Hl). destruct l as [|x l]; [done|]. apply Forall_cons in Hl as [Hx Hl].
      exists x, [x], l. split_and!; [done..|]. exists l. split_and!; [done..|by injection Hn|done].
Qed.
Lemma parses_le n : parses (le_bytes ← fill_slice n; mret (from_le_bytes le_bytes))
  (λ x bs, bs = to_le_bytes n x ∧ x < 2 ^ (8 * N.of_nat n)).
Proof.
  eapply parses_ext; [apply parses_bind_ret, parses_fill_slice|]. intros x bs. split.
  - intros (l & -> & -> & Hn & Hl). subst n. by apply le_bytes_from.
  - intros [-> Hx]. exists (to_le_bytes n x). split_and!; [by rewrite from_to_le_bytes|done|apply to_le_bytes_length|apply to_le_bytes_ok].
Qed.
Lemma parses_bool : parses parse_bool (λ b bs, bs = [if b then 1 else 0]).
Proof.
  eapply parses_ext; [apply (parses_bind _ _ (λ x bs, bs = [x] ∧ x < 256) (λ x b bs, bs = [] ∧ x = if b : bool then 1 else 0)); [apply parses_next|]|].
  - intros x bs _. split.
    + intros d s b d' s' _. destruct x as [|[]]; try done; intros [= <- <- <-]; split_and!; try done; by exists [].
    + by intros [] bs' rest k s [-> ->] _.
    + intros d s _. by destruct x as [|[]].
  - intros b bs. split; [by intros (x & bs1 & bs2 & -> & [-> _] & -> & ->)|].
    intros ->. exists (if b then 1 else 0), [if b then 1 else 0], []. by destruct b.
Qed.

(** ** ULEB128 *)

Fixpoint shifts (n : nat) (shift : N) : list N :=
  match n with O => [] | Datatypes.S n => shift :: shifts n (shift + 7) end.

Lemma low_digit v : N.land v 127 = v mod 128.
Proof. change 127 with (N.ones 7). by rewrite land_low. Qed.
Lemma uleb_round n shift byte value (d : list u8) k s :
  uleb128_loop (S := S) (shifts (Datatypes.S n) shift) value {| input := byte :: d; max_remaining_depth := k |} s =
  (let value := N.lor value (N.shiftl (byte mod 128) shift) in
   if byte mod 128 =? byte then
     if (0 <? shift) && (byte mod 128 =? 0) then Err NonCanonicalUleb128Encoding
     else if value <=? u32_MAX then Ok (value, {| input := d; max_remaining_depth := k |}, s)
     else Err IntegerOverflowDuringUleb128Decoding
   else uleb128_loop (shifts n (shift + 7)) value {| input := d; max_remaining_depth := k |} s).
Proof.
  cbn [shifts uleb128_loop]. unfold next, mbind, De_bind at 1. cbn. rewrite low_digit.
  destruct (byte mod 128 =? byte); [|done]. destruct (_ && _); [done|]. by destruct (_ <=? u32_MAX).
Qed.
Lemma digit_value value shift x v :
  value < 2 ^ shift → x < 128 →
  N.lor value (N.shiftl x shift) = value + x * 2 ^ shift ∧ value + x * 2 ^ shift < 2 ^ (shift + 7) ∧
  value + (x + 128 * v) * 2 ^ shift = (value + x * 2 ^ shift) + v * 2 ^ (shift + 7).
Proof.
  intros Hv Hx. rewrite lor_add by done. rewrite N.pow_add_r. change (2 ^ 7) with 128.
  revert Hv. generalize (2 ^ shift). intros p Hv. split_and!; [done|nia|lia].
Qed.

Lemma uleb_loop_complete n v value shift rest k s :
  v < 2 ^ (7 * N.of_nat n) → (0 < n)%nat → value < 2 ^ shift → (0 < shift → 0 < v) → value + v * 2 ^ shift <= u32_MAX →
  uleb128_loop (S := S) (shifts n shift) value {| input := uleb n v ++ rest; max_remaining_depth := k |} s =
  Ok (value + v * 2 ^ shift, {| input := rest; max_remaining_depth := k |}, s).
Proof.
  revert v value shift. induction n as [|n IH]; intros v value shift Hv Hn Hval Hpos Hmax; [lia|]. cbn [uleb].
  destruct (N.ltb_spec v 128) as [Hlt|Hge].
  - cbn [app]. rewrite uleb_round. cbv zeta. rewrite (N.mod_small v) by done. rewrite N.eqb_refl.
    destruct (digit_value value shift v 0 Hval Hlt) as (-> & _ & _).
    assert ((0 <? shift) && (v =? 0) = false) as -> by lia. by rewrite (proj2 (N.leb_le _ _) Hmax).
  - cbn [app]. rewrite uleb_round. cbv zeta. pose proof (N.mod_lt v 128 ltac:(done)) as Hm.
    assert ((128 + v mod 128) mod 128 = v mod 128) as ->.
    { rewrite <- (N.mul_1_l 128) at 1. rewrite N.add_comm, N.Div0.mod_add. by apply N.mod_small. }
    destruct (N.eqb_spec (v mod 128) (128 + v mod 128)); [lia|].
    destruct (digit_value value shift (v mod 128) (v / 128) Hval Hm) as (-> & Hlt & Heq).
    assert (v = v mod 128 + 128 * (v / 128)) as Hdm by (rewrite N.add_comm; by apply N.div_mod).
    rewrite <- Hdm in Heq. rewrite Heq. apply IH.
    + by apply div128_lt.
    + destruct n; [|lia]. change (2 ^ (7 * N.of_nat 1)) with 128 in Hv. lia.
    + done.
    + intros _. assert (1 <= v / 128) by (apply N.div_le_lower_bound; lia). lia.
    + by rewrite <- Heq.
Qed.

Lemma uleb_loop_sound n value shift d s x d' s' :
  bytes_ok (input d) → value < 2 ^ shift → uleb128_loop (S := S) (shifts n shift) value d s = Ok (x, d', s') →
  s' = s ∧ max_remaining_depth d' = max_remaining_depth d ∧
  ∃ v, x = value + v * 2 ^ shift ∧ x <= u32_MAX ∧ v < 2 ^ (7 * N.of_nat n) ∧ (0 < shift → 0 < v) ∧
    input d = uleb n v ++ input d'.
Proof.
  revert value shift d. induction n as [|n IH]; intros value shift d Hb Hval; [done|].
  destruct d as [[|byte l] k]; [done|]. rewrite uleb_round. cbv zeta. cbn in Hb. apply Forall_cons in Hb as [Hbyte Hb].
  pose proof (N.mod_lt byte 128 ltac:(done)) as Hm.
  destruct (digit_value value shift (byte mod 128) 0 Hval Hm) as (-> & Hlt & _).
  destruct (N.eqb_spec (byte mod 128) byte) as [Heq|Hne].
  - destruct (_ && _) eqn:Hz; [done|]. destruct (N.leb_spec (value + byte mod 128 * 2 ^ shift) u32_MAX); [|done].
    intros [= <- <- <-]. split_and!; [done..|]. rewrite Heq in *. exists byte. split_and!; [done|done| |lia|].
    + eapply N.lt_le_trans; [exact Hm|]. change 128 with (2 ^ 7). apply N.pow_le_mono_r; lia.
    + cbn. by rewrite (proj2 (N.ltb_lt byte 128) Hm).
  - intros Hr. destruct (IH _ _ {| input := l; max_remaining_depth := k |} Hb Hlt Hr) as (-> & Hk & v & Hv & Hmax & Hvn & Hpos & Hin). split_and!; [done..|].
    assert (byte = 128 + byte mod 128) as Hbm.
    { pose proof (N.div_mod byte 128 ltac:(done)). assert (byte / 128 < 2) by (apply N.Div0.div_lt_upper_bound; lia).
      assert (byte / 128 ≠ 0) by (intros Hz; apply Hne, N.mod_small; by apply N.div_small_iff). lia. }
    assert (0 < v) by lia. assert (v * 128 < 2 ^ (7 * N.of_nat (Datatypes.S n))) as Hsz.
    { rewrite Nat2N.inj_succ, N.mul_succ_r, N.pow_add_r. change (2 ^ 7) with 128. by apply N.mul_lt_mono_pos_r. }
    exists (byte mod 128 + 128 * v). destruct (digit_value value shift (byte mod 128) v Hval Hm) as (_ & _ & ->).
    split_and!; [done|done| |lia|].
    + rewrite Nat2N.inj_succ, N.mul_succ_r, N.pow_add_r. change (2 ^ 7) with 128. revert Hvn. generalize (2 ^ (7 * N.of_nat n)).
      intros p Hp. nia.
    + cbn [uleb input]. destruct (N.ltb_spec (byte mod 128 + 128 * v) 128); [lia|].
      rewrite (N.mul_comm 128), N.Div0.mod_add, N.div_add, (N.div_small (byte mod 128)), N.add_0_l by done.
      rewrite (N.mod_small (byte mod 128)) by done. cbn in Hin. by rewrite Hin, <- Hbm.
Qed.
Lemma uleb_loop_total l value d s : no_panic (uleb128_loop (S := S) l value d s).
Proof.
  revert value d. induction l as [|shift l IH]; intros value [[|byte i] k]; try done.
  cbn [uleb128_loop]. unfold next, mbind, De_bind at 1. cbn. destruct (_ =? byte); [|apply IH].
  destruct (_ && _); [done|]. by destruct (_ <=? u32_MAX).
Qed.

Lemma parses_uleb : parses parse_u32_from_uleb128 (λ v bs, bs = uleb 5 v ∧ v <= u32_MAX).
Proof.
  unfold parse_u32_from_uleb128. change [0; 7; 14; 21; 28] with (shifts 5 0). split.
  - intros d s v d' s' Hd H. destruct (uleb_loop_sound 5 0 0 _ _ _ _ _ Hd (N.lt_0_1) H) as (-> & Hk & v' & -> & Hmax & _ & _ & Hin).
    rewrite N.mul_1_r, N.add_0_l in *. split_and!; [done..|]. eauto.
  - intros v bs rest k s [-> Hv] _. assert (v = 0 + v * 2 ^ 0) as Hv' by (rewrite N.mul_1_r; lia). rewrite Hv' at 2.
    apply uleb_loop_complete; [|lia|done|done|lia]. eapply N.le_lt_trans; [exact Hv|done].
  - intros d s _. apply uleb_loop_total.
Qed.
Lemma parses_length : parses parse_length (λ n bs, bs = uleb 5 n ∧ n <= MAX_SEQUENCE_LENGTH).
Proof.
  eapply parses_ext; [apply (parses_bind _ _ (λ v bs, bs = uleb 5 v ∧ v <= u32_MAX)
    (λ v n bs, n = v ∧ bs = [] ∧ v <= MAX_SEQUENCE_LENGTH)); [apply parses_uleb|]|].
  - intros v bs _. destruct (N.ltb_spec MAX_SEQUENCE_LENGTH v) as [Hlt|Hle].
    + split; [done| |done]. intros n bs' rest k s (-> & -> & ?). lia.
    + eapply parses_ext; [apply parses_ret|]. naive_solver.
  - intros n bs. split.
    + intros (v & bs1 & bs2 & -> & [-> _] & -> & -> & Hle). by rewrite app_nil_r.
    + intros [-> Hle]. exists n, (uleb 5 n), []. rewrite app_nil_r. split_and!; try done.
      unfold MAX_SEQUENCE_LENGTH, u32_MAX in *. etrans; [exact Hle|done].
Qed.

(** ** Sequences *)

(** The elements of a list, one after the other *)
Fixpoint all_encoded {A} (Ps : list (A → list u8 → Prop)) (l : list A) (bs : list u8) : Prop :=
  match Ps, l with
  | [], [] => bs = []
  | P :: Ps, x :: l => ∃ bs1 bs2, bs = bs1 ++ bs2 ∧ P x bs1 ∧ all_encoded Ps l bs2
  | _, _ => False
  end.

Lemma parses_element {A B} (seed : De A) (k : option A * N → De B) n P Q :
  parses seed P → n ≠ 0 → (∀ a bs, P a bs → parses (k (Some a, n - 1)) (Q a)) →
  parses (x ← next_element_seed seed n; k x) (λ b bs, ∃ a bs1 bs2, bs = bs1 ++ bs2 ∧ P a bs1 ∧ Q a b bs2).
Proof.
  intros Hs Hn Hk. unfold next_element_seed. apply N.eqb_neq in Hn as ->.
  eapply parses_ext; [apply (parses_bind _ _ (λ x bs, ∃ a, x = (Some a, n - 1) ∧ P a bs)
    (λ x b bs, ∃ a, x = (Some a, n - 1) ∧ Q a b bs))|].
  - by apply (parses_bind_ret seed (λ value, (Some value, n - 1))).
  - intros x bs (a & -> & HP). eapply parses_ext; [by eapply Hk|]. intros b bs'. naive_solver.
  - intros b bs. split.
    + intros (x & bs1 & bs2 & -> & (a & -> & HP) & a' & [= <-] & HQ). eauto 10.
    + intros (a & bs1 & bs2 & -> & HP & HQ). exists (Some a, n - 1), bs1, bs2. eauto 10.
Qed.

Lemma parses_fields {A} (seeds : list (De A)) Ps n :
  Forall2 parses seeds Ps → len seeds <= n → parses (visit_fields seeds n) (all_encoded Ps).
Proof.
  intros H. revert n. induction H as [|seed P seeds Ps Hs _ IH]; intros n Hn; cbn [visit_fields].
  { eapply parses_ext; [apply parses_ret|]. intros l bs. destruct l; cbn; naive_solver. }
  unfold len in *. cbn [length] in Hn. rewrite Nat2N.inj_succ in Hn.
  eapply parses_ext; [eapply (parses_element _ _ _ _ (λ a l bs, ∃ l', l = a :: l' ∧ all_encoded Ps l' bs)); [done|lia|]|].
  - intros a bs _. apply (parses_bind_ret _ (λ l, a :: l)). apply IH. lia.
  - intros l bs. cbn [all_encoded]. destruct l; naive_solver.
Qed.

Lemma parses_while {A} (seed : De A) P n :
  parses seed P → parses (while_elements (Datatypes.S (N.to_nat n)) seed n) (λ l bs, len l = n ∧ all_encoded (replicate (length l) P) l bs).
Proof.
  intros Hs. induction n as [|n IH] using N.peano_ind.
  { eapply parses_ext; [apply parses_ret|]. intros l bs. unfold len. destruct l; cbn; [naive_solver|]. split; [naive_solver|lia]. }
  rewrite N2Nat.inj_succ. remember (Datatypes.S (N.to_nat n)) as fuel eqn:Hf. cbn [while_elements].
  eapply parses_ext; [eapply (parses_element _ _ _ _
    (λ a l bs, ∃ l', l = a :: l' ∧ len l' = n ∧ all_encoded (replicate (length l') P) l' bs)); [done|lia|]|].
  - intros a bs _. eapply parses_ext; [apply (parses_bind_ret _ (λ l, a :: l))|].
    + replace (N.succ n - 1) with n by lia. apply IH.
    + naive_solver.
  - intros l bs. unfold len. destruct l as [|a l]; cbn; [split; [naive_solver|lia]|]. split.
    + intros (a' & bs1 & bs2 & -> & HP & l' & [= <- <-] & <- & Hl). split; [lia|]. eauto 10.
    + intros [Hn (bs1 & bs2 & -> & HP & Hl)]. exists a, bs1, bs2. split_and!; [done..|]. exists l. split_and!; [done|lia|done].
Qed.
End Codecs.

Section Containers.
Context {S : Type}.

Lemma parses_weaken {A} r r' (m : De S A) P : r <= r' → parses r m P → parses r' m P.
Proof. intros Hr [H1 H2 H3]. split; [done| |done]. intros a bs rest k s HP Hk. apply H2; [done|lia]. Qed.
Lemma parses_named {A} r name (m : De S A) P : parses r m P → parses (r + 1) (named_container name m) P.
Proof.
  intros [H1 H2 H3]. unfold named_container, mbind, De_bind, enter_named_container, leave_named_container. split.
  - intros [i k] s a d' s' Hd. cbn. destruct (N.eqb_spec k 0); [done|]. cbn.
    intros ([[a1 d1] s1] & Hm & [= <- <- <-])%bind_Ok.
    apply H1 in Hm as (-> & Hk & bs & Hin & HP); [|done]. cbn in Hk, Hin |- *. rewrite Hk. split_and!; [done|lia|]. eauto.
  - intros a bs rest k s HP Hk. cbn. destruct (N.eqb_spec k 0); [lia|]. cbn. rewrite (H2 a) by (done || lia). cbn.
    by replace (k - 1 + 1) with k by lia.
  - intros [i k] s Hd. cbn. destruct (k =? 0); [done|]. cbn. apply bind_no_panic; [by apply H3|]. by intros [[]] _.
Qed.
Lemma parses_seq {A} r (seed : De S A) P :
  parses r seed P →
  parses r (deserialize_seq (λ n, while_elements (Datatypes.S (N.to_nat n)) seed n))
    (λ l bs, len l <= MAX_SEQUENCE_LENGTH ∧ ∃ bs', bs = uleb 5 (len l) ++ bs' ∧ all_encoded (replicate (length l) P) l bs').
Proof.
  intros Hs. eapply parses_ext; [apply (parses_bind r _ _ (λ n bs, bs = uleb 5 n ∧ n <= MAX_SEQUENCE_LENGTH)
    (λ n l bs, len l = n ∧ all_encoded (replicate (length l) P) l bs)); [apply parses_length|]|].
  - intros n bs _. by apply parses_while.
  - intros l bs. split; [naive_solver|]. intros (Hl & bs' & -> & Ha). eauto 10.
Qed.

Lemma from_bytes_spec {A} r (m : De S A) P bytes s :
  parses r m P → r <= MAX_CONTAINER_DEPTH → bytes_ok bytes →
  no_panic (from_bytes_seed m bytes s) ∧ ∀ a s', from_bytes_seed m bytes s = Ok (a, s') ↔ s' = s ∧ P a bytes.
Proof.
  intros [H1 H2 H3] Hr Hb. set (d := {| input := bytes; max_remaining_depth := MAX_CONTAINER_DEPTH |}).
  assert (from_bytes_seed m bytes s = '(t, d', s') ← m d s; if input d' is [] then Ok (t, s') else Err RemainingInput) as E.
  { unfold from_bytes_seed. fold d. unfold mbind, De_bind. cbn. destruct (m d s) as [[[a d'] s']| | |]; [|done..]. cbn.
    unfold de_end. by destruct (input d'). }
  rewrite E. split.
  - apply bind_no_panic; [by apply H3|]. intros [[a d'] s'] _. by destruct (input d').
  - intros a s'. split.
    + intros ([[a' d'] s''] & Hm & Hd)%bind_Ok. destruct (input d') eqn:Hi; [|done]. injection Hd as -> ->.
      apply H1 in Hm as (-> & _ & bs & Hin & HP); [|done]. rewrite Hi, app_nil_r in Hin. by subst bs.
    + intros [-> HP]. pose proof (H2 a bytes [] MAX_CONTAINER_DEPTH s HP Hr) as Hm. rewrite app_nil_r in Hm.
      unfold d. by rewrite Hm.
Qed.
End Containers.

(** ** Writing *)

Lemma extend_nil self : extend_output self [] = self.
Proof. destruct self. unfold extend_output. cbn. by rewrite app_nil_r. Qed.
Lemma extend_extend self bs1 bs2 : extend_output (extend_output self bs1) bs2 = extend_output self (bs1 ++ bs2).
Proof. unfold extend_output. cbn. by rewrite app_assoc. Qed.

Lemma output_uleb n v self :
  v < 2 ^ (7 * N.of_nat n) → (0 < n)%nat → output_uleb_loop n v self = Ok (extend_output self (uleb n v)).
Proof.
  revert v self. induction n as [|n IH]; intros v self Hv Hn; [lia|]. cbn [output_uleb_loop uleb].
  destruct (N.leb_spec 128 v) as [Hge|Hlt]; destruct (N.ltb_spec v 128); try lia.
  - rewrite low_digit. pose proof (N.mod_lt v 128 ltac:(done)) as Hm. rewrite IH.
    + rewrite extend_extend. unfold wrap. change (2 ^ 8) with 256. rewrite (N.mod_small (v mod 128)) by lia.
      assert (N.lor (v mod 128) 128 = 128 + v mod 128) as ->.
      { change 128 with (N.shiftl 1 7) at 2. rewrite lor_add by done. change (2 ^ 7) with 128. lia. }
      by rewrite N.shiftr_div_pow2.
    + rewrite N.shiftr_div_pow2. by apply div128_lt.
    + destruct n; [|lia]. change (2 ^ (7 * N.of_nat 1)) with 128 in Hv. lia.
  - unfold wrap. rewrite N.mod_small; [done|]. change (2 ^ 8) with 256. lia.
Qed.
Lemma output_length n self : n <= MAX_SEQUENCE_LENGTH → output_seq_len n self = Ok (extend_output self (uleb 5 n)).
Proof.
  intros Hn. unfold output_seq_len. destruct (N.ltb_spec MAX_SEQUENCE_LENGTH n); [lia|]. unfold output_u32_as_uleb128.
  assert (n < 2 ^ 31) as Hn' by (eapply N.le_lt_trans; [exact Hn|done]).
  assert (n < 2 ^ 32) as Hn32 by (eapply N.lt_trans; [exact Hn'|done]).
  unfold wrap. rewrite N.mod_small by done. apply output_uleb; [|lia]. eapply N.lt_trans; [exact Hn32|done].
Qed.

Lemma writes_u8 r x : writes r (serialize_u8 x) [x].
Proof. by intros out k _. Qed.
Lemma writes_newtype r name v bs : writes r v bs → writes (r + 1) (serialize_newtype_struct name v) bs.
Proof.
  intros H out k Hk. unfold serialize_newtype_struct, ser_enter_named_container. cbn.
  destruct (N.eqb_spec k 0); [lia|]. cbn. apply H. lia.
Qed.
Lemma element_writes r v bs self : writes r v bs → r <= ser_depth self → serialize_element v self = Ok (extend_output self bs).
Proof. intros H Hr. unfold serialize_element. by rewrite (H _ _ Hr). Qed.
Lemma elements_write {A} r (ser : A → Serialize) Ps l bs self :
  Forall (λ P : A → list u8 → Prop, ∀ x bs, P x bs → writes r (ser x) bs) Ps → r <= ser_depth self →
  all_encoded Ps l bs → try_fold (λ t x, serialize_element (ser x) t) l self = Ok (extend_output self bs).
Proof.
  intros HPs. revert l bs self. induction HPs as [|P Ps HP _ IH]; intros [|x l] bs self Hr Hl; try done.
  - cbn in Hl. subst. by rewrite extend_nil.
  - destruct Hl as (bs1 & bs2 & -> & Hx & Hl). cbn [try_fold]. rewrite (element_writes r _ bs1) by auto. cbn.
    rewrite (IH l bs2); [by rewrite extend_extend|done|done].
Qed.
Lemma writes_seq {A} r (ser : A → Serialize) P l bs :
  (∀ x bs, P x bs → writes r (ser x) bs) → len l <= MAX_SEQUENCE_LENGTH → all_encoded (replicate (length l) P) l bs →
  writes r (λ self, t ← serialize_seq (Some (len l)) self;
                    t ← try_fold (λ t x, serialize_element (ser x) t) l t; Ok (output t)) (uleb 5 (len l) ++ bs).
Proof.
  intros HP Hl Hbs out k Hk. cbn. rewrite output_length by done. cbn.
  erewrite elements_write; [|by apply Forall_replicate|done|done]. cbn. by rewrite app_assoc.
Qed.
