(* ===== verification/MoveValues.v ===== *)
(** * MoveValues: values with their types, and their serialized form

    Models [MoveValue] and [MoveStruct] of [language/move-core/types/src/value.rs] with
    their serialization, [language/move-binary-format/src/constant.rs] and the pass
    [language/bytecode-verifier/src/constants.rs].  A layout accepts exactly the
    serialized forms of the values that have it. *)

From Stdlib Require Import String.
From S2P Require Import Prelude CoreTypes VmStatus Abilities FileFormat Errors BinaryCommon Uleb Bcs BcsCodecs Layouts.

(** ** Values *)

(** [pub enum MoveValue] and [pub enum MoveStruct] *)
Inductive MoveValue : Set :=
| MU8 (x : u8)
| MU64 (x : u64)
| MU128 (x : u128)
| MBool (b : bool)
| MAddress (a : AccountAddress)
| MVector (vs : list MoveValue)
| MStruct (s : MoveStruct)
| MSigner (a : AccountAddress)
with MoveStruct : Set :=
| MRuntime (vs : list MoveValue)
| MWithFields (vs : list (Identifier * MoveValue)).

(** [MoveStruct::fields], [MoveStruct::into_fields], [MoveStructLayout::into_fields] *)
Definition struct_fields {E} (self : MoveStruct) : result E (list MoveValue) :=
  match self with MRuntime vals => Ok vals | MWithFields _ => Panic end.
Definition struct_into_fields (self : MoveStruct) : list MoveValue :=
  match self with MRuntime vals => vals | MWithFields vals => vals.*2 end.
Definition layout_into_fields (self : MoveStructLayout) : list MoveTypeLayout :=
  match self with Runtime vals => vals | WithFields vals => vals.*2 end.
Definition move_vector_u8 (v : list u8) : MoveValue := MVector (MU8 <$> v).
Definition move_vector_address (v : list AccountAddress) : MoveValue := MVector (MAddress <$> v).

(** *** Serialization *)

(** [Serialize for AccountAddress], whose array is a tuple of bytes, and [Identifier] *)
Definition serialize_array (bytes : list u8) : Serialize := λ self,
  t ← serialize_tuple (len bytes) self;
  t ← try_fold (λ t x, serialize_element (serialize_u8 x) t) bytes t;
  Ok (output t).
Definition serialize_address (a : AccountAddress) : Serialize :=
  serialize_newtype_struct "AccountAddress" (serialize_array a).
Definition serialize_identifier (i : Identifier) : Serialize :=
  serialize_newtype_struct "Identifier" (serialize_str i).

(** [Serialize for MoveValue] and [Serialize for MoveStruct] *)
Fixpoint serialize_move (self : MoveValue) : Serialize :=
  match self with
  | MStruct s => serialize_move_struct s
  | MBool b => serialize_bool b
  | MU8 i => serialize_u8 i
  | MU64 i => serialize_u64 i
  | MU128 i => serialize_u128 i
  | MAddress a | MSigner a => serialize_address a
  | MVector v => λ s,
      t ← serialize_seq (Some (len v)) s;
      t ← try_fold (λ t v, serialize_element (serialize_move v) t) v t;
      Ok (output t)
  end
with serialize_move_struct (self : MoveStruct) : Serialize :=
  match self with
  | MRuntime s => λ self,
      t ← serialize_tuple (len s) self;
      t ← try_fold (λ t v, serialize_element (serialize_move v) t) s t;
      Ok (output t)
  | MWithFields s => λ self,
      t ← serialize_map self;
      t ← try_fold (λ t e,
            let '(f, v) := e in
            t ← serialize_key (serialize_identifier f) t;
            serialize_value (serialize_move v) t) s t;
      map_end t
  end.

(** [.ok()] *)
Definition ok_ {E F A} (r : result E A) : result F (option A) :=
  match r with Ok a => Ok (Some a) | Err _ => Ok None | Panic => Panic | OutOfFuel => OutOfFuel end.
Definition move_simple_serialize {E} (self : MoveValue) : result E (option (list u8)) := ok_ (to_bytes (serialize_move self)).

(** *** Deserialization *)

(** [Deserialize for AccountAddress]: an array of [LENGTH] bytes in a newtype *)
Definition deserialize_array {S} (n : N) : De S (list u8) :=
  deserialize_tuple n (visit_fields (replicate (N.to_nat n) (deserialize_u8 mret))).
Definition deserialize_address {S} : De S AccountAddress :=
  value ← deserialize_newtype_struct "AccountAddress" (deserialize_array ADDRESS_LENGTH);
  mret value.

(** [DeserializeSeed for &MoveTypeLayout] and [&MoveStructLayout] with their visitors *)
Fixpoint deserialize_move (self : MoveTypeLayout) : De unit MoveValue :=
  match self with
  | LBool => x ← deserialize_bool mret; mret (MBool x)
  | LU8 => x ← deserialize_u8 mret; mret (MU8 x)
  | LU64 => x ← deserialize_u64 mret; mret (MU64 x)
  | LU128 => x ← deserialize_u128 mret; mret (MU128 x)
  | LAddress => x ← deserialize_address; mret (MAddress x)
  | LSigner => x ← deserialize_address; mret (MSigner x)
  | LStruct ty => x ← deserialize_move_struct ty; mret (MStruct x)
  | LVector layout =>
      x ← deserialize_seq (λ remaining, while_elements (S (N.to_nat remaining)) (deserialize_move layout) remaining);
      mret (MVector x)
  end
with deserialize_move_struct (self : MoveStructLayout) : De unit MoveStruct :=
  match self with
  | Runtime layout =>
      fields ← deserialize_tuple (len layout) (visit_fields (map deserialize_move layout));
      mret (MRuntime fields)
  | WithFields layout =>
      fields ← deserialize_tuple (len layout)
        (visit_fields (map (λ f : Identifier * MoveTypeLayout, v ← deserialize_move f.2; mret (f.1, v)) layout));
      mret (MWithFields fields)
  end.
Definition move_simple_deserialize {E} (blob : list u8) (ty : MoveTypeLayout) : result E (option MoveValue) :=
  ok_ ('(v, _) ← from_bytes_seed (deserialize_move ty) blob tt; Ok v).
Definition struct_simple_deserialize {E} (blob : list u8) (ty : MoveStructLayout) : result E (option MoveStruct) :=
  ok_ ('(v, _) ← from_bytes_seed (deserialize_move_struct ty) blob tt; Ok v).

(** ** Constants *)

(** [sig_to_ty], [ty_to_sig] *)
Fixpoint sig_to_ty (sig : SignatureToken) : option MoveTypeLayout :=
  match sig with
  | SignatureToken.Signer => Some LSigner
  | SignatureToken.Address => Some LAddress
  | SignatureToken.Bool => Some LBool
  | SignatureToken.U8 => Some LU8
  | SignatureToken.U64 => Some LU64
  | SignatureToken.U128 => Some LU128
  | SignatureToken.Vector v => v ← sig_to_ty v; Some (LVector v)
  | _ => None
  end.
Fixpoint ty_to_sig (ty : MoveTypeLayout) : option SignatureToken :=
  match ty with
  | LAddress => Some SignatureToken.Address
  | LSigner => Some SignatureToken.Signer
  | LU8 => Some SignatureToken.U8
  | LU64 => Some SignatureToken.U64
  | LU128 => Some SignatureToken.U128
  | LVector v => v ← ty_to_sig v; Some (SignatureToken.Vector v)
  | LStruct _ => None
  | LBool => Some SignatureToken.Bool
  end.

(** [Constant::serialize_constant], [Constant::deserialize_constant] *)
Definition serialize_constant {E} (ty : MoveTypeLayout) (v : MoveValue) : result E (option Constant) :=
  match ty_to_sig ty with
  | None => Ok None
  | Some type_ =>
      data ← move_simple_serialize v;
      Ok (data ← data; Some {| const_type := type_; const_data := data |})
  end.
Definition deserialize_constant {E} (self : Constant) : result E (option MoveValue) :=
  match sig_to_ty (const_type self) with
  | None => Ok None
  | Some ty => move_simple_deserialize (const_data self) ty
  end.

(** [constants.rs] *)
Definition verify_constant_type (idx : N) (type_ : SignatureToken) : result PartialVMError unit :=
  if SignatureToken.is_valid_for_constant type_ then Ok tt
  else Err (verification_error INVALID_CONSTANT_TYPE KConstantPool idx).
Definition verify_constant_data (idx : N) (constant : Constant) : result PartialVMError unit :=
  v ← deserialize_constant constant;
  match v with Some _ => Ok tt | None => Err (verification_error MALFORMED_CONSTANT_DATA KConstantPool idx) end.
Definition verify_constant (idx : N) (constant : Constant) : result PartialVMError unit :=
  _ ← verify_constant_type idx (const_type constant); verify_constant_data idx constant.
Definition verify_constants (pool : list Constant) : result PartialVMError unit :=
  for_each (λ p : N * Constant, verify_constant (wrap 16 p.1) p.2) (enumerate pool).
Definition constants_verify_module (module : CompiledModule) : result PartialVMError unit :=
  verify_constants (m_constant_pool module).
Definition constants_verify_script (script : CompiledScript) : result PartialVMError unit :=
  verify_constants (s_constant_pool script).
