(* ===== verification/MoveValueCodec.v ===== *)
(** * MoveValueCodec: serialized values are canonical

    Which byte strings a layout accepts, and that they are the serialized forms of the
    values of the layout; constants, and what the constants pass accepts. *)

From Stdlib Require Import String.
From S2P Require Import Prelude CoreTypes VmStatus Abilities FileFormat Errors BinaryCommon Uleb Bcs BcsCodecs Layouts MoveValues.

(** ** Layouts *)

Section LayoutInduction.
Context (P : MoveTypeLayout → Prop) (Q : MoveStructLayout → Prop).
Context (H1 : P LBool) (H2 : P LU8) (H3 : P LU64) (H4 : P LU128) (H5 : P LAddress) (H6 : P LSigner).
Context (H7 : ∀ l, P l → P (LVector l)) (H8 : ∀ s, Q s → P (LStruct s)).
Context (H9 : ∀ ls, Forall P ls → Q (Runtime ls)) (H10 : ∀ fs : list (Identifier * MoveTypeLayout), Forall (λ f, P f.2) fs → Q (WithFields fs)).
Fixpoint layout_nested_ind (l : MoveTypeLayout) : P l :=
  match l with
  | LBool => H1 | LU8 => H2 | LU64 => H3 | LU128 => H4 | LAddress => H5 | LSigner => H6
  | LVector l => H7 l (layout_nested_ind l)
  | LStruct (Runtime ls) => H8 (Runtime ls) (H9 ls
      ((fix go (ls : list MoveTypeLayout) : Forall P ls :=
          match ls with [] => Forall_nil_2 _ | l :: ls => Forall_cons_2 _ _ _ (layout_nested_ind l) (go ls) end) ls))
  | LStruct (WithFields fs) => H8 (WithFields fs) (H10 fs
      ((fix go (fs : list (Identifier * MoveTypeLayout)) : Forall (λ f, P f.2) fs :=
          match fs with [] => Forall_nil_2 _ | f :: fs => Forall_cons_2 _ _ _ (layout_nested_ind f.2) (go fs) end) fs))
  end.
End LayoutInduction.

(** Only the representation of the virtual machine *)
Fixpoint undecorated (l : MoveTypeLayout) : bool :=
  match l with
  | LVector l => undecorated l
  | LStruct (Runtime ls) => forallb undecorated ls
  | LStruct (WithFields _) => false
  | _ => true
  end.

Definition address_ok (a : AccountAddress) : bool :=
  (len a =? ADDRESS_LENGTH) && forallb (λ x, x <? 256) a.
(** The values of a layout: numbers in their range, sequences no longer than [MAX_SEQUENCE_LENGTH] *)
Fixpoint move_has_layout (l : MoveTypeLayout) (v : MoveValue) {struct l} : bool :=
  match l, v with
  | LBool, MBool _ => true
  | LU8, MU8 x => x <=? u8_MAX
  | LU64, MU64 x => x <=? u64_MAX
  | LU128, MU128 x => x <=? u128_MAX
  | LAddress, MAddress a | LSigner, MSigner a => address_ok a
  | LVector l, MVector vs => (len vs <=? MAX_SEQUENCE_LENGTH) && forallb (move_has_layout l) vs
  | LStruct (Runtime ls), MStruct (MRuntime vs) =>
      (fix go (ls : list MoveTypeLayout) (vs : list MoveValue) : bool :=
         match ls, vs with
         | [], [] => true
         | l :: ls, v :: vs => move_has_layout l v && go ls vs
         | _, _ => false
         end) ls vs
  | _, _ => false
  end.

(** ** The accepted bytes *)

Definition encodes_address (a : AccountAddress) (bs : list u8) : Prop := bs = a ∧ address_ok a = true.
Fixpoint encodes (l : MoveTypeLayout) (v : MoveValue) (bs : list u8) {struct l} : Prop :=
  match l, v with
  | LBool, MBool b => bs = [if b then 1 else 0]
  | LU8, MU8 x => bs = [x] ∧ x <= u8_MAX
  | LU64, MU64 x => bs = to_le_bytes 8 x ∧ x <= u64_MAX
  | LU128, MU128 x => bs = to_le_bytes 16 x ∧ x <= u128_MAX
  | LAddress, MAddress a | LSigner, MSigner a => encodes_address a bs
  | LVector l, MVector vs =>
      len vs <= MAX_SEQUENCE_LENGTH ∧
      ∃ bs', bs = uleb 5 (len vs) ++ bs' ∧ all_encoded (replicate (length vs) (encodes l)) vs bs'
  | LStruct s, MStruct v => encodes_struct s v bs
  | _, _ => False
  end
with encodes_struct (s : MoveStructLayout) (v : MoveStruct) (bs : list u8) {struct s} : Prop :=
  match s, v with
  | Runtime ls, MRuntime vs => all_encoded (map encodes ls) vs bs
  | WithFields fs, MWithFields vs =>
      all_encoded (map (λ (f : Identifier * MoveTypeLayout) (p : Identifier * MoveValue) bs, p.1 = f.1 ∧ encodes f.2 p.2 bs) fs) vs bs
  | _, _ => False
  end.

Lemma all_encoded_bytes (n : nat) (l bs : list u8) :
  all_encoded (replicate n (λ x bs, bs = [x] ∧ x < 256)) l bs ↔ bs = l ∧ length l = n ∧ bytes_ok l.
Proof.
  revert l bs. induction n as [|n IH]; intros [|x l] bs; cbn.
  - split; [|naive_solver]. intros ->. split_and!; [done..|constructor].
  - naive_solver.
  - naive_solver.
  - setoid_rewrite IH. unfold bytes_ok. rewrite Forall_cons. split.
    + intros (bs1 & bs2 & -> & [-> Hx] & -> & <- & Hl). done.
    + intros (-> & [= <-] & Hx & Hl). by exists [x], l.
Qed.
Lemma address_ok_spec a : address_ok a = true ↔ length a = 32%nat ∧ bytes_ok a.
Proof.
  unfold address_ok, bytes_ok. rewrite andb_true_iff, N.eqb_eq, forallb_forall, Forall_forall. unfold len.
  setoid_rewrite list_elem_of_In. setoid_rewrite N.ltb_lt. change ADDRESS_LENGTH with 32. split; intros [Hn Ha]; (split; [lia|done]).
Qed.
Lemma parses_u8 {S} r : parses r (deserialize_u8 mret : De S u8) (λ x bs, bs = [x] ∧ x < 256).
Proof. eapply parses_ext; [apply (parses_bind_ret r next (λ x, x)), parses_next|]. naive_solver. Qed.
Lemma parses_address {S} : parses 1 (deserialize_address : De S AccountAddress) encodes_address.
Proof.
  unfold deserialize_address, deserialize_newtype_struct.
  eapply parses_ext; [apply (parses_bind_ret 1 _ (λ a, a)), (parses_named 0)|].
  - apply parses_fields; [|done]. apply Forall2_replicate, parses_u8.
  - intros a bs. setoid_rewrite all_encoded_bytes. unfold encodes_address. rewrite address_ok_spec.
    change (N.to_nat ADDRESS_LENGTH) with 32%nat. naive_solver.
Qed.

Lemma parses_u64 {S} r : parses r (deserialize_u64 mret : De S u64) (λ x bs, bs = to_le_bytes 8 x ∧ x <= u64_MAX).
Proof.
  eapply parses_ext; [apply (parses_bind_ret r _ (λ x, x)), (parses_le r 8)|]. intros x bs. change (8 * N.of_nat 8) with 64. unfold u64_MAX.
  split; [intros (? & -> & -> & ?); split; [done|lia]|intros [-> ?]; exists x; split_and!; [done|done|lia]].
Qed.
Lemma parses_u128 {S} r : parses r (deserialize_u128 mret : De S u128) (λ x bs, bs = to_le_bytes 16 x ∧ x <= u128_MAX).
Proof.
  eapply parses_ext; [apply (parses_bind_ret r _ (λ x, x)), (parses_le r 16)|]. intros x bs. change (8 * N.of_nat 16) with 128. unfold u128_MAX.
  split; [intros (? & -> & -> & ?); split; [done|lia]|intros [-> ?]; exists x; split_and!; [done|done|lia]].
Qed.

(** A layout reads the bytes that encode its values. *)
Lemma deserialize_move_parses l : parses 1 (deserialize_move l) (encodes l).
Proof.
  induction l as [| | | | | |l IH|s IH|ls IH|fs IH] using layout_nested_ind
    with (Q := λ s, parses 1 (deserialize_move_struct s) (encodes_struct s)); cbn [deserialize_move deserialize_move_struct].
  - eapply parses_ext; [apply parses_bind_ret, (parses_bind_ret 1 _ (λ b, b)), parses_bool|]. intros [] bs; naive_solver.
  - eapply parses_ext; [apply parses_bind_ret, parses_u8|]. intros [] bs; cbn; unfold u8_MAX; try naive_solver.
    split; [intros (a & [= ->] & -> & Ha); split; [done|lia]|intros [-> Hx]; exists x; split_and!; [done|done|lia]].
  - eapply parses_ext; [apply parses_bind_ret, parses_u64|]. intros [] bs; naive_solver.
  - eapply parses_ext; [apply parses_bind_ret, parses_u128|]. intros [] bs; naive_solver.
  - eapply parses_ext; [apply parses_bind_ret, parses_address|]. intros [] bs; naive_solver.
  - eapply parses_ext; [apply parses_bind_ret, parses_address|]. intros [] bs; naive_solver.
  - eapply parses_ext; [apply parses_bind_ret, parses_seq, IH|]. intros [] bs; naive_solver.
  - eapply parses_ext; [apply parses_bind_ret, IH|]. intros [] bs; naive_solver.
  - eapply parses_ext; [apply parses_bind_ret, parses_fields; [|unfold len; by rewrite length_map]|].
    + by apply Forall2_fmap_2, Forall_Forall2_diag.
    + intros [] bs; naive_solver.
  - eapply parses_ext; [apply parses_bind_ret, parses_fields; [|unfold len; by rewrite length_map]|].
    + apply (Forall2_fmap_2 _ (λ (f : Identifier * MoveTypeLayout) (p : Identifier * MoveValue) bs, p.1 = f.1 ∧ encodes f.2 p.2 bs)),
        Forall_Forall2_diag. eapply Forall_impl; [exact IH|]. intros f Hf.
      eapply parses_ext; [apply (parses_bind_ret 1 _ (λ v, (f.1, v))), Hf|]. intros [i v] bs. cbn [fst snd].
      split; [intros (a & [= Hi Hv] & Ha); by subst|intros [-> ?]; eauto].
    + intros [] bs; naive_solver.
Qed.

(** ** The serialized form *)

Lemma serialize_array_writes r l : writes r (serialize_array l) l.
Proof.
  intros out k Hk. unfold serialize_array. cbn.
  erewrite (elements_write r serialize_u8 (replicate (length l) (λ x bs, bs = [x])) l l); [done| |done|].
  - apply Forall_replicate. intros x bs ->. apply writes_u8.
  - clear. induction l as [|x l IH]; [done|]. cbn. by exists [x], l.
Qed.
Lemma serialize_address_writes a : writes 1 (serialize_address a) a.
Proof. apply (writes_newtype 0), serialize_array_writes. Qed.

Lemma serialize_move_writes l v bs : undecorated l = true → encodes l v bs → writes 1 (serialize_move v) bs.
Proof.
  revert v bs. induction l as [| | | | | |l IH|s IH|ls IH|fs IH] using layout_nested_ind
    with (Q := λ s, ∀ v bs, undecorated (LStruct s) = true → encodes_struct s v bs → writes 1 (serialize_move_struct v) bs);
    intros v bs Hu; destruct v; try done; cbn [encodes encodes_struct].
  - by intros -> out k _.
  - by intros [-> _] out k _.
  - by intros [-> _] out k _.
  - by intros [-> _] out k _.
  - intros [-> _]. apply serialize_address_writes.
  - intros [-> _]. apply serialize_address_writes.
  - intros (Hl & bs' & -> & Hbs). apply (writes_seq 1 serialize_move (encodes l)); auto.
  - intros Hs. by apply IH.
  - intros Hvs out k Hk. cbn. erewrite (elements_write 1 serialize_move); [done| |done|done].
    cbn in Hu. rewrite forallb_forall in Hu. apply Forall_fmap. rewrite Forall_forall in IH. apply Forall_forall.
    intros l Hl w bs' Hw. apply (IH l); [done| |done]. by apply Hu, list_elem_of_In.
Qed.

(** ** Values of a layout *)

Lemma all_encoded_length {A} (Ps : list (A → list u8 → Prop)) l bs : all_encoded Ps l bs → length Ps = length l.
Proof. revert l bs. induction Ps as [|P Ps IH]; intros [|x l] bs; try done. intros (? & ? & _ & _ & H). cbn. f_equal. by eapply IH. Qed.
Lemma all_encoded_elems {A} (P : A → list u8 → Prop) (ok : A → bool) l :
  (∀ x, ok x = true ↔ ∃ bs, P x bs) →
  forallb ok l = true ↔ ∃ bs, all_encoded (replicate (length l) P) l bs.
Proof.
  intros Hok. induction l as [|x l IH]; cbn; [naive_solver|]. rewrite andb_true_iff, IH, Hok. split.
  - intros [[bs1 H1] [bs2 H2]]. eauto 10.
  - intros (bs & bs1 & bs2 & -> & H1 & H2). eauto.
Qed.

Lemma has_layout_encodes l v : undecorated l = true → move_has_layout l v = true ↔ ∃ bs, encodes l v bs.
Proof.
  revert v. induction l as [| | | | | |l IH|s IH|ls IH|fs IH] using layout_nested_ind
    with (Q := λ s, ∀ v, undecorated (LStruct s) = true → move_has_layout (LStruct s) (MStruct v) = true ↔ ∃ bs, encodes_struct s v bs);
    intros v Hu; destruct v; try done; try (by split; [|intros [? []]]); try (by destruct s; (split; [|intros [? []]]));
    cbn [encodes encodes_struct move_has_layout].
  all: try (rewrite N.leb_le; naive_solver). 
  - naive_solver.
  - unfold encodes_address. naive_solver.
  - unfold encodes_address. naive_solver.
  - rewrite andb_true_iff, N.leb_le, (all_encoded_elems (encodes l)) by (intros w; by apply IH). naive_solver.
  - exact (IH _ Hu).
  - cbn in Hu. revert vs. induction IH as [|l ls Hl _ IHls]; intros [|v vs]; cbn; [split; [by exists []|done]|by split; [|intros []]|by split; [|intros []]|].
    cbn in Hu. apply andb_true_iff in Hu as [Hu1 Hu2]. rewrite andb_true_iff, Hl by done. specialize (IHls Hu2 vs). cbn in IHls. rewrite IHls.
    split; [intros [[bs1 H1] [bs2 H2]]; eauto 10|]. intros (bs & bs1 & bs2 & -> & H1 & H2). eauto.
Qed.

(** The accepted bytes are bytes. *)
Lemma all_encoded_ok {A} (Ps : list (A → list u8 → Prop)) l bs :
  Forall (λ P, ∀ x bs, P x bs → bytes_ok bs) Ps → all_encoded Ps l bs → bytes_ok bs.
Proof.
  intros H. revert l bs. induction H as [|P Ps HP _ IH]; intros [|x l] bs; try done.
  - intros ->. constructor.
  - intros (bs1 & bs2 & -> & H1 & H2). apply bytes_ok_app. eauto.
Qed.
Lemma encodes_bytes l v bs : encodes l v bs → bytes_ok bs.
Proof.
  assert (∀ a bs, encodes_address a bs → bytes_ok bs) as Ha by (by intros a bs' [-> [_ ?]%address_ok_spec]).
  revert v bs. induction l as [| | | | | |l IH|s IH|ls IH|fs IH] using layout_nested_ind
    with (Q := λ s, ∀ v bs, encodes_struct s v bs → bytes_ok bs); intros v bs; destruct v; try done; cbn [encodes encodes_struct].
  - intros ->. destruct b; by repeat constructor.
  - intros [-> Hx]. repeat constructor. unfold u8_MAX in Hx. lia.
  - intros [-> _]. apply to_le_bytes_ok.
  - intros [-> _]. apply to_le_bytes_ok.
  - apply Ha.
  - apply Ha.
  - intros (_ & bs' & -> & H). apply bytes_ok_app. split; [apply uleb_ok|]. eapply all_encoded_ok; [|done]. by apply Forall_replicate.
  - apply IH.
  - apply all_encoded_ok. by apply Forall_fmap.
  - apply all_encoded_ok. apply Forall_fmap. eapply Forall_impl; [exact IH|]. intros f Hf [i v] bs' [_ H]. by eapply Hf.
Qed.

(** [.ok()] of a computation that does not panic *)
Lemma ok_value {E F A} (r : result E A) a : ok_ (F := F) r = Ok (Some a) ↔ r = Ok a.
Proof. destruct r; split; try done; intros [= ->]; done. Qed.
Lemma ok_total {E F A} (r : result E A) : no_panic r → ∃ o, ok_ (F := F) r = Ok o.
Proof. destruct r; try done; eauto. Qed.

Lemma move_read {E} l blob :
  bytes_ok blob → (∃ o, move_simple_deserialize (E := E) blob l = Ok o) ∧
  ∀ v, move_simple_deserialize (E := E) blob l = Ok (Some v) ↔ encodes l v blob.
Proof.
  intros Hb. destruct (from_bytes_spec 1 _ _ blob tt (deserialize_move_parses l)) as [Ht Hs]; [done|done|].
  unfold move_simple_deserialize. split.
  - apply ok_total, bind_no_panic; [done|]. by intros [].
  - intros v. rewrite ok_value. split.
    + intros ([v' []] & Hr & [= ->])%bind_Ok. by apply Hs in Hr as [_ Hv].
    + intros Hv. by rewrite (proj2 (Hs v tt) (conj eq_refl Hv)).
Qed.
Lemma move_write {E} l v bs :
  undecorated l = true → encodes l v bs → move_simple_serialize (E := E) v = Ok (Some bs).
Proof.
  intros Hu Hv. unfold move_simple_serialize, to_bytes. by rewrite (serialize_move_writes l v bs Hu Hv).
Qed.
(** Reading inverts writing, and accepts nothing else. *)
Lemma move_codec {E} l v blob :
  undecorated l = true → bytes_ok blob →
  move_simple_deserialize (E := E) blob l = Ok (Some v) ↔
  move_has_layout l v = true ∧ move_simple_serialize (E := E) v = Ok (Some blob).
Proof.
  intros Hu Hb. destruct (move_read (E := E) l blob Hb) as [_ ->]. rewrite (has_layout_encodes l v Hu). split.
  - intros Hv. split; [eauto|by eapply move_write].
  - intros [[bs Hv] Hs]. rewrite (move_write (E := E) l v bs Hu Hv) in Hs. by injection Hs as <-.
Qed.

(** C18. A byte string is read as a value of a layout without field names exactly when the
    value has the layout and the byte string is its serialized form: reading inverts
    writing and each value has one accepted form. Reading any bytes by such a layout ends
    with a value or an error. *)
Theorem move_value_canonical (l : MoveTypeLayout) (blob : list u8) :
  undecorated l = true → bytes_ok blob →
  (∃ o, move_simple_deserialize (E := PartialVMError) blob l = Ok o) ∧
  ∀ v, move_simple_deserialize (E := PartialVMError) blob l = Ok (Some v) ↔
       move_has_layout l v = true ∧ move_simple_serialize (E := PartialVMError) v = Ok (Some blob).
Proof. intros Hu Hb. split; [by apply move_read|]. intros v. by apply move_codec. Qed.
Lemma move_value_canonical_witness :
  move_simple_deserialize (E := PartialVMError) [2; 1; 0; 7; 1] (LVector (LStruct (Runtime [LU8; LBool]))) =
  Ok (Some (MVector [MStruct (MRuntime [MU8 1; MBool false]); MStruct (MRuntime [MU8 7; MBool true])])).
Proof.
  apply (proj2 (move_value_canonical (LVector (LStruct (Runtime [LU8; LBool]))) [2; 1; 0; 7; 1] eq_refl
    ltac:(repeat constructor))). split; reflexivity.
Defined.

(** A struct with named fields is written as a map and read as a tuple: what is
    written is not read back, and what is read is written otherwise. *)
Theorem decorated_struct_round_trip_fails :
  let l := LStruct (WithFields [([97], LU8)]) in
  let v := MStruct (MWithFields [([97], MU8 7)]) in
  move_simple_serialize (E := PartialVMError) v = Ok (Some [1; 1; 97; 7]) ∧
  move_simple_deserialize (E := PartialVMError) [1; 1; 97; 7] l = Ok None ∧
  move_simple_deserialize (E := PartialVMError) [7] l = Ok (Some v).
Proof. by vm_compute. Qed.

(** ** Constants *)

Lemma valid_constant_layout t :
  SignatureToken.is_valid_for_constant t = true → ∃ l, sig_to_ty t = Some l ∧ ty_to_sig l = Some t ∧ undecorated l = true.
Proof.
  induction t; try done; cbn; intros Ht; [by eexists..|]. destruct (IHt Ht) as (l & -> & H1 & H2). exists (LVector l). cbn. by rewrite H1.
Qed.
Definition constant_of (l : MoveTypeLayout) (v : MoveValue) (c : Constant) : Prop :=
  sig_to_ty (const_type c) = Some l ∧ move_has_layout l v = true ∧ serialize_constant (E := PartialVMError) l v = Ok (Some c).

Lemma constant_data_spec c :
  SignatureToken.is_valid_for_constant (const_type c) = true → bytes_ok (const_data c) →
  (∃ o, deserialize_constant (E := PartialVMError) c = Ok o) ∧
  ∀ v, deserialize_constant (E := PartialVMError) c = Ok (Some v) ↔ ∃ l, constant_of l v c.
Proof.
  intros Hc Hb. destruct (valid_constant_layout _ Hc) as (l & Hl & Hs & Hu). unfold deserialize_constant, constant_of. rewrite Hl.
  split; [by apply move_read|]. intros v. rewrite move_codec by done. unfold serialize_constant. split.
  - intros [Hv Hd]. exists l. rewrite Hs, Hd. split_and!; [done..|]. by destruct c.
  - intros (l' & [= <-] & Hv & Hd). split; [done|]. rewrite Hs in Hd. apply bind_Ok in Hd as (o & Ho & Hd).
    destruct o as [data|]; [|done]. cbn in Hd. by injection Hd as <-.
Qed.

Lemma verify_constant_spec idx c :
  bytes_ok (const_data c) →
  no_panic (verify_constant idx c) ∧
  (verify_constant idx c = Ok tt ↔ SignatureToken.is_valid_for_constant (const_type c) = true ∧ ∃ l v, constant_of l v c).
Proof.
  intros Hb. unfold verify_constant, verify_constant_type, verify_constant_data.
  destruct (SignatureToken.is_valid_for_constant (const_type c)) eqn:Hc; cbn; [|naive_solver].
  destruct (constant_data_spec c Hc Hb) as [[o Ho] Hs]. rewrite Ho in *. cbn. destruct o as [v|]; (split; [done|]).
  - split; [|done]. intros _. split; [done|]. destruct (proj1 (Hs v) eq_refl) as [l Hl]. eauto.
  - split; [done|]. intros [_ (l & v & Hv)]. enough (Ok None = Ok (E := PartialVMError) (Some v)) by done. apply Hs. eauto.
Qed.

Lemma constants_decide (pool : list Constant) :
  Forall (λ c, bytes_ok (const_data c)) pool →
  no_panic (verify_constants pool) ∧
  (verify_constants pool = Ok tt ↔
   Forall (λ c, SignatureToken.is_valid_for_constant (const_type c) = true ∧ ∃ l v, constant_of l v c) pool).
Proof.
  intros Hb. unfold verify_constants.
  assert (∀ Q : N * Constant → Prop, Forall Q (enumerate pool) ↔ ∀ k c, pool !! k = Some c → Q (N.of_nat k, c)) as HF.
  { intros Q. rewrite Forall_lookup. split.
    - intros H k c Hk. by apply (H k), enumerate_Some.
    - intros H k [o c] [-> Hk]%enumerate_Some. by apply H. }
  rewrite Forall_lookup in Hb. split.
  - apply for_each_no_panic, HF. intros k c Hk. by apply verify_constant_spec, (Hb k).
  - rewrite for_each_Ok, HF, Forall_lookup. cbn [fst snd]. split; intros H k c Hk; apply (verify_constant_spec (wrap 16 (N.of_nat k)) c (Hb k c Hk)); eauto.
Qed.
(** The constants pass never panics and accepts exactly the pools whose constants
    have a type for constants and as their data the serialized form of a value of that
    type. *)
Theorem verify_constants_spec (pool : list Constant) :
  Forall (λ c, bytes_ok (const_data c)) pool →
  no_panic (verify_constants pool) ∧
  (verify_constants pool = Ok tt ↔
   Forall (λ c, SignatureToken.is_valid_for_constant (const_type c) = true ∧ ∃ l v, constant_of l v c) pool).
Proof. apply constants_decide. Qed.
Lemma verify_constants_spec_witness :
  verify_constants [ {| const_type := SignatureToken.Vector SignatureToken.U8; const_data := [1; 9] |} ] = Ok tt.
Proof.
  apply (verify_constants_spec [ {| const_type := SignatureToken.Vector SignatureToken.U8; const_data := [1; 9] |} ]);
    [repeat constructor|].
  constructor; [|constructor]. split; [done|]. exists (LVector LU8), (MVector [MU8 9]). by split_and!.
Defined.
