(* ===== verification/ValueCodec.v ===== *)
(** * ValueCodec: the serialized form of the values of the machine

    Models the serialization and deserialization of
    [language/move-vm/types/src/values/values_impl.rs], by a layout, and proves that they
    are those of [MoveValues] on the data that the values denote. *)

From Stdlib Require Import String.
From S2P Require Import Prelude CoreTypes VmStatus Abilities FileFormat Errors BinaryCommon Bcs BcsCodecs Views Integers RuntimeTypes Heap Values HeapCounts ValueTrees Layouts MoveValues MoveValueCodec.

(** ** Serialization *)

(** What [r.borrow()] shows in a heap *)
Definition cell {E T} (k : Kind T) (h : Heap) (r : loc) : result E T :=
  match cells h !! r with Some c => unwrap (get k (content c)) | None => Panic end.
(** [invariant_violation] *)
Definition invariant_violation : Serialize := λ _, Err Custom.

(** [Vec::serialize] *)
Definition serialize_vec {T} (serialize : T → Serialize) (xs : list T) : Serialize := λ self,
  t ← serialize_seq (Some (len xs)) self;
  t ← try_fold (λ t x, serialize_element (serialize x) t) xs t;
  Ok (output t).
Definition serialize_cell {T} (k : Kind (list T)) (serialize : T → Serialize) (h : Heap) (r : loc) : Serialize := λ self,
  xs ← cell k h r; serialize_vec serialize xs self.
Definition serialize_address_value (v : ValueImpl) : Serialize :=
  match v with VAddress x => serialize_address x | _ => invariant_violation end.

(** [Serialize for AnnotatedValue] of a value, and of the fields of a struct *)
Fixpoint serialize_annotated (h : Heap) (layout : MoveTypeLayout) (val : ValueImpl) {struct layout} : Serialize :=
  match layout, val with
  | LU8, VU8 x => serialize_u8 x
  | LU64, VU64 x => serialize_u64 x
  | LU128, VU128 x => serialize_u128 x
  | LBool, VBool x => serialize_bool x
  | LAddress, _ => serialize_address_value val
  | LStruct struct_layout, VContainer (Struct r) => λ self,
      vs ← cell values h r;
      serialize_annotated_struct h struct_layout vs self
  | LVector layout, VContainer c =>
      match layout, c with
      | LU8, VecU8 r => serialize_cell u8s serialize_u8 h r
      | LU64, VecU64 r => serialize_cell u64s serialize_u64 h r
      | LU128, VecU128 r => serialize_cell u128s serialize_u128 h r
      | LBool, VecBool r => serialize_cell bools serialize_bool h r
      | LAddress, VecAddress r => serialize_cell addresses serialize_address h r
      | _, Vec r => serialize_cell values (serialize_annotated h layout) h r
      | _, _ => invariant_violation
      end
  | LSigner, VContainer (Struct r) => λ self,
      v ← cell values h r;
      match v with [v] => serialize_address_value v self | _ => invariant_violation self end
  | _, _ => invariant_violation
  end
with serialize_annotated_struct (h : Heap) (layout : MoveStructLayout) (vals : list ValueImpl) {struct layout} : Serialize :=
  match layout with
  | Runtime fields => λ self,
      if negb (len fields =? len vals) then invariant_violation self else
      t ← serialize_tuple (len vals) self;
      t ← try_fold (λ t (p : (ValueImpl → Serialize) * ValueImpl), serialize_element (p.1 p.2) t)
            (zip (map (serialize_annotated h) fields) vals) t;
      Ok (output t)
  | WithFields _ => λ _, Panic
  end.

(** [Value::simple_serialize], [Struct::simple_serialize] *)
Definition value_simple_serialize (self : ValueImpl) (layout : MoveTypeLayout) : HeapM (option (list u8)) := λ h,
  blob ← ok_ (to_bytes (serialize_annotated h layout self)); Ok (blob, h).
Definition fields_simple_serialize (self : list ValueImpl) (layout : MoveStructLayout) : HeapM (option (list u8)) := λ h,
  blob ← ok_ (to_bytes (serialize_annotated_struct h layout self)); Ok (blob, h).

(** ** Deserialization *)

Definition on_heap {A} (m : HeapM A) : De Heap A := λ d h,
  match m h with Ok (a, h) => Ok (a, d, h) | Err _ => Err Custom | Panic => Panic | OutOfFuel => OutOfFuel end.
(** [Vec::deserialize] *)
Definition deserialize_vec {S T} (seed : De S T) : De S (list T) :=
  deserialize_seq (λ remaining, while_elements (Datatypes.S (N.to_nat remaining)) seed remaining).

(** [DeserializeSeed for SeedWrapper] with its visitors *)
Fixpoint deserialize_seed (layout : MoveTypeLayout) : De Heap ValueImpl :=
  match layout with
  | LBool => x ← deserialize_bool mret; mret (VBool x)
  | LU8 => x ← deserialize_u8 mret; mret (VU8 x)
  | LU64 => x ← deserialize_u64 mret; mret (VU64 x)
  | LU128 => x ← deserialize_u128 mret; mret (VU128 x)
  | LAddress => x ← deserialize_address; mret (VAddress x)
  | LSigner => x ← deserialize_address; on_heap (value_signer x)
  | LStruct struct_layout => fields ← deserialize_seed_struct struct_layout; on_heap (struct_ fields)
  | LVector LU8 => xs ← deserialize_vec (deserialize_u8 mret); on_heap (vector_u8 xs)
  | LVector LU64 => xs ← deserialize_vec (deserialize_u64 mret); on_heap (vector_u64 xs)
  | LVector LU128 => xs ← deserialize_vec (deserialize_u128 mret); on_heap (vector_u128 xs)
  | LVector LBool => xs ← deserialize_vec (deserialize_bool mret); on_heap (vector_bool xs)
  | LVector LAddress => xs ← deserialize_vec deserialize_address; on_heap (vector_address xs)
  | LVector layout =>
      v ← deserialize_vec (deserialize_seed layout);
      on_heap (VContainer ∘ Vec <$> rc_new (CValues v))
  end
with deserialize_seed_struct (layout : MoveStructLayout) : De Heap (list ValueImpl) :=
  match layout with
  | Runtime fields =>
      fields ← deserialize_tuple (len fields) (visit_fields (map deserialize_seed fields));
      mret (struct_pack fields)
  | WithFields _ => λ _ _, Panic
  end.

(** [Value::simple_deserialize], [Struct::simple_deserialize]; after an error, what was built is dropped. *)
Definition value_simple_deserialize (blob : list u8) (layout : MoveTypeLayout) : HeapM (option ValueImpl) := λ h,
  r ← ok_ (from_bytes_seed (deserialize_seed layout) blob h);
  match r with Some (v, h) => Ok (Some v, h) | None => Ok (None, h) end.
Definition struct_value_deserialize (blob : list u8) (layout : MoveStructLayout) : HeapM (option (list ValueImpl)) := λ h,
  r ← ok_ (from_bytes_seed (deserialize_seed_struct layout) blob h);
  match r with Some (v, h) => Ok (Some v, h) | None => Ok (None, h) end.

(** [constant_sig_token_to_layout], [Value::deserialize_constant] *)
Fixpoint constant_sig_token_to_layout (constant_signature : SignatureToken) : option MoveTypeLayout :=
  match constant_signature with
  | SignatureToken.Bool => Some LBool
  | SignatureToken.U8 => Some LU8
  | SignatureToken.U64 => Some LU64
  | SignatureToken.U128 => Some LU128
  | SignatureToken.Address => Some LAddress
  | SignatureToken.Vector inner => inner ← constant_sig_token_to_layout inner; Some (LVector inner)
  | _ => None
  end.
Definition value_deserialize_constant (constant : Constant) : HeapM (option ValueImpl) :=
  match constant_sig_token_to_layout (const_type constant) with
  | Some layout => value_simple_deserialize (const_data constant) layout
  | None => mret None
  end.

(** ** The data of a layout *)

(** A tree of a layout as a typed value *)
Fixpoint tree_move (l : MoveTypeLayout) (t : tree) {struct l} : option MoveValue :=
  match l, t with
  | LBool, TBool b => Some (MBool b)
  | LU8, TU8 x => Some (MU8 x)
  | LU64, TU64 x => Some (MU64 x)
  | LU128, TU128 x => Some (MU128 x)
  | LAddress, TAddress a => Some (MAddress a)
  | LSigner, TStruct [TAddress a] => Some (MSigner a)
  | LVector LU8, TVecU8 xs => Some (MVector (MU8 <$> xs))
  | LVector LU64, TVecU64 xs => Some (MVector (MU64 <$> xs))
  | LVector LU128, TVecU128 xs => Some (MVector (MU128 <$> xs))
  | LVector LBool, TVecBool xs => Some (MVector (MBool <$> xs))
  | LVector LAddress, TVecAddress xs => Some (MVector (MAddress <$> xs))
  | LVector (LU8 | LU64 | LU128 | LBool | LAddress), _ => None
  | LVector l, TVec ts => MVector <$> mapM (tree_move l) ts
  | LStruct s, TStruct ts => MStruct <$> trees_move s ts
  | _, _ => None
  end
with trees_move (s : MoveStructLayout) (ts : list tree) {struct s} : option MoveStruct :=
  match s with
  | Runtime ls =>
      if bool_decide (length ls = length ts)
      then MRuntime <$> mapM (λ p : (tree → option MoveValue) * tree, p.1 p.2) (zip (map tree_move ls) ts)
      else None
  | WithFields _ => None
  end.

(** The two kinds of vectors *)
Inductive specialized : MoveTypeLayout → Prop :=
| spec_u8 : specialized LU8 | spec_u64 : specialized LU64 | spec_u128 : specialized LU128
| spec_bool : specialized LBool | spec_address : specialized LAddress.
#[export] Hint Constructors specialized : core.
Lemma specialized_dec l : specialized l ∨ ¬ specialized l.
Proof. destruct l; auto; right; inversion 1. Qed.
Lemma generic_vector l ts : ¬ specialized l → tree_move (LVector l) (TVec ts) = MVector <$> mapM (tree_move l) ts.
Proof. intros Hl. destruct l; try done; exfalso; apply Hl; constructor. Qed.
Lemma generic_move l t mv :
  ¬ specialized l → tree_move (LVector l) t = Some mv →
  ∃ ts mvs, t = TVec ts ∧ mv = MVector mvs ∧ mapM (tree_move l) ts = Some mvs.
Proof.
  intros Hl H. destruct l; try (exfalso; apply Hl; constructor); destruct t; try done;
    apply fmap_Some in H as (mvs & ? & ->); eauto.
Qed.

(** ** Serialization *)

Lemma cell_read {E T} (k : Kind T) h r x y :
  contents h !! r = Some x → get k x = Some y → cell (E := E) k h r = Ok y.
Proof. rewrite contents_lookup. unfold cell. destruct (cells h !! r); [|done]. by intros [= <-] ->. Qed.

Lemma try_fold_ext2 {E X Y B} (f : B → X → result E B) (g : B → Y → result E B) xs ys b :
  Forall2 (λ x y, ∀ b, f b x = g b y) xs ys → try_fold f xs b = try_fold g ys b.
Proof.
  intros H. revert b. induction H as [|x y xs ys Hxy _ IH]; intros b; [done|]. cbn [try_fold]. rewrite Hxy.
  destruct (g b y); [apply IH|done..].
Qed.
Lemma serialize_vec_ext {X Y} (f : X → Serialize) (g : Y → Serialize) xs ys self :
  Forall2 (λ x y, ∀ self, f x self = g y self) xs ys → serialize_vec f xs self = serialize_vec g ys self.
Proof.
  intros H. unfold serialize_vec, len. rewrite (Forall2_length _ _ _ H). destruct (serialize_seq _ self) as [t| | |]; [|done..]. cbn.
  erewrite try_fold_ext2; [done|]. eapply Forall2_impl; [exact H|]. intros x y Hxy b. unfold serialize_element. by rewrite Hxy.
Qed.
Lemma serialize_prims {X} (f : X → Serialize) (c : X → MoveValue) xs self :
  (∀ x, serialize_move (c x) = f x) → serialize_vec f xs self = serialize_move (MVector (c <$> xs)) self.
Proof.
  intros Hc. change (serialize_move (MVector (c <$> xs)) self) with (serialize_vec serialize_move (c <$> xs) self).
  apply serialize_vec_ext, Forall2_fmap_r, Forall_Forall2_diag, Forall_true. intros x s. by rewrite Hc.
Qed.

(** Reading a vector or a struct back from its tree *)
Lemma read_vec n m v ts :
  read_tree n m v = Some (TVec ts) →
  ∃ n' r vs, n = Datatypes.S n' ∧ v = VContainer (Vec r) ∧ m !! r = Some (CValues vs) ∧ mapM (read_tree n' m) vs = Some ts.
Proof.
  destruct n as [|n]; [done|]. destruct v as [| | | | | |c| |]; try done. cbn [read_tree].
  destruct c; cbn [container_loc]; destruct (m !! r) as [[]|] eqn:Hr; try done; intros H; try (by injection H);
    apply fmap_Some in H as (ts' & H & [= ->]). eauto 10.
Qed.
Lemma read_struct n m v ts :
  read_tree n m v = Some (TStruct ts) →
  ∃ n' r vs, n = Datatypes.S n' ∧ v = VContainer (Struct r) ∧ m !! r = Some (CValues vs) ∧ mapM (read_tree n' m) vs = Some ts.
Proof.
  destruct n as [|n]; [done|]. destruct v as [| | | | | |c| |]; try done. cbn [read_tree].
  destruct c; cbn [container_loc]; destruct (m !! r) as [[]|] eqn:Hr; try done; intros H; try (by injection H);
    apply fmap_Some in H as (ts' & H & [= ->]). eauto 10.
Qed.
(** A specialized vector: its container and its cell *)
Lemma read_special n m v t :
  read_tree n m v = Some t →
  match t with
  | TVecU8 xs => ∃ r, v = VContainer (VecU8 r) ∧ m !! r = Some (CU8 xs)
  | TVecU64 xs => ∃ r, v = VContainer (VecU64 r) ∧ m !! r = Some (CU64 xs)
  | TVecU128 xs => ∃ r, v = VContainer (VecU128 r) ∧ m !! r = Some (CU128 xs)
  | TVecBool xs => ∃ r, v = VContainer (VecBool r) ∧ m !! r = Some (CBool xs)
  | TVecAddress xs => ∃ r, v = VContainer (VecAddress r) ∧ m !! r = Some (CAddress xs)
  | TU8 x => v = VU8 x | TU64 x => v = VU64 x | TU128 x => v = VU128 x | TBool x => v = VBool x | TAddress x => v = VAddress x
  | _ => True
  end.
Proof.
  destruct n as [|n]; [done|]. destruct v as [| | | | | |c| |]; try done; try (by intros [= <-]). cbn [read_tree].
  destruct c; cbn [container_loc]; destruct (m !! r) as [[]|] eqn:Hr; try done; intros H; try (injection H as <-; by eauto);
    by apply fmap_Some in H as (ts' & _ & ->).
Qed.

(** A value is written as the typed value of its data. *)
Lemma serialize_annotated_spec h l n v t mv self :
  read_tree n (contents h) v = Some t → tree_move l t = Some mv →
  serialize_annotated h l v self = serialize_move mv self.
Proof.
  revert n v t mv self. induction l as [| | | | | |l IH|s IH|ls IH|fs IH] using layout_nested_ind
    with (Q := λ s, ∀ n vs ts m self, mapM (read_tree n (contents h)) vs = Some ts → trees_move s ts = Some m →
       serialize_annotated_struct h s vs self = serialize_move_struct m self);
    intros n v t mv self Hr Hm.
  1-5: (destruct t; try done; injection Hm as <-; apply read_special in Hr as ->; done).
  - destruct t as [| | | | | |ts| | | | |]; try done. destruct ts as [|[] []]; try done. injection Hm as <-.
    apply read_struct in Hr as (n' & r & vs & -> & -> & Hr & Hvs). cbn. rewrite (cell_read values h r _ vs Hr eq_refl). cbn.
    apply mapM_Some, Forall2_cons_inv_r in Hvs as (v & vs' & Hv & ->%Forall2_nil_inv_r & ->). apply read_special in Hv as ->. done.
  - destruct (specialized_dec l) as [Hl|Hl].
    + destruct Hl; destruct t; try done; injection Hm as <-; apply read_special in Hr as (r & -> & Hr);
        cbn [serialize_annotated]; unfold serialize_cell; erewrite cell_read by (exact Hr || reflexivity); cbn [mbind result_bind];
        by apply serialize_prims.
    + apply generic_move in Hm as (ts & mvs & -> & -> & Hm); [|done].
      apply read_vec in Hr as (n' & r & vs & -> & -> & Hr & Hvs).
      assert (serialize_annotated h (LVector l) (VContainer (Vec r)) = serialize_cell values (serialize_annotated h l) h r) as ->
        by (destruct l; try done; exfalso; apply Hl; constructor).
      unfold serialize_cell. rewrite (cell_read values h r _ vs Hr eq_refl). cbn [mbind result_bind].
      change (serialize_move (MVector mvs) self) with (serialize_vec serialize_move mvs self).
      apply serialize_vec_ext. apply mapM_Some in Hvs, Hm. clear -Hvs Hm IH. revert mvs Hm.
      induction Hvs as [|v t vs ts Hv _ IHvs]; intros mvs Hm; inversion Hm; subst; constructor; [|by apply IHvs].
      intros b. by eapply IH.
  - destruct t as [| | | | | |ts| | | | |]; try done. apply fmap_Some in Hm as (m & Hm & ->).
    apply read_struct in Hr as (n' & r & vs & -> & -> & Hr & Hvs). cbn [serialize_annotated].
    rewrite (cell_read values h r _ vs Hr eq_refl). cbn [mbind result_bind serialize_move]. by eapply IH.
  - cbn [trees_move] in Hm. case_bool_decide as Hlen; [|done]. apply fmap_Some in Hm as (mvs & Hm & ->).
    cbn [serialize_annotated_struct serialize_move_struct]. apply mapM_Some in Hr, Hm.
    pose proof (Forall2_length _ _ _ Hr) as Hl1. pose proof (Forall2_length _ _ _ Hm) as Hl2.
    rewrite length_zip, length_map in Hl2. unfold len. rewrite Hlen, Hl1, N.eqb_refl. cbn [negb].
    assert (length mvs = length v) as -> by lia. destruct (serialize_tuple _ self) as [s0| | |]; [|done..]. cbn [mbind result_bind].
    erewrite try_fold_ext2; [done|]. clear -Hr Hm IH Hlen. revert v t mvs Hr Hm Hlen.
    induction IH as [|l ls Hl _ IHls]; intros vs ts mvs Hr Hm Hlen.
    + destruct ts; [|done]. inversion Hr; subst. inversion Hm; subst. constructor.
    + destruct ts as [|t ts]; [done|]. apply Forall2_cons_inv_r in Hr as (v & vs' & Hv & Hr & ->).
      cbn in Hm. apply Forall2_cons_inv_l in Hm as (mv & mvs' & Hmv & Hm & ->). cbn. constructor; [|by eapply IHls; eauto].
      intros b. cbn. unfold serialize_element. by erewrite Hl by done.
  - done.
Qed.

(** ** Deserialization *)

(** [m2] reads like [m1] and builds in the heap what [Rel] says. *)
Definition simulates {A B} (Rel : Heap → list loc → B → Heap → A → Prop) (m1 : De unit A) (m2 : De Heap B) : Prop :=
  ∀ d h R, counted h R →
  match m1 d tt with
  | Ok (a, d', _) => ∃ b h', m2 d h = Ok (b, d', h') ∧ Rel h R b h' a
  | Err e => m2 d h = Err e
  | Panic => m2 d h = Panic
  | OutOfFuel => m2 d h = OutOfFuel
  end.

Lemma simulates_bind {A B A' B'} (Rel : Heap → list loc → B → Heap → A → Prop) (Rel' : Heap → list loc → B' → Heap → A' → Prop)
    m1 m2 k1 k2 :
  simulates Rel m1 m2 →
  (∀ a b d h R h1, counted h R → Rel h R b h1 a →
     match k1 a d tt with
     | Ok (a', d', _) => ∃ b' h', k2 b d h1 = Ok (b', d', h') ∧ Rel' h R b' h' a'
     | Err e => k2 b d h1 = Err e
     | Panic => k2 b d h1 = Panic
     | OutOfFuel => k2 b d h1 = OutOfFuel
     end) →
  simulates Rel' (m1 ≫= k1) (m2 ≫= k2).
Proof.
  intros Hm Hk d h R H. specialize (Hm d h R H). unfold mbind, De_bind.
  destruct (m1 d tt) as [[[a d1] []]|e| |]; try (by rewrite Hm). destruct Hm as (b & h1 & -> & Hab).
  exact (Hk a b d1 h R h1 H Hab).
Qed.
(** Reading that does not touch the heap *)
Definition same {A} : Heap → list loc → A → Heap → A → Prop := λ h _ b h' a, h' = h ∧ b = a.
Definition pure_de {A} (m : ∀ S, De S A) : Prop :=
  ∀ d h, match m unit d tt with
         | Ok (a, d', _) => m Heap d h = Ok (a, d', h)
         | Err e => m Heap d h = Err e | Panic => m Heap d h = Panic | OutOfFuel => m Heap d h = OutOfFuel
         end.
Lemma pure_simulates {A} (m : ∀ S, De S A) : pure_de m → simulates same (m unit) (m Heap).
Proof. intros Hm d h R _. specialize (Hm d h). destruct (m unit d tt) as [[[a d'] []]| | |]; try done. by exists a, h. Qed.
Lemma pure_bind {A B} (m : ∀ S, De S A) (k : ∀ S, A → De S B) :
  pure_de m → (∀ a, pure_de (λ S, k S a)) → pure_de (λ S, m S ≫= k S).
Proof.
  intros Hm Hk d h. specialize (Hm d h). unfold mbind, De_bind.
  destruct (m unit d tt) as [[[a d1] []]| | |]; cbn; try (by rewrite Hm). rewrite Hm. cbn. apply Hk.
Qed.
Lemma pure_ret {A} (a : A) : pure_de (λ S, mret a).
Proof. done. Qed.
Lemma pure_next : pure_de (@next).
Proof. by intros [[|x i] k] h. Qed.
Lemma pure_fill n : pure_de (λ S, fill_slice n).
Proof.
  induction n as [|n IH]; [done|]. apply (pure_bind (@next)); [apply pure_next|]. intros x.
  by apply (pure_bind (λ S, fill_slice n) (λ S bytes, mret (x :: bytes))).
Qed.
Lemma pure_uleb l value : pure_de (λ S, uleb128_loop l value).
Proof.
  revert value. induction l as [|shift l IH]; intros value; [done|].
  apply (pure_bind (@next)); [apply pure_next|]. intros byte d h.
  destruct (_ =? byte); [|apply IH]. destruct (_ && _); [done|]. by destruct (_ <=? u32_MAX).
Qed.
Lemma pure_length : pure_de (@parse_length).
Proof.
  apply (pure_bind (λ S, uleb128_loop [0; 7; 14; 21; 28] 0)); [apply pure_uleb|]. intros n d h.
  by destruct (MAX_SEQUENCE_LENGTH <? n).
Qed.
Definition read_bool S : De S bool := deserialize_bool mret.
Definition read_u8 S : De S u8 := deserialize_u8 mret.
Definition read_u64 S : De S u64 := deserialize_u64 mret.
Definition read_u128 S : De S u128 := deserialize_u128 mret.
Lemma pure_u8 : pure_de read_u8.
Proof. apply (pure_bind (@next)); [apply pure_next|done]. Qed.
Lemma pure_u64 : pure_de read_u64.
Proof. apply (pure_bind (@parse_u64)); [|done]. by apply (pure_bind (λ S, fill_slice 8)); [apply pure_fill|]. Qed.
Lemma pure_u128 : pure_de read_u128.
Proof. apply (pure_bind (@parse_u128)); [|done]. by apply (pure_bind (λ S, fill_slice 16)); [apply pure_fill|]. Qed.
Lemma pure_bool : pure_de read_bool.
Proof.
  apply (pure_bind (@parse_bool)); [|done]. apply (pure_bind (@next)); [apply pure_next|]. intros x d h. by destruct x as [|[]].
Qed.
Lemma pure_element {A B} (seed : ∀ S, De S A) (k : ∀ S, option A * N → De S B) n :
  pure_de seed → (∀ x, pure_de (λ S, k S x)) → pure_de (λ S, x ← next_element_seed (seed S) n; k S x).
Proof.
  intros Hs Hk. apply (pure_bind (λ S, next_element_seed (seed S) n)); [|done]. unfold next_element_seed.
  destruct (n =? 0); [done|]. by apply (pure_bind seed).
Qed.
Lemma pure_fields {A} (seed : ∀ S, De S A) m n : pure_de seed → pure_de (λ S, visit_fields (replicate m (seed S)) n).
Proof.
  intros Hs. revert n. induction m as [|m IH]; intros n; [done|].
  apply (pure_element seed (λ S '(e, n), match e with Some e => l ← visit_fields (replicate m (seed S)) n; mret (e :: l) | None => _ end));
    [done|]. intros [[e|] n']; [|done]. by apply (pure_bind (λ S, visit_fields (replicate m (seed S)) n') (λ S l, mret (e :: l))).
Qed.
Lemma pure_while {A} (seed : ∀ S, De S A) m n : pure_de seed → pure_de (λ S, while_elements m (seed S) n).
Proof.
  intros Hs. revert n. induction m as [|m IH]; intros n; [done|].
  apply (pure_element seed (λ S '(e, n), match e with Some e => l ← while_elements m (seed S) n; mret (e :: l) | None => _ end));
    [done|]. intros [[e|] n']; [|done]. by apply (pure_bind (λ S, while_elements m (seed S) n') (λ S l, mret (e :: l))).
Qed.
Lemma pure_vec {A} (seed : ∀ S, De S A) : pure_de seed → pure_de (λ S, deserialize_vec (seed S)).
Proof.
  intros Hs. apply (pure_bind (@parse_length)); [apply pure_length|]. intros n.
  by apply (pure_while seed).
Qed.
Lemma pure_named {A} name (m : ∀ S, De S A) : pure_de m → pure_de (λ S, named_container name (m S)).
Proof.
  intros Hm [i k] h. specialize (Hm {| input := i; max_remaining_depth := k - 1 |} h). unfold named_container, mbind, De_bind, enter_named_container.
  cbn. destruct (k =? 0); [done|]. cbn. destruct (m unit _ tt) as [[[a d1] []]| | |]; cbn; by rewrite Hm.
Qed.
Lemma pure_array n : pure_de (λ S, deserialize_array n).
Proof. apply (pure_fields read_u8), pure_u8. Qed.
Lemma pure_address : pure_de (@deserialize_address).
Proof.
  unfold deserialize_address.
  apply (pure_bind (λ S, deserialize_newtype_struct "AccountAddress" (deserialize_array ADDRESS_LENGTH)) (λ S value, mret value));
    [|intros a; apply pure_ret].
  apply (pure_named _ (λ S, deserialize_array ADDRESS_LENGTH)), pure_array.
Qed.

(** What is built for a typed value, and for a list of them *)
Definition built_value (f : tree → option MoveValue) : Heap → list loc → ValueImpl → Heap → MoveValue → Prop :=
  λ h R v h' mv, ∃ n t, built n h R v t h' ∧ f t = Some mv.
Definition built_values_of (fs : list (tree → option MoveValue)) : Heap → list loc → list ValueImpl → Heap → list MoveValue → Prop :=
  λ h R vs h' mvs, ∃ n ts, built_list n h R vs ts h' ∧ Forall3 (λ f t mv, f t = Some mv) fs ts mvs.

Lemma built_values_cons f fs h R v h1 mv vs h2 mvs :
  built_value f h R v h1 mv → built_values_of fs h1 (pointers v ++ R) vs h2 mvs →
  built_values_of (f :: fs) h R (v :: vs) h2 (mv :: mvs).
Proof.
  intros (n1 & t & B1 & Hf) (n2 & ts & B2 & Hfs). exists (n1 `max` n2)%nat, (t :: ts). split; [|by constructor].
  eapply built_cons; [eapply built_mono; [|done]; lia|eapply built_list_mono; [|done]; lia].
Qed.

(** The step from the first element to the others *)
Lemma simulates_element f fs (seed1 : De unit MoveValue) (seed2 : De Heap ValueImpl) n (rest1 : N → De unit (list MoveValue))
    (rest2 : N → De Heap (list ValueImpl)) (none1 : De unit (list MoveValue)) (none2 : De Heap (list ValueImpl)) :
  n ≠ 0 → simulates (built_value f) seed1 seed2 → simulates (built_values_of fs) (rest1 (n - 1)) (rest2 (n - 1)) →
  simulates (built_values_of (f :: fs))
    (x ← next_element_seed seed1 n;
     match x with (Some e, n) => l ← rest1 n; mret (e :: l) | (None, n) => none1 end)
    (x ← next_element_seed seed2 n;
     match x with (Some e, n) => l ← rest2 n; mret (e :: l) | (None, n) => none2 end).
Proof.
  intros Hn Hs Hr d h R H. unfold next_element_seed. apply N.eqb_neq in Hn as ->.
  specialize (Hs d h R H). unfold mbind, De_bind in *. cbn.
  destruct (seed1 d tt) as [[[a d1] []]|e| |]; cbn; try (by rewrite Hs). destruct Hs as (b & h1 & -> & Hb). cbn.
  assert (counted h1 (pointers b ++ R)) as H1 by (destruct Hb as (n' & t & B & _); apply B).
  specialize (Hr d1 h1 _ H1).
  destruct (rest1 (n - 1) d1 tt) as [[[l d2] []]|e| |]; cbn; try (by rewrite Hr). destruct Hr as (vs & h2 & -> & Hvs). cbn.
  exists (b :: vs), h2. split; [done|]. by eapply built_values_cons.
Qed.

Lemma simulates_fields fs seeds1 seeds2 n :
  Forall3 (λ f s1 s2, simulates (built_value f) s1 s2) fs seeds1 seeds2 → len fs <= n →
  simulates (built_values_of fs) (visit_fields seeds1 n) (visit_fields seeds2 n).
Proof.
  intros H. revert n. induction H as [|f s1 s2 fs ss1 ss2 Hs _ IH]; intros n Hn; cbn [visit_fields].
  - intros d h R H. exists [], h. split; [done|]. exists 0%nat, []. split; [by apply built_nil|constructor].
  - unfold len in *. cbn [length] in Hn. rewrite Nat2N.inj_succ in Hn.
    apply (simulates_element f fs s1 s2 n (visit_fields ss1) (visit_fields ss2)); [lia|done|]. apply IH. lia.
Qed.
Lemma simulates_while f seed1 seed2 n :
  simulates (built_value f) seed1 seed2 →
  simulates (built_values_of (replicate (N.to_nat n) f)) (while_elements (Datatypes.S (N.to_nat n)) seed1 n)
    (while_elements (Datatypes.S (N.to_nat n)) seed2 n).
Proof.
  intros Hs. induction n as [|n IH] using N.peano_ind.
  - intros d h R H. exists [], h. split; [done|]. exists 0%nat, []. split; [by apply built_nil|constructor].
  - rewrite N2Nat.inj_succ. remember (Datatypes.S (N.to_nat n)) as fuel eqn:Hf. cbn [while_elements].
    rewrite Hf at 1. cbn [replicate].
    apply (simulates_element f _ seed1 seed2 (N.succ n) (while_elements fuel seed1) (while_elements fuel seed2)); [lia|done|].
    by replace (N.succ n - 1) with n by lia.
Qed.
Lemma Forall3_replicate f ts mvs :
  Forall3 (λ (f : tree → option MoveValue) t mv, f t = Some mv) (replicate (length ts) f) ts mvs ↔ mapM f ts = Some mvs.
Proof.
  rewrite mapM_Some. split.
  - revert mvs. induction ts as [|t ts IH]; intros mvs H; cbn in H; inversion H; subst; constructor; auto.
  - induction 1; [constructor|]. by constructor.
Qed.
Lemma simulates_vec f seed1 seed2 :
  simulates (built_value f) seed1 seed2 →
  simulates (λ h R vs h' mvs, ∃ n ts, built_list n h R vs ts h' ∧ mapM f ts = Some mvs) (deserialize_vec seed1) (deserialize_vec seed2).
Proof.
  intros Hs. unfold deserialize_vec, deserialize_seq.
  eapply simulates_bind; [apply (pure_simulates (@parse_length)), pure_length|].
  intros n b d h R h1 H [-> ->]. pose proof (simulates_while f seed1 seed2 n Hs d h R H) as Hw.
  destruct (while_elements _ seed1 n d tt) as [[[l d1] []]|e| |]; try done.
  destruct Hw as (vs & h2 & Hw & n' & ts & B & HF). exists vs, h2. split; [done|]. exists n', ts. split; [done|].
  apply Forall3_replicate. assert (length ts = N.to_nat n) as ->; [|done].
  apply Forall3_length_lm in HF. by rewrite length_replicate in HF.
Qed.

(** Reading elements and changing each is reading and then changing them all. *)
Lemma vec_map {S A B} (seed : De S A) (c : A → B) d s :
  deserialize_vec (x ← seed; mret (c x)) d s =
  match deserialize_vec seed d s with
  | Ok (l, d', s') => Ok (c <$> l : list B, d', s') | Err e => Err e | Panic => Panic | OutOfFuel => OutOfFuel
  end.
Proof.
  unfold deserialize_vec, deserialize_seq, mbind, De_bind.
  destruct (parse_length d s) as [[[n d0] s0]| | |]; [|done..]. cbn [mbind result_bind]. generalize (Datatypes.S (N.to_nat n)).
  intros m. revert n d0 s0. induction m as [|m IH]; intros n d0 s0; [done|]. cbn [while_elements]. unfold next_element_seed, mbind, De_bind.
  destruct (n =? 0); [done|]. cbn. destruct (seed d0 s0) as [[[x d1] s1]| | |]; [|done..]. cbn. rewrite IH.
  by destruct (while_elements m seed (n - 1) d1 s1) as [[[]]| | |].
Qed.

(** A new value after reading *)
Lemma built_scalar n h R v t : counted h R → pointers v = [] → (∀ m, footprint (S n) m v = []) →
  (∀ m, read_tree (S n) m v = Some t) → built (S n) h R v t h.
Proof. intros H Hp Hf Ht. constructor; [by rewrite Hp|done|done|done|]. rewrite Hf. intros l Hl. by apply not_elem_of_nil in Hl. Qed.
Lemma simulates_scalar {A} f (m : ∀ S, De S A) (c1 : A → MoveValue) (c2 : A → ValueImpl) (ct : A → tree) :
  pure_de m → (∀ x, f (ct x) = Some (c1 x)) → (∀ x, pointers (c2 x) = []) → (∀ x m, footprint 1 m (c2 x) = []) →
  (∀ x m, read_tree 1 m (c2 x) = Some (ct x)) →
  simulates (built_value f) (x ← m unit; mret (c1 x)) (x ← m Heap; mret (c2 x)).
Proof.
  intros Hm Hf Hp Hfo Ht. eapply simulates_bind; [by apply pure_simulates|]. intros a b d h R h1 H [-> ->].
  exists (c2 a), h. split; [done|]. exists 1%nat, (ct a). split; [|done]. by apply built_scalar.
Qed.
Lemma simulates_special {A} f (seed : ∀ S, De S A) (c1 : A → MoveValue) (cv : loc → Container) (cc : list A → Content)
    (ct : list A → tree) :
  pure_de seed → (∀ xs, f (ct xs) = Some (MVector (c1 <$> xs))) → (∀ l, container_loc (cv l) = l) →
  (∀ xs vs, cc xs ≠ CValues vs) →
  (∀ xs m l, m !! l = Some (cc xs) → read_tree 1 m (VContainer (cv l)) = Some (ct xs)) →
  simulates (built_value f) (x ← deserialize_vec (x ← seed unit; mret (c1 x)); mret (MVector x))
    (x ← deserialize_vec (seed Heap); on_heap (VContainer ∘ cv <$> rc_new (cc x))).
Proof.
  intros Hs Hf Hc Hx Ht.
  assert (simulates (λ h _ b h' a, h' = h ∧ a = c1 <$> b) (deserialize_vec (x ← seed unit; mret (c1 x))) (deserialize_vec (seed Heap))) as Hv.
  { intros d h R H. pose proof (pure_vec seed Hs d h) as Hv.
    rewrite vec_map.
    destruct (deserialize_vec (seed unit) d tt) as [[[l d'] []]|e| |]; try done. cbn. eauto. }
  eapply simulates_bind; [exact Hv|]. intros a b d h R h1 H [-> ->]. cbn.
  destruct (built_prim 0 h R (cc b) (ct b) cv) as (l & h' & Hn & Hb); [done|done|done|by apply Ht|].
  exists (VContainer (cv l)), h'. split; [|by exists 1%nat, (ct b)].
  unfold on_heap. by rewrite (heap_fmap _ _ _ _ _ Hn).
Qed.

(** A layout builds the data of the typed value that it reads. *)
Lemma deserialize_seed_spec l : undecorated l = true → simulates (built_value (tree_move l)) (deserialize_move l) (deserialize_seed l).
Proof.
  induction l as [| | | | | |l IH|s IH|ls IH|fs IH] using layout_nested_ind
    with (Q := λ s, undecorated (LStruct s) = true →
      simulates (λ h R vs h' m, ∃ n ts, built_list n h R vs ts h' ∧ trees_move s ts = Some m)
        (deserialize_move_struct s) (deserialize_seed_struct s)); intros Hu.
  1: apply (simulates_scalar _ read_bool MBool VBool TBool); [apply pure_bool|done..].
  1: apply (simulates_scalar _ read_u8 MU8 VU8 TU8); [apply pure_u8|done..].
  1: apply (simulates_scalar _ read_u64 MU64 VU64 TU64); [apply pure_u64|done..].
  1: apply (simulates_scalar _ read_u128 MU128 VU128 TU128); [apply pure_u128|done..].
  1: apply (simulates_scalar _ (@deserialize_address) MAddress VAddress TAddress); [apply pure_address|done..].
  - eapply simulates_bind; [apply (pure_simulates (@deserialize_address)), pure_address|].
    intros a b d h R h1 H [-> ->]. cbn.
    destruct (built_values 1 h R h [VAddress a] [TAddress a] Struct TStruct) as (l & h' & Hn & Hb); [|done|by right|].
    { apply (built_cons 1 h R (VAddress a) (TAddress a) h []); [by apply built_scalar|by apply built_nil]. }
    unfold on_heap, value_signer, container_signer. rewrite (heap_fmap VContainer (Struct <$> _) h (Struct l) h');
      [|by apply heap_fmap]. eexists _, h'. split; [done|]. by exists 2%nat, (TStruct [TAddress a]).
  - destruct (specialized_dec l) as [Hl|Hl].
    + destruct Hl; cbn [deserialize_seed deserialize_move].
      * apply (simulates_special _ read_u8 MU8 VecU8 CU8 TVecU8); [apply pure_u8|done..|].
        intros xs m l Hl. cbn. by rewrite Hl.
      * apply (simulates_special _ read_u64 MU64 VecU64 CU64 TVecU64); [apply pure_u64|done..|].
        intros xs m l Hl. cbn. by rewrite Hl.
      * apply (simulates_special _ read_u128 MU128 VecU128 CU128 TVecU128); [apply pure_u128|done..|].
        intros xs m l Hl. cbn. by rewrite Hl.
      * apply (simulates_special _ read_bool MBool VecBool CBool TVecBool); [apply pure_bool|done..|].
        intros xs m l Hl. cbn. by rewrite Hl.
      * apply (simulates_special _ (@deserialize_address) MAddress VecAddress CAddress TVecAddress); [apply pure_address|done..|].
        intros xs m l Hl. cbn. by rewrite Hl.
    + assert (deserialize_seed (LVector l) = (v ← deserialize_vec (deserialize_seed l); on_heap (VContainer ∘ Vec <$> rc_new (CValues v)))) as ->
        by (destruct l; try done; exfalso; apply Hl; constructor).
      cbn [deserialize_move]. eapply simulates_bind; [apply simulates_vec, IH, Hu|].
      intros mvs vs d h R h1 H (n & ts & B & Hts). cbn.
      destruct (built_values n h R h1 vs ts Vec TVec B) as (r & h' & Hn & Hb); [done|by left|].
      exists (VContainer (Vec r)), h'. unfold on_heap. rewrite (heap_fmap _ _ _ _ _ Hn). split; [done|].
      exists (Datatypes.S n), (TVec ts). split; [done|]. etrans; [by apply generic_vector|by rewrite Hts].
  - cbn [deserialize_seed deserialize_move]. eapply simulates_bind; [by apply IH|].
    intros m vs d h R h1 H (n & ts & B & Hts). cbn.
    destruct (built_values n h R h1 vs ts Struct TStruct B) as (r & h' & Hn & Hb); [done|by right|].
    exists (VContainer (Struct r)), h'. unfold on_heap, struct_. rewrite (heap_fmap _ _ _ _ _ Hn). split; [done|].
    exists (Datatypes.S n), (TStruct ts). split; [done|]. cbn. by rewrite Hts.
  - cbn [deserialize_seed_struct deserialize_move_struct]. eapply simulates_bind.
    { apply (simulates_fields (map tree_move ls)); [|unfold len; by rewrite length_map].
      cbn in Hu. clear -IH Hu. induction IH as [|l ls Hl _ IHls]; [constructor|]. cbn in *. apply andb_true_iff in Hu as [Hu1 Hu2].
      constructor; auto. }
    intros mvs vs d h R h1 H (n & ts & B & HF). cbn. exists vs, h1. split; [done|]. exists n, ts. split; [done|].
    rewrite bool_decide_eq_true_2 by (rewrite <- (length_map tree_move ls); by eapply Forall3_length_lm).
    apply fmap_Some. exists mvs. split; [|done]. apply mapM_Some. clear -HF. induction HF; [constructor|]. by constructor.
  - done.
Qed.

Lemma mapM_move_inj f ts ts' mvs :
  (∀ t t' mv, f t = Some mv → f t' = Some mv → t = t') → mapM f ts = Some mvs → mapM f ts' = Some (mvs : list MoveValue) → ts = ts' :> list tree.
Proof.
  intros Hf H1%mapM_Some H2%mapM_Some. revert ts' H2. induction H1 as [|t mv ts mvs Ht _ IH]; intros ts' H2; inversion H2; subst; [done|].
  f_equal; eauto.
Qed.
Lemma fmap_inj {A} (c : A → MoveValue) (xs ys : list A) : (∀ x y, c x = c y → x = y) → c <$> xs = c <$> ys → xs = ys.
Proof. intros Hc. revert ys. induction xs as [|x xs IH]; intros [|y ys] H; try done. injection H as H1 H2. f_equal; auto. Qed.
Lemma tree_move_inj l t t' mv : tree_move l t = Some mv → tree_move l t' = Some mv → t = t'.
Proof.
  revert t t' mv. induction l as [| | | | | |l IH|s IH|ls IH|fs IH] using layout_nested_ind
    with (Q := λ s, ∀ ts ts' m, trees_move s ts = Some m → trees_move s ts' = Some m → ts = ts'); intros t t' mv H1 H2.
  1-5: by destruct t, t'; try done; cbn in *; congruence.
  - destruct t as [| | | | | |ts| | | | |], t' as [| | | | | |ts'| | | | |]; try done.
    destruct ts as [|[] []]; try done. destruct ts' as [|[] []]; try done. cbn in *. congruence.
  - destruct (specialized_dec l) as [Hl|Hl].
    + destruct Hl, t, t'; try done; cbn in *; rewrite <- H2 in H1; injection H1 as H1; f_equal;
        (eapply fmap_inj; [|exact H1]); intros x y Hxy; by injection Hxy.
    + apply generic_move in H1 as (ts & mvs & -> & -> & H1); [|done].
      apply generic_move in H2 as (ts' & mvs' & -> & [= <-] & H2); [|done]. f_equal. by eapply mapM_move_inj.
  - destruct t as [| | | | | |ts| | | | |], t' as [| | | | | |ts'| | | | |]; try done. cbn in *.
    apply fmap_Some in H1 as (m & H1 & ->), H2 as (m' & H2 & [= <-]). f_equal. by eapply IH.
  - cbn in *. case_bool_decide as E1; [|done]. case_bool_decide as E2; [|done].
    apply fmap_Some in H1 as (mvs & H1 & ->), H2 as (mvs' & H2 & [= <-]). apply mapM_Some in H1, H2.
    revert t t' mvs E1 E2 H1 H2. induction IH as [|l ls Hl _ IHls]; intros [|t ts] [|t' ts'] mvs E1 E2 H1 H2; try done.
    cbn in *. apply Forall2_cons_inv_l in H1 as (mv & mvs' & H1 & H1' & ->). apply Forall2_cons_inv_l in H2 as (? & ? & H2 & H2' & [= <- <-]).
    f_equal; [by eapply Hl|]. eapply IHls; eauto.
  - done.
Qed.

Lemma deserialize_refines blob l h R :
  undecorated l = true → counted h R →
  match move_simple_deserialize (E := PartialVMError) blob l with
  | Ok (Some mv) => ∃ n v t h', value_simple_deserialize blob l h = Ok (Some v, h') ∧ built n h R v t h' ∧ tree_move l t = Some mv
  | Ok None => value_simple_deserialize blob l h = Ok (None, h)
  | Err e => False
  | Panic => value_simple_deserialize blob l h = Panic
  | OutOfFuel => value_simple_deserialize blob l h = OutOfFuel
  end.
Proof.
  intros Hu H. unfold move_simple_deserialize, value_simple_deserialize, from_bytes_seed.
  pose proof (deserialize_seed_spec l Hu {| input := blob; max_remaining_depth := MAX_CONTAINER_DEPTH |} h R H) as Hs.
  unfold mbind, De_bind. cbn [ok_ result_bind].
  destruct (deserialize_move l _ tt) as [[[mv d] []]|e| |]; cbn; try (by rewrite Hs).
  destruct Hs as (v & h' & -> & n & t & B & Ht). cbn. unfold de_end. destruct (input d); [|done]. cbn. eauto 10.
Qed.

(** C26. By a layout without field names the machine reads a value from bytes exactly when
    the typed value is read: it builds, in fresh cells of a memory whose cells have the
    counts of their owners, a value with that data, and leaves memory as it was when the
    bytes are rejected. *)
Theorem value_deserialize_refines (blob : list u8) (l : MoveTypeLayout) (h : Heap) (R : list loc) :
  undecorated l = true → bytes_ok blob → counted h R →
  (∃ mv n v t h', move_simple_deserialize (E := PartialVMError) blob l = Ok (Some mv) ∧
     value_simple_deserialize blob l h = Ok (Some v, h') ∧ built n h R v t h' ∧ tree_move l t = Some mv) ∨
  move_simple_deserialize (E := PartialVMError) blob l = Ok None ∧ value_simple_deserialize blob l h = Ok (None, h).
Proof.
  intros Hu Hb H. pose proof (deserialize_refines blob l h R Hu H) as Hr.
  destruct (move_read (E := PartialVMError) l blob Hb) as [[[mv|] Ho] _]; rewrite Ho in Hr; [left|by right].
  destruct Hr as (n & v & t & h' & ? & ? & ?). eauto 10.
Qed.
Definition empty_heap : Heap := {| cells := ∅; next_loc := 0 |}.
Lemma value_deserialize_refines_witness :
  ∃ v h', value_simple_deserialize [2; 1; 1; 0] (LVector (LVector LBool)) empty_heap = Ok (Some v, h').
Proof.
  destruct (value_deserialize_refines [2; 1; 1; 0] (LVector (LVector LBool)) empty_heap []) as [(mv & n & v & t & h' & _ & H & _)|[H _]];
    [done|repeat constructor|by apply check_counted_sound|eauto|done].
Defined.

(** Writing a value of the machine whose data has the layout succeeds and leaves the
    heap, and reading what was written builds a value with the same data. *)
Theorem value_round_trip (h : Heap) (v : ValueImpl) (t : tree) (l : MoveTypeLayout) (mv : MoveValue) (R : list loc) :
  undecorated l = true → denotes h v t → tree_move l t = Some mv → move_has_layout l mv = true → counted h R →
  ∃ blob, value_simple_serialize v l h = Ok (Some blob, h) ∧
    ∃ n v' h', value_simple_deserialize blob l h = Ok (Some v', h') ∧ built n h R v' t h'.
Proof.
  intros Hu [n Hn] Ht Hm H. apply (has_layout_encodes l mv Hu) in Hm as [blob He].
  exists blob. pose proof (move_write (E := PartialVMError) l mv blob Hu He) as Hw. split.
  - unfold value_simple_serialize, to_bytes. unfold move_simple_serialize, to_bytes in Hw.
    by rewrite (serialize_annotated_spec h l n v t mv _ Hn Ht), Hw.
  - pose proof (encodes_bytes l mv blob He) as Hb. pose proof (deserialize_refines blob l h R Hu H) as Hr.
    rewrite (proj2 (proj2 (move_read (E := PartialVMError) l blob Hb) mv) He) in Hr.
    destruct Hr as (n' & v' & t' & h' & Hd & B & Ht'). exists n', v', h'. split; [done|].
    by rewrite (tree_move_inj l t t' mv).
Qed.
Lemma value_round_trip_witness :
  ∃ n v' h', value_simple_deserialize [1; 1; 5] (LVector (LVector LU8))
    {| cells := {[ 0 := {| strong := 1; content := CValues [VContainer (VecU8 1)] |}; 1 := {| strong := 1; content := CU8 [5] |} ]}; next_loc := 2 |}
    = Ok (Some v', h') ∧ read_tree n (contents h') v' = Some (TVec [TVecU8 [5]]).
Proof.
  destruct (value_round_trip
    {| cells := {[ 0 := {| strong := 1; content := CValues [VContainer (VecU8 1)] |}; 1 := {| strong := 1; content := CU8 [5] |} ]}; next_loc := 2 |}
    (VContainer (Vec 0)) (TVec [TVecU8 [5]]) (LVector (LVector LU8)) (MVector [MVector [MU8 5]]) [0])
    as (blob & Hs & n & v' & h' & Hd & B); [done|by exists 2%nat|done|done|by apply check_counted_sound|].
  assert (blob = [1; 1; 5]) as -> by (vm_compute in Hs; congruence).
  exists n, v', h'. split; [done|apply B].
Defined.
