(* ===== verification/Verifier.v ===== *)
(** * Verifier: the passes together

    Models [language/bytecode-verifier/src/verifier.rs] and [code_unit_verifier.rs]: the
    order in which the passes run, what each is given, and where their errors are located.
    A module that is accepted has the guarantees of all the passes at once.

    The builds differ in debug assertions ([debug]) and overflow checks; [fuel] bounds the
    blocks that the reference-safety pass may process.

    At the end, modules on which reference safety goes wrong: three whose functions run
    without a fault and that the pass panics on, and one that it accepts although a
    reference outlives the element it points to. *)

From S2P Require Import Prelude CoreTypes VmStatus Abilities FileFormat Errors Views BoundsChecker InBounds CheckedUnits ControlFlowGraph ControlFlow Loops StackUsage AbsInt RuntimeTypes Heap Values Vectors Checks Duplication SignatureChecker SignatureRules TypeSafety TypedCode TypedRuns ModulePasses AcquiresList Graphs StructDefs InstantiationLoops MoveValues MoveValueCodec.

From S2P Require LocalsSafety ReferenceSafety.


Section Verifier.
Context {G : Type} `{Graph G Node Edge} `{Toposort StructDefinitionIndex}.
Context (debug overflow_checks : bool) (fuel : nat).

(** ** [code_unit_verifier.rs] *)

(** [struct CodeUnitVerifier] *)
Record CodeUnitVerifier : Set := {
  cuv_resolver : BinaryIndexedView;
  cuv_function_view : FunctionView;
  cuv_name_def_map : gmap IdentifierIndex FunctionDefinitionIndex }.

(** [verify_common] *)
Definition verify_common (self : CodeUnitVerifier) : result PartialVMError unit :=
  let resolver := cuv_resolver self in
  let function_view := cuv_function_view self in
  _ ← ControlFlow.verify (fv_index function_view) (fv_code function_view);
  _ ← StackUsage.verify overflow_checks resolver function_view;
  _ ← type_verify resolver function_view;
  _ ← LocalsSafety.verify resolver function_view;
  ReferenceSafety.verify debug fuel resolver function_view (cuv_name_def_map self).

(** The loop that fills [name_def_map] *)
Definition add_name_def (module : CompiledModule) (name_def_map : gmap IdentifierIndex FunctionDefinitionIndex)
    (p : N * FunctionDefinition) : result PartialVMError (gmap IdentifierIndex FunctionDefinitionIndex) :=
  fh ← partial (function_handle_at (VModule module) (fdef_function p.2));
  Ok (<[ fh_name fh := wrap 16 p.1 ]> name_def_map).

(** [verify_function] *)
Definition verify_function (index : FunctionDefinitionIndex) (function_definition : FunctionDefinition)
    (module : CompiledModule) : result PartialVMError unit :=
  match fdef_code function_definition with
  | None => Ok tt
  | Some code =>
      function_handle ← partial (function_handle_at (VModule module) (fdef_function function_definition));
      function_view ← partial (function module index code function_handle);
      name_def_map ← try_fold (add_name_def module) (enumerate (m_function_defs module)) ∅;
      _ ← verify_common {| cuv_resolver := VModule module; cuv_function_view := function_view; cuv_name_def_map := name_def_map |};
      acquires_verify module index function_definition
  end.

(** [verify_module_impl] and [verify_script_impl] *)
Definition code_verify_module (module : CompiledModule) : result PartialVMError unit :=
  for_each (λ p : N * FunctionDefinition,
    let index := wrap 16 p.1 in
    map_err (λ err, at_index err KFunctionDefinition index) (verify_function index p.2 module))
    (enumerate (m_function_defs module)).
Definition code_verify_script (script : CompiledScript) : result PartialVMError unit :=
  function_view ← partial (StackUsage.script script);
  verify_common {| cuv_resolver := VScript script; cuv_function_view := function_view; cuv_name_def_map := ∅ |}.

(** ** [verifier.rs] *)

(** [verify_module]; each pass finishes its errors with the location of the module. *)
Definition verify_module (module : CompiledModule) : result VMError unit :=
  _ ← map_err (λ e, finish e LUndefined) (BoundsChecker.verify_module module);
  _ ← in_module module (duplication_verify_module module);
  _ ← in_module module (signature_verify_module module);
  _ ← in_module module (consistency_verify_module module);
  _ ← in_module module (constants_verify_module module);
  _ ← in_module module (friends_verify_module module);
  _ ← in_module module (field_abilities_verify_module module);
  _ ← in_module module (struct_defs_verify_module module);
  _ ← in_module module (loops_verify_module (G := G) module);
  in_module module (code_verify_module module).
Definition verify_script (script : CompiledScript) : result VMError unit :=
  _ ← in_script (BoundsChecker.verify_script script);
  _ ← in_script (duplication_verify_script script);
  _ ← in_script (signature_verify_script script);
  _ ← in_script (consistency_verify_script script);
  _ ← in_script (constants_verify_script script);
  _ ← in_script (code_verify_script script);
  main_verify_script script.
End Verifier.

(** ** What an accepted module promises *)

(** The execution of one function: structured control flow, operands of the right types for
    every instruction but VecPack on every path, no read of an empty local and no loss of a
    value that may not be dropped *)
Record runs_safely (m : CompiledModule) (fv : FunctionView) (code : list Bytecode) : Prop := {
  rs_nested : well_nested code;
  rs_entry : single_entry code;
  rs_types pc s i : types_at (VModule m) fv pc s → at_ code pc = Some i → is_vec_pack i = false →
    (∃ s', typed_step (VModule m) fv i s s') ∧ (∀ s', types_at (VModule m) fv pc s' → s' = s) ∧
    (i = Bytecode.Ret → s = reverse (fv_return fv));
  rs_locals_full st pc locals : LocalsSafety.AbstractState_new (VModule m) fv = Ok st →
    reaches fv (LocalsSafety.local_step (LocalsSafety.all_local_abilities st)) (LocalsSafety.initial_locals fv) pc locals →
    pc < len code →
    ∃ i locals', at_ code pc = Some i ∧ LocalsSafety.local_step (LocalsSafety.all_local_abilities st) i locals = Some locals' }.

(** The sizes that the passes rely on: indices fit their types. *)
Record module_fits (m : CompiledModule) : Prop := {
  mf_tables : tables_fit m;
  mf_signatures : len (m_signatures m) <= 65536;
  mf_struct_defs : len (m_struct_defs m) <= 65536;
  mf_function_defs : len (m_function_defs m) <= 65536;
  mf_signature_lengths : Forall (λ sig : Signature, len sig <= 65536) (m_signatures m);
  mf_abilities : Forall (λ sh, AbilitySet_ok (sh_abilities sh)) (m_struct_handles m);
  mf_constants : Forall (λ c, bytes_ok (const_data c)) (m_constant_pool m);
  mf_code : Forall (λ def, ∀ c, fdef_code def = Some c → len (cu_code c) <= 65534) (m_function_defs m) }.

(** [vf_finite_instances] is about the graph that the pass builds, without the native
    functions; a native function moves the indices of those after it. *)
Record verified (debug : bool) (m : CompiledModule) : Prop := {
  vf_in_bounds : unit_in_bounds (VModule m);
  vf_distinct : distinct_module m;
  vf_types : module_types_ok m;
  vf_constants : Forall (λ c, SignatureToken.is_valid_for_constant (const_type c) = true ∧ ∃ l v, constant_of l v c) (m_constant_pool m);
  vf_friends : friends_ok m;
  vf_fields : Forall (fields_support m) (m_struct_defs m);
  vf_finite_structs a : ¬ tc (holds m) a a;
  vf_finite_instances : ¬ growing_loop m (filter (λ def, is_native def = false) (m_function_defs m));
  vf_functions def c : def ∈ m_function_defs m → fdef_code def = Some c →
    Forall (form_ok (VModule m)) (cu_code c) ∧ annotation_ok m def ∧
    ∃ index h fv name_def_map, at_ (m_function_handles m) (fdef_function def) = Some h ∧ function m index c h = Ok fv ∧
      try_fold (add_name_def m) (enumerate (m_function_defs m)) ∅ = Ok name_def_map ∧
      ReferenceSafety.borrows_checked debug (VModule m) fv name_def_map ∧
      (pushes_fit (verifier_of (VModule m) fv) (fv_cfg fv) → runs_safely m fv (cu_code c)) }.

Lemma in_module_value {A} m (r : result PartialVMError A) a : in_module m r = Ok a ↔ r = Ok a.
Proof. unfold in_module. destruct r; [naive_solver| |done..]. destruct (self_id _) as [[]| | |]; done. Qed.

Section Sound.
Context {G : Type} `{GraphLaws G Node Edge} `{ToposortLaws StructDefinitionIndex}.
Context (debug overflow_checks : bool) (fuel : nat) (m : CompiledModule).

Lemma function_runs_safely index def h c fv :
  BoundsChecker.verify_module m = Ok tt → def ∈ m_function_defs m → fdef_code def = Some c →
  at_ (m_function_handles m) (fdef_function def) = Some h → function m index c h = Ok fv → len (cu_code c) <= 65534 →
  ControlFlow.verify (fv_index fv) (fv_code fv) = Ok tt → StackUsage.verify overflow_checks (VModule m) fv = Ok tt →
  type_verify (VModule m) fv = Ok tt → LocalsSafety.verify (VModule m) fv = Ok tt →
  pushes_fit (verifier_of (VModule m) fv) (fv_cfg fv) → runs_safely m fv (cu_code c).
Proof.
  intros Hb Hin Hc Hh Hf Hlen Hcf Hst Hty Hlo Hfit.
  assert (fv_code fv = c) as Hcode.
  { unfold function in Hf. repeat (apply bind_Ok in Hf as (? & _ & Hf)). by injection Hf as <-. }
  rewrite <- Hcode in Hlen |- *.
  destruct (verify_structured (fv_index fv) (fv_code fv)) as ((l & Hl & _) & Hwn & Hse); [change (u16_MAX + 1) with 65536; lia|done|].
  assert (0 < len (cu_code (fv_code fv))) as Hpos by (destruct (cu_code (fv_code fv)); [done|unfold len; cbn; lia]).
  pose proof (LocalsSafety.checked_function_ready (VModule m) fv) as Hr.
  destruct Hr as [Hcfg Hcl Hen Hlr Hab]; [|done|done|].
  { split; [done|]. exists index, def, h, c. by split_and!. }
  constructor; [done|done| |].
  - intros pc s i Ht Hi Hv. eapply types_at_safe; try done.
    apply (verify_spec overflow_checks (VModule m) fv); [|done|done]. intros b bb Hbb. apply (co_blocks _ _ Hcfg b bb Hbb).
  - intros st pc locals Hst' Hre Hpc. by eapply LocalsSafety.locals_sound.
Qed.

Lemma verify_module_verified :
  module_fits m → verify_module (G := G) debug overflow_checks fuel m = Ok tt → verified debug m.
Proof.
  intros [Htab Hsig Hsd Hfd Hsl Hab Hconst Hcl] Hv. unfold verify_module in Hv.
  apply bind_Ok in Hv as ([] & Hb%map_err_Ok & Hv).
  apply bind_Ok in Hv as ([] & Hdup%in_module_value & Hv). apply bind_Ok in Hv as ([] & Hsc%in_module_value & Hv).
  apply bind_Ok in Hv as ([] & Hform%in_module_value & Hv). apply bind_Ok in Hv as ([] & Hco%in_module_value & Hv).
  apply bind_Ok in Hv as ([] & Hfr%in_module_value & Hv). apply bind_Ok in Hv as ([] & Hfa%in_module_value & Hv).
  apply bind_Ok in Hv as ([] & Hrec%in_module_value & Hv). apply bind_Ok in Hv as ([] & Hloop%in_module_value & Hcode%in_module_value).
  pose proof Hb as [_ Hm]%verify_module_iff.
  apply duplication_module_iff in Hdup; [|by apply verify_module_iff in Hb|done].
  apply (signature_module_decides m Hm Hsig) in Hsc.
  constructor; try done.
  - by apply constants_decide.
  - by apply (friends_decides m Hm).
  - by apply (fields_decides m Hm Hab).
  - apply (proj2 (struct_defs_decides m Hsd (dm_struct_defs _ Hdup) (fields_have_no_references m Hm Hsc))), Hrec.
  - apply (proj2 (loops_decide (G := G) m Hm (dm_function_defs _ Hdup) Hfd Hsl)), Hloop.
  - intros def c Hin Hc. unfold code_verify_module in Hcode. rewrite for_each_Ok, Forall_forall in Hcode.
    apply list_elem_of_lookup in Hin as Hk. destruct Hk as [k Hk].
    assert ((N.of_nat k, def) ∈ enumerate (m_function_defs m)) as He by (apply list_elem_of_lookup; exists k; by apply enumerate_Some).
    specialize (Hcode _ He). cbn [fst snd] in Hcode. apply map_err_Ok in Hcode. unfold verify_function in Hcode. rewrite Hc in Hcode.
    pose proof (proj1 (Forall_forall _ _) (ib_function_defs _ Hm) def Hin) as (_ & _ & Hdef). cbn in Hdef.
    destruct (Hdef c Hc) as (h & ps & ls & Hh & _). apply bind_Ok in Hcode as (h' & Hh' & Hcode).
    assert (h' = h) as ->.
    { apply partial_Ok in Hh'. unfold function_handle_at in Hh'. cbn in Hh', Hh. rewrite Hh in Hh'. cbn in Hh'.
      unfold assumed_postcondition in Hh'. by destruct (_ && _) in Hh'; [injection Hh'|]. }
    apply bind_Ok in Hcode as (fv & Hfv & Hcode). apply partial_Ok in Hfv.
    apply bind_Ok in Hcode as (nm & Hnm & Hcode). apply bind_Ok in Hcode as ([] & Hcommon & Hacq).
    split; [by eapply consistency_module_forms|]. split; [by apply (acquires_decides m _ def c Hm (dm_function_defs _ Hdup) Hin Hc) in Hacq|].
    exists (wrap 16 (N.of_nat k)), h, fv, nm. unfold verify_common in Hcommon. cbn in Hcommon. apply bind_Ok in Hcommon as ([] & Hcf & Hcommon).
    apply bind_Ok in Hcommon as ([] & Hst & Hcommon). apply bind_Ok in Hcommon as ([] & Hty & Hcommon).
    apply bind_Ok in Hcommon as ([] & Hlo & Hrs). split_and!; [done..|by eapply ReferenceSafety.verify_checks_borrows|].
    intros Hfit. eapply function_runs_safely; try done.
    by apply (proj1 (Forall_forall _ _) Hcl def Hin).
Qed.
End Sound.

(** C3. A module of the sizes of the binary format that the verifier accepts, whatever the
    build and the fuel, has what the passes promise: its indices are in bounds, its
    entries distinct, its types well formed, its constants decode, its friends and field
    abilities are right, its structs are finite, and no type grows around a cycle of the
    graph that the pass over generic calls builds, from which native functions are left
    out. In each function with code every instruction has the form, generic or plain, that
    its member asks for; the acquired resources are those declared; and there are borrow
    states for the blocks, each of which runs without an error of the reference-safety
    analysis from its state to one that the states of its successors have taken in. Unless
    a block pushes more than a u64 counts, control flow is structured, every instruction
    other than VecPack finds operands of the right types on each path whose instructions
    are well typed, and no local is read when empty or lost when it may not be dropped. *)
Theorem verify_module_sound {G : Type} `{GraphLaws G Node Edge} `{ToposortLaws StructDefinitionIndex}
    (debug overflow_checks : bool) (fuel : nat) (m : CompiledModule) :
  module_fits m → verify_module (G := G) debug overflow_checks fuel m = Ok tt → verified debug m.
Proof. apply verify_module_verified. Qed.

(** A module with one function *)
Definition function_module (parameters locals : list SignatureToken) (signatures : list Signature) (code : list Bytecode)
  : CompiledModule :=
  {| m_version := 4; m_self_module_handle_idx := 0;
     m_module_handles := [ {| mh_address := 0; mh_name := 0 |} ];
     m_struct_handles := [];
     m_function_handles := [ {| fh_module := 0; fh_name := 1; fh_parameters := 1; fh_return := 0; fh_type_parameters := [] |} ];
     m_field_handles := []; m_friend_decls := []; m_struct_def_instantiations := [];
     m_function_instantiations := []; m_field_instantiations := [];
     m_signatures := [ []; parameters; locals ] ++ signatures;
     m_identifiers := [ [66]; [77] ];
     m_address_identifiers := [ ZERO ];
     m_constant_pool := []; m_struct_defs := [];
     m_function_defs := [ {| fdef_function := 0; fdef_visibility := Public; fdef_acquires_global_resources := [];
       fdef_code := Some {| cu_locals := 2; cu_code := code |} |} ] |}.
(** The verifier with plain lists for the graphs of petgraph *)
Definition list_verify_module (debug : bool) : CompiledModule → result VMError unit :=
  @verify_module (list_graph Node Edge) list_graph_ops list_toposort debug true 100.
Definition counter : CompiledModule :=
  function_module [SignatureToken.U64] [SignatureToken.Bool] []
    [Bytecode.CopyLoc 0; Bytecode.LdU64 0; Bytecode.Eq; Bytecode.BrTrue 9; Bytecode.MoveLoc 0; Bytecode.LdU64 1;
     Bytecode.Sub; Bytecode.StLoc 0; Bytecode.Branch 0; Bytecode.Ret].
Lemma verify_module_sound_witness : verified true counter.
Proof.
  apply (@verify_module_sound (list_graph Node Edge) list_graph_ops list_graph_laws list_toposort list_toposort_laws true true 100);
    [|by vm_compute].
  constructor; try (by vm_compute); repeat constructor; try (by vm_compute). intros c [= <-]. by vm_compute.
Defined.

Import SignatureToken Bytecode.

(** Two reference parameters change places; then a block ends. *)
Definition swapped_references : CompiledModule :=
  function_module [MutableReference U64; MutableReference U64] [Bool] []
    [MoveLoc 0; MoveLoc 1; StLoc 0; StLoc 1; Branch 5; MoveLoc 1; Pop; MoveLoc 0; Pop; Ret].
(** One branch moves a local while a reference to it is on the stack: an error that the
    pass finds.  It goes on with the other branch and the values that are left on its stack. *)
Definition moved_while_borrowed : CompiledModule :=
  function_module [Bool; U64] [Address] [] [MoveLoc 0; BrTrue 3; Ret; MutBorrowLoc 1; MoveLoc 1; Pop; Pop; Ret].
(** The same with the branches the other way round *)
Definition moved_while_borrowed' : CompiledModule :=
  function_module [Bool; U64] [Address] [] [MoveLoc 0; BrTrue 7; MutBorrowLoc 1; MoveLoc 1; Pop; Pop; Ret; Ret].
(** A local refers to one of two others, with [n] more locals. *)
Definition many_locals (n : nat) : CompiledModule :=
  function_module [U64; U64] (Reference U64 :: replicate n U64) []
    [LdTrue; BrFalse 5; ImmBorrowLoc 0; StLoc 2; Branch 7; ImmBorrowLoc 1; StLoc 2; MoveLoc 2; Pop; Ret].


(** The reference-safety pass panics on a function that exchanges two reference
    parameters before a branch, on one whose error leaves values on the analysis stack
    before another block is analysed, and on one with 256 locals where two paths meet,
    though the bounds check accepts all three. *)
Example reference_safety_panics (debug : bool) :
  list_verify_module debug swapped_references = Panic ∧
  list_verify_module debug moved_while_borrowed = Panic ∧
  list_verify_module debug moved_while_borrowed' =
    Err (finish (at_index (at_code_offset (PartialVMError_new MOVELOC_EXISTS_BORROW_ERROR) 0 3) KFunctionDefinition 0)
           (LModule {| mid_address := ZERO; mid_name := [66] |})) ∧
  list_verify_module debug (many_locals 252) = Ok tt ∧
  list_verify_module debug (many_locals 253) = Panic ∧
  Forall (λ m, BoundsChecker.verify_module m = Ok tt) [swapped_references; moved_while_borrowed; many_locals 253].
Proof. destruct debug; split_and!; try (by vm_compute); repeat constructor; by vm_compute. Qed.

(** ** A reference to a removed element

    The function borrows an element of a vector of vectors as mutable, then the same element
    and a number in it as immutable, removes the number through the first reference and
    reads it through the last one. *)

Definition removed_element : CompiledModule :=
  function_module [MutableReference (Vector (Vector U64))]
    [MutableReference (Vector U64); Reference (Vector U64); Reference U64] [[Vector U64]; [U64]]
    [CopyLoc 0; LdU64 0; VecMutBorrow 3; StLoc 1; CopyLoc 0; LdU64 0; VecImmBorrow 3; StLoc 2;
     MoveLoc 2; LdU64 0; VecImmBorrow 4; StLoc 3; MoveLoc 1; VecPopBack 4; Pop; MoveLoc 3; ReadRef; Pop; Ret].

(** The same operations on the reference [v]: up to the read, and with the read *)
Definition remove_element (v : ContainerRef) : HeapM (ValueImpl * ReferenceImpl) :=
  v1 ← copy_container_ref v;
  e1 ← vector_borrow_elem v1 0 (RuntimeType.Vector RuntimeType.U64);
  v2 ← copy_container_ref v;
  e2 ← vector_borrow_elem v2 0 (RuntimeType.Vector RuntimeType.U64);
  e2 ← value_as_container_ref e2;
  x ← vector_borrow_elem e2 0 RuntimeType.U64;
  e1 ← value_as_container_ref e1;
  removed ← Vectors.pop e1 RuntimeType.U64;
  x ← value_as_reference x;
  mret (removed, x).
(** A vector that holds the vector of the number 7 *)
Definition vector_heap : Heap :=
  {| cells := {[ 0 := {| strong := 2; content := CValues [VContainer (VecU64 1)] |};
                 1 := {| strong := 1; content := CU64 [7] |} ]}; next_loc := 2 |}.

(** The verifier accepts a function that borrows an element of a vector through two
    references and removes it by one of them. The operations that its instructions make on
    the heap, written out in their order, leave a reference whose reading panics. *)
Example removed_element_accepted :
  (∀ debug, list_verify_module debug removed_element = Ok tt) ∧
  ∃ x h, remove_element (Local (Vec 0)) vector_heap = Ok ((VU64 7, x), h) ∧ read_ref x h = Panic.
Proof.
  split; [intros []; by vm_compute|].
  destruct (remove_element (Local (Vec 0)) vector_heap) as [[[y x] h]|e| |] eqn:Hr; vm_compute in Hr; try done.
  injection Hr as <- <- <-. eexists _, _. split; [reflexivity|]. by vm_compute.
Qed.
