(* ===== verification/Gas.v ===== *)
(** * Gas: what execution costs

    Models [language/move-core/types/src/gas_schedule.rs] and
    [language/move-vm/types/src/gas_schedule.rs]: amounts of gas and memory, the table of
    costs, the schedules that are built in, and the meter of a transaction.  Amounts are
    [u64]s; arithmetic beyond them panics or wraps as the build has it. *)

From stdpp Require Import sorting.
From S2P Require Import Prelude CoreTypes VmStatus Abilities FileFormat Errors BinaryCommon ControlFlowGraph StackUsage.

(** ** Amounts *)

(** The operators of [GasAlgebra] on the carrier *)
Definition GasCarrier : Set := u64.
Section Carrier.
Context {E : Type} (overflow_checks : bool).
Definition gas_add (l r : GasCarrier) : result E GasCarrier := add_u64 overflow_checks l r.
Definition gas_sub (l r : GasCarrier) : result E GasCarrier :=
  if r <=? l then Ok (l - r) else if overflow_checks then Panic else Ok (2 ^ 64 + l - r).
Definition gas_mul (l r : GasCarrier) : result E GasCarrier :=
  if l * r <=? u64_MAX then Ok (l * r) else if overflow_checks then Panic else Ok (wrap 64 (l * r)).
Definition gas_div (l r : GasCarrier) : result E GasCarrier := if r =? 0 then Panic else Ok (l / r).
End Carrier.

(** The units of gas and of memory *)
Notation AbstractMemorySize := GasCarrier.
Notation GasUnits := GasCarrier.
Notation InternalGasUnits := GasCarrier.
Notation GasPrice := GasCarrier.

Definition CONST_SIZE : AbstractMemorySize := 16.
Definition REFERENCE_SIZE : AbstractMemorySize := 8.
Definition STRUCT_SIZE : AbstractMemorySize := 2.
Definition DEFAULT_ACCOUNT_SIZE : AbstractMemorySize := 800.
Definition LARGE_TRANSACTION_CUTOFF : AbstractMemorySize := 600.
Definition MIN_EXISTS_DATA_SIZE : AbstractMemorySize := 100.
Definition MAX_TRANSACTION_SIZE_IN_BYTES : GasCarrier := 4096.

(** ** Costs *)

(** [struct GasConstants] *)
Record GasConstants : Set := {
  global_memory_per_byte_cost : InternalGasUnits;
  global_memory_per_byte_write_cost : InternalGasUnits;
  min_transaction_gas_units : InternalGasUnits;
  large_transaction_cutoff : AbstractMemorySize;
  intrinsic_gas_per_byte : InternalGasUnits;
  maximum_number_of_gas_units : GasUnits;
  min_price_per_gas_unit : GasPrice;
  max_price_per_gas_unit : GasPrice;
  max_transaction_size_in_bytes : GasCarrier;
  gas_unit_scaling_factor : GasCarrier;
  default_account_size : AbstractMemorySize }.
Definition GasConstants_default : GasConstants := {|
  global_memory_per_byte_cost := 4;
  global_memory_per_byte_write_cost := 9;
  min_transaction_gas_units := 600;
  large_transaction_cutoff := LARGE_TRANSACTION_CUTOFF;
  intrinsic_gas_per_byte := 8;
  maximum_number_of_gas_units := 4000000;
  min_price_per_gas_unit := 0;
  max_price_per_gas_unit := 10000;
  max_transaction_size_in_bytes := MAX_TRANSACTION_SIZE_IN_BYTES;
  gas_unit_scaling_factor := 1000;
  default_account_size := DEFAULT_ACCOUNT_SIZE |}.

(** [struct GasCost] and [struct CostTable] *)
Record GasCost : Set := { instruction_gas : InternalGasUnits; memory_gas : InternalGasUnits }.
Definition GasCost_new (instr_gas mem_gas : GasCarrier) : GasCost :=
  {| instruction_gas := instr_gas; memory_gas := mem_gas |}.
Record CostTable : Set := {
  instruction_table : list GasCost;
  native_table : list GasCost;
  gas_constants : GasConstants }.

Section Costs.
Context {E : Type} (overflow_checks : bool).
Definition to_internal_units (self : GasConstants) (units : GasUnits) : result E InternalGasUnits :=
  gas_mul overflow_checks units (gas_unit_scaling_factor self).
Definition to_external_units (self : GasConstants) (units : InternalGasUnits) : result E GasUnits :=
  gas_div units (gas_unit_scaling_factor self).
Definition total (self : GasCost) : result E InternalGasUnits :=
  gas_add overflow_checks (instruction_gas self) (memory_gas self).
(** [instr_index - 1] is on [u8]. *)
Definition instruction_cost (self : CostTable) (instr_index : u8) : result E GasCost :=
  if instr_index =? 0 then if overflow_checks then Panic else unwrap (at_ (instruction_table self) 255)
  else unwrap (at_ (instruction_table self) (instr_index - 1)).
Definition native_cost (self : CostTable) (native_index : u8) : result E GasCost :=
  unwrap (at_ (native_table self) native_index).
Definition calculate_intrinsic_gas (transaction_size : AbstractMemorySize) (gas_constants : GasConstants)
  : result E InternalGasUnits :=
  let min_transaction_fee := min_transaction_gas_units gas_constants in
  if large_transaction_cutoff gas_constants <? transaction_size then
    excess ← gas_sub overflow_checks transaction_size (large_transaction_cutoff gas_constants);
    fee ← gas_mul overflow_checks (intrinsic_gas_per_byte gas_constants) excess;
    gas_add overflow_checks min_transaction_fee fee
  else Ok min_transaction_fee.
End Costs.

(** ** Schedules *)

(** [sort_by_key], which is stable *)
Fixpoint insert_by_key {A} (key : A → N) (x : A) (l : list A) : list A :=
  match l with
  | [] => [x]
  | y :: l => if key y <? key x then y :: insert_by_key key x l else x :: y :: l
  end.
Definition sort_by_key {A} (key : A → N) (l : list A) : list A := foldr (insert_by_key key) [] l.

Definition VARIANT_COUNT : N := 71.
Definition entry_key (entry : Bytecode * GasCost) : N := instruction_key entry.1.
(** [new_from_instructions]; in debug builds it asserts that each instruction is at its index. *)
Definition instructions_covered (instrs : list (Bytecode * GasCost)) : N :=
  len (List.filter (λ p, p.1 =? entry_key p.2 - 1) (enumerate instrs)).
Definition new_from_instructions {E} (debug_assertions : bool) (instrs : list (Bytecode * GasCost)) (natives : list GasCost)
  : result E CostTable :=
  let instrs := sort_by_key entry_key instrs in
  _ ← debug_assert debug_assertions (instructions_covered instrs =? VARIANT_COUNT);
  Ok {| instruction_table := instrs.*2; native_table := natives; gas_constants := GasConstants_default |}.

Definition NUMBER_OF_NATIVE_FUNCTIONS : nat := 18.

Section Schedules.
Import Bytecode.

(** [zero_cost_schedule] *)
Definition zero_cost_instructions : list Bytecode := [
  MoveTo 0; MoveToGeneric 0; MoveFrom 0; MoveFromGeneric 0; BrTrue 0; WriteRef; Mul; MoveLoc 0; And; Pop;
  BitAnd; ReadRef; Sub; MutBorrowField 0; MutBorrowFieldGeneric 0; ImmBorrowField 0; ImmBorrowFieldGeneric 0;
  Add; CopyLoc 0; StLoc 0; Ret; Lt; LdU8 0; LdU64 0; LdU128 0; CastU8; CastU64; CastU128; Abort;
  MutBorrowLoc 0; ImmBorrowLoc 0; LdConst 0; Ge; Xor; Shl; Shr; Neq; Not; Call 0; CallGeneric 0; Le;
  Branch 0; Unpack 0; UnpackGeneric 0; Or; LdFalse; LdTrue; Mod; BrFalse 0; Exists 0; ExistsGeneric 0; BitOr;
  FreezeRef; MutBorrowGlobal 0; MutBorrowGlobalGeneric 0; ImmBorrowGlobal 0; ImmBorrowGlobalGeneric 0; Div;
  Eq; Gt; Pack 0; PackGeneric 0; Nop; VecPack 0 0; VecLen 0; VecImmBorrow 0; VecMutBorrow 0; VecPushBack 0;
  VecPopBack 0; VecUnpack 0 0; VecSwap 0 ].
Definition zero_cost_schedule {E} (debug_assertions : bool) : result E CostTable :=
  new_from_instructions debug_assertions ((λ i, (i, GasCost_new 0 0)) <$> zero_cost_instructions)
    (replicate NUMBER_OF_NATIVE_FUNCTIONS (GasCost_new 0 0)).

End Schedules.

(** [enum NativeCostIndex] *)
Module NativeCostIndex.
Inductive NativeCostIndex : Set :=
| SHA2_256
| SHA3_256
| ED25519_VERIFY
| ED25519_THRESHOLD_VERIFY
| BCS_TO_BYTES
| LENGTH
| EMPTY
| BORROW
| BORROW_MUT
| PUSH_BACK
| POP_BACK
| DESTROY_EMPTY
| SWAP
| ED25519_VALIDATE_KEY
| SIGNER_BORROW
| CREATE_SIGNER
| DESTROY_SIGNER
| EMIT_EVENT
| U256_FROM_U8
| U256_FROM_U64
| U256_FROM_U128
| U256_AS_U8
| U256_AS_U64
| U256_AS_U128
| U256_MUL
| U256_DIV
| U256_SUB
| U256_ADD
| TYPE_INFO.
End NativeCostIndex.
Notation NativeCostIndex := NativeCostIndex.NativeCostIndex.

Section Initial.
Import Bytecode NativeCostIndex.

Definition NativeCostIndex_to_u8 (self : NativeCostIndex) : u8 :=
  match self with
  | SHA2_256 => 0
  | SHA3_256 => 1
  | ED25519_VERIFY => 2
  | ED25519_THRESHOLD_VERIFY => 3
  | BCS_TO_BYTES => 4
  | LENGTH => 5
  | EMPTY => 6
  | BORROW => 7
  | BORROW_MUT => 8
  | PUSH_BACK => 9
  | POP_BACK => 10
  | DESTROY_EMPTY => 11
  | SWAP => 12
  | ED25519_VALIDATE_KEY => 13
  | SIGNER_BORROW => 14
  | CREATE_SIGNER => 15
  | DESTROY_SIGNER => 16
  | EMIT_EVENT => 17
  | U256_FROM_U8 => 18
  | U256_FROM_U64 => 19
  | U256_FROM_U128 => 20
  | U256_AS_U8 => 21
  | U256_AS_U64 => 22
  | U256_AS_U128 => 23
  | U256_MUL => 24
  | U256_DIV => 25
  | U256_SUB => 26
  | U256_ADD => 27
  | TYPE_INFO => 28
  end.

(** [INITIAL_GAS_SCHEDULE] *)
Definition initial_instructions : list (Bytecode * N * N) := [
  (MoveTo 0, 13, 1); (MoveToGeneric 0, 27, 1); (MoveFrom 0, 459, 1); (MoveFromGeneric 0, 13, 1);
  (BrTrue 0, 1, 1); (WriteRef, 1, 1); (Mul, 1, 1); (MoveLoc 0, 1, 1); (And, 1, 1); (Pop, 1, 1);
  (BitAnd, 2, 1); (ReadRef, 1, 1); (Sub, 1, 1); (MutBorrowField 0, 1, 1); (MutBorrowFieldGeneric 0, 1, 1);
  (ImmBorrowField 0, 1, 1); (ImmBorrowFieldGeneric 0, 1, 1); (Add, 1, 1); (CopyLoc 0, 1, 1); (StLoc 0, 1, 1);
  (Ret, 638, 1); (Lt, 1, 1); (LdU8 0, 1, 1); (LdU64 0, 1, 1); (LdU128 0, 1, 1); (CastU8, 2, 1);
  (CastU64, 1, 1); (CastU128, 1, 1); (Abort, 1, 1); (MutBorrowLoc 0, 2, 1); (ImmBorrowLoc 0, 1, 1);
  (LdConst 0, 1, 1); (Ge, 1, 1); (Xor, 1, 1); (Shl, 2, 1); (Shr, 1, 1); (Neq, 1, 1); (Not, 1, 1);
  (Call 0, 1132, 1); (CallGeneric 0, 582, 1); (Le, 2, 1); (Branch 0, 1, 1); (Unpack 0, 2, 1);
  (UnpackGeneric 0, 2, 1); (Or, 2, 1); (LdFalse, 1, 1); (LdTrue, 1, 1); (Mod, 1, 1); (BrFalse 0, 1, 1);
  (Exists 0, 41, 1); (ExistsGeneric 0, 34, 1); (BitOr, 2, 1); (FreezeRef, 1, 1); (MutBorrowGlobal 0, 21, 1);
  (MutBorrowGlobalGeneric 0, 15, 1); (ImmBorrowGlobal 0, 23, 1); (ImmBorrowGlobalGeneric 0, 14, 1);
  (Div, 3, 1); (Eq, 1, 1); (Gt, 1, 1); (Pack 0, 2, 1); (PackGeneric 0, 2, 1); (Nop, 1, 1);
  (VecPack 0 0, 84, 1); (VecLen 0, 98, 1); (VecImmBorrow 0, 1334, 1); (VecMutBorrow 0, 1902, 1);
  (VecPushBack 0, 53, 1); (VecPopBack 0, 227, 1); (VecUnpack 0 0, 572, 1); (VecSwap 0, 1436, 1) ].
Definition initial_natives : list (NativeCostIndex * N * N) := [
  (SHA2_256, 21, 1); (SHA3_256, 64, 1); (ED25519_VERIFY, 61, 1); (ED25519_THRESHOLD_VERIFY, 3351, 1);
  (BCS_TO_BYTES, 181, 1); (LENGTH, 98, 1); (EMPTY, 84, 1); (BORROW, 1334, 1); (BORROW_MUT, 1902, 1);
  (PUSH_BACK, 53, 1); (POP_BACK, 227, 1); (DESTROY_EMPTY, 572, 1); (SWAP, 1436, 1);
  (ED25519_VALIDATE_KEY, 26, 1); (SIGNER_BORROW, 353, 1); (CREATE_SIGNER, 24, 1); (DESTROY_SIGNER, 212, 1);
  (EMIT_EVENT, 52, 1); (U256_FROM_U8, 10, 1); (U256_FROM_U64, 10, 1); (U256_FROM_U128, 10, 1);
  (U256_AS_U8, 10, 1); (U256_AS_U64, 10, 1); (U256_AS_U128, 10, 1); (U256_MUL, 10, 1); (U256_DIV, 10, 1);
  (U256_SUB, 10, 1); (U256_ADD, 10, 1); (TYPE_INFO, 10, 1) ].
Definition gas_entry {A} (entry : A * N * N) : A * GasCost := (entry.1.1, GasCost_new entry.1.2 entry.2).
Definition INITIAL_GAS_SCHEDULE {E} (debug_assertions : bool) : result E CostTable :=
  let raw_native_table := (sort_by_key (λ cost, NativeCostIndex_to_u8 cost.1) (gas_entry <$> initial_natives)).*2 in
  new_from_instructions debug_assertions (sort_by_key entry_key (gas_entry <$> initial_instructions)) raw_native_table.


(** [cost_table] of mvm/src/gas_schedule.rs *)
Definition mvm_instructions : list (Bytecode * N * N) := [
  (MoveTo 0, 825, 1); (MoveToGeneric 0, 825, 1); (MoveFrom 0, 917, 1); (MoveFromGeneric 0, 917, 1);
  (BrTrue 0, 31, 1); (WriteRef, 65, 1); (Mul, 41, 1); (MoveLoc 0, 41, 1); (And, 49, 1); (Pop, 27, 1);
  (BitAnd, 44, 1); (ReadRef, 51, 1); (Sub, 44, 1); (MutBorrowField 0, 58, 1);
  (MutBorrowFieldGeneric 0, 58, 1); (ImmBorrowField 0, 58, 1); (ImmBorrowFieldGeneric 0, 58, 1);
  (Add, 45, 1); (CopyLoc 0, 41, 1); (StLoc 0, 28, 1); (Ret, 28, 1); (Lt, 49, 1); (LdU8 0, 29, 1);
  (LdU64 0, 29, 1); (LdU128 0, 29, 1); (CastU8, 29, 1); (CastU64, 29, 1); (CastU128, 29, 1); (Abort, 39, 1);
  (MutBorrowLoc 0, 45, 1); (ImmBorrowLoc 0, 45, 1); (LdConst 0, 36, 1); (Ge, 46, 1); (Xor, 46, 1);
  (Shl, 46, 1); (Shr, 46, 1); (Neq, 51, 1); (Not, 35, 1); (Call 0, 197, 1); (CallGeneric 0, 197, 1);
  (Le, 47, 1); (Branch 0, 10, 1); (Unpack 0, 94, 1); (UnpackGeneric 0, 94, 1); (Or, 43, 1); (LdFalse, 30, 1);
  (LdTrue, 29, 1); (Mod, 42, 1); (BrFalse 0, 29, 1); (Exists 0, 856, 1); (ExistsGeneric 0, 856, 1);
  (BitOr, 45, 1); (FreezeRef, 10, 1); (MutBorrowGlobal 0, 1000, 3); (MutBorrowGlobalGeneric 0, 1000, 3);
  (ImmBorrowGlobal 0, 1000, 3); (ImmBorrowGlobalGeneric 0, 1000, 3); (Div, 41, 1); (Eq, 48, 1); (Gt, 46, 1);
  (Pack 0, 73, 1); (PackGeneric 0, 73, 1); (Nop, 10, 1); (VecPack 0 0, 84, 1); (VecLen 0, 98, 1);
  (VecImmBorrow 0, 1334, 1); (VecMutBorrow 0, 1902, 1); (VecPushBack 0, 53, 1); (VecPopBack 0, 227, 1);
  (VecUnpack 0 0, 572, 1); (VecSwap 0, 1436, 1) ].
Definition mvm_natives : list (NativeCostIndex * N * N) := [
  (SHA2_256, 21, 1); (SHA3_256, 64, 1); (ED25519_VERIFY, 61, 1); (ED25519_THRESHOLD_VERIFY, 3351, 1);
  (BCS_TO_BYTES, 181, 1); (LENGTH, 98, 1); (EMPTY, 84, 1); (BORROW, 1334, 1); (BORROW_MUT, 1902, 1);
  (PUSH_BACK, 53, 1); (POP_BACK, 227, 1); (DESTROY_EMPTY, 572, 1); (SWAP, 1436, 1);
  (ED25519_VALIDATE_KEY, 26, 1); (SIGNER_BORROW, 353, 1); (CREATE_SIGNER, 24, 1); (DESTROY_SIGNER, 212, 1);
  (EMIT_EVENT, 52, 1); (U256_FROM_U8, 10, 1); (U256_FROM_U64, 10, 1); (U256_FROM_U128, 10, 1);
  (U256_AS_U8, 10, 1); (U256_AS_U64, 10, 1); (U256_AS_U128, 10, 1); (U256_MUL, 10, 1); (U256_DIV, 10, 1);
  (U256_SUB, 10, 1); (U256_ADD, 10, 1); (TYPE_INFO, 10, 1) ].
Definition mvm_cost_table {E} (debug_assertions : bool) : result E CostTable :=
  let instrs := sort_by_key entry_key (gas_entry <$> mvm_instructions) in
  let native_table := sort_by_key (λ cost, NativeCostIndex_to_u8 cost.1) (gas_entry <$> mvm_natives) in
  new_from_instructions debug_assertions instrs native_table.*2.
End Initial.

(** [native_gas] *)
Definition native_gas {E} (overflow_checks : bool) (table : CostTable) (key : NativeCostIndex) (size : N)
  : result E InternalGasUnits :=
  gas_amt ← native_cost table (NativeCostIndex_to_u8 key);
  let memory_size := N.max 1 size in
  amount ← total overflow_checks gas_amt;
  gas_mul overflow_checks amount memory_size.

(** ** The meter *)

(** [struct GasStatus] *)
Record GasStatus : Set := { cost_table : CostTable; gas_left : InternalGasUnits; charge : bool }.
Definition set_gas_left (self : GasStatus) (gas : InternalGasUnits) : GasStatus :=
  {| cost_table := cost_table self; gas_left := gas; charge := charge self |}.

Section Meter.
Context (overflow_checks : bool).

Definition GasStatus_new {E} (table : CostTable) (gas_left : GasUnits) : result E GasStatus :=
  gas ← to_internal_units overflow_checks (gas_constants table) gas_left;
  Ok {| cost_table := table; gas_left := gas; charge := true |}.
Definition new_unmetered {E} (debug_assertions : bool) : result E GasStatus :=
  table ← zero_cost_schedule debug_assertions;
  Ok {| cost_table := table; gas_left := 0; charge := false |}.
Definition remaining_gas {E} (self : GasStatus) : result E GasUnits :=
  to_external_units (gas_constants (cost_table self)) (gas_left self).
Definition set_metering (enabled : bool) (self : GasStatus) : GasStatus :=
  {| cost_table := cost_table self; gas_left := gas_left self; charge := enabled |}.

Notation GasM := (Run GasStatus PartialVMError).

(** [deduct_gas] *)
Definition deduct_gas (amount : InternalGasUnits) : GasM unit := λ self,
  if negb (charge self) then (Ok tt, self)
  else if amount <=? gas_left self then (Ok tt, set_gas_left self (gas_left self - amount))
  else (Err (PartialVMError_new OUT_OF_GAS), set_gas_left self 0).

(** [charge_instr_with_size], [charge_instr], [charge_intrinsic_gas] *)
Definition charge_instr_with_size (opcode : Opcodes) (size : AbstractMemorySize) : GasM unit := λ self,
  let size := N.max 1 size in
  (amount ← run_lift (
     cost ← instruction_cost overflow_checks (cost_table self) (Opcodes_to_u8 opcode);
     amount ← total overflow_checks cost;
     gas_mul overflow_checks amount size);
   deduct_gas amount) self.
Definition charge_instr (opcode : Opcodes) : GasM unit := λ self,
  (amount ← run_lift (
     cost ← instruction_cost overflow_checks (cost_table self) (Opcodes_to_u8 opcode);
     total overflow_checks cost);
   deduct_gas amount) self.
Definition charge_intrinsic_gas (intrinsic_cost : AbstractMemorySize) : Run GasStatus VMError unit := λ self,
  match (cost ← run_lift (calculate_intrinsic_gas overflow_checks intrinsic_cost (gas_constants (cost_table self)));
         deduct_gas cost) self with
  | (r, self) => (map_err (λ e, finish e LUndefined) r, self)
  end.
End Meter.

(** ** The table of costs *)

Lemma insert_by_key_perm {A} (key : A → N) x l : insert_by_key key x l ≡ₚ x :: l.
Proof. induction l as [|y l IH]; [done|]. cbn. destruct (_ <? _); [|done]. rewrite IH. apply Permutation_swap. Qed.
Lemma sort_by_key_perm {A} (key : A → N) l : sort_by_key key l ≡ₚ l.
Proof. induction l as [|x l IH]; [done|]. cbn. rewrite insert_by_key_perm. by f_equiv. Qed.
Lemma insert_by_key_sorted {A} (key : A → N) x l :
  StronglySorted N.le (key <$> l) → StronglySorted N.le (key <$> insert_by_key key x l).
Proof.
  induction l as [|y l IH]; intros Hl; [repeat constructor|]. cbn. apply StronglySorted_inv in Hl as [Hl Hy].
  destruct (N.ltb_spec (key y) (key x)) as [Hlt|Hge].
  - cbn. constructor; [by apply IH|]. rewrite insert_by_key_perm. cbn. constructor; [lia|done].
  - cbn. repeat constructor; [done..|]. eapply Forall_impl; [exact Hy|]. intros z Hz. cbn in Hz. lia.
Qed.
Lemma sort_by_key_sorted {A} (key : A → N) l : StronglySorted N.le (key <$> sort_by_key key l).
Proof. induction l as [|x l IH]; [constructor|]. by apply insert_by_key_sorted. Qed.

(** Sorted lists with the same elements are equal; the keys of the opcodes are these. *)
Definition opcode_keys : list N := N.of_nat <$> seq 1 71.
Lemma sorted_keys {A} (key : A → N) l :
  (key <$> l) ≡ₚ opcode_keys → key <$> sort_by_key key l = opcode_keys.
Proof.
  intros Hl. apply (StronglySorted_unique N.le); [apply sort_by_key_sorted| |by rewrite sort_by_key_perm].
  apply Sorted_StronglySorted; [intros ???; lia|]. by repeat constructor.
Qed.
Lemma opcode_keys_lookup j k : opcode_keys !! j = Some k → N.of_nat j = k - 1 ∧ k ≠ 0.
Proof.
  unfold opcode_keys. rewrite list_lookup_fmap. intros (i & Hi & ->)%fmap_Some. apply lookup_seq in Hi as [-> _]. lia.
Qed.
Lemma sorted_entry_key {A} (key : A → N) l j x :
  (key <$> l) ≡ₚ opcode_keys → sort_by_key key l !! j = Some x → N.of_nat j = key x - 1 ∧ key x ≠ 0.
Proof.
  intros Hl Hj. apply opcode_keys_lookup. rewrite <- (sorted_keys key l Hl), list_lookup_fmap, Hj. done.
Qed.
Lemma all_covered {A} (key : A → N) l n :
  (∀ j x, l !! j = Some x → N.of_nat (n + j) = key x - 1) →
  len (List.filter (λ p : N * A, p.1 =? key p.2 - 1) (imap (λ j x, (N.of_nat (n + j), x)) l)) = len l.
Proof.
  revert n. induction l as [|x l IH]; intros n Hl; [done|]. cbn [imap List.filter fst snd].
  rewrite (Hl 0%nat x eq_refl), N.eqb_refl. unfold len in *. cbn [length].
  specialize (IH (S n)). rewrite !Nat2N.inj_succ. f_equal.
  rewrite <- IH.
  - do 2 f_equal. f_equal. apply imap_ext. intros j y _. cbn. do 2 f_equal. lia.
  - intros j y Hy. rewrite <- (Hl (S j) y Hy). f_equal. lia.
Qed.

(** The cost of an instruction is the one of its entry, whatever the order of the entries. *)
Lemma new_from_instructions_lookup {E} (debug : bool) instrs natives :
  (entry_key <$> instrs) ≡ₚ opcode_keys →
  ∃ t, new_from_instructions (E := E) debug instrs natives = Ok t ∧ native_table t = natives ∧
    ∀ checks i c, (i, c) ∈ instrs → instruction_cost (E := E) checks t (instruction_key i) = Ok c.
Proof.
  intros Hk. unfold new_from_instructions.
  assert (instructions_covered (sort_by_key entry_key instrs) = VARIANT_COUNT) as ->.
  { unfold instructions_covered. change (enumerate (sort_by_key entry_key instrs)) with
      (imap (λ j x, (N.of_nat (0 + j), x)) (sort_by_key entry_key instrs)).
    rewrite all_covered.
    - unfold len. rewrite sort_by_key_perm. apply Permutation_length in Hk. rewrite length_fmap in Hk. by rewrite Hk.
    - intros j x Hx. by apply (sorted_entry_key entry_key instrs). }
  rewrite N.eqb_refl. unfold debug_assert. rewrite andb_false_r. eexists. split_and!; [done..|].
  intros checks i c Hi. rewrite <- (sort_by_key_perm entry_key) in Hi. apply list_elem_of_lookup in Hi as [j Hj].
  destruct (sorted_entry_key entry_key instrs j (i, c) Hk Hj) as [Hj' H0]. unfold instruction_cost.
  change (entry_key (i, c)) with (instruction_key i) in Hj', H0.
  destruct (N.eqb_spec (instruction_key i) 0) as [?|_]; [done|]. unfold at_. rewrite <- Hj', Nat2N.id. cbn [instruction_table].
  by rewrite list_lookup_fmap, Hj.
Qed.

(** A schedule has a cost for every instruction, and charging it is not free. *)
Definition table_positive (t : CostTable) : Prop := ∀ checks opcode,
  ∃ c, instruction_cost (E := PartialVMError) checks t (Opcodes_to_u8 opcode) = Ok c ∧
    0 < instruction_gas c + memory_gas c <= u32_MAX.
Definition table_lists (instrs : list (Bytecode * N * N)) (natives : list (NativeCostIndex * N * N)) (t : CostTable) : Prop :=
  (∀ checks i c m, (i, c, m) ∈ instrs → instruction_cost (E := PartialVMError) checks t (instruction_key i) = Ok (GasCost_new c m)) ∧
  (∀ n c m, (n, c, m) ∈ natives → native_cost (E := PartialVMError) t (NativeCostIndex_to_u8 n) = Ok (GasCost_new c m)) ∧
  ∀ n, n ∈ natives.*1.*1.

#[export] Instance GasCost_eq_dec : EqDecision GasCost.
Proof. solve_decision. Defined.
#[export] Instance NativeCostIndex_eq_dec : EqDecision NativeCostIndex.
Proof. solve_decision. Defined.

Definition native_costs (natives : list (NativeCostIndex * N * N)) : list GasCost :=
  (sort_by_key (λ cost : NativeCostIndex * GasCost, NativeCostIndex_to_u8 cost.1) (gas_entry <$> natives)).*2.
Definition natives_listed (natives : list (NativeCostIndex * N * N)) : Prop :=
  Forall (λ n : NativeCostIndex * N * N, at_ (native_costs natives) (NativeCostIndex_to_u8 n.1.1) = Some (GasCost_new n.1.2 n.2)) natives.
Definition costs_positive (instrs : list (Bytecode * N * N)) : Prop :=
  Forall (λ i : Bytecode * N * N, 0 < i.1.2 + i.2 <= u32_MAX) instrs.

Ltac listed := unfold natives_listed, costs_positive; apply (bool_decide_unpack _); vm_compute; exact I.
Lemma opcode_key_listed opcode : Opcodes_to_u8 opcode ∈ opcode_keys.
Proof. destruct opcode; listed. Qed.
Lemma schedule_ok debug instrs natives :
  sort_by_key id (instruction_key ∘ fst ∘ fst <$> instrs) = opcode_keys → natives_listed natives → (∀ n, n ∈ natives.*1.*1) →
  costs_positive instrs →
  ∃ t, new_from_instructions (E := PartialVMError) debug (sort_by_key entry_key (gas_entry <$> instrs)) (native_costs natives) = Ok t ∧
    table_lists instrs natives t ∧ table_positive t.
Proof.
  intros Hk Hn Hall Hpos. assert (Hk' : (instruction_key ∘ fst ∘ fst <$> instrs) ≡ₚ opcode_keys) by by rewrite <- Hk, sort_by_key_perm.
  clear Hk; rename Hk' into Hk.
  destruct (new_from_instructions_lookup (E := PartialVMError) debug (sort_by_key entry_key (gas_entry <$> instrs)) (native_costs natives))
    as (t & Ht & Hnat & Hl).
  { rewrite sort_by_key_perm, <- Hk, <- list_fmap_compose. done. }
  assert (Hl' : ∀ checks e, e ∈ instrs →
    instruction_cost (E := PartialVMError) checks t (instruction_key e.1.1) = Ok (GasCost_new e.1.2 e.2)).
  { intros checks e He. apply Hl. rewrite sort_by_key_perm. apply list_elem_of_fmap. by exists e. }
  exists t. split_and!; [done| |].
  - split_and!; [intros checks i c m; apply (Hl' checks (i, c, m))| |done]. intros n c m Hin. unfold native_cost. rewrite Hnat.
    unfold natives_listed in Hn. rewrite Forall_forall in Hn. specialize (Hn _ Hin). cbn [fst snd] in Hn. by rewrite Hn.
  - intros checks opcode. pose proof (opcode_key_listed opcode) as Ho. rewrite <- Hk in Ho.
    apply list_elem_of_fmap in Ho as (e & -> & He). exists (GasCost_new e.1.2 e.2). split; [by apply Hl'|].
    unfold costs_positive in Hpos. rewrite Forall_forall in Hpos. by apply Hpos.
Qed.

Lemma initial_schedule_ok debug :
  ∃ t, INITIAL_GAS_SCHEDULE (E := PartialVMError) debug = Ok t ∧ table_lists initial_instructions initial_natives t ∧ table_positive t.
Proof. apply schedule_ok; [by vm_compute|listed|intros []; listed|listed]. Qed.
Lemma mvm_schedule_ok debug :
  ∃ t, mvm_cost_table (E := PartialVMError) debug = Ok t ∧ table_lists mvm_instructions mvm_natives t ∧ table_positive t.
Proof. apply schedule_ok; [by vm_compute|listed|intros []; listed|listed]. Qed.

(** Both schedules can be built in every build; they give each instruction and each
    native function the cost that is written next to it, and no instruction is free. *)
Theorem schedules_cover debug :
  (∃ t, INITIAL_GAS_SCHEDULE (E := PartialVMError) debug = Ok t ∧ table_lists initial_instructions initial_natives t ∧ table_positive t) ∧
  (∃ t, mvm_cost_table (E := PartialVMError) debug = Ok t ∧ table_lists mvm_instructions mvm_natives t ∧ table_positive t).
Proof. split; [apply initial_schedule_ok|apply mvm_schedule_ok]. Qed.

(** The schedule of the unmetered gas status has 18 costs of native functions:
    looking up the cost of a later one panics, though both other schedules list 29.
    Charging an instruction leaves the meter. *)
Theorem unmetered_natives_panic (debug checks : bool) (size : N) :
  ∃ status, new_unmetered (E := PartialVMError) debug = Ok status ∧
    (∀ n, native_gas (E := PartialVMError) checks (cost_table status) n size =
          if NativeCostIndex_to_u8 n <? 18 then Ok 0 else Panic) ∧
    (∀ opcode, charge_instr checks opcode status = (Ok tt, status)).
Proof.
  destruct (new_unmetered (E := PartialVMError) debug) as [status| | |] eqn:H; [|by destruct debug..].
  exists status. split; [done|]. assert (status = {| cost_table := cost_table status; gas_left := 0; charge := false |} ∧
    native_table (cost_table status) = replicate 18 (GasCost_new 0 0) ∧
    length (instruction_table (cost_table status)) = 71%nat ∧ Forall (λ c, c = GasCost_new 0 0) (instruction_table (cost_table status)))
    as (Hs & Hn & Hl & Hc) by (destruct debug; vm_compute in H; injection H as <-; split_and!; try reflexivity; repeat constructor).
  split.
  - intros n. unfold native_gas, native_cost. rewrite Hn. destruct n; by destruct checks.
  - intros opcode. unfold charge_instr, instruction_cost. rewrite Hs. cbn [cost_table].
    assert (∃ c, at_ (instruction_table (cost_table status)) (Opcodes_to_u8 opcode - 1) = Some c) as [c Hop].
    { apply lookup_lt_is_Some_2. rewrite Hl. destruct opcode; cbn; lia. }
    rewrite Hop. apply list_elem_of_lookup_2 in Hop. rewrite Forall_forall in Hc. rewrite (Hc _ Hop).
    destruct opcode; cbn; done.
Qed.
