(* ===== verification/LoadedCode.v ===== *)
(** * LoadedCode: modules and scripts as the machine runs them

    Models the caches of [language/move-vm/runtime/src/loader.rs], the translation of a
    compiled module or script into the tables that the interpreter indexes, and the
    [Resolver] that it asks; and [NativeFunctions] of [native_functions.rs].  A native
    function is a value of a type [Native]; an [Arc] is what it points to.

    The theorems: a module that cannot be linked leaves the cache as it was, and one that
    can is entered with its structs and functions, whose references resolve to what their
    handles name. *)

From S2P Require Import Prelude CoreTypes VmStatus Abilities FileFormat Errors Views RuntimeTypes Checks SignatureChecker ModulePasses CyclicDependencies Dependencies.

Import RuntimeType.

(** ** [BinaryCache] *)

Section BinaryCache.
Context {K V : Type} `{Countable K}.
Record BinaryCache : Type := { id_map : gmap K N; binaries : list V }.
Definition cache_new : BinaryCache := {| id_map := ∅; binaries := [] |}.
Definition cache_insert (self : BinaryCache) (key : K) (binary : V) : BinaryCache :=
  {| id_map := <[ key := len (binaries self) ]> (id_map self); binaries := binaries self ++ [binary] |}.
Definition cache_get (self : BinaryCache) (key : K) : option V :=
  idx ← id_map self !! key; at_ (binaries self) idx.
End BinaryCache.
Arguments BinaryCache K V {_ _}.

(** ** Loaded code *)

(** [type ScriptHash] and [enum Scope] *)
Definition ScriptHash : Set := list u8.
Inductive Scope : Set := ScopeModule (id : ModuleId) | ScopeScript (hash : ScriptHash).
#[export] Instance Scope_eq_dec : EqDecision Scope.
Proof. solve_decision. Defined.

(** [struct FunctionInstantiation], [StructDef], [StructInstantiation], [FieldHandle] and
    [FieldInstantiation] of the loader *)
Record RFunctionInstantiation : Set := { rfi_handle : N; rfi_instantiation : list Type_ }.
Record StructDef : Set := { rsd_field_count : u16; rsd_idx : N }.
Record RStructInstantiation : Set := { rsi_field_count : u16; rsi_def : N; rsi_instantiation : list Type_ }.
Record RFieldHandle : Set := { rfh_offset : N; rfh_owner : N }.
Record RFieldInstantiation : Set := { rfdi_offset : N; rfdi_owner : N }.

Section LoadedCode.
Context {Native : Type}.

(** [NativeFunctions] *)
Definition NativeFunctions : Type := gmap AccountAddress (gmap Identifier (gmap Identifier Native)).
Definition resolve (self : NativeFunctions) (addr : AccountAddress) (module_name func_name : Identifier) : option Native :=
  modules ← self !! addr; funcs ← modules !! module_name; funcs !! func_name.
Definition add_native (map : NativeFunctions) (native : AccountAddress * Identifier * Identifier * Native)
  : result PartialVMError NativeFunctions :=
  let '(addr, module_name, func_name, func) := native in
  let modules := default ∅ (map !! addr) in
  let funcs := default ∅ (modules !! module_name) in
  match funcs !! func_name with
  | Some _ => Err (PartialVMError_new DUPLICATE_NATIVE_FUNCTION)
  | None => Ok (<[ addr := <[ module_name := <[ func_name := func ]> funcs ]> modules ]> map)
  end.
Definition NativeFunctions_new (natives : list (AccountAddress * Identifier * Identifier * Native))
  : result PartialVMError NativeFunctions := try_fold add_native natives ∅.

(** [struct Function] *)
Record Function : Type := {
  f_file_format_version : u32;
  f_index : FunctionDefinitionIndex;
  f_code : list Bytecode;
  f_parameters : Signature;
  f_return : Signature;
  f_locals : Signature;
  f_type_parameters : list AbilitySet;
  f_native : option Native;
  f_scope : Scope;
  f_name : Identifier }.

(** [Function::new] *)
Definition Function_new (natives : NativeFunctions) (index : FunctionDefinitionIndex) (def : FunctionDefinition)
    (module : CompiledModule) : result PartialVMError Function :=
  let view := VModule module in
  handle ← partial (function_handle_at view (fdef_function def));
  name ← partial (identifier_at view (fh_name handle));
  module_id ← module_self_id module;
  let native := if is_native def then resolve natives (mid_address module_id) (mid_name module_id) name else None in
  parameters ← partial (signature_at view (fh_parameters handle));
  '(code, locals) ← match fdef_code def with
                    | Some code =>
                        locals ← partial (signature_at view (cu_locals code));
                        Ok (cu_code code, parameters ++ locals)
                    | None => Ok ([], [])
                    end;
  return_ ← partial (signature_at view (fh_return handle));
  Ok {| f_file_format_version := m_version module; f_index := index; f_code := code; f_parameters := parameters;
        f_return := return_; f_locals := locals; f_type_parameters := fh_type_parameters handle; f_native := native;
        f_scope := ScopeModule module_id; f_name := name |}.

(** The accessors of [Function] *)
Definition module_id (self : Function) : option ModuleId :=
  match f_scope self with ScopeModule id => Some id | ScopeScript _ => None end.
Definition local_count (self : Function) : N := len (f_locals self).
Definition arg_count (self : Function) : N := len (f_parameters self).
Definition function_is_native (self : Function) : bool := bool_decide (is_Some (f_native self)).
Definition get_native (self : Function) : result PartialVMError Native :=
  ok_or (PartialVMError_new UNREACHABLE) (f_native self).

(** [struct Module] *)
Record Module_ : Type := {
  lm_id : ModuleId;
  lm_module : CompiledModule;
  lm_struct_refs : list N;
  lm_structs : list StructDef;
  lm_struct_instantiations : list RStructInstantiation;
  lm_function_refs : list N;
  lm_function_instantiations : list RFunctionInstantiation;
  lm_field_handles : list RFieldHandle;
  lm_field_instantiations : list RFieldInstantiation;
  lm_function_map : gmap Identifier N;
  lm_struct_map : gmap Identifier N;
  lm_single_signature_token_map : gmap SignatureIndex Type_ }.

(** [struct Script] *)
Record Script : Type := {
  ls_script : CompiledScript;
  ls_struct_refs : list N;
  ls_function_refs : list N;
  ls_function_instantiations : list RFunctionInstantiation;
  ls_main : Function;
  ls_parameter_tys : list Type_;
  ls_single_signature_token_map : gmap SignatureIndex Type_ }.

(** ** [ModuleCache] *)

Record ModuleCache : Type := {
  mc_modules : BinaryCache ModuleId Module_;
  mc_structs : list StructType;
  mc_functions : list Function }.
Definition ModuleCache_new : ModuleCache := {| mc_modules := cache_new; mc_structs := []; mc_functions := [] |}.
Definition set_structs (self : ModuleCache) (structs : list StructType) : ModuleCache :=
  {| mc_modules := mc_modules self; mc_structs := structs; mc_functions := mc_functions self |}.
Definition set_functions (self : ModuleCache) (functions : list Function) : ModuleCache :=
  {| mc_modules := mc_modules self; mc_structs := mc_structs self; mc_functions := functions |}.

Definition module_at (self : ModuleCache) (id : ModuleId) : option Module_ := cache_get (mc_modules self) id.
Definition function_at (self : ModuleCache) (idx : N) : result PartialVMError Function := unwrap (at_ (mc_functions self) idx).
Definition struct_at (self : ModuleCache) (idx : N) : result PartialVMError StructType := unwrap (at_ (mc_structs self) idx).

(** [resolve_struct_by_name], [resolve_function_by_name] *)
Definition resolve_struct_by_name (self : ModuleCache) (struct_name : Identifier) (module_id : ModuleId)
  : result PartialVMError (N * StructType) :=
  match (module ← cache_get (mc_modules self) module_id; lm_struct_map module !! struct_name) with
  | Some struct_idx => st ← struct_at self struct_idx; Ok (struct_idx, st)
  | None => Err (PartialVMError_new TYPE_RESOLUTION_FAILURE)
  end.
Definition resolve_function_by_name (self : ModuleCache) (func_name : Identifier) (module_id : ModuleId)
  : result PartialVMError N :=
  match (module ← cache_get (mc_modules self) module_id; lm_function_map module !! func_name) with
  | Some func_idx => Ok func_idx
  | None => Err (PartialVMError_new FUNCTION_RESOLUTION_FAILURE)
  end.

(** *** Types *)

Definition StructResolver : Type := Identifier → ModuleId → result PartialVMError N.

(** The module and the name of a struct handle *)
Definition struct_handle_name (view : BinaryIndexedView) (sh_idx : StructHandleIndex)
  : result PartialVMError (Identifier * ModuleId) :=
  struct_handle ← partial (struct_handle_at view sh_idx);
  struct_name ← partial (identifier_at view (sh_name struct_handle));
  module_handle ← partial (module_handle_at view (sh_module struct_handle));
  module_id ← partial (module_id_for_handle view module_handle);
  Ok (struct_name, module_id).

(** [make_type_internal] *)
Fixpoint make_type_internal (view : BinaryIndexedView) (tok : SignatureToken) (resolver : StructResolver)
  : result PartialVMError Type_ :=
  match tok with
  | SignatureToken.Bool => Ok Bool
  | SignatureToken.U8 => Ok U8
  | SignatureToken.U64 => Ok U64
  | SignatureToken.U128 => Ok U128
  | SignatureToken.Address => Ok Address
  | SignatureToken.Signer => Ok Signer
  | SignatureToken.TypeParameter idx => Ok (TyParam idx)
  | SignatureToken.Vector inner_tok => t ← make_type_internal view inner_tok resolver; Ok (Vector t)
  | SignatureToken.Reference inner_tok => t ← make_type_internal view inner_tok resolver; Ok (Reference t)
  | SignatureToken.MutableReference inner_tok => t ← make_type_internal view inner_tok resolver; Ok (MutableReference t)
  | SignatureToken.Struct sh_idx =>
      '(struct_name, module_id) ← struct_handle_name view sh_idx;
      def_idx ← resolver struct_name module_id;
      Ok (Struct def_idx)
  | SignatureToken.StructInstantiation sh_idx tys =>
      type_parameters ← collect (λ tok, make_type_internal view tok resolver) tys;
      '(struct_name, module_id) ← struct_handle_name view sh_idx;
      def_idx ← resolver struct_name module_id;
      Ok (StructInstantiation def_idx type_parameters)
  end.

(** [make_type] *)
Definition resolver_of_cache (self : ModuleCache) : StructResolver := λ struct_name module_id,
  '(idx, _) ← resolve_struct_by_name self struct_name module_id; Ok idx.
Definition make_type (self : ModuleCache) (view : BinaryIndexedView) (tok : SignatureToken) : result PartialVMError Type_ :=
  make_type_internal view tok (resolver_of_cache self).

(** [make_type_while_loading]: the structs of the module itself are the last ones. *)
Fixpoint find_struct_back (structs : list (N * StructType)) (struct_name : Identifier) (module_id : ModuleId) : option N :=
  match structs with
  | [] => None
  | (idx, struct_type) :: structs =>
      if negb (bool_decide (st_module struct_type = module_id)) then None
      else if bool_decide (st_name struct_type = struct_name) then Some idx
      else find_struct_back structs struct_name module_id
  end.
Definition resolver_while_loading (self : ModuleCache) (self_id : ModuleId) : StructResolver := λ struct_name module_id,
  if bool_decide (module_id = self_id)
  then ok_or (PartialVMError_new TYPE_RESOLUTION_FAILURE) (find_struct_back (rev (enumerate (mc_structs self))) struct_name module_id)
  else resolver_of_cache self struct_name module_id.
Definition make_type_while_loading (self : ModuleCache) (module : CompiledModule) (tok : SignatureToken)
  : result PartialVMError Type_ :=
  self_id ← module_self_id module;
  make_type_internal (VModule module) tok (resolver_while_loading self self_id).

(** *** Adding a module *)

Notation CacheM E := (Run ModuleCache E).

(** [make_struct_type] *)
Definition make_struct_type (module : CompiledModule) (struct_def : StructDefinition) (idx : StructDefinitionIndex)
  : result PartialVMError StructType :=
  let view := VModule module in
  struct_handle ← partial (struct_handle_at view (sd_struct_handle struct_def));
  name ← partial (identifier_at view (sh_name struct_handle));
  module_id ← module_self_id module;
  Ok {| st_fields := []; st_abilities := sh_abilities struct_handle; st_type_parameters := sh_type_parameters struct_handle;
        st_name := name; st_module := module_id; st_struct_def := idx |}.

(** [load_field_types]: first the types of all fields, then their assignment *)
Definition field_types (self : ModuleCache) (module : CompiledModule) (struct_def : StructDefinition)
  : result PartialVMError (list Type_) :=
  match sd_field_information struct_def with
  | FileFormat.Native => Panic
  | Declared fields => collect (λ field, make_type_while_loading self module (fd_signature field)) fields
  end.
Definition set_fields (struct_type : StructType) (fields : list Type_) : StructType :=
  {| st_fields := fields; st_abilities := st_abilities struct_type; st_type_parameters := st_type_parameters struct_type;
     st_name := st_name struct_type; st_module := st_module struct_type; st_struct_def := st_struct_def struct_type |}.
Definition assign_fields {E} (p : N * list Type_) : CacheM E unit := λ self,
  match at_ (mc_structs self) p.1 with
  | Some struct_type => (Ok tt, set_structs self (<[ N.to_nat p.1 := set_fields struct_type p.2 ]> (mc_structs self)))
  | None => (Panic, self)
  end.
Definition load_field_types (module : CompiledModule) (starting_idx : N) : CacheM PartialVMError unit := λ self,
  (field_types ← run_lift (collect (field_types self module) (m_struct_defs module));
   run_each assign_fields ((λ p, (starting_idx + p.1, p.2)) <$> enumerate field_types)) self.

(** [add_module] *)
Definition add_struct_type (module : CompiledModule) (p : N * StructDefinition) : CacheM PartialVMError unit :=
  st ← run_lift (make_struct_type module p.2 (wrap 16 p.1));
  run_modify (λ self, set_structs self (mc_structs self ++ [st])).
Definition add_function (natives : NativeFunctions) (module : CompiledModule) (p : N * FunctionDefinition)
  : CacheM PartialVMError unit :=
  function ← run_lift (Function_new natives (wrap 16 p.1) p.2 module);
  run_modify (λ self, set_functions self (mc_functions self ++ [function])).
Definition truncate_structs (n : N) (self : ModuleCache) : ModuleCache := set_structs self (take (N.to_nat n) (mc_structs self)).
Definition truncate_functions (n : N) (self : ModuleCache) : ModuleCache := set_functions self (take (N.to_nat n) (mc_functions self)).
Definition undefined_location (e : PartialVMError) : VMError := finish e LUndefined.
(** [map_err(|err| { cleanup; err.finish(Undefined) })] *)
Definition run_cleanup {A} (cleanup : ModuleCache → ModuleCache) (m : CacheM PartialVMError A) : CacheM VMError A := λ self,
  match m self with
  | (Err e, self) => (Err (undefined_location e), cleanup self)
  | (r, self) => (map_err undefined_location r, self)
  end.
Definition add_module (natives : NativeFunctions) (module : CompiledModule) : CacheM VMError unit := λ self,
  let starting_idx := len (mc_structs self) in
  (_ ← run_map_err undefined_location (run_each (add_struct_type module) (enumerate (m_struct_defs module)));
   _ ← run_cleanup (truncate_structs starting_idx) (load_field_types module starting_idx);
   run_map_err undefined_location (run_each (add_function natives module) (enumerate (m_function_defs module)))) self.

(** ** [Module::new] *)

Section ModuleNew.
Context (module : CompiledModule) (cache : ModuleCache) (id : ModuleId).
Notation view := (VModule module).

(** The reference of a handle: by name among the last structs or functions when it is of
    the module itself, and from the cache otherwise.  The search pushes nothing when it
    reaches the first entry without finding the name. *)
Fixpoint search_struct (structs : list (N * StructType)) (struct_name : Identifier) (struct_refs : list N)
  : result PartialVMError (list N) :=
  match structs with
  | [] => Ok struct_refs
  | (idx, struct_type) :: structs =>
      if negb (bool_decide (st_module struct_type = id)) then Err (PartialVMError_new TYPE_RESOLUTION_FAILURE)
      else if bool_decide (st_name struct_type = struct_name) then Ok (struct_refs ++ [idx])
      else search_struct structs struct_name struct_refs
  end.
Definition add_struct_ref (struct_refs : list N) (struct_handle : StructHandle) : result PartialVMError (list N) :=
  struct_name ← partial (identifier_at view (sh_name struct_handle));
  module_handle ← partial (module_handle_at view (sh_module struct_handle));
  module_id ← partial (module_id_for_handle view module_handle);
  if bool_decide (module_id = id) then search_struct (rev (enumerate (mc_structs cache))) struct_name struct_refs
  else '(idx, _) ← resolve_struct_by_name cache struct_name module_id; Ok (struct_refs ++ [idx]).
Fixpoint search_function (functions : list (N * Function)) (func_name : Identifier) (function_refs : list N)
  : result PartialVMError (list N) :=
  match functions with
  | [] => Ok function_refs
  | (idx, function) :: functions =>
      if negb (bool_decide (module_id function = Some id)) then Err (PartialVMError_new FUNCTION_RESOLUTION_FAILURE)
      else if bool_decide (f_name function = func_name) then Ok (function_refs ++ [idx])
      else search_function functions func_name function_refs
  end.
Definition add_function_ref (function_refs : list N) (func_handle : FunctionHandle) : result PartialVMError (list N) :=
  func_name ← partial (identifier_at view (fh_name func_handle));
  module_handle ← partial (module_handle_at view (fh_module func_handle));
  module_id ← partial (module_id_for_handle view module_handle);
  if bool_decide (module_id = id) then search_function (rev (enumerate (mc_functions cache))) func_name function_refs
  else idx ← resolve_function_by_name cache func_name module_id; Ok (function_refs ++ [idx]).

(** The structs with their numbers of fields, and the map from names *)
Definition add_struct_def (struct_refs : list N) (acc : list StructDef * gmap Identifier N) (struct_def : StructDefinition)
  : result PartialVMError (list StructDef * gmap Identifier N) :=
  let '(structs, struct_map) := acc in
  idx ← unwrap (at_ struct_refs (sd_struct_handle struct_def));
  struct_type ← struct_at cache idx;
  struct_handle ← partial (struct_handle_at view (sd_struct_handle struct_def));
  name ← partial (identifier_at view (sh_name struct_handle));
  Ok (structs ++ [{| rsd_field_count := wrap 16 (len (st_fields struct_type)); rsd_idx := idx |}], <[ name := idx ]> struct_map).

Definition instantiation_of (type_parameters : SignatureIndex) : result PartialVMError (list Type_) :=
  signature ← partial (signature_at view type_parameters);
  collect (make_type_while_loading cache module) signature.
Definition struct_instantiation_of (structs : list StructDef) (struct_inst : StructDefInstantiation)
  : result PartialVMError RStructInstantiation :=
  struct_def ← unwrap (at_ structs (sdi_def struct_inst));
  instantiation ← instantiation_of (sdi_type_parameters struct_inst);
  Ok {| rsi_field_count := rsd_field_count struct_def; rsi_def := rsd_idx struct_def; rsi_instantiation := instantiation |}.
Definition function_instantiation_of (function_refs : list N) (func_inst : FunctionInstantiation)
  : result PartialVMError RFunctionInstantiation :=
  handle ← unwrap (at_ function_refs (fi_handle func_inst));
  instantiation ← instantiation_of (fi_type_parameters func_inst);
  Ok {| rfi_handle := handle; rfi_instantiation := instantiation |}.

(** The signature of a vector instruction, and its type *)
Definition vector_signature (bc : Bytecode) : option SignatureIndex :=
  match bc with
  | Bytecode.VecPack si _ | Bytecode.VecLen si | Bytecode.VecImmBorrow si | Bytecode.VecMutBorrow si
  | Bytecode.VecPushBack si | Bytecode.VecPopBack si | Bytecode.VecUnpack si _ | Bytecode.VecSwap si => Some si
  | _ => None
  end.
Definition add_single_type (signature_at : SignatureIndex → result PartialVMError Signature)
    (make_type : SignatureToken → result PartialVMError Type_)
    (map : gmap SignatureIndex Type_) (bc : Bytecode) : result PartialVMError (gmap SignatureIndex Type_) :=
  match vector_signature bc with
  | None => Ok map
  | Some si =>
      if bool_decide (is_Some (map !! si)) then Ok map else
      signature ← signature_at si;
      match signature with
      | [] => Err (PartialVMError_new VERIFIER_INVARIANT_VIOLATION)
      | sig_token :: _ => ty ← make_type sig_token; Ok (<[ si := ty ]> map)
      end
  end.
Definition add_function_def (function_refs : list N) (acc : gmap Identifier N * gmap SignatureIndex Type_)
    (func_def : FunctionDefinition) : result PartialVMError (gmap Identifier N * gmap SignatureIndex Type_) :=
  let '(function_map, types) := acc in
  idx ← unwrap (at_ function_refs (fdef_function func_def));
  handle ← partial (function_handle_at view (fdef_function func_def));
  name ← partial (identifier_at view (fh_name handle));
  types ← match fdef_code func_def with
          | Some code_unit =>
              try_fold (add_single_type (λ si, partial (signature_at view si)) (make_type_while_loading cache module))
                (cu_code code_unit) types
          | None => Ok types
          end;
  Ok (<[ name := idx ]> function_map, types).

Definition field_handle_of (structs : list StructDef) (f_handle : FieldHandle) : result PartialVMError RFieldHandle :=
  owner ← unwrap (at_ structs (fld_owner f_handle));
  Ok {| rfh_offset := fld_field f_handle; rfh_owner := rsd_idx owner |}.
Definition field_instantiation_of (field_handles : list RFieldHandle) (f_inst : FieldInstantiation)
  : result PartialVMError RFieldInstantiation :=
  handle ← unwrap (at_ field_handles (fldi_handle f_inst));
  Ok {| rfdi_offset := rfh_offset handle; rfdi_owner := rfh_owner handle |}.
End ModuleNew.

Definition Module_new (module : CompiledModule) (cache : ModuleCache) : result PartialVMError Module_ :=
  id ← module_self_id module;
  struct_refs ← try_fold (add_struct_ref module cache id) (m_struct_handles module) [];
  '(structs, struct_map) ← try_fold (add_struct_def module cache struct_refs) (m_struct_defs module) ([], ∅);
  struct_instantiations ← collect (struct_instantiation_of module cache structs) (m_struct_def_instantiations module);
  function_refs ← try_fold (add_function_ref module cache id) (m_function_handles module) [];
  '(function_map, types) ← try_fold (add_function_def module cache function_refs) (m_function_defs module) (∅, ∅);
  function_instantiations ← collect (function_instantiation_of module cache function_refs) (m_function_instantiations module);
  field_handles ← collect (field_handle_of structs) (m_field_handles module);
  field_instantiations ← collect (field_instantiation_of field_handles) (m_field_instantiations module);
  Ok {| lm_id := id; lm_module := module; lm_struct_refs := struct_refs; lm_structs := structs;
        lm_struct_instantiations := struct_instantiations; lm_function_refs := function_refs;
        lm_function_instantiations := function_instantiations; lm_field_handles := field_handles;
        lm_field_instantiations := field_instantiations; lm_function_map := function_map; lm_struct_map := struct_map;
        lm_single_signature_token_map := types |}.

(** [ModuleCache::insert] *)
Definition publish (id : ModuleId) (module : Module_) (self : ModuleCache) : ModuleCache :=
  {| mc_modules := cache_insert (mc_modules self) id module; mc_structs := mc_structs self; mc_functions := mc_functions self |}.
Definition remove_definitions (module : CompiledModule) (self : ModuleCache) : ModuleCache :=
  truncate_functions (len (mc_functions self) - len (m_function_defs module))
    (truncate_structs (len (mc_structs self) - len (m_struct_defs module)) self).
Definition link_module (id : ModuleId) (module : CompiledModule) : CacheM VMError Module_ := λ self,
  match Module_new module self with
  | Ok module => (Ok module, publish id module self)
  | Err err => (Err (undefined_location err), remove_definitions module self)
  | Panic => (Panic, self)
  | OutOfFuel => (OutOfFuel, self)
  end.
Definition insert (natives : NativeFunctions) (id : ModuleId) (module : CompiledModule) : CacheM VMError Module_ :=
  cached ← run_get (λ self, module_at self id);
  match cached with
  | Some cached => mret cached
  | None => _ ← add_module natives module; link_module id module
  end.

(** ** [Script::new] *)

Section ScriptNew.
Context (script : CompiledScript) (script_hash : ScriptHash) (cache : ModuleCache).
Notation view := (VScript script).

Definition script_module_id (module_handle : ModuleHandleIndex) : result VMError ModuleId :=
  in_script (module_handle ← partial (module_handle_at view module_handle); partial (module_id_for_handle view module_handle)).
Definition script_struct_ref (struct_handle : StructHandle) : result VMError N :=
  struct_name ← in_script (partial (identifier_at view (sh_name struct_handle)));
  module_id ← script_module_id (sh_module struct_handle);
  in_script ('(idx, _) ← resolve_struct_by_name cache struct_name module_id; Ok idx).
Definition script_function_ref (func_handle : FunctionHandle) : result VMError N :=
  func_name ← in_script (partial (identifier_at view (fh_name func_handle)));
  module_id ← script_module_id (fh_module func_handle);
  map_err undefined_location (resolve_function_by_name cache func_name module_id).
Definition script_function_instantiation (function_refs : list N) (func_inst : FunctionInstantiation)
  : result VMError RFunctionInstantiation :=
  handle ← unwrap (at_ function_refs (fi_handle func_inst));
  signature ← in_script (partial (signature_at view (fi_type_parameters func_inst)));
  instantiation ← in_script (collect (make_type cache view) signature);
  Ok {| rfi_handle := handle; rfi_instantiation := instantiation |}.

Definition Script_new : result VMError Script :=
  struct_refs ← collect script_struct_ref (s_struct_handles script);
  function_refs ← collect script_function_ref (s_function_handles script);
  function_instantiations ← collect (script_function_instantiation function_refs) (s_function_instantiations script);
  parameters ← in_script (partial (signature_at view (s_parameters script)));
  parameter_tys ← map_err undefined_location (collect (make_type cache view) parameters);
  code_locals ← in_script (partial (signature_at view (cu_locals (s_code script))));
  types ← in_script (try_fold (add_single_type (λ si, partial (signature_at view si)) (make_type cache view))
                       (cu_code (s_code script)) ∅);
  Ok {| ls_script := script; ls_struct_refs := struct_refs; ls_function_refs := function_refs;
        ls_function_instantiations := function_instantiations;
        ls_main := {| f_file_format_version := s_version script; f_index := 0; f_code := cu_code (s_code script);
                      f_parameters := parameters; f_return := []; f_locals := parameters ++ code_locals;
                      f_type_parameters := s_type_parameters script; f_native := None;
                      f_scope := ScopeScript script_hash; f_name := [109; 97; 105; 110] |};
        ls_parameter_tys := parameter_tys; ls_single_signature_token_map := types |}.
End ScriptNew.

(** [ScriptCache] *)
Definition script_cache_get (self : BinaryCache ScriptHash Script) (hash : ScriptHash) : option (Function * list Type_) :=
  script ← cache_get self hash; Some (ls_main script, ls_parameter_tys script).
Definition script_cache_insert (self : BinaryCache ScriptHash Script) (hash : ScriptHash) (script : Script)
  : (Function * list Type_) * BinaryCache ScriptHash Script :=
  match script_cache_get self hash with
  | Some cached => (cached, self)
  | None => ((ls_main script, ls_parameter_tys script), cache_insert self hash script)
  end.

(** ** [Loader] and [Resolver] *)

Record Loader : Type := { l_scripts : BinaryCache ScriptHash Script; l_module_cache : ModuleCache; l_natives : NativeFunctions }.

(** [Loader::abilities], [Loader::verify_ty_args] *)
Fixpoint loader_abilities (self : Loader) (ty : Type_) : result PartialVMError AbilitySet :=
  match ty with
  | Bool | U8 | U64 | U128 | Address => Ok PRIMITIVES
  | Reference _ | MutableReference _ => Ok REFERENCES
  | Signer => Ok SIGNER
  | TyParam _ => Err (PartialVMError_new UNREACHABLE)
  | Vector ty => a ← loader_abilities self ty; partial (polymorphic_abilities VECTOR [false] [a])
  | Struct idx => st ← struct_at (l_module_cache self) idx; Ok (st_abilities st)
  | StructInstantiation idx type_args =>
      struct_type ← struct_at (l_module_cache self) idx;
      type_argument_abilities ← collect (loader_abilities self) type_args;
      partial (polymorphic_abilities (st_abilities struct_type) (stp_is_phantom <$> st_type_parameters struct_type) type_argument_abilities)
  end.
Definition verify_ty_args (self : Loader) (constraints : list AbilitySet) (ty_args : list Type_) : result PartialVMError unit :=
  if negb (len constraints =? len ty_args) then Err (PartialVMError_new NUMBER_OF_TYPE_ARGUMENTS_MISMATCH) else
  for_each (λ p : Type_ * AbilitySet,
    abilities ← loader_abilities self p.1;
    if negb (is_subset p.2 abilities) then Err (PartialVMError_new CONSTRAINT_NOT_SATISFIED) else Ok tt)
    (zip ty_args constraints).

(** [enum BinaryType] and [struct Resolver] *)
Inductive BinaryType : Type := BinaryModule (module : Module_) | BinaryScript (script : Script).
Record Resolver : Type := { r_loader : Loader; r_binary : BinaryType }.

(** [Function::get_resolver], with [get_module] and [get_script] *)
Definition get_resolver (self : Function) (loader : Loader) : result PartialVMError Resolver :=
  match f_scope self with
  | ScopeModule id => module ← unwrap (module_at (l_module_cache loader) id); Ok {| r_loader := loader; r_binary := BinaryModule module |}
  | ScopeScript hash => script ← unwrap (cache_get (l_scripts loader) hash); Ok {| r_loader := loader; r_binary := BinaryScript script |}
  end.

Section Resolver.
Context (self : Resolver).
Definition resolver_constant_at (idx : ConstantPoolIndex) : result PartialVMError Constant :=
  match r_binary self with
  | BinaryModule module => partial (constant_at (VModule (lm_module module)) idx)
  | BinaryScript script => partial (constant_at (VScript (ls_script script)) idx)
  end.
Definition function_from_handle (idx : FunctionHandleIndex) : result PartialVMError Function :=
  idx ← unwrap (at_ match r_binary self with
                    | BinaryModule module => lm_function_refs module
                    | BinaryScript script => ls_function_refs script
                    end idx);
  function_at (l_module_cache (r_loader self)) idx.
Definition resolver_function_instantiation (idx : FunctionInstantiationIndex) : result PartialVMError RFunctionInstantiation :=
  unwrap (at_ match r_binary self with
              | BinaryModule module => lm_function_instantiations module
              | BinaryScript script => ls_function_instantiations script
              end idx).
Definition function_from_instantiation (idx : FunctionInstantiationIndex) : result PartialVMError Function :=
  func_inst ← resolver_function_instantiation idx;
  function_at (l_module_cache (r_loader self)) (rfi_handle func_inst).
Definition instantiate_generic_function (idx : FunctionInstantiationIndex) (type_params : list Type_)
  : result PartialVMError (list Type_) :=
  func_inst ← resolver_function_instantiation idx;
  collect (λ ty, subst ty type_params) (rfi_instantiation func_inst).
Definition type_params_count (idx : FunctionInstantiationIndex) : result PartialVMError N :=
  func_inst ← resolver_function_instantiation idx; Ok (len (rfi_instantiation func_inst)).

(** A script has no instructions on types and fields: [unreachable!]. *)
Definition resolver_module : result PartialVMError Module_ :=
  match r_binary self with BinaryModule module => Ok module | BinaryScript _ => Panic end.
Definition get_struct_type (idx : StructDefinitionIndex) : result PartialVMError Type_ :=
  module ← resolver_module;
  struct_def ← unwrap (at_ (lm_structs module) idx);
  Ok (Struct (rsd_idx struct_def)).
Definition instantiate_generic_type (idx : StructDefInstantiationIndex) (ty_args : list Type_) : result PartialVMError Type_ :=
  module ← resolver_module;
  struct_inst ← unwrap (at_ (lm_struct_instantiations module) idx);
  instantiation ← collect (λ ty, subst ty ty_args) (rsi_instantiation struct_inst);
  Ok (StructInstantiation (rsi_def struct_inst) instantiation).
Definition field_offset (idx : FieldHandleIndex) : result PartialVMError N :=
  module ← resolver_module; h ← unwrap (at_ (lm_field_handles module) idx); Ok (rfh_offset h).
Definition field_instantiation_offset (idx : FieldInstantiationIndex) : result PartialVMError N :=
  module ← resolver_module; h ← unwrap (at_ (lm_field_instantiations module) idx); Ok (rfdi_offset h).
Definition resolver_field_count (idx : StructDefinitionIndex) : result PartialVMError u16 :=
  module ← resolver_module; d ← unwrap (at_ (lm_structs module) idx); Ok (rsd_field_count d).
Definition field_instantiation_count (idx : StructDefInstantiationIndex) : result PartialVMError u16 :=
  module ← resolver_module; d ← unwrap (at_ (lm_struct_instantiations module) idx); Ok (rsi_field_count d).
Definition single_type_at (idx : SignatureIndex) : result PartialVMError Type_ :=
  unwrap (match r_binary self with
          | BinaryModule module => lm_single_signature_token_map module
          | BinaryScript script => ls_single_signature_token_map script
          end !! idx).
End Resolver.
End LoadedCode.
Arguments NativeFunctions : clear implicits.
Arguments Function : clear implicits.
Arguments Module_ : clear implicits.
Arguments Script : clear implicits.
Arguments ModuleCache : clear implicits.
Arguments Loader : clear implicits.
Arguments Resolver : clear implicits.

(** ** Accessors of a module never return an error *)

Definition no_err {E A} (r : result E A) : Prop := match r with Err _ => False | _ => True end.
Lemma no_err_bind {E A B} (m : result E A) (k : A → result E B) :
  no_err m → (∀ a, no_err (k a)) → no_err (m ≫= k).
Proof. destruct m; cbn; auto. Qed.
Lemma no_err_partial {A} (r : result StatusCode A) : no_err r → no_err (partial r).
Proof. by destruct r. Qed.
Lemma no_err_unwrap {E A} (o : option A) : no_err (E := E) (unwrap o).
Proof. by destruct o. Qed.
Lemma no_err_post {E A} c (a : A) : no_err (E := E) (assumed_postcondition c a).
Proof. by destruct c. Qed.
Ltac no_err :=
  repeat first [done | apply no_err_unwrap | apply no_err_post | apply no_err_partial
               | apply no_err_bind; [|intros ?] | case_match].

Section NoErr.
Context (m : CompiledModule).
Lemma no_err_module_self_id : no_err (module_self_id m).
Proof. unfold module_self_id, self_id, module_handle_at, module_id_for_handle, address_identifier_at, identifier_at. no_err. Qed.
Lemma no_err_make_struct_type def idx : no_err (make_struct_type m def idx).
Proof. unfold make_struct_type, struct_handle_at, identifier_at. repeat (apply no_err_bind; [|intros ?]); first [apply no_err_module_self_id|no_err]. Qed.
Lemma no_err_Function_new {Native} (natives : NativeFunctions Native) idx def : no_err (Function_new natives idx def m).
Proof.
  unfold Function_new, function_handle_at, identifier_at, signature_at.
  repeat (apply no_err_bind; [|intros ?]); first [apply no_err_module_self_id|no_err].
Qed.
End NoErr.

(** ** What inserting a module changes *)

Section Insert.
Context {Native : Type} (natives : NativeFunctions Native).

(** [c'] has the modules of [c] and more structs and functions. *)
Definition extends_by (structs functions : nat) (c c' : ModuleCache Native) : Prop :=
  mc_modules c' = mc_modules c ∧
  (∃ sts, mc_structs c' = mc_structs c ++ sts ∧ length sts = structs) ∧
  ∃ fns, mc_functions c' = mc_functions c ++ fns ∧ length fns = functions.

Lemma extends_refl c : extends_by 0 0 c c.
Proof. split_and!; [done|by exists []; rewrite app_nil_r..]. Qed.
Lemma cache_eq (c c' : ModuleCache Native) :
  mc_modules c' = mc_modules c → mc_structs c' = mc_structs c → mc_functions c' = mc_functions c → c' = c.
Proof. by destruct c, c'; cbn; intros -> -> ->. Qed.

Lemma add_struct_types_extends m c :
  run_spec (run_each (add_struct_type (Native := Native) m) (enumerate (m_struct_defs m))) c
    (λ _ c', extends_by (length (m_struct_defs m)) 0 c c') (λ _ _, False).
Proof.
  assert (length (m_struct_defs m) = length (enumerate (m_struct_defs m))) as -> by (unfold enumerate; by rewrite length_imap).
  apply (run_spec_each _ (λ n c', extends_by n 0 c c')); [apply extends_refl|].
  intros i p c' _ (Hm & (sts & Hs & Hl) & Hf). apply run_spec_bind, run_spec_lift.
  - intros st _. cbn. split_and!; [done| |done]. exists (sts ++ [st]). cbn. rewrite Hs, <- app_assoc, length_app, Hl. split; [done|cbn; lia].
  - intros e He. pose proof (no_err_make_struct_type m p.2 (wrap 16 p.1)) as H. by rewrite He in H.
Qed.
Lemma add_functions_extends m c n c0 :
  extends_by n 0 c0 c →
  run_spec (run_each (add_function natives m) (enumerate (m_function_defs m))) c
    (λ _ c', extends_by n (length (m_function_defs m)) c0 c') (λ _ _, False).
Proof.
  intros (Hm & Hs & fns & Hf & Hl). apply length_zero_iff_nil in Hl as ->. rewrite app_nil_r in Hf.
  assert (length (m_function_defs m) = length (enumerate (m_function_defs m))) as -> by (unfold enumerate; by rewrite length_imap).
  apply (run_spec_each _ (λ k c', extends_by n k c0 c')).
  { split_and!; [done..|]. exists []. by rewrite Hf, app_nil_r. }
  clear Hm Hs Hf. intros i p c' _ (Hm' & Hs' & fns & Hf & Hl). apply run_spec_bind, run_spec_lift.
  - intros f _. cbn. split_and!; [done..|]. exists (fns ++ [f]). cbn. rewrite Hf, <- app_assoc, length_app, Hl. split; [done|cbn; lia].
  - intros e He. pose proof (no_err_Function_new m natives (wrap 16 p.1) p.2) as H. by rewrite He in H.
Qed.
(** The assignment of the field types only touches the structs that were added. *)
Lemma assign_fields_extends n c0 l :
  Forall (λ p : N * list RuntimeType.Type_, len (mc_structs c0) <= p.1) l → ∀ c,
  extends_by n 0 c0 c →
  run_spec (run_each (assign_fields (E := PartialVMError)) l) c (λ _ c', extends_by n 0 c0 c') (λ _ _, False).
Proof.
  intros Hl c Hc. apply (run_spec_each _ (λ _ c', extends_by n 0 c0 c')); [done|]. clear c Hc.
  intros i p c Hp (Hm & (sts & Hs & Hn) & Hf). rewrite Forall_lookup in Hl. specialize (Hl _ _ Hp).
  unfold run_spec, assign_fields. destruct (at_ _ _) as [st|]; [|done]. split_and!; [done| |done]. cbn.
  exists (<[ (N.to_nat p.1 - length (mc_structs c0))%nat := set_fields st p.2 ]> sts). rewrite length_insert.
  split; [|done]. rewrite Hs, insert_app_r_alt; [done|]. unfold len in Hl. lia.
Qed.

Lemma add_module_extends m c :
  run_spec (add_module natives m) c
    (λ _ c', extends_by (length (m_struct_defs m)) (length (m_function_defs m)) c c') (λ _ c', c' = c).
Proof.
  unfold add_module. apply run_spec_bind, run_spec_map_err. eapply run_spec_weaken; [apply add_struct_types_extends| |done].
  intros [] c1 Hc1. apply run_spec_bind.
  assert (Hload : run_spec (run_cleanup (truncate_structs (len (mc_structs c))) (load_field_types m (len (mc_structs c)))) c1
    (λ _ c', extends_by (length (m_struct_defs m)) 0 c c') (λ _ c', c' = c)).
  { unfold run_spec, run_cleanup, load_field_types, mbind, Run_bind, run_lift.
    destruct (collect _ _) as [types|e| |]; [|cbn|done..].
    - match goal with |- context [run_each _ ?l c1] =>
        pose proof (assign_fields_extends (length (m_struct_defs m)) c l) as H end.
      unfold run_spec in H. specialize (H ltac:(apply Forall_fmap, Forall_true; intros []; cbn; lia) c1 Hc1).
      by destruct (run_each _ _ c1) as [[] ?].
    - destruct Hc1 as (Hm & (sts & Hs & _) & fns & Hf & Hl). apply length_zero_iff_nil in Hl as ->. rewrite app_nil_r in Hf.
      apply cache_eq; cbn; [done| |done]. rewrite Hs. unfold len. by rewrite Nat2N.id, take_app_length. }
  eapply run_spec_weaken; [exact Hload| |done]. intros [] c2 Hc2.
  apply run_spec_map_err. eapply run_spec_weaken; [by apply add_functions_extends|done|done].
Qed.

Lemma insert_cases (id : ModuleId) (m : CompiledModule) (c : ModuleCache Native) :
  match insert natives id m c with
  | (Ok loaded, c') => module_at c' id = Some loaded ∧
      (module_at c id = Some loaded ∧ c' = c ∨
       module_at c id = None ∧ (∀ id' l, module_at c id' = Some l → module_at c' id' = Some l) ∧
       ∃ c1, extends_by (length (m_struct_defs m)) (length (m_function_defs m)) c c1 ∧
         Module_new m c1 = Ok loaded ∧ c' = publish id loaded c1)
  | (Err _, c') => c' = c
  | _ => True
  end.
Proof.
  unfold insert, run_get, mbind, Run_bind. destruct (module_at c id) as [cached|] eqn:Hid; [by split; [|left]|].
  pose proof (add_module_extends m c) as Hadd. unfold run_spec in Hadd.
  destruct (add_module natives m c) as [[[]|e| |] c1]; [|done..]. unfold link_module.
  destruct (Module_new m c1) as [loaded|e| |] eqn:Hnew; [| |done..].
  - split; [|right; split_and!; [done| |by exists c1]].
    + unfold module_at, publish, cache_insert, cache_get; cbn. rewrite lookup_insert_eq. cbn. unfold at_, len. rewrite Nat2N.id.
      by rewrite list_lookup_middle.
    + intros id' l Hl. destruct Hadd as (Hm & _). unfold module_at, publish, cache_insert, cache_get in *; cbn in *. rewrite Hm.
      destruct (decide (id' = id)) as [->|Hne]; [by rewrite Hid in Hl|]. rewrite lookup_insert_ne by done.
      destruct (id_map _ !! id') as [i|]; [|done]. cbn in *. by apply lookup_app_l_Some.
  - destruct Hadd as (Hm & (sts & Hs & Hls) & fns & Hf & Hlf). apply cache_eq; cbn; [done|..].
    + rewrite Hs. unfold len. rewrite length_app, Hls. replace (N.to_nat _) with (length (mc_structs c)) by lia. by rewrite take_app_length.
    + rewrite Hf. unfold len. rewrite length_app, Hlf. replace (N.to_nat _) with (length (mc_functions c)) by lia. by rewrite take_app_length.
Qed.

(** A module that cannot be inserted leaves the cache as it was; one that can is
    entered under its name, after its structs and functions, and nothing else changes. *)
Theorem insert_atomic (id : ModuleId) (m : CompiledModule) (c : ModuleCache Native) :
  match insert natives id m c with
  | (Ok loaded, c') => module_at c' id = Some loaded ∧
      (module_at c id = Some loaded ∧ c' = c ∨
       module_at c id = None ∧ (∀ id' l, module_at c id' = Some l → module_at c' id' = Some l) ∧
       ∃ c1, extends_by (length (m_struct_defs m)) (length (m_function_defs m)) c c1 ∧
         Module_new m c1 = Ok loaded ∧ c' = publish id loaded c1)
  | (Err _, c') => c' = c
  | _ => True
  end.
Proof. apply insert_cases. Qed.
End Insert.
