(* ===== verification/Machine.v ===== *)
(** * Machine: the state of the interpreter

    Models the stacks and frames of [language/move-vm/runtime/src/interpreter.rs], the
    trait [DataStore] of [move-vm/types/src/data_store.rs], and the results of native
    functions of [move-vm/types/src/natives/function.rs].  A computation keeps its state
    when it fails, so that the gas that a failed execution used is known.  Last, the
    section [Gas] of [move-vm/types/src/values/values_impl.rs]: the sizes by which
    instructions on values are charged. *)

From S2P Require Import Prelude CoreTypes VmStatus Abilities FileFormat Errors BinaryCommon Views StackUsage Integers RuntimeTypes Heap Values GlobalValues HeapCounts ValueTrees Gas LoadedCode.

(** ** Native functions and the data store *)

(** [struct NativeResult] *)
Record NativeResult : Set := { nr_cost : InternalGasUnits; nr_result : list ValueImpl + u64 }.
Definition NativeResult_ok (cost : InternalGasUnits) (values : list ValueImpl) : NativeResult :=
  {| nr_cost := cost; nr_result := inl values |}.
Definition NativeResult_err (cost : InternalGasUnits) (abort_code : u64) : NativeResult :=
  {| nr_cost := cost; nr_result := inr abort_code |}.
Definition native_failure (cost : InternalGasUnits) (err : PartialVMError) : result PartialVMError NativeResult :=
  if decide (pe_major_status err = ABORTED)
  then Ok (NativeResult_err cost (default (status_to_u64 UNKNOWN_INVARIANT_VIOLATION_ERROR) (pe_sub_status err)))
  else Err err.
Definition map_partial_vm_result_empty (cost : InternalGasUnits) (res : result PartialVMError unit) : result PartialVMError NativeResult :=
  match res with
  | Ok _ => Ok (NativeResult_ok cost [])
  | Err err => native_failure cost err
  | Panic => Panic
  | OutOfFuel => OutOfFuel
  end.
Definition map_partial_vm_result_one (cost : InternalGasUnits) (res : result PartialVMError ValueImpl) : result PartialVMError NativeResult :=
  match res with
  | Ok val => Ok (NativeResult_ok cost [val])
  | Err err => native_failure cost err
  | Panic => Panic
  | OutOfFuel => OutOfFuel
  end.

(** The part of the trait [DataStore] that instructions use.  [load_resource] returns a
    mutable reference to a slot: what is written to it goes back with [store_resource]. *)
Class DataStore (DS : Type) : Type := {
  load_resource : AccountAddress → RuntimeType.Type_ → Run (Heap * DS) PartialVMError GlobalValueImpl;
  store_resource : AccountAddress → RuntimeType.Type_ → GlobalValueImpl → DS → DS }.

(** What a native function may use of its [NativeContext]: the table of costs, the
    resolver, and the data store *)
Class NativeCalls (DS Native : Type) : Type :=
  native_function : Native → CostTable → @Resolver Native → list RuntimeType.Type_ → list ValueImpl →
    Run (Heap * DS) PartialVMError NativeResult.

Definition OPERAND_STACK_SIZE_LIMIT : N := 1024.
Definition CALL_STACK_SIZE_LIMIT : N := 1024.

(** ** [Stack]: the last element is on top. *)

Notation StackM := (Run (list ValueImpl) PartialVMError).
Definition stack_push (value : ValueImpl) : StackM unit := λ self,
  if len self <? OPERAND_STACK_SIZE_LIMIT then (Ok tt, self ++ [value])
  else (Err (PartialVMError_new EXECUTION_STACK_OVERFLOW), self).
Definition stack_pop : StackM ValueImpl := λ self,
  match last self with
  | Some value => (Ok value, removelast self)
  | None => (Err (PartialVMError_new EMPTY_VALUE_STACK), self)
  end.
Definition stack_popn (n : u16) : StackM (list ValueImpl) := λ self,
  if n <=? len self
  then let remaining_stack_size := N.to_nat (len self - n) in
       (Ok (drop remaining_stack_size self), take remaining_stack_size self)
  else (Err (PartialVMError_new EMPTY_VALUE_STACK), self).

(** ** [Frame], [CallStack] and [Interpreter] *)

(** [enum ExitCode] *)
Inductive ExitCode : Set :=
| Return
| ECall (fh_idx : FunctionHandleIndex)
| ECallGeneric (idx : FunctionInstantiationIndex).

Section Machine.
Context {DS Native : Type}.

(** [struct Frame]; the locals are the cell that holds them. *)
Record Frame : Type := {
  fr_pc : u16;
  fr_locals : loc;
  fr_function : @Function Native;
  fr_ty_args : list RuntimeType.Type_ }.
Definition Frame_new (function : @Function Native) (ty_args : list RuntimeType.Type_) (locals : loc) : Frame :=
  {| fr_pc := 0; fr_locals := locals; fr_function := function; fr_ty_args := ty_args |}.
Definition set_pc (self : Frame) (pc : u16) : Frame :=
  {| fr_pc := pc; fr_locals := fr_locals self; fr_function := fr_function self; fr_ty_args := fr_ty_args self |}.
Definition frame_location (self : Frame) : Location :=
  match module_id (fr_function self) with None => LScript | Some id => LModule id end.

(** [CallStack]: the last frame is on top. *)
Definition call_stack_push (frame : Frame) (self : list Frame) : option (list Frame) :=
  if len self <? CALL_STACK_SIZE_LIMIT then Some (self ++ [frame]) else None.
Definition current_location (self : list Frame) : Location :=
  default LUndefined (frame_location <$> last self).

(** [struct Interpreter] *)
Record Interpreter : Type := { in_operand_stack : list ValueImpl; in_call_stack : list Frame }.
Definition Interpreter_new : Interpreter := {| in_operand_stack := []; in_call_stack := [] |}.

(** What the host passes: the values in memory, the data store and the meter *)
Record Context : Type := { c_heap : Heap; c_store : DS; c_gas : GasStatus }.

(** The interpreter, its variable [current_frame], and what it borrows of the host *)
Record Machine : Type := { m_interpreter : Interpreter; m_frame : Frame; m_context : Context }.

Definition set_frame (frame : Frame) (self : Machine) : Machine :=
  {| m_interpreter := m_interpreter self; m_frame := frame; m_context := m_context self |}.
Definition set_operand_stack (stack : list ValueImpl) (self : Machine) : Machine :=
  {| m_interpreter := {| in_operand_stack := stack; in_call_stack := in_call_stack (m_interpreter self) |};
     m_frame := m_frame self; m_context := m_context self |}.
Definition set_call_stack (stack : list Frame) (self : Machine) : Machine :=
  {| m_interpreter := {| in_operand_stack := in_operand_stack (m_interpreter self); in_call_stack := stack |};
     m_frame := m_frame self; m_context := m_context self |}.
Definition set_context (ctx : Context) (self : Machine) : Machine :=
  {| m_interpreter := m_interpreter self; m_frame := m_frame self; m_context := ctx |}.

(** ** The monad of the interpreter *)

Notation VM := (Run Machine).

(** Operations on a part of the state.  An operation on the heap that fails leaves it as
    it was: nothing of a failed execution reads it. *)
Definition context_heap {A} (m : HeapM A) : Run Context PartialVMError A := λ s,
  match m (c_heap s) with
  | Ok (a, h) => (Ok a, {| c_heap := h; c_store := c_store s; c_gas := c_gas s |})
  | Err e => (Err e, s)
  | Panic => (Panic, s)
  | OutOfFuel => (OutOfFuel, s)
  end.
Definition context_gas {E A} (m : Run GasStatus E A) : Run Context E A := λ s,
  let '(r, g) := m (c_gas s) in (r, {| c_heap := c_heap s; c_store := c_store s; c_gas := g |}).
Definition context_store {E A} (m : Run (Heap * DS) E A) : Run Context E A := λ s,
  let '(r, (h, d)) := m (c_heap s, c_store s) in (r, {| c_heap := h; c_store := d; c_gas := c_gas s |}).
Definition on_context {E A} (m : Run Context E A) : VM E A := λ s,
  let '(r, ctx) := m (m_context s) in (r, set_context ctx s).
Definition on_stack {A} (m : StackM A) : VM PartialVMError A := λ s,
  let '(r, stack) := m (in_operand_stack (m_interpreter s)) in (r, set_operand_stack stack s).
Definition on_heap {A} (m : HeapM A) : VM PartialVMError A := on_context (context_heap m).
Definition on_gas {E A} (m : Run GasStatus E A) : VM E A := on_context (context_gas m).
Definition on_store {E A} (m : Run (Heap * DS) E A) : VM E A := on_context (context_store m).

(** [r.map_err(f)] where [f] uses the state *)
Definition map_err_in {E F A} (f : Machine → E → F) (m : VM E A) : VM F A := λ s,
  let '(r, s) := m s in (map_err (f s) r, s).

(** [Stack::push], [pop], [pop_as] and [popn] *)
Definition push (value : ValueImpl) : VM PartialVMError unit := on_stack (stack_push value).
Definition pop : VM PartialVMError ValueImpl := on_stack stack_pop.
Definition pop_as {T} (cast : ValueImpl → HeapM T) : VM PartialVMError T := value ← pop; on_heap (cast value).
Definition popn (n : u16) : VM PartialVMError (list ValueImpl) := on_stack (stack_popn n).
Definition as_prim {T} (p : Prim T) (v : ValueImpl) : HeapM T := lift (value_as p v).
Definition pop_bool : VM PartialVMError bool := pop_as (as_prim prim_bool).
Definition pop_u8 : VM PartialVMError u8 := pop_as (as_prim prim_u8).
Definition pop_u64 : VM PartialVMError u64 := pop_as (as_prim prim_u64).
Definition pop_address : VM PartialVMError AccountAddress := pop_as (as_prim prim_address).
End Machine.
Arguments Frame Native : clear implicits.
Arguments Interpreter Native : clear implicits.
Arguments Context DS : clear implicits.
Arguments Machine DS Native : clear implicits.

Section Sizes.
Context (overflow_checks : bool).

(** The sizes of the elements of specialized vectors: [r.borrow().len() * size_of::<T>()] *)
Definition elements_size {T} (k : Kind (list T)) (element_size : N) (r : loc) : HeapM AbstractMemorySize :=
  xs ← borrow k r;
  lift (gas_mul overflow_checks (len xs) element_size).

(** [Struct::size_impl], given [ValueImpl::size] *)
Definition size_impl (size : ValueImpl → HeapM AbstractMemorySize) : AbstractMemorySize → list ValueImpl → HeapM AbstractMemorySize :=
  fix go acc fields {struct fields} := match fields with
  | [] => mret acc
  | v :: fields => s ← size v; acc ← lift (gas_add overflow_checks acc s); go acc fields
  end.

(** [Container::size] *)
Definition container_size (size : ValueImpl → HeapM AbstractMemorySize) (self : Container) : HeapM AbstractMemorySize :=
  match self with
  | Locals r | Vec r | Struct r => vs ← borrow values r; size_impl size STRUCT_SIZE vs
  | VecU8 r => elements_size u8s 1 r
  | VecU64 r => elements_size u64s 8 r
  | VecU128 r => elements_size u128s 16 r
  | VecBool r => elements_size bools 1 r
  | VecAddress r => elements_size addresses ADDRESS_LENGTH r
  end.

(** [ContainerRef::size] and [IndexedRef::size] *)
Definition container_ref_size (self : ContainerRef) : AbstractMemorySize := REFERENCE_SIZE.
Definition indexed_ref_size (self : IndexedRef) : AbstractMemorySize := REFERENCE_SIZE.

(** [ValueImpl::size]; the fuel bounds the nesting of the containers. *)
Fixpoint value_size_impl (fuel : nat) (self : ValueImpl) : HeapM AbstractMemorySize :=
  match fuel with
  | O => λ _, OutOfFuel
  | S fuel =>
      match self with
      | Invalid | VU8 _ | VU64 _ | VU128 _ | VBool _ => mret CONST_SIZE
      | VAddress _ => mret ADDRESS_LENGTH
      | VContainerRef r => mret (container_ref_size r)
      | VIndexedRef r => mret (indexed_ref_size r)
      | VContainer c => container_size (value_size_impl fuel) c
      end
  end.
Definition value_size (self : ValueImpl) : HeapM AbstractMemorySize := λ h, value_size_impl (heap_fuel h) self h.
(** [fields.iter().fold(acc, |acc, v| acc.add(v.size()))], and [Struct::size] *)
Definition add_sizes (acc : AbstractMemorySize) (fields : list ValueImpl) : HeapM AbstractMemorySize := λ h,
  size_impl (value_size_impl (heap_fuel h)) acc fields h.
Definition fields_size (fields : list ValueImpl) : HeapM AbstractMemorySize := add_sizes STRUCT_SIZE fields.

(** [ReferenceImpl::size], [GlobalValue::size] *)
Definition reference_size (self : ReferenceImpl) : AbstractMemorySize :=
  match self with
  | RContainerRef r => container_ref_size r
  | RIndexedRef r => indexed_ref_size r
  end.
Definition global_value_size (self : GlobalValueImpl) : AbstractMemorySize :=
  match self with
  | Fresh _ | Cached _ _ => REFERENCE_SIZE
  | Deleted | None_ => MIN_EXISTS_DATA_SIZE
  end.

(** ** The size of the data *)

(** The size of a tree: two units for a container of values besides its elements; a
    specialized vector has only its elements. *)
Fixpoint tree_units (t : tree) : N :=
  match t with
  | TU8 _ | TU64 _ | TU128 _ | TBool _ => 16
  | TAddress _ => 32
  | TVec ts | TStruct ts => foldl (λ acc t, acc + tree_units t) 2 ts
  | TVecU8 xs => len xs
  | TVecU64 xs => len xs * 8
  | TVecU128 xs => len xs * 16
  | TVecBool xs => len xs
  | TVecAddress xs => len xs * 32
  end.

Lemma gas_add_small {E} a b : a + b <= u64_MAX → gas_add (E := E) overflow_checks a b = Ok (a + b).
Proof. intros H. unfold gas_add, add_u64. by rewrite (proj2 (N.leb_le _ _) H). Qed.
Lemma gas_mul_small {E} a b : a * b <= u64_MAX → gas_mul (E := E) overflow_checks a b = Ok (a * b).
Proof. intros H. unfold gas_mul. by rewrite (proj2 (N.leb_le _ _) H). Qed.
Lemma foldl_units_ge ts acc : acc <= foldl (λ acc t, acc + tree_units t) acc ts.
Proof. revert acc; induction ts as [|t ts IH]; intros acc; [done|]. cbn. etrans; [|apply IH]. lia. Qed.

Lemma size_impl_units (size : ValueImpl → HeapM AbstractMemorySize) h vs ts acc :
  Forall2 (λ v t, tree_units t <= u64_MAX → size v h = Ok (tree_units t, h)) vs ts →
  foldl (λ acc t, acc + tree_units t) acc ts <= u64_MAX →
  size_impl size acc vs h = Ok (foldl (λ acc t, acc + tree_units t) acc ts, h).
Proof.
  intros H; revert acc; induction H as [|v t vs ts Hv _ IH]; intros acc Hb; [done|]. cbn in *.
  pose proof (foldl_units_ge ts (acc + tree_units t)) as Hge.
  rewrite (heap_bind _ _ _ _ _ (Hv ltac:(lia))), gas_add_small by lia. by apply IH.
Qed.
Lemma elements_size_spec {T} (k : Kind (list T)) n h r xs x :
  contents h !! r = Some x → get k x = Some xs → len xs * n <= u64_MAX →
  elements_size k n r h = Ok (len xs * n, h).
Proof.
  intros Hr Hk Hb. unfold elements_size, borrow, lookup_cell, mbind, HeapM_bind, lift.
  apply contents_Some in Hr as (c & -> & <-). by rewrite Hk; cbn; rewrite gas_mul_small by done.
Qed.

Lemma value_size_units fuel h v t :
  read_tree fuel (contents h) v = Some t → tree_units t <= u64_MAX →
  value_size_impl fuel v h = Ok (tree_units t, h).
Proof.
  revert v t. induction fuel as [|fuel IH]; intros v t Ht Hb; [done|].
  destruct v as [| | | | | |c| |]; try done; cbn [read_tree] in Ht; simplify_eq/=; try done.
  assert (Hvs : ∀ r vs (mk : list tree → tree), contents h !! r = Some (CValues vs) → mk <$> mapM (read_tree fuel (contents h)) vs = Some t →
    tree_units t <= u64_MAX → (∀ ts, tree_units (mk ts) = foldl (λ acc t, acc + tree_units t) 2 ts) →
    (vs ← borrow values r; size_impl (value_size_impl fuel) STRUCT_SIZE vs) h = Ok (tree_units t, h)).
  { intros r vs mk Hr (ts & Hts & ->)%fmap_Some Hsz Hmk. apply contents_Some in Hr as (cell & Hc & Hr).
    unfold borrow, lookup_cell, mbind at 1 2, HeapM_bind. rewrite Hc. cbn. rewrite Hr. cbn. rewrite Hmk in *.
    change (size_impl (value_size_impl fuel) 2 vs h = Ok (foldl (λ acc t, acc + tree_units t) 2 ts, h)).
    apply size_impl_units; [|done]. apply mapM_Some in Hts. eapply Forall2_impl; [exact Hts|]. intros v t Hv. by apply IH. }
  destruct c; cbn [container_loc] in Ht; destruct (contents h !! r) as [[]|] eqn:Hr; try done.
  1,2: by eapply Hvs.
  all: simplify_eq/=; first [by eapply elements_size_spec | rewrite <- (N.mul_1_r (len _)) in *; by eapply elements_size_spec].
Qed.
End Sizes.

Lemma value_size_denotes overflow_checks h v t :
  denotes h v t → tree_units t <= u64_MAX → value_size overflow_checks v h = Ok (tree_units t, h).
Proof.
  intros [n Hn] Hb. unfold value_size, heap_fuel. rewrite <- size_contents. apply value_size_units; [|done]. by eapply read_bound.
Qed.
