(* ===== verification/Interpreter.v ===== *)
(** * Interpreter: the execution of instructions and calls

    Models [language/move-vm/runtime/src/interpreter.rs]: the two loops of the
    interpreter, every instruction with its charge, calls of Move functions and of native
    functions, and the locations of errors.  A loop has a fuel; [None] is a loop that used
    it up. *)

From S2P Require Import Prelude CoreTypes VmStatus Abilities FileFormat Errors BinaryCommon Views ControlFlowGraph RuntimeTypes Integers Heap Values Vectors GlobalValues ValueCodec Gas Machine LoadedCode.

Import Bytecode Opcodes.

Section Interpreter.
Context {DS Native : Type} `{!DataStore DS, !NativeCalls DS Native} (overflow_checks : bool).
Notation Function := (@Function Native).
Notation Resolver := (@Resolver Native).
Notation Loader := (@Loader Native).
Notation M := (Run (Machine DS Native)).
Notation Step := (M PartialVMError unit).

(** ** Operations on operands and on global storage *)

Definition charge_instr (opcode : Opcodes) : Step := on_gas (Gas.charge_instr overflow_checks opcode).
Definition charge_instr_with_size (opcode : Opcodes) (size : AbstractMemorySize) : Step :=
  on_gas (Gas.charge_instr_with_size overflow_checks opcode size).
Definition size_of (v : ValueImpl) : M PartialVMError AbstractMemorySize := on_heap (value_size overflow_checks v).

(** [binop], [binop_int], [binop_bool] *)
Definition binop {T} (cast : ValueImpl → HeapM T) (f : T → T → result PartialVMError ValueImpl) : Step :=
  rhs ← pop_as cast;
  lhs ← pop_as cast;
  value ← run_lift (f lhs rhs);
  push value.
Definition binop_int (f : IntegerValue.IntegerValue → IntegerValue.IntegerValue → result PartialVMError IntegerValue.IntegerValue) : Step :=
  binop value_as_integer (λ lhs rhs, into_value <$> f lhs rhs).
Definition binop_bool {T} (cast : ValueImpl → HeapM T) (f : T → T → result PartialVMError bool) : Step :=
  binop cast (λ lhs rhs, VBool <$> f lhs rhs).

(** [borrow_global], [exists], [move_from], [move_to] *)
Definition vm_load_resource (addr : AccountAddress) (ty : RuntimeType.Type_) : M PartialVMError GlobalValueImpl :=
  on_store (load_resource addr ty).
Definition vm_store_resource (addr : AccountAddress) (ty : RuntimeType.Type_) (gv : GlobalValueImpl) : Step :=
  on_store (run_modify (λ s, (s.1, store_resource addr ty gv s.2))).
Definition vm_borrow_global (addr : AccountAddress) (ty : RuntimeType.Type_) : M PartialVMError AbstractMemorySize :=
  gv ← vm_load_resource addr ty;
  g ← on_heap (borrow_global gv);
  size ← size_of g;
  _ ← push g;
  mret size.
Definition vm_exists (addr : AccountAddress) (ty : RuntimeType.Type_) : M PartialVMError AbstractMemorySize :=
  gv ← vm_load_resource addr ty;
  _ ← push (VBool (exists_ gv));
  mret (global_value_size gv).
Definition vm_move_from (addr : AccountAddress) (ty : RuntimeType.Type_) : M PartialVMError AbstractMemorySize :=
  gv ← vm_load_resource addr ty;
  '(gv, resource) ← on_heap (move_from gv);
  _ ← vm_store_resource addr ty gv;
  size ← size_of resource;
  _ ← push resource;
  mret size.
Definition vm_move_to (addr : AccountAddress) (ty : RuntimeType.Type_) (resource : ValueImpl) : M PartialVMError AbstractMemorySize :=
  size ← size_of resource;
  gv ← vm_load_resource addr ty;
  gv ← on_heap (move_to gv resource);
  _ ← vm_store_resource addr ty gv;
  mret size.

(** ** Instructions *)

(** What the body of the loop does next: go on, [break] after a branch, or [return] *)
Inductive Flow : Set := Next | Break | Exit (exit_code : ExitCode).

Definition frame_locals : M PartialVMError loc := run_get (λ s, fr_locals (m_frame s)).
Definition frame_ty_args : M PartialVMError (list RuntimeType.Type_) := run_get (λ s, fr_ty_args (m_frame s)).
Definition jump (offset : CodeOffset) : M PartialVMError Flow :=
  _ ← run_modify (λ s, set_frame (set_pc (m_frame s) offset) s);
  mret Break.
(** [self.pc += 1] *)
Definition advance : Step := λ s,
  let pc := fr_pc (m_frame s) + 1 in
  if pc <=? u16_MAX then (Ok tt, set_frame (set_pc (m_frame s) pc) s)
  else if overflow_checks then (Panic, s) else (Ok tt, set_frame (set_pc (m_frame s) (wrap 16 pc)) s).

Section Instructions.
Context (resolver : Resolver).

Definition ld_const (idx : ConstantPoolIndex) : Step :=
  constant ← run_lift (resolver_constant_at resolver idx);
  _ ← charge_instr_with_size LD_CONST (len (const_data constant));
  value ← on_heap (value_deserialize_constant constant);
  value ← run_lift (ok_or (PartialVMError_new VERIFIER_INVARIANT_VIOLATION) value);
  push value.

(** [CopyLoc], [MoveLoc], [StLoc], and the borrows of locals and fields *)
Definition load_local (opcode : Opcodes) (take : loc → N → HeapM ValueImpl) (idx : LocalIndex) : Step :=
  locals ← frame_locals;
  local ← on_heap (take locals idx);
  size ← size_of local;
  _ ← charge_instr_with_size opcode size;
  push local.
Definition st_loc (idx : LocalIndex) : Step :=
  value_to_store ← pop;
  size ← size_of value_to_store;
  _ ← charge_instr_with_size ST_LOC size;
  locals ← frame_locals;
  on_heap (store_loc locals idx value_to_store).
Definition borrow_local (opcode : Opcodes) (idx : LocalIndex) : Step :=
  _ ← charge_instr opcode;
  locals ← frame_locals;
  v ← on_heap (borrow_loc locals idx);
  push v.
Definition borrow_field_at (opcode : Opcodes) (offset : result PartialVMError N) : Step :=
  _ ← charge_instr opcode;
  reference ← pop_as value_as_container_ref;
  offset ← run_lift offset;
  field_ref ← on_heap (borrow_field reference offset);
  _ ← push field_ref;
  on_heap (drop_ref reference).

(** [Pack], [Unpack] and their generic variants *)
Definition pack (opcode : Opcodes) (field_count : result PartialVMError u16) : Step :=
  field_count ← run_lift field_count;
  args ← popn field_count;
  size ← on_heap (add_sizes overflow_checks field_count args);
  _ ← charge_instr_with_size opcode size;
  v ← on_heap (struct_ (struct_pack args));
  push v.
Definition unpack_field (opcode : Opcodes) (value : ValueImpl) : Step :=
  size ← size_of value;
  _ ← charge_instr_with_size opcode size;
  push value.
Definition unpack (opcode : Opcodes) (field_count : result PartialVMError u16) : Step :=
  field_count ← run_lift field_count;
  struct_ ← pop_as value_as_struct;
  _ ← charge_instr_with_size opcode field_count;
  fields ← on_heap (struct_unpack struct_);
  run_each (unpack_field opcode) fields.

Definition vm_read_ref : Step :=
  reference ← pop_as value_as_reference;
  value ← on_heap (read_ref reference);
  size ← size_of value;
  _ ← charge_instr_with_size READ_REF size;
  push value.
Definition vm_write_ref : Step :=
  reference ← pop_as value_as_reference;
  value ← pop;
  size ← size_of value;
  _ ← charge_instr_with_size WRITE_REF size;
  on_heap (write_ref reference value).

(** [CastU8], [CastU64], [CastU128]; [Shl], [Shr] *)
Definition cast (opcode : Opcodes) (f : IntegerValue.IntegerValue → result PartialVMError ValueImpl) : Step :=
  _ ← charge_instr opcode;
  integer_value ← pop_as value_as_integer;
  v ← run_lift (f integer_value);
  push v.
Definition shift (opcode : Opcodes) (f : IntegerValue.IntegerValue → u8 → result PartialVMError IntegerValue.IntegerValue) : Step :=
  _ ← charge_instr opcode;
  rhs ← pop_u8;
  lhs ← pop_as value_as_integer;
  value ← run_lift (f lhs rhs);
  push (into_value value).

(** [Eq] and [Neq]; both operands are dropped. *)
Definition compare (opcode : Opcodes) (f : bool → bool) : Step :=
  lhs ← pop;
  rhs ← pop;
  lhs_size ← size_of lhs;
  rhs_size ← size_of rhs;
  size ← run_lift (gas_add overflow_checks lhs_size rhs_size);
  _ ← charge_instr_with_size opcode size;
  b ← on_heap (equals lhs rhs);
  _ ← push (VBool (f b));
  _ ← on_heap (drop_value rhs);
  on_heap (drop_value lhs).

Definition vm_abort {A} : M PartialVMError A :=
  _ ← charge_instr ABORT;
  error_code ← pop_u64;
  on_heap (aborted error_code).

(** Instructions on the resource of an account *)
Definition struct_type (idx : StructDefinitionIndex) : M PartialVMError RuntimeType.Type_ :=
  run_lift (get_struct_type resolver idx).
Definition generic_type (idx : StructDefInstantiationIndex) : M PartialVMError RuntimeType.Type_ :=
  ty_args ← frame_ty_args;
  run_lift (instantiate_generic_type resolver idx ty_args).
Definition global_instr (opcode : Opcodes) (ty : M PartialVMError RuntimeType.Type_)
    (access : AccountAddress → RuntimeType.Type_ → M PartialVMError AbstractMemorySize) : Step :=
  addr ← pop_address;
  ty ← ty;
  size ← access addr ty;
  charge_instr_with_size opcode size.
Definition move_to_instr (opcode : Opcodes) (ty : M PartialVMError RuntimeType.Type_) : Step :=
  resource ← pop;
  signer_reference ← pop_as value_as_container_ref;
  field ← on_heap (borrow_field signer_reference 0);
  reference ← on_heap (value_as_reference field);
  value ← on_heap (read_ref reference);
  addr ← on_heap (as_prim prim_address value);
  ty ← ty;
  size ← vm_move_to addr ty resource;
  _ ← charge_instr_with_size opcode size;
  on_heap (drop_ref signer_reference).

(** Instructions on vectors; a reference to a vector is dropped at the end. *)
Definition vec_pack (si : SignatureIndex) (num : u64) : Step :=
  elements ← popn (wrap 16 num);
  _ ← charge_instr_with_size VEC_PACK num;
  ty ← run_lift (single_type_at resolver si);
  value ← on_heap (vector_pack ty elements);
  push value.
Definition vec_len (si : SignatureIndex) : Step :=
  vec_ref ← pop_as value_as_container_ref;
  _ ← charge_instr VEC_LEN;
  ty ← run_lift (single_type_at resolver si);
  value ← on_heap (vector_len vec_ref ty);
  _ ← push value;
  on_heap (drop_ref vec_ref).
Definition vec_borrow (opcode : Opcodes) (si : SignatureIndex) : Step :=
  idx ← pop_u64;
  vec_ref ← pop_as value_as_container_ref;
  _ ← charge_instr opcode;
  ty ← run_lift (single_type_at resolver si);
  value ← on_heap (vector_borrow_elem vec_ref idx ty);
  _ ← push value;
  on_heap (drop_ref vec_ref).
Definition vec_push_back (si : SignatureIndex) : Step :=
  elem ← pop;
  vec_ref ← pop_as value_as_container_ref;
  size ← size_of elem;
  _ ← charge_instr_with_size VEC_PUSH_BACK size;
  ty ← run_lift (single_type_at resolver si);
  _ ← on_heap (push_back vec_ref elem ty);
  on_heap (drop_ref vec_ref).
Definition vec_pop_back (si : SignatureIndex) : Step :=
  vec_ref ← pop_as value_as_container_ref;
  _ ← charge_instr VEC_POP_BACK;
  ty ← run_lift (single_type_at resolver si);
  value ← on_heap (Vectors.pop vec_ref ty);
  _ ← push value;
  on_heap (drop_ref vec_ref).
Definition vec_unpack (si : SignatureIndex) (num : u64) : Step :=
  vec_val ← pop_as value_as_container;
  _ ← charge_instr_with_size VEC_UNPACK num;
  ty ← run_lift (single_type_at resolver si);
  elements ← on_heap (vector_unpack vec_val ty num);
  run_each push elements.
Definition vec_swap (si : SignatureIndex) : Step :=
  idx2 ← pop_u64;
  idx1 ← pop_u64;
  vec_ref ← pop_as value_as_container_ref;
  _ ← charge_instr VEC_SWAP;
  ty ← run_lift (single_type_at resolver si);
  _ ← on_heap (swap vec_ref idx1 idx2 ty);
  on_heap (drop_ref vec_ref).

(** The arms of the [match] of [execute_code_impl], in four parts *)
Definition next (m : Step) : M PartialVMError Flow := _ ← m; mret Next.
Definition charged (opcode : Opcodes) (m : Step) : M PartialVMError Flow := next (_ ← charge_instr opcode; m).
Definition push_of (opcode : Opcodes) (v : ValueImpl) : M PartialVMError Flow := charged opcode (push v).
Definition branch_if (opcode : Opcodes) (taken : bool → bool) (offset : CodeOffset) : M PartialVMError Flow :=
  _ ← charge_instr opcode;
  b ← pop_bool;
  if taken b then jump offset else mret Next.

Definition execute_arithmetic (instruction : Bytecode) : M PartialVMError Flow :=
  match instruction with
  | CastU8 => next (cast CAST_U8 (λ i, VU8 <$> IntegerValue.cast_u8 i))
  | CastU64 => next (cast CAST_U64 (λ i, VU64 <$> IntegerValue.cast_u64 i))
  | CastU128 => next (cast CAST_U128 (λ i, VU128 <$> IntegerValue.cast_u128 i))
  | Add => charged ADD (binop_int IntegerValue.add_checked)
  | Sub => charged SUB (binop_int IntegerValue.sub_checked)
  | Mul => charged MUL (binop_int IntegerValue.mul_checked)
  | Mod => charged MOD (binop_int IntegerValue.rem_checked)
  | Div => charged DIV (binop_int IntegerValue.div_checked)
  | BitOr => charged BIT_OR (binop_int IntegerValue.bit_or)
  | BitAnd => charged BIT_AND (binop_int IntegerValue.bit_and)
  | Xor => charged XOR (binop_int IntegerValue.bit_xor)
  | Shl => next (shift SHL IntegerValue.shl_checked)
  | Shr => next (shift SHR IntegerValue.shr_checked)
  | Or => charged OR (binop_bool (as_prim prim_bool) (λ l r, Ok (l || r)))
  | And => charged AND (binop_bool (as_prim prim_bool) (λ l r, Ok (l && r)))
  | Lt => charged LT (binop_bool value_as_integer IntegerValue.lt)
  | Gt => charged GT (binop_bool value_as_integer IntegerValue.gt)
  | Le => charged LE (binop_bool value_as_integer IntegerValue.le)
  | Ge => charged GE (binop_bool value_as_integer IntegerValue.ge)
  | _ => mret Next
  end.

(** Instructions on global storage: a borrow costs the same whether it is mutable. *)
Definition execute_global (instruction : Bytecode) : M PartialVMError Flow :=
  match instruction with
  | MutBorrowGlobal sd_idx | ImmBorrowGlobal sd_idx =>
      next (global_instr MUT_BORROW_GLOBAL (struct_type sd_idx) vm_borrow_global)
  | MutBorrowGlobalGeneric si_idx | ImmBorrowGlobalGeneric si_idx =>
      next (global_instr MUT_BORROW_GLOBAL_GENERIC (generic_type si_idx) vm_borrow_global)
  | Exists sd_idx => next (global_instr EXISTS (struct_type sd_idx) vm_exists)
  | ExistsGeneric si_idx => next (global_instr EXISTS_GENERIC (generic_type si_idx) vm_exists)
  | MoveFrom sd_idx => next (global_instr MOVE_FROM (struct_type sd_idx) vm_move_from)
  | MoveFromGeneric si_idx => next (global_instr MOVE_FROM_GENERIC (generic_type si_idx) vm_move_from)
  | MoveTo sd_idx => next (move_to_instr MOVE_TO (struct_type sd_idx))
  | MoveToGeneric si_idx => next (move_to_instr MOVE_TO_GENERIC (generic_type si_idx))
  | _ => mret Next
  end.

Definition execute_vector (instruction : Bytecode) : M PartialVMError Flow :=
  match instruction with
  | VecPack si num => next (vec_pack si num)
  | VecLen si => next (vec_len si)
  | VecImmBorrow si => next (vec_borrow VEC_IMM_BORROW si)
  | VecMutBorrow si => next (vec_borrow VEC_MUT_BORROW si)
  | VecPushBack si => next (vec_push_back si)
  | VecPopBack si => next (vec_pop_back si)
  | VecUnpack si num => next (vec_unpack si num)
  | VecSwap si => next (vec_swap si)
  | _ => mret Next
  end.

(** A generic borrow of a field always costs the immutable one: the [match] that selects
    the opcode tests for [MutBorrowField]. *)
Definition execute_instruction (instruction : Bytecode) : M PartialVMError Flow :=
  match instruction with
  | Pop => charged POP (v ← pop; on_heap (drop_value v))
  | Ret => _ ← charge_instr RET; mret (Exit Return)
  | BrTrue offset => branch_if BR_TRUE id offset
  | BrFalse offset => branch_if BR_FALSE negb offset
  | Branch offset => _ ← charge_instr BRANCH; jump offset
  | LdU8 int_const => push_of LD_U8 (VU8 int_const)
  | LdU64 int_const => push_of LD_U64 (VU64 int_const)
  | LdU128 int_const => push_of LD_U128 (VU128 int_const)
  | LdConst idx => next (ld_const idx)
  | LdTrue => push_of LD_TRUE (VBool true)
  | LdFalse => push_of LD_FALSE (VBool false)
  | CopyLoc idx => next (load_local COPY_LOC copy_loc idx)
  | MoveLoc idx => next (load_local MOVE_LOC move_loc idx)
  | StLoc idx => next (st_loc idx)
  | Call idx => mret (Exit (ECall idx))
  | CallGeneric idx => mret (Exit (ECallGeneric idx))
  | MutBorrowLoc idx => next (borrow_local MUT_BORROW_LOC idx)
  | ImmBorrowLoc idx => next (borrow_local IMM_BORROW_LOC idx)
  | MutBorrowField fh_idx => next (borrow_field_at MUT_BORROW_FIELD (field_offset resolver fh_idx))
  | ImmBorrowField fh_idx => next (borrow_field_at IMM_BORROW_FIELD (field_offset resolver fh_idx))
  | MutBorrowFieldGeneric fi_idx | ImmBorrowFieldGeneric fi_idx =>
      next (borrow_field_at IMM_BORROW_FIELD_GENERIC (field_instantiation_offset resolver fi_idx))
  | Pack sd_idx => next (pack PACK (resolver_field_count resolver sd_idx))
  | PackGeneric si_idx => next (pack PACK_GENERIC (field_instantiation_count resolver si_idx))
  | Unpack sd_idx => next (unpack UNPACK (resolver_field_count resolver sd_idx))
  | UnpackGeneric si_idx => next (unpack UNPACK_GENERIC (field_instantiation_count resolver si_idx))
  | ReadRef => next vm_read_ref
  | WriteRef => next vm_write_ref
  | CastU8 | CastU64 | CastU128 | Add | Sub | Mul | Mod | Div | BitOr | BitAnd | Xor | Shl | Shr
  | Or | And | Lt | Gt | Le | Ge => execute_arithmetic instruction
  | Abort => vm_abort
  | Eq => next (compare EQ id)
  | Neq => next (compare NEQ negb)
  | MutBorrowGlobal _ | ImmBorrowGlobal _ | MutBorrowGlobalGeneric _ | ImmBorrowGlobalGeneric _
  | Exists _ | ExistsGeneric _ | MoveFrom _ | MoveFromGeneric _ | MoveTo _ | MoveToGeneric _ =>
      execute_global instruction
  | FreezeRef => next (charge_instr FREEZE_REF)
  | Not => charged NOT (value ← pop_bool; push (VBool (negb value)))
  | Nop => next (charge_instr NOP)
  | VecPack _ _ | VecLen _ | VecImmBorrow _ | VecMutBorrow _ | VecPushBack _ | VecPopBack _
  | VecUnpack _ _ | VecSwap _ => execute_vector instruction
  end.

(** ** The loops of [execute_code_impl] *)

(** The [for] loop over the instructions from the counter on: [Some] when it returns *)
Fixpoint execute_block (instructions : list Bytecode) : M PartialVMError (option ExitCode) :=
  match instructions with
  | [] => mret None
  | instruction :: instructions =>
      flow ← execute_instruction instruction;
      match flow with
      | Exit exit_code => mret (Some exit_code)
      | Break => mret None
      | Next => _ ← advance; execute_block instructions
      end
  end.

Fixpoint execute_code_impl (fuel : nat) : M PartialVMError (option ExitCode) :=
  match fuel with
  | O => mret None
  | S fuel =>
      frame ← run_get m_frame;
      let code := f_code (fr_function frame) in
      instructions ← run_lift (if fr_pc frame <=? len code then Ok (drop (N.to_nat (fr_pc frame)) code) else Panic);
      exit_code ← execute_block instructions;
      match exit_code with
      | Some exit_code => mret (Some exit_code)
      | None =>
          pc ← run_get (λ s, fr_pc (m_frame s));
          if len code <=? pc then run_lift (Err (PartialVMError_new PC_OVERFLOW))
          else execute_code_impl fuel
      end
  end.
End Instructions.

(** The macro [set_err_info], [Frame::execute_code] *)
Definition set_err_info (frame : Frame Native) (e : PartialVMError) : VMError :=
  finish (at_code_offset e (f_index (fr_function frame)) (fr_pc frame)) (frame_location frame).
Definition execute_code (fuel : nat) (resolver : Resolver) : M VMError (option ExitCode) :=
  map_err_in (λ s, set_err_info (m_frame s)) (execute_code_impl resolver fuel).

(** ** Calls *)

(** [Interpreter::set_location], [Interpreter::maybe_core_dump] *)
Definition set_location (s : Machine DS Native) (err : PartialVMError) : VMError :=
  finish err (current_location (in_call_stack (m_interpreter s))).
Definition maybe_core_dump (err : VMError) : VMError :=
  if decide (status_type (ve_major_status err) = Verification)
  then finish (PartialVMError_new VERIFICATION_ERROR) (ve_location err) else err.
Definition at_frame {A} (m : M PartialVMError A) : M VMError A := map_err_in (λ s, set_err_info (m_frame s)) m.
Definition at_caller {A} (m : M PartialVMError A) : M VMError A := map_err_in set_location m.

(** [make_call_frame] *)
Definition pass_argument (locals : loc) (arg_count i : N) : M VMError unit :=
  value ← at_caller pop;
  at_caller (on_heap (store_loc locals (arg_count - i - 1) value)).
Definition make_call_frame (func : Function) (ty_args : list RuntimeType.Type_) : M VMError (Frame Native) :=
  locals ← at_caller (on_heap (locals_new (local_count func)));
  _ ← run_each (pass_argument locals (arg_count func)) (range (arg_count func));
  mret (Frame_new func ty_args locals).

(** [call_native_impl], [call_native]; the arguments are popped last first. *)
Fixpoint pop_arguments (n : nat) (arguments : list ValueImpl) : M PartialVMError (list ValueImpl) :=
  match n with
  | O => mret arguments
  | S n => value ← pop; pop_arguments n (value :: arguments)
  end.
Definition call_native_impl (resolver : Resolver) (function : Function) (ty_args : list RuntimeType.Type_) : Step :=
  arguments ← pop_arguments (N.to_nat (arg_count function)) [];
  native ← run_lift (get_native function);
  table ← run_get (λ s, cost_table (c_gas (m_context s)));
  r ← on_store (native_function native table resolver ty_args arguments);
  _ ← on_gas (deduct_gas (nr_cost r));
  match nr_result r with
  | inl return_values => run_each push return_values
  | inr code => on_heap (aborted code)
  end.
Definition call_native (resolver : Resolver) (function : Function) (ty_args : list RuntimeType.Type_) : M VMError unit :=
  map_err_in (λ s e,
    match module_id function with
    | Some id => finish (at_code_offset e (f_index function) 0) (LModule id)
    | None => set_location s (PartialVMError_new UNKNOWN_INVARIANT_VIOLATION_ERROR)
    end) (call_native_impl resolver function ty_args).

(** ** [execute_main] *)

Definition infallible {A} (r : result PartialVMError A) : M VMError A := run_lift (map_err (λ e, finish e LUndefined) r).
(** [self.call_stack.push(current_frame)], and the error of a stack that is full *)
Definition push_frame : M VMError unit := λ s,
  match call_stack_push (m_frame s) (in_call_stack (m_interpreter s)) with
  | Some stack => (Ok tt, set_call_stack stack s)
  | None => (Err (maybe_core_dump (set_err_info (m_frame s) (PartialVMError_new CALL_STACK_OVERFLOW))), s)
  end.
(** What follows the charges of a call *)
Definition enter_function (resolver : Resolver) (func : Function) (ty_args : list RuntimeType.Type_) : M VMError unit :=
  if function_is_native func
  then _ ← call_native resolver func ty_args; at_frame advance
  else frame ← map_err_in (λ _, maybe_core_dump) (make_call_frame func ty_args);
       _ ← push_frame;
       run_modify (set_frame frame).
Definition call (resolver : Resolver) (fh_idx : FunctionHandleIndex) : M VMError unit :=
  _ ← at_frame (charge_instr_with_size CALL 1);
  func ← infallible (function_from_handle resolver fh_idx);
  _ ← at_frame (charge_instr_with_size CALL (arg_count func));
  enter_function resolver func [].
Definition call_generic (resolver : Resolver) (idx : FunctionInstantiationIndex) : M VMError unit :=
  arity ← infallible (type_params_count resolver idx);
  _ ← at_frame (charge_instr_with_size CALL_GENERIC (arity + 1));
  frame ← run_get m_frame;
  ty_args ← at_frame (run_lift (instantiate_generic_function resolver idx (fr_ty_args frame)));
  func ← infallible (function_from_instantiation resolver idx);
  _ ← at_frame (charge_instr_with_size CALL_GENERIC (arg_count func));
  enter_function resolver func ty_args.

(** Return to the caller, whose counter advances past the call; the frame that returns is
    dropped.  Without a caller the operands are the result. *)
Definition return_ : M VMError (option (list ValueImpl)) :=
  frame ← run_get m_frame;
  _ ← at_caller (on_heap (drop_pointers [fr_locals frame]));
  calls ← run_get (λ s, in_call_stack (m_interpreter s));
  match last calls with
  | Some caller =>
      _ ← run_modify (set_frame caller ∘ set_call_stack (removelast calls));
      _ ← at_frame advance;
      mret None
  | None =>
      stack ← run_get (λ s, in_operand_stack (m_interpreter s));
      _ ← run_modify (set_operand_stack []);
      mret (Some stack)
  end.

(** What an exit of [execute_code] leads to: [Some] when execution is completed *)
Definition handle_exit (resolver : Resolver) (exit_code : ExitCode) : M VMError (option (list ValueImpl)) :=
  match exit_code with
  | Return => return_
  | ECall fh_idx => _ ← call resolver fh_idx; mret None
  | ECallGeneric idx => _ ← call_generic resolver idx; mret None
  end.
Fixpoint main_loop (fuel : nat) (loader : Loader) : M VMError (option (list ValueImpl)) :=
  match fuel with
  | O => mret None
  | S fuel' =>
      frame ← run_get m_frame;
      resolver ← infallible (get_resolver (fr_function frame) loader);
      exit_code ← map_err_in (λ _, maybe_core_dump) (execute_code fuel resolver);
      match exit_code with
      | None => mret None
      | Some exit_code =>
          values ← handle_exit resolver exit_code;
          match values with
          | Some values => mret (Some values)
          | None => main_loop fuel' loader
          end
      end
  end.

(** [execute_main] and [entrypoint]; an error of a store has no location yet. *)
Definition initial_locals (function : Function) (args : list ValueImpl) : HeapM loc :=
  locals ← locals_new (local_count function);
  _ ← collect_heap (λ p : N * ValueImpl, store_loc locals p.1 p.2) (enumerate args);
  mret locals.
Definition execute_main (fuel : nat) (loader : Loader) (function : Function) (ty_args : list RuntimeType.Type_)
    (args : list ValueImpl) : Run (Context DS) VMError (option (list ValueImpl)) := λ ctx,
  match run_map_err (λ e, finish e LUndefined) (context_heap (initial_locals function args)) ctx with
  | (Ok locals, ctx) =>
      let '(r, s) := main_loop fuel loader
        {| m_interpreter := Interpreter_new; m_frame := Frame_new function ty_args locals; m_context := ctx |} in
      (r, m_context s)
  | (Err e, ctx) => (Err e, ctx)
  | (Panic, ctx) => (Panic, ctx)
  | (OutOfFuel, ctx) => (OutOfFuel, ctx)
  end.
Definition entrypoint (fuel : nat) (function : Function) (ty_args : list RuntimeType.Type_) (args : list ValueImpl)
    (loader : Loader) : Run (Context DS) VMError (option (list ValueImpl)) :=
  execute_main fuel loader function ty_args args.
End Interpreter.
