(* ===== verification/Execution.v ===== *)
(** * Execution: what every execution keeps to

    Theorems on [Interpreter]: instructions only touch the operands, the context and, in a
    branch, the counter; gas never comes back; the stacks keep their limits; control
    follows the code; and a metered execution ends. *)

From S2P Require Import Prelude CoreTypes VmStatus Abilities FileFormat Errors BinaryCommon Views ControlFlowGraph ControlFlow StackUsage Integers RuntimeTypes Heap Values Vectors GlobalValues ValueCodec Gas LoadedCode Machine Interpreter.

Section Execution.
Context {DS Native : Type} `{!DataStore DS, !NativeCalls DS Native} (overflow_checks : bool).
Notation Function := (@Function Native).
Notation Loader := (@Loader Native).
Notation Resolver := (@Resolver Native).
Notation Machine := (Machine DS Native).
Notation M := (Run (Machine.Machine DS Native)).

(** ** Relations that computations keep *)

Definition keeps {E A} (R : relation Machine) (m : M E A) : Prop := ∀ s, R s (m s).2.
Lemma keeps_bind {E A B} R `{!PreOrder R} (m : M E A) (k : A → M E B) :
  keeps R m → (∀ a, keeps R (k a)) → keeps R (m ≫= k).
Proof.
  intros Hm Hk s. specialize (Hm s). unfold mbind, Run_bind. destruct (m s) as [[a| | |] s']; cbn in *; [|done..].
  etrans; [exact Hm|apply Hk].
Qed.
Lemma keeps_ret {E A} R `{!Reflexive R} (a : A) : keeps (E := E) R (mret a).
Proof. intros s. cbn. done. Qed.
Lemma keeps_lift {E A} R `{!Reflexive R} (r : result E A) : keeps R (run_lift r).
Proof. intros s. cbn. done. Qed.
Lemma keeps_get {E A} R `{!Reflexive R} (f : Machine → A) : keeps (E := E) R (run_get f).
Proof. intros s. cbn. done. Qed.
Lemma keeps_each {E A} R `{!PreOrder R} (f : A → M E unit) l : (∀ a, keeps R (f a)) → keeps R (run_each f l).
Proof. intros Hf. induction l; [by apply (keeps_ret R)|]. by apply (keeps_bind R). Qed.
Lemma keeps_map_err {E F A} R (f : Machine → E → F) (m : M E A) : keeps R m → keeps R (map_err_in f m).
Proof. intros H s. specialize (H s). unfold map_err_in. by destruct (m s). Qed.

(** Gas only goes down, under the same schedule. *)
Record gas_used (g g' : GasStatus) : Prop := {
  gu_table : cost_table g' = cost_table g;
  gu_charge : Gas.charge g' = Gas.charge g;
  gu_left : gas_left g' <= gas_left g }.
#[export] Instance gas_used_preorder : PreOrder gas_used.
Proof. split; [done|]. intros a b c [] []. split; try congruence. lia. Qed.

(** What operands and calls do not touch *)
Record quiet (s s' : Machine) : Prop := {
  qu_frame : m_frame s' = m_frame s;
  qu_calls : in_call_stack (m_interpreter s') = in_call_stack (m_interpreter s);
  qu_limit : len (in_operand_stack (m_interpreter s)) <= OPERAND_STACK_SIZE_LIMIT →
    len (in_operand_stack (m_interpreter s')) <= OPERAND_STACK_SIZE_LIMIT;
  qu_gas : gas_used (c_gas (m_context s)) (c_gas (m_context s')) }.
#[export] Instance quiet_preorder : PreOrder quiet.
Proof. split; [done|]. intros a b c [] []. split; try congruence; [auto|]. by etrans. Qed.

Lemma quiet_heap {A} (m : HeapM A) : keeps quiet (on_heap m).
Proof. intros [[] ? ?]. unfold on_heap, on_context, context_heap. cbn. by destruct (m _) as [[]| | |]. Qed.
Lemma quiet_store {E A} (m : Run (Heap * DS) E A) : keeps quiet (on_store m).
Proof. intros [[] ? ?]. unfold on_store, on_context, context_store. cbn. by destruct (m _) as [[] []]. Qed.
Lemma quiet_gas {E A} (m : Run GasStatus E A) : (∀ g, gas_used g (m g).2) → keeps quiet (on_gas m).
Proof.
  intros Hm [[] ? ?]. unfold on_gas, on_context, context_gas. cbn. specialize (Hm (c_gas m_context)).
  destruct (m _). by split.
Qed.
Lemma quiet_stack {A} (m : Run (list ValueImpl) PartialVMError A) :
  (∀ l, len l <= OPERAND_STACK_SIZE_LIMIT → len (m l).2 <= OPERAND_STACK_SIZE_LIMIT) → keeps quiet (on_stack m).
Proof. intros Hm [[] ? ?]. unfold on_stack. cbn. specialize (Hm in_operand_stack). destruct (m _). by split. Qed.

Lemma deduct_used amount g : gas_used g (deduct_gas amount g).2.
Proof.
  unfold deduct_gas. destruct (Gas.charge g) eqn:Hc; [|done]. cbn.
  destruct (N.leb_spec amount (gas_left g)); split; cbn; try done; lia.
Qed.
Lemma amount_used (r : result PartialVMError N) g : gas_used g ((amount ← run_lift r; deduct_gas amount) g).2.
Proof. unfold mbind, Run_bind, run_lift. destruct r; [apply deduct_used|done..]. Qed.

Lemma quiet_push v : keeps quiet (push v).
Proof. apply quiet_stack. intros l Hl. unfold stack_push. destruct (N.ltb_spec (len l) OPERAND_STACK_SIZE_LIMIT); cbn; [|done]. len_lia. Qed.
Lemma removelast_length {A} (l : list A) : length (removelast l) = Nat.pred (length l).
Proof. induction l as [|x [|y l] IH]; [done..|]. cbn in *. by rewrite IH. Qed.
Lemma quiet_pop : keeps quiet pop.
Proof. apply quiet_stack. intros l Hl. unfold stack_pop. destruct (last l); [cbn|done]. unfold len in *. rewrite removelast_length. lia. Qed.
Lemma quiet_popn n : keeps quiet (popn n).
Proof.
  apply quiet_stack. intros l Hl. unfold stack_popn. case_match; [cbn|done]. unfold len in *. rewrite length_take. lia.
Qed.
Lemma quiet_charge opcode : keeps quiet (charge_instr (DS := DS) (Native := Native) overflow_checks opcode).
Proof. apply quiet_gas. intros g. apply amount_used. Qed.
Lemma quiet_charge_size opcode size : keeps quiet (charge_instr_with_size (DS := DS) (Native := Native) overflow_checks opcode size).
Proof. apply quiet_gas. intros g. apply amount_used. Qed.
End Execution.

(** A computation without branches is [quiet] when its operations are. *)
Ltac quiet :=
  intros;
  repeat first
    [ apply quiet_push | apply quiet_pop | apply quiet_popn | apply quiet_charge | apply quiet_charge_size
    | apply quiet_heap | apply quiet_store | apply (quiet_gas (deduct_gas _)); apply deduct_used
    | apply (keeps_ret quiet) | apply (keeps_lift quiet) | apply (keeps_get quiet)
    | apply (keeps_each quiet); intros ? | apply (keeps_bind quiet); [|intros ?]
    | progress case_match ].

(** ** Instructions *)

Section Instructions.
Context {DS Native : Type} `{!DataStore DS, !NativeCalls DS Native} (overflow_checks : bool).
Notation Resolver := (@Resolver Native).
Notation Machine := (Machine DS Native).
Notation M := (Run (Machine.Machine DS Native)).
Context (resolver : Resolver).

Lemma quiet_pop_as {T} (cast : ValueImpl → HeapM T) : keeps (DS := DS) (Native := Native) quiet (pop_as cast).
Proof. unfold pop_as. quiet. Qed.
Lemma quiet_binop {T} (cast : ValueImpl → HeapM T) f : keeps (DS := DS) (Native := Native) quiet (binop cast f).
Proof. unfold binop. repeat (apply (keeps_bind quiet); [apply quiet_pop_as|intros ?]). quiet. Qed.

(** What an instruction does to the control: [Next] and an exit leave the counter, and a
    branch sets it to its offset; the instruction is one that may do so. *)
Definition flow_of (i : Bytecode) (flow : Flow) (s s' : Machine) : Prop :=
  match flow with
  | Next => quiet s s' ∧ Bytecode.is_unconditional_branch i = false
  | Break => ∃ pc, Bytecode.offset i = Some pc ∧ quiet (set_frame (set_pc (m_frame s) pc) s) s'
  | Exit Return => quiet s s' ∧ i = Bytecode.Ret
  | Exit (ECall idx) => quiet s s' ∧ i = Bytecode.Call idx
  | Exit (ECallGeneric idx) => quiet s s' ∧ i = Bytecode.CallGeneric idx
  end.
Definition steps (i : Bytecode) (m : M PartialVMError Flow) : Prop := ∀ s,
  match m s with (Ok flow, s') => flow_of i flow s s' | (_, s') => quiet s s' end.

Lemma steps_next i (m : M PartialVMError unit) : Bytecode.is_unconditional_branch i = false → keeps quiet m → steps i (next m).
Proof. intros Hi H s. specialize (H s). unfold next, mbind, Run_bind. by destruct (m s) as [[] ?]. Qed.
Lemma steps_charged i opcode (m : M PartialVMError unit) :
  Bytecode.is_unconditional_branch i = false → keeps quiet m → steps i (charged overflow_checks opcode m).
Proof. intros Hi H. apply steps_next; [done|]. quiet. apply H. Qed.
Lemma steps_push i opcode v : Bytecode.is_unconditional_branch i = false → steps i (push_of overflow_checks opcode v).
Proof. intros Hi. apply steps_charged; [done|]. quiet. Qed.
Lemma steps_bind {A} i (m : M PartialVMError A) (k : A → M PartialVMError Flow) :
  keeps quiet m → (∀ a, steps i (k a)) → steps i (m ≫= k).
Proof.
  intros Hm Hk s. specialize (Hm s). unfold mbind, Run_bind.
  destruct (m s) as [[a| | |] s'] eqn:Hs; cbn [snd] in Hm; [|done..]. specialize (Hk a s').
  destruct (k a s') as [[[| |[| |]]| | |] s2]; cbn in *; try (by etrans); try (destruct Hk; split; [by etrans|done]).
  destruct Hk as (pc & Ho & Hq). exists pc. split; [done|]. etrans; [|exact Hq].
  destruct Hm as [Hf Hc Hl Hg]. by split; cbn; [rewrite Hf|..].
Qed.
Lemma steps_jump i pc : Bytecode.offset i = Some pc → steps i (jump pc).
Proof. intros H s. by exists pc. Qed.
Lemma steps_go i : Bytecode.is_unconditional_branch i = false → steps i (mret Next).
Proof. by intros Hi s. Qed.
End Instructions.

(** Instructions of the interpreter are [quiet]. *)
Ltac quiet_instr :=
  intros;
  repeat first
    [ apply quiet_push | apply quiet_pop | apply quiet_popn | apply quiet_charge | apply quiet_charge_size
    | apply quiet_pop_as | apply quiet_binop | apply quiet_heap | apply quiet_store
    | apply (keeps_ret quiet) | apply (keeps_lift quiet) | apply (keeps_get quiet)
    | apply (keeps_each quiet); intros ? | apply (keeps_bind quiet); [|intros ?]
    | progress case_match ].

Section Code.
Context {DS Native : Type} `{!DataStore DS, !NativeCalls DS Native} (overflow_checks : bool).
Notation Function := (@Function Native).
Notation Loader := (@Loader Native).
Notation Resolver := (@Resolver Native).
Notation Machine := (Machine DS Native).
Notation M := (Run (Machine.Machine DS Native)).

Lemma execute_steps (resolver : Resolver) (i : Bytecode) : steps i (execute_instruction overflow_checks resolver i).
Proof.
  destruct i; cbn [execute_instruction execute_arithmetic execute_global execute_vector];
    try (by apply steps_push);
    try (apply steps_charged; [done|]; unfold binop_int, binop_bool, pop_bool; by quiet_instr);
    try (apply steps_next; [done|];
         unfold cast, shift, ld_const, load_local, st_loc, borrow_local, borrow_field_at, pack, unpack, unpack_field,
           vm_read_ref, vm_write_ref, compare, global_instr, move_to_instr, struct_type, generic_type,
           vm_borrow_global, vm_exists, vm_move_from, vm_move_to, vm_load_resource, vm_store_resource, frame_locals, frame_ty_args,
           vec_pack, vec_len, vec_borrow, vec_push_back, vec_pop_back, vec_unpack, vec_swap,
           pop_bool, pop_u8, pop_u64, pop_address, size_of; by quiet_instr).
  all: try (unfold branch_if, pop_bool).
  all: first [ apply steps_bind; [by quiet_instr|intros ?] | idtac ].
  all: try (by apply steps_jump).
  all: try by (intros s; cbn).
  all: apply steps_bind; [unfold pop_u64; by quiet_instr|intros b].
  1,2: case_match; [by apply steps_jump|by apply steps_go].
  by intros [].
Qed.

(** ** Gas *)

(** Metering is on, and the schedule charges every instruction. *)
Definition metered (g : GasStatus) : Prop := Gas.charge g = true ∧ table_positive (cost_table g).
Lemma metered_used g g' : gas_used g g' → metered g → metered g'.
Proof. intros [Ht Hc _] [H1 H2]. split; [by rewrite Hc|by rewrite Ht]. Qed.

Lemma deduct_spends amount g g' : Gas.charge g = true → 0 < amount → deduct_gas amount g = (Ok tt, g') → gas_left g' < gas_left g.
Proof.
  unfold deduct_gas. intros -> Ha. cbn. destruct (N.leb_spec amount (gas_left g)); [|done]. intros [= <-]. cbn. lia.
Qed.
Lemma charge_spends opcode g g' :
  metered g → Gas.charge_instr overflow_checks opcode g = (Ok tt, g') → gas_left g' < gas_left g.
Proof.
  intros [Hc Ht]. destruct (Ht overflow_checks opcode) as (c & Hcost & H0 & Hm). unfold Gas.charge_instr. rewrite Hcost.
  cbn. unfold total. rewrite gas_add_small by (unfold u64_MAX, u32_MAX in *; lia). by apply deduct_spends.
Qed.
(** Charging by a size spends gas unless the product overflows. *)
Lemma charge_size_spends opcode size g g' :
  metered g → size <= 2 ^ 32 → Gas.charge_instr_with_size overflow_checks opcode size g = (Ok tt, g') → gas_left g' < gas_left g.
Proof.
  intros [Hc Ht] Hs. destruct (Ht overflow_checks opcode) as (c & Hcost & H0 & Hm). unfold Gas.charge_instr_with_size.
  rewrite Hcost. cbn. unfold total. rewrite gas_add_small by (unfold u64_MAX, u32_MAX in *; lia). cbn.
  rewrite gas_mul_small; [apply deduct_spends; [done|nia]|]. unfold u64_MAX, u32_MAX in *. nia.
Qed.

Definition spends (s s' : Machine) : Prop := gas_left (c_gas (m_context s')) < gas_left (c_gas (m_context s)).
Definition metered_machine (s : Machine) : Prop := metered (c_gas (m_context s)).
Lemma quiet_metered s s' : quiet s s' → metered_machine s → metered_machine s'.
Proof. intros H. by apply metered_used, H. Qed.
Lemma spends_quiet_l s1 s2 s3 : quiet s1 s2 → spends s2 s3 → spends s1 s3.
Proof. unfold spends. intros [_ _ _ []]. lia. Qed.
Lemma spends_quiet_r s1 s2 s3 : spends s1 s2 → quiet s2 s3 → spends s1 s3.
Proof. unfold spends. intros H [_ _ _ []]. lia. Qed.
Lemma vm_charge_spends opcode s s' :
  metered_machine s → Interpreter.charge_instr overflow_checks opcode s = (Ok tt, s') → spends s s'.
Proof.
  unfold Interpreter.charge_instr, on_gas, on_context, context_gas, spends. intros Hm.
  destruct (Gas.charge_instr overflow_checks opcode (c_gas (m_context s))) as [r g] eqn:Hg. intros [= -> <-]. cbn.
  by eapply charge_spends.
Qed.
Lemma vm_charge_size_spends opcode size s s' :
  metered_machine s → size <= 2 ^ 32 → Interpreter.charge_instr_with_size overflow_checks opcode size s = (Ok tt, s') → spends s s'.
Proof.
  unfold Interpreter.charge_instr_with_size, on_gas, on_context, context_gas, spends. intros Hm Hs.
  destruct (Gas.charge_instr_with_size overflow_checks opcode size (c_gas (m_context s))) as [r g] eqn:Hg. intros [= -> <-]. cbn.
  by eapply charge_size_spends.
Qed.

(** The part of [quiet] that jumps keep too *)
Definition used (s s' : Machine) : Prop := gas_used (c_gas (m_context s)) (c_gas (m_context s')).
#[export] Instance used_preorder : PreOrder used.
Proof. unfold used. split; [by intros s|]. intros a b c. apply transitivity. Qed.
Lemma keeps_used {E A} (m : M E A) : keeps quiet m → keeps used m.
Proof. intros H s. apply H. Qed.

(** A branch and a return are not free. *)
Lemma charged_spends {A} opcode (k : unit → M PartialVMError A) s a s' :
  metered_machine s → (∀ u, keeps used (k u)) →
  (Interpreter.charge_instr overflow_checks opcode ≫= k) s = (Ok a, s') → spends s s'.
Proof.
  intros Hm Hk. unfold mbind, Run_bind.
  destruct (Interpreter.charge_instr overflow_checks opcode s) as [[[]| | |] s1] eqn:Hs; [|done..].
  intros H. pose proof (Hk tt s1) as Hq. rewrite H in Hq. cbn in Hq. apply vm_charge_spends in Hs; [|done]. destruct Hq. unfold spends in *. lia.
Qed.
Lemma exit_spends (resolver : Resolver) i s flow s' :
  metered_machine s → execute_instruction overflow_checks resolver i s = (Ok flow, s') → flow = Break ∨ flow = Exit Return → spends s s'.
Proof.
  intros Hm Hs Hf. pose proof (execute_steps resolver i s) as Hq. rewrite Hs in Hq. cbn in Hq.
  destruct Hf as [-> | ->]; [destruct Hq as (pc & Ho & _)|destruct Hq as [_ ->]].
  - destruct i; try done; cbn [execute_instruction] in Hs; (eapply charged_spends; [exact Hm| |exact Hs]); intros []; try done.
    all: apply (keeps_bind used); [apply keeps_used; unfold pop_bool; by quiet_instr|intros b]; by case_match.
  - eapply charged_spends; [exact Hm| |exact Hs]. by intros [] ?.
Qed.
(** ** Control *)

Definition current_code (s : Machine) : list Bytecode := f_code (fr_function (m_frame s)).
Definition pc_of (s : Machine) : N := fr_pc (m_frame s).

(** What the code of a function may do to the machine *)
Record moved (s s' : Machine) : Prop := {
  mv_frame : m_frame s' = set_pc (m_frame s) (pc_of s');
  mv_calls : in_call_stack (m_interpreter s') = in_call_stack (m_interpreter s);
  mv_limit : len (in_operand_stack (m_interpreter s)) <= OPERAND_STACK_SIZE_LIMIT →
    len (in_operand_stack (m_interpreter s')) <= OPERAND_STACK_SIZE_LIMIT;
  mv_gas : used s s' }.
#[export] Instance moved_preorder : PreOrder moved.
Proof.
  split; [intros [? [] ?]; by split|]. intros a b c [Hf1 ? ? Hg1] [Hf2 ? ? Hg2]. split; [|congruence|auto|by etrans].
  rewrite Hf2. unfold pc_of. by rewrite Hf1.
Qed.
Lemma moved_code s s' : moved s s' → current_code s' = current_code s.
Proof. intros [Hf _ _ _]. unfold current_code. by rewrite Hf. Qed.
Lemma quiet_moved s s' : quiet s s' → moved s s'.
Proof. intros [Hf Hc Hl Hg]. split; [|done..]. unfold pc_of. rewrite Hf. by destruct (m_frame s). Qed.
Lemma quiet_pc s s' : quiet s s' → pc_of s' = pc_of s.
Proof. unfold pc_of. by intros [-> _ _ _]. Qed.
Lemma jumped s s' pc : quiet (set_frame (set_pc (m_frame s) pc) s) s' → moved s s' ∧ pc_of s' = pc.
Proof. intros [Hf Hc Hl Hg]. unfold pc_of. split; [split|]; unfold pc_of; rewrite ?Hf; done. Qed.

(** The counter passes over instructions of the code. *)
Definition passes (code : list Bytecode) (pc pc' : N) : Prop := ∃ i, at_ code pc = Some i ∧ passes_to i pc pc'.
Definition walks (code : list Bytecode) : relation N := rtc (passes code).
Definition exit_instr (exit_code : ExitCode) : Bytecode :=
  match exit_code with
  | Return => Bytecode.Ret
  | ECall idx => Bytecode.Call idx
  | ECallGeneric idx => Bytecode.CallGeneric idx
  end.

(** How code ends: with an exit at the instruction that asks for it, or with an error at
    an instruction *)
Definition code_ends {E} (s : Machine) (r : result E (option ExitCode)) (s' : Machine) : Prop :=
  moved s s' ∧ walks (current_code s) (pc_of s) (pc_of s') ∧
  match r with
  | Ok (Some exit_code) => at_ (current_code s) (pc_of s') = Some (exit_instr exit_code)
  | Ok None => True
  | _ => is_Some (at_ (current_code s) (pc_of s'))
  end.

Lemma advance_spec s : pc_of s < u16_MAX →
  ∃ s', advance overflow_checks s = (Ok tt, s') ∧ moved s s' ∧ pc_of s' = pc_of s + 1.
Proof.
  intros H. unfold advance, pc_of in *. rewrite (proj2 (N.leb_le _ _)) by lia. eexists. split; [done|].
  split; [|done]. by split.
Qed.

Lemma execute_block_spec (resolver : Resolver) s :
  len (current_code s) <= u16_MAX → pc_of s <= len (current_code s) →
  let '(r, s') := execute_block overflow_checks resolver (drop (N.to_nat (pc_of s)) (current_code s)) s in
  code_ends s r s' ∧
  (r = Ok None → metered_machine s → len (current_code s) <= pc_of s' ∨ spends s s') ∧
  (r = Ok (Some Return) → metered_machine s → spends s s').
Proof.
  remember (drop (N.to_nat (pc_of s)) (current_code s)) as instrs eqn:Hi. revert s Hi.
  induction instrs as [|i instrs IH]; intros s Hi Hlen Hpc; cbn [execute_block].
  - symmetry in Hi. apply (f_equal length) in Hi. rewrite length_drop in Hi. cbn in Hi. split_and!; [|left; unfold len in *; lia|done].
    split_and!; [done|apply rtc_refl|done].
  - assert (at_ (current_code s) (pc_of s) = Some i) as Hat.
    { unfold at_. rewrite <- (Nat.add_0_r (N.to_nat _)), <- lookup_drop, <- Hi. done. }
    assert (instrs = drop (N.to_nat (pc_of s + 1)) (current_code s)) as Hrest.
    { replace (N.to_nat (pc_of s + 1)) with (N.to_nat (pc_of s) + 1)%nat by lia. by rewrite <- drop_drop, <- Hi. }
    assert (pc_of s < len (current_code s)) as Hlt by (apply lookup_lt_Some in Hat; unfold len; lia).
    pose proof (execute_steps resolver i s) as Hstep. pose proof (exit_spends resolver i s) as Hspend.
    destruct (execute_instruction overflow_checks resolver i s) as [r1 s1] eqn:Hex. destruct r1 as [flow| | |].
    2-4: unfold mbind, Run_bind; rewrite Hex; split_and!; [|done..]; split_and!;
      [by apply quiet_moved|rewrite (quiet_pc _ _ Hstep); apply rtc_refl|by rewrite (quiet_pc _ _ Hstep), Hat].
    rewrite (run_bind_ok _ _ _ _ _ Hex). destruct flow as [| |exit_code]; cbn [flow_of] in Hstep.
    + destruct Hstep as [Hq Hu]. destruct (advance_spec s1) as (s2 & Hadv & Hmv & Hpc2); [rewrite (quiet_pc _ _ Hq); lia|].
      rewrite (run_bind_ok _ _ _ _ _ Hadv). assert (moved s s2) as Hm by (etrans; [by apply quiet_moved|done]).
      rewrite (quiet_pc _ _ Hq) in Hpc2. specialize (IH s2). rewrite (moved_code _ _ Hm), Hpc2 in IH.
      specialize (IH Hrest Hlen ltac:(lia)). destruct (execute_block _ _ instrs s2) as [r s3].
      destruct IH as ((Hm3 & Hw & Hend) & Hnone & Hret). rewrite (moved_code _ _ Hm) in *.
      assert (metered_machine s → metered_machine s2) as Hmet by (intros H; eapply metered_used; [apply Hm|done]).
      assert (spends s2 s3 → spends s s3) as Hsp by (unfold spends; pose proof (gu_left _ _ (mv_gas _ _ Hm)); lia).
      split_and!; [|intros H1 H2; destruct (Hnone H1); auto|auto].
      split_and!; [by etrans| |done]. eapply rtc_l; [|exact Hw]. exists i. split; [done|]. right. by rewrite Hpc2.
    + destruct Hstep as (pc & Ho & Hq). apply jumped in Hq as [Hm Hpc'].
      split_and!; [|intros _ ?; right; eapply Hspend; eauto|done].
      split_and!; [done| |done]. rewrite Hpc'. apply rtc_once. exists i. split; [done|by left].
    + assert (quiet s s1 ∧ i = exit_instr exit_code) as [Hq ->] by by destruct exit_code.
      split_and!; [|done|intros [= ->]; eauto]. split_and!; [by apply quiet_moved|rewrite (quiet_pc _ _ Hq); apply rtc_refl|].
      by rewrite (quiet_pc _ _ Hq).
Qed.

(** A whole run of the code, whatever its fuel *)
Lemma execute_code_spec (resolver : Resolver) fuel s :
  len (current_code s) <= u16_MAX → pc_of s <= len (current_code s) →
  let '(r, s') := execute_code_impl overflow_checks resolver fuel s in
  moved s s' ∧ walks (current_code s) (pc_of s) (pc_of s') ∧
  (code_ends s r s' ∨ r = Err (PartialVMError_new PC_OVERFLOW) ∧ len (current_code s) <= pc_of s') ∧
  (r = Ok (Some Return) → metered_machine s → spends s s') ∧
  (r = Ok None → metered_machine s → N.of_nat fuel <= gas_left (c_gas (m_context s))).
Proof.
  revert s. induction fuel as [|fuel IH]; intros s Hlen Hpc; [cbn; split_and!; [done|apply rtc_refl| |done|lia]|].
  { left. split_and!; [done|apply rtc_refl|done]. }
  cbn [execute_code_impl]. rewrite (run_bind_ok (run_get m_frame) _ s (m_frame s) s) by done.
  fold (current_code s). fold (pc_of s). rewrite (proj2 (N.leb_le _ _) Hpc).
  rewrite (run_bind_ok (run_lift (Ok _)) _ s (drop (N.to_nat (pc_of s)) (current_code s)) s) by done.
  pose proof (execute_block_spec resolver s Hlen Hpc) as Hb.
  destruct (execute_block _ _ _ s) as [r1 s1] eqn:Hex. destruct Hb as (Hend & Hnone & Hret). pose proof Hend as (Hm & Hw & Hr).
  destruct r1 as [[exit_code|]| | |].
  1: rewrite (run_bind_ok _ _ _ _ _ Hex); cbn; split_and!; [done..|by left| |done]; intros [= ->]; auto.
  2-4: unfold mbind, Run_bind; rewrite Hex; split_and!; [done..|by left|done|done].
  rewrite (run_bind_ok _ _ _ _ _ Hex). cbn iota. rewrite (run_bind_ok (run_get _) _ s1 (pc_of s1) s1) by done.
  destruct (N.leb_spec (len (current_code s)) (pc_of s1)) as [Hge|Hlt]; [split_and!; [done..|by right|done|done]|].
  specialize (IH s1). rewrite (moved_code _ _ Hm) in IH. specialize (IH Hlen ltac:(lia)).
  destruct (execute_code_impl _ _ fuel s1) as [r s2]. destruct IH as (Hm2 & Hw2 & Hend2 & Hret2 & Hfuel).
  assert (metered_machine s → metered_machine s1) as Hmet by (intros H; eapply metered_used; [apply Hm|done]).
  split_and!; [by etrans|by etrans| | |].
  - destruct Hend2 as [(_ & _ & He)|He]; [left|by right]. rewrite (moved_code _ _ Hm) in He. split_and!; [by etrans|by etrans|done].
  - intros H1 H2. specialize (Hret2 H1 (Hmet H2)). unfold spends in *. pose proof (gu_left _ _ (mv_gas _ _ Hm)). lia.
  - intros H1 H2. specialize (Hfuel H1 (Hmet H2)). destruct (Hnone eq_refl H2) as [?|Hs]; [lia|]. unfold spends in Hs. lia.
Qed.

(** Accepted control flow keeps the counter in the code. *)
Lemma walks_in_code f unit pc pc' :
  ControlFlow.verify f unit = Ok tt → branches_in_bounds (cu_code unit) → pc < len (cu_code unit) →
  walks (cu_code unit) pc pc' → pc' < len (cu_code unit).
Proof.
  intros Hv Hb Hpc Hw. assert (∃ l, last (cu_code unit) = Some l ∧ Bytecode.is_unconditional_branch l = true) as (l & Hlast & Hu).
  { unfold ControlFlow.verify in Hv. apply bind_Ok in Hv as ([] & Hv & _). destruct (last _) as [l|]; [|done].
    exists l. split; [done|]. by destruct (Bytecode.is_unconditional_branch l). }
  induction Hw as [|pc1 pc2 pc3 (i & Hi & Hp) _ IH]; [done|]. apply IH. clear IH pc3.
  unfold branches_in_bounds in Hb. rewrite Forall_lookup in Hb. destruct Hp as [Ho|[Hn ->]]; [by eapply Hb|].
  destruct (N.ltb_spec (pc1 + 1) (len (cu_code unit))) as [?|Hge]; [done|]. exfalso.
  rewrite last_lookup in Hlast. unfold at_, len in *. replace (N.to_nat pc1) with (Nat.pred (length (cu_code unit))) in Hi by lia.
  simplify_eq. congruence.
Qed.
End Code.

(** ** Executions keep their limits, and end

    Theorems on [Interpreter] and [Execution]: the stacks stay within their limits, gas
    only goes down, and the loops of a metered execution end with the fuel of its gas. *)


Section Metering.
Context {DS Native : Type} `{!DataStore DS, !NativeCalls DS Native} (overflow_checks : bool).
Notation Function := (@Function Native).
Notation Loader := (@Loader Native).
Notation Resolver := (@Resolver Native).
Notation M := (Run (Machine.Machine DS Native)).
Notation Machine := (Machine DS Native).

(** ** Calls *)

Lemma quiet_arguments n args : keeps quiet (pop_arguments (DS := DS) (Native := Native) n args).
Proof. revert args. induction n as [|n IH]; intros args; [apply (keeps_ret quiet)|]. cbn [pop_arguments]. apply (keeps_bind quiet); [apply quiet_pop|auto]. Qed.
Lemma quiet_call_native (resolver : Resolver) func ty_args : keeps quiet (call_native resolver func ty_args).
Proof.
  apply (keeps_map_err quiet). unfold call_native_impl. apply (keeps_bind quiet); [apply quiet_arguments|intros args].
  repeat (apply (keeps_bind quiet); [first [apply (keeps_lift quiet)|apply (keeps_get quiet)|apply quiet_store|apply quiet_gas, deduct_used]|intros ?]).
  case_match; [|apply quiet_heap]. apply (keeps_each quiet). intros v. apply quiet_push.
Qed.
Lemma quiet_make_call_frame (func : Function) ty_args : keeps quiet (make_call_frame (DS := DS) func ty_args).
Proof.
  unfold make_call_frame. apply (keeps_bind quiet); [apply (keeps_map_err quiet), quiet_heap|intros locals].
  apply (keeps_bind quiet); [|intros ?; apply (keeps_ret quiet)]. apply (keeps_each quiet). intros i. unfold pass_argument.
  apply (keeps_bind quiet); [apply (keeps_map_err quiet), quiet_pop|intros v]. apply (keeps_map_err quiet), quiet_heap.
Qed.
Lemma make_call_frame_frame (func : Function) ty_args s frame s' :
  make_call_frame (DS := DS) func ty_args s = (Ok frame, s') → fr_function frame = func ∧ fr_pc frame = 0.
Proof.
  unfold make_call_frame, mbind, Run_bind. destruct (at_caller _ s) as [[]]; [|done..]. destruct (run_each _ _ _) as [[]]; [|done..].
  intros [= <- _]. done.
Qed.

(** ** Limits *)

Definition bounded (s : Machine) : Prop :=
  len (in_operand_stack (m_interpreter s)) <= OPERAND_STACK_SIZE_LIMIT ∧
  len (in_call_stack (m_interpreter s)) <= CALL_STACK_SIZE_LIMIT.
Record round (s s' : Machine) : Prop := { ro_gas : used s s'; ro_limits : bounded s → bounded s' }.
#[export] Instance round_preorder : PreOrder round.
Proof. split; [done|]. intros a b c [] []. split; [by etrans|auto]. Qed.
Lemma moved_round s s' : moved s s' → round s s'.
Proof. intros [Hf Hc Hl Hg]. split; [done|]. unfold bounded. rewrite Hc. intros []. auto. Qed.
Lemma keeps_round {E A} (m : M E A) : keeps quiet m → keeps round m.
Proof. intros H s. by apply moved_round, quiet_moved. Qed.
Lemma round_advance : keeps (DS := DS) (Native := Native) round (at_frame (advance overflow_checks)).
Proof.
  apply (keeps_map_err round). intros s. unfold advance.
  destruct (_ <=? u16_MAX); [by split|]. by destruct overflow_checks; split.
Qed.
Lemma round_push_frame : keeps (DS := DS) (Native := Native) round push_frame.
Proof.
  intros s. unfold push_frame, call_stack_push. destruct (N.ltb_spec (len (in_call_stack (m_interpreter s))) CALL_STACK_SIZE_LIMIT); [|done].
  split; [done|]. intros [Hs Hc]. split; [done|]. cbn. len_lia.
Qed.
Lemma round_set_frame {E} frame : keeps (E := E) round (run_modify (set_frame frame) : M E unit).
Proof. by split. Qed.
Lemma round_enter (resolver : Resolver) func ty_args : keeps round (enter_function overflow_checks resolver func ty_args).
Proof.
  unfold enter_function. case_match.
  - apply (keeps_bind round); [apply keeps_round, quiet_call_native|intros _; apply round_advance].
  - apply (keeps_bind round); [apply keeps_round, (keeps_map_err quiet), quiet_make_call_frame|intros frame].
    apply (keeps_bind round); [apply round_push_frame|intros _; apply round_set_frame].
Qed.
Lemma round_charge opcode size : keeps (DS := DS) (Native := Native) round (at_frame (charge_instr_with_size overflow_checks opcode size)).
Proof. apply keeps_round, (keeps_map_err quiet), quiet_charge_size. Qed.
Lemma round_return : keeps (DS := DS) (Native := Native) round (return_ overflow_checks).
Proof.
  unfold return_. apply (keeps_bind round); [apply (keeps_get round)|intros frame].
  apply (keeps_bind round); [apply keeps_round, (keeps_map_err quiet), quiet_heap|intros _].
  intros s. rewrite (run_bind_ok (run_get _) _ s (in_call_stack (m_interpreter s)) s) by done.
  destruct (last (in_call_stack (m_interpreter s))) as [caller|] eqn:Hl.
  - set (s1 := set_frame caller (set_call_stack (removelast (in_call_stack (m_interpreter s))) s)).
    rewrite (run_bind_ok (run_modify _) _ s tt s1) by done. transitivity s1.
    + split; [done|]. intros [Ho Hc]. split; [done|]. cbn. unfold len in *. rewrite removelast_length. lia.
    + by apply (keeps_bind round); [apply round_advance|intros []].
  - split; [done|]. intros [Ho Hc]. split; [|done]. by vm_compute.
Qed.
Lemma round_handle (resolver : Resolver) exit_code : keeps round (handle_exit overflow_checks resolver exit_code).
Proof.
  destruct exit_code; cbn [handle_exit]; [apply round_return| |]; (apply (keeps_bind round); [|intros _; apply (keeps_ret round)]).
  - unfold call. apply (keeps_bind round); [apply round_charge|intros _].
    apply (keeps_bind round); [apply (keeps_lift round)|intros func].
    apply (keeps_bind round); [apply round_charge|intros _]. apply round_enter.
  - unfold call_generic. apply (keeps_bind round); [apply (keeps_lift round)|intros arity].
    apply (keeps_bind round); [apply round_charge|intros _]. apply (keeps_bind round); [apply (keeps_get round)|intros frame].
    apply (keeps_bind round); [apply (keeps_map_err round), (keeps_lift round)|intros ty_args].
    apply (keeps_bind round); [apply (keeps_lift round)|intros func]. apply (keeps_bind round); [apply round_charge|intros _].
    apply round_enter.
Qed.

Lemma round_code (resolver : Resolver) fuel : keeps round (execute_code overflow_checks fuel resolver).
Proof.
  apply (keeps_map_err round). induction fuel as [|fuel IH]; [apply (keeps_ret round)|]. cbn [execute_code_impl].
  apply (keeps_bind round); [apply (keeps_get round)|intros frame]. apply (keeps_bind round); [apply (keeps_lift round)|intros instrs].
  apply (keeps_bind round); [|intros [exit_code|]; [apply (keeps_ret round)|]].
  - induction instrs as [|i instrs IHi]; [apply (keeps_ret round)|]. cbn [execute_block]. apply (keeps_bind round).
    + intros s. pose proof (execute_steps overflow_checks resolver i s) as H.
      destruct (execute_instruction _ _ i s) as [[[| |[]]| | |] s']; cbn in *; try by apply moved_round, quiet_moved.
      1,3-5: apply moved_round, quiet_moved, H. destruct H as (pc & _ & H). by apply moved_round, (jumped _ _ pc).
    + intros []; [|apply (keeps_ret round)..]. apply (keeps_bind round); [|intros _; apply IHi].
      intros s. pose proof (round_advance s) as H. unfold at_frame, map_err_in in H. by destruct (advance _ s).
  - apply (keeps_bind round); [apply (keeps_get round)|intros pc]. case_match; [apply (keeps_lift round)|apply IH].
Qed.
Lemma round_main fuel (loader : Loader) : keeps round (main_loop overflow_checks fuel loader).
Proof.
  induction fuel as [|fuel IH]; [apply (keeps_ret round)|]. cbn [main_loop].
  apply (keeps_bind round); [apply (keeps_get round)|intros frame]. apply (keeps_bind round); [apply (keeps_lift round)|intros resolver].
  apply (keeps_bind round); [apply (keeps_map_err round), round_code|intros [exit_code|]; [|apply (keeps_ret round)]].
  apply (keeps_bind round); [apply round_handle|intros [values|]; [apply (keeps_ret round)|apply IH]].
Qed.
(** The result of a call is what is left on the stack. *)
Lemma main_result fuel (loader : Loader) s values s' :
  bounded s → main_loop overflow_checks fuel loader s = (Ok (Some values), s') → len values <= OPERAND_STACK_SIZE_LIMIT.
Proof.
  revert s. induction fuel as [|fuel IH]; intros s Hs; [done|]. cbn [main_loop].
  rewrite (run_bind_ok (run_get _) _ s (m_frame s) s) by done. unfold mbind, Run_bind.
  pose proof (keeps_lift (E := VMError) round (map_err (λ e, finish e LUndefined) (get_resolver (fr_function (m_frame s)) loader)) s) as H1.
  unfold infallible. destruct (run_lift _ s) as [[resolver| | |] s1]; [|done..].
  pose proof (keeps_map_err round (λ _, maybe_core_dump) _ (round_code resolver (S fuel)) s1) as H2.
  destruct (map_err_in _ _ s1) as [[[exit_code|]| | |] s2]; [|done..]. cbn in H1, H2.
  assert (bounded s2) as Hb2 by (by apply H2, H1). clear H1 H2.
  pose proof (round_handle resolver exit_code s2) as H3. destruct (handle_exit _ _ _ s2) as [[[vs|]| | |] s3] eqn:Hex; try done.
  - intros [= <- <-]. destruct exit_code as [|fh|fi]; cbn [handle_exit] in Hex; unfold mbind, Run_bind in Hex.
    2,3: by repeat (case_match; try done).
    unfold return_ in Hex. rewrite (run_bind_ok (run_get _) _ s2 (m_frame s2) s2) in Hex by done.
    pose proof (keeps_map_err (DS := DS) (Native := Native) quiet set_location _ (quiet_heap (drop_pointers [fr_locals (m_frame s2)])) s2) as H4.
    change (quiet s2 (at_caller (on_heap (drop_pointers [fr_locals (m_frame s2)])) s2).2) in H4.
    destruct (at_caller _ s2) as [[[]| | |] s4] eqn:Hd; try (unfold mbind, Run_bind in Hex; rewrite Hd in Hex; done).
    rewrite (run_bind_ok _ _ _ _ _ Hd) in Hex. rewrite (run_bind_ok (run_get _) _ s4 (in_call_stack (m_interpreter s4)) s4) in Hex by done.
    destruct (last _) as [caller|].
    + unfold mbind, Run_bind in Hex. by repeat (case_match; try done).
    + injection Hex as <- _. apply H4, Hb2.
  - apply IH. by apply H3.
Qed.

(** ** Termination *)

(** Code that was deserialized has at most [BYTECODE_COUNT_MAX] instructions, and its
    instantiations have few type arguments. *)
Definition short (f : Function) : Prop := len (f_code f) <= BYTECODE_COUNT_MAX.
Definition few_type_args (inst : RFunctionInstantiation) : Prop := len (rfi_instantiation inst) <= BYTECODE_COUNT_MAX.
Record loader_ok (loader : Loader) : Prop := {
  lo_short : Forall short (mc_functions (l_module_cache loader));
  lo_modules : Forall (λ m, Forall few_type_args (lm_function_instantiations m)) (binaries (mc_modules (l_module_cache loader)));
  lo_scripts : Forall (λ s, Forall few_type_args (ls_function_instantiations s)) (binaries (l_scripts loader)) }.
Lemma cache_get_Forall {K V} `{Countable K} (P : V → Prop) (c : BinaryCache K V) k v :
  Forall P (binaries c) → cache_get c k = Some v → P v.
Proof. intros HP (i & _ & Hi)%bind_Some. rewrite Forall_lookup in HP. by eapply HP. Qed.
Lemma lo_arity loader f (resolver : Resolver) idx n :
  loader_ok loader → get_resolver f loader = Ok resolver → type_params_count resolver idx = Ok n → n < 2 ^ 32.
Proof.
  intros [_ Hm Hs] Hr (inst & Hi & [= <-])%bind_Ok.
  assert (∃ l, Forall few_type_args l ∧ at_ l idx = Some inst) as (l & Hl & Hat).
  { unfold resolver_function_instantiation, unwrap in Hi. unfold get_resolver in Hr.
    destruct (f_scope f); apply bind_Ok in Hr as (x & Hx & [= <-]); cbn in Hi; (destruct (at_ _ idx) as [i|] eqn:Hat; [|done]); injection Hi as <-;
      eexists; (split; [|exact Hat]); unfold unwrap in Hx; (destruct (_ : option _) as [y|] eqn:Hy in Hx; [|done]); injection Hx as <-.
    - unfold module_at in Hy. by eapply (cache_get_Forall _ _ _ _ Hm) in Hy.
    - by eapply (cache_get_Forall _ _ _ _ Hs) in Hy. }
  rewrite Forall_lookup in Hl. specialize (Hl _ _ Hat). unfold few_type_args, BYTECODE_COUNT_MAX in Hl. lia.
Qed.
Record frames_ok (s : Machine) : Prop := {
  fo_current : short (fr_function (m_frame s)) ∧ pc_of s <= len (current_code s);
  fo_calls : Forall (λ fr, short (fr_function fr) ∧ fr_pc fr < len (f_code (fr_function fr))) (in_call_stack (m_interpreter s)) }.
Lemma moved_frames s s' : moved s s' → pc_of s' <= len (current_code s) → frames_ok s → frames_ok s'.
Proof.
  intros Hm Hpc [[Hs _] Hc]. split; [|by rewrite (mv_calls _ _ Hm)]. rewrite (moved_code _ _ Hm). split; [|done]. by rewrite (mv_frame _ _ Hm).
Qed.
(** A call may be entered: its counter is at an instruction. *)
Definition at_call (s : Machine) : Prop := pc_of s < len (current_code s).
Lemma quiet_at_call s s' : quiet s s' → at_call s → at_call s'.
Proof. unfold at_call, pc_of, current_code. by intros [-> _ _ _]. Qed.
Lemma quiet_frames s s' : quiet s s' → frames_ok s → frames_ok s'.
Proof. intros H Hf. eapply moved_frames; [by apply quiet_moved| |done]. rewrite (quiet_pc _ _ H). apply Hf. Qed.
Lemma advance_frames s s' :
  frames_ok s → at_call s → at_frame (advance overflow_checks) s = (Ok tt, s') → frames_ok s'.
Proof.
  intros Hf Hc. destruct (advance_spec overflow_checks s) as (s1 & Ha & Hm & Hpc).
  { destruct Hf as [[Hs _] _]. unfold at_call, short, current_code, BYTECODE_COUNT_MAX, u16_MAX in *. lia. }
  unfold at_frame, map_err_in. rewrite Ha. intros [= <-]. eapply moved_frames; [done| |done]. rewrite Hpc. unfold at_call in Hc. lia.
Qed.

(** What is needed after a call has been charged *)
Definition leaves {E A} (m : M E A) : Prop := ∀ s a s', frames_ok s → at_call s → m s = (Ok a, s') → frames_ok s'.
Definition rests {E A} (m : M E A) : Prop := ∀ s a s', frames_ok s → at_call s → m s = (Ok a, s') → frames_ok s' ∧ at_call s'.
Lemma quiet_rests {E A} (m : M E A) : keeps quiet m → rests m.
Proof. intros H s a s' Hf Hc Hm. specialize (H s). rewrite Hm in H. split; [by eapply quiet_frames|by eapply quiet_at_call]. Qed.
Lemma rests_bind {E A B} (m : M E A) (k : A → M E B) : rests m → (∀ a, leaves (k a)) → leaves (m ≫= k).
Proof.
  intros Hm Hk s b s' Hf Hc. unfold mbind, Run_bind. destruct (m s) as [[a| | |] s1] eqn:Hs; [|done..].
  destruct (Hm _ _ _ Hf Hc Hs). by apply Hk.
Qed.
Lemma leaves_enter (resolver : Resolver) func ty_args : short func → leaves (enter_function overflow_checks resolver func ty_args).
Proof.
  intros Hshort. unfold enter_function. case_match.
  - apply rests_bind; [apply quiet_rests, quiet_call_native|]. intros _ s [] s' Hf Hc. by apply advance_frames.
  - intros s [] s' Hf Hc. unfold mbind, Run_bind. destruct (map_err_in _ _ s) as [[frame| | |] s1] eqn:Hm; [|done..].
    assert (make_call_frame func ty_args s = (Ok frame, s1)) as Hfr.
    { unfold map_err_in in Hm. destruct (make_call_frame func ty_args s) as [[] ?]; cbn in Hm; congruence. }
    pose proof (quiet_make_call_frame func ty_args s) as Hq. rewrite Hfr in Hq. cbn in Hq.
    apply make_call_frame_frame in Hfr as [Hfn Hpc]. pose proof (quiet_frames _ _ Hq Hf) as [[Hs1 _] Hcs].
    pose proof (quiet_at_call _ _ Hq Hc) as Hc1. unfold push_frame. destruct (call_stack_push _ _) as [calls|] eqn:Hp; [|done].
    intros [= <-]. unfold call_stack_push in Hp. case_match; [|done]. injection Hp as <-. split; cbn.
    + unfold pc_of, current_code. cbn. rewrite Hfn, Hpc. split; [done|lia].
    + apply Forall_app. split; [done|]. by constructor.
Qed.

Context (loader : Loader) (Hloader : loader_ok loader).
Lemma loaded_function (idx : N) func : function_at (l_module_cache loader) idx = Ok func → short func.
Proof.
  unfold function_at, unwrap. destruct (at_ _ idx) eqn:H; [|done]. intros [= <-]. pose proof (lo_short _ Hloader) as Hs.
  rewrite Forall_lookup in Hs. by eapply Hs.
Qed.
Lemma resolver_loader (f : Function) resolver : get_resolver f loader = Ok resolver → r_loader resolver = loader.
Proof.
  unfold get_resolver. destruct (f_scope f); intros (x & _ & Hx)%bind_Ok; by injection Hx as <-.
Qed.
Lemma lift_rests {E A} (r : result E A) : rests (run_lift r : M E A).
Proof. apply quiet_rests, (keeps_lift quiet). Qed.
Lemma charge_rests opcode size : rests (at_frame (charge_instr_with_size overflow_checks opcode size)).
Proof. apply quiet_rests, (keeps_map_err quiet), quiet_charge_size. Qed.
Lemma lift_leaves {E A B} (r : result E A) (k : A → M E B) : (∀ a, r = Ok a → leaves (k a)) → leaves (run_lift r ≫= k).
Proof. intros Hk s b s' Hf Hc. unfold mbind, Run_bind, run_lift. destruct r; [|done..]. by apply Hk. Qed.

Lemma call_leaves (resolver : Resolver) fh_idx : r_loader resolver = loader → leaves (call overflow_checks resolver fh_idx).
Proof.
  intros Hr. unfold call, infallible. apply rests_bind; [apply charge_rests|intros _]. apply lift_leaves. intros func Hfunc%map_err_Ok.
  apply rests_bind; [apply charge_rests|intros _]. apply leaves_enter.
  apply bind_Ok in Hfunc as (idx & _ & Hfunc). rewrite Hr in Hfunc. by eapply loaded_function.
Qed.
Lemma call_generic_leaves (resolver : Resolver) idx : r_loader resolver = loader → leaves (call_generic overflow_checks resolver idx).
Proof.
  intros Hr. unfold call_generic, infallible. apply lift_leaves. intros arity _.
  apply rests_bind; [apply charge_rests|intros _]. apply rests_bind; [apply quiet_rests, (keeps_get quiet)|intros frame].
  apply rests_bind; [apply quiet_rests, (keeps_map_err quiet), (keeps_lift quiet)|intros ty_args].
  apply lift_leaves. intros func Hfunc%map_err_Ok. apply rests_bind; [apply charge_rests|intros _]. apply leaves_enter.
  apply bind_Ok in Hfunc as (inst & _ & Hfunc). rewrite Hr in Hfunc. by eapply loaded_function.
Qed.
Lemma return_leaves s a s' : frames_ok s → return_ overflow_checks s = (Ok a, s') → a = None → frames_ok s'.
Proof.
  intros Hf. unfold return_. rewrite (run_bind_ok (run_get _) _ s (m_frame s) s) by done.
  pose proof (keeps_map_err (DS := DS) (Native := Native) quiet set_location _ (quiet_heap (drop_pointers [fr_locals (m_frame s)])) s) as Hq.
  change (quiet s (at_caller (on_heap (drop_pointers [fr_locals (m_frame s)])) s).2) in Hq.
  destruct (at_caller _ s) as [[[]| | |] s1] eqn:Hd; try (unfold mbind, Run_bind; rewrite Hd; done).
  rewrite (run_bind_ok _ _ _ _ _ Hd), (run_bind_ok (run_get _) _ s1 (in_call_stack (m_interpreter s1)) s1) by done.
  cbn in Hq. pose proof (quiet_frames _ _ Hq Hf) as [_ Hcs]. destruct (last _) as [caller|] eqn:Hl; [|by intros [= <- _]].
  set (s2 := set_frame caller (set_call_stack (removelast (in_call_stack (m_interpreter s1))) s1)).
  rewrite (run_bind_ok (run_modify _) _ s1 tt s2) by done.
  destruct (at_frame (advance overflow_checks) s2) as [[[]| | |] s3] eqn:Ha; try (unfold mbind, Run_bind; rewrite Ha; done).
  rewrite (run_bind_ok _ _ _ _ _ Ha). intros [= <- <-] _. apply last_Some in Hl as [calls Hl]. rewrite Hl in Hcs.
  apply Forall_app in Hcs as [Hcs Hcaller]. apply Forall_singleton in Hcaller as [H1 H2].
  eapply advance_frames; [| |exact Ha].
  - split; cbn; [split; [done|unfold pc_of, current_code; cbn; lia]|]. rewrite Hl. rewrite removelast_app by done. cbn. by rewrite app_nil_r.
  - done.
Qed.

Lemma spends_then {E A B} (m : M E A) (k : A → M E B) s b s' :
  (∀ a s1, m s = (Ok a, s1) → spends s s1) → (∀ a, keeps round (k a)) → (m ≫= k) s = (Ok b, s') → spends s s'.
Proof.
  intros Hm Hk. unfold mbind, Run_bind. destruct (m s) as [[a| | |] s1]; [|done..]. intros H. specialize (Hm a s1 eq_refl).
  pose proof (gu_left _ _ (ro_gas _ _ (Hk a s1))) as Hu. rewrite H in Hu. cbn in Hu. unfold spends in *. lia.
Qed.
Lemma round_call_tail (resolver : Resolver) opcode (r : result VMError Function) ty_args :
  keeps round (func ← run_lift r; _ ← at_frame (charge_instr_with_size overflow_checks opcode (arg_count func));
               enter_function overflow_checks resolver func ty_args).
Proof.
  apply (keeps_bind round); [apply (keeps_lift round)|intros f]. apply (keeps_bind round); [apply round_charge|intros _]. apply round_enter.
Qed.

(** What a round of the main loop does: it keeps the frames and spends gas. *)
Lemma handle_exit_spec (f : Function) (resolver : Resolver) exit_code s :
  get_resolver f loader = Ok resolver → metered_machine s → frames_ok s → (exit_code ≠ Return → at_call s) →
  ∀ s', handle_exit overflow_checks resolver exit_code s = (Ok None, s') → frames_ok s' ∧ (exit_code = Return ∨ spends s s').
Proof.
  intros Hr Hm Hf Hc s' Hex. pose proof (resolver_loader _ _ Hr) as Hl.
  assert (Hspend : ∀ opcode size s1 s2, size <= 2 ^ 32 → quiet s s1 →
    at_frame (charge_instr_with_size overflow_checks opcode size) s1 = (Ok tt, s2) → spends s s2).
  { intros opcode size s1 s2 Hsz Hq Hch. unfold at_frame, map_err_in in Hch.
    destruct (charge_instr_with_size overflow_checks opcode size s1) as [[[]| | |] s3] eqn:H; try done. injection Hch as <-.
    eapply spends_quiet_l; [exact Hq|]. eapply vm_charge_size_spends; [by eapply quiet_metered|exact Hsz|exact H]. }
  destruct exit_code as [|fh_idx|idx]; cbn [handle_exit] in Hex.
  - split; [by eapply return_leaves|by left].
  - unfold mbind at 1, Run_bind at 1 in Hex. destruct (call _ _ _ s) as [[[]| | |] s1] eqn:Hcall; try done. injection Hex as <-.
    split; [by eapply call_leaves; [exact Hl|exact Hf|by apply Hc|exact Hcall]|right].
    unfold call in Hcall. eapply spends_then; [| |exact Hcall].
    + intros [] s2 Hch. eapply (Hspend _ 1 s); [by vm_compute|done|exact Hch].
    + intros []. apply round_call_tail.
  - unfold mbind at 1, Run_bind at 1 in Hex. destruct (call_generic _ _ _ s) as [[[]| | |] s1] eqn:Hcall; try done. injection Hex as <-.
    split; [by eapply call_generic_leaves; [exact Hl|exact Hf|by apply Hc|exact Hcall]|right].
    unfold call_generic, infallible in Hcall. destruct (type_params_count resolver idx) as [arity| | |] eqn:Har; try done.
    rewrite (run_bind_ok (run_lift _) _ s arity s) in Hcall by done. eapply spends_then; [| |exact Hcall].
    + intros [] s2 Hch. eapply (Hspend _ _ s); [|done|exact Hch]. pose proof (lo_arity _ f resolver idx arity Hloader Hr Har). lia.
    + intros []. apply (keeps_bind round); [apply (keeps_get round)|intros frame].
      apply (keeps_bind round); [apply (keeps_map_err round), (keeps_lift round)|intros ty_args]. apply round_call_tail.
Qed.

Lemma main_loop_ends fuel s :
  metered_machine s → frames_ok s → gas_left (c_gas (m_context s)) < N.of_nat fuel →
  (main_loop overflow_checks fuel loader s).1 ≠ Ok None.
Proof.
  revert s. induction fuel as [|fuel IH]; intros s Hm Hf Hg; [lia|]. cbn [main_loop].
  rewrite (run_bind_ok (run_get _) _ s (m_frame s) s) by done. unfold infallible.
  destruct (get_resolver (fr_function (m_frame s)) loader) as [resolver| | |] eqn:Hr; try done.
  rewrite (run_bind_ok (run_lift _) _ s resolver s) by done.
  destruct Hf as [[Hshort Hpc] Hcs].
  pose proof (execute_code_spec overflow_checks resolver (S fuel) s Hshort Hpc) as Hex.
  unfold execute_code, mbind, Run_bind, map_err_in.
  destruct (execute_code_impl overflow_checks resolver (S fuel) s) as [r s1]. destruct Hex as (Hmv & _ & Hend & Hret & Hfuel).
  destruct r as [[exit_code|]| | |]; cbn; try done; [|by specialize (Hfuel eq_refl Hm); lia].
  assert (at_ (current_code s1) (pc_of s1) = Some (exit_instr exit_code)) as Hat.
  { destruct Hend as [(_ & _ & He)|[? _]]; [|done]. by rewrite (moved_code _ _ Hmv). }
  assert (at_call s1) as Hcall by (apply lookup_lt_Some in Hat; unfold at_call, len; lia).
  assert (metered_machine s1) as Hm1 by (eapply metered_used; [apply Hmv|done]).
  assert (frames_ok s1) as Hf1.
  { eapply moved_frames; [done| |by split]. unfold at_call in Hcall. rewrite (moved_code _ _ Hmv) in Hcall. lia. }
  pose proof (handle_exit_spec (fr_function (m_frame s)) resolver exit_code s1 Hr Hm1 Hf1 (λ _, Hcall)) as Hh.
  pose proof (round_handle resolver exit_code s1) as Hro.
  destruct (handle_exit overflow_checks resolver exit_code s1) as [[[values|]| | |] s2]; try done. cbn in Hro.
  destruct (Hh s2 eq_refl) as [Hf2 Hsp]. apply IH; [eapply metered_used; [apply Hro|done]|done|].
  pose proof (gu_left _ _ (mv_gas _ _ Hmv)). pose proof (gu_left _ _ (ro_gas _ _ Hro)).
  destruct Hsp as [->|Hsp]; [specialize (Hret eq_refl Hm)|]; unfold spends in *; lia.
Qed.

(** A run that ends does not depend on the fuel. *)
Lemma execute_code_mono (resolver : Resolver) fuel fuel' s :
  (fuel <= fuel')%nat → (execute_code_impl overflow_checks resolver fuel s).1 ≠ Ok None →
  execute_code_impl overflow_checks resolver fuel' s = execute_code_impl overflow_checks resolver fuel s.
Proof.
  revert fuel' s. induction fuel as [|fuel IH]; intros [|fuel'] s Hle; [done..|lia|]. cbn [execute_code_impl].
  unfold mbind, Run_bind, run_get.
  destruct (run_lift _ s) as [[instrs| | |] s1]; [|done..]. destruct (execute_block _ _ instrs s1) as [[[e|]| | |] s2]; [done| |done..].
  case_match; [done|]. apply IH. lia.
Qed.
Lemma main_loop_mono fuel fuel' s :
  (fuel <= fuel')%nat → (main_loop overflow_checks fuel loader s).1 ≠ Ok None →
  main_loop overflow_checks fuel' loader s = main_loop overflow_checks fuel loader s.
Proof.
  revert fuel' s. induction fuel as [|fuel IH]; intros [|fuel'] s Hle; [done..|lia|]. cbn [main_loop].
  unfold mbind, Run_bind, run_get. destruct (infallible _ s) as [[resolver| | |] s1]; [|done..]. unfold execute_code, map_err_in.
  destruct (execute_code_impl overflow_checks resolver (S fuel) s1) as [r1 s2] eqn:Hc. intros H.
  rewrite (execute_code_mono resolver (S fuel) (S fuel') s1 Hle) by (rewrite Hc; cbn; intros ->; by apply H). rewrite Hc. clear Hc.
  destruct r1 as [[e|]| | |]; cbn in *; try done. destruct (handle_exit _ _ _ s2) as [[[vs|]| | |] s3]; try done. apply IH; [lia|done].
Qed.
End Metering.
