(* ===== verification/Runs.v ===== *)
(** * Runs: executions from the entry point

    What an execution of [Interpreter.entrypoint] promises whatever the code does, and
    small programs run by the model. *)

From S2P Require Import Prelude CoreTypes VmStatus Abilities FileFormat Errors BinaryCommon Views StackUsage ControlFlowGraph ControlFlow RuntimeTypes Integers Heap Values Vectors GlobalValues ValueCodec Gas Machine LoadedCode Interpreter Execution.

Section Runs.
Context {DS Native : Type} `{!DataStore DS, !NativeCalls DS Native} (overflow_checks : bool).

Lemma initial_gas {A} (m : HeapM A) ctx r ctx' :
  run_map_err (λ e, finish e LUndefined) (context_heap (DS := DS) m) ctx = (r, ctx') → c_gas ctx' = c_gas ctx.
Proof. unfold run_map_err, context_heap. destruct (m _) as [[]| | |]; intros [= _ <-]; done. Qed.

(** C4. Metering ends every execution: whatever the code, the native functions and the
    data store do, an execution under a schedule that charges each instruction has one
    outcome, which the loops of the interpreter reach with any fuel above the gas. *)
Theorem execution_terminates (loader : Loader Native) (function : Function Native) (ty_args : list RuntimeType.Type_)
    (args : list ValueImpl) (ctx : Context DS) :
  metered (c_gas ctx) → loader_ok loader → short function →
  ∃ r ctx', r ≠ Ok None ∧ ∀ fuel, gas_left (c_gas ctx) < N.of_nat fuel →
    entrypoint overflow_checks fuel function ty_args args loader ctx = (r, ctx').
Proof.
  intros Hm Hl Hf. unfold entrypoint, execute_main.
  destruct (run_map_err _ _ ctx) as [r0 ctx0] eqn:H0. pose proof (initial_gas _ _ _ _ H0) as Hg.
  destruct r0 as [locals| | |]; [|eexists _, ctx0; (split; [|intros; reflexivity]); done..].
  set (s := {| m_interpreter := Interpreter_new; m_frame := Frame_new function ty_args locals; m_context := ctx0 |}).
  set (n := S (N.to_nat (gas_left (c_gas ctx)))).
  assert (Hend : (main_loop overflow_checks n loader s).1 ≠ Ok None).
  { apply main_loop_ends; [done|unfold metered_machine; cbn; by rewrite Hg| |cbn; rewrite Hg; lia].
    split; cbn; [split; [done|unfold pc_of, current_code; cbn; lia]|done]. }
  destruct (main_loop overflow_checks n loader s) as [r s'] eqn:Hr. exists r, (m_context s'). split; [done|].
  intros fuel Hfuel. rewrite (main_loop_mono overflow_checks loader n fuel s), Hr; [done|lia|by rewrite Hr].
Qed.

(** C21. No execution gives gas back or changes the schedule, and neither stack ever grows
    past its limit of 1024: not in the machine, and not in the values it returns. *)
Theorem execution_limits (loader : Loader Native) (fuel : nat) :
  (∀ s, let s' := (main_loop overflow_checks fuel loader s).2 in
    gas_used (c_gas (m_context s)) (c_gas (m_context s')) ∧ (bounded s → bounded s')) ∧
  ∀ function ty_args args (ctx : Context DS),
    let '(r, ctx') := entrypoint overflow_checks fuel function ty_args args loader ctx in
    gas_used (c_gas ctx) (c_gas ctx') ∧ ∀ values, r = Ok (Some values) → len values <= 1024.
Proof.
  split; [intros s; split; apply (round_main overflow_checks fuel loader s)|]. intros function ty_args args ctx.
  unfold entrypoint, execute_main. destruct (run_map_err _ _ ctx) as [r0 ctx0] eqn:H0. pose proof (initial_gas _ _ _ _ H0) as Hg.
  destruct r0 as [locals| | |]; [|by split; [rewrite Hg|]..].
  set (s := {| m_interpreter := Interpreter_new; m_frame := Frame_new function ty_args locals; m_context := ctx0 |}).
  pose proof (ro_gas _ _ (round_main overflow_checks fuel loader s)) as Hu.
  destruct (main_loop overflow_checks fuel loader s) as [r s'] eqn:Hr. split; [by rewrite <- Hg|].
  intros values ->. eapply main_result; [|exact Hr]. by split; vm_compute.
Qed.

(** C20. In code whose control flow was accepted and whose branches were checked, the
    counter never leaves the code: execution walks along the edges of the code, every exit
    is at the instruction that asks for it and every error at an instruction, so that the
    end of the code is never run into. *)
Theorem verified_code_counter f unit (resolver : Resolver Native) (fuel : nat) (s : Machine DS Native) :
  ControlFlow.verify f unit = Ok tt → branches_in_bounds (cu_code unit) → len (cu_code unit) <= u16_MAX →
  current_code s = cu_code unit → pc_of s < len (cu_code unit) →
  let '(r, s') := execute_code_impl overflow_checks resolver fuel s in
  code_ends s r s' ∧ pc_of s' < len (cu_code unit).
Proof.
  intros Hv Hb Hlen Hc Hpc. pose proof (execute_code_spec overflow_checks resolver fuel s) as H. rewrite Hc in H.
  specialize (H Hlen ltac:(lia)). destruct (execute_code_impl _ _ _ s) as [r s']. destruct H as (Hm & Hw & He & _).
  pose proof (walks_in_code f unit _ _ Hv Hb Hpc Hw) as Hlt. split; [|done]. destruct He as [He|[_ Hge]]; [done|lia].
Qed.
End Runs.

(** ** Programs *)

Module Programs.
Import Bytecode.

(** A host without storage and without native functions *)
Definition Store : Set := unit.
#[global] Instance store : DataStore Store :=
  {| load_resource _ _ := run_lift (Err (PartialVMError_new MISSING_DATA)); store_resource _ _ _ d := d |}.
#[global] Instance natives : NativeCalls Store Empty_set := λ f, match f with end.

(** A module whose only function takes and returns an integer *)
Definition module_of (code : list Bytecode) : CompiledModule := {|
  m_version := VERSION_MAX; m_self_module_handle_idx := 0;
  m_module_handles := [ {| mh_address := 0; mh_name := 0 |} ]; m_struct_handles := [];
  m_function_handles := [ {| fh_module := 0; fh_name := 0; fh_parameters := 0; fh_return := 0; fh_type_parameters := [] |} ];
  m_field_handles := []; m_friend_decls := []; m_struct_def_instantiations := []; m_function_instantiations := [];
  m_field_instantiations := []; m_signatures := [ [SignatureToken.U64]; [] ];
  m_identifiers := [ [97] ]; m_address_identifiers := [ ZERO ]; m_constant_pool := []; m_struct_defs := [];
  m_function_defs := [ {| fdef_function := 0; fdef_visibility := Public; fdef_acquires_global_resources := [];
                          fdef_code := Some {| cu_locals := 1; cu_code := code |} |} ] |}.
Definition module_name : ModuleId := {| mid_address := ZERO; mid_name := [97] |}.
Definition cache_of (code : list Bytecode) : ModuleCache Empty_set :=
  (insert (Native := Empty_set) ∅ module_name (module_of code) ModuleCache_new).2.
Definition loader_of (code : list Bytecode) : Loader Empty_set :=
  {| l_scripts := cache_new; l_module_cache := cache_of code; l_natives := ∅ |}.

(** The sum of the numbers up to the argument, by recursion; a loop without end; and a
    recursion without end *)
Definition sum : list Bytecode :=
  [CopyLoc 0; LdU64 0; Eq; BrFalse 6; LdU64 0; Ret;
   CopyLoc 0; CopyLoc 0; LdU64 1; Sub; Call 0; Add; Ret].
Definition endless : list Bytecode := [Branch 0].
Definition bottomless : list Bytecode := [MoveLoc 0; Call 0; Ret].

Definition status_of (gas : N) : GasStatus :=
  match INITIAL_GAS_SCHEDULE (E := PartialVMError) false with
  | Ok table => {| cost_table := table; gas_left := gas; charge := true |}
  | _ => {| cost_table := {| instruction_table := []; native_table := []; gas_constants := GasConstants_default |};
            gas_left := 0; charge := false |}
  end.
Definition context_of (gas : N) : Context Store :=
  {| c_heap := empty_heap; c_store := tt; c_gas := status_of gas |}.
Definition run (code : list Bytecode) (gas argument : N) : result VMError (option (list ValueImpl)) * N :=
  match mc_functions (cache_of code) with
  | function :: _ =>
      let '(r, ctx) := entrypoint true 5000 function [] [VU64 argument] (loader_of code) (context_of gas) in
      (r, gas_left (c_gas ctx))
  | [] => (Panic, 0)
  end.

(** The gas that a run leaves, and where an error arises *)
Definition outcome (r : result VMError (option (list ValueImpl))) : StatusCode * list (FunctionDefinitionIndex * CodeOffset) :=
  match r with Err e => (ve_major_status e, ve_offsets e) | _ => (EXECUTED, []) end.
Example programs_run :
  run sum 100000 4 = (Ok (Some [VU64 10]), 86959) ∧
  outcome (run sum 10000 4).1 = (OUT_OF_GAS, [(0, 5)]) ∧
  outcome (run endless 1000 4).1 = (OUT_OF_GAS, [(0, 0)]) ∧
  outcome (run bottomless 10000000 4).1 = (CALL_STACK_OVERFLOW, [(0, 1)]).
Proof. by vm_compute. Qed.
End Programs.

Lemma endless_ok : loader_ok (Programs.loader_of Programs.endless).
Proof. split; unfold short, few_type_args; apply (bool_decide_unpack _); vm_compute; exact I. Qed.
Lemma status_metered gas : metered (Programs.status_of gas).
Proof.
  destruct (initial_schedule_ok false) as (t & Ht & _ & Hp). unfold Programs.status_of. rewrite Ht. by split.
Qed.

Lemma execution_terminates_witness :
  ∃ f r ctx', mc_functions (Programs.cache_of Programs.endless) = [f] ∧ r ≠ Ok None ∧
    ∀ fuel, 1000 < N.of_nat fuel →
      entrypoint true fuel f [] [VU64 4] (Programs.loader_of Programs.endless) (Programs.context_of 1000) = (r, ctx').
Proof.
  destruct (mc_functions (Programs.cache_of Programs.endless)) as [|f [|]] eqn:Hf; [discriminate| |discriminate].
  destruct (execution_terminates true (Programs.loader_of Programs.endless) f [] [VU64 4] (Programs.context_of 1000))
    as (r & ctx' & Hr & Hend); [apply status_metered|exact endless_ok| |].
  - vm_compute in Hf. injection Hf as <-. by vm_compute.
  - exists f, r, ctx'. split_and!; [reflexivity|exact Hr|exact Hend].
Defined.

Lemma verified_code_counter_witness :
  ∃ (resolver : Resolver Empty_set) (s : Machine Programs.Store Empty_set),
    let '(r, s') := execute_code_impl true resolver 10 s in
    code_ends s r s' ∧ pc_of s' < len Programs.sum.
Proof.
  destruct (mc_functions (Programs.cache_of Programs.sum)) as [|f [|]] eqn:Hf; [discriminate| |discriminate].
  destruct (get_resolver f (Programs.loader_of Programs.sum)) as [resolver| | |] eqn:Hr;
    [|vm_compute in Hf; injection Hf as <-; vm_compute in Hr; discriminate..].
  set (s := {| m_interpreter := Interpreter_new; m_frame := Frame_new f [] 0; m_context := Programs.context_of 1000 |}).
  exists resolver, s. apply (verified_code_counter true None {| cu_locals := 1; cu_code := Programs.sum |}).
  - by vm_compute.
  - repeat constructor; intros ? [= <-]; by vm_compute.
  - by vm_compute.
  - vm_compute in Hf. injection Hf as <-. reflexivity.
  - by vm_compute.
Defined.
