(* ===== verification/Effects.v ===== *)
(** * Effects: type tags, and the changes that a session leaves

    Models the tags of [language/move-core/types/src/language_storage.rs] and the change
    sets of [move-core/types/src/effects.rs].  A [BTreeMap] is a finite map: its order only
    decides which of several errors comes first. *)

From S2P Require Import Prelude CoreTypes VmStatus CyclicDependencies.

(** ** Tags *)

(** [enum TypeTag] and [struct StructTag]; the tag of a struct is written out. *)
Inductive TypeTag : Set :=
| TagBool | TagU8 | TagU64 | TagU128 | TagAddress | TagSigner
| TagVector (t : TypeTag)
| TagStruct (address : AccountAddress) (module name : Identifier) (type_params : list TypeTag).
Record StructTag : Set := {
  stg_address : AccountAddress; stg_module : Identifier; stg_name : Identifier; stg_type_params : list TypeTag }.
Definition struct_tag (self : StructTag) : TypeTag :=
  TagStruct (stg_address self) (stg_module self) (stg_name self) (stg_type_params self).
Definition tag_module_id (self : StructTag) : ModuleId := {| mid_address := stg_address self; mid_name := stg_module self |}.

Section TagInduction.
Context (P : TypeTag → Prop).
Context (HBool : P TagBool) (HU8 : P TagU8) (HU64 : P TagU64) (HU128 : P TagU128) (HAddress : P TagAddress) (HSigner : P TagSigner)
  (HVector : ∀ t, P t → P (TagVector t)) (HStruct : ∀ a m n ts, Forall P ts → P (TagStruct a m n ts)).
Fixpoint tag_ind (t : TypeTag) : P t :=
  match t with
  | TagBool => HBool | TagU8 => HU8 | TagU64 => HU64 | TagU128 => HU128 | TagAddress => HAddress | TagSigner => HSigner
  | TagVector t => HVector t (tag_ind t)
  | TagStruct a m n ts => HStruct a m n ts (list_ind (Forall P) (Forall_nil_2 P) (λ x l, Forall_cons_2 P x l (tag_ind x)) ts)
  end.
End TagInduction.

(** Tags are countable: keys of maps. *)
Fixpoint encode_tag (t : TypeTag) : gen_tree (list (list N)) :=
  match t with
  | TagBool => GenNode 0 [] | TagU8 => GenNode 1 [] | TagU64 => GenNode 2 [] | TagU128 => GenNode 3 []
  | TagAddress => GenNode 4 [] | TagSigner => GenNode 5 []
  | TagVector t => GenNode 6 [encode_tag t]
  | TagStruct a m n ts => GenNode 7 (GenLeaf [a; m; n] :: (encode_tag <$> ts))
  end.
Fixpoint decode_tag (t : gen_tree (list (list N))) : TypeTag :=
  match t with
  | GenNode 0 [] => TagBool | GenNode 1 [] => TagU8 | GenNode 2 [] => TagU64 | GenNode 3 [] => TagU128
  | GenNode 4 [] => TagAddress | GenNode 5 [] => TagSigner
  | GenNode 6 [t] => TagVector (decode_tag t)
  | GenNode 7 (GenLeaf [a; m; n] :: ts) => TagStruct a m n (decode_tag <$> ts)
  | _ => TagBool
  end.
Lemma decode_encode_tag t : decode_tag (encode_tag t) = t.
Proof.
  induction t as [| | | | | |t IH|a m n ts IH] using tag_ind; try done; cbn; [by rewrite IH|]. f_equal.
  induction IH as [|t ts Ht _ IH]; [done|]. cbn. by rewrite Ht, IH.
Qed.
Lemma encode_tag_inj t u : encode_tag t = encode_tag u → t = u.
Proof. intros H. by rewrite <- (decode_encode_tag t), H, decode_encode_tag. Qed.
#[export] Instance TypeTag_eq_dec : EqDecision TypeTag.
Proof. intros t u. destruct (decide (encode_tag t = encode_tag u)) as [H|H]; [left; by apply encode_tag_inj|right; by intros ->]. Defined.
#[export] Instance TypeTag_countable : Countable TypeTag := inj_countable' encode_tag decode_tag decode_encode_tag.
#[export] Instance StructTag_eq_dec : EqDecision StructTag.
Proof. solve_decision. Defined.
#[export] Program Instance StructTag_countable : Countable StructTag :=
  inj_countable' (λ s, (stg_address s, stg_module s, stg_name s, stg_type_params s))
    (λ p, {| stg_address := p.1.1.1; stg_module := p.1.1.2; stg_name := p.1.2; stg_type_params := p.2 |}) _.
Next Obligation. by intros []. Qed.

(** ** Changes of one map *)

(** The messages of [anyhow] errors *)
Inductive EffectsError : Set :=
| ModulePublished | ModuleUnpublished | ResourcePublished | ResourceUnpublished.

Section Changes.
Context {K V : Type} `{Countable K}.
(** New values, and [None] for what is deleted *)
Notation Changes := (gmap K (option V)).
Definition publish_checked (k : K) (v : V) (err : EffectsError) : Run Changes EffectsError unit := λ map,
  match map !! k with
  | Some (Some _) => (Err err, map)
  | _ => (Ok tt, <[ k := Some v ]> map)
  end.
Definition unpublish_checked (k : K) (err : EffectsError) : Run Changes EffectsError unit := λ map,
  match map !! k with
  | Some None => (Err err, map)
  | _ => (Ok tt, <[ k := None ]> map)
  end.
(** A loop of [AccountChangeSet::squash] *)
Definition squash_change (published unpublished : EffectsError) (change : K * option V) : Run Changes EffectsError unit :=
  match change.2 with
  | Some blob => publish_checked change.1 blob published
  | None => unpublish_checked change.1 unpublished
  end.
Definition squash_changes (published unpublished : EffectsError) (other : Changes) : Run Changes EffectsError unit :=
  run_each (squash_change published unpublished) (map_to_list other).

(** What changes do to a store *)
Definition change (new : option (option V)) (old : option V) : option V := match new with Some v => v | None => old end.
Definition apply (changes : Changes) (store : gmap K V) : gmap K V := merge change changes store.
Lemma lookup_apply changes store k : apply changes store !! k = change (changes !! k) (store !! k).
Proof. unfold apply. rewrite lookup_merge. by destruct (changes !! k), (store !! k). Qed.

(** Both publish or both delete the same. *)
Definition conflict (new old : option V) : bool :=
  match new, old with Some _, Some _ | None, None => true | _, _ => false end.
Definition conflicting (self other : Changes) : Prop := ∃ k new old, self !! k = Some old ∧ other !! k = Some new ∧ conflict new old.

Lemma squash_change_spec published unpublished k new (self : Changes) :
  squash_change published unpublished (k, new) self =
  match self !! k with
  | Some old => if conflict new old then (Err (if new then published else unpublished), self) else (Ok tt, <[ k := new ]> self)
  | None => (Ok tt, <[ k := new ]> self)
  end.
Proof.
  unfold squash_change, publish_checked, unpublish_checked. cbn. by destruct new, (self !! k) as [[]|].
Qed.
Lemma squash_list_spec published unpublished (l : list (K * option V)) (self : Changes) : NoDup l.*1 →
  match run_each (squash_change published unpublished) l self with
  | (Ok _, self') => self' = list_to_map l ∪ self ∧ ¬ conflicting self (list_to_map l)
  | (Err e, _) => conflicting self (list_to_map l) ∧ (e = published ∨ e = unpublished)
  | _ => False
  end.
Proof.
  revert self. induction l as [|[k new] l IH]; intros self Hnd; cbn.
  { split; [by rewrite map_empty_union|]. intros (k & new & old & _ & Hn & _). by apply lookup_empty_Some in Hn. }
  cbn in Hnd. apply NoDup_cons in Hnd as [Hk Hnd]. unfold mbind, Run_bind. rewrite squash_change_spec.
  assert (Hgo : (∀ old, self !! k = Some old → ¬ conflict new old) →
    match run_each (squash_change published unpublished) l (<[ k := new ]> self) with
    | (Ok _, self') => self' = <[ k := new ]> (list_to_map l) ∪ self ∧ ¬ conflicting self (<[ k := new ]> (list_to_map l))
    | (Err e, _) => conflicting self (<[ k := new ]> (list_to_map l)) ∧ (e = published ∨ e = unpublished)
    | _ => False
    end).
  { intros Hold. specialize (IH (<[ k := new ]> self) Hnd).
    assert (Hc : conflicting (<[ k := new ]> self) (list_to_map l) ↔ conflicting self (<[ k := new ]> (list_to_map l))).
    { split; intros (k' & n & o & Ho & Hn & Hb).
      - destruct (decide (k' = k)) as [->|Hne].
        + apply elem_of_list_to_map_2 in Hn. destruct Hk. apply list_elem_of_fmap. by exists (k, n).
        + exists k', n, o. rewrite lookup_insert_ne in Ho |- * by done. done.
      - destruct (decide (k' = k)) as [->|Hne].
        + rewrite lookup_insert_eq in Hn. injection Hn as <-. by destruct (Hold o).
        + exists k', n, o. rewrite lookup_insert_ne in Hn |- * by done. done. }
    destruct (run_each _ l _) as [[[]|e| |] self']; [|by rewrite <- Hc|done..]. rewrite <- Hc. destruct IH as [-> IH]. split; [|done].
    apply not_elem_of_list_to_map in Hk. rewrite <- insert_union_r by done. by rewrite insert_union_l. }
  destruct (self !! k) as [old|] eqn:Hs; [|by apply Hgo].
  destruct (conflict new old) eqn:Hb.
  - split; [exists k, new, old; rewrite lookup_insert_eq, Hb; done|]. destruct new; auto.
  - apply Hgo. intros o [= <-]. rewrite Hb. by intros [].
Qed.
(** Squashing succeeds exactly without a conflict, and then the changes follow each other. *)
Lemma squash_changes_spec published unpublished (self other : Changes) :
  match squash_changes published unpublished other self with
  | (Ok _, self') => ¬ conflicting self other ∧ ∀ store, apply self' store = apply other (apply self store)
  | (Err e, _) => conflicting self other ∧ (e = published ∨ e = unpublished)
  | _ => False
  end.
Proof.
  pose proof (squash_list_spec published unpublished (map_to_list other) self (NoDup_fst_map_to_list other)) as Hsq.
  rewrite list_to_map_to_list in Hsq. unfold squash_changes. destruct (run_each _ _ self) as [[[]|e| |] self']; try done.
  destruct Hsq as [-> Hc]. split; [done|]. intros store. apply map_eq. intros k. rewrite !lookup_apply, lookup_union.
  by destruct (other !! k), (self !! k).
Qed.
End Changes.
Notation Changes K V := (gmap K (option V)).

(** ** Change sets *)

Record AccountChangeSet : Set := {
  acs_modules : Changes Identifier (list u8);
  acs_resources : Changes StructTag (list u8) }.
Definition AccountChangeSet_new : AccountChangeSet := {| acs_modules := ∅; acs_resources := ∅ |}.
Definition acs_is_empty (self : AccountChangeSet) : bool :=
  bool_decide (acs_modules self = ∅) && bool_decide (acs_resources self = ∅).
Definition on_modules {A} (m : Run (Changes Identifier (list u8)) EffectsError A) : Run AccountChangeSet EffectsError A := λ self,
  let '(r, modules) := m (acs_modules self) in (r, {| acs_modules := modules; acs_resources := acs_resources self |}).
Definition on_resources {A} (m : Run (Changes StructTag (list u8)) EffectsError A) : Run AccountChangeSet EffectsError A := λ self,
  let '(r, resources) := m (acs_resources self) in (r, {| acs_modules := acs_modules self; acs_resources := resources |}).
(** [AccountChangeSet::squash] *)
Definition account_squash (other : AccountChangeSet) : Run AccountChangeSet EffectsError unit :=
  _ ← on_modules (squash_changes ModulePublished ModuleUnpublished (acs_modules other));
  on_resources (squash_changes ResourcePublished ResourceUnpublished (acs_resources other)).
Definition acs_publish_module (name : Identifier) (blob : list u8) : Run AccountChangeSet EffectsError unit :=
  on_modules (publish_checked name blob ModulePublished).
Definition acs_unpublish_module (name : Identifier) : Run AccountChangeSet EffectsError unit :=
  on_modules (unpublish_checked name ModuleUnpublished).
Definition acs_publish_resource (tag : StructTag) (blob : list u8) : Run AccountChangeSet EffectsError unit :=
  on_resources (publish_checked tag blob ResourcePublished).
Definition acs_unpublish_resource (tag : StructTag) : Run AccountChangeSet EffectsError unit :=
  on_resources (unpublish_checked tag ResourceUnpublished).
Definition acs_overwrite_module (name : Identifier) (blob : list u8) (self : AccountChangeSet) : AccountChangeSet :=
  {| acs_modules := <[ name := Some blob ]> (acs_modules self); acs_resources := acs_resources self |}.
Definition acs_overwrite_resource (tag : StructTag) (blob : list u8) (self : AccountChangeSet) : AccountChangeSet :=
  {| acs_modules := acs_modules self; acs_resources := <[ tag := Some blob ]> (acs_resources self) |}.

(** [struct ChangeSet] *)
Notation ChangeSet := (gmap AccountAddress AccountChangeSet).
Definition ChangeSet_new : ChangeSet := ∅.
(** [get_or_insert_account_changeset], and what is done with it *)
Definition on_account {A} (addr : AccountAddress) (m : Run AccountChangeSet EffectsError A) : Run ChangeSet EffectsError A := λ self,
  let '(r, account) := m (default AccountChangeSet_new (self !! addr)) in (r, <[ addr := account ]> self).
Definition publish_or_overwrite_account_change_set (addr : AccountAddress) (account : AccountChangeSet) (self : ChangeSet) : ChangeSet :=
  if acs_is_empty account then self else <[ addr := account ]> self.
Definition cs_publish_or_overwrite_module (id : ModuleId) (blob : list u8) : Run ChangeSet EffectsError unit :=
  on_account (mid_address id) (run_modify (acs_overwrite_module (mid_name id) blob)).
Definition cs_publish_module (id : ModuleId) (blob : list u8) : Run ChangeSet EffectsError unit :=
  on_account (mid_address id) (acs_publish_module (mid_name id) blob).
Definition cs_unpublish_module (id : ModuleId) : Run ChangeSet EffectsError unit :=
  on_account (mid_address id) (acs_unpublish_module (mid_name id)).
Definition cs_publish_or_overwrite_resource (addr : AccountAddress) (tag : StructTag) (blob : list u8) : Run ChangeSet EffectsError unit :=
  on_account addr (run_modify (acs_overwrite_resource tag blob)).
Definition cs_publish_resource (addr : AccountAddress) (tag : StructTag) (blob : list u8) : Run ChangeSet EffectsError unit :=
  on_account addr (acs_publish_resource tag blob).
Definition cs_unpublish_resource (addr : AccountAddress) (tag : StructTag) : Run ChangeSet EffectsError unit :=
  on_account addr (acs_unpublish_resource tag).
(** [ChangeSet::squash] *)
Definition squash_account (p : AccountAddress * AccountChangeSet) : Run ChangeSet EffectsError unit := λ self,
  match self !! p.1 with
  | Some account => let '(r, account) := account_squash p.2 account in (r, <[ p.1 := account ]> self)
  | None => (Ok tt, <[ p.1 := p.2 ]> self)
  end.
Definition squash (other : ChangeSet) : Run ChangeSet EffectsError unit := run_each squash_account (map_to_list other).
(** [ChangeSet::into_modules] *)
Definition into_modules (self : ChangeSet) : list (ModuleId * option (list u8)) :=
  '(addr, account) ← map_to_list self;
  (λ p : Identifier * option (list u8), ({| mid_address := addr; mid_name := p.1 |}, p.2)) <$> map_to_list (acs_modules account).

(** ** Squashing change sets *)

(** What a change set does to the modules and resources of an account *)
Definition AccountStore : Set := gmap Identifier (list u8) * gmap StructTag (list u8).
Definition account_apply (changes : AccountChangeSet) (store : AccountStore) : AccountStore :=
  (apply (acs_modules changes) store.1, apply (acs_resources changes) store.2).
Definition cs_apply (changes : ChangeSet) (store : AccountAddress → AccountStore) (addr : AccountAddress) : AccountStore :=
  match changes !! addr with Some account => account_apply account (store addr) | None => store addr end.
Definition account_conflicting (self other : AccountChangeSet) : Prop :=
  conflicting (acs_modules self) (acs_modules other) ∨ conflicting (acs_resources self) (acs_resources other).

Lemma account_squash_spec (self other : AccountChangeSet) :
  match account_squash other self with
  | (Ok _, self') => ¬ account_conflicting self other ∧ ∀ store, account_apply self' store = account_apply other (account_apply self store)
  | (Err _, _) => account_conflicting self other
  | _ => False
  end.
Proof.
  unfold account_squash, mbind, Run_bind, on_modules, on_resources.
  pose proof (squash_changes_spec ModulePublished ModuleUnpublished (acs_modules self) (acs_modules other)) as Hm.
  destruct (squash_changes _ _ (acs_modules other) _) as [[[]|e| |] modules]; [|by left; apply Hm|done..]. cbn.
  pose proof (squash_changes_spec ResourcePublished ResourceUnpublished (acs_resources self) (acs_resources other)) as Hr.
  destruct (squash_changes _ _ (acs_resources other) _) as [[[]|e| |] resources]; [|by right; apply Hr|done..].
  destruct Hm as [Hm1 Hm2], Hr as [Hr1 Hr2]. split; [by intros [|]|]. intros store. unfold account_apply. f_equal; [apply Hm2|apply Hr2].
Qed.

Definition accounts_conflicting (self : ChangeSet) (l : list (AccountAddress * AccountChangeSet)) : Prop :=
  ∃ addr old new, self !! addr = Some old ∧ (addr, new) ∈ l ∧ account_conflicting old new.
Lemma squash_accounts_spec (l : list (AccountAddress * AccountChangeSet)) (self : ChangeSet) : NoDup l.*1 →
  match run_each squash_account l self with
  | (Ok _, self') => ¬ accounts_conflicting self l ∧
      (∀ addr new, (addr, new) ∈ l → ∀ store, cs_apply self' store addr = account_apply new (cs_apply self store addr)) ∧
      ∀ addr, addr ∉ l.*1 → self' !! addr = self !! addr
  | (Err _, _) => accounts_conflicting self l
  | _ => False
  end.
Proof.
  revert self. induction l as [|[addr new] l IH]; intros self Hnd; cbn.
  { split_and!; [by intros (? & ? & ? & _ & ?%elem_of_nil & _)|by intros ? ? ?%elem_of_nil|done]. }
  cbn in Hnd. apply NoDup_cons in Hnd as [Ha Hnd]. unfold mbind, Run_bind.
  assert (Hl : ∀ new', (addr, new') ∉ l) by (intros new' Hin; apply Ha, list_elem_of_fmap; by exists (addr, new')).
  assert (Hstep : ∀ account, (∀ store, account_apply account (store addr) = account_apply new (cs_apply self store addr)) →
    (∀ old, self !! addr = Some old → ¬ account_conflicting old new) →
    match run_each squash_account l (<[ addr := account ]> self) with
    | (Ok _, self') => ¬ accounts_conflicting self ((addr, new) :: l) ∧
      (∀ a n, (a, n) ∈ (addr, new) :: l → ∀ store, cs_apply self' store a = account_apply n (cs_apply self store a)) ∧
      ∀ a, a ∉ addr :: l.*1 → self' !! a = self !! a
    | (Err _, _) => accounts_conflicting self ((addr, new) :: l)
    | _ => False
    end).
  { intros account Hacc Hno. specialize (IH (<[ addr := account ]> self) Hnd).
    assert (Hc : accounts_conflicting self ((addr, new) :: l) → accounts_conflicting (<[ addr := account ]> self) l).
    { intros (a & old & n & Hold & [Heq|Hin]%elem_of_cons & Hcf); [injection Heq as -> ->; by destruct (Hno old)|].
      exists a, old, n. rewrite lookup_insert_ne; [done|]. intros ->. by eapply Hl. }
    destruct (run_each _ l _) as [[[]|e| |] self']; [|..|done|done].
    - destruct IH as (H1 & H2 & H3). split_and!; [auto| |].
      + intros a n [Heq|Hin]%elem_of_cons store.
        * injection Heq as -> ->. unfold cs_apply at 1. rewrite H3 by done. rewrite lookup_insert_eq. apply Hacc.
        * rewrite (H2 a n Hin). unfold cs_apply. rewrite lookup_insert_ne; [done|]. intros ->. by eapply Hl.
      + intros a [Hne Hni]%not_elem_of_cons. rewrite H3 by done. by rewrite lookup_insert_ne.
    - destruct IH as (a & old & n & Hold & Hin & Hcf). exists a, old, n.
      rewrite lookup_insert_ne in Hold by (intros ->; by eapply Hl). split_and!; [done|by right|done]. }
  unfold squash_account at 1. cbn. destruct (self !! addr) as [old|] eqn:Hs.
  - pose proof (account_squash_spec old new) as Hsq. destruct (account_squash new old) as [[[]|e| |] account]; [..|done|done].
    + destruct Hsq as [Hno Hsq]. apply Hstep; [|by intros ? [= <-]]. intros store. unfold cs_apply. by rewrite Hs, Hsq.
    + exists addr, old, new. split_and!; [done|by left|done].
  - apply Hstep; [|done]. intros store. unfold cs_apply. by rewrite Hs.
Qed.

(** Two change sets can be squashed exactly when they do not both publish or both
    delete the same module or resource, and then the result does to every store what the
    first and then the second does. *)
Theorem squash_applies (self other : ChangeSet) :
  match squash other self with
  | (Ok _, self') => (∀ addr old new, self !! addr = Some old → other !! addr = Some new → ¬ account_conflicting old new) ∧
      ∀ store addr, cs_apply self' store addr = cs_apply other (cs_apply self store) addr
  | (Err _, _) => ∃ addr old new, self !! addr = Some old ∧ other !! addr = Some new ∧ account_conflicting old new
  | _ => False
  end.
Proof.
  pose proof (squash_accounts_spec (map_to_list other) self (NoDup_fst_map_to_list other)) as Hsq. unfold squash.
  destruct (run_each _ _ self) as [[[]|e| |] self']; [..|done|done].
  - destruct Hsq as (H1 & H2 & H3). split.
    + intros addr old new Ho Hn Hc. apply H1. exists addr, old, new. by rewrite elem_of_map_to_list.
    + intros store addr. destruct (other !! addr) as [new|] eqn:Hn; unfold cs_apply at 2; rewrite Hn.
      * by apply H2, elem_of_map_to_list.
      * unfold cs_apply. rewrite H3; [done|]. intros ((a & n) & -> & Hin)%list_elem_of_fmap. apply elem_of_map_to_list in Hin. cbn in Hn. congruence.
  - destruct Hsq as (addr & old & new & Ho & Hn%elem_of_map_to_list & Hc). by exists addr, old, new.
Qed.
