(* ===== verification/TypeTags.v ===== *)
(** * TypeTags: the tags and the layouts of the types of running code

    Models the [TypeCache] of [language/move-vm/runtime/src/loader.rs] and the functions
    that fill it.  Tags do not depend on what the cache holds.  A layout is the one that
    the types of the fields determine, but whether it is within the bound on the depth
    of values depends on the cache. *)

From S2P Require Import Prelude CoreTypes VmStatus Abilities FileFormat Errors Views CyclicDependencies RuntimeTypes Layouts LoadedCode Effects.

Import RuntimeType.

(** ** Types are keys of maps. *)

Fixpoint encode_type (t : Type_) : gen_tree N :=
  match t with
  | Bool => GenNode 0 [] | U8 => GenNode 1 [] | U64 => GenNode 2 [] | U128 => GenNode 3 []
  | Address => GenNode 4 [] | Signer => GenNode 5 []
  | Vector t => GenNode 6 [encode_type t]
  | Struct i => GenNode 7 [GenLeaf i]
  | StructInstantiation i ts => GenNode 8 (GenLeaf i :: (encode_type <$> ts))
  | Reference t => GenNode 9 [encode_type t]
  | MutableReference t => GenNode 10 [encode_type t]
  | TyParam i => GenNode 11 [GenLeaf i]
  end.
Fixpoint decode_type (t : gen_tree N) : Type_ :=
  match t with
  | GenNode 1 _ => U8 | GenNode 2 _ => U64 | GenNode 3 _ => U128 | GenNode 4 _ => Address | GenNode 5 _ => Signer
  | GenNode 6 [t] => Vector (decode_type t)
  | GenNode 7 [GenLeaf i] => Struct i
  | GenNode 8 (GenLeaf i :: ts) => StructInstantiation i (decode_type <$> ts)
  | GenNode 9 [t] => Reference (decode_type t)
  | GenNode 10 [t] => MutableReference (decode_type t)
  | GenNode 11 [GenLeaf i] => TyParam i
  | _ => Bool
  end.
Lemma decode_encode_type t : decode_type (encode_type t) = t.
Proof.
  induction t as [| | | | | |t IH|i|i ts IH|t IH|t IH|i] using type_ind; try done; cbn; try by rewrite IH.
  f_equal. induction IH as [|t ts Ht _ IH]; [done|]. cbn. by rewrite Ht, IH.
Qed.
#[export] Instance Type_eq_dec : EqDecision Type_.
Proof.
  intros t u. destruct (decide (encode_type t = encode_type u)) as [H|H]; [left|right; by intros ->].
  by rewrite <- (decode_encode_type t), H, decode_encode_type.
Defined.
#[export] Instance Type_countable : Countable Type_ := inj_countable' encode_type decode_type decode_encode_type.

(** ** [TypeCache] *)

(** [struct StructInfo] *)
Record StructInfo : Set := { si_struct_tag : option StructTag; si_struct_layout : option MoveStructLayout }.
Definition StructInfo_new : StructInfo := {| si_struct_tag := None; si_struct_layout := None |}.
Definition set_struct_tag (tag : StructTag) (self : StructInfo) : StructInfo :=
  {| si_struct_tag := Some tag; si_struct_layout := si_struct_layout self |}.
Definition set_struct_layout (layout : MoveStructLayout) (self : StructInfo) : StructInfo :=
  {| si_struct_tag := si_struct_tag self; si_struct_layout := Some layout |}.

Definition TypeCache : Set := gmap N (gmap (list Type_) StructInfo).
Definition TypeCache_new : TypeCache := ∅.
Definition struct_info (gidx : N) (ty_args : list Type_) (self : TypeCache) : option StructInfo :=
  struct_map ← (self : gmap N _) !! gidx; struct_map !! ty_args.
Definition update_info (gidx : N) (ty_args : list Type_) (f : StructInfo → StructInfo) (self : TypeCache) : TypeCache :=
  let struct_map := default ∅ ((self : gmap N _) !! gidx) in
  <[ gidx := <[ ty_args := f (default StructInfo_new (struct_map !! ty_args)) ]> struct_map ]> (self : gmap N _).

(** [iter().map(f).collect()] of computations with a state *)
Definition run_collect {S E A B} (f : A → Run S E B) : list A → Run S E (list B) :=
  fix go l := match l with [] => mret [] | x :: l => y ← f x; ys ← go l; mret (y :: ys) end.

Definition VALUE_DEPTH_MAX : N := 256.

Section TypeTags.
Context {Native : Type} (cache : ModuleCache Native).
Notation TypeM := (Run TypeCache PartialVMError).

Definition make_struct_tag (struct_type : StructType) (ty_arg_tags : list TypeTag) : StructTag :=
  {| stg_address := mid_address (st_module struct_type); stg_module := mid_name (st_module struct_type);
     stg_name := st_name struct_type; stg_type_params := ty_arg_tags |}.
(** [struct_gidx_to_type_tag], [type_to_type_tag] *)
Definition struct_gidx_to_type_tag (type_to_type_tag : Type_ → TypeM TypeTag) (gidx : N) (ty_args : list Type_) : TypeM StructTag :=
  info ← run_get (struct_info gidx ty_args);
  match info ≫= si_struct_tag with
  | Some struct_tag => mret struct_tag
  | None =>
      ty_arg_tags ← run_collect type_to_type_tag ty_args;
      struct_type ← run_lift (struct_at cache gidx);
      let struct_tag := make_struct_tag struct_type ty_arg_tags in
      _ ← run_modify (update_info gidx ty_args (set_struct_tag struct_tag));
      mret struct_tag
  end.
Definition no_type : PartialVMError := PartialVMError_new UNKNOWN_INVARIANT_VIOLATION_ERROR.
Fixpoint type_to_type_tag (ty : Type_) : TypeM TypeTag :=
  match ty with
  | Bool => mret TagBool
  | U8 => mret TagU8
  | U64 => mret TagU64
  | U128 => mret TagU128
  | Address => mret TagAddress
  | Signer => mret TagSigner
  | Vector ty => tag ← type_to_type_tag ty; mret (TagVector tag)
  | Struct gidx => tag ← struct_gidx_to_type_tag type_to_type_tag gidx []; mret (struct_tag tag)
  | StructInstantiation gidx ty_args => tag ← struct_gidx_to_type_tag type_to_type_tag gidx ty_args; mret (struct_tag tag)
  | Reference _ | MutableReference _ | TyParam _ => run_lift (Err no_type)
  end.

(** [struct_gidx_to_type_layout], [type_to_type_layout_impl]; the recursion stops at the
    bound on the depth. *)
Definition struct_gidx_to_type_layout (layout : Type_ → TypeM MoveTypeLayout) (gidx : N) (ty_args : list Type_)
  : TypeM MoveStructLayout :=
  info ← run_get (struct_info gidx ty_args);
  match info ≫= si_struct_layout with
  | Some layout => mret layout
  | None =>
      struct_type ← run_lift (struct_at cache gidx);
      field_tys ← run_lift (collect (λ ty, subst ty ty_args) (st_fields struct_type));
      field_layouts ← run_collect layout field_tys;
      let struct_layout := Runtime field_layouts in
      _ ← run_modify (update_info gidx ty_args (set_struct_layout struct_layout));
      mret struct_layout
  end.
Fixpoint type_to_type_layout_impl (fuel : nat) (ty : Type_) (depth : N) : TypeM MoveTypeLayout :=
  match fuel with
  | O => run_lift OutOfFuel
  | S fuel =>
      if VALUE_DEPTH_MAX <? depth then run_lift (Err (PartialVMError_new VM_MAX_VALUE_DEPTH_REACHED)) else
      let below := λ ty, type_to_type_layout_impl fuel ty (depth + 1) in
      match ty with
      | Bool => mret LBool
      | U8 => mret LU8
      | U64 => mret LU64
      | U128 => mret LU128
      | Address => mret LAddress
      | Signer => mret LSigner
      | Vector ty => layout ← below ty; mret (LVector layout)
      | Struct gidx => layout ← struct_gidx_to_type_layout below gidx []; mret (LStruct layout)
      | StructInstantiation gidx ty_args => layout ← struct_gidx_to_type_layout below gidx ty_args; mret (LStruct layout)
      | Reference _ | MutableReference _ | TyParam _ => run_lift (Err no_type)
      end
  end.
(** Depths from 1 to the first one that is refused *)
Definition type_to_type_layout (ty : Type_) : TypeM MoveTypeLayout := type_to_type_layout_impl 257 ty 1.

(** ** What the structs determine, without a cache *)

Fixpoint tag_of (ty : Type_) : result PartialVMError TypeTag :=
  match ty with
  | Bool => Ok TagBool | U8 => Ok TagU8 | U64 => Ok TagU64 | U128 => Ok TagU128 | Address => Ok TagAddress | Signer => Ok TagSigner
  | Vector ty => tag ← tag_of ty; Ok (TagVector tag)
  | Struct gidx => st ← struct_at cache gidx; Ok (struct_tag (make_struct_tag st []))
  | StructInstantiation gidx ty_args =>
      tags ← collect tag_of ty_args; st ← struct_at cache gidx; Ok (struct_tag (make_struct_tag st tags))
  | Reference _ | MutableReference _ | TyParam _ => Err no_type
  end.
Definition struct_tag_of (gidx : N) (ty_args : list Type_) : result PartialVMError StructTag :=
  tags ← collect tag_of ty_args; st ← struct_at cache gidx; Ok (make_struct_tag st tags).

(** The layout of a type whose values have at most [n] levels *)
Definition field_tys_of (gidx : N) (ty_args : list Type_) : option (list Type_) :=
  match struct_at (Native := Native) cache gidx with
  | Ok st => match collect (λ ty, subst ty ty_args) (st_fields st) with Ok tys => Some tys | _ => None end
  | _ => None
  end.
Fixpoint layout_within (n : nat) (ty : Type_) : option MoveTypeLayout :=
  match n with
  | O => None
  | S n =>
      let fields := λ gidx ty_args, tys ← field_tys_of gidx ty_args; ls ← mapM (layout_within n) tys; Some (LStruct (Runtime ls)) in
      match ty with
      | Bool => Some LBool | U8 => Some LU8 | U64 => Some LU64 | U128 => Some LU128 | Address => Some LAddress | Signer => Some LSigner
      | Vector ty => LVector <$> layout_within n ty
      | Struct gidx => fields gidx []
      | StructInstantiation gidx ty_args => fields gidx ty_args
      | Reference _ | MutableReference _ | TyParam _ => None
      end
  end.
Definition struct_layout_within (n : nat) (gidx : N) (ty_args : list Type_) : option MoveStructLayout :=
  tys ← field_tys_of gidx ty_args; ls ← mapM (layout_within n) tys; Some (Runtime ls).

(** What the cache holds is right. *)
Definition coherent (c : TypeCache) : Prop := ∀ gidx ty_args info, struct_info gidx ty_args c = Some info →
  (∀ tag, si_struct_tag info = Some tag → struct_tag_of gidx ty_args = Ok tag) ∧
  ∀ layout, si_struct_layout info = Some layout → ∃ n, struct_layout_within n gidx ty_args = Some layout.
End TypeTags.

(** ** The cache stays right *)

Lemma subst_ends ty ty_args : subst ty ty_args ≠ OutOfFuel ∧ subst ty ty_args ≠ Panic.
Proof.
  assert (errs (λ _, True) (subst ty ty_args)) as H; [|by destruct (subst ty ty_args)].
  apply apply_subst_errs; [done|]. intros idx d. destruct (at_ ty_args idx); [|done]. by apply apply_subst_errs.
Qed.
Lemma substs_end tys ty_args : collect (λ ty, subst ty ty_args) tys ≠ OutOfFuel ∧ collect (λ ty, subst ty ty_args) tys ≠ Panic.
Proof.
  assert (errs (λ _, True) (collect (λ ty, subst ty ty_args) tys)) as H; [|by destruct (collect _ tys)].
  apply collect_errs, Forall_true. intros ty. pose proof (subst_ends ty ty_args) as []. by destruct (subst ty ty_args).
Qed.

Lemma struct_info_update gidx ty_args f c gidx' ty_args' :
  struct_info gidx' ty_args' (update_info gidx ty_args f c) =
  if decide (gidx' = gidx ∧ ty_args' = ty_args) then Some (f (default StructInfo_new (struct_info gidx ty_args c)))
  else struct_info gidx' ty_args' c.
Proof.
  unfold struct_info, update_info. destruct (decide (gidx' = gidx)) as [->|Hg].
  - rewrite lookup_insert_eq. cbn. destruct (decide (ty_args' = ty_args)) as [->|Ha].
    + rewrite lookup_insert_eq, decide_True by done. by destruct ((c : gmap N _) !! gidx).
    + rewrite lookup_insert_ne by done. rewrite decide_False by naive_solver. by destruct ((c : gmap N _) !! gidx).
  - rewrite lookup_insert_ne by done. rewrite decide_False by naive_solver. done.
Qed.

Section Cached.
Context {Native : Type} (cache : ModuleCache Native).
Notation coherent := (coherent cache).

Lemma coherent_new : coherent TypeCache_new.
Proof. intros gidx ty_args info H. done. Qed.
Lemma coherent_tag gidx ty_args tag c :
  coherent c → struct_tag_of cache gidx ty_args = Ok tag → coherent (update_info gidx ty_args (set_struct_tag tag) c).
Proof.
  intros Hc Ht g a info. rewrite struct_info_update. case_decide as Hd; [|apply Hc]. destruct Hd as [-> ->]. intros [= <-]. cbn.
  split; [by intros ? [= <-]|]. destruct (struct_info gidx ty_args c) as [info|] eqn:Hi; [apply (Hc _ _ _ Hi)|done].
Qed.
Lemma coherent_layout gidx ty_args layout n c :
  coherent c → struct_layout_within cache n gidx ty_args = Some layout → coherent (update_info gidx ty_args (set_struct_layout layout) c).
Proof.
  intros Hc Ht g a info. rewrite struct_info_update. case_decide as Hd; [|apply Hc]. destruct Hd as [-> ->]. intros [= <-]. cbn.
  split; [|intros ? [= <-]; by exists n]. destruct (struct_info gidx ty_args c) as [info|] eqn:Hi; [apply (Hc _ _ _ Hi)|done].
Qed.

(** ** Tags *)

(** A computation that ends as [r] and keeps the cache right *)
Definition gives {A} (m : Run TypeCache PartialVMError A) (r : result PartialVMError A) : Prop :=
  ∀ c, coherent c → (m c).1 = r ∧ coherent (m c).2.
Lemma gives_ret {A} (a : A) : gives (mret a) (Ok a).
Proof. by split. Qed.
Lemma gives_bind {A B} (m : Run TypeCache PartialVMError A) (k : A → Run TypeCache PartialVMError B) r s :
  gives m r → (∀ a, gives (k a) (s a)) → gives (m ≫= k) (r ≫= s).
Proof.
  intros Hm Hk c Hc. rewrite run_bind_eq. specialize (Hm c Hc) as [<- Hc']. destruct (m c) as [[a|e| |] c']; try done. by apply Hk.
Qed.
Lemma gives_collect {A B} (f : A → Run TypeCache PartialVMError B) (g : A → result PartialVMError B) l :
  Forall (λ x, gives (f x) (g x)) l → gives (run_collect f l) (collect g l).
Proof.
  induction 1 as [|x l Hx _ IH]; [apply gives_ret|]. cbn. apply gives_bind; [done|]. intros y. apply gives_bind; [done|]. intros ys. apply gives_ret.
Qed.
Lemma gives_struct f gidx ty_args : Forall (λ ty, gives (f ty) (tag_of cache ty)) ty_args →
  gives (struct_gidx_to_type_tag cache f gidx ty_args) (struct_tag_of cache gidx ty_args).
Proof.
  intros Hf c Hc. unfold struct_gidx_to_type_tag. rewrite run_bind_eq. cbn.
  destruct (struct_info gidx ty_args c ≫= si_struct_tag) as [tag|] eqn:Hi.
  { apply bind_Some in Hi as (info & Hi & Htag). split; [|done]. symmetry. by apply (Hc _ _ _ Hi). }
  clear Hi. pose proof (gives_collect _ _ _ Hf c Hc) as [Hr Hc']. rewrite run_bind_eq. unfold struct_tag_of. rewrite <- Hr.
  assert (Ht : ∀ tags st, collect (tag_of cache) ty_args = Ok tags → struct_at cache gidx = Ok st →
    struct_tag_of cache gidx ty_args = Ok (make_struct_tag st tags)) by (intros tags st H1 H2; unfold struct_tag_of; by rewrite H1; cbn; rewrite H2).
  destruct (run_collect f ty_args c) as [[tags|e| |] c']; try done. cbn in *. unfold mbind, Run_bind, result_bind, run_lift, run_modify.
  destruct (struct_at cache gidx) as [st|e| |]; try done. split; [done|]. cbn. apply coherent_tag; [done|]. by apply Ht.
Qed.
Lemma type_tag_gives ty : gives (type_to_type_tag cache ty) (tag_of cache ty).
Proof.
  induction ty as [| | | | | |t IH|i|i ts IH|t IH|t IH|i] using type_ind; try (by intros ? ?); cbn [type_to_type_tag tag_of].
  - apply gives_bind; [done|]. intros tag. apply gives_ret.
  - assert ((st ← struct_at cache i; Ok (struct_tag (make_struct_tag st []))) = (tag ← struct_tag_of cache i []; Ok (struct_tag tag))) as ->
      by (unfold struct_tag_of; cbn -[struct_at]; by destruct (struct_at cache i)).
    apply gives_bind; [by apply gives_struct|]. intros tag. apply gives_ret.
  - assert ((tags ← collect (tag_of cache) ts; st ← struct_at cache i; Ok (struct_tag (make_struct_tag st tags))) =
      (tag ← struct_tag_of cache i ts; Ok (struct_tag tag))) as ->.
    { unfold struct_tag_of. destruct (collect _ _); try done. cbn -[struct_at]. by destruct (struct_at cache i). }
    apply gives_bind; [by apply gives_struct|]. intros tag. apply gives_ret.
Qed.

(** ** Layouts *)

Lemma mapM_mono {A B} (f g : A → option B) l ys : (∀ x y, f x = Some y → g x = Some y) → mapM f l = Some ys → mapM g l = Some ys.
Proof. intros Hfg. rewrite !mapM_Some. intros H. eapply Forall2_impl; [exact H|auto]. Qed.
Lemma layout_within_S n ty l : layout_within cache n ty = Some l → layout_within cache (S n) ty = Some l.
Proof.
  revert ty l. induction n as [|n IH]; [done|]. intros ty l.
  assert (Hs : ∀ gidx ty_args, (tys ← field_tys_of cache gidx ty_args; ls ← mapM (layout_within cache n) tys; Some (LStruct (Runtime ls))) = Some l →
    (tys ← field_tys_of cache gidx ty_args; ls ← mapM (layout_within cache (S n)) tys; Some (LStruct (Runtime ls))) = Some l).
  { intros gidx ty_args (tys & Ht & (ls & Hl & [= <-])%bind_Some)%bind_Some. rewrite Ht. cbn -[layout_within].
    by rewrite (mapM_mono _ _ _ _ IH Hl). }
  destruct ty; cbn [layout_within]; try done; try apply Hs. intros (l' & Hl & ->)%fmap_Some. apply fmap_Some. exists l'. split; [by apply IH|done].
Qed.
Lemma layout_within_mono n m ty l : (n ≤ m)%nat → layout_within cache n ty = Some l → layout_within cache m ty = Some l.
Proof. induction 1; [done|]. intros H'. by apply layout_within_S, IHle. Qed.
Lemma layouts_within_mono n m tys ls :
  (n ≤ m)%nat → mapM (layout_within cache n) tys = Some ls → mapM (layout_within cache m) tys = Some ls.
Proof. intros Hnm. apply mapM_mono. intros ty l. by apply layout_within_mono. Qed.

(** What a computation of a layout returns: what is wanted at some depth, or nothing,
    when it is not there within [n] levels *)
Definition lays {A} (n : nat) (m : Run TypeCache PartialVMError A) (want : nat → option A) : Prop := ∀ c, coherent c →
  match m c with
  | (Ok a, c') => coherent c' ∧ ∃ k, want k = Some a
  | (Err _, c') | (Panic, c') => coherent c' ∧ want n = None
  | (OutOfFuel, _) => False
  end.
Lemma lays_ret {A} n (a : A) want : want 1%nat = Some a → lays n (mret a) want.
Proof. intros H c Hc. split; [done|]. by exists 1%nat. Qed.
Lemma lays_err {A} n e (want : nat → option A) : want n = None → lays n (run_lift (Err e)) want.
Proof. by intros H c Hc. Qed.
Lemma lays_map {A B} n (f : A → B) m want : lays n m want → lays n (x ← m; mret (f x)) (λ k, f <$> want k).
Proof.
  intros H c Hc. specialize (H c Hc). unfold mbind, Run_bind, mret, Run_ret. destruct (m c) as [[a|e| |] c']; try done.
  - destruct H as (Hc' & k & Hk). split; [done|]. exists k. by rewrite Hk.
  - destruct H as [Hc' Hn]. by rewrite Hn.
  - destruct H as [Hc' Hn]. by rewrite Hn.
Qed.
Lemma lays_collect n f tys : (∀ ty, lays n (f ty) (λ k, layout_within cache k ty)) →
  lays n (run_collect f tys) (λ k, mapM (layout_within cache k) tys).
Proof.
  intros Hf. induction tys as [|ty tys IH]; [by apply lays_ret|]. intros c Hc. cbn -[layout_within]. rewrite run_bind_eq.
  pose proof (Hf ty c Hc) as Ht. destruct (f ty c) as [[l|e| |] c1]; [|destruct Ht as [? Hn]; by rewrite Hn..|done].
  destruct Ht as (Hc1 & k1 & Hk1). rewrite run_bind_eq. specialize (IH c1 Hc1).
  destruct (run_collect f tys c1) as [[ls|e| |] c2]; [|destruct IH as [? Hn]; rewrite Hn; by destruct (layout_within cache n ty)..|done].
  destruct IH as (Hc2 & k2 & Hk2). split; [done|]. exists (k1 `max` k2)%nat.
  rewrite (layout_within_mono k1 _ _ l) by (done || lia). cbn -[layout_within]. by rewrite (layouts_within_mono k2 _ _ ls) by (done || lia).
Qed.
Lemma lays_struct n f gidx ty_args : (∀ ty, lays n (f ty) (λ k, layout_within cache k ty)) →
  lays n (struct_gidx_to_type_layout cache f gidx ty_args) (λ k, struct_layout_within cache k gidx ty_args).
Proof.
  intros Hf c Hc. unfold struct_gidx_to_type_layout. rewrite run_bind_eq. cbn -[layout_within].
  destruct (struct_info gidx ty_args c ≫= si_struct_layout) as [layout|] eqn:Hi.
  { apply bind_Some in Hi as (info & Hi & Hl). split; [done|]. by apply (Hc _ _ _ Hi). }
  clear Hi. unfold struct_layout_within, field_tys_of. rewrite run_bind_eq. cbn -[layout_within struct_at].
  destruct (struct_at cache gidx) as [st|e| |] eqn:Hst; [|done..|unfold struct_at in Hst; by destruct (at_ _ _)].
  rewrite run_bind_eq. cbn -[layout_within]. pose proof (substs_end (st_fields st) ty_args) as [Hnf _].
  destruct (collect _ (st_fields st)) as [tys|e| |] eqn:Hsub; [|done..].
  rewrite run_bind_eq. pose proof (lays_collect n f tys Hf c Hc) as Hl.
  destruct (run_collect f tys c) as [[ls|e| |] c']; [|destruct Hl as [? Hn]; cbn -[layout_within]; by rewrite Hn..|done].
  destruct Hl as (Hc' & k & Hk). cbn -[layout_within]. split; [|exists k; by rewrite Hk].
  apply (coherent_layout _ _ _ k); [done|]. unfold struct_layout_within, field_tys_of. rewrite Hst, Hsub. cbn -[layout_within]. by rewrite Hk.
Qed.
(** From depth [d] on, [n] levels are left. *)
Lemma layout_lays n ty d : d + N.of_nat n = 257 → lays n (type_to_type_layout_impl cache (S n) ty d) (λ k, layout_within cache k ty).
Proof.
  revert ty d. induction n as [|n IH]; intros ty d Hd.
  { intros c Hc. cbn. replace (VALUE_DEPTH_MAX <? d) with true; [done|]. unfold VALUE_DEPTH_MAX. lia. }
  cbn [type_to_type_layout_impl]. replace (VALUE_DEPTH_MAX <? d) with false by (unfold VALUE_DEPTH_MAX; lia).
  assert (Hb : ∀ ty, lays n (type_to_type_layout_impl cache (S n) ty (d + 1)) (λ k, layout_within cache k ty)) by (intros ty'; apply IH; lia).
  assert (Hshift : ∀ A B (f : A → B) m want (want' : nat → option B), lays n m want → (∀ k, want' (S k) = f <$> want k) →
    lays (S n) (x ← m; mret (f x)) want').
  { intros A B f m want want' Hm Hw c Hc. pose proof (lays_map n f m want Hm c Hc) as H.
    destruct ((x ← m; mret (f x)) c) as [[]]; rewrite ?Hw; try done. destruct H as (H & k & Hk). split; [done|]. exists (S k). by rewrite Hw. }
  assert (Hst : ∀ gidx ty_args k, (tys ← field_tys_of cache gidx ty_args; ls ← mapM (layout_within cache k) tys; Some (LStruct (Runtime ls))) =
    LStruct <$> struct_layout_within cache k gidx ty_args).
  { intros gidx ty_args k. unfold struct_layout_within. destruct (field_tys_of _ _ _) as [tys|]; [|done]. cbn -[layout_within]. by destruct (mapM _ tys). }
  destruct ty; try (by apply lays_ret); try (by apply lays_err).
  - eapply Hshift; [apply Hb|done].
  - eapply Hshift; [by apply lays_struct|]. intros k. apply Hst.
  - eapply Hshift; [by apply lays_struct|]. intros k. apply Hst.
Qed.
Lemma type_layout_lays ty : lays 256 (type_to_type_layout cache ty) (λ k, layout_within cache k ty).
Proof.
  unfold type_to_type_layout. assert (H : ∀ n fuel, 1 + N.of_nat n = 257 → fuel = S n →
    lays n (type_to_type_layout_impl cache fuel ty 1) (λ k, layout_within cache k ty)) by (intros n ? ? ->; by apply layout_lays).
  by apply H.
Qed.
Lemma type_layout_spec ty c : coherent c →
  coherent (type_to_type_layout cache ty c).2 ∧
  match (type_to_type_layout cache ty c).1 with
  | Ok layout => ∃ n, layout_within cache n ty = Some layout
  | Err _ | Panic => layout_within cache 256 ty = None
  | OutOfFuel => False
  end.
Proof.
  intros Hc. generalize (type_layout_lays ty c Hc). generalize (type_to_type_layout cache ty c). generalize 256%nat. clear.
  intros n [[]]; cbn [fst snd]; naive_solver.
Qed.
End Cached.

(** ** The cache as modules are loaded *)

Section Grows.
Context {Native : Type} (cache cache' : ModuleCache Native) (Hgrows : mc_structs cache `prefix_of` mc_structs cache').

Lemma struct_at_grows i st : struct_at cache i = Ok st → struct_at cache' i = Ok st.
Proof.
  unfold struct_at, at_. destruct Hgrows as [sts ->]. destruct (mc_structs cache !! _) as [st'|] eqn:Hi; [|done].
  by rewrite (lookup_app_l_Some _ _ _ _ Hi).
Qed.
Lemma tag_of_grows ty tag : tag_of cache ty = Ok tag → tag_of cache' ty = Ok tag.
Proof.
  revert tag. induction ty as [| | | | | |t IH|i|i ts IH|t IH|t IH|i] using type_ind; intros tag; try done; cbn [tag_of].
  - intros (tag' & Ht & [= <-])%bind_Ok. by rewrite (IH _ Ht).
  - intros (st & Hst & [= <-])%bind_Ok. by rewrite (struct_at_grows _ _ Hst).
  - intros (tags & Ht & (st & Hst & [= <-])%bind_Ok)%bind_Ok. rewrite (struct_at_grows _ _ Hst).
    assert (collect (tag_of cache') ts = Ok tags) as ->; [|done]. clear Hst. revert tags Ht.
    induction IH as [|t ts Ht _ IH]; intros tags; [done|]. cbn. intros (tag & Htag & (tags' & Htags & [= <-])%bind_Ok)%bind_Ok.
    rewrite (Ht _ Htag). cbn. by rewrite (IH _ Htags).
Qed.
Lemma struct_tag_of_grows gidx ty_args tag : struct_tag_of cache gidx ty_args = Ok tag → struct_tag_of cache' gidx ty_args = Ok tag.
Proof.
  unfold struct_tag_of. intros (tags & Ht & (st & Hst & [= <-])%bind_Ok)%bind_Ok. rewrite (struct_at_grows _ _ Hst).
  assert (tag_of cache' (StructInstantiation gidx ty_args) = Ok (struct_tag (make_struct_tag st tags))) as H.
  { apply tag_of_grows. cbn. rewrite Ht. cbn -[struct_at]. by rewrite Hst. }
  cbn [tag_of] in H. apply bind_Ok in H as (tags' & -> & (st' & Hst' & H)%bind_Ok). rewrite (struct_at_grows _ _ Hst) in Hst'.
  injection Hst' as <-. injection H as ->. done.
Qed.
Lemma field_tys_of_grows gidx ty_args tys : field_tys_of cache gidx ty_args = Some tys → field_tys_of cache' gidx ty_args = Some tys.
Proof. unfold field_tys_of. destruct (struct_at cache gidx) as [st|e| |] eqn:Hst; try done. by rewrite (struct_at_grows _ _ Hst). Qed.
Lemma layout_within_grows n ty l : layout_within cache n ty = Some l → layout_within cache' n ty = Some l.
Proof.
  revert ty l. induction n as [|n IH]; [done|]. intros ty l. destruct ty; cbn [layout_within]; try done.
  1: { intros (l' & Hl & ->)%fmap_Some. by rewrite (IH _ _ Hl). }
  all: intros (tys & Ht & (ls & Hl & [= <-])%bind_Some)%bind_Some; rewrite (field_tys_of_grows _ _ _ Ht); cbn;
    by rewrite (mapM_mono _ _ _ _ IH Hl).
Qed.
Lemma struct_layout_within_grows n gidx ty_args l :
  struct_layout_within cache n gidx ty_args = Some l → struct_layout_within cache' n gidx ty_args = Some l.
Proof.
  unfold struct_layout_within. intros (tys & Ht & (ls & Hl & [= <-])%bind_Some)%bind_Some. rewrite (field_tys_of_grows _ _ _ Ht). cbn.
  by rewrite (mapM_mono _ _ _ _ (layout_within_grows n) Hl).
Qed.
Lemma coherent_grows c : coherent cache c → coherent cache' c.
Proof.
  intros Hc gidx ty_args info Hi. specialize (Hc _ _ _ Hi) as [Ht Hl]. split; [auto using struct_tag_of_grows|].
  intros l Hl'. destruct (Hl l Hl') as [n Hn]. exists n. by apply struct_layout_within_grows.
Qed.
End Grows.

(** What happens to the two caches in the life of a loader: modules are loaded, and tags
    and layouts are asked for. *)
Inductive type_step {Native} : ModuleCache Native * TypeCache → ModuleCache Native * TypeCache → Prop :=
| step_load cache cache' c : mc_structs cache `prefix_of` mc_structs cache' → type_step (cache, c) (cache', c)
| step_tag cache ty c r c' : type_to_type_tag cache ty c = (r, c') → type_step (cache, c) (cache, c')
| step_layout cache ty c r c' : type_to_type_layout cache ty c = (r, c') → type_step (cache, c) (cache, c').
Lemma type_steps_coherent {Native} (s s' : ModuleCache Native * TypeCache) :
  rtc type_step s s' → coherent s.1 s.2 → coherent s'.1 s'.2.
Proof.
  induction 1 as [|s1 s2 s3 Hs _ IH]; [done|]. intros Hc. apply IH. clear IH. destruct Hs as [cache cache' c Hp|cache ty c r c' Hr|cache ty c r c' Hr]; cbn [fst snd] in *.
  - by eapply coherent_grows.
  - pose proof (type_tag_gives cache ty c Hc) as [_ H]. by rewrite Hr in H.
  - pose proof (type_layout_spec cache ty c Hc) as [H _]. by rewrite Hr in H.
Qed.

(** C30. However the caches came about, the tag of a type is the one that the names of its
    structs determine, with the errors of a computation without a cache; a layout is the
    one of the fields, and it is refused only when values have more than 256 levels or the
    type has none. *)
Theorem type_cache_correct {Native} (cache : ModuleCache Native) (c : TypeCache) (ty : Type_) :
  rtc type_step (ModuleCache_new, TypeCache_new) (cache, c) →
  (type_to_type_tag cache ty c).1 = tag_of cache ty ∧
  match (type_to_type_layout cache ty c).1 with
  | Ok layout => ∃ n, layout_within cache n ty = Some layout
  | Err _ | Panic => layout_within cache 256 ty = None
  | OutOfFuel => False
  end.
Proof.
  intros Hsteps. apply type_steps_coherent in Hsteps; [|apply coherent_new]. cbn in Hsteps. split; [by apply type_tag_gives|].
  exact (proj2 (type_layout_spec cache ty c Hsteps)).
Qed.

(** ** The bound on the depth depends on the cache. *)

Definition chain_struct (i : N) (fields : list Type_) : StructType :=
  {| st_fields := fields; st_abilities := EMPTY; st_type_parameters := []; st_name := [i]; st_module := {| mid_address := [1]; mid_name := [77] |};
     st_struct_def := i |}.
(** [n + 1] structs: the first has a number, and each of the others the one before *)
Definition chain (n : nat) : ModuleCache unit :=
  {| mc_modules := cache_new;
     mc_structs := chain_struct 0 [U64] :: ((λ i, chain_struct (N.of_nat i) [Struct (N.of_nat i - 1)]) <$> seq 1 n);
     mc_functions := [] |}.
Definition after_layout (ty : Type_) (cache : ModuleCache unit) : TypeCache := (type_to_type_layout cache ty TypeCache_new).2.
Definition too_deep : result PartialVMError MoveTypeLayout := Err (PartialVMError_new VM_MAX_VALUE_DEPTH_REACHED).

(** The same type is refused for its depth with an empty cache, and has a layout once
    the layouts of its parts were asked for. *)
Theorem layout_bound_cached :
  (type_to_type_layout (chain 300) (Struct 300) TypeCache_new).1 = too_deep ∧
  ∃ layout, (type_to_type_layout (chain 300) (Struct 300) (after_layout (Struct 200) (chain 300))).1 = Ok layout.
Proof. split; [by vm_compute|]. eexists. by vm_compute. Qed.

Lemma type_cache_correct_witness :
  rtc type_step (ModuleCache_new, TypeCache_new) (chain 3, after_layout (Struct 2) (chain 3)) ∧
  ∃ n, layout_within (chain 3) n (Struct 3) = Some (LStruct (Runtime [LStruct (Runtime [LStruct (Runtime [LStruct (Runtime [LU64])])])])).
Proof.
  assert (H : rtc type_step (ModuleCache_new, TypeCache_new) (chain 3, after_layout (Struct 2) (chain 3))).
  { eapply rtc_l; [apply (step_load _ (chain 3)), prefix_nil|]. eapply rtc_once, (step_layout _ (Struct 2)). unfold after_layout. apply surjective_pairing. }
  split; [exact H|]. exact (proj2 (type_cache_correct (chain 3) _ (Struct 3) H)).
Defined.
