(* ===== verification/Loading.v ===== *)
(** * Loading: modules come from storage into the cache

    Models the loading and verification of modules, types, functions and scripts by
    [Loader] in [language/move-vm/runtime/src/loader.rs].  What the data store returns for
    a module and the hash of a script are parameters; a [BTreeSet] that is iterated is a
    sorted list. *)

From S2P Require Import Prelude CoreTypes VmStatus Abilities FileFormat Errors Views BoundsChecker RuntimeTypes Checks SignatureChecker ModulePasses Graphs StructDefs InstantiationLoops CyclicDependencies Dependencies Verifier LoadedCode Effects TypeTags.

(** ** Sets of module ids, in the order of [Ord] *)

Fixpoint bytes_le (a b : list u8) : bool :=
  match a, b with
  | [], _ => true
  | _ :: _, [] => false
  | x :: a, y :: b => (x <? y) || (x =? y) && bytes_le a b
  end.
Definition module_id_le (a b : ModuleId) : bool :=
  if decide (mid_address a = mid_address b) then bytes_le (mid_name a) (mid_name b) else bytes_le (mid_address a) (mid_address b).
Fixpoint btree_insert (id : ModuleId) (l : list ModuleId) : list ModuleId :=
  match l with
  | [] => [id]
  | x :: l' => if decide (id = x) then l else if module_id_le id x then id :: l else x :: btree_insert id l'
  end.
Definition btree_extend (l ids : list ModuleId) : list ModuleId := foldl (λ l id, btree_insert id l) l ids.

(** [expect_no_verification_errors] of [logging.rs] *)
Definition expect_no_verification_errors (err : VMError) : VMError :=
  let unexpected major_status :=
    finish (at_code_offsets (at_indices (PartialVMError_new major_status) (ve_indices err)) (ve_offsets err)) (ve_location err) in
  match status_type (ve_major_status err) with
  | Deserialization => unexpected UNEXPECTED_DESERIALIZATION_ERROR
  | Verification => unexpected UNEXPECTED_VERIFIER_ERROR
  | _ => err
  end.

(** The cache, and the sets that a descent through the dependencies updates *)
Record LoadState {Native : Type} : Type := {
  ld_cache : ModuleCache Native;
  ld_visited : gset ModuleId;
  ld_friends_discovered : list ModuleId }.
Arguments LoadState : clear implicits.

Section Loading.
Context {Native G : Type} `{Graph G Node Edge} `{Toposort StructDefinitionIndex}.
Context (debug overflow_checks : bool) (verifier_fuel fuel : nat).
Context (natives : NativeFunctions Native) (sha3_256 : list u8 → ScriptHash).

Notation verify_module := (verify_module (G := G) debug overflow_checks verifier_fuel).
Notation verify_script := (verify_script debug overflow_checks verifier_fuel).
Notation LoadM := (Run (LoadState Native) VMError).
Notation CacheM := (Run (ModuleCache Native) VMError).

(** A part of the state *)
Definition on_cache {A} (m : CacheM A) : LoadM A := λ s,
  let '(r, cache) := m (ld_cache s) in
  (r, {| ld_cache := cache; ld_visited := ld_visited s; ld_friends_discovered := ld_friends_discovered s |}).
Definition visit (id : ModuleId) (s : LoadState Native) : LoadState Native :=
  {| ld_cache := ld_cache s; ld_visited := {[ id ]} ∪ ld_visited s; ld_friends_discovered := ld_friends_discovered s |}.
Definition discover (friends : list ModuleId) (s : LoadState Native) : LoadState Native :=
  {| ld_cache := ld_cache s; ld_visited := ld_visited s; ld_friends_discovered := btree_extend (ld_friends_discovered s) friends |}.
Definition accessed {A} (r : result StatusCode A) : result VMError A := map_err undefined_location (partial r).

(** ** Verification steps *)

(** [check_natives]; the index of a native function counts the native ones. *)
Definition check_native (module : CompiledModule) (p : N * FunctionDefinition) : result PartialVMError unit :=
  let view := VModule module in
  fh ← partial (function_handle_at view (fdef_function p.2));
  mh ← partial (module_handle_at view (fh_module fh));
  address ← partial (address_identifier_at view (mh_address mh));
  module_name ← partial (identifier_at view (mh_name mh));
  name ← partial (identifier_at view (fh_name fh));
  match resolve natives address module_name name with
  | Some _ => Ok tt
  | None => Err (verification_error MISSING_DEPENDENCY KFunctionHandle (wrap 16 p.1))
  end.
Definition check_native_struct (p : N * StructDefinition) : result PartialVMError unit :=
  match sd_field_information p.2 with
  | FileFormat.Native => Err (verification_error MISSING_DEPENDENCY KFunctionHandle (wrap 16 p.1))
  | Declared _ => Ok tt
  end.
Definition check_natives (module : CompiledModule) : result VMError unit :=
  in_module module (
    _ ← for_each (check_native module) (enumerate (filter (λ def, is_native def = true) (m_function_defs module)));
    for_each check_native_struct (enumerate (m_struct_defs module))).

(** What a module depends on, and befriends: in the verified part of a bundle, or in the
    cache *)
Section Bundle.
Context (bundle_verified : gmap ModuleId CompiledModule) (bundle_unverified : gset ModuleId).

Definition known_module (cache : ModuleCache Native) (id : ModuleId) : option CompiledModule :=
  match bundle_verified !! id with
  | Some module => Some module
  | None => lm_module <$> module_at cache id
  end.
Definition ids_of_known (ids : CompiledModule → result StatusCode (list ModuleId)) (cache : ModuleCache Native) (id : ModuleId)
  : result PartialVMError (list ModuleId) :=
  match known_module cache id with
  | Some module => partial (ids module)
  | None => Err (PartialVMError_new MISSING_DEPENDENCY)
  end.
Definition known_dependencies := ids_of_known immediate_dependencies.
Definition known_friends (cache : ModuleCache Native) (id : ModuleId) : result PartialVMError (list ModuleId) :=
  if bool_decide (id ∈ bundle_unverified) then Ok [] else ids_of_known immediate_friends cache id.
(** [verify_module_cyclic_relations]: the depth of the searches is below the number of
    known modules. *)
Definition verify_module_cyclic_relations (module : CompiledModule) (cache : ModuleCache Native) : result VMError unit :=
  let known := (size (id_map (mc_modules cache)) + size bundle_verified + size bundle_unverified)%nat in
  in_module module (cyclic_verify_module (S (S known)) module (known_dependencies cache) (known_friends cache)).

(** ** Loading modules *)

Section Store.
Context (fetch : ModuleId → result VMError (list u8)).

(** [load_and_verify_module] *)
Definition load_and_verify_module (id : ModuleId) (allow_loading_failure : bool) : result VMError CompiledModule :=
  bytes ← (if allow_loading_failure then fetch id else map_err expect_no_verification_errors (fetch id));
  module ← map_err (λ _, expect_no_verification_errors (finish (PartialVMError_new CODE_DESERIALIZATION_ERROR) (LModule id)))
             (CompiledModule_deserialize bytes);
  _ ← map_err expect_no_verification_errors (verify_module module);
  _ ← map_err expect_no_verification_errors (check_natives module);
  Ok module.

(** [load_and_verify_dependencies], given how a module is loaded *)
Fixpoint dependencies_of (load : ModuleId → LoadM Module_) (ids : list ModuleId)
  : LoadM (list CompiledModule * list Module_) :=
  match ids with
  | [] => mret ([], [])
  | module_id :: ids =>
      match bundle_verified !! module_id with
      | Some module => deps ← dependencies_of load ids; mret (module :: deps.1, deps.2)
      | None =>
          cached ← run_get (λ s, module_at (ld_cache s) module_id);
          loaded ← match cached with Some cached => mret cached | None => load module_id end;
          deps ← dependencies_of load ids; mret (deps.1, loaded :: deps.2)
      end
  end.
Definition load_and_verify_dependencies (load : ModuleId → bool → LoadM Module_) (module : CompiledModule)
    (allow_dependency_loading_failure : bool) : LoadM unit :=
  ids ← run_lift (accessed (immediate_dependencies module));
  deps ← dependencies_of (λ id, load id allow_dependency_loading_failure) ids;
  let result := dependencies_verify_module module (deps.1 ++ (lm_module <$> deps.2)) in
  run_lift (if allow_dependency_loading_failure then result else map_err expect_no_verification_errors result).
(** [load_and_verify_module_and_dependencies]; the fuel bounds the depth of the calls. *)
Fixpoint load_with_dependencies (fuel : nat) (id : ModuleId) (allow_module_loading_failure : bool) : LoadM Module_ :=
  match fuel with
  | O => run_lift OutOfFuel
  | S fuel =>
      visited ← run_get ld_visited;
      if bool_decide (id ∈ visited) then run_lift (Err (finish (PartialVMError_new CYCLIC_MODULE_DEPENDENCY) LUndefined)) else
      module ← run_lift (load_and_verify_module id allow_module_loading_failure);
      _ ← run_modify (visit id);
      friends ← run_lift (accessed (immediate_friends module));
      _ ← run_modify (discover friends);
      _ ← load_and_verify_dependencies (load_with_dependencies fuel) module false;
      on_cache (insert natives id module)
  end.

(** [load_and_verify_friends], given how a friend is loaded *)
Definition is_new_friend (cache : ModuleCache Native) (mid : ModuleId) : bool :=
  negb (bool_decide (is_Some (module_at cache mid))) && negb (bool_decide (is_Some (bundle_verified !! mid)))
  && negb (bool_decide (mid ∈ bundle_unverified)).
Definition load_and_verify_friends (load : ModuleId → bool → CacheM Module_) (friends_discovered : list ModuleId)
    (allow_friend_loading_failure : bool) : CacheM unit :=
  cache ← run_get id;
  run_each (λ module_id, _ ← load module_id allow_friend_loading_failure; mret tt)
    (filter (λ mid, is_new_friend cache mid = true) friends_discovered).
(** [load_and_verify_module_and_dependencies_and_friends] *)
Definition fresh_load (id : ModuleId) (allow : bool) : CacheM (Module_ * list ModuleId) := λ cache,
  let '(r, s) := load_with_dependencies fuel id allow {| ld_cache := cache; ld_visited := ∅; ld_friends_discovered := [] |} in
  (module_ref ← r; Ok (module_ref, ld_friends_discovered s), ld_cache s).
Fixpoint load_with_friends (friend_fuel : nat) (id : ModuleId) (allow_module_loading_failure : bool) : CacheM Module_ :=
  match friend_fuel with
  | O => run_lift OutOfFuel
  | S friend_fuel =>
      loaded ← fresh_load id allow_module_loading_failure;
      _ ← load_and_verify_friends (load_with_friends friend_fuel) loaded.2 false;
      mret loaded.1
  end.

(** [load_module_internal] *)
Definition load_module_internal (id : ModuleId) : CacheM Module_ :=
  cached ← run_get (λ cache, module_at cache id);
  match cached with
  | Some cached => mret cached
  | None =>
      module_ref ← load_with_friends fuel id true;
      cache ← run_get Datatypes.id;
      _ ← run_lift (map_err expect_no_verification_errors (verify_module_cyclic_relations (lm_module module_ref) cache));
      mret module_ref
  end.

(** [verify_module_for_publication] *)
Definition verify_for_publication (module : CompiledModule) : LoadM unit :=
  _ ← run_lift (verify_module module);
  _ ← run_lift (check_natives module);
  self_id ← run_lift (map_err undefined_location (module_self_id module));
  friends ← run_lift (accessed (immediate_friends module));
  _ ← run_modify (visit self_id);
  _ ← run_modify (discover friends);
  _ ← load_and_verify_dependencies (load_with_dependencies fuel) module true;
  friends_discovered ← run_get ld_friends_discovered;
  on_cache (
    _ ← load_and_verify_friends (load_with_friends fuel) friends_discovered true;
    cache ← run_get Datatypes.id;
    run_lift (verify_module_cyclic_relations module cache)).
Definition verify_module_for_publication (module : CompiledModule) : CacheM unit := λ cache,
  let '(r, s) := verify_for_publication module {| ld_cache := cache; ld_visited := ∅; ld_friends_discovered := [] |} in (r, ld_cache s).
End Store.
End Bundle.

(** [verify_module_bundle_for_publication] *)
Fixpoint verify_bundle (fetch : ModuleId → result VMError (list u8)) (modules : list CompiledModule)
    (bundle_verified : gmap ModuleId CompiledModule) (bundle_unverified : gset ModuleId) : CacheM unit :=
  match modules with
  | [] => mret tt
  | module :: modules =>
      module_id ← run_lift (map_err undefined_location (module_self_id module));
      let bundle_unverified := bundle_unverified ∖ {[ module_id ]} in
      _ ← verify_module_for_publication bundle_verified bundle_unverified fetch module;
      verify_bundle fetch modules (<[ module_id := module ]> bundle_verified) bundle_unverified
  end.
Definition verify_module_bundle_for_publication (fetch : ModuleId → result VMError (list u8)) (modules : list CompiledModule)
  : CacheM unit :=
  ids ← run_lift (map_err undefined_location (collect module_self_id modules));
  verify_bundle fetch modules ∅ (list_to_set ids).

(** ** Loading types, functions and scripts *)

Section Entry.
Context (fetch : ModuleId → result VMError (list u8)).
Notation LoaderM := (Run (Loader Native) VMError).

Definition load_module (id : ModuleId) : CacheM Module_ := load_module_internal ∅ ∅ fetch id.

Definition on_module_cache {A} (m : CacheM A) : LoaderM A := λ self,
  let '(r, cache) := m (l_module_cache self) in
  (r, {| l_scripts := l_scripts self; l_module_cache := cache; l_natives := l_natives self |}).
(** A read of the loader that may fail *)
Definition run_read {S E A} (f : S → result E A) : Run S E A := λ s, (f s, s).

(** [load_type] *)
Fixpoint load_type (type_tag : TypeTag) : LoaderM RuntimeType.Type_ :=
  match type_tag with
  | TagBool => mret RuntimeType.Bool
  | TagU8 => mret RuntimeType.U8
  | TagU64 => mret RuntimeType.U64
  | TagU128 => mret RuntimeType.U128
  | TagAddress => mret RuntimeType.Address
  | TagSigner => mret RuntimeType.Signer
  | TagVector tag => ty ← load_type tag; mret (RuntimeType.Vector ty)
  | TagStruct address module name tag_params =>
      let module_id := {| mid_address := address; mid_name := module |} in
      _ ← on_module_cache (load_module module_id);
      st ← run_read (λ self, map_err undefined_location (resolve_struct_by_name (l_module_cache self) name module_id));
      if is_empty (st_type_parameters st.2) && is_empty tag_params then mret (RuntimeType.Struct st.1) else
      type_params ← run_collect load_type tag_params;
      _ ← run_read (λ self, map_err undefined_location (verify_ty_args self (type_param_constraints st.2) type_params));
      mret (RuntimeType.StructInstantiation st.1 type_params)
  end.
(** The type arguments of a function or a script *)
Definition load_ty_args (constraints : list AbilitySet) (location : Location) (ty_args : list TypeTag) : LoaderM (list RuntimeType.Type_) :=
  type_params ← run_collect load_type ty_args;
  _ ← run_read (λ self, map_err (λ e, finish e location) (verify_ty_args self constraints type_params));
  mret type_params.

(** [load_function] *)
Definition load_function (function_name : Identifier) (module_id : ModuleId) (ty_args : list TypeTag) (is_script_execution : bool)
  : LoaderM (Function Native * list RuntimeType.Type_ * list RuntimeType.Type_ * list RuntimeType.Type_) :=
  module ← on_module_cache (load_module module_id);
  func ← run_read (λ self, map_err undefined_location (
    idx ← resolve_function_by_name (l_module_cache self) function_name module_id; function_at (l_module_cache self) idx));
  let types sig := run_read (λ self, map_err undefined_location (
    collect (make_type (l_module_cache self) (VModule (lm_module module))) sig)) in
  parameter_tys ← types (f_parameters func);
  return_tys ← types (f_return func);
  type_params ← load_ty_args (f_type_parameters func) (LModule module_id) ty_args;
  _ ← (if is_script_execution then run_lift (verify_module_script_function (lm_module module) function_name) else mret tt);
  mret (func, type_params, parameter_tys, return_tys).

(** [deserialize_and_verify_script] *)
Definition script_dependencies (script : CompiledScript) : result StatusCode (list ModuleId) :=
  collect (module_id_for_handle (VScript script)) (s_module_handles script).
Definition deserialize_and_verify_script (script : list u8) : LoaderM CompiledScript :=
  script ← run_lift (map_err (λ _, finish (PartialVMError_new CODE_DESERIALIZATION_ERROR) LScript) (CompiledScript_deserialize script));
  _ ← run_lift (verify_script script);
  ids ← run_lift (accessed (script_dependencies script));
  loaded_deps ← run_collect (λ id, on_module_cache (load_module id)) ids;
  _ ← run_lift (dependencies_verify_script script (lm_module <$> loaded_deps));
  mret script.
(** [load_script] *)
Definition keep_script (hash_value : ScriptHash) (script : Script Native) : LoaderM (Function Native * list RuntimeType.Type_) := λ self,
  let '(main, scripts) := script_cache_insert (l_scripts self) hash_value script in
  (Ok main, {| l_scripts := scripts; l_module_cache := l_module_cache self; l_natives := l_natives self |}).
Definition load_script (script_blob : list u8) (ty_args : list TypeTag)
  : LoaderM (Function Native * list RuntimeType.Type_ * list RuntimeType.Type_) :=
  let hash_value := sha3_256 script_blob in
  cached ← run_get (λ self : Loader Native, script_cache_get (l_scripts self) hash_value);
  main ← match cached with
         | Some main => mret main
         | None =>
             ver_script ← deserialize_and_verify_script script_blob;
             script ← run_read (λ self : Loader Native, Script_new ver_script hash_value (l_module_cache self));
             keep_script hash_value script
         end;
  type_arguments ← load_ty_args (f_type_parameters main.1) LScript ty_args;
  mret (main.1, type_arguments, main.2).
End Entry.
End Loading.

(** ** What the loader keeps

    Theorems on [Loading]: every cached module came from storage, was accepted by the
    verifier, and links with its dependencies, which are cached too; loading ends when
    storage holds finitely many modules. *)


Lemma run_spec_get {S E A} (f : S → A) s (Q : A → S → Prop) (R : E → S → Prop) : Q (f s) s → run_spec (run_get f) s Q R.
Proof. done. Qed.
Lemma run_spec_modify {S E} (f : S → S) s (Q : unit → S → Prop) (R : E → S → Prop) : Q tt (f s) → run_spec (run_modify f) s Q R.
Proof. done. Qed.
Lemma run_spec_ret {S E A} (a : A) s (Q : A → S → Prop) (R : E → S → Prop) : Q a s → run_spec (mret a) s Q R.
Proof. done. Qed.
Lemma run_spec_read {S E A} (f : S → result E A) s (Q : A → S → Prop) (R : E → S → Prop) :
  (∀ a, f s = Ok a → Q a s) → (∀ e, f s = Err e → R e s) → run_spec (run_read f) s Q R.
Proof. unfold run_spec, run_read. destruct (f s); auto. Qed.
(** A computation that keeps an invariant, whatever it returns *)
Lemma run_spec_collect {S E A B} (f : A → Run S E B) (I : S → Prop) l s :
  I s → (∀ x s, x ∈ l → I s → run_spec (f x) s (λ _, I) (λ _, I)) → run_spec (run_collect f l) s (λ _, I) (λ _, I).
Proof.
  revert s. induction l as [|x l IH]; intros s Hs Hf; [done|]. apply run_spec_bind. eapply run_spec_weaken; [apply Hf; [left|done]| |done].
  intros y s' Hs'. apply run_spec_bind. eapply run_spec_weaken; [apply IH; [done|intros; apply Hf; [by right|done]]|done|done].
Qed.

(** ** Keys of a [BinaryCache] have entries. *)

Definition indexed `{Countable K} {V} (c : BinaryCache K V) : Prop := ∀ k i, id_map c !! k = Some i → is_Some (at_ (binaries c) i).
Lemma indexed_new `{Countable K} {V} : indexed (K := K) (V := V) cache_new.
Proof. intros k i Hi. cbn in Hi. by rewrite lookup_empty in Hi. Qed.
Lemma indexed_insert `{Countable K} {V} (c : BinaryCache K V) k v : indexed c → indexed (cache_insert c k v).
Proof.
  intros Hc k' i. unfold cache_insert. cbn. destruct (decide (k' = k)) as [->|Hne].
  - rewrite lookup_insert_eq. intros [= <-]. exists v. unfold at_, len. rewrite Nat2N.id. by apply list_lookup_middle.
  - rewrite lookup_insert_ne by done. intros [w Hi]%Hc. exists w. by apply lookup_app_l_Some.
Qed.
Lemma cache_get_insert `{Countable K} {V} (c : BinaryCache K V) k v k' : indexed c →
  cache_get (cache_insert c k v) k' = if decide (k' = k) then Some v else cache_get c k'.
Proof.
  intros Hc. unfold cache_get, cache_insert. cbn. case_decide as Hk.
  - subst k'. rewrite lookup_insert_eq. cbn. unfold at_, len. rewrite Nat2N.id. by apply list_lookup_middle.
  - rewrite lookup_insert_ne by done. destruct (id_map c !! k') as [i|] eqn:Hi; [|done]. cbn. destruct (Hc _ _ Hi) as [w Hw].
    unfold at_ in *. rewrite Hw. by apply lookup_app_l_Some.
Qed.

Section LoadingSpec.
Context {Native G : Type} `{Graph G Node Edge} `{Toposort StructDefinitionIndex}.
Context (debug overflow_checks : bool) (verifier_fuel : nat).
Context (natives : NativeFunctions Native) (fetch : ModuleId → result VMError (list u8)).
Notation verify_module := (verify_module (G := G) debug overflow_checks verifier_fuel).
Notation load_with_dependencies := (load_with_dependencies (G := G) debug overflow_checks verifier_fuel natives).

(** ** The invariant of the cache *)

Definition from_store (id : ModuleId) (m : CompiledModule) : Prop := ∃ bytes, fetch id = Ok bytes ∧ CompiledModule_deserialize bytes = Ok m.
(** The module links with its dependencies, which are in the bundle or in the cache. *)
Definition linked (bundle : gmap ModuleId CompiledModule) (c : ModuleCache Native) (m : CompiledModule) : Prop := ∃ ids cached,
  immediate_dependencies m = Ok ids ∧ mapM (module_at c) (filter (λ id, bundle !! id = None) ids) = Some cached ∧
  dependencies_verify_module m (omap (λ id, bundle !! id) ids ++ (lm_module <$> cached)) = Ok tt.
Record loaded_well (bundle : gmap ModuleId CompiledModule) (c : ModuleCache Native) (id : ModuleId) (m : CompiledModule) : Prop := {
  lw_stored : from_store id m;
  lw_verified : verify_module m = Ok tt;
  lw_natives : check_natives natives m = Ok tt;
  lw_linked : linked bundle c m }.
Definition good (bundle : gmap ModuleId CompiledModule) (c : ModuleCache Native) : Prop :=
  indexed (mc_modules c) ∧ ∀ id l, module_at c id = Some l → loaded_well bundle c id (lm_module l).
(** Cached modules stay, and structs keep their indices. *)
Definition later (c c' : ModuleCache Native) : Prop :=
  (∀ id l, module_at c id = Some l → module_at c' id = Some l) ∧ mc_structs c `prefix_of` mc_structs c'.

#[export] Instance later_preorder : PreOrder later.
Proof. split; [by split|]. intros c1 c2 c3 [H1 H2] [H3 H4]. split; [auto|by etrans]. Qed.
Lemma good_new bundle : good bundle ModuleCache_new.
Proof. split; [apply indexed_new|]. intros id l Hl. unfold module_at, cache_get in Hl. cbn in Hl. by rewrite lookup_empty in Hl. Qed.
Lemma linked_later bundle c c' m : later c c' → linked bundle c m → linked bundle c' m.
Proof.
  intros [Hl _] (ids & cached & Hids & Hc & Hd). exists ids, cached. split_and!; [done| |done].
  eapply mapM_mono; [|exact Hc]. intros id l. apply Hl.
Qed.
Lemma loaded_well_later bundle c c' id m : later c c' → loaded_well bundle c id m → loaded_well bundle c' id m.
Proof. intros Hl []. constructor; [done..|]. by eapply linked_later. Qed.
Lemma Module_new_module m (c : ModuleCache Native) loaded : Module_new m c = Ok loaded → lm_module loaded = m.
Proof.
  unfold Module_new. intros (id & _ & Hm)%bind_Ok.
  repeat first [apply bind_Ok in Hm as (? & _ & Hm) | case_match]. by injection Hm as <-.
Qed.
(** What is new in the cache [c'] came from storage and was accepted. *)
Definition sourced (c c' : ModuleCache Native) : Prop := ∀ id l, module_at c' id = Some l → module_at c id = Some l ∨
  from_store id (lm_module l) ∧ verify_module (lm_module l) = Ok tt ∧ check_natives natives (lm_module l) = Ok tt.
(** How loading changes the cache: it only grows, from storage, and stays good. *)
Record grows (c c' : ModuleCache Native) : Prop := {
  gr_later : later c c';
  gr_sourced : indexed (mc_modules c) → indexed (mc_modules c') ∧ sourced c c' }.
Record grown (bundle : gmap ModuleId CompiledModule) (c c' : ModuleCache Native) : Prop := {
  gr_grows : grows c c';
  gr_good : good bundle c → good bundle c' }.
#[export] Instance grows_preorder : PreOrder grows.
Proof.
  split; [intros c; split; [done|split; [done|by left]]|]. intros c1 c2 c3 [L1 S1] [L2 S2].
  split; [by etrans|]. intros Hi. destruct (S1 Hi) as [Hi2 H1], (S2 Hi2) as [Hi3 H2]. split; [done|].
  intros id l [Hl|?]%H2; [by apply H1|by right].
Qed.
#[export] Instance grown_preorder bundle : PreOrder (grown bundle).
Proof. split; [by split|]. intros c1 c2 c3 [R1 G1] [R2 G2]. split; [by etrans|auto]. Qed.
(** Inserting a module that was loaded well *)
Lemma insert_grown bundle id m c : loaded_well bundle c id m →
  run_spec (insert natives id m) c (λ loaded c', grown bundle c c' ∧ module_at c' id = Some loaded) (λ _ c', c' = c).
Proof.
  intros Hm. unfold run_spec. pose proof (insert_cases natives id m c) as Hc.
  destruct (insert natives id m c) as [[loaded|e| |] c']; [|done..].
  destruct Hc as (Hat & [[_ ->]|(Hno & Hl & c1 & (Hms & (sts & Hs & _) & _) & Hnew & ->)]); [by split|].
  apply Module_new_module in Hnew. assert (Hlater : later c (publish id loaded c1)) by (split; [done|by exists sts]).
  assert (Hget : indexed (mc_modules c) → ∀ id' l, module_at (publish id loaded c1) id' = Some l → id' = id ∧ l = loaded ∨ module_at c id' = Some l).
  { intros Hix id' l. unfold module_at. cbn. rewrite Hms, cache_get_insert by done. case_decide as Hid; [intros [= <-]; by left|by right]. }
  assert (Hindexed : indexed (mc_modules c) → indexed (mc_modules (publish id loaded c1))) by (cbn; rewrite Hms; apply indexed_insert).
  split; [|done]. split; [split; [done|]|].
  - intros Hix. split; [auto|]. intros id' l [[-> ->]|Hl']%Hget; [right|by left|done]. rewrite Hnew. by destruct Hm.
  - intros [Hix Hg]. split; [auto|]. intros id' l Hl'. apply (loaded_well_later _ c); [done|].
    apply Hget in Hl' as [[-> ->]|Hl']; [by rewrite Hnew|by apply Hg|done].
Qed.

(** ** Loading modules *)

Lemma load_and_verify_ok id allow m : load_and_verify_module (G := G) debug overflow_checks verifier_fuel natives fetch id allow = Ok m →
  from_store id m ∧ verify_module m = Ok tt ∧ check_natives natives m = Ok tt.
Proof.
  unfold load_and_verify_module. intros (bytes & Hb & (m' & Hd & ([] & Hv & ([] & Hn & [= ->])%bind_Ok)%bind_Ok)%bind_Ok)%bind_Ok.
  assert (Hok : ∀ E F A (f : E → F) (r : result E A) a, map_err f r = Ok a → r = Ok a) by (by intros E F A f [x| | |] a [= ->]).
  apply Hok in Hd, Hv, Hn. split_and!; [|done..]. exists bytes. split; [|done]. destruct allow; [done|]. by apply Hok in Hb.
Qed.

Notation cache_ok bundle s s' := (grown bundle (ld_cache s) (ld_cache s')).
Section Bundle.
Context (bundle : gmap ModuleId CompiledModule).

Lemma dependencies_of_grown (load : ModuleId → Run (LoadState Native) VMError Module_) ids s :
  (∀ id s, run_spec (load id) s (λ l s', cache_ok bundle s s' ∧ module_at (ld_cache s') id = Some l) (λ _ s', cache_ok bundle s s')) →
  run_spec (dependencies_of bundle load ids) s
    (λ deps s', cache_ok bundle s s' ∧ deps.1 = omap (λ id, bundle !! id) ids ∧
       mapM (module_at (ld_cache s')) (filter (λ id, bundle !! id = None) ids) = Some deps.2)
    (λ _ s', cache_ok bundle s s').
Proof.
  intros Hload. revert s. induction ids as [|id ids IH]; intros s; [by apply run_spec_ret|]. cbn [dependencies_of].
  destruct (bundle !! id) as [m|] eqn:Hb.
  - apply run_spec_bind. eapply run_spec_weaken; [by apply IH| |done]. intros deps s' (Hc & H1 & H2). apply run_spec_ret.
    split; [done|]. rewrite filter_cons_False by (by rewrite Hb). cbn. by rewrite Hb, H1.
  - apply run_spec_bind, run_spec_get, run_spec_bind.
    assert (Hl : run_spec match module_at (ld_cache s) id with Some cached => mret cached | None => load id end s
      (λ l s', cache_ok bundle s s' ∧ module_at (ld_cache s') id = Some l) (λ _ s', cache_ok bundle s s')).
    { destruct (module_at (ld_cache s) id) as [l|] eqn:Hid; [by apply run_spec_ret|by apply Hload]. }
    eapply run_spec_weaken; [exact Hl| |done]. intros l s1 [Hg1 Hat]. apply run_spec_bind.
    eapply run_spec_weaken; [by apply IH| |].
    + intros deps s2 (Hg2 & H1 & H2). apply run_spec_ret. split; [by etrans|].
      rewrite filter_cons_True by done. cbn. rewrite Hb. split; [done|]. rewrite (proj1 (gr_later _ _ (gr_grows _ _ _ Hg2)) _ _ Hat). cbn. by rewrite H2.
    + intros e s2 Hg2. by etrans.
Qed.
Lemma load_dependencies_grown (load : ModuleId → bool → Run (LoadState Native) VMError Module_) m allow s :
  (∀ id s, run_spec (load id allow) s (λ l s', cache_ok bundle s s' ∧ module_at (ld_cache s') id = Some l) (λ _ s', cache_ok bundle s s')) →
  run_spec (load_and_verify_dependencies bundle load m allow) s
    (λ _ s', cache_ok bundle s s' ∧ linked bundle (ld_cache s') m) (λ _ s', cache_ok bundle s s').
Proof.
  intros Hload. unfold load_and_verify_dependencies. apply run_spec_bind, run_spec_lift; [|done]. intros ids Hids.
  apply run_spec_bind. eapply run_spec_weaken; [by apply dependencies_of_grown| |done]. intros deps s' (Hc & H1 & H2).
  apply run_spec_lift; [|done]. intros [] Hok. split; [done|]. exists ids, deps.2. split_and!; [|done|].
  - unfold accessed, partial in Hids. destruct (immediate_dependencies m); try done. by injection Hids as ->.
  - rewrite <- H1. destruct allow; [done|]. by destruct (dependencies_verify_module _ _).
Qed.
Lemma load_grown fuel id allow s :
  run_spec (load_with_dependencies bundle fetch fuel id allow) s
    (λ l s', cache_ok bundle s s' ∧ module_at (ld_cache s') id = Some l) (λ _ s', cache_ok bundle s s').
Proof.
  revert id allow s. induction fuel as [|fuel IH]; intros id allow s; [done|]. cbn [Loading.load_with_dependencies].
  apply run_spec_bind, run_spec_get. case_bool_decide; [unfold run_spec; cbn; reflexivity|].
  apply run_spec_bind, run_spec_lift; [|done]. intros m (Hst & Hv & Hn)%load_and_verify_ok.
  apply run_spec_bind, run_spec_modify, run_spec_bind, run_spec_lift; [|done]. intros friends _.
  apply run_spec_bind, run_spec_modify, run_spec_bind.
  eapply run_spec_weaken; [apply load_dependencies_grown; by intros; apply IH| |done].
  cbn. intros [] s1 [Hg Hlinked]. unfold run_spec, on_cache.
  pose proof (insert_grown bundle id m (ld_cache s1) ltac:(by constructor)) as Hi. unfold run_spec in Hi.
  destruct (insert natives id m (ld_cache s1)) as [[l|e| |] c']; cbn; [|by rewrite Hi|done..].
  destruct Hi as (Hg' & Hat). split; [|done]. by etrans.
Qed.
Lemma load_good fuel id allow s : good bundle (ld_cache s) →
  run_spec (load_with_dependencies bundle fetch fuel id allow) s
    (λ l s', (good bundle (ld_cache s') ∧ later (ld_cache s) (ld_cache s')) ∧ module_at (ld_cache s') id = Some l)
    (λ _ s', good bundle (ld_cache s') ∧ later (ld_cache s) (ld_cache s')).
Proof.
  intros Hs. eapply run_spec_weaken; [apply load_grown| |]; cbn.
  - intros l s' [[[] ?] ?]. by split_and!; [auto|..].
  - intros _ s' [[] ?]. auto.
Qed.

(** The same with the cache alone as the state *)
Context (fuel : nat) (bundle_unverified : gset ModuleId).

Lemma friends_grown (load : ModuleId → bool → Run (ModuleCache Native) VMError Module_) friends allow c :
  (∀ id c, run_spec (load id allow) c (λ _ c', grown bundle c c') (λ _ c', grown bundle c c')) →
  run_spec (load_and_verify_friends bundle bundle_unverified load friends allow) c (λ _ c', grown bundle c c') (λ _ c', grown bundle c c').
Proof.
  intros Hload. unfold load_and_verify_friends. apply run_spec_bind, run_spec_get.
  generalize (filter (λ mid, is_new_friend bundle bundle_unverified (id c) mid = true) friends). intros ids.
  apply (run_spec_each _ (λ _ c', grown bundle c c')); [done|]. intros _ id c' _ Hc'. apply run_spec_bind.
  eapply run_spec_weaken; [by apply Hload| |].
  - intros l c2 Hc2. apply (run_spec_ret (E := VMError)). by etrans.
  - intros e c2 Hc2. by etrans.
Qed.
Lemma load_with_friends_grown friend_fuel id allow c :
  run_spec (load_with_friends debug overflow_checks verifier_fuel fuel natives bundle bundle_unverified fetch (G := G) friend_fuel id allow) c
    (λ l c', grown bundle c c' ∧ module_at c' id = Some l) (λ _ c', grown bundle c c').
Proof.
  revert id allow c. induction friend_fuel as [|friend_fuel IH]; intros id allow c; [done|]. cbn [load_with_friends].
  apply run_spec_bind. unfold fresh_load.
  pose proof (load_grown fuel id allow {| ld_cache := c; ld_visited := ∅; ld_friends_discovered := [] |}) as Hl. unfold run_spec in Hl |- *.
  destruct (load_with_dependencies bundle fetch fuel id allow _) as [[l|e| |] s]; [|exact Hl|done..]. destruct Hl as [Hk Hat].
  match goal with |- match ?p with _ => _ end => change (run_spec (_ ← load_and_verify_friends bundle bundle_unverified
    (load_with_friends debug overflow_checks verifier_fuel fuel natives bundle bundle_unverified fetch friend_fuel) (ld_friends_discovered s) false; mret l)
    (ld_cache s) (λ l c', grown bundle c c' ∧ module_at c' id = Some l) (λ _ c', grown bundle c c')) end.
  cbn [ld_cache] in Hk. apply run_spec_bind. eapply run_spec_weaken; [apply friends_grown| |].
  - intros id' c'. eapply run_spec_weaken; [by apply IH| |done]. by intros l' c2 [].
  - intros [] c2 Hc2. apply (run_spec_ret (E := VMError)). split; [by etrans|]. by apply (gr_later _ _ (gr_grows _ _ _ Hc2)).
  - intros e c2 Hc2. by etrans.
Qed.
Notation keeps c c' := (good bundle c' ∧ later c c').
Lemma load_with_friends_good friend_fuel id allow c : good bundle c →
  run_spec (load_with_friends debug overflow_checks verifier_fuel fuel natives bundle bundle_unverified fetch (G := G) friend_fuel id allow) c
    (λ l c', keeps c c' ∧ module_at c' id = Some l) (λ _ c', keeps c c').
Proof.
  intros Hc. eapply run_spec_weaken; [apply load_with_friends_grown| |]; cbn.
  - intros l c' [[[] ?] ?]. by split_and!; [auto|..].
  - intros _ c' [[] ?]. auto.
Qed.
Lemma load_internal_good id c : good bundle c →
  run_spec (load_module_internal (G := G) debug overflow_checks verifier_fuel fuel natives bundle bundle_unverified fetch id) c
    (λ l c', keeps c c' ∧ module_at c' id = Some l) (λ _ c', keeps c c').
Proof.
  intros Hc. unfold load_module_internal. apply run_spec_bind, run_spec_get. destruct (module_at c id) as [l|] eqn:Hid.
  { by apply (run_spec_ret (E := VMError)). }
  apply run_spec_bind. eapply run_spec_weaken; [by apply load_with_friends_good| |done]. intros l c' Hl.
  apply run_spec_bind, run_spec_get, run_spec_bind, run_spec_lift; [|by intros; apply Hl]. intros [] _. by apply (run_spec_ret (E := VMError)).
Qed.
End Bundle.
(** ** The loader *)

Section Loader.
Context (fuel : nat) (sha3_256 : list u8 → ScriptHash).
Notation verify_script := (verify_script debug overflow_checks verifier_fuel).
Notation load_module := (load_module (G := G) debug overflow_checks verifier_fuel fuel natives fetch).
Notation load_type := (load_type (G := G) debug overflow_checks verifier_fuel fuel natives fetch).
Notation load_ty_args := (load_ty_args (G := G) debug overflow_checks verifier_fuel fuel natives fetch).
Notation load_function := (load_function (G := G) debug overflow_checks verifier_fuel fuel natives fetch).
Notation load_script := (load_script (G := G) debug overflow_checks verifier_fuel fuel natives sha3_256 fetch).

(** A cached script was accepted by the verifier. *)
Definition script_loaded_well (hash : ScriptHash) (s : CompiledScript) : Prop := ∃ blob,
  sha3_256 blob = hash ∧ CompiledScript_deserialize blob = Ok s ∧ verify_script s = Ok tt.
Record good_loader (self : Loader Native) : Prop := {
  gl_modules : good ∅ (l_module_cache self);
  gl_indexed : indexed (l_scripts self);
  gl_scripts hash s : cache_get (l_scripts self) hash = Some s → script_loaded_well hash (ls_script s) }.
(** What a call may change *)
Definition loader_keeps (self self' : Loader Native) : Prop := good_loader self' ∧ later (l_module_cache self) (l_module_cache self').
Definition keeping {A} (m : Run (Loader Native) VMError A) (self : Loader Native) : Prop :=
  run_spec m self (λ _ self', loader_keeps self self') (λ _ self', loader_keeps self self').

Lemma loader_keeps_refl self : good_loader self → loader_keeps self self.
Proof. by split. Qed.
Lemma loader_keeps_trans l1 l2 l3 : loader_keeps l1 l2 → loader_keeps l2 l3 → loader_keeps l1 l3.
Proof. intros [_ ?] [? ?]. by split; [|etrans]. Qed.
Lemma keeping_bind {A B} (m : Run (Loader Native) VMError A) (k : A → Run (Loader Native) VMError B) self :
  keeping m self → (∀ a self', good_loader self' → keeping (k a) self') → keeping (m ≫= k) self.
Proof.
  intros Hm Hk. apply run_spec_bind. eapply run_spec_weaken; [exact Hm| |done]. intros a l1 Hl1.
  eapply run_spec_weaken; [by apply Hk, Hl1| |]; intros ? l2 Hl2; exact (loader_keeps_trans _ _ _ Hl1 Hl2).
Qed.
Lemma keeping_ret {A} (a : A) self : good_loader self → keeping (mret a) self.
Proof. apply loader_keeps_refl. Qed.
Lemma keeping_lift {A} (r : result VMError A) self : good_loader self → keeping (run_lift r) self.
Proof. intros Hs. apply run_spec_lift; intros; by apply loader_keeps_refl. Qed.
Lemma keeping_read {A} (f : Loader Native → result VMError A) self : good_loader self → keeping (run_read f) self.
Proof. intros Hs. apply run_spec_read; intros; by apply loader_keeps_refl. Qed.
Lemma keeping_collect {A B} (f : A → Run (Loader Native) VMError B) l self :
  good_loader self → (∀ x self', x ∈ l → good_loader self' → keeping (f x) self') → keeping (run_collect f l) self.
Proof.
  intros Hs Hf. revert self Hs. induction l as [|x l IH]; intros self Hs; [by apply keeping_ret|].
  apply keeping_bind; [apply Hf; [left|done]|]. intros y l1 Hl1. apply keeping_bind; [apply IH; [|done]; intros; apply Hf; [by right|done]|].
  intros ys l2 Hl2. by apply keeping_ret.
Qed.
Lemma keeping_load_module id self : good_loader self → keeping (on_module_cache (load_module id)) self.
Proof.
  intros Hs. pose proof (load_internal_good ∅ fuel ∅ id (l_module_cache self) (gl_modules _ Hs)) as Hl.
  unfold keeping, run_spec, on_module_cache, Loading.load_module in *. destruct (load_module_internal _ _ _ _ _ _ _ _ _ _) as [[l|e| |] c']; [| |done..].
  - destruct Hl as [[Hg Hl] _]. split; [|done]. constructor; [done|apply Hs..].
  - destruct Hl as [Hg Hl]. split; [|done]. constructor; [done|apply Hs..].
Qed.
Lemma keeping_load_type tag self : good_loader self → keeping (load_type tag) self.
Proof.
  revert self. induction tag as [| | | | | |tag IH|a m n tags IH] using tag_ind; intros self Hs; cbn [Loading.load_type]; try (by apply keeping_ret).
  - apply keeping_bind; [by apply IH|]. intros ty l1 Hl1. by apply keeping_ret.
  - apply keeping_bind; [by apply keeping_load_module|]. intros _ l1 Hl1. apply keeping_bind; [by apply keeping_read|]. intros st l2 Hl2.
    destruct (_ && _); [by apply keeping_ret|]. apply keeping_bind.
    + apply keeping_collect; [done|]. intros tag l3 Hin Hl3. rewrite Forall_forall in IH. by apply IH.
    + intros tys l3 Hl3. apply keeping_bind; [by apply keeping_read|]. intros _ l4 Hl4. by apply keeping_ret.
Qed.
Lemma keeping_load_ty_args constraints location tags self : good_loader self → keeping (load_ty_args constraints location tags) self.
Proof.
  intros Hs. apply keeping_bind; [by apply keeping_collect; [|intros; apply keeping_load_type]|]. intros tys l1 Hl1.
  apply keeping_bind; [by apply keeping_read|]. intros _ l2 Hl2. by apply keeping_ret.
Qed.
Lemma keeping_load_function name id tags is_script self : good_loader self → keeping (load_function name id tags is_script) self.
Proof.
  intros Hs. apply keeping_bind; [by apply keeping_load_module|]. intros m l1 H1. apply keeping_bind; [by apply keeping_read|]. intros f l2 H2.
  apply keeping_bind; [by apply keeping_read|]. intros ps l3 H3. apply keeping_bind; [by apply keeping_read|]. intros rs l4 H4.
  apply keeping_bind; [by apply keeping_load_ty_args|]. intros tys l5 H5. apply keeping_bind; [destruct is_script; [by apply keeping_lift|by apply keeping_ret]|].
  intros _ l6 H6. by apply keeping_ret.
Qed.
Lemma load_script_verified blob self : good_loader self →
  run_spec (deserialize_and_verify_script (G := G) debug overflow_checks verifier_fuel fuel natives fetch blob) self
    (λ s self', loader_keeps self self' ∧ script_loaded_well (sha3_256 blob) s) (λ _ self', loader_keeps self self').
Proof.
  intros Hs. unfold deserialize_and_verify_script. apply run_spec_bind, run_spec_lift; [|by intros; apply loader_keeps_refl]. intros s Hd.
  apply run_spec_bind, run_spec_lift; [|by intros; apply loader_keeps_refl]. intros [] Hv.
  apply run_spec_bind, run_spec_lift; [|by intros; apply loader_keeps_refl]. intros ids _.
  apply run_spec_bind. eapply run_spec_weaken; [apply keeping_collect; [done|by intros; apply keeping_load_module]| |done].
  intros deps l1 H1. apply run_spec_bind, run_spec_lift; [|done]. intros _ _. apply (run_spec_ret (E := VMError)). split; [done|].
  exists blob. split_and!; [done| |done]. destruct (CompiledScript_deserialize blob); try done. by injection Hd as ->.
Qed.
Lemma Script_new_script s hash (c : ModuleCache Native) script : Script_new s hash c = Ok script → ls_script script = s.
Proof.
  unfold Script_new. intros Hs. repeat first [apply bind_Ok in Hs as (? & _ & Hs) | case_match]. by injection Hs as <-.
Qed.
Lemma keeping_keep_script hash script self : good_loader self → script_loaded_well hash (ls_script script) → keeping (keep_script hash script) self.
Proof.
  intros Hs Hw. unfold keeping, run_spec, keep_script, script_cache_insert. destruct (script_cache_get _ hash); [by split; [destruct Hs|]|].
  split; [|done]. constructor; cbn; [apply Hs|apply indexed_insert, Hs|]. intros hash' s'. rewrite cache_get_insert by apply Hs.
  case_decide as Hh; [by intros [= <-]; subst hash'|]. apply Hs.
Qed.
Lemma keeping_load_script blob tags self : good_loader self → keeping (load_script blob tags) self.
Proof.
  intros Hs. unfold load_script. apply keeping_bind; [by apply run_spec_get, loader_keeps_refl|]. intros cached l1 H1.
  apply keeping_bind; [|intros main l2 H2; apply keeping_bind; [by apply keeping_load_ty_args|]; intros tys l3 H3; by apply keeping_ret].
  destruct cached as [main|]; [by apply keeping_ret|]. apply run_spec_bind. eapply run_spec_weaken; [by apply load_script_verified| |done].
  intros s l2 [H2 Hw]. eapply run_spec_weaken; [|intros ? l3 H3; exact (loader_keeps_trans _ _ _ H2 H3)..].
  unfold keeping in *. apply run_spec_bind, run_spec_read; [|intros; by apply loader_keeps_refl, H2].
  intros script Hscript. apply keeping_keep_script; [apply H2|]. by rewrite (Script_new_script _ _ _ _ Hscript).
Qed.

(** What a loader is asked to do *)
Inductive Request : Type :=
| RModule (id : ModuleId)
| RType (tag : TypeTag)
| RFunction (name : Identifier) (id : ModuleId) (ty_args : list TypeTag) (is_script_execution : bool)
| RScript (blob : list u8) (ty_args : list TypeTag).
Definition forget {A} (m : Run (Loader Native) VMError A) : Run (Loader Native) VMError unit := _ ← m; mret tt.
Definition answer (r : Request) : Run (Loader Native) VMError unit :=
  match r with
  | RModule id => forget (on_module_cache (load_module id))
  | RType tag => forget (load_type tag)
  | RFunction name id ty_args is_script => forget (load_function name id ty_args is_script)
  | RScript blob ty_args => forget (load_script blob ty_args)
  end.
(** The loader after requests that were answered, each with a value or an error *)
Inductive answered : list Request → Loader Native → Loader Native → Prop :=
| answered_nil self : answered [] self self
| answered_ok r rs self self' self'' : answer r self = (Ok tt, self') → answered rs self' self'' → answered (r :: rs) self self''
| answered_err r rs e self self' self'' : answer r self = (Err e, self') → answered rs self' self'' → answered (r :: rs) self self''.
Definition Loader_new : Loader Native := {| l_scripts := cache_new; l_module_cache := ModuleCache_new; l_natives := natives |}.

Lemma keeping_answer r self : good_loader self → keeping (answer r) self.
Proof.
  intros Hs. destruct r; cbn [answer]; apply keeping_bind; try (by intros; apply keeping_ret).
  - by apply keeping_load_module. - by apply keeping_load_type. - by apply keeping_load_function. - by apply keeping_load_script.
Qed.
Lemma answered_good rs self self' : answered rs self self' → good_loader self → loader_keeps self self'.
Proof.
  induction 1 as [self|r rs l1 l2 l3 Hr _ IH|r rs e l1 l2 l3 Hr _ IH]; intros Hs; [by apply loader_keeps_refl|..];
    pose proof (keeping_answer r l1 Hs) as Hk; unfold keeping, run_spec in Hk; rewrite Hr in Hk; (eapply loader_keeps_trans; [exact Hk|apply IH, Hk]).
Qed.
Lemma good_loader_new : good_loader Loader_new.
Proof. constructor; cbn; [apply good_new|apply indexed_new|]. intros hash s. unfold cache_get. cbn. by rewrite lookup_empty. Qed.
End Loader.
End LoadingSpec.
