(* ===== verification/Loads.v ===== *)
(** * Loads: what a loader promises, and loaders that run

    Every call of the loader ends when storage holds finitely many modules: a descent
    through the dependencies visits a module once, and the search of friends goes on from
    modules that were not cached.  Then the properties of [Loading], of whole sequences of
    requests, and storages with small modules on which the loader is evaluated. *)

From S2P Require Import Prelude CoreTypes VmStatus Abilities FileFormat Errors Serializer DeserializerTotal Views BoundsChecker InBounds CheckedUnits RuntimeTypes Checks SignatureChecker ModulePasses Graphs StructDefs InstantiationLoops CyclicDependencies Dependencies Verifier LoadedCode Effects TypeTags Loading.

(** ** Computations that do not run out of fuel *)

Definition ends {E A} (r : result E A) : Prop := match r with OutOfFuel => False | _ => True end.
Section Ends.
Context {E : Type}.
Lemma ends_bind {A B} (m : result E A) (k : A → result E B) : ends m → (∀ a, m = Ok a → ends (k a)) → ends (m ≫= k).
Proof. destruct m; cbn; auto. Qed.
Lemma ends_map_err {F A} (f : E → F) (r : result E A) : ends r → ends (map_err f r).
Proof. by destruct r. Qed.
Lemma ends_unwrap {A} (o : option A) : ends (unwrap (E := E) o).
Proof. by destruct o. Qed.
Lemma ends_ok_or {A} (e : E) (o : option A) : ends (ok_or e o).
Proof. by destruct o. Qed.
Lemma ends_post {A} c (a : A) : ends (assumed_postcondition (E := E) c a).
Proof. by destruct c. Qed.
Lemma ends_collect {A B} (f : A → result E B) l : (∀ x, x ∈ l → ends (f x)) → ends (collect f l).
Proof.
  induction l as [|x l IH]; intros Hf; [done|]. cbn. apply ends_bind; [apply Hf; left|]. intros y _.
  apply ends_bind; [|done]. apply IH. intros; apply Hf. by right.
Qed.
Lemma ends_try_fold {A B} (f : B → A → result E B) l b : (∀ b x, ends (f b x)) → ends (try_fold f l b).
Proof. intros Hf. revert b. induction l as [|x l IH]; intros b; [done|]. cbn. by apply ends_bind. Qed.
Lemma ends_for_each {A} (f : A → result E unit) l : (∀ x, ends (f x)) → ends (for_each f l).
Proof. intros Hf. by apply ends_try_fold. Qed.
End Ends.
Lemma ends_partial {A} (r : result StatusCode A) : ends r → ends (partial r).
Proof. by destruct r. Qed.
Lemma ends_in_module {A} m (r : result PartialVMError A) : ends r → ends (in_module m r).
Proof. unfold in_module. destruct r; [done| |done..]. by destruct (self_id _) as [[]| | |]. Qed.

Ltac end_step :=
  first [ done | apply ends_unwrap | apply ends_ok_or | apply ends_post
        | apply ends_partial | apply ends_map_err | apply ends_in_module
        | apply ends_bind; [|intros ? _] | apply ends_collect; intros ? _ | apply ends_try_fold; intros ? ? | apply ends_for_each; intros ?
        | case_match ].
Ltac end_with H := repeat first [apply H | end_step].

(** ** The checks of a module *)

Section Checks.
Context (v : BinaryIndexedView).
Lemma ends_module_handle_at i : ends (module_handle_at v i). Proof. unfold module_handle_at. repeat end_step. Qed.
Lemma ends_struct_handle_at i : ends (struct_handle_at v i). Proof. unfold struct_handle_at. repeat end_step. Qed.
Lemma ends_function_handle_at i : ends (function_handle_at v i). Proof. unfold function_handle_at. repeat end_step. Qed.
Lemma ends_identifier_at i : ends (identifier_at v i). Proof. unfold identifier_at. repeat end_step. Qed.
Lemma ends_address_identifier_at i : ends (address_identifier_at v i). Proof. unfold address_identifier_at. repeat end_step. Qed.
Lemma ends_signature_at i : ends (signature_at v i). Proof. unfold signature_at. repeat end_step. Qed.
Lemma ends_function_instantiation_at i : ends (function_instantiation_at v i). Proof. unfold function_instantiation_at. repeat end_step. Qed.
Lemma ends_module_id_for_handle h : ends (module_id_for_handle v h).
Proof. unfold module_id_for_handle. repeat first [apply ends_address_identifier_at | apply ends_identifier_at | end_step]. Qed.
Lemma ends_self_id : ends (self_id v).
Proof. unfold self_id. repeat first [apply ends_module_handle_at | apply ends_module_id_for_handle | end_step]. Qed.
End Checks.
Create HintDb ends.
#[export] Hint Resolve ends_module_handle_at ends_struct_handle_at ends_function_handle_at ends_identifier_at ends_address_identifier_at
  ends_signature_at ends_function_instantiation_at ends_module_id_for_handle ends_self_id : ends.
Ltac ends := repeat first [solve [auto 1 with ends nocore] | end_step].

Section Module.
Context (m : CompiledModule).
Lemma ends_module_self_id : ends (module_self_id m). Proof. unfold module_self_id. ends. Qed.
Lemma ends_immediate_friends : ends (immediate_friends m). Proof. unfold immediate_friends. ends. Qed.
Lemma ends_immediate_dependencies : ends (immediate_dependencies m).
Proof. unfold immediate_dependencies, self_handle. ends. Qed.
Lemma ends_check_natives {Native} (natives : NativeFunctions Native) : ends (check_natives natives m).
Proof. unfold check_natives, check_native, check_native_struct. ends. Qed.
End Module.
#[export] Hint Resolve ends_module_self_id ends_immediate_friends ends_immediate_dependencies ends_check_natives : ends.

Lemma ends_struct_id v h : ends (struct_id v h). Proof. unfold struct_id. ends. Qed.
#[export] Hint Resolve ends_struct_id : ends.
Lemma ends_compare_structs v m i j : ends (compare_structs v m i j). Proof. unfold compare_structs. ends. Qed.
#[export] Hint Resolve ends_compare_structs : ends.
Lemma ends_compare_types v m t u : ends (compare_types v m t u).
Proof.
  revert u. induction t as [| | | | | |t IH|i|i ts IH|t IH|t IH|i] using SignatureToken.token_ind; intros []; cbn [compare_types]; auto; try by ends.
  apply ends_bind; [by ends|]. intros _ _. case_match; [done|]. clear -IH. revert ts0.
  induction IH as [|t ts Ht _ IH]; intros [|u us]; try done. by apply ends_bind.
Qed.
#[export] Hint Resolve ends_compare_types : ends.
Lemma ends_compare_signatures v m s t : ends (compare_cross_module_signatures v m s t).
Proof. unfold compare_cross_module_signatures. ends. Qed.
#[export] Hint Resolve ends_compare_signatures : ends.
Lemma ends_dependencies_verify v deps : ends (dependencies_verify v deps).
Proof.
  unfold dependencies_verify. apply ends_bind; [|intros ctx _; apply ends_bind; [|intros _ _; apply ends_bind; [|intros _ _; apply ends_bind; [|intros _ _]]]].
  - unfold Context_new, dependency_map_of, add_struct_names, add_function_names, function_visibilities_of, function_id. ends.
  - unfold verify_imported_modules. ends.
  - unfold verify_imported_structs, verify_imported_struct. ends.
  - unfold verify_imported_functions, verify_imported_function. ends.
  - unfold verify_all_script_visibility_usage, verify_script_visibility_usage, verify_call_visibility. ends.
Qed.
Lemma ends_dependencies_verify_module m deps : ends (dependencies_verify_module m deps).
Proof. apply ends_in_module, ends_dependencies_verify. Qed.

(** ** The search for cycles, whose depth is the number of known modules *)

Section Search.
Context (target : ModuleId) (next_ids : ModuleId → result PartialVMError (list ModuleId)) (K : gset ModuleId).
Context (HK : ∀ x, x ∉ K → ∃ e, next_ids x = Err e) (Hends : ∀ x, ends (next_ids x)).

Lemma search_ends fuel x V : (S (size (K ∖ V)) < fuel)%nat → ends (collect_all_recursive target next_ids fuel x V) ∧
  ∀ b V', collect_all_recursive target next_ids fuel x V = Ok (b, V') → V ⊆ V'.
Proof.
  revert x V. induction fuel as [|fuel IH]; intros x V Hf; [lia|]. cbn [collect_all_recursive].
  case_bool_decide; [by split; [|intros ? ? [= <- <-]]|]. case_bool_decide as Hin; [by split; [|intros ? ? [= <- <-]]|].
  destruct (decide (x ∈ K)) as [Hx|Hx]; [|by destruct (HK x Hx) as [e ->]].
  pose proof (Hends x) as Hn. destruct (next_ids x) as [l|e| |]; try done. cbn [mbind result_bind].
  assert (Hsz : (S (size (K ∖ ({[ x ]} ∪ V))) < fuel)%nat).
  { enough (size (K ∖ ({[ x ]} ∪ V)) < size (K ∖ V))%nat by lia. apply subset_size. set_solver. }
  assert (HV : V ⊆ {[ x ]} ∪ V) by set_solver. revert Hsz HV. generalize ({[ x ]} ∪ V). induction l as [|y l IHl]; intros W Hsz HV.
  { by split; [|intros ? ? [= <- <-]]. }
  destruct (IH y W Hsz) as [He HW]. destruct (collect_all_recursive target next_ids fuel y W) as [[[] V']|e| |]; try done; cbn [mbind result_bind].
  - split; [done|]. intros ? ? [= <- <-]. etrans; [exact HV|by eapply HW].
  - specialize (HW _ _ eq_refl). apply IHl; [done| |by transitivity W]. enough (size (K ∖ V') ≤ size (K ∖ W))%nat by lia. apply subseteq_size. set_solver.
Qed.
Lemma searches_end fuel items e : (S (size K) < fuel)%nat → ends (collect_all_with_cycle_detection target next_ids fuel items e).
Proof.
  intros Hf. unfold collect_all_with_cycle_detection.
  apply ends_try_fold. intros V item. apply ends_bind; [|intros [[] V']; done]. apply search_ends.
  enough (size (K ∖ V) ≤ size K)%nat by lia. apply subseteq_size. set_solver.
Qed.
End Search.

(** ** Computations with a state *)

(** The computation does not run out of fuel; [Q] holds of what it returns. *)
Definition run_ends {S E A} (m : Run S E A) (s : S) (Q : A → S → Prop) : Prop :=
  match m s with (Ok a, s') => Q a s' | (OutOfFuel, _) => False | _ => True end.
Section RunEnds.
Context {S E : Type}.
Lemma run_ends_bind {A B} (m : Run S E A) (k : A → Run S E B) s Q : run_ends m s (λ a s', run_ends (k a) s' Q) → run_ends (m ≫= k) s Q.
Proof. unfold run_ends. rewrite run_bind_eq. by destruct (m s) as [[] ?]. Qed.
Lemma run_ends_weaken {A} (m : Run S E A) s (Q Q' : A → S → Prop) : run_ends m s Q → (∀ a s', Q a s' → Q' a s') → run_ends m s Q'.
Proof. unfold run_ends. destruct (m s) as [[] ?]; auto. Qed.
Lemma run_ends_ret {A} (a : A) s (Q : A → S → Prop) : Q a s → run_ends (E := E) (mret a) s Q.
Proof. done. Qed.
Lemma run_ends_get {A} (f : S → A) s (Q : A → S → Prop) : Q (f s) s → run_ends (E := E) (run_get f) s Q.
Proof. done. Qed.
Lemma run_ends_modify (f : S → S) s (Q : unit → S → Prop) : Q tt (f s) → run_ends (E := E) (run_modify f) s Q.
Proof. done. Qed.
Lemma run_ends_lift {A} (r : result E A) s (Q : A → S → Prop) : ends r → (∀ a, r = Ok a → Q a s) → run_ends (run_lift r) s Q.
Proof. unfold run_ends, run_lift. destruct r; auto. Qed.
Lemma run_ends_each {A} (f : A → Run S E unit) (I : S → Prop) l s :
  I s → (∀ x s, x ∈ l → I s → run_ends (f x) s (λ _, I)) → run_ends (run_each f l) s (λ _, I).
Proof.
  revert s. induction l as [|x l IH]; intros s Hs Hf; [done|]. apply run_ends_bind. eapply run_ends_weaken; [apply Hf; [left|done]|].
  intros [] s' Hs'. apply IH; [done|]. intros; apply Hf; [by right|done].
Qed.
(** The same when nothing is said of what is returned *)
Definition run_true {S A} : A → S → Prop := λ _ _, True.
Lemma run_ends_each_true {A} (f : A → Run S E unit) l s : (∀ x s, run_ends (f x) s run_true) → run_ends (run_each f l) s run_true.
Proof. intros Hf. by apply (run_ends_each f (λ _, True)); [|intros; apply Hf]. Qed.
Lemma run_ends_map_err {F A} (f : F → E) (m : Run S F A) s (Q : A → S → Prop) : run_ends m s Q → run_ends (run_map_err f m) s Q.
Proof. unfold run_ends, run_map_err. by destruct (m s) as [[] ?]. Qed.
End RunEnds.

(** ** Inserting a module *)

Section Insert.
Context {Native : Type} (natives : NativeFunctions Native) (m : CompiledModule).
Lemma ends_resolve_struct (c : ModuleCache Native) name id : ends (resolve_struct_by_name c name id).
Proof. unfold resolve_struct_by_name, struct_at. ends. Qed.
Lemma ends_resolve_function (c : ModuleCache Native) name id : ends (resolve_function_by_name c name id).
Proof. unfold resolve_function_by_name. ends. Qed.
Lemma ends_make_type view tok resolver : (∀ name id, ends (resolver name id)) → ends (make_type_internal view tok resolver).
Proof.
  intros Hr. assert (Hn : ∀ i, ends (struct_handle_name view i)) by (intros i; unfold struct_handle_name; ends).
  induction tok as [| | | | | |t IH|i|i ts IH|t IH|t IH|i] using SignatureToken.token_ind; cbn [make_type_internal]; try done;
    repeat first [apply Hr | apply Hn | done | apply ends_bind; [|intros ? _] | case_match].
  apply ends_collect. rewrite Forall_forall in IH. exact IH.
Qed.
Lemma ends_make_type_while_loading (c : ModuleCache Native) tok : ends (make_type_while_loading c m tok).
Proof.
  unfold make_type_while_loading. apply ends_bind; [ends|]. intros id _. apply ends_make_type. intros name mid.
  unfold resolver_while_loading, resolver_of_cache. case_match; [ends|]. apply ends_bind; [apply ends_resolve_struct|]. by intros [] _.
Qed.
Hint Resolve ends_resolve_struct ends_resolve_function ends_make_type_while_loading : ends.
Lemma ends_Function_new idx def : ends (Function_new natives idx def m).
Proof. unfold Function_new. ends. Qed.
Lemma ends_make_struct_type def idx : ends (make_struct_type m def idx).
Proof. unfold make_struct_type. ends. Qed.
Lemma ends_search_struct id l name refs : ends (search_struct id l name refs).
Proof. revert refs. induction l as [|[i st] l IH]; intros refs; cbn; [done|]. by repeat case_match. Qed.
Lemma ends_search_function id (l : list (N * Function Native)) name refs : ends (search_function id l name refs).
Proof. revert refs. induction l as [|[i st] l IH]; intros refs; cbn; [done|]. by repeat case_match. Qed.
Hint Resolve ends_Function_new ends_make_struct_type ends_search_struct ends_search_function : ends.
Lemma ends_Module_new (c : ModuleCache Native) : ends (Module_new m c).
Proof.
  unfold Module_new, add_struct_ref, add_struct_def, struct_instantiation_of, function_instantiation_of, instantiation_of, add_function_ref,
    add_function_def, add_single_type, field_handle_of, field_instantiation_of, struct_at. ends.
Qed.
Lemma insert_ends id c : run_ends (insert natives id m) c run_true.
Proof.
  unfold insert. apply run_ends_bind, run_ends_get. destruct (module_at c id); [done|]. apply run_ends_bind.
  apply (run_ends_weaken _ _ run_true).
  - unfold add_module. apply run_ends_bind, run_ends_map_err. apply (run_ends_weaken _ _ run_true).
    + apply run_ends_each_true. intros p c'. apply run_ends_bind, run_ends_lift; [apply ends_make_struct_type|done].
    + intros _ c1 _. apply run_ends_bind. apply (run_ends_weaken _ _ run_true).
      * assert (Hload : run_ends (load_field_types m (len (mc_structs c))) c1 run_true).
        { unfold load_field_types, run_ends. match goal with |- match ?m c1 with _ => _ end => change (run_ends m c1 run_true) end.
          apply run_ends_bind, run_ends_lift.
          - apply ends_collect. intros def _. unfold field_types. ends.
          - intros types _. apply run_ends_each_true. intros p c'. unfold run_ends, assign_fields. by destruct (at_ _ _). }
        unfold run_ends, run_cleanup in *. by destruct (load_field_types m _ c1) as [[] ?].
      * intros _ c2 _. apply run_ends_map_err, run_ends_each_true. intros p c'. apply run_ends_bind, run_ends_lift; [apply ends_Function_new|done].
  - intros _ c' _. unfold run_ends, link_module. pose proof (ends_Module_new c') as Hn. by destruct (Module_new m c').
Qed.
End Insert.

(** ** Loading *)

Section Loading.
Context {Native G : Type} `{Graph G Node Edge} `{Toposort StructDefinitionIndex}.
Context (debug overflow_checks : bool) (verifier_fuel fuel : nat).
Context (natives : NativeFunctions Native) (fetch : ModuleId → result VMError (list u8)).
Notation verify_module := (verify_module (G := G) debug overflow_checks verifier_fuel).
Notation load_with_dependencies := (load_with_dependencies (G := G) debug overflow_checks verifier_fuel natives).

(** Storage answers, holds the modules [U] only, and the verifier ends on them. *)
Context (U : gset ModuleId).
Record finite_store : Prop := {
  fs_answers id : ends (fetch id);
  fs_modules id : id ∉ U → ∃ e, fetch id = Err e;
  fs_verifier id m : from_store fetch id m → ends (verify_module m) }.
Context (HU : finite_store).
Context (bundle : gmap ModuleId CompiledModule) (bundle_unverified : gset ModuleId).

Lemma ends_deserialize binary : ends (CompiledModule_deserialize binary).
Proof.
  unfold CompiledModule_deserialize. apply ends_bind; [|intros m' _; apply ends_bind; [|done]].
  - pose proof (deserialize_compiled_module_no_panic binary) as Hn. by destruct (Deserializer.deserialize_compiled_module binary).
  - pose proof (errs_no_panic _ _ (verify_module_errs m')) as Hn. by destruct (BoundsChecker.verify_module m').
Qed.
Lemma load_and_verify_ends id allow :
  ends (load_and_verify_module (G := G) debug overflow_checks verifier_fuel natives fetch id allow) ∧
  ∀ m, load_and_verify_module (G := G) debug overflow_checks verifier_fuel natives fetch id allow = Ok m → id ∈ U.
Proof.
  split.
  - unfold load_and_verify_module. apply ends_bind; [destruct allow; [|apply ends_map_err]; apply (fs_answers HU)|]. intros bytes Hb.
    apply ends_bind; [apply ends_map_err, ends_deserialize|]. intros m' Hm. apply ends_bind; [apply ends_map_err|].
    + apply (fs_verifier HU id). exists bytes. split; [by destruct allow, (fetch id)|destruct (CompiledModule_deserialize bytes); try done; by injection Hm as ->].
    + intros _ _. apply ends_bind; [apply ends_map_err; ends|done].
  - intros m ((bytes & Hb & _) & _)%load_and_verify_ok. destruct (decide (id ∈ U)) as [|Hn]; [done|].
    destruct (fs_modules HU id Hn) as [e He]. by rewrite He in Hb.
Qed.

Notation left_of s := (size (U ∖ ld_visited s)).
Lemma visited_mono (s s' : LoadState Native) : ld_visited s ⊆ ld_visited s' → (left_of s' ≤ left_of s)%nat.
Proof. intros Hs. apply subseteq_size. set_solver. Qed.
Lemma dependencies_of_ends (load : ModuleId → Run (LoadState Native) VMError Module_) n ids s :
  (left_of s < n)%nat →
  (∀ id s, (left_of s < n)%nat → run_ends (load id) s (λ _ s', ld_visited s ⊆ ld_visited s')) →
  run_ends (dependencies_of bundle load ids) s (λ _ s', ld_visited s ⊆ ld_visited s').
Proof.
  intros Hs Hload. revert s Hs. induction ids as [|id ids IH]; intros s Hs; [by apply (run_ends_ret (E := VMError))|]. cbn [dependencies_of].
  destruct (bundle !! id) as [m|].
  - apply run_ends_bind. eapply run_ends_weaken; [by apply IH|]. intros deps s' Hv. by apply (run_ends_ret (E := VMError)).
  - apply run_ends_bind, run_ends_get, run_ends_bind.
    assert (Hl : run_ends match module_at (ld_cache s) id with Some cached => mret cached | None => load id end s
      (λ _ s', ld_visited s ⊆ ld_visited s')) by (destruct (module_at (ld_cache s) id); [by apply (run_ends_ret (E := VMError))|by apply Hload]).
    eapply run_ends_weaken; [exact Hl|]. intros l s1 H1. apply run_ends_bind. eapply run_ends_weaken; [apply IH|].
    + pose proof (visited_mono s s1 H1). lia.
    + intros deps s2 H2. apply (run_ends_ret (E := VMError)). exact (transitivity H1 H2).
Qed.
Lemma load_dependencies_ends (load : ModuleId → bool → Run (LoadState Native) VMError Module_) n m allow s :
  (left_of s < n)%nat →
  (∀ id s, (left_of s < n)%nat → run_ends (load id allow) s (λ _ s', ld_visited s ⊆ ld_visited s')) →
  run_ends (load_and_verify_dependencies bundle load m allow) s (λ _ s', ld_visited s ⊆ ld_visited s').
Proof.
  intros Hs Hload. unfold load_and_verify_dependencies. apply run_ends_bind, run_ends_lift; [unfold accessed; ends|]. intros ids _.
  apply run_ends_bind. eapply run_ends_weaken; [by eapply dependencies_of_ends|]. intros deps s' Hv.
  apply run_ends_lift; [|done]. destruct allow; [|apply ends_map_err]; apply ends_dependencies_verify_module.
Qed.
Lemma load_ends n id allow s : (left_of s < n)%nat →
  run_ends (load_with_dependencies bundle fetch n id allow) s (λ _ s', ld_visited s ⊆ ld_visited s' ∧ id ∈ U).
Proof.
  revert id allow s. induction n as [|n IH]; intros id allow s Hs; [lia|]. cbn [Loading.load_with_dependencies].
  apply run_ends_bind, run_ends_get. case_bool_decide as Hin; [done|].
  destruct (load_and_verify_ends id allow) as [Hl Hid]. apply run_ends_bind, run_ends_lift; [done|]. intros m Hm%Hid.
  apply run_ends_bind, run_ends_modify, run_ends_bind, run_ends_lift; [unfold accessed; ends|]. intros friends _.
  apply run_ends_bind, run_ends_modify, run_ends_bind. eapply run_ends_weaken; [eapply (load_dependencies_ends _ n)|].
  - cbn. enough (size (U ∖ ({[ id ]} ∪ ld_visited s)) < left_of s)%nat by lia. apply subset_size. set_solver.
  - intros id' s' Hs'. eapply run_ends_weaken; [by apply IH|]. by intros l s2 [].
  - cbn. intros _ s1 H1. unfold run_ends, on_cache. pose proof (insert_ends natives m id (ld_cache s1)) as Hi. unfold run_ends in Hi.
    destruct (insert natives id m (ld_cache s1)) as [[] ?]; try done. cbn. split; [set_solver|done].
Qed.

(** The modules of storage that are not cached *)
Definition uncached (c : ModuleCache Native) : gset ModuleId := filter (λ x, module_at c x = None) U.
Lemma uncached_later c c' : later c c' → uncached c' ⊆ uncached c.
Proof.
  intros [Hl _] x. unfold uncached. rewrite !elem_of_filter. intros [Hx Hin]. split; [|done].
  destruct (module_at c x) as [l|] eqn:Hc; [|done]. by rewrite (Hl _ _ Hc) in Hx.
Qed.
Context (Hfuel : (S (size U) < fuel)%nat).
Lemma fresh_load_ends id allow c : good debug overflow_checks verifier_fuel natives fetch bundle c (G := G) →
  run_ends (fresh_load (G := G) debug overflow_checks verifier_fuel fuel natives bundle fetch id allow) c
    (λ r c', id ∈ U ∧ good debug overflow_checks verifier_fuel natives fetch bundle c' (G := G) ∧ later c c' ∧ module_at c' id = Some r.1).
Proof.
  intros Hc. unfold run_ends, fresh_load. set (s := {| ld_cache := c; ld_visited := ∅; ld_friends_discovered := [] |}).
  pose proof (load_ends fuel id allow s) as He. pose proof (load_good debug overflow_checks verifier_fuel natives fetch bundle fuel id allow s Hc) as Hg.
  unfold run_ends, run_spec in He, Hg. destruct (load_with_dependencies bundle fetch fuel id allow s) as [[l|e| |] s']; cbn in *; try done.
  - destruct Hg as [[Hg Hl] Hat]. split_and!; [|done..]. apply He. enough (size (U ∖ ∅) ≤ size U)%nat by lia. apply subseteq_size. set_solver.
  - apply He. enough (size (U ∖ ∅) ≤ size U)%nat by lia. apply subseteq_size. set_solver.
Qed.
Lemma load_with_friends_ends n id allow c : good debug overflow_checks verifier_fuel natives fetch bundle c (G := G) →
  (0 < n)%nat → (id ∈ U → S (size (uncached c ∖ {[ id ]})) < n)%nat →
  run_ends (load_with_friends (G := G) debug overflow_checks verifier_fuel fuel natives bundle bundle_unverified fetch n id allow) c run_true.
Proof.
  revert id allow c. induction n as [|n IH]; intros id allow c Hc Hn Hm; [lia|]. cbn [load_with_friends].
  apply run_ends_bind. eapply run_ends_weaken; [by apply fresh_load_ends|]. intros [l friends] c1 (Hid & Hg & Hl & Hat). cbn [fst snd] in *.
  specialize (Hm Hid). apply run_ends_bind. apply (run_ends_weaken _ _ run_true); [|done].
  unfold load_and_verify_friends. apply run_ends_bind, run_ends_get.
  eapply run_ends_weaken; [apply (run_ends_each _ (λ c', good debug overflow_checks verifier_fuel natives fetch bundle c' (G := G) ∧ later c1 c'))|done];
    [done|]. intros x c2 [Hx _]%list_elem_of_filter [Hg2 Hl2]. apply run_ends_bind.
  assert (Hnone : module_at c1 x = None).
  { unfold is_new_friend in Hx. destruct (module_at c1 x) eqn:E; [|done]. rewrite bool_decide_true in Hx; [done|]. unfold Datatypes.id. rewrite E. by eexists. }
  pose proof (load_with_friends_good debug overflow_checks verifier_fuel natives fetch bundle fuel bundle_unverified n x false c2 Hg2) as Hk.
  assert (He : run_ends (load_with_friends (G := G) debug overflow_checks verifier_fuel fuel natives bundle bundle_unverified fetch n x false) c2 run_true).
  { apply IH; [done|lia|]. intros Hxu. enough (size (uncached c2 ∖ {[ x ]}) < size (uncached c ∖ {[ id ]}))%nat by lia. apply subset_size.
    assert (Hxc : x ∈ uncached c1) by (apply elem_of_filter; done). assert (Hx1 : id ∉ uncached c1) by (unfold uncached; rewrite elem_of_filter, Hat; by intros []).
    pose proof (uncached_later _ _ Hl). pose proof (uncached_later _ _ Hl2). split; [set_solver|]. intros Hs. specialize (Hs x). set_solver. }
  unfold run_ends, run_spec in *. destruct (load_with_friends _ _ _ _ _ _ _ _ _ _ _ c2) as [[l'|e| |] c3]; try done.
  destruct Hk as [[Hg3 Hl3] _]. split; [done|by etrans].
Qed.

(** [verify_module_cyclic_relations] *)
Lemma ends_ids_of_known ids (c : ModuleCache Native) id : (∀ m, ends (ids m)) → ends (ids_of_known bundle ids c id).
Proof. intros Hi. unfold ids_of_known. case_match; [apply ends_partial, Hi|done]. Qed.
Lemma ids_of_unknown ids (c : ModuleCache Native) id :
  id ∉ dom (id_map (mc_modules c)) ∪ dom bundle → ∃ e, ids_of_known bundle ids c id = Err e.
Proof.
  intros [H1 H2]%not_elem_of_union. apply not_elem_of_dom in H1, H2. unfold ids_of_known, known_module, module_at, cache_get.
  rewrite H2, H1. by eexists.
Qed.
Lemma ends_cyclic_relations m (c : ModuleCache Native) : ends (verify_module_cyclic_relations bundle bundle_unverified m c).
Proof.
  unfold verify_module_cyclic_relations, cyclic_verify_module. apply ends_in_module.
  assert (Hk : (size (dom (id_map (mc_modules c)) ∪ dom bundle ∪ bundle_unverified) ≤
    size (id_map (mc_modules c)) + size bundle + size bundle_unverified)%nat).
  { rewrite <- (size_dom (D := gset ModuleId) (id_map (mc_modules c))), <- (size_dom (D := gset ModuleId) bundle).
    rewrite !size_union_alt. pose proof (subseteq_size (dom bundle ∖ dom (id_map (mc_modules c))) (dom bundle) ltac:(set_solver)).
    pose proof (subseteq_size (bundle_unverified ∖ (dom (id_map (mc_modules c)) ∪ dom bundle)) bundle_unverified ltac:(set_solver)). lia. }
  set (known := (size (id_map (mc_modules c)) + _ + _)%nat) in *.
  assert (Hd : ∀ id items e, ends (collect_all_with_cycle_detection id (known_dependencies bundle c) (S (S known)) items e)).
  { intros id items e. apply (searches_end _ _ (dom (id_map (mc_modules c)) ∪ dom bundle ∪ bundle_unverified)); [| |lia].
    - intros x Hx. apply ids_of_unknown. set_solver.
    - intros x. apply ends_ids_of_known. intros; ends. }
  assert (Hf : ∀ id items e, ends (collect_all_with_cycle_detection id (known_friends bundle bundle_unverified c) (S (S known)) items e)).
  { intros id items e. apply (searches_end _ _ (dom (id_map (mc_modules c)) ∪ dom bundle ∪ bundle_unverified)); [| |lia].
    - intros x Hx. unfold known_friends. rewrite bool_decide_false by set_solver. apply ids_of_unknown. set_solver.
    - intros x. unfold known_friends. case_bool_decide; [done|]. apply ends_ids_of_known. intros; ends. }
  ends.
Qed.
Lemma load_internal_ends id c : good debug overflow_checks verifier_fuel natives fetch bundle c (G := G) →
  run_ends (load_module_internal (G := G) debug overflow_checks verifier_fuel fuel natives bundle bundle_unverified fetch id) c run_true.
Proof.
  intros Hc. unfold load_module_internal. apply run_ends_bind, run_ends_get. destruct (module_at c id); [done|].
  apply run_ends_bind. eapply run_ends_weaken; [apply load_with_friends_ends; [done|lia|]|].
  - intros _. enough (size (uncached c ∖ {[ id ]}) ≤ size U)%nat by lia. apply subseteq_size. unfold uncached. set_solver.
  - intros l c' _. apply run_ends_bind, run_ends_get, run_ends_bind, run_ends_lift; [|done]. apply ends_map_err, ends_cyclic_relations.
Qed.
End Loading.

(** ** Requests *)

Section Requests.
Context {Native G : Type} `{Graph G Node Edge} `{Toposort StructDefinitionIndex}.
Context (debug overflow_checks : bool) (verifier_fuel fuel : nat).
Context (natives : NativeFunctions Native) (sha3_256 : list u8 → ScriptHash) (fetch : ModuleId → result VMError (list u8)) (U : gset ModuleId).
Context (HU : finite_store (G := G) debug overflow_checks verifier_fuel fetch U) (Hfuel : (S (size U) < fuel)%nat).
Notation good_loader := (good_loader (G := G) debug overflow_checks verifier_fuel natives fetch sha3_256).
Notation keeping := (keeping (G := G) debug overflow_checks verifier_fuel natives fetch sha3_256).
Notation load_module := (load_module (G := G) debug overflow_checks verifier_fuel fuel natives fetch).
Notation load_type := (load_type (G := G) debug overflow_checks verifier_fuel fuel natives fetch).
Notation load_ty_args := (load_ty_args (G := G) debug overflow_checks verifier_fuel fuel natives fetch).
Notation load_function := (load_function (G := G) debug overflow_checks verifier_fuel fuel natives fetch).
Notation load_script := (load_script (G := G) debug overflow_checks verifier_fuel fuel natives sha3_256 fetch).
Notation answer := (answer (G := G) debug overflow_checks verifier_fuel natives fetch fuel sha3_256).

(** The computation ends, with a loader that is still good. *)
Definition ending {A} (m : Run (Loader Native) VMError A) (self : Loader Native) : Prop := run_ends m self (λ _ self', good_loader self').
Lemma ending_of {A} (m : Run (Loader Native) VMError A) self : run_ends m self run_true → keeping m self → ending m self.
Proof. unfold ending, run_ends, Loading.keeping, run_spec. destruct (m self) as [[] ?]; try done. by intros _ []. Qed.
Lemma ending_bind {A B} (m : Run (Loader Native) VMError A) (k : A → Run (Loader Native) VMError B) self :
  ending m self → (∀ a self', good_loader self' → ending (k a) self') → ending (m ≫= k) self.
Proof. intros Hm Hk. apply run_ends_bind. eapply run_ends_weaken; [exact Hm|]. intros a self'. apply Hk. Qed.
Lemma ending_lift {A} (r : result VMError A) self : good_loader self → ends r → ending (run_lift r) self.
Proof. intros Hs Hr. by apply run_ends_lift. Qed.
Lemma ending_read {A} (f : Loader Native → result VMError A) self : good_loader self → ends (f self) → ending (run_read f) self.
Proof. intros Hs Hr. unfold ending, run_ends, run_read. by destruct (f self). Qed.
Lemma ending_collect {A B} (f : A → Run (Loader Native) VMError B) l self :
  good_loader self → (∀ x self', x ∈ l → good_loader self' → ending (f x) self') → ending (run_collect f l) self.
Proof.
  intros Hs Hf. revert self Hs. induction l as [|x l IH]; intros self Hs; [done|].
  apply ending_bind; [apply Hf; [left|done]|]. intros y l1 Hl1. apply ending_bind; [apply IH; [|done]; intros; apply Hf; [by right|done]|]. by intros ys l2 Hl2.
Qed.

Lemma ends_loader_abilities (self : Loader Native) ty : ends (loader_abilities self ty).
Proof.
  induction ty as [| | | | | |t IH|i|i ts IH|t IH|t IH|i] using RuntimeType.type_ind; cbn [loader_abilities]; try done.
  - apply ends_bind; [done|]. intros a _. unfold polymorphic_abilities. ends.
  - unfold struct_at. ends.
  - unfold struct_at. apply ends_bind; [ends|]. intros st _. apply ends_bind; [apply ends_collect; by rewrite Forall_forall in IH|].
    intros abs _. unfold polymorphic_abilities. ends.
Qed.
Hint Resolve ends_loader_abilities ends_resolve_struct ends_resolve_function ends_dependencies_verify : ends.
Lemma ends_verify_ty_args (self : Loader Native) constraints tys : ends (verify_ty_args self constraints tys).
Proof. unfold verify_ty_args. ends. Qed.
Lemma ends_make_type_cached (c : ModuleCache Native) view tok : ends (make_type c view tok).
Proof.
  apply ends_make_type. intros name id. unfold resolver_of_cache. apply ends_bind; [ends|]. by intros [] _.
Qed.
Hint Resolve ends_verify_ty_args ends_make_type_cached : ends.

Lemma ending_load_module id self : good_loader self → ending (on_module_cache (load_module id)) self.
Proof.
  intros Hs. apply ending_of; [|by apply keeping_load_module].
  pose proof (load_internal_ends debug overflow_checks verifier_fuel fuel natives fetch U HU ∅ ∅ Hfuel id (l_module_cache self) (gl_modules _ _ _ _ _ _ _ Hs)) as Hl.
  unfold run_ends, on_module_cache, Loading.load_module in *. by destruct (load_module_internal _ _ _ _ _ _ _ _ _ _) as [[] ?].
Qed.
Lemma ending_load_type tag self : good_loader self → ending (load_type tag) self.
Proof.
  revert self. induction tag as [| | | | | |tag IH|a m n tags IH] using tag_ind; intros self Hs; cbn [Loading.load_type]; try done.
  - apply ending_bind; [by apply IH|]. by intros ty l1 Hl1.
  - apply ending_bind; [by apply ending_load_module|]. intros _ l1 Hl1. apply ending_bind; [apply ending_read; [done|ends]|]. intros st l2 Hl2.
    destruct (_ && _); [done|]. apply ending_bind.
    + apply ending_collect; [done|]. intros tag l3 Hin Hl3. rewrite Forall_forall in IH. by apply IH.
    + intros tys l3 Hl3. apply ending_bind; [apply ending_read; [done|ends]|]. by intros _ l4 Hl4.
Qed.
Lemma ending_load_ty_args constraints location tags self : good_loader self → ending (load_ty_args constraints location tags) self.
Proof.
  intros Hs. apply ending_bind; [by apply ending_collect; [|intros; apply ending_load_type]|]. intros tys l1 Hl1.
  apply ending_bind; [apply ending_read; [done|ends]|]. by intros _ l2 Hl2.
Qed.
Lemma ends_script_function m name : ends (verify_module_script_function m name).
Proof.
  assert (Hf : ∀ A (f : A → result StatusCode bool) l, (∀ x, ends (f x)) → ends (ModulePasses.find f l)).
  { intros A f l Hf. induction l as [|x l IH]; [done|]. cbn. apply ends_bind; [by apply ends_partial|]. intros [] _; [done|exact IH]. }
  unfold verify_module_script_function, verify_main_signature_impl. apply ends_bind; [apply ends_in_module, Hf; intros; ends|]. intros o _. ends.
Qed.
Lemma ending_load_function name id tags is_script self : good_loader self → ending (load_function name id tags is_script) self.
Proof.
  intros Hs. apply ending_bind; [by apply ending_load_module|]. intros m l1 H1.
  apply ending_bind; [apply ending_read; [done|unfold function_at; ends]|]. intros f l2 H2.
  apply ending_bind; [apply ending_read; [done|ends]|]. intros ps l3 H3. apply ending_bind; [apply ending_read; [done|ends]|]. intros rs l4 H4.
  apply ending_bind; [by apply ending_load_ty_args|]. intros tys l5 H5.
  apply ending_bind; [destruct is_script; [apply ending_lift; [done|apply ends_script_function]|done]|]. by intros _ l6 H6.
Qed.
Lemma ends_deserialize_script binary : ends (CompiledScript_deserialize binary).
Proof.
  unfold CompiledScript_deserialize. apply ends_bind; [|intros s _; apply ends_bind; [|done]].
  - pose proof (deserialize_compiled_script_no_panic binary) as Hn. by destruct (Deserializer.deserialize_compiled_script binary).
  - pose proof (errs_no_panic _ _ (verify_script_errs s)) as Hn. by destruct (BoundsChecker.verify_script s).
Qed.
Lemma ends_Script_new s hash (c : ModuleCache Native) : ends (Script_new s hash c).
Proof. unfold Script_new, script_struct_ref, script_module_id, script_function_ref, script_function_instantiation, add_single_type, in_script. ends. Qed.
(** The verifier ends on the script. *)
Definition script_ends (blob : list u8) : Prop :=
  ∀ s, CompiledScript_deserialize blob = Ok s → ends (verify_script debug overflow_checks verifier_fuel s).
Lemma ending_load_script blob tags self : script_ends blob → good_loader self → ending (load_script blob tags) self.
Proof.
  intros Hv Hs. apply ending_bind; [done|]. intros cached l1 H1.
  assert (H1' : good_loader l1) by done.
  apply ending_bind; [|intros main l2 H2; apply ending_bind; [by apply ending_load_ty_args|]; by intros tys l3 H3].
  destruct cached as [main|]; [done|]. apply ending_of.
  - apply run_ends_bind. apply (run_ends_weaken _ _ run_true).
    + apply (run_ends_weaken _ _ (λ _, good_loader)); [|done]. unfold deserialize_and_verify_script.
      apply run_ends_bind, run_ends_lift; [apply ends_map_err, ends_deserialize_script|]. intros s Hd.
      apply run_ends_bind, run_ends_lift; [apply Hv; destruct (CompiledScript_deserialize blob); try done; by injection Hd as ->|]. intros _ _.
      apply run_ends_bind, run_ends_lift; [unfold accessed, script_dependencies; ends|]. intros ids _.
      apply run_ends_bind. eapply run_ends_weaken; [apply ending_collect; [done|by intros; apply ending_load_module]|]. intros deps l2 H2.
      apply run_ends_bind, run_ends_lift; [unfold dependencies_verify_script, in_script; ends|]. by intros _ _.
    + intros s l2 _. apply run_ends_bind. unfold run_ends at 1, run_read. pose proof (ends_Script_new s (sha3_256 blob) (l_module_cache l2)) as Hn.
      destruct (Script_new s (sha3_256 blob) (l_module_cache l2)); try done. unfold run_ends, keep_script. by destruct (script_cache_insert _ _ _).
  - apply run_spec_bind. eapply run_spec_weaken; [by apply load_script_verified| |done].
    intros s l2 [H2 Hw]. eapply run_spec_weaken; [|intros ? l3 H3; exact (loader_keeps_trans _ _ _ _ _ _ _ _ _ H2 H3)..].
    apply run_spec_bind, run_spec_read; [|intros; by apply loader_keeps_refl, H2].
    intros script Hscript. apply keeping_keep_script; [apply H2|]. by rewrite (Script_new_script _ _ _ _ Hscript).
Qed.
Lemma ending_answer r self : (∀ blob tags, r = RScript blob tags → script_ends blob) → good_loader self → ending (answer r) self.
Proof.
  intros Hv Hs. destruct r; cbn [Loading.answer]; apply ending_bind; try (by intros).
  - by apply ending_load_module. - by apply ending_load_type. - by apply ending_load_function.
  - apply ending_load_script; [by eapply Hv|done].
Qed.
End Requests.

(** C9. However a loader was used, with or without errors: every cached module is what
    storage holds under its id, was accepted by the verifier with all its native functions
    known, and links with its dependencies, which are all cached; and every cached script
    is what its hash names and was accepted by the verifier. *)
Theorem cache_verified {Native G : Type} `{Graph G Node Edge} `{Toposort StructDefinitionIndex}
    (debug overflow_checks : bool) (verifier_fuel fuel : nat) (natives : NativeFunctions Native)
    (fetch : ModuleId → result VMError (list u8)) (sha3_256 : list u8 → ScriptHash) (rs : list Request) (self : Loader Native) :
  answered (G := G) debug overflow_checks verifier_fuel natives fetch fuel sha3_256 rs (Loader_new natives) self →
  (∀ id l, module_at (l_module_cache self) id = Some l →
     loaded_well (G := G) debug overflow_checks verifier_fuel natives fetch ∅ (l_module_cache self) id (lm_module l)) ∧
  (∀ hash s, cache_get (l_scripts self) hash = Some s → script_loaded_well debug overflow_checks verifier_fuel sha3_256 hash (ls_script s)).
Proof.
  intros Hrs. apply answered_good in Hrs as [[[_ Hg] _ Hs] _]; [by split|]. apply good_loader_new.
Qed.

(** C27. When storage holds finitely many modules and the verifier ends on what it is
    given, every request to a loader ends, however the loader was used before: descents
    through dependencies and friends are never deeper than the modules of storage. *)
Theorem requests_end {Native G : Type} `{Graph G Node Edge} `{Toposort StructDefinitionIndex}
    (debug overflow_checks : bool) (verifier_fuel fuel : nat) (natives : NativeFunctions Native)
    (fetch : ModuleId → result VMError (list u8)) (sha3_256 : list u8 → ScriptHash) (U : gset ModuleId)
    (rs : list Request) (self : Loader Native) (r : Request) :
  finite_store (G := G) debug overflow_checks verifier_fuel fetch U → (S (size U) < fuel)%nat →
  (∀ blob tags, r = RScript blob tags → script_ends debug overflow_checks verifier_fuel blob) →
  answered (G := G) debug overflow_checks verifier_fuel natives fetch fuel sha3_256 rs (Loader_new natives) self →
  (answer (G := G) debug overflow_checks verifier_fuel natives fetch fuel sha3_256 r self).1 ≠ OutOfFuel.
Proof.
  intros HU Hfuel Hr Hrs. apply answered_good in Hrs as [Hg _]; [|apply good_loader_new].
  pose proof (ending_answer debug overflow_checks verifier_fuel fuel natives sha3_256 fetch U HU Hfuel r self Hr Hg) as He.
  unfold ending, run_ends in He. by destruct (answer _ _ _ _ _ _ _ r self) as [[] ?].
Qed.

(** ** Storages *)

(** A module with one function, of dependencies and friends that are given by the indices
    of their names *)
Definition small_module (names dependencies friends : list N) : CompiledModule :=
  {| m_version := 4; m_self_module_handle_idx := 0;
     m_module_handles := (λ i, {| mh_address := 0; mh_name := i |}) <$> (0 :: dependencies);
     m_struct_handles := [];
     m_function_handles := [ {| fh_module := 0; fh_name := 0; fh_parameters := 0; fh_return := 0; fh_type_parameters := [] |} ];
     m_field_handles := []; m_friend_decls := (λ i, {| mh_address := 0; mh_name := i |}) <$> friends;
     m_struct_def_instantiations := []; m_function_instantiations := []; m_field_instantiations := [];
     m_signatures := [ [] ]; m_identifiers := (λ n, [n]) <$> names; m_address_identifiers := [ ZERO ];
     m_constant_pool := []; m_struct_defs := [];
     m_function_defs := [ {| fdef_function := 0; fdef_visibility := Public; fdef_acquires_global_resources := [];
       fdef_code := Some {| cu_locals := 0; cu_code := [Bytecode.Ret] |} |} ] |}.
Definition id_A : ModuleId := {| mid_address := ZERO; mid_name := [65] |}.
Definition id_B : ModuleId := {| mid_address := ZERO; mid_name := [66] |}.
Definition bytes_of (m : CompiledModule) : list u8 := match serialize_module m [] with Ok bytes => bytes | _ => [] end.
(** Storage with a module A and a module B *)
Definition store_of (a b : CompiledModule) (id : ModuleId) : result VMError (list u8) :=
  if decide (id = id_A) then Ok (bytes_of a) else if decide (id = id_B) then Ok (bytes_of b)
  else Err (finish (PartialVMError_new LINKER_ERROR) LUndefined).
(** A depends on B. *)
Definition store_chain : ModuleId → result VMError (list u8) := store_of (small_module [65; 66] [1] []) (small_module [66] [] []).
(** A depends on B, and declares it as a friend as well. *)
Definition store_cyclic : ModuleId → result VMError (list u8) := store_of (small_module [65; 66] [1] [1]) (small_module [66] [] []).

Section Run.
Context (fetch : ModuleId → result VMError (list u8)).
Notation answer := (@answer unit (list_graph Node Edge) list_graph_ops list_toposort true true 100 ∅ fetch 4 (λ blob, blob)).
Definition new_loader : Loader unit := Loader_new ∅.
Definition answer_one (r : Request) (self : Loader unit) : result VMError unit * Loader unit := answer r self.
Definition after (rs : list Request) : Loader unit := foldl (λ self r, (answer_one r self).2) new_loader rs.
Definition cached_ids (rs : list Request) : list bool :=
  (λ id, bool_decide (is_Some (module_at (l_module_cache (after rs)) id))) <$> [id_A; id_B].
End Run.

Example load_chain : (answer_one store_chain (RModule id_A) new_loader).1 = Ok tt ∧ cached_ids store_chain [RModule id_A] = [true; true].
Proof. by vm_compute. Qed.
Example load_missing :
  (answer_one store_chain (RModule {| mid_address := ZERO; mid_name := [67] |}) new_loader).1 = Err (finish (PartialVMError_new LINKER_ERROR) LUndefined).
Proof. by vm_compute. Qed.

(** A module that is refused since it befriends a module that it depends on is cached
    nevertheless: the same request is answered with the module the second time. *)
Theorem cyclic_module_cached :
  (answer_one store_cyclic (RModule id_A) new_loader).1 = Err (finish (PartialVMError_new UNEXPECTED_VERIFIER_ERROR) (LModule id_A)) ∧
  (answer_one store_cyclic (RModule id_A) (after store_cyclic [RModule id_A])).1 = Ok tt.
Proof. by vm_compute. Qed.

Lemma cache_verified_witness :
  ∃ l, module_at (l_module_cache (after store_chain [RModule id_A])) id_A = Some l ∧
    @loaded_well unit (list_graph Node Edge) list_graph_ops list_toposort true true 100 ∅ store_chain ∅ (l_module_cache (after store_chain [RModule id_A])) id_A (lm_module l).
Proof.
  assert (Hl : is_Some (module_at (l_module_cache (after store_chain [RModule id_A])) id_A)) by (by vm_compute; eexists).
  destruct Hl as [l Hl]. exists l. split; [exact Hl|].
  refine (proj1 (@cache_verified unit (list_graph Node Edge) list_graph_ops list_toposort true true 100 4 ∅ store_chain (λ blob, blob) [RModule id_A]
    (after store_chain [RModule id_A]) _) id_A l Hl).
  eapply answered_ok; [|apply answered_nil]. unfold after. cbn [foldl]. rewrite (surjective_pairing (answer _ _ _ _ _ _ _ _ _)). f_equal.
Defined.

Lemma chain_finite : @finite_store (list_graph Node Edge) list_graph_ops list_toposort true true 100 store_chain {[ id_A; id_B ]}.
Proof.
  unfold store_chain, store_of. constructor; intros id.
  - by repeat case_decide.
  - intros Hid. rewrite !decide_False by set_solver. by eexists.
  - intros m (bytes & Hb & Hm). repeat case_decide; [..|done]; injection Hb as <-;
      vm_compute in Hm; injection Hm as <-; by vm_compute.
Qed.
Lemma requests_end_witness : (answer_one store_chain (RModule id_A) new_loader).1 ≠ OutOfFuel.
Proof.
  apply (@requests_end unit (list_graph Node Edge) list_graph_ops list_toposort true true 100 4 ∅ store_chain (λ blob, blob) {[ id_A; id_B ]} []).
  - exact chain_finite.
  - vm_compute. lia.
  - done.
  - apply answered_nil.
Defined.
