(* ===== verification/DataCache.v ===== *)
(** * DataCache: the data store of a transaction

    Models [language/move-vm/runtime/src/data_cache.rs]: resources and modules that a
    transaction uses are kept in a cache over what is stored, and its changes come out as
    a change set at the end.  What is stored ([MoveResolver]) is a parameter.  The maps of
    the source are ordered; an order only decides which of several errors is returned.

    The theorems: applied to what was stored, the change set of a data cache gives every
    resource the data that the transaction sees in it at the end, leaves the others, and
    has the published modules; and what loading a resource gives. *)

From S2P Require Import Prelude CoreTypes VmStatus Abilities FileFormat Errors Integers RuntimeTypes Heap Values GlobalValues HeapCounts ValueTrees Layouts Slots References GlobalSlots CyclicDependencies Bcs BcsCodecs MoveValues MoveValueCodec ValueCodec Gas LoadedCode Machine Effects TypeTags.

(** [trait MoveResolver]: [ModuleResolver] and [ResourceResolver].  A resolver may keep
    notes behind its shared reference when it is asked for a resource. *)
Class MoveResolver (S : Type) := {
  get_module : S → ModuleId → result unit (option (list u8));
  get_resource : AccountAddress → StructTag → Run S unit (option (list u8)) }.

(** [struct AccountDataCache] *)
Record AccountDataCache : Set := {
  ad_data_map : gmap RuntimeType.Type_ (MoveTypeLayout * GlobalValueImpl);
  ad_module_map : gmap Identifier (list u8) }.
Definition AccountDataCache_new : AccountDataCache := {| ad_data_map := ∅; ad_module_map := ∅ |}.

(** An event as it is emitted, and as it comes out *)
Record EventData : Set := {
  ed_guid : list u8; ed_seq_num : u64; ed_ty : RuntimeType.Type_; ed_ty_layout : MoveTypeLayout; ed_val : ValueImpl }.
Definition Event : Set := list u8 * u64 * TypeTag * list u8.

(** [struct TransactionDataCache], with the type cache of its loader *)
Record TransactionDataCache {S : Type} : Type := {
  td_remote : S;
  td_account_map : gmap AccountAddress AccountDataCache;
  td_event_data : list EventData;
  td_type_cache : TypeCache }.

Section DataCache.
Context {S Native : Type} `{!MoveResolver S} (cache : ModuleCache Native).
Notation TransactionDataCache := (@TransactionDataCache S).
Notation DataM := (Run (Heap * TransactionDataCache) PartialVMError).

Definition TransactionDataCache_new (remote : S) (types : TypeCache) : TransactionDataCache :=
  {| td_remote := remote; td_account_map := ∅; td_event_data := []; td_type_cache := types |}.
Definition set_account_map (map : gmap AccountAddress AccountDataCache) (self : TransactionDataCache) : TransactionDataCache :=
  {| td_remote := td_remote self; td_account_map := map; td_event_data := td_event_data self; td_type_cache := td_type_cache self |}.
Definition set_account (addr : AccountAddress) (account : AccountDataCache) (self : TransactionDataCache) : TransactionDataCache :=
  set_account_map (<[ addr := account ]> (td_account_map self)) self.

(** Operations on a part of the state *)
Definition in_heap {A} (m : HeapM A) : DataM A := λ s,
  match m s.1 with
  | Ok (a, h) => (Ok a, (h, s.2))
  | Err e => (Err e, s)
  | Panic => (Panic, s)
  | OutOfFuel => (OutOfFuel, s)
  end.
Definition in_types {A} (m : Run TypeCache PartialVMError A) : DataM A := λ s,
  let '(r, types) := m (td_type_cache s.2) in
  (r, (s.1, {| td_remote := td_remote s.2; td_account_map := td_account_map s.2; td_event_data := td_event_data s.2; td_type_cache := types |})).
Definition set_remote (remote : S) (self : TransactionDataCache) : TransactionDataCache :=
  {| td_remote := remote; td_account_map := td_account_map self; td_event_data := td_event_data self; td_type_cache := td_type_cache self |}.
Definition in_remote {E A} (m : Run S E A) : Run (Heap * TransactionDataCache) E A := λ s,
  let '(r, remote) := m (td_remote s.2) in (r, (s.1, set_remote remote s.2)).
Definition in_cache {E} (f : TransactionDataCache → TransactionDataCache) : Run (Heap * TransactionDataCache) E unit :=
  run_modify (λ s, (s.1, f s.2)).

(** [get_mut_or_insert_with(account_map, addr, ..)] *)
Definition account_of (addr : AccountAddress) (self : TransactionDataCache) : AccountDataCache :=
  default AccountDataCache_new (td_account_map self !! addr).
Definition get_or_insert_account (addr : AccountAddress) (self : TransactionDataCache) : TransactionDataCache :=
  set_account addr (account_of addr self) self.
Definition slot (addr : AccountAddress) (ty : RuntimeType.Type_) (self : TransactionDataCache) : option (MoveTypeLayout * GlobalValueImpl) :=
  account ← td_account_map self !! addr; ad_data_map account !! ty.
Definition insert_slot (addr : AccountAddress) (ty : RuntimeType.Type_) (entry : MoveTypeLayout * GlobalValueImpl)
    (self : TransactionDataCache) : TransactionDataCache :=
  let account := account_of addr self in
  set_account addr {| ad_data_map := <[ ty := entry ]> (ad_data_map account); ad_module_map := ad_module_map account |} self.

(** The tag of a type of resources *)
Definition as_struct_tag (tag : TypeTag) : option StructTag :=
  match tag with
  | TagStruct address module name type_params =>
      Some {| stg_address := address; stg_module := module; stg_name := name; stg_type_params := type_params |}
  | _ => None
  end.
Definition resource_tag (ty : RuntimeType.Type_) : DataM StructTag :=
  tag ← in_types (type_to_type_tag cache ty);
  run_lift (ok_or (PartialVMError_new INTERNAL_TYPE_ERROR) (as_struct_tag tag)).

(** [load_resource] *)
Definition remote_value (addr : AccountAddress) (ty_tag : StructTag) (ty_layout : MoveTypeLayout) : DataM GlobalValueImpl :=
  blob ← run_map_err (λ _, PartialVMError_new UNKNOWN_INVARIANT_VIOLATION_ERROR) (in_remote (get_resource addr ty_tag));
  match blob with
  | Some blob =>
      val ← in_heap (value_simple_deserialize blob ty_layout);
      match val with
      | Some val => in_heap (global_cached val)
      | None => run_lift (Err (PartialVMError_new FAILED_TO_DESERIALIZE_RESOURCE))
      end
  | None => mret global_none
  end.
Definition data_load_resource (addr : AccountAddress) (ty : RuntimeType.Type_) : DataM GlobalValueImpl :=
  _ ← in_cache (get_or_insert_account addr);
  entry ← run_get (λ s, slot addr ty s.2);
  match entry with
  | Some (_, gv) => mret gv
  | None =>
      ty_tag ← resource_tag ty;
      ty_layout ← in_types (type_to_type_layout cache ty);
      gv ← remote_value addr ty_tag ty_layout;
      _ ← in_cache (insert_slot addr ty (ty_layout, gv));
      mret gv
  end.
(** What is written to the slot that [load_resource] returned *)
Definition data_store_resource (addr : AccountAddress) (ty : RuntimeType.Type_) (gv : GlobalValueImpl)
    (self : TransactionDataCache) : TransactionDataCache :=
  match slot addr ty self with
  | Some (layout, _) => insert_slot addr ty (layout, gv) self
  | None => self
  end.
#[local] Instance TransactionDataCache_DataStore : DataStore TransactionDataCache :=
  {| load_resource := data_load_resource; store_resource := data_store_resource |}.

(** [load_module], [publish_module], [exists_module] *)
Definition published (module_id : ModuleId) (self : TransactionDataCache) : option (list u8) :=
  account ← td_account_map self !! mid_address module_id; ad_module_map account !! mid_name module_id.
Definition undefined (status : StatusCode) : VMError := finish (PartialVMError_new status) LUndefined.
Definition data_load_module (self : TransactionDataCache) (module_id : ModuleId) : result VMError (list u8) :=
  match published module_id self with
  | Some blob => Ok blob
  | None =>
      match get_module (td_remote self) module_id with
      | Ok (Some bytes) => Ok bytes
      | Ok None => Err (undefined LINKER_ERROR)
      | Err _ => Err (undefined UNKNOWN_INVARIANT_VIOLATION_ERROR)
      | Panic => Panic
      | OutOfFuel => OutOfFuel
      end
  end.
Definition data_publish_module (module_id : ModuleId) (blob : list u8) (self : TransactionDataCache) : TransactionDataCache :=
  let account := account_of (mid_address module_id) self in
  set_account (mid_address module_id)
    {| ad_data_map := ad_data_map account; ad_module_map := <[ mid_name module_id := blob ]> (ad_module_map account) |} self.
Definition data_exists_module (self : TransactionDataCache) (module_id : ModuleId) : result VMError bool :=
  match published module_id self with
  | Some _ => Ok true
  | None => module ← map_err (λ _, undefined STORAGE_ERROR) (get_module (td_remote self) module_id); Ok (bool_decide (is_Some module))
  end.

(** [emit_event] *)
Definition emit_event (guid : list u8) (seq_num : u64) (ty : RuntimeType.Type_) (val : ValueImpl) : DataM unit :=
  ty_layout ← in_types (type_to_type_layout cache ty);
  in_cache (λ self, {| td_remote := td_remote self; td_account_map := td_account_map self;
    td_event_data := td_event_data self ++ [{| ed_guid := guid; ed_seq_num := seq_num; ed_ty := ty; ed_ty_layout := ty_layout; ed_val := val |}];
    td_type_cache := td_type_cache self |}).

(** [num_mutated_accounts]: the sender's account counts always. *)
Fixpoint any_mutated (gvs : list GlobalValueImpl) : HeapM bool :=
  match gvs with
  | [] => mret false
  | gv :: gvs => b ← is_mutated gv; if b : bool then mret true else any_mutated gvs
  end.
Definition count_mutated (sender : AccountAddress) (total : u64) (p : AccountAddress * AccountDataCache) : HeapM u64 :=
  if bool_decide (p.1 = sender) then mret total else
  b ← any_mutated ((λ e : _ * (MoveTypeLayout * GlobalValueImpl), e.2.2) <$> map_to_list (ad_data_map p.2));
  mret (if b : bool then total + 1 else total).
Definition num_mutated_accounts (sender : AccountAddress) (self : TransactionDataCache) : HeapM u64 :=
  foldl (λ m p, total ← m; count_mutated sender total p) (mret 1) (map_to_list (td_account_map self)).

(** [into_effects] *)
Definition serialize_value (val : ValueImpl) (layout : MoveTypeLayout) : DataM (list u8) :=
  blob ← in_heap (value_simple_serialize val layout);
  _ ← in_heap (drop_pointers (pointers val));
  run_lift (ok_or (PartialVMError_new INTERNAL_TYPE_ERROR) blob).
Definition resource_effect (resources : gmap StructTag (option (list u8))) (p : RuntimeType.Type_ * (MoveTypeLayout * GlobalValueImpl))
  : DataM (gmap StructTag (option (list u8))) :=
  let '(ty, (layout, gv)) := p in
  effect ← in_heap (into_effect gv);
  match effect with
  | EffectNone => mret resources
  | EffectDeleted => struct_tag ← resource_tag ty; mret (<[ struct_tag := None ]> resources)
  | EffectChanged val =>
      struct_tag ← resource_tag ty;
      resource_blob ← serialize_value val layout;
      mret (<[ struct_tag := Some resource_blob ]> resources)
  end.
Fixpoint run_fold {S E A B} (f : B → A → Run S E B) (l : list A) (b : B) : Run S E B :=
  match l with
  | [] => mret b
  | x :: l => b ← f b x; run_fold f l b
  end.
Definition account_effects (change_set : ChangeSet) (p : AccountAddress * AccountDataCache) : DataM ChangeSet :=
  resources ← run_fold resource_effect (map_to_list (ad_data_map p.2)) ∅;
  mret (publish_or_overwrite_account_change_set p.1
    {| acs_modules := Some <$> ad_module_map p.2; acs_resources := resources |} change_set).
Definition event_effect (e : EventData) : DataM Event :=
  ty_tag ← in_types (type_to_type_tag cache (ed_ty e));
  blob ← serialize_value (ed_val e) (ed_ty_layout e);
  mret (ed_guid e, ed_seq_num e, ty_tag, blob).
Definition into_effects : DataM (ChangeSet * list Event) :=
  accounts ← run_get (λ s, map_to_list (td_account_map s.2));
  change_set ← run_fold account_effects accounts ChangeSet_new;
  event_data ← run_get (λ s, td_event_data s.2);
  events ← run_collect event_effect event_data;
  mret (change_set, events).
End DataCache.

(** ** Stored data *)

(** The bytes in storage are the data of a resource. *)
Definition holds (layout : MoveTypeLayout) (blob : option (list u8)) (t : option tree) : Prop :=
  match blob, t with
  | None, None => True
  | Some blob, Some t => ∃ mv, move_simple_deserialize (E := PartialVMError) blob layout = Ok (Some mv) ∧ tree_move layout t = Some mv
  | _, _ => False
  end.
Definition well_typed (layout : MoveTypeLayout) (t : tree) : Prop :=
  undecorated layout = true ∧ ∃ mv, tree_move layout t = Some mv ∧ move_has_layout layout mv = true.

Lemma serialize_holds h v t layout : denotes h v t → well_typed layout t →
  ∃ blob, value_simple_serialize v layout h = Ok (Some blob, h) ∧ holds layout (Some blob) (Some t).
Proof.
  intros [n Hn] (Hu & mv & Ht & Hm). destruct (proj1 (has_layout_encodes layout mv Hu) Hm) as [blob He]. exists blob.
  pose proof (move_write (E := PartialVMError) layout mv blob Hu He) as Hw. split.
  - unfold value_simple_serialize, to_bytes. unfold move_simple_serialize, to_bytes in Hw.
    by rewrite (serialize_annotated_spec h layout n v t mv _ Hn Ht), Hw.
  - exists mv. split; [|done]. pose proof (encodes_bytes layout mv blob He) as Hb.
    exact (proj2 (proj2 (move_read (E := PartialVMError) layout blob Hb) mv) He).
Qed.

(** A slot keeps its meaning while its cells live. *)
Lemma slot_rel_live h h' g stored current R :
  slot_rel h g stored current → counted h' (slot_pointers g ++ R) → contents h' ⊆ contents h → slot_rel h' g stored current.
Proof.
  intros Hg Hc Hm. destruct g as [|f|f s|]; cbn [slot_rel slot_pointers] in *; try done.
  - destruct Hg as (Hst & t & Ht & Hd). split; [done|]. exists t. split; [done|]. by apply (denotes_live h h' R).
  - destruct Hg as (Hst & t & st & Ht & Hd & Hs & Hcl). split; [done|]. exists t, st. split_and!; [done| | |done].
    + by apply (denotes_live h h' (s :: R)).
    + eapply (held_kept (contents h)); [exact Hc| |done|done]. right. by left.
Qed.
Lemma into_effect_shrinks g h e h' : into_effect g h = Ok (e, h') → contents h' ⊆ contents h.
Proof.
  destruct g as [|f|f s|]; cbn [into_effect]; try (by intros [= _ <-]).
  intros (st & h1 & Hb & Hk)%heap_bind_Ok. unfold borrow, lookup_cell, mbind, HeapM_bind in Hb. destruct (cells h !! s) as [c|]; [|done].
  assert (h1 = h) as -> by (destruct (get statuses (content c)); try done; by injection Hb).
  destruct st; apply heap_bind_Ok in Hk as ([] & h2 & Hd & [= _ <-]); by eapply drop_loop_subset.
Qed.

(** ** The effect of one resource *)

Section Effects.
Context {S Native : Type} `{!MoveResolver S} (cache : ModuleCache Native).
Notation TransactionDataCache := (@TransactionDataCache S).
(** What storage holds, as the resolver answers *)
Context (stored : AccountAddress → StructTag → option (list u8)).
Notation coherent := (coherent cache).

Definition tag_at (ty : RuntimeType.Type_) : option StructTag :=
  match tag_of cache ty with Ok tag => as_struct_tag tag | _ => None end.
Definition with_types (types : TypeCache) (td : TransactionDataCache) : TransactionDataCache :=
  {| td_remote := td_remote td; td_account_map := td_account_map td; td_event_data := td_event_data td; td_type_cache := types |}.
(** Computations that leave all of the data cache but the types *)
Definition leaves (td td' : TransactionDataCache) : Prop := ∃ types, coherent types ∧ td' = with_types types td.

Lemma resource_tag_spec ty tag h td : coherent (td_type_cache td) → tag_at ty = Some tag →
  ∃ td', resource_tag cache ty (h, td) = (Ok tag, (h, td')) ∧ leaves td td'.
Proof.
  intros Hc Ht. unfold tag_at in Ht. destruct (tag_of cache ty) as [t|e| |] eqn:Htag; try done.
  destruct (type_tag_gives cache ty (td_type_cache td) Hc) as [Hr Hc']. rewrite Htag in Hr.
  destruct (type_to_type_tag cache ty (td_type_cache td)) as [r types] eqn:Hrun. cbn in Hr, Hc'. subst r.
  exists (with_types types td). split; [|by exists types]. unfold resource_tag, in_types. rewrite run_bind_eq. cbn. rewrite Hrun. by rewrite Ht.
Qed.
Lemma leaves_trans td1 td2 td3 : leaves td1 td2 → leaves td2 td3 → leaves td1 td3.
Proof. intros (t1 & H1 & ->) (t2 & H2 & ->). by exists t2. Qed.
Lemma leaves_coherent td td' : leaves td td' → coherent (td_type_cache td').
Proof. by intros (t & Ht & ->). Qed.

Lemma serialize_value_spec v layout t h (td : TransactionDataCache) K : denotes h v t → well_typed layout t → counted h (pointers v ++ K) →
  ∃ blob h', serialize_value v layout (h, td) = (Ok blob, (h', td)) ∧ holds layout (Some blob) (Some t) ∧
    counted h' K ∧ contents h' ⊆ contents h.
Proof.
  intros Hd Hw Hc. destruct (serialize_holds h v t layout Hd Hw) as (blob & Hs & Hh).
  destruct (counted_drop_pointers (pointers v) h K Hc) as (h' & Hdrop & Hc' & Hm & _).
  exists blob, h'. split_and!; [|done..]. unfold serialize_value, in_heap. rewrite run_bind_eq. cbn. rewrite Hs. rewrite run_bind_eq. cbn. by rewrite Hdrop.
Qed.

(** A slot of a type at an address: what is stored under its tag, and the data in it now *)
Record slot_ok (h : Heap) (addr : AccountAddress) (ty : RuntimeType.Type_) (entry : MoveTypeLayout * GlobalValueImpl)
    (tag : StructTag) (current : option tree) : Prop := {
  so_tag : tag_at ty = Some tag;
  so_stored : ∃ before, holds entry.1 (stored addr tag) before ∧ slot_rel h entry.2 before current;
  so_typed t : current = Some t → well_typed entry.1 t }.
Lemma slot_ok_live h h' addr ty entry tag current K :
  slot_ok h addr ty entry tag current → counted h' (slot_pointers entry.2 ++ K) → contents h' ⊆ contents h →
  slot_ok h' addr ty entry tag current.
Proof.
  intros [Ht (before & Hh & Hr) Hw] Hc Hm. constructor; [done| |done]. exists before. split; [done|].
  by eapply slot_rel_live.
Qed.

(** What the changes of an account do to the data in a slot *)
Definition committed (addr : AccountAddress) (resources : gmap StructTag (option (list u8))) (layout : MoveTypeLayout)
    (tag : StructTag) (current : option tree) : Prop :=
  holds layout (change (resources !! tag) (stored addr tag)) current.

Lemma resource_effect_spec addr ty entry tag current resources h td K :
  coherent (td_type_cache td) → slot_ok h addr ty entry tag current → counted h (slot_pointers entry.2 ++ K) → resources !! tag = None →
  ∃ resources' h' td', resource_effect cache resources (ty, entry) (h, td) = (Ok resources', (h', td')) ∧ leaves td td' ∧
    counted h' K ∧ contents h' ⊆ contents h ∧ committed addr resources' entry.1 tag current ∧
    ∀ tag', tag' ≠ tag → resources' !! tag' = resources !! tag'.
Proof.
  intros Hco [Ht (before & Hh & Hr) Hw] Hc Hnone. destruct entry as [layout gv]. cbn [fst snd] in *.
  destruct (into_effect_spec h gv before current K Hr Hc) as (e & te & h1 & Heff & Hc1 & Hd & Happ & _).
  pose proof (into_effect_shrinks _ _ _ _ Heff) as Hm1.
  assert (Hrun : resource_effect cache resources (ty, (layout, gv)) (h, td) =
    match e with
    | EffectNone => (Ok resources, (h1, td))
    | EffectDeleted => (tag ← resource_tag cache ty; mret (<[ tag := None ]> resources)) (h1, td)
    | EffectChanged val => (tag ← resource_tag cache ty; blob ← serialize_value val layout; mret (<[ tag := Some blob ]> resources)) (h1, td)
    end).
  { unfold resource_effect. rewrite run_bind_eq. unfold in_heap at 1. cbn. rewrite Heff. by destruct e. }
  rewrite Hrun. clear Hrun. destruct e as [| |v], te as [| |t]; try done; cbn in Happ.
  - subst current. exists resources, h1, td. split_and!; [done| |done|done| |done].
    + exists (td_type_cache td). split; [done|by destruct td].
    + unfold committed. by rewrite Hnone.
  - subst current. destruct (resource_tag_spec ty tag h1 td Hco Ht) as (td' & Htag & Hl).
    exists (<[ tag := None ]> resources), h1, td'. rewrite run_bind_eq, Htag. split_and!; [done..| |].
    + unfold committed. by rewrite lookup_insert_eq.
    + intros tag' Hne. by rewrite lookup_insert_ne.
  - subst current. destruct (resource_tag_spec ty tag h1 td Hco Ht) as (td' & Htag & Hl).
    destruct (serialize_value_spec v layout t h1 td' K Hd (Hw _ eq_refl) Hc1) as (b & h2 & Hs & Hhs & Hc2 & Hm2).
    exists (<[ tag := Some b ]> resources), h2, td'. rewrite run_bind_eq, Htag, run_bind_eq, Hs. split_and!; [done..|by etrans| |].
    + unfold committed. by rewrite lookup_insert_eq.
    + intros tag' Hne. by rewrite lookup_insert_ne.
Qed.
Lemma leaves_refl td : coherent (td_type_cache td) → leaves td td.
Proof. intros Hc. exists (td_type_cache td). split; [done|by destruct td]. Qed.

(** ** The effects of an account *)

Notation Entry := (RuntimeType.Type_ * (MoveTypeLayout * GlobalValueImpl))%type.
Definition entries_pointers (l : list Entry) : list loc := l ≫= λ p, slot_pointers p.2.2.
Definition entry_tags (l : list Entry) : list (option StructTag) := (λ p, tag_at p.1) <$> l.
Definition entries_ok (h : Heap) (addr : AccountAddress) (current : RuntimeType.Type_ → option tree) (l : list Entry) : Prop :=
  ∀ ty entry, (ty, entry) ∈ l → ∃ tag, slot_ok h addr ty entry tag (current ty).
Lemma entries_ok_live h h' addr current l K :
  entries_ok h addr current l → counted h' (entries_pointers l ++ K) → contents h' ⊆ contents h → entries_ok h' addr current l.
Proof.
  intros Hok Hc Hm ty entry Hin. destruct (Hok ty entry Hin) as [tag Hs]. exists tag.
  apply elem_of_Permutation in Hin as [l' Hl]. eapply (slot_ok_live h h' addr ty entry tag _ (entries_pointers l' ++ K)); [done| |done].
  unfold entries_pointers in *. rewrite Hl in Hc. cbn in Hc. by rewrite <- app_assoc in Hc.
Qed.

Lemma resources_spec addr current l resources h td K :
  coherent (td_type_cache td) → entries_ok h addr current l → NoDup (entry_tags l) → counted h (entries_pointers l ++ K) →
  (∀ tag, Some tag ∈ entry_tags l → resources !! tag = None) →
  ∃ resources' h' td', run_fold (resource_effect cache) l resources (h, td) = (Ok resources', (h', td')) ∧ leaves td td' ∧
    counted h' K ∧ contents h' ⊆ contents h ∧
    (∀ ty entry tag, (ty, entry) ∈ l → tag_at ty = Some tag → committed addr resources' entry.1 tag (current ty)) ∧
    ∀ tag, Some tag ∉ entry_tags l → resources' !! tag = resources !! tag.
Proof.
  revert resources h td. induction l as [|[ty entry] l IH]; intros resources h td Hco Hok Hnd Hc Hnone.
  { exists resources, h, td. split_and!; try done; [by apply leaves_refl|]. by intros ? ? ? ?%elem_of_nil. }
  cbn in Hnd. apply NoDup_cons in Hnd as [Hni Hnd]. destruct (Hok ty entry) as [tag Hs]; [left|].
  assert (Hc1 : counted h (slot_pointers entry.2 ++ entries_pointers l ++ K)) by (unfold entries_pointers in *; cbn in Hc; by rewrite <- app_assoc in Hc).
  destruct (resource_effect_spec addr ty entry tag (current ty) resources h td _ Hco Hs Hc1) as (r1 & h1 & td1 & Hrun & Hl1 & Hc2 & Hm1 & Hcm & Hother).
  { apply Hnone. cbn. rewrite (so_tag _ _ _ _ _ _ Hs). left. }
  destruct (IH r1 h1 td1) as (r2 & h2 & td2 & Hrun2 & Hl2 & Hc3 & Hm2 & Hcm2 & Hother2).
  - by eapply leaves_coherent.
  - apply (entries_ok_live h h1 addr current l K); [|done..]. intros ty' entry' Hin. apply Hok. by right.
  - done.
  - done.
  - intros tag' Hin. rewrite Hother; [apply Hnone; by right|]. intros ->. by rewrite (so_tag _ _ _ _ _ _ Hs) in Hni.
  - exists r2, h2, td2. cbn [run_fold]. rewrite run_bind_eq, Hrun. split_and!; [done|by eapply leaves_trans|done|by etrans| |].
    + intros ty' entry' tag' [Heq|Hin]%elem_of_cons Ht; [|by apply Hcm2]. injection Heq as -> ->.
      assert (tag' = tag) as -> by (rewrite (so_tag _ _ _ _ _ _ Hs) in Ht; congruence).
      unfold committed. rewrite Hother2; [by apply Hcm|]. by rewrite (so_tag _ _ _ _ _ _ Hs) in Hni.
    + cbn. intros tag' [Hne Hni']%not_elem_of_cons. rewrite Hother2 by done. apply Hother. intros ->. by rewrite (so_tag _ _ _ _ _ _ Hs) in Hne.
Qed.

(** ** The change set *)

(** The resources of an account as a transaction sees them *)
Definition account_ok (h : Heap) (addr : AccountAddress) (current : RuntimeType.Type_ → option tree) (account : AccountDataCache) : Prop :=
  entries_ok h addr current (map_to_list (ad_data_map account)) ∧ NoDup (entry_tags (map_to_list (ad_data_map account))).
Definition account_pointers (account : AccountDataCache) : list loc := entries_pointers (map_to_list (ad_data_map account)).
Definition accounts_pointers (l : list (AccountAddress * AccountDataCache)) : list loc := l ≫= λ p, account_pointers p.2.
(** What the changes of an account do to what is stored there *)
Record account_committed (store : AccountAddress → AccountStore) (addr : AccountAddress) (current : RuntimeType.Type_ → option tree)
    (account : AccountDataCache) (result : AccountStore) : Prop := {
  ac_slots ty entry tag : ad_data_map account !! ty = Some entry → tag_at ty = Some tag →
    stored addr tag = (store addr).2 !! tag → holds entry.1 (result.2 !! tag) (current ty);
  ac_others tag : (∀ ty entry, ad_data_map account !! ty = Some entry → tag_at ty ≠ Some tag) → result.2 !! tag = (store addr).2 !! tag;
  ac_modules name : result.1 !! name = match ad_module_map account !! name with Some blob => Some blob | None => (store addr).1 !! name end }.
Lemma cs_apply_publish (store : AccountAddress → AccountStore) (addr : AccountAddress) (account : AccountChangeSet) (cs : ChangeSet) (a : AccountAddress) :
  cs_apply (publish_or_overwrite_account_change_set addr account cs) store a =
  if decide (a = addr) then (if acs_is_empty account then cs_apply cs store a else account_apply account (store a)) else cs_apply cs store a.
Proof.
  unfold publish_or_overwrite_account_change_set, cs_apply. destruct (acs_is_empty account); case_decide as Ha; try done.
  - subst a. by rewrite lookup_insert_eq.
  - by rewrite lookup_insert_ne.
Qed.
Lemma account_apply_empty (account : AccountChangeSet) (store : AccountStore) : acs_is_empty account = true → account_apply account store = store.
Proof.
  unfold acs_is_empty. intros [Hm%bool_decide_eq_true Hr%bool_decide_eq_true]%andb_true_iff. unfold account_apply. rewrite Hm, Hr.
  destruct store as [ms rs]. cbn. f_equal; apply map_eq; intros k; rewrite lookup_apply, lookup_empty; done.
Qed.
Lemma account_effects_spec (addr : AccountAddress) (current : RuntimeType.Type_ → option tree)
    (account : AccountDataCache) (cs : ChangeSet) (h : Heap) (td : TransactionDataCache) (K : list loc) :
  coherent (td_type_cache td) → account_ok h addr current account → counted h (account_pointers account ++ K) → cs !! addr = None →
  ∃ cs' h' td', account_effects cache cs (addr, account) (h, td) = (Ok cs', (h', td')) ∧ leaves td td' ∧
    counted h' K ∧ contents h' ⊆ contents h ∧ (∀ store, account_committed store addr current account (cs_apply cs' store addr)) ∧
    ∀ a, a ≠ addr → cs' !! a = cs !! a.
Proof.
  intros Hco [Hok Hnd] Hc Hnone.
  destruct (resources_spec addr current _ ∅ h td K Hco Hok Hnd Hc) as (r & h' & td' & Hrun & Hl & Hc' & Hm & Hcm & Hother).
  { intros. by rewrite lookup_empty. }
  set (acs := {| acs_modules := Some <$> ad_module_map account; acs_resources := r |}).
  exists (publish_or_overwrite_account_change_set addr acs cs), h', td'. split_and!; [|done..| |].
  - unfold account_effects. cbn [fst snd]. by rewrite run_bind_eq, Hrun.
  - intros store. assert (cs_apply (publish_or_overwrite_account_change_set addr acs cs) store addr = account_apply acs (store addr)) as ->.
    { rewrite cs_apply_publish, decide_True by done. destruct (acs_is_empty acs) eqn:He; [|done]. rewrite account_apply_empty by done.
      unfold cs_apply. by rewrite Hnone. }
    unfold account_apply, acs. constructor; cbn [acs_modules acs_resources fst snd].
    + intros ty entry tag Hin Ht Hst. rewrite lookup_apply. rewrite <- Hst. apply (Hcm ty entry tag); [by apply elem_of_map_to_list|done..].
    + intros tag Hno. rewrite lookup_apply, Hother, lookup_empty; [done|]. unfold entry_tags. intros ([ty entry] & Heq & Hin)%list_elem_of_fmap.
      apply elem_of_map_to_list in Hin. cbn in Heq. by apply (Hno ty entry).
    + intros name. rewrite lookup_apply, lookup_fmap. by destruct (ad_module_map account !! name).
  - intros a Hne. unfold publish_or_overwrite_account_change_set. destruct (acs_is_empty acs); [done|]. by rewrite lookup_insert_ne.
Qed.

Lemma accounts_spec (current : AccountAddress → RuntimeType.Type_ → option tree)
    (l : list (AccountAddress * AccountDataCache)) (cs : ChangeSet) (h : Heap) (td : TransactionDataCache) (K : list loc) :
  coherent (td_type_cache td) → (∀ addr account, (addr, account) ∈ l → account_ok h addr (current addr) account) → NoDup l.*1 →
  counted h (accounts_pointers l ++ K) → (∀ addr, addr ∈ l.*1 → cs !! addr = None) →
  ∃ cs' h' td', run_fold (account_effects cache) l cs (h, td) = (Ok cs', (h', td')) ∧ leaves td td' ∧
    counted h' K ∧ contents h' ⊆ contents h ∧
    (∀ addr account store, (addr, account) ∈ l → account_committed store addr (current addr) account (cs_apply cs' store addr)) ∧
    ∀ addr, addr ∉ l.*1 → cs' !! addr = cs !! addr.
Proof.
  revert cs h td. induction l as [|[addr account] l IH]; intros cs h td Hco Hok Hnd Hc Hnone.
  { exists cs, h, td. split_and!; try done; [by apply leaves_refl|]. by intros ? ? ? ?%elem_of_nil. }
  cbn in Hnd. apply NoDup_cons in Hnd as [Hni Hnd].
  assert (Hc1 : counted h (account_pointers account ++ accounts_pointers l ++ K)) by (unfold accounts_pointers in *; cbn in Hc; by rewrite <- app_assoc in Hc).
  destruct (account_effects_spec addr (current addr) account cs h td (accounts_pointers l ++ K) Hco) as (cs1 & h1 & td1 & Hrun & Hl1 & Hc2 & Hm1 & Hcm & Hother);
    [apply Hok; left|done|apply Hnone; left|].
  destruct (IH cs1 h1 td1) as (cs2 & h2 & td2 & Hrun2 & Hl2 & Hc3 & Hm2 & Hcm2 & Hother2).
  - by eapply leaves_coherent.
  - intros a acc Hin. destruct (Hok a acc) as [He Hn]; [by right|]. split; [|done].
    apply elem_of_Permutation in Hin as [l' Hl]. apply (entries_ok_live h h1 a (current a) _ (accounts_pointers l' ++ K)); [done| |done].
    unfold accounts_pointers in *. rewrite Hl in Hc2. cbn in Hc2. by rewrite <- app_assoc in Hc2.
  - done.
  - done.
  - intros a Hin. rewrite Hother; [apply Hnone; by right|]. by intros ->.
  - exists cs2, h2, td2. cbn [run_fold]. rewrite run_bind_eq, Hrun. split_and!; [done|by eapply leaves_trans|done|by etrans| |].
    + intros a acc store [Heq|Hin]%elem_of_cons; [|by apply Hcm2]. injection Heq as -> ->.
      assert (cs_apply cs2 store addr = cs_apply cs1 store addr) as -> by (unfold cs_apply; by rewrite Hother2). apply Hcm.
    + cbn. intros a [Hne Hni']%not_elem_of_cons. by rewrite Hother2, Hother.
Qed.

(** ** Events *)

Definition event_ok (h : Heap) (e : EventData) : Prop :=
  ∃ tag t, tag_of cache (ed_ty e) = Ok tag ∧ denotes h (ed_val e) t ∧ well_typed (ed_ty_layout e) t.
(** The event that comes out has the data of the value that was emitted. *)
Definition event_of (h : Heap) (e : EventData) (event : Event) : Prop :=
  ∃ tag t blob, event = (ed_guid e, ed_seq_num e, tag, blob) ∧ tag_of cache (ed_ty e) = Ok tag ∧
    denotes h (ed_val e) t ∧ holds (ed_ty_layout e) (Some blob) (Some t).
Definition events_pointers (l : list EventData) : list loc := l ≫= λ e, pointers (ed_val e).
Lemma event_ok_live h h' e K : event_ok h e → counted h' (pointers (ed_val e) ++ K) → contents h' ⊆ contents h → event_ok h' e.
Proof. intros (tag & t & Ht & Hd & Hw) Hc Hm. exists tag, t. split_and!; [done| |done]. by eapply denotes_live. Qed.
Lemma denotes_weaken h h' v t : contents h' ⊆ contents h → denotes h' v t → denotes h v t.
Proof. intros Hm [n Hn]. exists n. by destruct (read_mono n n (contents h') (contents h) v t) as [Hr _]. Qed.
Lemma event_of_weaken h h' e event : contents h' ⊆ contents h → event_of h' e event → event_of h e event.
Proof. intros Hm (tag & t & blob & Hev & Ht & Hd & Hh). exists tag, t, blob. split_and!; [done..| |done]. by eapply denotes_weaken. Qed.
Lemma event_effect_spec h e td K : coherent (td_type_cache td) → event_ok h e → counted h (pointers (ed_val e) ++ K) →
  ∃ event h' td', event_effect cache e (h, td) = (Ok event, (h', td')) ∧ leaves td td' ∧ counted h' K ∧ contents h' ⊆ contents h ∧ event_of h e event.
Proof.
  intros Hco (tag & t & Ht & Hd & Hw) Hc. destruct (type_tag_gives cache (ed_ty e) (td_type_cache td) Hco) as [Hr Hco']. rewrite Ht in Hr.
  destruct (type_to_type_tag cache (ed_ty e) (td_type_cache td)) as [r types] eqn:Hrun. cbn in Hr, Hco'. subst r.
  destruct (serialize_value_spec (ed_val e) (ed_ty_layout e) t h (with_types types td) K Hd Hw Hc) as (blob & h' & Hs & Hh & Hc' & Hm).
  exists (ed_guid e, ed_seq_num e, tag, blob), h', (with_types types td). split_and!; [|by exists types|done..|].
  - unfold event_effect, in_types. rewrite run_bind_eq. cbn. rewrite Hrun. change {| td_remote := _ |} with (with_types types td).
    by rewrite run_bind_eq, Hs.
  - by exists tag, t, blob.
Qed.
Lemma events_spec l h td K : coherent (td_type_cache td) → Forall (event_ok h) l → counted h (events_pointers l ++ K) →
  ∃ events h' td', run_collect (event_effect cache) l (h, td) = (Ok events, (h', td')) ∧ leaves td td' ∧ counted h' K ∧
    Forall2 (event_of h) l events.
Proof.
  revert h td. induction l as [|e l IH]; intros h td Hco Hok Hc.
  { exists [], h, td. split_and!; [done|by apply leaves_refl|done|constructor]. }
  apply Forall_cons in Hok as [He Hok]. unfold events_pointers in Hc. cbn in Hc. rewrite <- app_assoc in Hc.
  destruct (event_effect_spec h e td _ Hco He Hc) as (event & h1 & td1 & Hrun & Hl1 & Hc1 & Hm1 & Hev).
  destruct (IH h1 td1) as (events & h2 & td2 & Hrun2 & Hl2 & Hc2 & Hevs); [by eapply leaves_coherent| |done|].
  - rewrite Forall_forall in Hok |- *. intros e' Hin. pose proof Hin as [l' Hl]%elem_of_Permutation.
    apply (event_ok_live h h1 e' (events_pointers l' ++ K)); [by apply Hok| |done].
    unfold events_pointers in *. rewrite Hl in Hc1. cbn in Hc1. by rewrite <- app_assoc in Hc1.
  - exists (event :: events), h2, td2. cbn [run_collect]. rewrite run_bind_eq, Hrun, run_bind_eq, Hrun2. split_and!; [done|by eapply leaves_trans|done|].
    constructor; [done|]. eapply Forall2_impl; [exact Hevs|]. intros e' ev. by apply event_of_weaken.
Qed.

(** C8. The changes of a data cache: when each slot follows the resource that the
    transaction sees, with one type for each tag, the end of the session succeeds, and its
    change set, applied to what is stored, gives every resource of a slot its current
    data, leaves the other resources, and has the published modules; the events have the
    data of the values that were emitted; and no cell is left. *)
Theorem effects_commit (current : AccountAddress → RuntimeType.Type_ → option tree) (h : Heap) (td : TransactionDataCache) (K : list loc) :
  coherent (td_type_cache td) →
  (∀ addr account, td_account_map td !! addr = Some account → account_ok h addr (current addr) account) →
  Forall (event_ok h) (td_event_data td) →
  counted h (accounts_pointers (map_to_list (td_account_map td)) ++ events_pointers (td_event_data td) ++ K) →
  ∃ cs events h' td', into_effects cache (h, td) = (Ok (cs, events), (h', td')) ∧ counted h' K ∧
    (∀ addr account store, td_account_map td !! addr = Some account →
       account_committed store addr (current addr) account (cs_apply cs store addr)) ∧
    (∀ addr store, td_account_map td !! addr = None → cs_apply cs store addr = store addr) ∧
    Forall2 (event_of h) (td_event_data td) events.
Proof.
  intros Hco Hacc Hev Hc.
  destruct (accounts_spec current (map_to_list (td_account_map td)) ChangeSet_new h td (events_pointers (td_event_data td) ++ K) Hco) as (cs & h1 & td1 & Hrun & Hl1 & Hc1 & Hm1 & Hcm & Hother).
  - intros addr account Hin%elem_of_map_to_list. by apply Hacc.
  - apply NoDup_fst_map_to_list.
  - exact Hc.
  - intros. by apply lookup_empty.
  - destruct (events_spec (td_event_data td) h1 td1 K) as (events & h2 & td2 & Hrun2 & _ & Hc2 & Hevs); [by eapply leaves_coherent| |done|].
    { rewrite Forall_forall in Hev |- *. intros e Hin. pose proof Hin as [l' Hl]%elem_of_Permutation.
      apply (event_ok_live h h1 e (events_pointers l' ++ K)); [by apply Hev| |done].
      unfold events_pointers in *. rewrite Hl in Hc1. cbn in Hc1. by rewrite <- app_assoc in Hc1. }
    exists cs, events, h2, td2. split_and!; [|done| | |].
    + unfold into_effects. rewrite run_bind_eq. cbn [run_get fst snd]. rewrite run_bind_eq, Hrun, run_bind_eq. cbn [run_get fst snd].
      destruct Hl1 as (types & _ & ->). cbn [with_types td_event_data]. by rewrite run_bind_eq, Hrun2.
    + intros addr account store Hin. apply Hcm. by apply elem_of_map_to_list.
    + intros addr store Hno. unfold cs_apply. rewrite Hother; [done|]. intros ((a & acc) & -> & Hin)%list_elem_of_fmap. apply elem_of_map_to_list in Hin. cbn in Hno. congruence.
    + eapply Forall2_impl; [exact Hevs|]. intros e ev. by apply event_of_weaken.
Qed.

(** ** Loading a resource *)

(** Layouts of running code have no field names; those of structs are structs. *)
Lemma layout_undecorated n ty l : layout_within cache n ty = Some l → undecorated l = true ∧
  (is_Some (tag_at ty) → ∃ ls, l = LStruct (Runtime ls)).
Proof.
  revert ty l. induction n as [|n IH]; [done|]. intros ty l.
  assert (Hs : ∀ gidx ty_args, (tys ← field_tys_of cache gidx ty_args; ls ← mapM (layout_within cache n) tys; Some (LStruct (Runtime ls))) = Some l →
    undecorated l = true ∧ (is_Some (tag_at ty) → ∃ ls, l = LStruct (Runtime ls))).
  { intros gidx ty_args (tys & _ & (ls & Hl & [= <-])%bind_Some)%bind_Some. split; [|by eexists]. cbn. clear -IH Hl.
    apply mapM_Some in Hl. induction Hl as [|ty l tys ls Hty _ IHl]; [done|]. cbn. by rewrite (proj1 (IH _ _ Hty)), IHl. }
  destruct ty; cbn [layout_within]; try apply Hs; try done; try (intros [= <-]; split; [done|by intros [? ?]]).
  intros (l' & Hl & ->)%fmap_Some. destruct (IH _ _ Hl) as [Hu _]. split; [done|]. intros [tag Ht]. exfalso. unfold tag_at in Ht. cbn in Ht.
  by destruct (tag_of cache ty).
Qed.
Lemma remote_value_spec addr ty tag layout remote' h (td : TransactionDataCache) K n :
  tag_at ty = Some tag → layout_within cache n ty = Some layout → get_resource addr tag (td_remote td) = (Ok (stored addr tag), remote') →
  (∀ bytes, stored addr tag = Some bytes → bytes_ok bytes) → counted h K →
  match remote_value addr tag layout (h, td) with
  | (Ok gv, (h', td')) => td' = set_remote remote' td ∧ ∃ current, slot_ok h' addr ty (layout, gv) tag current ∧
      counted h' (slot_pointers gv ++ K) ∧ contents h ⊆ contents h'
  | (Err e, s) => s = (h, set_remote remote' td) ∧ e = PartialVMError_new FAILED_TO_DESERIALIZE_RESOURCE ∧
      ∀ t, ¬ holds layout (stored addr tag) t
  | _ => False
  end.
Proof.
  intros Ht Hl Hg Hb Hc. destruct (layout_undecorated n ty layout Hl) as [Hu Hstruct]. destruct Hstruct as [ls ->]; [by eexists|].
  unfold remote_value. rewrite run_bind_eq. unfold in_remote, run_map_err. cbn [fst snd]. rewrite Hg. cbn [map_err].
  unfold holds at 1. destruct (stored addr tag) as [bytes|] eqn:Hst.
  - specialize (Hb bytes eq_refl). rewrite run_bind_eq. unfold in_heap at 1. cbn [fst snd].
    pose proof (deserialize_refines bytes (LStruct (Runtime ls)) h K Hu Hc) as Hr.
    pose proof (move_read (E := PartialVMError) (LStruct (Runtime ls)) bytes Hb) as [[o Ho] Hv]. rewrite Ho in Hr. destruct o as [mv|].
    + destruct Hr as (m & v & t & h1 & -> & B & Htm). cbn.
      assert (Hkind : ∃ r ts, v = VContainer (Struct r) ∧ t = TStruct ts).
      { destruct t as [| | | | | |ts| | | | |]; try done. destruct (read_struct _ _ _ _ (bt_tree _ _ _ _ _ _ B)) as (m' & r & vs & _ & -> & _). by exists r, ts. }
      destruct Hkind as (r & ts & -> & ->). unfold in_heap, global_cached, cached. cbn [fst snd].
      destruct (counted_new h1 (r :: K) (CStatus Clean)) as (l & h2 & Hnew & Hc2 & Hlive & Hm & _); [exact (bt_counted _ _ _ _ _ _ B)|].
      rewrite (heap_bind _ _ _ _ _ Hnew). cbn. split; [done|]. exists (Some (TStruct ts)).
      assert (Hm2 : contents h1 ⊆ contents h2) by (rewrite Hm; apply insert_subseteq; by rewrite contents_lookup, Hlive).
      assert (Hden : denotes h2 (VContainer (Struct r)) (TStruct ts)).
      { exists m. destruct (read_mono m m (contents h1) (contents h2) (VContainer (Struct r)) (TStruct ts)) as [Hr _]; [done|done| |done].
        exact (bt_tree _ _ _ _ _ _ B). }
      split_and!.
      * constructor; [done| |].
        -- exists (Some (TStruct ts)). cbn [fst snd]. rewrite Hst. split; [by exists mv|]. cbn. split; [done|].
           exists (TStruct ts), Clean. split_and!; [done|done|by rewrite Hm, lookup_insert_eq|done].
        -- intros t [= <-]. split; [done|]. exists mv. split; [done|]. apply (has_layout_encodes _ _ Hu). exists bytes. by apply Hv.
      * cbn. by rewrite Permutation_swap.
      * etrans; [exact (bt_contents _ _ _ _ _ _ B)|done].
    + rewrite Hr. cbn. split_and!; [done..|]. intros [t|] Hh; [|done]. destruct Hh as (mv & Hmv & _). by rewrite Ho in Hmv.
  - cbn. split; [done|]. exists None. split_and!; [|done|done]. constructor; [done| |by intros].
    exists None. cbn. by rewrite Hst.
Qed.

Lemma slot_insert addr ty entry (td : TransactionDataCache) addr' ty' :
  slot addr' ty' (insert_slot addr ty entry td) = if decide (addr' = addr ∧ ty' = ty) then Some entry else slot addr' ty' td.
Proof.
  unfold slot, insert_slot, account_of. cbn. destruct (decide (addr' = addr)) as [->|Hne].
  - rewrite lookup_insert_eq. cbn. destruct (decide (ty' = ty)) as [->|Hty].
    + by rewrite decide_True, lookup_insert_eq.
    + rewrite decide_False, lookup_insert_ne by naive_solver. by destruct (td_account_map td !! addr).
  - by rewrite decide_False, lookup_insert_ne by naive_solver.
Qed.
Lemma slot_touch addr (td : TransactionDataCache) addr' ty' : slot addr' ty' (get_or_insert_account addr td) = slot addr' ty' td.
Proof.
  unfold slot, get_or_insert_account, account_of. cbn. destruct (decide (addr' = addr)) as [->|Hne].
  - rewrite lookup_insert_eq. cbn. by destruct (td_account_map td !! addr).
  - by rewrite lookup_insert_ne.
Qed.
Lemma slot_remote remote (td : TransactionDataCache) addr ty : slot addr ty (set_remote remote td) = slot addr ty td.
Proof. done. Qed.
Lemma slot_types types (td : TransactionDataCache) addr ty : slot addr ty (with_types types td) = slot addr ty td.
Proof. done. Qed.

(** Loading a resource gives the slot that is in the cache already, as it is, or a
    new one for the data that is stored under the tag of the type, with what was in memory
    kept; it fails, leaving memory and the slots as they were, when the bytes are not a
    value of the type or its values have too many levels. *)
Theorem load_resource_spec (addr : AccountAddress) (ty : RuntimeType.Type_) (tag : StructTag) (remote' : S)
    (h : Heap) (td : TransactionDataCache) (K : list loc) :
  coherent (td_type_cache td) → tag_at ty = Some tag → get_resource addr tag (td_remote td) = (Ok (stored addr tag), remote') →
  (∀ bytes, stored addr tag = Some bytes → bytes_ok bytes) → counted h K →
  let '(r, (h', td')) := data_load_resource cache addr ty (h, td) in
  (td_remote td' = td_remote td ∨ td_remote td' = remote') ∧ coherent (td_type_cache td') ∧ (∀ addr' ty', ¬ (addr' = addr ∧ ty' = ty) → slot addr' ty' td' = slot addr' ty' td) ∧
  match r with
  | Ok gv => ∃ layout, slot addr ty td' = Some (layout, gv) ∧
      (slot addr ty td = Some (layout, gv) ∧ h' = h ∨
       slot addr ty td = None ∧ ∃ current, slot_ok h' addr ty (layout, gv) tag current ∧
         counted h' (slot_pointers gv ++ K) ∧ contents h ⊆ contents h')
  | Err _ | Panic => h' = h ∧ slot addr ty td' = None ∧
      (layout_within cache 256 ty = None ∨ ∃ n layout, layout_within cache n ty = Some layout ∧ ∀ t, ¬ holds layout (stored addr tag) t)
  | OutOfFuel => False
  end.
Proof.
  intros Hco Ht Hg Hb Hc. unfold data_load_resource. rewrite run_bind_eq. cbn [in_cache run_modify fst snd].
  rewrite run_bind_eq. cbn [run_get fst snd]. rewrite slot_touch. destruct (slot addr ty td) as [[layout gv]|] eqn:Hslot.
  { cbn [mret Run_ret]. split_and!; [by left|done|intros; apply slot_touch|]. exists layout. rewrite slot_touch. by split; [|left]. }
  set (td1 := get_or_insert_account addr td). assert (Hco1 : coherent (td_type_cache td1)) by done.
  destruct (resource_tag_spec ty tag h td1 Hco1 Ht) as (td2 & Htag & (types & Hty & ->)). rewrite run_bind_eq, Htag.
  rewrite run_bind_eq. unfold in_types at 1. cbn [fst snd].
  pose proof (type_layout_spec cache ty types Hty) as [Hco2 Hl]. unfold with_types at 1. cbn [td_type_cache].
  destruct (type_to_type_layout cache ty types) as [r types2]. cbn [fst snd] in Hco2, Hl.
  change {| td_remote := _ |} with (with_types types2 td1). destruct r as [layout|e| |]; [| | |done].
  - destruct Hl as [n Hn]. rewrite run_bind_eq.
    pose proof (remote_value_spec addr ty tag layout remote' h (with_types types2 td1) K n Ht Hn Hg Hb Hc) as Hr.
    destruct (remote_value addr tag layout (h, with_types types2 td1)) as [[gv|e| |] [h' td']]; [| |done..].
    + destruct Hr as [-> (current & Hs & Hc' & Hm)]. rewrite run_bind_eq. cbn [in_cache run_modify mret Run_ret fst snd].
      split_and!; [by right|done| |].
      * intros addr' ty' Hne. rewrite slot_insert, decide_False by done. rewrite slot_remote, slot_types. apply slot_touch.
      * exists layout. rewrite slot_insert, decide_True by done. split; [done|]. right. split; [done|]. by exists current.
    + destruct Hr as ([= -> ->] & _ & Hno). split; [by right|]. split; [done|].
      split; [intros; rewrite slot_remote, slot_types; apply slot_touch|].
      split_and!; [done|by rewrite slot_remote, slot_types; unfold td1; rewrite slot_touch|]. right. by exists n, layout.
  - split; [by left|]. split; [done|]. split; [intros; rewrite slot_types; apply slot_touch|]. split_and!; [done|by rewrite slot_types; unfold td1; rewrite slot_touch|by left].
  - split; [by left|]. split; [done|]. split; [intros; rewrite slot_types; apply slot_touch|]. split_and!; [done|by rewrite slot_types; unfold td1; rewrite slot_touch|by left].
Qed.
End Effects.

(** ** A transaction that changes a resource *)

(** A struct with a number, stored as 7 *)
Definition counter_cache : ModuleCache unit := chain 0.
Definition counter_type : RuntimeType.Type_ := RuntimeType.Struct 0.
Definition counter_tag : StructTag := {| stg_address := [1]; stg_module := [77]; stg_name := [0]; stg_type_params := [] |}.
Definition counter_layout : MoveTypeLayout := LStruct (Runtime [LU64]).
Definition counter_bytes (n : u8) : list u8 := [n; 0; 0; 0; 0; 0; 0; 0].
Definition counter_store (addr : AccountAddress) : AccountStore :=
  (∅, if decide (addr = ZERO) then {[ counter_tag := counter_bytes 7 ]} else ∅).
Definition counter_stored (addr : AccountAddress) (tag : StructTag) : option (list u8) := (counter_store addr).2 !! tag.
#[local] Instance counter_remote : MoveResolver unit :=
  {| get_module := λ _ _, Ok None; get_resource := λ addr tag, mret (counter_stored addr tag) |}.
(** The session after the field was written: the cells of [written_heap] *)
Definition counter_data : TransactionDataCache (S := unit) :=
  insert_slot ZERO counter_type (counter_layout, Cached 0 1) (TransactionDataCache_new tt TypeCache_new).

Example load_counter :
  match data_load_resource counter_cache ZERO counter_type (empty_heap, TransactionDataCache_new tt TypeCache_new) with
  | (Ok (Cached 0 1), (h, td)) => h = cached_heap ∧ slot ZERO counter_type td = Some (counter_layout, Cached 0 1)
  | _ => False
  end.
Proof. vm_compute. by split. Qed.
Lemma load_resource_spec_witness :
  ∃ gv h' td', data_load_resource counter_cache ZERO counter_type (empty_heap, TransactionDataCache_new tt TypeCache_new) = (Ok gv, (h', td')) ∧
    ∃ stored, slot_ok counter_cache counter_stored h' ZERO counter_type (counter_layout, gv) counter_tag stored.
Proof.
  pose proof (load_resource_spec counter_cache counter_stored ZERO counter_type counter_tag tt empty_heap
    (TransactionDataCache_new tt TypeCache_new) []) as Hl.
  destruct (data_load_resource counter_cache ZERO counter_type (empty_heap, TransactionDataCache_new tt TypeCache_new)) as [r [h' td']] eqn:Hr.
  destruct Hl as (_ & _ & _ & Hl); [apply coherent_new|by vm_compute|by vm_compute| |by apply check_counted_sound|].
  { intros bytes [= <-]. by repeat constructor. }
  assert (∃ gv, r = Ok gv ∧ slot ZERO counter_type td' = Some (counter_layout, gv)) as (gv & -> & Hs) by (vm_compute in Hr; injection Hr as <- _ <-; by eexists).
  exists gv, h', td'. split; [done|]. destruct Hl as (layout & Hs' & [[Hold _]|(_ & stored & Hok & _)]); [by vm_compute in Hold|].
  rewrite Hs in Hs'. injection Hs' as <-. by exists stored.
Defined.

Lemma counter_account_ok :
  account_ok counter_cache counter_stored written_heap ZERO (λ _, Some (TStruct [TU64 8]))
    {| ad_data_map := {[ counter_type := (counter_layout, Cached 0 1) ]}; ad_module_map := ∅ |}.
Proof.
  split.
  - intros ty entry Hin. apply elem_of_map_to_list in Hin. cbn in Hin. apply lookup_singleton_Some in Hin as [<- <-]. exists counter_tag.
    assert (Hd : denotes written_heap (VContainer (Struct 0)) (TStruct [TU64 8])) by (by exists 2%nat).
    constructor; [by vm_compute| |].
    + exists (Some (TStruct [TU64 7])). split; [by exists (MStruct (MRuntime [MU64 7]))|].
      cbn. split; [done|]. by exists (TStruct [TU64 8]), Dirty.
    + intros t [= <-]. split; [done|]. by exists (MStruct (MRuntime [MU64 8])).
  - cbn [ad_data_map]. rewrite map_to_list_singleton. by apply NoDup_singleton.
Qed.
Lemma effects_commit_witness :
  ∃ cs events h' td', into_effects counter_cache (written_heap, counter_data) = (Ok (cs, events), (h', td')) ∧
    holds counter_layout ((cs_apply cs counter_store ZERO).2 !! counter_tag) (Some (TStruct [TU64 8])).
Proof.
  destruct (effects_commit counter_cache counter_stored (λ _ _, Some (TStruct [TU64 8])) written_heap counter_data [])
    as (cs & events & h' & td' & Hrun & _ & Hcm & _).
  - apply coherent_new.
  - intros addr account Hin. unfold counter_data, insert_slot, set_account, set_account_map, TransactionDataCache_new in Hin. cbn [td_account_map] in Hin.
    apply lookup_insert_Some in Hin as [[<- <-]|[_ Hin]]; [apply counter_account_ok|]. by apply lookup_empty_Some in Hin.
  - constructor.
  - by apply check_counted_sound.
  - exists cs, events, h', td'. split; [exact Hrun|].
    refine (ac_slots _ _ _ _ _ _ _ (Hcm ZERO _ counter_store _) counter_type (counter_layout, Cached 0 1) counter_tag _ _ _).
    + by apply lookup_insert_eq.
    + by vm_compute.
    + by vm_compute.
    + by vm_compute.
Defined.
