(* ===== verification/Runtime.v ===== *)
(** * Runtime: sessions, from bytes to effects

    Models [language/move-vm/runtime/src/runtime.rs] and the calls of [session.rs] that
    lead to it: publishing modules, executing functions and scripts with serialized
    arguments, and the end of a session.  The loops of the interpreter have the fuel
    [run_fuel], and the loader [load_fuel]; both are arguments.

    The theorems are about publishing: a bundle of modules is published as a whole or not
    at all, its modules were accepted one after the other, and what becomes of a bundle
    with two modules of one name. *)

From S2P Require Import Prelude CoreTypes VmStatus Abilities FileFormat Errors BinaryCommon Serializer Views BoundsChecker Integers RuntimeTypes Heap Values GlobalValues Layouts SignatureChecker Graphs StructDefs InstantiationLoops CyclicDependencies Dependencies MoveValues ValueCodec Verifier Gas LoadedCode Machine Interpreter Effects TypeTags Loading Loads DataCache.

Section Runtime.
Context {S Native G : Type} `{Graph G Node Edge} `{Toposort StructDefinitionIndex} `{!MoveResolver S, !NativeCalls (@TransactionDataCache S) Native}.
Notation TransactionDataCache := (@TransactionDataCache S).
Context (debug overflow_checks : bool) (verifier_fuel load_fuel run_fuel : nat).
Context (natives : NativeFunctions Native) (sha3_256 : list u8 → ScriptHash).

(** [struct Session]: the loader of its runtime, and its data cache with the memory and
    the meter of the calls *)
Record Session : Type := { ss_loader : Loader Native; ss_context : Context TransactionDataCache }.
Notation SessionM E := (Run Session E).
Definition new_session (remote : S) (loader : Loader Native) (types : TypeCache) (gas : GasStatus) : Session :=
  {| ss_loader := loader; ss_context := {| c_heap := empty_heap; c_store := TransactionDataCache_new remote types; c_gas := gas |} |}.

(** Operations on a part of the session *)
Definition in_context {E A} (m : Loader Native → Run (Context TransactionDataCache) E A) : SessionM E A := λ s,
  let '(r, ctx) := m (ss_loader s) (ss_context s) in (r, {| ss_loader := ss_loader s; ss_context := ctx |}).
Definition in_data {A} (m : ModuleCache Native → Run (Heap * TransactionDataCache) PartialVMError A) : SessionM PartialVMError A :=
  in_context (λ loader, context_store (m (l_module_cache loader))).
Definition in_loader {A} (m : (ModuleId → result VMError (list u8)) → Run (Loader Native) VMError A) : SessionM VMError A := λ s,
  let '(r, loader) := m (data_load_module (c_store (ss_context s))) (ss_loader s) in
  (r, {| ss_loader := loader; ss_context := ss_context s |}).
Definition at_undefined {A} (m : SessionM PartialVMError A) : SessionM VMError A := run_map_err undefined_location m.

(** ** Publishing *)

(** [publish_module_bundle] *)
Definition check_sender (sender : AccountAddress) (module : CompiledModule) : result VMError unit :=
  self_id ← map_err undefined_location (module_self_id module);
  if bool_decide (mid_address self_id ≠ sender)
  then Err (undefined_location (verification_error MODULE_ADDRESS_DOES_NOT_MATCH_SENDER KAddressIdentifier (m_self_module_handle_idx module)))
  else Ok tt.
Definition check_new (data : TransactionDataCache) (module : CompiledModule) : result VMError unit :=
  module_id ← map_err undefined_location (module_self_id module);
  found ← data_exists_module data module_id;
  if found : bool then Err (undefined DUPLICATE_MODULE_NAME) else Ok tt.
Definition publish_one (p : CompiledModule * list u8) : SessionM VMError unit :=
  module_id ← run_lift (map_err undefined_location (module_self_id p.1));
  in_context (λ _, context_store (in_cache (data_publish_module module_id p.2))).
Definition publish_module_bundle (modules : list (list u8)) (sender : AccountAddress) : SessionM VMError unit :=
  compiled_modules ← run_lift (map_err undefined_location (collect CompiledModule_deserialize modules));
  _ ← run_lift (for_each (check_sender sender) compiled_modules);
  data ← run_get (λ s, c_store (ss_context s));
  _ ← run_lift (for_each (check_new data) compiled_modules);
  _ ← in_loader (λ fetch, on_module_cache
        (verify_module_bundle_for_publication (G := G) debug overflow_checks verifier_fuel load_fuel natives fetch compiled_modules));
  run_each publish_one (zip compiled_modules modules).
Definition publish_module (module : list u8) (sender : AccountAddress) : SessionM VMError unit := publish_module_bundle [module] sender.

(** ** Arguments *)

Definition is_signer_reference (s : RuntimeType.Type_) : bool :=
  match s with RuntimeType.Reference RuntimeType.Signer => true | _ => false end.
Definition is_signer (s : RuntimeType.Type_) : bool := match s with RuntimeType.Signer => true | _ => false end.

(** [deserialize_args] *)
Definition deserialize_arg (cache : ModuleCache Native) (p : RuntimeType.Type_ * list u8)
  : Run (Heap * TransactionDataCache) PartialVMError ValueImpl :=
  let failed := run_lift (Err (PartialVMError_new FAILED_TO_DESERIALIZE_ARGUMENT)) in
  if is_signer_reference p.1
  then signer ← run_lift (move_simple_deserialize p.2 LSigner);
       match signer with
       | Some (MSigner addr) => in_heap (signer_reference addr)
       | _ => failed
       end
  else layout ← run_map_err (λ _, PartialVMError_new INVALID_PARAM_TYPE_FOR_DESERIALIZATION) (in_types (type_to_type_layout cache p.1));
       val ← in_heap (value_simple_deserialize p.2 layout);
       match val with
       | Some val => mret val
       | None => failed
       end.
Definition deserialize_args (cache : ModuleCache Native) (tys : list RuntimeType.Type_) (args : list (list u8))
  : Run (Heap * TransactionDataCache) PartialVMError (list ValueImpl) :=
  if negb (len tys =? len args) then run_lift (Err (PartialVMError_new NUMBER_OF_ARGUMENTS_MISMATCH))
  else run_collect (deserialize_arg cache) (zip tys args).

(** [create_signers_and_arguments] *)
Fixpoint number_of_signer_params (is_signer : RuntimeType.Type_ → bool) (tys : list RuntimeType.Type_) : N :=
  match tys with
  | [] => 0
  | ty :: tys => if is_signer ty then 1 + number_of_signer_params is_signer tys else 0
  end.
Definition create_signers_and_arguments (cache : ModuleCache Native) (file_format_version : u32) (tys : list RuntimeType.Type_)
    (senders : list AccountAddress) (args : list (list u8)) : Run (Heap * TransactionDataCache) PartialVMError (list ValueImpl) :=
  let references := file_format_version <=? VERSION_1 in
  let n_signer_params := number_of_signer_params (if references then is_signer_reference else is_signer) tys in
  if n_signer_params =? 0 then deserialize_args cache tys args else
  let n_signers := len senders in
  if negb (n_signer_params =? n_signers) then run_lift (Err (PartialVMError_new NUMBER_OF_SIGNER_ARGUMENTS_MISMATCH)) else
  vals ← run_collect (λ sender, in_heap (if references then signer_reference sender else value_signer sender)) senders;
  args ← deserialize_args cache (drop (N.to_nat n_signers) tys) args;
  mret (vals ++ args).

(** ** Execution *)

(** [Interpreter::entrypoint] on the data cache *)
Definition run_function (function : Function Native) (ty_args : list RuntimeType.Type_) (args : list ValueImpl) : SessionM VMError (list ValueImpl) :=
  values ← in_context (λ loader,
    @entrypoint TransactionDataCache Native (TransactionDataCache_DataStore (l_module_cache loader)) _ overflow_checks run_fuel
      function ty_args args loader);
  run_lift (match values with Some values => Ok values | None => OutOfFuel end).
Definition no_values {A} (return_vals : list A) : result VMError unit :=
  match return_vals with [] => Ok tt | _ => Err (undefined UNKNOWN_INVARIANT_VIOLATION_ERROR) end.

Definition execute_script (script : list u8) (ty_args : list TypeTag) (args : list (list u8)) (senders : list AccountAddress)
  : SessionM VMError unit :=
  '(main, ty_args, params) ← in_loader (λ fetch,
    load_script (G := G) debug overflow_checks verifier_fuel load_fuel natives sha3_256 fetch script ty_args);
  signers_and_args ← at_undefined (in_data (λ cache,
    create_signers_and_arguments cache (f_file_format_version main) params senders args));
  return_vals ← run_function main ty_args signers_and_args;
  run_lift (no_values return_vals).

(** [execute_function_impl] *)
Definition return_layout (cache : ModuleCache Native) (ty : RuntimeType.Type_) : Run (Heap * TransactionDataCache) PartialVMError MoveTypeLayout :=
  run_map_err (λ _, PartialVMError_new INTERNAL_TYPE_ERROR) (in_types (type_to_type_layout cache ty)).
Definition execute_function_impl (module : ModuleId) (function_name : Identifier) (ty_args : list TypeTag)
    (make_args : ModuleCache Native → u32 → list RuntimeType.Type_ → Run (Heap * TransactionDataCache) PartialVMError (list ValueImpl))
    (is_script_execution : bool) : SessionM VMError (list (list u8)) :=
  '(func, ty_args, params, return_tys) ← in_loader (λ fetch,
    load_function (G := G) debug overflow_checks verifier_fuel load_fuel natives fetch function_name module ty_args is_script_execution);
  return_layouts ← at_undefined (in_data (λ cache, run_collect (return_layout cache) return_tys));
  params ← run_lift (map_err undefined_location (collect (λ ty, RuntimeTypes.subst ty ty_args) params));
  args ← at_undefined (in_data (λ cache, make_args cache (f_file_format_version func) params));
  return_vals ← run_function func ty_args args;
  if negb (len return_layouts =? len return_vals) then run_lift (Err (undefined UNKNOWN_INVARIANT_VIOLATION_ERROR)) else
  at_undefined (in_data (λ _, run_collect (λ p, serialize_value p.1 p.2) (zip return_vals return_layouts))).
Definition execute_script_function (module : ModuleId) (function_name : Identifier) (ty_args : list TypeTag)
    (args : list (list u8)) (senders : list AccountAddress) : SessionM VMError unit :=
  return_vals ← execute_function_impl module function_name ty_args
    (λ cache version params, create_signers_and_arguments cache version params senders args) true;
  run_lift (no_values return_vals).
Definition execute_function (module : ModuleId) (function_name : Identifier) (ty_args : list TypeTag) (args : list (list u8))
  : SessionM VMError (list (list u8)) :=
  execute_function_impl module function_name ty_args (λ cache _ params, deserialize_args cache params args) false.

(** [Session::finish], [Session::get_type_layout] *)
Definition finish_session : SessionM VMError (ChangeSet * list Event) := at_undefined (in_data into_effects).
Definition get_type_layout (type_tag : TypeTag) : SessionM VMError MoveTypeLayout :=
  ty ← in_loader (λ fetch, load_type (G := G) debug overflow_checks verifier_fuel load_fuel natives fetch type_tag);
  at_undefined (in_data (λ cache, in_types (type_to_type_layout cache ty))).
End Runtime.

Lemma run_bind_inv {S E A B} (m : Run S E A) (k : A → Run S E B) s b s' :
  (m ≫= k) s = (Ok b, s') → ∃ a s1, m s = (Ok a, s1) ∧ k a s1 = (Ok b, s').
Proof. rewrite run_bind_eq. destruct (m s) as [[] ?]; try done. by eauto. Qed.
Lemma collect_Forall2 {E A B} (f : A → result E B) l ys : collect f l = Ok ys → Forall2 (λ x y, f x = Ok y) l ys.
Proof.
  revert ys. induction l as [|x l IH]; intros ys; cbn; [by intros [= <-]; constructor|].
  intros (y & Hy & (ys' & Hys & [= <-])%bind_Ok)%bind_Ok. constructor; [done|by apply IH].
Qed.
Lemma run_lift_inv {S E A} (r : result E A) (s : S) a s' : run_lift r s = (Ok a, s') → r = Ok a ∧ s' = s.
Proof. by intros [= -> ->]. Qed.

Section Publication.
Context {Native G : Type} `{Graph G Node Edge} `{Toposort StructDefinitionIndex}.
Context (debug overflow_checks : bool) (verifier_fuel fuel : nat) (natives : NativeFunctions Native).
Notation verify_module := (verify_module (G := G) debug overflow_checks verifier_fuel).

(** ** What a module of a bundle was checked for *)

(** The module is accepted after the modules [verified] and before the modules [remaining]
    of its bundle, with the loader's cache [c]: it links with its dependencies, those of
    the bundle first and the others from the cache, and closes no cycle. *)
Record accepted (verified : gmap ModuleId CompiledModule) (remaining : gset ModuleId) (c : ModuleCache Native) (m : CompiledModule) : Prop := {
  ac_verified : verify_module m = Ok tt;
  ac_natives : check_natives natives m = Ok tt;
  ac_linked : linked verified c m;
  ac_acyclic : verify_module_cyclic_relations verified remaining m c = Ok tt }.
Lemma publication_accepted verified remaining fetch m c :
  run_spec (verify_module_for_publication (G := G) debug overflow_checks verifier_fuel fuel natives verified remaining fetch m) c
    (λ _ c', grows (G := G) debug overflow_checks verifier_fuel natives fetch c c' ∧ accepted verified remaining c' m) (λ _ _, True).
Proof.
  assert (Hv : run_spec (verify_for_publication (G := G) debug overflow_checks verifier_fuel fuel natives verified remaining fetch m)
    {| ld_cache := c; ld_visited := ∅; ld_friends_discovered := [] |}
    (λ _ s', grows (G := G) debug overflow_checks verifier_fuel natives fetch c (ld_cache s') ∧ accepted verified remaining (ld_cache s') m) (λ _ _, True)).
  { unfold verify_for_publication. apply run_spec_bind, run_spec_lift; [|done]. intros [] Hverified.
    apply run_spec_bind, run_spec_lift; [|done]. intros [] Hnatives. apply run_spec_bind, run_spec_lift; [|done]. intros self_id _.
    apply run_spec_bind, run_spec_lift; [|done]. intros friends _.
    apply run_spec_bind, run_spec_modify, run_spec_bind, run_spec_modify, run_spec_bind.
    eapply run_spec_weaken; [apply load_dependencies_grown; intros; by apply load_grown| |done].
    intros [] s1 [Hg Hlinked]. cbn in Hg. apply run_spec_bind, run_spec_get. unfold run_spec, on_cache.
    pose proof (friends_grown debug overflow_checks verifier_fuel natives fetch verified remaining
      (load_with_friends (G := G) debug overflow_checks verifier_fuel fuel natives verified remaining fetch fuel) (ld_friends_discovered s1) true (ld_cache s1)) as Hf.
    match goal with |- context [match ?run (ld_cache s1) with _ => _ end] => destruct (run (ld_cache s1)) as [[[]|e| |] c2] eqn:Hrun; [|done..] end. apply run_bind_inv in Hrun as ([] & c3 & Hload & Hrun).
    apply run_bind_inv in Hrun as (c4 & c5 & [= <- <-] & [Hcyclic ->]%run_lift_inv). unfold run_spec in Hf. rewrite Hload in Hf.
    destruct Hf as [Hg3 _]; [intros; eapply run_spec_weaken; [apply load_with_friends_grown|by intros ? ? []|done]|]. cbn [ld_cache].
    split; [etrans; [apply Hg|exact Hg3]|]. constructor; [done..| |done]. eapply linked_later; [by apply Hg3|done]. }
  unfold run_spec, verify_module_for_publication in *. by destruct (verify_for_publication _ _ _ _ _ _ _ _ _ _) as [[[]|e| |] s].
Qed.

(** The modules of a bundle by their names; of two with one name, the last *)
Definition bundled (ms : list (ModuleId * CompiledModule)) (verified : gmap ModuleId CompiledModule) : gmap ModuleId CompiledModule :=
  foldl (λ b p, <[ p.1 := p.2 ]> b) verified ms.
Lemma bundle_accepted fetch ms ids verified unverified c c' :
  collect module_self_id ms = Ok ids →
  verify_bundle (G := G) debug overflow_checks verifier_fuel fuel natives fetch ms verified unverified c = (Ok tt, c') →
  grows (G := G) debug overflow_checks verifier_fuel natives fetch c c' ∧
  ∀ i m, ms !! i = Some m → ∃ ci, later c ci ∧ later ci c' ∧
    accepted (bundled (zip (take i ids) (take i ms)) verified) (unverified ∖ list_to_set (take (S i) ids)) ci m.
Proof.
  revert ids verified unverified c. induction ms as [|m ms IH]; intros ids verified unverified c Hids Hv.
  { injection Hv as <-. by split. }
  cbn in Hids. apply bind_Ok in Hids as (id & Hid & (ids' & Hids & [= <-])%bind_Ok). cbn [verify_bundle] in Hv. apply run_bind_inv in Hv as (id' & c1 & [Hid'%map_err_Ok ->]%run_lift_inv & Hv).
  rewrite Hid in Hid'. injection Hid' as <-. apply run_bind_inv in Hv as ([] & c2 & Hm & Hv).
  pose proof (publication_accepted verified (unverified ∖ {[id]}) fetch m c) as Hp. unfold run_spec in Hp. rewrite Hm in Hp. destruct Hp as [Hg Ha].
  destruct (IH _ _ _ _ Hids Hv) as [Hg' Hall]. split; [by etrans|]. intros [|i] m' Hi; cbn in Hi |- *.
  - injection Hi as <-. exists c2. replace ({[id]} ∪ list_to_set _) with ({[id]} : gset ModuleId) by (destruct ids'; cbn; set_solver).
    split_and!; [apply Hg|apply Hg'|done].
  - destruct (Hall i m' Hi) as (ci & H1 & H2 & Hci). exists ci. split_and!; [etrans; [apply Hg|done]|done|].
    by replace (unverified ∖ ({[id]} ∪ list_to_set (take (S i) ids'))) with (unverified ∖ {[id]} ∖ list_to_set (take (S i) ids')) by set_solver.
Qed.
End Publication.

(** ** What publishing changes *)

Section Data.
(** The bytes of the last module of the list with a name *)
Definition last_blob (id : ModuleId) (l : list (ModuleId * list u8)) : option (list u8) := last (filter (λ p, p.1 = id) l).*2.
Definition publish_all {S} (l : list (ModuleId * list u8)) (td : @TransactionDataCache S) : TransactionDataCache :=
  foldl (λ td p, data_publish_module p.1 p.2 td) td l.

Context {S : Type}.
Notation TransactionDataCache := (@TransactionDataCache S).
Lemma published_publish id blob (td : TransactionDataCache) id' :
  published id' (data_publish_module id blob td) = if decide (id' = id) then Some blob else published id' td.
Proof.
  unfold published, data_publish_module, account_of. cbn. destruct (decide (mid_address id' = mid_address id)) as [Ha|Ha].
  - rewrite Ha, lookup_insert_eq. cbn. case_decide as Hid; [subst; by rewrite lookup_insert_eq|].
    rewrite lookup_insert_ne by (intros Hn; apply Hid; destruct id, id'; cbn in *; congruence).
    by destruct (td_account_map td !! mid_address id).
  - rewrite lookup_insert_ne by done. case_decide; [by subst|done].
Qed.
Lemma slot_publish id blob (td : TransactionDataCache) addr ty : slot addr ty (data_publish_module id blob td) = slot addr ty td.
Proof.
  unfold slot, data_publish_module, account_of. cbn. destruct (decide (addr = mid_address id)) as [->|Ha].
  - rewrite lookup_insert_eq. cbn. by destruct (td_account_map td !! mid_address id).
  - by rewrite lookup_insert_ne.
Qed.
Lemma published_all l (td : TransactionDataCache) id :
  published id (publish_all l td) = match last_blob id l with Some blob => Some blob | None => published id td end.
Proof.
  induction l as [|[id' blob] l IH] using rev_ind; [done|]. unfold publish_all, last_blob in *. rewrite foldl_app, filter_app, fmap_app. cbn [foldl fst snd].
  rewrite published_publish. case_decide as Hid.
  - rewrite filter_cons_True by done. cbn. by rewrite last_snoc.
  - rewrite filter_cons_False by (cbn; congruence). cbn. by rewrite app_nil_r.
Qed.
(** Slots, events and the type cache *)
Record same_data (td td' : TransactionDataCache) : Prop := {
  sd_slots addr ty : slot addr ty td' = slot addr ty td;
  sd_events : td_event_data td' = td_event_data td;
  sd_types : td_type_cache td' = td_type_cache td;
  sd_remote : td_remote td' = td_remote td }.
Lemma publish_all_data l (td : TransactionDataCache) : same_data td (publish_all l td).
Proof.
  revert td. induction l as [|[id blob] l IH]; intros td; [done|]. cbn. destruct (IH (data_publish_module id blob td)) as [H1 H2 H3 H4].
  constructor; [|done..]. intros addr ty. cbn [publish_all foldl fst snd] in *. rewrite H1. apply slot_publish.
Qed.
End Data.

Section Publishing.
Context {S Native G : Type} `{Graph G Node Edge} `{Toposort StructDefinitionIndex} `{!MoveResolver S}.
Context (debug overflow_checks : bool) (verifier_fuel fuel : nat) (natives : NativeFunctions Native).
Notation TransactionDataCache := (@TransactionDataCache S).
Notation publish_module_bundle := (publish_module_bundle (S := S) (G := G) debug overflow_checks verifier_fuel fuel natives).
Notation data s := (c_store (ss_context s)).

Lemma publish_each ids (ps : list (CompiledModule * list u8)) (s : Session (S := S) (Native := Native)) : collect module_self_id ps.*1 = Ok ids →
  run_each (publish_one (S := S) (Native := Native)) ps s = (Ok tt, {| ss_loader := ss_loader s;
    ss_context := {| c_heap := c_heap (ss_context s); c_store := publish_all (zip ids ps.*2) (data s); c_gas := c_gas (ss_context s) |} |}).
Proof.
  revert ids s. induction ps as [|[m blob] ps IH]; intros ids s Hids; cbn in Hids.
  - injection Hids as <-. by destruct s as [? []].
  - apply bind_Ok in Hids as (id & Hid & (ids' & Hids & [= <-])%bind_Ok). cbn [run_each].
    set (s1 := {| ss_loader := ss_loader s; ss_context := {| c_heap := c_heap (ss_context s); c_store := data_publish_module id blob (data s);
      c_gas := c_gas (ss_context s) |} |}).
    assert (publish_one (m, blob) s = (Ok tt, s1)) as Hone.
    { unfold publish_one. cbn [fst snd]. rewrite Hid. by rewrite run_bind_eq. }
    rewrite (run_bind_ok _ _ _ _ _ Hone). by rewrite (IH ids' s1 Hids).
Qed.
Lemma check_sender_ok sender m id : module_self_id m = Ok id → check_sender sender m = Ok tt → mid_address id = sender.
Proof. unfold check_sender. intros ->. cbn -[bool_decide]. case_bool_decide as Hs; [done|]. intros _. destruct (decide (mid_address id = sender)); [done|by destruct Hs]. Qed.
Lemma check_new_ok (td : TransactionDataCache) m id : module_self_id m = Ok id → check_new td m = Ok tt → published id td = None ∧ get_module (td_remote td) id = Ok None.
Proof.
  unfold check_new. intros ->. cbn. unfold data_exists_module. destruct (published id td); [done|].
  destruct (get_module (td_remote td) id) as [[bytes|]| | |]; by cbn.
Qed.

(** What a bundle has when it was published from the session with data [td] and the
    loader's cache [c], which are [td'] and [c'] then: its modules were checked one after
    the other, with caches between the two, and what the cache has gained came from what
    the session and storage hold. *)
Record bundle_published (td td' : TransactionDataCache) (c c' : ModuleCache Native) (modules : list (list u8)) (sender : AccountAddress)
    (ms : list CompiledModule) (ids : list ModuleId) : Prop := {
  bp_modules : collect CompiledModule_deserialize modules = Ok ms;
  bp_ids : collect module_self_id ms = Ok ids;
  bp_new id : id ∈ ids → mid_address id = sender ∧ published id td = None ∧ get_module (td_remote td) id = Ok None;
  bp_cache : grows (G := G) debug overflow_checks verifier_fuel natives (data_load_module td) c c';
  bp_accepted i m : ms !! i = Some m → ∃ ci, later c ci ∧ later ci c' ∧
    accepted (G := G) debug overflow_checks verifier_fuel natives (bundled (zip (take i ids) (take i ms)) ∅)
      (list_to_set ids ∖ list_to_set (take (Datatypes.S i) ids)) ci m;
  bp_published id : published id td' = match last_blob id (zip ids modules) with Some blob => Some blob | None => published id td end;
  bp_data : same_data td td' }.

(** A bundle is published as a whole, or nothing changes. *)
Lemma publish_bundle_all (modules : list (list u8)) (sender : AccountAddress) (s : Session (S := S) (Native := Native)) :
  let '(r, s') := publish_module_bundle modules sender s in
  match r with
  | Ok _ => (∃ ms ids, bundle_published (data s) (data s') (l_module_cache (ss_loader s)) (l_module_cache (ss_loader s')) modules sender ms ids) ∧
      c_heap (ss_context s') = c_heap (ss_context s) ∧ c_gas (ss_context s') = c_gas (ss_context s)
  | _ => ss_context s' = ss_context s
  end.
Proof.
  unfold Runtime.publish_module_bundle. rewrite run_bind_eq. cbn [run_lift].
  destruct (collect CompiledModule_deserialize modules) as [ms| | |] eqn:Hms; [cbn [map_err]|done..].
  rewrite run_bind_eq. cbn [run_lift]. destruct (for_each (check_sender sender) ms) as [[]| | |] eqn:Hsender; [|done..].
  rewrite run_bind_eq. cbn [run_get]. rewrite run_bind_eq. cbn [run_lift].
  destruct (for_each (check_new (data s)) ms) as [[]| | |] eqn:Hnew; [|done..]. rewrite run_bind_eq.
  unfold in_loader at 1, on_module_cache.
  destruct (verify_module_bundle_for_publication _ _ _ _ _ _ _ (l_module_cache _)) as [[[]| | |] c'] eqn:Hv; [|done..].
  unfold verify_module_bundle_for_publication in Hv. apply run_bind_inv in Hv as (ids & c1 & [Hids%map_err_Ok ->]%run_lift_inv & Hv).
  assert (Hlen : length ms = length modules) by (by apply collect_Forall2, Forall2_length in Hms).
  assert (Hzip : (zip ms modules).*1 = ms ∧ (zip ms modules).*2 = modules) by (split; [apply fst_zip|apply snd_zip]; lia).
  rewrite (publish_each ids) by (by rewrite (proj1 Hzip)). rewrite (proj2 Hzip). cbn. split; [|done]. destruct (bundle_accepted debug overflow_checks verifier_fuel fuel natives _ ms ids ∅ _ _ _ Hids Hv) as [Hgrows Hall].
  exists ms, ids. constructor; [done|done| |exact Hgrows|exact Hall|apply published_all|apply publish_all_data].
  intros id Hin. apply list_elem_of_lookup in Hin as [i Hi]. destruct (Forall2_lookup_r _ _ _ _ _ (collect_Forall2 _ _ _ Hids) Hi) as (m & Hm & Hid).
  apply for_each_Ok in Hsender, Hnew. rewrite Forall_forall in Hsender, Hnew. apply list_elem_of_lookup_2 in Hm.
  split; [eapply check_sender_ok; [exact Hid|by apply Hsender]|eapply check_new_ok; [exact Hid|by apply Hnew]].
Qed.

(** C7. Publishing is all or nothing: a bundle that is not published, for whatever reason,
    leaves memory, the data of the session and the gas as they were. One that is published
    holds modules of the sender that neither the session nor storage had before. They were
    accepted one after the other: each by the verifier, with its native functions known,
    linked with its dependencies, which are the modules of the bundle before it and for
    the others those in the loader's cache at that time, and with no cycle through them.
    The cache only gains modules, and when its keys have entries, each that it gains is
    one that the session or storage holds and that was accepted. The session then has the
    modules of the bundle, and its resources and events stay. *)
Theorem publish_bundle_spec (modules : list (list u8)) (sender : AccountAddress) (s : Session (S := S) (Native := Native)) :
  let '(r, s') := publish_module_bundle modules sender s in
  match r with
  | Ok _ => (∃ ms ids, bundle_published (data s) (data s') (l_module_cache (ss_loader s)) (l_module_cache (ss_loader s')) modules sender ms ids) ∧
      c_heap (ss_context s') = c_heap (ss_context s) ∧ c_gas (ss_context s') = c_gas (ss_context s)
  | _ => ss_context s' = ss_context s
  end.
Proof. apply publish_bundle_all. Qed.
End Publishing.

(** ** A bundle with two modules of one name *)

Section Bundles.
(** B with a function, A that calls it, and B without it *)
Definition module_B : CompiledModule := small_module [66] [] [].
Definition with_functions (handles : list FunctionHandle) (defs : list FunctionDefinition) (m : CompiledModule) : CompiledModule :=
  {| m_version := m_version m; m_self_module_handle_idx := m_self_module_handle_idx m; m_module_handles := m_module_handles m;
     m_struct_handles := m_struct_handles m; m_function_handles := handles; m_field_handles := m_field_handles m;
     m_friend_decls := m_friend_decls m; m_struct_def_instantiations := m_struct_def_instantiations m;
     m_function_instantiations := m_function_instantiations m; m_field_instantiations := m_field_instantiations m;
     m_signatures := m_signatures m; m_identifiers := m_identifiers m; m_address_identifiers := m_address_identifiers m;
     m_constant_pool := m_constant_pool m; m_struct_defs := m_struct_defs m; m_function_defs := defs |}.
Definition module_A : CompiledModule :=
  let m := small_module [65; 66] [1] [] in
  with_functions (m_function_handles m ++ [ {| fh_module := 1; fh_name := 1; fh_parameters := 0; fh_return := 0; fh_type_parameters := [] |} ])
    [ {| fdef_function := 0; fdef_visibility := Public; fdef_acquires_global_resources := [];
         fdef_code := Some {| cu_locals := 0; cu_code := [Bytecode.Call 1; Bytecode.Ret] |} |} ] m.
Definition empty_B : CompiledModule := with_functions [] [] module_B.

#[local] Instance no_storage : MoveResolver unit := {| get_module := λ _ _, Ok None; get_resource := λ _ _, mret None |}.
Definition publish_in_new_session (gas : GasStatus) (ms : list CompiledModule) : result VMError unit * Session (S := unit) (Native := unit) :=
  @publish_module_bundle unit unit (list_graph Node Edge) list_graph_ops list_toposort no_storage true true 100 4 ∅ (bytes_of <$> ms) ZERO
    (new_session tt new_loader TypeCache_new gas).
Definition publish_again (gas : GasStatus) (m : CompiledModule) : result VMError unit :=
  (@publish_module unit unit (list_graph Node Edge) list_graph_ops list_toposort no_storage true true 100 4 ∅ (bytes_of m) ZERO
    (publish_in_new_session gas [m]).2).1.
(** Loading a module from what the session has published *)
Definition load_published (gas : GasStatus) (ms : list CompiledModule) (id : ModuleId) : result VMError unit :=
  let s := (publish_in_new_session gas ms).2 in
  (answer_one (data_load_module (c_store (ss_context s))) (RModule id) (ss_loader s)).1.

Example publish_two gas : (publish_in_new_session gas [module_B; module_A]).1 = Ok tt ∧ load_published gas [module_B; module_A] id_A = Ok tt.
Proof. by vm_compute. Qed.
Example publish_in_wrong_order gas :
  (publish_in_new_session gas [module_A; module_B]).1 = Err (finish (PartialVMError_new LINKER_ERROR) LUndefined).
Proof. by vm_compute. Qed.

(** Two modules of one name in a bundle are published, although a second publication of a
    module is refused: the first is checked, the modules that use it are accepted against
    it, and then the second takes its place, so that the session has modules that cannot
    be loaded. *)
Example duplicate_modules_published (gas : GasStatus) :
  (publish_in_new_session gas [module_B; module_A; empty_B]).1 = Ok tt ∧
  (∃ e, load_published gas [module_B; module_A; empty_B] id_A = Err e ∧ ve_major_status e = UNEXPECTED_VERIFIER_ERROR) ∧
  publish_again gas module_B = Err (undefined DUPLICATE_MODULE_NAME).
Proof. split_and!; [by vm_compute| |by vm_compute]. vm_compute. by eexists. Qed.
End Bundles.
