(* ===== verification/Keys.v ===== *)
(** * Keys: the keys of storage

    Models the serialized form of [TypeTag], [StructTag] and [ModuleId] of
    [language/move-core/types/src/language_storage.rs], their access vectors, and
    [mvm/src/io/key.rs]: modules and resources live in one flat storage under keys that
    are made of them.

    The theorems: the serialized forms are prefix-free and are read back; no two modules
    or resources share a key; and for which tags no key can be made. *)

From Stdlib Require Import String.
From S2P Require Import Prelude CoreTypes FileFormat BinaryCommon Uleb CyclicDependencies Bcs BcsCodecs Layouts MoveValues MoveValueCodec Effects.

(** ** Serialization, as serde derives it *)

(** The fields of a [StructTag], given its type parameters *)
Definition serialize_struct_fields (address : AccountAddress) (module name : Identifier) (type_params : Serialize) : Serialize := λ self,
  t ← serialize_struct "StructTag" 4 self;
  t ← serialize_element (serialize_address address) t;
  t ← serialize_element (serialize_identifier module) t;
  t ← serialize_element (serialize_identifier name) t;
  t ← serialize_element type_params t;
  Ok (output t).
Fixpoint serialize_tag (tag : TypeTag) : Serialize :=
  match tag with
  | TagBool => serialize_unit_variant 0
  | TagU8 => serialize_unit_variant 1
  | TagU64 => serialize_unit_variant 2
  | TagU128 => serialize_unit_variant 3
  | TagAddress => serialize_unit_variant 4
  | TagSigner => serialize_unit_variant 5
  | TagVector tag => serialize_newtype_variant "TypeTag" 6 (serialize_tag tag)
  | TagStruct address module name type_params =>
      serialize_newtype_variant "TypeTag" 7 (serialize_struct_fields address module name (λ s,
        t ← serialize_seq (Some (len type_params)) s;
        t ← try_fold (λ t tag, serialize_element (serialize_tag tag) t) type_params t;
        Ok (output t)))
  end.
Definition serialize_tags (tags : list TypeTag) : Serialize := λ s,
  t ← serialize_seq (Some (len tags)) s;
  t ← try_fold (λ t tag, serialize_element (serialize_tag tag) t) tags t;
  Ok (output t).
Definition serialize_struct_tag (self : StructTag) : Serialize :=
  serialize_struct_fields (stg_address self) (stg_module self) (stg_name self) (serialize_tags (stg_type_params self)).
Definition serialize_module_id (self : ModuleId) : Serialize := λ s,
  t ← serialize_struct "ModuleId" 2 s;
  t ← serialize_element (serialize_address (mid_address self)) t;
  t ← serialize_element (serialize_identifier (mid_name self)) t;
  Ok (output t).

(** [CODE_TAG], [RESOURCE_TAG], [ModuleId::access_vector], [StructTag::access_vector] *)
Definition CODE_TAG : u8 := 0.
Definition RESOURCE_TAG : u8 := 1.
(** [r.unwrap()] of a serializer *)
Definition to_bytes_unwrap {E} (v : Serialize) : result E (list u8) :=
  match to_bytes v with Ok bytes => Ok bytes | Err _ => Panic | Panic => Panic | OutOfFuel => OutOfFuel end.
Definition module_access_vector {E} (self : ModuleId) : result E (list u8) :=
  bytes ← to_bytes_unwrap (serialize_module_id self); Ok (CODE_TAG :: bytes).
Definition resource_access_vector {E} (self : StructTag) : result E (list u8) :=
  bytes ← to_bytes_unwrap (serialize_struct_tag self); Ok (RESOURCE_TAG :: bytes).

(** [AccessKey], from a module id and from an address and a tag *)
Definition AccessKey : Set := list u8.
Definition resource_key {E} (addr : AccountAddress) (tag : StructTag) : result E AccessKey :=
  tag ← resource_access_vector tag; Ok (addr ++ tag).
Definition module_key {E} (id : ModuleId) : result E AccessKey := module_access_vector id.

(** ** Deserialization, as serde derives it *)

Section Read.
Context {S : Type}.
Notation De := (De S).
(** [seq.next_element()?.ok_or(invalid_length)?] *)
Definition next_field {A} (seed : De A) (remaining : N) : De (A * N) :=
  '(elem, remaining) ← next_element_seed seed remaining;
  match elem with Some elem => mret (elem, remaining) | None => de_error Custom end.
Definition deserialize_identifier : De Identifier :=
  deserialize_newtype_struct "Identifier" (deserialize_str mret).
Definition deserialize_vec {A} (seed : De A) : De (list A) :=
  deserialize_seq (λ remaining, while_elements (Datatypes.S (N.to_nat remaining)) seed remaining).
Definition deserialize_struct_tag (type_tag : De TypeTag) : De StructTag :=
  deserialize_struct "StructTag" 4 (λ remaining,
    '(address, remaining) ← next_field deserialize_address remaining;
    '(module, remaining) ← next_field deserialize_identifier remaining;
    '(name, remaining) ← next_field deserialize_identifier remaining;
    '(type_params, _) ← next_field (deserialize_vec type_tag) remaining;
    mret {| stg_address := address; stg_module := module; stg_name := name; stg_type_params := type_params |}).
(** The fuel bounds the levels; each one enters a container, so [MAX_CONTAINER_DEPTH + 1]
    levels are enough. *)
Fixpoint deserialize_tag (fuel : nat) : De TypeTag :=
  match fuel with
  | O => λ _ _, OutOfFuel
  | Datatypes.S fuel =>
      deserialize_enum "TypeTag" (λ index, if index <? 8 then Ok index else Err Custom) (λ index,
        match index with
        | 0 => mret TagBool | 1 => mret TagU8 | 2 => mret TagU64 | 3 => mret TagU128 | 4 => mret TagAddress | 5 => mret TagSigner
        | 6 => tag ← deserialize_tag fuel; mret (TagVector tag)
        | _ => tag ← deserialize_struct_tag (deserialize_tag fuel); mret (struct_tag tag)
        end)
  end.
Definition deserialize_module_id : De ModuleId :=
  deserialize_struct "ModuleId" 2 (λ remaining,
    '(address, remaining) ← next_field deserialize_address remaining;
    '(name, _) ← next_field deserialize_identifier remaining;
    mret {| mid_address := address; mid_name := name |}).
End Read.
(** [bcs::from_bytes] *)
Definition tag_fuel : nat := 502.
Definition struct_tag_from_bytes (bytes : list u8) : result BcsError StructTag :=
  '(tag, _) ← from_bytes_seed (deserialize_struct_tag (deserialize_tag tag_fuel)) bytes tt; Ok tag.
Definition module_id_from_bytes (bytes : list u8) : result BcsError ModuleId :=
  '(id, _) ← from_bytes_seed deserialize_module_id bytes tt; Ok id.

(** ** The serialized form *)

Definition identifier_bytes (i : Identifier) : list u8 := uleb 5 (len i) ++ i.
Fixpoint tag_bytes (tag : TypeTag) : list u8 :=
  match tag with
  | TagBool => [0] | TagU8 => [1] | TagU64 => [2] | TagU128 => [3] | TagAddress => [4] | TagSigner => [5]
  | TagVector tag => 6 :: tag_bytes tag
  | TagStruct address module name type_params =>
      7 :: address ++ identifier_bytes module ++ identifier_bytes name ++ uleb 5 (len type_params) ++ concat (map tag_bytes type_params)
  end.
Definition struct_bytes (tag : StructTag) : list u8 :=
  stg_address tag ++ identifier_bytes (stg_module tag) ++ identifier_bytes (stg_name tag) ++
  uleb 5 (len (stg_type_params tag)) ++ concat (map tag_bytes (stg_type_params tag)).
Definition module_id_bytes (id : ModuleId) : list u8 := mid_address id ++ identifier_bytes (mid_name id).

(** Addresses of 32 bytes, strings of UTF-8, and lengths that can be written *)
Definition name_ok (i : Identifier) : bool := utf8_valid i && forallb (λ c, c <? 256) i && (len i <=? MAX_SEQUENCE_LENGTH).
Fixpoint tag_ok (tag : TypeTag) : bool :=
  match tag with
  | TagVector tag => tag_ok tag
  | TagStruct address module name type_params =>
      address_ok address && name_ok module && name_ok name && (len type_params <=? MAX_SEQUENCE_LENGTH) && forallb tag_ok type_params
  | _ => true
  end.
Definition struct_tag_ok (tag : StructTag) : bool := tag_ok (struct_tag tag).
Definition module_id_ok (id : ModuleId) : bool := address_ok (mid_address id) && name_ok (mid_name id).

(** The containers that are entered at once; reading enters one for a plain type too. *)
Fixpoint tag_levels (plain : N) (tag : TypeTag) : N :=
  match tag with
  | TagVector tag => 1 + tag_levels plain tag
  | TagStruct _ _ _ type_params => 2 + foldr N.max 1 (map (tag_levels plain) type_params)
  | _ => plain
  end.
Definition struct_levels (plain : N) (tag : StructTag) : N := 1 + foldr N.max 1 (map (tag_levels plain) (stg_type_params tag)).

(** *** Writing *)

(** What a serializer does at any depth *)
Definition writes_at (levels : N) (v : Serialize) (bs : list u8) : Prop :=
  ∀ out k, (levels <= k → v {| output := out; ser_depth := k |} = Ok (out ++ bs)) ∧
           (k < levels → ∃ name, v {| output := out; ser_depth := k |} = Err (ExceededContainerDepthLimit name)).
Lemma writes_at_0 v bs : writes 0 v bs → writes_at 0 v bs.
Proof. intros H out k. split; [apply H|lia]. Qed.
Lemma writes_at_container levels name v bs : writes_at levels v bs →
  writes_at (1 + levels) (λ self, self ← ser_enter_named_container name self; v self) bs.
Proof.
  intros H out k. unfold ser_enter_named_container. cbn [ser_depth output]. destruct (N.eqb_spec k 0) as [->|Hk]; cbn.
  - split; [lia|]. by exists name.
  - split; intros Hl; apply H; lia.
Qed.
Lemma writes_at_address a : writes_at 1 (serialize_address a) a.
Proof. apply (writes_at_container 0), writes_at_0, serialize_array_writes. Qed.
Lemma name_ok_spec i : name_ok i = true → utf8_valid i = true ∧ bytes_ok i ∧ len i <= MAX_SEQUENCE_LENGTH.
Proof.
  unfold name_ok. rewrite !andb_true_iff, N.leb_le. intros [[H1 H2] H3]. split_and!; [done| |done].
  apply Forall_forall. intros c Hc. apply N.ltb_lt. rewrite forallb_forall in H2. by apply H2, list_elem_of_In.
Qed.
Lemma writes_at_identifier i : name_ok i = true → writes_at 1 (serialize_identifier i) (identifier_bytes i).
Proof.
  intros (_ & _ & Hl)%name_ok_spec. apply (writes_at_container 0), writes_at_0. intros out k _. unfold serialize_str, serialize_bytes.
  rewrite output_length by done. cbn. by rewrite <- app_assoc.
Qed.
(** An element of a compound: the depth is the one of the compound. *)
Lemma element_at levels v bs self : writes_at levels v bs →
  (levels <= ser_depth self → serialize_element v self = Ok (extend_output self bs)) ∧
  (ser_depth self < levels → ∃ name, serialize_element v self = Err (ExceededContainerDepthLimit name)).
Proof.
  intros H. destruct (H (output self) (ser_depth self)) as [H1 H2]. unfold serialize_element. split; intros Hl.
  - by rewrite (H1 Hl).
  - destruct (H2 Hl) as [name ->]. by exists name.
Qed.
Lemma elements_at {A} (ser : A → Serialize) (levels : A → N) (bytes : A → list u8) l self : 1 <= ser_depth self →
  (∀ x, x ∈ l → writes_at (levels x) (ser x) (bytes x)) →
  (foldr N.max 1 (map levels l) <= ser_depth self →
     try_fold (λ t x, serialize_element (ser x) t) l self = Ok (extend_output self (concat (map bytes l)))) ∧
  (ser_depth self < foldr N.max 1 (map levels l) →
     ∃ name, try_fold (λ t x, serialize_element (ser x) t) l self = Err (ExceededContainerDepthLimit name)).
Proof.
  revert self. induction l as [|x l IH]; intros self Hk Hl; cbn.
  - split; [by rewrite extend_nil|lia].
  - destruct (element_at _ _ _ self (Hl x ltac:(left))) as [Hx Hx']. destruct (N.le_gt_cases (levels x) (ser_depth self)) as [Hle|Hlt].
    + rewrite (Hx Hle). cbn. destruct (IH (extend_output self (bytes x))) as [H1 H2]; [done|intros; apply Hl; by right|].
      cbn in H1, H2. rewrite <- extend_extend. split; intros; [apply H1|apply H2]; lia.
    + destruct (Hx' Hlt) as [name ->]. split; [lia|]. intros _. by exists name.
Qed.
Lemma ok_bind {E A B} (a : A) (k : A → result E B) : Ok a ≫= k = k a.
Proof. done. Qed.
Lemma serialize_tags_at tags self : 1 <= ser_depth self → len tags <= MAX_SEQUENCE_LENGTH →
  (∀ tag, tag ∈ tags → writes_at (tag_levels 0 tag) (serialize_tag tag) (tag_bytes tag)) →
  (foldr N.max 1 (map (tag_levels 0) tags) <= ser_depth self →
     serialize_tags tags self = Ok (output self ++ uleb 5 (len tags) ++ concat (map tag_bytes tags))) ∧
  (ser_depth self < foldr N.max 1 (map (tag_levels 0) tags) →
     ∃ name, serialize_tags tags self = Err (ExceededContainerDepthLimit name)).
Proof.
  intros Hk Hl Ht. unfold serialize_tags. cbn [serialize_seq]. rewrite output_length by done.
  destruct (elements_at serialize_tag (tag_levels 0) tag_bytes tags (extend_output self (uleb 5 (len tags))) Hk Ht) as [H1 H2].
  set (self1 := extend_output self (uleb 5 (len tags))) in *. cbn -[self1].
  split; intros Hd; [rewrite (H1 Hd); cbn; by rewrite <- app_assoc|]. destruct (H2 Hd) as [name ->]. by exists name.
Qed.
Lemma serialize_fields_at address module name tags :
  name_ok module = true → name_ok name = true → len tags <= MAX_SEQUENCE_LENGTH →
  (∀ tag, tag ∈ tags → writes_at (tag_levels 0 tag) (serialize_tag tag) (tag_bytes tag)) →
  writes_at (1 + foldr N.max 1 (map (tag_levels 0) tags)) (serialize_struct_fields address module name (serialize_tags tags))
    (address ++ identifier_bytes module ++ identifier_bytes name ++ uleb 5 (len tags) ++ concat (map tag_bytes tags)).
Proof.
  intros Hm Hn Hl Ht. refine (writes_at_container _ "StructTag" (λ t, t ← serialize_element (serialize_address address) t;
    t ← serialize_element (serialize_identifier module) t; t ← serialize_element (serialize_identifier name) t;
    t ← serialize_element (serialize_tags tags) t; Ok (output t)) _ _). intros out k.
  assert (1 <= foldr N.max 1 (map (tag_levels 0) tags)) as Hmax by (clear; induction tags; cbn; lia).
  set (self := {| output := out; ser_depth := k |}).
  destruct (element_at _ _ _ self (writes_at_address address)) as [Ha Ha']. cbn [ser_depth self] in Ha, Ha'.
  destruct (N.le_gt_cases 1 k) as [Hk1|Hk1]; [|destruct (Ha' Hk1) as [n ->]; split; [lia|]; by eexists].
  rewrite (Ha Hk1), ok_bind.
  rewrite (proj1 (element_at _ _ _ (extend_output self address) (writes_at_identifier module Hm)) Hk1), ok_bind.
  rewrite (proj1 (element_at _ _ _ (extend_output (extend_output self address) (identifier_bytes module)) (writes_at_identifier name Hn)) Hk1), ok_bind.
  rewrite !extend_extend. set (self' := extend_output self _).
  assert (ser_depth self' = k) as Hd' by done. assert (output self' = out ++ address ++ identifier_bytes module ++ identifier_bytes name) as Ho.
  { by unfold self', self. }
  clearbody self'. destruct (serialize_tags_at tags self' ltac:(lia) Hl Ht) as [H1 H2]. destruct self' as [o d]. cbn [output ser_depth] in *. subst.
  unfold serialize_element. cbn [output ser_depth]. split; intros Hd.
  - rewrite H1 by lia. rewrite ok_bind. cbn [output]. by rewrite <- !app_assoc.
  - destruct (H2 ltac:(lia)) as [n Hn']. rewrite Hn'. by exists n.
Qed.
Lemma struct_fields_ok address module name tags : tag_ok (TagStruct address module name tags) = true →
  address_ok address = true ∧ name_ok module = true ∧ name_ok name = true ∧ len tags <= MAX_SEQUENCE_LENGTH ∧ ∀ tag, tag ∈ tags → tag_ok tag = true.
Proof.
  cbn. rewrite !andb_true_iff, N.leb_le, forallb_forall. intros [[[[H1 H2] H3] H4] H5]. split_and!; [done..|].
  intros tag Hin. by apply H5, list_elem_of_In.
Qed.
Lemma writes_at_plain index : index < 128 → writes_at 0 (serialize_unit_variant index) [index].
Proof.
  intros Hi. apply writes_at_0. intros out k _. unfold serialize_unit_variant, output_variant_index, output_u32_as_uleb128. cbn.
  destruct (N.leb_spec 128 index); [lia|]. cbn. unfold wrap. rewrite N.mod_small; [done|]. change (2 ^ 8) with 256. lia.
Qed.
Lemma writes_at_variant levels index v bs : index < 128 → writes_at levels v bs →
  writes_at (1 + levels) (serialize_newtype_variant "TypeTag" index v) (index :: bs).
Proof.
  intros Hi Hv. apply (writes_at_container levels _ (λ self, self ← output_variant_index index self; v self)). intros out k.
  unfold output_variant_index, output_u32_as_uleb128. cbn. destruct (N.leb_spec 128 index); [lia|]. cbn. unfold wrap.
  rewrite N.mod_small by (change (2 ^ 8) with 256; lia). destruct (Hv (out ++ [index]) k) as [H1 H2]. unfold extend_output. cbn.
  rewrite <- app_assoc in H1. by split.
Qed.
Lemma serialize_tag_at tag : tag_ok tag = true → writes_at (tag_levels 0 tag) (serialize_tag tag) (tag_bytes tag).
Proof.
  induction tag as [| | | | | |tag IH|address module name tags IH] using tag_ind; intros Hok; try (by apply writes_at_plain).
  - by apply writes_at_variant; [|apply IH].
  - apply struct_fields_ok in Hok as (_ & Hm & Hn & Hl & Ht). cbn [tag_levels tag_bytes]. rewrite Forall_forall in IH.
    replace (2 + _) with (1 + (1 + foldr N.max 1 (map (tag_levels 0) tags))) by lia. apply writes_at_variant; [done|].
    apply serialize_fields_at; auto.
Qed.
Lemma serialize_struct_tag_at tag : struct_tag_ok tag = true → writes_at (struct_levels 0 tag) (serialize_struct_tag tag) (struct_bytes tag).
Proof.
  intros (_ & Hm & Hn & Hl & Ht)%struct_fields_ok. apply serialize_fields_at; auto using serialize_tag_at.
Qed.
Lemma serialize_module_id_writes id out k : name_ok (mid_name id) = true → 2 <= k →
  serialize_module_id id {| output := out; ser_depth := k |} = Ok (out ++ module_id_bytes id).
Proof.
  intros Hn Hk. unfold serialize_module_id, serialize_struct, ser_enter_named_container. cbn. destruct (N.eqb_spec k 0); [lia|]. cbn.
  set (self := {| output := out; ser_depth := k - 1 |}). assert (1 <= ser_depth self) as Hd by (cbn; lia).
  rewrite (proj1 (element_at _ _ _ self (writes_at_address (mid_address id))) Hd), ok_bind.
  rewrite (proj1 (element_at _ _ _ (extend_output self (mid_address id)) (writes_at_identifier (mid_name id) Hn)) Hd), ok_bind. cbn.
  by rewrite <- app_assoc.
Qed.

(** Keys are made, or the [unwrap] panics when the tag has too many levels. *)
Lemma resource_key_spec {E} addr tag : struct_tag_ok tag = true →
  resource_key (E := E) addr tag = if struct_levels 0 tag <=? MAX_CONTAINER_DEPTH then Ok (addr ++ RESOURCE_TAG :: struct_bytes tag) else Panic.
Proof.
  intros Hok. unfold resource_key, resource_access_vector, to_bytes_unwrap, to_bytes.
  destruct (serialize_struct_tag_at tag Hok [] MAX_CONTAINER_DEPTH) as [H1 H2]. destruct (N.leb_spec (struct_levels 0 tag) MAX_CONTAINER_DEPTH) as [Hl|Hl].
  - by rewrite (H1 Hl).
  - by destruct (H2 Hl) as [name ->].
Qed.
Lemma module_key_spec {E} id : name_ok (mid_name id) = true → module_key (E := E) id = Ok (CODE_TAG :: module_id_bytes id).
Proof. intros Hn. unfold module_key, module_access_vector, to_bytes_unwrap, to_bytes. by rewrite serialize_module_id_writes. Qed.

(** ** Reading *)

(** [parses] at one depth: what can be read may depend on it. *)
Record parses_at {S A} (k : N) (m : De S A) (P : A → list u8 → Prop) : Prop := {
  pa_sound i s a d' s' : bytes_ok i → m {| input := i; max_remaining_depth := k |} s = Ok (a, d', s') →
    s' = s ∧ max_remaining_depth d' = k ∧ ∃ bs, i = bs ++ input d' ∧ P a bs;
  pa_complete a bs rest s : P a bs →
    m {| input := bs ++ rest; max_remaining_depth := k |} s = Ok (a, {| input := rest; max_remaining_depth := k |}, s);
  pa_total i s : bytes_ok i → no_panic (m {| input := i; max_remaining_depth := k |} s) }.

Section ReadingLemmas.
Context {S : Type}.
Notation De := (De S).
Notation parses_at := (parses_at (S := S)).
Lemma parses_at_of {A} r k (m : De A) P : parses r m P → r <= k → parses_at k m P.
Proof.
  intros [H1 H2 H3] Hr. split; [|intros; by apply H2|intros; by apply H3].
  intros i s a d' s' Hi Hm. apply H1 in Hm as (-> & -> & bs & Hbs & HP); eauto.
Qed.
Lemma parses_at_ext {A} k (m : De A) P Q : parses_at k m P → (∀ a bs, P a bs ↔ Q a bs) → parses_at k m Q.
Proof.
  intros [H1 H2 H3] HPQ. split; [|by intros a bs rest s HQ%HPQ; apply H2|done].
  intros i s a d' s' Hd Hm. destruct (H1 _ _ _ _ _ Hd Hm) as (? & ? & bs & ? & ?%HPQ). eauto.
Qed.
Lemma parses_at_bind {A B} k (m : De A) (f : A → De B) P (Q : A → B → list u8 → Prop) :
  parses_at k m P → (∀ a bs, P a bs → parses_at k (f a) (Q a)) →
  parses_at k (m ≫= f) (λ b bs, ∃ a bs1 bs2, bs = bs1 ++ bs2 ∧ P a bs1 ∧ Q a b bs2).
Proof.
  intros [M1 M2 M3] Hf. unfold mbind, De_bind. split.
  - intros i s b d' s' Hd ([[a [i1 k1]] s1] & H1 & H2)%bind_Ok.
    destruct (M1 _ _ _ _ _ Hd H1) as (-> & E1 & bs1 & Hbs1 & HP). cbn in E1, Hbs1. subst k1 i. apply bytes_ok_app in Hd as [_ Hd].
    destruct (pa_sound _ _ _ (Hf _ _ HP) _ _ _ _ _ Hd H2) as (-> & E2 & bs2 & -> & HQ). split_and!; [done..|].
    exists (bs1 ++ bs2). rewrite app_assoc. eauto 10.
  - intros b bs rest s (a & bs1 & bs2 & -> & HP & HQ). rewrite <- app_assoc, (M2 a) by done. cbn. by apply (pa_complete _ _ _ (Hf _ _ HP)).
  - intros i s Hd. apply bind_no_panic; [by apply M3|]. intros [[a [i1 k1]] s1] H1.
    destruct (M1 _ _ _ _ _ Hd H1) as (-> & E1 & bs1 & Hbs1 & HP). cbn in E1, Hbs1. subst k1 i. apply bytes_ok_app in Hd as [_ Hd].
    by apply (pa_total _ _ _ (Hf _ _ HP)).
Qed.
Lemma parses_at_ret {A} k (a : A) : parses_at k (mret a : De A) (λ a' bs, a' = a ∧ bs = []).
Proof. eapply parses_at_of, N.le_0_l. apply parses_ret. Qed.
Lemma parses_at_map {A B} k (m : De A) (f : A → B) P :
  parses_at k m P → parses_at k (x ← m; mret (f x)) (λ b bs, ∃ a, b = f a ∧ P a bs).
Proof.
  intros Hm. eapply parses_at_ext; [apply (parses_at_bind k m _ P (λ a b bs, b = f a ∧ bs = [])); [done|]|].
  - intros a bs _. apply parses_at_ret.
  - intros b bs. split; [|intros (a & -> & HP); exists a, bs, []; by rewrite app_nil_r].
    intros (a & bs1 & bs2 & -> & HP & -> & ->). rewrite app_nil_r. eauto.
Qed.
Lemma parses_at_named {A} k name (m : De A) P : (k ≠ 0 → parses_at (k - 1) m P) → parses_at k (named_container name m) (λ a bs, k ≠ 0 ∧ P a bs).
Proof.
  intros Hm. unfold named_container, mbind, De_bind, enter_named_container, leave_named_container. cbn. destruct (N.eqb_spec k 0) as [->|Hk].
  { split; [done| |done]. by intros a bs rest s [? _]. }
  destruct (Hm Hk) as [H1 H2 H3]. split; cbn; (destruct (N.eqb_spec k 0); [lia|]); cbn.
  - intros i s a d' s' Hd ([[a1 d1] s1] & Hr & [= <- <- <-])%bind_Ok. cbn.
    apply H1 in Hr as (-> & Hd1 & bs & Hin & HP); [|done]. rewrite Hd1. split_and!; [done|lia|]. eauto.
  - intros a bs rest s [_ HP]. cbn. rewrite (H2 a) by done. cbn. by replace (k - 1 + 1) with k by lia.
  - intros i s Hd. cbn. apply bind_no_panic; [by apply H3|]. by intros [[]] _.
Qed.
Lemma parses_at_field {A B} k (seed : De A) (f : A * N → De B) n P Q :
  parses_at k seed P → n ≠ 0 → (∀ a bs, P a bs → parses_at k (f (a, n - 1)) (Q a)) →
  parses_at k (x ← next_field seed n; f x) (λ b bs, ∃ a bs1 bs2, bs = bs1 ++ bs2 ∧ P a bs1 ∧ Q a b bs2).
Proof.
  intros Hs Hn Hf. assert (parses_at k (next_field seed n) (λ x bs, ∃ a, x = (a, n - 1) ∧ P a bs)) as H1.
  { unfold next_field, next_element_seed. apply N.eqb_neq in Hn as ->.
    eapply parses_at_ext; [apply (parses_at_bind k _ _ (λ x bs, ∃ a, x = (Some a, n - 1) ∧ P a bs)
      (λ x b bs, ∃ a, x = (Some a, n - 1) ∧ b = (a, n - 1) ∧ bs = [])); [by apply (parses_at_map k seed (λ a, (Some a, n - 1)))|]|].
    - intros x bs (a & -> & _). eapply parses_at_ext; [apply parses_at_ret|]. naive_solver.
    - intros x bs. split.
      + intros (? & bs1 & bs2 & -> & (a & -> & HP) & a' & [= <-] & -> & ->). rewrite app_nil_r. eauto.
      + intros (a & -> & HP). exists (Some a, n - 1), bs, []. rewrite app_nil_r. eauto 10. }
  eapply parses_at_ext; [apply (parses_at_bind k _ _ _ (λ x b bs, ∃ a, x = (a, n - 1) ∧ Q a b bs) H1)|].
  - intros x bs (a & -> & HP). eapply parses_at_ext; [by eapply Hf|]. naive_solver.
  - intros b bs. split.
    + intros (x & bs1 & bs2 & -> & (a & -> & HP) & a' & [= <-] & HQ). eauto 10.
    + intros (a & bs1 & bs2 & -> & HP & HQ). exists (a, n - 1), bs1, bs2. eauto 10.
Qed.
Lemma parses_at_while {A} k (seed : De A) P n :
  parses_at k seed P → parses_at k (while_elements (Datatypes.S (N.to_nat n)) seed n) (λ l bs, len l = n ∧ all_encoded (replicate (length l) P) l bs).
Proof.
  intros Hs. induction n as [|n IH] using N.peano_ind.
  { eapply parses_at_ext; [apply parses_at_ret|]. intros l bs. unfold len. destruct l; cbn; [naive_solver|]. split; [naive_solver|lia]. }
  rewrite N2Nat.inj_succ. remember (Datatypes.S (N.to_nat n)) as fuel eqn:Hf. cbn [while_elements].
  unfold next_element_seed. destruct (N.eqb_spec (N.succ n) 0); [lia|]. replace (N.succ n - 1) with n by lia.
  eapply parses_at_ext; [apply (parses_at_bind k _ _ (λ x bs, ∃ a, x = (Some a, n) ∧ P a bs)
    (λ x l bs, ∃ a, x = (Some a, n) ∧ ∃ l', l = a :: l' ∧ len l' = n ∧ all_encoded (replicate (length l') P) l' bs));
    [by apply (parses_at_map k seed (λ a, (Some a, n)))|]|].
  - intros x bs (a & -> & _). eapply parses_at_ext; [apply (parses_at_map k _ (λ l, a :: l)), IH|]. naive_solver.
  - intros l bs. unfold len. destruct l as [|a l]; cbn; [split; [naive_solver|lia]|]. split.
    + intros (x & bs1 & bs2 & -> & (a' & -> & HP) & a'' & [= <-] & l' & [= <- <-] & <- & Hl). split; [lia|]. eauto 10.
    + intros [Hn (bs1 & bs2 & -> & HP & Hl)]. exists (Some a, n), bs1, bs2. split_and!; [done|eauto|].
      exists a. split; [done|]. exists l. split_and!; [done|lia|done].
Qed.
Lemma parses_at_vec {A} k (seed : De A) P : parses_at k seed P →
  parses_at k (deserialize_vec seed)
    (λ l bs, len l <= MAX_SEQUENCE_LENGTH ∧ ∃ bs', bs = uleb 5 (len l) ++ bs' ∧ all_encoded (replicate (length l) P) l bs').
Proof.
  intros Hs. eapply parses_at_ext; [apply (parses_at_bind k _ _ (λ n bs, bs = uleb 5 n ∧ n <= MAX_SEQUENCE_LENGTH)
    (λ n l bs, len l = n ∧ all_encoded (replicate (length l) P) l bs)); [apply (parses_at_of 0); [apply parses_length|lia]|]|].
  - intros n bs _. by apply parses_at_while.
  - intros l bs. split; [naive_solver|]. intros (Hl & bs' & -> & Ha). eauto 10.
Qed.
End ReadingLemmas.

Section ReadTags.
Context {S : Type}.
Notation De := (De S).
Notation parses_at := (parses_at (S := S)).
Lemma forallb_bytes i : forallb (λ c, c <? 256) i = true ↔ bytes_ok i.
Proof. unfold bytes_ok. rewrite forallb_forall, Forall_forall. setoid_rewrite list_elem_of_In. by setoid_rewrite N.ltb_lt. Qed.
Lemma parses_at_slice k n : parses_at k (slice ← get_slice n; _ ← advance (N.to_nat n); mret slice)
  (λ l bs, bs = l ∧ len l = n ∧ bytes_ok l).
Proof.
  unfold mbind, De_bind, get_slice, advance. split.
  - intros i s a d' s' Hi. cbn. destruct (N.leb_spec n (len i)) as [Hn|]; [|done]. cbn. intros [= <- <- <-]. cbn. split_and!; [done..|].
    exists (take (N.to_nat n) i). rewrite take_drop. split_and!; [done..| |by apply Forall_take]. unfold len in *. rewrite length_take. lia.
  - intros a bs rest s (-> & <- & _). cbn. unfold len. rewrite length_app, Nat2N.id.
    destruct (N.leb_spec (N.of_nat (length a)) (N.of_nat (length a + length rest))); [|lia]. cbn. by rewrite take_app_length, drop_app_length.
  - intros i s Hi. cbn. by destruct (n <=? len i).
Qed.
Lemma parses_at_string k : parses_at k parse_string (λ l bs, name_ok l = true ∧ bs = identifier_bytes l).
Proof.
  unfold parse_string. eapply parses_at_ext; [apply (parses_at_bind k _ _ (λ l bs, bs = identifier_bytes l ∧ len l <= MAX_SEQUENCE_LENGTH ∧ bytes_ok l)
    (λ l a bs, a = l ∧ bs = [] ∧ utf8_valid l = true))|].
  - eapply parses_at_ext; [apply (parses_at_bind k _ _ (λ n bs, bs = uleb 5 n ∧ n <= MAX_SEQUENCE_LENGTH)
      (λ n l bs, bs = l ∧ len l = n ∧ bytes_ok l)); [apply (parses_at_of 0); [apply parses_length|lia]|]|].
    + intros n bs _. apply parses_at_slice.
    + intros l bs. unfold identifier_bytes. split; [|naive_solver]. intros (n & bs1 & bs2 & -> & [-> ?] & -> & <- & ?). done.
  - intros l bs _. destruct (utf8_valid l); [eapply parses_at_ext; [apply parses_at_ret|]; naive_solver|].
    split; [done| |done]. by intros a bs' rest s (_ & _ & ?).
  - intros l bs. unfold name_ok. rewrite !andb_true_iff, N.leb_le, forallb_bytes. split.
    + intros (a & bs1 & bs2 & -> & (-> & ? & ?) & -> & -> & ?). by rewrite app_nil_r.
    + intros [[[? ?] ?] ->]. exists l, (identifier_bytes l), []. by rewrite app_nil_r.
Qed.
Lemma parses_at_identifier k : parses_at k deserialize_identifier (λ l bs, k ≠ 0 ∧ name_ok l = true ∧ bs = identifier_bytes l).
Proof.
  apply parses_at_named. intros _. unfold deserialize_str. eapply parses_at_ext; [apply (parses_at_map _ _ (λ l, l)), parses_at_string|]. naive_solver.
Qed.
Lemma parses_at_address k : parses_at k deserialize_address (λ a bs, k ≠ 0 ∧ encodes_address a bs).
Proof.
  unfold deserialize_address, deserialize_newtype_struct. eapply parses_at_ext; [apply (parses_at_map _ _ (λ a, a)), parses_at_named|].
  - intros _. apply (parses_at_of 0); [|lia]. apply parses_fields; [|done]. apply Forall2_replicate, parses_u8.
  - intros a bs. setoid_rewrite all_encoded_bytes. unfold encodes_address. rewrite address_ok_spec.
    change (N.to_nat ADDRESS_LENGTH) with 32%nat. naive_solver.
Qed.

Lemma all_encoded_tags (ok : TypeTag → Prop) l bs :
  all_encoded (replicate (length l) (λ t bs, ok t ∧ bs = tag_bytes t)) l bs ↔ Forall ok l ∧ bs = concat (map tag_bytes l).
Proof.
  revert bs. induction l as [|t l IH]; intros bs; cbn; [naive_solver|]. rewrite Forall_cons. setoid_rewrite IH. naive_solver.
Qed.
Lemma levels_le (levels : TypeTag → N) l k : foldr N.max 1 (map levels l) <= k ↔ 1 <= k ∧ Forall (λ t, levels t <= k) l.
Proof. induction l as [|t l IH]; cbn; [naive_solver|]. rewrite N.max_lub_iff, Forall_cons, IH. tauto. Qed.
Definition tag_at (k : N) (t : TypeTag) : Prop := tag_ok t = true ∧ tag_levels 1 t <= k.
Lemma parses_at_struct_tag k type_tag :
  (∀ j, j < k → parses_at j type_tag (λ t bs, tag_at j t ∧ bs = tag_bytes t)) →
  parses_at k (deserialize_struct_tag type_tag)
    (λ t bs, struct_tag_ok t = true ∧ struct_levels 1 t <= k ∧ bs = struct_bytes t).
Proof.
  intros Ht. unfold deserialize_struct_tag, deserialize_struct. eapply parses_at_ext; [apply parses_at_named; intros Hk|].
  - apply (parses_at_field (k - 1) _ _ 4 (λ a bs, k - 1 ≠ 0 ∧ encodes_address a bs)); [apply parses_at_address|done|]. intros a bs1 _.
    apply (parses_at_field (k - 1) _ _ 3 (λ l bs, k - 1 ≠ 0 ∧ name_ok l = true ∧ bs = identifier_bytes l)); [apply parses_at_identifier|done|].
    intros m bs2 _.
    apply (parses_at_field (k - 1) _ _ 2 (λ l bs, k - 1 ≠ 0 ∧ name_ok l = true ∧ bs = identifier_bytes l)); [apply parses_at_identifier|done|].
    intros n bs3 _.
    apply (parses_at_field (k - 1) _ _ 1 (λ l bs, len l <= MAX_SEQUENCE_LENGTH ∧ ∃ bs', bs = uleb 5 (len l) ++ bs' ∧
      all_encoded (replicate (length l) (λ t bs, tag_at (k - 1) t ∧ bs = tag_bytes t)) l bs') (λ l t bs, t = {| stg_address := a; stg_module := m; stg_name := n; stg_type_params := l |} ∧ bs = []));
      [apply parses_at_vec, Ht; lia|done|]. intros l bs4 _. apply parses_at_ret.
  - intros [a m n l] bs. cbn beta. unfold struct_tag_ok, struct_levels, struct_bytes, struct_tag. cbn [stg_address stg_module stg_name stg_type_params tag_ok].
    rewrite !andb_true_iff, N.leb_le, forallb_forall. setoid_rewrite all_encoded_tags. unfold encodes_address. split.
    + intros (Hk & a' & bs1 & bs2 & -> & (Hk1 & -> & Ha) & m' & bs3 & bs4 & -> & (_ & Hm & ->) & n' & bs5 & bs6 & -> & (_ & Hn & ->) &
        l' & bs7 & bs8 & -> & (Hl & bs9 & -> & Hall & ->) & [= -> -> -> ->] & ->). rewrite app_nil_r. split_and!; [done..| | |done].
      * intros t Hin%list_elem_of_In. rewrite Forall_forall in Hall. by apply Hall.
      * enough (foldr N.max 1 (map (tag_levels 1) l') <= k - 1) by lia. apply levels_le. split; [lia|].
        eapply Forall_impl; [done|]. by intros t [_ ?].
    + intros ([[[[Ha Hm] Hn] Hl] Hts] & Hlev & ->). assert (foldr N.max 1 (map (tag_levels 1) l) <= k - 1) as [Hk1 Hlv]%levels_le by lia.
      split; [lia|]. exists a, a, (identifier_bytes m ++ identifier_bytes n ++ uleb 5 (len l) ++ concat (map tag_bytes l)). split_and!; [done|lia|done|done|].
      exists m, (identifier_bytes m), (identifier_bytes n ++ uleb 5 (len l) ++ concat (map tag_bytes l)). split_and!; [done|lia|done|done|].
      exists n, (identifier_bytes n), (uleb 5 (len l) ++ concat (map tag_bytes l)). split_and!; [done|lia|done|done|].
      exists l, (uleb 5 (len l) ++ concat (map tag_bytes l)), []. rewrite app_nil_r. split_and!; [done..| |done|done].
      exists (concat (map tag_bytes l)). split_and!; [done| |done]. rewrite Forall_forall in Hlv |- *. intros t Hin. split; [|by apply Hlv].
      by apply Hts, list_elem_of_In.
Qed.
End ReadTags.

(** A plain index is one byte. *)
Lemma uleb_small v : v < 128 → uleb 5 v = [v].
Proof. intros Hv. cbn. destruct (N.ltb_spec v 128); [done|lia]. Qed.
Definition tag_variant {S} (fuel : nat) (index : u32) : De S TypeTag :=
  match index with
  | 0 => mret TagBool | 1 => mret TagU8 | 2 => mret TagU64 | 3 => mret TagU128 | 4 => mret TagAddress | 5 => mret TagSigner
  | 6 => tag ← deserialize_tag fuel; mret (TagVector tag)
  | _ => tag ← deserialize_struct_tag (deserialize_tag fuel); mret (struct_tag tag)
  end.
Lemma struct_tag_at k t : struct_tag_ok t = true ∧ struct_levels 1 t <= k ↔ tag_at (k + 1) (struct_tag t).
Proof. unfold tag_at, struct_tag_ok, struct_levels, struct_tag. cbn [tag_levels]. intuition lia. Qed.
Lemma tag_variant_parses {S} fuel k index : k ≠ 0 → index < 8 →
  (∀ j, j < k → parses_at j (deserialize_tag fuel : De S TypeTag) (λ t bs, tag_at j t ∧ bs = tag_bytes t)) →
  parses_at (k - 1) (tag_variant fuel index : De S TypeTag) (λ t bs, tag_at k t ∧ index :: bs = tag_bytes t).
Proof.
  intros Hk Hv IH.
  assert (index = 0 ∨ index = 1 ∨ index = 2 ∨ index = 3 ∨ index = 4 ∨ index = 5 ∨ index = 6 ∨ index = 7) as Hcase by lia.
  destruct Hcase as [->|[->|[->|[->|[->|[->|[->| ->]]]]]]]; cbn [tag_variant].
  1-6: eapply parses_at_ext; [apply parses_at_ret|]; intros [] bs; unfold tag_at; cbn; try (by split; [intros [? _]|intros [_ ?]]);
    (split; [intros [_ ->]; split_and!; [done|lia|done]|by intros [_ [= ->]]]).
  - eapply parses_at_ext; [apply (parses_at_map (k - 1) _ TagVector), IH; lia|]. intros [] bs; unfold tag_at; cbn; try naive_solver.
    split; [intros (a & [= ->] & [? ?] & ->); split_and!; [done|lia|done]|]. intros [[? ?] [= ->]]. eexists. split_and!; [done..|lia|done].
  - eapply parses_at_ext; [apply (parses_at_map (k - 1) _ struct_tag), parses_at_struct_tag; intros; apply IH; lia|].
    intros t bs. split.
    + intros (a & -> & Ha & Hl & ->). split; [|done]. replace k with (k - 1 + 1) by lia. by apply struct_tag_at.
    + intros [Ht Hbs]. destruct t as [| | | | | | |address module name tags]; try done.
      exists {| stg_address := address; stg_module := module; stg_name := name; stg_type_params := tags |}.
      rewrite <- (N.sub_add 1 k) in Ht by lia. apply (struct_tag_at (k - 1) {| stg_address := address |}) in Ht as [? ?].
      split_and!; [done..|]. by injection Hbs.
Qed.
Lemma deserialize_tag_parses {S} fuel k : (N.to_nat k < fuel)%nat →
  parses_at k (deserialize_tag fuel : De S TypeTag) (λ t bs, tag_at k t ∧ bs = tag_bytes t).
Proof.
  revert k. induction fuel as [|fuel IH]; intros k Hk; [lia|]. cbn [deserialize_tag]. unfold deserialize_enum.
  eapply parses_at_ext; [apply parses_at_named; intros Hk0|].
  - apply (parses_at_bind (k - 1) _ _ (λ v bs, bs = uleb 5 v ∧ v <= u32_MAX)
      (λ v t bs, v < 8 ∧ tag_at k t ∧ v :: bs = tag_bytes t)); [apply (parses_at_of 0); [apply parses_uleb|lia]|]. intros v bs0 _.
    destruct (N.ltb_spec v 8) as [Hv|Hv]; [|by split; [done|intros t bs rest s [? _]; lia|done]].
    eapply parses_at_ext; [apply (tag_variant_parses fuel k v); [done..|]; intros; apply IH; lia|]. naive_solver.
  - intros t bs. cbn beta. split.
    + intros (_ & v & bs1 & bs2 & -> & [-> _] & Hv & Ht & Hbs). rewrite uleb_small by lia. done.
    + intros [Ht ->]. split; [destruct Ht as [_ Ht]; destruct t; cbn in Ht; lia|].
      destruct (tag_bytes t) as [|v bs] eqn:Hb; [by destruct t|].
      assert (v < 8) as Hv by (destruct t; cbn in Hb; injection Hb as <- _; lia). exists v, [v], bs. rewrite uleb_small by lia. split_and!; try done.
      unfold u32_MAX. cbn. lia.
Qed.

Lemma from_bytes_at {S A} (m : De S A) P bytes s : parses_at MAX_CONTAINER_DEPTH m P → bytes_ok bytes →
  no_panic (from_bytes_seed m bytes s) ∧ ∀ a s', from_bytes_seed m bytes s = Ok (a, s') ↔ s' = s ∧ P a bytes.
Proof.
  intros [H1 H2 H3] Hb. unfold from_bytes_seed, mbind, De_bind. split.
  - apply bind_no_panic; [|by intros [[]]]. apply bind_no_panic; [by apply H3|]. intros [[a d] s1] _. unfold de_end. by destruct (input d).
  - intros a s'. split.
    + intros ([[a' d] s1] & ([[a1 d1] s2] & Hm & Hend)%bind_Ok & Hx)%bind_Ok. injection Hx as <- <-.
      apply H1 in Hm as (-> & _ & bs & -> & HP); [|done]. unfold de_end in Hend. destruct (input d1); [|done].
      cbn in Hend. injection Hend as <- <- <-. by rewrite app_nil_r.
    + intros [-> HP]. pose proof (H2 a bytes [] s HP) as Hm. rewrite app_nil_r in Hm. rewrite Hm. done.
Qed.
Lemma deserialize_struct_tag_parses {S} fuel k : (N.to_nat k < fuel)%nat →
  parses_at k (deserialize_struct_tag (deserialize_tag fuel) : De S StructTag)
    (λ t bs, struct_tag_ok t = true ∧ struct_levels 1 t <= k ∧ bs = struct_bytes t).
Proof. intros Hk. apply parses_at_struct_tag. intros j Hj. apply deserialize_tag_parses. lia. Qed.
Lemma levels_mono t : tag_levels 0 t <= tag_levels 1 t.
Proof.
  induction t as [| | | | | |t IH|a m n ts IH] using tag_ind; cbn; try lia. enough (foldr N.max 1 (map (tag_levels 0) ts) <= foldr N.max 1 (map (tag_levels 1) ts)) by lia.
  induction IH; cbn; lia.
Qed.
Lemma struct_levels_mono t : struct_levels 0 t <= struct_levels 1 t.
Proof.
  pose proof (levels_mono (struct_tag t)) as H. unfold struct_tag in H. cbn [tag_levels] in H. unfold struct_levels. lia.
Qed.

(** C31. The serialized form of a struct tag is canonical: a byte string is read as a tag
    exactly when the tag is well formed, has no more levels than the reader allows, and is
    written as that byte string. Reading any bytes ends with a tag or an error. *)
Theorem struct_tag_canonical (bytes : list u8) : bytes_ok bytes →
  no_panic (struct_tag_from_bytes bytes) ∧
  ∀ tag, struct_tag_from_bytes bytes = Ok tag ↔
    struct_tag_ok tag = true ∧ struct_levels 1 tag <= MAX_CONTAINER_DEPTH ∧ to_bytes (serialize_struct_tag tag) = Ok bytes.
Proof.
  intros Hb. destruct (from_bytes_at _ _ bytes tt (deserialize_struct_tag_parses (S := unit) tag_fuel MAX_CONTAINER_DEPTH ltac:(unfold tag_fuel, MAX_CONTAINER_DEPTH; lia)) Hb) as [H1 H2].
  unfold struct_tag_from_bytes. split; [apply bind_no_panic; [done|by intros []]|]. intros tag.
  assert (struct_tag_ok tag = true → struct_levels 1 tag <= MAX_CONTAINER_DEPTH → to_bytes (serialize_struct_tag tag) = Ok (struct_bytes tag)) as Hw.
  { intros Hok Hl. apply (serialize_struct_tag_at tag Hok [] MAX_CONTAINER_DEPTH). pose proof (struct_levels_mono tag). lia. }
  split.
  - intros ([t []] & Hm & Hx)%bind_Ok. injection Hx as ->. apply H2 in Hm as (_ & Hok & Hl & ->). auto.
  - intros (Hok & Hl & Ht). rewrite (Hw Hok Hl) in Ht. injection Ht as <-. by rewrite (proj2 (H2 tag tt) (conj eq_refl (conj Hok (conj Hl eq_refl)))).
Qed.

(** *** Keys are not shared *)

Lemma struct_bytes_prefix t t' r r' : struct_tag_ok t = true → struct_tag_ok t' = true →
  struct_bytes t ++ r = struct_bytes t' ++ r' → t = t' ∧ r = r'.
Proof.
  intros Ht Ht' He. remember (struct_levels 1 t + struct_levels 1 t') as k eqn:Hk. assert (struct_levels 1 t <= k ∧ struct_levels 1 t' <= k) as [Hl Hl'] by lia.
  pose proof (pa_complete _ _ _ (deserialize_struct_tag_parses (S := unit) (Datatypes.S (N.to_nat k)) k (Nat.lt_succ_diag_r _))) as Hp.
  pose proof (Hp t _ r tt (conj Ht (conj Hl eq_refl))) as H1. pose proof (Hp t' _ r' tt (conj Ht' (conj Hl' eq_refl))) as H2.
  rewrite He, H2 in H1. by injection H1.
Qed.
Lemma identifier_bytes_prefix i i' r r' : name_ok i = true → name_ok i' = true →
  identifier_bytes i ++ r = identifier_bytes i' ++ r' → i = i' ∧ r = r'.
Proof.
  intros Hi Hi' He. pose proof (pa_complete _ _ _ (parses_at_string (S := unit) 0)) as Hp.
  pose proof (Hp i _ r tt (conj Hi eq_refl)) as H1. pose proof (Hp i' _ r' tt (conj Hi' eq_refl)) as H2. rewrite He, H2 in H1. by injection H1.
Qed.
Lemma valid_byte i c : is_valid i = true → c ∈ i → 48 <= c.
Proof.
  unfold is_valid. case_decide as Hself; [intros _ Hc; subst; unfold self_bytes in Hc; set_unfold; lia|].
  destruct i as [|c' i]; [done|]. unfold all_bytes_valid. cbn [drop]. intros Hv [->|Hc]%elem_of_cons.
  - revert Hv. unfold between. destruct (((97 <=? c') && (c' <=? 122) || (65 <=? c') && (c' <=? 90))) eqn:E; [intros _; lia|].
    destruct ((c' =? 95) && (1 <? len (c' :: i))) eqn:E'; [lia|done].
  - assert (forallb is_valid_identifier_char i = true) as Hf by (revert Hv; by repeat case_match).
    rewrite forallb_forall in Hf. apply list_elem_of_In, Hf in Hc. unfold is_valid_identifier_char, between in Hc. lia.
Qed.
(** A tag ends with a byte of no identifier: its number of type parameters, or the
    variant of the first of them. *)
Lemma struct_bytes_low t : ∃ p q c, struct_bytes t = p ++ q ∧ length p = (length (stg_address t) + length (identifier_bytes (stg_module t) ++ identifier_bytes (stg_name t)))%nat ∧ c ∈ q ∧ c < 48.
Proof.
  destruct t as [a m n ts]. unfold struct_bytes. cbn [stg_address stg_module stg_name stg_type_params]. exists (a ++ identifier_bytes m ++ identifier_bytes n), (uleb 5 (len ts) ++ concat (map tag_bytes ts)).
  assert (∃ c, c ∈ uleb 5 (len ts) ++ concat (map tag_bytes ts) ∧ c < 48) as (c & Hc & Hc48).
  { destruct ts as [|t ts]; [by exists 0; split; [left|]|]. destruct (tag_bytes t) as [|c bs] eqn:Hb; [by destruct t|].
    exists c. split; [|destruct t; injection Hb as <- _; lia]. cbn [map concat]. rewrite Hb. apply elem_of_app. right. left. }
  exists c. rewrite !length_app, <- !app_assoc. split_and!; [done|lia|done|done].
Qed.
Lemma keys_disjoint id addr t k : address_ok (mid_address id) = true → is_valid (mid_name id) = true → name_ok (mid_name id) = true →
  address_ok addr = true → struct_tag_ok t = true →
  module_key (E := unit) id = Ok k → resource_key (E := unit) addr t = Ok k → False.
Proof.
  intros Hid Hv Hn Ha Ht Hk Hr. rewrite module_key_spec in Hk by done. rewrite resource_key_spec in Hr by done.
  destruct (struct_levels 0 t <=? MAX_CONTAINER_DEPTH); [|done]. injection Hk as <-. injection Hr as Hr.
  apply address_ok_spec in Hid as [Hid _]. apply address_ok_spec in Ha as [Ha _].
  apply struct_fields_ok in Ht as (Hta & _). apply address_ok_spec in Hta as [Hta _].
  destruct (struct_bytes_low t) as (p & q & c & Hp & Hlp & Hc & Hc48).
  assert (length (uleb 5 (len (mid_name id))) <= 5)%nat by (apply uleb_length; lia).
  rewrite Hp in Hr. unfold module_id_bytes, identifier_bytes in Hr.
  assert (((CODE_TAG :: mid_address id) ++ uleb 5 (len (mid_name id))) ++ mid_name id = (addr ++ [RESOURCE_TAG] ++ p) ++ q) as He
    by (rewrite <- !app_assoc; exact (eq_sym Hr)).
  apply app_eq_inv in He as [(l & Hl & Hq)|(l & Hl & Hq)].
  - apply (f_equal length) in Hl. rewrite !length_app in Hl. cbn [length] in Hl. lia.
  - assert (48 <= c) by (eapply valid_byte; [done|]; rewrite Hq; apply elem_of_app; by right). lia.
Qed.

(** What storage holds: modules, and resources of accounts *)
Inductive StoredItem : Set := ModuleItem (id : ModuleId) | ResourceItem (addr : AccountAddress) (tag : StructTag).
Definition item_key (item : StoredItem) : result unit AccessKey :=
  match item with ModuleItem id => module_key id | ResourceItem addr tag => resource_key addr tag end.
Definition item_ok (item : StoredItem) : Prop :=
  match item with
  | ModuleItem id => address_ok (mid_address id) = true ∧ is_valid (mid_name id) = true ∧ len (mid_name id) <= MAX_SEQUENCE_LENGTH
  | ResourceItem addr tag => address_ok addr = true ∧ struct_tag_ok tag = true
  end.
Lemma valid_name_ok i : is_valid i = true → len i <= MAX_SEQUENCE_LENGTH → name_ok i = true.
Proof.
  intros Hv Hl. pose proof (is_valid_ascii i Hv) as Ha. unfold name_ok. rewrite !andb_true_iff, N.leb_le, forallb_bytes.
  split_and!; [by apply ascii_utf8| |done]. eapply Forall_impl; [done|]. cbn. lia.
Qed.
Lemma module_keys_inj id id' k : address_ok (mid_address id) = true → address_ok (mid_address id') = true →
  name_ok (mid_name id) = true → name_ok (mid_name id') = true →
  module_key (E := unit) id = Ok k → module_key (E := unit) id' = Ok k → id = id'.
Proof.
  intros [Ha _]%address_ok_spec [Ha' _]%address_ok_spec Hn Hn'. rewrite !module_key_spec by done. intros [= <-] [= He]. unfold module_id_bytes in He.
  destruct id as [a n], id' as [a' n']. cbn [mid_address mid_name] in *. apply app_inj_1 in He as [-> He]; [|congruence].
  rewrite <- (app_nil_r (identifier_bytes n)), <- (app_nil_r (identifier_bytes n')) in He. by apply identifier_bytes_prefix in He as [-> _].
Qed.
Lemma resource_keys_inj a a' t t' k : address_ok a = true → address_ok a' = true → struct_tag_ok t = true → struct_tag_ok t' = true →
  resource_key (E := unit) a t = Ok k → resource_key (E := unit) a' t' = Ok k → a = a' ∧ t = t'.
Proof.
  intros [Ha _]%address_ok_spec [Ha' _]%address_ok_spec Ht Ht'. rewrite !resource_key_spec by done.
  destruct (struct_levels 0 t <=? _), (struct_levels 0 t' <=? _); try done. intros [= <-] [= He].
  apply app_inj_1 in He as [-> He]; [|congruence]. split; [done|]. injection He as He.
  rewrite <- (app_nil_r (struct_bytes t)), <- (app_nil_r (struct_bytes t')) in He. by apply struct_bytes_prefix in He as [-> _].
Qed.

Lemma storage_keys_injective (x y : StoredItem) (key : AccessKey) : item_ok x → item_ok y →
  item_key x = Ok key → item_key y = Ok key → x = y.
Proof.
  destruct x as [id|a t], y as [id'|a' t']; cbn.
  - intros (? & ? & ?) (? & ? & ?) ? ?. f_equal. by eapply module_keys_inj; eauto using valid_name_ok.
  - intros (? & ? & ?) (? & ?) ? ?. exfalso. eapply (keys_disjoint id a' t'); eauto using valid_name_ok.
  - intros (? & ?) (? & ? & ?) ? ?. exfalso. eapply (keys_disjoint id' a t); eauto using valid_name_ok.
  - intros (? & ?) (? & ?) Hx Hy. destruct (resource_keys_inj a a' t t' key) as [-> ->]; done.
Qed.
(** C12. No two items of storage share a key: neither two modules, nor two resources,
Qed.    nor a module and a resource, although the tag of a module's key comes first and
Qed.    the tag of a resource's key comes after an address. *)
Theorem storage_keys_distinct (x y : StoredItem) (key : AccessKey) : item_ok x → item_ok y →
  item_key x = Ok key → item_key y = Ok key → x = y.
Proof. apply storage_keys_injective. Qed.
(** Two names that spell the same bytes when they follow each other *)
Definition coin_tag (module name : Identifier) : StructTag :=
  {| stg_address := replicate 32 1; stg_module := module; stg_name := name; stg_type_params := [TagU8] |}.
Definition two_keys : StoredItem * StoredItem * AccessKey :=
  (ResourceItem (replicate 32 7) (coin_tag [65; 66] [67]), ResourceItem (replicate 32 7) (coin_tag [65] [66; 67]),
   replicate 32 7 ++ [1] ++ replicate 32 1 ++ [2; 65; 66; 1; 67; 1; 1]).
Lemma storage_keys_distinct_witness : item_key two_keys.1.1 = Ok two_keys.2 ∧ item_key two_keys.1.2 ≠ Ok two_keys.2.
Proof.
  assert (item_key two_keys.1.1 = Ok two_keys.2) as Hk by (vm_compute; reflexivity). split; [exact Hk|]. intros He.
  pose proof (storage_keys_distinct two_keys.1.1 two_keys.1.2 two_keys.2 (conj eq_refl eq_refl) (conj eq_refl eq_refl) Hk He) as Hx. vm_compute in Hx. discriminate Hx.
Defined.
Lemma struct_tag_canonical_witness :
  struct_tag_from_bytes (replicate 32 1 ++ [1; 65; 1; 67; 2; 1; 6; 2]) =
  Ok {| stg_address := replicate 32 1; stg_module := [65]; stg_name := [67]; stg_type_params := [TagU8; TagVector TagU64] |}.
Proof.
  apply (proj2 (struct_tag_canonical (replicate 32 1 ++ [1; 65; 1; 67; 2; 1; 6; 2]) ltac:(repeat constructor))).
  split_and!; [vm_compute; reflexivity|vm_compute; discriminate|vm_compute; reflexivity].
Defined.

(** C40. The key of a resource is made, and is the address, the tag byte and the
    serialized tag, when the tag enters no more containers than the serializer allows;
    otherwise access_vector panics. A struct enters two containers, so a tag of 250 nested
    structs has no key. *)
Theorem resource_key_or_panic (addr : AccountAddress) (tag : StructTag) : struct_tag_ok tag = true →
  resource_key (E := unit) addr tag =
  if struct_levels 0 tag <=? MAX_CONTAINER_DEPTH then Ok (addr ++ RESOURCE_TAG :: struct_bytes tag) else Panic.
Proof. apply resource_key_spec. Qed.
Fixpoint nested_struct (n : nat) : TypeTag :=
  match n with O => TagU8 | Datatypes.S n => TagStruct (replicate 32 1) [65] [65] [nested_struct n] end.
Lemma resource_key_or_panic_witness :
  resource_key (E := unit) (replicate 32 7) {| stg_address := replicate 32 1; stg_module := [65]; stg_name := [65]; stg_type_params := [nested_struct 250] |} = Panic.
Proof. rewrite resource_key_or_panic; vm_compute; reflexivity. Defined.
