(* ===== verification/Balances.v ===== *)
(** * Balances: what the host answers in place of storage

    Models [mvm/src/io]: the traits of the host ([traits.rs]), storage behind keys
    ([state.rs], [config.rs]), the execution context ([context.rs]), the balances and currencies that the
    host keeps ([balance.rs]), and the resolver of a transaction that puts them together
    ([session.rs]).  Objects behind shared references are states of their own; a
    transaction has them in its session.  [HashMap]s have no order of iteration: where
    the first of several matches is taken, the order is an argument ([mapper_order]).

    The theorem: at the end of a transaction, every balance that the host answered and that the
    transaction changed is to be moved, by one operation, to the amount in the change set; the
    balance leaves the change set; and no addition comes before a subtraction. *)

From Stdlib Require Import String.
From stdpp Require Import sorting.
From S2P Require Import Prelude CoreTypes VmStatus Abilities FileFormat Errors BinaryCommon Uleb CyclicDependencies Bcs BcsCodecs MoveValues MoveValueCodec LoadedCode Effects DataCache Keys.

(** ** The traits of the host *)

Record CurrencyInfo : Set := { ci_total_value : u128 }.
Class Storage (S : Type) := {
  storage_get : S → list u8 → option (list u8);
  storage_insert : list u8 → list u8 → S → S;
  storage_remove : list u8 → S → S }.
Class EventHandler (E : Type) := { on_event : list u8 → u64 → TypeTag → list u8 → E → E }.
Class BalanceAccess (B : Type) := {
  get_currency_info : B → list u8 → option CurrencyInfo;
  get_balance : B → AccountAddress → list u8 → option u64;
  add : AccountAddress → list u8 → u64 → B → B;
  sub : AccountAddress → list u8 → u64 → B → B }.

(** What the documentation of [Storage] says; that of [BalanceAccess] says nothing about
    [add] and [sub], and nothing here relies on what a host makes of them. *)
Class StorageLaws (S : Type) `{!Storage S} : Prop := {
  get_insert key value store key' : storage_get (storage_insert key value store) key' = if decide (key' = key) then Some value else storage_get store key';
  get_remove key store key' : storage_get (storage_remove key store) key' = if decide (key' = key) then None else storage_get store key' }.

(** Maps that are what they say *)
#[export] Instance map_Storage : Storage (gmap (list u8) (list u8)) :=
  {| storage_get := λ store key, store !! key; storage_insert := λ key value store, <[ key := value ]> store; storage_remove := λ key store, delete key store |}.
#[export] Instance map_StorageLaws : StorageLaws (gmap (list u8) (list u8)).
Proof.
  constructor; intros; cbn; case_decide; subst; [apply lookup_insert_eq|by apply lookup_insert_ne|apply lookup_delete_eq|by apply lookup_delete_ne].
Qed.
#[export] Instance map_BalanceAccess : BalanceAccess (gmap (AccountAddress * list u8) u64) := {|
  get_currency_info := λ _ _, Some {| ci_total_value := 0 |};
  get_balance := λ access addr path, access !! (addr, path);
  add := λ addr path amount access, alter (λ x, x + amount) (addr, path) access;
  sub := λ addr path amount access, alter (λ x, x - amount) (addr, path) access |}.
#[export] Instance list_EventHandler : EventHandler (list Event) := {| on_event := λ guid seq ty msg events, events ++ [(guid, seq, ty, msg)] |}.

(** ** Keys of the module [config.rs] and storage, [state.rs] *)

Inductive KeyType : Set := KeyResource | KeyModule.
Definition AccessKey_new (address : AccountAddress) (path : list u8) (k_type : KeyType) : AccessKey :=
  match k_type with KeyResource => address ++ path | KeyModule => path end.

Section Storage.
Context {S : Type} `{!Storage S}.
Definition fetch_config (store : S) (address : AccountAddress) (path : list u8) : option (list u8) :=
  storage_get store (AccessKey_new address path KeyResource).
Definition state_get_module (self : S) (module_id : ModuleId) : result unit (option (list u8)) :=
  key ← module_key module_id; Ok (storage_get self key).
Definition state_get_resource (self : S) (address : AccountAddress) (typ : StructTag) : result unit (option (list u8)) :=
  key ← resource_key address typ; Ok (storage_get self key).
(** [State] as a resolver *)
#[export] Instance state_MoveResolver : MoveResolver S :=
  {| get_module := state_get_module; get_resource := λ address typ, run_get id ≫= λ self, run_lift (state_get_resource self address typ) |}.
Definition state_delete (key : AccessKey) (self : S) : S := storage_remove key self.
Definition state_insert (key : AccessKey) (blob : list u8) (self : S) : S := storage_insert key blob self.
End Storage.

(** ** [context.rs] *)

(** [ident_str!("..")] and strings *)
Definition ident_str (s : string) : Identifier := Ascii.N_of_ascii <$> list_ascii_of_string s.
Definition TIMESTAMP_MODULE : Identifier := ident_str "PontTimestamp".
Definition CURRENT_TIME_MICROSECONDS : Identifier := ident_str "CurrentTimeMicroseconds".
Definition BLOCK_MODULE : Identifier := ident_str "PontBlock".
Definition BLOCK_METADATA : Identifier := ident_str "BlockMetadata".
Record ExecutionContext : Set := { ec_timestamp : u64; ec_block_height : u64 }.
Definition context_resolve {E} (self : ExecutionContext) (tag : StructTag) : result E (option (list u8)) :=
  if bool_decide (stg_module tag = TIMESTAMP_MODULE) && bool_decide (stg_name tag = CURRENT_TIME_MICROSECONDS)
  then ok_ (to_bytes (serialize_u64 (ec_timestamp self)))
  else if bool_decide (stg_module tag = BLOCK_MODULE) && bool_decide (stg_name tag = BLOCK_METADATA)
  then ok_ (to_bytes (serialize_u64 (ec_block_height self)))
  else Ok None.

(** ** [balance.rs] *)

Definition CORE_CODE_ADDRESS : AccountAddress := replicate 31 0 ++ [1].
(** [diem_root_address], which is [0xA550C18] *)
Definition diem_root_address : AccountAddress := replicate 28 0 ++ [0xA; 0x55; 0x0C; 0x18].
Definition ACCOUNT_MODULE_IDENTIFIER : Identifier := ident_str "PontAccount".
Definition DIEM_MODULE_IDENTIFIER : Identifier := ident_str "Token".
Definition DIEM_COIN_IDENTIFIER : Identifier := ident_str "Balance".
Definition CURRENCY_INFO : Identifier := ident_str "TokenInfo".
(** [BALANCE_TEMPLATE], with its type parameter *)
Definition balance_tag (coin : TypeTag) : StructTag :=
  {| stg_address := CORE_CODE_ADDRESS; stg_module := ACCOUNT_MODULE_IDENTIFIER; stg_name := DIEM_COIN_IDENTIFIER; stg_type_params := [coin] |}.
Definition BALANCE_TEMPLATE : StructTag := balance_tag TagU8.
Definition coin_type (t_params : list TypeTag) : option StructTag :=
  match t_params with [tag] => as_struct_tag tag | _ => None end.
Definition native_currency (coin : StructTag) : StructTag :=
  {| stg_address := CORE_CODE_ADDRESS; stg_module := ident_str "NativeToken"; stg_name := ident_str "NativeToken"; stg_type_params := [struct_tag coin] |}.

(** [struct DiemBalance] and the resource of a currency, as serde derives them *)
Definition serialize_balance (value : u64) : Serialize := λ self,
  t ← serialize_struct "DiemBalance" 1 self; t ← serialize_element (serialize_u64 value) t; Ok (output t).
Definition deserialize_balance : De unit u64 :=
  deserialize_struct "DiemBalance" 1 (λ remaining, '(value, _) ← next_field (deserialize_u64 mret) remaining; mret value).
(** [struct EventHandle] with [GUIDWrapper], [GUID] and [ID] *)
Record EventHandle : Set := { eh_counter : u64; eh_len_bytes : u8; eh_creation_num : u64; eh_addr : AccountAddress }.
Record CurrencyInfoResource : Set := {
  cr_total_value : u128; cr_decimals : u8; cr_currency_code : Identifier; cr_mint_events : EventHandle; cr_burn_events : EventHandle }.
Definition in_struct (name : string) (len : N) (fields : Serializer → result BcsError Serializer) : Serialize := λ self,
  t ← serialize_struct name len self; t ← fields t; Ok (output t).
Definition serialize_event_handle (self : EventHandle) : Serialize :=
  in_struct "EventHandle" 2 (λ t,
    t ← serialize_element (serialize_u64 (eh_counter self)) t;
    serialize_element (in_struct "GUIDWrapper" 2 (λ t,
      t ← serialize_element (serialize_u8 (eh_len_bytes self)) t;
      serialize_element (in_struct "GUID" 1 (serialize_element (in_struct "ID" 2 (λ t,
        t ← serialize_element (serialize_u64 (eh_creation_num self)) t;
        serialize_element (serialize_address (eh_addr self)) t)))) t)) t).
Definition serialize_currency_info (self : CurrencyInfoResource) : Serialize :=
  in_struct "CurrencyInfoResource" 5 (λ t,
    t ← serialize_element (serialize_u128 (cr_total_value self)) t;
    t ← serialize_element (serialize_u8 (cr_decimals self)) t;
    t ← serialize_element (serialize_identifier (cr_currency_code self)) t;
    t ← serialize_element (serialize_event_handle (cr_mint_events self)) t;
    serialize_element (serialize_event_handle (cr_burn_events self)) t).
Definition deserialize_event_handle : De unit EventHandle :=
  deserialize_struct "EventHandle" 2 (λ remaining,
    '(counter, remaining) ← next_field (deserialize_u64 mret) remaining;
    '((len_bytes, (creation_num, addr)), _) ← next_field (deserialize_struct "GUIDWrapper" 2 (λ remaining,
      '(len_bytes, remaining) ← next_field (deserialize_u8 mret) remaining;
      '(id, _) ← next_field (deserialize_struct "GUID" 1 (λ remaining,
        '(id, _) ← next_field (deserialize_struct "ID" 2 (λ remaining,
          '(creation_num, remaining) ← next_field (deserialize_u64 mret) remaining;
          '(addr, _) ← next_field deserialize_address remaining;
          mret (creation_num, addr))) remaining;
        mret id)) remaining;
      mret (len_bytes, id))) remaining;
    mret {| eh_counter := counter; eh_len_bytes := len_bytes; eh_creation_num := creation_num; eh_addr := addr |}).
Definition deserialize_currency_info : De unit CurrencyInfoResource :=
  deserialize_struct "CurrencyInfoResource" 5 (λ remaining,
    '(total_value, remaining) ← next_field (deserialize_u128 mret) remaining;
    '(decimals, remaining) ← next_field (deserialize_u8 mret) remaining;
    '(currency_code, remaining) ← next_field deserialize_identifier remaining;
    '(mint_events, remaining) ← next_field deserialize_event_handle remaining;
    '(burn_events, _) ← next_field deserialize_event_handle remaining;
    mret {| cr_total_value := total_value; cr_decimals := decimals; cr_currency_code := currency_code;
            cr_mint_events := mint_events; cr_burn_events := burn_events |}).
(** [bcs::from_bytes] *)
Definition from_bytes {A} (de : De unit A) (bytes : list u8) : result BcsError A :=
  '(a, _) ← from_bytes_seed de bytes tt; Ok a.
(** [CurrencyInfo::apply] *)
Definition currency_apply (self : CurrencyInfo) (buff : list u8) : result BcsError (list u8) :=
  info ← from_bytes deserialize_currency_info buff;
  to_bytes (serialize_currency_info {| cr_total_value := ci_total_value self; cr_decimals := cr_decimals info;
    cr_currency_code := cr_currency_code info; cr_mint_events := cr_mint_events info; cr_burn_events := cr_burn_events info |}).

(** [enum BalanceOp] *)
Inductive BalanceOp : Set :=
| OpSub (acc : AccountAddress) (path : list u8) (diff : u64)
| OpAdd (acc : AccountAddress) (path : list u8) (diff : u64).
(** The derived order: variants, then fields *)
Definition op_variant (op : BalanceOp) : N := match op with OpSub _ _ _ => 0 | OpAdd _ _ _ => 1 end.
Definition op_fields (op : BalanceOp) : list u8 * list u8 * u64 := match op with OpSub a p d | OpAdd a p d => (a, p, d) end.
Definition fields_lt (l r : list u8 * list u8 * u64) : bool :=
  bytes_lt l.1.1 r.1.1 || bool_decide (l.1.1 = r.1.1) && (bytes_lt l.1.2 r.1.2 || bool_decide (l.1.2 = r.1.2) && (l.2 <? r.2)).
Definition op_lt (l r : BalanceOp) : bool :=
  (op_variant l <? op_variant r) || (op_variant l =? op_variant r) && fields_lt (op_fields l) (op_fields r).
(** [sort]: a stable sort by insertion *)
Fixpoint insert_op (op : BalanceOp) (l : list BalanceOp) : list BalanceOp :=
  match l with [] => [op] | op' :: l' => if op_lt op' op then op' :: insert_op op l' else op :: l end.
Definition sort_ops (ops : list BalanceOp) : list BalanceOp := foldr insert_op [] ops.

(** [struct MasterOfCoin] *)
Record MasterOfCoin {B : Type} : Type := { mc_access : B; mc_native_mapper : gmap StructTag (option (list u8)) }.

Section Coins.
Context {S B : Type} `{!Storage S, !BalanceAccess B}.
(** An order in which the iterator of [native_mapper] may go *)
Context (mapper_order : gmap StructTag (option (list u8)) → list (StructTag * option (list u8))).
Notation MasterOfCoin := (@MasterOfCoin B).

Definition MasterOfCoin_new (access : B) : MasterOfCoin := {| mc_access := access; mc_native_mapper := ∅ |}.
Definition coin_clear (self : MasterOfCoin) : MasterOfCoin := {| mc_access := mc_access self; mc_native_mapper := ∅ |}.
Definition update_balance (balance_op : BalanceOp) (self : MasterOfCoin) : MasterOfCoin :=
  {| mc_access := match balance_op with
                  | OpAdd acc path diff => add acc path diff (mc_access self)
                  | OpSub acc path diff => sub acc path diff (mc_access self)
                  end;
     mc_native_mapper := mc_native_mapper self |}.
Definition remember (coin : StructTag) (bridge : option (list u8)) (self : MasterOfCoin) : MasterOfCoin :=
  {| mc_access := mc_access self; mc_native_mapper := <[ coin := bridge ]> (mc_native_mapper self) |}.
(** [MasterOfCoin::get_bridge], on storage *)
Definition get_bridge (remote : S) (coin : StructTag) : Run MasterOfCoin unit (option (list u8)) :=
  known ← run_get (λ self, mc_native_mapper self !! coin);
  match known with
  | Some path => mret path
  | None =>
      found ← run_lift (ok_ (state_get_resource remote diem_root_address (native_currency coin)));
      match found with
      | None => mret None
      | Some buff =>
          bridge ← run_lift (match buff with Some buff => ok_ (from_bytes (deserialize_vec (deserialize_u8 mret)) buff) | None => Ok None end);
          _ ← run_modify (remember coin bridge);
          mret bridge
      end
  end.
Definition make_coin_tag (self : MasterOfCoin) (sample : list u8) : option TypeTag :=
  struct_tag ∘ fst <$> List.find (λ p, bool_decide (p.2 = Some sample)) (mapper_order (mc_native_mapper self)).

(** [struct MasterOfCoinSession], with what it borrows *)
Record MasterOfCoinSession : Type := {
  ms_master_of_coin : MasterOfCoin;
  ms_balances : gmap AccountAddress (gmap (list u8) u64);
  ms_remote : S }.
Definition coin_session (self : MasterOfCoin) (remote : S) : MasterOfCoinSession :=
  {| ms_master_of_coin := self; ms_balances := ∅; ms_remote := remote |}.
Definition in_master {A} (m : S → Run MasterOfCoin unit A) : Run MasterOfCoinSession unit A := λ self,
  let '(r, master) := m (ms_remote self) (ms_master_of_coin self) in
  (r, {| ms_master_of_coin := master; ms_balances := ms_balances self; ms_remote := ms_remote self |}).
Definition record_balance (address : AccountAddress) (path : list u8) (balance : u64) (self : MasterOfCoinSession) : MasterOfCoinSession :=
  {| ms_master_of_coin := ms_master_of_coin self;
     ms_balances := <[ address := <[ path := balance ]> (default ∅ (ms_balances self !! address)) ]> (ms_balances self);
     ms_remote := ms_remote self |}.
Definition session_bridge (coin : StructTag) : Run MasterOfCoinSession unit (option (list u8)) := in_master (λ remote, get_bridge remote coin).
Definition session_get_balance (address : AccountAddress) (path : list u8) : Run MasterOfCoinSession unit (option (list u8)) :=
  balance ← run_get (λ self, get_balance (mc_access (ms_master_of_coin self)) address path);
  match balance with
  | None => mret None
  | Some balance => _ ← run_modify (record_balance address path balance); run_lift (ok_ (to_bytes (serialize_balance balance)))
  end.
Definition bridge_of (tag : StructTag) : Run MasterOfCoinSession unit (option (list u8)) :=
  match coin_type (stg_type_params tag) with Some coin => session_bridge coin | None => mret None end.
(** [patch.apply(&info).unwrap()] *)
Definition apply_unwrap (patch : CurrencyInfo) (info : list u8) : result unit (list u8) :=
  match currency_apply patch info with Ok bytes => Ok bytes | Err _ => Panic | Panic => Panic | OutOfFuel => OutOfFuel end.
Definition resolve (address : AccountAddress) (tag : StructTag) : Run MasterOfCoinSession unit (option (list u8)) :=
  if bool_decide (stg_module tag = ACCOUNT_MODULE_IDENTIFIER) then
    if bool_decide (stg_name tag = DIEM_COIN_IDENTIFIER) then
      bridge ← bridge_of tag;
      match bridge with Some bridge => session_get_balance address bridge | None => mret None end
    else mret None
  else if bool_decide (stg_module tag = DIEM_MODULE_IDENTIFIER) && bool_decide (stg_name tag = CURRENCY_INFO) then
    bridge ← bridge_of tag;
    match bridge with
    | Some bridge =>
        self ← run_get id;
        val ← run_lift (state_get_resource (ms_remote self) address tag);
        match val, get_currency_info (mc_access (ms_master_of_coin self)) bridge with
        | Some info, Some patch => bytes ← run_lift (apply_unwrap patch info); mret (Some bytes)
        | _, _ => mret None
        end
    | None => mret None
    end
  else mret None.

(** [make_acc_ops], on the operations and the resources of the account *)
Notation OpsM := (Run (list BalanceOp * Changes StructTag (list u8)) VMError).
Definition push_op (op : BalanceOp) : OpsM unit := run_modify (λ s, (s.1 ++ [op], s.2)).
Definition remove_resource (tag : StructTag) : OpsM (option (option (list u8))) := λ s, (Ok (s.2 !! tag), (s.1, delete tag s.2)).
Definition acc_op (self : MasterOfCoin) (acc : AccountAddress) (p : list u8 * u64) : OpsM unit :=
  let '(path, initial_balance) := p in
  match make_coin_tag self path with
  | None => mret tt
  | Some tag =>
      resource ← remove_resource (balance_tag tag);
      match resource with
      | None => mret tt
      | Some None => push_op (OpSub acc path initial_balance)
      | Some (Some buff) =>
          current_balance ← run_map_err (λ _, undefined INTERNAL_TYPE_ERROR) (run_lift (from_bytes deserialize_balance buff));
          if current_balance =? initial_balance then mret tt
          else if initial_balance <? current_balance then push_op (OpAdd acc path (current_balance - initial_balance))
          else push_op (OpSub acc path (initial_balance - current_balance))
      end
  end.
Definition make_acc_ops (self : MasterOfCoin) (acc : AccountAddress) (balances : gmap (list u8) u64) : OpsM unit :=
  run_each (acc_op self acc) (map_to_list balances).
(** [MasterOfCoinSession::finish] *)
Definition finish_account (self : MasterOfCoin) (p : AccountAddress * gmap (list u8) u64) : Run (list BalanceOp * ChangeSet) VMError unit := λ s,
  match s.2 !! p.1 with
  | None => (Ok tt, s)
  | Some changes =>
      let '(r, (ops, resources)) := make_acc_ops self p.1 p.2 (s.1, acs_resources changes) in
      (r, (ops, <[ p.1 := {| acs_modules := acs_modules changes; acs_resources := resources |} ]> s.2))
  end.
Definition coin_finish (self : MasterOfCoinSession) : Run ChangeSet VMError (list BalanceOp) := λ changes,
  match run_each (finish_account (ms_master_of_coin self)) (map_to_list (ms_balances self)) ([], changes) with
  | (r, (ops, changes)) => (_ ← r; Ok (sort_ops ops), changes)
  end.

(** ** [session.rs] *)

(** [struct StateSession]; its [remote] is the one of its coin session. *)
Record StateSession : Type := { st_context : option ExecutionContext; st_coin_session : MasterOfCoinSession }.
Definition state_session (state : S) (context : option ExecutionContext) (master_of_coin : MasterOfCoin) : StateSession :=
  {| st_context := context; st_coin_session := coin_session master_of_coin state |}.
Definition in_coins {A} (m : Run MasterOfCoinSession unit A) : Run StateSession unit A := λ self,
  let '(r, coins) := m (st_coin_session self) in (r, {| st_context := st_context self; st_coin_session := coins |}).
Definition session_get_module (self : StateSession) (id : ModuleId) : result unit (option (list u8)) :=
  state_get_module (ms_remote (st_coin_session self)) id.
Definition from_context (address : AccountAddress) (tag : StructTag) (self : StateSession) : result unit (option (list u8)) :=
  if bool_decide (address = diem_root_address)
  then match st_context self with Some ctx => context_resolve ctx tag | None => Ok None end
  else Ok None.
Definition session_get_resource (address : AccountAddress) (tag : StructTag) : Run StateSession unit (option (list u8)) :=
  answered ← (if bool_decide (stg_address tag = CORE_CODE_ADDRESS) then
      blob ← (run_get (from_context address tag) ≫= run_lift);
      match blob with Some blob => mret (Some blob) | None => in_coins (resolve address tag) end
    else mret None);
  match answered with
  | Some blob => mret (Some blob)
  | None => run_get (λ self, state_get_resource (ms_remote (st_coin_session self)) address tag) ≫= run_lift
  end.
#[export] Instance session_MoveResolver : MoveResolver StateSession :=
  {| get_module := session_get_module; get_resource := session_get_resource |}.
Definition session_finish (self : StateSession) (effects : ChangeSet * list Event) : result VMError (ChangeSet * list Event * list BalanceOp) :=
  let '(r, changes) := coin_finish (st_coin_session self) effects.1 in
  balance_op ← r; Ok (changes, effects.2, balance_op).
End Coins.

(** ** Sorting *)

Lemma insert_op_perm op l : insert_op op l ≡ₚ op :: l.
Proof. induction l as [|op' l IH]; cbn; [done|]. destruct (op_lt op' op); [|done]. rewrite IH. apply Permutation_swap. Qed.
Lemma sort_ops_perm ops : sort_ops ops ≡ₚ ops.
Proof. induction ops as [|op ops IH]; [done|]. cbn. by rewrite insert_op_perm, IH. Qed.
(** No addition comes before a subtraction. *)
Definition subs_first : list BalanceOp → Prop := StronglySorted (λ l r, op_variant l <= op_variant r).
Lemma op_lt_variant l r : op_lt l r = true → op_variant l <= op_variant r.
Proof. unfold op_lt. lia. Qed.
Lemma op_ge_variant l r : op_lt l r = false → op_variant r <= op_variant l.
Proof. unfold op_lt. lia. Qed.
Lemma insert_op_sorted op l : subs_first l → subs_first (insert_op op l).
Proof.
  induction 1 as [|op' l Hs IH Hf]; cbn; [by repeat constructor|]. destruct (op_lt op' op) eqn:Hlt.
  - constructor; [done|]. rewrite insert_op_perm. constructor; [by apply op_lt_variant|done].
  - apply op_ge_variant in Hlt. constructor; [by constructor|]. constructor; [done|]. eapply Forall_impl; [done|]. cbn. lia.
Qed.
Lemma sort_ops_sorted ops : subs_first (sort_ops ops).
Proof. induction ops; cbn; [constructor|by apply insert_op_sorted]. Qed.

(** ** What operations do to the balances *)

Definition op_key (op : BalanceOp) : AccountAddress * list u8 := (op_fields op).1.
Definition op_moves (op : BalanceOp) (x : u64) : u64 := match op with OpAdd _ _ d => x + d | OpSub _ _ d => x - d end.
Definition op_fits (op : BalanceOp) (x : u64) : Prop := match op with OpAdd _ _ d => x + d <= u64_MAX | OpSub _ _ d => d <= x end.
#[export] Instance op_fits_dec op x : Decision (op_fits op x).
Proof. destruct op; cbn; apply _. Defined.
Definition update_balances {B} `{!BalanceAccess B} (ops : list BalanceOp) (self : @MasterOfCoin B) : MasterOfCoin :=
  foldl (λ self op, update_balance op self) self ops.

(** A ledger that refuses what it has not, and what a u64 cannot hold *)
Notation Ledger := (gmap (AccountAddress * list u8) u64).
Definition settle_op (op : BalanceOp) (ledger : Ledger) : option Ledger :=
  x ← ledger !! op_key op;
  if decide (op_fits op x) then Some (<[ op_key op := op_moves op x ]> ledger) else None.
Fixpoint settle (ops : list BalanceOp) (ledger : Ledger) : option Ledger :=
  match ops with [] => Some ledger | op :: ops => settle_op op ledger ≫= settle ops end.
(** Operations on different balances do not see each other. *)
Lemma settle_spec (ops : list BalanceOp) (ledger : Ledger) : NoDup (op_key <$> ops) → Forall (λ op, ∃ x, ledger !! op_key op = Some x ∧ op_fits op x) ops →
  ∃ ledger', settle ops ledger = Some ledger' ∧
    (∀ op x, op ∈ ops → ledger !! op_key op = Some x → ledger' !! op_key op = Some (op_moves op x)) ∧
    (∀ k, k ∉ op_key <$> ops → ledger' !! k = ledger !! k).
Proof.
  revert ledger. induction ops as [|op ops IH]; intros ledger Hnd Hfit; [exists ledger; by split_and!; [|intros ? ? ?%elem_of_nil|]|].
  cbn in Hnd. apply NoDup_cons in Hnd as [Hni Hnd]. apply Forall_cons in Hfit as [(x & Hx & Hf) Hfit].
  assert (Hother : ∀ op', op' ∈ ops → <[ op_key op := op_moves op x ]> ledger !! op_key op' = ledger !! op_key op').
  { intros op' Hin. apply lookup_insert_ne. intros He. apply Hni. rewrite He. by apply list_elem_of_fmap_2. }
  destruct (IH (<[ op_key op := op_moves op x ]> ledger) Hnd) as (ledger' & Hs & H1 & H2).
  { apply Forall_forall. intros op' Hin. rewrite Forall_forall in Hfit. destruct (Hfit op' Hin) as (x' & Hx' & Hf'). exists x'. by rewrite Hother. }
  exists ledger'. cbn [settle]. unfold settle_op. rewrite Hx. cbn [mbind option_bind]. rewrite decide_True by done. split_and!; [exact Hs| |].
  - intros op' x' [->|Hin]%elem_of_cons Hx'; [|apply H1; [done|by rewrite Hother]].
    rewrite Hx in Hx'. injection Hx' as <-. rewrite H2 by done. apply lookup_insert_eq.
  - cbn. intros k [Hk Hks]%not_elem_of_cons. by rewrite H2, lookup_insert_ne.
Qed.

(** ** The end of a session *)

Lemma deserialize_balance_spec v : v <= u64_MAX → from_bytes deserialize_balance (to_le_bytes 8 v) = Ok v.
Proof.
  intros Hv. assert (parses_at MAX_CONTAINER_DEPTH deserialize_balance (λ x bs, bs = to_le_bytes 8 x ∧ x <= u64_MAX)) as Hp.
  { eapply parses_at_ext; [apply parses_at_named; intros _;
      apply (parses_at_field _ _ _ 1 (λ x bs, bs = to_le_bytes 8 x ∧ x <= u64_MAX) (λ x b bs, b = x ∧ bs = []));
      [apply (parses_at_of 0); [apply parses_u64|lia]|done|intros; apply parses_at_ret]|].
    intros x bs. split; [intros (_ & ? & ? & ? & -> & [-> ?] & -> & ->); by rewrite app_nil_r|].
    intros [-> ?]. split; [done|]. exists x, (to_le_bytes 8 x), []. by rewrite app_nil_r. }
  destruct (from_bytes_at deserialize_balance _ (to_le_bytes 8 v) tt Hp (to_le_bytes_ok 8 v)) as [_ H].
  unfold from_bytes. by rewrite (proj2 (H v tt) (conj eq_refl (conj eq_refl Hv))).
Qed.

Section Finish.
Context {S B : Type} `{!Storage S, !BalanceAccess B}.
Context (mapper_order : gmap StructTag (option (list u8)) → list (StructTag * option (list u8))).
Context (mapper_order_perm : ∀ m, mapper_order m ≡ₚ map_to_list m).
Context (self : @MasterOfCoin B).
Notation make_coin_tag := (make_coin_tag mapper_order self).
Notation acc_op := (acc_op mapper_order self).

(** A coin has one bridge. *)
Lemma make_coin_tag_inj path path' tag : make_coin_tag path = Some tag → make_coin_tag path' = Some tag → path = path'.
Proof.
  unfold Balances.make_coin_tag. intros Ht Ht'. apply fmap_Some in Ht as ([coin b] & Hf & ->). apply fmap_Some in Ht' as ([coin' b'] & Hf' & Hc).
  apply List.find_some in Hf as [Hin Hb%bool_decide_eq_true], Hf' as [Hin' Hb'%bool_decide_eq_true]. cbn in *. subst.
  apply list_elem_of_In in Hin, Hin'. rewrite mapper_order_perm in Hin, Hin'. apply elem_of_map_to_list in Hin, Hin'.
  assert (coin = coin') as -> by (destruct coin, coin'; by injection Hc as -> -> -> ->). congruence.
Qed.
Lemma balance_tag_inj t t' : balance_tag t = balance_tag t' → t = t'.
Proof. by intros [= ->]. Qed.

(** The operation for a balance that was answered, given what the change set says of it *)
Definition op_for (resources : Changes StructTag (list u8)) (acc : AccountAddress) (p : list u8 * u64) : option BalanceOp :=
  let '(path, initial) := p in
  tag ← make_coin_tag path;
  match resources !! balance_tag tag with
  | None => None
  | Some None => Some (OpSub acc path initial)
  | Some (Some buff) =>
      match from_bytes deserialize_balance buff with
      | Ok current => if current =? initial then None
                      else if initial <? current then Some (OpAdd acc path (current - initial)) else Some (OpSub acc path (initial - current))
      | _ => None
      end
  end.
(** Balances are amounts. *)
Definition readable (resources : Changes StructTag (list u8)) : Prop :=
  ∀ path tag buff, make_coin_tag path = Some tag → resources !! balance_tag tag = Some (Some buff) → ∃ v, v <= u64_MAX ∧ buff = to_le_bytes 8 v.
Definition taken (l : list (list u8)) (tag : StructTag) : Prop := ∃ path coin, path ∈ l ∧ make_coin_tag path = Some coin ∧ tag = balance_tag coin.

Lemma acc_op_spec acc p ops resources : readable resources →
  ∃ resources', acc_op acc p (ops, resources) = (Ok tt, (ops ++ option_list (op_for resources acc p), resources')) ∧
    (∀ tag, taken [p.1] tag → resources' !! tag = None) ∧ (∀ tag, ¬ taken [p.1] tag → resources' !! tag = resources !! tag).
Proof.
  destruct p as [path initial]. intros Hr. unfold Balances.acc_op, op_for. cbn [fst]. destruct (make_coin_tag path) as [coin|] eqn:Hc.
  - exists (delete (balance_tag coin) resources). split_and!.
    + cbn [mbind option_bind]. rewrite run_bind_eq. unfold remove_resource at 1. cbn [fst snd].
      destruct (resources !! balance_tag coin) as [[buff|]|] eqn:Hb; [|done|by rewrite app_nil_r].
      destruct (Hr _ _ _ Hc Hb) as (v & Hv & ->). rewrite run_bind_eq. unfold run_map_err, run_lift. rewrite deserialize_balance_spec by done. cbn [map_err].
      destruct (v =? initial); [by rewrite app_nil_r|]. by destruct (initial <? v).
    + intros tag (path' & coin' & ->%list_elem_of_singleton & Hc' & ->). rewrite Hc in Hc'. injection Hc' as ->. apply lookup_delete_eq.
    + intros tag Hn. apply lookup_delete_ne. intros <-. apply Hn. exists path, coin. by rewrite list_elem_of_singleton.
  - exists resources. split_and!; [by rewrite app_nil_r| |done]. intros tag (path' & coin' & ->%list_elem_of_singleton & Hc' & ->). congruence.
Qed.
Lemma op_for_other resources resources' acc p : (∀ tag, taken [p.1] tag → resources' !! tag = resources !! tag) → op_for resources' acc p = op_for resources acc p.
Proof.
  destruct p as [path initial]. cbn. intros H. destruct (make_coin_tag path) as [coin|] eqn:Hc; [|done]. cbn. rewrite H; [done|].
  exists path, coin. by rewrite list_elem_of_singleton.
Qed.
Lemma make_acc_ops_spec acc (l : list (list u8 * u64)) ops resources : NoDup l.*1 → readable resources →
  ∃ resources', run_each (acc_op acc) l (ops, resources) = (Ok tt, (ops ++ omap (op_for resources acc) l, resources')) ∧
    (∀ tag, taken l.*1 tag → resources' !! tag = None) ∧ (∀ tag, ¬ taken l.*1 tag → resources' !! tag = resources !! tag).
Proof.
  revert ops resources. induction l as [|p l IH]; intros ops resources Hnd Hr.
  { exists resources. split_and!; [by rewrite app_nil_r| |done]. by intros tag (? & ? & ?%elem_of_nil & _). }
  cbn in Hnd. apply NoDup_cons in Hnd as [Hni Hnd].
  destruct (acc_op_spec acc p ops resources Hr) as (r1 & H1 & Ht1 & Hn1).
  assert (Hsep : ∀ tag, taken [p.1] tag → taken l.*1 tag → False).
  { intros tag (path & coin & ->%list_elem_of_singleton & Hc & ->) (path' & coin' & Hin & Hc' & He%balance_tag_inj). subst coin'.
    rewrite (make_coin_tag_inj _ _ _ Hc Hc') in Hni. done. }
  destruct (IH (ops ++ option_list (op_for resources acc p)) r1 Hnd) as (r2 & H2 & Ht2 & Hn2).
  { intros path tag buff Hc Hb. apply (Hr path tag buff Hc). destruct (decide (path = p.1)) as [->|Hne].
    - rewrite Ht1 in Hb; [done|]. exists p.1, tag. by rewrite list_elem_of_singleton.
    - rewrite <- Hn1; [done|]. intros (path' & coin' & ->%list_elem_of_singleton & Hc' & He%balance_tag_inj). subst coin'.
      by apply Hne, (make_coin_tag_inj _ _ tag). }
  exists r2. cbn [run_each]. rewrite run_bind_eq, H1, H2. split_and!.
  - f_equal. f_equal. rewrite <- app_assoc. f_equal. cbn [omap list_omap].
    assert (omap (op_for r1 acc) l = omap (op_for resources acc) l) as ->.
    { apply list_omap_ext, Forall_Forall2_diag, Forall_forall. intros q Hq. apply op_for_other. intros tag Htk. apply Hn1. intros Htp. apply (Hsep tag Htp).
      destruct Htk as (path & coin & ->%list_elem_of_singleton & Hc & ->). exists q.1, coin. split; [by apply list_elem_of_fmap_2|done]. }
    by destruct (op_for resources acc p).
  - intros tag (path & coin & [->|Hin]%elem_of_cons & Hc & ->).
    + assert (taken [p.1] (balance_tag coin)) as Htk by (exists p.1, coin; by rewrite list_elem_of_singleton).
      rewrite Hn2; [by apply Ht1|]. intros Htl. by apply (Hsep _ Htk).
    + apply Ht2. by exists path, coin.
  - intros tag Hno. rewrite Hn2, Hn1; [done| |]; intros (path & coin & Hin & Hc & ->); apply Hno; exists path, coin.
    + apply list_elem_of_singleton in Hin as ->. split; [left|done].
    + split; [by right|done].
Qed.

(** The balances that the host answered *)
Definition recorded (balances : gmap AccountAddress (gmap (list u8) u64)) : list (AccountAddress * (list u8 * u64)) :=
  map_to_list balances ≫= λ p, (p.1,.) <$> map_to_list p.2.
Definition recorded_key (r : AccountAddress * (list u8 * u64)) : AccountAddress * list u8 := (r.1, r.2.1).
Definition resources_of (changes : ChangeSet) (acc : AccountAddress) : Changes StructTag (list u8) :=
  match changes !! acc with Some a => acs_resources a | None => ∅ end.
Definition modules_of (changes : ChangeSet) (acc : AccountAddress) : Changes Identifier (list u8) :=
  match changes !! acc with Some a => acs_modules a | None => ∅ end.
Definition op_in (changes : ChangeSet) (r : AccountAddress * (list u8 * u64)) : option BalanceOp := op_for (resources_of changes r.1) r.1 r.2.
Lemma elem_of_recorded balances acc path x : (acc, (path, x)) ∈ recorded balances ↔ ∃ m, balances !! acc = Some m ∧ m !! path = Some x.
Proof.
  unfold recorded. rewrite list_elem_of_bind. split.
  - intros ([a m] & (q & [= -> <-] & Hq)%list_elem_of_fmap & Hin). cbn in *. exists m. split; by apply elem_of_map_to_list.
  - intros (m & Ha & Hp). exists (acc, m). split; [|by apply elem_of_map_to_list]. apply list_elem_of_fmap_2. by apply elem_of_map_to_list.
Qed.
Lemma recorded_NoDup balances : NoDup (recorded_key <$> recorded balances).
Proof.
  apply NoDup_fmap_2_strong.
  - intros [a [p x]] [a' [p' x']] (m & Ha & Hp)%elem_of_recorded (m' & Ha' & Hp')%elem_of_recorded [= -> ->]. congruence.
  - unfold recorded. apply NoDup_bind.
    + intros [a m] [a' m'] y Ha%elem_of_map_to_list Ha'%elem_of_map_to_list (? & -> & _)%list_elem_of_fmap (? & [= ->] & _)%list_elem_of_fmap. congruence.
    + intros [a m] _. apply NoDup_fmap; [intros ?? [= ?]; done|apply NoDup_map_to_list].
    + apply NoDup_map_to_list.
Qed.
Lemma op_for_key resources acc p op : op_for resources acc p = Some op → op_key op = (acc, p.1).
Proof.
  destruct p as [path initial]. cbn. destruct (make_coin_tag path) as [coin|]; [cbn|done].
  destruct (resources !! balance_tag coin) as [[buff|]|]; [|by intros [= <-]|done]. destruct (from_bytes deserialize_balance buff); [|done..].
  destruct (_ =? _); [done|]. by destruct (_ <? _); intros [= <-].
Qed.
Lemma omap_keys changes l : NoDup (recorded_key <$> l) → NoDup (op_key <$> omap (op_in changes) l).
Proof.
  induction l as [|r l IH]; cbn; [constructor|]. intros [Hni Hnd]%NoDup_cons. destruct (op_in changes r) as [op|] eqn:Hop; [|by apply IH].
  cbn. constructor; [|by apply IH]. intros (op' & Hk & (r' & Hin & Hop')%list_elem_of_omap)%list_elem_of_fmap. apply Hni.
  apply op_for_key in Hop, Hop'. replace (recorded_key r) with (recorded_key r') by (unfold recorded_key; congruence). by apply list_elem_of_fmap_2.
Qed.
(** Every changed balance can be read. *)
Definition changes_readable (changes : ChangeSet) : Prop := ∀ acc, readable (resources_of changes acc).

Lemma readable_empty : readable ∅.
Proof. intros path tag buff _. by rewrite lookup_empty. Qed.
Lemma finish_account_spec acc m ops changes : readable (resources_of changes acc) →
  ∃ changes', finish_account mapper_order self (acc, m) (ops, changes) = (Ok tt, (ops ++ omap (op_in changes) ((acc,.) <$> map_to_list m), changes')) ∧
    (∀ a, modules_of changes' a = modules_of changes a) ∧ (∀ a, a ≠ acc → resources_of changes' a = resources_of changes a) ∧
    (∀ tag, taken (map_to_list m).*1 tag → resources_of changes' acc !! tag = None) ∧
    (∀ tag, ¬ taken (map_to_list m).*1 tag → resources_of changes' acc !! tag = resources_of changes acc !! tag).
Proof.
  intros Hr. unfold finish_account. cbn [fst snd].
  assert (omap (op_in changes) ((acc,.) <$> map_to_list m) = omap (op_for (resources_of changes acc) acc) (map_to_list m)) as ->.
  { induction (map_to_list m) as [|p l IH]; [done|]. cbn. by rewrite IH. }
  unfold resources_of, modules_of in *. destruct (changes !! acc) as [a|] eqn:Ha.
  - destruct (make_acc_ops_spec acc (map_to_list m) ops (acs_resources a) (NoDup_fst_map_to_list m) Hr) as (r & Hrun & Ht & Hn).
    unfold make_acc_ops. rewrite Hrun. exists (<[ acc := {| acs_modules := acs_modules a; acs_resources := r |} ]> changes). split; [done|]. split_and!.
    + intros b. destruct (decide (b = acc)) as [->|Hb]; [by rewrite lookup_insert_eq, Ha|by rewrite lookup_insert_ne].
    + intros b Hb. by rewrite lookup_insert_ne.
    + intros tag Htk. rewrite lookup_insert_eq. by apply Ht.
    + intros tag Htk. rewrite lookup_insert_eq. by apply Hn.
  - exists changes. split_and!; try done.
    + f_equal. f_equal. clear. induction (map_to_list m) as [|[path x] l IH]; cbn; [by rewrite app_nil_r|]. destruct (make_coin_tag path); cbn; [rewrite lookup_empty|]; done.
    + intros tag _. by rewrite Ha.
    + intros tag _. by rewrite Ha.
Qed.
Lemma finish_accounts_spec (l : list (AccountAddress * gmap (list u8) u64)) ops changes : NoDup l.*1 → changes_readable changes →
  let all := l ≫= (λ p, (p.1,.) <$> map_to_list p.2) in
  ∃ changes', run_each (finish_account mapper_order self) l (ops, changes) = (Ok tt, (ops ++ omap (op_in changes) all, changes')) ∧
    (∀ a, modules_of changes' a = modules_of changes a) ∧
    (∀ a tag, (∃ path x coin, (a, (path, x)) ∈ all ∧ make_coin_tag path = Some coin ∧ tag = balance_tag coin) → resources_of changes' a !! tag = None) ∧
    (∀ a tag, ¬ (∃ path x coin, (a, (path, x)) ∈ all ∧ make_coin_tag path = Some coin ∧ tag = balance_tag coin) →
       resources_of changes' a !! tag = resources_of changes a !! tag).
Proof.
  revert ops changes. induction l as [|[acc m] l IH]; intros ops changes Hnd Hr all.
  { exists changes. split_and!; [by rewrite app_nil_r|done| |done]. by intros a tag (? & ? & ? & ?%elem_of_nil & _). }
  cbn in Hnd. apply NoDup_cons in Hnd as [Hni Hnd].
  destruct (finish_account_spec acc m ops changes (Hr acc)) as (c1 & H1 & Hm1 & Ho1 & Ht1 & Hn1).
  assert (Htk : ∀ tag, taken (map_to_list m).*1 tag ↔ ∃ path x coin, (acc, (path, x)) ∈ (acc,.) <$> map_to_list m ∧ make_coin_tag path = Some coin ∧ tag = balance_tag coin).
  { intros tag. split.
    - intros (path & coin & ([path' x] & -> & Hin)%list_elem_of_fmap & Hc & ->). exists path', x, coin. split_and!; [|done..]. by apply list_elem_of_fmap_2.
    - intros (path & x & coin & ([path' x'] & [= -> ->] & Hin)%list_elem_of_fmap & Hc & ->). exists path', coin. split_and!; [|done..].
      apply list_elem_of_fmap. by exists (path', x'). }
  destruct (IH (ops ++ omap (op_in changes) ((acc,.) <$> map_to_list m)) c1 Hnd) as (c2 & H2 & Hm2 & Ht2 & Hn2).
  { intros a path tag buff Hc Hb. destruct (decide (a = acc)) as [->|Ha]; [|rewrite Ho1 in Hb by done; by apply (Hr a path tag)].
    apply (Hr acc path tag buff Hc). rewrite <- Hn1; [done|]. intros Htn. by rewrite Ht1 in Hb. }
  exists c2. cbn [run_each]. rewrite run_bind_eq, H1, H2.
  assert (Hrest : ∀ a path x, (a, (path, x)) ∈ l ≫= (λ p, (p.1,.) <$> map_to_list p.2) → a ≠ acc).
  { intros a path x ([a' m'] & (q & [= -> <-] & _)%list_elem_of_fmap & Hin)%list_elem_of_bind ->. apply Hni. apply list_elem_of_fmap. by exists (acc, m'). }
  split_and!.
  - f_equal. f_equal. rewrite <- app_assoc. f_equal. unfold all. cbn. rewrite omap_app. f_equal.
    apply list_omap_ext, Forall_Forall2_diag, Forall_forall. intros [a [path x]] Hin%Hrest. unfold op_in. cbn. by rewrite Ho1.
  - intros a. by rewrite Hm2, Hm1.
  - intros a tag (path & x & coin & Hin & Hc & ->). unfold all in Hin. cbn in Hin. apply elem_of_app in Hin as [Hin|Hin]; [|apply Ht2; eauto 10].
    assert (a = acc) as -> by (by apply list_elem_of_fmap in Hin as (? & [= -> _] & _)). rewrite Hn2; [apply Ht1, Htk; eauto 10|].
    intros (path' & x' & coin' & Hin' & _). by apply Hrest in Hin'.
  - intros a tag Hno. rewrite Hn2.
    + destruct (decide (a = acc)) as [->|Ha]; [|by rewrite Ho1]. apply Hn1. rewrite Htk. intros (path & x & coin & Hin & Hc & ->). apply Hno.
      exists path, x, coin. split; [|done]. unfold all. cbn. apply elem_of_app. by left.
    + intros (path & x & coin & Hin & Hc & ->). apply Hno. exists path, x, coin. split; [|done]. unfold all. cbn. apply elem_of_app. by right.
Qed.
End Finish.

(** ** The balances of a transaction *)

Section Transaction.
Context {S B : Type} `{!Storage S, !BalanceAccess B}.
Context (mapper_order : gmap StructTag (option (list u8)) → list (StructTag * option (list u8))).
Notation make_coin_tag := (make_coin_tag mapper_order).

(** A balance that the host answered, as the resource of a coin *)
Definition answered (self : @MasterOfCoinSession S B) (acc : AccountAddress) (path : list u8) (x : u64) (coin : TypeTag) : Prop :=
  (acc, (path, x)) ∈ recorded (ms_balances self) ∧ make_coin_tag (ms_master_of_coin self) path = Some coin.
(** The amount in the change set *)
Definition changed_to (changes : ChangeSet) (acc : AccountAddress) (coin : TypeTag) (x : u64) (v : u64) : Prop :=
  match resources_of changes acc !! balance_tag coin with
  | None => v = x
  | Some None => v = 0
  | Some (Some buff) => v <= u64_MAX ∧ buff = to_le_bytes 8 v
  end.
(** What the end of a session gives: the operations settle, on every ledger that has the
    balances that the host answered. *)
Record balances_settled (self : @MasterOfCoinSession S B) (changes changes' : ChangeSet) (ops : list BalanceOp) (ledger ledger' : Ledger) : Prop := {
  bm_settled : settle ops ledger = Some ledger';
  bm_answered acc path x coin : answered self acc path x coin →
    ∃ v, changed_to changes acc coin x v ∧ resources_of changes' acc !! balance_tag coin = None ∧ ledger' !! (acc, path) = Some v;
  bm_other acc path : (∀ x coin, ¬ answered self acc path x coin) → ledger' !! (acc, path) = ledger !! (acc, path);
  bm_resources acc tag : (∀ path x coin, answered self acc path x coin → tag ≠ balance_tag coin) →
    resources_of changes' acc !! tag = resources_of changes acc !! tag;
  bm_modules acc : modules_of changes' acc = modules_of changes acc;
  bm_order : subs_first ops;
  bm_once : NoDup (op_key <$> ops) }.

Lemma op_in_spec (master : @MasterOfCoin B) changes acc path (x : u64) coin : readable mapper_order master (resources_of changes acc) → x <= u64_MAX →
  make_coin_tag master path = Some coin →
  ∃ v, changed_to changes acc coin x v ∧
    match op_in mapper_order master changes (acc, (path, x)) with Some op => op_fits op x ∧ op_moves op x = v | None => v = x end.
Proof.
  intros Hr Hx Hc. unfold op_in, op_for, changed_to. cbn [fst snd]. rewrite Hc. cbn [mbind option_bind].
  destruct (resources_of changes acc !! balance_tag coin) as [[buff|]|] eqn:Hb.
  - destruct (Hr path coin buff Hc Hb) as (v & Hv & ->). exists v. split; [done|]. rewrite deserialize_balance_spec by done.
    destruct (N.eqb_spec v x); [done|]. destruct (N.ltb_spec x v); cbn; lia.
  - exists 0. cbn. split; [done|]. lia.
  - by exists x.
Qed.
Lemma op_in_coin (master : @MasterOfCoin B) changes acc path (x : u64) op : op_in mapper_order master changes (acc, (path, x)) = Some op → ∃ coin, make_coin_tag master path = Some coin.
Proof. unfold op_in, op_for. cbn. destruct (make_coin_tag master path); [by eauto|done]. Qed.

(** C11. At the end of a transaction whose change set holds balances that can be read, the
    operations on the host's balances follow the change set: on every ledger that has the
    balances the host answered they are settled without going below zero or above a u64,
    at most one for each balance and the subtractions first; each balance that was
    answered comes to the amount in the change set, zero when it was deleted, and leaves
    the change set, whose other resources and modules stay, as the other balances do. *)
Theorem balances_follow_changes (self : @MasterOfCoinSession S B) (changes : ChangeSet) :
  (∀ m, mapper_order m ≡ₚ map_to_list m) →
  (∀ acc path x, (acc, (path, x)) ∈ recorded (ms_balances self) → x <= u64_MAX) →
  changes_readable mapper_order (ms_master_of_coin self) changes →
  ∃ ops changes', coin_finish mapper_order self changes = (Ok ops, changes') ∧
    ∀ ledger : Ledger, (∀ acc path x, (acc, (path, x)) ∈ recorded (ms_balances self) → ledger !! (acc, path) = Some x) →
    ∃ ledger', balances_settled self changes changes' ops ledger ledger'.
Proof.
  intros Hperm Hmax Hr.
  destruct (finish_accounts_spec mapper_order Hperm (ms_master_of_coin self) (map_to_list (ms_balances self)) [] changes (NoDup_fst_map_to_list _) Hr)
    as (changes' & Hrun & Hmods & Htaken & Hother).
  fold (recorded (ms_balances self)) in Hrun, Htaken, Hother. set (master := ms_master_of_coin self) in *.
  set (found := omap (op_in mapper_order master changes) (recorded (ms_balances self))) in *.
  exists (sort_ops found), changes'. split.
  { unfold coin_finish. fold master. cbn [app] in Hrun. by rewrite Hrun. }
  intros ledger Hknown. pose proof (omap_keys mapper_order master changes _ (recorded_NoDup (ms_balances self))) as Hnd. fold found in Hnd.
  destruct (settle_spec (sort_ops found) ledger) as (ledger' & Hsettle & Hmoved & Hkept); [by rewrite sort_ops_perm| |].
  { rewrite sort_ops_perm. apply Forall_forall. intros op ([acc [path x]] & Hin & Hop)%list_elem_of_omap.
    rewrite (op_for_key _ _ _ _ _ _ Hop). exists x. split; [by apply Hknown|].
    destruct (op_in_coin _ _ _ _ _ _ Hop) as [coin Hc]. destruct (op_in_spec master changes acc path x coin (Hr acc) (Hmax _ _ _ Hin) Hc) as (v & _ & Hv).
    rewrite Hop in Hv. apply Hv. }
  assert (Hsame : ∀ acc path, (∀ x op, (acc, (path, x)) ∈ recorded (ms_balances self) → op_in mapper_order master changes (acc, (path, x)) ≠ Some op) →
    ledger' !! (acc, path) = ledger !! (acc, path)).
  { intros acc path Hno. apply Hkept. rewrite sort_ops_perm. intros (op & Hk & ([a [p x]] & Hin & Hop)%list_elem_of_omap)%list_elem_of_fmap.
    pose proof (op_for_key _ _ _ _ _ _ Hop) as Hkey. rewrite Hkey in Hk. injection Hk as -> ->. by apply (Hno x op). }
  exists ledger'. constructor; fold master; [exact Hsettle| | | |apply Hmods|apply sort_ops_sorted|by rewrite sort_ops_perm].
  - intros acc path x coin [Hin Hc]. pose proof (Hknown _ _ _ Hin) as Hx.
    destruct (op_in_spec master changes acc path x coin (Hr acc) (Hmax _ _ _ Hin) Hc) as (v & Hch & Hv). exists v. split_and!; [done|apply Htaken; eauto 10|].
    destruct (op_in mapper_order master changes (acc, (path, x))) as [op|] eqn:Hop.
    + pose proof (op_for_key _ _ _ _ _ _ Hop) as Hkey. destruct Hv as [_ <-]. specialize (Hmoved op x). rewrite Hkey in Hmoved. apply Hmoved; [|done].
      rewrite sort_ops_perm. apply list_elem_of_omap. eauto.
    + subst v. rewrite Hsame; [done|]. intros x' op Hin'. pose proof (Hknown _ _ _ Hin'). assert (x' = x) as -> by congruence. congruence.
  - intros acc path Hno. apply Hsame. intros x op Hin Hop. destruct (op_in_coin _ _ _ _ _ _ Hop) as [coin Hc]. by apply (Hno x coin).
  - intros acc tag Hno. apply Hother. intros (path & x & coin & Hin & Hc & Ht). by apply (Hno path x coin).
Qed.
End Transaction.

Section Answers.
Context {S B : Type} `{!Storage S, !BalanceAccess B}.
Notation StateSession := (@StateSession S B).
Notation coins s := (st_coin_session s).
Notation master s := (ms_master_of_coin (coins s)).

(** What the session has recorded is what the host answers, for paths that are the bridges of coins. *)
Record coins_ok (self : @MasterOfCoinSession S B) : Prop := {
  co_known acc path x : (acc, (path, x)) ∈ recorded (ms_balances self) → get_balance (mc_access (ms_master_of_coin self)) acc path = Some x;
  co_bridge acc path x : (acc, (path, x)) ∈ recorded (ms_balances self) →
    ∃ coin, mc_native_mapper (ms_master_of_coin self) !! coin = Some (Some path) }.
(** Steps that leave the host and storage, and forget no coin *)
Record same_host (self self' : @MasterOfCoinSession S B) : Prop := {
  sh_access : mc_access (ms_master_of_coin self') = mc_access (ms_master_of_coin self);
  sh_remote : ms_remote self' = ms_remote self;
  sh_mapper : mc_native_mapper (ms_master_of_coin self) ⊆ mc_native_mapper (ms_master_of_coin self') }.
Lemma same_host_refl self : same_host self self.
Proof. done. Qed.
Lemma same_host_trans s1 s2 s3 : same_host s1 s2 → same_host s2 s3 → same_host s1 s3.
Proof. intros [H1 H2 H3] [H4 H5 H6]. constructor; [congruence..|by etrans]. Qed.

Lemma session_bridge_spec coin (self : @MasterOfCoinSession S B) : coins_ok self →
  let '(r, self') := session_bridge coin self in
  coins_ok self' ∧ same_host self self' ∧ ∀ path, r = Ok (Some path) → mc_native_mapper (ms_master_of_coin self') !! coin = Some (Some path).
Proof.
  intros Hok. unfold session_bridge, in_master, get_bridge. rewrite run_bind_eq. cbn [run_get].
  destruct (mc_native_mapper (ms_master_of_coin self) !! coin) as [path|] eqn:Hm.
  { cbn. destruct self as [m b r]. cbn in *. split_and!; [done..|]. by intros ? [= ->]. }
  rewrite run_bind_eq. cbn [run_lift]. destruct (ok_ _) as [[buff|]| | |]; [|by destruct self..].
  rewrite run_bind_eq. cbn [run_lift]. match goal with |- context [match ?r with Ok _ => _ | _ => _ end] => destruct r as [bridge| | |] end; [|by destruct self..].
  cbn. destruct Hok as [H1 H2]. split_and!.
  - constructor; cbn; [exact H1|]. intros acc path x Hin. destruct (H2 acc path x Hin) as [c Hc]. exists c.
    rewrite lookup_insert_ne; [done|]. congruence.
  - constructor; cbn; [done..|]. by apply insert_subseteq.
  - intros path [= ->]. apply lookup_insert_eq.
Qed.
Lemma record_balance_ok coin path acc x (self : @MasterOfCoinSession S B) : coins_ok self →
  mc_native_mapper (ms_master_of_coin self) !! coin = Some (Some path) →
  get_balance (mc_access (ms_master_of_coin self)) acc path = Some x → coins_ok (record_balance acc path x self).
Proof.
  intros [H1 H2] Hc Hg.
  assert (Hrec : ∀ a p y, (a, (p, y)) ∈ recorded (ms_balances (record_balance acc path x self)) →
    (a = acc ∧ p = path ∧ y = x) ∨ (a, (p, y)) ∈ recorded (ms_balances self)).
  { intros a p y (m & Ha & Hp)%elem_of_recorded. cbn in Ha. destruct (decide (a = acc)) as [->|Hne].
    - rewrite lookup_insert_eq in Ha. injection Ha as <-. destruct (decide (p = path)) as [->|Hpe].
      + rewrite lookup_insert_eq in Hp. injection Hp as <-. by left.
      + rewrite lookup_insert_ne in Hp by done. destruct (ms_balances self !! acc) as [m|] eqn:Hm; [|by apply (lookup_empty_Some (M := gmap (list u8)) p y) in Hp].
        right. apply elem_of_recorded. by exists m.
    - rewrite lookup_insert_ne in Ha by done. right. apply elem_of_recorded. by exists m. }
  constructor; cbn; intros a p y [(-> & -> & ->)|Hin]%Hrec; eauto.
Qed.

(** C32. A transaction's resolver only reads: storage and the balances of the host stay as
    they are, no coin is forgotten, and the balances that it has recorded are those of the
    host, for paths that are bridges of coins, whatever is asked and whatever it answers. *)
Theorem resolver_invariant (address : AccountAddress) (tag : StructTag) (self : StateSession) : coins_ok (coins self) →
  let self' := (session_get_resource address tag self).2 in
  coins_ok (coins self') ∧ same_host (coins self) (coins self') ∧ st_context self' = st_context self.
Proof.
  intros Hok. cbn.
  assert (Hbal : ∀ bridge coin (c : @MasterOfCoinSession S B), coins_ok c → mc_native_mapper (ms_master_of_coin c) !! coin = Some (Some bridge) →
    coins_ok (session_get_balance address bridge c).2 ∧ same_host c (session_get_balance address bridge c).2).
  { intros bridge coin c Hc Hm. unfold session_get_balance. rewrite run_bind_eq. cbn [run_get].
    destruct (get_balance _ address bridge) as [x|] eqn:Hg; [|by split]. rewrite run_bind_eq. cbn. split; [by eapply record_balance_ok|done]. }
  assert (Hbridge : ∀ (c : @MasterOfCoinSession S B), coins_ok c → let '(r, c') := bridge_of tag c in
    coins_ok c' ∧ same_host c c' ∧ ∀ path, r = Ok (Some path) → ∃ coin, mc_native_mapper (ms_master_of_coin c') !! coin = Some (Some path)).
  { intros c Hc. unfold bridge_of. destruct (coin_type _) as [coin|]; [|by split_and!].
    pose proof (session_bridge_spec coin c Hc) as Hs. destruct (session_bridge coin c) as [r c']. destruct Hs as (? & ? & H). split_and!; eauto. }
  assert (Hresolve : ∀ (c : @MasterOfCoinSession S B), coins_ok c → coins_ok (resolve address tag c).2 ∧ same_host c (resolve address tag c).2).
  { intros c Hc. unfold resolve. specialize (Hbridge c Hc). case_bool_decide as H1.
    - case_bool_decide as H2; [|done]. rewrite run_bind_eq. destruct (bridge_of tag c) as [r c']. destruct Hbridge as (Hc' & Hs & Hp).
      destruct r as [[bridge|]| | |]; [|done..]. destruct (Hp _ eq_refl) as [coin Hm]. destruct (Hbal bridge coin c' Hc' Hm) as [H3 H4].
      split; [done|by eapply same_host_trans].
    - destruct (_ && _); [|done]. rewrite run_bind_eq. destruct (bridge_of tag c) as [r c']. destruct Hbridge as (Hc' & Hs & _).
      destruct r as [[bridge|]| | |]; [|done..]. rewrite run_bind_eq. cbn [run_get]. rewrite run_bind_eq. cbn [run_lift].
      destruct (state_get_resource _ _ _) as [[info|]| | |]; [|done..]. destruct (get_currency_info _ _) as [patch|]; [|done].
      rewrite run_bind_eq. cbn [run_lift]. by destruct (apply_unwrap patch info). }
  unfold session_get_resource. rewrite run_bind_eq. case_bool_decide as Hcore; [|done].
  rewrite run_bind_eq. rewrite run_bind_eq. cbn [run_get run_lift]. destruct (from_context address tag self) as [[blob|]| | |]; try by split_and!.
  unfold in_coins. specialize (Hresolve (coins self) Hok). destruct (resolve address tag (coins self)) as [r c']. cbn [snd] in Hresolve.
  destruct Hresolve as [Hc Hs]. destruct r as [[blob|]| | |]; by split_and!.
Qed.

(** A balance resource whose coin has a bridge is answered by the host: its serialized
    amount, which the session then has recorded; storage is asked when the host has no such balance. *)
Theorem balance_answered (address : AccountAddress) (coin : StructTag) (path : list u8) (self : StateSession) :
  mc_native_mapper (master self) !! coin = Some (Some path) →
  session_get_resource address (balance_tag (struct_tag coin)) self =
  match get_balance (mc_access (master self)) address path with
  | Some x => (Ok (Some (to_le_bytes 8 x)), {| st_context := st_context self; st_coin_session := record_balance address path x (coins self) |})
  | None => (state_get_resource (ms_remote (coins self)) address (balance_tag (struct_tag coin)), self)
  end.
Proof.
  intros Hm. unfold session_get_resource. rewrite run_bind_eq. rewrite bool_decide_eq_true_2 by done. rewrite run_bind_eq, run_bind_eq. cbn [run_get run_lift].
  assert (from_context address (balance_tag (struct_tag coin)) self = Ok None) as ->.
  { unfold from_context. destruct (bool_decide _); [|done]. by destruct (st_context self). }
  unfold in_coins, resolve. rewrite !bool_decide_eq_true_2 by done. rewrite run_bind_eq.
  assert (bridge_of (balance_tag (struct_tag coin)) (coins self) = (Ok (Some path), coins self)) as ->.
  { unfold bridge_of. cbn [coin_type balance_tag stg_type_params as_struct_tag struct_tag]. destruct coin. cbn.
    unfold session_bridge, in_master, get_bridge. rewrite run_bind_eq. cbn [run_get]. cbn in Hm. rewrite Hm. by destruct (coins self). }
  unfold session_get_balance. rewrite run_bind_eq. cbn [run_get]. destruct (get_balance _ address path) as [x|] eqn:Hg.
  - rewrite run_bind_eq. cbn [run_modify]. cbn [run_lift]. done.
  - cbn. by destruct self.
Qed.
End Answers.

(** ** One transfer *)

Section Transfer.
Definition some_coin : StructTag := {| stg_address := CORE_CODE_ADDRESS; stg_module := ident_str "Coin"; stg_name := ident_str "Coin"; stg_type_params := [] |}.
Definition some_host : @MasterOfCoin (gmap (AccountAddress * list u8) u64) :=
  {| mc_access := {[ (ZERO, [9]) := 100 ]}; mc_native_mapper := {[ some_coin := Some [9] ]} |}.
Definition some_session : @MasterOfCoinSession (gmap (list u8) (list u8)) (gmap (AccountAddress * list u8) u64) :=
  {| ms_master_of_coin := some_host; ms_balances := {[ ZERO := {[ [9] := 100 ]} ]}; ms_remote := ∅ |}.
Definition some_changes : ChangeSet :=
  {[ ZERO := {| acs_modules := ∅; acs_resources := {[ balance_tag (struct_tag some_coin) := Some (to_le_bytes 8 150) ]} |} ]}.
Lemma some_recorded acc path x : (acc, (path, x)) ∈ recorded (ms_balances some_session) → acc = ZERO ∧ path = [9] ∧ x = 100.
Proof.
  intros (m & Ha & Hp)%elem_of_recorded. cbn in Ha. apply lookup_singleton_Some in Ha as [<- <-]. by apply lookup_singleton_Some in Hp as [<- <-].
Qed.
Lemma balances_follow_changes_witness : ∃ ops changes' (ledger' : Ledger), coin_finish map_to_list some_session some_changes = (Ok ops, changes') ∧
  settle ops {[ (ZERO, [9]) := 100 ]} = Some ledger' ∧ ledger' !! (ZERO, [9]) = Some 150.
Proof.
  destruct (balances_follow_changes map_to_list some_session some_changes) as (ops & changes' & Hrun & Hm).
  - done.
  - intros acc path x (-> & -> & ->)%some_recorded. by vm_compute.
  - intros acc path tag buff Hc Hb. unfold resources_of, some_changes in Hb. destruct (decide (acc = ZERO)) as [->|Ha].
    + rewrite lookup_singleton_eq in Hb. cbn [acs_resources] in Hb. apply lookup_singleton_Some in Hb as [_ [= <-]]. exists 150. split; [by vm_compute|done].
    + rewrite lookup_singleton_ne in Hb by done. by rewrite lookup_empty in Hb.
  - destruct (Hm {[ (ZERO, [9]) := 100 ]}) as (ledger' & [Hset Ha _ _ _ _ _]).
    { intros acc path x (-> & -> & ->)%some_recorded. apply lookup_singleton_eq. }
    exists ops, changes', ledger'. split_and!; [done..|]. destruct (Ha ZERO [9] 100 (struct_tag some_coin)) as (v & Hv & _ & Hg).
    + split; [apply elem_of_recorded; exists {[ [9] := 100 ]}; split; by rewrite ?lookup_singleton_eq|by vm_compute].
    + etrans; [exact Hg|]. f_equal.
      unfold changed_to, resources_of, some_changes in Hv. rewrite lookup_singleton_eq in Hv. cbn [acs_resources] in Hv. rewrite lookup_singleton_eq in Hv.
      destruct Hv as [Hv He]. pose proof (deserialize_balance_spec v Hv) as H1. rewrite <- He, (deserialize_balance_spec 150) in H1; [by injection H1|by vm_compute].
Defined.
Lemma resolver_invariant_witness : coins_ok (st_coin_session (session_get_resource ZERO (balance_tag (struct_tag some_coin))
  {| st_context := None; st_coin_session := some_session |}).2).
Proof.
  apply (resolver_invariant ZERO (balance_tag (struct_tag some_coin)) {| st_context := None; st_coin_session := some_session |}).
  constructor; intros acc path x (-> & -> & ->)%some_recorded; [by vm_compute|exists some_coin; by vm_compute].
Defined.
Lemma balance_answered_witness : (session_get_resource ZERO (balance_tag (struct_tag some_coin))
  (state_session (∅ : gmap (list u8) (list u8)) None some_host)).1 = Ok (Some (to_le_bytes 8 100)).
Proof. rewrite (balance_answered ZERO some_coin [9]); [by vm_compute|by vm_compute]. Defined.

Definition other_coin : StructTag := {| stg_address := CORE_CODE_ADDRESS; stg_module := ident_str "Coin2"; stg_name := ident_str "Coin2"; stg_type_params := [] |}.
Definition shared_session : @MasterOfCoinSession (gmap (list u8) (list u8)) (gmap (AccountAddress * list u8) u64) :=
  {| ms_master_of_coin := {| mc_access := {[ (ZERO, [9]) := 100 ]}; mc_native_mapper := {[ some_coin := Some [9]; other_coin := Some [9] ]} |};
     ms_balances := {[ ZERO := {[ [9] := 100 ]} ]}; ms_remote := ∅ |}.
Definition payment (coin : StructTag) : ChangeSet :=
  {[ ZERO := {| acs_modules := ∅; acs_resources := {[ balance_tag (struct_tag coin) := Some (to_le_bytes 8 40) ]} |} ]}.

(** Two coins with one bridge: the host's balance is answered for both, but at the
    end the bridge leads to one of them, and a payment in the other one moves no balance
    of the host; its resource stays in the change set. *)
Example shared_bridge_payment_lost :
  ∃ coin, (session_get_resource ZERO (balance_tag (struct_tag coin)) {| st_context := None; st_coin_session := shared_session |}).1 = Ok (Some (to_le_bytes 8 100)) ∧
    (coin_finish map_to_list shared_session (payment coin)).1 = Ok [] ∧
    resources_of (coin_finish map_to_list shared_session (payment coin)).2 ZERO !! balance_tag (struct_tag coin) = Some (Some (to_le_bytes 8 40)).
Proof. exists other_coin. by vm_compute. Qed.
End Transfer.
