(* ===== verification/Natives.v ===== *)
(** * Natives: the native functions of the standard library

    Models [language/move-stdlib/src/natives] with the [NativeContext] of
    [language/move-vm/runtime/src/native_functions.rs], and what the signature functions
    use of [crypto/crypto/src/ed25519.rs].  A function pointer is the name of its
    function.  A native function has its arguments as a state, from which it pops them,
    last first; what is left is dropped at its end.  Libraries that the functions call
    are classes: hashes, curve operations, and 256-bit integers with the laws of their
    documentation.

    The theorems: every function of the table is found under its name; those on vectors
    do what the instructions on vectors do, and report errors as aborts; 256-bit
    arithmetic is exact or an error; and what serialization and events give. *)

From Stdlib Require Import String.
From S2P Require Import Prelude CoreTypes VmStatus FileFormat Errors BinaryCommon Uleb Integers RuntimeTypes Heap Values Vectors HeapCounts ValueTrees Layouts Slots References Bcs MoveValues MoveValueCodec ValueCodec Gas LoadedCode Machine Effects TypeTags DataCache Balances.

(** ** External libraries *)

(** The crates sha2 and sha3 *)
Class Hashes : Type := { sha2_digest : list u8 → list u8; sha3_digest : list u8 → list u8 }.

(** The crate ed25519_dalek *)
Class Ed25519 (PK Sig : Type) : Type := {
  dalek_public_key : list u8 → option PK;
  dalek_signature : list u8 → option Sig;
  dalek_signature_bytes : Sig → list u8;
  verify_strict : PK → list u8 → Sig → bool }.

(** The type that [construct_uint!] of the crate uint makes; [as_u64] and [as_u128] panic
    when the value does not fit, and division by zero does. *)
Class U256 (U : Type) : Type := {
  u256_from : N → U;
  u256_from_little_endian : list u8 → U;
  u256_to_little_endian : U → list u8;
  u256_gt : U → U → bool;
  u256_is_zero : U → bool;
  u256_as_u64 : U → option u64;
  u256_as_u128 : U → option u128;
  u256_overflowing_add : U → U → U * bool;
  u256_overflowing_sub : U → U → U * bool;
  u256_overflowing_mul : U → U → U * bool;
  u256_div : U → U → option U }.
(** Its documented behaviour, by the value [u256_val] *)
Class U256Laws (U : Type) `{!U256 U} (u256_val : U → N) : Prop := {
  u256_bound x : u256_val x < 2 ^ 256;
  u256_from_val n : n < 2 ^ 128 → u256_val (u256_from n) = n;
  u256_le_val bytes : bytes_ok bytes → length bytes = 32%nat → u256_val (u256_from_little_endian bytes) = from_le_bytes bytes;
  u256_bytes x : u256_to_little_endian x = to_le_bytes 32 (u256_val x);
  u256_gt_val x y : u256_gt x y = (u256_val y <? u256_val x);
  u256_zero_val x : u256_is_zero x = (u256_val x =? 0);
  u256_as_u64_val x : u256_val x <= u64_MAX → u256_as_u64 x = Some (u256_val x);
  u256_as_u128_val x : u256_val x <= u128_MAX → u256_as_u128 x = Some (u256_val x);
  u256_add_val x y : (u256_overflowing_add x y).2 = (2 ^ 256 <=? u256_val x + u256_val y) ∧
    u256_val (u256_overflowing_add x y).1 = wrap 256 (u256_val x + u256_val y);
  u256_sub_val x y : (u256_overflowing_sub x y).2 = (u256_val x <? u256_val y) ∧
    u256_val (u256_overflowing_sub x y).1 = wrap 256 (2 ^ 256 + u256_val x - u256_val y);
  u256_mul_val x y : (u256_overflowing_mul x y).2 = (2 ^ 256 <=? u256_val x * u256_val y) ∧
    u256_val (u256_overflowing_mul x y).1 = wrap 256 (u256_val x * u256_val y);
  u256_div_val x y : u256_val y ≠ 0 → ∃ q, u256_div x y = Some q ∧ u256_val q = u256_val x / u256_val y }.

(** Numbers that wrap implement it. *)
#[export] Instance wrapping_U256 : U256 N := {|
  u256_from n := n;
  u256_from_little_endian bytes := wrap 256 (from_le_bytes bytes);
  u256_to_little_endian x := to_le_bytes 32 (wrap 256 x);
  u256_gt x y := wrap 256 y <? wrap 256 x;
  u256_is_zero x := wrap 256 x =? 0;
  u256_as_u64 x := if wrap 256 x <=? u64_MAX then Some (wrap 256 x) else None;
  u256_as_u128 x := if wrap 256 x <=? u128_MAX then Some (wrap 256 x) else None;
  u256_overflowing_add x y := (wrap 256 x + wrap 256 y, 2 ^ 256 <=? wrap 256 x + wrap 256 y);
  u256_overflowing_sub x y := (2 ^ 256 + wrap 256 x - wrap 256 y, wrap 256 x <? wrap 256 y);
  u256_overflowing_mul x y := (wrap 256 x * wrap 256 y, 2 ^ 256 <=? wrap 256 x * wrap 256 y);
  u256_div x y := if wrap 256 y =? 0 then None else Some (wrap 256 x / wrap 256 y) |}.

(** ** [ed25519.rs] *)

(** The order of the curve group, little endian *)
Definition ed25519_L : list u8 :=
  [0xed; 0xd3; 0xf5; 0x5c; 0x1a; 0x63; 0x12; 0x58; 0xd6; 0x9c; 0xf7; 0xa2; 0xde; 0xf9; 0xde; 0x14;
   0; 0; 0; 0; 0; 0; 0; 0; 0; 0; 0; 0; 0; 0; 0; 0x10].
(** [check_s_lt_l]: from the last byte to the first *)
Fixpoint bytes_below (s l : list u8) : bool :=
  match s, l with
  | x :: s, y :: l => if x <? y then true else if y <? x then false else bytes_below s l
  | _, _ => false
  end.
Definition check_s_lt_l (s : list u8) : bool := bytes_below (rev s) (rev ed25519_L).
Definition ED25519_SIGNATURE_LENGTH : N := 64.
Definition ED25519_PUBLIC_KEY_LENGTH : N := 32.
Definition check_malleability (bytes : list u8) : bool :=
  (len bytes =? ED25519_SIGNATURE_LENGTH) && check_s_lt_l (drop 32 bytes).

(** ** The table *)

Inductive NativeFunction : Set :=
| FnToBytes | FnWriteToEventStore | FnSha2_256 | FnSha3_256 | FnBorrowAddress
| FnLength | FnEmpty | FnBorrow | FnPushBack | FnPop | FnDestroyEmpty | FnSwap
| FnPrint | FnPrintStackTrace
| FnFromU8 | FnFromU64 | FnFromU128 | FnAsU8 | FnAsU64 | FnAsU128 | FnAdd | FnSub | FnMul | FnDiv
| FnCreateSigner | FnDestroySigner | FnPublicKeyValidation | FnSignatureVerification | FnTypeInfo.
Definition NATIVES : list (string * string * NativeFunction) := [
  ("BCS", "to_bytes", FnToBytes);
  ("Event", "write_to_event_store", FnWriteToEventStore);
  ("Hash", "sha2_256", FnSha2_256);
  ("Hash", "sha3_256", FnSha3_256);
  ("Signer", "borrow_address", FnBorrowAddress);
  ("Vector", "length", FnLength);
  ("Vector", "empty", FnEmpty);
  ("Vector", "borrow", FnBorrow);
  ("Vector", "borrow_mut", FnBorrow);
  ("Vector", "push_back", FnPushBack);
  ("Vector", "pop_back", FnPop);
  ("Vector", "destroy_empty", FnDestroyEmpty);
  ("Vector", "swap", FnSwap);
  ("Debug", "print", FnPrint);
  ("Debug", "print_stack_trace", FnPrintStackTrace);
  ("U256", "from_u8", FnFromU8);
  ("U256", "from_u64", FnFromU64);
  ("U256", "from_u128", FnFromU128);
  ("U256", "as_u8", FnAsU8);
  ("U256", "as_u64", FnAsU64);
  ("U256", "as_u128", FnAsU128);
  ("U256", "add", FnAdd);
  ("U256", "sub", FnSub);
  ("U256", "mul", FnMul);
  ("U256", "div", FnDiv);
  ("PontAccount", "create_signer", FnCreateSigner);
  ("PontAccount", "destroy_signer", FnDestroySigner);
  ("Signature", "ed25519_validate_pubkey", FnPublicKeyValidation);
  ("Signature", "ed25519_verify", FnSignatureVerification);
  ("Reflect", "type_info", FnTypeInfo)]%string.
Definition all_natives (move_std_addr : AccountAddress) : list (AccountAddress * Identifier * Identifier * NativeFunction) :=
  (λ '(module_name, func_name, func), (move_std_addr, ident_str module_name, ident_str func_name, func)) <$> NATIVES.

(** ** [NativeContext] and its functions *)

Definition ONE_GAS_UNIT : InternalGasUnits := 1.
Definition INVALID_TYPE_PARAM : u64 := 1.
Definition NFE_BCS_SERIALIZATION_FAILURE : u64 := 0x1C5.

Section Natives.
Context {S U PK Sig : Type} `{!MoveResolver S, !Hashes, !Ed25519 PK Sig, !U256 U} (debug overflow_checks : bool).
Notation DataM := (Run (Heap * @TransactionDataCache S) PartialVMError).
(** The arguments that are left, memory and the data store *)
Notation NativeM := (Run (list ValueImpl * (Heap * @TransactionDataCache S)) PartialVMError).

Definition in_store {A} (m : DataM A) : NativeM A := λ s, let '(r, t) := m s.2 in (r, (s.1, t)).
Definition in_memory {A} (m : HeapM A) : NativeM A := in_store (in_heap m).

(** [args.pop_back()] and the macro [pop_arg] *)
Definition pop_back : NativeM (option ValueImpl) := λ s,
  match last s.1 with Some v => (Ok (Some v), (removelast s.1, s.2)) | None => (Ok None, s) end.
Definition pop_arg {T} (cast : ValueImpl → HeapM T) : NativeM T :=
  v ← pop_back;
  match v with Some v => in_memory (cast v) | None => run_lift (Err (PartialVMError_new UNKNOWN_INVARIANT_VIOLATION_ERROR)) end.
(** [args.pop_back().unwrap()] *)
Definition pop_unwrap : NativeM ValueImpl := v ← pop_back; run_lift (unwrap v).
(** The assertions on the numbers of type arguments and of arguments *)
Definition assert_arity (ty_args : list RuntimeType.Type_) (types arguments : N) : NativeM unit :=
  _ ← run_lift (debug_assert debug (len ty_args =? types));
  args ← run_get fst;
  run_lift (debug_assert debug (len args =? arguments)).

Section Context.
Context (table : CostTable) (resolver : Resolver NativeFunction).
Notation cache := (l_module_cache (r_loader resolver)).
Definition gas (key : NativeCostIndex) (size : N) : NativeM InternalGasUnits := run_lift (native_gas overflow_checks table key size).

(** [save_event], [type_to_type_layout], [type_to_type_tag] *)
Definition invariant_violated (e : PartialVMError) : bool :=
  match status_type (pe_major_status e) with InvariantViolation => true | _ => false end.
Definition save_event (guid : list u8) (seq_num : u64) (ty : RuntimeType.Type_) (val : ValueImpl) : NativeM bool :=
  r ← run_try (in_store (DataCache.emit_event cache guid seq_num ty val));
  match r with
  | Err e => if invariant_violated e then run_lift (Err e) else _ ← in_memory (drop_value val); mret false
  | _ => mret true
  end.
Definition native_type_to_type_layout (ty : RuntimeType.Type_) : NativeM (option MoveTypeLayout) :=
  r ← run_try (in_store (in_types (type_to_type_layout cache ty)));
  match r with
  | Ok ty_layout => mret (Some ty_layout)
  | Err e => if invariant_violated e then run_lift (Err e) else mret None
  | _ => mret None
  end.
Definition native_type_to_type_tag (ty : RuntimeType.Type_) : NativeM TypeTag := in_store (in_types (type_to_type_tag cache ty)).

(** *** [vector.rs] *)

(** An operation on a reference, which goes out of scope at the end *)
Definition on_vector_ref {A} (finish : InternalGasUnits → result PartialVMError A → result PartialVMError NativeResult)
    (cost : InternalGasUnits) (r : ContainerRef) (op : HeapM A) : NativeM NativeResult :=
  res ← run_try (in_memory op);
  _ ← in_memory (drop_ref r);
  run_lift (finish cost res).
Definition native_empty (ty_args : list RuntimeType.Type_) : NativeM NativeResult :=
  _ ← assert_arity ty_args 1 0;
  cost ← gas NativeCostIndex.EMPTY 1;
  ty ← run_lift (unwrap (at_ ty_args 0));
  res ← run_try (in_memory (vector_empty ty));
  run_lift (map_partial_vm_result_one cost res).
Definition native_length (ty_args : list RuntimeType.Type_) : NativeM NativeResult :=
  _ ← assert_arity ty_args 1 1;
  r ← pop_arg value_as_container_ref;
  cost ← gas NativeCostIndex.LENGTH 1;
  ty ← run_lift (unwrap (at_ ty_args 0));
  on_vector_ref map_partial_vm_result_one cost r (vector_len r ty).
Definition native_push_back (ty_args : list RuntimeType.Type_) : NativeM NativeResult :=
  _ ← assert_arity ty_args 1 2;
  e ← pop_unwrap;
  r ← pop_arg value_as_container_ref;
  size ← in_memory (value_size overflow_checks e);
  cost ← gas NativeCostIndex.PUSH_BACK size;
  ty ← run_lift (unwrap (at_ ty_args 0));
  on_vector_ref map_partial_vm_result_empty cost r (Vectors.push_back r e ty).
Definition native_borrow (ty_args : list RuntimeType.Type_) : NativeM NativeResult :=
  _ ← assert_arity ty_args 1 2;
  idx ← pop_arg (as_prim prim_u64);
  r ← pop_arg value_as_container_ref;
  cost ← gas NativeCostIndex.BORROW 1;
  ty ← run_lift (unwrap (at_ ty_args 0));
  on_vector_ref map_partial_vm_result_one cost r (vector_borrow_elem r idx ty).
Definition native_pop (ty_args : list RuntimeType.Type_) : NativeM NativeResult :=
  _ ← assert_arity ty_args 1 1;
  r ← pop_arg value_as_container_ref;
  cost ← gas NativeCostIndex.POP_BACK 1;
  ty ← run_lift (unwrap (at_ ty_args 0));
  on_vector_ref map_partial_vm_result_one cost r (Vectors.pop r ty).
Definition native_destroy_empty (ty_args : list RuntimeType.Type_) : NativeM NativeResult :=
  _ ← assert_arity ty_args 1 1;
  v ← pop_arg value_as_container;
  cost ← gas NativeCostIndex.DESTROY_EMPTY 1;
  ty ← run_lift (unwrap (at_ ty_args 0));
  res ← run_try (in_memory (destroy_empty v ty));
  run_lift (map_partial_vm_result_empty cost res).
Definition native_swap (ty_args : list RuntimeType.Type_) : NativeM NativeResult :=
  _ ← assert_arity ty_args 1 3;
  idx2 ← pop_arg (as_prim prim_u64);
  idx1 ← pop_arg (as_prim prim_u64);
  r ← pop_arg value_as_container_ref;
  cost ← gas NativeCostIndex.SWAP 1;
  ty ← run_lift (unwrap (at_ ty_args 0));
  on_vector_ref map_partial_vm_result_empty cost r (swap r idx1 idx2 ty).

(** *** [account.rs], [signer.rs], [event.rs], [reflect.rs], [bcs.rs] *)

Definition native_create_signer (ty_args : list RuntimeType.Type_) : NativeM NativeResult :=
  _ ← assert_arity ty_args 0 1;
  address ← pop_arg (as_prim prim_address);
  cost ← gas NativeCostIndex.CREATE_SIGNER 0;
  signer ← in_memory (value_signer address);
  mret (NativeResult_ok cost [signer]).
Definition native_destroy_signer (ty_args : list RuntimeType.Type_) : NativeM NativeResult :=
  _ ← assert_arity ty_args 0 1;
  cost ← gas NativeCostIndex.DESTROY_SIGNER 0;
  mret (NativeResult_ok cost []).
Definition native_borrow_address (ty_args : list RuntimeType.Type_) : NativeM NativeResult :=
  _ ← assert_arity ty_args 0 1;
  signer_reference ← pop_arg value_as_container_ref;
  cost ← gas NativeCostIndex.SIGNER_BORROW 1;
  value ← in_memory (borrow_signer signer_reference);
  _ ← in_memory (drop_ref signer_reference);
  mret (NativeResult_ok cost [value]).
Definition write_to_event_store (ty_args : list RuntimeType.Type_) : NativeM NativeResult :=
  _ ← assert_arity ty_args 1 3;
  ty ← run_lift (unwrap (last ty_args));
  msg ← pop_unwrap;
  seq_num ← pop_arg (as_prim prim_u64);
  guid ← pop_arg value_as_bytes;
  size ← in_memory (value_size overflow_checks msg);
  cost ← gas NativeCostIndex.EMIT_EVENT size;
  saved ← save_event guid seq_num ty msg;
  mret (if saved : bool then NativeResult_ok cost [] else NativeResult_err cost 0).
Definition type_info (ty_args : list RuntimeType.Type_) : NativeM NativeResult :=
  _ ← assert_arity ty_args 1 0;
  cost ← gas NativeCostIndex.TYPE_INFO 0;
  ty ← run_lift (unwrap (at_ ty_args 0));
  type_tag ← native_type_to_type_tag ty;
  match as_struct_tag type_tag with
  | Some struct_tag =>
      module ← in_memory (vector_u8 (stg_module struct_tag));
      name ← in_memory (vector_u8 (stg_name struct_tag));
      info ← in_memory (struct_ (struct_pack [VAddress (stg_address struct_tag); module; name]));
      mret (NativeResult_ok cost [info])
  | None => mret (NativeResult_err cost INVALID_TYPE_PARAM)
  end.
Definition native_to_bytes (ty_args : list RuntimeType.Type_) : NativeM NativeResult :=
  _ ← assert_arity ty_args 1 1;
  ref_to_val ← pop_arg value_as_reference;
  arg_type ← run_lift (unwrap (last ty_args));
  layout ← native_type_to_type_layout arg_type;
  serialized_value ← match layout with
    | None => _ ← in_memory (drop_pointers (match ref_to_val with RContainerRef r => ref_pointers r | RIndexedRef r => ref_pointers (ir_container_ref r) end)); mret None
    | Some layout =>
        val ← in_memory (read_ref ref_to_val);
        bytes ← in_memory (value_simple_serialize val layout);
        _ ← in_memory (drop_value val);
        mret bytes
    end;
  match serialized_value with
  | None => cost ← gas NativeCostIndex.BCS_TO_BYTES 1; mret (NativeResult_err cost NFE_BCS_SERIALIZATION_FAILURE)
  | Some serialized_value =>
      cost ← gas NativeCostIndex.BCS_TO_BYTES (len serialized_value);
      bytes ← in_memory (vector_u8 serialized_value);
      mret (NativeResult_ok cost [bytes])
  end.

(** *** [debug.rs], without the feature [testing] *)

Definition native_print (ty_args : list RuntimeType.Type_) : NativeM NativeResult :=
  _ ← assert_arity ty_args 1 1; mret (NativeResult_ok ONE_GAS_UNIT []).
Definition native_print_stack_trace (ty_args : list RuntimeType.Type_) : NativeM NativeResult :=
  _ ← assert_arity ty_args 0 0; mret (NativeResult_ok ONE_GAS_UNIT []).

(** *** [hash.rs] and [signature.rs] *)

Definition native_hash (digest : list u8 → list u8) (key : NativeCostIndex) (ty_args : list RuntimeType.Type_) : NativeM NativeResult :=
  _ ← assert_arity ty_args 0 1;
  hash_arg ← pop_arg value_as_bytes;
  cost ← gas key (len hash_arg);
  hash_vec ← in_memory (vector_u8 (digest hash_arg));
  mret (NativeResult_ok cost [hash_vec]).
Definition native_sha2_256 : list RuntimeType.Type_ → NativeM NativeResult := native_hash sha2_digest NativeCostIndex.SHA2_256.
Definition native_sha3_256 : list RuntimeType.Type_ → NativeM NativeResult := native_hash sha3_digest NativeCostIndex.SHA3_256.

(** [TryFrom] for [Ed25519PublicKey] and [Ed25519Signature], and [verify_arbitrary_msg] *)
Definition public_key_try_from (bytes : list u8) : option PK :=
  if len bytes =? ED25519_PUBLIC_KEY_LENGTH then dalek_public_key bytes else None.
Definition signature_try_from (bytes : list u8) : option Sig :=
  if check_malleability bytes then dalek_signature bytes else None.
Definition verify_arbitrary_msg (self : Sig) (message : list u8) (public_key : PK) : bool :=
  check_malleability (dalek_signature_bytes self) && verify_strict public_key message self.
Definition native_ed25519_publickey_validation (ty_args : list RuntimeType.Type_) : NativeM NativeResult :=
  _ ← assert_arity ty_args 0 1;
  key_bytes ← pop_arg value_as_bytes;
  cost ← gas NativeCostIndex.ED25519_VALIDATE_KEY (len key_bytes);
  mret (NativeResult_ok cost [VBool (match public_key_try_from key_bytes with Some _ => true | None => false end)]).
Definition native_ed25519_signature_verification (ty_args : list RuntimeType.Type_) : NativeM NativeResult :=
  _ ← assert_arity ty_args 0 3;
  msg ← pop_arg value_as_bytes;
  pubkey ← pop_arg value_as_bytes;
  signature ← pop_arg value_as_bytes;
  cost ← gas NativeCostIndex.ED25519_VERIFY (len msg);
  mret (NativeResult_ok cost [VBool
    match signature_try_from signature, public_key_try_from pubkey with
    | Some sig, Some pk => verify_arbitrary_msg sig msg pk
    | _, _ => false
    end]).

(** *** [u256.rs] *)

Definition type_mismatch {A} (sub_status : u64) : result PartialVMError A :=
  match with_sub_status debug (PartialVMError_new TYPE_MISMATCH) sub_status with Ok e => Err e | _ => Panic end.
Definition unwrap_u256 (u256 : list ValueImpl) : NativeM U :=
  fields ← in_memory (struct_unpack u256);
  match fields with
  | [] => run_lift (type_mismatch 0)
  | field :: rest =>
      _ ← in_memory (drop_pointers (rest ≫= pointers));
      value ← in_memory (value_as_bytes field);
      if negb (len value =? 32) then run_lift (type_mismatch 1) else mret (u256_from_little_endian value)
  end.
Definition wrap_u256 (val : U) : NativeM ValueImpl :=
  bytes ← in_memory (vector_u8 (u256_to_little_endian val));
  in_memory (struct_ (struct_pack [bytes])).
Definition u256_from_integer {T} (p : Prim T) (value : T → N) (key : NativeCostIndex) (ty_args : list RuntimeType.Type_) : NativeM NativeResult :=
  _ ← assert_arity ty_args 0 1;
  x ← pop_arg (as_prim p);
  cost ← gas key 0;
  v ← wrap_u256 (u256_from (value x));
  mret (NativeResult_ok cost [v]).
Definition u256_from_u8 := u256_from_integer prim_u8 id NativeCostIndex.U256_FROM_U8.
Definition u256_from_u64 := u256_from_integer prim_u64 id NativeCostIndex.U256_FROM_U64.
Definition u256_from_u128 := u256_from_integer prim_u128 id NativeCostIndex.U256_FROM_U128.
Definition arithmetic_error {A} : NativeM A := run_lift (Err (PartialVMError_new ARITHMETIC_ERROR)).
Definition u256_as_integer (max : N) (convert : U → option N) (value : N → ValueImpl) (key : NativeCostIndex) (ty_args : list RuntimeType.Type_)
  : NativeM NativeResult :=
  _ ← assert_arity ty_args 0 1;
  fields ← pop_arg value_as_struct;
  u256 ← unwrap_u256 fields;
  x ← (if u256_gt u256 (u256_from max) then arithmetic_error else run_lift (unwrap (convert u256)));
  cost ← gas key 0;
  mret (NativeResult_ok cost [value x]).
Definition u256_as_u8 := u256_as_integer u8_MAX (λ u256, wrap 8 <$> u256_as_u64 u256) VU8 NativeCostIndex.U256_AS_U8.
Definition native_u256_as_u64 := u256_as_integer u64_MAX u256_as_u64 VU64 NativeCostIndex.U256_AS_U64.
Definition native_u256_as_u128 := u256_as_integer u128_MAX u256_as_u128 VU128 NativeCostIndex.U256_AS_U128.
Definition u256_binary (op : U → U → NativeM U) (key : NativeCostIndex) (ty_args : list RuntimeType.Type_) : NativeM NativeResult :=
  _ ← assert_arity ty_args 0 2;
  r_fields ← pop_arg value_as_struct;
  r ← unwrap_u256 r_fields;
  l_fields ← pop_arg value_as_struct;
  l ← unwrap_u256 l_fields;
  res ← op l r;
  cost ← gas key 0;
  v ← wrap_u256 res;
  mret (NativeResult_ok cost [v]).
Definition checked (op : U → U → U * bool) (l r : U) : NativeM U :=
  let '(res, overflowed) := op l r in if overflowed : bool then arithmetic_error else mret res.
Definition u256_add := u256_binary (checked u256_overflowing_add) NativeCostIndex.U256_ADD.
Definition u256_sub := u256_binary (checked u256_overflowing_sub) NativeCostIndex.U256_SUB.
Definition u256_mul := u256_binary (checked u256_overflowing_mul) NativeCostIndex.U256_MUL.
Definition native_u256_div :=
  u256_binary (λ l r, if u256_is_zero r then arithmetic_error else run_lift (unwrap (u256_div l r))) NativeCostIndex.U256_DIV.

(** *** Calls *)

Definition call_function (function : NativeFunction) : list RuntimeType.Type_ → NativeM NativeResult :=
  match function with
  | FnToBytes => native_to_bytes
  | FnWriteToEventStore => write_to_event_store
  | FnSha2_256 => native_sha2_256
  | FnSha3_256 => native_sha3_256
  | FnBorrowAddress => native_borrow_address
  | FnLength => native_length
  | FnEmpty => native_empty
  | FnBorrow => native_borrow
  | FnPushBack => native_push_back
  | FnPop => native_pop
  | FnDestroyEmpty => native_destroy_empty
  | FnSwap => native_swap
  | FnPrint => native_print
  | FnPrintStackTrace => native_print_stack_trace
  | FnFromU8 => u256_from_u8
  | FnFromU64 => u256_from_u64
  | FnFromU128 => u256_from_u128
  | FnAsU8 => u256_as_u8
  | FnAsU64 => native_u256_as_u64
  | FnAsU128 => native_u256_as_u128
  | FnAdd => u256_add
  | FnSub => u256_sub
  | FnMul => u256_mul
  | FnDiv => native_u256_div
  | FnCreateSigner => native_create_signer
  | FnDestroySigner => native_destroy_signer
  | FnPublicKeyValidation => native_ed25519_publickey_validation
  | FnSignatureVerification => native_ed25519_signature_verification
  | FnTypeInfo => type_info
  end.
(** A call, at whose end the arguments that are left go out of scope *)
Definition call_native_function (function : NativeFunction) (ty_args : list RuntimeType.Type_) : NativeM NativeResult :=
  res ← call_function function ty_args;
  rest ← run_get fst;
  _ ← in_memory (drop_pointers (rest ≫= pointers));
  mret res.
End Context.

#[export] Instance std_natives : NativeCalls (@TransactionDataCache S) NativeFunction :=
  λ function table resolver ty_args args s,
    let '(r, (_, s)) := call_native_function table resolver function ty_args (args, s) in (r, s).
End Natives.

(** ** The table and its registration *)

Lemma add_native_spec {Native} (map : NativeFunctions Native) a m f fn : LoadedCode.resolve map a m f = None →
  ∃ map', add_native map (a, m, f, fn) = Ok map' ∧
    ∀ a' m' f', LoadedCode.resolve map' a' m' f' = if decide ((a', m', f') = (a, m, f)) then Some fn else LoadedCode.resolve map a' m' f'.
Proof.
  unfold LoadedCode.resolve, add_native, NativeFunctions in *. intros Hr. assert (default ∅ (default ∅ (map !! a) !! m) !! f = None) as ->.
  { destruct (map !! a) as [ms|]; cbn in *; [|by rewrite lookup_empty].
    destruct (ms !! m) as [fs|]; cbn in *; [done|by rewrite lookup_empty]. }
  eexists. split; [reflexivity|]. intros a' m' f'. destruct (decide (a' = a)) as [->|Ha].
  - rewrite lookup_insert_eq. cbn. destruct (decide (m' = m)) as [->|Hm].
    + rewrite lookup_insert_eq. cbn. destruct (decide (f' = f)) as [->|Hf].
      * rewrite lookup_insert_eq. by rewrite decide_True.
      * rewrite lookup_insert_ne by done. rewrite decide_False by congruence.
        destruct (map !! a) as [ms|]; cbn; [destruct (ms !! m); cbn; by rewrite ?lookup_empty|by rewrite !lookup_empty].
    + rewrite lookup_insert_ne by done. rewrite decide_False by congruence. destruct (map !! a); cbn; by rewrite ?lookup_empty.
  - rewrite lookup_insert_ne by done. rewrite decide_False by congruence. done.
Qed.
Lemma NativeFunctions_new_spec {Native} (natives : list (AccountAddress * Identifier * Identifier * Native)) : NoDup natives.*1 →
  ∃ map, NativeFunctions_new natives = Ok map ∧ ∀ a m f fn, LoadedCode.resolve map a m f = Some fn ↔ (a, m, f, fn) ∈ natives.
Proof.
  intros Hnd. unfold NativeFunctions_new.
  assert (∀ map0, (∀ p, p ∈ natives.*1 → LoadedCode.resolve map0 p.1.1 p.1.2 p.2 = None) → ∃ map, try_fold add_native natives map0 = Ok map ∧
    ∀ a m f fn, LoadedCode.resolve map a m f = Some fn ↔ (a, m, f, fn) ∈ natives ∨ LoadedCode.resolve map0 a m f = Some fn) as H.
  { induction natives as [|[[[a m] f] fn] natives IH]; intros map0 Hnew.
    { exists map0. split; [done|]. intros. split; [by right|]. intros [Hin|]; [by apply elem_of_nil in Hin|done]. }
    apply NoDup_cons in Hnd as [Hni Hnd]. cbn [fst] in Hni. destruct (add_native_spec map0 a m f fn) as (map1 & Hadd & H1); [apply (Hnew (a, m, f)); left|].
    destruct (IH Hnd map1) as (map & Hrun & Hmap).
    { intros [[a' m'] f'] Hin. cbn. rewrite H1. rewrite decide_False by (intros [= -> -> ->]; done). apply (Hnew (a', m', f')). by right. }
    exists map. cbn [try_fold]. rewrite Hadd. split; [exact Hrun|]. intros a' m' f' fn'. rewrite Hmap, H1, elem_of_cons. case_decide as He.
    - injection He as -> -> ->. split; [intros [Hin|[= ->]]; [by left; right|by left; left]|]. intros [[Hin|Hin]|Hin].
      + right. congruence.
      + by left.
      + pose proof (Hnew (a, m, f) ltac:(left)) as Hn. cbn in Hn. congruence.
    - split; [intros [Hin|Hin]; [by left; right|by right]|]. intros [[Hin|Hin]|Hin]; [congruence|by left|by right]. }
  destruct (H ∅) as (map & Hrun & Hmap). { intros [[a m] f] _. unfold LoadedCode.resolve, NativeFunctions. by rewrite lookup_empty. }
  exists map. split; [exact Hrun|]. intros a m f fn. rewrite Hmap. split; [|by left]. intros [|Hr]; [done|]. unfold LoadedCode.resolve, NativeFunctions in Hr. by rewrite lookup_empty in Hr.
Qed.

(** The table of the standard library has no name twice: its registration succeeds at
    every address, and then a native function is found exactly under the names that the
    table gives it, at this address. *)
Theorem all_natives_found (addr : AccountAddress) :
  ∃ natives, NativeFunctions_new (all_natives addr) = Ok natives ∧
    ∀ a m f fn, LoadedCode.resolve natives a m f = Some fn ↔ (a, m, f, fn) ∈ all_natives addr.
Proof.
  apply NativeFunctions_new_spec. unfold all_natives. rewrite <- list_fmap_compose.
  assert (NoDup ((λ p : string * string * NativeFunction, (ident_str p.1.1, ident_str p.1.2)) <$> NATIVES)) as Hnd by (apply (bool_decide_unpack _); by vm_compute).
  revert Hnd. generalize NATIVES as l. intros l Hnd. apply (NoDup_fmap_1 (λ p : AccountAddress * Identifier * Identifier, (p.1.2, p.2))).
  rewrite <- list_fmap_compose. erewrite list_fmap_ext; [exact Hnd|]. by intros i [[m f] fn] _.
Qed.

(** ** Canonical signatures *)

Lemma from_le_bytes_cons b bytes : b < 256 → from_le_bytes (b :: bytes) = b + from_le_bytes bytes * 256.
Proof. intros Hb. cbn [from_le_bytes]. by rewrite lor_add. Qed.
Lemma from_le_bytes_bound bytes : bytes_ok bytes → from_le_bytes bytes < 256 ^ len bytes.
Proof.
  induction 1 as [|b bytes Hb _ IH]; [done|]. rewrite from_le_bytes_cons by done.
  unfold len in *. cbn [length]. rewrite Nat2N.inj_succ, N.pow_succ_r'. lia.
Qed.
Lemma from_le_bytes_snoc bytes b : bytes_ok bytes → b < 256 → from_le_bytes (bytes ++ [b]) = from_le_bytes bytes + b * 256 ^ len bytes.
Proof.
  intros Hok Hb. induction Hok as [|c bytes Hc _ IH]; [cbn; rewrite N.lor_0_r; change (256 ^ len []) with 1; lia|].
  cbn [app]. rewrite !from_le_bytes_cons, IH by done. unfold len. cbn [length]. rewrite Nat2N.inj_succ, N.pow_succ_r'. lia.
Qed.
Lemma bytes_below_spec s l : bytes_ok s → bytes_ok l → length s = length l →
  bytes_below (rev s) (rev l) = (from_le_bytes s <? from_le_bytes l).
Proof.
  revert l. induction s as [|x s IH] using rev_ind; intros l Hs Hl Hlen.
  { by destruct l. }
  destruct l as [|y l _] using rev_ind; [by rewrite length_app in Hlen; cbn in Hlen; lia|].
  rewrite !length_app in Hlen. cbn in Hlen. apply Forall_app in Hs as [Hs [Hx _]%Forall_cons], Hl as [Hl [Hy _]%Forall_cons].
  rewrite !rev_app_distr. cbn [rev app bytes_below]. rewrite !from_le_bytes_snoc by done. rewrite IH by (done || lia).
  pose proof (from_le_bytes_bound s Hs) as B1. pose proof (from_le_bytes_bound l Hl) as B2.
  assert (len s = len l) as He by (unfold len; lia). rewrite He in *. generalize dependent (256 ^ len l). intros w B1 B2.
  destruct (N.ltb_spec x y); [symmetry; apply N.ltb_lt; nia|]. destruct (N.ltb_spec y x); [symmetry; apply N.ltb_ge; nia|].
  assert (x = y) as -> by lia. destruct (N.ltb_spec (from_le_bytes s) (from_le_bytes l)); symmetry; [apply N.ltb_lt|apply N.ltb_ge]; lia.
Qed.

(** The check of a signature accepts exactly those whose second half is a number below the order of the group. *)
Lemma check_malleability_spec bytes : bytes_ok bytes →
  check_malleability bytes = true ↔ length bytes = 64%nat ∧ from_le_bytes (drop 32 bytes) < from_le_bytes ed25519_L.
Proof.
  intros Hb. unfold check_malleability, check_s_lt_l. rewrite andb_true_iff. unfold len, ED25519_SIGNATURE_LENGTH.
  split; intros [H1 H2]; (assert (length bytes = 64%nat) as Hl by lia); (split; [lia|]);
    rewrite bytes_below_spec in * by (solve [by apply Forall_drop|by repeat constructor|by rewrite length_drop, Hl]); lia.
Qed.

(** ** 256-bit integers *)

#[export] Instance wrapping_U256Laws : U256Laws N (wrap 256).
Proof.
  assert (Hs : ∀ n, n < 2 ^ 256 → wrap 256 n = n) by (intros n Hn; unfold wrap; by apply N.mod_small).
  assert (Hw : ∀ n, wrap 256 n < 2 ^ 256) by (intros n; unfold wrap; by apply N.mod_lt).
  constructor; cbn; try done.
  - intros n Hn. apply Hs. assert (2 ^ 128 < 2 ^ 256) by done. lia.
  - intros bytes Hb Hl. rewrite (Hs (wrap 256 _)) by done. apply Hs. pose proof (from_le_bytes_bound bytes Hb) as H. unfold len in H. by rewrite Hl in H.
  - intros x Hx. by rewrite (proj2 (N.leb_le _ _) Hx).
  - intros x Hx. by rewrite (proj2 (N.leb_le _ _) Hx).
  - intros x y Hy. rewrite (proj2 (N.eqb_neq _ _) Hy). eexists. split; [reflexivity|]. apply Hs. pose proof (Hw x).
    pose proof (N.Div0.div_le_upper_bound (wrap 256 x) (wrap 256 y) (wrap 256 x)). nia.
Qed.

(** A number as the struct [U256] of Move: a struct of one vector of 32 bytes, which nobody else holds *)
Record u256_at (h : Heap) (r b : loc) (x : N) : Prop := {
  ua_bound : x < 2 ^ 256;
  ua_struct : cells h !! r = Some {| strong := 1; content := CValues [VContainer (VecU8 b)] |};
  ua_bytes : cells h !! b = Some {| strong := 1; content := CU8 (to_le_bytes 32 x) |} }.
Lemma u256_distinct h r b x : u256_at h r b x → r ≠ b.
Proof. intros [_ H1 H2] ->. congruence. Qed.
Lemma take_cell {T} (k : Kind T) h r x : cells h !! r = Some {| strong := 1; content := put k x |} → get k (put k x) = Some x →
  take_unique_ownership k r h = Ok (x, remove_cell r h).
Proof. intros Hr Hg. unfold take_unique_ownership, mbind, HeapM_bind, lookup_cell. rewrite Hr. cbn. by rewrite Hg. Qed.
Lemma drop_none h : drop_pointers [] h = Ok (tt, h).
Proof. unfold drop_pointers. cbn. by destruct (heap_pointers h). Qed.
Lemma u256_other h r b x k : u256_at h r b x → k ≠ r → k ≠ b → u256_at (remove_cell k h) r b x.
Proof. intros [H1 H2 H3] Hr Hb. constructor; [done| |]; unfold remove_cell; cbn; by rewrite lookup_delete_ne. Qed.

Section U256Spec.
Context {S U PK Sig : Type} `{!MoveResolver S, !Hashes, !Ed25519 PK Sig, !U256 U} (u256_val : U → N) `{!U256Laws U u256_val}.
Context (debug overflow_checks : bool).
Notation NativeState := (list ValueImpl * (Heap * @TransactionDataCache S))%type.
Notation NativeM := (Run NativeState PartialVMError).

Lemma pop_arg_spec {T} (cast : ValueImpl → HeapM T) args v h (td : @TransactionDataCache S) x h' : cast v h = Ok (x, h') →
  pop_arg cast (args ++ [v], (h, td)) = (Ok x, (args, (h', td))).
Proof.
  intros Hc. unfold pop_arg. rewrite run_bind_eq. unfold pop_back. cbn [fst snd]. rewrite last_snoc, removelast_last.
  unfold in_memory, in_store, in_heap. cbn [fst snd]. by rewrite Hc.
Qed.
Lemma in_memory_spec {A} (m : HeapM A) args h (td : @TransactionDataCache S) x h' : m h = Ok (x, h') →
  in_memory m (args, (h, td)) = (Ok x, (args, (h', td))).
Proof. intros Hm. unfold in_memory, in_store, in_heap. cbn [fst snd]. by rewrite Hm. Qed.
Lemma pop_u256 args h (td : @TransactionDataCache S) r b x : u256_at h r b x →
  ∃ u, (fields ← pop_arg value_as_struct; unwrap_u256 (U := U) debug fields) (args ++ [VContainer (Struct r)], (h, td)) =
    (Ok u, (args, (remove_cell b (remove_cell r h), td))) ∧ u256_val u = x.
Proof.
  intros Hat. pose proof Hat as [Hx Hr Hb]. pose proof (u256_distinct _ _ _ _ Hat) as Hne. exists (u256_from_little_endian (to_le_bytes 32 x)). split.
  - erewrite run_bind_ok; [|apply pop_arg_spec; apply (take_cell values); [exact Hr|done]].
    unfold unwrap_u256. erewrite run_bind_ok; [|apply in_memory_spec; reflexivity]. cbv beta iota. erewrite run_bind_ok.
    2:{ apply in_memory_spec. apply drop_none. }
    cbv beta iota. erewrite run_bind_ok.
    2:{ apply in_memory_spec. apply (take_cell u8s); [|done]. unfold remove_cell. cbn. by rewrite lookup_delete_ne. }
    unfold len. by rewrite to_le_bytes_length.
  - rewrite u256_le_val by (apply to_le_bytes_ok || apply to_le_bytes_length). by apply from_to_le_bytes.
Qed.

(** The heap after a number was made *)
Definition with_u256 (x : N) (h : Heap) : Heap :=
  {| cells := <[ next_loc h + 1 := {| strong := 1; content := CValues [VContainer (VecU8 (next_loc h))] |} ]>
       (<[ next_loc h := {| strong := 1; content := CU8 (to_le_bytes 32 x) |} ]> (cells h)); next_loc := next_loc h + 1 + 1 |}.
Lemma wrap_u256_spec (u : U) args h (td : @TransactionDataCache S) :
  wrap_u256 u (args, (h, td)) = (Ok (VContainer (Struct (next_loc h + 1))), (args, (with_u256 (u256_val u) h, td))).
Proof.
  unfold wrap_u256. erewrite run_bind_ok; [|apply in_memory_spec; reflexivity]. cbn [fst snd]. erewrite in_memory_spec; [|reflexivity].
  unfold with_u256. rewrite u256_bytes. reflexivity.
Qed.
Lemma with_u256_at x h : x < 2 ^ 256 → u256_at (with_u256 x h) (next_loc h + 1) (next_loc h) x.
Proof. intros Hx. constructor; [done| |]; unfold with_u256; cbn [cells]; [by rewrite lookup_insert_eq|rewrite lookup_insert_ne by lia; by rewrite lookup_insert_eq]. Qed.

(** What the operations mean *)
Definition u256_result (function : NativeFunction) (l r : N) : option N :=
  match function with
  | FnAdd => if l + r <? 2 ^ 256 then Some (l + r) else None
  | FnSub => if r <=? l then Some (l - r) else None
  | FnMul => if l * r <? 2 ^ 256 then Some (l * r) else None
  | FnDiv => if r =? 0 then None else Some (l / r)
  | _ => None
  end.
Definition u256_key (function : NativeFunction) : NativeCostIndex :=
  match function with
  | FnAdd => NativeCostIndex.U256_ADD | FnSub => NativeCostIndex.U256_SUB | FnMul => NativeCostIndex.U256_MUL
  | _ => NativeCostIndex.U256_DIV
  end.
Definition computes (op : U → U → NativeM U) (function : NativeFunction) : Prop :=
  ∀ l r s, match u256_result function (u256_val l) (u256_val r) with
    | Some n => ∃ u, op l r s = (Ok u, s) ∧ u256_val u = n
    | None => op l r s = (Err (PartialVMError_new ARITHMETIC_ERROR), s)
    end.
Lemma wrap_small n : n < 2 ^ 256 → wrap 256 n = n.
Proof. intros Hn. unfold wrap. by apply N.mod_small. Qed.
Lemma add_computes : computes (checked u256_overflowing_add) FnAdd.
Proof.
  intros l r s. unfold checked, u256_result. pose proof (u256_add_val l r) as [H1 H2]. destruct (u256_overflowing_add l r) as [u o]. cbn [fst snd] in *. subst o.
  destruct (N.ltb_spec (u256_val l + u256_val r) (2 ^ 256)) as [Hl|Hl].
  - rewrite (proj2 (N.leb_gt _ _) Hl). exists u. split; [done|]. by rewrite H2, wrap_small.
  - by rewrite (proj2 (N.leb_le _ _) Hl).
Qed.
Lemma sub_computes : computes (checked u256_overflowing_sub) FnSub.
Proof.
  intros l r s. unfold checked, u256_result. pose proof (u256_sub_val l r) as [H1 H2]. destruct (u256_overflowing_sub l r) as [u o]. cbn [fst snd] in *. subst o.
  pose proof (u256_bound l) as Bl. destruct (N.leb_spec (u256_val r) (u256_val l)) as [Hl|Hl].
  - rewrite (proj2 (N.ltb_ge _ _) Hl). exists u. split; [done|]. rewrite H2. unfold wrap.
    replace (2 ^ 256 + u256_val l - u256_val r) with (u256_val l - u256_val r + 1 * 2 ^ 256) by lia. rewrite N.Div0.mod_add. apply N.mod_small. lia.
  - by rewrite (proj2 (N.ltb_lt _ _) Hl).
Qed.
Lemma mul_computes : computes (checked u256_overflowing_mul) FnMul.
Proof.
  intros l r s. unfold checked, u256_result. pose proof (u256_mul_val l r) as [H1 H2]. destruct (u256_overflowing_mul l r) as [u o]. cbn [fst snd] in *. subst o.
  destruct (N.ltb_spec (u256_val l * u256_val r) (2 ^ 256)) as [Hl|Hl].
  - rewrite (proj2 (N.leb_gt _ _) Hl). exists u. split; [done|]. by rewrite H2, wrap_small.
  - by rewrite (proj2 (N.leb_le _ _) Hl).
Qed.
Lemma div_computes : computes (λ l r, if u256_is_zero r then arithmetic_error else run_lift (unwrap (u256_div l r))) FnDiv.
Proof.
  intros l r s. unfold u256_result. rewrite u256_zero_val. destruct (N.eqb_spec (u256_val r) 0) as [H0|H0]; [done|].
  destruct (u256_div_val l r H0) as (q & -> & Hq). by exists q.
Qed.

Lemma run_assoc {St E A B C} (m : Run St E A) (k : A → Run St E B) (g : B → Run St E C) s :
  (m ≫= λ a, k a ≫= g) s = ((m ≫= k) ≫= g) s.
Proof. rewrite !run_bind_eq. destruct (m s) as [[] ?]; done. Qed.
(** The loss of two numbers, and the gain of one *)
Lemma u256_binary_spec op function table (td : @TransactionDataCache S) h a b c d l r : computes op function →
  u256_at h a b l → u256_at h c d r → a ≠ c → a ≠ d → b ≠ c → b ≠ d →
  let h0 := remove_cell b (remove_cell a (remove_cell d (remove_cell c h))) in
  u256_binary debug overflow_checks table op (u256_key function) [] ([VContainer (Struct a); VContainer (Struct c)], (h, td)) =
  match u256_result function l r with
  | Some n =>
      match native_gas (E := PartialVMError) overflow_checks table (u256_key function) 0 with
      | Ok cost => (Ok (NativeResult_ok cost [VContainer (Struct (next_loc h + 1))]), ([], (with_u256 n h0, td)))
      | Err e => (Err e, ([], (h0, td)))
      | Panic => (Panic, ([], (h0, td)))
      | OutOfFuel => (OutOfFuel, ([], (h0, td)))
      end
  | None => (Err (PartialVMError_new ARITHMETIC_ERROR), ([], (h0, td)))
  end.
Proof.
  intros Hop Hl Hr H1 H2 H3 H4 h0. unfold u256_binary. erewrite run_bind_ok; [|unfold assert_arity; destruct debug; reflexivity]. rewrite run_assoc.
  destruct (pop_u256 [VContainer (Struct a)] h td c d r Hr) as (ur & Er & Vr). erewrite run_bind_ok; [|exact Er]. cbv beta. rewrite run_assoc.
  assert (Hl' : u256_at (remove_cell d (remove_cell c h)) a b l) by (apply u256_other; [by apply u256_other|done..]).
  destruct (pop_u256 [] _ td a b l Hl') as (ul & El & Vl). erewrite run_bind_ok; [|exact El]. cbv beta.
  specialize (Hop ul ur ([], (h0, td))). rewrite Vl, Vr in Hop. rewrite run_bind_eq. fold h0.
  destruct (u256_result function l r) as [n|]; [|by rewrite Hop]. destruct Hop as (u & -> & Vu).
  rewrite run_bind_eq. unfold gas, run_lift. destruct (native_gas _ _ _ _) as [cost|e| |]; [|done..].
  erewrite run_bind_ok; [|apply wrap_u256_spec]. by rewrite Vu.
Qed.
Lemma u256_result_bound function l r n : l < 2 ^ 256 → u256_result function l r = Some n → n < 2 ^ 256.
Proof.
  intros Hl. unfold u256_result. destruct function; try done; intros Hn.
  - destruct (N.ltb_spec (l + r) (2 ^ 256)); [by injection Hn as <-|done].
  - destruct (N.leb_spec r l); [injection Hn as <-; lia|done].
  - destruct (N.ltb_spec (l * r) (2 ^ 256)); [by injection Hn as <-|done].
  - destruct (N.eqb_spec r 0); [done|]. injection Hn as <-. apply N.Div0.div_lt_upper_bound. nia.
Qed.

(** The cells [ks] are gone, and nothing else has changed but for the cells [new], which are new. *)
Record consumed (ks new : list loc) (h h' : Heap) : Prop := {
  cn_gone : Forall (λ k, cells h' !! k = None) ks;
  cn_new : Forall (λ k, next_loc h <= k) new;
  cn_kept k : k ∉ ks → k ∉ new → cells h' !! k = cells h !! k }.
Lemma consumed_removed h a b c d : consumed [a; b; c; d] [] h (remove_cell b (remove_cell a (remove_cell d (remove_cell c h)))).
Proof.
  constructor; [|constructor|].
  - rewrite !Forall_cons. unfold remove_cell. cbn. split_and!; [apply lookup_delete_None..|constructor];
      rewrite ?lookup_delete_None; naive_solver.
  - intros k Hk _. unfold remove_cell. cbn. set_unfold. by rewrite !lookup_delete_ne by naive_solver.
Qed.
Lemma consumed_with_u256 ks n h h0 : consumed ks [] h h0 → next_loc h0 = next_loc h → Forall (λ k, k < next_loc h) ks →
  consumed ks [next_loc h + 1; next_loc h] h (with_u256 n h0).
Proof.
  intros [Hg _ Hk] Hn Hlt. constructor.
  - rewrite Forall_forall in Hg, Hlt |- *. intros k Hin. specialize (Hg k Hin). specialize (Hlt k Hin). unfold with_u256. cbn.
    by rewrite !lookup_insert_ne by lia.
  - repeat constructor; lia.
  - intros k Hks Hnew. unfold with_u256. cbn. rewrite Hn. set_unfold. rewrite !lookup_insert_ne by naive_solver. by apply Hk; [|set_solver].
Qed.

(** C34. Arithmetic on 256-bit integers is exact or an error: the sum, the difference, the
    product or the quotient of two numbers comes out as a new number when it is a 256-bit
    integer and the cost table has a price for the operation, and [ARITHMETIC_ERROR] when
    it is not, or when it is divided by zero; without a price there is no result. When
    there is a number or an error, the cells of the numbers that went in are gone and
    nothing else in memory changes. *)
Theorem u256_arithmetic (function : NativeFunction) (table : CostTable) (resolver : Resolver NativeFunction) (td : @TransactionDataCache S)
    (h : Heap) (a b c d : loc) (l r : N) :
  function ∈ [FnAdd; FnSub; FnMul; FnDiv] → u256_at h a b l → u256_at h c d r → a ≠ c → a ≠ d → b ≠ c → b ≠ d →
  Forall (λ k, k < next_loc h) [a; b; c; d] →
  let '(called, (h', td')) := native_function (NativeCalls := std_natives (U := U) debug overflow_checks) function table resolver []
    [VContainer (Struct a); VContainer (Struct c)] (h, td) in
  let price := native_gas (E := PartialVMError) overflow_checks table (u256_key function) 0 in
  td' = td ∧
  match u256_result function l r, price with
  | Some n, Ok cost => ∃ v w, called = Ok (NativeResult_ok cost [VContainer (Struct v)]) ∧ u256_at h' v w n ∧ consumed [a; b; c; d] [v; w] h h'
  | Some n, Err e => called = Err e ∧ consumed [a; b; c; d] [] h h'
  | Some n, _ => ∀ res, called ≠ Ok res
  | None, _ => called = Err (PartialVMError_new ARITHMETIC_ERROR) ∧ consumed [a; b; c; d] [] h h'
  end.
Proof.
  intros Hf Hl Hr H1 H2 H3 H4 Hlt. unfold native_function, std_natives.
  assert (∃ op, computes op function ∧ call_function debug overflow_checks table resolver function = u256_binary debug overflow_checks table op (u256_key function)) as (op & Hop & Hcall).
  { set_unfold in Hf. destruct_or!; subst; cbn [call_function u256_key].
    - eexists. split; [apply add_computes|reflexivity].
    - eexists. split; [apply sub_computes|reflexivity].
    - eexists. split; [apply mul_computes|reflexivity].
    - eexists. split; [apply div_computes|reflexivity]. }
  pose proof (u256_binary_spec op function table td h a b c d l r Hop Hl Hr H1 H2 H3 H4) as Hb. cbv zeta in Hb. rewrite <- Hcall in Hb.
  pose proof (consumed_removed h a b c d) as Hgone. set (h0 := remove_cell b _) in *.
  unfold call_native_function. rewrite run_bind_eq, Hb. destruct (u256_result function l r) as [n|] eqn:Hn; [|by split_and!].
  destruct (native_gas _ _ _ _) as [cost|e| |]; [|by split_and!..]. rewrite run_bind_eq. cbn [run_get fst]. rewrite run_bind_eq.
  erewrite in_memory_spec; [|apply drop_none]. split; [done|]. exists (next_loc h + 1), (next_loc h). split_and!; [done| |].
  - apply (with_u256_at n h0). eapply u256_result_bound; [|exact Hn]. by destruct Hl.
  - by apply consumed_with_u256.
Qed.
End U256Spec.

(** Two numbers in memory *)
Definition two_numbers (l r : N) : Heap :=
  {| cells := list_to_map [(0, {| strong := 1; content := CU8 (to_le_bytes 32 l) |}); (1, {| strong := 1; content := CValues [VContainer (VecU8 0)] |});
       (2, {| strong := 1; content := CU8 (to_le_bytes 32 r) |}); (3, {| strong := 1; content := CValues [VContainer (VecU8 2)] |})]; next_loc := 4 |}.
Section U256Examples.
#[local] Instance no_hashes : Hashes := {| sha2_digest _ := []; sha3_digest _ := [] |}.
#[local] Instance no_curve : Ed25519 unit unit :=
  {| dalek_public_key _ := None; dalek_signature _ := None; dalek_signature_bytes _ := []; verify_strict _ _ _ := false |}.
#[local] Instance no_store : MoveResolver unit := {| get_module := λ _ _, Ok None; get_resource := λ _ _, mret None |}.
Definition flat_table : CostTable := {| instruction_table := []; native_table := replicate 29 (GasCost_new 1 1); gas_constants := GasConstants_default |}.
Definition empty_script : CompiledScript :=
  {| s_version := 4; s_module_handles := []; s_struct_handles := []; s_function_handles := []; s_function_instantiations := [];
     s_signatures := []; s_identifiers := []; s_address_identifiers := []; s_constant_pool := []; s_type_parameters := []; s_parameters := 0;
     s_code := {| cu_locals := 0; cu_code := [] |} |}.
Definition no_function : Function NativeFunction :=
  {| f_file_format_version := 4; f_index := 0; f_code := []; f_parameters := []; f_return := []; f_locals := []; f_type_parameters := [];
     f_native := None; f_scope := ScopeScript []; f_name := [] |}.
Definition no_resolver : Resolver NativeFunction :=
  {| r_loader := {| l_scripts := cache_new; l_module_cache := ModuleCache_new; l_natives := ∅ |};
     r_binary := BinaryScript {| ls_script := empty_script; ls_struct_refs := []; ls_function_refs := []; ls_function_instantiations := [];
       ls_main := no_function; ls_parameter_tys := []; ls_single_signature_token_map := ∅ |} |}.
Lemma u256_arithmetic_witness : ∃ v w h',
  native_function (NativeCalls := std_natives (U := N) true true) FnMul flat_table no_resolver [] [VContainer (Struct 1); VContainer (Struct 3)]
    (two_numbers (2 ^ 128) (2 ^ 127 + 5), TransactionDataCache_new tt TypeCache_new) =
    (Ok (NativeResult_ok 2 [VContainer (Struct v)]), (h', TransactionDataCache_new tt TypeCache_new)) ∧ u256_at h' v w (2 ^ 255 + 5 * 2 ^ 128).
Proof.
  pose proof (u256_arithmetic (U := N) (wrap 256) true true FnMul flat_table no_resolver (TransactionDataCache_new tt TypeCache_new)
    (two_numbers (2 ^ 128) (2 ^ 127 + 5)) 1 0 3 2 (2 ^ 128) (2 ^ 127 + 5)) as Hm.
  destruct (native_function _ _ _ _ _ _) as [called [h' td']]. destruct Hm as [-> Hm];
    [by set_unfold; auto|constructor; by vm_compute|constructor; by vm_compute|done..|by repeat constructor|].
  assert (native_gas (E := PartialVMError) true flat_table (u256_key FnMul) 0 = Ok 2) as Hp by (by vm_compute).
  assert (u256_result FnMul (2 ^ 128) (2 ^ 127 + 5) = Some (2 ^ 255 + 5 * 2 ^ 128)) as Hr by (by vm_compute).
  rewrite Hr, Hp in Hm. destruct Hm as (v & w & -> & Hat & _). by exists v, w, h'.
Defined.
End U256Examples.

(** ** Vectors *)

Section VectorSpec.
Context {S U PK Sig : Type} `{!MoveResolver S, !Hashes, !Ed25519 PK Sig, !U256 U} (debug overflow_checks : bool).
Context (table : CostTable) (resolver : Resolver NativeFunction) (td : @TransactionDataCache S).
Notation native fn tys args s := (native_function (NativeCalls := std_natives (U := U) debug overflow_checks) fn table resolver tys args s).
Notation price key n := (native_gas (E := PartialVMError) overflow_checks table key n).

Lemma native_call function tys args h td' res h' : call_function debug overflow_checks table resolver function tys (args, (h, td)) = (Ok res, ([], (h', td'))) →
  native function tys args (h, td) = (Ok res, (h', td')).
Proof.
  intros Hc. unfold native_function, std_natives, call_native_function. erewrite run_bind_ok; [|exact Hc]. rewrite run_bind_eq. cbn [run_get fst].
  rewrite run_bind_eq. erewrite in_memory_spec; [reflexivity|]. exact (drop_none h').
Qed.
Lemma arity_ok tys n m args s : len tys = n → len args = m → assert_arity debug tys n m (args, s) = (Ok tt, (args, s : Heap * @TransactionDataCache S)).
Proof.
  intros <- <-. unfold assert_arity, debug_assert. rewrite N.eqb_refl. rewrite run_bind_eq. replace (debug && negb true) with false by (by destruct debug).
  cbn [run_lift]. rewrite run_bind_eq. cbn [run_get fst]. rewrite N.eqb_refl. by destruct debug.
Qed.
Lemma gas_ok key n c s : price key n = Ok c → gas overflow_checks table key n s = (Ok c, s : list ValueImpl * (Heap * @TransactionDataCache S)).
Proof. intros Hp. unfold gas, run_lift. by rewrite Hp. Qed.
Lemma in_memory_fail {A} (m : HeapM A) args h e : m h = Err e → in_memory m (args, (h, td)) = (Err e, (args, (h, td))).
Proof. intros Hm. unfold in_memory, in_store, in_heap. cbn [fst snd]. by rewrite Hm. Qed.

Lemma on_vector_ref_ok {A} finish cost self (op : HeapM A) args h x h1 K : op h = Ok (x, h1) → counted h1 (ref_pointers self ++ K) →
  ∃ h', on_vector_ref finish cost self op (args, (h, td)) = (finish cost (Ok x), (args, (h', td))) ∧ counted h' K ∧ contents h' ⊆ contents h1.
Proof.
  intros Ho H1. destruct (counted_drop_pointers _ _ _ H1) as (h' & Hd & Hc & Hs & _). exists h'. split; [|done].
  unfold on_vector_ref. rewrite run_bind_eq. unfold run_try. erewrite in_memory_spec; [|exact Ho]. erewrite run_bind_ok; [done|by apply in_memory_spec].
Qed.
Lemma on_vector_ref_fail {A} finish cost self (op : HeapM A) args h e K : op h = Err e → counted h (ref_pointers self ++ K) →
  ∃ h', on_vector_ref finish cost self op (args, (h, td)) = (finish cost (Err e), (args, (h', td))) ∧ counted h' K ∧ contents h' ⊆ contents h.
Proof.
  intros Ho H1. destruct (counted_drop_pointers _ _ _ H1) as (h' & Hd & Hc & Hs & _). exists h'. split; [|done].
  unfold on_vector_ref. rewrite run_bind_eq. unfold run_try. rewrite in_memory_fail with (e := e) by done. erewrite run_bind_ok; [done|by apply in_memory_spec].
Qed.

(** Natives on a reference as operations on a list.  Each uses up the reference. *)
Record vector_natives (h : Heap) (self : ContainerRef) (ty : RuntimeType.Type_) (vs : list ValueImpl) (R : list loc) : Prop := {
  vn_length c : price NativeCostIndex.LENGTH 1 = Ok c →
    ∃ h', native FnLength [ty] [VContainerRef self] (h, td) = (Ok (NativeResult_ok c [VU64 (wrap 64 (len vs))]), (h', td)) ∧
      counted h' R ∧ contents h' ⊆ contents h;
  vn_push e n c R' : R ≡ₚ pointers e ++ R' → fits (ref_container self) e → value_size overflow_checks e h = Ok (n, h) →
    price NativeCostIndex.PUSH_BACK n = Ok c →
    ∃ h1 h', updated h self (vs ++ [e]) (ref_pointers self ++ R') h1 ∧
      native FnPushBack [ty] [VContainerRef self; e] (h, td) = (Ok (NativeResult_ok c []), (h', td)) ∧ counted h' R' ∧ contents h' ⊆ contents h1;
  vn_pop c : price NativeCostIndex.POP_BACK 1 = Ok c →
    match last vs with
    | Some v => ∃ h1 h', updated h self (removelast vs) (pointers v ++ ref_pointers self ++ R) h1 ∧
        native FnPop [ty] [VContainerRef self] (h, td) = (Ok (NativeResult_ok c [v]), (h', td)) ∧ counted h' (pointers v ++ R) ∧ contents h' ⊆ contents h1
    | None => ∃ h', native FnPop [ty] [VContainerRef self] (h, td) = (Ok (NativeResult_err c POP_EMPTY_VEC), (h', td)) ∧
        counted h' R ∧ contents h' ⊆ contents h
    end;
  vn_swap i j c : price NativeCostIndex.SWAP 1 = Ok c →
    match at_ vs i, at_ vs j with
    | Some v, Some w => ∃ h1 h', updated h self (<[ N.to_nat i := w ]> (<[ N.to_nat j := v ]> vs)) (ref_pointers self ++ R) h1 ∧
        native FnSwap [ty] [VContainerRef self; VU64 i; VU64 j] (h, td) = (Ok (NativeResult_ok c []), (h', td)) ∧ counted h' R ∧ contents h' ⊆ contents h1
    | _, _ => ∃ h', native FnSwap [ty] [VContainerRef self; VU64 i; VU64 j] (h, td) = (Ok (NativeResult_err c INDEX_OUT_OF_BOUNDS), (h', td)) ∧
        counted h' R ∧ contents h' ⊆ contents h
    end;
  vn_borrow i c : price NativeCostIndex.BORROW 1 = Ok c →
    match at_ vs i with
    | Some v => ∃ h', native FnBorrow [ty] [VContainerRef self; VU64 i] (h, td) = (Ok (NativeResult_ok c [elem_ref self i v]), (h', td)) ∧
        counted h' (pointers (elem_ref self i v) ++ R) ∧ contents h' ⊆ contents h
    | None => ∃ h', native FnBorrow [ty] [VContainerRef self; VU64 i] (h, td) = (Ok (NativeResult_err c INDEX_OUT_OF_BOUNDS), (h', td)) ∧
        counted h' R ∧ contents h' ⊆ contents h
    end }.

Lemma at_beyond {A} (l : list A) i : at_ l i = None → len l <= i.
Proof. unfold at_, len. intros Hi%lookup_ge_None. lia. Qed.
Lemma pop_ref self args h : pop_arg value_as_container_ref (args ++ [VContainerRef self], (h, td)) = (Ok self, (args, (h, td))).
Proof. by apply pop_arg_spec. Qed.
Lemma pop_number n args h : pop_arg (as_prim prim_u64) (args ++ [VU64 n], (h, td)) = (Ok n, (args, (h, td))).
Proof. by apply pop_arg_spec. Qed.

(** C28. The native functions on a reference to a vector are operations on a list: length,
    push, pop, swap and borrowing an element, and each uses up its reference; an empty
    vector and an index out of bounds are aborts with the code of the error, and what the
    call costs is charged all the same. *)
Theorem vector_natives_refine (h : Heap) (self : ContainerRef) (ty : RuntimeType.Type_) (vs : list ValueImpl) (R : list loc) :
  slots (contents h) (ref_container self) = Some vs → is_vector (ref_container self) → check_elem_layout ty (ref_container self) = Ok () →
  counted h (ref_pointers self ++ R) → has_status (contents h) self →
  vector_natives h self ty vs R.
Proof.
  intros Hs Hv Hl Hc Hst. pose proof (vector_ref_refines h self ty vs _ Hs Hv Hl Hc Hst) as Hr. constructor.
  - intros c Hp. destruct (on_vector_ref_ok (map_partial_vm_result_one) c self _ [] h _ _ R (vr_len _ _ _ _ _ Hr) Hc) as (h' & Hrun & Hrest).
    exists h'. split; [|done]. apply native_call. cbn [call_function]. unfold native_length. erewrite run_bind_ok; [|by apply arity_ok].
    erewrite run_bind_ok; [|by apply (pop_ref self [])]. erewrite run_bind_ok; [|by apply gas_ok]. exact Hrun.
  - intros e n c R' Hp He Hsz Hg. destruct (vr_push _ _ _ _ _ Hr e (ref_pointers self ++ R')) as (h1 & Ho & Hu); [by rewrite Hp; solve_Permutation|done|].
    destruct (on_vector_ref_ok map_partial_vm_result_empty c self _ [] h _ _ R' Ho (up_counted _ _ _ _ _ Hu)) as (h' & Hrun & Hrest).
    exists h1, h'. split_and!; [done| |by destruct Hrest..]. apply native_call. cbn [call_function]. unfold native_push_back. erewrite run_bind_ok; [|by apply arity_ok].
    erewrite run_bind_ok; [|unfold pop_unwrap; rewrite run_bind_eq; reflexivity]. erewrite run_bind_ok; [|by apply (pop_ref self [])].
    erewrite run_bind_ok; [|by apply in_memory_spec]. erewrite run_bind_ok; [|by apply gas_ok]. exact Hrun.
  - intros c Hg. assert (Hrun : ∀ (s : Heap) (r : NativeResult), on_vector_ref map_partial_vm_result_one c self (Vectors.pop self ty) ([], (h, td)) = (Ok r, ([], (s, td))) →
      native FnPop [ty] [VContainerRef self] (h, td) = (Ok r, (s, td))).
    { intros s r Ho. apply native_call. cbn [call_function]. unfold native_pop. erewrite run_bind_ok; [|by apply arity_ok].
      erewrite run_bind_ok; [|by apply (pop_ref self [])]. erewrite run_bind_ok; [|by apply gas_ok]. exact Ho. }
    destruct (last vs) as [v|] eqn:Hlast.
    + destruct (vr_pop _ _ _ _ _ Hr (removelast vs) v (last_split _ _ Hlast)) as (h1 & Ho & Hu).
      destruct (on_vector_ref_ok map_partial_vm_result_one c self _ [] h _ _ (pointers v ++ R) Ho) as (h' & Hrun' & Hrest).
      { rewrite app_assoc, (Permutation_app_comm (ref_pointers self)), <- app_assoc. apply (up_counted _ _ _ _ _ Hu). }
      exists h1, h'. split_and!; [done|by apply Hrun|by destruct Hrest..].
    + apply last_None in Hlast. destruct (on_vector_ref_fail map_partial_vm_result_one c self _ [] h _ R (vr_pop_empty _ _ _ _ _ Hr Hlast) Hc) as (h' & Hrun' & Hrest).
      exists h'. split; [by apply Hrun|done].
  - intros i j c Hg. assert (Hrun : ∀ (s : Heap) (r : NativeResult), on_vector_ref map_partial_vm_result_empty c self (swap self i j ty) ([], (h, td)) = (Ok r, ([], (s, td))) →
      native FnSwap [ty] [VContainerRef self; VU64 i; VU64 j] (h, td) = (Ok r, (s, td))).
    { intros s r Ho. apply native_call. cbn [call_function]. unfold native_swap. erewrite run_bind_ok; [|by apply arity_ok].
      erewrite run_bind_ok; [|by apply (pop_number j [VContainerRef self; VU64 i])]. erewrite run_bind_ok; [|by apply (pop_number i [VContainerRef self])].
      erewrite run_bind_ok; [|by apply (pop_ref self [])]. erewrite run_bind_ok; [|by apply gas_ok]. exact Ho. }
    assert (Habort : len vs <= i ∨ len vs <= j → ∃ h', native FnSwap [ty] [VContainerRef self; VU64 i; VU64 j] (h, td) =
      (Ok (NativeResult_err c INDEX_OUT_OF_BOUNDS), (h', td)) ∧ counted h' R ∧ contents h' ⊆ contents h).
    { intros Hb. destruct (on_vector_ref_fail map_partial_vm_result_empty c self _ [] h _ R (vr_swap_bounds _ _ _ _ _ Hr i j Hb) Hc) as (h' & Hrun' & Hrest).
      exists h'. split; [by apply Hrun|done]. }
    destruct (at_ vs i) as [v|] eqn:Hi; [|apply Habort; left; by apply at_beyond]. destruct (at_ vs j) as [w|] eqn:Hj; [|apply Habort; right; by apply at_beyond].
    destruct (vr_swap _ _ _ _ _ Hr i j v w Hi Hj) as (h1 & Ho & Hu).
    destruct (on_vector_ref_ok map_partial_vm_result_empty c self _ [] h _ _ R Ho (up_counted _ _ _ _ _ Hu)) as (h' & Hrun' & Hrest).
    exists h1, h'. split_and!; [done|by apply Hrun|by destruct Hrest..].
  - intros i c Hg. assert (Hrun : ∀ (s : Heap) (r : NativeResult), on_vector_ref map_partial_vm_result_one c self (vector_borrow_elem self i ty) ([], (h, td)) = (Ok r, ([], (s, td))) →
      native FnBorrow [ty] [VContainerRef self; VU64 i] (h, td) = (Ok r, (s, td))).
    { intros s r Ho. apply native_call. cbn [call_function]. unfold native_borrow. erewrite run_bind_ok; [|by apply arity_ok].
      erewrite run_bind_ok; [|by apply (pop_number i [VContainerRef self])]. erewrite run_bind_ok; [|by apply (pop_ref self [])].
      erewrite run_bind_ok; [|by apply gas_ok]. exact Ho. }
    destruct (at_ vs i) as [v|] eqn:Hi.
    + destruct (vr_borrow _ _ _ _ _ Hr i v Hi) as (h1 & Ho & Hc1 & Hs1); [set_solver|].
      destruct (on_vector_ref_ok map_partial_vm_result_one c self _ [] h _ _ (pointers (elem_ref self i v) ++ R) Ho) as (h' & Hrun' & Hc' & Hs').
      { rewrite app_assoc, (Permutation_app_comm (ref_pointers self)), <- app_assoc. exact Hc1. }
      exists h'. split_and!; [by apply Hrun|done|by rewrite <- Hs1].
    + destruct (on_vector_ref_fail map_partial_vm_result_one c self _ [] h _ R (vr_borrow_bounds _ _ _ _ _ Hr i (at_beyond _ _ Hi)) Hc) as (h' & Hrun' & Hrest).
      exists h'. split; [by apply Hrun|done].
Qed.
End VectorSpec.

(** ** Serialization *)

Section Store.
Context {S U PK Sig : Type} `{!MoveResolver S, !Hashes, !Ed25519 PK Sig, !U256 U} (debug overflow_checks : bool).
Context (table : CostTable) (resolver : Resolver NativeFunction).
Notation TransactionDataCache := (@TransactionDataCache S).
Notation cache := (l_module_cache (r_loader resolver)).
Notation native fn tys args s := (native_function (NativeCalls := std_natives (U := U) debug overflow_checks) fn table resolver tys args s).
Notation price key n := (native_gas (E := PartialVMError) overflow_checks table key n).

Definition ref_value (r : ReferenceImpl) : ValueImpl := match r with RContainerRef r => VContainerRef r | RIndexedRef r => VIndexedRef r end.
Lemma in_types_spec {A} (m : Run TypeCache PartialVMError A) args h (td : TransactionDataCache) r types : m (td_type_cache td) = (r, types) →
  in_store (in_types m) (args, (h, td)) = (r, (args, (h, with_types types td))).
Proof. intros Hm. unfold in_store, in_types. cbn [fst snd]. by rewrite Hm. Qed.
Lemma layout_spec ty args h (td : TransactionDataCache) layout types : type_to_type_layout cache ty (td_type_cache td) = (Ok layout, types) →
  native_type_to_type_layout resolver ty (args, (h, td)) = (Ok (Some layout), (args, (h, with_types types td))).
Proof. intros Hl. unfold native_type_to_type_layout. rewrite run_bind_eq. unfold run_try. by rewrite (in_types_spec _ _ _ _ _ _ Hl). Qed.
Lemma left_then_drop h v R h1 : left_with h (pointers v ++ R) h1 → ∃ h2, drop_value v h1 = Ok (tt, h2) ∧ left_with h R h2.
Proof.
  intros [Hc Ho]. destruct (counted_drop_pointers _ _ _ Hc) as (h2 & Hd & Hc2 & Hs & _). exists h2. split; [exact Hd|].
  split; [done|]. intros l x y Hx Hy. apply (Ho l x y Hx). by eapply lookup_weaken.
Qed.
Lemma vector_u8_spec blob h R : counted h R → ∃ b h', vector_u8 blob h = Ok (VContainer (VecU8 b), h') ∧
  contents h' = <[ b := CU8 blob ]> (contents h) ∧ contents h !! b = None ∧ counted h' (b :: R).
Proof.
  intros Hc. destruct (counted_new h R (CU8 blob) Hc) as (b & h' & Hn & Hc' & Hf & Hs & _). exists b, h'.
  split_and!; [unfold vector_u8, fmap, HeapM_fmap; by rewrite (heap_bind _ _ _ _ _ Hn)|done| |done]. unfold contents. by rewrite lookup_fmap, Hf.
Qed.

(** C29. BCS::to_bytes returns a new vector with the serialized data of the value that the
    reference leads to, by the layout of its type; the price goes with their number, the
    reference is used up, and what is left of memory has its contents. *)
Theorem to_bytes_spec (h : Heap) (td : TransactionDataCache) (r : ReferenceImpl) (v : ValueImpl) (t : tree) (R : list loc)
    (ty : RuntimeType.Type_) (layout : MoveTypeLayout) (types : TypeCache) :
  target (contents h) r = Some v → denotes h v t → counted h (reference_pointers r ++ R) →
  type_to_type_layout cache ty (td_type_cache td) = (Ok layout, types) → well_typed layout t →
  ∃ blob, holds layout (Some blob) (Some t) ∧ ∀ cost, price NativeCostIndex.BCS_TO_BYTES (len blob) = Ok cost →
    ∃ b h' h1, native FnToBytes [ty] [ref_value r] (h, td) = (Ok (NativeResult_ok cost [VContainer (VecU8 b)]), (h', with_types types td)) ∧
      left_with h R h1 ∧ contents h1 !! b = None ∧ contents h' = <[ b := CU8 blob ]> (contents h1) ∧ counted h' (b :: R).
Proof.
  intros Hv Ht Hc Hl Hw. destruct (read_ref_reads h r v t R Hv Ht Hc) as (v' & h1 & Hread & Hleft & Ht').
  destruct (serialize_holds h1 v' t layout Ht' Hw) as (blob & Hser & Hh). exists blob. split; [done|]. intros cost Hp.
  destruct (left_then_drop _ _ _ _ Hleft) as (h2 & Hdrop & Hleft2).
  destruct (vector_u8_spec blob h2 R (lw_counted _ _ _ Hleft2)) as (b & h' & Hb & Hs & Hn & Hc').
  exists b, h', h2. split_and!; [|done..]. apply native_call. cbn [call_function]. unfold native_to_bytes.
  erewrite run_bind_ok; [|by apply arity_ok]. erewrite run_bind_ok; [|apply (pop_arg_spec _ []); by destruct r].
  erewrite run_bind_ok; [|reflexivity]. erewrite run_bind_ok; [|by apply layout_spec]. cbv beta iota.
  erewrite run_bind_ok.
  2:{ erewrite run_bind_ok; [|by apply in_memory_spec]. erewrite run_bind_ok; [|by apply in_memory_spec].
      erewrite run_bind_ok; [|by apply in_memory_spec]. reflexivity. }
  cbv beta iota. erewrite run_bind_ok; [|by apply gas_ok]. by erewrite run_bind_ok; [|by apply in_memory_spec].
Qed.
End Store.

Section Examples.
#[local] Existing Instance no_hashes.
#[local] Existing Instance no_curve.
#[local] Existing Instance no_store.
Notation native fn tys args s := (native_function (NativeCalls := std_natives (U := N) true true) fn flat_table no_resolver tys args s).

Example vector_natives_refine_witness : ∃ h1 h',
  native FnSwap [RuntimeType.U8] [VContainerRef (Local (VecU8 0)); VU64 0; VU64 1] (vector_heap, TransactionDataCache_new tt TypeCache_new) =
    (Ok (NativeResult_ok 2 []), (h', TransactionDataCache_new tt TypeCache_new)) ∧ slots (contents h1) (VecU8 0) = Some [VU8 2; VU8 1] ∧ contents h' ⊆ contents h1.
Proof.
  destruct (vector_natives_refine (U := N) true true flat_table no_resolver (TransactionDataCache_new tt TypeCache_new)
    vector_heap (Local (VecU8 0)) RuntimeType.U8 [VU8 1; VU8 2] []) as [_ _ _ Hswap _].
  - reflexivity.
  - exact I.
  - reflexivity.
  - apply check_counted_sound. vm_compute. reflexivity.
  - exact I.
  - destruct (Hswap 0 1 2 ltac:(vm_compute; reflexivity)) as (h1 & h' & Hu & Hrun & _ & Hs). exists h1, h'.
    split; [exact Hrun|]. split; [exact (up_slots _ _ _ _ _ Hu)|exact Hs].
Defined.
Example to_bytes_spec_witness : ∃ blob cost b h',
  native_function (NativeCalls := std_natives (U := N) true false) FnToBytes flat_table no_resolver [RuntimeType.Vector RuntimeType.U8]
    [VContainerRef (Local (VecU8 0))] (vector_heap, TransactionDataCache_new tt TypeCache_new) =
    (Ok (NativeResult_ok cost [VContainer (VecU8 b)]), (h', TransactionDataCache_new tt TypeCache_new)) ∧ contents h' !! b = Some (CU8 blob).
Proof.
  destruct (to_bytes_spec (U := N) true false flat_table no_resolver vector_heap (TransactionDataCache_new tt TypeCache_new) (RContainerRef (Local (VecU8 0)))
    (VContainer (VecU8 0)) (TVecU8 [1; 2]) [] (RuntimeType.Vector RuntimeType.U8) (LVector LU8) TypeCache_new) as (blob & Hh & Hrun).
  - reflexivity.
  - by exists 1%nat.
  - apply check_counted_sound. vm_compute. reflexivity.
  - by vm_compute.
  - split; [done|]. by eexists.
  - assert (∃ c, native_gas (E := PartialVMError) false flat_table NativeCostIndex.BCS_TO_BYTES (len blob) = Ok c) as [c Hc]
      by (change (∃ c, gas_mul (E := PartialVMError) false 2 (N.max 1 (len blob)) = Ok c); unfold gas_mul; destruct (_ <=? _); by eexists).
    destruct (Hrun c Hc) as (b & h' & h1 & Hr & _ & _ & Hs & _). exists blob, c, b, h'.
    split; [exact Hr|]. by rewrite Hs, lookup_insert_eq.
Defined.
End Examples.
