(* ===== verification/Parser.v ===== *)
(** * Parser: type tags and transaction arguments as text

    Models [language/move-core/types/src/parser.rs], [transaction_argument.rs], the texts of
    addresses in [account_address.rs] and the [Display] of tags in [language_storage.rs].
    A [char] is its code point.  The texts that become tokens are ASCII, so that a length in
    bytes, by which the tokenizer moves on, is a number of characters.  The crate hex is a
    class, with the laws of its documentation; which characters beyond ASCII are
    alphanumeric is a parameter.  The fuel of the parser is the number of tokens, plus one.

    The theorems: every text is answered, without a slice that is out of range
    ([parsers_answer]); a tag that is displayed is read back when its names start with a
    letter and are no keywords ([display_round_trip]), and there are valid names which
    are not read back ([unreadable_names]); numbers are read exactly or refused
    ([parse_uint_spec]); and an argument is the argument of its value. *)

From Stdlib Require Import String.
From S2P Require Import Prelude CoreTypes FileFormat Errors Deserializer Views Uleb Bcs BcsCodecs MoveValues MoveValueCodec Effects Keys Balances.

Definition char : Set := N.
Notation str := (list char).

(** The crate hex *)
Class Hex : Type := { hex_encode : list u8 → str; hex_decode : str → option (list u8) }.
Definition is_lower_hex (c : char) : bool := between 48 57 c || between 97 102 c.
(** Its documented behaviour: two lowercase digits for a byte *)
Class HexLaws `{!Hex} : Prop := {
  hex_decode_encode bytes : bytes_ok bytes → hex_decode (hex_encode bytes) = Some bytes;
  hex_encode_length bytes : len (hex_encode bytes) = 2 * len bytes;
  hex_encode_digits bytes : bytes_ok bytes → Forall (λ c, is_lower_hex c = true) (hex_encode bytes) }.

(** ** Characters *)

Definition is_ascii (c : char) : bool := c <? 128.
Definition is_ascii_digit (c : char) : bool := between 48 57 c.
Definition is_ascii_alphabetic (c : char) : bool := between 65 90 c || between 97 122 c.
Definition is_ascii_alphanumeric (c : char) : bool := is_ascii_alphabetic c || is_ascii_digit c.
Definition is_ascii_hexdigit (c : char) : bool := is_ascii_digit c || between 65 70 c || between 97 102 c.
(** Space, tab, line feed, form feed, carriage return *)
Definition is_ascii_whitespace (c : char) : bool := (c =? 32) || (c =? 9) || (c =? 10) || (c =? 12) || (c =? 13).
(** The characters of an iterator while they satisfy [p] *)
Fixpoint take_while (p : char → bool) (it : str) : str :=
  match it with c :: it => if p c then c :: take_while p it else [] | [] => [] end.

(** ** Tokens *)

Inductive Token : Set :=
| U8Type | U64Type | U128Type | BoolType | AddressType | VectorType | SignerType
| Whitespace (s : str) | Name (s : str) | AddressToken (s : str)
| U8Token (s : str) | U64Token (s : str) | U128Token (s : str) | BytesToken (s : str)
| TrueToken | FalseToken | ColonColon | Lt_ | Gt_ | Comma | EOF.
#[export] Instance Token_eq_dec : EqDecision Token.
Proof. solve_decision. Defined.
Definition is_whitespace (self : Token) : bool := match self with Whitespace _ => true | _ => false end.

Section Tokens.
Context {HX : Hex} (unicode_alphanumeric : char → bool).
(** [char::is_alphanumeric] *)
Definition is_alphanumeric (c : char) : bool := if is_ascii c then is_ascii_alphanumeric c else unicode_alphanumeric c.

Definition keywords : list (str * Token) :=
  [(ident_str "u8", U8Type); (ident_str "u64", U64Type); (ident_str "u128", U128Type); (ident_str "bool", BoolType);
   (ident_str "address", AddressType); (ident_str "vector", VectorType); (ident_str "true", TrueToken); (ident_str "false", FalseToken);
   (ident_str "signer", SignerType)].
Fixpoint lookup_keyword (s : str) (keywords : list (str * Token)) : Token :=
  match keywords with
  | [] => Name s
  | (k, t) :: keywords => if bool_decide (s = k) then t else lookup_keyword s keywords
  end.
Definition name_token (s : str) : Token := lookup_keyword s keywords.

(** [bail!]: the messages of errors are left out. *)
Definition bail {A} : result unit A := Err tt.

(** [next_number] *)
Fixpoint next_number (num : str) (it : str) : result unit (Token * N) :=
  match it with
  | c :: it =>
      if is_ascii_digit c then next_number (num ++ [c]) it
      else if is_alphanumeric c then
        let suffix := c :: take_while is_ascii_alphanumeric it in
        let len := len num + len suffix in
        if bool_decide (suffix = ident_str "u8") then Ok (U8Token num, len)
        else if bool_decide (suffix = ident_str "u64") then Ok (U64Token num, len)
        else if bool_decide (suffix = ident_str "u128") then Ok (U128Token num, len)
        else bail
      else Ok (U64Token num, len num)
  | [] => Ok (U64Token num, len num)
  end.
(** The characters up to the closing quote, all of which satisfy [p] *)
Fixpoint quoted (p : char → bool) (it : str) : result unit str :=
  match it with
  | c :: it => if c =? 34 then Ok [] else if p c then r ← quoted p it; Ok (c :: r) else bail
  | [] => bail
  end.
Definition starts_with (c : char) (it : str) : bool := match it with d :: _ => d =? c | [] => false end.
(** [next_token]: the next token with its length *)
Definition next_token (s : str) : result unit (option (Token * N)) :=
  match s with
  | [] => Ok None
  | c :: it =>
      r ← (if c =? 60 then Ok (Lt_, 1)
           else if c =? 62 then Ok (Gt_, 1)
           else if c =? 44 then Ok (Comma, 1)
           else if c =? 58 then (if starts_with 58 it then Ok (ColonColon, 2) else bail)
           else if (c =? 48) && (starts_with 120 it || starts_with 88 it) then
             match tail it with
             | c :: it => if is_ascii_hexdigit c then let r := 48 :: 120 :: c :: take_while is_ascii_hexdigit it in Ok (AddressToken r, len r) else bail
             | [] => bail
             end
           else if is_ascii_digit c then next_number [c] it
           else if (c =? 98) && starts_with 34 it then
             r ← quoted is_ascii (tail it); Ok (BytesToken (hex_encode r), len r + 3)
           else if (c =? 120) && starts_with 34 it then
             r ← quoted is_ascii_hexdigit (tail it); Ok (BytesToken r, len r + 3)
           else if is_ascii_whitespace c then let r := c :: take_while is_ascii_whitespace it in Ok (Whitespace r, len r)
           else if is_ascii_alphabetic c then let r := c :: take_while is_valid_identifier_char it in Ok (name_token r, len r)
           else bail);
      Ok (Some r)
  end.
(** [&s[n..]], for a text that starts with [n] characters of ASCII: beyond ASCII bytes are
    not characters, and the model panics, as it does for an [n] that is too large. *)
Definition slice_from (n : N) (s : str) : result unit str :=
  let k := N.to_nat n in if (k <=? length s)%nat && forallb is_ascii (take k s) then Ok (drop k s) else Panic.
(** [tokenize]; every token has a character, so the length of the text is enough fuel. *)
Fixpoint tokenize_loop (fuel : nat) (s : str) : result unit (list Token) :=
  match fuel with
  | O => OutOfFuel
  | S fuel =>
      r ← next_token s;
      match r with
      | Some (tok, n) => s ← slice_from n s; v ← tokenize_loop fuel s; Ok (tok :: v)
      | None => Ok []
      end
  end.
Definition tokenize (s : str) : result unit (list Token) := tokenize_loop (S (length s)) s.

(** ** [account_address.rs] *)

(** [AccountAddress::from_hex], [from_hex_literal], [short_str_lossless] *)
Definition address_from_hex (hex : str) : result unit AccountAddress :=
  match hex_decode hex with Some bytes => if len bytes =? ADDRESS_LENGTH then Ok bytes else bail | None => bail end.
Definition from_hex_literal (literal : str) : result unit AccountAddress :=
  match literal with
  | 48 :: 120 :: hex =>
      if len hex <? ADDRESS_LENGTH * 2 then address_from_hex (replicate (N.to_nat (ADDRESS_LENGTH * 2 - len hex)) 48 ++ hex)
      else address_from_hex hex
  | _ => bail
  end.
Fixpoint trim_start_matches (c : char) (s : str) : str :=
  match s with d :: s' => if d =? c then trim_start_matches c s' else s | [] => [] end.
Definition short_str_lossless (self : AccountAddress) : str :=
  match trim_start_matches 48 (hex_encode self) with [] => [48] | s => s end.
Definition to_hex_literal (self : AccountAddress) : str := 48 :: 120 :: short_str_lossless self.

(** ** [struct Parser]: the tokens that are left *)

Definition Parser (A : Type) : Type := list Token → result unit (A * list Token).
#[local] Instance Parser_ret : MRet Parser := λ A a it, Ok (a, it).
#[local] Instance Parser_bind : MBind Parser := λ A B f m it, '(a, it) ← m it; f a it.
Definition parser_bail {A} : Parser A := λ _, bail.
Definition parser_lift {A} (r : result unit A) : Parser A := λ it, a ← r; Ok (a, it).
Definition next : Parser Token := λ it, match it with tok :: it => Ok (tok, it) | [] => bail end.
Definition peek : Parser (option Token) := λ it, Ok (head it, it).
Definition consume (tok : Token) : Parser unit := t ← next; if bool_decide (t ≠ tok) then parser_bail else mret tt.

(** [parse_comma_list]; the fuel bounds the items. *)
Fixpoint comma_loop {R} (parse_list_item : Parser R) (end_token : Token) (allow_trailing_comma : bool) (fuel : nat) : Parser (list R) :=
  match fuel with
  | O => λ _, OutOfFuel
  | S fuel =>
      x ← parse_list_item;
      p ← peek;
      if bool_decide (p = Some end_token) then mret [x] else
      _ ← consume Comma;
      p ← peek;
      if bool_decide (p = Some end_token) && allow_trailing_comma then mret [x] else
      v ← comma_loop parse_list_item end_token allow_trailing_comma fuel;
      mret (x :: v)
  end.
Definition parse_comma_list {R} (parse_list_item : Parser R) (end_token : Token) (allow_trailing_comma : bool) (fuel : nat) : Parser (list R) :=
  p ← peek;
  if bool_decide (p = Some end_token) then mret [] else comma_loop parse_list_item end_token allow_trailing_comma fuel.
Definition parse_string : Parser str := tok ← next; match tok with Name s => mret s | _ => parser_bail end.
(** [Identifier::new] *)
Definition new_identifier (s : str) : result unit Identifier := match Identifier_new s with Some i => Ok i | None => bail end.

Fixpoint parse_type_tag_tokens (fuel : nat) : Parser TypeTag :=
  match fuel with
  | O => λ _, OutOfFuel
  | S fuel =>
      tok ← next;
      match tok with
      | U8Type => mret TagU8
      | U64Type => mret TagU64
      | U128Type => mret TagU128
      | BoolType => mret TagBool
      | AddressType => mret TagAddress
      | SignerType => mret TagSigner
      | VectorType =>
          _ ← consume Lt_;
          ty ← parse_type_tag_tokens fuel;
          _ ← consume Gt_;
          mret (TagVector ty)
      | AddressToken addr =>
          _ ← consume ColonColon;
          tok ← next;
          match tok with
          | Name module =>
              _ ← consume ColonColon;
              tok ← next;
              match tok with
              | Name name =>
                  p ← peek;
                  ty_args ← (if bool_decide (p = Some Lt_) then
                               _ ← next;
                               ty_args ← parse_comma_list (parse_type_tag_tokens fuel) Gt_ true fuel;
                               _ ← consume Gt_;
                               mret ty_args
                             else mret []);
                  address ← parser_lift (from_hex_literal addr);
                  module ← parser_lift (new_identifier module);
                  name ← parser_lift (new_identifier name);
                  mret (TagStruct address module name ty_args)
              | _ => parser_bail
              end
          | _ => parser_bail
          end
      | _ => parser_bail
      end
  end.

(** ** Transaction arguments *)

Inductive TransactionArgument : Set :=
| ArgU8 (x : u8) | ArgU64 (x : N) | ArgU128 (x : N) | ArgAddress (a : AccountAddress) | ArgU8Vector (v : list u8) | ArgBool (b : bool).
(** [str::parse] of an unsigned integer, for a text of digits *)
Fixpoint parse_digits (max value : N) (s : str) : result unit N :=
  match s with
  | [] => Ok value
  | c :: s => let value := value * 10 + (c - 48) in if value <=? max then parse_digits max value s else bail
  end.
Definition parse_uint (max : N) (s : str) : result unit N := match s with [] => bail | _ => parse_digits max 0 s end.
Definition parse_transaction_argument_tokens : Parser TransactionArgument :=
  tok ← next;
  match tok with
  | U8Token s => x ← parser_lift (parse_uint u8_MAX s); mret (ArgU8 x)
  | U64Token s => x ← parser_lift (parse_uint u64_MAX s); mret (ArgU64 x)
  | U128Token s => x ← parser_lift (parse_uint u128_MAX s); mret (ArgU128 x)
  | TrueToken => mret (ArgBool true)
  | FalseToken => mret (ArgBool false)
  | AddressToken addr => a ← parser_lift (from_hex_literal addr); mret (ArgAddress a)
  | BytesToken s => match hex_decode s with Some v => mret (ArgU8Vector v) | None => parser_bail end
  | _ => parser_bail
  end.

(** ** [parse] and what it is used for *)

Definition parse {T} (f : nat → Parser T) (s : str) : result unit T :=
  tokens ← tokenize s;
  let tokens := filter (λ tok, is_whitespace tok = false) tokens ++ [EOF] in
  '(res, tokens) ← f (S (length tokens)) tokens;
  _ ← consume EOF tokens;
  Ok res.
Definition parse_string_list : str → result unit (list str) := parse (parse_comma_list parse_string EOF true).
Definition parse_type_tags : str → result unit (list TypeTag) :=
  parse (λ fuel, parse_comma_list (parse_type_tag_tokens fuel) EOF true fuel).
Definition parse_type_tag : str → result unit TypeTag := parse parse_type_tag_tokens.
Definition parse_transaction_arguments : str → result unit (list TransactionArgument) :=
  parse (parse_comma_list parse_transaction_argument_tokens EOF true).
Definition parse_transaction_argument : str → result unit TransactionArgument := parse (λ _, parse_transaction_argument_tokens).
Definition parse_struct_tag (s : str) : result unit StructTag :=
  type_tag ← parse_type_tag s;
  match type_tag with
  | TagStruct a m n ts => Ok {| stg_address := a; stg_module := m; stg_name := n; stg_type_params := ts |}
  | _ => bail
  end.

(** ** [Display] of tags *)

Fixpoint display (tag : TypeTag) : str :=
  match tag with
  | TagStruct address module name type_params =>
      to_hex_literal address ++ ident_str "::" ++ module ++ ident_str "::" ++ name ++
      match type_params with
      | [] => []
      | first_ty :: rest => ident_str "<" ++ display first_ty ++ concat (map (λ ty, ident_str ", " ++ display ty) rest) ++ ident_str ">"
      end
  | TagVector ty => ident_str "vector<" ++ display ty ++ ident_str ">"
  | TagU8 => ident_str "u8"
  | TagU64 => ident_str "u64"
  | TagU128 => ident_str "u128"
  | TagAddress => ident_str "address"
  | TagSigner => ident_str "signer"
  | TagBool => ident_str "bool"
  end.
End Tokens.

(** ** [transaction_argument.rs] *)

(** [From<TransactionArgument>] and [TryFrom<MoveValue>] *)
Definition move_value_of (val : TransactionArgument) : MoveValue :=
  match val with
  | ArgU8 i => MU8 i
  | ArgU64 i => MU64 i
  | ArgU128 i => MU128 i
  | ArgAddress a => MAddress a
  | ArgBool b => MBool b
  | ArgU8Vector v => move_vector_u8 v
  end.
Definition argument_of (val : MoveValue) : result unit TransactionArgument :=
  match val with
  | MU8 i => Ok (ArgU8 i)
  | MU64 i => Ok (ArgU64 i)
  | MU128 i => Ok (ArgU128 i)
  | MAddress a => Ok (ArgAddress a)
  | MBool b => Ok (ArgBool b)
  | MVector v => bytes ← collect (λ mv, match mv with MU8 byte => Ok byte | _ => bail end) v; Ok (ArgU8Vector bytes)
  | MSigner _ | MStruct _ => bail
  end.
(** [convert_txn_args]; [expect] panics. *)
Definition convert_txn_args {E} (args : list TransactionArgument) : result E (list (list u8)) :=
  collect (λ arg, bytes ← move_simple_serialize (move_value_of arg); unwrap bytes) args.

(** ** An implementation of hex *)

Definition hex_digit (n : N) : char := if n <? 10 then 48 + n else 87 + n.
Definition hex_value (c : char) : option N :=
  if between 48 57 c then Some (c - 48) else if between 97 102 c then Some (c - 87) else if between 65 70 c then Some (c - 55) else None.
Fixpoint decode_pairs (s : str) : option (list u8) :=
  match s with
  | [] => Some []
  | [_] => None
  | c :: d :: s => x ← hex_value c; y ← hex_value d; v ← decode_pairs s; Some (x * 16 + y :: v)
  end.
#[export] Instance plain_hex : Hex := {|
  hex_encode bytes := concat (map (λ b, [hex_digit (b / 16); hex_digit (b mod 16)]) bytes);
  hex_decode := decode_pairs |}.
Definition no_unicode (c : char) : bool := false.
(** The texts of the tests of [parser.rs] *)
Definition refused (s : string) : bool := match parse_transaction_argument no_unicode (ident_str s) with Err _ => true | _ => false end.
Example arguments_refused :
  forallb refused ["-3"; "0u42"; "0u645"; "0u64x"; "0u6 4"; "0u"; "256u8"; "18446744073709551616"; "18446744073709551616u64";
    "340282366920938463463374607431768211456u128"; "0xg"; "0x00g0"; "0x"; "0x_"; ""; "garbage"; "true3"; "3false"; "3 false"]%string = true.
Proof. by vm_compute. Qed.
Example parse_examples :
  parse_type_tag no_unicode (ident_str "0x1::Diem::Diem<0x1::XDX::XDX , vector<u8>,>") =
    Ok (TagStruct (replicate 31 0 ++ [1]) (ident_str "Diem") (ident_str "Diem")
      [TagStruct (replicate 31 0 ++ [1]) (ident_str "XDX") (ident_str "XDX") []; TagVector TagU8]) ∧
  parse_transaction_argument no_unicode (ident_str "18446744073709551615") = Ok (ArgU64 u64_MAX) ∧
  parse_transaction_argument no_unicode (ident_str "256u8") = Err tt ∧
  parse_transaction_argument no_unicode (ident_str "0X54afa3526") = parse_transaction_argument no_unicode (ident_str "0x54afa3526").
Proof. by vm_compute. Qed.

(** ** Every text is answered *)

(** [n] characters, at least one, that are ASCII, start the text. *)
Definition skips (n : N) (s : str) : Prop := ∃ c a b, s = (c :: a) ++ b ∧ n = len (c :: a) ∧ forallb is_ascii (c :: a) = true.
Lemma take_while_prefix p it : ∃ b, it = take_while p it ++ b ∧ forallb p (take_while p it) = true.
Proof.
  induction it as [|c it [b [Hb Hp]]]; [by exists []|]. cbn. destruct (p c) eqn:Hc; [|by exists (c :: it)].
  exists b. cbn. by rewrite Hc, <- Hb.
Qed.
Lemma all_ascii p s : (∀ c, p c = true → is_ascii c = true) → forallb p s = true → forallb is_ascii s = true.
Proof. rewrite !forallb_forall. auto. Qed.
Lemma word_char_ascii c : is_valid_identifier_char c = true → is_ascii c = true.
Proof. unfold is_valid_identifier_char, between, is_ascii. lia. Qed.
Lemma alphanumeric_ascii c : is_ascii_alphanumeric c = true → is_ascii c = true.
Proof. unfold is_ascii_alphanumeric, is_ascii_alphabetic, is_ascii_digit, between, is_ascii. lia. Qed.
Lemma digit_ascii c : is_ascii_digit c = true → is_ascii c = true.
Proof. unfold is_ascii_digit, between, is_ascii. lia. Qed.
Lemma hexdigit_ascii c : is_ascii_hexdigit c = true → is_ascii c = true.
Proof. unfold is_ascii_hexdigit, is_ascii_digit, between, is_ascii. lia. Qed.
Lemma space_ascii c : is_ascii_whitespace c = true → is_ascii c = true.
Proof. unfold is_ascii_whitespace, is_ascii. lia. Qed.
(** The characters of a class after a first one *)
Lemma class_skips p c it : is_ascii c = true → (∀ c, p c = true → is_ascii c = true) → skips (len (c :: take_while p it)) (c :: it).
Proof.
  intros Hc Hp. destruct (take_while_prefix p it) as (b & Hb & Ha). exists c, (take_while p it), b.
  split_and!; [cbn; by rewrite <- Hb|done|]. cbn. by rewrite Hc, (all_ascii p).
Qed.
Lemma number_ending num it : num ≠ [] → forallb is_ascii num = true → skips (len num) (num ++ it).
Proof. destruct num as [|c num]; [done|]. intros _ H. by exists c, num, it. Qed.
Lemma quoted_prefix p it r : quoted p it = Ok r → forallb p r = true ∧ ∃ b, it = r ++ 34 :: b.
Proof.
  revert r. induction it as [|c it IH]; [done|]. intros r. cbn [quoted]. case_match eqn:Hc; [intros [= <-]; apply N.eqb_eq in Hc as ->; eauto|].
  case_match eqn:Hp; [|done]. intros (r' & [Hr [b ->]]%IH & [= <-])%bind_Ok. cbn. rewrite Hp. eauto.
Qed.
Lemma quoted_skips p c it r : is_ascii c = true → (∀ c, p c = true → is_ascii c = true) → starts_with 34 it = true → quoted p (tail it) = Ok r →
  skips (len r + 3) (c :: it).
Proof.
  intros Hc Hp Hs [Hr [b Hb]]%quoted_prefix. destruct it as [|d it]; [done|]. cbn in Hs, Hb. apply N.eqb_eq in Hs as ->. subst it.
  exists c, (34 :: r ++ [34]), b. cbn. rewrite <- app_assoc, forallb_app, (all_ascii p r Hp Hr), Hc. split_and!; [done| |done].
  unfold len. cbn. rewrite length_app. cbn. lia.
Qed.
Lemma quote_opens (c d : char) it : (c =? d) && starts_with 34 it = true → starts_with 34 it = true.
Proof. by intros [_ H]%andb_true_iff. Qed.
Lemma char_skips c it : is_ascii c = true → skips 1 (c :: it).
Proof. intros H. exists c, [], it. cbn. by rewrite H. Qed.
Lemma slice_skips n s : skips n s → slice_from n s = Ok (drop (N.to_nat n) s) ∧ (length (drop (N.to_nat n) s) < length s)%nat.
Proof.
  intros (c & a & b & -> & -> & Ha). unfold slice_from, len. rewrite Nat2N.id, take_app_length, drop_app_length, length_app, Ha.
  rewrite (proj2 (Nat.leb_le _ _)) by lia. cbn [andb length]. split; [done|lia].
Qed.

Section Total.
Context {HX : Hex} (unicode_alphanumeric : char → bool).
Notation next_token := (next_token unicode_alphanumeric).
Notation tokenize := (tokenize unicode_alphanumeric).
#[local] Existing Instances Parser_ret Parser_bind.

Lemma next_number_total num it : no_panic (next_number unicode_alphanumeric num it).
Proof. revert num. induction it as [|c it IH]; intros num; [done|]. cbn [next_number]. repeat case_match; try done; apply IH. Qed.
Lemma quoted_total p it : no_panic (quoted p it).
Proof. induction it as [|c it IH]; [done|]. cbn [quoted]. repeat case_match; try done. by apply bind_no_panic. Qed.
Lemma next_token_total s : no_panic (next_token s).
Proof.
  destruct s as [|c it]; [done|]. unfold next_token. apply bind_no_panic; [|done].
  repeat (case_match; try done); try apply next_number_total; (apply bind_no_panic; [apply quoted_total|done]).
Qed.
Lemma next_number_skips num it tok n : num ≠ [] → forallb is_ascii num = true →
  next_number unicode_alphanumeric num it = Ok (tok, n) → skips n (num ++ it).
Proof.
  revert num. induction it as [|c it IH]; intros num Hne Ha; cbn [next_number]; [intros [= _ <-]; by apply number_ending|].
  destruct (is_ascii_digit c) eqn:Hd.
  { intros Hn%IH; [by rewrite <- app_assoc in Hn|by destruct num|]. rewrite forallb_app, Ha. cbn. by rewrite digit_ascii. }
  destruct (is_alphanumeric unicode_alphanumeric c); [|intros [= _ <-]; by apply number_ending].
  set (suffix := c :: take_while is_ascii_alphanumeric it).
  assert (forallb is_ascii suffix = true → skips (len num + len suffix) (num ++ c :: it)) as H.
  { intros Hs. destruct (take_while_prefix is_ascii_alphanumeric it) as (b & Hb & _). rewrite Hb. change (c :: ?a ++ b) with (suffix ++ b).
    rewrite app_assoc. assert (len num + len suffix = len (num ++ suffix)) as -> by (unfold len; rewrite length_app; lia).
    apply number_ending; [by destruct num|]. by rewrite forallb_app, Ha. }
  cbv zeta. repeat (case_bool_decide; [intros [= _ <-]; apply H; by match goal with Hs : suffix = _ |- _ => rewrite Hs end|]). by intros [=].
Qed.
Lemma next_token_skips s tok n : next_token s = Ok (Some (tok, n)) → skips n s.
Proof.
  destruct s as [|c it]; [done|]. unfold next_token. intros ([tok' n'] & Hr & [= -> ->])%bind_Ok. revert Hr.
  repeat (case_match; try done).
  1-3: intros [= _ <-]; by apply char_skips; unfold is_ascii; lia.
  - intros [= _ <-]. destruct it as [|d it]; [done|]. exists c, [d], it. cbn in *. unfold is_ascii. split_and!; [done..|lia].
  - intros [= _ <-]. destruct it as [|d it]; [done|]. cbn [tail] in *. subst it.
    destruct (take_while_prefix is_ascii_hexdigit l) as (b & Hb & Hl). exists c, (d :: c0 :: take_while is_ascii_hexdigit l), b.
    split_and!; [cbn; by rewrite <- Hb|done|]. cbn [forallb]. rewrite (all_ascii is_ascii_hexdigit _ hexdigit_ascii Hl).
    assert (is_ascii c0 = true) as -> by by apply hexdigit_ascii. cbn in *. unfold is_ascii. lia.
  - intros Hn%next_number_skips; [done..|]. cbn. by rewrite digit_ascii.
  - intros (r & Hr & [= _ <-])%bind_Ok. apply (quoted_skips is_ascii); [unfold is_ascii; lia|done| |done]. by apply (quote_opens c 98).
  - intros (r & Hr & [= _ <-])%bind_Ok. apply (quoted_skips is_ascii_hexdigit); [unfold is_ascii; lia|apply hexdigit_ascii| |done]. by apply (quote_opens c 120).
  - intros [= _ <-]. apply class_skips; [by apply space_ascii|apply space_ascii].
  - intros [= _ <-]. apply class_skips; [|apply word_char_ascii]. apply alphanumeric_ascii. unfold is_ascii_alphanumeric.
    match goal with H : is_ascii_alphabetic c = true |- _ => by rewrite H end.
Qed.
Lemma tokenize_total s : no_panic (tokenize s).
Proof.
  unfold tokenize. assert (∀ fuel s, (length s < fuel)%nat → no_panic (tokenize_loop unicode_alphanumeric fuel s)) as H; [|apply H; lia].
  clear s. induction fuel as [|fuel IH]; intros s Hs; [lia|]. cbn [tokenize_loop]. apply bind_no_panic; [apply next_token_total|].
  intros [[tok n]|] Hn; [|done]. apply next_token_skips, slice_skips in Hn as [-> Hl]. cbn [mbind result_bind].
  apply bind_no_panic; [|done]. apply IH. lia.
Qed.

(** A parser that answers every input of at most [n] tokens, and uses up at least [k] *)
Definition answers {A} (k n : nat) (m : Parser A) : Prop :=
  ∀ it, (length it <= n)%nat → no_panic (m it) ∧ ∀ a it', m it = Ok (a, it') → (length it' + k <= length it)%nat.
Lemma answers_ret {A} n (a : A) : answers 0 n (mret a).
Proof. intros it _. split; [done|]. intros a' it' [= <- <-]. lia. Qed.
Lemma answers_bail {A} k n : answers (A := A) k n parser_bail.
Proof. intros it _. by split. Qed.
Lemma answers_lift {A} (r : result unit A) n : no_panic r → answers 0 n (parser_lift r).
Proof. intros Hr it _. unfold parser_lift. destruct r; try done. split; [done|]. intros a' it' [= <- <-]. lia. Qed.
Lemma answers_next n : answers 1 n next.
Proof. intros [|tok it] _; cbn; (split; [done|]); [done|]. intros a it' [= <- <-]. lia. Qed.
Lemma answers_peek n : answers 0 n peek.
Proof. intros it _. split; [done|]. intros a it' [= <- <-]. lia. Qed.
Lemma answers_weaken {A} k k' n (m : Parser A) : (k' <= k)%nat → answers k n m → answers k' n m.
Proof. intros Hk H it Hit. destruct (H it Hit) as [H1 H2]. split; [done|]. intros a it' Ha. apply H2 in Ha. lia. Qed.
Lemma answers_bind {A B} k k' n n' (m : Parser A) (f : A → Parser B) : (n <= n' + k)%nat → answers k n m → (∀ a, answers k' n' (f a)) → answers (k + k') n (m ≫= f).
Proof.
  intros Hn Hm Hf it Hit. destruct (Hm it Hit) as [H1 H2]. unfold mbind, Parser_bind. split.
  - apply bind_no_panic; [done|]. intros [a it1] Ha. apply Hf. apply H2 in Ha. lia.
  - intros b it' ([a it1] & Ha & Hb)%bind_Ok. apply H2 in Ha. apply (Hf a) in Hb; lia.
Qed.
(** After a parser that uses up a token, fewer are left. *)
Lemma answers_then {A B} n (m : Parser A) (f : A → Parser B) : answers 1 (S n) m → (∀ a, answers 0 n (f a)) → answers 1 (S n) (m ≫= f).
Proof. intros Hm Hf. apply (answers_bind 1 0 (S n) n); [lia|done..]. Qed.
Lemma answers_after {A B} k n (m : Parser A) (f : A → Parser B) : answers 0 n m → (∀ a, answers k n (f a)) → answers k n (m ≫= f).
Proof. intros Hm Hf. apply (answers_bind 0 k n n); [lia|done..]. Qed.
Lemma answers_seq {A B} n (m : Parser A) (f : A → Parser B) : answers 1 n m → (∀ a, answers 0 n (f a)) → answers 1 n (m ≫= f).
Proof. intros Hm Hf. apply (answers_bind 1 0 n n); [lia|done..]. Qed.
Lemma answers_consume tok n : answers 1 n (consume tok).
Proof. apply answers_seq; [apply answers_next|]. intros t. case_bool_decide; [apply answers_bail|apply answers_ret]. Qed.

Lemma comma_loop_answers {R} (item : Parser R) end_token allow fuel n : answers 1 n item → (n < fuel)%nat → answers 1 n (comma_loop item end_token allow fuel).
Proof.
  revert n. induction fuel as [|fuel IH]; intros n Hi Hn; [lia|]. cbn [comma_loop]. apply answers_seq; [done|]. intros x.
  apply answers_after; [apply answers_peek|]. intros p. case_bool_decide; [apply answers_ret|].
  destruct n as [|n].
  { intros it Hit. destruct it; [|cbn in Hit; lia]. by split. }
  eapply answers_weaken; [|apply answers_then; [apply answers_consume|]]; [lia|]. intros _. apply answers_after; [apply answers_peek|]. intros p'.
  destruct (_ && _); [apply answers_ret|]. apply (answers_weaken 1); [lia|]. apply answers_seq; [|intros; apply answers_ret]. apply IH; [|lia].
  intros it Hit. apply Hi. lia.
Qed.
Lemma comma_list_answers {R} (item : Parser R) end_token allow fuel n : answers 1 n item → (n < fuel)%nat → answers 0 n (parse_comma_list item end_token allow fuel).
Proof.
  intros Hi Hn. apply answers_after; [apply answers_peek|]. intros p. case_bool_decide; [apply answers_ret|].
  eapply answers_weaken; [|by apply comma_loop_answers]. lia.
Qed.
Lemma address_total addr : no_panic (from_hex_literal addr).
Proof. unfold from_hex_literal, address_from_hex. repeat (case_match; try done). Qed.
Lemma identifier_total s : no_panic (new_identifier s).
Proof. unfold new_identifier. by case_match. Qed.
Lemma tag_parser_answers fuel n : (n < fuel)%nat → answers 1 n (parse_type_tag_tokens fuel).
Proof.
  revert n. induction fuel as [|fuel IH]; intros n Hn; [lia|]. destruct n as [|n].
  { intros it Hit. destruct it; [|cbn in Hit; lia]. by split. }
  assert (Hrec : answers 1 n (parse_type_tag_tokens fuel)) by (apply IH; lia). assert (Hrec0 := answers_weaken 1 0 n _ ltac:(lia) Hrec).
  assert (Hcon : ∀ tok, answers 0 n (consume tok)) by (intros tok; eapply answers_weaken; [|apply answers_consume]; lia).
  assert (Hnext : answers 0 n next) by (eapply answers_weaken; [|apply answers_next]; lia).
  cbn [parse_type_tag_tokens]. apply answers_then; [apply answers_next|]. intros []; try apply answers_ret; try apply answers_bail.
  - apply answers_after; [done|]. intros _. apply answers_after; [done|]. intros ty. apply answers_after; [done|]. intros _. apply answers_ret.
  - apply answers_after; [done|]. intros _. apply answers_after; [done|]. intros []; try apply answers_bail.
    apply answers_after; [done|]. intros _. apply answers_after; [done|]. intros []; try apply answers_bail.
    apply answers_after; [apply answers_peek|]. intros p. apply answers_after.
    + case_bool_decide; [|apply answers_ret]. apply answers_after; [done|]. intros _. apply answers_after; [apply comma_list_answers; [done|lia]|].
      intros tys. apply answers_after; [done|]. intros _. apply answers_ret.
    + intros tys. apply answers_after; [apply answers_lift, address_total|]. intros a. apply answers_after; [apply answers_lift, identifier_total|]. intros i.
      apply answers_after; [apply answers_lift, identifier_total|]. intros j. apply answers_ret.
Qed.
Lemma parse_uint_total max s : no_panic (parse_uint max s).
Proof.
  unfold parse_uint. destruct s as [|c s]; [done|]. generalize (c :: s) as t, 0 as v. induction t as [|d t IH]; intros v; [done|]. cbn [parse_digits].
  by destruct (_ <=? _).
Qed.
Lemma argument_parser_answers n : answers 1 n parse_transaction_argument_tokens.
Proof.
  apply answers_seq; [apply answers_next|]. intros []; try apply answers_ret; try apply answers_bail;
    try (apply answers_after; [apply answers_lift; first [apply parse_uint_total|apply address_total]|intros; apply answers_ret]).
  case_match; [apply answers_ret|apply answers_bail].
Qed.
Lemma string_parser_answers n : answers 1 n parse_string.
Proof. apply answers_seq; [apply answers_next|]. intros []; try apply answers_bail. apply answers_ret. Qed.
Lemma parse_total {T} (f : nat → Parser T) s : (∀ n fuel, (n < fuel)%nat → answers 0 n (f fuel)) → no_panic (parse unicode_alphanumeric f s).
Proof.
  intros Hf. unfold parse. apply bind_no_panic; [apply tokenize_total|]. intros tokens _. cbv zeta. set (ts := _ ++ [EOF]).
  destruct (Hf (length ts) (S (length ts)) ltac:(lia) ts ltac:(lia)) as [H1 H2]. apply bind_no_panic; [done|]. intros [res it] Hr. apply bind_no_panic; [|done].
  destruct (answers_consume EOF (length it) it ltac:(lia)) as [H3 _]. exact H3.
Qed.

(** Every text is answered: each parser ends with a result or an error, whatever the
    characters and however deep the tags are nested; no index is out of range, and the
    number of tokens is enough fuel. *)
Theorem parsers_answer (s : str) :
  no_panic (parse_type_tag unicode_alphanumeric s) ∧ no_panic (parse_type_tags unicode_alphanumeric s) ∧ no_panic (parse_struct_tag unicode_alphanumeric s) ∧
  no_panic (parse_string_list unicode_alphanumeric s) ∧
  no_panic (parse_transaction_argument unicode_alphanumeric s) ∧ no_panic (parse_transaction_arguments unicode_alphanumeric s).
Proof.
  assert (Htag : no_panic (parse_type_tag unicode_alphanumeric s)).
  { apply parse_total. intros n fuel Hn. eapply answers_weaken; [|by apply tag_parser_answers]. lia. }
  split_and!; [done|..].
  - apply parse_total. intros n fuel Hn. by apply comma_list_answers; [apply tag_parser_answers|].
  - apply bind_no_panic; [done|]. by intros [].
  - apply parse_total. intros n fuel Hn. apply comma_list_answers; [apply string_parser_answers|done].
  - apply parse_total. intros n fuel Hn. eapply answers_weaken; [|apply argument_parser_answers]. lia.
  - apply parse_total. intros n fuel Hn. apply comma_list_answers; [apply argument_parser_answers|done].
Qed.
End Total.

(** ** What is displayed is read back *)

Section Texts.
Context {HX : Hex} (unicode_alphanumeric : char → bool).
Notation next_token := (next_token unicode_alphanumeric).
Notation tokenize := (tokenize unicode_alphanumeric).
#[local] Existing Instances Parser_ret Parser_bind.

(** *** Tokens, one after the other *)

Lemma tokenize_fuel f f' s : (length s < f)%nat → (length s < f')%nat →
  tokenize_loop unicode_alphanumeric f s = tokenize_loop unicode_alphanumeric f' s.
Proof.
  revert f' s. induction f as [|f IH]; intros [|f'] s Hf Hf'; try lia. cbn [tokenize_loop].
  destruct (next_token s) as [[[tok n]|]| | |] eqn:Hn; try done. cbn [mbind result_bind].
  apply next_token_skips, slice_skips in Hn as [-> Hl]. cbn [mbind result_bind]. rewrite (IH f'); [done|lia..].
Qed.
(** One token off the text *)
Lemma tokenize_token a rest tok : next_token (a ++ rest) = Ok (Some (tok, len a)) →
  tokenize (a ++ rest) = v ← tokenize rest; Ok (tok :: v).
Proof.
  intros Hn. unfold tokenize at 1. cbn [tokenize_loop]. rewrite Hn. cbn [mbind result_bind].
  assert (drop (N.to_nat (len a)) (a ++ rest) = rest) as Hd by (unfold len; by rewrite Nat2N.id, drop_app_length).
  apply next_token_skips, slice_skips in Hn as [-> Hl]. rewrite Hd in *. cbn [mbind result_bind]. by rewrite (tokenize_fuel _ (S (length rest))) by lia.
Qed.
(** The text [s] is the tokens [toks] when one of [follow] comes after it. *)
Definition lexes (follow : str → Prop) (s : str) (toks : list Token) : Prop :=
  ∀ rest, follow rest → tokenize (s ++ rest) = v ← tokenize rest; Ok (toks ++ v).
Lemma lexes_app (follow follow' : str → Prop) s s' toks toks' :
  lexes follow s toks → lexes follow' s' toks' → (∀ rest, follow' rest → follow (s' ++ rest)) → lexes follow' (s ++ s') (toks ++ toks').
Proof.
  intros H H' Hf rest Hr. rewrite <- app_assoc, H by auto. rewrite H' by done. destruct (tokenize rest); try done.
  cbn. by rewrite app_assoc.
Qed.
Lemma lexes_nil follow : lexes follow [] [].
Proof. intros rest _. rewrite app_nil_l. by destruct (tokenize rest). Qed.
Lemma lexes_weaken (follow follow' : str → Prop) s toks : lexes follow s toks → (∀ rest, follow' rest → follow rest) → lexes follow' s toks.
Proof. intros H Hf rest Hr. auto. Qed.
Lemma lexes_token (follow : str → Prop) a tok : (∀ rest, follow rest → next_token (a ++ rest) = Ok (Some (tok, len a))) → lexes follow a [tok].
Proof. intros H rest Hr. rewrite (tokenize_token _ _ tok) by auto. done. Qed.
Definition anything (rest : str) : Prop := True.
(** What may come after a name or an address *)
Definition delimiter (rest : str) : Prop := match rest with [] => True | c :: _ => c ∈ ident_str "<>,: " end.
Definition no_space (rest : str) : Prop := match rest with [] => True | c :: _ => is_ascii_whitespace c = false end.

Lemma take_while_all p a rest : forallb p a = true → match rest with [] => True | c :: _ => p c = false end → take_while p (a ++ rest) = a.
Proof.
  intros Ha Hr. induction a as [|c a IH]; cbn in *.
  - destruct rest as [|c rest]; [done|]. cbn. by rewrite Hr.
  - apply andb_true_iff in Ha as [-> Ha]. by rewrite IH.
Qed.
Lemma delimiter_head (p : char → bool) rest : forallb (λ c, negb (p c)) (ident_str "<>,: ") = true → delimiter rest →
  match rest with [] => True | c :: _ => p c = false end.
Proof. intros Hp. destruct rest as [|c rest]; [done|]. cbn [delimiter]. rewrite forallb_forall in Hp. intros Hc%list_elem_of_In%Hp. by destruct (p c). Qed.

(** *** Names and addresses *)

(** A name that the tokenizer sees as one: it starts with a letter and is no keyword. *)
Definition readable_name (s : str) : bool :=
  match s with c :: r => is_ascii_alphabetic c && forallb is_valid_identifier_char r && bool_decide (name_token s = Name s) | [] => false end.
Lemma readable_name_valid s : readable_name s = true → is_valid s = true.
Proof.
  destruct s as [|c r]; [done|]. cbn. rewrite !andb_true_iff. intros [[Hc Hr] _]. unfold is_valid. case_decide; [done|].
  unfold is_ascii_alphabetic in Hc. rewrite orb_comm in Hc. rewrite Hc. unfold all_bytes_valid. by rewrite skipn_cons.
Qed.
Lemma word_lexes (c : char) (r : str) : is_ascii_alphabetic c = true → forallb is_valid_identifier_char r = true →
  lexes delimiter (c :: r) [name_token (c :: r)].
Proof.
  intros Hc Hr. apply lexes_token. intros rest Hrest. cbn [app]. unfold next_token.
  assert (H34 : starts_with 34 (r ++ rest) = false).
  { destruct r as [|d r]; cbn.
    - pose proof (delimiter_head (λ c, c =? 34) rest ltac:(done) Hrest). by destruct rest.
    - cbn in Hr. apply andb_true_iff in Hr as [Hd _]. unfold is_valid_identifier_char, between in Hd. lia. }
  rewrite H34, !andb_false_r, (take_while_all is_valid_identifier_char r rest Hr) by by apply (delimiter_head is_valid_identifier_char).
  rewrite Hc. unfold is_ascii_alphabetic, between in Hc. unfold is_ascii_digit, is_ascii_whitespace, between.
  repeat (case_match; [exfalso; lia|]). done.
Qed.
Lemma name_lexes s : readable_name s = true → lexes delimiter s [Name s].
Proof.
  destruct s as [|c r]; [done|]. cbn [readable_name]. rewrite !andb_true_iff. intros [[Hc Hr] Hn%bool_decide_eq_true_1].
  rewrite <- Hn. by apply word_lexes.
Qed.

(** The texts of the punctuation of tags and of the types without names *)
Lemma punctuation_lexes :
  lexes anything (ident_str "<") [Lt_] ∧ lexes anything (ident_str ">") [Gt_] ∧ lexes anything (ident_str ",") [Comma] ∧
  lexes anything (ident_str "::") [ColonColon] ∧ lexes no_space (ident_str " ") [Whitespace (ident_str " ")].
Proof.
  split_and!; apply lexes_token; intros rest Hr; try done.
  cbn. destruct rest as [|c rest]; [done|]. cbn in Hr. cbn. by rewrite Hr.
Qed.
Lemma keyword_lexes k tok : (k, tok) ∈ keywords → lexes delimiter k [tok].
Proof.
  intros Hk. assert (match k with c :: r => is_ascii_alphabetic c && forallb is_valid_identifier_char r && bool_decide (name_token k = tok) | [] => false end = true) as H.
  { unfold keywords in Hk. rewrite !elem_of_cons, elem_of_nil in Hk. decompose [or] Hk; try done; by simplify_eq/=. }
  destruct k as [|c r]; [done|]. rewrite !andb_true_iff in H. destruct H as [[Hc Hr] <-%bool_decide_eq_true_1]. by apply word_lexes.
Qed.

Context {HL : HexLaws}.
Lemma trim_spec c s : ∃ k, s = replicate k c ++ trim_start_matches c s.
Proof.
  induction s as [|d s [k IH]]; [by exists O|]. cbn. case_match eqn:Hd; [|by exists O].
  apply N.eqb_eq in Hd as ->. exists (S k). cbn. by rewrite <- IH.
Qed.
Lemma hex_digits a : AccountAddress_ok a → Forall (λ c, is_ascii_hexdigit c = true) (hex_encode a).
Proof.
  intros [_ Ha]. eapply Forall_impl; [by apply hex_encode_digits|]. intros c. cbv beta. unfold is_lower_hex, is_ascii_hexdigit, is_ascii_digit.
  destruct (between 48 57 c), (between 97 102 c); by rewrite ?orb_true_r.
Qed.
Lemma short_str_digits a : AccountAddress_ok a → ∃ c r, short_str_lossless a = c :: r ∧ is_ascii_hexdigit c = true ∧ forallb is_ascii_hexdigit r = true.
Proof.
  intros Ha%hex_digits. unfold short_str_lossless. destruct (trim_spec 48 (hex_encode a)) as [k Hk]. rewrite Hk in Ha.
  apply Forall_app in Ha as [_ Ha]. destruct (trim_start_matches 48 (hex_encode a)) as [|c r]; [by exists 48, []|].
  exists c, r. apply Forall_cons in Ha as [Hc Hr]. split_and!; [done..|]. apply forallb_forall. intros x Hx%list_elem_of_In.
  rewrite Forall_forall in Hr. auto.
Qed.
Lemma literal_lexes a : AccountAddress_ok a → lexes delimiter (to_hex_literal a) [AddressToken (to_hex_literal a)].
Proof.
  intros (c & r & Hs & Hc & Hr)%short_str_digits. unfold to_hex_literal. rewrite Hs. apply lexes_token. intros rest Hrest.
  unfold next_token. cbn [app starts_with tail]. rewrite Hc, (take_while_all is_ascii_hexdigit r rest Hr); [done|].
  by apply (delimiter_head is_ascii_hexdigit).
Qed.
(** The literal of an address is read as the address. *)
Lemma hex_literal_round_trip a : AccountAddress_ok a → from_hex_literal (to_hex_literal a) = Ok a.
Proof.
  intros [Hlen Ha]. unfold to_hex_literal, from_hex_literal, short_str_lossless.
  assert (H64 : len (hex_encode a) = 64) by (rewrite hex_encode_length, Hlen; done).
  assert (Hread : address_from_hex (hex_encode a) = Ok a).
  { unfold address_from_hex. by rewrite hex_decode_encode, Hlen by done. }
  assert (Hpad : ∀ s k, hex_encode a = replicate k 48 ++ s →
    (if len s <? ADDRESS_LENGTH * 2 then address_from_hex (replicate (N.to_nat (ADDRESS_LENGTH * 2 - len s)) 48 ++ s) else address_from_hex s) = Ok a).
  { intros s k Hk. rewrite <- Hread, Hk. pose proof H64 as Hl. rewrite Hk in Hl. unfold len in *. rewrite length_app, length_replicate in Hl.
    change (ADDRESS_LENGTH * 2) with 64. case_match eqn:E; [apply N.ltb_lt in E; do 2 f_equal; f_equal; lia|]. apply N.ltb_ge in E.
    assert (k = O) as -> by lia. done. }
  destruct (trim_spec 48 (hex_encode a)) as [k Hk]. destruct (trim_start_matches 48 (hex_encode a)) as [|c r] eqn:Ht; [|by apply (Hpad (c :: r) k)].
  destruct k as [|k]; [by rewrite Hk in H64|]. apply (Hpad [48] k). rewrite Hk, app_nil_r. by rewrite <- replicate_cons_app.
Qed.

(** *** Tags *)

(** A tag whose addresses are addresses and whose names are readable *)
Fixpoint displayable (tag : TypeTag) : Prop :=
  match tag with
  | TagStruct address module name type_params =>
      AccountAddress_ok address ∧ readable_name module = true ∧ readable_name name = true ∧ foldr (λ ty P, displayable ty ∧ P) True type_params
  | TagVector ty => displayable ty
  | _ => True
  end.
Lemma displayable_params tys : foldr (λ ty P, displayable ty ∧ P) True tys ↔ Forall displayable tys.
Proof. induction tys as [|ty tys IH]; [by split|]. cbn. by rewrite Forall_cons, IH. Qed.
(** The tokens of a tag, with [space] between its parameters *)
Fixpoint tokens_of (space : list Token) (tag : TypeTag) : list Token :=
  match tag with
  | TagStruct address module name type_params =>
      AddressToken (to_hex_literal address) :: ColonColon :: Name module :: ColonColon :: Name name ::
      match type_params with
      | [] => []
      | first_ty :: rest => Lt_ :: tokens_of space first_ty ++ concat (map (λ ty, Comma :: space ++ tokens_of space ty) rest) ++ [Gt_]
      end
  | TagVector ty => VectorType :: Lt_ :: tokens_of space ty ++ [Gt_]
  | TagU8 => [U8Type]
  | TagU64 => [U64Type]
  | TagU128 => [U128Type]
  | TagAddress => [AddressType]
  | TagSigner => [SignerType]
  | TagBool => [BoolType]
  end.

Notation space := [Whitespace (ident_str " ")].
Lemma display_head tag rest : no_space (display tag ++ rest).
Proof. by destruct tag. Qed.
Lemma delimiter_cons c rest : bool_decide (c ∈ ident_str "<>,: ") = true → delimiter (c :: rest).
Proof. by intros ?%bool_decide_eq_true_1. Qed.
(** The parameters of a tag after the first one, with the closing bracket *)
Lemma params_read tys : Forall (λ ty, lexes delimiter (display ty) (tokens_of space ty)) tys →
  lexes anything (concat (map (λ ty, ident_str ", " ++ display ty) tys) ++ ident_str ">") (concat (map (λ ty, Comma :: space ++ tokens_of space ty) tys) ++ [Gt_]) ∧
  ∀ rest, delimiter ((concat (map (λ ty, ident_str ", " ++ display ty) tys) ++ ident_str ">") ++ rest).
Proof.
  destruct punctuation_lexes as (_ & Hgt & Hcomma & _ & Hspace). induction 1 as [|ty tys Hty _ [IH Hd]]; (split; [|intros rest; by apply delimiter_cons]).
  - done.
  - cbn [map concat]. change (ident_str ", ") with (ident_str "," ++ ident_str " "). rewrite <- !app_assoc.
    change (Comma :: space ++ ?a) with ([Comma] ++ space ++ a). rewrite <- !app_assoc.
    eapply lexes_app; [exact Hcomma| |done]. eapply lexes_app; [exact Hspace| |intros rest _; rewrite <- app_assoc; apply display_head].
    eapply lexes_app; [exact Hty|exact IH|auto].
Qed.
(** The text of a tag is its tokens. *)
Lemma display_lexes tag : displayable tag → lexes delimiter (display tag) (tokens_of space tag).
Proof.
  destruct punctuation_lexes as (Hlt & Hgt & _ & Hcolons & _).
  induction tag as [| | | | | |ty IH|address module name tys IH] using tag_ind; try (intros _; apply keyword_lexes; unfold keywords; set_solver).
  - intros Hty%IH. cbn [display tokens_of]. change (ident_str "vector<") with (ident_str "vector" ++ ident_str "<"). rewrite <- app_assoc.
    change (VectorType :: Lt_ :: ?a) with ([VectorType] ++ [Lt_] ++ a).
    eapply lexes_app; [apply keyword_lexes; unfold keywords; set_solver| |intros rest _; by apply delimiter_cons].
    eapply lexes_app; [exact Hlt| |done]. eapply lexes_app; [exact Hty|eapply lexes_weaken; [exact Hgt|done]|intros rest _; by apply delimiter_cons].
  - cbn [displayable]. rewrite displayable_params. intros (Ha & Hm & Hn & Htys).
    assert (Hcc : ∀ rest, delimiter (ident_str "::" ++ rest)) by (intros rest; by apply delimiter_cons).
    cbn [display tokens_of]. change (AddressToken ?a :: ColonColon :: Name ?b :: ColonColon :: Name ?c :: ?r) with ([AddressToken a] ++ [ColonColon] ++ [Name b] ++ [ColonColon] ++ [Name c] ++ r).
    eapply lexes_app; [by apply literal_lexes| |intros rest _; apply Hcc]. eapply lexes_app; [exact Hcolons| |done].
    eapply lexes_app; [by apply name_lexes| |intros rest _; apply Hcc]. eapply lexes_app; [exact Hcolons| |done].
    eapply lexes_app; [by apply name_lexes| |].
    + destruct tys as [|ty tys]; [apply lexes_nil|]. apply Forall_cons in IH as [IH IHs]. apply Forall_cons in Htys as [Hty Htys].
      assert (Hs : Forall (λ ty, lexes delimiter (display ty) (tokens_of space ty)) tys) by (rewrite Forall_forall in *; auto).
      apply params_read in Hs as [Hs Hd]. change (Lt_ :: ?a) with ([Lt_] ++ a).
      eapply lexes_app; [exact Hlt| |done]. eapply lexes_app; [by apply IH|eapply lexes_weaken; [exact Hs|done]|auto].
    + intros rest Hr. destruct tys as [|ty tys]; [done|]. by apply delimiter_cons.
Qed.

(** *** Parsing the tokens *)

Lemma filter_tokens tag : filter (λ tok, is_whitespace tok = false) (tokens_of space tag) = tokens_of [] tag.
Proof.
  induction tag as [| | | | | |ty IH|address module name tys IH] using tag_ind; try done; cbn [tokens_of].
  - rewrite !filter_cons_True, filter_app, IH by done. done.
  - rewrite !filter_cons_True by done. do 5 f_equal. destruct tys as [|ty tys]; [done|]. apply Forall_cons in IH as [IH IHs].
    rewrite filter_cons_True, !filter_app, IH by done. do 3 f_equal. induction IHs as [|ty' tys' Hty _ IHt]; [done|]. cbn [map concat].
    change ((Comma :: ?a) ++ ?b) with (Comma :: a ++ b). rewrite filter_cons_True, !filter_app, Hty, IHt by done. done.
Qed.
Lemma tokens_head tag it : ∃ tok r, tokens_of [] tag ++ it = tok :: r ∧ tok ≠ Gt_.
Proof. destruct tag; by eexists _, _. Qed.
Lemma peek_not tag it : bool_decide (head (tokens_of [] tag ++ it) = Some Gt_) = false.
Proof. destruct (tokens_head tag it) as (tok & r & -> & Hg). apply bool_decide_eq_false_2. by intros [= ->]. Qed.
(** A parser reads the tokens of a tag, when nothing after them belongs to the tag. *)
Definition parses_tag (item : Parser TypeTag) (tag : TypeTag) : Prop :=
  ∀ it, head it ≠ Some Lt_ → item (tokens_of [] tag ++ it) = Ok (tag, it).
Lemma parser_bind_ok {A B} (m : Parser A) (f : A → Parser B) a it it' : m it = Ok (a, it') → (m ≫= f) it = f a it'.
Proof. intros H. unfold mbind, Parser_bind. by rewrite H. Qed.
Lemma comma_loop_tokens item tys fuel ty it : (length tys < fuel)%nat → Forall (parses_tag item) (ty :: tys) →
  comma_loop item Gt_ true fuel (tokens_of [] ty ++ concat (map (λ ty, Comma :: [] ++ tokens_of [] ty) tys) ++ Gt_ :: it) = Ok (ty :: tys, Gt_ :: it).
Proof.
  revert fuel ty. induction tys as [|ty' tys IH]; intros [|fuel] ty Hf Htys; cbn [length] in *; try lia; apply Forall_cons in Htys as [Hty Htys]; cbn [comma_loop].
  - erewrite parser_bind_ok by by apply Hty. done.
  - cbn [map concat]. rewrite <- app_assoc. erewrite parser_bind_ok by by apply Hty. cbn [app].
    erewrite parser_bind_ok by done. cbn [head]. change (bool_decide (Some Comma = Some Gt_)) with false. cbv beta iota.
    erewrite parser_bind_ok by done. erewrite parser_bind_ok by done. rewrite peek_not. cbn [andb].
    erewrite parser_bind_ok by (apply (IH fuel ty'); [lia|done]). done.
Qed.
Lemma params_length tys :
  let tokens := concat (map (λ ty, Comma :: [] ++ tokens_of [] ty) tys) in
  (length tys <= length tokens)%nat ∧ ∀ ty, ty ∈ tys → (length (tokens_of [] ty) < length tokens)%nat.
Proof.
  induction tys as [|ty tys [IH IHs]]; [split; [done|]; by intros ty ?%elem_of_nil|]. cbn in *. rewrite length_app. split; [lia|].
  intros ty' [->|Hty%IHs]%elem_of_cons; lia.
Qed.
(** With fuel for its tokens the parser reads a tag from them. *)
Lemma tag_parses fuel tag : (length (tokens_of [] tag) < fuel)%nat → displayable tag → parses_tag (parse_type_tag_tokens fuel) tag.
Proof.
  revert tag. induction fuel as [|fuel IH]; [lia|]. intros tag Hf Hok it Hit.
  destruct tag as [| | | | | |ty|address module name tys]; try done; cbn [tokens_of length] in Hf; cbn [tokens_of app parse_type_tag_tokens].
  - erewrite parser_bind_ok by done. cbv beta iota. erewrite parser_bind_ok by done. rewrite length_app in Hf. rewrite <- app_assoc.
    erewrite parser_bind_ok by (apply IH; [lia|done|done]). done.
  - cbn [displayable] in Hok. rewrite displayable_params in Hok. destruct Hok as (Ha & Hm & Hn & Htys).
    do 5 (erewrite parser_bind_ok by done; cbv beta iota). set (r := _ ++ it). cbv beta iota.
    erewrite parser_bind_ok by done. erewrite (parser_bind_ok _ _ tys _ it).
    + erewrite parser_bind_ok by (unfold parser_lift; by rewrite hex_literal_round_trip).
      do 2 erewrite parser_bind_ok by (unfold parser_lift, new_identifier, Identifier_new; by rewrite readable_name_valid). done.
    + subst r. destruct tys as [|ty tys]; [cbn [app]; by rewrite bool_decide_eq_false_2|]. cbn [app head].
      change (bool_decide (Some Lt_ = Some Lt_)) with true. cbv beta iota. erewrite parser_bind_ok by done.
      rewrite <- !app_assoc. cbn [length] in Hf. rewrite !length_app in Hf.
      erewrite (parser_bind_ok _ _ (ty :: tys) _ (Gt_ :: it)); [done|]. unfold parse_comma_list. erewrite parser_bind_ok by done. rewrite peek_not.
      pose proof (params_length tys) as [Hl Hls]. cbn [length] in Hf. apply comma_loop_tokens; [lia|]. apply Forall_cons in Htys as [Hty Htys].
      constructor; [apply IH; [lia|done]|]. apply Forall_forall. intros ty' Hty'. rewrite Forall_forall in Htys. apply Hls in Hty' as Hl'. apply IH; [lia|auto].
Qed.

(** What is displayed is read back: a tag whose addresses have their length, and whose
    names start with a letter and are no keywords, is read from the text that displays it. *)
Lemma display_round_trip tag : displayable tag → parse_type_tag unicode_alphanumeric (display tag) = Ok tag.
Proof.
  intros Hok. pose proof (display_lexes tag Hok [] I) as Ht. rewrite app_nil_r in Ht. unfold parse_type_tag, parse. rewrite Ht.
  change (tokenize []) with (Ok (E := unit) ([] : list Token)). cbn [mbind result_bind]. rewrite app_nil_r, filter_tokens. cbv zeta.
  rewrite tag_parses by (rewrite ?length_app; cbn; try lia; done). done.
Qed.
Lemma struct_display_round_trip (tag : StructTag) : displayable (struct_tag tag) →
  parse_struct_tag unicode_alphanumeric (display (struct_tag tag)) = Ok tag.
Proof. intros Hok. unfold parse_struct_tag. rewrite display_round_trip by done. by destruct tag. Qed.
End Texts.

(** Two names that are valid and that no text names: a struct [vector], and a name that
    starts with an underscore *)
Example unreadable_names :
  is_valid (ident_str "_a") = true ∧ is_valid (ident_str "vector") = true ∧
  parse_type_tag no_unicode (display (TagStruct (replicate 32 1) (ident_str "M") (ident_str "_a") [])) = Err tt ∧
  parse_type_tag no_unicode (display (TagStruct (replicate 32 1) (ident_str "M") (ident_str "vector") [])) = Err tt.
Proof. by vm_compute. Qed.

(** *** The laws hold of an implementation of hex. *)

Lemma hex_digit_value n : n < 16 → hex_value (hex_digit n) = Some n ∧ is_lower_hex (hex_digit n) = true.
Proof. intros Hn. assert (n ∈ N.of_nat <$> seq 0 16) as H; [|by repeat (apply elem_of_cons in H as [->|H]; [done|]); apply elem_of_nil in H].
  apply list_elem_of_fmap. exists (N.to_nat n). rewrite elem_of_seq. lia. Qed.
#[export] Instance plain_hex_laws : HexLaws.
Proof.
  split.
  - intros bytes. induction 1 as [|b bytes Hb _ IH]; [done|]. cbn [hex_encode hex_decode plain_hex map concat app decode_pairs] in *.
    destruct (hex_digit_value (b / 16)) as [-> _]; [apply N.Div0.div_lt_upper_bound; lia|].
    destruct (hex_digit_value (b mod 16)) as [-> _]; [by apply N.mod_lt|]. cbn. cbn in IH. rewrite IH. cbn. do 2 f_equal. pose proof (N.div_mod b 16). lia.
  - intros bytes. induction bytes as [|b bytes IH]; [done|]. unfold len in *. cbn in *. lia.
  - intros bytes. induction 1 as [|b bytes Hb _ IH]; [by constructor|]. cbn [hex_encode plain_hex map concat app].
    repeat constructor; [apply hex_digit_value..|done]; [apply N.Div0.div_lt_upper_bound; lia|by apply N.mod_lt].
Qed.

(** ** Numbers *)

(** The number that digits write *)
Definition digits_value (value : N) (s : str) : N := foldl (λ v c, v * 10 + (c - 48)) value s.
Lemma digits_value_le v s : v <= digits_value v s.
Proof. revert v. induction s as [|c s IH]; intros v; cbn; [lia|]. etrans; [|apply IH]. lia. Qed.
(** A number is read exactly, or refused when it is too large or there is no digit. *)
Lemma parse_uint_spec max s : parse_uint max s = if bool_decide (s ≠ [] ∧ digits_value 0 s <= max) then Ok (digits_value 0 s) else Err tt.
Proof.
  assert (∀ v, v <= max → parse_digits max v s = if digits_value v s <=? max then Ok (digits_value v s) else Err tt) as H.
  { induction s as [|c s IH]; intros v Hv; cbn; [by rewrite (proj2 (N.leb_le _ _) Hv)|]. case_match eqn:E; [apply IH; lia|].
    pose proof (digits_value_le (v * 10 + (c - 48)) s). unfold digits_value in *. by case_match; [lia|]. }
  unfold parse_uint. destruct s as [|c s]; [done|]. rewrite H by lia. case_bool_decide; case_match; try done; exfalso; naive_solver lia.
Qed.

(** ** Arguments *)

(** An argument is the argument of its value. *)
Lemma argument_round_trip arg : argument_of (move_value_of arg) = Ok arg.
Proof.
  destruct arg as [| | | |v|]; try done. cbn. assert (∀ v, collect (λ mv, match mv with MU8 byte => Ok byte | _ => bail end) (MU8 <$> v) = Ok (E := unit) v) as H.
  { clear v. induction v as [|b v IH]; [done|]. cbn. by rewrite IH. }
  by rewrite H.
Qed.
