(* ===== verification/Host.v ===== *)
(** * Host: transactions on a host's storage

    Models [mvm/src/mvm.rs] with the transactions and results of [types.rs] and
    [error.rs], and the start of a chain in [genesis.rs]: a transaction runs in a session
    of the virtual machine over the resolvers of Balances, and its effects go to the host
    at the end, unless it failed or was a dry run.

    The theorems: committed effects are in storage as the change set says; a transaction
    that fails, and a dry run, change neither storage nor balances; publishing a package
    puts its modules in storage and nothing else; a fork of storage is a storage, and the
    initial state is stored as a whole or not at all; how signers are given to a script;
    and gas never overflows. *)

From Stdlib Require Import String.
From S2P Require Import Prelude CoreTypes VmStatus Abilities FileFormat Errors BinaryCommon Uleb Loader Serializer Deserializer Views BoundsChecker Integers RuntimeTypes Heap Values GlobalValues Layouts SignatureChecker Graphs StructDefs InstantiationLoops CyclicDependencies Dependencies Linking Bcs BcsCodecs MoveValues MoveValueCodec ValueCodec Gas LoadedCode Machine Interpreter Execution Effects TypeTags Loading Loads DataCache Runtime Keys Balances.

(** ** [error.rs] and [types.rs] *)

Inductive Category : Set :=
| INVALID_STATE | REQUIRES_ADDRESS | REQUIRES_ROLE | REQUIRES_CAPABILITY | NOT_PUBLISHED | ALREADY_PUBLISHED
| INVALID_ARGUMENT | LIMIT_EXCEEDED | INTERNAL | CUSTOM.
Record SubStatus : Set := { su_category : Category; su_reason : u64 }.
Definition SubStatus_new (code : u64) : SubStatus :=
  {| su_category := match wrap 8 code with
                    | 1 => INVALID_STATE | 2 => REQUIRES_ADDRESS | 3 => REQUIRES_ROLE | 4 => REQUIRES_CAPABILITY
                    | 5 => NOT_PUBLISHED | 6 => ALREADY_PUBLISHED | 7 => INVALID_ARGUMENT | 8 => LIMIT_EXCEEDED
                    | 10 => INTERNAL | _ => CUSTOM
                    end;
     su_reason := N.shiftr code 8 |}.

Definition GAS_AMOUNT_MAX_VALUE : u64 := u64_MAX / 1000.
(** [struct Gas]; errors of [anyhow] are not told apart. *)
Record TxGas : Set := { max_gas_amount : u64; gas_unit_price : u64 }.
Definition Gas_new (max_gas_amount gas_unit_price : u64) : result unit TxGas :=
  if max_gas_amount <? GAS_AMOUNT_MAX_VALUE then Ok {| max_gas_amount := max_gas_amount; gas_unit_price := gas_unit_price |} else Err tt.
Definition Gas_infinite : TxGas := {| max_gas_amount := GAS_AMOUNT_MAX_VALUE; gas_unit_price := 1 |}.

Record ModuleTx : Set := { mt_code : list u8; mt_sender : AccountAddress }.
Record PublishPackageTx : Set := { pp_modules : list (list u8); pp_address : AccountAddress }.
Definition package_join (self pac : list (list u8)) : list (list u8) := self ++ pac.
Definition package_into_tx (self : list (list u8)) (address : AccountAddress) : PublishPackageTx := {| pp_modules := self; pp_address := address |}.

Inductive Call : Set :=
| CallScript (code : list u8)
| CallScriptFunction (mod_address : AccountAddress) (mod_name func_name : Identifier).
Record ScriptTx : Set := { sx_call : Call; sx_args : list (list u8); sx_type_args : list TypeTag; sx_signers : list AccountAddress }.
Inductive ScriptArg : Set :=
| ArgU8 (x : u8) | ArgU64 (x : u64) | ArgU128 (x : u128) | ArgBool (x : bool) | ArgAddress (x : AccountAddress)
| ArgVectorU8 (x : list u8) | ArgVectorU64 (x : list u64) | ArgVectorU128 (x : list u128) | ArgVectorBool (x : list bool)
| ArgVectorAddress (x : list AccountAddress).
Definition script_arg_into (arg : ScriptArg) : MoveValue :=
  match arg with
  | ArgU8 val => MU8 val | ArgU64 val => MU64 val | ArgU128 val => MU128 val | ArgBool val => MBool val | ArgAddress val => MAddress val
  | ArgVectorU8 val => move_vector_u8 val
  | ArgVectorU64 val => MVector (MU64 <$> val)
  | ArgVectorU128 val => MVector (MU128 <$> val)
  | ArgVectorBool val => MVector (MBool <$> val)
  | ArgVectorAddress val => MVector (MAddress <$> val)
  end.
Definition with_script (code : list u8) (args : list ScriptArg) (type_args : list TypeTag) (signers : list AccountAddress) : result unit ScriptTx :=
  args ← map_err (λ _, tt) (collect (λ arg, to_bytes (serialize_move (script_arg_into arg))) args);
  Ok {| sx_call := CallScript code; sx_args := args; sx_type_args := type_args; sx_signers := signers |}.

Inductive Signer : Set := SignerRoot | SignerPlaceholder | SignerName (name : list u8).
(** [enum Transaction], which has one version *)
Record TxV1 : Set := { tx_signers : list Signer; tx_call : Call; tx_args : list (list u8); tx_type_args : list TypeTag }.
(** The closure of [into_script], on the signers that are left *)
Definition into_signer (s : Signer) : Run (list AccountAddress) unit AccountAddress := λ signers,
  match s with
  | SignerRoot => (Ok diem_root_address, signers)
  | SignerPlaceholder => match signers with signer :: signers => (Ok signer, signers) | [] => (Err tt, signers) end
  | SignerName _ => (Err tt, signers)
  end.
Definition into_script (self : TxV1) (signers : list AccountAddress) : result unit ScriptTx :=
  signers ← (run_collect into_signer (tx_signers self) signers).1;
  Ok {| sx_call := tx_call self; sx_args := tx_args self; sx_type_args := tx_type_args self; sx_signers := signers |}.
Definition has_root_signer (self : TxV1) : bool := existsb (λ s, match s with SignerRoot => true | _ => false end) (tx_signers self).
Definition is_placeholder (s : Signer) : bool := match s with SignerPlaceholder => true | _ => false end.
Definition signers_count (self : TxV1) : N := len (List.filter is_placeholder (tx_signers self)).

Record VmResult : Set := { vr_status_code : StatusCode; vr_sub_status : option SubStatus; vr_gas_used : u64; vr_location : option Location }.
Definition VmResult_new (status_code : StatusCode) (sub_status : option u64) (location : option Location) (gas_used : u64) : VmResult :=
  {| vr_status_code := status_code; vr_sub_status := SubStatus_new <$> sub_status; vr_gas_used := gas_used; vr_location := location |}.

(** *** [Serialize for VMStatus] *)

Definition serialize_status_code (self : StatusCode) : Serialize := serialize_u64 (status_to_u64 self).
Definition serialize_abort_location (self : AbortLocation) : Serialize :=
  match self with
  | AbortModule id => serialize_newtype_variant "AbortLocation" 0 (serialize_module_id id)
  | AbortScript => serialize_unit_variant 1
  end.
(** A tuple variant begins as a struct variant does. *)
Definition serialize_vm_status (self : VMStatus) : Serialize :=
  match self with
  | VMExecuted => serialize_unit_variant 0
  | VmStatus.VMError code => serialize_newtype_variant "VMStatus" 1 (serialize_status_code code)
  | VMMoveAbort location code => λ self,
      t ← serialize_struct_variant "VMStatus" 2 2 self;
      t ← serialize_element (serialize_abort_location location) t;
      t ← serialize_element (serialize_u64 code) t;
      Ok (output t)
  | VMExecutionFailure status_code location function code_offset => λ self,
      t ← serialize_struct_variant "VMStatus" 3 4 self;
      t ← serialize_element (serialize_status_code status_code) t;
      t ← serialize_element (serialize_abort_location location) t;
      t ← serialize_element (serialize_u16 function) t;
      t ← serialize_element (serialize_u16 code_offset) t;
      Ok (output t)
  end.

(** ** [mvm.rs] *)

(** [struct Mvm], with the caches of its virtual machine *)
Record Mvm {S E B Native : Type} : Type := {
  vm_loader : Loader Native;
  vm_types : TypeCache;
  vm_cost_table : CostTable;
  vm_state : S;
  vm_event_handler : E;
  vm_master_of_coin : @MasterOfCoin B }.

Definition tried {E F A} (r : result E A) : result F (result E A) :=
  match r with Ok a => Ok (Ok a) | Err e => Ok (Err e) | Panic => Panic | OutOfFuel => OutOfFuel end.
(** The events of a transaction's effects, and its balance operations *)
Definition TxEffects : Set := ChangeSet * list Event * list BalanceOp.

Section Mvm.
Context {S E B Native G : Type} `{Graph G Node Edge} `{Toposort StructDefinitionIndex} `{!Storage S, !EventHandler E, !BalanceAccess B}.
Context `{!NativeCalls (@TransactionDataCache (@StateSession S B)) Native}.
Context (debug overflow_checks : bool) (verifier_fuel load_fuel run_fuel : nat).
Context (natives : NativeFunctions Native) (sha3_256 : list u8 → ScriptHash).
Context (mapper_order : gmap StructTag (option (list u8)) → list (StructTag * option (list u8))).
Notation Mvm := (@Mvm S E B Native).
Notation MvmM := (Run Mvm unit).

(** [new_with_config], given what its virtual machine is made of *)
Definition Mvm_new (store : S) (event_handler : E) (balance : B) (gas_schedule : CostTable) : Mvm :=
  {| vm_loader := Loader_new natives; vm_types := TypeCache_new; vm_cost_table := gas_schedule; vm_state := store;
     vm_event_handler := event_handler; vm_master_of_coin := MasterOfCoin_new balance |}.
(** [Mvm::clear]: [MoveVM::clear] and [MasterOfCoin::clear] *)
Definition mvm_clear (self : Mvm) : Mvm :=
  {| vm_loader := {| l_scripts := cache_new; l_module_cache := ModuleCache_new; l_natives := l_natives (vm_loader self) |};
     vm_types := TypeCache_new; vm_cost_table := vm_cost_table self; vm_state := vm_state self;
     vm_event_handler := vm_event_handler self; vm_master_of_coin := coin_clear (vm_master_of_coin self) |}.
Definition set_state (state : S) (self : Mvm) : Mvm :=
  {| vm_loader := vm_loader self; vm_types := vm_types self; vm_cost_table := vm_cost_table self; vm_state := state;
     vm_event_handler := vm_event_handler self; vm_master_of_coin := vm_master_of_coin self |}.
Definition set_event_handler (event_handler : E) (self : Mvm) : Mvm :=
  {| vm_loader := vm_loader self; vm_types := vm_types self; vm_cost_table := vm_cost_table self; vm_state := vm_state self;
     vm_event_handler := event_handler; vm_master_of_coin := vm_master_of_coin self |}.
Definition set_master_of_coin (master : @MasterOfCoin B) (self : Mvm) : Mvm :=
  {| vm_loader := vm_loader self; vm_types := vm_types self; vm_cost_table := vm_cost_table self; vm_state := vm_state self;
     vm_event_handler := vm_event_handler self; vm_master_of_coin := master |}.
Definition set_vm (loader : Loader Native) (types : TypeCache) (self : Mvm) : Mvm :=
  {| vm_loader := loader; vm_types := types; vm_cost_table := vm_cost_table self; vm_state := vm_state self;
     vm_event_handler := vm_event_handler self; vm_master_of_coin := vm_master_of_coin self |}.

(** [handle_tx_effects] *)
Definition write_item (key : result unit AccessKey) (val : option (list u8)) : MvmM unit :=
  key ← run_lift key;
  run_modify (λ self, set_state (match val with None => state_delete key (vm_state self) | Some blob => state_insert key blob (vm_state self) end) self).
Definition write_account (p : AccountAddress * AccountChangeSet) : MvmM unit :=
  _ ← run_each (λ q, write_item (module_key {| mid_address := p.1; mid_name := q.1 |}) q.2) (map_to_list (acs_modules p.2));
  run_each (λ q, write_item (resource_key p.1 q.1) q.2) (map_to_list (acs_resources p.2)).
Definition send_event (event : Event) : MvmM unit :=
  let '(guid, seq_num, ty_tag, msg) := event in
  run_modify (λ self, set_event_handler (on_event guid seq_num ty_tag msg (vm_event_handler self)) self).
Definition move_balance (op : BalanceOp) : MvmM unit :=
  run_modify (λ self, set_master_of_coin (update_balance op (vm_master_of_coin self)) self).
Definition handle_tx_effects (tx_effects : TxEffects) : MvmM unit :=
  let '(change_set, events, balance_op) := tx_effects in
  _ ← run_each write_account (map_to_list change_set);
  _ ← run_each send_event events;
  run_each move_balance balance_op.

(** [emit_vm_status_event]; a message that cannot be made is logged. *)
Definition vm_status_tag : TypeTag :=
  struct_tag {| stg_address := CORE_CODE_ADDRESS; stg_module := ident_str "VMStatus"; stg_name := ident_str "VMStatus"; stg_type_params := [] |}.
Definition emit_vm_status_event (sender : AccountAddress) (status : VMStatus) : MvmM unit :=
  msg ← run_lift (ok_ (to_bytes (serialize_vm_status status)));
  match msg with
  | Some msg => send_event (to_le_bytes 8 0 ++ sender, 0, vm_status_tag, msg)
  | None => mret tt
  end.
(** [handle_vm_result] *)
Definition failed (err : VMError) (gas_used : u64) : VmResult :=
  VmResult_new (ve_major_status err) (ve_sub_status err) (Some (ve_location err)) gas_used.
Definition handle_vm_result (sender : AccountAddress) (cost_strategy : GasStatus) (gas_meta : TxGas) (result : result VMError TxEffects)
    (dry_run : bool) : MvmM VmResult :=
  result ← run_lift (tried result);
  gas_used ← run_lift (remaining ← remaining_gas cost_strategy; gas_sub overflow_checks (max_gas_amount gas_meta) remaining);
  if dry_run then
    mret (match result with Ok _ => VmResult_new EXECUTED None None gas_used | Err err => failed err gas_used | Panic | OutOfFuel => failed (undefined UNKNOWN_STATUS) gas_used end)
  else match result with
  | Ok e => _ ← handle_tx_effects e; mret (VmResult_new EXECUTED None None gas_used)
  | Err err =>
      status ← run_lift (map_err (λ _, tt) (into_vm_status debug err));
      _ ← emit_vm_status_event sender status;
      mret (failed err gas_used)
  | Panic | OutOfFuel => mret (failed (undefined UNKNOWN_STATUS) gas_used)
  end.

(** *** Calls of the session *)

Section Calls.
Context {R : Type} `{!MoveResolver R}.
Notation SessionM := (Run (@Session R Native) VMError).
Definition in_gas {A} (m : Run GasStatus VMError A) : SessionM A :=
  in_context (λ _ ctx, let '(r, gas) := m (c_gas ctx) in (r, {| c_heap := c_heap ctx; c_store := c_store ctx; c_gas := gas |})).
(** [charge_global_write_gas_usage] *)
Definition charge_global_write_gas_usage (sender : AccountAddress) : SessionM unit :=
  accounts ← at_undefined (in_data (λ _ s, in_heap (num_mutated_accounts sender s.2) s));
  constants ← run_get (λ s, gas_constants (Gas.cost_table (c_gas (ss_context s))));
  total_cost ← run_lift (per_account ← gas_mul overflow_checks (global_memory_per_byte_write_cost constants) (default_account_size constants);
                         gas_mul overflow_checks accounts per_account);
  in_gas (run_map_err (λ p_err, finish p_err LUndefined) (deduct_gas total_cost)).
(** [_publish_module] *)
Definition publish_modules (modules : list (list u8)) (sender : AccountAddress) : SessionM unit :=
  _ ← in_gas (charge_intrinsic_gas overflow_checks (len modules));
  result ← run_try (publish_module_bundle (G := G) debug overflow_checks verifier_fuel load_fuel natives modules sender);
  _ ← charge_global_write_gas_usage sender;
  run_lift result.
(** A session from its start to its end: the outcome, the meter, the resolver and the virtual machine after it *)
Definition run_session {A} (remote : R) (cost_strategy : GasStatus) (m : SessionM A) (self : Mvm) : result VMError A * GasStatus * R * Mvm :=
  let '(r, s) := m (new_session remote (vm_loader self) (vm_types self) cost_strategy) in
  let store := c_store (ss_context s) in
  (r, c_gas (ss_context s), td_remote store, set_vm (ss_loader s) (td_type_cache store) self).
End Calls.

Definition no_balances (effects : ChangeSet * list Event) : TxEffects := (effects, []).
(** [publish_module_package], and [publish_module] of one module *)
Definition publish_module_package (gas : TxGas) (package : PublishPackageTx) (dry_run : bool) : MvmM VmResult := λ self,
  match GasStatus_new (E := unit) overflow_checks (vm_cost_table self) (max_gas_amount gas) with
  | Ok cost_strategy =>
      let '(result, cost_strategy, _, self) := run_session (R := S) (vm_state self) cost_strategy
        (_ ← publish_modules (pp_modules package) (pp_address package); finish_session) self in
      handle_vm_result (pp_address package) cost_strategy gas (no_balances <$> result) dry_run self
  | _ => (Panic, self)
  end.
Definition publish_module (gas : TxGas) (module : ModuleTx) (dry_run : bool) : MvmM VmResult :=
  publish_module_package gas {| pp_modules := [mt_code module]; pp_address := mt_sender module |} dry_run.

(** Sessions over the host; [native_mapper] is what they change of it. *)
Definition learned (session : @StateSession S B) (self : Mvm) : Mvm :=
  set_master_of_coin {| mc_access := mc_access (vm_master_of_coin self);
    mc_native_mapper := mc_native_mapper (ms_master_of_coin (st_coin_session session)) |} self.
Definition run_state_session {A} (context : option ExecutionContext) (cost_strategy : GasStatus) (m : Run (@Session (@StateSession S B) Native) VMError A) (self : Mvm)
  : result VMError A * GasStatus * StateSession * Mvm :=
  let '(result, cost_strategy, session, self) :=
    run_session (state_session (vm_state self) context (vm_master_of_coin self)) cost_strategy m self in
  (result, cost_strategy, session, learned session self).
Definition execute_function (sender : AccountAddress) (gas : TxGas) (module : ModuleId) (function_name : Identifier) (ty_args : list TypeTag)
    (args : list (list u8)) (context : option ExecutionContext) : MvmM VmResult := λ self,
  match GasStatus_new (E := unit) overflow_checks (vm_cost_table self) (max_gas_amount gas) with
  | Ok cost_strategy =>
      let '(result, cost_strategy, _, self) := run_state_session context cost_strategy
        (_ ← Runtime.execute_function (G := G) debug overflow_checks verifier_fuel load_fuel run_fuel natives module function_name ty_args args;
         finish_session) self in
      handle_vm_result sender cost_strategy gas (no_balances <$> result) false self
  | _ => (Panic, self)
  end.
Definition run_call (call : Call) (type_args : list TypeTag) (args : list (list u8)) (senders : list AccountAddress)
  : Run (@Session (@StateSession S B) Native) VMError unit :=
  match call with
  | CallScript code =>
      Runtime.execute_script (G := G) debug overflow_checks verifier_fuel load_fuel run_fuel natives sha3_256 code type_args args senders
  | CallScriptFunction mod_address mod_name func_name =>
      execute_script_function (G := G) debug overflow_checks verifier_fuel load_fuel run_fuel natives
        {| mid_address := mod_address; mid_name := mod_name |} func_name type_args args senders
  end.
Definition execute_script (gas : TxGas) (context : ExecutionContext) (tx : ScriptTx) (dry_run : bool) : MvmM VmResult := λ self,
  match GasStatus_new (E := unit) overflow_checks (vm_cost_table self) (max_gas_amount gas) with
  | Ok cost_strategy =>
      let sender := default ZERO (head (sx_signers tx)) in
      let '(result, cost_strategy, session, self) := run_state_session (Some context) cost_strategy
        (_ ← run_call (sx_call tx) (sx_type_args tx) (sx_args tx) (sx_signers tx);
         _ ← charge_global_write_gas_usage sender;
         finish_session) self in
      handle_vm_result sender cost_strategy gas (vm_effects ← result; session_finish mapper_order session vm_effects) dry_run self
  | _ => (Panic, self)
  end.

(** [StateAccess] *)
Definition access_module (self : Mvm) (module_id : list u8) : result unit (option (list u8)) :=
  module_id ← map_err (λ _, tt) (module_id_from_bytes module_id);
  state_get_module (vm_state self) module_id.
Definition access_resource (address : AccountAddress) (tag : list u8) : MvmM (option (list u8)) := λ self,
  match struct_tag_from_bytes tag with
  | Ok tag =>
      let '(r, session) := session_get_resource address tag (state_session (vm_state self) None (vm_master_of_coin self)) in
      (r, learned session self)
  | Err _ => (Err tt, self)
  | Panic => (Panic, self)
  | OutOfFuel => (OutOfFuel, self)
  end.
End Mvm.

(** ** What a commit stores *)

#[export] Instance StoredItem_eq_dec : EqDecision StoredItem.
Proof. solve_decision. Defined.
(** What a change set says of an item of storage *)
Definition cs_change (cs : ChangeSet) (x : StoredItem) : option (option (list u8)) :=
  match x with
  | ModuleItem id => modules_of cs (mid_address id) !! mid_name id
  | ResourceItem addr tag => resources_of cs addr !! tag
  end.
Definition account_items (p : AccountAddress * AccountChangeSet) : list (StoredItem * option (list u8)) :=
  ((λ q, (ModuleItem {| mid_address := p.1; mid_name := q.1 |}, q.2)) <$> map_to_list (acs_modules p.2)) ++
  ((λ q, (ResourceItem p.1 q.1, q.2)) <$> map_to_list (acs_resources p.2)).
Definition cs_items (cs : ChangeSet) : list (StoredItem * option (list u8)) := map_to_list cs ≫= account_items.
Lemma elem_of_items cs x v : (x, v) ∈ cs_items cs ↔ cs_change cs x = Some v.
Proof.
  unfold cs_items. rewrite list_elem_of_bind. split.
  - intros ([addr acs] & Hx & Hin%elem_of_map_to_list). unfold account_items in Hx. cbn [fst snd] in Hx.
    apply elem_of_app in Hx as [([name w] & [= -> ->] & Hq%elem_of_map_to_list)%list_elem_of_fmap|([tag w] & [= -> ->] & Hq%elem_of_map_to_list)%list_elem_of_fmap];
      cbn; [unfold modules_of|unfold resources_of]; by rewrite Hin.
  - intros Hc. destruct x as [id|addr tag]; cbn in Hc; [unfold modules_of in Hc|unfold resources_of in Hc].
    + destruct (cs !! mid_address id) as [acs|] eqn:Ha; [|by rewrite lookup_empty in Hc]. exists (mid_address id, acs).
      split; [|by apply elem_of_map_to_list]. apply elem_of_app. left. apply list_elem_of_fmap. exists (mid_name id, v).
      split; [by destruct id|by apply elem_of_map_to_list].
    + destruct (cs !! addr) as [acs|] eqn:Ha; [|by rewrite lookup_empty in Hc]. exists (addr, acs).
      split; [|by apply elem_of_map_to_list]. apply elem_of_app. right. apply list_elem_of_fmap. exists (tag, v). split; [done|by apply elem_of_map_to_list].
Qed.
Definition stores (x : StoredItem) : Prop := item_ok x ∧ ∃ key, item_key x = Ok key.

Lemma run_each_app {S E A} (f : A → Run S E unit) l1 l2 s : run_each f (l1 ++ l2) s = (run_each f l1 ≫= λ _, run_each f l2) s.
Proof.
  revert s. induction l1 as [|x l1 IH]; intros s; [done|]. cbn [run_each app]. rewrite !run_bind_eq. destruct (f x s) as [[[]|e| |] s']; [apply IH|done..].
Qed.
Lemma run_each_fmap {S E A B} (g : A → B) (f : B → Run S E unit) l s : run_each f (g <$> l) s = run_each (λ x, f (g x)) l s.
Proof.
  revert s. induction l as [|x l IH]; intros s; [done|]. cbn [run_each fmap list_fmap]. rewrite !run_bind_eq. destruct (f (g x) s) as [[[]|e| |] s']; [apply IH|done..].
Qed.
Lemma run_each_ext {S E A} (f g : A → Run S E unit) l s : (∀ x s, f x s = g x s) → run_each f l s = run_each g l s.
Proof. intros H. revert s. induction l as [|x l IH]; intros s; [done|]. cbn [run_each]. rewrite !run_bind_eq, H. destruct (g x s) as [[[]|e| |] s']; [apply IH|done..]. Qed.
Lemma run_each_bind {S E A B} (g : A → list B) (f : B → Run S E unit) l s : run_each f (l ≫= g) s = run_each (λ x, run_each f (g x)) l s.
Proof.
  revert s. induction l as [|x l IH]; intros s; [done|]. cbn [mbind list_bind run_each]. rewrite run_each_app, !run_bind_eq.
  destruct (run_each f (g x) s) as [[[]|e| |] s']; [apply IH|done..].
Qed.

Section Commit.
Context {S E B Native : Type} `{!Storage S, !EventHandler E, !BalanceAccess B, !StorageLaws S}.
Notation Mvm := (@Mvm S E B Native).
Definition write_one (p : StoredItem * option (list u8)) : Run Mvm unit unit := write_item (item_key p.1) p.2.
Lemma write_all_spec (l : list (StoredItem * option (list u8))) (self : Mvm) : Forall (λ p, stores p.1) l →
  ∃ state, run_each write_one l self = (Ok tt, set_state state self) ∧
    ∀ x key, item_ok x → item_key x = Ok key →
      (∀ v, (x, v) ∈ l → (∀ v', (x, v') ∈ l → v' = v) → storage_get state key = v) ∧
      (x ∉ l.*1 → storage_get state key = storage_get (vm_state self) key).
Proof.
  revert self. induction l as [|[y w] l IH]; intros self Hl.
  { exists (vm_state self). split; [by destruct self|]. intros x key _ _. split; [by intros v ?%elem_of_nil|done]. }
  apply Forall_cons in Hl as [(Hy & ky & Hky) Hl]. cbn [fst] in Hy, Hky.
  set (state1 := match w with None => state_delete ky (vm_state self) | Some blob => state_insert ky blob (vm_state self) end).
  assert (H1 : write_one (y, w) self = (Ok tt, set_state state1 self)).
  { unfold write_one, write_item. cbn [fst snd] in *. rewrite run_bind_eq, Hky. done. }
  assert (Hget : ∀ x key, item_ok x → item_key x = Ok key → storage_get state1 key = if decide (x = y) then w else storage_get (vm_state self) key).
  { intros x key Hx Hkey. assert (storage_get state1 key = if decide (key = ky) then w else storage_get (vm_state self) key) as ->.
    { unfold state1, state_delete, state_insert. destruct w; [apply get_insert|apply get_remove]. }
    destruct (decide (x = y)) as [->|Hne]; [rewrite Hky in Hkey; injection Hkey as ->; by rewrite decide_True|].
    rewrite decide_False; [done|]. intros ->. apply Hne. by eapply storage_keys_injective. }
  destruct (IH (set_state state1 self) Hl) as (state & Hrun & Hspec). exists state. split.
  { cbn [run_each]. by rewrite run_bind_eq, H1, Hrun. }
  intros x key Hx Hkey. destruct (Hspec x key Hx Hkey) as [Hin Hnot]. split.
  - intros v Hv Huniq. destruct (decide (x ∈ l.*1)) as [Hxl|Hxl].
    + apply list_elem_of_fmap in Hxl as ([x' v'] & -> & Hv'). cbn [fst] in *. assert (v' = v) as -> by (apply Huniq; by right).
      apply Hin; [done|]. intros v'' H''. apply Huniq. by right.
    + rewrite (Hnot) by done. cbn [vm_state set_state]. rewrite (Hget x key) by done. apply elem_of_cons in Hv as [Hv|Hv].
      * injection Hv as -> ->. by rewrite decide_True.
      * destruct Hxl. apply list_elem_of_fmap. by exists (x, v).
  - cbn. intros [Hne Hxl]%not_elem_of_cons. rewrite (Hnot) by done. cbn. rewrite (Hget x key) by done. by rewrite decide_False.
Qed.
Lemma write_changes_spec (cs : ChangeSet) (self : Mvm) : (∀ x v, cs_change cs x = Some v → stores x) →
  ∃ state, run_each write_account (map_to_list cs) self = (Ok tt, set_state state self) ∧
    ∀ x key, item_ok x → item_key x = Ok key → storage_get state key = change (cs_change cs x) (storage_get (vm_state self) key).
Proof.
  intros Hok. destruct (write_all_spec (cs_items cs) self) as (state & Hrun & Hspec).
  { apply Forall_forall. intros [x v] Hin. by eapply Hok, elem_of_items. }
  exists state. split.
  - rewrite <- Hrun. unfold cs_items. rewrite run_each_bind. apply run_each_ext. intros p s. unfold write_account, account_items.
    rewrite run_each_app, !run_bind_eq, run_each_fmap. cbn [fst snd].
    match goal with |- match ?a with _ => _ end = match ?b with _ => _ end => change b with a; destruct a as [[[]|e| |] s'] end; try done. by rewrite run_each_fmap.
  - intros x key Hx Hkey. destruct (Hspec x key Hx Hkey) as [Hin Hnot]. destruct (cs_change cs x) as [v|] eqn:Hc.
    + cbn. apply Hin; [by apply elem_of_items|]. intros v' Hv'%elem_of_items. congruence.
    + cbn. apply Hnot. intros ([x' v] & -> & Hv%elem_of_items)%list_elem_of_fmap. cbn in Hc. congruence.
Qed.
Definition send_events (events : list Event) (handler : E) : E := foldl (λ h '(guid, seq, ty, msg), on_event guid seq ty msg h) handler events.
Lemma send_events_spec events (self : Mvm) : run_each send_event events self = (Ok tt, set_event_handler (send_events events (vm_event_handler self)) self).
Proof.
  revert self. induction events as [|[[[guid seq] ty] msg] events IH]; intros self; [by destruct self|].
  cbn [run_each]. rewrite run_bind_eq. unfold send_event at 1, run_modify. by rewrite IH.
Qed.
Lemma move_balances_spec ops (self : Mvm) : run_each move_balance ops self = (Ok tt, set_master_of_coin (update_balances ops (vm_master_of_coin self)) self).
Proof.
  revert self. induction ops as [|op ops IH]; intros self; [by destruct self|].
  cbn [run_each]. rewrite run_bind_eq. unfold move_balance at 1, run_modify. by rewrite IH.
Qed.
(** The state after a commit *)
Definition committed (cs : ChangeSet) (events : list Event) (ops : list BalanceOp) (self self' : Mvm) : Prop :=
  ∃ state, self' = set_master_of_coin (update_balances ops (vm_master_of_coin self)) (set_event_handler (send_events events (vm_event_handler self)) (set_state state self)) ∧
    ∀ x key, item_ok x → item_key x = Ok key → storage_get state key = change (cs_change cs x) (storage_get (vm_state self) key).
Lemma handle_tx_effects_spec cs events ops (self : Mvm) : (∀ x v, cs_change cs x = Some v → stores x) →
  ∃ self', handle_tx_effects (cs, events, ops) self = (Ok tt, self') ∧ committed cs events ops self self'.
Proof.
  intros Hok. destruct (write_changes_spec cs self Hok) as (state & Hrun & Hs).
  eexists. split; [|by exists state]. unfold handle_tx_effects. rewrite run_bind_eq, Hrun, run_bind_eq, send_events_spec, move_balances_spec. done.
Qed.

(** C10. Committing effects whose changed items have keys stores what the change set says:
    each module and resource of storage has its new contents, or is gone, or is as before,
    whatever the order of the writes; every event is sent, in order; and every balance
    operation is made, in order. *)
Theorem effects_committed (cs : ChangeSet) (events : list Event) (ops : list BalanceOp) (self : Mvm) :
  (∀ x v, cs_change cs x = Some v → stores x) →
  ∃ self', handle_tx_effects (cs, events, ops) self = (Ok tt, self') ∧ committed cs events ops self self'.
Proof. apply handle_tx_effects_spec. Qed.
End Commit.

(** ** Gas of a session *)

Section Spending.
Context {R Native G : Type} `{Graph G Node Edge} `{Toposort StructDefinitionIndex} `{!MoveResolver R, !NativeCalls (@TransactionDataCache R) Native}.
Context (debug overflow_checks : bool) (verifier_fuel load_fuel run_fuel : nat).
Context (natives : NativeFunctions Native) (sha3_256 : list u8 → ScriptHash).
Notation SessionM E := (Run (@Session R Native) E).
Definition spent (s s' : @Session R Native) : Prop := gas_used (c_gas (ss_context s)) (c_gas (ss_context s')).
Definition spends {E A} (m : SessionM E A) : Prop := ∀ s, spent s (m s).2.
Lemma spends_bind {E A B} (m : SessionM E A) (k : A → SessionM E B) : spends m → (∀ a, spends (k a)) → spends (m ≫= k).
Proof.
  intros Hm Hk s. rewrite run_bind_eq. specialize (Hm s). destruct (m s) as [[a|e| |] s1]; try done.
  unfold spent in *. etrans; [exact Hm|apply Hk].
Qed.
Lemma spends_lift {E A} (r : result E A) : spends (run_lift r).
Proof. by intros s. Qed.
Lemma spends_get {E A} (f : @Session R Native → A) : spends (E := E) (run_get f).
Proof. by intros s. Qed.
Lemma spends_loader {A} (m : (ModuleId → result VMError (list u8)) → Run (Loader Native) VMError A) : spends (in_loader m).
Proof. intros s. unfold in_loader. by destruct (m _ _). Qed.
Lemma spends_data {A} (m : ModuleCache Native → Run (Heap * TransactionDataCache) PartialVMError A) : spends (in_data m).
Proof. intros s. unfold in_data, in_context, context_store. by destruct (m _ _) as [r [h d]]. Qed.
Lemma spends_undefined {A} (m : SessionM PartialVMError A) : spends m → spends (at_undefined m).
Proof. intros Hm s. unfold at_undefined, run_map_err. specialize (Hm s). by destruct (m s). Qed.
Lemma spends_try {E A} (m : SessionM E A) : spends m → spends (run_try m).
Proof. intros Hm s. unfold run_try. specialize (Hm s). by destruct (m s) as [[]]. Qed.
Lemma spends_gas {A} (m : Run GasStatus VMError A) : (∀ g, gas_used g (m g).2) → spends (in_gas m).
Proof. intros Hm s. unfold in_gas, in_context. specialize (Hm (c_gas (ss_context s))). by destruct (m _). Qed.
Lemma spends_run function ty_args args : spends (run_function overflow_checks run_fuel function ty_args args).
Proof.
  apply spends_bind; [|intros; apply spends_lift]. intros s. unfold in_context, entrypoint, execute_main, spent.
  unfold run_map_err, context_heap. destruct (initial_locals _ _ _) as [[locals h]| | |]; cbn; [|done..].
  match goal with |- context [main_loop ?oc ?f ?l ?m] => pose proof (@round_main _ _ (TransactionDataCache_DataStore (l_module_cache (ss_loader s))) _ oc f l m) as Hm; destruct (main_loop oc f l m) as [r s'] end.
  apply Hm.
Qed.
Lemma spends_finish : spends finish_session.
Proof. apply spends_undefined, spends_data. Qed.
Lemma spends_write sender : spends (charge_global_write_gas_usage overflow_checks sender).
Proof.
  apply spends_bind; [apply spends_undefined, spends_data|intros accounts]. apply spends_bind; [apply spends_get|intros constants].
  apply spends_bind; [apply spends_lift|intros cost]. apply spends_gas. intros g. unfold run_map_err.
  pose proof (deduct_used cost g) as Hd. by destruct (deduct_gas cost g).
Qed.
Lemma intrinsic_used size g : gas_used g (charge_intrinsic_gas overflow_checks size g).2.
Proof.
  unfold charge_intrinsic_gas. pose proof (amount_used (calculate_intrinsic_gas overflow_checks size (gas_constants (Gas.cost_table g))) g) as Ha.
  match goal with |- gas_used _ (let (_, _) := ?m in _).2 => change (gas_used g m.2) in Ha; by destruct m end.
Qed.
Lemma spends_publish_bundle modules sender : spends (publish_module_bundle (G := G) debug overflow_checks verifier_fuel load_fuel natives modules sender).
Proof.
  intros s. pose proof (publish_bundle_all (G := G) debug overflow_checks verifier_fuel load_fuel natives modules sender s) as Hp. unfold spent.
  destruct (Runtime.publish_module_bundle _ _ _ _ _ _ _ s) as [[[]|e| |] s']; cbn; [destruct Hp as (_ & _ & ->); done|by rewrite Hp..].
Qed.
Lemma spends_publish modules sender : spends (publish_modules (G := G) debug overflow_checks verifier_fuel load_fuel natives modules sender).
Proof.
  apply spends_bind; [apply spends_gas, intrinsic_used|intros []]. apply spends_bind; [apply spends_try, spends_publish_bundle|intros r].
  apply spends_bind; [apply spends_write|intros; apply spends_lift].
Qed.
Lemma spends_script script ty_args args senders :
  spends (Runtime.execute_script (G := G) debug overflow_checks verifier_fuel load_fuel run_fuel natives sha3_256 script ty_args args senders).
Proof.
  apply spends_bind; [apply spends_loader|intros [[main tys] params]]. apply spends_bind; [apply spends_undefined, spends_data|intros vals].
  apply spends_bind; [apply spends_run|intros; apply spends_lift].
Qed.
Lemma spends_function_impl module name ty_args make_args is_script :
  spends (execute_function_impl (G := G) debug overflow_checks verifier_fuel load_fuel run_fuel natives module name ty_args make_args is_script).
Proof.
  apply spends_bind; [apply spends_loader|intros [[[func tys] params] rets]]. apply spends_bind; [apply spends_undefined, spends_data|intros layouts].
  apply spends_bind; [apply spends_lift|intros params']. apply spends_bind; [apply spends_undefined, spends_data|intros vals].
  apply spends_bind; [apply spends_run|intros rvals]. destruct (negb _); [apply spends_lift|]. apply spends_undefined, spends_data.
Qed.
Lemma spends_script_function module name ty_args args senders :
  spends (execute_script_function (G := G) debug overflow_checks verifier_fuel load_fuel run_fuel natives module name ty_args args senders).
Proof. apply spends_bind; [apply spends_function_impl|intros; apply spends_lift]. Qed.
End Spending.

(** ** Outcomes *)

Section Outcomes.
Context {S E B Native G : Type} `{Graph G Node Edge} `{Toposort StructDefinitionIndex} `{!Storage S, !EventHandler E, !BalanceAccess B}.
Context `{!NativeCalls (@TransactionDataCache (@StateSession S B)) Native}.
Context (debug overflow_checks : bool) (verifier_fuel load_fuel run_fuel : nat).
Context (natives : NativeFunctions Native) (sha3_256 : list u8 → ScriptHash).
Context (mapper_order : gmap StructTag (option (list u8)) → list (StructTag * option (list u8))).
Notation Mvm := (@Mvm S E B Native).

(** The host as a transaction leaves it that commits nothing *)
Record unchanged (self self' : Mvm) : Prop := {
  un_state : vm_state self' = vm_state self;
  un_access : mc_access (vm_master_of_coin self') = mc_access (vm_master_of_coin self);
  un_table : vm_cost_table self' = vm_cost_table self }.
(** The event of a failed transaction *)
Definition reported (sender : AccountAddress) (err : VMError) (handler handler' : E) : Prop :=
  handler' = handler ∨ ∃ status msg, into_vm_status debug err = Ok status ∧ to_bytes (serialize_vm_status status) = Ok msg ∧
    handler' = on_event (to_le_bytes 8 0 ++ sender) 0 vm_status_tag msg handler.
(** What a transaction reports of the result of its session *)
Definition reports (result : result VMError TxEffects) (res : VmResult) : Prop :=
  match result with
  | Ok _ => res = VmResult_new EXECUTED None None (vr_gas_used res)
  | Err err => res = failed err (vr_gas_used res)
  | _ => False
  end.
(** How the host is left by a transaction whose session ended with [result]: the effects
    are committed, or nothing but the event of a failed transaction is. *)
Inductive outcome (sender : AccountAddress) (dry_run : bool) (result : result VMError TxEffects) (self self' : Mvm) (res : VmResult) : Prop :=
| Committed effects mid : dry_run = false → result = Ok effects → reports result res →
    unchanged self mid → vm_event_handler mid = vm_event_handler self → handle_tx_effects effects mid = (Ok tt, self') →
    outcome sender dry_run result self self' res
| DryRun : dry_run = true → reports result res → unchanged self self' → vm_event_handler self' = vm_event_handler self →
    outcome sender dry_run result self self' res
| Failed err : dry_run = false → result = Err err → reports result res → unchanged self self' →
    reported sender err (vm_event_handler self) (vm_event_handler self') → outcome sender dry_run result self self' res.

Lemma emit_spec sender status (self self' : Mvm) : emit_vm_status_event sender status self = (Ok tt, self') →
  unchanged self self' ∧ (vm_event_handler self' = vm_event_handler self ∨ ∃ msg, to_bytes (serialize_vm_status status) = Ok msg ∧
    vm_event_handler self' = on_event (to_le_bytes 8 0 ++ sender) 0 vm_status_tag msg (vm_event_handler self)).
Proof.
  unfold emit_vm_status_event. rewrite run_bind_eq. cbn [run_lift]. destruct (to_bytes _) as [msg|e| |] eqn:Hm; cbn [ok_]; [| |done..].
  - unfold send_event, run_modify. intros [= <-]. split; [done|]. right. by exists msg.
  - intros [= <-]. split; [done|by left].
Qed.
Lemma gas_of_run gas table g g' remaining used : GasStatus_new (E := unit) overflow_checks table (max_gas_amount gas) = Ok g → gas_used g g' →
  remaining_gas (E := unit) g' = Ok remaining → gas_sub (E := unit) overflow_checks (max_gas_amount gas) remaining = Ok used → used <= max_gas_amount gas.
Proof.
  intros Hg [Ht _ Hl] Hr Hs. unfold GasStatus_new in Hg. apply bind_Ok in Hg as (left & Hleft & [= <-]). cbn in Ht, Hl.
  assert (left <= max_gas_amount gas * gas_unit_scaling_factor (gas_constants table)) as Hmax.
  { unfold to_internal_units, gas_mul in Hleft. destruct (_ <=? _); [injection Hleft as <-; done|]. destruct overflow_checks; [done|].
    injection Hleft as <-. unfold wrap. apply N.Div0.mod_le. }
  unfold remaining_gas, to_external_units, gas_div in Hr. rewrite Ht in Hr. destruct (N.eqb_spec (gas_unit_scaling_factor (gas_constants table)) 0) as [|Hz]; [done|].
  injection Hr as <-. assert (gas_left g' / gas_unit_scaling_factor (gas_constants table) <= max_gas_amount gas) as Hle.
  { apply N.Div0.div_le_upper_bound. lia. }
  unfold gas_sub in Hs. apply N.leb_le in Hle as Hle'. rewrite Hle' in Hs. injection Hs as <-. lia.
Qed.
Lemma handle_vm_result_spec sender g gas result dry_run (self self' : Mvm) res :
  handle_vm_result debug overflow_checks sender g gas result dry_run self = (Ok res, self') →
  (∃ remaining, remaining_gas (E := unit) g = Ok remaining ∧ gas_sub (E := unit) overflow_checks (max_gas_amount gas) remaining = Ok (vr_gas_used res)) ∧
  outcome sender dry_run result self self' res ∧ (dry_run = false → ∀ effects, result = Ok effects → handle_tx_effects effects self = (Ok tt, self')).
Proof.
  unfold handle_vm_result. intros (tr & s1 & [Htr ->]%run_lift_inv & Hrun)%run_bind_inv.
  apply run_bind_inv in Hrun as (used & s2 & [Hused ->]%run_lift_inv & Hrun). apply bind_Ok in Hused as (remaining & Hrem & Hsub).
  assert (Htried : tr = result ∧ ((∃ a, result = Ok a) ∨ ∃ e, result = Err e)) by (destruct result; cbn in Htr; try done; injection Htr as <-; eauto).
  destruct Htried as [-> Hcase]. destruct dry_run.
  - injection Hrun as <- <-. split_and!; [exists remaining; by destruct Hcase as [[a ->]|[e ->]]| |done]. apply DryRun; [done| |done..].
    by destruct Hcase as [[a ->]|[e ->]].
  - destruct Hcase as [[effects ->]|[err ->]].
    + apply run_bind_inv in Hrun as ([] & s3 & Hh & [= <- <-]). split_and!; [by exists remaining|by eapply Committed|]. by intros _ ? [= <-].
    + apply run_bind_inv in Hrun as (status & s3 & [Hst%map_err_Ok ->]%run_lift_inv & Hrun). apply run_bind_inv in Hrun as ([] & s4 & Hem & [= <- <-]).
      apply emit_spec in Hem as [Hun Hev]. split_and!; [by exists remaining| |done]. apply (Failed _ _ _ _ _ _ err); [done..|].
      destruct Hev as [Hev|(msg & Hm & Hev)]; [by left|right; eauto].
Qed.
(** Before the session's result is handled, only the virtual machine and the coins have changed. *)
Lemma outcome_after sender dry_run result (self mid self' : Mvm) res :
  unchanged self mid → vm_event_handler mid = vm_event_handler self →
  outcome sender dry_run result mid self' res → outcome sender dry_run result self self' res.
Proof.
  intros [H1 H2 H3] He [effects mid' Hdry Hok Hrep [] Hev Hh|Hdry Hrep [] Hev|err Hdry Herr Hrep [] Hev].
  - apply (Committed _ _ _ _ _ _ effects mid'); [done..| | |done]; [constructor; congruence|congruence].
  - apply DryRun; [done..|constructor; congruence|congruence].
  - apply (Failed _ _ _ _ _ _ err); [done..|constructor; congruence|]. by rewrite <- He.
Qed.
Lemma run_session_spends {R A} `{!MoveResolver R} (remote : R) g (m : Run (@Session R Native) VMError A) (self : Mvm) r g' remote' self' :
  spends m → run_session remote g m self = (r, g', remote', self') → gas_used g g' ∧ unchanged self self' ∧ vm_event_handler self' = vm_event_handler self.
Proof.
  intros Hm. unfold run_session. specialize (Hm (new_session remote (vm_loader self) (vm_types self) g)).
  destruct (m _) as [r1 s1]. intros [= <- <- <- <-]. split_and!; [exact Hm|done|done].
Qed.
Lemma run_state_session_spends {A} context g (m : Run (@Session (@StateSession S B) Native) VMError A) (self : Mvm) r g' session self' :
  spends m → run_state_session context g m self = (r, g', session, self') → gas_used g g' ∧ unchanged self self' ∧ vm_event_handler self' = vm_event_handler self.
Proof.
  intros Hm. unfold run_state_session. destruct (run_session _ g m self) as [[[r1 g1] s1] self1] eqn:Hr. intros [= <- <- <- <-].
  apply run_session_spends in Hr as (Hg & [H1 H2 H3] & He); [|done]. split_and!; [done| |done]. constructor; [done|exact H2|done].
Qed.

Definition script_sender (tx : ScriptTx) : AccountAddress := default ZERO (head (sx_signers tx)).
Definition script_start (context : ExecutionContext) (g : GasStatus) (self : Mvm) : @Session (@StateSession S B) Native :=
  new_session (state_session (vm_state self) (Some context) (vm_master_of_coin self)) (vm_loader self) (vm_types self) g.
Definition script_call (tx : ScriptTx) : Run (@Session (@StateSession S B) Native) VMError unit :=
  run_call (G := G) debug overflow_checks verifier_fuel load_fuel run_fuel natives sha3_256 (sx_call tx) (sx_type_args tx) (sx_args tx) (sx_signers tx).
(** The session of a script over the host: the call, the charge for the accounts that it
    changed, the change set and the events of its data, and the balances that the change
    set moves; the first of these that fails gives the result. *)
Notation data s := (c_store (ss_context s)).
Notation gas_of s := (c_gas (ss_context s)).
Inductive script_session (context : ExecutionContext) (tx : ScriptTx) (g : GasStatus) (self : Mvm) : result VMError TxEffects → GasStatus → Prop :=
| Script_ended s1 s2 s3 effects result :
    script_call tx (script_start context g self) = (Ok tt, s1) → charge_global_write_gas_usage overflow_checks (script_sender tx) s1 = (Ok tt, s2) →
    finish_session s2 = (Ok effects, s3) → session_finish mapper_order (td_remote (data s3)) effects = result →
    script_session context tx g self result (gas_of s3)
| Script_failed s1 err : script_call tx (script_start context g self) = (Err err, s1) → script_session context tx g self (Err err) (gas_of s1)
| Script_not_charged s1 s2 err : script_call tx (script_start context g self) = (Ok tt, s1) →
    charge_global_write_gas_usage overflow_checks (script_sender tx) s1 = (Err err, s2) → script_session context tx g self (Err err) (gas_of s2)
| Script_not_finished s1 s2 s3 err : script_call tx (script_start context g self) = (Ok tt, s1) →
    charge_global_write_gas_usage overflow_checks (script_sender tx) s1 = (Ok tt, s2) → finish_session s2 = (Err err, s3) →
    script_session context tx g self (Err err) (gas_of s3).

Lemma run_bind_cases {St Er A A'} (m : Run St Er A) (k : A → Run St Er A') s r s' : (m ≫= k) s = (r, s') →
  (∃ a s1, m s = (Ok a, s1) ∧ k a s1 = (r, s')) ∨ (∃ e, m s = (Err e, s') ∧ r = Err e) ∨ r = Panic ∨ r = OutOfFuel.
Proof. rewrite run_bind_eq. destruct (m s) as [[a|e| |] s1]; [by eauto|intros [= <- <-]; eauto..]. Qed.

(** C5. A script's transaction is all or nothing. When it ends with a result, its session
    over the host, which is the call, the charge for the accounts it changed, the end of
    the session and the balances that move, one after the other, ended with effects or
    with the error of the first of these that failed. The effects of a run that is no dry
    run were committed as a whole; a dry run reports the same and leaves storage, the
    host's balances and its event handler as before; after an error the status and the
    location of the error are the result, and nothing is changed but that the status may
    be sent as an event. The gas that is reported is what the session spent, and not more
    than was given, whatever the costs. *)
Theorem script_all_or_nothing (gas : TxGas) (context : ExecutionContext) (tx : ScriptTx) (dry_run : bool) (self self' : Mvm) (res : VmResult) :
  execute_script (G := G) debug overflow_checks verifier_fuel load_fuel run_fuel natives sha3_256 mapper_order gas context tx dry_run self = (Ok res, self') →
  ∃ g result g', GasStatus_new (E := unit) overflow_checks (vm_cost_table self) (max_gas_amount gas) = Ok g ∧
    script_session context tx g self result g' ∧ outcome (script_sender tx) dry_run result self self' res ∧
    (∃ remaining, remaining_gas (E := unit) g' = Ok remaining ∧ gas_sub (E := unit) overflow_checks (max_gas_amount gas) remaining = Ok (vr_gas_used res)) ∧
    vr_gas_used res <= max_gas_amount gas.
Proof.
  unfold execute_script. destruct (GasStatus_new _ _ _) as [g| | |] eqn:Hg; [|done..].
  destruct (run_state_session _ _ _ _) as [[[r g'] session] mid] eqn:Hrun. pose proof Hrun as (Hgas & Hun & He)%run_state_session_spends; cycle 1.
  { apply spends_bind; [|intros _; apply spends_bind; [apply spends_write|intros _; apply spends_finish]].
    unfold run_call. destruct (sx_call tx); [apply spends_script|apply spends_script_function]. }
  intros ((remaining & Hrem & Hsub) & Hout & _)%handle_vm_result_spec. eexists g, _, g'. split_and!;
    [done| |eapply outcome_after; [exact Hun|exact He|exact Hout]|by exists remaining|by eapply gas_of_run].
  assert (Hresult : r ≠ Panic ∧ r ≠ OutOfFuel) by (split; intros ->; by destruct Hout).
  unfold run_state_session, run_session in Hrun. fold (script_start context g self) (script_sender tx) in Hrun.
  match type of Hrun with context [?m (script_start context g self)] => destruct (m (script_start context g self)) as [r3 s3] eqn:Hs end.
  injection Hrun as -> <- <- _.
  apply run_bind_cases in Hs as [([] & s1 & Hcall & Hs)|[(e & Hcall & ->)|[?|?]]]; [|by eapply Script_failed|by destruct Hresult..].
  apply run_bind_cases in Hs as [([] & s2 & Hcharge & Hs)|[(e & Hcharge & ->)|[?|?]]]; [|by eapply Script_not_charged|by destruct Hresult..].
  destruct r as [effects|e| |]; [|by eapply Script_not_finished|by destruct Hresult..]. by eapply Script_ended.
Qed.
End Outcomes.

(** ** Publishing a package *)

Lemma heap_bind_run {A B} (m : HeapM A) (k : A → HeapM B) h a h1 : m h = Ok (a, h1) → (m ≫= k) h = k a h1.
Proof. unfold mbind, HeapM_bind. by intros ->. Qed.
(** Data caches that hold modules only *)
Definition modules_only {S} (td : @TransactionDataCache S) : Prop :=
  (∀ addr account, td_account_map td !! addr = Some account → ad_data_map account = ∅) ∧ td_event_data td = [].
Lemma modules_only_new {S} (remote : S) types : modules_only (TransactionDataCache_new remote types).
Proof. split; [|done]. intros addr account Ha. cbn in Ha. by rewrite lookup_empty in Ha. Qed.
Lemma modules_only_same {S} (td td' : @TransactionDataCache S) : (∀ addr ty, slot addr ty td = None) → td_event_data td = [] → same_data td td' → modules_only td'.
Proof.
  intros Hs He [H1 H2 _ _]. split; [|congruence]. intros addr account Ha. apply map_eq. intros ty. rewrite lookup_empty.
  specialize (H1 addr ty). rewrite Hs in H1. unfold slot in H1. by rewrite Ha in H1.
Qed.

Section Modules.
Context {S Native : Type} `{!MoveResolver S} (cache : ModuleCache Native).
Notation TransactionDataCache := (@TransactionDataCache S).
Lemma accounts_of_modules (l : list (AccountAddress * AccountDataCache)) (cs : ChangeSet) (s : Heap * TransactionDataCache) :
  NoDup l.*1 → (∀ p, p ∈ l → ad_data_map p.2 = ∅ ∧ cs !! p.1 = None) →
  ∃ cs', run_fold (account_effects cache) l cs s = (Ok cs', s) ∧
    (∀ addr account, (addr, account) ∈ l → modules_of cs' addr = Some <$> ad_module_map account ∧ resources_of cs' addr = ∅) ∧
    (∀ addr, addr ∉ l.*1 → cs' !! addr = cs !! addr).
Proof.
  revert cs. induction l as [|[a account] l IH]; intros cs Hnd Hl.
  { exists cs. split_and!; [done| |done]. by intros ? ? ?%elem_of_nil. }
  cbn in Hnd. apply NoDup_cons in Hnd as [Hni Hnd]. destruct (Hl (a, account)) as [Hd Hc]; [left|]. cbn [fst snd] in Hd, Hc.
  set (acs := {| acs_modules := Some <$> ad_module_map account; acs_resources := ∅ |}).
  set (cs1 := publish_or_overwrite_account_change_set a acs cs).
  assert (Hone : account_effects cache cs (a, account) s = (Ok cs1, s)).
  { unfold account_effects. cbn [fst snd]. by rewrite Hd, map_to_list_empty. }
  assert (Hcs1 : modules_of cs1 a = Some <$> ad_module_map account ∧ resources_of cs1 a = ∅ ∧ ∀ b, b ≠ a → cs1 !! b = cs !! b).
  { unfold cs1, publish_or_overwrite_account_change_set, modules_of, resources_of. destruct (acs_is_empty acs) eqn:Hempty.
    - apply andb_true_iff in Hempty as [Hm%bool_decide_eq_true _]. rewrite Hc. cbn in Hm. by rewrite Hm.
    - rewrite lookup_insert_eq. split_and!; [done..|]. intros b Hb. by rewrite lookup_insert_ne. }
  destruct Hcs1 as (Hm1 & Hr1 & Ho1). destruct (IH cs1 Hnd) as (cs2 & Hrun & H2 & Ho2).
  { intros [b acc] Hin. cbn [fst snd]. destruct (Hl (b, acc)) as [H3 H4]; [by right|]. split; [done|]. rewrite Ho1; [done|].
    intros ->. apply Hni. apply list_elem_of_fmap. by exists (a, acc). }
  exists cs2. split_and!.
  - cbn [run_fold]. by rewrite run_bind_eq, Hone.
  - intros b acc [[= -> ->]|Hin]%elem_of_cons; [|by apply H2]. unfold modules_of, resources_of in *. by rewrite (Ho2 _ Hni).
  - cbn. intros b [Hb Hnb]%not_elem_of_cons. by rewrite Ho2, Ho1.
Qed.
(** The change set of a cache with modules only has these modules. *)
Lemma effects_of_modules (h : Heap) (td : TransactionDataCache) : modules_only td →
  ∃ cs, into_effects cache (h, td) = (Ok (cs, []), (h, td)) ∧
    ∀ x, cs_change cs x = match x with ModuleItem id => Some <$> published id td | ResourceItem _ _ => None end.
Proof.
  intros [Hd He]. destruct (accounts_of_modules (map_to_list (td_account_map td)) ∅ (h, td) (NoDup_fst_map_to_list _)) as (cs & Hrun & Hin & Hout).
  { intros [addr account] Ha%elem_of_map_to_list. split; [by eapply Hd|apply lookup_empty]. }
  exists cs. split.
  - unfold into_effects. rewrite run_bind_eq. cbn [run_get snd]. rewrite run_bind_eq. unfold ChangeSet_new. rewrite Hrun.
    rewrite run_bind_eq. cbn [run_get snd]. rewrite He. done.
  - assert (Hall : ∀ addr, modules_of cs addr = match td_account_map td !! addr with Some account => Some <$> ad_module_map account | None => ∅ end ∧
      resources_of cs addr = ∅).
    { intros addr. destruct (td_account_map td !! addr) as [account|] eqn:Ha; [by apply Hin, elem_of_map_to_list|].
      assert (cs !! addr = None) as Hn; [|unfold modules_of, resources_of; by rewrite Hn].
      rewrite Hout; [apply lookup_empty|]. intros ([a acc] & -> & Hx%elem_of_map_to_list)%list_elem_of_fmap. cbn in Ha. congruence. }
    intros [id|addr tag]; cbn [cs_change].
    + rewrite (proj1 (Hall _)). unfold published. destruct (td_account_map td !! mid_address id) as [account|]; cbn; [apply lookup_fmap|apply lookup_empty].
    + rewrite (proj2 (Hall _)). apply lookup_empty.
Qed.
Lemma mutated_of_modules (h : Heap) (td : TransactionDataCache) sender : modules_only td → num_mutated_accounts sender td h = Ok (1, h).
Proof.
  intros [Hd _]. unfold num_mutated_accounts. assert (Hl : ∀ p, p ∈ map_to_list (td_account_map td) → ad_data_map p.2 = ∅).
  { intros [addr account] Ha%elem_of_map_to_list. by eapply Hd. }
  induction (map_to_list (td_account_map td)) as [|p l IH] using rev_ind; [done|]. rewrite foldl_app. cbn [foldl].
  rewrite (heap_bind_run _ _ h 1 h) by (apply IH; intros q Hq; apply Hl, elem_of_app; by left).
  unfold count_mutated. case_bool_decide; [done|]. rewrite (Hl p) by (apply elem_of_app; right; by left). rewrite map_to_list_empty. done.
Qed.
End Modules.

(** *** Names of deserialized modules are identifiers *)

Section Names.
Definition named (i : Identifier) : Prop := is_valid i = true ∧ len i <= MAX_SEQUENCE_LENGTH.
Lemma loader_bind_Ok {A B} (m : Loader.Loader A) (k : A → Loader.Loader B) c b c' :
  (m ≫= k) c = Ok (b, c') → ∃ a c1, m c = Ok (a, c1) ∧ k a c1 = Ok (b, c').
Proof. unfold mbind, loader_bind. destruct (m c) as [[a c1]| | |]; try done. eauto. Qed.
Lemma load_identifier_named c i c' : load_identifier c = Ok (i, c') → named i.
Proof.
  unfold load_identifier. intros (size & c1 & Hsize & H)%loader_bind_Ok. unfold load_identifier_size, read_uleb_internal in Hsize.
  apply loader_bind_Ok in Hsize as (x & c2 & _ & Hsize). destruct (N.ltb_spec IDENTIFIER_SIZE_MAX x) as [|Hx]; [done|].
  destruct (usize_MAX <? x); [done|]. injection Hsize as <- <-.
  apply loader_bind_Ok in H as ([count buffer] & c3 & Hread & H). unfold vc_read, cursor_read in Hread. injection Hread as <- <- <-.
  destruct (negb _); [done|]. unfold from_utf8, lift in H.
  match type of H with context [utf8_valid ?b] => set (buffer := b) in *; assert (len buffer <= x) as Hb end.
  { unfold buffer, len. rewrite length_app, length_take, length_replicate. lia. }
  destruct (utf8_valid buffer); [|done]. unfold Identifier_new in H. destruct (is_valid buffer) eqn:Hv; [|done]. injection H as <- _.
  split; [done|]. etrans; [exact Hb|]. etrans; [exact Hx|done].
Qed.
Lemma load_while_Forall {A} (P : A → Prop) (l : Loader.Loader A) fuel end_ c xs c' :
  (∀ c x c', l c = Ok (x, c') → P x) → load_while fuel end_ l c = Ok (xs, c') → Forall P xs.
Proof.
  intros Hl. revert c xs c'. induction fuel as [|fuel IH]; intros c xs c'; [done|]. cbn [load_while].
  destruct (position c <? end_); [|by intros [= <- _]]. intros (x & c1 & Hx & (xs' & c2 & Hxs & [= <- _])%loader_bind_Ok)%loader_bind_Ok.
  constructor; eauto.
Qed.
Lemma load_identifiers_named binary table items v : Forall named items → load_identifiers binary table items = Ok v → Forall named v.
Proof.
  unfold load_identifiers, load_table. intros Hi (c & _ & ([loaded c'] & Hl & [= <-])%bind_Ok)%bind_Ok. apply Forall_app. split; [done|].
  eapply load_while_Forall; [|exact Hl]. intros. by eapply load_identifier_named.
Qed.
Lemma common_tables_named binary tables (m m' : CompiledModule) : Forall named (m_identifiers m) →
  build_common_tables binary tables m = Ok m' → Forall named (m_identifiers m').
Proof.
  unfold build_common_tables. intros Hm. apply (try_fold_inv (λ m : CompiledModule, Forall named (m_identifiers m))); [|exact Hm].
  intros table c c' _ Hc Hb. unfold build_common_table in Hb. destruct (t_kind table); try (by injection Hb as <-).
  all: try (by apply bind_Ok in Hb as (v & _ & [= <-])).
  - apply bind_Ok in Hb as (v & Hv & [= <-]). by eapply load_identifiers_named.
  - destruct (_ <? _); [done|]. by injection Hb as <-.
Qed.
Lemma module_tables_named binary tables (m m' : CompiledModule) : build_module_tables binary tables m = Ok m' → m_identifiers m' = m_identifiers m.
Proof.
  unfold build_module_tables. apply (try_fold_inv (λ m' : CompiledModule, m_identifiers m' = m_identifiers m)); [|done].
  intros table c c' _ <- Hb. unfold build_module_table in Hb. destruct (t_kind table); try (by injection Hb as <-).
  all: by apply bind_Ok in Hb as (v & _ & [= <-]).
Qed.
Lemma deserialized_named binary m : CompiledModule_deserialize binary = Ok m → Forall named (m_identifiers m).
Proof.
  unfold CompiledModule_deserialize. intros (m' & Hm%map_err_Ok & ([] & _ & [= <-])%bind_Ok)%bind_Ok. unfold deserialize_compiled_module in Hm.
  apply bind_Ok in Hm as (c & _ & ([m1 c1] & Hm & [= <-])%bind_Ok).
  apply loader_bind_Ok in Hm as ([tables contents] & c2 & _ & (v & c3 & _ & (idx & c4 & _ & Hm)%loader_bind_Ok)%loader_bind_Ok).
  unfold lift in Hm. destruct (build_compiled_module _ _ _) as [m2| | |] eqn:Hb; [|done..]. injection Hm as <- _.
  apply bind_Ok in Hb as (m3 & H3 & H4). rewrite (module_tables_named _ _ _ _ H4). by eapply common_tables_named; [|exact H3].
Qed.
Lemma self_id_named m id : Forall named (m_identifiers m) → module_self_id m = Ok id → named (mid_name id).
Proof.
  unfold module_self_id, self_id. intros Hn (o & Ho & Hid)%bind_Ok. destruct o as [id'|]; [|done]. injection Hid as ->. apply partial_iff in Ho.
  cbn [view_self_handle_idx] in Ho. apply bind_Ok in Ho as (handle & _ & (id' & Hid & [= <-])%bind_Ok). unfold module_id_for_handle in Hid.
  apply bind_Ok in Hid as (address & _ & (name & Hname & [= <-])%bind_Ok). cbn. unfold identifier_at, unwrap, at_ in Hname.
  destruct (view_identifiers (VModule m) !! N.to_nat (mh_name handle)) as [i|] eqn:Hi; [|done]. injection Hname as <-.
  rewrite Forall_forall in Hn. apply Hn. by eapply list_elem_of_lookup_2.
Qed.
End Names.

Section Packages.
Context {S E B Native G : Type} `{Graph G Node Edge} `{Toposort StructDefinitionIndex} `{!Storage S, !EventHandler E, !BalanceAccess B, !StorageLaws S}.
Context (debug overflow_checks : bool) (verifier_fuel load_fuel : nat) (natives : NativeFunctions Native).
Notation Mvm := (@Mvm S E B Native).
Notation Session := (@Session S Native).
Notation data s := (c_store (ss_context s)).
Notation publish_modules := (publish_modules (R := S) (G := G) debug overflow_checks verifier_fuel load_fuel natives).

Notation cache s := (l_module_cache (ss_loader s)).
Lemma in_gas_data {A} (m : Run GasStatus VMError A) (s : Session) r s' : in_gas m s = (r, s') → data s' = data s ∧ cache s' = cache s.
Proof. unfold in_gas, in_context. destruct (m _). by intros [= _ <-]. Qed.
Lemma charge_write_data sender (s s' : Session) : charge_global_write_gas_usage overflow_checks sender s = (Ok tt, s') → data s' = data s ∧ cache s' = cache s.
Proof.
  unfold charge_global_write_gas_usage. intros (accounts & s1 & H1 & (constants & s2 & [= _ <-] & (cost & s3 & [_ ->]%run_lift_inv & H4)%run_bind_inv)%run_bind_inv)%run_bind_inv.
  destruct (in_gas_data _ _ _ _ H4) as [-> ->]. unfold at_undefined, run_map_err, in_data, in_context, context_store, in_heap in H1. cbn in H1.
  destruct (num_mutated_accounts _ _ _) as [[n h]| | |]; cbn in H1; try done. by injection H1 as _ <-.
Qed.
Lemma publish_session_spec modules sender (s : Session) cs events s' : modules_only (data s) →
  (_ ← publish_modules modules sender; finish_session) s = (Ok (cs, events), s') →
  events = [] ∧ ∃ td' ms ids, bundle_published (G := G) debug overflow_checks verifier_fuel natives (data s) td'
      (l_module_cache (ss_loader s)) (l_module_cache (ss_loader s')) modules sender ms ids ∧
    ∀ x, cs_change cs x = match x with ModuleItem id => Some <$> published id td' | ResourceItem _ _ => None end.
Proof.
  intros Hmod ([] & s1 & Hpub & Hfin)%run_bind_inv. unfold Host.publish_modules in Hpub.
  apply run_bind_inv in Hpub as ([] & s2 & [Hgas Hgasc]%in_gas_data & Hpub). apply run_bind_inv in Hpub as (r & s3 & Hbundle & Hpub).
  apply run_bind_inv in Hpub as ([] & s4 & [Hwrite Hwritec]%charge_write_data & [-> ->]%run_lift_inv).
  unfold run_try in Hbundle.
  pose proof (publish_bundle_all (G := G) debug overflow_checks verifier_fuel load_fuel natives modules sender s2) as Hp.
  destruct (Runtime.publish_module_bundle _ _ _ _ _ _ _ s2) as [[[]|e| |] s5]; try done. injection Hbundle as ->.
  destruct Hp as ((ms & ids & Hb) & _ & _). rewrite Hgas, Hgasc in Hb.
  assert (Hmod' : modules_only (data s3)).
  { destruct Hmod as [Hd He]. eapply (modules_only_same (data s)); [|exact He|by destruct Hb]. intros addr ty. unfold slot.
    destruct (td_account_map (data s) !! addr) as [account|] eqn:Ha; [|done]. cbn. rewrite (Hd _ _ Ha). apply lookup_empty. }
  destruct (effects_of_modules (l_module_cache (ss_loader s4)) (c_heap (ss_context s4)) (data s4)) as (cs' & Heff & Hcs); [by rewrite Hwrite|].
  unfold finish_session, at_undefined, run_map_err, in_data, in_context, context_store in Hfin. rewrite Heff in Hfin. cbn in Hfin. injection Hfin as <- <- <-.
  split; [done|]. exists (data s3), ms, ids. cbn [ss_loader]. rewrite Hwritec. split; [done|]. by rewrite Hwrite in Hcs.
Qed.

(** What storage has of a package after it was published *)
Record package_stored (self self' : Mvm) (modules : list (list u8)) (sender : AccountAddress) (ms : list CompiledModule) (ids : list ModuleId) : Prop := {
  ps_modules : collect CompiledModule_deserialize modules = Ok ms;
  ps_ids : collect module_self_id ms = Ok ids;
  ps_new id : id ∈ ids → mid_address id = sender ∧ state_get_module (vm_state self) id = Ok None;
  ps_cache : grows (G := G) debug overflow_checks verifier_fuel natives (data_load_module (TransactionDataCache_new (vm_state self) (vm_types self)))
    (l_module_cache (vm_loader self)) (l_module_cache (vm_loader self'));
  ps_accepted i m : ms !! i = Some m → ∃ ci, later (l_module_cache (vm_loader self)) ci ∧ later ci (l_module_cache (vm_loader self')) ∧
    accepted (G := G) debug overflow_checks verifier_fuel natives (bundled (zip (take i ids) (take i ms)) ∅)
      (list_to_set ids ∖ list_to_set (take (Datatypes.S i) ids)) ci m;
  ps_stored x key : item_ok x → item_key x = Ok key → storage_get (vm_state self') key =
    match x with
    | ModuleItem id => match last_blob id (zip ids modules) with Some blob => Some blob | None => storage_get (vm_state self) key end
    | ResourceItem _ _ => storage_get (vm_state self) key
    end;
  ps_events : vm_event_handler self' = vm_event_handler self;
  ps_access : mc_access (vm_master_of_coin self') = mc_access (vm_master_of_coin self) }.

(** C6. A package's transaction is all or nothing. When it was executed, and was no dry
    run, storage has the modules of the package under their keys, and everything else as
    before: its modules were all new, have the sender's address, were accepted by the
    verifier in their order, with dependencies from the package before them and from the
    loader's cache, and no event was sent and no balance moved. Otherwise storage and the
    balances are as before. The gas that it used is not more than it was given. *)
Theorem package_published (gas : TxGas) (package : PublishPackageTx) (dry_run : bool) (self self' : Mvm) (res : VmResult) :
  address_ok (pp_address package) = true →
  publish_module_package (G := G) debug overflow_checks verifier_fuel load_fuel natives gas package dry_run self = (Ok res, self') →
  (∃ g r g' remote mid, GasStatus_new (E := unit) overflow_checks (vm_cost_table self) (max_gas_amount gas) = Ok g ∧
     run_session (R := S) (vm_state self) g (_ ← publish_modules (pp_modules package) (pp_address package); finish_session) self = (r, g', remote, mid) ∧
     outcome debug (pp_address package) dry_run (no_balances <$> r) self self' res) ∧
  vr_gas_used res <= max_gas_amount gas ∧
  (dry_run = false → vr_location res = None →
   ∃ ms ids, package_stored self self' (pp_modules package) (pp_address package) ms ids).
Proof.
  intros Haddr. unfold publish_module_package. destruct (GasStatus_new _ _ _) as [g| | |] eqn:Hg; [|done..].
  destruct (run_session _ _ _ _) as [[[r g'] remote] mid] eqn:Hrun.
  pose proof Hrun as (Hgas & Hun & He)%run_session_spends; [|apply spends_bind; [apply spends_publish|intros; apply spends_finish]].
  intros ((remaining & Hrem & Hsub) & Hout & Hcommit)%handle_vm_result_spec. split_and!.
  - exists g, r, g', remote, mid. split_and!; [done..|]. by eapply outcome_after.
  - by eapply gas_of_run.
  - intros Hdry Hl. assert (∃ effects, no_balances <$> r = Ok effects) as [effects Hr].
    { destruct Hout as [effects mid' _ Hr|?|err _ Hr Hrep]; [eauto|congruence|]. rewrite Hr in Hrep. cbn in Hrep. rewrite Hrep in Hl. done. }
    pose proof (Hcommit Hdry _ Hr) as Hh. destruct r as [[cs events]| | |]; try done. injection Hr as <-.
    unfold run_session in Hrun.
    destruct ((_ ← publish_modules (pp_modules package) (pp_address package); finish_session)
      (new_session (vm_state self) (vm_loader self) (vm_types self) g)) as [r1 s1] eqn:Hs. injection Hrun as -> _ _ Hmid.
    assert (vm_loader mid = ss_loader s1) as Hloader by (by rewrite <- Hmid).
    apply publish_session_spec in Hs as (-> & td' & ms & ids & Hp & Hcs); [|apply modules_only_new].
    destruct Hp as [Hms Hids Hnew Hgrows Hacc Hpub _]. cbn [data ss_context new_session c_store TransactionDataCache_new td_remote] in Hnew, Hpub.
    assert (Hnone : ∀ id, published id (c_store (ss_context (new_session (Native := Native) (vm_state self) (vm_loader self) (vm_types self) g))) = None) by done.
    assert (Hnames : ∀ id, id ∈ ids → item_ok (ModuleItem id)).
    { intros id Hin. apply list_elem_of_lookup in Hin as [i Hi]. destruct (Forall2_lookup_r _ _ _ _ _ (collect_Forall2 _ _ _ Hids) Hi) as (m & Hm & Hid).
      destruct (Forall2_lookup_r _ _ _ _ _ (collect_Forall2 _ _ _ Hms) Hm) as (blob & _ & Hd).
      destruct (Hnew id (list_elem_of_lookup_2 _ _ _ Hi)) as [Hsender _]. split; [by rewrite Hsender|]. by eapply self_id_named, Hid; eapply deserialized_named. }
    assert (Hchange : ∀ x, cs_change cs x = match x with ModuleItem id => Some <$> last_blob id (zip ids (pp_modules package)) | ResourceItem _ _ => None end).
    { intros [id|addr tag]; rewrite Hcs; [|done]. rewrite Hpub, Hnone. by destruct (last_blob _ _). }
    assert (Hstores : ∀ x v, cs_change cs x = Some v → stores x).
    { intros x v Hx. rewrite Hchange in Hx. destruct x as [id|]; [|done]. apply fmap_Some in Hx as (blob & Hb & _).
      unfold last_blob in Hb. apply last_Some_elem_of, list_elem_of_fmap in Hb as ([id' b] & _ & [Hf Hz]%list_elem_of_filter). cbn in Hf. subst id'.
      apply elem_of_zip_l in Hz. pose proof (Hnames id Hz) as Hok. split; [done|]. destruct Hok as (_ & Hv & Hlen).
      eexists. apply module_key_spec. by apply valid_name_ok. }
    destruct (handle_tx_effects_spec cs [] [] mid Hstores) as (self2 & Hh2 & (state & -> & Hstate)). unfold no_balances in Hh. rewrite Hh2 in Hh. injection Hh as <-.
    exists ms, ids. destruct Hun as [H1 H2 H3]. rewrite <- Hloader in Hgrows, Hacc. constructor; [done|done| |exact Hgrows|exact Hacc| |done|done].
    + intros id Hin. destruct (Hnew id Hin) as (? & _ & ?). done.
    + intros x key Hx Hkey. cbn. rewrite (Hstate x key Hx Hkey), Hchange, H1. destruct x as [id|]; [|done]. by destruct (last_blob _ _).
Qed.
End Packages.

(** ** [genesis.rs] *)

Section Fork.
Context {S : Type} `{!Storage S}.
(** [struct StorageFork]: the storage, and what was changed *)
Record StorageFork : Type := { sf_inner : S; sf_diff : gmap (list u8) (option (list u8)) }.
Definition fork_new (storage : S) : StorageFork := {| sf_inner := storage; sf_diff := ∅ |}.
Definition fork_get (self : StorageFork) (key : list u8) : option (list u8) :=
  match sf_diff self !! key with Some val => val | None => storage_get (sf_inner self) key end.
Definition fork_insert (key value : list u8) (self : StorageFork) : StorageFork :=
  {| sf_inner := sf_inner self; sf_diff := <[ key := Some value ]> (sf_diff self) |}.
Definition fork_remove (key : list u8) (self : StorageFork) : StorageFork :=
  {| sf_inner := sf_inner self; sf_diff := <[ key := None ]> (sf_diff self) |}.
#[export] Instance fork_Storage : Storage StorageFork :=
  {| storage_get := fork_get; storage_insert := fork_insert; storage_remove := fork_remove |}.
(** [merge], in an order of the changes *)
Definition merge_change (inner : S) (p : list u8 * option (list u8)) : S :=
  match p.2 with None => storage_remove p.1 inner | Some val => storage_insert p.1 val inner end.
Definition fork_merge (diff_order : gmap (list u8) (option (list u8)) → list (list u8 * option (list u8))) (self : StorageFork) : S :=
  foldl merge_change (sf_inner self) (diff_order (sf_diff self)).
(** A fork is a storage. *)
#[export] Instance fork_StorageLaws : StorageLaws StorageFork.
Proof.
  constructor; intros; cbn; unfold fork_get, fork_insert, fork_remove; cbn; case_decide; subst;
    [by rewrite lookup_insert_eq|by rewrite lookup_insert_ne|by rewrite lookup_insert_eq|by rewrite lookup_insert_ne].
Qed.
Lemma merge_changes_spec `{!StorageLaws S} l (inner : S) key : NoDup l.*1 →
  (∀ val, (key, val) ∈ l → storage_get (foldl merge_change inner l) key = val) ∧
  (key ∉ l.*1 → storage_get (foldl merge_change inner l) key = storage_get inner key).
Proof.
  revert inner. induction l as [|[k v] l IH]; intros inner Hnd; [by split; [intros ? ?%elem_of_nil|]|].
  cbn in Hnd. apply NoDup_cons in Hnd as [Hni Hnd]. cbn [foldl]. destruct (IH (merge_change inner (k, v)) Hnd) as [H1 H2].
  assert (Hget : storage_get (merge_change inner (k, v)) key = if decide (key = k) then v else storage_get inner key).
  { unfold merge_change. cbn. destruct v; [apply get_insert|apply get_remove]. }
  split.
  - intros val [[= -> ->]|Hin]%elem_of_cons; [rewrite H2, Hget by done; by rewrite decide_True|by apply H1].
  - cbn. intros [Hk Hl]%not_elem_of_cons. rewrite H2, Hget by done. by rewrite decide_False.
Qed.
(** Merged, the storage is what the fork was. *)
Lemma fork_merge_spec `{!StorageLaws S} diff_order (self : StorageFork) key : (∀ m, diff_order m ≡ₚ map_to_list m) →
  storage_get (fork_merge diff_order self) key = fork_get self key.
Proof.
  intros Hperm. unfold fork_merge, fork_get. destruct (merge_changes_spec (diff_order (sf_diff self)) (sf_inner self) key) as [H1 H2].
  { rewrite Hperm. apply NoDup_fst_map_to_list. }
  destruct (sf_diff self !! key) as [val|] eqn:Hd.
  - apply H1. rewrite Hperm. by apply elem_of_map_to_list.
  - apply H2. rewrite Hperm. intros ([k v] & -> & Hin%elem_of_map_to_list)%list_elem_of_fmap. cbn in Hd. congruence.
Qed.
End Fork.
Arguments StorageFork : clear implicits.

(** [NopeEventHandler] and [NopeBalance] *)
Definition NopeEventHandler : EventHandler unit := {| on_event := λ _ _ _ _ u, u |}.
Definition NopeBalance : BalanceAccess unit :=
  {| get_currency_info := λ _ _, None; get_balance := λ _ _ _, None; add := λ _ _ _ u, u; sub := λ _ _ _ u, u |}.

Section Genesis.
Context {S Native G : Type} `{Graph G Node Edge} `{Toposort StructDefinitionIndex} `{!Storage S}.
#[local] Existing Instance NopeEventHandler.
#[local] Existing Instance NopeBalance.
Context `{!NativeCalls (@TransactionDataCache (@StateSession (StorageFork S) unit)) Native}.
Context (debug overflow_checks : bool) (verifier_fuel load_fuel run_fuel : nat) (natives : NativeFunctions Native).
Context (diff_order : gmap (list u8) (option (list u8)) → list (list u8 * option (list u8))).

Record InitFuncConfig : Set := { if_module : list u8; if_func : list u8; if_args : list (list u8) }.
Record GenesisConfig : Set := { gc_stdlib : PublishPackageTx; gc_init_func_config : option InitFuncConfig; gc_cost_table : CostTable }.
Notation ForkM := (Run (@Mvm (StorageFork S) unit unit Native) unit).
Definition ensure_executed (res : VmResult) : ForkM unit :=
  if bool_decide (vr_status_code res = EXECUTED) then mret tt else run_lift (Err tt).
Definition run_genesis (config : GenesisConfig) : ForkM unit :=
  result ← publish_module_package (G := G) debug overflow_checks verifier_fuel load_fuel natives Gas_infinite (gc_stdlib config) false;
  _ ← ensure_executed result;
  match gc_init_func_config config with
  | None => mret tt
  | Some init =>
      module ← run_lift (ok_or tt (from_utf8 (if_module init)));
      func ← run_lift (ok_or tt (from_utf8 (if_func init)));
      res ← execute_function (G := G) debug overflow_checks verifier_fuel load_fuel run_fuel natives CORE_CODE_ADDRESS Gas_infinite
        {| mid_address := CORE_CODE_ADDRESS; mid_name := module |} func [] (if_args init) None;
      ensure_executed res
  end.
(** [init_storage]: its outcome, and storage after it *)
Definition init_storage (storage : S) (config : GenesisConfig) : result unit unit * S :=
  let vm := Mvm_new natives (fork_new storage) tt tt (gc_cost_table config) in
  match run_genesis config vm with
  | (Ok _, vm) => (Ok tt, fork_merge diff_order (vm_state vm))
  | (r, vm) => (r, sf_inner (vm_state vm))
  end.

Lemma run_session_state {R A} `{!MoveResolver R} (remote : R) g (m : Run (@Session R Native) VMError A) (self : @Mvm (StorageFork S) unit unit Native) r g' remote' self' :
  run_session remote g m self = (r, g', remote', self') → vm_state self' = vm_state self.
Proof. unfold run_session. destruct (m _) as [r1 s1]. by intros [= _ _ _ <-]. Qed.
(** The storage under a fork is not written before the end. *)
Definition forks {A} (m : ForkM A) : Prop := ∀ self, sf_inner (vm_state (m self).2) = sf_inner (vm_state self).
Lemma forks_bind {A B} (m : ForkM A) (k : A → ForkM B) : forks m → (∀ a, forks (k a)) → forks (m ≫= k).
Proof. intros Hm Hk self. rewrite run_bind_eq. specialize (Hm self). destruct (m self) as [[a|e| |] s1]; try done. by rewrite (Hk a s1). Qed.
Lemma forks_lift {A} (r : result unit A) : forks (run_lift r).
Proof. by intros self. Qed.
Lemma forks_each {A} (f : A → ForkM unit) l : (∀ x, forks (f x)) → forks (run_each f l).
Proof. intros Hf. induction l as [|x l IH]; [by intros self|]. by apply forks_bind. Qed.
Lemma forks_write key val : forks (write_item key val).
Proof. apply forks_bind; [apply forks_lift|]. intros k self. cbn. by destruct val. Qed.
Lemma forks_effects effects : forks (handle_tx_effects effects).
Proof.
  destruct effects as [[cs events] ops]. apply forks_bind; [|intros _; apply forks_bind; [|intros _]]; apply forks_each.
  - intros p. apply forks_bind; [|intros _]; apply forks_each; intros q; apply forks_write.
  - by intros [[[guid seq] ty] msg] self.
  - by intros op self.
Qed.
Lemma forks_result sender g gas r dry_run : forks (handle_vm_result debug overflow_checks sender g gas r dry_run).
Proof.
  apply forks_bind; [apply forks_lift|intros tr]. apply forks_bind; [apply forks_lift|intros used]. destruct dry_run; [by intros self|].
  destruct tr as [effects|err| |]; [| |by intros self..].
  - apply forks_bind; [apply forks_effects|by intros _ self].
  - apply forks_bind; [apply forks_lift|intros status]. apply forks_bind; [|by intros _ self].
    apply forks_bind; [apply forks_lift|]. by intros [msg|] self.
Qed.
Lemma forks_publish gas package dry_run : forks (publish_module_package (G := G) debug overflow_checks verifier_fuel load_fuel natives gas package dry_run).
Proof.
  intros self. unfold publish_module_package. destruct (GasStatus_new _ _ _) as [g| | |]; [|done..].
  destruct (run_session _ _ _ _) as [[[r g'] remote] mid] eqn:Hr. apply run_session_state in Hr. by rewrite forks_result, Hr.
Qed.
Lemma forks_function sender gas module name ty_args args context :
  forks (execute_function (G := G) debug overflow_checks verifier_fuel load_fuel run_fuel natives sender gas module name ty_args args context).
Proof.
  intros self. unfold execute_function. destruct (GasStatus_new _ _ _) as [g| | |]; [|done..]. unfold run_state_session.
  destruct (run_session _ _ _ _) as [[[r g'] remote] mid] eqn:Hr. apply run_session_state in Hr. rewrite forks_result. cbn. by rewrite Hr.
Qed.
Lemma forks_genesis config : forks (run_genesis config).
Proof.
  assert (∀ res, forks (ensure_executed res)) as He by (intros res; unfold ensure_executed; by destruct (bool_decide _)).
  apply forks_bind; [apply forks_publish|intros res]. apply forks_bind; [apply He|intros _].
  destruct (gc_init_func_config config) as [init|]; [|by intros self].
  apply forks_bind; [apply forks_lift|intros module]. apply forks_bind; [apply forks_lift|intros func]. apply forks_bind; [apply forks_function|intros r; apply He].
Qed.

(** C33. The initial state is stored as a whole or not at all: when the genesis succeeds,
    storage has under every key what the fork had that genesis ran on, in whatever order
    the changes are merged; otherwise storage is untouched. *)
Theorem init_storage_all_or_nothing `{!StorageLaws S} (storage : S) (config : GenesisConfig) :
  (∀ m, diff_order m ≡ₚ map_to_list m) →
  let '(r, storage') := init_storage storage config in
  match r with
  | Ok _ => ∃ vm, run_genesis config (Mvm_new natives (fork_new storage) tt tt (gc_cost_table config)) = (Ok tt, vm) ∧
      ∀ key, storage_get storage' key = storage_get (vm_state vm) key
  | _ => storage' = storage
  end.
Proof.
  intros Hperm. unfold init_storage. pose proof (forks_genesis config (Mvm_new natives (fork_new storage) tt tt (gc_cost_table config))) as Hf.
  destruct (run_genesis config _) as [[[]|e| |] vm]; [|exact Hf..]. exists vm. split; [done|]. intros key. by apply fork_merge_spec.
Qed.
End Genesis.

(** ** Transactions and gas *)

(** The signer that an entry stands for *)
Definition signer_at (signers : list AccountAddress) (l : list Signer) (i : nat) : option AccountAddress :=
  s ← l !! i;
  match s with
  | SignerRoot => Some diem_root_address
  | SignerPlaceholder => signers !! length (List.filter is_placeholder (take i l))
  | SignerName _ => None
  end.
Lemma run_collect_cons {S E A B} (f : A → Run S E B) x l s :
  run_collect f (x :: l) s = (y ← f x; ys ← run_collect f l; mret (y :: ys)) s.
Proof. done. Qed.
Lemma into_signers_spec l signers :
  match run_collect into_signer l signers with
  | (Ok out, _) => (∀ name, SignerName name ∉ l) ∧ (length (List.filter is_placeholder l) <= length signers)%nat ∧
      length out = length l ∧ ∀ i, (i < length l)%nat → out !! i = signer_at signers l i
  | (Err _, _) => (∃ name, SignerName name ∈ l) ∨ (length signers < length (List.filter is_placeholder l))%nat
  | _ => False
  end.
Proof.
  revert signers. induction l as [|s l IH]; intros signers.
  { cbn. split_and!; [by intros name ?%elem_of_nil|lia|done|lia]. }
  rewrite run_collect_cons, run_bind_eq. destruct s as [| |name]; cbn [into_signer].
  - rewrite run_bind_eq. specialize (IH signers). destruct (run_collect into_signer l signers) as [[out|e| |] rest]; cbn in IH |- *; [| |done..].
    + destruct IH as (H1 & H2 & H3 & H4). split_and!; [by intros name [|?]%elem_of_cons; [|by eapply H1]|done|lia|].
      intros [|i] Hi; [done|]. cbn. rewrite H4 by lia. done.
    + destruct IH as [[name Hin]|Hl]; [left; exists name; by right|by right].
  - destruct signers as [|x signers]; cbn; [right; lia|]. rewrite run_bind_eq. specialize (IH signers).
    destruct (run_collect into_signer l signers) as [[out|e| |] rest]; cbn in IH |- *; [| |done..].
    + destruct IH as (H1 & H2 & H3 & H4). split_and!; [by intros name [|?]%elem_of_cons; [|by eapply H1]|lia|lia|].
      intros [|i] Hi; [done|]. cbn. rewrite H4 by lia. done.
    + destruct IH as [[name Hin]|Hl]; [left; exists name; by right|right; lia].
  - cbn. left. exists name. left.
Qed.

(** A transaction becomes a script exactly when it names no address and there are
    signers for all its placeholders; then each placeholder has the next of the signers,
    each root signer is the root address, and the call and its arguments are the
    transaction's. Signers that are left over are ignored. *)
Lemma into_script_spec (tx : TxV1) (signers : list AccountAddress) :
  match into_script tx signers with
  | Ok script => (∀ name, SignerName name ∉ tx_signers tx) ∧ signers_count tx <= len signers ∧
      (length (sx_signers script) = length (tx_signers tx) ∧
       ∀ i, (i < length (tx_signers tx))%nat → sx_signers script !! i = signer_at signers (tx_signers tx) i) ∧
      (sx_call script, sx_args script, sx_type_args script) = (tx_call tx, tx_args tx, tx_type_args tx)
  | Err _ => (∃ name, SignerName name ∈ tx_signers tx) ∨ len signers < signers_count tx
  | _ => False
  end.
Proof.
  unfold into_script, signers_count, len. pose proof (into_signers_spec (tx_signers tx) signers) as Hs.
  destruct (run_collect into_signer (tx_signers tx) signers) as [[out|e| |] rest]; cbn; [| |done..].
  - destruct Hs as (H1 & H2 & H3 & H4). split_and!; [done|lia|done|done|done].
  - destruct Hs as [|]; [by left|right; lia].
Qed.

(** Gas that was made by its constructors is never too much: the meter of a
    transaction begins with a thousand internal units for each unit, in every build, which is within a [u64]. *)
Theorem gas_fits (overflow_checks : bool) (table : CostTable) (gas : TxGas) :
  gas_unit_scaling_factor (gas_constants table) = 1000 →
  (gas = Gas_infinite ∨ ∃ max price, Gas_new max price = Ok gas) →
  GasStatus_new (E := unit) overflow_checks table (max_gas_amount gas) =
    Ok {| cost_table := table; gas_left := max_gas_amount gas * 1000; charge := true |} ∧ max_gas_amount gas * 1000 <= u64_MAX.
Proof.
  intros Hf Hg. assert (max_gas_amount gas <= GAS_AMOUNT_MAX_VALUE) as Hm.
  { destruct Hg as [->|(max & price & Hn)]; [done|]. unfold Gas_new in Hn. destruct (N.ltb_spec max GAS_AMOUNT_MAX_VALUE); [|done]. injection Hn as <-. cbn. lia. }
  assert (max_gas_amount gas * 1000 <= u64_MAX) as Hmax.
  { unfold GAS_AMOUNT_MAX_VALUE in Hm. pose proof (N.Div0.mul_div_le u64_MAX 1000). lia. }
  split; [|done]. unfold GasStatus_new, to_internal_units, gas_mul. rewrite Hf. by rewrite (proj2 (N.leb_le _ _) Hmax).
Qed.
Lemma gas_fits_witness : GasStatus_new (E := unit) true {| instruction_table := []; native_table := []; gas_constants := GasConstants_default |} (max_gas_amount Gas_infinite) =
  Ok {| cost_table := {| instruction_table := []; native_table := []; gas_constants := GasConstants_default |}; gas_left := 18446744073709551000; charge := true |}.
Proof. apply (gas_fits true {| instruction_table := []; native_table := []; gas_constants := GasConstants_default |} Gas_infinite eq_refl (or_introl eq_refl)). Defined.

(** ** Examples *)

Section Examples.
Notation Store := (gmap (list u8) (list u8)).
Notation Balances := (gmap (AccountAddress * list u8) u64).
Notation Host := (@Mvm Store (list Event) Balances unit).
#[local] Instance no_natives {DS} : NativeCalls DS unit := λ _ _ _ _ _, run_lift Panic.
Definition small_table : CostTable := {| instruction_table := replicate 71 (GasCost_new 1 1); native_table := []; gas_constants := GasConstants_default |}.
Definition new_host : Host := Mvm_new ∅ ∅ [] ∅ small_table.
Definition some_gas : TxGas := {| max_gas_amount := 100; gas_unit_price := 1 |}.
Definition publish_package (ms : list CompiledModule) (dry_run : bool) (self : Host) : result unit VmResult * Host :=
  @publish_module_package Store (list Event) Balances unit (list_graph Node Edge) list_graph_ops list_toposort _ _ _ true true 100 4 ∅ some_gas
    {| pp_modules := bytes_of <$> ms; pp_address := ZERO |} dry_run self.
Definition ret_script : CompiledScript :=
  {| s_version := 4; s_module_handles := []; s_struct_handles := []; s_function_handles := []; s_function_instantiations := [];
     s_signatures := [[]]; s_identifiers := []; s_address_identifiers := []; s_constant_pool := []; s_type_parameters := []; s_parameters := 0;
     s_code := {| cu_locals := 0; cu_code := [Bytecode.Ret] |} |}.
Definition script_bytes : list u8 := match serialize_script ret_script [] with Ok bytes => bytes | _ => [] end.
Definition run_script (code : list u8) (dry_run : bool) (self : Host) : result unit VmResult * Host :=
  @execute_script Store (list Event) Balances unit (list_graph Node Edge) list_graph_ops list_toposort _ _ _ _ true true 100 4 1000 ∅ (λ code, code) map_to_list some_gas
    {| ec_timestamp := 1; ec_block_height := 2 |} {| sx_call := CallScript code; sx_args := []; sx_type_args := []; sx_signers := [] |} dry_run self.

(** From bytes to storage and back: publishing, and a script after it *)
Example publish_and_run :
  let host := (publish_package [module_B; module_A] false new_host).2 in
  (publish_package [module_B; module_A] false new_host).1 = Ok (VmResult_new EXECUTED None None 8) ∧
  state_get_module (vm_state host) id_A = Ok (Some (bytes_of module_A)) ∧
  (publish_package [module_B] true host).1 = Ok (VmResult_new DUPLICATE_MODULE_NAME None (Some LUndefined) 8) ∧
  (run_script script_bytes false host).1 = Ok (VmResult_new EXECUTED None None 8).
Proof. by vm_compute. Qed.

Definition one_module : ChangeSet := {[ ZERO := {| acs_modules := {[ [65] := Some [1; 2] ]}; acs_resources := ∅ |} ]}.
Lemma effects_committed_witness : ∃ self', handle_tx_effects (one_module, [], []) new_host = (Ok tt, self') ∧
  storage_get (vm_state self') (CODE_TAG :: ZERO ++ [1; 65]) = Some [1; 2].
Proof.
  destruct (effects_committed one_module [] [] new_host) as (self' & Hrun & (state & -> & Hs)).
  - intros [id|addr tag] v Hc; cbn [cs_change] in Hc.
    + unfold modules_of, one_module in Hc. destruct (decide (mid_address id = ZERO)) as [Ha|Ha].
      * rewrite Ha, lookup_singleton_eq in Hc. cbn [acs_modules] in Hc. apply lookup_singleton_Some in Hc as [Hn _].
        destruct id as [a n]. cbn in Ha, Hn. subst. split; [by vm_compute|]. eexists. by vm_compute.
      * by rewrite lookup_singleton_ne, lookup_empty in Hc.
    + unfold resources_of, one_module in Hc. destruct (decide (addr = ZERO)) as [->|Ha].
      * rewrite lookup_singleton_eq in Hc. cbn [acs_resources] in Hc. by rewrite lookup_empty in Hc.
      * by rewrite lookup_singleton_ne, lookup_empty in Hc.
  - eexists. split; [exact Hrun|]. cbn [vm_state set_master_of_coin set_event_handler set_state].
    assert (item_ok (ModuleItem {| mid_address := ZERO; mid_name := [65] |})) as Hok by (split_and!; [reflexivity|reflexivity|by vm_compute]).
    assert (item_key (ModuleItem {| mid_address := ZERO; mid_name := [65] |}) = Ok (CODE_TAG :: ZERO ++ [1; 65])) as Hkey by (vm_compute; reflexivity).
    etrans; [exact (Hs _ _ Hok Hkey)|]. vm_compute. reflexivity.
Defined.
Lemma script_all_or_nothing_witness :
  let '(_, self') := run_script script_bytes false new_host in
  ∃ result, (∃ effects, result = Ok effects) ∧
    outcome (S := Store) (E := list Event) (B := Balances) (Native := unit) true ZERO false result new_host self' (VmResult_new EXECUTED None None 8).
Proof.
  destruct (run_script script_bytes false new_host) as [r self'] eqn:Hr.
  assert (r = Ok (VmResult_new EXECUTED None None 8)) as -> by (change r with (r, self').1; rewrite <- Hr; vm_compute; reflexivity).
  unfold run_script in Hr. apply script_all_or_nothing in Hr as (g & result & g' & _ & _ & Hout & _).
  exists result. split; [|exact Hout]. destruct Hout as [effects mid _ Hok|Hd|err _ He Hrep]; [by exists effects|done|]. rewrite He in Hrep. discriminate Hrep.
Defined.
Lemma package_published_witness :
  ∃ self' ms ids, package_stored (G := list_graph Node Edge) (H := list_graph_ops) (H0 := list_toposort) true true 100 (∅ : NativeFunctions unit)
    new_host self' (bytes_of <$> [module_B; module_A]) ZERO ms ids.
Proof.
  destruct (publish_package [module_B; module_A] false new_host) as [r self'] eqn:Hr.
  assert (r = Ok (VmResult_new EXECUTED None None 8)) as -> by (change r with (r, self').1; rewrite <- Hr; vm_compute; reflexivity).
  destruct (proj2 (proj2 (@package_published Store (list Event) Balances unit (list_graph Node Edge) list_graph_ops list_toposort _ _ _ _ true true 100 4 ∅
    some_gas {| pp_modules := bytes_of <$> [module_B; module_A]; pp_address := ZERO |} false new_host self' _ eq_refl Hr)) eq_refl eq_refl) as (ms & ids & Hp).
  by exists self', ms, ids.
Defined.
Definition some_genesis : GenesisConfig :=
  {| gc_stdlib := {| pp_modules := [bytes_of module_B]; pp_address := ZERO |}; gc_init_func_config := None; gc_cost_table := small_table |}.
Definition start_chain (storage : Store) : result unit unit * Store :=
  @init_storage Store unit (list_graph Node Edge) list_graph_ops list_toposort _ _ true true 100 4 1000 ∅ map_to_list storage some_genesis.
Lemma init_storage_all_or_nothing_witness :
  (start_chain ∅).1 = Ok tt ∧ ∃ vm : @Mvm (StorageFork Store) unit unit unit, ∀ key, storage_get (start_chain ∅).2 key = storage_get (vm_state vm) key.
Proof.
  assert ((start_chain ∅).1 = Ok tt) as Hr by (vm_compute; reflexivity). split; [exact Hr|].
  pose proof (@init_storage_all_or_nothing Store unit (list_graph Node Edge) list_graph_ops list_toposort _ _ true true 100 4 1000 ∅ map_to_list _ ∅ some_genesis
    (λ m, reflexivity _)) as Hi. fold (start_chain ∅) in Hi. destruct (start_chain ∅) as [r storage']. cbn [fst snd] in *. subst r.
  destruct Hi as (vm & _ & Hv). by exists vm.
Defined.
End Examples.
