(* ===== verification/Upgrades.v ===== *)
(** * Upgrades: normalized modules, compatibility and interfaces

    Models [language/move-binary-format/src/normalized.rs], [compatibility.rs] and
    [mvm/src/abi.rs]: a module without the indices of its tables, the check whether a new
    version of a module can replace an old one, and the description of a module that the
    host gives to wallets.  A [BTreeMap] is a finite map; the order of its entries does
    not matter to the check.

    The theorems: the check decides what it promises and is a preorder; what links
    against a module links against every version of it that the check accepts; normalized
    types and type tags correspond; a module that came in as bytes has an interface. *)

From Stdlib Require Import String.
From S2P Require Import Prelude Checks CoreTypes VmStatus Abilities FileFormat Errors Serializer Deserializer RoundTrip Codecs Views BoundsChecker InBounds CheckedUnits Duplication SignatureChecker TypedCode ModulePasses CyclicDependencies Dependencies Linking Integers RuntimeTypes Heap Values Bcs BcsCodecs MoveValues MoveValueCodec ValueCodec Effects Keys Balances.

(** ** [normalized.rs] *)

Module Normalized.
Inductive Type_ : Set :=
| Bool | U8 | U64 | U128 | Address | Signer
| Struct (address : AccountAddress) (module name : Identifier) (type_arguments : list Type_)
| Vector (t : Type_)
| TypeParameter (i : TypeParameterIndex)
| Reference (t : Type_)
| MutableReference (t : Type_).
Record Field : Set := { fld_name : Identifier; fld_type : Type_ }.
Record StructType : Set := { st_abilities : AbilitySet; st_type_parameters : list StructTypeParameter; st_fields : list Field }.
Record Function : Set := {
  fun_visibility : Visibility; fun_type_parameters : list AbilitySet; fun_parameters : list Type_; fun_return : list Type_ }.
Record Module_ : Set := {
  mod_address : AccountAddress;
  mod_name : Identifier;
  mod_friends : list ModuleId;
  mod_structs : gmap Identifier StructType;
  mod_exposed_functions : gmap Identifier Function }.

Section TypeInduction.
Context (P : Type_ → Prop).
Context (HBool : P Bool) (HU8 : P U8) (HU64 : P U64) (HU128 : P U128) (HAddress : P Address) (HSigner : P Signer)
  (HStruct : ∀ a m n ts, Forall P ts → P (Struct a m n ts)) (HVector : ∀ t, P t → P (Vector t))
  (HParameter : ∀ i, P (TypeParameter i)) (HReference : ∀ t, P t → P (Reference t)) (HMutable : ∀ t, P t → P (MutableReference t)).
Fixpoint type_ind (t : Type_) : P t :=
  match t with
  | Bool => HBool | U8 => HU8 | U64 => HU64 | U128 => HU128 | Address => HAddress | Signer => HSigner
  | Struct a m n ts => HStruct a m n ts (list_ind (Forall P) (Forall_nil_2 P) (λ x l, Forall_cons_2 P x l (type_ind x)) ts)
  | Vector t => HVector t (type_ind t)
  | TypeParameter i => HParameter i
  | Reference t => HReference t (type_ind t)
  | MutableReference t => HMutable t (type_ind t)
  end.
End TypeInduction.

(** Types can be compared. *)
Fixpoint encode_type (t : Type_) : gen_tree (list N * list N * list N + N) :=
  match t with
  | Bool => GenNode 0 [] | U8 => GenNode 1 [] | U64 => GenNode 2 [] | U128 => GenNode 3 [] | Address => GenNode 4 [] | Signer => GenNode 5 []
  | Struct a m n ts => GenNode 6 (GenLeaf (inl (a, m, n)) :: (encode_type <$> ts))
  | Vector t => GenNode 7 [encode_type t]
  | TypeParameter i => GenNode 8 [GenLeaf (inr i)]
  | Reference t => GenNode 9 [encode_type t]
  | MutableReference t => GenNode 10 [encode_type t]
  end.
Lemma encode_type_inj t u : encode_type t = encode_type u → t = u.
Proof.
  revert u. induction t as [| | | | | |a m n ts IH|t IH|i|t IH|t IH] using type_ind; intros []; cbn; intros He;
    first [reflexivity|discriminate He|injection He as; subst]; try reflexivity; try (f_equal; by auto).
  f_equal. match goal with H : map _ _ = map _ _ |- _ => revert H | H : _ <$> _ = _ <$> _ |- _ => revert H end. generalize type_arguments.
  induction IH as [|t ts Ht _ IH]; intros [|u us] He; try discriminate He; [done|]. injection He as H1 H2. f_equal; [by apply Ht|by apply IH].
Qed.
#[export] Instance Type_eq_dec : EqDecision Type_.
Proof. intros t u. destruct (decide (encode_type t = encode_type u)) as [H|H]; [left; by apply encode_type_inj|right; by intros ->]. Defined.
#[export] Instance Field_eq_dec : EqDecision Field.
Proof. solve_decision. Defined.

(** *** Extraction from a module; accessors panic when an index is out of range. *)

Section Extract.
Context (m : CompiledModule).
Notation view := (VModule m).

(** The address, the module and the name of a struct *)
Definition struct_path (s_handle : StructHandle) : result StatusCode (AccountAddress * Identifier * Identifier) :=
  m_handle ← module_handle_at view (sh_module s_handle);
  address ← address_identifier_at view (mh_address m_handle);
  module ← identifier_at view (mh_name m_handle);
  name ← identifier_at view (sh_name s_handle);
  Ok (address, module, name).
(** [Type::new] *)
Fixpoint type_new (s : SignatureToken) : result StatusCode Type_ :=
  match s with
  | SignatureToken.Struct shi =>
      s_handle ← struct_handle_at view shi;
      match sh_type_parameters s_handle with
      | [] => '(address, module, name) ← struct_path s_handle; Ok (Struct address module name [])
      | _ => Panic
      end
  | SignatureToken.StructInstantiation shi type_actuals =>
      s_handle ← struct_handle_at view shi;
      '(address, module, name) ← struct_path s_handle;
      type_arguments ← collect type_new type_actuals;
      Ok (Struct address module name type_arguments)
  | SignatureToken.Bool => Ok Bool
  | SignatureToken.U8 => Ok U8
  | SignatureToken.U64 => Ok U64
  | SignatureToken.U128 => Ok U128
  | SignatureToken.Address => Ok Address
  | SignatureToken.Signer => Ok Signer
  | SignatureToken.Vector t => t ← type_new t; Ok (Vector t)
  | SignatureToken.TypeParameter i => Ok (TypeParameter i)
  | SignatureToken.Reference t => t ← type_new t; Ok (Reference t)
  | SignatureToken.MutableReference t => t ← type_new t; Ok (MutableReference t)
  end.
(** [Field::new], [Struct::new], [Function::new] *)
Definition field_new (f : FieldDefinition) : result StatusCode Field :=
  name ← identifier_at view (fd_name f);
  type_ ← type_new (fd_signature f);
  Ok {| fld_name := name; fld_type := type_ |}.
Definition struct_new (def : StructDefinition) : result StatusCode (Identifier * StructType) :=
  handle ← struct_handle_at view (sd_struct_handle def);
  fields ← match sd_field_information def with
           | Native => Panic
           | Declared fields => collect field_new fields
           end;
  name ← identifier_at view (sh_name handle);
  Ok (name, {| st_abilities := sh_abilities handle; st_type_parameters := sh_type_parameters handle; st_fields := fields |}).
Definition function_new (def : FunctionDefinition) : result StatusCode (Identifier * Function) :=
  fhandle ← function_handle_at view (fdef_function def);
  name ← identifier_at view (fh_name fhandle);
  parameters ← (sig ← signature_at view (fh_parameters fhandle); collect type_new sig);
  return_ ← (sig ← signature_at view (fh_return fhandle); collect type_new sig);
  Ok (name, {| fun_visibility := fdef_visibility def; fun_type_parameters := fh_type_parameters fhandle;
               fun_parameters := parameters; fun_return := return_ |}).
(** [Function::new_from_name] *)
Fixpoint function_new_from_name (func_name : Identifier) (function_defs : list FunctionDefinition) : result StatusCode (option Function) :=
  match function_defs with
  | [] => Ok None
  | func_defs :: function_defs =>
      fhandle ← function_handle_at view (fdef_function func_defs);
      name ← identifier_at view (fh_name fhandle);
      if bool_decide (name = func_name) then '(_, f) ← function_new func_defs; Ok (Some f)
      else function_new_from_name func_name function_defs
  end.
Definition is_exposed (func_def : FunctionDefinition) : bool :=
  match fdef_visibility func_def with Public | Script | Friend => true | Private => false end.
(** [collect] into a [BTreeMap]: a later entry replaces an earlier one. *)
Definition to_map {A} (entries : list (Identifier * A)) : gmap Identifier A :=
  foldl (λ map p, <[ p.1 := p.2 ]> map) ∅ entries.
(** [Module::new] *)
Definition module_new : result StatusCode Module_ :=
  friends ← immediate_friends m;
  structs ← collect struct_new (m_struct_defs m);
  exposed_functions ← collect function_new (filter (λ d, is_exposed d = true) (m_function_defs m));
  handle ← module_handle_at view (m_self_module_handle_idx m);
  address ← address_identifier_at view (mh_address handle);
  name ← identifier_at view (mh_name handle);
  Ok {| mod_address := address; mod_name := name; mod_friends := friends; mod_structs := to_map structs;
        mod_exposed_functions := to_map exposed_functions |}.
End Extract.

(** *** Types on their own *)

(** [Type::is_closed] *)
Fixpoint is_closed (self : Type_) : bool :=
  match self with
  | TypeParameter _ => false
  | Struct _ _ _ type_arguments => forallb is_closed type_arguments
  | Vector t | Reference t | MutableReference t => is_closed t
  | _ => true
  end.
(** [Option::expect] *)
Definition expect {E A} (o : result E (option A)) : result E A := o ← o; unwrap o.
(** [Type::into_type_tag], [Type::into_struct_tag] *)
Fixpoint into_type_tag {E} (self : Type_) : result E (option TypeTag) :=
  if is_closed self then
    match self with
    | Reference _ | MutableReference _ => Ok None
    | Bool => Ok (Some TagBool)
    | U8 => Ok (Some TagU8)
    | U64 => Ok (Some TagU64)
    | U128 => Ok (Some TagU128)
    | Address => Ok (Some TagAddress)
    | Signer => Ok (Some TagSigner)
    | Vector t => t ← expect (into_type_tag t); Ok (Some (TagVector t))
    | Struct address module name type_arguments =>
        type_params ← collect (λ t, expect (into_type_tag t)) type_arguments;
        Ok (Some (TagStruct address module name type_params))
    | TypeParameter _ => Panic
    end
  else Ok None.
Definition into_struct_tag {E} (self : Type_) : result E (option StructTag) :=
  tag ← into_type_tag self;
  match tag with
  | Some (TagStruct a m n ts) => Ok (Some {| stg_address := a; stg_module := m; stg_name := n; stg_type_params := ts |})
  | _ => Ok None
  end.
(** [From<TypeTag>] *)
Fixpoint from_tag (ty : TypeTag) : Type_ :=
  match ty with
  | TagBool => Bool | TagU8 => U8 | TagU64 => U64 | TagU128 => U128 | TagAddress => Address | TagSigner => Signer
  | TagVector ty => Vector (from_tag ty)
  | TagStruct address module name type_params => Struct address module name (from_tag <$> type_params)
  end.
(** [Type::subst] *)
Fixpoint subst {E} (self : Type_) (type_args : list Type_) : result E Type_ :=
  match self with
  | Reference ty => ty ← subst ty type_args; Ok (Reference ty)
  | MutableReference ty => ty ← subst ty type_args; Ok (MutableReference ty)
  | Vector t => t ← subst t type_args; Ok (Vector t)
  | Struct address module name type_arguments =>
      type_arguments ← collect (λ t, subst t type_args) type_arguments;
      Ok (Struct address module name type_arguments)
  | TypeParameter i => unwrap (at_ type_args i)
  | ty => Ok ty
  end.
End Normalized.

(** ** [compatibility.rs] *)

Record Compatibility : Set := { struct_and_function_linking : bool; struct_layout : bool }.
Definition is_fully_compatible (self : Compatibility) : bool := struct_and_function_linking self && struct_layout self.

Section Check.
Import Normalized.
Definition type_parameter_constraints_compatibile (old_type_constraints new_type_constraints : AbilitySet) : bool :=
  is_subset new_type_constraints old_type_constraints.
Definition type_parameter_phantom_decl_compatibile (old_type_parameter new_type_parameter : StructTypeParameter) : bool :=
  negb (stp_is_phantom old_type_parameter) || stp_is_phantom new_type_parameter.
Definition struct_abilities_compatibile (old_abilities new_abilities : AbilitySet) : bool := is_subset old_abilities new_abilities.
Definition fun_type_parameters_compatibile (old_type_parameters new_type_parameters : list AbilitySet) : bool :=
  (len old_type_parameters =? len new_type_parameters) &&
  forallb (λ p, type_parameter_constraints_compatibile p.1 p.2) (zip old_type_parameters new_type_parameters).
Definition struct_type_parameters_compatibile (old_type_parameters new_type_parameters : list StructTypeParameter) : bool :=
  (len old_type_parameters =? len new_type_parameters) &&
  forallb (λ p, type_parameter_phantom_decl_compatibile p.1 p.2 &&
    type_parameter_constraints_compatibile (stp_constraints p.1) (stp_constraints p.2)) (zip old_type_parameters new_type_parameters).

Definition linking_broken (self : Compatibility) : Compatibility := {| struct_and_function_linking := false; struct_layout := struct_layout self |}.
Definition layout_broken (self : Compatibility) : Compatibility := {| struct_and_function_linking := struct_and_function_linking self; struct_layout := false |}.
(** One struct of the old module *)
Definition check_struct (new_module : Module_) (flags : Compatibility) (p : Identifier * StructType) : Compatibility :=
  let '(name, old_struct) := p in
  match mod_structs new_module !! name with
  | None => linking_broken flags
  | Some new_struct =>
      let flags := if negb (struct_abilities_compatibile (st_abilities old_struct) (st_abilities new_struct))
                      || negb (struct_type_parameters_compatibile (st_type_parameters old_struct) (st_type_parameters new_struct))
                   then linking_broken flags else flags in
      if bool_decide (st_fields new_struct ≠ st_fields old_struct) then layout_broken flags else flags
  end.
(** One exposed function of the old module *)
Definition is_vis_compatible {E} (old_visibility new_visibility : Visibility) : result E bool :=
  match old_visibility, new_visibility with
  | Public, Public => Ok true
  | Public, _ => Ok false
  | Script, Script => Ok true
  | Script, _ => Ok false
  | Friend, Public | Friend, Friend => Ok true
  | Friend, _ => Ok false
  | Private, _ => Panic
  end.
Definition check_function {E} (new_module : Module_) (flags : Compatibility) (p : Identifier * Function) : result E Compatibility :=
  let '(name, old_func) := p in
  match mod_exposed_functions new_module !! name with
  | None => Ok (linking_broken flags)
  | Some new_func =>
      is_vis_compatible ← is_vis_compatible (fun_visibility old_func) (fun_visibility new_func);
      Ok (if negb is_vis_compatible
             || bool_decide (fun_parameters old_func ≠ fun_parameters new_func)
             || bool_decide (fun_return old_func ≠ fun_return new_func)
             || negb (fun_type_parameters_compatibile (fun_type_parameters old_func) (fun_type_parameters new_func))
          then linking_broken flags else flags)
  end.
(** [Compatibility::check] *)
Definition Compatibility_check {E} (old_module new_module : Module_) : result E Compatibility :=
  let flags := {| struct_and_function_linking := true; struct_layout := true |} in
  let flags := if bool_decide (mod_address old_module ≠ mod_address new_module) || bool_decide (mod_name old_module ≠ mod_name new_module)
               then linking_broken flags else flags in
  let flags := foldl (check_struct new_module) flags (map_to_list (mod_structs old_module)) in
  flags ← try_fold (check_function new_module) (map_to_list (mod_exposed_functions old_module)) flags;
  let old_friend_module_ids : gset ModuleId := list_to_set (mod_friends old_module) in
  let new_friend_module_ids : gset ModuleId := list_to_set (mod_friends new_module) in
  Ok (if negb (bool_decide (old_friend_module_ids ⊆ new_friend_module_ids)) then linking_broken flags else flags).
End Check.

(** ** Types and tags *)

Section Tags.
Import Normalized.
Context {E : Type}.

Lemma from_tag_closed tag : is_closed (from_tag tag) = true.
Proof.
  induction tag as [| | | | | |t IH|a m n ts IH] using tag_ind; try done. cbn [from_tag is_closed].
  induction IH as [|t ts Ht _ IH]; [done|]. cbn. by rewrite Ht.
Qed.
Lemma into_from_tag tag : into_type_tag (E := E) (from_tag tag) = Ok (Some tag).
Proof.
  induction tag as [| | | | | |t IH|a m n ts IH] using tag_ind; try done.
  - cbn [from_tag into_type_tag]. change (is_closed (Vector (from_tag t))) with (is_closed (from_tag t)). rewrite from_tag_closed, IH. done.
  - pose proof (from_tag_closed (TagStruct a m n ts)) as Hc. cbn [from_tag] in *. cbn [into_type_tag]. rewrite Hc.
    assert (collect (λ t, expect (into_type_tag (E := E) t)) (from_tag <$> ts) = Ok ts) as ->; [|done].
    apply collect_Ok, Forall2_fmap_l, Forall_Forall2_diag. eapply Forall_impl; [exact IH|]. intros t Ht. cbn. by rewrite Ht.
Qed.
Lemma into_tag_Some ty tag : into_type_tag (E := E) ty = Ok (Some tag) → ty = from_tag tag.
Proof.
  revert tag. induction ty as [| | | | | |a m n ts IH|t IH|i|t IH|t IH] using type_ind; intros tag; cbn [into_type_tag]; intros H;
    try (destruct (is_closed _) eqn:?; [|discriminate H]); try (by injection H as <-); try discriminate H.
  - apply bind_Ok in H as (tags & Ht & [= <-]). cbn [from_tag]. f_equal. apply collect_Ok in Ht. clear Heqb.
    induction Ht as [|t u ts us Ht _ IHt]; [done|]. apply Forall_cons in IH as [H IH]. cbn. f_equal; [|by apply IHt].
    unfold expect in Ht. apply bind_Ok in Ht as ([v|] & Hv & Hu); [|done]. injection Hu as ->. by apply H.
  - apply bind_Ok in H as (u & Ht & [= <-]). cbn [from_tag]. f_equal.
    unfold expect in Ht. apply bind_Ok in Ht as ([v|] & Hv & Hu); [|done]. injection Hu as ->. by apply IH.
Qed.

(** References at the top, and anywhere *)
Definition is_reference (ty : Type_) : bool := match ty with Reference _ | MutableReference _ => true | _ => false end.
Fixpoint has_reference (ty : Type_) : bool :=
  match ty with
  | Reference _ | MutableReference _ => true
  | Vector t => has_reference t
  | Struct _ _ _ ts => existsb has_reference ts
  | _ => false
  end.
Lemma into_tag_cases ty :
  match into_type_tag (E := E) ty with
  | Ok (Some _) => is_closed ty = true ∧ has_reference ty = false
  | Ok None => is_closed ty = false ∨ is_reference ty = true
  | Panic => is_closed ty = true ∧ is_reference ty = false ∧ has_reference ty = true
  | _ => False
  end.
Proof.
  induction ty as [| | | | | |a m n ts IH|t IH|i|t IH|t IH] using type_ind; cbn [into_type_tag]; try done;
    destruct (is_closed _) eqn:Hc; try (by left); try (by right); cbn [is_closed has_reference is_reference] in *; try done.
  - assert (match collect (λ t, expect (into_type_tag (E := E) t)) ts with
            | Ok _ => existsb has_reference ts = false | Panic => existsb has_reference ts = true | _ => False end) as Ht.
    { induction IH as [|t ts Ht _ IH]; [done|]. cbn [forallb] in Hc. apply andb_true_iff in Hc as [Hct Hc]. specialize (IH Hc).
      cbn [collect existsb]. unfold expect in *. destruct (into_type_tag t) as [[tag|]| | |]; try done; cbn [mbind result_bind unwrap].
      - destruct Ht as [_ ->]. cbn [orb]. by destruct (collect _ ts).
      - destruct Ht as [Ht|Ht]; [congruence|]. by destruct t.
      - by destruct Ht as (_ & _ & ->). }
    destruct (collect _ ts); try done; by split.
  - unfold expect. destruct (into_type_tag t) as [[tag|]| | |]; try done; cbn [mbind result_bind unwrap].
    + destruct IH as [Ht|Ht]; [congruence|]. by destruct t.
    + by destruct IH as (_ & _ & ->).
Qed.

(** Normalized types and type tags correspond: a type becomes a tag exactly when it
    comes from that tag, which are the closed types without references; it has no tag when it
    is open or a reference, and the conversion panics when a reference is inside it. *)
Theorem type_tags_normalized (ty : Type_) :
  (∀ tag, into_type_tag (E := E) ty = Ok (Some tag) ↔ ty = from_tag tag) ∧
  ((∃ tag, ty = from_tag tag) ↔ is_closed ty = true ∧ has_reference ty = false) ∧
  (into_type_tag (E := E) ty = Ok None ↔ is_closed ty = false ∨ is_reference ty = true) ∧
  (into_type_tag (E := E) ty = Panic ↔ is_closed ty = true ∧ is_reference ty = false ∧ has_reference ty = true).
Proof.
  assert (Hr : is_reference ty = true → has_reference ty = true) by (by destruct ty).
  assert (Hsome : ∀ tag, into_type_tag (E := E) ty = Ok (Some tag) ↔ ty = from_tag tag).
  { intros tag. split; [apply into_tag_Some|]. intros ->. apply into_from_tag. }
  split; [exact Hsome|]. setoid_rewrite <- Hsome. pose proof (into_tag_cases ty) as H.
  destruct (into_type_tag ty) as [[tag|]| | |]; try done;
    destruct (is_closed ty), (is_reference ty), (has_reference ty); naive_solver.
Qed.
End Tags.

(** ** What the check decides *)

Lemma is_subset_trans s1 s2 s3 : is_subset s1 s2 = true → is_subset s2 s3 = true → is_subset s1 s3 = true.
Proof.
  unfold is_subset, is_subset_bits. rewrite !N.eqb_eq. intros H12 H23. rewrite <- H12 at 1. by rewrite <- N.land_assoc, H23.
Qed.
Lemma is_subset_refl s : is_subset s s = true.
Proof. unfold is_subset, is_subset_bits. by rewrite N.land_diag, N.eqb_refl. Qed.
Lemma forallb_zip {A B} (f : A → B → bool) (l : list A) (k : list B) :
  (len l =? len k) && forallb (λ p, f p.1 p.2) (zip l k) = true ↔ Forall2 (λ x y, f x y = true) l k.
Proof.
  rewrite andb_true_iff, N.eqb_eq. unfold len. split.
  - intros [Hl H]. assert (length l = length k) as Hl' by lia. clear Hl. revert k Hl' H.
    induction l as [|x l IH]; intros [|y k] Hl H; try done. cbn in H. apply andb_true_iff in H as [H1 H2].
    constructor; [done|]. apply IH; [by injection Hl|done].
  - induction 1 as [|x y l k Hxy _ [IH1 IH2]]; [done|]. cbn. rewrite Hxy. split; [lia|done].
Qed.

Section Compatible.
Import Normalized.

(** The new parameters ask for no more than the old ones. *)
Definition weaker_constraints (old new : list AbilitySet) : Prop := Forall2 (λ o n, is_subset n o = true) old new.
Definition weaker_parameters (old new : list StructTypeParameter) : Prop :=
  Forall2 (λ o n, (stp_is_phantom o = true → stp_is_phantom n = true) ∧ is_subset (stp_constraints n) (stp_constraints o) = true) old new.
Definition struct_extends (old new : StructType) : Prop :=
  is_subset (st_abilities old) (st_abilities new) = true ∧ weaker_parameters (st_type_parameters old) (st_type_parameters new).
(** As visible as before, and a script function is no other *)
Definition as_visible (old new : Visibility) : Prop := old = new ∨ old = Friend ∧ new = Public.
Definition function_extends (old new : Function) : Prop :=
  as_visible (fun_visibility old) (fun_visibility new) ∧ fun_parameters old = fun_parameters new ∧ fun_return old = fun_return new ∧
  weaker_constraints (fun_type_parameters old) (fun_type_parameters new).
Record links_kept (old new : Module_) : Prop := {
  lk_address : mod_address old = mod_address new;
  lk_name : mod_name old = mod_name new;
  lk_structs name o : mod_structs old !! name = Some o → ∃ n, mod_structs new !! name = Some n ∧ struct_extends o n;
  lk_functions name o : mod_exposed_functions old !! name = Some o → ∃ n, mod_exposed_functions new !! name = Some n ∧ function_extends o n;
  lk_friends id : id ∈ mod_friends old → id ∈ mod_friends new }.
Definition layouts_kept (old new : Module_) : Prop :=
  ∀ name o n, mod_structs old !! name = Some o → mod_structs new !! name = Some n → st_fields n = st_fields o.
(** No exposed function is private. *)
Definition exposes_visible (m : Module_) : Prop := ∀ name f, mod_exposed_functions m !! name = Some f → fun_visibility f ≠ Private.

Lemma struct_parameters_iff o n : struct_type_parameters_compatibile o n = true ↔ weaker_parameters o n.
Proof.
  unfold struct_type_parameters_compatibile, weaker_parameters.
  rewrite (forallb_zip (λ x y, type_parameter_phantom_decl_compatibile x y && type_parameter_constraints_compatibile (stp_constraints x) (stp_constraints y))).
  split; (intros H; eapply Forall2_impl; [exact H|]); intros x y;
    unfold type_parameter_phantom_decl_compatibile, type_parameter_constraints_compatibile;
    destruct (stp_is_phantom x), (stp_is_phantom y); cbn; naive_solver.
Qed.
Lemma fun_parameters_iff o n : fun_type_parameters_compatibile o n = true ↔ weaker_constraints o n.
Proof. apply (forallb_zip type_parameter_constraints_compatibile). Qed.

(** Flags that tell whether something is still kept *)
Definition tells (c : Compatibility) (links layouts : Prop) : Prop :=
  (struct_and_function_linking c = true ↔ links) ∧ (struct_layout c = true ↔ layouts).
Lemma tells_iff c L1 L2 L1' L2' : (L1 ↔ L1') → (L2 ↔ L2') → tells c L1 L2 → tells c L1' L2'.
Proof. unfold tells. tauto. Qed.

Lemma struct_parameters_false o n : struct_type_parameters_compatibile o n = false ↔ ¬ weaker_parameters o n.
Proof. rewrite <- struct_parameters_iff. by destruct (struct_type_parameters_compatibile o n). Qed.

Definition struct_linked (new : Module_) (p : Identifier * StructType) : Prop := ∃ n, mod_structs new !! p.1 = Some n ∧ struct_extends p.2 n.
Definition struct_laid_out (new : Module_) (p : Identifier * StructType) : Prop := ∀ n, mod_structs new !! p.1 = Some n → st_fields n = st_fields p.2.
Lemma check_struct_tells new c p L1 L2 : tells c L1 L2 → tells (check_struct new c p) (L1 ∧ struct_linked new p) (L2 ∧ struct_laid_out new p).
Proof.
  destruct p as [name o]. intros [H1 H2]. unfold check_struct, struct_linked, struct_laid_out, struct_extends. cbn [fst snd].
  destruct (mod_structs new !! name) as [n|]; [|split; cbn; naive_solver].
  assert (Hx : negb (struct_abilities_compatibile (st_abilities o) (st_abilities n)) || negb (struct_type_parameters_compatibile (st_type_parameters o) (st_type_parameters n)) = false ↔
    is_subset (st_abilities o) (st_abilities n) = true ∧ weaker_parameters (st_type_parameters o) (st_type_parameters n)).
  { rewrite orb_false_iff, !negb_false_iff, struct_parameters_iff. done. }
  destruct (_ || _) eqn:Hb; case_bool_decide as Hf; (split; cbn);
    split; try (intros [=]; done); try naive_solver; intros [? Hn]; exfalso; naive_solver.
Qed.
Lemma check_structs_tells new ps c L1 L2 : tells c L1 L2 →
  tells (foldl (check_struct new) c ps) (L1 ∧ Forall (struct_linked new) ps) (L2 ∧ Forall (struct_laid_out new) ps).
Proof.
  revert c L1 L2. induction ps as [|p ps IH]; intros c L1 L2 H; cbn [foldl].
  - eapply tells_iff; [..|exact H]; rewrite Forall_nil; tauto.
  - eapply tells_iff; [..|apply IH, check_struct_tells, H]; rewrite Forall_cons; tauto.
Qed.

Definition function_linked (new : Module_) (p : Identifier * Function) : Prop := ∃ n, mod_exposed_functions new !! p.1 = Some n ∧ function_extends p.2 n.
Lemma is_vis_compatible_spec {E} o n : o ≠ Private → ∃ b, is_vis_compatible (E := E) o n = Ok b ∧ (b = true ↔ as_visible o n).
Proof. unfold as_visible. intros Ho. destruct o, n; try done; (eexists; split; [reflexivity|]); naive_solver. Qed.
Lemma check_function_tells {E} new c p L1 L2 : fun_visibility p.2 ≠ Private → tells c L1 L2 →
  ∃ c', check_function (E := E) new c p = Ok c' ∧ tells c' (L1 ∧ function_linked new p) L2.
Proof.
  destruct p as [name o]. intros Hv [H1 H2]. unfold check_function, function_linked, function_extends. cbn [fst snd] in *.
  destruct (mod_exposed_functions new !! name) as [n|]; [|eexists; split; [reflexivity|]; split; cbn; naive_solver].
  destruct (is_vis_compatible_spec (E := E) (fun_visibility o) (fun_visibility n) Hv) as (b & -> & Hb). eexists. split; [reflexivity|].
  assert (Hx : negb b || bool_decide (fun_parameters o ≠ fun_parameters n) || bool_decide (fun_return o ≠ fun_return n)
      || negb (fun_type_parameters_compatibile (fun_type_parameters o) (fun_type_parameters n)) = false ↔ function_extends o n).
  { rewrite !orb_false_iff, !negb_false_iff, !bool_decide_eq_false, fun_parameters_iff, Hb. unfold function_extends.
    split; [intros [[[? ?%dec_stable] ?%dec_stable] ?]; done|]. intros (? & ? & ? & ?). split_and!; tauto. }
  unfold function_extends in Hx. destruct (_ || _) eqn:Hc; split; cbn; split; try done; try (intros [=]; done); naive_solver.
Qed.
Lemma check_functions_tells {E} new ps c L1 L2 : Forall (λ p, fun_visibility p.2 ≠ Private) ps → tells c L1 L2 →
  ∃ c', try_fold (check_function (E := E) new) ps c = Ok c' ∧ tells c' (L1 ∧ Forall (function_linked new) ps) L2.
Proof.
  intros Hp. revert c L1. induction Hp as [|p ps Hv _ IH]; intros c L1 H; cbn [try_fold].
  - exists c. split; [done|]. eapply tells_iff; [..|exact H]; rewrite ?Forall_nil; tauto.
  - destruct (check_function_tells (E := E) new c p L1 L2 Hv H) as (c1 & -> & H1). destruct (IH c1 _ H1) as (c2 & Hr & H2).
    exists c2. split; [exact Hr|]. eapply tells_iff; [..|exact H2]; rewrite ?Forall_cons; tauto.
Qed.
Lemma map_list_Forall {A} (m : gmap Identifier A) (P : Identifier * A → Prop) : Forall P (map_to_list m) ↔ ∀ name x, m !! name = Some x → P (name, x).
Proof. rewrite Forall_forall. setoid_rewrite elem_of_map_to_list'. split; [intros H name x Hx; by apply H|intros H [name x]; apply H]. Qed.

Lemma compatibility_tells {E} old new : exposes_visible old →
  ∃ c, Compatibility_check (E := E) old new = Ok c ∧ tells c (links_kept old new) (layouts_kept old new).
Proof.
  intros Hv. unfold Compatibility_check. cbv zeta.
  assert (H0 : tells (if bool_decide (mod_address old ≠ mod_address new) || bool_decide (mod_name old ≠ mod_name new)
       then linking_broken {| struct_and_function_linking := true; struct_layout := true |} else {| struct_and_function_linking := true; struct_layout := true |})
     (mod_address old = mod_address new ∧ mod_name old = mod_name new) True).
  { do 2 case_bool_decide; cbn; split; cbn; (split; [intros; try done|]); naive_solver. }
  apply (check_structs_tells new (map_to_list (mod_structs old))) in H0.
  apply (check_functions_tells (E := E) new (map_to_list (mod_exposed_functions old))) in H0 as (c & -> & H).
  2:{ apply map_list_Forall. exact Hv. }
  eexists. split; [reflexivity|]. destruct H as [H1 H2]. rewrite !map_list_Forall in H1. rewrite map_list_Forall in H2. unfold struct_linked, struct_laid_out, function_linked in *. cbn [fst snd] in *.
  case_bool_decide as Hf; cbn [negb]; split; cbn [linking_broken struct_and_function_linking struct_layout].
  - rewrite H1. split; [intros [[[]]]; constructor; try done|intros []; split_and!; done]. intros id. specialize (Hf id). by rewrite !elem_of_list_to_set in Hf.
  - rewrite H2. unfold layouts_kept. naive_solver.
  - split; [done|]. intros [_ _ _ _ Hk]. exfalso. apply Hf. intros id. rewrite !elem_of_list_to_set. apply Hk.
  - rewrite H2. unfold layouts_kept. naive_solver.
Qed.

(** C35. For an old module without private functions among the exposed ones, which
    normalization gives, the compatibility check decides what it promises, whatever the
    order in which it visits the structs and functions: linking is kept exactly when the
    module keeps its id, its friends, each struct with its abilities and no stronger
    parameters, and each exposed function with its visibility, its types and no stronger
    constraints, where a friend function may become public; layouts are kept exactly when
    no struct that is left has changed its fields. *)
Theorem compatibility_check_spec {E} (old new : Module_) : exposes_visible old →
  ∃ c, Compatibility_check (E := E) old new = Ok c ∧
    (struct_and_function_linking c = true ↔ links_kept old new) ∧ (struct_layout c = true ↔ layouts_kept old new).
Proof. apply compatibility_tells. Qed.

Lemma Forall2_transitive {A} (R : relation A) (l1 l2 l3 : list A) : Transitive R → Forall2 R l1 l2 → Forall2 R l2 l3 → Forall2 R l1 l3.
Proof. intros HR H. revert l3. induction H; intros l3 H3; inversion H3; subst; constructor; [by etrans|by apply IHForall2]. Qed.
Lemma struct_extends_trans s1 s2 s3 : struct_extends s1 s2 → struct_extends s2 s3 → struct_extends s1 s3.
Proof.
  intros [A1 P1] [A2 P2]. split; [by eapply is_subset_trans|]. eapply Forall2_transitive; [|exact P1|exact P2].
  intros x y z [Hp Hc] [Hp' Hc']. split; [auto|by eapply is_subset_trans].
Qed.
Lemma function_extends_trans f1 f2 f3 : function_extends f1 f2 → function_extends f2 f3 → function_extends f1 f3.
Proof.
  intros (V1 & P1 & R1 & C1) (V2 & P2 & R2 & C2). split_and!; [|congruence..|].
  - unfold as_visible in *. naive_solver congruence.
  - eapply Forall2_transitive; [|exact C1|exact C2]. intros x y z H1 H2. by eapply is_subset_trans.
Qed.
Lemma links_kept_trans m1 m2 m3 : links_kept m1 m2 → links_kept m2 m3 → links_kept m1 m3.
Proof.
  intros [A1 N1 S1 F1 R1] [A2 N2 S2 F2 R2]. constructor; [congruence..| | |auto].
  - intros name o Ho. destruct (S1 _ _ Ho) as (n & Hn & H1). destruct (S2 _ _ Hn) as (n' & Hn' & H2). exists n'. split; [done|by eapply struct_extends_trans].
  - intros name o Ho. destruct (F1 _ _ Ho) as (n & Hn & H1). destruct (F2 _ _ Hn) as (n' & Hn' & H2). exists n'. split; [done|by eapply function_extends_trans].
Qed.
Lemma links_kept_refl m : links_kept m m.
Proof.
  constructor; [done..| | |done]; intros name o Ho; exists o; (split; [done|]).
  - split; [apply is_subset_refl|]. apply Forall_Forall2_diag, Forall_forall. intros p _. split; [done|apply is_subset_refl].
  - split_and!; [by left|done..|]. apply Forall_Forall2_diag, Forall_forall. intros p _. apply is_subset_refl.
Qed.

(** [new] is fully compatible with [old]. *)
Definition fully_compatible (old new : Module_) : Prop := ∃ c, Compatibility_check (E := StatusCode) old new = Ok c ∧ is_fully_compatible c = true.
Lemma fully_compatible_iff old new : exposes_visible old → fully_compatible old new ↔ links_kept old new ∧ layouts_kept old new.
Proof.
  intros Hv. destruct (compatibility_tells (E := StatusCode) old new Hv) as (c & Hc & H1 & H2). rewrite <- H1, <- H2. unfold fully_compatible, is_fully_compatible.
  rewrite Hc, <- andb_true_iff. naive_solver.
Qed.

(** Full compatibility is a preorder: a module is compatible with itself, and checking
    each version against the one before it is as good as checking it against the first. *)
Theorem full_compatibility_preorder (m1 m2 m3 : Module_) : exposes_visible m1 → exposes_visible m2 →
  fully_compatible m1 m1 ∧ (fully_compatible m1 m2 → fully_compatible m2 m3 → fully_compatible m1 m3).
Proof.
  intros V1 V2. rewrite !fully_compatible_iff by done. split.
  - split; [apply links_kept_refl|]. intros name o n Ho Hn. congruence.
  - intros [L1 F1] [L2 F2]. split; [by eapply links_kept_trans|]. intros name o n Ho Hn.
    destruct (lk_structs _ _ L1 _ _ Ho) as (o' & Ho' & _). by rewrite (F2 _ _ _ Ho' Hn), (F1 _ _ _ Ho Ho').
Qed.
End Compatible.

(** ** What links against a module links against its upgrades *)

Section Upgrade.
Import Normalized.

(** A normalized type as a type by name *)
Fixpoint named_of (t : Type_) : NamedType :=
  match t with
  | Bool => TBase SignatureToken.Bool | U8 => TBase SignatureToken.U8 | U64 => TBase SignatureToken.U64 | U128 => TBase SignatureToken.U128
  | Address => TBase SignatureToken.Address | Signer => TBase SignatureToken.Signer
  | TypeParameter i => TBase (SignatureToken.TypeParameter i)
  | Vector t => TVector (named_of t)
  | Reference t => TReference false (named_of t)
  | MutableReference t => TReference true (named_of t)
  | Struct a m n ts =>
      TStruct ({| mid_address := a; mid_name := m |}, n) (match ts with [] => None | _ => Some (named_of <$> ts) end)
  end.
Lemma struct_path_id m i sh p : struct_handle_at (VModule m) i = Ok sh → struct_path m sh = Ok p →
  struct_id_at (VModule m) i = Some ({| mid_address := p.1.1; mid_name := p.1.2 |}, p.2).
Proof.
  intros Hi Hp. apply struct_id_at_Some. exists sh. split; [done|]. unfold struct_path in Hp. unfold struct_id.
  apply bind_Ok in Hp as (mh & Hmh & Hp). apply bind_Ok in Hp as (a & Ha & Hp). apply bind_Ok in Hp as (mn & Hmn & Hp).
  apply bind_Ok in Hp as (n & Hn & [= <-]). rewrite Hmh. cbn. unfold module_id_for_handle. rewrite Ha. cbn. rewrite Hmn. cbn. by rewrite Hn.
Qed.
Lemma named_type_new m t u : TokenCodec.token_ok t → type_new m t = Ok u → named (VModule m) t = Some (named_of u).
Proof.
  revert u. induction t as [| | | | | |t IH|i|i ts IH|t IH|t IH|i] using SignatureToken.token_ind; intros u Hok H; cbn [type_new] in H;
    try (by injection H as <-); try (apply bind_Ok in H as (w & Hw & [= <-]); cbn [named named_of]; by rewrite (IH w)).
  - apply bind_Ok in H as (sh & Hsh & H). destruct (sh_type_parameters sh); [|done]. apply bind_Ok in H as ([[a n] s] & Hp & [= <-]).
    cbn [named named_of]. by rewrite (struct_path_id _ _ _ _ Hsh Hp).
  - apply TokenCodec.token_ok_inst in Hok as [Hne Hok]. apply bind_Ok in H as (sh & Hsh & H). apply bind_Ok in H as ([[a n] s] & Hp & H).
    apply bind_Ok in H as (us & Hus%collect_Ok & [= <-]). cbn [named named_of]. rewrite (struct_path_id _ _ _ _ Hsh Hp). cbn.
    assert (mapM (named (VModule m)) ts = Some (named_of <$> us)) as ->.
    { apply mapM_Some. clear Hne. induction Hus as [|t u ts us Htu _ IHts]; [constructor|].
      apply Forall_cons in IH as [IHt IH], Hok as [Hokt Hok]. constructor; [by apply IHt|by apply IHts]. }
    destruct us; [|done]. by inversion Hus; subst.
Qed.
Lemma same_names_upgrade v old new ps dps dps' us : Forall TokenCodec.token_ok dps → Forall TokenCodec.token_ok dps' →
  collect (type_new old) dps = Ok us → collect (type_new new) dps' = Ok us →
  same_names v (VModule old) ps dps → same_names v (VModule new) ps dps'.
Proof.
  intros Hok Hok' H%collect_Ok H'%collect_Ok. unfold same_names. revert ps dps' Hok' H'.
  induction H as [|t u dps us Htu _ IH]; intros ps dps' Hok' H' Hs.
  - inversion H'; subst. by inversion Hs; subst.
  - inversion H' as [|t' ? dps2 ? Ht' H2]; subst. inversion Hs as [|p ? ps2 ? (x & Hp & Hx) Hs2]; subst.
    apply Forall_cons in Hok as [Hokt Hok], Hok' as [Hokt' Hok']. constructor; [|by apply IH]. exists x. split; [done|].
    rewrite (named_type_new _ _ _ Hokt Htu) in Hx. by rewrite (named_type_new _ _ _ Hokt' Ht').
Qed.

(** Entries of a map *)
Lemma to_map_elem {A} (l : list (Identifier * A)) name x : to_map l !! name = Some x → (name, x) ∈ l.
Proof.
  unfold to_map. assert (∀ m : gmap Identifier A, foldl (λ map p, <[ p.1 := p.2 ]> map) m l !! name = Some x → (name, x) ∈ l ∨ m !! name = Some x) as H.
  { induction l as [|[n y] l IH]; intros m Hl; [by right|]. apply IH in Hl as [Hl|Hl]; [left; by right|]. cbn in Hl.
    apply lookup_insert_Some in Hl as [[-> ->]|[_ Hl]]; [left; by left|by right]. }
  intros [?|Hl]%H; [done|]. by rewrite lookup_empty in Hl.
Qed.
Lemma to_map_unique {A} (l : list (Identifier * A)) name x : (name, x) ∈ l → (∀ y, (name, y) ∈ l → y = x) → to_map l !! name = Some x.
Proof.
  intros Hin Hu. destruct (to_map l !! name) as [y|] eqn:Hy; [f_equal; by apply Hu, to_map_elem|]. exfalso. revert Hin Hy. clear Hu. unfold to_map.
  assert (∀ m : gmap Identifier A, (name, x) ∈ l ∨ is_Some (m !! name) → foldl (λ map p, <[ p.1 := p.2 ]> map) m l !! name ≠ None) as H; [|intros Hin; apply H; by left].
  induction l as [|[n y] l IH]; intros m Hm; cbn [foldl].
  - destruct Hm as [Hm|[? Hm]]; [by apply elem_of_nil in Hm|by rewrite Hm].
  - apply IH. cbn [fst snd]. destruct Hm as [[[= <- <-]|Hm]%elem_of_cons|[z Hm]]; [right; by rewrite lookup_insert_eq|by left|].
    right. destruct (decide (n = name)) as [->|Hne]; [by rewrite lookup_insert_eq|by rewrite lookup_insert_ne, Hm].
Qed.

(** What normalization keeps of definitions *)
Lemma struct_new_spec m d name s : struct_new m d = Ok (name, s) → ∃ sh, struct_handle_at (VModule m) (sd_struct_handle d) = Ok sh ∧
  identifier_at (VModule m) (sh_name sh) = Ok name ∧ st_abilities s = sh_abilities sh ∧ st_type_parameters s = sh_type_parameters sh.
Proof.
  intros H. unfold struct_new in H. apply bind_Ok in H as (sh & Hsh & H). apply bind_Ok in H as (fs & Hfs & H).
  apply bind_Ok in H as (n & Hn & [= <- <-]). by exists sh.
Qed.
(** The types of a function, normalized *)
Definition function_types (m : CompiledModule) (fh : FunctionHandle) (f : Function) : Prop :=
  ∃ ps rs, signature_at (VModule m) (fh_parameters fh) = Ok ps ∧ collect (type_new m) ps = Ok (fun_parameters f) ∧
    signature_at (VModule m) (fh_return fh) = Ok rs ∧ collect (type_new m) rs = Ok (fun_return f).
Lemma function_new_spec m d name f : function_new m d = Ok (name, f) → ∃ fh, function_handle_at (VModule m) (fdef_function d) = Ok fh ∧
  identifier_at (VModule m) (fh_name fh) = Ok name ∧ fun_visibility f = fdef_visibility d ∧ fun_type_parameters f = fh_type_parameters fh ∧
  function_types m fh f.
Proof.
  intros H. unfold function_new in H. apply bind_Ok in H as (fh & Hfh & H). apply bind_Ok in H as (n & Hn & H).
  apply bind_Ok in H as (us & (ps & Hps & Hus)%bind_Ok & H). apply bind_Ok in H as (ws & (rs & Hrs & Hws)%bind_Ok & [= <- <-]).
  exists fh. split_and!; [done..|]. by exists ps, rs.
Qed.

(** In a module without duplicates, a name belongs to one struct and one function. *)
Lemma unwrap_at_Ok {E A} (l : list A) i x : unwrap (E := E) (at_ l i) = Ok x → at_ l i = Some x.
Proof. by destruct (at_ l i); [intros [= ->]|]. Qed.
Lemma NoDup_at {A} (l : list A) i j x : NoDup l → at_ l i = Some x → at_ l j = Some x → i = j.
Proof. unfold at_. intros Hn Hi Hj. pose proof (NoDup_lookup _ _ _ _ Hn Hi Hj). lia. Qed.
Lemma NoDup_fmap_elem {A B} (f : A → B) (l : list A) x y : NoDup (f <$> l) → x ∈ l → y ∈ l → f x = f y → x = y.
Proof.
  intros Hn [i Hi]%list_elem_of_lookup [j Hj]%list_elem_of_lookup Hf.
  assert (i = j) as <-; [|congruence]. eapply (NoDup_lookup _ _ _ (f x) Hn); [by rewrite list_lookup_fmap, Hi|by rewrite list_lookup_fmap, Hj, Hf].
Qed.
Lemma same_identifier m i j name : distinct_module m → identifier_at (VModule m) i = Ok name → identifier_at (VModule m) j = Ok name → i = j.
Proof. intros Hd Hi%unwrap_at_Ok Hj%unwrap_at_Ok. by eapply NoDup_at; [apply (dm_identifiers _ Hd)|..]. Qed.
Lemma struct_handle_at_Some m i sh : struct_handle_at (VModule m) i = Ok sh → at_ (m_struct_handles m) i = Some sh.
Proof. unfold struct_handle_at. intros (h & Hh%unwrap_at_Ok & H)%bind_Ok. unfold assumed_postcondition in H. destruct (module_only _ _); [|done]. by injection H as <-. Qed.
Lemma handle_at_in_bounds m i fh : function_handle_at (VModule m) i = Ok fh → at_ (m_function_handles m) i = Some fh.
Proof. unfold function_handle_at. intros (h & Hh%unwrap_at_Ok & H)%bind_Ok. unfold assumed_postcondition in H. destruct (module_only _ _); [|done]. by injection H as <-. Qed.
Lemma at_fmap {A B} (f : A → B) l i x : at_ l i = Some x → at_ (f <$> l) i = Some (f x).
Proof. unfold at_. rewrite list_lookup_fmap. by intros ->. Qed.
Lemma struct_name_unique m d1 d2 sh1 sh2 name : distinct_module m → d1 ∈ m_struct_defs m → d2 ∈ m_struct_defs m →
  struct_handle_at (VModule m) (sd_struct_handle d1) = Ok sh1 → struct_handle_at (VModule m) (sd_struct_handle d2) = Ok sh2 →
  identifier_at (VModule m) (sh_name sh1) = Ok name → identifier_at (VModule m) (sh_name sh2) = Ok name → d1 = d2.
Proof.
  intros Hd Hi1 Hi2 H1%struct_handle_at_Some H2%struct_handle_at_Some Hn1 Hn2.
  assert (sh_name sh1 = sh_name sh2) as Hn by by eapply same_identifier.
  assert (sh_module sh1 = sh_module sh2) as Hm.
  { rewrite (proj2 (dm_structs_own _ Hd _ _ H1)), (proj2 (dm_structs_own _ Hd _ _ H2)); [done|by apply list_elem_of_fmap_2..]. }
  apply (NoDup_fmap_elem _ _ _ _ (dm_struct_defs _ Hd) Hi1 Hi2). eapply NoDup_at; [apply (dm_struct_handles _ Hd)| |]; [by apply at_fmap|].
  rewrite Hn, Hm. by apply (at_fmap (λ h, (sh_module h, sh_name h))).
Qed.
Lemma function_name_unique m d1 d2 fh1 fh2 name : distinct_module m → d1 ∈ m_function_defs m → d2 ∈ m_function_defs m →
  function_handle_at (VModule m) (fdef_function d1) = Ok fh1 → function_handle_at (VModule m) (fdef_function d2) = Ok fh2 →
  identifier_at (VModule m) (fh_name fh1) = Ok name → identifier_at (VModule m) (fh_name fh2) = Ok name → d1 = d2.
Proof.
  intros Hd Hi1 Hi2 H1%handle_at_in_bounds H2%handle_at_in_bounds Hn1 Hn2.
  assert (fh_name fh1 = fh_name fh2) as Hn by by eapply same_identifier.
  assert (fh_module fh1 = fh_module fh2) as Hm.
  { rewrite (proj2 (dm_functions_own _ Hd _ _ H1)), (proj2 (dm_functions_own _ Hd _ _ H2)); [done|by apply list_elem_of_fmap_2..]. }
  apply (NoDup_fmap_elem _ _ _ _ (dm_function_defs _ Hd) Hi1 Hi2). eapply NoDup_at; [apply (dm_function_handles _ Hd)| |]; [by apply at_fmap|].
  rewrite Hn, Hm. by apply (at_fmap (λ h, (fh_module h, fh_name h))).
Qed.

(** ** Normalized modules *)

Section Normalizes.
Context (m : CompiledModule) (n : Module_) (Hn : module_new m = Ok n).

Lemma module_new_parts : ∃ structs functions, mod_structs n = to_map structs ∧ mod_exposed_functions n = to_map functions ∧
  Forall2 (λ d s, struct_new m d = Ok s) (m_struct_defs m) structs ∧
  Forall2 (λ d f, function_new m d = Ok f) (filter (λ d, is_exposed d = true) (m_function_defs m)) functions ∧
  immediate_friends m = Ok (mod_friends n) ∧ self_id (VModule m) = Ok (Some {| mid_address := mod_address n; mid_name := mod_name n |}).
Proof.
  unfold module_new in Hn. apply bind_Ok in Hn as (friends & Hf & H). apply bind_Ok in H as (structs & Hs%collect_Ok & H).
  apply bind_Ok in H as (functions & Hfn%collect_Ok & H). apply bind_Ok in H as (mh & Hmh & H). apply bind_Ok in H as (a & Ha & H).
  apply bind_Ok in H as (name & Hname & [= <-]). exists structs, functions. split_and!; try done.
  unfold self_id. cbn [view_self_handle_idx]. rewrite Hmh. cbn. unfold module_id_for_handle. rewrite Ha. cbn. by rewrite Hname.
Qed.
Lemma normalized_id : module_self_id m = Ok {| mid_address := mod_address n; mid_name := mod_name n |}.
Proof. destruct module_new_parts as (_ & _ & _ & _ & _ & _ & _ & Hid). unfold module_self_id. by rewrite Hid. Qed.
Lemma normalized_friends : immediate_friends m = Ok (mod_friends n).
Proof. by destruct module_new_parts as (_ & _ & _ & _ & _ & _ & Hf & _). Qed.

Definition struct_matches (sh : StructHandle) (s : StructType) : Prop := st_abilities s = sh_abilities sh ∧ st_type_parameters s = sh_type_parameters sh.
Lemma normalized_struct name s : mod_structs n !! name = Some s → ∃ sh, struct_of m name sh ∧ struct_matches sh s.
Proof.
  destruct module_new_parts as (structs & _ & -> & _ & Hs & _). intros Hin%to_map_elem.
  apply list_elem_of_lookup in Hin as [i Hi]. destruct (Forall2_lookup_r _ _ _ _ _ Hs Hi) as (d & Hd & Hnew).
  apply struct_new_spec in Hnew as (sh & Hsh & Hname & Hm). exists sh. split; [|done]. exists d. split_and!; [by eapply list_elem_of_lookup_2|done..].
Qed.
Lemma struct_normalized name sh : distinct_module m → struct_of m name sh → ∃ s, mod_structs n !! name = Some s ∧ struct_matches sh s.
Proof.
  intros Hd (d & Hin & Hsh & Hname). destruct module_new_parts as (structs & _ & -> & _ & Hs & _).
  apply list_elem_of_lookup in Hin as [i Hi]. destruct (Forall2_lookup_l _ _ _ _ _ Hs Hi) as ([name' s] & Hsi & Hnew).
  pose proof Hnew as (sh' & Hsh' & Hname' & Hm)%struct_new_spec. assert (sh' = sh) as -> by congruence. assert (name' = name) as -> by congruence.
  exists s. split; [|done]. apply to_map_unique; [by eapply list_elem_of_lookup_2|]. intros s' [j Hj]%list_elem_of_lookup.
  destruct (Forall2_lookup_r _ _ _ _ _ Hs Hj) as (d' & Hd' & Hnew'). pose proof Hnew' as (sh2 & Hsh2 & Hname2 & _)%struct_new_spec.
  assert (d' = d) as -> by (eapply (struct_name_unique m d' d sh2 sh name); try done; by eapply list_elem_of_lookup_2). congruence.
Qed.

Definition function_matches (vis : Visibility) (fh : FunctionHandle) (f : Function) : Prop :=
  fun_visibility f = vis ∧ fun_type_parameters f = fh_type_parameters fh ∧ function_types m fh f.
Lemma normalized_function name f : mod_exposed_functions n !! name = Some f → fun_visibility f ≠ Private ∧
  ∃ vis fh, function_of m name vis fh ∧ function_matches vis fh f.
Proof.
  destruct module_new_parts as (_ & functions & _ & -> & _ & Hs & _). intros Hin%to_map_elem.
  apply list_elem_of_lookup in Hin as [i Hi]. destruct (Forall2_lookup_r _ _ _ _ _ Hs Hi) as (d & Hd%list_elem_of_lookup_2 & Hnew).
  apply list_elem_of_filter in Hd as [He Hd]. apply function_new_spec in Hnew as (fh & Hfh & Hname & Hv & Hm).
  split; [rewrite Hv; unfold is_exposed in He; by destruct (fdef_visibility d)|]. exists (fdef_visibility d), fh. split; [|done]. by exists d.
Qed.
Lemma function_normalized name vis fh : distinct_module m → function_of m name vis fh → vis ≠ Private →
  ∃ f, mod_exposed_functions n !! name = Some f ∧ function_matches vis fh f.
Proof.
  intros Hd (d & Hin & <- & Hfh & Hname) Hv. destruct module_new_parts as (_ & functions & _ & -> & _ & Hs & _).
  assert (d ∈ filter (λ d, is_exposed d = true) (m_function_defs m)) as [i Hi]%list_elem_of_lookup.
  { apply list_elem_of_filter. split; [|done]. unfold is_exposed. by destruct (fdef_visibility d). }
  destruct (Forall2_lookup_l _ _ _ _ _ Hs Hi) as ([name' f] & Hfi & Hnew).
  pose proof Hnew as (fh' & Hfh' & Hname' & Hm)%function_new_spec. assert (fh' = fh) as -> by congruence. assert (name' = name) as -> by congruence.
  exists f. split; [|done]. apply to_map_unique; [by eapply list_elem_of_lookup_2|]. intros f' [j Hj]%list_elem_of_lookup.
  destruct (Forall2_lookup_r _ _ _ _ _ Hs Hj) as (d' & Hd'%list_elem_of_lookup_2 & Hnew'). apply list_elem_of_filter in Hd' as [_ Hd'].
  pose proof Hnew' as (fh2 & Hfh2 & Hname2 & _)%function_new_spec.
  assert (d' = d) as -> by (by eapply (function_name_unique m d' d fh2 fh name)). congruence.
Qed.
Lemma normalized_visible : exposes_visible n.
Proof. intros name f H. by apply normalized_function in H as [? _]. Qed.
End Normalizes.

(** ** Upgrades *)

Section Links.
Context (v : BinaryIndexedView) (before after : list CompiledModule) (old new : CompiledModule) (nold nnew : Module_).
Context (Hold : module_new old = Ok nold) (Hnew : module_new new = Ok nnew) (Hkept : links_kept nold nnew).
Context (Hdistinct : distinct_module old).
Context (Htypes : Forall (Forall TokenCodec.token_ok) (m_signatures old)) (Htypes' : Forall (Forall TokenCodec.token_ok) (m_signatures new)).
Notation deps := (before ++ old :: after).
Notation deps' := (before ++ new :: after).
Context (Hids : ∀ d id, d ∈ deps → module_self_id d = Ok id → module_self_id old = Ok id → d = old).

Lemma same_id : module_self_id new = module_self_id old.
Proof. rewrite (normalized_id _ _ Hold), (normalized_id _ _ Hnew). by rewrite (lk_address _ _ Hkept), (lk_name _ _ Hkept). Qed.
(** A dependency is the old module, or stays. *)
Lemma dependency_cases id dm : dependency v deps id dm → dependency v deps' id dm ∨ dm = old ∧ dependency v deps' id new.
Proof.
  intros (Hin & Hid & Hs). rewrite elem_of_app, elem_of_cons in Hin. unfold dependency. rewrite elem_of_app, elem_of_cons.
  pose proof (normalized_id _ _ Hold) as Ho. destruct (decide (id = {| mid_address := mod_address nold; mid_name := mod_name nold |})) as [He|He].
  - right. assert (dm = old) as -> by (eapply Hids; [rewrite elem_of_app, elem_of_cons; exact Hin|exact Hid|congruence]).
    rewrite elem_of_app, elem_of_cons, same_id. auto.
  - left. split; [|done]. destruct Hin as [?|[->|?]]; [auto|congruence|auto].
Qed.
Lemma signature_types_ok m i ps : Forall (Forall TokenCodec.token_ok) (m_signatures m) → signature_at (VModule m) i = Ok ps → Forall TokenCodec.token_ok ps.
Proof. intros Hok Hp%unwrap_at_Ok. by eapply Forall_lookup_1. Qed.

Lemma visible_upgrade vis vis' : visible v old vis → as_visible vis vis' → visible v new vis'.
Proof.
  intros Hv Ha. unfold visible in *. destruct Ha as [<-|[-> ->]]; [|auto]. destruct Hv as [?|[?|(-> & self & friends & Hs & Hf & Hin)]]; [auto..|].
  right. right. split; [done|]. exists self, (mod_friends nnew). split_and!; [done|by apply normalized_friends|].
  rewrite (normalized_friends _ _ Hold) in Hf. injection Hf as <-. by apply (lk_friends _ _ Hkept).
Qed.
Lemma struct_upgrade name dsh : struct_of old name dsh → ∃ dsh', struct_of new name dsh' ∧
  is_subset (sh_abilities dsh) (sh_abilities dsh') = true ∧ weaker_parameters (sh_type_parameters dsh) (sh_type_parameters dsh').
Proof.
  intros Hs. destruct (struct_normalized _ _ Hold _ _ Hdistinct Hs) as (s & Hls & Ha & Hp). destruct (lk_structs _ _ Hkept _ _ Hls) as (s' & Hls' & Ha' & Hp').
  destruct (normalized_struct _ _ Hnew _ _ Hls') as (dsh' & Hs' & Hb & Hq). exists dsh'. by rewrite <- Ha, <- Hp, <- Hb, <- Hq.
Qed.
Lemma function_upgrade name vis dfh : function_of old name vis dfh → vis ≠ Private → ∃ vis' dfh' f f', function_of new name vis' dfh' ∧ as_visible vis vis' ∧
  weaker_constraints (fh_type_parameters dfh) (fh_type_parameters dfh') ∧ function_types old dfh f ∧ function_types new dfh' f' ∧
  fun_parameters f = fun_parameters f' ∧ fun_return f = fun_return f'.
Proof.
  intros Hf Hv. destruct (function_normalized _ _ Hold _ _ _ Hdistinct Hf Hv) as (f & Hlf & Hvis & Hp & Ht).
  destruct (lk_functions _ _ Hkept _ _ Hlf) as (f' & Hlf' & Hvv & Hps & Hrs & Hcs).
  destruct (normalized_function _ _ Hnew _ _ Hlf') as (_ & vis' & dfh' & Hf' & Hvis' & Hp' & Ht').
  exists vis', dfh', f, f'. subst vis vis'. rewrite <- Hp, <- Hp'. done.
Qed.

Lemma linked_struct_upgrade sh : linked_struct v deps sh → linked_struct v deps' sh.
Proof.
  intros (id & dm & dsh & Hid & Hdep & Hs & Ha & Hp). exists id. destruct (dependency_cases _ _ Hdep) as [Hdep'|[-> Hdep']]; [by exists dm, dsh|].
  destruct (struct_upgrade _ _ Hs) as (dsh' & Hs' & Ha' & Hp'). exists new, dsh'. split_and!; [done..|by eapply is_subset_trans|].
  eapply Forall2_transitive; [|exact Hp|exact Hp']. intros x y z [? Hc] [? Hc']. split; [auto|by eapply is_subset_trans].
Qed.
Lemma linked_function_upgrade h : linked_function v deps h → linked_function v deps' h.
Proof.
  intros (id & dm & vis & dfh & ps & rs & dps & drs & Hid & Hdep & Hf & Hv & Hc & Hps & Hdps & Hsp & Hrs & Hdrs & Hsr).
  exists id. destruct (dependency_cases _ _ Hdep) as [Hdep'|[-> Hdep']]; [by exists dm, vis, dfh, ps, rs, dps, drs|].
  assert (vis ≠ Private) as Hne by (by intros ->; destruct Hv as [?|[?|[? _]]]).
  destruct (function_upgrade _ _ _ Hf Hne) as (vis' & dfh' & f & f' & Hf' & Hvv & Hcc & (ps1 & rs1 & E1 & C1 & E2 & C2) & (ps2 & rs2 & E3 & C3 & E4 & C4) & Ep & Er).
  assert (ps1 = dps) as -> by congruence. assert (rs1 = drs) as -> by congruence.
  exists new, vis', dfh', ps, rs, ps2, rs2. split_and!; try done; [by eapply visible_upgrade| | |].
  - eapply Forall2_transitive; [|exact Hc|exact Hcc]. intros x y z H1 H2. by eapply is_subset_trans.
  - eapply (same_names_upgrade v old new ps dps ps2 (fun_parameters f)); [exact (signature_types_ok _ _ _ Htypes E1)|exact (signature_types_ok _ _ _ Htypes' E3)|done|by rewrite Ep|done].
  - eapply (same_names_upgrade v old new rs drs rs2 (fun_return f)); [exact (signature_types_ok _ _ _ Htypes E2)|exact (signature_types_ok _ _ _ Htypes' E4)|done|by rewrite Er|done].
Qed.
Lemma visibility_upgrade idx vis : Forall (λ h, foreign v (fh_module h) → linked_function v deps h) (view_function_handles v) →
  visibility_of v deps idx vis → ∃ vis', visibility_of v deps' idx vis' ∧ (vis' = Script → vis = Script).
Proof.
  intros Hlinked [Hown|(i & h & id & dm & dfh & Hi & Hw & Hfor & Hid & Hdep & Hf)]; [exists vis; split; [by left|done]|].
  destruct (dependency_cases _ _ Hdep) as [Hdep'|[-> Hdep']]; [exists vis; split; [|done]; right; by exists i, h, id, dm, dfh|].
  assert (vis ≠ Private) as Hne.
  { rewrite Forall_forall in Hlinked. destruct (Hlinked h) as (id2 & dm2 & vis2 & dfh2 & ? & ? & ? & ? & Hid2 & Hdep2 & Hf2 & Hv2 & _); [by eapply list_elem_of_lookup_2|done|].
    assert (id2 = id) as -> by congruence. assert (dm2 = old) as ->.
    { destruct Hdep as (_ & Ho & _), Hdep2 as (Hin2 & Ho2 & _). exact (Hids _ _ Hin2 Ho2 Ho). }
    destruct Hf as (d & Hd & <- & Hh & Hname), Hf2 as (d2 & Hd2 & <- & Hh2 & Hname2).
    assert (d2 = d) as -> by (by eapply (function_name_unique old d2 d dfh2 dfh id.2)). intros He. rewrite He in Hv2. by destruct Hv2 as [?|[?|[? _]]]. }
  destruct (function_upgrade _ _ _ Hf Hne) as (vis' & dfh' & _ & _ & Hf' & Hvv & _). exists vis'. split.
  - right. by exists i, h, id, new, dfh'.
  - intros ->. by destruct Hvv as [->|[_ ?]].
Qed.
Lemma linked_upgrade : linked v deps → linked v deps'.
Proof.
  intros [Hm Hs Hf Hc]. constructor.
  - intros i h Hi Hfor. destruct (Hm i h Hi Hfor) as (id & dm & Hid & Hdep). exists id. destruct (dependency_cases _ _ Hdep) as [?|[_ ?]]; eauto.
  - eapply Forall_impl; [exact Hs|]. intros sh H Hfor. by apply linked_struct_upgrade, H.
  - eapply Forall_impl; [exact Hf|]. intros h H Hfor. by apply linked_function_upgrade, H.
  - assert (∀ vis code, calls_allowed v deps vis code → calls_allowed v deps' vis code) as H.
    { intros vis code H i idx Hi Hcall. destruct (H i idx Hi Hcall) as (vis1 & Hv1 & H1). destruct (visibility_upgrade _ _ Hf Hv1) as (vis2 & Hv2 & H2). eauto. }
    destruct v; [|by apply H]. eapply Forall_impl; [exact Hc|]. intros d Hd c Hdc. by apply H, Hd.
Qed.
End Links.

(** C25. A compatible upgrade keeps its dependents: a unit that links against a set of
    modules with distinct ids links as well after one of them, whose entries are distinct,
    is replaced by a version that the compatibility check calls linking compatible, when
    both versions have well-formed types and can be normalized. *)
Theorem upgrade_keeps_links (v : BinaryIndexedView) (before after : list CompiledModule) (old new : CompiledModule) (nold nnew : Module_) (c : Compatibility) :
  linked v (before ++ old :: after) →
  (∀ d id, d ∈ before ++ old :: after → module_self_id d = Ok id → module_self_id old = Ok id → d = old) →
  distinct_module old → Forall (Forall TokenCodec.token_ok) (m_signatures old) → Forall (Forall TokenCodec.token_ok) (m_signatures new) →
  module_new old = Ok nold → module_new new = Ok nnew →
  Compatibility_check (E := StatusCode) nold nnew = Ok c → struct_and_function_linking c = true →
  linked v (before ++ new :: after).
Proof.
  intros Hl Hids Hd Ht Ht' Hold Hnew Hc Hs.
  destruct (compatibility_tells (E := StatusCode) nold nnew (normalized_visible _ _ Hold)) as (c' & Hc' & H1 & _).
  assert (c' = c) as -> by congruence. eapply linked_upgrade; [exact Hold|exact Hnew|by apply H1|done..].
Qed.
End Upgrade.

(** ** [abi.rs] *)

Module Abi.
Inductive TypeAbility : Set := Copy | Drop | Store | Key.
Record TypeAbilities : Set := { abilities : list TypeAbility }.
Inductive Type_ : Set :=
| Bool | U8 | U64 | U128 | Address | Signer
| Vector (t : Type_)
| Struct (id : ModuleId) (name : Identifier) (type_parameters : list Type_)
| Reference (t : Type_)
| MutableReference (t : Type_)
| TypeParameter (i : u16).
Record StructDef : Set := { sdf_id : ModuleId; sdf_name : Identifier; sdf_type_parameters : list Type_ }.
Record Field : Set := { field_name : Identifier; field_tp : Type_ }.
Record StructAbi : Set := {
  sa_name : Identifier; sa_type_parameters : list TypeAbilities; sa_abilities : TypeAbilities; sa_fields : list Field }.
Inductive FuncVisibility : Set := Public | Script | Friend.
Record Func : Set := {
  fa_name : Identifier; fa_visibility : FuncVisibility; fa_type_parameters : list TypeAbilities; fa_parameters : list Type_; fa_returns : list Type_ }.
Record FriendAbi : Set := { fr_address : AccountAddress; fr_name : Identifier }.
Record ModuleAbi : Set := { ma_id : ModuleId; ma_friends : list FriendAbi; ma_structs : list StructAbi; ma_funcs : list Func }.

(** [From<&AbilitySet>] and [From<&Visibility>] *)
Definition ability_of (a : Ability) : TypeAbility :=
  match a with Abilities.Copy => Copy | Abilities.Drop => Drop | Abilities.Store => Store | Abilities.Key => Key end.
Definition abilities_of (val : AbilitySet) : TypeAbilities := {| abilities := ability_of <$> into_iter val |}.
Definition visibility_of_abi (val : Visibility) : FuncVisibility :=
  match val with FileFormat.Private => Public | FileFormat.Public => Public | FileFormat.Script => Script | FileFormat.Friend => Friend end.

Section Make.
Context (module : CompiledModule).
Notation view := (VModule module).
(** [make_struct_def], with the types of its parameters *)
Definition make_struct_def (idx : StructHandleIndex) (type_parameters : result StatusCode (list Type_)) : result StatusCode StructDef :=
  struct_handle ← struct_handle_at view idx;
  struct_module_handle ← module_handle_at view (sh_module struct_handle);
  id ← module_id_for_handle view struct_module_handle;
  name ← identifier_at view (sh_name struct_handle);
  type_parameters ← type_parameters;
  Ok {| sdf_id := id; sdf_name := name; sdf_type_parameters := type_parameters |}.
Definition struct_type (d : StructDef) : Type_ := Struct (sdf_id d) (sdf_name d) (sdf_type_parameters d).
Fixpoint make_type (tok : SignatureToken) : result StatusCode Type_ :=
  match tok with
  | SignatureToken.Bool => Ok Bool
  | SignatureToken.U8 => Ok U8
  | SignatureToken.U64 => Ok U64
  | SignatureToken.U128 => Ok U128
  | SignatureToken.Address => Ok Address
  | SignatureToken.Signer => Ok Signer
  | SignatureToken.Vector tp => t ← make_type tp; Ok (Vector t)
  | SignatureToken.Struct idx => d ← make_struct_def idx (Ok []); Ok (struct_type d)
  | SignatureToken.StructInstantiation idx tps => d ← make_struct_def idx (collect make_type tps); Ok (struct_type d)
  | SignatureToken.Reference rf => t ← make_type rf; Ok (Reference t)
  | SignatureToken.MutableReference tp => t ← make_type tp; Ok (MutableReference t)
  | SignatureToken.TypeParameter val => Ok (TypeParameter val)
  end.
Definition make_field (field : FieldDefinition) : result StatusCode Field :=
  name ← identifier_at view (fd_name field);
  tp ← make_type (fd_signature field);
  Ok {| field_name := name; field_tp := tp |}.
Definition make_struct (sdef : StructDefinition) : result StatusCode StructAbi :=
  handle ← struct_handle_at view (sd_struct_handle sdef);
  fields ← match sd_field_information sdef with
           | Native => Ok []
           | Declared defs => collect make_field defs
           end;
  name ← identifier_at view (sh_name handle);
  Ok {| sa_name := name; sa_type_parameters := (λ tp, abilities_of (stp_constraints tp)) <$> sh_type_parameters handle;
        sa_abilities := abilities_of (sh_abilities handle); sa_fields := fields |}.
Definition make_structs_abi : result StatusCode (list StructAbi) := collect make_struct (m_struct_defs module).
Definition make_func (def : FunctionDefinition) : result StatusCode Func :=
  handle ← function_handle_at view (fdef_function def);
  parameters ← signature_at view (fh_parameters handle);
  return_ ← signature_at view (fh_return handle);
  name ← identifier_at view (fh_name handle);
  parameters ← collect make_type parameters;
  returns ← collect make_type return_;
  Ok {| fa_name := name; fa_visibility := visibility_of_abi (fdef_visibility def);
        fa_type_parameters := abilities_of <$> fh_type_parameters handle; fa_parameters := parameters; fa_returns := returns |}.
Definition make_func_abi : result StatusCode (list Func) :=
  collect make_func (filter (λ d, Normalized.is_exposed d = true) (m_function_defs module)).
Definition make_friend (decl : ModuleHandle) : result StatusCode FriendAbi :=
  address ← address_identifier_at view (mh_address decl);
  name ← identifier_at view (mh_name decl);
  Ok {| fr_address := address; fr_name := name |}.
Definition make_friend_abi : result StatusCode (list FriendAbi) := collect make_friend (m_friend_decls module).
(** [From<CompiledModule>] *)
Definition module_abi : result StatusCode ModuleAbi :=
  self_id ← self_id view;
  id ← unwrap self_id;
  friends ← make_friend_abi;
  structs ← make_structs_abi;
  funcs ← make_func_abi;
  Ok {| ma_id := id; ma_friends := friends; ma_structs := structs; ma_funcs := funcs |}.
End Make.

(** *** Serialization, as serde derives it *)

Definition serialize_fields (name : string) (fields : list Serialize) : Serialize := λ self,
  t ← serialize_struct name (len fields) self;
  t ← try_fold (λ t field, serialize_element field t) fields t;
  Ok (output t).
Definition serialize_ability (a : TypeAbility) : Serialize :=
  serialize_unit_variant (match a with Copy => 0 | Drop => 1 | Store => 2 | Key => 3 end).
Definition serialize_abilities (a : TypeAbilities) : Serialize := serialize_fields "TypeAbilities" [serialize_vec serialize_ability (abilities a)].
Fixpoint serialize_type (tp : Type_) : Serialize :=
  match tp with
  | Bool => serialize_unit_variant 0
  | U8 => serialize_unit_variant 1
  | U64 => serialize_unit_variant 2
  | U128 => serialize_unit_variant 3
  | Address => serialize_unit_variant 4
  | Signer => serialize_unit_variant 5
  | Vector t => serialize_newtype_variant "Type" 6 (serialize_type t)
  | Struct id name type_parameters =>
      serialize_newtype_variant "Type" 7
        (serialize_fields "StructDef" [serialize_module_id id; serialize_identifier name; serialize_vec serialize_type type_parameters])
  | Reference t => serialize_newtype_variant "Type" 8 (serialize_type t)
  | MutableReference t => serialize_newtype_variant "Type" 9 (serialize_type t)
  | TypeParameter i => serialize_newtype_variant "Type" 10 (serialize_u16 i)
  end.
Definition serialize_field (f : Field) : Serialize := serialize_fields "Field" [serialize_identifier (field_name f); serialize_type (field_tp f)].
Definition serialize_struct_abi (s : StructAbi) : Serialize := serialize_fields "Struct"
  [serialize_identifier (sa_name s); serialize_vec serialize_abilities (sa_type_parameters s); serialize_abilities (sa_abilities s);
   serialize_vec serialize_field (sa_fields s)].
Definition serialize_visibility (v : FuncVisibility) : Serialize :=
  serialize_unit_variant (match v with Public => 0 | Script => 1 | Friend => 2 end).
Definition serialize_func (f : Func) : Serialize := serialize_fields "Func"
  [serialize_identifier (fa_name f); serialize_visibility (fa_visibility f); serialize_vec serialize_abilities (fa_type_parameters f);
   serialize_vec serialize_type (fa_parameters f); serialize_vec serialize_type (fa_returns f)].
Definition serialize_friend (f : FriendAbi) : Serialize := serialize_fields "Friend" [serialize_address (fr_address f); serialize_identifier (fr_name f)].
Definition serialize_module_abi (a : ModuleAbi) : Serialize := serialize_fields "ModuleAbi"
  [serialize_module_id (ma_id a); serialize_vec serialize_friend (ma_friends a); serialize_vec serialize_struct_abi (ma_structs a);
   serialize_vec serialize_func (ma_funcs a)].
End Abi.

(** [get_module_abi] of [mvm.rs], on the module that [get_module] reads *)
Definition get_module_abi {S} `{!Storage S} (state : S) (module_id : list u8) : result unit (option (list u8)) :=
  module_id ← map_err (λ _, tt) (module_id_from_bytes module_id);
  bytecode ← state_get_module state module_id;
  match bytecode with
  | Some bytecode =>
      module ← map_err (λ _, tt) (CompiledModule_deserialize bytecode);
      abi ← map_err (λ _, tt) (Abi.module_abi module);
      bytes ← map_err (λ _, tt) (to_bytes (Abi.serialize_module_abi abi));
      Ok (Some bytes)
  | None => Ok None
  end.

(** ** Interfaces of modules *)

Section Interfaces.
Context (m : CompiledModule) (Hm : module_in_bounds m).
Notation view := (VModule m).

(** What is normalized, as it appears in an interface *)
Fixpoint abi_type (t : Normalized.Type_) : Abi.Type_ :=
  match t with
  | Normalized.Bool => Abi.Bool | Normalized.U8 => Abi.U8 | Normalized.U64 => Abi.U64 | Normalized.U128 => Abi.U128
  | Normalized.Address => Abi.Address | Normalized.Signer => Abi.Signer
  | Normalized.Struct a mn n ts => Abi.Struct {| mid_address := a; mid_name := mn |} n (abi_type <$> ts)
  | Normalized.Vector t => Abi.Vector (abi_type t)
  | Normalized.TypeParameter i => Abi.TypeParameter i
  | Normalized.Reference t => Abi.Reference (abi_type t)
  | Normalized.MutableReference t => Abi.MutableReference (abi_type t)
  end.
Definition abi_field (f : Normalized.Field) : Abi.Field := {| Abi.field_name := Normalized.fld_name f; Abi.field_tp := abi_type (Normalized.fld_type f) |}.
Definition abi_struct (p : Identifier * Normalized.StructType) : Abi.StructAbi :=
  {| Abi.sa_name := p.1; Abi.sa_type_parameters := (λ tp, Abi.abilities_of (stp_constraints tp)) <$> Normalized.st_type_parameters p.2;
     Abi.sa_abilities := Abi.abilities_of (Normalized.st_abilities p.2); Abi.sa_fields := abi_field <$> Normalized.st_fields p.2 |}.
Definition abi_func (p : Identifier * Normalized.Function) : Abi.Func :=
  {| Abi.fa_name := p.1; Abi.fa_visibility := Abi.visibility_of_abi (Normalized.fun_visibility p.2);
     Abi.fa_type_parameters := Abi.abilities_of <$> Normalized.fun_type_parameters p.2;
     Abi.fa_parameters := abi_type <$> Normalized.fun_parameters p.2; Abi.fa_returns := abi_type <$> Normalized.fun_return p.2 |}.
Definition abi_friend (id : ModuleId) : Abi.FriendAbi := {| Abi.fr_address := mid_address id; Abi.fr_name := mid_name id |}.
(** A struct that is declared, not native *)
Definition is_declared (d : StructDefinition) : Prop := match sd_field_information d with Native => False | Declared _ => True end.
#[local] Instance is_declared_dec d : Decision (is_declared d).
Proof. unfold is_declared. destruct (sd_field_information d); apply _. Defined.

Lemma collect_both {A B C} (f : A → result StatusCode B) (g : A → result StatusCode C) (h : B → C) l :
  Forall (λ x, ∃ y, f x = Ok y ∧ g x = Ok (h y)) l → ∃ ys, collect f l = Ok ys ∧ collect g l = Ok (h <$> ys).
Proof.
  induction 1 as [|x l (y & Hf & Hg) _ (ys & Hfs & Hgs)]; [by exists []|]. exists (y :: ys). cbn. rewrite Hf, Hg. cbn. by rewrite Hfs, Hgs.
Qed.
Lemma handles_total sh : struct_handle_in_bounds view sh → ∃ mh a mn n, module_handle_at view (sh_module sh) = Ok mh ∧
  address_identifier_at view (mh_address mh) = Ok a ∧ identifier_at view (mh_name mh) = Ok mn ∧ identifier_at view (sh_name sh) = Ok n.
Proof.
  destruct Hm as [_ Hb]. intros [H1 H2]. destruct (module_handle_at_total _ Hb _ H1) as (mh & Hmh & Ha & Hn).
  destruct (unwrap_at (E := StatusCode) _ _ Ha) as (a & Ha' & _), (unwrap_at (E := StatusCode) _ _ Hn) as (mn & Hmn & _), (unwrap_at (E := StatusCode) _ _ H2) as (n & Hn' & _).
  by exists mh, a, mn, n.
Qed.
Lemma struct_handle_total i sh : at_ (m_struct_handles m) i = Some sh → struct_handle_at view i = Ok sh ∧ struct_handle_in_bounds view sh.
Proof. destruct Hm as [_ Hb]. intros Hi. split; [by apply struct_handle_at_total|]. by eapply (Forall_lookup_1 _ _ _ _ (ib_struct_handles _ Hb)). Qed.
Lemma types_agree t : type_in_bounds view t → ∃ u, Normalized.type_new m t = Ok u ∧ Abi.make_type m t = Ok (abi_type u).
Proof.
  induction t as [| | | | | |t IH|i|i ts IH|t IH|t IH|i] using SignatureToken.token_ind; intros Ht;
    try (by eexists); try (destruct Ht as [_ Ht]; destruct (IH Ht) as (u & H1 & H2); cbn; rewrite H1, H2; by eexists).
  - destruct Ht as [(sh & Hi & Hp) _]. destruct (struct_handle_total _ _ Hi) as [Hsh Hib]. destruct (handles_total _ Hib) as (mh & a & mn & n & Hmh & Ha & Hmn & Hn).
    cbn [Normalized.type_new Abi.make_type]. unfold Abi.make_struct_def, Normalized.struct_path, module_id_for_handle. rewrite Hsh. cbn. rewrite Hp, Hmh. cbn.
    rewrite Ha. cbn. rewrite Hmn. cbn. rewrite Hn. cbn. by eexists.
  - pose proof Ht as Hargs. apply all_nodes_args in Hargs. destruct Ht as [(sh & Hi & Hp) _]. destruct (struct_handle_total _ _ Hi) as [Hsh Hib].
    destruct (handles_total _ Hib) as (mh & a & mn & n & Hmh & Ha & Hmn & Hn).
    destruct (collect_both (Normalized.type_new m) (Abi.make_type m) abi_type ts) as (us & H1 & H2).
    { apply Forall_forall. intros t Hin. rewrite Forall_forall in IH, Hargs. by apply IH, Hargs. }
    cbn [Normalized.type_new Abi.make_type]. unfold Abi.make_struct_def, Normalized.struct_path, module_id_for_handle. rewrite Hsh. cbn. rewrite Hmh. cbn.
    rewrite Ha. cbn. rewrite Hmn. cbn. rewrite Hn. cbn. rewrite H1, H2. by eexists.
Qed.
Lemma fields_agree fs sh : Forall (λ f, below (m_identifiers m) (fd_name f) ∧ type_in_bounds view (fd_signature f) ∧
    params_below (len (sh_type_parameters sh)) (fd_signature f)) fs →
  ∃ ys, collect (Normalized.field_new m) fs = Ok ys ∧ collect (Abi.make_field m) fs = Ok (abi_field <$> ys).
Proof.
  intros H. apply collect_both. eapply Forall_impl; [exact H|]. intros f (H1 & H2 & _). destruct (unwrap_at (E := StatusCode) _ _ H1) as (n & Hn & _).
  destruct (types_agree _ H2) as (u & Hu & Ha). unfold Normalized.field_new, Abi.make_field, identifier_at. cbn [view_identifiers]. rewrite Hn. cbn. rewrite Hu, Ha. by eexists.
Qed.
Lemma struct_agrees d : d ∈ m_struct_defs m → ∃ s, Abi.make_struct m d = Ok s ∧
  if decide (is_declared d) then ∃ p, Normalized.struct_new m d = Ok p ∧ s = abi_struct p else Normalized.struct_new m d = Panic.
Proof.
  destruct Hm as [_ Hb]. intros Hd. pose proof (ib_struct_defs _ Hb) as H. cbn in H. rewrite Forall_forall in H. destruct (H d Hd) as (sh & Hi & Hf).
  destruct (struct_handle_total _ _ Hi) as [Hsh Hib]. destruct (handles_total _ Hib) as (_ & _ & _ & n & _ & _ & _ & Hn).
  unfold Normalized.struct_new, Abi.make_struct, is_declared_dec, is_declared. rewrite Hsh. cbn. destruct (sd_field_information d) as [|fs]; cbn.
  - rewrite Hn. cbn. eexists. by split.
  - destruct (fields_agree _ _ Hf) as (ys & H1 & H2). rewrite H1, H2. cbn. rewrite Hn. cbn. eexists. split; [done|]. by eexists.
Qed.
Lemma signature_agrees i : below (m_signatures m) i → ∃ sig us, signature_at view i = Ok sig ∧ collect (Normalized.type_new m) sig = Ok us ∧
  collect (Abi.make_type m) sig = Ok (abi_type <$> us).
Proof.
  destruct Hm as [_ Hb]. intros Hi. destruct (unwrap_at (E := StatusCode) _ _ Hi) as (sig & Hsig & Hat). exists sig.
  destruct (collect_both (Normalized.type_new m) (Abi.make_type m) abi_type sig) as (us & H1 & H2); [|by exists us].
  eapply Forall_impl; [exact (Forall_lookup_1 _ _ _ _ (ib_signatures _ Hb) Hat)|]. exact types_agree.
Qed.
Lemma func_agrees d : d ∈ m_function_defs m → ∃ p, Normalized.function_new m d = Ok p ∧ Abi.make_func m d = Ok (abi_func p).
Proof.
  destruct Hm as [_ Hb]. intros Hd. pose proof (ib_function_defs _ Hb) as H. cbn in H. rewrite Forall_forall in H. destruct (H d Hd) as (Hi & _).
  destruct (function_handle_at_total _ Hb _ Hi) as (fh & Hfh & _ & Hn & Hp & Hr & _). destruct (unwrap_at (E := StatusCode) _ _ Hn) as (n & Hn' & _).
  destruct (signature_agrees _ Hp) as (ps & us & H1 & H2 & H3), (signature_agrees _ Hr) as (rs & ws & H4 & H5 & H6).
  unfold Normalized.function_new, Abi.make_func. rewrite Hfh. cbn [mbind result_bind].
  change (identifier_at view (fh_name fh)) with (unwrap (E := StatusCode) (at_ (view_identifiers view) (fh_name fh))).
  rewrite Hn', H1, H4. cbn [mbind result_bind]. rewrite H2, H3. cbn [mbind result_bind]. rewrite H5, H6. by eexists.
Qed.
Lemma friends_agree : ∃ ids, immediate_friends m = Ok ids ∧ Abi.make_friend_abi m = Ok (abi_friend <$> ids).
Proof.
  destruct Hm as [_ Hb]. apply collect_both. eapply Forall_impl; [exact (ib_friend_decls _ Hb)|]. intros h [Ha Hn].
  destruct (unwrap_at (E := StatusCode) _ _ Ha) as (a & Ha' & _), (unwrap_at (E := StatusCode) _ _ Hn) as (n & Hn' & _).
  unfold module_id_for_handle, Abi.make_friend, address_identifier_at, identifier_at. rewrite Ha'. cbn. cbn in Hn'. rewrite Hn'. by eexists.
Qed.
Lemma collect_panic {A B} (f : A → result StatusCode B) l : Forall (λ x, (∃ y, f x = Ok y) ∨ f x = Panic) l → Exists (λ x, f x = Panic) l → collect f l = Panic.
Proof.
  induction 1 as [|x l Hx _ IH]; intros H; [by apply Exists_nil in H|]. cbn. destruct Hx as [[y Hy]| ->]; [|done]. rewrite Hy. cbn.
  apply Exists_cons in H as [H|H]; [congruence|]. by rewrite IH.
Qed.

Lemma module_abi_agrees : ∃ abi id friends funcs, Abi.module_abi m = Ok abi ∧ Abi.ma_id abi = id ∧ self_id view = Ok (Some id) ∧
  immediate_friends m = Ok friends ∧ Abi.ma_friends abi = abi_friend <$> friends ∧
  Forall2 (λ d p, Normalized.function_new m d = Ok p) (filter (λ d, Normalized.is_exposed d = true) (m_function_defs m)) funcs ∧
  Abi.ma_funcs abi = abi_func <$> funcs ∧
  Forall2 (λ d s, is_declared d → ∃ p, Normalized.struct_new m d = Ok p ∧ s = abi_struct p) (m_struct_defs m) (Abi.ma_structs abi) ∧
  if decide (Forall is_declared (m_struct_defs m)) then ∃ n, Normalized.module_new m = Ok n else Normalized.module_new m = Panic.
Proof.
  pose proof Hm as [_ Hb]. destruct (module_handle_at_total _ Hb (m_self_module_handle_idx m) (ib_self _ Hb _ eq_refl)) as (mh & Hmh & Ha & Hn).
  destruct (unwrap_at (E := StatusCode) _ _ Ha) as (a & Ha' & _), (unwrap_at (E := StatusCode) _ _ Hn) as (n & Hn' & _).
  assert (Hid : self_id view = Ok (Some {| mid_address := a; mid_name := n |})).
  { unfold self_id. cbn [view_self_handle_idx]. rewrite Hmh. cbn. unfold module_id_for_handle, address_identifier_at, identifier_at. rewrite Ha'. cbn. cbn in Hn'. by rewrite Hn'. }
  destruct friends_agree as (friends & Hf & Hf').
  destruct (collect_both (Normalized.function_new m) (Abi.make_func m) abi_func (filter (λ d, Normalized.is_exposed d = true) (m_function_defs m))) as (funcs & Hfn & Hfn').
  { apply Forall_forall. intros d [_ Hd]%list_elem_of_filter. by apply func_agrees. }
  destruct (collect_total (Abi.make_struct m) (m_struct_defs m)) as (structs & Hs & _).
  { apply Forall_forall. intros d Hd. destruct (struct_agrees d Hd) as (s & Hs & _). eauto. }
  exists {| Abi.ma_id := {| mid_address := a; mid_name := n |}; Abi.ma_friends := abi_friend <$> friends; Abi.ma_structs := structs; Abi.ma_funcs := abi_func <$> funcs |},
    {| mid_address := a; mid_name := n |}, friends, funcs. split_and!; try done.
  - unfold Abi.module_abi. rewrite Hid. cbn [mbind result_bind unwrap]. rewrite Hf'. cbn [mbind result_bind]. unfold Abi.make_structs_abi, Abi.make_func_abi. rewrite Hs. cbn [mbind result_bind]. by rewrite Hfn'.
  - by apply collect_Ok.
  - cbn. apply collect_Ok in Hs. apply Forall2_same_length_lookup. split; [by eapply Forall2_length|]. intros i d s Hd Hsi Hdec.
    destruct (struct_agrees d) as (s' & Hs' & Hp); [by eapply list_elem_of_lookup_2|]. rewrite decide_True in Hp by done. destruct Hp as (p & Hp & ->).
    exists p. split; [done|]. pose proof (Forall2_lookup_lr _ _ _ _ _ _ Hs Hd Hsi) as He. cbn in He. congruence.
  - unfold Normalized.module_new. rewrite Hf. cbn [mbind result_bind]. case_decide as Hall.
    + destruct (collect_total (Normalized.struct_new m) (m_struct_defs m)) as (ss & -> & _).
      { apply Forall_forall. intros d Hd. destruct (struct_agrees d Hd) as (s & _ & Hp). rewrite Forall_forall in Hall. rewrite decide_True in Hp by by apply Hall. destruct Hp as (p & Hp & _). eauto. }
      cbn [mbind result_bind]. rewrite Hfn. cbn [mbind result_bind]. rewrite Hmh. cbn [mbind result_bind]. unfold address_identifier_at, identifier_at. rewrite Ha'. cbn. cbn in Hn'. rewrite Hn'. by eexists.
    + assert (Hpanic : collect (Normalized.struct_new m) (m_struct_defs m) = Panic); [apply collect_panic|by rewrite Hpanic].
      * apply Forall_forall. intros d Hd. destruct (struct_agrees d Hd) as (s & _ & Hp). case_decide; [left|by right]. destruct Hp as (p & Hp & _). eauto.
      * apply not_Forall_Exists in Hall; [|apply _]. apply Exists_exists in Hall as (d & Hd & Hnd). apply Exists_exists. exists d. split; [done|].
        destruct (struct_agrees d Hd) as (s & _ & Hp). by rewrite decide_False in Hp.
Qed.
Lemma module_has_abi : ∃ abi, Abi.module_abi m = Ok abi.
Proof. destruct module_abi_agrees as (abi & _ & _ & _ & H & _). by exists abi. Qed.

End Interfaces.

(** ** Writing an interface ends *)

(** A value whose serialization ends with bytes or an error, into any output *)
Definition ends (value : Serialize) : Prop := ∀ self, no_panic (value self).
Lemma output_u32_ends v self : v < 2 ^ 32 → no_panic (output_u32_as_uleb128 v self).
Proof. intros Hv. unfold output_u32_as_uleb128. rewrite output_uleb; [done| |lia]. assert (2 ^ 32 < 2 ^ (7 * N.of_nat 5)) by done. lia. Qed.
Lemma output_seq_len_ends n self : no_panic (output_seq_len n self).
Proof. unfold output_seq_len. destruct (_ <? _); [done|]. apply output_u32_ends. unfold wrap. by apply N.mod_lt. Qed.
Lemma enter_ends name self : no_panic (ser_enter_named_container name self).
Proof. unfold ser_enter_named_container. by destruct (_ =? _). Qed.
Lemma element_ends value self : ends value → no_panic (serialize_element value self).
Proof. intros H. apply bind_no_panic; [apply H|done]. Qed.
Lemma try_fold_ends {A} (f : Serializer → A → result BcsError Serializer) l self : (∀ x self, x ∈ l → no_panic (f self x)) → no_panic (try_fold f l self).
Proof.
  revert self. induction l as [|x l IH]; intros self H; [done|]. cbn [try_fold]. apply bind_no_panic; [apply H; by left|].
  intros self' _. apply IH. intros y s Hy. apply H. by right.
Qed.
Lemma bytes_ends v : ends (serialize_bytes v).
Proof. intros self. apply bind_no_panic; [apply output_seq_len_ends|done]. Qed.
Lemma newtype_ends name v : ends v → ends (serialize_newtype_struct name v).
Proof. intros H self. apply bind_no_panic; [apply enter_ends|]. intros s _. apply H. Qed.
Lemma newtype_variant_ends name i v : i < 2 ^ 32 → ends v → ends (serialize_newtype_variant name i v).
Proof. intros Hi H self. apply bind_no_panic; [apply enter_ends|]. intros s _. apply bind_no_panic; [by apply output_u32_ends|]. intros s' _. apply H. Qed.
Lemma unit_variant_ends i : i < 2 ^ 32 → ends (serialize_unit_variant i).
Proof. intros Hi self. apply bind_no_panic; [by apply output_u32_ends|done]. Qed.
Lemma identifier_ends i : ends (serialize_identifier i).
Proof. apply newtype_ends, bytes_ends. Qed.
Lemma address_ends a : ends (serialize_address a).
Proof.
  apply newtype_ends. intros self. apply bind_no_panic; [done|]. intros t _. apply bind_no_panic; [|done]. apply try_fold_ends. intros x s _. by apply element_ends.
Qed.
Lemma module_id_ends id : ends (serialize_module_id id).
Proof.
  intros self. apply bind_no_panic; [apply enter_ends|]. intros t _. apply bind_no_panic; [apply element_ends, address_ends|]. intros t' _.
  apply bind_no_panic; [apply element_ends, identifier_ends|done].
Qed.
Lemma vec_ends {A} (f : A → Serialize) l : Forall (λ x, ends (f x)) l → ends (serialize_vec f l).
Proof.
  intros H self. apply bind_no_panic; [apply output_seq_len_ends|]. intros t _. apply bind_no_panic; [|done]. apply try_fold_ends.
  intros x s Hx. rewrite Forall_forall in H. by apply element_ends, H.
Qed.
Lemma fields_end name fields : Forall ends fields → ends (Abi.serialize_fields name fields).
Proof.
  intros H self. apply bind_no_panic; [apply enter_ends|]. intros t _. apply bind_no_panic; [|done]. apply try_fold_ends.
  intros x s Hx. rewrite Forall_forall in H. by apply element_ends, H.
Qed.
#[local] Hint Resolve identifier_ends address_ends module_id_ends : core.
Ltac fields := apply fields_end; repeat (apply Forall_cons; split); try (by apply Forall_nil); try done.
Lemma all_vec_ends {A} (f : A → Serialize) l : (∀ x, ends (f x)) → ends (serialize_vec f l).
Proof. intros H. apply vec_ends, Forall_forall. auto. Qed.
Lemma abilities_end a : ends (Abi.serialize_abilities a).
Proof. fields. apply all_vec_ends. intros []; by apply unit_variant_ends. Qed.

Section AbiTypes.
Import Abi.
Context (P : Type_ → Prop).
Context (HBool : P Bool) (HU8 : P U8) (HU64 : P U64) (HU128 : P U128) (HAddress : P Address) (HSigner : P Signer)
  (HVector : ∀ t, P t → P (Vector t)) (HStruct : ∀ i n ts, Forall P ts → P (Struct i n ts))
  (HReference : ∀ t, P t → P (Reference t)) (HMutable : ∀ t, P t → P (MutableReference t)) (HParameter : ∀ i, P (TypeParameter i)).
Fixpoint abi_type_ind (t : Type_) : P t :=
  match t with
  | Bool => HBool | U8 => HU8 | U64 => HU64 | U128 => HU128 | Address => HAddress | Signer => HSigner
  | Vector t => HVector t (abi_type_ind t)
  | Struct i n ts => HStruct i n ts (list_ind (Forall P) (Forall_nil_2 P) (λ x l, Forall_cons_2 P x l (abi_type_ind x)) ts)
  | Reference t => HReference t (abi_type_ind t)
  | MutableReference t => HMutable t (abi_type_ind t)
  | TypeParameter i => HParameter i
  end.
End AbiTypes.
Lemma type_ends t : ends (Abi.serialize_type t).
Proof.
  induction t as [| | | | | |t IH|i n ts IH|t IH|t IH|i] using abi_type_ind; cbn [Abi.serialize_type];
    first [by apply unit_variant_ends|by apply newtype_variant_ends|idtac].
  - apply newtype_variant_ends; [done|]. fields. by apply vec_ends.
Qed.
Lemma module_abi_ends a : ends (Abi.serialize_module_abi a).
Proof.
  fields; apply all_vec_ends.
  - intros f. by fields.
  - intros s. fields; [apply all_vec_ends, abilities_end|apply abilities_end|]. apply all_vec_ends. intros f. fields. apply type_ends.
  - intros f. fields; [destruct (Abi.fa_visibility f); by apply unit_variant_ends|apply all_vec_ends, abilities_end|apply all_vec_ends, type_ends..].
Qed.

(** The host answers every request for the interface of a module that it can read: bytes
    of the interface when what is stored is a module whose indices are in range and its types
    are not nested too deeply to be written, an error otherwise, and no panic. *)
Theorem get_module_abi_answers {S : Type} `{!Storage S} (state : S) (module_id : list u8) (id : ModuleId) (stored : option (list u8)) :
  module_id_from_bytes module_id = Ok id → state_get_module state id = Ok stored →
  no_panic (get_module_abi state module_id) ∧
  ∀ bytes, get_module_abi state module_id = Ok (Some bytes) ↔ ∃ code m abi, stored = Some code ∧ CompiledModule_deserialize code = Ok m ∧
    module_in_bounds m ∧ Abi.module_abi m = Ok abi ∧ to_bytes (Abi.serialize_module_abi abi) = Ok bytes.
Proof.
  intros Hid Hs. unfold get_module_abi. rewrite Hid. cbn [map_err mbind result_bind]. rewrite Hs. cbn [mbind result_bind].
  destruct stored as [code|]; [|split; [done|]; naive_solver].
  destruct (CompiledModule_deserialize_total code) as [Hp Hb]. destruct (CompiledModule_deserialize code) as [m| | |] eqn:Hd; [| |done..].
  2:{ split; [done|]. intros bytes. split; [done|]. intros (c & m & abi & [= <-] & Hc & _). congruence. }
  specialize (Hb m eq_refl). destruct (module_has_abi m Hb) as (abi & Habi). cbn [map_err mbind result_bind]. rewrite Habi. cbn [map_err mbind result_bind].
  pose proof (module_abi_ends abi {| output := []; ser_depth := MAX_CONTAINER_DEPTH |}) as He. fold (to_bytes (Abi.serialize_module_abi abi)) in He.
  assert (H : ∀ bytes, to_bytes (Abi.serialize_module_abi abi) = Ok bytes ↔ ∃ code' m' abi', Some code = Some code' ∧ CompiledModule_deserialize code' = Ok m' ∧
    module_in_bounds m' ∧ Abi.module_abi m' = Ok abi' ∧ to_bytes (Abi.serialize_module_abi abi') = Ok bytes).
  { intros bytes. split; [intros Hw; by exists code, m, abi|]. intros (c & m' & abi' & [= <-] & Hc & _ & Ha & Hw). congruence. }
  setoid_rewrite <- H. destruct (to_bytes _) as [bytes| | |]; try done; (split; [done|]); naive_solver.
Qed.

(** ** Examples *)

(** A module with a struct and a function, and a new version with more abilities, weaker
    parameters, a friend and one more function *)
Definition library (abilities constraints : AbilitySet) (friends : list ModuleHandle) (more : list FunctionHandle) : CompiledModule :=
  {| m_version := 4; m_self_module_handle_idx := 0;
     m_module_handles := [ {| mh_address := 0; mh_name := 1 |}; {| mh_address := 0; mh_name := 3 |} ];
     m_struct_handles := [ {| sh_module := 0; sh_name := 2; sh_abilities := abilities;
                              sh_type_parameters := [ {| stp_constraints := constraints; stp_is_phantom := true |} ] |} ];
     m_function_handles := {| fh_module := 0; fh_name := 0; fh_parameters := 1; fh_return := 0; fh_type_parameters := [] |} :: more;
     m_field_handles := []; m_friend_decls := friends; m_struct_def_instantiations := [];
     m_function_instantiations := []; m_field_instantiations := [];
     m_signatures := [ []; [SignatureToken.U64] ];
     m_identifiers := [ [102; 111; 111]; [77]; [83]; [70]; [103] ];
     m_address_identifiers := [ ZERO ];
     m_constant_pool := [];
     m_struct_defs := [ {| sd_struct_handle := 0; sd_field_information := Declared [ {| fd_name := 0; fd_signature := SignatureToken.U8 |} ] |} ];
     m_function_defs := (λ i, {| fdef_function := i; fdef_visibility := Public; fdef_acquires_global_resources := []; fdef_code := None |}) <$>
       indices (len more + 1) |}.
Definition library_v1 : CompiledModule := library EMPTY EMPTY [] [].
Definition library_v2 : CompiledModule := library ALL EMPTY [ {| mh_address := 0; mh_name := 3 |} ]
  [ {| fh_module := 0; fh_name := 4; fh_parameters := 0; fh_return := 0; fh_type_parameters := [] |} ].
Definition normal (m : CompiledModule) : Normalized.Module_ :=
  match Normalized.module_new m with
  | Ok n => n
  | _ => {| Normalized.mod_address := []; Normalized.mod_name := []; Normalized.mod_friends := []; Normalized.mod_structs := ∅; Normalized.mod_exposed_functions := ∅ |}
  end.
Lemma library_v1_distinct : distinct_module library_v1.
Proof. apply duplication_module_iff; [apply verify_module_iff; by vm_compute|by split; vm_compute|by vm_compute]. Qed.
Lemma normal_v1 : Normalized.module_new library_v1 = Ok (normal library_v1).
Proof. by vm_compute. Qed.
Lemma normal_v2 : Normalized.module_new library_v2 = Ok (normal library_v2).
Proof. by vm_compute. Qed.

Example compatibility_check_spec_witness : ∃ c, Compatibility_check (E := StatusCode) (normal library_v1) (normal library_v2) = Ok c ∧
  is_fully_compatible c = true ∧ links_kept (normal library_v1) (normal library_v2).
Proof.
  destruct (compatibility_check_spec (E := StatusCode) (normal library_v1) (normal library_v2)) as (c & Hc & H1 & _).
  - eapply normalized_visible, normal_v1.
  - exists c. assert (Hr : Compatibility_check (E := StatusCode) (normal library_v1) (normal library_v2) = Ok {| struct_and_function_linking := true; struct_layout := true |}) by by vm_compute.
    assert (c = {| struct_and_function_linking := true; struct_layout := true |}) as -> by congruence. split; [done|]. split; [done|]. by apply H1.
Defined.
Example full_compatibility_preorder_witness : fully_compatible (normal library_v1) (normal library_v2).
Proof.
  destruct (full_compatibility_preorder (normal library_v1) (normal library_v1) (normal library_v2)) as [Hr Ht].
  - eapply normalized_visible, normal_v1.
  - eapply normalized_visible, normal_v1.
  - apply Ht; [exact Hr|]. eexists. split; [vm_compute; reflexivity|done].
Defined.
(** The client of [Linking] links against both versions, and not the other way around. *)
Example upgrade_keeps_links_witness : linked (VModule client_module) [library_v2].
Proof.
  apply (upgrade_keeps_links (VModule client_module) [] [] library_v1 library_v2 (normal library_v1) (normal library_v2)
    {| struct_and_function_linking := true; struct_layout := true |}).
  - apply dependencies_sound. by vm_compute.
  - intros d id Hd _ _. by apply list_elem_of_singleton in Hd.
  - exact library_v1_distinct.
  - by repeat constructor.
  - by repeat constructor.
  - exact normal_v1.
  - exact normal_v2.
  - by vm_compute.
  - reflexivity.
Defined.
(** A struct that is dropped and comes back with other fields: the layouts are kept in each
    step, but not in both. *)
Example layouts_step_by_step :
  let with_structs structs := {| Normalized.mod_address := []; Normalized.mod_name := []; Normalized.mod_friends := [];
    Normalized.mod_structs := structs; Normalized.mod_exposed_functions := ∅ |} in
  let struct ty := {[ [83] := {| Normalized.st_abilities := EMPTY; Normalized.st_type_parameters := [];
    Normalized.st_fields := [ {| Normalized.fld_name := [102]; Normalized.fld_type := ty |} ] |} ]} in
  let layout old new := struct_layout <$> Compatibility_check (E := StatusCode) (with_structs old) (with_structs new) in
  layout (struct Normalized.U8) ∅ = Ok true ∧ layout ∅ (struct Normalized.U64) = Ok true ∧ layout (struct Normalized.U8) (struct Normalized.U64) = Ok false.
Proof. by vm_compute. Qed.
Definition library_bytes : list u8 := match serialize_module library_v2 [] with Ok bytes => bytes | _ => [] end.
Example get_module_abi_answers_witness : no_panic (get_module_abi ({[ CODE_TAG :: ZERO ++ [1; 77] := library_bytes ]} : gmap (list u8) (list u8)) (ZERO ++ [1; 77])).
Proof.
  destruct (get_module_abi_answers ({[ CODE_TAG :: ZERO ++ [1; 77] := library_bytes ]} : gmap (list u8) (list u8)) (ZERO ++ [1; 77])
    {| mid_address := ZERO; mid_name := [77] |} (Some library_bytes)) as [Hp _].
  - by vm_compute.
  - by vm_compute.
  - exact Hp.
Defined.
